(* ===== verification/_CoqProject ===== *)
-Q . S2P
Prelude.v
Serialize.v
ArithUint256.v
ScriptNum.v
Script.v
SigEncoding.v
Interpreter.v
VerifyScript.v
Standard.v
Transaction.v
Block.v
Merkle.v
Chain.v
MedianTime.v
Coins.v
Pow.v
VersionBits.v
Undo.v
TxVerify.v
SigHash.v
Condensing.v
Contract.v
Activation.v
ChainInvariant.v
ChainSteps.v
BlockFiles.v
DGP.v
CheckBlock.v
CuckooCache.v
ScriptChecks.v
Reward.v
Connect.v
NodeOps.v
Accept.v
ProcessBlock.v
Compressor.v
Text.v
Bech32.v
Base58.v
KeyIO.v
Bloom.v
RollingBloom.v
