(* ===== verification/Prelude.v ===== *)
(** * Artax: a verification development of the node's core

    Artax is a node of a proof-of-stake currency with smart contracts, descended from Bitcoin
    Core and Qtum (C++, [src/src/]).  This library models the part that decides what is valid and
    what the node remembers, as executable definitions translated from the source, and proves what
    makes them correct.  Paths below are relative to [src/src/].

    ** The program's parts and how they interact

    Bytes from peers and from disk are decoded ([serialize.h]) into scripts, transactions and
    blocks.  A header that is accepted ([validation.cpp], [checkpoints.cpp]) is linked into a tree
    of block index entries ([chain.h]), where its target ([pow.cpp]), its stake kernel
    ([pos.cpp]), its time against the median of its ancestors and the deployments it signals
    ([versionbits.cpp]) are judged; the transactions of a block are bound to its header by Merkle
    trees ([consensus/merkle.cpp], [merkleblock.cpp]).  A block that passes the checks on its
    contents gets a place in the block files and its entry its data.  The best chain is then
    activated: blocks are disconnected and connected until no usable block is better.  To
    connect a block, each transaction is checked by itself and against the unspent outputs it
    spends ([consensus/tx_verify.cpp], [script/standard.cpp]), its scripts are run
    ([script/interpreter.cpp], [script/sigcache.cpp]), its contracts are executed within the
    governed gas schedule ([xax/]), the values they moved are settled by condensing
    transactions ([xax/xaxstate.cpp]), and the reward is checked ([validation.cpp], [pos.cpp]);
    the set of unspent outputs, kept in stacked caches over a database ([coins.cpp], [txdb.cpp]),
    is updated, with undo records for a reorganisation ([undo.h], [compressor.cpp]).  Towards its
    users the node writes destinations as addresses ([key_io.cpp], [base58.cpp], [bech32.cpp]) and
    sends light clients the part of a block their filter selects ([bloom.cpp], [merkleblock.cpp]).

    ** Files, in dependency order

    - [Prelude]: machine words, bytes, results, readers, the codec classes [RoundTrip],
      [Canonical] and [Codec], tactics and shared lemmas.
    - [Serialize] ([serialize.h]): integers, CompactSize, VARINT, vectors.
    - [ArithUint256] ([arith_uint256.*]): the 256-bit integers on 32-bit limbs; compact targets.
    - [ScriptNum], [Script] ([script/script.*]): script numbers; opcodes, the decoder, the pushing
      operators, counts and patterns.
    - [SigEncoding], [Interpreter], [VerifyScript] ([script/interpreter.*]): signature and key
      encodings, [EvalScript] with every opcode, witness programs and [VerifyScript].
    - [Standard] ([script/standard.*], sizes of [pubkey.h], [xax/xaxtransaction.h]): [Solver] with
      the contract templates, destinations and their scripts.
    - [Transaction], [Block] ([primitives/*], [uint256.h], [amount.h]): data, wire formats, hashes.
    - [Merkle]: roots and partial trees.
    - [Chain], [MedianTime] ([chain.*], [AddToBlockIndex] of [validation.cpp]): the block tree with
      its skip pointers, the active chain, median times.
    - [Coins] ([coins.*], the coin database of [txdb.cpp]): the view interface as the classes
      [CoinsView] and [CoinsViewLaws], caches over any lawful view, batch writes.
    - [Pow] ([pow.cpp], [pos.cpp], [consensus/params.h]): targets and stake kernels.
    - [VersionBits] ([versionbits.*]): deployments.
    - [Undo] ([UpdateCoins], [ApplyTxInUndo], [DisconnectBlock]): blocks and the coins.
    - [TxVerify] ([consensus/tx_verify.cpp], [consensus/validation.h]): transaction checks.
    - [SigHash] ([script/interpreter.cpp]): signature hashes and the signature checker.
    - [Condensing] ([xax/xaxstate.cpp]): what contracts own and the transactions that move it.
    - [Contract] ([XaxTxConverter], [ByteCodeExec] of [validation.cpp]): contract transactions.
    - [Activation], [ChainInvariant], [ChainSteps] ([CChainState] of [validation.cpp]): candidates,
      the best chain, activation, invalid and preferred blocks; the invariant of this state; the
      operations that keep it.
    - [BlockFiles] ([CBlockFileInfo], [FindBlockPos], pruning): places in the block files.
    - [DGP] ([xax/xaxDGP.cpp]): governed parameters.
    - [CheckBlock]: the checks on a block by itself and in context; witness commitments.
    - [CuckooCache] ([cuckoocache.h]): the table behind the caches of signatures and scripts.
    - [ScriptChecks] ([CheckInputs], [script/sigcache.cpp], [CheckProofOfStake]): script checks
      with their caches; proofs of stake.
    - [Reward]: subsidies, the recipients of rewards, [CheckReward].
    - [Connect]: [ConnectBlock].
    - [NodeOps] ([ConnectTip], [DisconnectTip] of [validation.cpp]): connecting and disconnecting
      the tip with [ConnectBlock] and [DisconnectBlock].
    - [Accept], [ProcessBlock] ([AcceptBlockHeader], [AcceptBlock], [ProcessNewBlock],
      [LoadGenesisBlock], [checkpoints.cpp]): what the node does with headers and blocks, and the
      states it gets to.
    - [Compressor] ([compressor.*], [undo.h]): records of coins and undo data.
    - [Text], [Bech32], [Base58], [KeyIO] ([utilstrencodings.*], [bech32.cpp], [base58.cpp],
      [key_io.cpp], keys of [key.*] and [pubkey.*], prefixes of [chainparams.cpp]): bits regrouped
      and numbers in a base; the encodings; addresses and keys as text.
    - [Bloom], [RollingBloom] ([bloom.*], [MurmurHash3] of [hash.cpp], [CMerkleBlock] of
      [merkleblock.cpp]): filters of light clients and their blocks; the rolling filter.

    ** How code corresponds to definitions

    Definitions keep the source's names where they can; one loop of the source is one [Fixpoint]
    or one recursive definition, named after the function it is in.  A C++ integer is a [Z], with
    the wrap-around of unsigned arithmetic and of conversions written out ([u32], [u64], [i32],
    [i64]).  A [std::vector] is a list, a map keyed by outpoints or hashes a [gmap], a block
    index pointer the key of its entry in the block map; a set ordered by address is ordered by a
    parameter [addr].  Objects that are changed are passed and returned.  [None] (or [Abort],
    [BlockAbort], [Stuck]) stands for what must not happen: a failed [assert], an exception nobody
    catches, an access out of range; errors the code reports are values.

    Hash functions, the elliptic curve, the allocator, the virtual machine, the disk and the clock
    are parameters (records [Crypto] and [Secp], the arguments [Verify], [usage], [CheckDiskSpace],
    [write_block], [nAdjustedTime] and others); what is relied on of them is a named hypothesis
    ([secp_ok]) or a disjunct of the conclusion (a collision is exhibited).  Between activation
    and the connection of one block the interface is the record [BlockOps] with its laws
    [ops_ok]: the chain is chosen and activated correctly for any way of connecting blocks that
    obeys them.  [NodeOps] implements the record with [ConnectBlock] and proves the laws
    ([node_ops_ok]).

    ** What the theorems show

    - Wire formats and records are read back exactly, and (VARINT, transactions, script numbers,
      scripts, amounts) no second encoding is accepted.
    - 256-bit arithmetic on limbs refines arithmetic modulo 2^256; compact targets are exact.
    - Script evaluation ends, keeps its limits, fails no assertion, and under fewer flags accepts
      at least as much; encodings, multisignatures and key-hash spends are characterised.
      Signature hashes commit to what they should; cached and uncached checks agree.
    - [Solver], [CheckTransaction], [CheckTxInputs], [CheckBlock], [CheckReward] and
      [AcceptBlockHeader] are exact: they accept exactly what their rules say and report a broken
      rule otherwise; accepted transactions that are not coinstakes create no value; costs do not
      wrap around.
    - Contracts: condensing transactions conserve value and follow the balances, gas is paid for,
      governed parameters are what the contracts say.
    - A block that is connected spends only mature unspent outputs with scripts that verify (if
      scripts are checked) and moves the coins and the money supply by what its transactions say.
    - Merkle roots commit to their blocks and partial trees prove only what is in them.
    - The block tree, the candidates, the links of data that came out of order, the active chain and
      the block files keep their invariants (rule induction on [reachable], [chain_reachable],
      [files_reachable], [node_reachable]); skip-pointer walks equal plain walks; whatever block
      the node is given it answers, and on success the best usable chain is active; pruning spares
      the blocks near the tip.  The states of the chain and of the node are those that successful
      operations lead to (blocks and headers may be refused), without [ResetBlockFailureFlags],
      pruning, a shutdown, a [PreciousBlock] that raises the sequence number of the tip, or a
      block that is refused after it was connected once ([reneged]); in the first and the fourth
      case the code does not keep the invariant (see [ChainSteps]).
    - A cache over any lawful view refines a plain map of unspent outputs, caches are lawful views
      again, and database writes are crash safe; disconnecting a block undoes connecting it.
    - Targets, kernels and deployments are what their definitions say, with and without caches; the
      caches of scripts hold only keys of what verified, and their table finds only what was
      inserted.
    - Addresses and keys are read back from their texts (with one exception for short unknown
      witness programs), no other text (but for space, case or what follows a zero byte) is read as
      the same address, no carry is lost in base 58, and Bech32 detects three replaced
      characters.  Filters have no false negatives; filtered blocks show all that concerns their
      client; the rolling filter refines a record of when each place was last set.

    ** Fuel

    Loops that are not structural carry fuel: the bytes of a script (an instruction takes at least
    one), the height of a block (a walk goes down: [path_fuel], the walk to a synchronised
    checkpoint), the bits of a limb array, the turns left in a VARINT, the number of entries (a
    block is linked once; [activation_fuel]: a round marks a block as failed or gains work), the
    number of block files, the depth of a contract call.  The fuel is part of the definition
    called, and totality theorems show it is enough (e.g. [EvalScript_safe], [Solver_exact],
    [best_chain_activated], [block_processing], [disk_positions_disjoint]): no theorem is
    conditional on a result being reached.  Heights, numbers of transactions and total work are
    assumed to stay within their types where they are added to ([header_room], [block_room]).

    ** Not modelled

    The insides of hash functions, of the elliptic curve and of the Ethereum library: third-party
    code, parameters here.  Networking, wallet, RPC, GUI and start-up: input and output around the
    parts above, with the parsing of numbers and amounts they use.  The memory pool, relay policy, block assembly, fee estimation and signing: they
    choose what the node proposes, not what it accepts.  Reading the index back at start-up,
    rewinding and replaying blocks, and the self-tests ([VerifyDB], [CheckBlockIndex]); the text
    of log messages; notifications. *)

From stdpp Require Export base numbers list.
From Stdlib Require Export ZArith Lia.

#[global] Set Default Goal Selector "!".

Declare Scope artax_scope.
Delimit Scope artax_scope with artax.
Open Scope Z_scope.

(** ** Fixed-width integers

    A C++ integer of width [w] is a [Z]; conversions write the wrap-around out. *)

Definition u8 (z : Z) : Z := z mod 2 ^ 8.
Definition u16 (z : Z) : Z := z mod 2 ^ 16.
Definition u32 (z : Z) : Z := z mod 2 ^ 32.
Definition u64 (z : Z) : Z := z mod 2 ^ 64.

(** Two's complement: the value of the low [w] bits read as a signed integer. *)
Definition signed (w z : Z) : Z := (z + 2 ^ (w - 1)) mod 2 ^ w - 2 ^ (w - 1).
Definition i32 (z : Z) : Z := signed 32 z.
Definition i64 (z : Z) : Z := signed 64 z.

Definition INT32_MAX : Z := 2 ^ 31 - 1.
Definition INT32_MIN : Z := - 2 ^ 31.
Definition INT64_MAX : Z := 2 ^ 63 - 1.
Definition INT64_MIN : Z := - 2 ^ 63.
Definition UINT16_MAX : Z := 2 ^ 16 - 1.
Definition UINT32_MAX : Z := 2 ^ 32 - 1.
Definition UINT64_MAX : Z := 2 ^ 64 - 1.

Abbreviation in_u w z := (0 <= z < 2 ^ w).
Abbreviation in_i w z := (- 2 ^ (w - 1) <= z < 2 ^ (w - 1)).

(** ** Bytes and vectors of bytes *)

Abbreviation bytes := (list Z).

Definition is_byte (b : Z) : Prop := 0 <= b < 256.
Abbreviation are_bytes := (Forall is_byte).

(** [std::vector::size] as a [Z]. *)
Definition vsize {A} (v : list A) : Z := Z.of_nat (length v).

(** [n] little-endian bytes of [z] (the effect of [htole16/32/64] and a [memcpy]). *)
Fixpoint le_encode (n : nat) (z : Z) : bytes :=
  match n with
  | O => []
  | S n => z mod 256 :: le_encode n (z / 256)
  end.

Fixpoint le_decode (l : bytes) : Z :=
  match l with
  | [] => 0
  | b :: l => b + 256 * le_decode l
  end.

(** ** Errors as values *)

Inductive result (E A : Type) : Type :=
| Ok (a : A)
| Err (e : E).
Arguments Ok {E A} _.
Arguments Err {E A} _.

#[export] Instance result_ret {E} : MRet (result E) := fun A a => Ok a.
#[export] Instance result_bind {E} : MBind (result E) :=
  fun A B f m => match m with Ok a => f a | Err e => Err e end.

Definition of_option {E A} (e : E) (o : option A) : result E A :=
  match o with Some a => Ok a | None => Err e end.

Definition is_ok {E A} (r : result E A) : bool :=
  match r with Ok _ => true | Err _ => false end.

(** ** Readers

    A stream that is read from is the list of the bytes still in it. *)

Inductive io_error : Type :=
| EndOfData
| NonCanonicalCompactSize
| CompactSizeTooLarge
| VarIntTooLarge
| UnknownTransactionData
| StringLimitExceeded
| TooManyUndoRecords.

Definition reader (A : Type) : Type := bytes -> result io_error (A * bytes).

#[export] Instance reader_ret : MRet reader := fun A a s => Ok (a, s).
#[export] Instance reader_bind : MBind reader :=
  fun A B f m s => match m s with Ok (a, s') => f a s' | Err e => Err e end.

Definition reader_throw {A} (e : io_error) : reader A := fun _ => Err e.

(** [s.read(pch, n)]: the next [n] bytes, or the end-of-data failure. *)
Definition stream_read (n : Z) : reader bytes := fun s =>
  if vsize s <? n then Err EndOfData
  else Ok (take (Z.to_nat n) s, drop (Z.to_nat n) s).

(** What one component promises to another about a wire format: reading what was written
    gives the value back and leaves what follows it in the stream. *)
Class RoundTrip {A} (P : A -> Prop) (w : A -> bytes) (r : reader A) : Prop :=
  round_trip : forall a rest, P a -> r (w a ++ rest) = Ok (a, rest).

(** The converse promise: whatever is read was written by the writer, so no two byte
    strings stand for one value. *)
Class Canonical {A} (w : A -> bytes) (r : reader A) : Prop :=
  canonical : forall s a rest, are_bytes s -> r s = Ok (a, rest) -> s = w a ++ rest.

(** Both promises at once, with what is known of a value that was read: [P] describes exactly
    the values of the wire format [w], [r]. *)
Class Codec {A} (P : A -> Prop) (w : A -> bytes) (r : reader A) : Prop := {
  codec_round :: RoundTrip P w r;
  codec_exact : forall s a rest, are_bytes s -> r s = Ok (a, rest) ->
    s = w a ++ rest /\ P a /\ are_bytes rest }.

(** ** Tactics *)

(** Case analysis on the boolean comparisons of [Z] in sight. *)
Ltac zcase_in t :=
  match t with
  | context [?a <? ?b] => destruct (Z.ltb_spec a b)
  | context [?a <=? ?b] => destruct (Z.leb_spec a b)
  | context [?a =? ?b] => destruct (Z.eqb_spec a b)
  end.

Ltac zcase :=
  match goal with
  | |- context [if ?c then _ else _] => zcase_in c
  | H : context [if ?c then _ else _] |- _ => zcase_in c
  end.

Ltac zcases := repeat (zcase; try lia).

(** Turns boolean hypotheses about [Z] into propositions. *)
Ltac zbool :=
  repeat match goal with
  | H : _ && _ = true |- _ => apply andb_true_iff in H as [? ?]
  | H : _ || _ = false |- _ => apply orb_false_iff in H as [? ?]
  | H : negb _ = true |- _ => apply negb_true_iff in H
  | H : negb _ = false |- _ => apply negb_false_iff in H
  | H : (_ <? _) = true |- _ => apply Z.ltb_lt in H
  | H : (_ <? _) = false |- _ => apply Z.ltb_ge in H
  | H : (_ <=? _) = true |- _ => apply Z.leb_le in H
  | H : (_ <=? _) = false |- _ => apply Z.leb_gt in H
  | H : (_ =? _) = true |- _ => apply Z.eqb_eq in H
  | H : (_ =? _) = false |- _ => apply Z.eqb_neq in H
  end.

(** Splits a hypothesis [m ≫= f = Ok x] into its two halves. *)
Ltac ok_inv H :=
  let E := fresh "E" in
  match type of H with
  | mbind _ ?m = Ok _ => destruct m eqn:E; simpl in H; [ | discriminate H]
  | match ?m with Ok _ => _ | Err _ => _ end = Ok _ => destruct m eqn:E; [ | discriminate H]
  end.

Create HintDb artax.
Create Rewrite HintDb artax.

(** ** Lemmas on words *)

Lemma u32_range z : 0 <= u32 z < 2 ^ 32.
Proof. apply Z.mod_pos_bound. lia. Qed.

Lemma u64_range z : 0 <= u64 z < 2 ^ 64.
Proof. apply Z.mod_pos_bound. lia. Qed.

Lemma u32_id z : 0 <= z < 2 ^ 32 -> u32 z = z.
Proof. apply Z.mod_small. Qed.

Lemma u64_id z : 0 <= z < 2 ^ 64 -> u64 z = z.
Proof. apply Z.mod_small. Qed.

Lemma signed_range w z : 0 < w -> in_i w (signed w z).
Proof.
  intros Hw. unfold signed.
  assert (2 ^ w = 2 * 2 ^ (w - 1)) as E by (rewrite <- Z.pow_succ_r by lia; f_equal; lia).
  pose proof (Z.mod_pos_bound (z + 2 ^ (w - 1)) (2 ^ w)) as B.
  assert (0 < 2 ^ (w - 1)) by (apply Z.pow_pos_nonneg; lia). lia.
Qed.

Lemma signed_id w z : 0 < w -> in_i w z -> signed w z = z.
Proof.
  intros Hw Hz. unfold signed.
  assert (2 ^ w = 2 * 2 ^ (w - 1)) as E by (rewrite <- Z.pow_succ_r by lia; f_equal; lia).
  rewrite Z.mod_small by lia. lia.
Qed.

Lemma i64_id z : in_i 64 z -> i64 z = z.
Proof. apply signed_id. lia. Qed.

Lemma i32_id z : in_i 32 z -> i32 z = z.
Proof. apply signed_id. lia. Qed.

Lemma signed_mod w z : 0 < w -> signed w (z mod 2 ^ w) = signed w z.
Proof. intros Hw. unfold signed. by rewrite Zplus_mod_idemp_l. Qed.

(** The high part of a word shifted over a disjoint low part: [|] is [+]. *)
Lemma lor_shiftl_add a b k : 0 <= k -> 0 <= a < 2 ^ k -> Z.lor a (Z.shiftl b k) = a + b * 2 ^ k.
Proof.
  intros Hk Ha. rewrite Z.shiftl_mul_pow2 by lia. symmetry. apply Z.add_nocarry_lor.
  apply Z.bits_inj'; intros n Hn; rewrite Z.land_spec, Z.bits_0.
  destruct (Z.ltb_spec n k).
  - rewrite Z.mul_pow2_bits_low by lia. apply andb_false_r.
  - rewrite <- (Z.mod_small a (2 ^ k)) by lia. by rewrite Z.mod_pow2_bits_high by lia.
Qed.

(** Masking does not increase. *)
Lemma land_le a b : 0 <= a -> Z.land a b <= a.
Proof.
  intros Ha. assert (E : Z.ldiff a b + Z.land a b = a).
  { rewrite Z.add_nocarry_lor; [apply Z.lor_ldiff_and | ].
    apply Z.bits_inj'. intros n Hn. rewrite !Z.land_spec, Z.ldiff_spec, Z.bits_0.
    by destruct (Z.testbit a n), (Z.testbit b n). }
  assert (0 <= Z.ldiff a b) by (apply Z.ldiff_nonneg; lia). lia.
Qed.

(** Testing one bit with a mask *)
Lemma land_power_bit x k : 0 <= k -> negb (Z.land x (Z.shiftl 1 k) =? 0) = Z.testbit x k.
Proof.
  intros Hk. assert (E : Z.land x (Z.shiftl 1 k) = if Z.testbit x k then 2 ^ k else 0).
  { rewrite Z.shiftl_1_l. apply Z.bits_inj'. intros n Hn. rewrite Z.land_spec, Z.pow2_bits_eqb by done.
    destruct (Z.eqb_spec k n) as [<- | Hne]; [rewrite andb_true_r | rewrite andb_false_r].
    - destruct (Z.testbit x k); [by rewrite Z.pow2_bits_true | by rewrite Z.bits_0].
    - destruct (Z.testbit x k); [by rewrite Z.pow2_bits_false | by rewrite Z.bits_0]. }
  rewrite E. destruct (Z.testbit x k); [ | done]. apply negb_true_iff, Z.eqb_neq. by apply Z.pow_nonzero.
Qed.

Lemma lxor_bound a b n : 0 <= n -> 0 <= a < 2 ^ n -> 0 <= b < 2 ^ n -> 0 <= Z.lxor a b < 2 ^ n.
Proof.
  intros Hn Ha Hb. assert (E : Z.lxor a b = Z.lxor a b mod 2 ^ n).
  { rewrite <- Z.land_ones by done. apply Z.bits_inj'. intros i Hi. rewrite Z.land_spec, Z.lxor_spec.
    destruct (decide (i < n)); [by rewrite Z.ones_spec_low, andb_true_r by lia | ].
    rewrite <- (Z.mod_small a (2 ^ n)), <- (Z.mod_small b (2 ^ n)), !Z.mod_pow2_bits_high by lia. done. }
  rewrite E. apply Z.mod_pos_bound. lia.
Qed.

Lemma land_255 z : Z.land z 255 = z mod 256.
Proof. apply (Z.land_ones z 8). lia. Qed.

Lemma land_127 z : Z.land z 127 = z mod 128.
Proof. apply (Z.land_ones z 7). lia. Qed.

(** Testing the top bit of a byte. *)
Lemma land_128_byte b : is_byte b -> Z.land b 128 = if 128 <=? b then 128 else 0.
Proof.
  unfold is_byte. intros Hb. apply Z.bits_inj'. intros n Hn.
  rewrite Z.land_spec. change 128 with (2 ^ 7). rewrite Z.pow2_bits_eqb by lia.
  destruct (Z.eqb_spec 7 n) as [<- | ?].
  - rewrite andb_true_r. destruct (Z.leb_spec (2 ^ 7) b).
    + rewrite Z.pow2_bits_true by lia. apply Z.testbit_true; [lia | ].
      replace (b / 2 ^ 7) with 1; [done | ]. apply Z.div_unique with (b - 128); lia.
    + rewrite Z.bits_0. apply Z.bits_above_log2; [lia | ]. destruct (decide (b = 0)); [by subst | ].
      apply Z.log2_lt_pow2; lia.
  - rewrite andb_false_r. destruct (_ <=? _); [ | by rewrite Z.bits_0].
    by rewrite Z.pow2_bits_false by lia.
Qed.

(** ** Lemmas on bytes *)

Lemma le_encode_length n z : length (le_encode n z) = n.
Proof. revert z. induction n; intros; simpl; auto. Qed.

Lemma le_encode_bytes n z : are_bytes (le_encode n z).
Proof.
  revert z. induction n; intros; simpl; constructor; auto.
  apply Z.mod_pos_bound. lia.
Qed.

Lemma le_decode_encode n z : le_decode (le_encode n z) = z mod 2 ^ (8 * Z.of_nat n).
Proof.
  revert z. induction n as [ | n IH]; intros z; simpl le_encode; simpl le_decode.
  - by rewrite Z.mod_1_r.
  - rewrite IH. replace (8 * Z.of_nat (S n)) with (8 + 8 * Z.of_nat n) by lia.
    rewrite Z.pow_add_r by lia. rewrite Z.rem_mul_r by lia. change (2 ^ 8) with 256. lia.
Qed.

Lemma le_decode_bound l : are_bytes l -> 0 <= le_decode l < 2 ^ (8 * vsize l).
Proof.
  unfold vsize. induction 1 as [ | b l Hb Hl IH]; simpl le_decode; simpl length; [lia | ].
  replace (8 * Z.of_nat (S (length l))) with (8 + 8 * Z.of_nat (length l)) by lia.
  rewrite Z.pow_add_r by lia. unfold is_byte in Hb. lia.
Qed.

Lemma le_encode_decode l n : are_bytes l -> length l = n -> le_encode n (le_decode l) = l.
Proof.
  intros Hl <-. induction Hl as [ | b l Hb Hl IH]; simpl; [done | ]. unfold is_byte in Hb.
  rewrite Z.mul_comm, Z.mod_add by lia. rewrite Z.div_add by lia.
  rewrite Z.mod_small, Z.div_small by lia. by f_equal.
Qed.

Lemma le_decode_app a b : le_decode (a ++ b) = le_decode a + 2 ^ (8 * vsize a) * le_decode b.
Proof.
  unfold vsize. induction a as [ | x a IH]; simpl le_decode; simpl length; [lia | ].
  rewrite IH. replace (8 * Z.of_nat (S (length a))) with (8 + 8 * Z.of_nat (length a)) by lia.
  rewrite Z.pow_add_r by lia. change (2 ^ 8) with 256. lia.
Qed.

Lemma vsize_nonneg {A} (l : list A) : 0 <= vsize l.
Proof. unfold vsize. lia. Qed.

Lemma vsize_app {A} (a b : list A) : vsize (a ++ b) = vsize a + vsize b.
Proof. unfold vsize. rewrite length_app. lia. Qed.

Lemma vsize_cons {A} (x : A) l : vsize (x :: l) = 1 + vsize l.
Proof. unfold vsize. simpl. lia. Qed.

Lemma vsize_pos {A} (l : list A) : l <> [] -> 0 < vsize l.
Proof. destruct l; [done | ]. intros _. rewrite vsize_cons. pose proof (vsize_nonneg l). lia. Qed.

Lemma vsize_map {A B} (f : A -> B) l : vsize (map f l) = vsize l.
Proof. unfold vsize. by rewrite length_map. Qed.

Lemma vsize_nil {A} : vsize (@nil A) = 0.
Proof. done. Qed.

(** ** Lemmas on readers *)

Lemma stream_read_app l rest n : vsize l = n -> stream_read n (l ++ rest) = Ok (l, rest).
Proof.
  intros <-. unfold stream_read. rewrite vsize_app.
  destruct (Z.ltb_spec (vsize l + vsize rest) (vsize l)).
  - pose proof (vsize_nonneg rest). lia.
  - unfold vsize. by rewrite Nat2Z.id, take_app_length, drop_app_length.
Qed.

Lemma stream_read_ok n s l rest :
  0 <= n -> stream_read n s = Ok (l, rest) -> s = l ++ rest /\ vsize l = n.
Proof.
  unfold stream_read. intros Hn. destruct (Z.ltb_spec (vsize s) n); [done | ].
  intros [= <- <-]. rewrite take_drop. split; [done | ].
  unfold vsize in *. rewrite length_take. lia.
Qed.

(** A reader run on what a writer put in front of the stream. *)
Lemma reader_bind_ok {A B} (m : reader A) (f : A -> reader B) s a s' :
  m s = Ok (a, s') -> (m ≫= f) s = f a s'.
Proof. unfold mbind, reader_bind. by intros ->. Qed.

Lemma reader_bind_round {A B} {P w r} `{RoundTrip A P w r} (f : A -> reader B) a rest :
  P a -> (r ≫= f) (w a ++ rest) = f a rest.
Proof. intros HP. by rewrite (reader_bind_ok _ _ _ _ _ (round_trip a rest HP)). Qed.

Lemma reader_ret_bind {A B} (a : A) (f : A -> reader B) s : (mret a ≫= f) s = f a s.
Proof. done. Qed.

Lemma reader_bind_assoc {A B C} (m : reader A) (f : A -> reader B) (g : B -> reader C) s :
  ((m ≫= f) ≫= g) s = (m ≫= (fun a => f a ≫= g)) s.
Proof. unfold mbind, reader_bind. by destruct (m s) as [[??] | ]. Qed.

Lemma reader_bind_inv {A B} (m : reader A) (f : A -> reader B) s b rest :
  (m ≫= f) s = Ok (b, rest) -> exists a s', m s = Ok (a, s') /\ f a s' = Ok (b, rest).
Proof. unfold mbind, reader_bind. destruct (m s) as [[a s'] | e]; [eauto | done]. Qed.

(** Runs the first reader of a sequence on what its writer wrote. *)
Lemma codec_bind_round {A B} {P w r} `{!Codec P w r} (f : A -> reader B) a rest :
  P a -> (r ≫= f) (w a ++ rest) = f a rest.
Proof. apply reader_bind_round. Qed.

(** What a sequence of readers has accepted, one reader at a time. *)
Lemma codec_bind_inv {A B} {P w r} `{!Codec P w r} (f : A -> reader B) s b rest :
  are_bytes s -> (r ≫= f) s = Ok (b, rest) ->
  exists a s', s = w a ++ s' /\ P a /\ are_bytes s' /\ f a s' = Ok (b, rest).
Proof.
  intros Hs H. apply reader_bind_inv in H as (a & s' & Hr & H).
  apply codec_exact in Hr as (-> & Ha & Hs'); [ | done]. by exists a, s'.
Qed.

(** The values of a wire format under another description. *)
Lemma codec_equiv {A} (P Q : A -> Prop) w r : (forall a, P a <-> Q a) -> Codec P w r -> Codec Q w r.
Proof.
  intros HPQ HC. split.
  - intros a rest Ha. apply (codec_round (P := P)). by apply HPQ.
  - intros s a rest Hs H. apply (codec_exact (P := P)) in H as (-> & Ha & ?); [ | done].
    split_and!; [done | by apply HPQ | done].
Qed.

(** Proves [Codec] for a record whose writer concatenates its fields' writers and whose reader
    reads them in turn. *)
Ltac codec_read_fields :=
  rewrite <- ?app_assoc; repeat (rewrite codec_bind_round by (simpl; tauto)); try done.
Ltac codec_inv_fields H :=
  repeat (apply codec_bind_inv in H as (? & ? & ? & ? & ? & H); [subst | done]);
  cbv [mret reader_ret] in H; injection H as <- <-; subst;
  rewrite <- ?app_assoc; split_and!; simpl; tauto || done.

#[export] Hint Resolve le_encode_bytes vsize_nonneg : artax.
#[export] Hint Rewrite @vsize_app @vsize_cons @vsize_nil le_encode_length : artax.
#[global] Arguments le_encode : simpl never.
#[global] Arguments le_decode : simpl never.
#[global] Arguments Z.pow : simpl never.
