(* ===== verification/Serialize.v ===== *)
(** * Serialization primitives ([src/serialize.h])

    The little-endian integer codecs, [CompactSize], [VARINT], byte vectors, vectors of
    serializable elements and limited strings, over the byte streams of [Prelude]; and the two
    size functions [CSizeComputer] uses.  Theorems: every codec reads back what it writes,
    [CompactSize] and [VARINT] readers accept nothing but the writers' encodings, and the size
    functions count the bytes written. *)

From S2P Require Import Prelude.
Open Scope Z_scope.

(** ** Definitions *)

(** [static const unsigned int MAX_SIZE] *)
Definition MAX_SIZE : Z := 0x10000000.

Definition ser_writedata8 (obj : Z) : bytes := le_encode 1 (u8 obj).
Definition ser_writedata16 (obj : Z) : bytes := le_encode 2 (u16 obj).
Definition ser_writedata32 (obj : Z) : bytes := le_encode 4 (u32 obj).
Definition ser_writedata64 (obj : Z) : bytes := le_encode 8 (u64 obj).
(** [htobe16]/[htobe32] then [memcpy]: the most significant byte first. *)
Definition ser_writedata16be (obj : Z) : bytes := rev (le_encode 2 (u16 obj)).
Definition ser_writedata32be (obj : Z) : bytes := rev (le_encode 4 (u32 obj)).

Definition ser_readdata8 : reader Z := bs ← stream_read 1; mret (le_decode bs).
Definition ser_readdata16 : reader Z := bs ← stream_read 2; mret (le_decode bs).
Definition ser_readdata32 : reader Z := bs ← stream_read 4; mret (le_decode bs).
Definition ser_readdata64 : reader Z := bs ← stream_read 8; mret (le_decode bs).
Definition ser_readdata16be : reader Z := bs ← stream_read 2; mret (le_decode (rev bs)).
Definition ser_readdata32be : reader Z := bs ← stream_read 4; mret (le_decode (rev bs)).

(** [Unserialize(Stream&, int32_t&)] and [int64_t&]: the unsigned value converted. *)
Definition Unserialize_int32 : reader Z := x ← ser_readdata32; mret (i32 x).
Definition Unserialize_int64 : reader Z := x ← ser_readdata64; mret (i64 x).

(** [Serialize(Stream&, bool)]: [char f = a], one byte; any nonzero byte reads as true. *)
Definition Serialize_bool (a : bool) : bytes := ser_writedata8 (if a then 1 else 0).
Definition Unserialize_bool : reader bool := f ← ser_readdata8; mret (negb (f =? 0)).

(** *** Compact size *)

Definition GetSizeOfCompactSize (nSize : Z) : Z :=
  if nSize <? 253 then 1
  else if nSize <=? UINT16_MAX then 1 + 2
  else if nSize <=? UINT32_MAX then 1 + 4
  else 1 + 8.

Definition WriteCompactSize (nSize : Z) : bytes :=
  if nSize <? 253 then ser_writedata8 nSize
  else if nSize <=? UINT16_MAX then ser_writedata8 253 ++ ser_writedata16 nSize
  else if nSize <=? UINT32_MAX then ser_writedata8 254 ++ ser_writedata32 nSize
  else ser_writedata8 255 ++ ser_writedata64 nSize.

Definition ReadCompactSize : reader Z :=
  chSize ← ser_readdata8;
  nSizeRet ←
    (if chSize <? 253 then mret chSize
     else if chSize =? 253 then
       n ← ser_readdata16;
       if n <? 253 then reader_throw NonCanonicalCompactSize else mret n
     else if chSize =? 254 then
       n ← ser_readdata32;
       if n <? 0x10000 then reader_throw NonCanonicalCompactSize else mret n
     else
       n ← ser_readdata64;
       if n <? 0x100000000 then reader_throw NonCanonicalCompactSize else mret n);
  if MAX_SIZE <? nSizeRet then reader_throw CompactSizeTooLarge else mret nSizeRet.

(** *** Variable-length integers

    [I] is an unsigned type of [w] bits.  The writer's loop runs at most [(w + 6) / 7] times;
    [w] iterations of fuel are given. *)

Fixpoint GetSizeOfVarInt_loop (fuel : nat) (n : Z) : Z :=
  1 + (if n <=? 0x7F then 0
       else match fuel with
            | O => 0
            | S fuel => GetSizeOfVarInt_loop fuel (Z.shiftr n 7 - 1)
            end).

Definition GetSizeOfVarInt (w n : Z) : Z := GetSizeOfVarInt_loop (Z.to_nat w) n.

(** [tmp[len], tmp[len+1], ...] as the loop fills them. *)
Fixpoint WriteVarInt_tmp (fuel : nat) (n len : Z) : bytes :=
  Z.lor (Z.land n 0x7F) (if len =? 0 then 0x00 else 0x80) ::
  (if n <=? 0x7F then []
   else match fuel with
        | O => []
        | S fuel => WriteVarInt_tmp fuel (Z.shiftr n 7 - 1) (len + 1)
        end).

(** The [do ... while (len--)] loop writes [tmp] from its last byte to its first. *)
Definition WriteVarInt (w n : Z) : bytes := rev (WriteVarInt_tmp (Z.to_nat w) n 0).

Fixpoint ReadVarInt_loop (w n : Z) (s : bytes) : result io_error (Z * bytes) :=
  match s with
  | [] => Err EndOfData
  | chData :: s =>
      if Z.shiftr (2 ^ w - 1) 7 <? n then Err VarIntTooLarge
      else
        let n := Z.lor (Z.shiftl n 7 mod 2 ^ w) (Z.land chData 0x7F) in
        if negb (Z.land chData 0x80 =? 0) then
          if n =? 2 ^ w - 1 then Err VarIntTooLarge
          else ReadVarInt_loop w (n + 1) s
        else Ok (n, s)
  end.

Definition ReadVarInt (w : Z) : reader Z := ReadVarInt_loop w 0.

(** *** Vectors *)

(** [std::vector<unsigned char>], [CScript]'s prevector and [std::string]: one opaque blob. *)
Definition Serialize_bytes (v : bytes) : bytes := WriteCompactSize (vsize v) ++ v.

(** The largest block one [is.read] is given: [1 + 4999999 / sizeof(T)], [sizeof(T) = 1]. *)
Definition READ_BLOCK : Z := 1 + 4999999.

Fixpoint read_blocks (fuel : nat) (i nSize : Z) : reader bytes :=
  if i <? nSize then
    match fuel with
    | O => reader_throw EndOfData
    | S fuel =>
        let blk := Z.min (nSize - i) READ_BLOCK in
        b ← stream_read blk;
        rest ← read_blocks fuel (i + blk) nSize;
        mret (b ++ rest)
    end
  else mret [].

Definition Unserialize_bytes : reader bytes :=
  nSize ← ReadCompactSize;
  read_blocks (S (Z.to_nat (nSize / READ_BLOCK))) 0 nSize.

(** Vectors of other types: the elements one after the other.  (The reader's [nMid] batches
    bound the memory allocated ahead of the data and do not change what is read.) *)
Section Vectors.
Context {T : Type} (write_elem : T -> bytes) (read_elem : reader T).

Definition Serialize_vector (v : list T) : bytes :=
  WriteCompactSize (vsize v) ++ flat_map write_elem v.

Fixpoint read_elems (n : nat) : reader (list T) :=
  match n with
  | O => mret []
  | S n => x ← read_elem; xs ← read_elems n; mret (x :: xs)
  end.

Definition Unserialize_vector : reader (list T) :=
  nSize ← ReadCompactSize; read_elems (Z.to_nat nSize).

End Vectors.

Definition LimitedString_Unserialize (Limit : Z) : reader bytes :=
  size ← ReadCompactSize;
  if Limit <? size then reader_throw StringLimitExceeded
  else if negb (size =? 0) then stream_read size else mret [].

Definition LimitedString_Serialize (string : bytes) : bytes :=
  WriteCompactSize (vsize string) ++ (if negb (vsize string =? 0) then string else []).

(** ** Theorems *)

(** *** Fixed-width integers *)

Lemma stream_read_le_encode n k z rest :
  n = Z.of_nat k -> stream_read n (le_encode k z ++ rest) = Ok (le_encode k z, rest).
Proof. intros ->. apply stream_read_app. unfold vsize. by rewrite le_encode_length. Qed.

Ltac solve_le_codec :=
  intros a rest Ha; unfold mbind, reader_bind;
  rewrite stream_read_le_encode by done; unfold mret, reader_ret;
  rewrite le_decode_encode; do 2 f_equal;
  unfold u8, u16, u32, u64; rewrite ?Z.mod_mod by lia; rewrite Z.mod_small; simpl in *; lia.

#[export] Instance ser_data8_roundtrip :
  RoundTrip (fun x => 0 <= x < 2 ^ 8) ser_writedata8 ser_readdata8.
Proof. unfold ser_writedata8, ser_readdata8. solve_le_codec. Qed.

#[export] Instance ser_data16_roundtrip :
  RoundTrip (fun x => 0 <= x < 2 ^ 16) ser_writedata16 ser_readdata16.
Proof. unfold ser_writedata16, ser_readdata16. solve_le_codec. Qed.

#[export] Instance ser_data32_roundtrip :
  RoundTrip (fun x => 0 <= x < 2 ^ 32) ser_writedata32 ser_readdata32.
Proof. unfold ser_writedata32, ser_readdata32. solve_le_codec. Qed.

#[export] Instance ser_data64_roundtrip :
  RoundTrip (fun x => 0 <= x < 2 ^ 64) ser_writedata64 ser_readdata64.
Proof. unfold ser_writedata64, ser_readdata64. solve_le_codec. Qed.

Lemma ser_readdata32_write z rest : ser_readdata32 (ser_writedata32 z ++ rest) = Ok (u32 z, rest).
Proof.
  unfold ser_writedata32. pose proof (u32_range z).
  rewrite <- (u32_id (u32 z)) at 1 by done. by apply ser_data32_roundtrip.
Qed.

Lemma ser_readdata64_write z rest : ser_readdata64 (ser_writedata64 z ++ rest) = Ok (u64 z, rest).
Proof.
  unfold ser_writedata64. pose proof (u64_range z).
  rewrite <- (u64_id (u64 z)) at 1 by done. by apply ser_data64_roundtrip.
Qed.

#[export] Instance int32_roundtrip :
  RoundTrip (fun x => in_i 32 x) ser_writedata32 Unserialize_int32.
Proof.
  intros a rest Ha. unfold Unserialize_int32, mbind, reader_bind.
  rewrite ser_readdata32_write. unfold mret, reader_ret, u32, i32.
  by rewrite signed_mod, signed_id by lia.
Qed.

#[export] Instance int64_roundtrip :
  RoundTrip (fun x => in_i 64 x) ser_writedata64 Unserialize_int64.
Proof.
  intros a rest Ha. unfold Unserialize_int64, mbind, reader_bind.
  rewrite ser_readdata64_write. unfold mret, reader_ret, u64, i64.
  by rewrite signed_mod, signed_id by lia.
Qed.

(** What a little-endian reader of [k] bytes accepts. *)
Lemma le_reader_inv n k s x rest :
  n = Z.of_nat k -> are_bytes s ->
  (bs ← stream_read n; mret (le_decode bs)) s = Ok (x, rest) ->
  s = le_encode k x ++ rest /\ 0 <= x < 2 ^ (8 * n) /\ are_bytes rest.
Proof.
  intros -> Hs H. apply reader_bind_inv in H as (bs & s' & Hr & [= <- <-]).
  apply stream_read_ok in Hr as [-> Hlen]; [ | lia].
  apply Forall_app in Hs as [Hbs Hrest].
  rewrite le_encode_decode by (done || (unfold vsize in Hlen; lia)).
  split; [done | ]. split; [ | done]. rewrite <- Hlen. by apply le_decode_bound.
Qed.

(** *** CompactSize *)

#[export] Instance CompactSize_roundtrip :
  RoundTrip (fun n => 0 <= n <= MAX_SIZE) WriteCompactSize ReadCompactSize.
Proof.
  intros n rest Hn. unfold MAX_SIZE in Hn.
  unfold WriteCompactSize, ReadCompactSize, UINT16_MAX, UINT32_MAX.
  destruct (Z.ltb_spec n 253); [ | destruct (Z.leb_spec n (2 ^ 16 - 1))];
    [ | | destruct (Z.leb_spec n (2 ^ 32 - 1)); [ | lia]].
  all: rewrite <- ?app_assoc.
  all: rewrite (reader_bind_round (P := fun x => 0 <= x < 2 ^ 8)) by lia.
  - apply Z.ltb_lt in H as ->. unfold mbind at 1, reader_bind at 1, mret, reader_ret.
    destruct (Z.ltb_spec MAX_SIZE n); [unfold MAX_SIZE in *; lia | done].
  - change (253 <? 253) with false. change (253 =? 253) with true. cbv iota.
    unfold mbind, reader_bind. rewrite ser_data16_roundtrip by lia.
    destruct (Z.ltb_spec n 253); [lia | ]. unfold mret, reader_ret.
    destruct (Z.ltb_spec MAX_SIZE n); [unfold MAX_SIZE in *; lia | done].
  - change (254 <? 253) with false. change (254 =? 253) with false. change (254 =? 254) with true.
    cbv iota. unfold mbind, reader_bind. rewrite ser_data32_roundtrip by lia.
    destruct (Z.ltb_spec n 0x10000); [lia | ]. unfold mret, reader_ret.
    destruct (Z.ltb_spec MAX_SIZE n); [unfold MAX_SIZE in *; lia | done].
Qed.

(** One long form: a marker byte, then a word that a shorter form could not hold. *)
Lemma compact_word_inv (lo : Z) (r : reader Z) s x rest :
  (n ← r; if n <? lo then reader_throw NonCanonicalCompactSize else mret n) s = Ok (x, rest) ->
  r s = Ok (x, rest) /\ lo <= x.
Proof.
  intros H. apply reader_bind_inv in H as (n & s' & Hr & H).
  destruct (Z.ltb_spec n lo); [done | ]. injection H as -> ->. split; [done | lia].
Qed.

Lemma ReadCompactSize_inv s n rest :
  are_bytes s -> ReadCompactSize s = Ok (n, rest) ->
  s = WriteCompactSize n ++ rest /\ 0 <= n <= MAX_SIZE /\ are_bytes rest.
Proof.
  intros Hs H. unfold ReadCompactSize in H.
  apply reader_bind_inv in H as (ch & s1 & Hch & H).
  apply (le_reader_inv _ 1) in Hch as (-> & Hch & Hs1); [ | done..].
  apply reader_bind_inv in H as (m & s2 & Hm & H).
  destruct (Z.ltb_spec MAX_SIZE m); [done | ]. injection H as -> ->.
  unfold WriteCompactSize, ser_writedata8, UINT16_MAX, UINT32_MAX.
  destruct (Z.ltb_spec ch 253).
  { injection Hm as -> ->. zcases. unfold u8.
    rewrite Z.mod_small by lia. split_and!; done || lia. }
  destruct (Z.eqb_spec ch 253) as [-> | ?]; [ | destruct (Z.eqb_spec ch 254) as [-> | ?]].
  all: apply compact_word_inv in Hm as [Hm ?].
  all: [> apply (le_reader_inv _ 2) in Hm as (-> & Hb & Hr) |
          apply (le_reader_inv _ 4) in Hm as (-> & Hb & Hr) |
          apply (le_reader_inv _ 8) in Hm as (-> & Hb & Hr)]; try done.
  all: zcases; rewrite <- ?app_assoc.
  - unfold ser_writedata16, u16. rewrite Z.mod_small by lia. split_and!; done || lia.
  - unfold ser_writedata32, u32. rewrite Z.mod_small by lia. split_and!; done || lia.
  - unfold MAX_SIZE in *. lia.
Qed.

#[export] Instance CompactSize_canonical : Canonical WriteCompactSize ReadCompactSize.
Proof. intros s a rest Hs H. by apply ReadCompactSize_inv in H as [? _]. Qed.

(** *** VARINT *)

(** The bytes the loop emits for [n] below the last one: all carry the continuation bit. *)
Definition varint_tail (f : nat) (n : Z) : bytes := rev (WriteVarInt_tmp f n 1).

Lemma WriteVarInt_tmp_len f n len : 0 < len -> WriteVarInt_tmp f n len = WriteVarInt_tmp f n 1.
Proof.
  revert n len. induction f as [ | f IH]; intros n len Hlen; simpl WriteVarInt_tmp; zcases; try done.
  f_equal. rewrite IH by lia. symmetry. apply IH. lia.
Qed.

(** Enough fuel: the value shrinks by seven bits a turn. *)
Lemma varint_shrink f n : 0 <= n < 2 ^ (7 * Z.of_nat (S f)) -> 127 < n ->
  0 <= Z.shiftr n 7 - 1 < 2 ^ (7 * Z.of_nat f).
Proof.
  intros Hn H. rewrite Z.shiftr_div_pow2 by lia. change (2 ^ 7) with 128.
  replace (7 * Z.of_nat (S f)) with (7 + 7 * Z.of_nat f) in Hn by lia.
  rewrite Z.pow_add_r in Hn by lia. change (2 ^ 7) with 128 in Hn.
  assert (1 <= n / 128) by (apply Z.div_le_lower_bound; lia).
  assert (n / 128 < 2 ^ (7 * Z.of_nat f)) by (apply Z.div_lt_upper_bound; lia). lia.
Qed.

Lemma WriteVarInt_tmp_fuel f f' n len :
  0 <= n < 2 ^ (7 * Z.of_nat (S f)) -> (f <= f')%nat ->
  WriteVarInt_tmp f n len = WriteVarInt_tmp f' n len.
Proof.
  revert f' n len. induction f as [ | f IH]; intros [ | f'] n len Hn Hf; try lia; try done.
  - simpl. destruct (Z.leb_spec n 127); [done | ]. change (7 * Z.of_nat 1) with 7 in Hn. lia.
  - simpl WriteVarInt_tmp. destruct (Z.leb_spec n 127); [done | ]. f_equal.
    apply IH; [ | lia]. by apply varint_shrink.
Qed.

Lemma lor_128 a : 0 <= a < 128 -> Z.lor a 128 = a + 128.
Proof. intros Ha. apply (lor_shiftl_add a 1 7); lia. Qed.

Lemma varint_tail_small f n : 0 <= n <= 127 -> varint_tail f n = [n + 128].
Proof.
  intros Hn. unfold varint_tail. destruct f; simpl; zcases; rewrite land_127, Z.mod_small by lia.
  all: by rewrite lor_128 by lia.
Qed.

Lemma varint_tail_step f n : 127 < n ->
  varint_tail (S f) n = varint_tail f (Z.shiftr n 7 - 1) ++ [n mod 128 + 128].
Proof.
  intros Hn. unfold varint_tail. simpl. zcases. rewrite land_127.
  pose proof (Z.mod_pos_bound n 128).
  rewrite lor_128 by lia. by rewrite (WriteVarInt_tmp_len _ _ 2) by lia.
Qed.

Lemma WriteVarInt_small w n : 0 <= n <= 127 -> WriteVarInt w n = [n].
Proof.
  intros Hn. unfold WriteVarInt. destruct (Z.to_nat w); simpl; zcases.
  all: by rewrite land_127, Z.mod_small, Z.lor_0_r by lia.
Qed.

Lemma WriteVarInt_step w f n : 127 < n -> Z.to_nat w = S f ->
  WriteVarInt w n = varint_tail f (Z.shiftr n 7 - 1) ++ [n mod 128].
Proof.
  intros Hn Hw. unfold WriteVarInt, varint_tail. rewrite Hw. simpl. zcases.
  by rewrite land_127, Z.lor_0_r.
Qed.

(** One turn of the reader on a byte that carries the continuation bit. *)
Lemma ReadVarInt_loop_cont w n d s :
  7 <= w -> 0 <= n -> 0 <= d < 128 -> n * 128 + d + 1 <= 2 ^ w - 1 ->
  ReadVarInt_loop w n ((d + 128) :: s) = ReadVarInt_loop w (n * 128 + d + 1) s.
Proof.
  intros Hw Hn Hd Hmax. simpl.
  destruct (Z.ltb_spec (Z.shiftr (2 ^ w - 1) 7) n) as [Hlt | _].
  { rewrite Z.shiftr_div_pow2 in Hlt by lia. change (2 ^ 7) with 128 in Hlt.
    assert (n <= (2 ^ w - 1) / 128) by (apply Z.div_le_lower_bound; lia). lia. }
  rewrite land_128_byte by (unfold is_byte; lia). destruct (Z.leb_spec 128 (d + 128)); [ | lia].
  rewrite land_127. assert (Z.shiftl n 7 = n * 128) by (by rewrite Z.shiftl_mul_pow2).
  rewrite (Z.mod_small (Z.shiftl n 7)) by lia.
  replace ((d + 128) mod 128) with d by (apply (Z.mod_unique _ _ 1); lia).
  rewrite Z.lor_comm, lor_shiftl_add by lia. change (2 ^ 7) with 128.
  simpl. destruct (Z.eqb_spec (d + n * 128) (2 ^ w - 1)); [lia | ]. f_equal. lia.
Qed.

Lemma ReadVarInt_loop_last w n d s :
  7 <= w -> 0 <= n -> 0 <= d < 128 -> n * 128 + d <= 2 ^ w - 1 ->
  ReadVarInt_loop w n (d :: s) = Ok (n * 128 + d, s).
Proof.
  intros Hw Hn Hd Hmax. simpl.
  destruct (Z.ltb_spec (Z.shiftr (2 ^ w - 1) 7) n) as [Hlt | _].
  { rewrite Z.shiftr_div_pow2 in Hlt by lia. change (2 ^ 7) with 128 in Hlt.
    assert (n <= (2 ^ w - 1) / 128) by (apply Z.div_le_lower_bound; lia). lia. }
  rewrite land_128_byte by (unfold is_byte; lia). destruct (Z.leb_spec 128 d); [lia | ].
  rewrite land_127. assert (Z.shiftl n 7 = n * 128) by (by rewrite Z.shiftl_mul_pow2).
  rewrite (Z.mod_small (Z.shiftl n 7)), (Z.mod_small d) by lia.
  rewrite Z.lor_comm, lor_shiftl_add by lia. change (2 ^ 7) with 128.
  simpl. do 2 f_equal. lia.
Qed.

Lemma ReadVarInt_loop_tail w f n s :
  7 <= w -> 0 <= n < 2 ^ (7 * Z.of_nat (S f)) -> (n + 1) * 128 <= 2 ^ w - 1 ->
  ReadVarInt_loop w 0 (varint_tail f n ++ s) = ReadVarInt_loop w (n + 1) s.
Proof.
  intros Hw. revert n s. induction f as [ | f IH]; intros n s Hn Hmax.
  { change (7 * Z.of_nat 1) with 7 in Hn. rewrite varint_tail_small by lia. simpl app.
    rewrite ReadVarInt_loop_cont by lia. f_equal. }
  destruct (Z.leb_spec n 127).
  { rewrite varint_tail_small by lia. simpl app. rewrite ReadVarInt_loop_cont by lia. f_equal. }
  rewrite varint_tail_step, <- app_assoc by lia. pose proof (Z.mod_pos_bound n 128).
  pose proof (Z.div_mod n 128). rewrite Z.shiftr_div_pow2 by lia. change (2 ^ 7) with 128.
  pose proof (varint_shrink (S f) n Hn) as Hs. rewrite Z.shiftr_div_pow2 in Hs by lia.
  change (2 ^ 7) with 128 in Hs.
  rewrite IH by lia. simpl app. rewrite ReadVarInt_loop_cont by lia. f_equal. lia.
Qed.

Lemma VarInt_roundtrip_aux w n rest :
  7 <= w -> 0 <= n < 2 ^ w -> ReadVarInt w (WriteVarInt w n ++ rest) = Ok (n, rest).
Proof.
  intros Hw Hn. unfold ReadVarInt. destruct (Z.leb_spec n 127).
  { rewrite WriteVarInt_small by lia. simpl app.
    assert (2 ^ 7 <= 2 ^ w) by (apply Z.pow_le_mono_r; lia).
    rewrite ReadVarInt_loop_last by lia. f_equal. }
  destruct (Z.to_nat w) as [ | f] eqn:Ef; [lia | ].
  assert (2 ^ w <= 2 ^ (7 * Z.of_nat (S f))) by (apply Z.pow_le_mono_r; lia).
  rewrite (WriteVarInt_step _ f), <- app_assoc by lia.
  pose proof (Z.mod_pos_bound n 128). pose proof (Z.div_mod n 128).
  pose proof (varint_shrink f n ltac:(lia) ltac:(lia)) as Hs.
  rewrite Z.shiftr_div_pow2 in * by lia. change (2 ^ 7) with 128 in *.
  assert (2 ^ (7 * Z.of_nat f) <= 2 ^ (7 * Z.of_nat (S f))) by (apply Z.pow_le_mono_r; lia).
  rewrite ReadVarInt_loop_tail by lia. simpl app.
  rewrite ReadVarInt_loop_last by lia. do 2 f_equal. lia.
Qed.

#[export] Instance VarInt_round w : 7 <= w ->
  RoundTrip (fun n => 0 <= n < 2 ^ w) (WriteVarInt w) (ReadVarInt w).
Proof. intros Hw n rest Hn. by apply VarInt_roundtrip_aux. Qed.

(** Bytes read so far stand for a prefix: [n = 0] before the first byte, [n = m + 1] after the
    continuation bytes of [m]. *)
Definition varint_read_so_far (f : nat) (n : Z) : bytes :=
  if n =? 0 then [] else varint_tail f (n - 1).

Lemma varint_so_far_step f n d :
  0 <= n -> 0 <= d < 128 -> n * 128 + d < 2 ^ (7 * Z.of_nat (S f)) ->
  varint_read_so_far f n ++ [d + 128] = varint_read_so_far (S f) (n * 128 + d + 1).
Proof.
  intros Hn Hd Hb. unfold varint_read_so_far.
  destruct (Z.eqb_spec (n * 128 + d + 1) 0); [lia | ].
  replace (n * 128 + d + 1 - 1) with (n * 128 + d) by lia.
  destruct (Z.eqb_spec n 0) as [-> | Hn0].
  { rewrite varint_tail_small by lia. done. }
  rewrite varint_tail_step by lia.
  rewrite Z.shiftr_div_pow2 by lia. change (2 ^ 7) with 128.
  rewrite Z.div_add_l, (Z.div_small d) by lia.
  rewrite (Z.add_comm (n * 128)), Z.mod_add, Z.mod_small by lia. by rewrite Z.add_0_r.
Qed.

Lemma varint_tail_fuel f f' n :
  0 <= n < 2 ^ (7 * Z.of_nat (S f)) -> (f <= f')%nat -> varint_tail f n = varint_tail f' n.
Proof. intros. unfold varint_tail. by rewrite (WriteVarInt_tmp_fuel f f'). Qed.

Lemma varint_write_last w f n d :
  7 <= w -> 0 <= n -> 0 <= d < 128 -> n * 128 + d < 2 ^ w -> Z.to_nat w = S f ->
  varint_read_so_far f n ++ [d] = WriteVarInt w (n * 128 + d).
Proof.
  intros Hw Hn Hd Hb Hf. unfold varint_read_so_far. destruct (Z.eqb_spec n 0) as [-> | Hn0].
  { by rewrite WriteVarInt_small by lia. }
  rewrite (WriteVarInt_step _ f) by lia.
  rewrite Z.shiftr_div_pow2 by lia. change (2 ^ 7) with 128.
  rewrite Z.div_add_l, (Z.div_small d) by lia.
  rewrite (Z.add_comm (n * 128)), Z.mod_add, Z.mod_small by lia. by rewrite Z.add_0_r.
Qed.

(** A byte is seven bits of data and the continuation bit. *)
Lemma varint_byte b : is_byte b ->
  exists d, 0 <= d < 128 /\ (b = d /\ Z.land b 128 = 0 \/ b = d + 128 /\ Z.land b 128 = 128).
Proof.
  intros Hb. rewrite land_128_byte by done. unfold is_byte in Hb.
  destruct (Z.leb_spec 128 b); [exists (b - 128) | exists b]; lia.
Qed.

Lemma pow7_fuel f m : 0 <= m < 2 ^ (Z.of_nat f) -> m < 2 ^ (7 * Z.of_nat f).
Proof. intros. assert (2 ^ Z.of_nat f <= 2 ^ (7 * Z.of_nat f)) by (apply Z.pow_le_mono_r; lia). lia. Qed.

Lemma ReadVarInt_loop_inv w f s n a rest :
  7 <= w -> Z.to_nat w = S f -> are_bytes s -> 0 <= n < 2 ^ w ->
  ReadVarInt_loop w n s = Ok (a, rest) ->
  varint_read_so_far f n ++ s = WriteVarInt w a ++ rest /\ 0 <= a < 2 ^ w /\ are_bytes rest.
Proof.
  intros Hw Hf Hs. revert n. induction Hs as [ | b s Hb Hs IH]; intros n Hn H; [done | ].
  destruct (varint_byte b Hb) as (d & Hd & Hcase).
  assert (Hlim : n <= Z.shiftr (2 ^ w - 1) 7).
  { simpl in H. destruct (Z.ltb_spec (Z.shiftr (2 ^ w - 1) 7) n); [done | lia]. }
  rewrite Z.shiftr_div_pow2 in Hlim by lia. change (2 ^ 7) with 128 in Hlim.
  pose proof (Z.mul_div_le (2 ^ w - 1) 128).
  assert (2 ^ w = 128 * 2 ^ (w - 7)) as Ew
    by (change 128 with (2 ^ 7); rewrite <- Z.pow_add_r by lia; f_equal; lia).
  destruct Hcase as [[-> Hbit] | [-> Hbit]].
  - rewrite ReadVarInt_loop_last in H by lia. injection H as <- <-.
    change (d :: s) with ([d] ++ s).
    rewrite app_assoc, (varint_write_last w) by lia. split_and!; done || lia.
  - destruct (decide (n * 128 + d = 2 ^ w - 1)) as [Emax | ?].
    { exfalso. simpl in H. destruct (_ <? n); [done | ].
      rewrite Hbit, land_127 in H. change (negb (128 =? 0)) with true in H.
      assert (Z.shiftl n 7 = n * 128) as Esh by (by rewrite Z.shiftl_mul_pow2).
      rewrite Z.mod_small in H by lia.
      replace ((d + 128) mod 128) with d in H by (apply (Z.mod_unique _ _ 1); lia).
      rewrite Z.lor_comm, lor_shiftl_add in H by lia. change (2 ^ 7) with 128 in H.
      destruct (Z.eqb_spec (d + n * 128) (2 ^ w - 1)); [done | lia]. }
    rewrite ReadVarInt_loop_cont in H by lia. apply IH in H as (E & ? & ?); [ | lia].
    split_and!; [ | lia..| done]. rewrite <- E.
    change ((d + 128) :: s) with ([d + 128] ++ s). rewrite app_assoc. f_equal.
    assert (0 <= n * 128 + d < 2 ^ Z.of_nat (S f)) by (replace (Z.of_nat (S f)) with w by lia; lia).
    rewrite varint_so_far_step by (try apply pow7_fuel; lia).
    unfold varint_read_so_far. destruct (Z.eqb_spec (n * 128 + d + 1) 0); [lia | ].
    symmetry. apply varint_tail_fuel; [ | lia].
    assert (2 ^ w <= 2 ^ (7 * Z.of_nat (S f))) by (apply Z.pow_le_mono_r; lia). lia.
Qed.

Lemma ReadVarInt_inv w s a rest :
  7 <= w -> are_bytes s -> ReadVarInt w s = Ok (a, rest) ->
  s = WriteVarInt w a ++ rest /\ 0 <= a < 2 ^ w /\ are_bytes rest.
Proof.
  intros Hw Hs H. assert (0 < 2 ^ w) by (apply Z.pow_pos_nonneg; lia).
  apply (ReadVarInt_loop_inv w (Nat.pred (Z.to_nat w)) s 0); try done; lia.
Qed.

#[export] Instance VarInt_canonical w : 7 <= w -> Canonical (WriteVarInt w) (ReadVarInt w).
Proof.
  intros Hw s a rest Hs H. by apply (ReadVarInt_inv w) in H as [E _].
Qed.

(** VARINT is one-to-one, as [serialize.h] documents: for every unsigned type of at least
    seven bits each of its values is read back from its encoding whatever follows it (no value
    of the type triggers the overflow failures), and conversely every byte string the reader
    accepts is the encoding of the value it returns, which fits the type. *)
Theorem VarInt_one_to_one w :
  7 <= w ->
  (forall n rest, 0 <= n < 2 ^ w -> ReadVarInt w (WriteVarInt w n ++ rest) = Ok (n, rest)) /\
  (forall s n rest, are_bytes s -> ReadVarInt w s = Ok (n, rest) ->
     s = WriteVarInt w n ++ rest /\ 0 <= n < 2 ^ w).
Proof.
  intros Hw. split; [intros; by apply VarInt_roundtrip_aux | ]. intros s n rest Hs H.
  by apply ReadVarInt_inv in H as (? & ? & _).
Qed.

Lemma VarInt_one_to_one_witness :
  ReadVarInt 32 (WriteVarInt 32 65535 ++ [7]) = Ok (65535, [7]) /\
  WriteVarInt 32 65535 = [0x82; 0xFE; 0x7F] /\
  [0x82; 0xFE; 0x7F; 7] = WriteVarInt 32 65535 ++ [7].
Proof.
  destruct (VarInt_one_to_one 32) as [Hw Hr]; [lia | ].
  split; [apply Hw; lia | ]. split; [vm_compute; reflexivity | ].
  apply Hr; [repeat constructor; unfold is_byte; lia | vm_compute; reflexivity].
Defined.

(** CompactSize: a size up to [MAX_SIZE] is read back from its encoding; every byte string
    the reader accepts is the (shortest) encoding of the size it returns, and that size does
    not exceed [MAX_SIZE]. *)
Theorem CompactSize_one_to_one :
  (forall n rest, 0 <= n <= MAX_SIZE ->
     ReadCompactSize (WriteCompactSize n ++ rest) = Ok (n, rest)) /\
  (forall s n rest, are_bytes s -> ReadCompactSize s = Ok (n, rest) ->
     s = WriteCompactSize n ++ rest /\ 0 <= n <= MAX_SIZE).
Proof.
  split; [apply CompactSize_roundtrip | ].
  intros s n rest Hs H. by apply ReadCompactSize_inv in H as (? & ? & _).
Qed.

(** *** Sizes *)

Lemma GetSizeOfVarInt_loop_length f n len :
  GetSizeOfVarInt_loop f n = vsize (WriteVarInt_tmp f n len).
Proof.
  revert n len. induction f as [ | f IH]; intros n len; simpl; rewrite vsize_cons; zcases; try done.
  by rewrite <- IH.
Qed.

Lemma WriteVarInt_tmp_length f n len :
  vsize (WriteVarInt_tmp f n len) <= 1 + Z.of_nat f.
Proof.
  revert n len. induction f as [ | f IH]; intros n len; simpl; rewrite vsize_cons; zcases.
  all: rewrite ?vsize_nil; try lia. specialize (IH (Z.shiftr n 7 - 1) (len + 1)). lia.
Qed.

(** What [CSizeComputer] counts is what a stream receives: the two size functions return
    the number of bytes their writers emit; and the writer's buffer
    [tmp[(sizeof(n)*8+6)/7]] never overflows. *)
Theorem sizes_count_bytes_written w n :
  7 <= w -> 0 <= n < 2 ^ w ->
  GetSizeOfVarInt w n = vsize (WriteVarInt w n) /\
  vsize (WriteVarInt w n) <= (w + 6) / 7 /\
  GetSizeOfCompactSize n = vsize (WriteCompactSize n).
Proof.
  intros Hw Hn. unfold WriteVarInt, vsize. rewrite length_rev. fold (vsize (WriteVarInt_tmp (Z.to_nat w) n 0)).
  split; [apply GetSizeOfVarInt_loop_length | ]. split.
  - set (f := Z.to_nat ((w + 6) / 7 - 1)).
    assert (0 <= (w + 6) / 7 - 1) by (pose proof (Z.div_le_lower_bound (w + 6) 7 1); lia).
    pose proof (Z.div_mod (w + 6) 7). pose proof (Z.mod_pos_bound (w + 6) 7).
    pose proof (Z.div_le_upper_bound (w + 6) 7 (w + 1)).
    assert (E : WriteVarInt_tmp (Z.to_nat w) n 0 = WriteVarInt_tmp f n 0).
    { assert (Hf : 0 <= n < 2 ^ (7 * Z.of_nat (S f))).
      { assert (2 ^ w <= 2 ^ (7 * Z.of_nat (S f))) by (apply Z.pow_le_mono_r; lia). lia. }
      symmetry. apply WriteVarInt_tmp_fuel; [done | lia]. }
    rewrite E. pose proof (WriteVarInt_tmp_length f n 0). lia.
  - unfold GetSizeOfCompactSize, WriteCompactSize.
    zcases; unfold ser_writedata8, ser_writedata16, ser_writedata32, ser_writedata64.
    all: rewrite ?length_app, ?le_encode_length; done.
Qed.

(** *** Blobs and vectors *)

(** Reading in blocks of [READ_BLOCK] bytes is reading at once, given one turn of fuel for
    each block that starts before the end. *)
Lemma read_blocks_is_stream_read f i nSize s :
  0 <= i <= nSize -> nSize - i <= Z.of_nat f * READ_BLOCK ->
  read_blocks f i nSize s = stream_read (nSize - i) s.
Proof.
  revert i s. induction f as [ | f IH]; intros i s Hi Hf; simpl; destruct (Z.ltb_spec i nSize);
    try lia.
  1, 3: unfold stream_read; replace (nSize - i) with 0 by lia;
    by destruct (Z.ltb_spec (vsize s) 0); [pose proof (vsize_nonneg s); lia | ].
  set (blk := Z.min (nSize - i) READ_BLOCK). assert (0 < blk <= nSize - i).
  { unfold blk, READ_BLOCK in *. lia. }
  unfold mbind, reader_bind. unfold stream_read at 1.
  destruct (Z.ltb_spec (vsize s) blk).
  { unfold stream_read. by destruct (Z.ltb_spec (vsize s) (nSize - i)); [ | lia]. }
  rewrite IH by (unfold blk, READ_BLOCK in *; lia).
  unfold stream_read, vsize in *. rewrite length_drop.
  destruct (Z.ltb_spec (Z.of_nat (length s - Z.to_nat blk)) (nSize - (i + blk)));
    destruct (Z.ltb_spec (Z.of_nat (length s)) (nSize - i)); try done; try lia.
  rewrite drop_drop. unfold mret, reader_ret. do 2 f_equal; [ | f_equal; lia].
  replace (Z.to_nat (nSize - i)) with (Z.to_nat blk + Z.to_nat (nSize - (i + blk)))%nat by lia.
  apply take_take_drop.
Qed.

Lemma Unserialize_bytes_eq s :
  are_bytes s -> Unserialize_bytes s = (nSize ← ReadCompactSize; stream_read nSize) s.
Proof.
  intros Hs. unfold Unserialize_bytes, mbind, reader_bind.
  destruct (ReadCompactSize s) as [[n s'] | ] eqn:E; [ | done].
  apply ReadCompactSize_inv in E as (_ & Hn & _); [ | done].
  rewrite read_blocks_is_stream_read by (pose proof (Z.div_mod n READ_BLOCK);
    pose proof (Z.mod_pos_bound n READ_BLOCK); unfold READ_BLOCK in *; lia).
  by rewrite Z.sub_0_r.
Qed.

#[export] Instance bytes_roundtrip :
  RoundTrip (fun v => vsize v <= MAX_SIZE) Serialize_bytes Unserialize_bytes.
Proof.
  intros v rest Hv. unfold Serialize_bytes, Unserialize_bytes. rewrite <- app_assoc.
  pose proof (vsize_nonneg v).
  rewrite (reader_bind_round (P := fun n => 0 <= n <= MAX_SIZE)) by lia.
  rewrite read_blocks_is_stream_read by (pose proof (Z.div_mod (vsize v) READ_BLOCK);
    pose proof (Z.mod_pos_bound (vsize v) READ_BLOCK); unfold READ_BLOCK in *; lia).
  apply stream_read_app. lia.
Qed.

#[export] Instance bytes_canonical : Canonical Serialize_bytes Unserialize_bytes.
Proof.
  intros s v rest Hs H. rewrite Unserialize_bytes_eq in H by done.
  apply reader_bind_inv in H as (n & s' & Hn & H).
  apply ReadCompactSize_inv in Hn as (-> & Hn & _); [ | done].
  apply stream_read_ok in H as [-> <-]; [ | lia]. unfold Serialize_bytes. by rewrite app_assoc.
Qed.

Lemma read_elems_round {T} (P : T -> Prop) w r `{RoundTrip T P w r} v rest :
  Forall P v -> read_elems r (length v) (flat_map w v ++ rest) = Ok (v, rest).
Proof.
  induction 1 as [ | x v Hx Hv IH]; simpl; [done | ].
  rewrite <- app_assoc, reader_bind_round by done.
  unfold mbind, reader_bind. by rewrite IH.
Qed.

#[export] Instance vector_roundtrip {T} (P : T -> Prop) w r `{RoundTrip T P w r} :
  RoundTrip (fun v => vsize v <= MAX_SIZE /\ Forall P v) (Serialize_vector w) (Unserialize_vector r).
Proof.
  intros v rest [Hv HP]. unfold Serialize_vector, Unserialize_vector. rewrite <- app_assoc.
  pose proof (vsize_nonneg v).
  rewrite (reader_bind_round (P := fun n => 0 <= n <= MAX_SIZE)) by lia.
  unfold vsize. rewrite Nat2Z.id. by apply (read_elems_round P).
Qed.

(** *** The codecs other components build on *)

#[export] Instance data8_codec : Codec (fun x => in_u 8 x) ser_writedata8 ser_readdata8.
Proof.
  split; [apply _ | ]. intros s a rest Hs H. apply (le_reader_inv _ 1) in H as (-> & ? & ?); [ | done..].
  unfold ser_writedata8, u8. by rewrite Z.mod_small by lia.
Qed.

#[export] Instance data16_codec : Codec (fun x => in_u 16 x) ser_writedata16 ser_readdata16.
Proof.
  split; [apply _ | ]. intros s a rest Hs H. apply (le_reader_inv _ 2) in H as (-> & ? & ?); [ | done..].
  unfold ser_writedata16, u16. by rewrite Z.mod_small by lia.
Qed.

#[export] Instance data32_codec : Codec (fun x => in_u 32 x) ser_writedata32 ser_readdata32.
Proof.
  split; [apply _ | ]. intros s a rest Hs H. apply (le_reader_inv _ 4) in H as (-> & ? & ?); [ | done..].
  unfold ser_writedata32, u32. by rewrite Z.mod_small by lia.
Qed.

#[export] Instance data64_codec : Codec (fun x => in_u 64 x) ser_writedata64 ser_readdata64.
Proof.
  split; [apply _ | ]. intros s a rest Hs H. apply (le_reader_inv _ 8) in H as (-> & ? & ?); [ | done..].
  unfold ser_writedata64, u64. by rewrite Z.mod_small by lia.
Qed.

Lemma signed_unsigned w z : 0 < w -> in_u w z -> signed w z mod 2 ^ w = z.
Proof.
  intros Hw Hz. unfold signed. rewrite Zminus_mod_idemp_l.
  rewrite Z.add_simpl_r. by apply Z.mod_small.
Qed.

#[export] Instance int32_codec : Codec (fun x => in_i 32 x) ser_writedata32 Unserialize_int32.
Proof.
  split; [apply _ | ]. intros s a rest Hs H.
  apply codec_bind_inv in H as (x & s' & -> & Hx & Hs' & [= <- <-]); [ | done].
  unfold ser_writedata32, u32, i32. rewrite signed_unsigned by lia. rewrite Z.mod_small by lia.
  split_and!; try done; apply signed_range; lia.
Qed.

#[export] Instance int64_codec : Codec (fun x => in_i 64 x) ser_writedata64 Unserialize_int64.
Proof.
  split; [apply _ | ]. intros s a rest Hs H.
  apply codec_bind_inv in H as (x & s' & -> & Hx & Hs' & [= <- <-]); [ | done].
  unfold ser_writedata64, u64, i64. rewrite signed_unsigned by lia. rewrite Z.mod_small by lia.
  split_and!; try done; apply signed_range; lia.
Qed.

#[export] Instance CompactSize_codec :
  Codec (fun n => 0 <= n <= MAX_SIZE) WriteCompactSize ReadCompactSize.
Proof. split; [apply _ | ]. apply ReadCompactSize_inv. Qed.

#[export] Instance VarInt_codec w : 7 <= w ->
  Codec (fun n => in_u w n) (WriteVarInt w) (ReadVarInt w).
Proof. split; [by apply VarInt_round | ]. intros s a rest Hs Hr. by apply ReadVarInt_inv. Qed.

(** A blob of vector size: what [Serialize_bytes] can carry. *)
Definition blob_ok (v : bytes) : Prop := are_bytes v /\ vsize v <= MAX_SIZE.

#[export] Instance bytes_codec : Codec blob_ok Serialize_bytes Unserialize_bytes.
Proof.
  split.
  - intros v rest [_ Hv]. by apply bytes_roundtrip.
  - intros s v rest Hs H. rewrite Unserialize_bytes_eq in H by done.
    apply codec_bind_inv in H as (n & s' & -> & Hn & Hs' & H); [ | done].
    apply stream_read_ok in H as [-> <-]; [ | lia]. apply Forall_app in Hs' as [? ?].
    unfold Serialize_bytes, blob_ok. rewrite <- app_assoc. split_and!; try done; lia.
Qed.

Lemma read_elems_inv {T} (P : T -> Prop) w r `{!Codec P w r} n s v rest :
  are_bytes s -> read_elems r n s = Ok (v, rest) ->
  s = flat_map w v ++ rest /\ length v = n /\ Forall P v /\ are_bytes rest.
Proof.
  revert s v. induction n as [ | n IH]; intros s v Hs H; simpl in H; [by injection H as <- <- | ].
  apply codec_bind_inv in H as (x & s' & -> & Hx & Hs' & H); [ | done].
  apply reader_bind_inv in H as (xs & s'' & H & [= <- <-]).
  apply IH in H as (-> & <- & ? & ?); [ | done]. simpl. rewrite <- app_assoc. auto.
Qed.

Definition vector_ok {T} (P : T -> Prop) (v : list T) : Prop := vsize v <= MAX_SIZE /\ Forall P v.

#[export] Instance vector_codec {T} (P : T -> Prop) w r `{!Codec P w r} :
  Codec (vector_ok P) (Serialize_vector w) (Unserialize_vector r).
Proof.
  split.
  - intros v rest Hv. apply (vector_roundtrip P _ _ (H:=codec_round)). exact Hv.
  - intros s v rest Hs H. apply codec_bind_inv in H as (n & s' & -> & Hn & Hs' & H); [ | done].
    apply (read_elems_inv P w r) in H as (-> & Hlen & HP & ?); [ | done].
    unfold Serialize_vector, vector_ok. rewrite <- app_assoc. unfold vsize. rewrite Hlen, Z2Nat.id by lia.
    split_and!; done || lia.
Qed.

(** A byte vector is read back whatever follows it, and the block-wise reader returns for
    every stream what one read of the announced size would; a limited string is read back
    exactly when it fits the limit, and refused with the limit failure otherwise. *)
Theorem byte_vectors_round_trip v rest Limit :
  vsize v <= MAX_SIZE ->
  Unserialize_bytes (Serialize_bytes v ++ rest) = Ok (v, rest) /\
  (forall s, are_bytes s ->
     Unserialize_bytes s = (nSize ← ReadCompactSize; stream_read nSize) s) /\
  LimitedString_Unserialize Limit (LimitedString_Serialize v ++ rest) =
    (if vsize v <=? Limit then Ok (v, rest) else Err StringLimitExceeded).
Proof.
  intros Hv. split; [by apply bytes_roundtrip | ]. split; [apply Unserialize_bytes_eq | ].
  unfold LimitedString_Unserialize, LimitedString_Serialize. rewrite <- app_assoc.
  pose proof (vsize_nonneg v).
  rewrite (reader_bind_round (P := fun n => 0 <= n <= MAX_SIZE)) by lia.
  destruct (Z.ltb_spec Limit (vsize v)); destruct (Z.leb_spec (vsize v) Limit); try lia; [done | ].
  destruct (Z.eqb_spec (vsize v) 0); simpl negb; cbv iota; [ | by apply stream_read_app].
  destruct v; [done | ]. unfold vsize in *. simpl in *. lia.
Qed.

Lemma byte_vectors_round_trip_witness :
  Unserialize_bytes (Serialize_bytes [1; 2; 3] ++ [9]) = Ok ([1; 2; 3], [9]).
Proof. refine (proj1 (byte_vectors_round_trip [1; 2; 3] [9] 2 _)). vm_compute. discriminate. Defined.

Lemma sizes_count_bytes_written_witness : GetSizeOfVarInt 32 16511 = vsize (WriteVarInt 32 16511).
Proof. refine (proj1 (sizes_count_bytes_written 32 16511 _ _)); lia. Defined.

#[global] Arguments ser_writedata8 : simpl never.
#[global] Arguments ser_writedata16 : simpl never.
#[global] Arguments ser_writedata32 : simpl never.
#[global] Arguments ser_writedata64 : simpl never.
#[global] Arguments WriteCompactSize : simpl never.
