(* ===== verification/ArithUint256.v ===== *)
(** * 256-bit unsigned integers ([src/arith_uint256.h], [src/arith_uint256.cpp])

    [base_uint<256>] as its eight 32-bit limbs, every operator as the loop over the limbs the
    source writes, and the compact target format.  The theorems are a functional refinement:
    [val] reads the limbs as a number, and each operator computes the corresponding operation
    of [Z] modulo [2^256] (division exactly, and by zero it throws). *)

From S2P Require Import Prelude.
Open Scope Z_scope.

(** ** Definitions *)

(** [uint32_t pn[WIDTH]], least significant limb first. *)
Abbreviation base_uint := (list Z).
Definition WIDTH : Z := 8.

Inductive uint_error : Type := DivisionByZero.

(** The number the limbs stand for, and the shape every [base_uint] has. *)
Fixpoint val (pn : base_uint) : Z :=
  match pn with
  | [] => 0
  | x :: pn => x + 2 ^ 32 * val pn
  end.

Definition limbs (n : nat) (pn : base_uint) : Prop :=
  length pn = n /\ Forall (fun x => in_u 32 x) pn.
Abbreviation wf256 := (limbs 8).

(** [pn[i]], for an index the code keeps in range. *)
Definition pn_at (pn : base_uint) (i : Z) : Z := nth (Z.to_nat i) pn 0.
(** [pn[i] |= x] *)
Definition pn_or (pn : base_uint) (i x : Z) : base_uint :=
  <[Z.to_nat i := Z.lor (pn_at pn i) x]> pn.

Definition zero : base_uint := replicate 8 0.

(** [base_uint(uint64_t b)] and [operator=(uint64_t)] *)
Definition of_u64 (b : Z) : base_uint := u32 b :: u32 (Z.shiftr b 32) :: replicate 6 0.

Definition bitnot (pn : base_uint) : base_uint := map (fun x => u32 (Z.lnot x)) pn.
Definition bitxor (a b : base_uint) : base_uint := zip_with Z.lxor a b.
Definition bitand (a b : base_uint) : base_uint := zip_with Z.land a b.
Definition bitor (a b : base_uint) : base_uint := zip_with Z.lor a b.

(** [operator++]: [while (i < WIDTH && ++pn[i] == 0) i++]. *)
Fixpoint incr (pn : base_uint) : base_uint :=
  match pn with
  | [] => []
  | x :: pn => let x' := u32 (x + 1) in if x' =? 0 then x' :: incr pn else x' :: pn
  end.

(** [operator--] *)
Fixpoint decr (pn : base_uint) : base_uint :=
  match pn with
  | [] => []
  | x :: pn => let x' := u32 (x - 1) in if x' =? UINT32_MAX then x' :: decr pn else x' :: pn
  end.

Definition neg (pn : base_uint) : base_uint := incr (bitnot pn).

Fixpoint add_loop (carry : Z) (pn b : base_uint) : base_uint :=
  match pn, b with
  | x :: pn, y :: b =>
      let n := u64 (carry + x + y) in
      Z.land n 0xffffffff :: add_loop (Z.shiftr n 32) pn b
  | _, _ => pn
  end.

Definition add (a b : base_uint) : base_uint := add_loop 0 a b.
Definition sub (a b : base_uint) : base_uint := add a (neg b).

Fixpoint mul32_loop (b32 carry : Z) (pn : base_uint) : base_uint :=
  match pn with
  | [] => []
  | x :: pn =>
      let n := u64 (carry + b32 * x) in
      Z.land n 0xffffffff :: mul32_loop b32 (Z.shiftr n 32) pn
  end.

Definition mul32 (pn : base_uint) (b32 : Z) : base_uint := mul32_loop b32 0 pn.

(** The inner loop of [operator*=]: [acc] is [a.pn[j..]], [b] is [b.pn[0..]]. *)
Fixpoint mul_row (pn_j carry : Z) (acc b : base_uint) : base_uint :=
  match acc, b with
  | x :: acc, y :: b =>
      let n := u64 (carry + x + pn_j * y) in
      Z.land n 0xffffffff :: mul_row pn_j (Z.shiftr n 32) acc b
  | _, _ => acc
  end.

(** The outer loop: row [j] leaves [a.pn[0..j-1]] alone and settles [a.pn[j]]. *)
Fixpoint mul_loop (pn b acc : base_uint) : base_uint :=
  match pn with
  | [] => acc
  | pn_j :: pn =>
      match mul_row pn_j 0 acc b with
      | [] => []
      | x :: acc => x :: mul_loop pn b acc
      end
  end.

Definition mul (a b : base_uint) : base_uint := mul_loop a b zero.

Definition shl_step (a : base_uint) (k shift : Z) (pn : base_uint) (i : nat) : base_uint :=
  let i := Z.of_nat i in
  let pn := if (i + k + 1 <? WIDTH) && negb (shift =? 0)
            then pn_or pn (i + k + 1) (Z.shiftr (pn_at a i) (32 - shift)) else pn in
  if i + k <? WIDTH then pn_or pn (i + k) (u32 (Z.shiftl (pn_at a i) shift)) else pn.

Definition shl (a : base_uint) (shift : Z) : base_uint :=
  foldl (shl_step a (shift / 32) (shift mod 32)) zero (seq 0 8).

Definition shr_step (a : base_uint) (k shift : Z) (pn : base_uint) (i : nat) : base_uint :=
  let i := Z.of_nat i in
  let pn := if (0 <=? i - k - 1) && negb (shift =? 0)
            then pn_or pn (i - k - 1) (u32 (Z.shiftl (pn_at a i) (32 - shift))) else pn in
  if 0 <=? i - k then pn_or pn (i - k) (Z.shiftr (pn_at a i) shift) else pn.

Definition shr (a : base_uint) (shift : Z) : base_uint :=
  foldl (shr_step a (shift / 32) (shift mod 32)) zero (seq 0 8).

(** [CompareTo], from the most significant limb. *)
Fixpoint compare_rev (a b : base_uint) : Z :=
  match a, b with
  | x :: a, y :: b => if x <? y then -1 else if y <? x then 1 else compare_rev a b
  | _, _ => 0
  end.
Definition CompareTo (a b : base_uint) : Z := compare_rev (rev a) (rev b).
Definition ltb (a b : base_uint) : bool := CompareTo a b <? 0.
Definition leb (a b : base_uint) : bool := CompareTo a b <=? 0.
Definition eqb (a b : base_uint) : bool := bool_decide (a = b).

Definition EqualTo (pn : base_uint) (b : Z) : bool :=
  if existsb (fun x => negb (x =? 0)) (drop 2 pn) then false
  else if negb (pn_at pn 1 =? Z.shiftr b 32) then false
  else if negb (pn_at pn 0 =? Z.land b 0xffffffff) then false
  else true.

(** [bits]: [top_bit] is the loop over [nbits] (down to 1; bit 0 is what is left). *)
Fixpoint top_bit (x : Z) (nbits : nat) : Z :=
  match nbits with
  | O => 0
  | S m => if negb (Z.land x (Z.shiftl 1 (Z.of_nat nbits)) =? 0) then Z.of_nat nbits else top_bit x m
  end.
Fixpoint bits_rev (pn : base_uint) : Z :=
  match pn with
  | [] => 0
  | x :: pn => if negb (x =? 0) then 32 * vsize pn + top_bit x 31 + 1 else bits_rev pn
  end.
Definition bits (pn : base_uint) : Z := bits_rev (rev pn).

Definition GetLow64 (pn : base_uint) : Z := Z.lor (pn_at pn 0) (Z.shiftl (pn_at pn 1) 32).

(** The division loop, for [shift], [shift - 1], ..., 0; [q] is [*this]. *)
Fixpoint div_loop (n : nat) (num div q : base_uint) : base_uint * base_uint :=
  match n with
  | O => (q, num)
  | S n =>
      let shift := Z.of_nat n in
      let '(num, q) :=
        if leb div num then
          (sub num div, pn_or q (shift / 32) (u32 (Z.shiftl 1 (Z.land shift 31))))
        else (num, q) in
      div_loop n num (shr div 1) q
  end.

Definition udiv (a b : base_uint) : result uint_error base_uint :=
  let num_bits := bits a in
  let div_bits := bits b in
  if div_bits =? 0 then Err DivisionByZero
  else if num_bits <? div_bits then Ok zero
  else
    let shift := num_bits - div_bits in
    Ok (fst (div_loop (Z.to_nat (shift + 1)) a (shl b shift) zero)).

(** [SetCompact(nCompact, &fNegative, &fOverflow)] *)
Definition SetCompact (nCompact : Z) : base_uint * bool * bool :=
  let nSize := Z.shiftr nCompact 24 in
  let nWord := Z.land nCompact 0x007fffff in
  let '(nWord, this) :=
    if nSize <=? 3 then
      let nWord := Z.shiftr nWord (8 * (3 - nSize)) in (nWord, of_u64 nWord)
    else (nWord, shl (of_u64 nWord) (8 * (nSize - 3))) in
  (this,
   negb (nWord =? 0) && negb (Z.land nCompact 0x00800000 =? 0),
   negb (nWord =? 0) && ((34 <? nSize) || ((0xff <? nWord) && (33 <? nSize))
                         || ((0xffff <? nWord) && (32 <? nSize)))).

(** [GetCompact(fNegative)]; [None] is a failed [assert]. *)
Definition GetCompact (pn : base_uint) (fNegative : bool) : option Z :=
  let nSize := (bits pn + 7) / 8 in
  let nCompact :=
    if nSize <=? 3 then u32 (u64 (Z.shiftl (GetLow64 pn) (8 * (3 - nSize))))
    else u32 (GetLow64 (shr pn (8 * (nSize - 3)))) in
  let '(nCompact, nSize) :=
    if negb (Z.land nCompact 0x00800000 =? 0) then (Z.shiftr nCompact 8, nSize + 1)
    else (nCompact, nSize) in
  if negb (Z.land nCompact (u32 (Z.lnot 0x007fffff)) =? 0) then None
  else if negb (nSize <? 256) then None
  else
    let nCompact := Z.lor nCompact (u32 (Z.shiftl nSize 24)) in
    Some (Z.lor nCompact
      (if fNegative && negb (Z.land nCompact 0x007fffff =? 0) then 0x00800000 else 0)).

(** Conversion to and from the 32-byte blob. *)
Definition ArithToUint256 (a : base_uint) : bytes := flat_map (le_encode 4) a.
Fixpoint uint_words (n : nat) (a : bytes) : base_uint :=
  match n with
  | O => []
  | S n => le_decode (take 4 a) :: uint_words n (drop 4 a)
  end.
Definition UintToArith256 (a : bytes) : base_uint := uint_words 8 a.

(** ** Theorems *)

(** *** Limbs *)

Lemma limbs_cons n x pn : limbs (S n) (x :: pn) <-> in_u 32 x /\ limbs n pn.
Proof.
  unfold limbs. split.
  - intros [Hl H]. inversion H; subst. simpl in Hl. auto with lia.
  - intros [Hx [Hl H]]. simpl. auto.
Qed.

Lemma limbs_0 pn : limbs 0 pn -> pn = [].
Proof. intros [H _]. by apply nil_length_inv. Qed.

(** Induction along the limbs of one or two numbers of the same width. *)
Ltac limb_cases pn := destruct pn as [ | ? pn]; [by destruct 1 | ].

Lemma val_range n pn : limbs n pn -> 0 <= val pn < 2 ^ (32 * Z.of_nat n).
Proof.
  revert pn. induction n as [ | n IH]; intros pn H.
  - apply limbs_0 in H as ->. simpl. lia.
  - destruct pn as [ | x pn]; [by destruct H | ]. apply limbs_cons in H as [Hx H].
    specialize (IH pn H). simpl val. replace (32 * Z.of_nat (S n)) with (32 + 32 * Z.of_nat n) by lia.
    rewrite Z.pow_add_r by lia. lia.
Qed.

Lemma val_range256 pn : wf256 pn -> 0 <= val pn < 2 ^ 256.
Proof. apply (val_range 8). Qed.

Lemma val_inj n a b : limbs n a -> limbs n b -> val a = val b -> a = b.
Proof.
  revert a b. induction n as [ | n IH]; intros a b Ha Hb E.
  - by rewrite (limbs_0 a), (limbs_0 b).
  - destruct a as [ | x a], b as [ | y b]; try (by destruct Ha); try (by destruct Hb).
    apply limbs_cons in Ha as [Hx Ha], Hb as [Hy Hb]. simpl in E.
    f_equal; [ | apply IH; try done]; lia.
Qed.

Lemma limbs_zero n : limbs n (replicate n 0).
Proof. split; [apply length_replicate | apply Forall_replicate; lia]. Qed.

Lemma val_zero n : val (replicate n 0) = 0.
Proof. induction n; simpl; lia. Qed.

Lemma land_ones32 n : Z.land n 0xffffffff = n mod 2 ^ 32.
Proof. apply (Z.land_ones n 32). lia. Qed.

Lemma word_split n : 0 <= n -> Z.land n 0xffffffff + 2 ^ 32 * Z.shiftr n 32 = n.
Proof.
  intros Hn. rewrite land_ones32, Z.shiftr_div_pow2 by lia.
  pose proof (Z.div_mod n (2 ^ 32)). lia.
Qed.

Lemma land_word n : in_u 32 (Z.land n 0xffffffff).
Proof. rewrite land_ones32. apply Z.mod_pos_bound. lia. Qed.

(** *** Bitwise complement, increment, addition, subtraction *)

Lemma lnot_word x : in_u 32 x -> u32 (Z.lnot x) = 2 ^ 32 - 1 - x.
Proof. intros Hx. unfold u32, Z.lnot. symmetry. apply (Z.mod_unique _ _ (-1)); lia. Qed.

Lemma bitnot_spec n a :
  limbs n a -> limbs n (bitnot a) /\ val (bitnot a) = 2 ^ (32 * Z.of_nat n) - 1 - val a.
Proof.
  revert a. induction n as [ | n IH]; intros a Ha.
  - apply limbs_0 in Ha as ->. by split.
  - destruct a as [ | x a]; [by destruct Ha | ]. apply limbs_cons in Ha as [Hx Ha].
    apply IH in Ha as [Hl Hv]. simpl. rewrite limbs_cons, lnot_word, Hv by done.
    replace (32 * Z.of_nat (S n)) with (32 + 32 * Z.of_nat n) by lia.
    rewrite Z.pow_add_r by lia. split; [split; [lia | done] | lia].
Qed.

Lemma incr_spec n a :
  limbs n a -> limbs n (incr a) /\ val (incr a) = (val a + 1) mod 2 ^ (32 * Z.of_nat n).
Proof.
  revert a. induction n as [ | n IH]; intros a Ha.
  - apply limbs_0 in Ha as ->. simpl. by rewrite Z.mod_1_r.
  - destruct a as [ | x a]; [by destruct Ha | ]. apply limbs_cons in Ha as [Hx Ha].
    pose proof (val_range _ _ Ha) as Hr. apply IH in Ha as Hi. destruct Hi as [Hl Hv].
    replace (32 * Z.of_nat (S n)) with (32 + 32 * Z.of_nat n) by lia.
    rewrite Z.pow_add_r by lia. simpl incr. unfold u32.
    destruct (decide (x = 2 ^ 32 - 1)) as [-> | Hne].
    + change ((2 ^ 32 - 1 + 1) mod 2 ^ 32 =? 0) with true. cbv iota.
      rewrite limbs_cons. change ((2 ^ 32 - 1 + 1) mod 2 ^ 32) with 0.
      split; [split; [lia | done] | ]. simpl val. rewrite Hv.
      replace (2 ^ 32 - 1 + 2 ^ 32 * val a + 1) with (2 ^ 32 * (val a + 1)) by lia.
      rewrite Z.mul_mod_distr_l; lia.
    + rewrite Z.mod_small by lia. destruct (Z.eqb_spec (x + 1) 0); [lia | ].
      rewrite limbs_cons. split; [split; [lia | done] | ]. simpl val.
      rewrite Z.mod_small; lia.
Qed.

Lemma decr_spec n a :
  limbs n a -> limbs n (decr a) /\ val (decr a) = (val a - 1) mod 2 ^ (32 * Z.of_nat n).
Proof.
  revert a. induction n as [ | n IH]; intros a Ha.
  - apply limbs_0 in Ha as ->. simpl. by rewrite Z.mod_1_r.
  - destruct a as [ | x a]; [by destruct Ha | ]. apply limbs_cons in Ha as [Hx Ha].
    pose proof (val_range _ _ Ha) as Hr. apply IH in Ha as Hi. destruct Hi as [Hl Hv].
    replace (32 * Z.of_nat (S n)) with (32 + 32 * Z.of_nat n) by lia.
    rewrite Z.pow_add_r by lia. simpl decr. unfold u32, UINT32_MAX.
    destruct (decide (x = 0)) as [-> | Hne].
    + change ((0 - 1) mod 2 ^ 32) with (2 ^ 32 - 1). rewrite Z.eqb_refl.
      rewrite limbs_cons. split; [split; [lia | done] | ]. simpl val. rewrite Hv.
      pose proof (Z.div_mod (val a - 1) (2 ^ (32 * Z.of_nat n))).
      pose proof (Z.mod_pos_bound (val a - 1) (2 ^ (32 * Z.of_nat n))).
      apply (Z.mod_unique _ _ ((val a - 1) / 2 ^ (32 * Z.of_nat n))); [lia | ]. nia.
    + rewrite Z.mod_small by lia. destruct (Z.eqb_spec (x - 1) (2 ^ 32 - 1)); [lia | ].
      rewrite limbs_cons. split; [split; [lia | done] | ]. simpl val.
      rewrite Z.mod_small; lia.
Qed.

(** One limb of a carry loop: the low word stays, the rest is carried into the limbs above. *)
Lemma limb_mod t W P :
  0 <= t -> 0 < P ->
  Z.land t 0xffffffff + 2 ^ 32 * ((Z.shiftr t 32 + W) mod P) = (t + 2 ^ 32 * W) mod (2 ^ 32 * P).
Proof.
  intros Ht HP. rewrite <- (word_split t) at 3 by done. pose proof (land_word t).
  rewrite <- Z.add_assoc, <- Z.mul_add_distr_l. rewrite Z.rem_mul_r by lia.
  rewrite (Z.mul_comm (2 ^ 32) (Z.shiftr t 32 + W)), Z.mod_add, Z.div_add by lia.
  by rewrite (Z.mod_small (Z.land t _)), (Z.div_small (Z.land t _)) by done.
Qed.

Lemma limbs_pow n : 0 < 2 ^ (32 * Z.of_nat n) /\
  2 ^ (32 * Z.of_nat (S n)) = 2 ^ 32 * 2 ^ (32 * Z.of_nat n).
Proof.
  split; [apply Z.pow_pos_nonneg; lia | ]. rewrite <- Z.pow_add_r by lia. f_equal. lia.
Qed.

(** Induction step on the limbs of [a]: names its head, its tail and their bounds. *)
Ltac step_limb a Ha x a' Hx :=
  destruct a as [ | x a']; [by destruct Ha | ]; apply limbs_cons in Ha as [Hx Ha].

Lemma shiftr32_small t : 0 <= t < 2 ^ 64 -> 0 <= Z.shiftr t 32 < 2 ^ 32.
Proof.
  intros. rewrite Z.shiftr_div_pow2 by lia.
  split; [apply Z.div_pos; lia | apply Z.div_lt_upper_bound; lia].
Qed.

Lemma mul_row_spec n m p c acc b :
  limbs n acc -> limbs m b -> (n <= m)%nat -> in_u 32 p -> in_u 32 c ->
  limbs n (mul_row p c acc b) /\
  val (mul_row p c acc b) = (c + val acc + p * val b) mod 2 ^ (32 * Z.of_nat n).
Proof.
  revert m c acc b. induction n as [ | n IH]; intros m c acc b Ha Hb Hnm Hp Hc.
  - apply limbs_0 in Ha as ->. simpl. by rewrite Z.mod_1_r.
  - destruct m as [ | m]; [lia | ]. step_limb acc Ha x acc' Hx. step_limb b Hb y b' Hy.
    assert (Ht : 0 <= c + x + p * y < 2 ^ 64) by nia.
    simpl mul_row. rewrite u64_id by done. pose proof (shiftr32_small _ Ht).
    destruct (IH m (Z.shiftr (c + x + p * y) 32) acc' b') as [Hl Hv]; try done; try lia.
    rewrite limbs_cons. split; [split; [apply land_word | done] | ].
    destruct (limbs_pow n) as [HP ->]. simpl val.
    rewrite Hv, <- (Z.add_assoc (Z.shiftr _ _)), limb_mod by lia. f_equal. lia.
Qed.

Lemma add_loop_is_row c a b :
  length a = length b -> add_loop c a b = mul_row 1 c a b.
Proof.
  revert c b. induction a as [ | x a IH]; intros c [ | y b] H; try done.
  simpl add_loop. simpl mul_row. replace (1 * y) with y by lia.
  rewrite IH; [done | simpl in H; lia].
Qed.

Lemma add_spec_n n a b : limbs n a -> limbs n b ->
  limbs n (add a b) /\ val (add a b) = (val a + val b) mod 2 ^ (32 * Z.of_nat n).
Proof.
  intros Ha Hb. unfold add. rewrite add_loop_is_row by (destruct Ha, Hb; congruence).
  destruct (mul_row_spec n n 1 0 a b) as [? ->]; try done; try lia. split; [done | ]. f_equal. lia.
Qed.

Lemma neg_spec_n n a : limbs n a ->
  limbs n (neg a) /\ val (neg a) = (- val a) mod 2 ^ (32 * Z.of_nat n).
Proof.
  intros Ha. unfold neg. destruct (bitnot_spec n a Ha) as [Hl Hv].
  destruct (incr_spec n _ Hl) as [? ->]. split; [done | ]. rewrite Hv.
  destruct (limbs_pow n) as [HP _].
  replace (2 ^ (32 * Z.of_nat n) - 1 - val a + 1) with (- val a + 1 * 2 ^ (32 * Z.of_nat n)) by lia.
  by rewrite Z.mod_add by lia.
Qed.

Lemma sub_spec_n n a b : limbs n a -> limbs n b ->
  limbs n (sub a b) /\ val (sub a b) = (val a - val b) mod 2 ^ (32 * Z.of_nat n).
Proof.
  intros Ha Hb. unfold sub. destruct (neg_spec_n n b Hb) as [Hn Hv].
  destruct (add_spec_n n a _ Ha Hn) as [? ->]. split; [done | ].
  rewrite Hv, Zplus_mod_idemp_r. by rewrite Z.add_opp_r.
Qed.

Lemma mul32_loop_is_row b32 c a :
  Forall (fun x => in_u 32 x) a ->
  mul32_loop b32 c a = mul_row b32 c (replicate (length a) 0) a.
Proof.
  intros H. revert c. induction H as [ | x a Hx Ha IH]; intros c; simpl; [done | ].
  rewrite Z.add_0_r. by rewrite IH.
Qed.

Lemma mul32_spec a b : wf256 a -> in_u 32 b ->
  wf256 (mul32 a b) /\ val (mul32 a b) = (val a * b) mod 2 ^ 256.
Proof.
  intros Ha Hb. unfold mul32. rewrite mul32_loop_is_row by apply Ha.
  destruct Ha as [Hl Ha]. rewrite Hl.
  destruct (mul_row_spec 8 8 b 0 (replicate 8 0) a) as [? ->]; try done; try lia.
  - apply (limbs_zero 8).
  - split; [done | ]. rewrite (val_zero 8). change (32 * Z.of_nat 8) with 256. f_equal. lia.
Qed.

Lemma mul_loop_spec n m a b acc :
  limbs n a -> limbs m b -> limbs n acc -> (n <= m)%nat ->
  limbs n (mul_loop a b acc) /\
  val (mul_loop a b acc) = (val acc + val a * val b) mod 2 ^ (32 * Z.of_nat n).
Proof.
  revert a acc. induction n as [ | n IH]; intros a acc Ha Hb Hacc Hnm.
  - apply limbs_0 in Ha as ->, Hacc as ->. simpl. by rewrite Z.mod_1_r.
  - step_limb a Ha p a' Hp. simpl mul_loop.
    destruct (mul_row_spec (S n) m p 0 acc b) as [Hl Hv]; try done; try lia.
    destruct (limbs_pow n) as [HP HE]. rewrite HE in *.
    destruct (mul_row p 0 acc b) as [ | x acc']; [by destruct Hl | ].
    apply limbs_cons in Hl as [Hx Hl]. simpl val in Hv.
    destruct (IH a' acc') as [Hl' Hv']; try done; [lia | ].
    rewrite limbs_cons. split; [by split | ]. simpl val. rewrite Hv'.
    pose proof (limb_mod (x + 2 ^ 32 * val acc') (val a' * val b) (2 ^ (32 * Z.of_nat n))) as E.
    pose proof (val_range _ _ Hl).
    rewrite land_ones32, Z.shiftr_div_pow2 in E by lia.
    rewrite (Z.mul_comm _ (val acc')), Z.mod_add, Z.div_add, (Z.div_small x), (Z.mod_small x), Z.add_0_l
      in E by lia.
    rewrite E by lia. rewrite (Z.mul_comm (val acc')), Hv.
    rewrite Zplus_mod_idemp_l. f_equal. lia.
Qed.

Lemma mul_spec a b : wf256 a -> wf256 b ->
  wf256 (mul a b) /\ val (mul a b) = (val a * val b) mod 2 ^ 256.
Proof.
  intros Ha Hb. unfold mul, zero.
  destruct (mul_loop_spec 8 8 a b (replicate 8 0)) as [? ->]; try done; try lia.
  apply (limbs_zero 8).
Qed.

(** *** Shifts, bit by bit *)

Lemma word_bit_high x i : in_u 32 x -> 32 <= i -> Z.testbit x i = false.
Proof. intros Hx Hi. rewrite <- (Z.mod_small x (2 ^ 32)) by done. by apply Z.mod_pow2_bits_high. Qed.

Lemma val_testbit n a i :
  limbs n a -> 0 <= i -> Z.testbit (val a) i = Z.testbit (pn_at a (i / 32)) (i mod 32).
Proof.
  unfold pn_at. revert a i. induction n as [ | n IH]; intros a i Ha Hi.
  - apply limbs_0 in Ha as ->. simpl. rewrite Z.bits_0. destruct (Z.to_nat _); by rewrite Z.bits_0.
  - step_limb a Ha x a' Hx. simpl val.
    rewrite Z.mul_comm, <- lor_shiftl_add, Z.lor_spec by (done || lia).
    destruct (Z.ltb_spec i 32).
    + rewrite Z.shiftl_spec_low, orb_false_r by lia.
      by rewrite Z.div_small, Z.mod_small by lia.
    + rewrite word_bit_high, Z.shiftl_spec, IH by (done || lia). simpl orb.
      replace i with (i - 32 + 1 * 32) at 3 4 by lia. rewrite Z.div_add, Z.mod_add by lia.
      replace (Z.to_nat ((i - 32) / 32 + 1)) with (S (Z.to_nat ((i - 32) / 32))); [done | ].
      assert (0 <= (i - 32) / 32) by (apply Z.div_pos; lia). lia.
Qed.

Lemma pn_at_word n a i : limbs n a -> in_u 32 (pn_at a i).
Proof.
  intros [_ Ha]. unfold pn_at. destruct (nth_in_or_default (Z.to_nat i) a 0) as [Hin | ->]; [ | lia].
  apply list_elem_of_In in Hin. by apply (proj1 (Forall_forall _ _) Ha).
Qed.

(** Limb [j] of the result of a shift by [32 k + sh] bits. *)
Definition shl_limb (a : base_uint) (k sh : Z) (j : nat) : Z :=
  let j := Z.of_nat j in
  Z.lor (if (0 <=? j - k - 1) && negb (sh =? 0) then Z.shiftr (pn_at a (j - k - 1)) (32 - sh) else 0)
        (if 0 <=? j - k then u32 (Z.shiftl (pn_at a (j - k)) sh) else 0).

Definition shr_limb (a : base_uint) (k sh : Z) (j : nat) : Z :=
  let j := Z.of_nat j in
  let lo := if j + k <? WIDTH then Z.shiftr (pn_at a (j + k)) sh else 0 in
  if (j + k + 1 <? WIDTH) && negb (sh =? 0)
  then Z.lor lo (u32 (Z.shiftl (pn_at a (j + k + 1)) (32 - sh))) else lo.

(** The two loops scatter words [f i] and [g i] over the limbs; collected by target limb. *)
Ltac scatter_cases k nz :=
  assert (k = 0 \/ k = 1 \/ k = 2 \/ k = 3 \/ k = 4 \/ k = 5 \/ k = 6 \/ k = 7)
    as [-> | [-> | [-> | [-> | [-> | [-> | [-> | ->]]]]]]] by lia;
  destruct nz; vm_compute; reflexivity.

Lemma shl_scatter (f g : Z -> Z) (nz : bool) k : 0 <= k < 8 ->
  foldl (fun pn i =>
    let i := Z.of_nat i in
    let pn := if (i + k + 1 <? WIDTH) && nz then pn_or pn (i + k + 1) (f i) else pn in
    if i + k <? WIDTH then pn_or pn (i + k) (g i) else pn) zero (seq 0 8) =
  map (fun j => let j := Z.of_nat j in
    Z.lor (if (0 <=? j - k - 1) && nz then f (j - k - 1) else 0)
          (if 0 <=? j - k then g (j - k) else 0)) (seq 0 8).
Proof. intros Hk. scatter_cases k nz. Qed.

Lemma shr_scatter (f g : Z -> Z) (nz : bool) k : 0 <= k < 8 ->
  foldl (fun pn i =>
    let i := Z.of_nat i in
    let pn := if (0 <=? i - k - 1) && nz then pn_or pn (i - k - 1) (f i) else pn in
    if 0 <=? i - k then pn_or pn (i - k) (g i) else pn) zero (seq 0 8) =
  map (fun j => let j := Z.of_nat j in
    let lo := if j + k <? WIDTH then g (j + k) else 0 in
    if (j + k + 1 <? WIDTH) && nz then Z.lor lo (f (j + k + 1)) else lo) (seq 0 8).
Proof. intros Hk. scatter_cases k nz. Qed.

(** A shift by the full width or more leaves no limb. *)
Lemma foldl_id {A B} (f : A -> B -> A) a l : (forall x b, b ∈ l -> f x b = x) -> foldl f a l = a.
Proof.
  revert a. induction l as [ | b l IH]; intros a H; simpl; [done | ].
  rewrite H by (by constructor). apply IH. intros; apply H; by constructor.
Qed.

Lemma seq8_small i : i ∈ seq 0 8 -> 0 <= Z.of_nat i < 8.
Proof. rewrite elem_of_seq. lia. Qed.

Lemma map_zero (f : nat -> Z) : (forall i, i ∈ seq 0 8 -> f i = 0) -> map f (seq 0 8) = zero.
Proof. intros H. simpl map. rewrite !H by (apply elem_of_seq; lia). done. Qed.

Lemma shl_limbs a k sh :
  0 <= k -> foldl (shl_step a k sh) zero (seq 0 8) = map (shl_limb a k sh) (seq 0 8).
Proof.
  intros Hk. destruct (Z.ltb_spec k 8) as [H8 | H8].
  - apply (shl_scatter (fun i => Z.shiftr (pn_at a i) (32 - sh))
                       (fun i => u32 (Z.shiftl (pn_at a i) sh)) (negb (sh =? 0)) k). lia.
  - rewrite foldl_id, map_zero; [done | .. ].
    + intros i Hi%seq8_small. unfold shl_limb.
      destruct (Z.leb_spec 0 (Z.of_nat i - k - 1)), (Z.leb_spec 0 (Z.of_nat i - k)); lia || done.
    + intros pn i Hi%seq8_small. unfold shl_step, WIDTH.
      destruct (Z.ltb_spec (Z.of_nat i + k + 1) 8), (Z.ltb_spec (Z.of_nat i + k) 8); lia || done.
Qed.

Lemma shr_limbs a k sh :
  0 <= k -> foldl (shr_step a k sh) zero (seq 0 8) = map (shr_limb a k sh) (seq 0 8).
Proof.
  intros Hk. destruct (Z.ltb_spec k 8) as [H8 | H8].
  - apply (shr_scatter (fun i => u32 (Z.shiftl (pn_at a i) (32 - sh)))
                       (fun i => Z.shiftr (pn_at a i) sh) (negb (sh =? 0)) k). lia.
  - rewrite foldl_id, map_zero; [done | .. ].
    + intros i Hi%seq8_small. unfold shr_limb, WIDTH.
      destruct (Z.ltb_spec (Z.of_nat i + k + 1) 8), (Z.ltb_spec (Z.of_nat i + k) 8); lia || done.
    + intros pn i Hi%seq8_small. unfold shr_step.
      destruct (Z.leb_spec 0 (Z.of_nat i - k - 1)), (Z.leb_spec 0 (Z.of_nat i - k)); lia || done.
Qed.

Lemma u32_bit x i : 0 <= i < 32 -> Z.testbit (u32 x) i = Z.testbit x i.
Proof. intros. unfold u32. apply Z.mod_pow2_bits_low. lia. Qed.

Lemma lor_word a b : in_u 32 a -> in_u 32 b -> in_u 32 (Z.lor a b).
Proof.
  intros Ha Hb. assert (0 <= Z.lor a b) by (apply Z.lor_nonneg; lia). split; [done | ].
  apply Z.log2_lt_cancel. rewrite Z.log2_lor by lia.
  destruct (decide (a = 0)) as [-> | ?], (decide (b = 0)) as [-> | ?]; try (simpl; lia).
  all: try pose proof (proj1 (Z.log2_lt_pow2 a 32 ltac:(lia)) ltac:(lia)).
  all: try pose proof (proj1 (Z.log2_lt_pow2 b 32 ltac:(lia)) ltac:(lia)).
  all: change (Z.log2 (2 ^ 32)) with 32; change (Z.log2 0) with 0; lia.
Qed.

Lemma shiftr_word a k : in_u 32 a -> 0 <= k -> in_u 32 (Z.shiftr a k).
Proof.
  intros Ha Hk. rewrite Z.shiftr_div_pow2 by done. assert (0 < 2 ^ k) by (apply Z.pow_pos_nonneg; lia).
  split; [apply Z.div_pos; lia | ]. apply Z.div_lt_upper_bound; nia.
Qed.

Lemma limbs_map8 f : (forall i, in_u 32 (f i)) -> wf256 (map f (seq 0 8)).
Proof. intros H. split; [done | ]. by repeat (constructor; [apply H | ]). Qed.

Lemma pn_at_map8 f i : 0 <= i < 8 -> pn_at (map f (seq 0 8)) i = f (Z.to_nat i).
Proof.
  intros Hi. unfold pn_at. rewrite (nth_indep _ 0 (f 0%nat)) by (simpl; lia).
  rewrite map_nth, seq_nth by lia. done.
Qed.

(** Bit [r] of limb [q] is bit [32 q + r] of the value. *)
Lemma val_bit a q r : wf256 a -> 0 <= q -> 0 <= r < 32 ->
  Z.testbit (val a) (32 * q + r) = Z.testbit (pn_at a q) r.
Proof.
  intros Ha Hq Hr. rewrite (val_testbit 8) by (done || lia).
  rewrite (Z.mul_comm 32), Z.div_add_l, (Z.div_small r), Z.add_0_r by lia.
  by rewrite Z.add_comm, Z.mod_add, Z.mod_small by lia.
Qed.

(** Two 256-bit values agree when they agree on every bit of every limb. *)
Lemma val_bits_ext a z : wf256 a -> 0 <= z < 2 ^ 256 ->
  (forall q r, 0 <= q < 8 -> 0 <= r < 32 -> Z.testbit (pn_at a q) r = Z.testbit z (32 * q + r)) ->
  val a = z.
Proof.
  intros Ha Hz H. apply Z.bits_inj'. intros i Hi. destruct (Z.ltb_spec i 256).
  - pose proof (Z.div_mod i 32). pose proof (Z.mod_pos_bound i 32).
    rewrite (val_testbit 8) by done. rewrite H by lia. f_equal. lia.
  - rewrite <- (Z.mod_small _ _ (val_range256 _ Ha)), <- (Z.mod_small _ _ Hz).
    by rewrite !Z.mod_pow2_bits_high by lia.
Qed.

Lemma shl_limb_word a k sh j : wf256 a -> 0 <= sh < 32 -> in_u 32 (shl_limb a k sh j).
Proof.
  intros Ha Hs. unfold shl_limb. apply lor_word.
  - destruct (_ && _); [ | lia]. apply shiftr_word; [by apply (pn_at_word 8) | lia].
  - destruct (_ <=? _); [apply u32_range | lia].
Qed.

Lemma shl_limb_bit a k sh q r : wf256 a -> 0 <= sh < 32 -> 0 <= k -> 0 <= q -> 0 <= r < 32 ->
  Z.testbit (shl_limb a k sh (Z.to_nat q)) r = Z.testbit (val a) (32 * q + r - (32 * k + sh)).
Proof.
  intros Ha Hsh Hk Hq Hr. unfold shl_limb. rewrite Z2Nat.id, Z.lor_spec by lia.
  destruct (Z.ltb_spec r sh) as [Hlt | Hge].
  - replace (Z.testbit (if 0 <=? q - k then _ else 0) r) with false.
    2: { destruct (_ <=? _); [ | by rewrite Z.bits_0]. rewrite u32_bit by lia.
         by rewrite Z.shiftl_spec_low by lia. }
    rewrite orb_false_r. destruct (Z.eqb_spec sh 0); [lia | ]. rewrite andb_true_r.
    destruct (Z.leb_spec 0 (q - k - 1)).
    + rewrite Z.shiftr_spec, <- val_bit by (done || lia). f_equal. lia.
    + rewrite Z.bits_0. symmetry. apply Z.testbit_neg_r. lia.
  - replace (Z.testbit (if (0 <=? q - k - 1) && _ then _ else 0) r) with false.
    2: { destruct (_ && _); [ | by rewrite Z.bits_0]. rewrite Z.shiftr_spec by lia.
         rewrite word_bit_high; [done | by apply (pn_at_word 8) | lia]. }
    rewrite orb_false_l. destruct (Z.leb_spec 0 (q - k)).
    + rewrite u32_bit, Z.shiftl_spec, <- val_bit by (done || lia). f_equal. lia.
    + rewrite Z.bits_0. symmetry. apply Z.testbit_neg_r. lia.
Qed.

Lemma shl_spec a s : wf256 a -> 0 <= s ->
  wf256 (shl a s) /\ val (shl a s) = (val a * 2 ^ s) mod 2 ^ 256.
Proof.
  intros Ha Hs. unfold shl.
  pose proof (Z.div_mod s 32). pose proof (Z.mod_pos_bound s 32).
  assert (0 <= s / 32) by (apply Z.div_pos; lia). rewrite shl_limbs by done.
  assert (Hw : wf256 (map (shl_limb a (s / 32) (s mod 32)) (seq 0 8))).
  { apply limbs_map8. intros. apply shl_limb_word; [done | lia]. }
  split; [done | ]. apply val_bits_ext; [done | apply Z.mod_pos_bound; lia | ].
  intros q r Hq Hr. rewrite Z.mod_pow2_bits_low, Z.mul_pow2_bits by lia.
  rewrite pn_at_map8, shl_limb_bit by (done || lia). f_equal. lia.
Qed.

Lemma shr_lo_word a k sh j : wf256 a -> 0 <= sh ->
  in_u 32 (if j + k <? WIDTH then Z.shiftr (pn_at a (j + k)) sh else 0).
Proof.
  intros Ha Hs. destruct (_ <? _); [apply shiftr_word; [by apply (pn_at_word 8) | lia] | lia].
Qed.

Lemma shr_limb_word a k sh j : wf256 a -> 0 <= sh < 32 -> in_u 32 (shr_limb a k sh j).
Proof.
  intros Ha Hs. unfold shr_limb. pose proof (shr_lo_word a k sh (Z.of_nat j) Ha ltac:(lia)).
  destruct (_ && _); [apply lor_word; [done | apply u32_range] | done].
Qed.

Lemma val_bit_above a i : wf256 a -> 256 <= i -> Z.testbit (val a) i = false.
Proof.
  intros Ha Hi. rewrite <- (Z.mod_small _ _ (val_range256 _ Ha)). by apply Z.mod_pow2_bits_high.
Qed.

Lemma shr_limb_bit a k sh q r : wf256 a -> 0 <= sh < 32 -> 0 <= k -> 0 <= q -> 0 <= r < 32 ->
  Z.testbit (shr_limb a k sh (Z.to_nat q)) r = Z.testbit (val a) (32 * q + r + (32 * k + sh)).
Proof.
  intros Ha Hsh Hk Hq Hr. unfold shr_limb, WIDTH. rewrite Z2Nat.id by lia.
  set (lo := if q + k <? 8 then _ else 0).
  assert (Hlo : Z.testbit lo r =
    if r + sh <? 32 then Z.testbit (val a) (32 * q + r + (32 * k + sh)) else false).
  { unfold lo. destruct (Z.ltb_spec (q + k) 8), (Z.ltb_spec (r + sh) 32); rewrite ?Z.bits_0; try done.
    - rewrite Z.shiftr_spec, <- val_bit by (done || lia). f_equal. lia.
    - rewrite Z.shiftr_spec by lia. apply word_bit_high; [by apply (pn_at_word 8) | lia].
    - symmetry. apply val_bit_above; [done | lia]. }
  destruct (Z.ltb_spec (q + k + 1) 8), (Z.eqb_spec sh 0); simpl andb; cbv iota.
  1, 3, 4: rewrite Hlo; destruct (Z.ltb_spec (r + sh) 32); try done; try lia.
  1: symmetry; apply val_bit_above; [done | lia].
  rewrite Z.lor_spec, Hlo, u32_bit by lia. destruct (Z.ltb_spec (r + sh) 32).
  - rewrite Z.shiftl_spec_low by lia. apply orb_false_r.
  - rewrite orb_false_l, Z.shiftl_spec, <- val_bit by (done || lia). f_equal. lia.
Qed.

Lemma shr_spec a s : wf256 a -> 0 <= s ->
  wf256 (shr a s) /\ val (shr a s) = val a / 2 ^ s.
Proof.
  intros Ha Hs. unfold shr.
  pose proof (Z.div_mod s 32). pose proof (Z.mod_pos_bound s 32).
  assert (0 <= s / 32) by (apply Z.div_pos; lia). rewrite shr_limbs by done.
  assert (Hw : wf256 (map (shr_limb a (s / 32) (s mod 32)) (seq 0 8))).
  { apply limbs_map8. intros. apply shr_limb_word; [done | lia]. }
  assert (0 < 2 ^ s) by (apply Z.pow_pos_nonneg; lia). pose proof (val_range256 _ Ha).
  split; [done | ]. apply val_bits_ext; [done | | ].
  - split; [apply Z.div_pos; lia | apply Z.div_lt_upper_bound; nia].
  - intros q r Hq Hr. rewrite <- Z.shiftr_div_pow2, Z.shiftr_spec by lia.
    rewrite pn_at_map8, shr_limb_bit by (done || lia). f_equal. lia.
Qed.

(** *** Comparison and bit length *)

Lemma val_snoc a x : val (a ++ [x]) = val a + 2 ^ (32 * vsize a) * x.
Proof.
  unfold vsize. induction a as [ | y a IH]; simpl val; simpl length.
  - change (2 ^ (32 * Z.of_nat 0)) with 1. lia.
  - rewrite IH. destruct (limbs_pow (length a)) as [_ ->]. lia.
Qed.

Definition words : base_uint -> Prop := Forall (fun x => in_u 32 x).

Lemma val_rev_bound ra : words ra -> 0 <= val (rev ra) < 2 ^ (32 * vsize ra).
Proof.
  intros H. unfold vsize. apply val_range. split; [apply length_rev | ]. by apply Forall_rev.
Qed.

Lemma val_rev_cons x ra : val (rev (x :: ra)) = val (rev ra) + 2 ^ (32 * vsize ra) * x.
Proof. simpl rev. rewrite val_snoc. unfold vsize. by rewrite length_rev. Qed.

Definition sign_of (c : comparison) : Z := match c with Lt => -1 | Eq => 0 | Gt => 1 end.

Lemma compare_rev_spec ra rb :
  words ra -> words rb -> length ra = length rb ->
  compare_rev ra rb = sign_of (val (rev ra) ?= val (rev rb)).
Proof.
  intros Ha. revert rb. induction Ha as [ | x ra Hx Ha IH]; intros [ | y rb] Hb Hl; try done.
  inversion Hb as [ | ? ? Hy Hb']; subst. simpl in Hl. injection Hl as Hl.
  rewrite !val_rev_cons. pose proof (val_rev_bound ra Ha). pose proof (val_rev_bound rb Hb').
  unfold vsize in *. rewrite <- Hl in *. simpl compare_rev.
  destruct (limbs_pow (length ra)) as [HP _].
  destruct (Z.ltb_spec x y); [ | destruct (Z.ltb_spec y x)].
  - rewrite (proj2 (Z.compare_lt_iff _ _)); [done | nia].
  - rewrite (proj2 (Z.compare_gt_iff _ _)); [done | nia].
  - assert (x = y) as -> by lia. rewrite IH by done. f_equal.
    rewrite !(Z.add_comm _ (_ * y)). symmetry. apply Z.add_compare_mono_l.
Qed.

Lemma CompareTo_spec n a b : limbs n a -> limbs n b -> CompareTo a b = sign_of (val a ?= val b).
Proof.
  intros [La Ha] [Lb Hb]. unfold CompareTo. rewrite compare_rev_spec, !rev_involutive; try done.
  - by apply Forall_rev.
  - by apply Forall_rev.
  - rewrite !length_rev. congruence.
Qed.

Lemma ltb_spec n a b : limbs n a -> limbs n b -> ltb a b = (val a <? val b).
Proof.
  intros Ha Hb. unfold ltb. rewrite (CompareTo_spec n) by done. unfold Z.ltb.
  by destruct (val a ?= val b).
Qed.

Lemma leb_spec n a b : limbs n a -> limbs n b -> leb a b = (val a <=? val b).
Proof.
  intros Ha Hb. unfold leb. rewrite (CompareTo_spec n) by done. unfold Z.leb.
  by destruct (val a ?= val b).
Qed.

Lemma eqb_spec n a b : limbs n a -> limbs n b -> eqb a b = (val a =? val b).
Proof.
  intros Ha Hb. unfold eqb. destruct (Z.eqb_spec (val a) (val b)) as [E | E].
  - apply bool_decide_true. by apply (val_inj n).
  - apply bool_decide_false. congruence.
Qed.

Lemma land_pow2 x m : 0 <= m -> (Z.land x (Z.shiftl 1 m) =? 0) = negb (Z.testbit x m).
Proof.
  intros Hm. rewrite Z.shiftl_1_l. destruct (Z.testbit x m) eqn:E; simpl.
  - apply Z.eqb_neq. intros H. apply (f_equal (fun z => Z.testbit z m)) in H.
    by rewrite Z.land_spec, E, Z.pow2_bits_true, Z.bits_0 in H by lia.
  - apply Z.eqb_eq. apply Z.bits_inj'. intros i Hi. rewrite Z.land_spec, Z.pow2_bits_eqb, Z.bits_0 by lia.
    destruct (Z.eqb_spec m i) as [<- | ?]; [by rewrite E | apply andb_false_r].
Qed.

Lemma top_bit_spec x m : 0 < x < 2 ^ (Z.of_nat m + 1) -> top_bit x m = Z.log2 x.
Proof.
  induction m as [ | m IH]; intros Hx.
  - simpl. assert (x = 1) as -> by (change (2 ^ (Z.of_nat 0 + 1)) with 2 in Hx; lia). done.
  - simpl top_bit. rewrite land_pow2 by lia. rewrite negb_involutive.
    destruct (Z.testbit x (Z.of_nat (S m))) eqn:E.
    + symmetry. apply Z.log2_unique; [lia | ].
      replace (Z.succ (Z.of_nat (S m))) with (Z.of_nat (S m) + 1) by lia. split; [ | lia].
      destruct (Z.le_gt_cases (2 ^ Z.of_nat (S m)) x) as [? | Hlt]; [done | exfalso].
      rewrite <- (Z.mod_small x (2 ^ Z.of_nat (S m))), Z.mod_pow2_bits_high in E by lia. done.
    + apply IH. replace (Z.of_nat m + 1) with (Z.of_nat (S m)) by lia.
      split; [lia | ]. destruct (Z.le_gt_cases (2 ^ Z.of_nat (S m)) x) as [Hge | ?]; [exfalso | done].
      assert (Z.log2 x = Z.of_nat (S m)) as El.
      { apply Z.log2_unique; [lia | ].
        replace (Z.succ (Z.of_nat (S m))) with (Z.of_nat (S m) + 1) by lia. lia. }
      rewrite <- El, Z.bit_log2 in E by lia. done.
Qed.

Lemma bits_rev_spec ra : words ra ->
  bits_rev ra = if val (rev ra) =? 0 then 0 else Z.log2 (val (rev ra)) + 1.
Proof.
  induction 1 as [ | x ra Hx Ha IH]; [done | ].
  rewrite val_rev_cons. cbn [bits_rev]. pose proof (val_rev_bound ra Ha).
  destruct (Z.eqb_spec x 0) as [-> | Hx0]; simpl negb; cbv iota.
  - by rewrite IH, Z.mul_0_r, Z.add_0_r.
  - rewrite top_bit_spec by (change (Z.of_nat 31 + 1) with 32; lia).
    pose proof (Z.log2_spec x ltac:(lia)) as Hlog. pose proof (Z.log2_nonneg x).
    pose proof (vsize_nonneg ra). destruct (Z.eqb_spec (val (rev ra) + 2 ^ (32 * vsize ra) * x) 0); [nia | ].
    f_equal. symmetry. apply Z.log2_unique; [lia | ].
    rewrite <- Z.add_succ_r, !Z.pow_add_r by lia. nia.
Qed.

Lemma bits_spec n a : limbs n a -> bits a = if val a =? 0 then 0 else Z.log2 (val a) + 1.
Proof.
  intros [_ Ha]. unfold bits. rewrite bits_rev_spec by (by apply Forall_rev).
  by rewrite rev_involutive.
Qed.

Lemma bits_bounds a : wf256 a -> 0 < val a ->
  0 < bits a <= 256 /\ 2 ^ (bits a - 1) <= val a < 2 ^ bits a.
Proof.
  intros Ha Hv. rewrite (bits_spec 8) by done. destruct (Z.eqb_spec (val a) 0); [lia | ].
  pose proof (Z.log2_spec (val a) Hv). pose proof (Z.log2_nonneg (val a)).
  assert (Z.log2 (val a) < 256) by (apply Z.log2_lt_pow2; [done | by apply val_range256]).
  replace (Z.log2 (val a) + 1 - 1) with (Z.log2 (val a)) by lia. rewrite Z.add_1_r. lia.
Qed.

(** *** Division *)

Lemma pn_at_insert q j i y : wf256 q -> 0 <= j < 8 -> 0 <= i < 8 ->
  pn_at (<[Z.to_nat j := y]> q) i = if i =? j then y else pn_at q i.
Proof.
  intros [Hl _] Hj Hi. unfold pn_at. rewrite !nth_lookup.
  destruct (Z.eqb_spec i j) as [-> | ?].
  - rewrite list_lookup_insert_eq; [done | lia].
  - rewrite list_lookup_insert_ne; [done | lia].
Qed.

Lemma pn_or_spec q j x : wf256 q -> 0 <= j < 8 -> in_u 32 x ->
  wf256 (pn_or q j x) /\ val (pn_or q j x) = Z.lor (val q) (x * 2 ^ (32 * j)).
Proof.
  intros Hq Hj Hx. pose proof (pn_at_word 8 q j Hq) as Hw. pose proof (lor_word _ _ Hw Hx).
  assert (Hwf : wf256 (pn_or q j x)).
  { destruct Hq as [Hl Hf]. split; [unfold pn_or; by rewrite length_insert | ].
    by apply Forall_insert. }
  split; [done | ]. apply Z.bits_inj'. intros i Hi.
  rewrite Z.lor_spec, Z.mul_pow2_bits, !(val_testbit 8) by (done || lia).
  pose proof (Z.div_mod i 32). pose proof (Z.mod_pos_bound i 32).
  destruct (Z.ltb_spec (i / 32) 8) as [H8 | H8].
  - unfold pn_or at 1. rewrite pn_at_insert by (done || lia).
    destruct (Z.eqb_spec (i / 32) j) as [Ej | Hne].
    + rewrite Z.lor_spec, <- Ej. do 2 f_equal. lia.
    + destruct (Z.ltb_spec i (32 * j)).
      * by rewrite (Z.testbit_neg_r x), orb_false_r by lia.
      * rewrite (word_bit_high x), orb_false_r by lia. done.
  - assert (Hnil : forall a, wf256 a -> pn_at a (i / 32) = 0).
    { intros a [La _]. unfold pn_at. apply nth_overflow. lia. }
    rewrite !Hnil, !Z.bits_0 by done. rewrite (word_bit_high x) by lia. done.
Qed.

(** [pn[shift / 32] |= 1 << (shift & 31)] on a quotient whose low [shift + 1] bits are clear. *)
Lemma set_quotient_bit q m : wf256 q -> 0 <= m < 256 -> (2 ^ (m + 1) | val q) ->
  let q' := pn_or q (m / 32) (u32 (Z.shiftl 1 (Z.land m 31))) in
  wf256 q' /\ val q' = val q + 2 ^ m.
Proof.
  intros Hq Hm [c Hc]. assert (Z.land m 31 = m mod 32) as -> by (apply (Z.land_ones m 5); lia).
  pose proof (Z.div_mod m 32). pose proof (Z.mod_pos_bound m 32).
  assert (2 ^ (m mod 32) < 2 ^ 32) by (apply Z.pow_lt_mono_r; lia).
  assert (0 < 2 ^ (m mod 32)) by (apply Z.pow_pos_nonneg; lia).
  rewrite Z.shiftl_1_l, u32_id by lia.
  destruct (pn_or_spec q (m / 32) (2 ^ (m mod 32))) as [Hw Hv]; try done; try lia.
  cbv zeta. split; [done | ]. rewrite Hv, <- Z.pow_add_r by lia.
  replace (m mod 32 + 32 * (m / 32)) with m by lia.
  rewrite Hc, Z.pow_add_r, (Z.mul_comm (2 ^ m)), Z.mul_assoc by lia.
  rewrite Z.lor_comm. replace (c * 2 ^ 1 * 2 ^ m) with (Z.shiftl (2 * c) m)
    by (rewrite Z.shiftl_mul_pow2; lia).
  replace (2 ^ m) with (Z.shiftl 1 m) by apply Z.shiftl_1_l.
  rewrite <- Z.shiftl_lor. rewrite !Z.shiftl_mul_pow2 by lia.
  assert (Z.lor 1 (2 * c) = 1 + c * 2 ^ 1) as ->.
  { rewrite <- lor_shiftl_add by lia. rewrite Z.shiftl_mul_pow2 by lia. f_equal. lia. }
  lia.
Qed.

Lemma div_loop_spec n B num div q :
  wf256 num -> wf256 div -> wf256 q -> 0 < B -> (n <= 256)%nat ->
  (n = 0%nat \/ val div = B * 2 ^ (Z.of_nat n - 1)) ->
  val num < B * 2 ^ Z.of_nat n -> (2 ^ Z.of_nat n | val q) ->
  let '(q', num') := div_loop n num div q in
  wf256 q' /\ wf256 num' /\ val q' = val q + val num / B /\ val num' = val num mod B.
Proof.
  revert num div q. induction n as [ | n IH]; intros num div q Hnum Hdiv Hq HB Hn Hd Hlt Hmul.
  - simpl. change (2 ^ Z.of_nat 0) with 1 in Hlt. pose proof (val_range256 _ Hnum).
    rewrite Z.div_small, Z.mod_small by lia. split_and!; done || lia.
  - destruct Hd as [? | Hd]; [done | ].
    replace (Z.of_nat (S n) - 1) with (Z.of_nat n) in Hd by lia.
    assert (E2 : 2 ^ Z.of_nat (S n) = 2 * 2 ^ Z.of_nat n)
      by (rewrite <- Z.pow_succ_r by lia; f_equal; lia).
    assert (0 < 2 ^ Z.of_nat n) by (apply Z.pow_pos_nonneg; lia).
    destruct (shr_spec div 1 Hdiv) as [Hdiv' Hv']; [lia | ].
    assert (Hd' : n = 0%nat \/ val (shr div 1) = B * 2 ^ (Z.of_nat n - 1)).
    { destruct n as [ | n']; [by left | right]. rewrite Hv', Hd.
      replace (Z.of_nat (S n')) with (Z.of_nat (S n') - 1 + 1) at 1 by lia.
      rewrite Z.pow_add_r, Z.mul_assoc by lia. by rewrite Z.div_mul. }
    assert (Hmul' : (2 ^ Z.of_nat n | val q)).
    { apply (Z.divide_trans _ (2 ^ Z.of_nat (S n))); [ | done]. rewrite E2. apply Z.divide_factor_r. }
    cbn [div_loop]. rewrite (leb_spec 8) by done.
    destruct (Z.leb_spec (val div) (val num)) as [Hle | Hgt].
    + destruct (set_quotient_bit q (Z.of_nat n)) as [Hq' Eq']; [done | lia | | ].
      { by replace (Z.of_nat n + 1) with (Z.of_nat (S n)) by lia. }
      destruct (sub_spec_n 8 num div Hnum Hdiv) as [Hs Es].
      change (32 * Z.of_nat 8) with 256 in Es.
      pose proof (val_range256 _ Hnum). pose proof (val_range256 _ Hdiv). rewrite Z.mod_small in Es by lia.
      cbv zeta in Hq', Eq'.
      specialize (IH (sub num div) (shr div 1) _ Hs Hdiv' Hq' HB ltac:(lia) Hd' ltac:(lia)).
      destruct (div_loop n (sub num div) _ _) as [q' num']. destruct IH as (? & ? & Hqv & Hnv).
      { rewrite Eq'. apply Z.divide_add_r; [done | apply Z.divide_refl]. }
      rewrite Eq', Es, Hd in *. split_and!; try done.
      * rewrite Hqv. replace (val num - B * 2 ^ Z.of_nat n) with (val num + (- 2 ^ Z.of_nat n) * B) by lia.
        rewrite Z.div_add by lia. lia.
      * rewrite Hnv. replace (val num - B * 2 ^ Z.of_nat n) with (val num + (- 2 ^ Z.of_nat n) * B) by lia.
        by rewrite Z.mod_add by lia.
    + by apply IH; try done; lia.
Qed.

Lemma wf_zero : wf256 zero.
Proof. apply (limbs_zero 8). Qed.

Lemma udiv_spec a b : wf256 a -> wf256 b ->
  match udiv a b with
  | Ok q => val b <> 0 /\ wf256 q /\ val q = val a / val b
  | Err DivisionByZero => val b = 0
  end.
Proof.
  intros Ha Hb. unfold udiv. pose proof (val_range256 _ Ha). pose proof (val_range256 _ Hb).
  cbv zeta. pose proof (bits_spec 8 b Hb) as Eb. pose proof (Z.log2_nonneg (val b)).
  destruct (Z.eqb_spec (bits b) 0) as [E | Hb0]; destruct (Z.eqb_spec (val b) 0); try lia.
  destruct (bits_bounds b Hb ltac:(lia)) as [Hbb Hbv].
  destruct (Z.ltb_spec (bits a) (bits b)) as [Hlt | Hge].
  { split; [done | ]. split; [apply wf_zero | ]. unfold zero. rewrite (val_zero 8).
    symmetry. apply Z.div_small. split; [lia | ]. destruct (decide (val a = 0)); [lia | ].
    destruct (bits_bounds a Ha ltac:(lia)) as [_ Hav].
    assert (2 ^ bits a <= 2 ^ (bits b - 1)) by (apply Z.pow_le_mono_r; lia). lia. }
  assert (Ha0 : val a <> 0).
  { intros E. rewrite (bits_spec 8 a), E in Hge by done. simpl in Hge. lia. }
  destruct (bits_bounds a Ha ltac:(lia)) as [Hba Hav].
  set (sh := bits a - bits b) in *.
  assert (Hpow : val b * 2 ^ sh < 2 ^ 256).
  { assert (2 ^ (bits b + sh) <= 2 ^ 256) by (apply Z.pow_le_mono_r; lia).
    rewrite Z.pow_add_r in * by lia. assert (0 < 2 ^ sh) by (apply Z.pow_pos_nonneg; lia). nia. }
  destruct (shl_spec b sh Hb) as [Hs Es]; [lia | ].
  assert (0 < 2 ^ sh) by (apply Z.pow_pos_nonneg; lia). rewrite Z.mod_small in Es by nia.
  pose proof (div_loop_spec (Z.to_nat (sh + 1)) (val b) a (shl b sh) zero) as Hd.
  destruct (div_loop _ _ _ _) as [q r]. rewrite Z2Nat.id in Hd by lia.
  destruct Hd as (Hq & _ & Eq & _); try done; try lia.
  - apply wf_zero.
  - right. rewrite Es. do 2 f_equal. lia.
  - assert (2 ^ bits a = 2 ^ (bits b - 1) * 2 ^ (sh + 1)) by (rewrite <- Z.pow_add_r by lia; f_equal; lia).
    assert (0 < 2 ^ (sh + 1)) by (apply Z.pow_pos_nonneg; lia). nia.
  - apply Z.divide_0_r.
Qed.

(** *** Words into and out of the low limbs *)

Lemma of_u64_spec b : 0 <= b < 2 ^ 64 -> wf256 (of_u64 b) /\ val (of_u64 b) = b.
Proof.
  intros Hb. unfold of_u64. pose proof (u32_range b). pose proof (u32_range (Z.shiftr b 32)).
  split.
  - split; [done | ]. repeat (constructor; [lia | ]). constructor.
  - cbn [val replicate]. pose proof (word_split b). rewrite land_ones32 in *.
    rewrite (u32_id (Z.shiftr b 32)) by (by apply shiftr32_small). unfold u32. lia.
Qed.

Lemma GetLow64_spec a : wf256 a -> GetLow64 a = val a mod 2 ^ 64.
Proof.
  intros Ha. destruct a as [ | x a]; [by destruct Ha | ]. apply limbs_cons in Ha as [Hx Ha].
  destruct a as [ | y a]; [by destruct Ha | ]. apply limbs_cons in Ha as [Hy Ha].
  pose proof (val_range _ _ Ha). unfold GetLow64, pn_at. simpl nth. rewrite lor_shiftl_add by lia.
  simpl val. symmetry.
  replace (x + 2 ^ 32 * (y + 2 ^ 32 * val a)) with (x + y * 2 ^ 32 + val a * 2 ^ 64) by lia.
  rewrite Z.mod_add by lia. apply Z.mod_small. lia.
Qed.

Lemma nonzero_limb a : words a -> existsb (fun x => negb (x =? 0)) a = negb (val a =? 0).
Proof.
  induction 1 as [ | x a Hx Ha IH]; [done | ]. simpl. rewrite IH.
  assert (0 <= val a) by (apply (val_range (length a)); by split).
  destruct (Z.eqb_spec x 0), (Z.eqb_spec (val a) 0), (Z.eqb_spec (x + 2 ^ 32 * val a) 0); done || lia.
Qed.

Lemma EqualTo_spec a b : wf256 a -> 0 <= b < 2 ^ 64 -> EqualTo a b = (val a =? b).
Proof.
  intros Ha Hb. destruct a as [ | x a]; [by destruct Ha | ]. apply limbs_cons in Ha as [Hx Ha].
  destruct a as [ | y a]; [by destruct Ha | ]. apply limbs_cons in Ha as [Hy Ha].
  unfold EqualTo, pn_at. simpl drop. simpl nth.
  pose proof (word_split b ltac:(lia)). pose proof (land_word b). pose proof (shiftr32_small b Hb).
  pose proof (val_range _ _ Ha) as Hr. simpl val.
  rewrite drop_0, nonzero_limb by apply Ha. destruct (Z.eqb_spec (val a) 0) as [-> | Hne]; simpl negb; cbv iota.
  2: { symmetry. apply Z.eqb_neq. lia. }
  destruct (Z.eqb_spec y (Z.shiftr b 32)), (Z.eqb_spec x (Z.land b 0xffffffff));
    destruct (Z.eqb_spec (x + 2 ^ 32 * (y + 2 ^ 32 * 0)) b); simpl; done || lia.
Qed.

(** *** The compact format *)

(** The number a compact word announces, as a natural number of any size: the mantissa scaled
    by the exponent, the documented [mantissa * 256^(exponent-3)]. *)
Definition compact_value (nCompact : Z) : Z :=
  let size := nCompact / 2 ^ 24 in
  let mantissa := nCompact mod 2 ^ 23 in
  if size <=? 3 then mantissa / 256 ^ (3 - size) else mantissa * 256 ^ (size - 3).

Lemma pow256 k : 0 <= k -> 2 ^ (8 * k) = 256 ^ k.
Proof. intros. by rewrite Z.pow_mul_r by lia. Qed.

Lemma land_high x k m : 0 <= k -> 0 <= x < 2 ^ k -> Z.land x (m * 2 ^ k) = 0.
Proof.
  intros Hk Hx. apply Z.bits_inj'. intros n Hn. rewrite Z.land_spec, Z.bits_0.
  destruct (Z.ltb_spec n k); [by rewrite Z.mul_pow2_bits_low, andb_false_r by lia | ].
  by rewrite <- (Z.mod_small x (2 ^ k)), Z.mod_pow2_bits_high by lia.
Qed.

(** Bit 23 of a mantissa of three bytes. *)
Lemma sign_bit n : 0 <= n < 2 ^ 24 -> Z.testbit n 23 = (2 ^ 23 <=? n).
Proof.
  intros Hn. destruct (Z.leb_spec (2 ^ 23) n).
  - apply Z.testbit_true; [lia | ]. replace (n / 2 ^ 23) with 1; [done | ].
    apply Z.div_unique with (n - 2 ^ 23); lia.
  - rewrite <- (Z.mod_small n (2 ^ 23)) by lia. by apply Z.mod_pow2_bits_high.
Qed.

Lemma pow_scale_over w e : 0 <= w < 2 ^ 23 -> 0 <= e ->
  (2 ^ 256 <=? w * 256 ^ e) =
  negb (w =? 0) && ((31 <? e) || ((0xff <? w) && (30 <? e)) || ((0xffff <? w) && (29 <? e))).
Proof.
  intros Hw He. assert (0 < 256 ^ e) by (apply Z.pow_pos_nonneg; lia).
  destruct (Z.leb_spec (2 ^ 256) (w * 256 ^ e)) as [Hle | Hgt];
    destruct (Z.eqb_spec w 0), (Z.ltb_spec 31 e), (Z.ltb_spec 30 e), (Z.ltb_spec 29 e),
      (Z.ltb_spec 0xff w), (Z.ltb_spec 0xffff w); simpl; try lia; exfalso.
  all: first [ assert (256 ^ e <= 256 ^ 29) by (apply Z.pow_le_mono_r; lia);
               change (256 ^ 29) with (2 ^ 232) in *; nia
             | assert (256 ^ 32 <= 256 ^ e) by (apply Z.pow_le_mono_r; lia);
               change (256 ^ 32) with (2 ^ 256) in *; nia
             | assert (e = 30) as -> by lia; change (256 ^ 30) with (2 ^ 240) in *; nia
             | assert (e = 31) as -> by lia; change (256 ^ 31) with (2 ^ 248) in *; nia].
Qed.

Lemma SetCompact_aux c : in_u 32 c ->
  let '(this, fNegative, fOverflow) := SetCompact c in
  wf256 this /\ val this = compact_value c mod 2 ^ 256 /\
  fNegative = negb (compact_value c =? 0) && Z.testbit c 23 /\
  fOverflow = (2 ^ 256 <=? compact_value c).
Proof.
  intros Hc. unfold SetCompact, compact_value.
  assert (Z.shiftr c 24 = c / 2 ^ 24) as -> by (apply Z.shiftr_div_pow2; lia).
  assert (Z.land c 0x007fffff = c mod 2 ^ 23) as -> by (apply (Z.land_ones c 23); lia).
  assert ((Z.land c 0x00800000 =? 0) = negb (Z.testbit c 23)) as -> by (apply (land_pow2 c 23); lia).
  rewrite negb_involutive. pose proof (Z.mod_pos_bound c (2 ^ 23)).
  assert (0 <= c / 2 ^ 24) by (apply Z.div_pos; lia).
  destruct (Z.leb_spec (c / 2 ^ 24) 3) as [Hs | Hs].
  - rewrite Z.shiftr_div_pow2, pow256 by lia. set (w := c mod 2 ^ 23 / _).
    assert (0 < 256 ^ (3 - c / 2 ^ 24)) by (apply Z.pow_pos_nonneg; lia).
    assert (0 <= w < 2 ^ 23) by (split; [apply Z.div_pos | apply Z.div_lt_upper_bound]; nia).
    destruct (of_u64_spec w) as [Hw Ev]; [lia | ].
    split; [done | ]. split; [rewrite Z.mod_small; lia | ]. split; [done | ].
    destruct (Z.leb_spec (2 ^ 256) w), (Z.ltb_spec 34 (c / 2 ^ 24)), (Z.ltb_spec 33 (c / 2 ^ 24)),
      (Z.ltb_spec 32 (c / 2 ^ 24)); try lia.
  - destruct (of_u64_spec (c mod 2 ^ 23)) as [Hw Ev]; [lia | ].
    destruct (shl_spec (of_u64 (c mod 2 ^ 23)) (8 * (c / 2 ^ 24 - 3))) as [Hw' Ev']; [done | lia | ].
    assert (0 < 256 ^ (c / 2 ^ 24 - 3)) by (apply Z.pow_pos_nonneg; lia).
    rewrite Ev, pow256 in Ev' by lia. split; [done | ]. split; [done | ]. split.
    + f_equal. f_equal. apply eq_bool_prop_intro. rewrite !Is_true_true, !Z.eqb_eq. nia.
    + rewrite pow_scale_over by lia. set (size := c / 2 ^ 24) in *.
      replace (31 <? size - 3) with (34 <? size) by lia.
      replace (30 <? size - 3) with (33 <? size) by lia.
      by replace (29 <? size - 3) with (32 <? size) by lia.
Qed.

(** The byte length [GetCompact] starts from. *)
Lemma byte_size a : wf256 a ->
  let size := (bits a + 7) / 8 in
  0 <= size <= 32 /\ val a < 256 ^ size /\ (0 < size -> 256 ^ (size - 1) <= val a).
Proof.
  intros Ha size. pose proof (val_range256 _ Ha).
  pose proof (Z.div_mod (bits a + 7) 8). pose proof (Z.mod_pos_bound (bits a + 7) 8).
  fold size in H0. destruct (decide (val a = 0)) as [E | Hne].
  - assert (bits a = 0) as Eb by (rewrite (bits_spec 8), E; done).
    assert (size = 0) as -> by (unfold size; by rewrite Eb). rewrite E.
    change (256 ^ 0) with 1. lia.
  - destruct (bits_bounds a Ha ltac:(lia)) as [Hb Hv]. split; [lia | ].
    rewrite <- pow256 by lia. split.
    + assert (2 ^ bits a <= 2 ^ (8 * size)) by (apply Z.pow_le_mono_r; lia). lia.
    + intros Hs. rewrite <- pow256 by lia.
      assert (2 ^ (8 * (size - 1)) <= 2 ^ (bits a - 1)) by (apply Z.pow_le_mono_r; lia). lia.
Qed.

Lemma compact_mantissa a : wf256 a ->
  let size := (bits a + 7) / 8 in
  let n := if size <=? 3 then u32 (u64 (Z.shiftl (GetLow64 a) (8 * (3 - size))))
           else u32 (GetLow64 (shr a (8 * (size - 3)))) in
  0 <= n < 2 ^ 24 /\
  (size <= 3 -> n = val a * 256 ^ (3 - size)) /\
  (3 < size -> n = val a / 256 ^ (size - 3) /\ 2 ^ 16 <= n).
Proof.
  intros Ha size. destruct (byte_size a Ha) as (Hs & Hlt & Hge). fold size in Hs, Hlt, Hge.
  pose proof (val_range256 _ Ha). destruct (Z.leb_spec size 3) as [H3 | H3]; intros n.
  - assert (E : 256 ^ size * 256 ^ (3 - size) = 2 ^ 24)
      by (rewrite <- Z.pow_add_r by lia; by replace (size + (3 - size)) with 3 by lia).
    assert (0 < 256 ^ (3 - size)) by (apply Z.pow_pos_nonneg; lia).
    assert (1 <= 256 ^ (3 - size)) by lia.
    assert (n = val a * 256 ^ (3 - size)) as En; [ | split_and!; nia || lia].
    unfold n. rewrite Z.shiftl_mul_pow2, pow256, GetLow64_spec by (done || lia).
    rewrite (Z.mod_small (val a)) by nia. rewrite u64_id, u32_id by nia. done.
  - destruct (shr_spec a (8 * (size - 3)) Ha ltac:(lia)) as [Hw Ev]. rewrite pow256 in Ev by lia.
    set (P := 256 ^ (size - 3)) in *. assert (0 < P) by (apply Z.pow_pos_nonneg; lia).
    assert (E : 256 ^ size = P * 2 ^ 24)
      by (unfold P; change (2 ^ 24) with (256 ^ 3); rewrite <- Z.pow_add_r by lia; f_equal; lia).
    assert (E' : 256 ^ (size - 1) = P * 2 ^ 16)
      by (unfold P; change (2 ^ 16) with (256 ^ 2); rewrite <- Z.pow_add_r by lia; f_equal; lia).
    assert (val a / P < 2 ^ 24) by (apply Z.div_lt_upper_bound; lia).
    assert (2 ^ 16 <= val a / P) by (apply Z.div_le_lower_bound; lia).
    assert (n = val a / P) as ->; [ | split_and!; lia].
    unfold n. rewrite GetLow64_spec, Ev by done. rewrite (Z.mod_small (val a / P)), u32_id by lia. done.
Qed.

(** Packing a mantissa of 23 bits, a size and the sign bit. *)
Lemma compact_pack m s (sgn : bool) : 0 <= m < 2 ^ 23 -> 0 <= s < 256 ->
  Z.lor (Z.lor m (u32 (Z.shiftl s 24))) (if sgn then 0x00800000 else 0) =
  m + (if sgn then 2 ^ 23 else 0) + s * 2 ^ 24.
Proof.
  intros Hm Hs. rewrite (u32_id (Z.shiftl s 24)) by (rewrite Z.shiftl_mul_pow2; lia).
  destruct sgn; [ | rewrite Z.lor_0_r, lor_shiftl_add; lia].
  rewrite <- Z.lor_assoc, (Z.lor_comm (Z.shiftl s 24)).
  rewrite (lor_shiftl_add 0x00800000 s 24) by lia.
  replace (0x00800000 + s * 2 ^ 24) with (Z.shiftl (1 + 2 * s) 23)
    by (rewrite Z.shiftl_mul_pow2; lia).
  rewrite lor_shiftl_add by lia. lia.
Qed.

Definition compact_word (m s : Z) (fNegative : bool) : Z :=
  m + (if fNegative && negb (m =? 0) then 2 ^ 23 else 0) + s * 2 ^ 24.

Lemma GetCompact_normal a fNegative : wf256 a ->
  exists m s, GetCompact a fNegative = Some (compact_word m s fNegative) /\
    0 <= m < 2 ^ 23 /\ 0 <= s <= 33 /\
    (s <= 3 -> m = val a * 256 ^ (3 - s)) /\
    (3 < s -> m = val a / 256 ^ (s - 3) /\ 2 ^ 15 <= m).
Proof.
  intros Ha. destruct (compact_mantissa a Ha) as (Hn & Hlo & Hhi).
  destruct (byte_size a Ha) as (Hs & _ & _). unfold GetCompact. cbv zeta in *.
  set (size := (bits a + 7) / 8) in *. set (n := if size <=? 3 then _ else _) in *.
  assert ((Z.land n 0x00800000 =? 0) = negb (Z.testbit n 23)) as -> by (apply (land_pow2 n 23); lia).
  rewrite negb_involutive, sign_bit by done.
  assert (Hpack : forall m s, 0 <= m < 2 ^ 23 -> 0 <= s <= 33 ->
    (if negb (Z.land m (u32 (Z.lnot 0x007fffff)) =? 0) then None
     else if negb (s <? 256) then None
     else Some (Z.lor (Z.lor m (u32 (Z.shiftl s 24)))
       (if fNegative && negb (Z.land (Z.lor m (u32 (Z.shiftl s 24))) 0x007fffff =? 0)
        then 0x00800000 else 0))) = Some (compact_word m s fNegative)).
  { intros m s Hm Hs'. change (u32 (Z.lnot 0x007fffff)) with (511 * 2 ^ 23).
    rewrite land_high by lia. destruct (Z.ltb_spec s 256); [ | lia]. simpl negb. cbv iota.
    rewrite compact_pack by lia. unfold compact_word. do 4 f_equal.
    assert (forall z, Z.land z 0x007fffff = z mod 2 ^ 23) as -> by (intros; apply (Z.land_ones _ 23); lia).
    rewrite u32_id, lor_shiftl_add by (rewrite ?Z.shiftl_mul_pow2; lia).
    replace (m + s * 2 ^ 24) with (m + 2 * s * 2 ^ 23) by lia.
    by rewrite Z.mod_add, (Z.mod_small m) by lia. }
  destruct (Z.leb_spec (2 ^ 23) n) as [Hbit | Hbit].
  - rewrite Z.shiftr_div_pow2 by lia. exists (n / 2 ^ 8), (size + 1).
    assert (0 <= n / 2 ^ 8 < 2 ^ 23) by (split; [apply Z.div_pos | apply Z.div_lt_upper_bound]; lia).
    assert (2 ^ 15 <= n / 2 ^ 8) by (apply Z.div_le_lower_bound; lia).
    split; [apply Hpack; lia | ]. split_and!; try lia.
    + intros H3. rewrite Hlo by lia. replace (3 - size) with (3 - (size + 1) + 1) by lia.
      rewrite Z.pow_add_r, Z.mul_assoc by lia. by rewrite Z.div_mul.
    + intros H3. split; [ | done]. destruct (decide (size = 3)) as [-> | ?].
      * rewrite Hlo by lia. change (256 ^ (3 - 3)) with 1. by rewrite Z.mul_1_r.
      * destruct Hhi as [-> _]; [lia | ]. rewrite Z.div_div by (apply Z.pow_nonzero || lia; lia).
        change (2 ^ 8) with (256 ^ 1). rewrite <- Z.pow_add_r by lia. do 2 f_equal. lia.
  - exists n, size. split; [apply Hpack; lia | ]. split_and!; try lia; auto.
Qed.

(** *** Bitwise operators and blobs *)

(** A binary operator on limbs that computes [g] on the values, modulo [2^256]. *)
Class Refines2 (f : base_uint -> base_uint -> base_uint) (g : Z -> Z -> Z) : Prop :=
  refines2 : forall a b, wf256 a -> wf256 b ->
    wf256 (f a b) /\ val (f a b) = g (val a) (val b) mod 2 ^ 256.

#[export] Instance add_refines : Refines2 add Z.add.
Proof. intros a b. apply (add_spec_n 8). Qed.
#[export] Instance sub_refines : Refines2 sub Z.sub.
Proof. intros a b. apply (sub_spec_n 8). Qed.
#[export] Instance mul_refines : Refines2 mul Z.mul.
Proof. intros a b. apply mul_spec. Qed.

Section Bitwise.
Context (op : Z -> Z -> Z) (bop : bool -> bool -> bool).
Hypothesis op_spec : forall x y i, Z.testbit (op x y) i = bop (Z.testbit x i) (Z.testbit y i).
Hypothesis op_nonneg : forall x y, 0 <= x -> 0 <= y -> 0 <= op x y.
Hypothesis bop_false : bop false false = false.

Lemma bitwise_bound k x y : 0 <= k -> 0 <= x < 2 ^ k -> 0 <= y < 2 ^ k -> 0 <= op x y < 2 ^ k.
Proof.
  intros Hk Hx Hy. split; [apply op_nonneg; lia | ].
  assert (op x y mod 2 ^ k = op x y) as <-; [ | apply Z.mod_pos_bound; lia].
  apply Z.bits_inj'. intros i Hi. destruct (Z.ltb_spec i k).
  - by rewrite Z.mod_pow2_bits_low by lia.
  - rewrite Z.mod_pow2_bits_high, op_spec by lia.
    rewrite <- (Z.mod_small x (2 ^ k)), <- (Z.mod_small y (2 ^ k)) by lia.
    by rewrite !Z.mod_pow2_bits_high by lia.
Qed.

Lemma bitwise_refines : Refines2 (zip_with op) op.
Proof.
  intros a b Ha Hb. pose proof (val_range256 _ Ha) as Ra. pose proof (val_range256 _ Hb) as Rb.
  assert (Hw : wf256 (zip_with op a b)).
  { destruct Ha as [La Ha], Hb as [Lb Hb]. split; [rewrite length_zip_with; lia | ].
    apply Forall_zip_with_fst with (P := fun x => in_u 32 x) (Q := fun x => in_u 32 x).
    - done.
    - eapply Forall_impl; [exact Hb | ]. intros y Hy x Hx. apply bitwise_bound; lia || done. }
  pose proof (bitwise_bound 256 _ _ ltac:(lia) Ra Rb) as Rop.
  split; [done | ]. rewrite Z.mod_small by done. apply val_bits_ext; [done.. | ].
  intros q r Hq Hr. rewrite op_spec, !val_bit by (done || lia).
  destruct Ha as [La _], Hb as [Lb _]. unfold pn_at. rewrite !nth_lookup, lookup_zip_with.
  destruct (lookup_lt_is_Some_2 a (Z.to_nat q)) as [x ->]; [lia | ].
  destruct (lookup_lt_is_Some_2 b (Z.to_nat q)) as [y ->]; [lia | ]. apply op_spec.
Qed.

End Bitwise.

#[export] Instance bitor_refines : Refines2 bitor Z.lor.
Proof. apply (bitwise_refines Z.lor orb); [apply Z.lor_spec | intros; apply Z.lor_nonneg; lia | done]. Qed.
#[export] Instance bitand_refines : Refines2 bitand Z.land.
Proof. apply (bitwise_refines Z.land andb); [apply Z.land_spec | intros; apply Z.land_nonneg; lia | done]. Qed.
#[export] Instance bitxor_refines : Refines2 bitxor Z.lxor.
Proof. apply (bitwise_refines Z.lxor xorb); [apply Z.lxor_spec | intros; apply Z.lxor_nonneg; lia | done]. Qed.

Lemma uint_words_spec n b : are_bytes b -> length b = (4 * n)%nat ->
  limbs n (uint_words n b) /\ val (uint_words n b) = le_decode b /\
  flat_map (le_encode 4) (uint_words n b) = b.
Proof.
  revert b. induction n as [ | n IH]; intros b Hb Hl.
  - destruct b; [by split_and! | done].
  - simpl uint_words. destruct (IH (drop 4 b)) as (Hw & Hv & He).
    { by apply Forall_drop. } { rewrite length_drop. lia. }
    assert (Ht : are_bytes (take 4 b)) by (by apply Forall_take).
    assert (Lt : length (take 4 b) = 4%nat) by (rewrite length_take; lia).
    pose proof (le_decode_bound _ Ht) as Hd. unfold vsize in Hd. rewrite Lt in Hd.
    rewrite limbs_cons. split; [by split | ]. split.
    + simpl val. rewrite Hv. rewrite <- (take_drop 4 b) at 3. rewrite le_decode_app. unfold vsize.
      by rewrite Lt.
    + cbn [flat_map]. rewrite He, le_encode_decode by done. apply take_drop.
Qed.

Lemma UintToArith256_spec h : are_bytes h -> length h = 32%nat ->
  wf256 (UintToArith256 h) /\ val (UintToArith256 h) = le_decode h.
Proof. intros Hh Hl. by destruct (uint_words_spec 8 h Hh Hl) as (? & ? & _). Qed.

Lemma uint_words_encode n a : limbs n a -> uint_words n (flat_map (le_encode 4) a) = a.
Proof.
  revert a. induction n as [ | n IH]; intros a Ha.
  - by apply limbs_0 in Ha as ->.
  - step_limb a Ha x a' Hx. cbn [flat_map uint_words].
    rewrite take_app_le, drop_app_le by (rewrite le_encode_length; lia).
    rewrite take_ge, drop_ge by (rewrite le_encode_length; lia). simpl app.
    rewrite IH, le_decode_encode by done. f_equal. by apply Z.mod_small.
Qed.

(** *** The refinement theorems *)

(** (C38) Arithmetic and bitwise operators: on any two 256-bit numbers the limb loops give a
    well-formed number whose value is the sum, difference, product, bitwise combination,
    negation, complement, successor or predecessor modulo [2^256]; multiplying by a 32-bit word
    agrees, and no 64-bit intermediate of the loops wraps. *)
Theorem arith_operators_refine a b w :
  wf256 a -> wf256 b -> in_u 32 w ->
  (wf256 (add a b) /\ val (add a b) = (val a + val b) mod 2 ^ 256) /\
  (wf256 (sub a b) /\ val (sub a b) = (val a - val b) mod 2 ^ 256) /\
  (wf256 (mul a b) /\ val (mul a b) = (val a * val b) mod 2 ^ 256) /\
  (wf256 (mul32 a w) /\ val (mul32 a w) = (val a * w) mod 2 ^ 256) /\
  (wf256 (bitor a b) /\ val (bitor a b) = Z.lor (val a) (val b) mod 2 ^ 256) /\
  (wf256 (bitand a b) /\ val (bitand a b) = Z.land (val a) (val b) mod 2 ^ 256) /\
  (wf256 (bitxor a b) /\ val (bitxor a b) = Z.lxor (val a) (val b) mod 2 ^ 256) /\
  (wf256 (neg a) /\ val (neg a) = (- val a) mod 2 ^ 256) /\
  (wf256 (bitnot a) /\ val (bitnot a) = 2 ^ 256 - 1 - val a) /\
  (wf256 (incr a) /\ val (incr a) = (val a + 1) mod 2 ^ 256) /\
  (wf256 (decr a) /\ val (decr a) = (val a - 1) mod 2 ^ 256).
Proof.
  intros Ha Hb Hw. split_and!; try apply (refines2 a b Ha Hb); try apply (mul32_spec a w Ha Hw).
  all: first [apply (neg_spec_n 8 a Ha) | apply (bitnot_spec 8 a Ha) |
              apply (incr_spec 8 a Ha) | apply (decr_spec 8 a Ha)].
Qed.

Lemma arith_operators_refine_witness :
  val (mul (of_u64 (2 ^ 64 - 1)) (of_u64 (2 ^ 64 - 1))) = (2 ^ 64 - 1) * (2 ^ 64 - 1).
Proof.
  destruct (of_u64_spec (2 ^ 64 - 1)) as [Hw Hv]; [lia | ].
  destruct (arith_operators_refine _ _ 5 Hw Hw) as (_ & _ & [_ H] & _); [lia | ].
  rewrite H, Hv. reflexivity.
Defined.

(** Shifts, order and length: shifting left multiplies modulo [2^256] and shifting right
    divides, for every shift count (also past the width); [CompareTo] orders by value, [EqualTo]
    compares with a 64-bit word, and [bits] is the position of the highest set bit plus one. *)
Theorem shifts_and_order_refine a b s w :
  wf256 a -> wf256 b -> 0 <= s -> 0 <= w < 2 ^ 64 ->
  (wf256 (shl a s) /\ val (shl a s) = (val a * 2 ^ s) mod 2 ^ 256) /\
  (wf256 (shr a s) /\ val (shr a s) = val a / 2 ^ s) /\
  CompareTo a b = (if val a <? val b then -1 else if val b <? val a then 1 else 0) /\
  EqualTo a w = (val a =? w) /\
  bits a = (if val a =? 0 then 0 else Z.log2 (val a) + 1).
Proof.
  intros Ha Hb Hs Hw. split; [by apply shl_spec | ]. split; [by apply shr_spec | ].
  split; [ | split; [by apply EqualTo_spec | by apply (bits_spec 8)]].
  rewrite (CompareTo_spec 8) by done.
  destruct (Z.compare_spec (val a) (val b)); zcases; done.
Qed.

Lemma shifts_and_order_refine_witness :
  val (shl (of_u64 5) 255) = 2 ^ 255 /\ bits (of_u64 5) = 3.
Proof.
  destruct (of_u64_spec 5) as [Hw Hv]; [lia | ].
  destruct (shifts_and_order_refine _ _ 255 7 Hw Hw) as ([_ H] & _ & _ & _ & Hb); [lia.. | ].
  rewrite H, Hb, Hv. split; reflexivity.
Defined.

(** Division: the shift-and-subtract loop returns the quotient of the values; the only
    failure is the division-by-zero error, and it is raised exactly for a zero divisor. *)
Theorem division_correct a b :
  wf256 a -> wf256 b ->
  (val b = 0 -> udiv a b = Err DivisionByZero) /\
  (val b <> 0 -> exists q, udiv a b = Ok q /\ wf256 q /\ val q = val a / val b).
Proof.
  intros Ha Hb. pose proof (udiv_spec a b Ha Hb) as H.
  destruct (udiv a b) as [q | []]; [ | split; done].
  destruct H as (? & ? & ?). split; [done | eauto].
Qed.

Lemma division_correct_witness : exists q, udiv (shl (of_u64 1) 200) (of_u64 7) = Ok q /\
  val q = 2 ^ 200 / 7.
Proof.
  destruct (of_u64_spec 1) as [H1 V1]; [lia | ]. destruct (of_u64_spec 7) as [H7 V7]; [lia | ].
  destruct (shl_spec _ 200 H1) as [H2 V2]; [lia | ].
  destruct (division_correct _ _ H2 H7) as [_ H]. destruct H as (q & E & _ & V); [by rewrite V7 | ].
  exists q. split; [exact E | ]. rewrite V, V2, V1, V7. reflexivity.
Defined.

(** [SetCompact]: the number set is the announced [mantissa * 256^(exponent-3)] modulo
    [2^256], the overflow flag says exactly that this number does not fit 256 bits, and the
    negative flag that it is nonzero with the sign bit set. *)
Theorem SetCompact_exact c :
  in_u 32 c ->
  let '(this, fNegative, fOverflow) := SetCompact c in
  wf256 this /\ val this = compact_value c mod 2 ^ 256 /\
  fNegative = negb (compact_value c =? 0) && Z.testbit c 23 /\
  fOverflow = (2 ^ 256 <=? compact_value c).
Proof. apply SetCompact_aux. Qed.

Lemma SetCompact_exact_witness :
  val (fst (fst (SetCompact 0x1d00ffff))) = 0xffff * 256 ^ 26.
Proof.
  pose proof (SetCompact_exact 0x1d00ffff ltac:(lia)) as H.
  destruct (SetCompact 0x1d00ffff) as [[t n] o] eqn:E. destruct H as (_ & H & _).
  simpl fst. rewrite H. reflexivity.
Defined.

Lemma compact_word_value m s f : 0 <= m < 2 ^ 23 -> 0 <= s <= 33 ->
  in_u 32 (compact_word m s f) /\
  compact_value (compact_word m s f) =
    (if s <=? 3 then m / 256 ^ (3 - s) else m * 256 ^ (s - 3)) /\
  Z.testbit (compact_word m s f) 23 = f && negb (m =? 0).
Proof.
  intros Hm Hs. unfold compact_word, compact_value. set (b := f && negb (m =? 0)).
  assert (Hb : 0 <= (if b then 2 ^ 23 else 0) <= 2 ^ 23) by (destruct b; lia).
  split; [lia | ]. rewrite Z.div_add, (Z.div_small (m + _)), Z.add_0_l by lia.
  assert (Em : (m + (if b then 2 ^ 23 else 0) + s * 2 ^ 24) mod 2 ^ 23 = m).
  { replace (m + (if b then 2 ^ 23 else 0) + s * 2 ^ 24)
      with (m + ((if b then 1 else 0) + 2 * s) * 2 ^ 23) by (destruct b; lia).
    rewrite Z.mod_add by lia. apply Z.mod_small. lia. }
  rewrite Em. split; [done | ].
  rewrite <- (Z.mod_pow2_bits_low _ 24) by lia. rewrite Z.mod_add, Z.mod_small by lia.
  rewrite sign_bit by lia. destruct b; lia.
Qed.

(** Mantissa and size in normal form announce the largest representable number below [X]. *)
Lemma compact_round_down X m s f :
  0 <= X -> 0 <= m < 2 ^ 23 -> 0 <= s <= 33 ->
  (s <= 3 -> m = X * 256 ^ (3 - s)) -> (3 < s -> m = X / 256 ^ (s - 3) /\ 2 ^ 15 <= m) ->
  let v := compact_value (compact_word m s f) in
  0 <= v <= X /\ (m =? 0) = (v =? 0) /\
  forall c', in_u 32 c' -> compact_value c' <= X -> compact_value c' <= v.
Proof.
  intros HX Hm Hs Hlo Hhi v. destruct (compact_word_value m s f Hm Hs) as (_ & Hv & _). fold v in Hv.
  rewrite Hv. destruct (Z.leb_spec s 3) as [H3 | H3].
  - assert (0 < 256 ^ (3 - s)) by (apply Z.pow_pos_nonneg; lia). rewrite Hlo by done.
    rewrite Z.div_mul by lia. split_and!; [lia.. | | done].
    destruct (Z.eqb_spec (X * 256 ^ (3 - s)) 0), (Z.eqb_spec X 0); nia.
  - destruct (Hhi H3) as [Em Hm15]. set (P := 256 ^ (s - 3)) in *.
    assert (0 < P) by (apply Z.pow_pos_nonneg; lia). pose proof (Z.mul_div_le X P).
    split_and!; [nia | nia | destruct (Z.eqb_spec m 0), (Z.eqb_spec (m * P) 0); nia | ].
    intros c' Hc' Hle'. unfold compact_value in Hle' |- *.
    pose proof (Z.mod_pos_bound c' (2 ^ 23)). set (m' := c' mod 2 ^ 23) in *.
    set (s' := c' / 2 ^ 24) in *. assert (0 <= s') by (apply Z.div_pos; lia).
    destruct (Z.leb_spec s' 3).
    { assert (0 < 256 ^ (3 - s')) by (apply Z.pow_pos_nonneg; lia).
      assert (m' / 256 ^ (3 - s') <= m') by (apply Z.div_le_upper_bound; nia).
      assert (256 ^ 1 <= P) by (apply Z.pow_le_mono_r; lia). change (256 ^ 1) with 256 in *. nia. }
    assert (0 < 256 ^ (s' - 3)) by (apply Z.pow_pos_nonneg; lia).
    destruct (Z.leb_spec s s').
    + assert (256 ^ (s' - 3) = P * 256 ^ (s' - s)) as Ep
        by (unfold P; rewrite <- Z.pow_add_r by lia; f_equal; lia).
      rewrite Ep in *. set (Q := 256 ^ (s' - s)) in *.
      assert (m' * Q <= m) by (rewrite Em; apply Z.div_le_lower_bound; nia). nia.
    + assert (P = 256 ^ (s' - 3) * 256 ^ (s - s')) as Ep
        by (unfold P; rewrite <- Z.pow_add_r by lia; f_equal; lia).
      assert (256 ^ 1 <= 256 ^ (s - s')) by (apply Z.pow_le_mono_r; lia).
      change (256 ^ 1) with 256 in *. nia.
Qed.

(** [GetCompact] rounds down to the best representable target: its assertions never fail;
    the word it returns decodes (without overflow, with the requested sign on a nonzero value)
    to a number not above the original, and no compact word announces a number between the two. *)
Theorem GetCompact_best a fNegative :
  wf256 a ->
  exists c this, GetCompact a fNegative = Some c /\ in_u 32 c /\
    SetCompact c = (this, fNegative && negb (val this =? 0), false) /\
    val this <= val a /\
    (forall c', in_u 32 c' -> compact_value c' <= val a -> compact_value c' <= val this).
Proof.
  intros Ha. destruct (GetCompact_normal a fNegative Ha) as (m & s & E & Hm & Hs & Hlo & Hhi).
  destruct (compact_word_value m s fNegative Hm Hs) as (Hc & _ & Hsgn).
  pose proof (SetCompact_aux _ Hc) as HS. pose proof (val_range256 _ Ha).
  destruct (compact_round_down (val a) m s fNegative ltac:(lia) Hm Hs Hlo Hhi) as (Hle & Hz & Hb).
  set (c := compact_word m s fNegative) in *. destruct (SetCompact c) as [[this neg_] ovf] eqn:ES.
  destruct HS as (Hw & Hval & Hneg & Hovf). rewrite Z.mod_small in Hval by lia.
  exists c, this. rewrite <- Hval in *.
  split; [exact E | ]. split; [exact Hc | ]. split; [ | split; [lia | exact Hb]].
  assert ((2 ^ 256 <=? val this) = false) as Ho by lia.
  rewrite ES, Hneg, Hovf, Hsgn, Hz, Ho. destruct fNegative, (val this =? 0); reflexivity.
Qed.

Lemma GetCompact_best_witness : GetCompact (of_u64 0x123456789a) false = Some 0x05123456 /\
  exists c this, GetCompact (of_u64 0x123456789a) false = Some c /\ val this <= 0x123456789a.
Proof.
  destruct (of_u64_spec 0x123456789a) as [Hw Hv]; [lia | ].
  split; [vm_compute; reflexivity | ].
  destruct (GetCompact_best _ false Hw) as (c & t & E & _ & _ & Hle & _).
  exists c, t. rewrite Hv in Hle. split; [exact E | exact Hle].
Defined.
