(* ===== verification/ScriptNum.v ===== *)
(** * Script numbers ([CScriptNum] of [src/script/script.h])

    The sign-magnitude byte vectors scripts compute with, the 64-bit value behind them, the
    minimality check and the asserting arithmetic.  Theorems: the encoding is a bijection
    between the values and the minimally encoded vectors, the documented operand range is
    exactly what a four-byte operand can hold, and arithmetic on such operands never trips an
    assertion. *)

From S2P Require Import Prelude.
Open Scope Z_scope.

(** ** Definitions *)

(** [scriptnum_error], by its message. *)
Inductive scriptnum_error : Type :=
| ScriptNumberOverflow
| NonMinimallyEncoded
| NegativeGasValue.

Definition nDefaultMaxNumSize : Z := 4.

(** [vch.back()] of a vector that is not empty. *)
Definition back (vch : bytes) : Z := List.last vch 0.
Definition byte_at (vch : bytes) (i : Z) : Z := nth (Z.to_nat i) vch 0.

(** [result |= static_cast<int64_t>(vch[i]) << 8*i], from index [i] on. *)
Fixpoint set_vch_loop (vch : bytes) (i result : Z) : Z :=
  match vch with
  | [] => result
  | b :: vch => set_vch_loop vch (i + 1) (i64 (Z.lor result (i64 (Z.shiftl b (8 * i)))))
  end.

Definition set_vch (vch : bytes) : Z :=
  match vch with
  | [] => 0
  | _ =>
      let result := set_vch_loop vch 0 0 in
      if negb (Z.land (back vch) 0x80 =? 0) then
        - i64 (Z.land (u64 result) (u64 (Z.lnot (u64 (Z.shiftl 0x80 (8 * (vsize vch - 1)))))))
      else result
  end.

(** The test of [CScriptNum(vch, true, ...)] on a vector that is not empty. *)
Definition minimally_encoded (vch : bytes) : bool :=
  if Z.land (back vch) 0x7f =? 0 then
    negb ((vsize vch <=? 1) || (Z.land (byte_at vch (vsize vch - 2)) 0x80 =? 0))
  else true.

(** [CScriptNum(vch, fRequireMinimal, nMaxNumSize)] *)
Definition CScriptNum (vch : bytes) (fRequireMinimal : bool) (nMaxNumSize : Z)
  : result scriptnum_error Z :=
  if nMaxNumSize <? vsize vch then Err ScriptNumberOverflow
  else if fRequireMinimal && (0 <? vsize vch) && negb (minimally_encoded vch)
  then Err NonMinimallyEncoded
  else Ok (set_vch vch).

(** [while (absvalue) { result.push_back(absvalue & 0xff); absvalue >>= 8; }]; a [uint64_t]
    is gone after eight turns. *)
Fixpoint abs_bytes (fuel : nat) (absvalue : Z) : bytes :=
  match fuel with
  | O => []
  | S fuel =>
      if absvalue =? 0 then []
      else Z.land absvalue 0xff :: abs_bytes fuel (Z.shiftr absvalue 8)
  end.

Definition set_back (v : bytes) (x : Z) : bytes := removelast v ++ [x].

Definition serialize (value : Z) : bytes :=
  if value =? 0 then []
  else
    let neg := value <? 0 in
    let absvalue := u64 (if neg then - value else value) in
    let result := abs_bytes 8 absvalue in
    if negb (Z.land (back result) 0x80 =? 0) then result ++ [if neg then 0x80 else 0]
    else if neg then set_back result (Z.lor (back result) 0x80)
    else result.

Definition getint (m_value : Z) : Z :=
  if INT32_MAX <? m_value then INT32_MAX
  else if m_value <? INT32_MIN then INT32_MIN
  else m_value.

(** The asserting operators; [None] is a failed assertion. *)
Definition op_neg (m_value : Z) : option Z :=
  if m_value =? INT64_MIN then None else Some (- m_value).
Definition op_add_assign (m_value rhs : Z) : option Z :=
  if (rhs =? 0) || ((0 <? rhs) && (m_value <=? INT64_MAX - rhs))
     || ((rhs <? 0) && (INT64_MIN - rhs <=? m_value))
  then Some (m_value + rhs) else None.
Definition op_sub_assign (m_value rhs : Z) : option Z :=
  if (rhs =? 0) || ((0 <? rhs) && (INT64_MIN + rhs <=? m_value))
     || ((rhs <? 0) && (m_value <=? INT64_MAX + rhs))
  then Some (m_value - rhs) else None.

Fixpoint vch_to_uint64_loop (vch : bytes) (i result : Z) : Z :=
  match vch with
  | [] => result
  | b :: vch => vch_to_uint64_loop vch (i + 1) (Z.lor result (u64 (Z.shiftl b (8 * i))))
  end.

Definition vch_to_uint64 (vch : bytes) : result scriptnum_error Z :=
  if 8 <? vsize vch then Err ScriptNumberOverflow
  else match vch with
  | [] => Ok 0
  | _ =>
      let result := vch_to_uint64_loop vch 0 0 in
      if negb (Z.land (back vch) 0x80 =? 0) then Err NegativeGasValue else Ok result
  end.

(** ** Theorems *)

(** *** Sign and magnitude *)

(** The vector of [m] bytes whose sign bit is [s] and whose magnitude is [a]. *)
Definition sign_mag (m : nat) (s : bool) (a : Z) : Z :=
  a + (if s then 2 ^ (8 * Z.of_nat m - 1) else 0).

Lemma le_encode_snoc m v : le_encode (S m) v = le_encode m v ++ [(v / 2 ^ (8 * Z.of_nat m)) mod 256].
Proof.
  revert v. induction m as [ | m IH]; intros v.
  - cbn [le_encode app]. change (2 ^ (8 * Z.of_nat 0)) with 1. by rewrite Z.div_1_r.
  - change (le_encode (S (S m)) v) with (v mod 256 :: le_encode (S m) (v / 256)).
    rewrite IH. change (le_encode (S m) v) with (v mod 256 :: le_encode m (v / 256)).
    cbn [app]. do 4 f_equal. rewrite Z.div_div by (try apply Z.pow_pos_nonneg; lia).
    f_equal. change 256 with (2 ^ 8). rewrite <- Z.pow_add_r by lia. f_equal. lia.
Qed.

Lemma back_snoc l x : back (l ++ [x]) = x.
Proof. apply last_last. Qed.

Lemma set_back_snoc l x y : set_back (l ++ [x]) y = l ++ [y].
Proof. unfold set_back. by rewrite removelast_last. Qed.

Lemma pow8 m : 2 ^ (8 * Z.of_nat (S m)) = 256 * 2 ^ (8 * Z.of_nat m).
Proof. change 256 with (2 ^ 8). rewrite <- Z.pow_add_r by lia. f_equal. lia. Qed.

Lemma pow8_half m : 2 ^ (8 * Z.of_nat (S m) - 1) = 128 * 2 ^ (8 * Z.of_nat m).
Proof. change 128 with (2 ^ 7). rewrite <- Z.pow_add_r by lia. f_equal. lia. Qed.

Lemma pow8_pos m : 0 < 2 ^ (8 * Z.of_nat m).
Proof. apply Z.pow_pos_nonneg; lia. Qed.

(** The top byte of a sign-magnitude vector. *)
Lemma back_sign_mag m s a : 0 <= a < 2 ^ (8 * Z.of_nat (S m) - 1) ->
  let t := a / 2 ^ (8 * Z.of_nat m) in
  0 <= t < 128 /\ back (le_encode (S m) (sign_mag (S m) s a)) = t + (if s then 128 else 0).
Proof.
  intros Ha t. rewrite le_encode_snoc, back_snoc. unfold sign_mag. rewrite pow8_half in *.
  pose proof (pow8_pos m) as HP. set (P := 2 ^ (8 * Z.of_nat m)) in *.
  assert (Ht : 0 <= t < 128) by (split; [apply Z.div_pos | apply Z.div_lt_upper_bound]; lia).
  split; [done | ]. destruct s.
  - rewrite Z.div_add by lia. apply Z.mod_small. lia.
  - rewrite !Z.add_0_r. apply Z.mod_small. unfold t in Ht. lia.
Qed.

Lemma lor_128_small t : 0 <= t < 128 -> Z.lor t 0x80 = t + 128.
Proof. intros Ht. apply (lor_shiftl_add t 1 7); lia. Qed.

Lemma sign_test t (s : bool) : 0 <= t < 128 ->
  (Z.land (t + (if s then 128 else 0)) 0x80 =? 0) = negb s /\
  Z.land (t + (if s then 128 else 0)) 0x7f = t.
Proof.
  intros Ht. rewrite land_127, land_128_byte by (unfold is_byte; destruct s; lia). destruct s.
  - destruct (Z.leb_spec 128 (t + 128)); [ | lia]. split; [done | ]. symmetry.
    apply (Z.mod_unique _ _ 1); lia.
  - rewrite Z.add_0_r. destruct (Z.leb_spec 128 t); [lia | ]. split; [done | ]. by apply Z.mod_small.
Qed.

(** Every vector is a sign-magnitude vector. *)
Lemma vch_sign_mag vch : are_bytes vch -> vch <> [] ->
  exists s a, 0 <= a < 2 ^ (8 * vsize vch - 1) /\ vch = le_encode (length vch) (sign_mag (length vch) s a).
Proof.
  intros Hb Hne. pose proof (le_decode_bound vch Hb) as Hd. unfold vsize in *.
  destruct (length vch) as [ | m] eqn:El; [by destruct vch | ].
  assert (E2 : 2 ^ (8 * Z.of_nat (S m)) = 2 * 2 ^ (8 * Z.of_nat (S m) - 1)) by (rewrite pow8, pow8_half; lia).
  exists (2 ^ (8 * Z.of_nat (S m) - 1) <=? le_decode vch).
  exists (if 2 ^ (8 * Z.of_nat (S m) - 1) <=? le_decode vch
          then le_decode vch - 2 ^ (8 * Z.of_nat (S m) - 1) else le_decode vch).
  split; [destruct (Z.leb_spec (2 ^ (8 * Z.of_nat (S m) - 1)) (le_decode vch)); lia | ].
  rewrite <- (le_encode_decode vch (S m)) at 1 by done. f_equal. unfold sign_mag.
  destruct (_ <=? _); lia.
Qed.

(** *** Decoding *)

Lemma set_vch_loop_spec vch i r :
  are_bytes vch -> 0 <= i -> 0 <= r < 2 ^ (8 * i) -> i + vsize vch <= 7 ->
  set_vch_loop vch i r = r + 2 ^ (8 * i) * le_decode vch.
Proof.
  intros Hb. revert i r. induction Hb as [ | b vch Hb Hv IH]; intros i r Hi Hr Hl; simpl set_vch_loop.
  - unfold le_decode. lia.
  - rewrite vsize_cons in Hl. pose proof (vsize_nonneg vch). unfold is_byte in Hb.
    assert (E : 2 ^ (8 * (i + 1)) = 256 * 2 ^ (8 * i))
      by (change 256 with (2 ^ 8); rewrite <- Z.pow_add_r by lia; f_equal; lia).
    assert (2 ^ (8 * (i + 1)) <= 2 ^ 56) by (apply Z.pow_le_mono_r; lia).
    rewrite (i64_id (Z.shiftl b _)) by (rewrite Z.shiftl_mul_pow2 by lia; nia).
    rewrite lor_shiftl_add by lia. rewrite i64_id by nia.
    rewrite IH by (done || lia || nia). rewrite E.
    change (le_decode (b :: vch)) with (b + 256 * le_decode vch). nia.
Qed.

Lemma clear_bit a k : 0 <= k < 64 -> 0 <= a < 2 ^ k ->
  Z.land (a + 2 ^ k) (u64 (Z.lnot (2 ^ k))) = a.
Proof.
  intros Hk Ha. replace (a + 2 ^ k) with (Z.lor a (Z.shiftl 1 k))
    by (rewrite lor_shiftl_add by lia; lia).
  assert (Hhi : forall i, k <= i -> Z.testbit a i = false).
  { intros i Hi. rewrite <- (Z.mod_small a (2 ^ k)) by lia. apply Z.mod_pow2_bits_high. lia. }
  apply Z.bits_inj'. intros i Hi. rewrite Z.land_spec, Z.lor_spec, Z.shiftl_1_l, Z.pow2_bits_eqb by lia.
  unfold u64. destruct (Z.ltb_spec i 64).
  - rewrite Z.mod_pow2_bits_low, Z.lnot_spec, Z.pow2_bits_eqb by lia.
    destruct (Z.eqb_spec k i) as [<- | ?]; simpl; [by rewrite Hhi, andb_false_r by lia | ].
    by rewrite orb_false_r, andb_true_r.
  - rewrite Z.mod_pow2_bits_high, andb_false_r by lia. symmetry. apply Hhi. lia.
Qed.

Lemma set_vch_spec m s a : (m <= 7)%nat -> 0 <= a < 2 ^ (8 * Z.of_nat m - 1) ->
  set_vch (le_encode m (sign_mag m s a)) = if s then - a else a.
Proof.
  intros Hm Ha. destruct m as [ | m].
  { change (2 ^ (8 * Z.of_nat 0 - 1)) with 0 in Ha. lia. }
  destruct (back_sign_mag m s a Ha) as [Ht Eb].
  destruct (sign_test _ s Ht) as [Es _]. set (vch := le_encode (S m) (sign_mag (S m) s a)) in *.
  assert (Lv : vsize vch = Z.of_nat (S m)) by (unfold vsize, vch; by rewrite le_encode_length).
  assert (Hpow : 2 ^ (8 * Z.of_nat (S m) - 1) <= 2 ^ 55) by (apply Z.pow_le_mono_r; lia).
  assert (El : set_vch_loop vch 0 0 = sign_mag (S m) s a).
  { rewrite set_vch_loop_spec by (try apply le_encode_bytes; try done; lia).
    unfold vch. rewrite le_decode_encode. rewrite Z.mod_small; [simpl; lia | ].
    unfold sign_mag. rewrite pow8, pow8_half in *. destruct s; lia. }
  assert (Hne : vch <> []) by (intros E; by rewrite E in Lv).
  unfold set_vch. destruct vch as [ | x v]; [done | ]. rewrite Eb, El, Es, negb_involutive, Lv.
  unfold sign_mag. destruct s; [ | lia]. f_equal.
  assert (E80 : Z.shiftl 0x80 (8 * (Z.of_nat (S m) - 1)) = 2 ^ (8 * Z.of_nat (S m) - 1)).
  { rewrite Z.shiftl_mul_pow2 by lia. change 0x80 with (2 ^ 7). rewrite <- Z.pow_add_r by lia. f_equal. lia. }
  rewrite E80, (u64_id (a + _)), (u64_id (2 ^ _)) by lia. rewrite clear_bit by lia. apply i64_id. lia.
Qed.

(** *** Minimality *)

(** In a vector of [m] bytes the magnitude needs all of them: one byte more than [m - 1] bytes
    of sign and magnitude hold. *)
Definition needs_bytes (m : nat) (a : Z) : Prop :=
  match m with
  | O => a = 0
  | S O => 0 < a
  | S m => 2 ^ (8 * Z.of_nat m - 1) <= a
  end.

Lemma byte_at_snoc2 l x y : byte_at (l ++ [x; y]) (vsize (l ++ [x; y]) - 2) = x.
Proof.
  unfold byte_at, vsize. rewrite length_app. simpl length.
  replace (Z.to_nat _) with (length l) by lia. by rewrite app_nth2, Nat.sub_diag by lia.
Qed.

Lemma minimally_encoded_spec m s a : 0 <= a < 2 ^ (8 * Z.of_nat (S m) - 1) ->
  minimally_encoded (le_encode (S m) (sign_mag (S m) s a)) = true <-> needs_bytes (S m) a.
Proof.
  intros Ha. destruct (back_sign_mag m s a Ha) as [Ht Eb]. destruct (sign_test _ s Ht) as [_ Em].
  unfold minimally_encoded. rewrite Eb, Em. pose proof (pow8_pos m).
  destruct m as [ | m].
  { change (2 ^ (8 * Z.of_nat 0)) with 1 in *. rewrite Z.div_1_r in *. simpl needs_bytes.
    destruct (Z.eqb_spec a 0); [ | lia]. change (vsize _ <=? 1) with true. simpl. lia. }
  assert (Eh : 2 ^ (8 * Z.of_nat (S m) - 1) = 128 * 2 ^ (8 * Z.of_nat m)) by apply pow8_half.
  assert (Ep : 2 ^ (8 * Z.of_nat (S m)) = 256 * 2 ^ (8 * Z.of_nat m)) by apply pow8.
  change (needs_bytes (S (S m)) a) with (2 ^ (8 * Z.of_nat (S m) - 1) <= a).
  pose proof (pow8_pos m). destruct (Z.eqb_spec (a / 2 ^ (8 * Z.of_nat (S m))) 0) as [E0 | E0].
  - assert (a < 2 ^ (8 * Z.of_nat (S m))) by (apply Z.div_small_iff in E0; lia).
    rewrite !le_encode_snoc, <- app_assoc. cbn [app]. rewrite byte_at_snoc2.
    destruct (Z.leb_spec (vsize (le_encode m (sign_mag (S (S m)) s a) ++
      [(sign_mag (S (S m)) s a / 2 ^ (8 * Z.of_nat m)) mod 256;
       (sign_mag (S (S m)) s a / 2 ^ (8 * Z.of_nat (S m))) mod 256])) 1) as [Hl | _].
    { unfold vsize in Hl. rewrite length_app in Hl. simpl in Hl. lia. }
    assert (Ed : (sign_mag (S (S m)) s a / 2 ^ (8 * Z.of_nat m)) mod 256 = a / 2 ^ (8 * Z.of_nat m)).
    { unfold sign_mag. rewrite (pow8_half (S m)), Ep.
      replace (a + (if s then 128 * (256 * 2 ^ (8 * Z.of_nat m)) else 0))
        with (a + (if s then 128 * 256 else 0) * 2 ^ (8 * Z.of_nat m)) by (destruct s; lia).
      rewrite Z.div_add by lia.
      assert (0 <= a / 2 ^ (8 * Z.of_nat m) < 256) by (split; [apply Z.div_pos | apply Z.div_lt_upper_bound]; lia).
      destruct s; [ | rewrite Z.add_0_r; apply Z.mod_small; lia].
      change (128 * 256) with (128 * 256). rewrite Z.mod_add by lia. apply Z.mod_small. lia. }
    rewrite Ed, land_128_byte.
    2: { unfold is_byte. split; [apply Z.div_pos | apply Z.div_lt_upper_bound]; lia. }
    destruct (Z.leb_spec 128 (a / 2 ^ (8 * Z.of_nat m))) as [H128 | H128]; simpl.
    + split; [intros _ | done]. rewrite Eh.
      pose proof (Z.mul_div_le a (2 ^ (8 * Z.of_nat m))). nia.
    + split; [done | ]. rewrite Eh. intros Hge.
      assert (128 <= a / 2 ^ (8 * Z.of_nat m)) by (apply Z.div_le_lower_bound; lia). lia.
  - split; [intros _ | done]. assert (1 <= a / 2 ^ (8 * Z.of_nat (S m))) as H1.
    { pose proof (Z.div_pos a (2 ^ (8 * Z.of_nat (S m)))). lia. }
    pose proof (Z.mul_div_le a (2 ^ (8 * Z.of_nat (S m)))). nia.
Qed.

(** *** Encoding *)

Lemma abs_bytes_form f a : 0 <= a < 2 ^ (8 * Z.of_nat f) ->
  exists k, (k <= f)%nat /\ abs_bytes f a = le_encode k a /\ a < 2 ^ (8 * Z.of_nat k) /\
    match k with O => a = 0 | S k => 2 ^ (8 * Z.of_nat k) <= a end.
Proof.
  revert a. induction f as [ | f IH]; intros a Ha.
  - exists O. change (2 ^ (8 * Z.of_nat 0)) with 1 in *. split_and!; done || lia.
  - simpl abs_bytes. destruct (Z.eqb_spec a 0) as [-> | Hne].
    + exists O. split_and!; done || lia.
    + rewrite pow8 in Ha. destruct (IH (Z.shiftr a 8)) as (k & Hk & E & Hlt & Hge).
      { rewrite Z.shiftr_div_pow2 by lia. change (2 ^ 8) with 256.
        split; [apply Z.div_pos | apply Z.div_lt_upper_bound]; lia. }
      rewrite land_255, E. rewrite Z.shiftr_div_pow2 in * by lia. change (2 ^ 8) with 256 in *.
      exists (S k). split; [lia | ]. split; [done | ]. rewrite pow8.
      pose proof (Z.div_mod a 256). pose proof (Z.mod_pos_bound a 256). split; [lia | ].
      destruct k as [ | k]; [change (2 ^ (8 * Z.of_nat 0)) with 1; lia | rewrite pow8; lia].
Qed.

(** A vector with one more byte on top, by its value. *)
Lemma le_encode_push k v x : 0 <= v < 2 ^ (8 * Z.of_nat k) -> is_byte x ->
  le_encode k v ++ [x] = le_encode (S k) (v + 2 ^ (8 * Z.of_nat k) * x).
Proof.
  intros Hv Hx. pose proof (pow8_pos k).
  rewrite <- (le_encode_decode (le_encode k v ++ [x]) (S k)).
  - f_equal. rewrite le_decode_app, le_decode_encode, Z.mod_small by done.
    unfold vsize. rewrite le_encode_length. unfold le_decode. lia.
  - apply Forall_app. split; [apply le_encode_bytes | by constructor].
  - rewrite length_app, le_encode_length. simpl. lia.
Qed.

Lemma serialize_form n : n <> 0 -> Z.abs n < 2 ^ 63 ->
  exists m, (m < 8)%nat /\
    serialize n = le_encode (S m) (sign_mag (S m) (n <? 0) (Z.abs n)) /\
    Z.abs n < 2 ^ (8 * Z.of_nat (S m) - 1) /\ needs_bytes (S m) (Z.abs n).
Proof.
  intros Hn Hb. unfold serialize. destruct (Z.eqb_spec n 0); [done | ]. cbv zeta.
  replace (u64 (if n <? 0 then - n else n)) with (Z.abs n).
  2: { destruct (Z.ltb_spec n 0); rewrite u64_id by lia; lia. }
  destruct (abs_bytes_form 8 (Z.abs n)) as ([ | k] & Hk & E & Hlt & Hge).
  { change (2 ^ (8 * Z.of_nat 8)) with (2 ^ 64). lia. } { lia. }
  pose proof (pow8_pos k) as HP. rewrite E. set (a := Z.abs n) in *.
  assert (Hlt' := Hlt). rewrite pow8 in Hlt'. pose proof (Z.div_mod a (2 ^ (8 * Z.of_nat k))) as Hdm.
  pose proof (Z.mod_pos_bound a (2 ^ (8 * Z.of_nat k))) as Hm.
  assert (Ht : 0 <= a / 2 ^ (8 * Z.of_nat k) < 256)
    by (split; [apply Z.div_pos | apply Z.div_lt_upper_bound]; lia).
  assert (Eback : back (le_encode (S k) a) = a / 2 ^ (8 * Z.of_nat k)).
  { rewrite le_encode_snoc, back_snoc. by apply Z.mod_small. }
  rewrite Eback, land_128_byte by done.
  destruct (Z.leb_spec 128 (a / 2 ^ (8 * Z.of_nat k))) as [Hbig | Hsmall]; simpl negb; cbv iota.
  - (* the top byte is in use: one more byte for the sign *)
    assert (128 * 2 ^ (8 * Z.of_nat k) <= a) by nia. exists (S k). split_and!.
    + destruct (decide (k = 7)%nat) as [-> | ?]; [ | lia].
      change (2 ^ (8 * Z.of_nat 7)) with (2 ^ 56) in *. lia.
    + rewrite le_encode_push by (destruct (n <? 0); unfold is_byte; lia).
      f_equal. unfold sign_mag. rewrite (pow8_half (S k)). destruct (n <? 0); lia.
    + rewrite pow8_half, pow8. lia.
    + change (needs_bytes (S (S k)) a) with (2 ^ (8 * Z.of_nat (S k) - 1) <= a).
      rewrite pow8_half. lia.
  - assert (a < 128 * 2 ^ (8 * Z.of_nat k)) by nia. exists k. rewrite pow8_half. split_and!; try lia.
    + destruct (n <? 0); [ | unfold sign_mag; by rewrite Z.add_0_r].
      rewrite le_encode_snoc, set_back_snoc, lor_128_small by lia.
      replace (le_encode k a) with (le_encode k (a mod 2 ^ (8 * Z.of_nat k)))
        by (rewrite <- le_decode_encode; apply le_encode_decode;
            [apply le_encode_bytes | apply le_encode_length]).
      rewrite le_encode_push by (unfold is_byte; lia). f_equal. unfold sign_mag. rewrite pow8_half. nia.
    + destruct k as [ | k]; [change (2 ^ (8 * Z.of_nat 0)) with 1 in *; simpl; lia | ].
      change (needs_bytes (S (S k)) a) with (2 ^ (8 * Z.of_nat (S k) - 1) <= a).
      assert (2 ^ (8 * Z.of_nat (S k) - 1) <= 2 ^ (8 * Z.of_nat (S k))) by (apply Z.pow_le_mono_r; lia).
      lia.
Qed.

Lemma needs_bytes_unique m m' a :
  0 <= a < 2 ^ (8 * Z.of_nat m - 1) -> a < 2 ^ (8 * Z.of_nat m' - 1) ->
  needs_bytes m a -> needs_bytes m' a -> m = m'.
Proof.
  assert (forall m m', 0 <= a < 2 ^ (8 * Z.of_nat m - 1) -> needs_bytes m' a -> ~ (m < m')%nat) as H.
  { intros k k' Ha Hk' Hlt. destruct k as [ | k]; [change (2 ^ (8 * Z.of_nat 0 - 1)) with 0 in Ha; lia | ].
    destruct k' as [ | [ | k']]; [lia | lia | ].
    change (needs_bytes (S (S k')) a) with (2 ^ (8 * Z.of_nat (S k') - 1) <= a) in Hk'.
    assert (2 ^ (8 * Z.of_nat (S k) - 1) <= 2 ^ (8 * Z.of_nat (S k') - 1)) by (apply Z.pow_le_mono_r; lia).
    lia. }
  intros H1 H2 N1 N2. pose proof (H m m' H1 N2). pose proof (H m' m ltac:(lia) N1). lia.
Qed.

(** *** The theorems *)

Lemma CScriptNum_sign_mag m s a (fMin : bool) size :
  (m < 7)%nat -> 0 <= a < 2 ^ (8 * Z.of_nat (S m) - 1) -> Z.of_nat (S m) <= size ->
  (fMin = true -> needs_bytes (S m) a) ->
  CScriptNum (le_encode (S m) (sign_mag (S m) s a)) fMin size = Ok (if s then - a else a).
Proof.
  intros Hm Ha Hs Hmin. unfold CScriptNum.
  assert (L : vsize (le_encode (S m) (sign_mag (S m) s a)) = Z.of_nat (S m))
    by (unfold vsize; by rewrite le_encode_length).
  rewrite L. destruct (Z.ltb_spec size (Z.of_nat (S m))); [lia | ].
  replace (fMin && (0 <? Z.of_nat (S m)) && _) with false.
  2: { destruct fMin; [ | done]. rewrite (proj2 (minimally_encoded_spec m s a Ha)) by auto.
       by rewrite andb_false_r. }
  f_equal. apply set_vch_spec; [lia | done].
Qed.

(** Inverting a successful decoding. *)
Lemma CScriptNum_inv vch fMin size n : are_bytes vch -> size <= 7 ->
  CScriptNum vch fMin size = Ok n ->
  vch = [] /\ n = 0 \/
  exists m s a, vch = le_encode (S m) (sign_mag (S m) s a) /\ Z.of_nat (S m) <= size /\
    0 <= a < 2 ^ (8 * Z.of_nat (S m) - 1) /\ n = (if s then - a else a) /\
    (fMin = true -> needs_bytes (S m) a).
Proof.
  intros Hb Hs H. unfold CScriptNum in H. destruct (Z.ltb_spec size (vsize vch)) as [? | Hl]; [done | ].
  destruct (fMin && (0 <? vsize vch) && negb (minimally_encoded vch)) eqn:Emin; [done | ].
  injection H as <-. destruct (decide (vch = [])) as [-> | Hne]; [by left | right].
  destruct (vch_sign_mag vch Hb Hne) as (s & a & Ha & E). unfold vsize in *.
  destruct (length vch) as [ | m] eqn:El; [by destruct vch | ].
  exists m, s, a. rewrite E. split; [done | ]. split; [done | ]. split; [done | ].
  split; [apply set_vch_spec; [lia | done] | ]. intros ->.
  apply (minimally_encoded_spec m s a Ha). rewrite <- E.
  destruct (minimally_encoded vch); [done | ]. destruct (Z.ltb_spec 0 (Z.of_nat (S m))); [done | lia].
Qed.

(** Script numbers are one-to-one: with a size limit of at most seven bytes, a value whose
    magnitude fits the limit is encoded within it and decoded to itself with minimality
    required; and every byte vector accepted with minimality required is the encoding of the
    value it decodes to. *)
Theorem CScriptNum_one_to_one size :
  0 < size <= 7 ->
  (forall n, Z.abs n < 2 ^ (8 * size - 1) ->
     vsize (serialize n) <= size /\ CScriptNum (serialize n) true size = Ok n) /\
  (forall vch n, are_bytes vch -> CScriptNum vch true size = Ok n -> vch = serialize n).
Proof.
  intros Hs. assert (Hp : 2 ^ (8 * size - 1) <= 2 ^ 55) by (apply Z.pow_le_mono_r; lia). split.
  - intros n Hn. destruct (decide (n = 0)) as [-> | Hne].
    { unfold CScriptNum. simpl vsize. split; [unfold vsize; simpl; lia | ].
      destruct (Z.ltb_spec size (vsize (serialize 0))) as [H | _]; [unfold vsize in H; simpl in H; lia | done]. }
    destruct (serialize_form n Hne) as (m & Hm & E & Hlt & Hneed); [lia | ].
    assert (Hsm : Z.of_nat (S m) <= size).
    { destruct m as [ | m]; [lia | ].
      change (needs_bytes (S (S m)) (Z.abs n)) with (2 ^ (8 * Z.of_nat (S m) - 1) <= Z.abs n) in Hneed.
      assert (8 * Z.of_nat (S m) - 1 < 8 * size - 1) by (apply (Z.pow_lt_mono_r_iff 2); lia). lia. }
    rewrite E. split; [unfold vsize; rewrite le_encode_length; lia | ].
    rewrite CScriptNum_sign_mag by (done || lia). f_equal. destruct (Z.ltb_spec n 0); lia.
  - intros vch n Hb H. apply CScriptNum_inv in H as [[-> ->] | (m & s & a & -> & Hm & Ha & -> & Hneed)];
      [done | | done | lia].
    specialize (Hneed eq_refl). assert (0 < a).
    { destruct m as [ | m]; [done | ]. cbn [needs_bytes] in Hneed. 
      assert (0 < 2 ^ (8 * Z.of_nat (S m) - 1)) by (apply Z.pow_pos_nonneg; lia). lia. }
    assert (Hp' : 2 ^ (8 * Z.of_nat (S m) - 1) <= 2 ^ 55) by (apply Z.pow_le_mono_r; lia).
    destruct (serialize_form (if s then - a else a)) as (m' & Hm' & E & Hlt' & Hneed'); [destruct s; lia.. | ].
    replace (Z.abs (if s then - a else a)) with a in * by (destruct s; lia).
    replace ((if s then - a else a) <? 0) with s in E by (destruct s; lia).
    by rewrite E, (needs_bytes_unique (S m) (S m') a).
Qed.

Lemma CScriptNum_one_to_one_witness :
  CScriptNum (serialize (-255)) true 4 = Ok (-255) /\ [0xff; 0x80] = serialize (-255).
Proof.
  destruct (CScriptNum_one_to_one 4) as [H1 H2]; [lia | ].
  split; [apply H1; lia | apply H2; [repeat constructor; unfold is_byte; lia | vm_compute; reflexivity]].
Defined.

(** Operand range and failures: decoding with a limit of [size] bytes fails with the
    overflow error exactly for longer vectors, never fails otherwise unless minimality is
    required, and yields a magnitude below [2^(8 size - 1)] (so numeric opcodes see operands in
    [-2^31 + 1 .. 2^31 - 1], as documented); [getint] leaves such operands unchanged, and
    negating, adding or subtracting two of them never fails an assertion and is exact. *)
Theorem numeric_operand_range vch fRequireMinimal size :
  are_bytes vch -> 0 < size <= 7 ->
  match CScriptNum vch fRequireMinimal size with
  | Err e => e = ScriptNumberOverflow /\ size < vsize vch \/
             e = NonMinimallyEncoded /\ fRequireMinimal = true /\ vsize vch <= size
  | Ok n => vsize vch <= size /\ Z.abs n < 2 ^ (8 * size - 1) /\
      (size = nDefaultMaxNumSize -> getint n = n) /\
      op_neg n = Some (- n) /\
      forall n', Z.abs n' < 2 ^ (8 * size - 1) ->
        op_add_assign n n' = Some (n + n') /\ op_sub_assign n n' = Some (n - n')
  end.
Proof.
  intros Hb Hs. destruct (CScriptNum vch fRequireMinimal size) as [n | e] eqn:E.
  - assert (Hl : vsize vch <= size).
    { unfold CScriptNum in E. destruct (Z.ltb_spec size (vsize vch)); [done | lia]. }
    assert (Hp : 2 ^ (8 * size - 1) <= 2 ^ 55) by (apply Z.pow_le_mono_r; lia).
    assert (Hn : Z.abs n < 2 ^ (8 * size - 1)).
    { apply CScriptNum_inv in E as [[-> ->] | (m & s & a & _ & Hm & Ha & -> & _)]; [ | | done | lia].
      - apply Z.pow_pos_nonneg; lia.
      - assert (2 ^ (8 * Z.of_nat (S m) - 1) <= 2 ^ (8 * size - 1)) by (apply Z.pow_le_mono_r; lia).
        destruct s; lia. }
    unfold getint, op_neg, op_add_assign, op_sub_assign, INT32_MAX, INT32_MIN, INT64_MIN, INT64_MAX.
    split; [done | ]. split; [done | ]. split; [ | split].
    + intros ->. unfold nDefaultMaxNumSize in *. change (8 * 4 - 1) with 31 in Hn. zcases.
    + destruct (Z.eqb_spec n (- 2 ^ 63)); [lia | done].
    + intros n' Hn'. split.
      * replace (_ || _) with true by lia. done.
      * replace (_ || _) with true by lia. done.
  - unfold CScriptNum in E. destruct (Z.ltb_spec size (vsize vch)); [left; split; congruence | right].
    destruct fRequireMinimal; [ | done]. simpl in E.
    destruct ((0 <? vsize vch) && _); [ | done]. split_and!; [congruence | done | lia].
Qed.

Lemma numeric_operand_range_witness :
  CScriptNum [0xff; 0xff; 0xff; 0xff] true 4 = Ok (-2147483647) /\
  op_sub_assign (-2147483647) 2147483647 = Some (-2147483647 - 2147483647).
Proof.
  pose proof (numeric_operand_range [0xff; 0xff; 0xff; 0xff] true 4) as H.
  change (CScriptNum [0xff; 0xff; 0xff; 0xff] true 4) with (@Ok scriptnum_error Z (-2147483647)) in *.
  split; [reflexivity | ]. destruct H as (_ & _ & _ & _ & H).
  - repeat constructor; unfold is_byte; lia.
  - lia.
  - apply H. lia.
Defined.
