(* ===== verification/Script.v ===== *)
(** * Scripts ([src/script/script.h], [src/script/script.cpp])

    Opcodes, the instruction decoder [GetScriptOp], the pushing operators of [CScript], the
    signature-operation counts and the pattern tests on scripts.  A script is its list of
    bytes; an iterator [pc] into it is the list of the bytes from [pc] to the end.  Theorems:
    decoding makes progress and inverts pushing; scripts assembled from instructions decode to
    them; counts are bounded, additive and monotone in accuracy; the pattern tests accept
    exactly the scripts of their shape. *)

From S2P Require Import Prelude ScriptNum.
Open Scope Z_scope.

(** ** Definitions *)

(** The enumeration is used as an integer: a decoded byte is cast to it whatever its value. *)
Abbreviation opcodetype := Z (only parsing).

Definition OP_0 : opcodetype := 0x00.
Definition OP_FALSE : opcodetype := OP_0.
Definition OP_PUSHDATA1 : opcodetype := 0x4c.
Definition OP_PUSHDATA2 : opcodetype := 0x4d.
Definition OP_PUSHDATA4 : opcodetype := 0x4e.
Definition OP_1NEGATE : opcodetype := 0x4f.
Definition OP_RESERVED : opcodetype := 0x50.
Definition OP_1 : opcodetype := 0x51.
Definition OP_TRUE : opcodetype := OP_1.
Definition OP_2 : opcodetype := 0x52.
Definition OP_3 : opcodetype := 0x53.
Definition OP_4 : opcodetype := 0x54.
Definition OP_5 : opcodetype := 0x55.
Definition OP_6 : opcodetype := 0x56.
Definition OP_7 : opcodetype := 0x57.
Definition OP_8 : opcodetype := 0x58.
Definition OP_9 : opcodetype := 0x59.
Definition OP_10 : opcodetype := 0x5a.
Definition OP_11 : opcodetype := 0x5b.
Definition OP_12 : opcodetype := 0x5c.
Definition OP_13 : opcodetype := 0x5d.
Definition OP_14 : opcodetype := 0x5e.
Definition OP_15 : opcodetype := 0x5f.
Definition OP_16 : opcodetype := 0x60.
Definition OP_NOP : opcodetype := 0x61.
Definition OP_VER : opcodetype := 0x62.
Definition OP_IF : opcodetype := 0x63.
Definition OP_NOTIF : opcodetype := 0x64.
Definition OP_VERIF : opcodetype := 0x65.
Definition OP_VERNOTIF : opcodetype := 0x66.
Definition OP_ELSE : opcodetype := 0x67.
Definition OP_ENDIF : opcodetype := 0x68.
Definition OP_VERIFY : opcodetype := 0x69.
Definition OP_RETURN : opcodetype := 0x6a.
Definition OP_TOALTSTACK : opcodetype := 0x6b.
Definition OP_FROMALTSTACK : opcodetype := 0x6c.
Definition OP_2DROP : opcodetype := 0x6d.
Definition OP_2DUP : opcodetype := 0x6e.
Definition OP_3DUP : opcodetype := 0x6f.
Definition OP_2OVER : opcodetype := 0x70.
Definition OP_2ROT : opcodetype := 0x71.
Definition OP_2SWAP : opcodetype := 0x72.
Definition OP_IFDUP : opcodetype := 0x73.
Definition OP_DEPTH : opcodetype := 0x74.
Definition OP_DROP : opcodetype := 0x75.
Definition OP_DUP : opcodetype := 0x76.
Definition OP_NIP : opcodetype := 0x77.
Definition OP_OVER : opcodetype := 0x78.
Definition OP_PICK : opcodetype := 0x79.
Definition OP_ROLL : opcodetype := 0x7a.
Definition OP_ROT : opcodetype := 0x7b.
Definition OP_SWAP : opcodetype := 0x7c.
Definition OP_TUCK : opcodetype := 0x7d.
Definition OP_CAT : opcodetype := 0x7e.
Definition OP_SUBSTR : opcodetype := 0x7f.
Definition OP_LEFT : opcodetype := 0x80.
Definition OP_RIGHT : opcodetype := 0x81.
Definition OP_SIZE : opcodetype := 0x82.
Definition OP_INVERT : opcodetype := 0x83.
Definition OP_AND : opcodetype := 0x84.
Definition OP_OR : opcodetype := 0x85.
Definition OP_XOR : opcodetype := 0x86.
Definition OP_EQUAL : opcodetype := 0x87.
Definition OP_EQUALVERIFY : opcodetype := 0x88.
Definition OP_RESERVED1 : opcodetype := 0x89.
Definition OP_RESERVED2 : opcodetype := 0x8a.
Definition OP_1ADD : opcodetype := 0x8b.
Definition OP_1SUB : opcodetype := 0x8c.
Definition OP_2MUL : opcodetype := 0x8d.
Definition OP_2DIV : opcodetype := 0x8e.
Definition OP_NEGATE : opcodetype := 0x8f.
Definition OP_ABS : opcodetype := 0x90.
Definition OP_NOT : opcodetype := 0x91.
Definition OP_0NOTEQUAL : opcodetype := 0x92.
Definition OP_ADD : opcodetype := 0x93.
Definition OP_SUB : opcodetype := 0x94.
Definition OP_MUL : opcodetype := 0x95.
Definition OP_DIV : opcodetype := 0x96.
Definition OP_MOD : opcodetype := 0x97.
Definition OP_LSHIFT : opcodetype := 0x98.
Definition OP_RSHIFT : opcodetype := 0x99.
Definition OP_BOOLAND : opcodetype := 0x9a.
Definition OP_BOOLOR : opcodetype := 0x9b.
Definition OP_NUMEQUAL : opcodetype := 0x9c.
Definition OP_NUMEQUALVERIFY : opcodetype := 0x9d.
Definition OP_NUMNOTEQUAL : opcodetype := 0x9e.
Definition OP_LESSTHAN : opcodetype := 0x9f.
Definition OP_GREATERTHAN : opcodetype := 0xa0.
Definition OP_LESSTHANOREQUAL : opcodetype := 0xa1.
Definition OP_GREATERTHANOREQUAL : opcodetype := 0xa2.
Definition OP_MIN : opcodetype := 0xa3.
Definition OP_MAX : opcodetype := 0xa4.
Definition OP_WITHIN : opcodetype := 0xa5.
Definition OP_RIPEMD160 : opcodetype := 0xa6.
Definition OP_SHA1 : opcodetype := 0xa7.
Definition OP_SHA256 : opcodetype := 0xa8.
Definition OP_HASH160 : opcodetype := 0xa9.
Definition OP_HASH256 : opcodetype := 0xaa.
Definition OP_CODESEPARATOR : opcodetype := 0xab.
Definition OP_CHECKSIG : opcodetype := 0xac.
Definition OP_CHECKSIGVERIFY : opcodetype := 0xad.
Definition OP_CHECKMULTISIG : opcodetype := 0xae.
Definition OP_CHECKMULTISIGVERIFY : opcodetype := 0xaf.
Definition OP_NOP1 : opcodetype := 0xb0.
Definition OP_CHECKLOCKTIMEVERIFY : opcodetype := 0xb1.
Definition OP_NOP2 : opcodetype := OP_CHECKLOCKTIMEVERIFY.
Definition OP_CHECKSEQUENCEVERIFY : opcodetype := 0xb2.
Definition OP_NOP3 : opcodetype := OP_CHECKSEQUENCEVERIFY.
Definition OP_NOP4 : opcodetype := 0xb3.
Definition OP_NOP5 : opcodetype := 0xb4.
Definition OP_NOP6 : opcodetype := 0xb5.
Definition OP_NOP7 : opcodetype := 0xb6.
Definition OP_NOP8 : opcodetype := 0xb7.
Definition OP_NOP9 : opcodetype := 0xb8.
Definition OP_NOP10 : opcodetype := 0xb9.
Definition OP_CREATE : opcodetype := 0xc1.
Definition OP_CALL : opcodetype := 0xc2.
Definition OP_SPEND : opcodetype := 0xc3.
Definition OP_GAS_PRICE : opcodetype := 0xf5.
Definition OP_VERSION : opcodetype := 0xf6.
Definition OP_GAS_LIMIT : opcodetype := 0xf7.
Definition OP_DATA : opcodetype := 0xf8.
Definition OP_SMALLINTEGER : opcodetype := 0xfa.
Definition OP_PUBKEYS : opcodetype := 0xfb.
Definition OP_PUBKEYHASH : opcodetype := 0xfd.
Definition OP_PUBKEY : opcodetype := 0xfe.
Definition OP_INVALIDOPCODE : opcodetype := 0xff.
Definition MAX_OPCODE : Z := OP_NOP10.

Definition MAX_SCRIPT_ELEMENT_SIZE : Z := 128000.
Definition MAX_OPS_PER_SCRIPT : Z := 201.
Definition MAX_PUBKEYS_PER_MULTISIG : Z := 20.
Definition MAX_SCRIPT_SIZE : Z := 129000.
Definition MAX_STACK_SIZE : Z := 1000.
Definition LOCKTIME_THRESHOLD : Z := 500000000.

Abbreviation CScript := bytes (only parsing).

(** [GetScriptOp(pc, end, opcodeRet, &vchRet)]: the opcode, the operand and the new [pc]; on
    failure no caller uses the first two, and [failed_pc] of [SigHash.v] is what is left of [pc]. *)
Definition GetScriptOp (pc : bytes) : option (opcodetype * bytes * bytes) :=
  match pc with
  | [] => None
  | opcode :: pc =>
      if opcode <=? OP_PUSHDATA4 then
        let size_pc :=
          if opcode <? OP_PUSHDATA1 then Some (opcode, pc)
          else if opcode =? OP_PUSHDATA1 then
            if vsize pc <? 1 then None else Some (le_decode (take 1 pc), drop 1 pc)
          else if opcode =? OP_PUSHDATA2 then
            if vsize pc <? 2 then None else Some (le_decode (take 2 pc), drop 2 pc)
          else
            if vsize pc <? 4 then None else Some (le_decode (take 4 pc), drop 4 pc) in
        match size_pc with
        | None => None
        | Some (nSize, pc) =>
            if u32 (vsize pc) <? nSize then None
            else Some (opcode, take (Z.to_nat nSize) pc, drop (Z.to_nat nSize) pc)
        end
      else Some (opcode, [], pc)
  end.

(** *** Building scripts *)

(** [operator<<(const std::vector<unsigned char>& b)]: what is appended. *)
Definition push_data (b : bytes) : bytes :=
  (if vsize b <? OP_PUSHDATA1 then [u8 (vsize b)]
   else if vsize b <=? 0xff then [OP_PUSHDATA1; u8 (vsize b)]
   else if vsize b <=? 0xffff then OP_PUSHDATA2 :: le_encode 2 (vsize b)
   else OP_PUSHDATA4 :: le_encode 4 (vsize b)) ++ b.

(** [operator<<(opcodetype)]; [None] is the invalid-opcode exception. *)
Definition push_op (opcode : opcodetype) : option bytes :=
  if (opcode <? 0) || (0xff <? opcode) then None else Some [opcode].

(** [push_int64], behind [operator<<(int64_t)] *)
Definition push_int64 (n : Z) : bytes :=
  if (n =? -1) || ((1 <=? n) && (n <=? 16)) then [u8 (n + (OP_1 - 1))]
  else if n =? 0 then [OP_0]
  else push_data (serialize n).

(** [DecodeOP_N], [EncodeOP_N]; [None] is a failed assertion. *)
Definition DecodeOP_N (opcode : opcodetype) : option Z :=
  if opcode =? OP_0 then Some 0
  else if (OP_1 <=? opcode) && (opcode <=? OP_16) then Some (opcode - (OP_1 - 1)) else None.
Definition EncodeOP_N (n : Z) : option opcodetype :=
  if (0 <=? n) && (n <=? 16) then Some (if n =? 0 then OP_0 else OP_1 + n - 1) else None.

(** *** Loops over the instructions

    Each loop decodes until the end or a failure.  The fuel is the number of bytes left, and an
    instruction takes at least one. *)

Fixpoint Find_loop (fuel : nat) (op : opcodetype) (pc : bytes) (nFound : Z) : Z :=
  match fuel, GetScriptOp pc with
  | S fuel, Some (opcode, _, pc) =>
      Find_loop fuel op pc (if opcode =? op then nFound + 1 else nFound)
  | _, _ => nFound
  end.
Definition Find (script : CScript) (op : opcodetype) : Z := Find_loop (length script) op script 0.

Fixpoint GetSigOpCount_loop (fuel : nat) (fAccurate : bool) (lastOpcode : opcodetype) (pc : bytes)
  (n : Z) : Z :=
  match fuel, GetScriptOp pc with
  | S fuel, Some (opcode, _, pc) =>
      let n :=
        if (opcode =? OP_CHECKSIG) || (opcode =? OP_CHECKSIGVERIFY) then n + 1
        else if (opcode =? OP_CHECKMULTISIG) || (opcode =? OP_CHECKMULTISIGVERIFY) then
          if fAccurate && (OP_1 <=? lastOpcode) && (lastOpcode <=? OP_16)
          then n + default 0 (DecodeOP_N lastOpcode)
          else n + MAX_PUBKEYS_PER_MULTISIG
        else n in
      GetSigOpCount_loop fuel fAccurate opcode pc n
  | _, _ => n
  end.
Definition GetSigOpCount (script : CScript) (fAccurate : bool) : Z :=
  GetSigOpCount_loop (length script) fAccurate OP_INVALIDOPCODE script 0.

Definition sbyte (s : CScript) (i : Z) : Z := byte_at s i.

Definition IsPayToScriptHash (s : CScript) : bool :=
  (vsize s =? 23) && (sbyte s 0 =? OP_HASH160) && (sbyte s 1 =? 0x14) && (sbyte s 22 =? OP_EQUAL).

(** The data the last push of [scriptSig] leaves; [None] where the source returns 0. *)
Fixpoint last_push (fuel : nat) (pc vData : bytes) : option bytes :=
  match pc, fuel with
  | [], _ => Some vData
  | _, O => None
  | _, S fuel =>
      match GetScriptOp pc with
      | None => None
      | Some (opcode, vData, pc) => if OP_16 <? opcode then None else last_push fuel pc vData
      end
  end.

(** [GetSigOpCount(const CScript& scriptSig)] *)
Definition GetSigOpCount_P2SH (script scriptSig : CScript) : Z :=
  if negb (IsPayToScriptHash script) then GetSigOpCount script true
  else match last_push (length scriptSig) scriptSig [] with
       | None => 0
       | Some vData => GetSigOpCount vData true
       end.

Definition IsPayToPubkey (s : CScript) : bool :=
  if (vsize s =? 35) && (sbyte s 0 =? 33) && (sbyte s 34 =? OP_CHECKSIG)
     && ((sbyte s 1 =? 0x02) || (sbyte s 1 =? 0x03)) then true
  else if (vsize s =? 67) && (sbyte s 0 =? 65) && (sbyte s 66 =? OP_CHECKSIG) && (sbyte s 1 =? 0x04)
  then true else false.

Definition IsPayToPubkeyHash (s : CScript) : bool :=
  (vsize s =? 25) && (sbyte s 0 =? OP_DUP) && (sbyte s 1 =? OP_HASH160) && (sbyte s 2 =? 0x14)
  && (sbyte s 23 =? OP_EQUALVERIFY) && (sbyte s 24 =? OP_CHECKSIG).

Definition IsPayToWitnessScriptHash (s : CScript) : bool :=
  (vsize s =? 34) && (sbyte s 0 =? OP_0) && (sbyte s 1 =? 0x20).

(** [IsWitnessProgram(version, program)]: the outputs when it returns true. *)
Definition IsWitnessProgram (s : CScript) : option (Z * bytes) :=
  if (vsize s <? 4) || (42 <? vsize s) then None
  else if negb (sbyte s 0 =? OP_0) && ((sbyte s 0 <? OP_1) || (OP_16 <? sbyte s 0)) then None
  else if sbyte s 1 + 2 =? vsize s then
    match DecodeOP_N (sbyte s 0) with
    | Some version => Some (version, drop 2 s)
    | None => None
    end
  else None.

Fixpoint IsPushOnly_loop (fuel : nat) (pc : bytes) : bool :=
  match pc, fuel with
  | [], _ => true
  | _, O => false
  | _, S fuel =>
      match GetScriptOp pc with
      | None => false
      | Some (opcode, _, pc) => if OP_16 <? opcode then false else IsPushOnly_loop fuel pc
      end
  end.
Definition IsPushOnly (s : CScript) : bool := IsPushOnly_loop (length s) s.

Fixpoint HasValidOps_loop (fuel : nat) (pc : bytes) : bool :=
  match pc, fuel with
  | [], _ => true
  | _, O => false
  | _, S fuel =>
      match GetScriptOp pc with
      | None => false
      | Some (opcode, item, pc) =>
          if (MAX_OPCODE <? opcode) || (MAX_SCRIPT_ELEMENT_SIZE <? vsize item) then false
          else HasValidOps_loop fuel pc
      end
  end.
Definition HasValidOps (s : CScript) : bool := HasValidOps_loop (length s) s.

Definition IsUnspendable (s : CScript) : bool :=
  ((0 <? vsize s) && (sbyte s 0 =? OP_RETURN)) || (MAX_SCRIPT_SIZE <? vsize s).

Definition HasOpCreate (s : CScript) : bool := Find s OP_CREATE =? 1.
Definition HasOpCall (s : CScript) : bool := Find s OP_CALL =? 1.
Definition HasOpSpend (s : CScript) : bool := (vsize s =? 1) && (sbyte s 0 =? OP_SPEND).

(** [CScriptWitness] *)
Definition CScriptWitness : Type := list bytes.
Definition witness_IsNull (w : CScriptWitness) : bool := bool_decide (w = []).

Create HintDb opcodes.
#[global] Hint Unfold OP_0 OP_FALSE OP_PUSHDATA1 OP_PUSHDATA2 OP_PUSHDATA4 OP_1NEGATE
  OP_RESERVED OP_1 OP_TRUE OP_2 OP_3 OP_4 OP_5 OP_6 OP_7 OP_8 OP_9 OP_10 OP_11 OP_12 OP_13
  OP_14 OP_15 OP_16 OP_NOP OP_VER OP_IF OP_NOTIF OP_VERIF OP_VERNOTIF OP_ELSE OP_ENDIF
  OP_VERIFY OP_RETURN OP_TOALTSTACK OP_FROMALTSTACK OP_2DROP OP_2DUP OP_3DUP OP_2OVER OP_2ROT
  OP_2SWAP OP_IFDUP OP_DEPTH OP_DROP OP_DUP OP_NIP OP_OVER OP_PICK OP_ROLL OP_ROT OP_SWAP
  OP_TUCK OP_CAT OP_SUBSTR OP_LEFT OP_RIGHT OP_SIZE OP_INVERT OP_AND OP_OR OP_XOR OP_EQUAL
  OP_EQUALVERIFY OP_RESERVED1 OP_RESERVED2 OP_1ADD OP_1SUB OP_2MUL OP_2DIV OP_NEGATE OP_ABS
  OP_NOT OP_0NOTEQUAL OP_ADD OP_SUB OP_MUL OP_DIV OP_MOD OP_LSHIFT OP_RSHIFT OP_BOOLAND
  OP_BOOLOR OP_NUMEQUAL OP_NUMEQUALVERIFY OP_NUMNOTEQUAL OP_LESSTHAN OP_GREATERTHAN
  OP_LESSTHANOREQUAL OP_GREATERTHANOREQUAL OP_MIN OP_MAX OP_WITHIN OP_RIPEMD160 OP_SHA1
  OP_SHA256 OP_HASH160 OP_HASH256 OP_CODESEPARATOR OP_CHECKSIG OP_CHECKSIGVERIFY
  OP_CHECKMULTISIG OP_CHECKMULTISIGVERIFY OP_NOP1 OP_CHECKLOCKTIMEVERIFY OP_NOP2
  OP_CHECKSEQUENCEVERIFY OP_NOP3 OP_NOP4 OP_NOP5 OP_NOP6 OP_NOP7 OP_NOP8 OP_NOP9 OP_NOP10
  OP_CREATE OP_CALL OP_SPEND OP_GAS_PRICE OP_VERSION OP_GAS_LIMIT OP_DATA OP_SMALLINTEGER
  OP_PUBKEYS OP_PUBKEYHASH OP_PUBKEY OP_INVALIDOPCODE MAX_OPCODE : opcodes.

(** Opcodes as the numbers they are. *)
Ltac unop := repeat autounfold with opcodes in *.

(** ** Theorems *)

(** *** Decoding *)

Lemma take_le_decode_bound n l : are_bytes l -> (n <= length l)%nat ->
  0 <= le_decode (take n l) < 2 ^ (8 * Z.of_nat n).
Proof.
  intros Hb Hn. pose proof (le_decode_bound (take n l) (Forall_take _ _ _ Hb)) as H.
  unfold vsize in H. by rewrite length_take, Nat.min_l in H by lia.
Qed.

Lemma GetScriptOp_suffix pc o d pc' :
  GetScriptOp pc = Some (o, d, pc') ->
  exists used, pc = o :: used ++ pc' /\ exists pre, used = pre ++ d.
Proof.
  unfold GetScriptOp. destruct pc as [ | b pc]; [done | ].
  destruct (b <=? OP_PUSHDATA4); intros H.
  2: { injection H as <- <- <-. exists []. split; [done | by exists []]. }
  match type of H with match ?e with _ => _ end = _ => destruct e as [[nSize q] | ] eqn:E; [ | done] end.
  destruct (_ <? nSize); [done | ]. injection H as <- <- <-.
  assert (exists pre, pc = pre ++ q) as [pre ->].
  { repeat match type of E with (if ?c then _ else _) = _ => destruct c end; try done;
      injection E as _ <-; [by exists [] | eexists; symmetry; apply take_drop ..]. }
  exists (pre ++ take (Z.to_nat nSize) q). split; [ | by eexists].
  by rewrite <- app_assoc, take_drop.
Qed.

Lemma GetScriptOp_shorter pc o d pc' :
  GetScriptOp pc = Some (o, d, pc') -> (length pc' < length pc)%nat.
Proof.
  intros H. apply GetScriptOp_suffix in H as (used & -> & _).
  simpl. rewrite length_app. lia.
Qed.

Lemma GetScriptOp_bytes pc o d pc' : are_bytes pc -> GetScriptOp pc = Some (o, d, pc') ->
  is_byte o /\ are_bytes d /\ are_bytes pc'.
Proof.
  intros Hb H. apply GetScriptOp_suffix in H as (used & -> & pre & ->).
  apply Forall_cons in Hb as [Ho Hb]. rewrite !Forall_app in Hb. by destruct Hb as [[_ ?] ?].
Qed.

(** Pushing opcodes by the size of what they push. *)
Definition push_opcode (n : Z) : opcodetype :=
  if n <? OP_PUSHDATA1 then n
  else if n <=? 0xff then OP_PUSHDATA1
  else if n <=? 0xffff then OP_PUSHDATA2 else OP_PUSHDATA4.

Lemma GetScriptOp_push b rest : vsize (b ++ rest) < 2 ^ 32 ->
  GetScriptOp (push_data b ++ rest) = Some (push_opcode (vsize b), b, rest).
Proof.
  intros Hl. rewrite vsize_app in Hl. pose proof (vsize_nonneg b) as Hb. pose proof (vsize_nonneg rest).
  assert (Hbody : (if u32 (vsize (b ++ rest)) <? vsize b then None
     else Some (push_opcode (vsize b), take (Z.to_nat (vsize b)) (b ++ rest),
                drop (Z.to_nat (vsize b)) (b ++ rest))) = Some (push_opcode (vsize b), b, rest)).
  { rewrite vsize_app, u32_id by lia. destruct (Z.ltb_spec (vsize b + vsize rest) (vsize b)); [lia | ].
    unfold vsize. by rewrite Nat2Z.id, take_app_length, drop_app_length. }
  unfold push_data. unfold push_opcode in *.
  destruct (Z.ltb_spec (vsize b) OP_PUSHDATA1) as [H1 | H1];
    [ | destruct (Z.leb_spec (vsize b) 0xff) as [H2 | H2];
        [ | destruct (Z.leb_spec (vsize b) 0xffff) as [H3 | H3]]].
  all: rewrite <- app_assoc; cbn [app GetScriptOp].
  - replace (u8 (vsize b)) with (vsize b) by (symmetry; apply Z.mod_small; unop; lia).
    destruct (Z.leb_spec (vsize b) OP_PUSHDATA4); [ | unop; lia].
    destruct (Z.ltb_spec (vsize b) OP_PUSHDATA1); [ | lia]. exact Hbody.
  - change (OP_PUSHDATA1 <=? OP_PUSHDATA4) with true. change (OP_PUSHDATA1 <? OP_PUSHDATA1) with false.
    change (OP_PUSHDATA1 =? OP_PUSHDATA1) with true. cbv iota.
    rewrite vsize_cons, vsize_app. destruct (Z.ltb_spec (1 + (vsize b + vsize rest)) 1); [lia | ].
    cbn [take drop]. unfold le_decode. rewrite Z.mul_0_r, Z.add_0_r.
    replace (u8 (vsize b)) with (vsize b) by (symmetry; apply Z.mod_small; lia).
    rewrite drop_0. exact Hbody.
  - change (OP_PUSHDATA2 <=? OP_PUSHDATA4) with true. change (OP_PUSHDATA2 <? OP_PUSHDATA1) with false.
    change (OP_PUSHDATA2 =? OP_PUSHDATA1) with false. change (OP_PUSHDATA2 =? OP_PUSHDATA2) with true.
    cbv iota. rewrite vsize_app. replace (vsize (le_encode 2 (vsize b))) with 2 by done.
    destruct (Z.ltb_spec (2 + vsize (b ++ rest)) 2); [rewrite vsize_app in *; lia | ].
    rewrite (take_app_length' (le_encode 2 (vsize b))), (drop_app_length' (le_encode 2 (vsize b))) by done.
    rewrite le_decode_encode, Z.mod_small by (change (8 * Z.of_nat 2) with 16; lia). exact Hbody.
  - change (OP_PUSHDATA4 <=? OP_PUSHDATA4) with true. change (OP_PUSHDATA4 <? OP_PUSHDATA1) with false.
    change (OP_PUSHDATA4 =? OP_PUSHDATA1) with false. change (OP_PUSHDATA4 =? OP_PUSHDATA2) with false.
    cbv iota. rewrite vsize_app. replace (vsize (le_encode 4 (vsize b))) with 4 by done.
    destruct (Z.ltb_spec (4 + vsize (b ++ rest)) 4); [rewrite vsize_app in *; lia | ].
    rewrite (take_app_length' (le_encode 4 (vsize b))), (drop_app_length' (le_encode 4 (vsize b))) by done.
    rewrite le_decode_encode, Z.mod_small by (change (8 * Z.of_nat 4) with 32; lia). exact Hbody.
Qed.

Lemma push_data_bytes b : are_bytes b -> are_bytes (push_data b).
Proof.
  intros Hb. unfold push_data, u8. unop. apply Forall_app. split; [ | done].
  assert (forall z, is_byte (z mod 2 ^ 8)) by (intros; apply Z.mod_pos_bound; lia).
  repeat match goal with |- context [if ?c then _ else _] => destruct c end;
    repeat (apply Forall_cons; split); try done; try apply le_encode_bytes; unfold is_byte; lia.
Qed.

#[global] Arguments GetScriptOp : simpl never.

(** *** Whole scripts *)

(** The instructions of a script up to its end or the first failure, and whether the end was
    reached: what every loop of the source walks over. *)
Fixpoint decode_loop (fuel : nat) (pc : bytes) : list (opcodetype * bytes) * bool :=
  match pc, fuel with
  | [], _ => ([], true)
  | _, O => ([], false)
  | _, S fuel =>
      match GetScriptOp pc with
      | None => ([], false)
      | Some (o, d, pc) => let '(l, ok) := decode_loop fuel pc in ((o, d) :: l, ok)
      end
  end.
Definition decode (s : CScript) : list (opcodetype * bytes) * bool := decode_loop (length s) s.

Lemma decode_loop_fuel f f' pc : (length pc <= f)%nat -> (length pc <= f')%nat ->
  decode_loop f pc = decode_loop f' pc.
Proof.
  revert f' pc. induction f as [ | f IH]; intros [ | f'] [ | b pc] Hf Hf'; try done; simpl length in *; try lia.
  cbn [decode_loop].
  destruct (GetScriptOp (b :: pc)) as [[[o d] pc'] | ] eqn:E; [ | done].
  apply GetScriptOp_shorter in E. simpl in E. by rewrite (IH f') by lia.
Qed.

Lemma decode_cons pc o d pc' : GetScriptOp pc = Some (o, d, pc') ->
  decode pc = let '(l, ok) := decode pc' in ((o, d) :: l, ok).
Proof.
  intros E. pose proof (GetScriptOp_shorter _ _ _ _ E) as Hl. unfold decode.
  destruct pc as [ | b pc]; [done | ]. cbn [length decode_loop]. rewrite E. simpl length in Hl.
  by rewrite (decode_loop_fuel (length pc) (length pc')) by lia.
Qed.

Lemma decode_fail pc : pc <> [] -> GetScriptOp pc = None -> decode pc = ([], false).
Proof. intros Hne E. unfold decode. destruct pc; [done | ]. cbn [length decode_loop]. by rewrite E. Qed.

(** The loops of the source as functions of the instructions. *)
Definition sigops_step (fAccurate : bool) (acc : opcodetype * Z) (i : opcodetype * bytes) : opcodetype * Z :=
  let '(lastOpcode, n) := acc in
  let opcode := fst i in
  (opcode,
   if (opcode =? OP_CHECKSIG) || (opcode =? OP_CHECKSIGVERIFY) then n + 1
   else if (opcode =? OP_CHECKMULTISIG) || (opcode =? OP_CHECKMULTISIGVERIFY) then
     if fAccurate && (OP_1 <=? lastOpcode) && (lastOpcode <=? OP_16)
     then n + default 0 (DecodeOP_N lastOpcode)
     else n + MAX_PUBKEYS_PER_MULTISIG
   else n).

Lemma GetSigOpCount_loop_decode f acc last pc n : (length pc <= f)%nat ->
  GetSigOpCount_loop f acc last pc n =
  snd (foldl (sigops_step acc) (last, n) (fst (decode_loop f pc))).
Proof.
  revert last pc n. induction f as [ | f IH]; intros last [ | b pc] n Hf; try done; simpl in Hf; try lia.
  cbn [GetSigOpCount_loop decode_loop].
  destruct (GetScriptOp (b :: pc)) as [[[o d] pc'] | ] eqn:E; [ | done].
  apply GetScriptOp_shorter in E. simpl in E. rewrite IH by lia.
  destruct (decode_loop f pc') as [l ok]. done.
Qed.

Lemma GetSigOpCount_decode s acc :
  GetSigOpCount s acc = snd (foldl (sigops_step acc) (OP_INVALIDOPCODE, 0) (fst (decode s))).
Proof. apply GetSigOpCount_loop_decode. lia. Qed.

Lemma IsPushOnly_loop_decode f pc : (length pc <= f)%nat ->
  IsPushOnly_loop f pc =
  snd (decode_loop f pc) && forallb (fun i => fst i <=? OP_16) (fst (decode_loop f pc)).
Proof.
  revert pc. induction f as [ | f IH]; intros [ | b pc] Hf; try done; simpl in Hf; try lia.
  cbn [IsPushOnly_loop decode_loop].
  destruct (GetScriptOp (b :: pc)) as [[[o d] pc'] | ] eqn:E; [ | done].
  apply GetScriptOp_shorter in E. simpl in E. rewrite IH by lia.
  destruct (decode_loop f pc') as [l ok]. simpl fst. simpl snd. cbn [forallb fst].
  replace (OP_16 <? o) with (negb (o <=? OP_16)) by (rewrite Z.ltb_antisym; done).
  destruct (o <=? OP_16), ok; done.
Qed.

Lemma IsPushOnly_decode s :
  IsPushOnly s = snd (decode s) && forallb (fun i => fst i <=? OP_16) (fst (decode s)).
Proof. apply IsPushOnly_loop_decode. lia. Qed.

Lemma Find_loop_decode f op pc n : (length pc <= f)%nat ->
  Find_loop f op pc n =
  n + vsize (filter (fun i => fst i = op) (fst (decode_loop f pc))).
Proof.
  revert pc n. induction f as [ | f IH]; intros [ | b pc] n Hf; simpl in Hf; try lia.
  1, 2: unfold vsize; simpl; lia.
  cbn [Find_loop decode_loop].
  destruct (GetScriptOp (b :: pc)) as [[[o d] pc'] | ] eqn:E; [ | unfold vsize; simpl; lia].
  apply GetScriptOp_shorter in E. simpl in E. rewrite IH by lia.
  destruct (decode_loop f pc') as [l ok]. simpl fst. rewrite filter_cons. simpl fst.
  destruct (Z.eqb_spec o op), (decide (o = op)); try done; rewrite ?vsize_cons; lia.
Qed.

(** *** Assembling *)

(** The instructions the operators [<<] append. *)
Inductive instr : Type :=
| IOp (o : opcodetype)
| IPush (b : bytes)
| IInt (n : Z).

Definition instr_bytes (i : instr) : bytes :=
  match i with
  | IOp o => [o]
  | IPush b => push_data b
  | IInt n => push_int64 n
  end.
Definition assemble (l : list instr) : CScript := flat_map instr_bytes l.

(** What the decoder is to see; an opcode is not a data push. *)
Definition instr_ok (i : instr) : Prop :=
  match i with
  | IOp o => OP_PUSHDATA4 < o
  | _ => True
  end.
Definition instr_decoded (i : instr) : opcodetype * bytes :=
  match i with
  | IOp o => (o, [])
  | IPush b => (push_opcode (vsize b), b)
  | IInt n =>
      if (n =? -1) || ((1 <=? n) && (n <=? 16)) then (n + (OP_1 - 1), [])
      else if n =? 0 then (OP_0, [])
      else (push_opcode (vsize (serialize n)), serialize n)
  end.

Lemma GetScriptOp_op o rest : OP_PUSHDATA4 < o -> GetScriptOp (o :: rest) = Some (o, [], rest).
Proof. intros Ho. unfold GetScriptOp. destruct (Z.leb_spec o OP_PUSHDATA4); [lia | done]. Qed.

Lemma GetScriptOp_instr i rest : instr_ok i -> vsize (instr_bytes i ++ rest) < 2 ^ 32 ->
  GetScriptOp (instr_bytes i ++ rest) = Some (fst (instr_decoded i), snd (instr_decoded i), rest).
Proof.
  assert (Hpush : forall b, vsize (push_data b ++ rest) < 2 ^ 32 -> vsize (b ++ rest) < 2 ^ 32).
  { intros b. unfold push_data. rewrite !vsize_app. pose proof (vsize_nonneg b).
    match goal with |- vsize ?x + _ + _ < _ -> _ => pose proof (vsize_nonneg x) end. lia. }
  destruct i as [o | b | n]; intros Hok Hl; unfold instr_bytes, instr_decoded in *.
  - by apply GetScriptOp_op.
  - apply GetScriptOp_push. auto.
  - unfold push_int64 in *. destruct ((n =? -1) || _) eqn:E1.
    + replace (u8 (n + (OP_1 - 1))) with (n + (OP_1 - 1)) by (symmetry; apply Z.mod_small; unop; lia).
      apply GetScriptOp_op. simpl fst. unop. lia.
    + destruct (Z.eqb_spec n 0).
      * unfold GetScriptOp. cbn [app]. change (OP_0 <=? OP_PUSHDATA4) with true. change (OP_0 <? OP_PUSHDATA1) with true. cbv iota.
        destruct (Z.ltb_spec (u32 (vsize rest)) OP_0); [pose proof (u32_range (vsize rest)); unop; lia | ].
        by rewrite drop_0.
      * apply GetScriptOp_push. auto.
Qed.

Lemma decode_assemble l : Forall instr_ok l -> vsize (assemble l) < 2 ^ 32 ->
  decode (assemble l) = (map instr_decoded l, true).
Proof.
  induction 1 as [ | i l Hi Hl IH]; intros Hs; [done | ].
  change (assemble (i :: l)) with (instr_bytes i ++ assemble l) in Hs.
  change (decode (instr_bytes i ++ assemble l) = (map instr_decoded (i :: l), true)).
  rewrite (decode_cons _ _ _ _ (GetScriptOp_instr i (assemble l) Hi Hs)).
  rewrite IH.
  { cbn [map]. by destruct (instr_decoded i). }
  rewrite vsize_app in Hs. pose proof (vsize_nonneg (instr_bytes i)). lia.
Qed.

(** Decoding inverts assembling: a script built with the operators [<<] (pushing byte
    vectors of any size, integers, and non-push opcodes) decodes, to its end, to exactly the
    instructions it was built from. *)
Theorem assembled_script_decodes l :
  Forall instr_ok l -> vsize (assemble l) < 2 ^ 32 ->
  decode (assemble l) = (map instr_decoded l, true).
Proof. apply decode_assemble. Qed.

Lemma assembled_script_decodes_witness :
  decode (assemble [IInt 1000; IPush [1; 2; 3]; IOp OP_CHECKSIG]) =
  ([(2, [0xe8; 0x03]); (3, [1; 2; 3]); (OP_CHECKSIG, [])], true).
Proof.
  apply (assembled_script_decodes [IInt 1000; IPush [1; 2; 3]; IOp OP_CHECKSIG]).
  - repeat constructor.
  - reflexivity.
Defined.

(** *** Counting signature operations *)

Lemma DecodeOP_N_bound o : OP_1 <= o <= OP_16 -> 1 <= default 0 (DecodeOP_N o) <= 16.
Proof.
  unfold DecodeOP_N. intros H. destruct (Z.eqb_spec o OP_0); [unop; lia | ].
  destruct (Z.leb_spec OP_1 o), (Z.leb_spec o OP_16); try lia. simpl. unop. lia.
Qed.

(** One instruction: the last opcode it leaves does not depend on the mode, the accurate count
    grows at most as much as the legacy one, and that one by at most 20. *)
Lemma sigops_step_bounds l n n' i :
  n <= n' ->
  fst (sigops_step true (l, n) i) = fst (sigops_step false (l, n') i) /\
  n <= snd (sigops_step true (l, n) i) <= snd (sigops_step false (l, n') i) /\
  snd (sigops_step false (l, n') i) <= n' + MAX_PUBKEYS_PER_MULTISIG.
Proof.
  intros Hn. unfold sigops_step. simpl. split; [done | ].
  destruct ((fst i =? OP_CHECKSIG) || _); [unfold MAX_PUBKEYS_PER_MULTISIG; lia | ].
  destruct ((fst i =? OP_CHECKMULTISIG) || _); [ | unfold MAX_PUBKEYS_PER_MULTISIG; lia].
  unfold MAX_PUBKEYS_PER_MULTISIG.
  destruct (Z.leb_spec OP_1 l), (Z.leb_spec l OP_16); simpl; try lia.
  pose proof (DecodeOP_N_bound l ltac:(lia)). lia.
Qed.

Lemma sigops_fold_bounds is_ l n n' : n <= n' ->
  n <= snd (foldl (sigops_step true) (l, n) is_) <= snd (foldl (sigops_step false) (l, n') is_) /\
  snd (foldl (sigops_step false) (l, n') is_) <= n' + 20 * vsize is_.
Proof.
  revert l n n'. induction is_ as [ | i is_ IH]; intros l n n' Hn; cbn [foldl].
  - unfold vsize. simpl. lia.
  - destruct (sigops_step_bounds l n n' i Hn) as (E1 & Hb & Hub).
    destruct (sigops_step true (l, n) i) as [l1 n1], (sigops_step false (l, n') i) as [l2 n2].
    simpl in E1, Hb, Hub. subst l2. destruct (IH l1 n1 n2) as [? ?]; [lia | ].
    rewrite vsize_cons. unfold MAX_PUBKEYS_PER_MULTISIG in *. lia.
Qed.

(** The legacy count does not look at the opcode before. *)
Lemma sigops_fold_shift is_ l l' n m :
  snd (foldl (sigops_step false) (l, n + m) is_) = snd (foldl (sigops_step false) (l', m) is_) + n.
Proof.
  revert l l' n m. induction is_ as [ | i is_ IH]; intros l l' n m; cbn [foldl]; [simpl; lia | ].
  cbn [sigops_step andb fst]. rewrite <- (IH (fst i)). f_equal. f_equal. f_equal.
  repeat match goal with |- context [if ?c then _ else _] => destruct c end; lia.
Qed.

Lemma decode_loop_length f pc : (length pc <= f)%nat -> vsize (fst (decode_loop f pc)) <= vsize pc.
Proof.
  revert pc. induction f as [ | f IH]; intros [ | b pc] Hf; simpl in Hf; try lia; try (unfold vsize; simpl; lia).
  cbn [decode_loop]. destruct (GetScriptOp (b :: pc)) as [[[o d] pc'] | ] eqn:E.
  2: { unfold vsize. simpl. lia. }
  apply GetScriptOp_shorter in E. simpl in E. specialize (IH pc' ltac:(lia)).
  destruct (decode_loop f pc') as [l ok]. simpl fst in *. rewrite !vsize_cons. unfold vsize in *. lia.
Qed.

(** A script that decodes to its end, followed by another. *)
Lemma GetScriptOp_app pc o d pc' s : vsize (pc ++ s) < 2 ^ 32 ->
  GetScriptOp pc = Some (o, d, pc') -> GetScriptOp (pc ++ s) = Some (o, d, pc' ++ s).
Proof.
  unfold GetScriptOp. destruct pc as [ | b pc]; [done | ]. cbn [app]. intros Hs.
  destruct (b <=? OP_PUSHDATA4); [ | by intros [= <- <- <-]].
  assert (Hpre : forall n sz q, (if vsize pc <? Z.of_nat n then None
      else Some (le_decode (take n pc), drop n pc)) = Some (sz, q) ->
    (if vsize (pc ++ s) <? Z.of_nat n then None
     else Some (le_decode (take n (pc ++ s)), drop n (pc ++ s))) = Some (sz, q ++ s)).
  { intros n sz q. rewrite vsize_app. destruct (Z.ltb_spec (vsize pc) (Z.of_nat n)); [done | ].
    intros [= <- <-]. pose proof (vsize_nonneg s).
    destruct (Z.ltb_spec (vsize pc + vsize s) (Z.of_nat n)); [lia | ]. unfold vsize in *.
    by rewrite take_app_le, drop_app_le by lia. }
  intros H.
  match type of H with match ?e with _ => _ end = _ =>
    destruct e as [[nSize q] | ] eqn:E; [ | done] end.
  match goal with |- match ?e with _ => _ end = _ => assert (e = Some (nSize, q ++ s)) as -> end.
  { destruct (b <? OP_PUSHDATA1); [by injection E as <- <- | ].
    destruct (b =? OP_PUSHDATA1); [by apply (Hpre 1%nat) | ].
    destruct (b =? OP_PUSHDATA2); [by apply (Hpre 2%nat) | by apply (Hpre 4%nat)]. }
  assert (Hq : vsize q <= vsize pc).
  { repeat match type of E with (if ?c then _ else _) = _ => destruct c end; try done;
      injection E as _ <-; unfold vsize; rewrite ?length_drop; lia. }
  rewrite vsize_cons, vsize_app in Hs. pose proof (vsize_nonneg q). pose proof (vsize_nonneg s).
  rewrite u32_id in H by lia. rewrite vsize_app, u32_id by lia.
  destruct (Z.ltb_spec (vsize q) nSize); [done | ]. injection H as <- <- <-.
  destruct (Z.ltb_spec (vsize q + vsize s) nSize); [lia | ]. unfold vsize in *.
  by rewrite take_app_le, drop_app_le by lia.
Qed.

Lemma decode_app a b l : vsize (a ++ b) < 2 ^ 32 -> decode a = (l, true) ->
  decode (a ++ b) = (l ++ fst (decode b), snd (decode b)).
Proof.
  remember (length a) as n eqn:Hn. revert a l Hn. induction (lt_wf n) as [n _ IH].
  intros a l Hn Hs Ha. destruct (decide (a = [])) as [-> | Hne].
  { injection Ha as <-. simpl. by destruct (decode b). }
  destruct (GetScriptOp a) as [[[o d] a'] | ] eqn:E; [ | by rewrite decode_fail in Ha].
  rewrite (decode_cons _ _ _ _ E) in Ha. destruct (decode a') as [l' ok] eqn:E'. injection Ha as <- ->.
  pose proof (GetScriptOp_shorter _ _ _ _ E) as Hlt.
  rewrite (decode_cons _ _ _ _ (GetScriptOp_app _ _ _ _ b Hs E)).
  rewrite (IH (length a') ltac:(lia) a' l'); try done.
  rewrite vsize_app in *. unfold vsize in *. lia.
Qed.

(** Signature-operation counts: the accurate count never exceeds the legacy one, which is
    at most 20 per byte of script (so the 32-bit counter cannot wrap for any script that fits a
    block); and the legacy count of a script that decodes to its end is added to that of
    whatever script follows it. *)
Theorem sigop_counts s t l :
  0 <= GetSigOpCount s true <= GetSigOpCount s false /\
  GetSigOpCount s false <= MAX_PUBKEYS_PER_MULTISIG * vsize s /\
  (vsize (s ++ t) < 2 ^ 32 -> decode s = (l, true) ->
   GetSigOpCount (s ++ t) false = GetSigOpCount s false + GetSigOpCount t false).
Proof.
  rewrite !GetSigOpCount_decode. unfold MAX_PUBKEYS_PER_MULTISIG.
  destruct (sigops_fold_bounds (fst (decode s)) OP_INVALIDOPCODE 0 0) as [Hle Hub]; [lia | ].
  pose proof (decode_loop_length (length s) s ltac:(lia)) as Hl. fold (decode s) in Hl.
  split; [lia | ]. split; [lia | ]. intros Hs Hd.
  rewrite (decode_app s t l Hs Hd), Hd. simpl fst. rewrite foldl_app.
  destruct (foldl (sigops_step false) (OP_INVALIDOPCODE, 0) l) as [last n]. simpl snd.
  rewrite <- (Z.add_0_r n) at 1. rewrite (sigops_fold_shift _ _ OP_INVALIDOPCODE). lia.
Qed.

Lemma sigop_counts_witness :
  GetSigOpCount ([OP_CHECKSIG] ++ [OP_2; OP_CHECKMULTISIG]) false = 21.
Proof.
  destruct (sigop_counts [OP_CHECKSIG] [OP_2; OP_CHECKMULTISIG] [(OP_CHECKSIG, [])]) as (_ & _ & H).
  etransitivity; [apply H; reflexivity | reflexivity].
Defined.

(** *** Patterns *)

Lemma sbyte_0 x s : sbyte (x :: s) 0 = x.
Proof. done. Qed.

Lemma sbyte_cons x s i : 0 < i -> sbyte (x :: s) i = sbyte s (i - 1).
Proof.
  intros Hi. unfold sbyte, byte_at. replace (Z.to_nat i) with (S (Z.to_nat (i - 1))) by lia. done.
Qed.

Lemma sbyte_app h t i : vsize h <= i -> sbyte (h ++ t) i = sbyte t (i - vsize h).
Proof.
  unfold sbyte, byte_at, vsize. intros Hi. rewrite app_nth2 by lia. f_equal. lia.
Qed.

(** A list of [n + k] elements as the first [n] and the last [k]. *)
Lemma split_len {A} (s : list A) (n : nat) k : length s = (n + k)%nat ->
  exists h t, s = h ++ t /\ length h = n /\ length t = k.
Proof.
  intros H. exists (take n s), (drop n s). rewrite take_drop, length_take, length_drop. split_and!; done || lia.
Qed.

Lemma length_vsize {A} (s : list A) n : vsize s = Z.of_nat n -> length s = n.
Proof. unfold vsize. lia. Qed.

Ltac list_of_len t H := repeat (destruct t as [ | ? t]; try (simpl in H; lia)); clear H.

Lemma IsPayToScriptHash_iff s :
  IsPayToScriptHash s = true <->
  exists h, length h = 20%nat /\ s = [OP_HASH160; 0x14] ++ h ++ [OP_EQUAL].
Proof.
  unfold IsPayToScriptHash. split.
  - intros H. zbool. apply (length_vsize _ 23) in H.
    destruct (split_len s 2 21 H) as (p & q & -> & Hp & Hq).
    destruct (split_len q 20 1 Hq) as (h & t & -> & Hh & Ht).
    list_of_len p Hp. list_of_len t Ht. exists h. split; [done | ]. list_of_len h Hh.
    repeat match goal with E : sbyte _ _ = _ |- _ => vm_compute in E end. subst. reflexivity.
  - intros (h & Hh & ->). list_of_len h Hh. reflexivity.
Qed.

Lemma IsPayToPubkeyHash_iff s :
  IsPayToPubkeyHash s = true <->
  exists h, length h = 20%nat /\
    s = [OP_DUP; OP_HASH160; 0x14] ++ h ++ [OP_EQUALVERIFY; OP_CHECKSIG].
Proof.
  unfold IsPayToPubkeyHash. split.
  - intros H. zbool. apply (length_vsize _ 25) in H.
    destruct (split_len s 3 22 H) as (p & q & -> & Hp & Hq).
    destruct (split_len q 20 2 Hq) as (h & t & -> & Hh & Ht).
    list_of_len p Hp. list_of_len t Ht. exists h. split; [done | ]. list_of_len h Hh.
    repeat match goal with E : sbyte _ _ = _ |- _ => vm_compute in E end. subst. reflexivity.
  - intros (h & Hh & ->). list_of_len h Hh. reflexivity.
Qed.

(** The opcode that pushes a witness version. *)
Definition version_opcode (version : Z) : opcodetype := if version =? 0 then OP_0 else OP_1 - 1 + version.

Lemma IsWitnessProgram_iff s version program :
  IsWitnessProgram s = Some (version, program) <->
  0 <= version <= 16 /\ 2 <= vsize program <= 40 /\
  s = version_opcode version :: vsize program :: program.
Proof.
  unfold IsWitnessProgram, version_opcode. split.
  - destruct s as [ | b [ | n s]]; try done. rewrite !vsize_cons, sbyte_0, sbyte_cons, sbyte_0 by lia.
    destruct (_ || _) eqn:E1; [done | ]. destruct (negb _ && _) eqn:E2; [done | ].
    destruct (Z.eqb_spec (n + 2) (1 + (1 + vsize s))) as [En | ?]; [ | done].
    unfold DecodeOP_N. intros H. destruct (Z.eqb_spec b OP_0) as [-> | Hb].
    + injection H as <- <-. cbn [drop]. rewrite drop_0. split_and!; try lia. simpl. f_equal. f_equal. lia.
    + destruct ((OP_1 <=? b) && (b <=? OP_16)) eqn:E3; [ | done]. injection H as <- <-. cbn [drop]. rewrite drop_0.
      unop. split_and!; try lia. destruct (Z.eqb_spec (b - (81 - 1)) 0); f_equal; try lia. f_equal. lia.
  - intros (Hv & Hp & ->). rewrite !vsize_cons, sbyte_0, sbyte_cons, sbyte_0 by lia.
    set (b := if version =? 0 then OP_0 else OP_1 - 1 + version).
    assert (Hb : b = OP_0 /\ version = 0 \/ OP_1 <= b <= OP_16 /\ b - (OP_1 - 1) = version /\ b <> OP_0).
    { unfold b. unop. destruct (Z.eqb_spec version 0); lia. }
    destruct (_ || _) eqn:E1; [lia | ]. unfold DecodeOP_N.
    destruct (Z.eqb_spec b OP_0) as [Eb | Hb0].
    + simpl. destruct (Z.eqb_spec (vsize program + 2) (1 + (1 + vsize program))); [ | lia].
      cbn [drop]. rewrite drop_0. do 2 f_equal. lia.
    + destruct Hb as [? | (Hr & Hvb & _)]; [lia | ].
      destruct (Z.ltb_spec b OP_1), (Z.ltb_spec OP_16 b), (Z.leb_spec OP_1 b), (Z.leb_spec b OP_16); try lia.
      simpl. destruct (Z.eqb_spec (vsize program + 2) (1 + (1 + vsize program))); [ | lia].
      cbn [drop]. rewrite drop_0. by rewrite Hvb.
Qed.

(** The pattern tests on scripts: pay-to-script-hash and pay-to-pubkey-hash accept exactly
    the scripts of their shape around a 20-byte hash, and [IsWitnessProgram] accepts exactly a
    one-byte push of a version 0..16 followed by a direct push of 2 to 40 bytes, and returns
    them; no test reads out of bounds, and no test's script is also another's. *)
Theorem script_patterns s :
  (IsPayToScriptHash s = true <->
     exists h, length h = 20%nat /\ s = [OP_HASH160; 0x14] ++ h ++ [OP_EQUAL]) /\
  (IsPayToPubkeyHash s = true <->
     exists h, length h = 20%nat /\
       s = [OP_DUP; OP_HASH160; 0x14] ++ h ++ [OP_EQUALVERIFY; OP_CHECKSIG]) /\
  (forall version program, IsWitnessProgram s = Some (version, program) <->
     0 <= version <= 16 /\ 2 <= vsize program <= 40 /\
     s = version_opcode version :: vsize program :: program) /\
  (IsPayToScriptHash s = true -> IsPayToPubkeyHash s = false /\ IsWitnessProgram s = None).
Proof.
  split; [apply IsPayToScriptHash_iff | ]. split; [apply IsPayToPubkeyHash_iff | ].
  split; [intros; apply IsWitnessProgram_iff | ].
  intros (h & Hh & ->)%IsPayToScriptHash_iff. split.
  - destruct (IsPayToPubkeyHash _) eqn:E; [ | done].
    apply IsPayToPubkeyHash_iff in E as (h' & _ & E). discriminate E.
  - destruct (IsWitnessProgram _) as [[v p] | ] eqn:E; [ | done].
    apply IsWitnessProgram_iff in E as (Hv & _ & [= E _]). unfold version_opcode in E.
    destruct (v =? 0); unop; lia.
Qed.

(** Push-only scripts: [IsPushOnly] holds exactly when the script decodes to its end and no
    instruction is above [OP_16]; every script assembled from data and integer pushes passes
    it; and scripts with a contract opcode ([OP_CREATE], [OP_CALL], [OP_SPEND]) never do, nor
    do they pass [HasValidOps]. *)
Theorem push_only_scripts s :
  (IsPushOnly s = true <-> exists l, decode s = (l, true) /\ Forall (fun i => fst i <= OP_16) l) /\
  (forall l, s = assemble l -> vsize s < 2 ^ 32 ->
     Forall (fun i => match i with IOp _ => False | _ => True end) l -> IsPushOnly s = true) /\
  (forall o, o = OP_CREATE \/ o = OP_CALL \/ o = OP_SPEND -> 1 <= Find s o ->
     IsPushOnly s = false /\ HasValidOps s = false).
Proof.
  assert (Hiff : IsPushOnly s = true <->
    exists l, decode s = (l, true) /\ Forall (fun i => fst i <= OP_16) l).
  { rewrite IsPushOnly_decode. destruct (decode s) as [l ok]. simpl. split.
    - intros [-> H]%andb_true_iff. exists l. split; [done | ]. apply Forall_forall. intros i Hi.
      rewrite forallb_forall in H. apply Z.leb_le, H. by apply list_elem_of_In.
    - intros (l' & [= <- ->] & H). apply forallb_forall. intros i Hi. apply Z.leb_le.
      rewrite Forall_forall in H. apply H. by apply list_elem_of_In. }
  split; [done | ]. split.
  - intros l -> Hs Hl. apply Hiff. exists (map instr_decoded l). split.
    + apply decode_assemble; [ | done]. eapply Forall_impl; [exact Hl | ]. by intros [].
    + apply Forall_map. eapply Forall_impl; [exact Hl | ]. intros [o | b | n]; [done | intros _ ..].
      * simpl. unfold push_opcode. zcases; unop; lia.
      * simpl. destruct ((n =? -1) || _) eqn:E; [simpl; unop; lia | ].
        destruct (n =? 0); [simpl; unop; lia | ]. simpl. unfold push_opcode. zcases; unop; lia.
  - intros o Ho Hf. unfold Find in Hf. rewrite Find_loop_decode in Hf by lia. fold (decode s) in Hf.
    assert (Hin : exists d, (o, d) ∈ fst (decode s)).
    { destruct (filter _ (fst (decode s))) as [ | [o' d] l] eqn:E; [unfold vsize in Hf; simpl in Hf; lia | ].
      exists d. assert (Hi : (o', d) ∈ filter (fun i => fst i = o) (fst (decode s))) by (rewrite E; left).
      apply list_elem_of_filter in Hi as [<- Hi]. done. }
    destruct Hin as [d Hin]. assert (Hbig : OP_16 < o /\ MAX_OPCODE < o) by (unop; lia). split.
    + destruct (IsPushOnly s); [ | done]. destruct (proj1 Hiff eq_refl) as (l & El & Hl).
      rewrite El in Hin. rewrite Forall_forall in Hl. apply Hl in Hin. simpl in Hin. lia.
    + clear -Hin Hbig. unfold HasValidOps, decode in *. revert Hin. generalize (length s) at 1 2 as f.
      intros f. revert s. induction f as [ | f IH]; intros [ | b pc] Hin; try (by apply not_elem_of_nil in Hin).
      cbn [HasValidOps_loop decode_loop] in *.
      destruct (GetScriptOp (b :: pc)) as [[[o' d'] pc'] | ]; [ | done].
      destruct (decode_loop f pc') as [l ok] eqn:E. simpl fst in Hin.
      apply elem_of_cons in Hin as [[= <- <-] | Hin].
      * destruct (Z.ltb_spec MAX_OPCODE o); [done | lia].
      * destruct (_ || _); [done | ]. apply IH. by rewrite E.
Qed.

Lemma script_patterns_witness :
  IsPayToScriptHash ([OP_HASH160; 0x14] ++ replicate 20 7 ++ [OP_EQUAL]) = true /\
  IsWitnessProgram ([OP_HASH160; 0x14] ++ replicate 20 7 ++ [OP_EQUAL]) = None.
Proof.
  destruct (script_patterns ([OP_HASH160; 0x14] ++ replicate 20 7 ++ [OP_EQUAL])) as (H & _ & _ & H').
  split; [apply H | apply H'; vm_compute; reflexivity].
  exists (replicate 20 7). split; reflexivity.
Defined.

Lemma push_only_scripts_witness :
  IsPushOnly (assemble [IInt 3; IPush [1; 2]]) = true /\ HasValidOps [OP_1; OP_CREATE] = false.
Proof.
  destruct (push_only_scripts (assemble [IInt 3; IPush [1; 2]])) as (_ & H & _).
  destruct (push_only_scripts [OP_1; OP_CREATE]) as (_ & _ & H'). split.
  - apply (H _ eq_refl); [reflexivity | repeat constructor].
  - apply (H' OP_CREATE); [by left | vm_compute; discriminate].
Defined.
