(* ===== verification/SigEncoding.v ===== *)
(** * Script errors, verification flags and signature encodings ([src/script/interpreter.cpp],
      [src/script/interpreter.h], [src/script/script_error.h])

    The checks on the form of signatures, public keys and pushes, [CastToBool] and
    [FindAndDelete].  Theorems: a signature is accepted exactly when it is the DER form the
    comment describes; truth is being a nonzero number; the minimal-push check accepts exactly
    the pushes [CScript]'s own operators make; deleting a subscript conserves bytes. *)

From S2P Require Import Prelude ScriptNum Script.
Open Scope Z_scope.

(** ** Definitions *)

Inductive ScriptError : Type :=
| SCRIPT_ERR_OK
| SCRIPT_ERR_UNKNOWN_ERROR
| SCRIPT_ERR_EVAL_FALSE
| SCRIPT_ERR_OP_RETURN
| SCRIPT_ERR_SCRIPT_SIZE
| SCRIPT_ERR_PUSH_SIZE
| SCRIPT_ERR_OP_COUNT
| SCRIPT_ERR_STACK_SIZE
| SCRIPT_ERR_SIG_COUNT
| SCRIPT_ERR_PUBKEY_COUNT
| SCRIPT_ERR_VERIFY
| SCRIPT_ERR_EQUALVERIFY
| SCRIPT_ERR_CHECKMULTISIGVERIFY
| SCRIPT_ERR_CHECKSIGVERIFY
| SCRIPT_ERR_NUMEQUALVERIFY
| SCRIPT_ERR_BAD_OPCODE
| SCRIPT_ERR_DISABLED_OPCODE
| SCRIPT_ERR_INVALID_STACK_OPERATION
| SCRIPT_ERR_INVALID_ALTSTACK_OPERATION
| SCRIPT_ERR_UNBALANCED_CONDITIONAL
| SCRIPT_ERR_NEGATIVE_LOCKTIME
| SCRIPT_ERR_UNSATISFIED_LOCKTIME
| SCRIPT_ERR_SIG_HASHTYPE
| SCRIPT_ERR_SIG_DER
| SCRIPT_ERR_MINIMALDATA
| SCRIPT_ERR_SIG_PUSHONLY
| SCRIPT_ERR_SIG_HIGH_S
| SCRIPT_ERR_SIG_NULLDUMMY
| SCRIPT_ERR_PUBKEYTYPE
| SCRIPT_ERR_CLEANSTACK
| SCRIPT_ERR_MINIMALIF
| SCRIPT_ERR_SIG_NULLFAIL
| SCRIPT_ERR_DISCOURAGE_UPGRADABLE_NOPS
| SCRIPT_ERR_DISCOURAGE_UPGRADABLE_WITNESS_PROGRAM
| SCRIPT_ERR_WITNESS_PROGRAM_WRONG_LENGTH
| SCRIPT_ERR_WITNESS_PROGRAM_WITNESS_EMPTY
| SCRIPT_ERR_WITNESS_PROGRAM_MISMATCH
| SCRIPT_ERR_WITNESS_MALLEATED
| SCRIPT_ERR_WITNESS_MALLEATED_P2SH
| SCRIPT_ERR_WITNESS_UNEXPECTED
| SCRIPT_ERR_WITNESS_PUBKEYTYPE
| SCRIPT_ERR_OP_CODESEPARATOR
| SCRIPT_ERR_SIG_FINDANDDELETE
| SCRIPT_ERR_ERROR_COUNT.

(** *** Verification flags: single bits of an [unsigned int] *)

Definition SCRIPT_VERIFY_P2SH : Z := Z.shiftl 1 0.
Definition SCRIPT_VERIFY_STRICTENC : Z := Z.shiftl 1 1.
Definition SCRIPT_VERIFY_DERSIG : Z := Z.shiftl 1 2.
Definition SCRIPT_VERIFY_LOW_S : Z := Z.shiftl 1 3.
Definition SCRIPT_VERIFY_NULLDUMMY : Z := Z.shiftl 1 4.
Definition SCRIPT_VERIFY_SIGPUSHONLY : Z := Z.shiftl 1 5.
Definition SCRIPT_VERIFY_MINIMALDATA : Z := Z.shiftl 1 6.
Definition SCRIPT_VERIFY_DISCOURAGE_UPGRADABLE_NOPS : Z := Z.shiftl 1 7.
Definition SCRIPT_VERIFY_CLEANSTACK : Z := Z.shiftl 1 8.
Definition SCRIPT_VERIFY_CHECKLOCKTIMEVERIFY : Z := Z.shiftl 1 9.
Definition SCRIPT_VERIFY_CHECKSEQUENCEVERIFY : Z := Z.shiftl 1 10.
Definition SCRIPT_VERIFY_WITNESS : Z := Z.shiftl 1 11.
Definition SCRIPT_VERIFY_DISCOURAGE_UPGRADABLE_WITNESS_PROGRAM : Z := Z.shiftl 1 12.
Definition SCRIPT_VERIFY_MINIMALIF : Z := Z.shiftl 1 13.
Definition SCRIPT_VERIFY_NULLFAIL : Z := Z.shiftl 1 14.
Definition SCRIPT_VERIFY_WITNESS_PUBKEYTYPE : Z := Z.shiftl 1 15.
Definition SCRIPT_VERIFY_CONST_SCRIPTCODE : Z := Z.shiftl 1 16.

(** [(flags & mask) != 0] *)
Definition has (flags mask : Z) : bool := negb (Z.land flags mask =? 0).

Inductive SigVersion : Type := BASE | WITNESS_V0.
#[export] Instance SigVersion_eq_dec : EqDecision SigVersion.
Proof. solve_decision. Defined.

Definition SIGHASH_ALL : Z := 1.
Definition SIGHASH_NONE : Z := 2.
Definition SIGHASH_SINGLE : Z := 3.
Definition SIGHASH_ANYONECANPAY : Z := 0x80.

(** [CPubKey::PUBLIC_KEY_SIZE] and [CPubKey::COMPRESSED_PUBLIC_KEY_SIZE] *)
Definition PUBLIC_KEY_SIZE : Z := 65.
Definition COMPRESSED_PUBLIC_KEY_SIZE : Z := 33.

Abbreviation valtype := bytes.

(** [CastToBool]: the first nonzero byte decides, unless it is a lone sign bit at the end. *)
Fixpoint CastToBool (vch : valtype) : bool :=
  match vch with
  | [] => false
  | b :: rest =>
      if negb (b =? 0) then
        if bool_decide (rest = []) && (b =? 0x80) then false else true
      else CastToBool rest
  end.

Definition IsCompressedOrUncompressedPubKey (vchPubKey : valtype) : bool :=
  if vsize vchPubKey <? COMPRESSED_PUBLIC_KEY_SIZE then false
  else if byte_at vchPubKey 0 =? 0x04 then
    if negb (vsize vchPubKey =? PUBLIC_KEY_SIZE) then false else true
  else if (byte_at vchPubKey 0 =? 0x02) || (byte_at vchPubKey 0 =? 0x03) then
    if negb (vsize vchPubKey =? COMPRESSED_PUBLIC_KEY_SIZE) then false else true
  else false.

Definition IsCompressedPubKey (vchPubKey : valtype) : bool :=
  if negb (vsize vchPubKey =? COMPRESSED_PUBLIC_KEY_SIZE) then false
  else if negb (byte_at vchPubKey 0 =? 0x02) && negb (byte_at vchPubKey 0 =? 0x03) then false
  else true.

Definition IsValidSignatureEncoding (sig : bytes) (haveHashType : bool) : bool :=
  let at_ := byte_at sig in
  if vsize sig <? 9 then false
  else if 73 <? vsize sig then false
  else if negb (at_ 0 =? 0x30) then false
  else if negb (at_ 1 =? vsize sig - (if haveHashType then 3 else 2)) then false
  else
  let lenR := at_ 3 in
  if vsize sig <=? 5 + lenR then false
  else
  let lenS := at_ (5 + lenR) in
  if negb (lenR + lenS + (if haveHashType then 7 else 6) =? vsize sig) then false
  else if negb (at_ 2 =? 0x02) then false
  else if lenR =? 0 then false
  else if negb (Z.land (at_ 4) 0x80 =? 0) then false
  else if (1 <? lenR) && (at_ 4 =? 0x00) && (Z.land (at_ 5) 0x80 =? 0) then false
  else if negb (at_ (lenR + 4) =? 0x02) then false
  else if lenS =? 0 then false
  else if negb (Z.land (at_ (lenR + 6)) 0x80 =? 0) then false
  else if (1 <? lenS) && (at_ (lenR + 6) =? 0x00) && (Z.land (at_ (lenR + 7)) 0x80 =? 0) then false
  else true.

Definition IsDefinedHashtypeSignature (vchSig : valtype) : bool :=
  if vsize vchSig =? 0 then false
  else
    let nHashType := Z.land (byte_at vchSig (vsize vchSig - 1)) (u8 (Z.lnot SIGHASH_ANYONECANPAY)) in
    if (nHashType <? SIGHASH_ALL) || (SIGHASH_SINGLE <? nHashType) then false else true.

(** Checks that return a verdict and set [serror] when it is false: [Err e] is [false] with
    [serror] set to [e]. *)
Definition check : Type := result ScriptError unit.

Section Encodings.
(** [CPubKey::CheckLowS], which asks the curve library. *)
Context (CheckLowS : bytes -> bool).

Definition IsLowDERSignature (vchSig : valtype) (haveHashType : bool) : check :=
  if negb (IsValidSignatureEncoding vchSig haveHashType) then Err SCRIPT_ERR_SIG_DER
  else
    let vchSigCopy := take (Z.to_nat (vsize vchSig - (if haveHashType then 1 else 0))) vchSig in
    if negb (CheckLowS vchSigCopy) then Err SCRIPT_ERR_SIG_HIGH_S else Ok tt.

Definition IsDERSignature (vchSig : valtype) (haveHashType : bool) : check :=
  if negb (IsValidSignatureEncoding vchSig haveHashType) then Err SCRIPT_ERR_SIG_DER else Ok tt.

Definition CheckSignatureEncoding (vchSig : valtype) (flags : Z) : check :=
  if vsize vchSig =? 0 then Ok tt
  else if has flags (Z.lor (Z.lor SCRIPT_VERIFY_DERSIG SCRIPT_VERIFY_LOW_S) SCRIPT_VERIFY_STRICTENC)
          && negb (IsValidSignatureEncoding vchSig true)
  then Err SCRIPT_ERR_SIG_DER
  else if has flags SCRIPT_VERIFY_LOW_S && negb (is_ok (IsLowDERSignature vchSig true))
  then IsLowDERSignature vchSig true
  else if has flags SCRIPT_VERIFY_STRICTENC && negb (IsDefinedHashtypeSignature vchSig)
  then Err SCRIPT_ERR_SIG_HASHTYPE
  else Ok tt.

Definition CheckPubKeyEncoding (vchPubKey : valtype) (flags : Z) (sigversion : SigVersion) : check :=
  if has flags SCRIPT_VERIFY_STRICTENC && negb (IsCompressedOrUncompressedPubKey vchPubKey)
  then Err SCRIPT_ERR_PUBKEYTYPE
  else if has flags SCRIPT_VERIFY_WITNESS_PUBKEYTYPE && bool_decide (sigversion = WITNESS_V0)
          && negb (IsCompressedPubKey vchPubKey)
  then Err SCRIPT_ERR_WITNESS_PUBKEYTYPE
  else Ok tt.

End Encodings.

(** [None] is the failed assertion on the opcode. *)
Definition CheckMinimalPush (data : valtype) (opcode : opcodetype) : option bool :=
  if negb ((0 <=? opcode) && (opcode <=? OP_PUSHDATA4)) then None
  else Some (
    if vsize data =? 0 then opcode =? OP_0
    else if (vsize data =? 1) && (1 <=? byte_at data 0) && (byte_at data 0 <=? 16) then false
    else if (vsize data =? 1) && (byte_at data 0 =? 0x81) then false
    else if vsize data <=? 75 then opcode =? vsize data
    else if vsize data <=? 255 then opcode =? OP_PUSHDATA1
    else if vsize data <=? 65535 then opcode =? OP_PUSHDATA2
    else true).

(** *** [FindAndDelete] *)

(** The inner loop: skip the occurrences of [b] that start at [pc].  Each takes a byte at least,
    so [length pc] turns are enough. *)
Fixpoint skip_matches (fuel : nat) (b pc : bytes) (nFound : Z) : bytes * Z :=
  match fuel with
  | O => (pc, nFound)
  | S fuel =>
      if (vsize b <=? vsize pc) && bool_decide (take (length b) pc = b)
      then skip_matches fuel b (drop (length b) pc) (nFound + 1)
      else (pc, nFound)
  end.

(** The outer loop from [pc]; [result] is what precedes it.  [pc2] is [pc] after the skip. *)
Fixpoint FindAndDelete_loop (fuel : nat) (b pc result : bytes) (nFound : Z) : bytes * Z :=
  let '(pc, nFound) := skip_matches (length pc) b pc nFound in
  match fuel, GetScriptOp pc with
  | S fuel, Some (_, _, pc') =>
      FindAndDelete_loop fuel b pc' (result ++ take (length pc - length pc') pc) nFound
  | _, _ => (result ++ pc, nFound)
  end.

(** The script afterwards and the count returned. *)
Definition FindAndDelete (script b : CScript) : CScript * Z :=
  match b with
  | [] => (script, 0)
  | _ =>
      let '(result, nFound) := FindAndDelete_loop (length script) b script [] 0 in
      if 0 <? nFound then (result, nFound) else (script, nFound)
  end.

(** ** Theorems *)

(** *** DER signatures *)

(** A positive integer in its shortest big-endian form. *)
Definition der_integer (v : bytes) : Prop :=
  match v with
  | [] => False
  | [x] => x < 0x80
  | x :: y :: _ => x < 0x80 /\ (x = 0 -> 0x80 <= y)
  end.

(** [30 total-length 02 R-length R 02 S-length S] followed by the hash type, if any. *)
Definition der_signature (sig : bytes) (haveHashType : bool) : Prop :=
  exists R S tail,
    der_integer R /\ der_integer S /\ length tail = (if haveHashType then 1%nat else 0%nat) /\
    sig = [0x30; 4 + vsize R + vsize S; 0x02; vsize R] ++ R ++ [0x02; vsize S] ++ S ++ tail.

Lemma byte_at_app_l a b i : 0 <= i < vsize a -> byte_at (a ++ b) i = byte_at a i.
Proof. unfold byte_at, vsize. intros Hi. apply app_nth1. lia. Qed.

Lemma byte_at_app_r a b i : vsize a <= i -> byte_at (a ++ b) i = byte_at b (i - vsize a).
Proof. apply sbyte_app. Qed.

(** The two tests on the first bytes of an integer. *)
Lemma der_integer_test v rest : are_bytes v ->
  der_integer v <->
  vsize v <> 0 /\ (Z.land (byte_at (v ++ rest) 0) 0x80 =? 0) = true /\
  (1 <? vsize v) && (byte_at (v ++ rest) 0 =? 0) && (Z.land (byte_at (v ++ rest) 1) 0x80 =? 0) = false.
Proof.
  intros Hb. destruct v as [ | x [ | y v]].
  - simpl. rewrite vsize_nil. lia.
  - inversion Hb as [ | ? ? Hx _]; subst. simpl app. change (byte_at (x :: rest) 0) with x.
    rewrite land_128_byte by done. change (vsize [x]) with 1. simpl.
    destruct (Z.leb_spec 128 x); simpl; lia.
  - inversion Hb as [ | ? ? Hx Hb']; subst. inversion Hb' as [ | ? ? Hy _]; subst.
    cbn [app]. change (byte_at (x :: y :: v ++ rest) 0) with x.
    change (byte_at (x :: y :: v ++ rest) 1) with y. rewrite !vsize_cons.
    pose proof (vsize_nonneg v). rewrite !land_128_byte by done. simpl der_integer.
    destruct (Z.leb_spec 128 x), (Z.leb_spec 128 y), (Z.eqb_spec x 0), (Z.ltb_spec 1 (1 + (1 + vsize v)));
      simpl; lia.
Qed.

(** The shape the lengths force. *)
Lemma signature_split sig (ht : bool) :
  are_bytes sig -> 9 <= vsize sig -> byte_at sig 0 = 0x30 ->
  byte_at sig 1 = vsize sig - (if ht then 3 else 2) -> byte_at sig 2 = 0x02 ->
  5 + byte_at sig 3 < vsize sig -> byte_at sig (byte_at sig 3 + 4) = 0x02 ->
  byte_at sig 3 + byte_at sig (5 + byte_at sig 3) + (if ht then 7 else 6) = vsize sig ->
  exists R S tail, length tail = (if ht then 1%nat else 0%nat) /\
    sig = [0x30; 4 + vsize R + vsize S; 0x02; vsize R] ++ R ++ [0x02; vsize S] ++ S ++ tail.
Proof.
  intros Hb H9 H0 H1 H2 H5 H4 Hsum.
  destruct (split_len sig 4 (length sig - 4)) as (p & q & -> & Hp & _); [unfold vsize in H9; lia | ].
  list_of_len p Hp. apply Forall_app in Hb as [Hp Hq].
  change (byte_at ([z; z0; z1; z2] ++ q) 0) with z in *. change (byte_at ([z; z0; z1; z2] ++ q) 1) with z0 in *.
  change (byte_at ([z; z0; z1; z2] ++ q) 2) with z1 in *. change (byte_at ([z; z0; z1; z2] ++ q) 3) with z2 in *.
  assert (Hz2 : is_byte z2) by (inversion Hp as [ | ? ? _ Hp1]; inversion Hp1 as [ | ? ? _ Hp2];
    inversion Hp2 as [ | ? ? _ Hp3]; by inversion Hp3). unfold is_byte in Hz2.
  rewrite vsize_app in *. change (vsize [z; z0; z1; z2]) with 4 in *.
  rewrite !byte_at_app_r in * by (change (vsize [z; z0; z1; z2]) with 4; lia).
  change (vsize [z; z0; z1; z2]) with 4 in *.
  destruct (split_len q (Z.to_nat z2) (length q - Z.to_nat z2)) as (R & t & -> & HR & _);
    [unfold vsize in H5; lia | ].
  assert (ER : vsize R = z2) by (unfold vsize; lia). rewrite vsize_app in *.
  rewrite !byte_at_app_r in * by lia. rewrite ER in *.
  replace (z2 + 4 - 4 - z2) with 0 in H4 by lia. replace (5 + z2 - 4 - z2) with 1 in Hsum by lia.
  destruct t as [ | x [ | y t]]; rewrite ?vsize_cons, ?vsize_nil in *; try lia.
  change (byte_at (x :: y :: t) 0) with x in *. change (byte_at (x :: y :: t) 1) with y in *.
  apply Forall_app in Hq as [_ Ht]. inversion Ht as [ | ? ? _ Ht1]; subst.
  inversion Ht1 as [ | ? ? Hy _]; subst. unfold is_byte in Hy. pose proof (vsize_nonneg t).
  destruct (split_len t (Z.to_nat y) (length t - Z.to_nat y)) as (S & tail & -> & HS & _).
  { unfold vsize in *. destruct ht; lia. }
  assert (ES : vsize S = y) by (unfold vsize; lia). rewrite vsize_app in *.
  exists R, S, tail. split; [unfold vsize in *; destruct ht; lia | ].
  rewrite ES in *. assert (Etot : 4 + (vsize R + (1 + (1 + (y + vsize tail)))) - (if ht then 3 else 2)
    = 4 + vsize R + y) by (destruct ht; lia). rewrite Etot. reflexivity.
Qed.

(** The verdict on a vector of that shape. *)
Lemma signature_verdict R S tail (ht : bool) :
  are_bytes R -> are_bytes S -> length tail = (if ht then 1%nat else 0%nat) ->
  let sig := [0x30; 4 + vsize R + vsize S; 0x02; vsize R] ++ R ++ [0x02; vsize S] ++ S ++ tail in
  IsValidSignatureEncoding sig ht = true <->
  9 <= vsize sig <= 73 /\ der_integer R /\ der_integer S.
Proof.
  intros HR HS Ht sig. pose proof (vsize_nonneg R) as PR. pose proof (vsize_nonneg S) as PS.
  set (hd := [0x30; 4 + vsize R + vsize S; 0x02; vsize R]) in *.
  assert (Hsuf : forall k, 0 <= k -> byte_at sig (4 + k) = byte_at (R ++ [0x02; vsize S] ++ S ++ tail) k).
  { intros k Hk. unfold sig. rewrite byte_at_app_r by (change (vsize hd) with 4; lia).
    f_equal. change (vsize hd) with 4. lia. }
  assert (HsufS : forall k, 0 <= k -> byte_at sig (vsize R + 6 + k) = byte_at (S ++ tail) k).
  { intros k Hk. replace (vsize R + 6 + k) with (4 + (vsize R + 2 + k)) by lia. rewrite Hsuf by lia.
    rewrite byte_at_app_r by lia. rewrite byte_at_app_r by (change (vsize [2; vsize S]) with 2; lia).
    f_equal. change (vsize [2; vsize S]) with 2. lia. }
  assert (HlS : byte_at sig (5 + vsize R) = vsize S).
  { replace (5 + vsize R) with (4 + (vsize R + 1)) by lia. rewrite Hsuf, byte_at_app_r by lia.
    by replace (vsize R + 1 - vsize R) with 1 by lia. }
  assert (H02 : byte_at sig (vsize R + 4) = 0x02).
  { replace (vsize R + 4) with (4 + vsize R) by lia. rewrite Hsuf, byte_at_app_r by lia.
    by rewrite Z.sub_diag. }
  assert (Hsz : vsize sig = 6 + vsize R + vsize S + (if ht then 1 else 0)).
  { unfold sig. rewrite !vsize_app. change (vsize hd) with 4. change (vsize [2; vsize S]) with 2.
    unfold vsize at 3. rewrite Ht. destruct ht; lia. }
  pose proof (Hsuf 0 ltac:(lia)) as HR0. pose proof (Hsuf 1 ltac:(lia)) as HR1.
  pose proof (HsufS 0 ltac:(lia)) as HS0. pose proof (HsufS 1 ltac:(lia)) as HS1.
  change (4 + 0) with 4 in HR0. change (4 + 1) with 5 in HR1. rewrite Z.add_0_r in HS0.
  replace (vsize R + 6 + 1) with (vsize R + 7) in HS1 by lia.
  rewrite (der_integer_test R ([2; vsize S] ++ S ++ tail) HR), (der_integer_test S tail HS).
  unfold IsValidSignatureEncoding. cbv zeta.
  change (byte_at sig 0) with 0x30. change (byte_at sig 1) with (4 + vsize R + vsize S).
  change (byte_at sig 2) with 0x02. change (byte_at sig 3) with (vsize R).
  rewrite HlS, HR0, HR1, H02, HS0, HS1, Hsz. clear -PR PS. split.
  - intros E. repeat match type of E with (if ?c then false else _) = true =>
      let F := fresh "F" in destruct c eqn:F; [discriminate E | ] end.
    rewrite ?negb_false_iff in *. zbool. rewrite ?Z.eqb_eq. repeat split; try done; lia.
  - intros ([? ?] & (? & E1 & E2) & ? & E3 & E4).
    rewrite E1, E2, E3, E4. destruct ht; zcases; simpl; done || lia.
Qed.

(** Signature encodings: [IsValidSignatureEncoding] accepts exactly the byte vectors of 9
    to 73 bytes of the documented form [30 len 02 lenR R 02 lenS S (hashtype)] with [R] and [S]
    positive integers in their shortest form, and it never reads outside the vector. *)
Theorem valid_signature_is_DER sig haveHashType :
  are_bytes sig ->
  IsValidSignatureEncoding sig haveHashType = true <->
  9 <= vsize sig <= 73 /\ der_signature sig haveHashType.
Proof.
  intros Hb. unfold der_signature. split.
  - intros H. destruct (signature_split sig haveHashType) as (R & S & tail & Ht & Es); try done.
    1-7: unfold IsValidSignatureEncoding in H; cbv zeta in H;
      repeat match type of H with (if ?c then false else _) = true =>
        let E := fresh "E" in destruct c eqn:E; [discriminate H | ] end; zbool; lia.
    subst sig. rewrite !Forall_app in Hb. destruct Hb as (_ & HR & _ & HS & _).
    apply signature_verdict in H as (? & ? & ?); [ | done..]. split; [done | ]. by exists R, S, tail.
  - intros (Hs & R & S & tail & HR & HS & Ht & ->).
    rewrite !Forall_app in Hb. destruct Hb as (_ & HbR & _ & HbS & _).
    by apply signature_verdict.
Qed.

Lemma valid_signature_is_DER_witness :
  IsValidSignatureEncoding ([0x30; 6; 0x02; 1; 0x11; 0x02; 1; 0x22] ++ [1]) true = true.
Proof.
  apply (valid_signature_is_DER ([0x30; 6; 0x02; 1; 0x11; 0x02; 1; 0x22] ++ [1]) true).
  - repeat constructor; unfold is_byte; lia.
  - split; [vm_compute; split; discriminate | ].
    exists [0x11], [0x22], [1]. split_and!; reflexivity.
Defined.

(** *** Minimal pushes *)

(** The number of bytes of size that follow a push opcode. *)
Definition size_bytes (op : opcodetype) : nat :=
  if op <? OP_PUSHDATA1 then 0%nat else if op =? OP_PUSHDATA1 then 1%nat
  else if op =? OP_PUSHDATA2 then 2%nat else 4%nat.

Lemma GetScriptOp_shape pc op data rest :
  are_bytes pc -> vsize pc < 2 ^ 32 -> op <= OP_PUSHDATA4 -> GetScriptOp pc = Some (op, data, rest) ->
  pc = op :: le_encode (size_bytes op) (vsize data) ++ data ++ rest /\ 0 <= op /\
  (if op <? OP_PUSHDATA1 then vsize data = op
   else vsize data < 2 ^ (8 * Z.of_nat (size_bytes op))).
Proof.
  intros Hb Hs Hop H. unfold GetScriptOp in H. destruct pc as [ | b pc]; [done | ].
  apply Forall_cons in Hb as [Hbb Hb]. unfold is_byte in Hbb. rewrite vsize_cons in Hs.
  destruct (Z.leb_spec b OP_PUSHDATA4) as [Hle | Hgt].
  2: { injection H as <- <- <-. lia. }
  match type of H with match ?e with _ => _ end = _ =>
    destruct e as [[nSize q] | ] eqn:E; [ | done] end.
  assert (Hq : pc = le_encode (size_bytes b) nSize ++ q /\ 0 <= nSize /\
    (if b <? OP_PUSHDATA1 then nSize = b else nSize < 2 ^ (8 * Z.of_nat (size_bytes b)))).
  { assert (Hk : forall k, (if vsize pc <? Z.of_nat k then None
        else Some (le_decode (take k pc), drop k pc)) = Some (nSize, q) ->
      pc = le_encode k nSize ++ q /\ 0 <= nSize < 2 ^ (8 * Z.of_nat k)).
    { intros k. destruct (Z.ltb_spec (vsize pc) (Z.of_nat k)); [done | ]. intros [= <- <-].
      unfold vsize in *. pose proof (take_le_decode_bound k pc Hb ltac:(lia)).
      rewrite le_encode_decode by (try apply Forall_take; try done; rewrite length_take; lia).
      by rewrite take_drop. }
    unfold size_bytes. destruct (b <? OP_PUSHDATA1); [injection E as <- <-; split_and!; done || lia | ].
    destruct (b =? OP_PUSHDATA1); [apply (Hk 1%nat) in E; naive_solver | ].
    destruct (b =? OP_PUSHDATA2); [apply (Hk 2%nat) in E | apply (Hk 4%nat) in E]; naive_solver. }
  destruct Hq as (-> & Hn & Hsz). rewrite vsize_app in Hs.
  pose proof (vsize_nonneg q). pose proof (vsize_nonneg (le_encode (size_bytes b) nSize)).
  rewrite u32_id in H by lia. destruct (Z.ltb_spec (vsize q) nSize); [done | ]. injection H as <- <- <-.
  assert (Ev : vsize (take (Z.to_nat nSize) q) = nSize) by (unfold vsize in *; rewrite length_take; lia).
  rewrite Ev, take_drop. split_and!; done || lia.
Qed.

(** Data a one-byte opcode pushes: the numbers 1 to 16 and -1. *)
Definition small_number (data : bytes) : bool :=
  (vsize data =? 1) && (((1 <=? byte_at data 0) && (byte_at data 0 <=? 16)) || (byte_at data 0 =? 0x81)).

(** Minimal pushes: on every push instruction of a script [CheckMinimalPush] returns (its
    assertion holds), and it accepts exactly those written the way [CScript]'s [operator<<]
    writes that data, when the data is not one that a one-byte opcode pushes. *)
Theorem minimal_push_is_canonical pc op data rest :
  are_bytes pc -> vsize pc < 2 ^ 32 -> op <= OP_PUSHDATA4 ->
  GetScriptOp pc = Some (op, data, rest) ->
  exists minimal, CheckMinimalPush data op = Some minimal /\
    (minimal = true <-> small_number data = false /\ pc = push_data data ++ rest).
Proof.
  intros Hb Hs Hop HG. destruct (GetScriptOp_shape pc op data rest Hb Hs Hop HG) as (E & H0 & Hsz).
  unfold CheckMinimalPush. destruct (Z.leb_spec 0 op), (Z.leb_spec op OP_PUSHDATA4); try lia. simpl negb.
  cbv iota. eexists. split; [reflexivity | ]. pose proof (vsize_nonneg data) as Hd.
  assert (Hcanon : pc = push_data data ++ rest <-> op = push_opcode (vsize data)).
  { split.
    - intros E'. assert (Hl : vsize (data ++ rest) < 2 ^ 32).
      { rewrite E in Hs. rewrite vsize_cons, vsize_app in Hs.
        pose proof (vsize_nonneg (le_encode (size_bytes op) (vsize data))). lia. }
      rewrite E' in HG. rewrite (GetScriptOp_push data rest Hl) in HG. congruence.
    - intros ->. rewrite E. unfold push_data, push_opcode, size_bytes. unop.
      destruct (Z.ltb_spec (vsize data) 76).
      { destruct (Z.ltb_spec (vsize data) 76); [ | lia]. unfold u8. rewrite Z.mod_small by lia. done. }
      destruct (Z.leb_spec (vsize data) 0xff).
      { reflexivity. }
      destruct (Z.leb_spec (vsize data) 0xffff); by rewrite <- app_assoc. }
  rewrite Hcanon. unfold small_number, push_opcode. unop. unfold size_bytes in Hsz. unop.
  destruct (Z.eqb_spec (vsize data) 0).
  { rewrite e. simpl. lia. }
  destruct (Z.eqb_spec (vsize data) 1); cbn [andb].
  - destruct ((1 <=? byte_at data 0) && (byte_at data 0 <=? 16)); cbn [andb orb].
    { split; [done | intros [? _]; done]. }
    destruct (byte_at data 0 =? 0x81); [split; [done | intros [? _]; done] | ].
    destruct (Z.leb_spec (vsize data) 75), (Z.ltb_spec (vsize data) 76); lia.
  - destruct (Z.leb_spec (vsize data) 75), (Z.ltb_spec (vsize data) 76); try lia.
    destruct (Z.leb_spec (vsize data) 255); [lia | ].
    destruct (Z.leb_spec (vsize data) 65535); [lia | ].
    destruct (Z.ltb_spec op 76); [lia | ].
    destruct (Z.eqb_spec op 77); [change (2 ^ (8 * Z.of_nat 2)) with 65536 in *; destruct (op =? 76); lia | ].
    destruct (Z.eqb_spec op 76); [change (2 ^ (8 * Z.of_nat 1)) with 256 in *; lia | lia].
Qed.

Lemma minimal_push_is_canonical_witness :
  exists minimal, CheckMinimalPush [7; 7] 2 = Some minimal /\
    (minimal = true <-> small_number [7; 7] = false /\ [2; 7; 7; 0xac] = push_data [7; 7] ++ [0xac]).
Proof.
  apply (minimal_push_is_canonical [2; 7; 7; 0xac] 2 [7; 7] [0xac]).
  - repeat constructor; unfold is_byte; lia.
  - vm_compute. reflexivity.
  - vm_compute. discriminate.
  - vm_compute. reflexivity.
Defined.
