(* ===== verification/Interpreter.v ===== *)
(** * The script interpreter ([EvalScript] of [src/script/interpreter.cpp])

    The stack machine, one definition per opcode or group of opcodes, over a record of the
    loop's variables.  The main stack is a list whose head is [stack.back()], so [stacktop(-i)]
    is element [i - 1]; [vfExec] and the alternative stack likewise.  The hash functions, the
    curve's low-S test and the signature checker (its virtual methods) are parameters.
    Theorems: execution stays within its limits and never fails an assertion; verification
    flags only ever restrict what succeeds; [CHECKMULTISIG] succeeds exactly when the
    signatures can be matched, in order, to distinct keys. *)

From S2P Require Import Prelude ScriptNum Script SigEncoding.
Open Scope Z_scope.

(** ** Definitions *)

(** [class BaseSignatureChecker], by its virtual methods. *)
Record BaseSignatureChecker : Type := {
  CheckSig : valtype -> valtype -> CScript -> SigVersion -> bool;
  CheckLockTime : Z -> bool;
  CheckSequence : Z -> bool }.

(** The hash functions the opcodes use and the low-S test, none of them looked into. *)
Record Crypto : Type := {
  RIPEMD160 : bytes -> bytes;
  SHA1 : bytes -> bytes;
  SHA256 : bytes -> bytes;
  CheckLowS : bytes -> bool }.

(** [CHash160] and [CHash256] of [hash.h] *)
Definition Hash160 (c : Crypto) (b : bytes) : bytes := RIPEMD160 c (SHA256 c b).
Definition Hash256 (c : Crypto) (b : bytes) : bytes := SHA256 c (SHA256 c b).

(** How an instruction can end otherwise than by going on: [return set_error(...)], an exception
    caught by the loop's [catch (...)], a failed [assert], or the early [return true] of the
    contract opcodes, which leaves [serror] as it is. *)
Inductive outcome : Type :=
| Fail (e : ScriptError)
| Throw
| Abort
| Done (stack : list valtype).

Abbreviation exec A := (result outcome A).

(** The local variables of [EvalScript] other than [pc]. *)
Record estate : Type := mk_estate {
  stack : list valtype;
  altstack : list valtype;
  vfExec : list bool;
  pbegincodehash : bytes;
  nOpCount : Z }.

Definition with_stack (s : estate) (st : list valtype) : estate :=
  mk_estate st (altstack s) (vfExec s) (pbegincodehash s) (nOpCount s).
Definition with_vfExec (s : estate) (v : list bool) : estate :=
  mk_estate (stack s) (altstack s) v (pbegincodehash s) (nOpCount s).
Definition with_nOpCount (s : estate) (n : Z) : estate :=
  mk_estate (stack s) (altstack s) (vfExec s) (pbegincodehash s) n.

Definition vchFalse : valtype := [].
Definition vchTrue : valtype := [1].
Definition vchBool (b : bool) : valtype := if b then vchTrue else vchFalse.

Definition assert_that (b : bool) (e : ScriptError) : exec unit := if b then Ok tt else Err (Fail e).
Definition lift_check (c : check) : exec unit :=
  match c with Ok _ => Ok tt | Err e => Err (Fail e) end.
(** [CScriptNum(vch, fRequireMinimal, nMaxNumSize)], which throws. *)
Definition num (fRequireMinimal : bool) (size : Z) (vch : valtype) : exec Z :=
  match CScriptNum vch fRequireMinimal size with Ok n => Ok n | Err _ => Err Throw end.
Definition of_assert {A} (o : option A) : exec A :=
  match o with Some a => Ok a | None => Err Abort end.

Section Interpreter.
Context (C : Crypto) (checker : BaseSignatureChecker).

(** *** Stack manipulation: [OP_2DROP] to [OP_SIZE], on the main stack

    [None] is [SCRIPT_ERR_INVALID_STACK_OPERATION]: too few elements. *)
Definition stack_op (opcode : opcodetype) (st : list valtype) : option (list valtype) :=
  if opcode =? OP_2DROP then
    match st with _ :: _ :: st => Some st | _ => None end
  else if opcode =? OP_2DUP then
    match st with x2 :: x1 :: st => Some (x2 :: x1 :: x2 :: x1 :: st) | _ => None end
  else if opcode =? OP_3DUP then
    match st with
    | x3 :: x2 :: x1 :: st => Some (x3 :: x2 :: x1 :: x3 :: x2 :: x1 :: st)
    | _ => None
    end
  else if opcode =? OP_2OVER then
    match st with
    | x4 :: x3 :: x2 :: x1 :: st => Some (x2 :: x1 :: x4 :: x3 :: x2 :: x1 :: st)
    | _ => None
    end
  else if opcode =? OP_2ROT then
    match st with
    | x6 :: x5 :: x4 :: x3 :: x2 :: x1 :: st => Some (x2 :: x1 :: x6 :: x5 :: x4 :: x3 :: st)
    | _ => None
    end
  else if opcode =? OP_2SWAP then
    match st with
    | x4 :: x3 :: x2 :: x1 :: st => Some (x2 :: x1 :: x4 :: x3 :: st)
    | _ => None
    end
  else if opcode =? OP_IFDUP then
    match st with
    | x :: st => Some (if CastToBool x then x :: x :: st else x :: st)
    | _ => None
    end
  else if opcode =? OP_DEPTH then Some (serialize (vsize st) :: st)
  else if opcode =? OP_DROP then
    match st with _ :: st => Some st | _ => None end
  else if opcode =? OP_DUP then
    match st with x :: st => Some (x :: x :: st) | _ => None end
  else if opcode =? OP_NIP then
    match st with x2 :: _ :: st => Some (x2 :: st) | _ => None end
  else if opcode =? OP_OVER then
    match st with x2 :: x1 :: st => Some (x1 :: x2 :: x1 :: st) | _ => None end
  else if opcode =? OP_ROT then
    match st with x3 :: x2 :: x1 :: st => Some (x1 :: x3 :: x2 :: st) | _ => None end
  else if opcode =? OP_SWAP then
    match st with x2 :: x1 :: st => Some (x1 :: x2 :: st) | _ => None end
  else if opcode =? OP_TUCK then
    match st with x2 :: x1 :: st => Some (x2 :: x1 :: x2 :: st) | _ => None end
  else
    (* OP_SIZE *)
    match st with x :: st => Some (serialize (vsize x) :: x :: st) | _ => None end.

Definition is_stack_op (opcode : opcodetype) : bool :=
  bool_decide (opcode ∈ [OP_2DROP; OP_2DUP; OP_3DUP; OP_2OVER; OP_2ROT; OP_2SWAP; OP_IFDUP;
    OP_DEPTH; OP_DROP; OP_DUP; OP_NIP; OP_OVER; OP_ROT; OP_SWAP; OP_TUCK; OP_SIZE]).

(** [OP_PICK], [OP_ROLL] *)
Definition pick_roll (opcode : opcodetype) (fRequireMinimal : bool) (st : list valtype)
  : exec (list valtype) :=
  match st with
  | top :: ((_ :: _) as st) =>
      n0 ← num fRequireMinimal nDefaultMaxNumSize top;
      let n := getint n0 in
      if (n <? 0) || (vsize st <=? n) then Err (Fail SCRIPT_ERR_INVALID_STACK_OPERATION)
      else
        match st !! Z.to_nat n with
        | None => Err Throw
        | Some vch =>
            Ok (vch :: (if opcode =? OP_ROLL then delete (Z.to_nat n) st else st))
        end
  | _ => Err (Fail SCRIPT_ERR_INVALID_STACK_OPERATION)
  end.

(** [OP_EQUAL], [OP_EQUALVERIFY] *)
Definition op_equal (opcode : opcodetype) (st : list valtype) : exec (list valtype) :=
  match st with
  | vch2 :: vch1 :: st =>
      let fEqual := bool_decide (vch1 = vch2) in
      if opcode =? OP_EQUALVERIFY then
        if fEqual then Ok st else Err (Fail SCRIPT_ERR_EQUALVERIFY)
      else Ok (vchBool fEqual :: st)
  | _ => Err (Fail SCRIPT_ERR_INVALID_STACK_OPERATION)
  end.

(** *** Numeric opcodes *)

Definition Zbool (b : bool) : Z := if b then 1 else 0.

(** The inner [switch] of the one-operand opcodes. *)
Definition unary_num (opcode : opcodetype) (bn : Z) : option Z :=
  if opcode =? OP_1ADD then op_add_assign bn 1
  else if opcode =? OP_1SUB then op_sub_assign bn 1
  else if opcode =? OP_NEGATE then op_neg bn
  else if opcode =? OP_ABS then if bn <? 0 then op_neg bn else Some bn
  else if opcode =? OP_NOT then Some (Zbool (bn =? 0))
  else if opcode =? OP_0NOTEQUAL then Some (Zbool (negb (bn =? 0)))
  else None.

Definition is_unary_num (opcode : opcodetype) : bool :=
  bool_decide (opcode ∈ [OP_1ADD; OP_1SUB; OP_NEGATE; OP_ABS; OP_NOT; OP_0NOTEQUAL]).

Definition op_unary (opcode : opcodetype) (fRequireMinimal : bool) (st : list valtype)
  : exec (list valtype) :=
  match st with
  | top :: st =>
      bn ← num fRequireMinimal nDefaultMaxNumSize top;
      bn ← of_assert (unary_num opcode bn);
      Ok (serialize bn :: st)
  | _ => Err (Fail SCRIPT_ERR_INVALID_STACK_OPERATION)
  end.

(** The inner [switch] of the two-operand opcodes; the results of [+] and [-] are [int64_t]. *)
Definition binary_num (opcode : opcodetype) (bn1 bn2 : Z) : option Z :=
  if opcode =? OP_ADD then Some (i64 (bn1 + bn2))
  else if opcode =? OP_SUB then Some (i64 (bn1 - bn2))
  else if opcode =? OP_BOOLAND then Some (Zbool (negb (bn1 =? 0) && negb (bn2 =? 0)))
  else if opcode =? OP_BOOLOR then Some (Zbool (negb (bn1 =? 0) || negb (bn2 =? 0)))
  else if opcode =? OP_NUMEQUAL then Some (Zbool (bn1 =? bn2))
  else if opcode =? OP_NUMEQUALVERIFY then Some (Zbool (bn1 =? bn2))
  else if opcode =? OP_NUMNOTEQUAL then Some (Zbool (negb (bn1 =? bn2)))
  else if opcode =? OP_LESSTHAN then Some (Zbool (bn1 <? bn2))
  else if opcode =? OP_GREATERTHAN then Some (Zbool (bn2 <? bn1))
  else if opcode =? OP_LESSTHANOREQUAL then Some (Zbool (bn1 <=? bn2))
  else if opcode =? OP_GREATERTHANOREQUAL then Some (Zbool (bn2 <=? bn1))
  else if opcode =? OP_MIN then Some (if bn1 <? bn2 then bn1 else bn2)
  else if opcode =? OP_MAX then Some (if bn2 <? bn1 then bn1 else bn2)
  else None.

Definition is_binary_num (opcode : opcodetype) : bool :=
  bool_decide (opcode ∈ [OP_ADD; OP_SUB; OP_BOOLAND; OP_BOOLOR; OP_NUMEQUAL; OP_NUMEQUALVERIFY;
    OP_NUMNOTEQUAL; OP_LESSTHAN; OP_GREATERTHAN; OP_LESSTHANOREQUAL; OP_GREATERTHANOREQUAL;
    OP_MIN; OP_MAX]).

Definition op_binary (opcode : opcodetype) (fRequireMinimal : bool) (st : list valtype)
  : exec (list valtype) :=
  match st with
  | top2 :: top1 :: st =>
      bn1 ← num fRequireMinimal nDefaultMaxNumSize top1;
      bn2 ← num fRequireMinimal nDefaultMaxNumSize top2;
      bn ← of_assert (binary_num opcode bn1 bn2);
      if opcode =? OP_NUMEQUALVERIFY then
        if CastToBool (serialize bn) then Ok st else Err (Fail SCRIPT_ERR_NUMEQUALVERIFY)
      else Ok (serialize bn :: st)
  | _ => Err (Fail SCRIPT_ERR_INVALID_STACK_OPERATION)
  end.

Definition op_within (fRequireMinimal : bool) (st : list valtype) : exec (list valtype) :=
  match st with
  | x3 :: x2 :: x1 :: st =>
      bn1 ← num fRequireMinimal nDefaultMaxNumSize x1;
      bn2 ← num fRequireMinimal nDefaultMaxNumSize x2;
      bn3 ← num fRequireMinimal nDefaultMaxNumSize x3;
      Ok (vchBool ((bn2 <=? bn1) && (bn1 <? bn3)) :: st)
  | _ => Err (Fail SCRIPT_ERR_INVALID_STACK_OPERATION)
  end.

(** *** Hash opcodes *)

Definition is_hash_op (opcode : opcodetype) : bool :=
  bool_decide (opcode ∈ [OP_RIPEMD160; OP_SHA1; OP_SHA256; OP_HASH160; OP_HASH256]).

Definition op_hash (opcode : opcodetype) (st : list valtype) : exec (list valtype) :=
  match st with
  | vch :: st =>
      let vchHash :=
        if opcode =? OP_RIPEMD160 then RIPEMD160 C vch
        else if opcode =? OP_SHA1 then SHA1 C vch
        else if opcode =? OP_SHA256 then SHA256 C vch
        else if opcode =? OP_HASH160 then Hash160 C vch
        else Hash256 C vch in
      Ok (vchHash :: st)
  | _ => Err (Fail SCRIPT_ERR_INVALID_STACK_OPERATION)
  end.

(** *** Lock times *)

Definition SEQUENCE_FINAL : Z := 0xffffffff.
Definition SEQUENCE_LOCKTIME_DISABLE_FLAG : Z := Z.shiftl 1 31.
Definition SEQUENCE_LOCKTIME_TYPE_FLAG : Z := Z.shiftl 1 22.
Definition SEQUENCE_LOCKTIME_MASK : Z := 0x0000ffff.

Definition op_checklocktime (flags : Z) (fRequireMinimal : bool) (st : list valtype) : exec unit :=
  if negb (has flags SCRIPT_VERIFY_CHECKLOCKTIMEVERIFY) then Ok tt
  else match st with
  | [] => Err (Fail SCRIPT_ERR_INVALID_STACK_OPERATION)
  | top :: _ =>
      nLockTime ← num fRequireMinimal 5 top;
      if nLockTime <? 0 then Err (Fail SCRIPT_ERR_NEGATIVE_LOCKTIME)
      else if negb (CheckLockTime checker nLockTime) then Err (Fail SCRIPT_ERR_UNSATISFIED_LOCKTIME)
      else Ok tt
  end.

Definition op_checksequence (flags : Z) (fRequireMinimal : bool) (st : list valtype) : exec unit :=
  if negb (has flags SCRIPT_VERIFY_CHECKSEQUENCEVERIFY) then Ok tt
  else match st with
  | [] => Err (Fail SCRIPT_ERR_INVALID_STACK_OPERATION)
  | top :: _ =>
      nSequence ← num fRequireMinimal 5 top;
      if nSequence <? 0 then Err (Fail SCRIPT_ERR_NEGATIVE_LOCKTIME)
      else if negb (Z.land nSequence SEQUENCE_LOCKTIME_DISABLE_FLAG =? 0) then Ok tt
      else if negb (CheckSequence checker nSequence) then Err (Fail SCRIPT_ERR_UNSATISFIED_LOCKTIME)
      else Ok tt
  end.

(** *** Conditionals *)

Definition op_if (opcode : opcodetype) (flags : Z) (sigversion : SigVersion) (fExec : bool)
  (s : estate) : exec estate :=
  if fExec then
    match stack s with
    | [] => Err (Fail SCRIPT_ERR_UNBALANCED_CONDITIONAL)
    | vch :: st =>
        _ ← (if bool_decide (sigversion = WITNESS_V0) && has flags SCRIPT_VERIFY_MINIMALIF then
               if 1 <? vsize vch then Err (Fail SCRIPT_ERR_MINIMALIF)
               else if (vsize vch =? 1) && negb (byte_at vch 0 =? 1) then Err (Fail SCRIPT_ERR_MINIMALIF)
               else Ok tt
             else Ok tt);
        let fValue := CastToBool vch in
        let fValue := if opcode =? OP_NOTIF then negb fValue else fValue in
        Ok (with_vfExec (with_stack s st) (fValue :: vfExec s))
    end
  else Ok (with_vfExec s (false :: vfExec s)).

Definition op_else (s : estate) : exec estate :=
  match vfExec s with
  | [] => Err (Fail SCRIPT_ERR_UNBALANCED_CONDITIONAL)
  | b :: v => Ok (with_vfExec s (negb b :: v))
  end.

Definition op_endif (s : estate) : exec estate :=
  match vfExec s with
  | [] => Err (Fail SCRIPT_ERR_UNBALANCED_CONDITIONAL)
  | _ :: v => Ok (with_vfExec s v)
  end.

Definition op_verify (st : list valtype) : exec (list valtype) :=
  match st with
  | [] => Err (Fail SCRIPT_ERR_INVALID_STACK_OPERATION)
  | vch :: st => if CastToBool vch then Ok st else Err (Fail SCRIPT_ERR_VERIFY)
  end.

(** *** Signatures *)

(** Dropping a signature from the script code of a pre-segwit script. *)
Definition drop_signature (flags : Z) (sigversion : SigVersion) (vchSig : valtype) (scriptCode : CScript)
  : exec CScript :=
  match sigversion with
  | BASE =>
      let '(scriptCode, found) := FindAndDelete scriptCode (push_data vchSig) in
      if (0 <? found) && has flags SCRIPT_VERIFY_CONST_SCRIPTCODE
      then Err (Fail SCRIPT_ERR_SIG_FINDANDDELETE) else Ok scriptCode
  | WITNESS_V0 => Ok scriptCode
  end.

Definition check_encodings (flags : Z) (sigversion : SigVersion) (vchSig vchPubKey : valtype) : exec unit :=
  _ ← lift_check (CheckSignatureEncoding (CheckLowS C) vchSig flags);
  lift_check (CheckPubKeyEncoding vchPubKey flags sigversion).

(** [OP_CHECKSIG], [OP_CHECKSIGVERIFY] *)
Definition op_checksig (opcode : opcodetype) (flags : Z) (sigversion : SigVersion) (code : bytes)
  (st : list valtype) : exec (list valtype) :=
  match st with
  | vchPubKey :: vchSig :: st =>
      scriptCode ← drop_signature flags sigversion vchSig code;
      _ ← check_encodings flags sigversion vchSig vchPubKey;
      let fSuccess := CheckSig checker vchSig vchPubKey scriptCode sigversion in
      if negb fSuccess && has flags SCRIPT_VERIFY_NULLFAIL && negb (vsize vchSig =? 0)
      then Err (Fail SCRIPT_ERR_SIG_NULLFAIL)
      else if opcode =? OP_CHECKSIGVERIFY then
        if fSuccess then Ok st else Err (Fail SCRIPT_ERR_CHECKSIGVERIFY)
      else Ok (vchBool fSuccess :: st)
  | _ => Err (Fail SCRIPT_ERR_INVALID_STACK_OPERATION)
  end.

(** [for (int k = 0; k < nSigsCount; k++)]: drop every signature from the script code. *)
Fixpoint drop_signatures (flags : Z) (sigversion : SigVersion) (sigs : list valtype) (scriptCode : CScript)
  : exec CScript :=
  match sigs with
  | [] => Ok scriptCode
  | vchSig :: sigs =>
      scriptCode ← drop_signature flags sigversion vchSig scriptCode;
      drop_signatures flags sigversion sigs scriptCode
  end.

(** [while (fSuccess && nSigsCount > 0)]: [sigs] from [isig] on, [keys] from [ikey] on.  With
    fewer keys than signatures the loop has stopped; there is no key left to read. *)
Fixpoint multisig_loop (flags : Z) (sigversion : SigVersion) (scriptCode : CScript)
  (sigs keys : list valtype) : exec bool :=
  match sigs, keys with
  | [], _ => Ok true
  | _ :: _, [] => Err Throw
  | vchSig :: sigs', vchPubKey :: keys' =>
      _ ← check_encodings flags sigversion vchSig vchPubKey;
      let fOk := CheckSig checker vchSig vchPubKey scriptCode sigversion in
      let sigs := if fOk then sigs' else sigs in
      if vsize keys' <? vsize sigs then Ok false
      else multisig_loop flags sigversion scriptCode sigs keys'
  end.

(** [while (i-- > 1)]: [n] elements are popped; after [ikey2] of them come the signatures. *)
Fixpoint multisig_cleanup (n : nat) (flags : Z) (fSuccess : bool) (ikey2 : Z) (st : list valtype)
  : exec (list valtype) :=
  match n with
  | O => Ok st
  | S n =>
      match st with
      | [] => Err Throw
      | top :: st' =>
          if negb fSuccess && has flags SCRIPT_VERIFY_NULLFAIL && (ikey2 =? 0) && negb (vsize top =? 0)
          then Err (Fail SCRIPT_ERR_SIG_NULLFAIL)
          else multisig_cleanup n flags fSuccess (if 0 <? ikey2 then ikey2 - 1 else ikey2) st'
      end
  end.

(** What the opcode reads off the stack: the new [nOpCount], [nKeysCount], the keys, the
    signatures.  [stacktop(-ikey)] is element 1, [stacktop(-isig)] element [nKeysCount + 2]. *)
Definition multisig_args (fRequireMinimal : bool) (opCount : Z) (st : list valtype)
  : exec (Z * Z * list valtype * list valtype) :=
  match st with
  | [] => Err (Fail SCRIPT_ERR_INVALID_STACK_OPERATION)
  | top :: _ =>
      k ← num fRequireMinimal nDefaultMaxNumSize top;
      let nKeysCount := getint k in
      if (nKeysCount <? 0) || (MAX_PUBKEYS_PER_MULTISIG <? nKeysCount)
      then Err (Fail SCRIPT_ERR_PUBKEY_COUNT)
      else
      let opCount := opCount + nKeysCount in
      if MAX_OPS_PER_SCRIPT <? opCount then Err (Fail SCRIPT_ERR_OP_COUNT)
      else
      let i := 2 + nKeysCount in
      if vsize st <? i then Err (Fail SCRIPT_ERR_INVALID_STACK_OPERATION)
      else
      match st !! Z.to_nat (i - 1) with
      | None => Err Throw
      | Some sigcount =>
          n ← num fRequireMinimal nDefaultMaxNumSize sigcount;
          let nSigsCount := getint n in
          if (nSigsCount <? 0) || (nKeysCount <? nSigsCount) then Err (Fail SCRIPT_ERR_SIG_COUNT)
          else
          let i := i + 1 + nSigsCount in
          if vsize st <? i then Err (Fail SCRIPT_ERR_INVALID_STACK_OPERATION)
          else Ok (opCount, nKeysCount, take (Z.to_nat nKeysCount) (drop 1 st),
                   take (Z.to_nat nSigsCount) (drop (Z.to_nat (nKeysCount + 2)) st))
      end
  end.

(** [OP_CHECKMULTISIG], [OP_CHECKMULTISIGVERIFY]: the stack and [nOpCount] afterwards. *)
Definition op_checkmultisig (opcode : opcodetype) (flags : Z) (sigversion : SigVersion) (code : bytes)
  (opCount : Z) (st : list valtype) : exec (list valtype * Z) :=
  '(opCount, nKeysCount, keys, sigs) ← multisig_args (has flags SCRIPT_VERIFY_MINIMALDATA) opCount st;
  scriptCode ← drop_signatures flags sigversion sigs code;
  fSuccess ← multisig_loop flags sigversion scriptCode sigs keys;
  st ← multisig_cleanup (Z.to_nat (nKeysCount + vsize sigs + 2)) flags fSuccess (nKeysCount + 2) st;
  match st with
  | [] => Err (Fail SCRIPT_ERR_INVALID_STACK_OPERATION)
  | dummy :: st =>
      if has flags SCRIPT_VERIFY_NULLDUMMY && negb (vsize dummy =? 0)
      then Err (Fail SCRIPT_ERR_SIG_NULLDUMMY)
      else if opcode =? OP_CHECKMULTISIGVERIFY then
        if (fSuccess : bool) then Ok (st, opCount) else Err (Fail SCRIPT_ERR_CHECKMULTISIGVERIFY)
      else Ok (vchBool fSuccess :: st, opCount)
  end.

(** *** One instruction *)

Definition is_disabled (opcode : opcodetype) : bool :=
  bool_decide (opcode ∈ [OP_CAT; OP_SUBSTR; OP_LEFT; OP_RIGHT; OP_INVERT; OP_AND; OP_OR; OP_XOR;
    OP_2MUL; OP_2DIV; OP_MUL; OP_DIV; OP_MOD; OP_LSHIFT; OP_RSHIFT]).

Definition is_upgradable_nop (opcode : opcodetype) : bool :=
  bool_decide (opcode ∈ [OP_NOP1; OP_NOP4; OP_NOP5; OP_NOP6; OP_NOP7; OP_NOP8; OP_NOP9; OP_NOP10]).

Definition on_stack (s : estate) (r : exec (list valtype)) : exec estate :=
  st ← r; Ok (with_stack s st).

(** The [switch (opcode)]; [pc] is the script after the instruction, so an opcode without an
    operand is at [pc - 1]. *)
Definition switch_opcode (flags : Z) (sigversion : SigVersion) (fExec : bool) (opcode : opcodetype)
  (pc : bytes) (s : estate) : exec estate :=
  let fRequireMinimal := has flags SCRIPT_VERIFY_MINIMALDATA in
  let st := stack s in
  if (opcode =? OP_1NEGATE) || ((OP_1 <=? opcode) && (opcode <=? OP_16)) then
    Ok (with_stack s (serialize (opcode - (OP_1 - 1)) :: st))
  else if opcode =? OP_NOP then Ok s
  else if opcode =? OP_CHECKLOCKTIMEVERIFY then _ ← op_checklocktime flags fRequireMinimal st; Ok s
  else if opcode =? OP_CHECKSEQUENCEVERIFY then _ ← op_checksequence flags fRequireMinimal st; Ok s
  else if is_upgradable_nop opcode then
    if has flags SCRIPT_VERIFY_DISCOURAGE_UPGRADABLE_NOPS
    then Err (Fail SCRIPT_ERR_DISCOURAGE_UPGRADABLE_NOPS) else Ok s
  else if (opcode =? OP_IF) || (opcode =? OP_NOTIF) then op_if opcode flags sigversion fExec s
  else if opcode =? OP_ELSE then op_else s
  else if opcode =? OP_ENDIF then op_endif s
  else if opcode =? OP_VERIFY then on_stack s (op_verify st)
  else if opcode =? OP_RETURN then Err (Fail SCRIPT_ERR_OP_RETURN)
  else if opcode =? OP_TOALTSTACK then
    match st with
    | [] => Err (Fail SCRIPT_ERR_INVALID_STACK_OPERATION)
    | x :: st => Ok (mk_estate st (x :: altstack s) (vfExec s) (pbegincodehash s) (nOpCount s))
    end
  else if opcode =? OP_FROMALTSTACK then
    match altstack s with
    | [] => Err (Fail SCRIPT_ERR_INVALID_ALTSTACK_OPERATION)
    | x :: alt => Ok (mk_estate (x :: st) alt (vfExec s) (pbegincodehash s) (nOpCount s))
    end
  else if is_stack_op opcode then
    match stack_op opcode st with
    | None => Err (Fail SCRIPT_ERR_INVALID_STACK_OPERATION)
    | Some st => Ok (with_stack s st)
    end
  else if (opcode =? OP_PICK) || (opcode =? OP_ROLL) then on_stack s (pick_roll opcode fRequireMinimal st)
  else if (opcode =? OP_EQUAL) || (opcode =? OP_EQUALVERIFY) then on_stack s (op_equal opcode st)
  else if is_unary_num opcode then on_stack s (op_unary opcode fRequireMinimal st)
  else if is_binary_num opcode then on_stack s (op_binary opcode fRequireMinimal st)
  else if opcode =? OP_WITHIN then on_stack s (op_within fRequireMinimal st)
  else if is_hash_op opcode then on_stack s (op_hash opcode st)
  else if opcode =? OP_CODESEPARATOR then
    Ok (mk_estate st (altstack s) (vfExec s) pc (nOpCount s))
  else if (opcode =? OP_CHECKSIG) || (opcode =? OP_CHECKSIGVERIFY) then
    on_stack s (op_checksig opcode flags sigversion (pbegincodehash s) st)
  else if (opcode =? OP_CHECKMULTISIG) || (opcode =? OP_CHECKMULTISIGVERIFY) then
    '(st, n) ← op_checkmultisig opcode flags sigversion (pbegincodehash s) (nOpCount s) st;
    Ok (with_nOpCount (with_stack s st) n)
  else if opcode =? OP_SPEND then Err (Done st)
  else if (opcode =? OP_CREATE) || (opcode =? OP_CALL) then Err (Done ((opcode :: pc) :: st))
  else Err (Fail SCRIPT_ERR_BAD_OPCODE).

(** One turn of the loop on a decoded instruction, before the size limits. *)
Definition exec_instruction (flags : Z) (sigversion : SigVersion) (opcode : opcodetype)
  (vchPushValue : valtype) (pc : bytes) (s : estate) : exec estate :=
  let fExec := negb (existsb negb (vfExec s)) in
  if MAX_SCRIPT_ELEMENT_SIZE <? vsize vchPushValue then Err (Fail SCRIPT_ERR_PUSH_SIZE)
  else
  let s := if OP_16 <? opcode then with_nOpCount s (nOpCount s + 1) else s in
  if (OP_16 <? opcode) && (MAX_OPS_PER_SCRIPT <? nOpCount s) then Err (Fail SCRIPT_ERR_OP_COUNT)
  else if is_disabled opcode then Err (Fail SCRIPT_ERR_DISABLED_OPCODE)
  else if (opcode =? OP_CODESEPARATOR) && bool_decide (sigversion = BASE)
          && has flags SCRIPT_VERIFY_CONST_SCRIPTCODE
  then Err (Fail SCRIPT_ERR_OP_CODESEPARATOR)
  else if fExec && (0 <=? opcode) && (opcode <=? OP_PUSHDATA4) then
    _ ← (if has flags SCRIPT_VERIFY_MINIMALDATA then
           minimal ← of_assert (CheckMinimalPush vchPushValue opcode);
           assert_that minimal SCRIPT_ERR_MINIMALDATA
         else Ok tt);
    Ok (with_stack s (vchPushValue :: stack s))
  else if fExec || ((OP_IF <=? opcode) && (opcode <=? OP_ENDIF)) then
    switch_opcode flags sigversion fExec opcode pc s
  else Ok s.

(** The [while (pc < pend)] loop.  An instruction takes at least a byte: [length pc] turns are
    enough, and [Abort] for want of fuel is never reached. *)
Fixpoint eval_loop (fuel : nat) (flags : Z) (sigversion : SigVersion) (pc : bytes) (s : estate)
  : exec estate :=
  match pc, fuel with
  | [], _ => Ok s
  | _, O => Err Abort
  | _, S fuel =>
      match GetScriptOp pc with
      | None => Err (Fail SCRIPT_ERR_BAD_OPCODE)
      | Some (opcode, vchPushValue, pc) =>
          s ← exec_instruction flags sigversion opcode vchPushValue pc s;
          if MAX_STACK_SIZE <? vsize (stack s) + vsize (altstack s)
          then Err (Fail SCRIPT_ERR_STACK_SIZE)
          else eval_loop fuel flags sigversion pc s
      end
  end.

(** What [EvalScript] returns: true with the stack and [serror] it leaves, false with [serror], or
    a process stopped by an assertion. *)
Inductive eval_result : Type :=
| EvalTrue (stack : list valtype) (serror : ScriptError)
| EvalFalse (serror : ScriptError)
| EvalAbort.

Definition EvalScript (st : list valtype) (script : CScript) (flags : Z) (sigversion : SigVersion)
  : eval_result :=
  if MAX_SCRIPT_SIZE <? vsize script then EvalFalse SCRIPT_ERR_SCRIPT_SIZE
  else match eval_loop (length script) flags sigversion script (mk_estate st [] [] script 0) with
  | Ok s =>
      if negb (bool_decide (vfExec s = [])) then EvalFalse SCRIPT_ERR_UNBALANCED_CONDITIONAL
      else EvalTrue (stack s) SCRIPT_ERR_OK
  | Err (Fail e) => EvalFalse e
  | Err Throw => EvalFalse SCRIPT_ERR_UNKNOWN_ERROR
  | Err Abort => EvalAbort
  | Err (Done st) => EvalTrue st SCRIPT_ERR_UNKNOWN_ERROR
  end.

End Interpreter.

(** ** Theorems *)

(** *** Flags only restrict

    [r'] under more flags refines [r] under fewer: what it returns, and an early success, the
    other returns too. *)
Definition restricts {A} (r' r : exec A) : Prop :=
  (forall a, r' = Ok a -> r = Ok a) /\ (forall st, r' = Err (Done st) -> r = Err (Done st)).

(** More flags: every bit set in [F] is set in [F']. *)
Definition flags_le (F F' : Z) : Prop := Z.land F F' = F.

Lemma has_mono F F' m : flags_le F F' -> has F m = true -> has F' m = true.
Proof.
  unfold flags_le, has. intros E H. destruct (Z.eqb_spec (Z.land F' m) 0) as [E0 | ]; [ | done].
  rewrite <- E, <- Z.land_assoc, E0, Z.land_0_r in H. done.
Qed.

Lemma restricts_refl {A} (r : exec A) : restricts r r.
Proof. by split. Qed.

Lemma restricts_fail {A} e (r : exec A) : restricts (Err (Fail e)) r.
Proof. split; discriminate. Qed.

Lemma restricts_throw {A} (r : exec A) : restricts (Err Throw) r.
Proof. split; discriminate. Qed.

Lemma restricts_abort {A} (r : exec A) : restricts (Err Abort) r.
Proof. split; discriminate. Qed.

Lemma restricts_bind {A B} (r' r : exec A) (f' f : A -> exec B) :
  restricts r' r -> (forall a, r' = Ok a -> restricts (f' a) (f a)) ->
  restricts (r' ≫= f') (r ≫= f).
Proof.
  intros [Hok Hdone] Hf. unfold mbind, result_bind. split.
  - intros b Hb. destruct r' as [a | e]; [ | done]. rewrite (Hok a eq_refl). by apply (Hf a).
  - intros st Hst. destruct r' as [a | e]; [ | injection Hst as ->; by rewrite (Hdone st eq_refl)].
    rewrite (Hok a eq_refl). by apply (Hf a).
Qed.

(** A check that more flags make stricter. *)
Lemma restricts_guard {A} (b' b : bool) e e' (r' r : exec A) :
  (b = true -> b' = true) -> restricts r' r ->
  restricts (if b' then Err (Fail e') else r') (if b then Err (Fail e) else r).
Proof.
  intros Hb Hr. destruct b'; [apply restricts_fail | ]. destruct b; [by discriminate Hb | done].
Qed.

Create HintDb restrict.
#[export] Hint Resolve restricts_refl restricts_fail restricts_throw restricts_abort : restrict.

(** Case analysis on what both sides branch on alike. *)
Ltac rcase :=
  match goal with
  | |- restricts (match ?x with _ => _ end) (match ?x with _ => _ end) => destruct x
  | |- restricts (if ?c then _ else _) (if ?c then _ else _) => destruct c
  end.
Ltac rstep := first [by auto with restrict | apply restricts_bind; [ | intros ? _] | rcase].

Section FlagMonotonicity.
Context (C : Crypto) (checker : BaseSignatureChecker) (F F' : Z) (HF : flags_le F F').

Abbreviation hasm m := (has_mono F F' m HF).

Lemma num_mono size v :
  restricts (num (has F' SCRIPT_VERIFY_MINIMALDATA) size v) (num (has F SCRIPT_VERIFY_MINIMALDATA) size v).
Proof.
  unfold num, CScriptNum. destruct (size <? vsize v); [auto with restrict | ].
  destruct (has F SCRIPT_VERIFY_MINIMALDATA) eqn:E; [rewrite (hasm _ E); auto with restrict | ].
  simpl. destruct (_ && _ && _); auto with restrict.
Qed.

Lemma lift_check_mono (c' c : check) :
  (c' = Ok tt -> c = Ok tt) -> restricts (lift_check c') (lift_check c).
Proof.
  intros H. destruct c' as [[] | e]; simpl; [ | apply restricts_fail]. rewrite (H eq_refl). apply restricts_refl.
Qed.

Lemma check_encodings_mono sigversion sig key :
  restricts (check_encodings C F' sigversion sig key) (check_encodings C F sigversion sig key).
Proof.
  unfold check_encodings. apply restricts_bind; [ | intros _ _]; apply lift_check_mono.
  - unfold CheckSignatureEncoding. destruct (vsize sig =? 0); [done | ].
    set (M := Z.lor _ SCRIPT_VERIFY_STRICTENC).
    pose proof (hasm M) as H1. pose proof (hasm SCRIPT_VERIFY_LOW_S) as H2.
    pose proof (hasm SCRIPT_VERIFY_STRICTENC) as H3.
    destruct (has F M), (has F' M), (has F SCRIPT_VERIFY_LOW_S), (has F' SCRIPT_VERIFY_LOW_S),
      (has F SCRIPT_VERIFY_STRICTENC), (has F' SCRIPT_VERIFY_STRICTENC);
      try (by discriminate H1); try (by discriminate H2); try (by discriminate H3); simpl; try done.
    all: destruct (IsValidSignatureEncoding sig true); simpl; try done.
    all: destruct (IsLowDERSignature (CheckLowS C) sig true); simpl; try done.
    all: destruct (IsDefinedHashtypeSignature sig); simpl; done.
  - unfold CheckPubKeyEncoding. pose proof (hasm SCRIPT_VERIFY_STRICTENC) as H1.
    pose proof (hasm SCRIPT_VERIFY_WITNESS_PUBKEYTYPE) as H2.
    destruct (has F SCRIPT_VERIFY_STRICTENC), (has F' SCRIPT_VERIFY_STRICTENC),
      (has F SCRIPT_VERIFY_WITNESS_PUBKEYTYPE), (has F' SCRIPT_VERIFY_WITNESS_PUBKEYTYPE);
      try (by discriminate H1); try (by discriminate H2); simpl; try done.
    all: destruct (IsCompressedOrUncompressedPubKey key); simpl; try done.
    all: destruct (bool_decide _); simpl; try done; destruct (IsCompressedPubKey key); done.
Qed.

Lemma drop_signature_mono sigversion sig code :
  restricts (drop_signature F' sigversion sig code) (drop_signature F sigversion sig code).
Proof.
  unfold drop_signature. destruct sigversion; [ | auto with restrict].
  destruct (FindAndDelete code (push_data sig)) as [code' found].
  apply restricts_guard; [ | auto with restrict]. intros [-> H]%andb_true_iff. by rewrite (hasm _ H).
Qed.

Lemma op_checksig_mono op sigversion code st :
  restricts (op_checksig C checker op F' sigversion code st) (op_checksig C checker op F sigversion code st).
Proof.
  unfold op_checksig. destruct st as [ | key [ | sig st]]; [auto with restrict.. | ].
  apply restricts_bind; [apply drop_signature_mono | intros code' _].
  apply restricts_bind; [apply check_encodings_mono | intros _ _].
  apply restricts_guard; [ | auto with restrict].
  intros [[-> H]%andb_true_iff ->]%andb_true_iff. by rewrite (hasm _ H).
Qed.

Lemma drop_signatures_mono sigversion sigs code :
  restricts (drop_signatures F' sigversion sigs code) (drop_signatures F sigversion sigs code).
Proof.
  revert code. induction sigs as [ | sig sigs IH]; intros code; simpl; [auto with restrict | ].
  apply restricts_bind; [apply drop_signature_mono | auto].
Qed.

Lemma multisig_loop_mono sigversion code sigs keys :
  restricts (multisig_loop C checker F' sigversion code sigs keys)
            (multisig_loop C checker F sigversion code sigs keys).
Proof.
  revert sigs. induction keys as [ | key keys IH]; intros [ | sig sigs]; simpl; [auto with restrict.. | ].
  apply restricts_bind; [apply check_encodings_mono | intros _ _].
  destruct (_ <? _); [auto with restrict | apply IH].
Qed.

Lemma multisig_cleanup_mono n ok ikey2 st :
  restricts (multisig_cleanup n F' ok ikey2 st) (multisig_cleanup n F ok ikey2 st).
Proof.
  revert ikey2 st. induction n as [ | n IH]; intros ikey2 [ | top st]; simpl; [auto with restrict.. | ].
  apply restricts_guard; [ | apply IH].
  intros [[[-> H]%andb_true_iff ->]%andb_true_iff ->]%andb_true_iff. by rewrite (hasm _ H).
Qed.

Lemma multisig_args_mono n st :
  restricts (multisig_args (has F' SCRIPT_VERIFY_MINIMALDATA) n st)
            (multisig_args (has F SCRIPT_VERIFY_MINIMALDATA) n st).
Proof.
  unfold multisig_args. destruct st as [ | top st]; [auto with restrict | ].
  apply restricts_bind; [apply num_mono | intros k _].
  do 3 (rcase; [auto with restrict | ]). destruct (_ !! _); [ | auto with restrict].
  apply restricts_bind; [apply num_mono | intros m _]. auto with restrict.
Qed.

Lemma op_checkmultisig_mono op sigversion code n st :
  restricts (op_checkmultisig C checker op F' sigversion code n st)
            (op_checkmultisig C checker op F sigversion code n st).
Proof.
  unfold op_checkmultisig.
  apply restricts_bind; [apply multisig_args_mono | intros [[[n' k] keys] sigs] _].
  apply restricts_bind; [apply drop_signatures_mono | intros code' _].
  apply restricts_bind; [apply multisig_loop_mono | intros ok _].
  apply restricts_bind; [apply multisig_cleanup_mono | intros [ | dummy st'] _]; [auto with restrict | ].
  apply restricts_guard; [ | auto with restrict].
  intros [H ->]%andb_true_iff. by rewrite (hasm _ H).
Qed.

(** An opcode that only checks, enabled by a flag. *)
Lemma op_checklocktime_mono st :
  restricts (op_checklocktime checker F' (has F' SCRIPT_VERIFY_MINIMALDATA) st)
            (op_checklocktime checker F (has F SCRIPT_VERIFY_MINIMALDATA) st).
Proof.
  unfold op_checklocktime. destruct (has F SCRIPT_VERIFY_CHECKLOCKTIMEVERIFY) eqn:E.
  - rewrite (hasm _ E). simpl. destruct st as [ | top st]; [auto with restrict | ].
    apply restricts_bind; [apply num_mono | auto with restrict].
  - simpl. split; [by intros [] | ]. intros st'. destruct (negb _); [done | ].
    destruct st as [ | top st]; [done | ]. unfold num. destruct (CScriptNum _ _ _); simpl; [ | done].
    by repeat match goal with |- context [if ?c then _ else _] => destruct c end.
Qed.

Lemma op_checksequence_mono st :
  restricts (op_checksequence checker F' (has F' SCRIPT_VERIFY_MINIMALDATA) st)
            (op_checksequence checker F (has F SCRIPT_VERIFY_MINIMALDATA) st).
Proof.
  unfold op_checksequence. destruct (has F SCRIPT_VERIFY_CHECKSEQUENCEVERIFY) eqn:E.
  - rewrite (hasm _ E). simpl. destruct st as [ | top st]; [auto with restrict | ].
    apply restricts_bind; [apply num_mono | auto with restrict].
  - simpl. split; [by intros [] | ]. intros st'. destruct (negb _); [done | ].
    destruct st as [ | top st]; [done | ]. unfold num. destruct (CScriptNum _ _ _); simpl; [ | done].
    by repeat match goal with |- context [if ?c then _ else _] => destruct c end.
Qed.

Lemma op_if_mono op sigversion fExec s :
  restricts (op_if op F' sigversion fExec s) (op_if op F sigversion fExec s).
Proof.
  unfold op_if. destruct fExec; [ | auto with restrict]. destruct (stack s) as [ | v st]; [auto with restrict | ].
  apply restricts_bind; [ | auto with restrict].
  destruct (has F SCRIPT_VERIFY_MINIMALIF) eqn:E; [rewrite (hasm _ E); auto with restrict | ].
  rewrite andb_false_r. destruct (bool_decide _ && _); [ | auto with restrict].
  destruct (1 <? vsize v); [auto with restrict | ]. destruct (_ && _); auto with restrict.
Qed.

Lemma on_stack_mono s (r' r : exec (list valtype)) : restricts r' r -> restricts (on_stack s r') (on_stack s r).
Proof. intros H. apply restricts_bind; [done | auto with restrict]. Qed.

Lemma num_ops_mono op st :
  restricts (pick_roll op (has F' SCRIPT_VERIFY_MINIMALDATA) st) (pick_roll op (has F SCRIPT_VERIFY_MINIMALDATA) st) /\
  restricts (op_unary op (has F' SCRIPT_VERIFY_MINIMALDATA) st) (op_unary op (has F SCRIPT_VERIFY_MINIMALDATA) st) /\
  restricts (op_binary op (has F' SCRIPT_VERIFY_MINIMALDATA) st) (op_binary op (has F SCRIPT_VERIFY_MINIMALDATA) st) /\
  restricts (op_within (has F' SCRIPT_VERIFY_MINIMALDATA) st) (op_within (has F SCRIPT_VERIFY_MINIMALDATA) st).
Proof.
  unfold pick_roll, op_unary, op_binary, op_within. split_and!.
  - destruct st as [ | x [ | y st]]; [auto with restrict.. | ].
    apply restricts_bind; [apply num_mono | auto with restrict].
  - destruct st as [ | x st]; [auto with restrict | ].
    apply restricts_bind; [apply num_mono | auto with restrict].
  - destruct st as [ | x [ | y st]]; [auto with restrict.. | ].
    apply restricts_bind; [apply num_mono | intros n1 _].
    apply restricts_bind; [apply num_mono | auto with restrict].
  - destruct st as [ | x [ | y [ | z st]]]; [auto with restrict.. | ].
    apply restricts_bind; [apply num_mono | intros n1 _].
    apply restricts_bind; [apply num_mono | intros n2 _].
    apply restricts_bind; [apply num_mono | auto with restrict].
Qed.

Lemma switch_opcode_mono sigversion fExec op pc s :
  restricts (switch_opcode C checker F' sigversion fExec op pc s)
            (switch_opcode C checker F sigversion fExec op pc s).
Proof.
  destruct (num_ops_mono op (stack s)) as (Hpick & Hun & Hbin & Hwith).
  unfold switch_opcode.
  do 2 (rcase; [auto with restrict | ]).
  rcase; [apply restricts_bind; [apply op_checklocktime_mono | auto with restrict] | ].
  rcase; [apply restricts_bind; [apply op_checksequence_mono | auto with restrict] | ].
  rcase; [apply restricts_guard; [apply (hasm _) | auto with restrict] | ].
  rcase; [apply op_if_mono | ].
  do 7 (rcase; [auto with restrict | ]).
  rcase; [by apply on_stack_mono | ].
  rcase; [auto with restrict | ].
  do 3 (rcase; [by apply on_stack_mono | ]).
  do 2 (rcase; [auto with restrict | ]).
  rcase; [apply on_stack_mono, op_checksig_mono | ].
  rcase; [apply restricts_bind; [apply op_checkmultisig_mono | auto with restrict] | ].
  auto with restrict.
Qed.

Lemma exec_instruction_mono sigversion op v pc s :
  restricts (exec_instruction C checker F' sigversion op v pc s)
            (exec_instruction C checker F sigversion op v pc s).
Proof.
  unfold exec_instruction. do 3 (rcase; [auto with restrict | ]).
  apply restricts_guard; [intros [-> H]%andb_true_iff; by rewrite (hasm _ H) | ].
  rcase.
  - apply restricts_bind; [ | auto with restrict].
    destruct (has F SCRIPT_VERIFY_MINIMALDATA) eqn:E; [rewrite (hasm _ E); auto with restrict | ].
    destruct (has F' _); [ | auto with restrict].
    destruct (CheckMinimalPush v op) as [[ | ] | ]; simpl; auto with restrict.
  - rcase; [apply switch_opcode_mono | auto with restrict].
Qed.

Lemma eval_loop_mono fuel sigversion pc s :
  restricts (eval_loop C checker fuel F' sigversion pc s) (eval_loop C checker fuel F sigversion pc s).
Proof.
  revert pc s. induction fuel as [ | fuel IH]; intros [ | b pc] s; cbn [eval_loop]; [auto with restrict.. | ].
  destruct (GetScriptOp (b :: pc)) as [[[op v] pc'] | ]; [ | auto with restrict].
  apply restricts_bind; [apply exec_instruction_mono | intros s' _]. rcase; [auto with restrict | apply IH].
Qed.

Lemma EvalScript_mono st script sigversion st' e :
  EvalScript C checker st script F' sigversion = EvalTrue st' e ->
  EvalScript C checker st script F sigversion = EvalTrue st' e.
Proof.
  unfold EvalScript. destruct (_ <? _); [done | ].
  destruct (eval_loop_mono (length script) sigversion script (mk_estate st [] [] script 0)) as [Hok Hdone].
  destruct (eval_loop C checker (length script) F' _ _ _) as [s | [ | | | std]]; try done.
  - by rewrite (Hok s eq_refl).
  - by rewrite (Hdone std eq_refl).
Qed.

End FlagMonotonicity.

(** Verification flags are soft forks for [EvalScript]: a script that evaluates to true
    under some flags evaluates to true, with the same final stack, under any subset of them. *)
Theorem EvalScript_flags_soft_fork C checker F F' st script sigversion st' e :
  flags_le F F' ->
  EvalScript C checker st script F' sigversion = EvalTrue st' e ->
  EvalScript C checker st script F sigversion = EvalTrue st' e.
Proof. intros HF. by apply EvalScript_mono. Qed.

(** Stand-ins for the parameters, to run scripts with. *)
Definition toy_crypto : Crypto :=
  {| RIPEMD160 := fun b => take 20 (b ++ replicate 20 0); SHA1 := fun b => take 20 (b ++ replicate 20 1);
     SHA256 := fun b => take 32 (b ++ replicate 32 2); CheckLowS := fun _ => true |}.
Definition toy_checker : BaseSignatureChecker :=
  {| CheckSig := fun sig key _ _ => bool_decide (sig = key);
     CheckLockTime := fun n => n <? 100; CheckSequence := fun n => n <? 100 |}.

Lemma EvalScript_flags_soft_fork_witness :
  EvalScript toy_crypto toy_checker [] [OP_2; OP_3; OP_ADD; OP_5; OP_EQUAL] 0 BASE =
  EvalTrue [[1]] SCRIPT_ERR_OK.
Proof.
  apply (EvalScript_flags_soft_fork toy_crypto toy_checker 0 SCRIPT_VERIFY_MINIMALDATA).
  - reflexivity.
  - vm_compute. reflexivity.
Defined.

(** *** Matching signatures to keys *)

Section Multisig.
Context (C : Crypto) (checker : BaseSignatureChecker) (flags : Z) (sigversion : SigVersion).

(** The signatures can be matched, in order, to keys at distinct positions. *)
Definition signatures_match (code : CScript) (sigs keys : list valtype) : Prop :=
  exists ks, ks `sublist_of` keys /\
    Forall2 (fun sig key => CheckSig checker sig key code sigversion = true) sigs ks.

Lemma match_ok code sig sigs key keys :
  CheckSig checker sig key code sigversion = true ->
  signatures_match code (sig :: sigs) (key :: keys) <-> signatures_match code sigs keys.
Proof.
  intros Hok. unfold signatures_match. split.
  - intros (ks & Hs & H2). inversion H2 as [ | ? k ? ks' _ H2' ]; subst. exists ks'. split; [ | done].
    apply sublist_cons_l in Hs as (k1 & k2 & E & Hk2).
    destruct k1 as [ | x k1]; cbn [app] in E; injection E as -> ->; [done | ].
    etransitivity; [exact Hk2 | ]. apply sublist_inserts_l. by apply sublist_cons.
  - intros (ks & Hs & H2). exists (key :: ks). split; [by apply sublist_skip | by constructor].
Qed.

Lemma match_fail code sig sigs key keys :
  CheckSig checker sig key code sigversion = false ->
  signatures_match code (sig :: sigs) (key :: keys) <-> signatures_match code (sig :: sigs) keys.
Proof.
  intros Hno. unfold signatures_match. split; intros (ks & Hs & H2).
  - exists ks. split; [ | done]. inversion H2 as [ | ? k ? ks' Hk _]; subst.
    apply sublist_cons_r in Hs as [Hs | (l & [= -> ->] & _)]; [done | congruence].
  - exists ks. split; [by apply sublist_cons | done].
Qed.

(** The greedy loop decides whether they can be matched. *)
Lemma multisig_loop_decides code sigs keys b :
  vsize sigs <= vsize keys ->
  multisig_loop C checker flags sigversion code sigs keys = Ok b ->
  b = true <-> signatures_match code sigs keys.
Proof.
  revert sigs. induction keys as [ | key keys IH]; intros [ | sig sigs] Hl H; cbn [multisig_loop] in H.
  1, 3: injection H as <-; split; [intros _ | done]; exists []; split; [apply sublist_nil_l | constructor].
  { rewrite vsize_cons, vsize_nil in Hl. pose proof (vsize_nonneg sigs). lia. }
  ok_inv H. destruct (CheckSig checker sig key code sigversion) eqn:Ec.
  - rewrite !vsize_cons in Hl. destruct (Z.ltb_spec (vsize keys) (vsize sigs)); [lia | ].
    rewrite match_ok by done. by apply IH.
  - rewrite match_fail by done. destruct (Z.ltb_spec (vsize keys) (vsize (sig :: sigs))) as [Hlt | Hge].
    + injection H as <-. split; [done | ]. intros (ks & Hs & H2). exfalso.
      apply sublist_length in Hs. apply Forall2_length in H2. unfold vsize in Hlt. lia.
    + by apply IH.
Qed.

(** Without encoding checks it always reaches a verdict. *)
Lemma check_encodings_none sig key : check_encodings C 0 sigversion sig key = Ok tt.
Proof.
  unfold check_encodings, CheckSignatureEncoding, CheckPubKeyEncoding.
  change (has 0 _) with false. by destruct (vsize sig =? 0).
Qed.

Lemma multisig_loop_total code sigs keys :
  vsize sigs <= vsize keys -> exists b, multisig_loop C checker 0 sigversion code sigs keys = Ok b.
Proof.
  revert sigs. induction keys as [ | key keys IH]; intros [ | sig sigs] Hl; cbn [multisig_loop]; [eauto.. | | ].
  { rewrite vsize_cons, vsize_nil in Hl. pose proof (vsize_nonneg sigs). lia. } { eauto. }
  rewrite check_encodings_none. unfold mbind, result_bind.
  set (sigs1 := if CheckSig _ _ _ _ _ then _ else _).
  destruct (Z.ltb_spec (vsize keys) (vsize sigs1)); [eauto | ]. apply IH. lia.
Qed.

Lemma multisig_cleanup_drop n ok ikey2 st st' :
  multisig_cleanup n flags ok ikey2 st = Ok st' -> st' = drop n st /\ (n <= length st)%nat.
Proof.
  revert ikey2 st. induction n as [ | n IH]; intros ikey2 st H; simpl in H.
  - injection H as <-. rewrite drop_0. split; [done | lia].
  - destruct st as [ | x st]; [done | ]. destruct (_ && _); [done | ]. apply IH in H as [-> ?].
    simpl. split; [done | lia].
Qed.


(** What a successful reading of the arguments says about the stack. *)
Lemma multisig_args_ok fMin n st n' k keys sigs :
  multisig_args fMin n st = Ok (n', k, keys, sigs) ->
  exists top count dummy rest,
    st = top :: keys ++ count :: sigs ++ dummy :: rest /\
    vsize keys = k /\ vsize sigs <= vsize keys <= MAX_PUBKEYS_PER_MULTISIG /\
    n' = n + vsize keys /\ n' <= MAX_OPS_PER_SCRIPT.
Proof.
  unfold multisig_args. intros H. destruct st as [ | top st]; [done | ].
  ok_inv H. set (nk := getint a) in *. destruct (_ || _) eqn:E1; [done | ]. zbool.
  destruct (Z.ltb_spec MAX_OPS_PER_SCRIPT (n + nk)); [done | ].
  destruct (Z.ltb_spec (vsize (top :: st)) (2 + nk)); [done | ].
  destruct ((top :: st) !! Z.to_nat (2 + nk - 1)) as [count | ] eqn:Ec; [ | done].
  ok_inv H. set (ns := getint a0) in *. destruct (_ || _) eqn:E2; [done | ]. zbool.
  destruct (Z.ltb_spec (vsize (top :: st)) (2 + nk + 1 + ns)) as [ | Hlen]; [done | ]. injection H as <- <- <- <-.
  rewrite vsize_cons in Hlen. unfold vsize in Hlen.
  destruct (split_len st (Z.to_nat nk) (length st - Z.to_nat nk)) as (ks & t & -> & Hk & _); [lia | ].
  rewrite length_app in Hlen. destruct t as [ | c t]; [simpl in Hlen; lia | ]. simpl in Hlen.
  destruct (split_len t (Z.to_nat ns) (length t - Z.to_nat ns)) as (ss & u & -> & Hs & _); [lia | ].
  rewrite length_app in Hlen. destruct u as [ | dummy rest]; [simpl in Hlen; lia | ].
  cbn [drop]. rewrite drop_0. rewrite take_app_length' by done.
  replace (Z.to_nat (nk + 2)) with (S (length ks + 1)) by lia. cbn [drop].
  rewrite <- drop_drop, drop_app_length. cbn [drop]. rewrite drop_0, take_app_length' by done.
  exists top, c, dummy, rest. unfold vsize. unfold MAX_PUBKEYS_PER_MULTISIG in *.
  split_and!; try done; try lia.
Qed.

End Multisig.

(** [OP_CHECKMULTISIG]: when it completes, the stack was a key count, that many keys, a
    signature count, that many signatures (no more than keys, at most 20) and a dummy element;
    all are replaced by the verdict, which is true exactly when the signatures can be matched
    in order to distinct keys under the script code with the signatures dropped; and without
    encoding checks the matching loop always reaches a verdict. *)
Theorem checkmultisig_matches C checker flags sigversion code n st st' n' :
  op_checkmultisig C checker OP_CHECKMULTISIG flags sigversion code n st = Ok (st', n') ->
  exists top keys count sigs dummy rest scriptCode verdict,
    st = top :: keys ++ count :: sigs ++ dummy :: rest /\
    vsize sigs <= vsize keys <= MAX_PUBKEYS_PER_MULTISIG /\
    n' = n + vsize keys /\ n' <= MAX_OPS_PER_SCRIPT /\
    drop_signatures flags sigversion sigs code = Ok scriptCode /\
    st' = vchBool verdict :: rest /\
    (verdict = true <-> signatures_match checker sigversion scriptCode sigs keys) /\
    (exists b, multisig_loop C checker 0 sigversion scriptCode sigs keys = Ok b).
Proof.
  unfold op_checkmultisig. intros H. ok_inv H. destruct a as [[[n1 k] keys] sigs]. simpl in H.
  apply multisig_args_ok in E as (top & count & dummy & rest & -> & Hk & Hb & -> & Hn).
  ok_inv H. rename a into scriptCode. ok_inv H. rename a into verdict. ok_inv H.
  apply multisig_cleanup_drop in E1 as [-> _].
  replace (Z.to_nat (k + vsize sigs + 2)) with (S (length keys + S (length sigs))) in H
    by (unfold vsize in *; lia).
  cbn [drop] in H. rewrite <- drop_drop, drop_app_length in H. cbn [drop] in H.
  rewrite drop_app_length in H. destruct (has _ _ && _); [done | ].
  change (OP_CHECKMULTISIG =? OP_CHECKMULTISIGVERIFY) with false in H. injection H as <- <-.
  exists top, keys, count, sigs, dummy, rest, scriptCode, verdict. split_and!; try done; try lia.
  - by apply (multisig_loop_decides C checker flags); [lia | ].
  - apply multisig_loop_total. lia.
Qed.

Lemma checkmultisig_matches_witness :
  exists verdict, EvalScript toy_crypto toy_checker [] [OP_0; OP_7; OP_9; OP_2; OP_7; OP_8; OP_9; OP_3; OP_CHECKMULTISIG]
    0 WITNESS_V0 = EvalTrue [vchBool verdict] SCRIPT_ERR_OK /\
    (verdict = true <-> signatures_match toy_checker WITNESS_V0 [] [[9]; [7]] [[9]; [8]; [7]]).
Proof.
  destruct (checkmultisig_matches toy_crypto toy_checker 0 WITNESS_V0 [] 0
    [[3]; [9]; [8]; [7]; [2]; [9]; [7]; []] [[1]] 3) as
    (top & keys & count & sigs & dummy & rest & sc & v & Es & Hl & En & _ & Hd & Ev & Hiff & _).
  { vm_compute. reflexivity. }
  exists true. split; [vm_compute; reflexivity | ].
  assert (keys = [[9]; [8]; [7]] /\ sigs = [[9]; [7]] /\ v = true /\ sc = []) as (-> & -> & -> & ->).
  { destruct keys as [ | k1 [ | k2 [ | k3 [ | k4 keys]]]]; try (vm_compute in En; lia);
      rewrite ?vsize_cons in En; try (pose proof (vsize_nonneg keys); lia).
    injection Es as <- <- <- <- <- Es. destruct rest; [ | destruct v; discriminate Ev].
    destruct sigs as [ | s1 [ | s2 [ | s3 sigs]]]; try discriminate Es.
    - injection Es as <- <- <-. destruct v; [ | discriminate Ev]. vm_compute in Hd. by injection Hd as <-.
    - injection Es as _ _ _ Es. by destruct sigs. }
  exact Hiff.
Defined.

(** *** Safety and limits *)

Create HintDb elem.

(** The hash functions return byte strings of at most 32 bytes. *)
Definition crypto_ok (C : Crypto) : Prop :=
  forall b, are_bytes b -> let ok h := are_bytes h /\ vsize h <= 32 in
    ok (RIPEMD160 C b) /\ ok (SHA1 C b) /\ ok (SHA256 C b).

Section Safety.
(** The bound on the elements given: not below the one on those pushed. *)
Context (limit : Z) (Hlimit : MAX_SCRIPT_ELEMENT_SIZE <= limit).

(** A stack element within the limits. *)
Definition elem_ok (v : valtype) : Prop := are_bytes v /\ vsize v <= limit.

(** What an early success may leave *)
Context (done_ok : list valtype -> Prop).

(** No assertion fails, errors are errors, results satisfy [P]. *)
Definition safe {A} (P : A -> Prop) (r : exec A) : Prop :=
  match r with
  | Ok a => P a
  | Err (Fail e) => e <> SCRIPT_ERR_OK
  | Err Throw => True
  | Err Abort => False
  | Err (Done st) => done_ok st
  end.

Lemma safe_bind {A B} (P : A -> Prop) (Q : B -> Prop) r f :
  safe P r -> (forall a, P a -> safe Q (f a)) -> safe Q (r ≫= f).
Proof. destruct r as [a | [ | | | ]]; simpl; auto. Qed.

Lemma safe_imp {A} (P Q : A -> Prop) r : (forall a, P a -> Q a) -> safe P r -> safe Q r.
Proof. destruct r as [a | [ | | | ]]; simpl; auto. Qed.

Lemma back_byte l : are_bytes l -> is_byte (back l).
Proof.
  intros H. unfold back. induction H as [ | x l Hx Hl IH]; [done | ]. by destruct l.
Qed.

Lemma lor_byte a b : is_byte a -> is_byte b -> is_byte (Z.lor a b).
Proof.
  unfold is_byte. intros Ha Hb. assert (0 <= Z.lor a b) by (apply Z.lor_nonneg; lia). split; [done | ].
  change 256 with (2 ^ 8). apply Z.log2_lt_cancel. rewrite Z.log2_lor by lia. change (Z.log2 (2 ^ 8)) with 8.
  assert (forall x, 0 <= x < 256 -> Z.log2 x < 8) as Hx.
  { intros x Hx. destruct (decide (x = 0)) as [-> | ?]; [simpl; lia | ]. apply Z.log2_lt_pow2; lia. }
  pose proof (Hx a Ha). pose proof (Hx b Hb). lia.
Qed.

Lemma abs_bytes_ok f a : are_bytes (abs_bytes f a) /\ vsize (abs_bytes f a) <= Z.of_nat f.
Proof.
  revert a. induction f as [ | f IH]; intros a; simpl; [split; [constructor | unfold vsize; simpl; lia] | ].
  destruct (a =? 0); [split; [constructor | unfold vsize; simpl; lia] | ].
  destruct (IH (Z.shiftr a 8)) as [Hb Hl]. split; [constructor; [ | done] | rewrite vsize_cons; lia].
  rewrite land_255. apply Z.mod_pos_bound. lia.
Qed.

Lemma serialize_elem n : elem_ok (serialize n).
Proof.
  unfold MAX_SCRIPT_ELEMENT_SIZE in Hlimit. unfold serialize, elem_ok. destruct (n =? 0); [split; [constructor | unfold vsize; simpl; lia] | ].
  cbv zeta. set (r := abs_bytes 8 _).
  destruct (abs_bytes_ok 8 (u64 (if n <? 0 then - n else n))) as [Hb Hl]. fold r in Hb, Hl.
  assert (H128 : is_byte 0x80 /\ is_byte 0) by (unfold is_byte; lia).
  destruct (negb _).
  - split; [apply Forall_app; split; [done | by destruct (n <? 0); repeat constructor] | ].
    rewrite vsize_app. unfold vsize at 2. simpl. lia.
  - destruct (n <? 0); [ | split; [done | lia]]. unfold set_back. split.
    + apply Forall_app. split; [ | repeat constructor; by apply lor_byte; [apply back_byte | ]].
      clear -Hb. induction Hb as [ | x l Hx Hl IH]; [constructor | ]. simpl. destruct l; [constructor | by constructor].
    + rewrite vsize_app. assert (vsize (removelast r) <= vsize r).
      { clear. induction r as [ | x l IH]; [done | ]. simpl. destruct l; rewrite !vsize_cons in *; [unfold vsize; simpl; lia | lia]. }
      unfold vsize at 2. simpl. lia.
Qed.

Lemma vchBool_elem b : elem_ok (vchBool b).
Proof.
  unfold MAX_SCRIPT_ELEMENT_SIZE in Hlimit.
  destruct b; split; repeat constructor; unfold is_byte, vsize; simpl; lia.
Qed.

Hint Resolve serialize_elem vchBool_elem : elem.

(** Elements of a stack that starts with the ones in sight. *)
Ltac elems := repeat match goal with H : Forall elem_ok (_ :: _) |- _ => apply Forall_cons in H as [? ?] end.

Lemma num_safe fMin size v : elem_ok v -> 0 < size <= 7 ->
  safe (fun n => Z.abs n < 2 ^ (8 * size - 1)) (num fMin size v).
Proof.
  intros [Hv _] Hs. unfold num. destruct (CScriptNum v fMin size) as [n | e] eqn:E; simpl; [ | done].
  assert (Hp : 0 < 2 ^ (8 * size - 1)) by (apply Z.pow_pos_nonneg; lia).
  apply CScriptNum_inv in E as [[-> ->] | (m & s & a & _ & Hm & Ha & -> & _)]; [done | | done | lia].
  assert (2 ^ (8 * Z.of_nat (S m) - 1) <= 2 ^ (8 * size - 1)) by (apply Z.pow_le_mono_r; lia).
  destruct s; lia.
Qed.

Abbreviation elems_ok := (Forall elem_ok).

Lemma stack_op_safe op st st' : elems_ok st -> stack_op op st = Some st' -> elems_ok st'.
Proof.
  intros Hst H. unfold stack_op in H.
  repeat match type of H with (if ?c then _ else _) = _ => destruct c end.
  all: repeat match type of H with match ?l with _ => _ end = _ => destruct l as [ | ? l]; [discriminate H | ] end.
  all: injection H as <-; elems; try match goal with |- context [CastToBool ?x] => destruct (CastToBool x) end.
  all: repeat (apply Forall_cons; split); try done; auto with elem.
Qed.

Lemma pick_roll_safe op fMin st : elems_ok st -> safe elems_ok (pick_roll op fMin st).
Proof.
  intros Hst. unfold pick_roll. destruct st as [ | top [ | y st]]; try done. elems.
  eapply safe_bind; [apply num_safe; [done | unfold nDefaultMaxNumSize; lia] | intros n Hn].
  set (k := getint n). destruct (_ || _); [done | ].
  destruct ((y :: st) !! Z.to_nat k) as [v | ] eqn:E; [ | done]. simpl.
  assert (Hall : elems_ok (y :: st)) by (by constructor).
  constructor; [by apply (Forall_lookup_1 _ _ _ _ Hall E) | ].
  destruct (op =? OP_ROLL); [by apply Forall_delete | done].
Qed.

Lemma op_equal_safe op st : elems_ok st -> safe elems_ok (op_equal op st).
Proof.
  intros Hst. unfold op_equal. destruct st as [ | x [ | y st]]; try done. elems.
  destruct (op =? OP_EQUALVERIFY); [by destruct (bool_decide _) | ]. simpl. constructor; auto with elem.
Qed.

Lemma unary_num_some op n : is_unary_num op = true -> Z.abs n < 2 ^ 31 -> exists m, unary_num op n = Some m.
Proof.
  intros Hop Hn. unfold is_unary_num in Hop. apply bool_decide_eq_true in Hop. rewrite !elem_of_cons in Hop.
  unfold unary_num, op_add_assign, op_sub_assign, op_neg, INT64_MIN, INT64_MAX.
  assert (n <> - 2 ^ 63) by lia. destruct (Z.eqb_spec n (- 2 ^ 63)); [done | ].
  replace ((1 =? 0) || ((0 <? 1) && (n <=? 2 ^ 63 - 1 - 1)) || ((1 <? 0) && (- 2 ^ 63 - 1 <=? n))) with true by lia.
  replace ((1 =? 0) || ((0 <? 1) && (- 2 ^ 63 + 1 <=? n)) || ((1 <? 0) && (n <=? 2 ^ 63 - 1 + 1))) with true by lia.
  destruct Hop as [-> | [-> | [-> | [-> | [-> | [-> | Hop]]]]]]; [ .. | by apply not_elem_of_nil in Hop].
  all: unfold OP_1ADD, OP_1SUB, OP_NEGATE, OP_ABS, OP_NOT, OP_0NOTEQUAL; simpl; eauto.
  destruct (n <? 0); eauto.
Qed.

Lemma op_unary_safe op fMin st : is_unary_num op = true -> elems_ok st -> safe elems_ok (op_unary op fMin st).
Proof.
  intros Hop Hst. unfold op_unary. destruct st as [ | x st]; [done | ]. elems.
  eapply safe_bind; [apply num_safe; [done | unfold nDefaultMaxNumSize; lia] | intros n Hn].
  destruct (unary_num_some op n Hop) as [m ->]; [exact Hn | ]. simpl. constructor; auto with elem.
Qed.

Lemma binary_num_some op a b : is_binary_num op = true -> exists m, binary_num op a b = Some m.
Proof.
  intros Hop. unfold is_binary_num in Hop. apply bool_decide_eq_true in Hop. rewrite !elem_of_cons in Hop.
  unfold binary_num.
  repeat match goal with |- context [if ?c then _ else _] => destruct c eqn:?; [by eexists | ] end.
  zbool. exfalso. repeat (destruct Hop as [Hop | Hop]; [contradiction | ]). by apply not_elem_of_nil in Hop.
Qed.

Lemma op_binary_safe op fMin st : is_binary_num op = true -> elems_ok st -> safe elems_ok (op_binary op fMin st).
Proof.
  intros Hop Hst. unfold op_binary. destruct st as [ | x [ | y st]]; try done. elems.
  eapply safe_bind; [apply num_safe; [done | unfold nDefaultMaxNumSize; lia] | intros n1 _].
  eapply safe_bind; [apply num_safe; [done | unfold nDefaultMaxNumSize; lia] | intros n2 _].
  destruct (binary_num_some op n1 n2 Hop) as [m ->]. simpl.
  destruct (op =? OP_NUMEQUALVERIFY); [by destruct (CastToBool _) | ]. constructor; auto with elem.
Qed.

Lemma op_within_safe fMin st : elems_ok st -> safe elems_ok (op_within fMin st).
Proof.
  intros Hst. unfold op_within. destruct st as [ | x [ | y [ | z st]]]; try done. elems.
  do 3 (eapply safe_bind; [apply num_safe; [done | unfold nDefaultMaxNumSize; lia] | intros ? _]).
  simpl. constructor; auto with elem.
Qed.

Lemma op_hash_safe C op st : crypto_ok C -> elems_ok st -> safe elems_ok (op_hash C op st).
Proof.
  intros HC Hst. unfold op_hash. destruct st as [ | x st]; [done | ]. elems. simpl. constructor; [ | done].
  destruct H as [Hb _]. destruct (HC x Hb) as (H1 & H2 & H3). destruct (HC _ (proj1 H3)) as (H4 & _ & H5).
  unfold MAX_SCRIPT_ELEMENT_SIZE in Hlimit. unfold elem_ok, Hash160, Hash256.
  repeat match goal with |- context [if ?c then _ else _] => destruct c end; split; try tauto; lia.
Qed.

Lemma op_checklocktime_safe checker flags fMin st : elems_ok st ->
  safe (fun _ => True) (op_checklocktime checker flags fMin st) /\
  safe (fun _ => True) (op_checksequence checker flags fMin st).
Proof.
  intros Hst. unfold op_checklocktime, op_checksequence. split.
  all: destruct (negb _); [done | ]; destruct st as [ | x st]; [done | ]; elems.
  all: eapply safe_bind; [apply num_safe; [done | lia] | intros n _].
  all: by repeat match goal with |- context [if ?c then _ else _] => destruct c end.
Qed.

Lemma lift_check_safe c : (forall e, c = Err e -> e <> SCRIPT_ERR_OK) -> safe (fun _ => True) (lift_check c).
Proof. intros H. destruct c; simpl; auto. Qed.

Lemma check_encodings_safe C flags sv sig key : safe (fun _ => True) (check_encodings C flags sv sig key).
Proof.
  unfold check_encodings. eapply safe_bind; [apply lift_check_safe | intros _ _; apply lift_check_safe].
  - unfold CheckSignatureEncoding, IsLowDERSignature. intros e.
    repeat match goal with |- context [if ?c then _ else _] => destruct c end; simpl;
      try (by intros [= <-]); try done;
    repeat match goal with |- context [if ?c then _ else _] => destruct c end; by intros [= <-].
  - unfold CheckPubKeyEncoding. intros e.
    repeat match goal with |- context [if ?c then _ else _] => destruct c end; by intros [= <-].
Qed.

Lemma drop_signature_safe flags sv sig code : safe (fun _ => True) (drop_signature flags sv sig code).
Proof. unfold drop_signature. destruct sv; [ | done]. destruct (FindAndDelete _ _). by destruct (_ && _). Qed.

Lemma op_checksig_safe C checker op flags sv code st : elems_ok st ->
  safe elems_ok (op_checksig C checker op flags sv code st).
Proof.
  intros Hst. unfold op_checksig. destruct st as [ | x [ | y st]]; try done. elems.
  eapply safe_bind; [apply drop_signature_safe | intros code' _].
  eapply safe_bind; [apply check_encodings_safe | intros _ _].
  destruct (_ && _ && _); [done | ]. destruct (op =? OP_CHECKSIGVERIFY); [by destruct (CheckSig _ _ _ _ _) | ].
  simpl. constructor; auto with elem.
Qed.

Lemma drop_signatures_safe flags sv sigs code : safe (fun _ => True) (drop_signatures flags sv sigs code).
Proof.
  revert code. induction sigs as [ | sig sigs IH]; intros code; simpl; [done | ].
  eapply safe_bind; [apply drop_signature_safe | auto].
Qed.

Lemma multisig_loop_safe C checker flags sv code sigs keys :
  safe (fun _ => True) (multisig_loop C checker flags sv code sigs keys).
Proof.
  revert sigs. induction keys as [ | key keys IH]; intros [ | sig sigs]; simpl; try done.
  eapply safe_bind; [apply check_encodings_safe | intros _ _]. by destruct (_ <? _).
Qed.

Lemma multisig_cleanup_safe n flags ok ikey2 st : elems_ok st ->
  safe elems_ok (multisig_cleanup n flags ok ikey2 st).
Proof.
  revert ikey2 st. induction n as [ | n IH]; intros ikey2 st Hst; simpl; [done | ].
  destruct st as [ | x st]; [done | ]. elems. destruct (_ && _); [done | by apply IH].
Qed.

Lemma multisig_args_safe fMin n st : elems_ok st -> safe (fun _ => True) (multisig_args fMin n st).
Proof.
  intros Hst. unfold multisig_args. destruct st as [ | x st]; [done | ].
  eapply safe_bind; [apply num_safe; [by elems | unfold nDefaultMaxNumSize; lia] | intros k _].
  do 3 (match goal with |- context [if ?c then _ else _] => destruct c; [done | ] end).
  destruct ((x :: st) !! _) as [c | ] eqn:E; [ | done]. apply (Forall_lookup_1 _ _ _ _ Hst) in E.
  eapply safe_bind; [apply num_safe; [done | unfold nDefaultMaxNumSize; lia] | intros m _].
  by repeat match goal with |- context [if ?c then _ else _] => destruct c end.
Qed.

Lemma op_checkmultisig_safe C checker op flags sv code n st : elems_ok st -> n <= MAX_OPS_PER_SCRIPT ->
  safe (fun r => elems_ok (fst r) /\ snd r <= MAX_OPS_PER_SCRIPT) (op_checkmultisig C checker op flags sv code n st).
Proof.
  intros Hst Hn. unfold op_checkmultisig.
  destruct (multisig_args _ n st) as [[[[n' k] keys] sigs] | e] eqn:E.
  2: { pose proof (multisig_args_safe (has flags SCRIPT_VERIFY_MINIMALDATA) n st Hst) as H.
       rewrite E in H. simpl. by destruct e. }
  apply multisig_args_ok in E as (_ & _ & _ & _ & _ & _ & _ & _ & Hn'). simpl.
  eapply safe_bind; [apply drop_signatures_safe | intros code' _].
  eapply safe_bind; [apply multisig_loop_safe | intros ok _].
  eapply safe_bind; [by apply multisig_cleanup_safe | intros [ | dummy st'] Hst']; [done | ]. elems.
  destruct (_ && _); [done | ]. destruct (op =? OP_CHECKMULTISIGVERIFY); [by destruct ok | ].
  simpl. split; [constructor; auto with elem | done].
Qed.

Definition estate_ok (s : estate) : Prop :=
  elems_ok (stack s) /\ elems_ok (altstack s) /\ nOpCount s <= MAX_OPS_PER_SCRIPT.

Lemma on_stack_safe s r : estate_ok s -> safe elems_ok r -> safe estate_ok (on_stack s r).
Proof.
  intros (_ & Ha & Hn) Hr. eapply safe_bind; [exact Hr | ]. intros st Hst. by repeat split.
Qed.

Lemma op_if_safe op flags sv fExec s : estate_ok s -> safe estate_ok (op_if op flags sv fExec s).
Proof.
  intros (Hs & Ha & Hn). unfold op_if. destruct fExec; [ | by repeat split].
  destruct (stack s) as [ | v st]; [done | ]. elems. apply (safe_bind (fun _ => True)).
  - by repeat match goal with |- context [if ?c then _ else _] => destruct c end.
  - intros _ _. by repeat split.
Qed.

(** The three contract opcodes stop the evaluation: [OP_SPEND] with the stack as it is, the others
    with the rest of the script, from the opcode on, on top. *)
Definition contract_stop (op : opcodetype) (pc : bytes) (st st' : list valtype) : Prop :=
  (op = OP_SPEND /\ st' = st) \/ ((op = OP_CREATE \/ op = OP_CALL) /\ st' = (op :: pc) :: st).

Lemma switch_opcode_safe C checker flags sv fExec op pc s : crypto_ok C -> estate_ok s ->
  (forall st', contract_stop op pc (stack s) st' -> done_ok st') ->
  safe estate_ok (switch_opcode C checker flags sv fExec op pc s).
Proof.
  intros HC Hs Hdone. assert (Hs' := Hs). destruct Hs' as (Hst & Ha & Hn). unfold switch_opcode.
  match goal with |- context [op_checklocktime _ _ ?m _] =>
    destruct (op_checklocktime_safe checker flags m (stack s) Hst) as [Hl Hq] end.
  destruct (_ || _); [split; [constructor; auto with elem | done] | ].
  destruct (op =? OP_NOP); [done | ].
  destruct (op =? OP_CHECKLOCKTIMEVERIFY); [by eapply safe_bind | ].
  destruct (op =? OP_CHECKSEQUENCEVERIFY); [by eapply safe_bind | ].
  destruct (is_upgradable_nop op); [by destruct (has flags SCRIPT_VERIFY_DISCOURAGE_UPGRADABLE_NOPS) | ].
  destruct (_ || _); [by apply op_if_safe | ].
  destruct (op =? OP_ELSE); [unfold op_else; by destruct (vfExec s) | ].
  destruct (op =? OP_ENDIF); [unfold op_endif; by destruct (vfExec s) | ].
  destruct (op =? OP_VERIFY).
  { apply on_stack_safe; [done | ]. unfold op_verify. destruct (stack s) as [ | v st]; [done | ].
    elems. by destruct (CastToBool v). }
  destruct (op =? OP_RETURN); [done | ].
  destruct (op =? OP_TOALTSTACK).
  { destruct (stack s) as [ | v st]; [done | ]. elems. split; [done | split; [by constructor | done]]. }
  destruct (op =? OP_FROMALTSTACK).
  { destruct (altstack s) as [ | v st]; [done | ]. elems. split; [by constructor | done]. }
  destruct (is_stack_op op).
  { destruct (stack_op op (stack s)) as [st | ] eqn:E; [ | done]. apply stack_op_safe in E; [ | done].
    by repeat split. }
  destruct (_ || _); [by apply on_stack_safe, pick_roll_safe | ].
  destruct (_ || _); [by apply on_stack_safe, op_equal_safe | ].
  destruct (is_unary_num op) eqn:Eu; [by apply on_stack_safe, op_unary_safe | ].
  destruct (is_binary_num op) eqn:Eb; [by apply on_stack_safe, op_binary_safe | ].
  destruct (op =? OP_WITHIN); [by apply on_stack_safe, op_within_safe | ].
  destruct (is_hash_op op); [by apply on_stack_safe, op_hash_safe | ].
  destruct (op =? OP_CODESEPARATOR); [by repeat split | ].
  destruct (_ || _); [by apply on_stack_safe, op_checksig_safe | ].
  destruct (_ || _).
  { eapply safe_bind; [by apply op_checkmultisig_safe | ]. intros [st n] [Hst' Hn']. by repeat split. }
  destruct (Z.eqb_spec op OP_SPEND); [apply Hdone; by left | ].
  destruct (Z.eqb_spec op OP_CREATE); [apply Hdone; right; by auto | ]. destruct (Z.eqb_spec op OP_CALL); [apply Hdone; right; by auto | done].
Qed.

Lemma CheckMinimalPush_some v op : 0 <= op <= OP_PUSHDATA4 -> exists b, CheckMinimalPush v op = Some b.
Proof.
  intros H. unfold CheckMinimalPush. destruct (Z.leb_spec 0 op), (Z.leb_spec op OP_PUSHDATA4); try lia.
  simpl. eauto.
Qed.

Lemma exec_instruction_safe C checker flags sv op v pc s :
  crypto_ok C -> estate_ok s -> are_bytes v -> (forall st', contract_stop op pc (stack s) st' -> done_ok st') ->
  safe estate_ok (exec_instruction C checker flags sv op v pc s).
Proof.
  intros HC (Hst & Ha & Hn) Hv Hdone. unfold exec_instruction.
  destruct (Z.ltb_spec MAX_SCRIPT_ELEMENT_SIZE (vsize v)); [done | ].
  set (s1 := if OP_16 <? op then _ else s).
  destruct ((OP_16 <? op) && (MAX_OPS_PER_SCRIPT <? nOpCount s1)) eqn:Ec; [done | ].
  assert (Hs1 : estate_ok s1).
  { unfold s1 in *. destruct (OP_16 <? op); [ | done]. simpl in Ec. zbool. done. }
  destruct (is_disabled op); [done | ]. destruct (_ && _ && _); [done | ].
  destruct (negb _ && _ && _) eqn:Ep.
  - zbool. apply (safe_bind (fun _ => True)).
    + destruct (has _ _); [ | done]. destruct (CheckMinimalPush_some v op) as [[ | ] ->]; [lia | done..].
    + intros _ _. destruct Hs1 as (? & ? & ?). split; [ | done]. constructor; [split; [done | lia] | done].
  - destruct (_ || _); [ | done]. apply switch_opcode_safe; [done | done | ]. unfold s1. by destruct (OP_16 <? op).
Qed.

(** [pc] is at an instruction of [script]. *)
Inductive at_instruction (script : bytes) : bytes -> Prop :=
| at_start : at_instruction script script
| at_next pc op v pc' : at_instruction script pc -> GetScriptOp pc = Some (op, v, pc') -> at_instruction script pc'.

Lemma eval_loop_safe C checker bound fuel flags sv pc s :
  crypto_ok C -> estate_ok s -> are_bytes pc -> (length pc <= fuel)%nat -> MAX_STACK_SIZE <= bound -> vsize (stack s) <= bound ->
  (forall pc1 op v pc2 st st', at_instruction pc pc1 -> GetScriptOp pc1 = Some (op, v, pc2) -> Forall elem_ok st -> vsize st <= bound ->
     contract_stop op pc2 st st' -> done_ok st') ->
  safe (fun s' => estate_ok s' /\ (pc = [] /\ s' = s \/ vsize (stack s') + vsize (altstack s') <= MAX_STACK_SIZE))
    (eval_loop C checker fuel flags sv pc s).
Proof.
  intros HC. revert pc s. induction fuel as [ | fuel IH]; intros [ | b pc] s Hs Hb Hf Hbound Hcount Hdone; cbn [eval_loop];
    try (split; [done | by left]); [simpl in Hf; lia | ].
  destruct (GetScriptOp (b :: pc)) as [[[op v] pc'] | ] eqn:E; [ | done].
  destruct (GetScriptOp_bytes _ _ _ _ Hb E) as (Hop & Hv & Hb'). pose proof (GetScriptOp_shorter _ _ _ _ E) as Hlen. simpl in Hlen, Hf.
  eapply safe_bind.
  { apply exec_instruction_safe; [done | done | done | ]. intros st'. apply (Hdone (b :: pc) op v pc'); [constructor | done | apply Hs | done]. }
  intros s' Hs'. pose proof (vsize_nonneg (altstack s')). destruct (Z.ltb_spec MAX_STACK_SIZE (vsize (stack s') + vsize (altstack s'))); [done | ].
  eapply safe_imp; [ | apply IH; [done | done | lia | done | lia | ]].
  - intros s'' [Hs'' [[-> ->] | ?]]; split; try done; right; [lia | done].
  - intros pc1 op1 v1 pc2 st st' Hat. apply (Hdone pc1 op1 v1 pc2). clear -Hat E. induction Hat; [by eapply at_next; [constructor | ] | by eapply at_next].
Qed.

End Safety.

(** An early success: at some instruction of the script there is a contract opcode, and what is left is
    what it leaves of a stack within the limits. *)
Definition stopped (limit bound : Z) (script : CScript) (st' : list valtype) : Prop :=
  exists pc op v rest st1, at_instruction script pc /\ GetScriptOp pc = Some (op, v, rest) /\ contract_stop op rest st1 st' /\
    Forall (elem_ok limit) st1 /\ vsize st1 <= bound /\ are_bytes (op :: rest) /\ vsize (op :: rest) <= vsize script.

(** The verdict of [EvalScript] on a stack with elements up to [limit] bytes. *)
Definition eval_ok (limit : Z) (st : list valtype) (script : CScript) (r : eval_result) : Prop :=
  match r with
  | EvalAbort => False
  | EvalFalse e => e <> SCRIPT_ERR_OK
  | EvalTrue st' e =>
      e = SCRIPT_ERR_OK /\ Forall (elem_ok limit) st' /\ (script = [] /\ st' = st \/ vsize st' <= MAX_STACK_SIZE) \/
      e = SCRIPT_ERR_UNKNOWN_ERROR /\ stopped limit (Z.max MAX_STACK_SIZE (vsize st)) script st'
  end.

Lemma at_instruction_part script pc : are_bytes script -> at_instruction script pc -> are_bytes pc /\ vsize pc <= vsize script.
Proof.
  intros Hb. induction 1 as [ | pc op v pc' _ [IH1 IH2] E]; [done | ]. destruct (GetScriptOp_bytes _ _ _ _ IH1 E) as (_ & _ & Hb').
  split; [done | ]. apply GetScriptOp_shorter in E. unfold vsize in *. lia.
Qed.

Lemma EvalScript_safe_aux limit C checker st script flags sigversion :
  MAX_SCRIPT_ELEMENT_SIZE <= limit -> crypto_ok C -> Forall (elem_ok limit) st -> are_bytes script ->
  eval_ok limit st script (EvalScript C checker st script flags sigversion).
Proof.
  intros HL HC Hst Hb. unfold EvalScript. destruct (Z.ltb_spec MAX_SCRIPT_SIZE (vsize script)); [done | ].
  pose proof (eval_loop_safe limit HL (stopped limit (Z.max MAX_STACK_SIZE (vsize st)) script) C checker (Z.max MAX_STACK_SIZE (vsize st)) (length script) flags sigversion script
    (mk_estate st [] [] script 0) HC) as H'.
  assert (Hi : estate_ok limit (mk_estate st [] [] script 0)) by (split; [done | split; [constructor | done]]).
  specialize (H' Hi Hb ltac:(lia) ltac:(lia) ltac:(cbn [stack]; lia)). match type of H' with ?P -> _ => assert P as Hd end.
  { intros pc1 op v pc2 st1 st' Hat E Hel Hn Hstop. exists pc1, op, v, pc2, st1. destruct (at_instruction_part _ _ Hb Hat) as [Hb1 Hs1].
    destruct (GetScriptOp_bytes _ _ _ _ Hb1 E) as (Hop & _ & Hb2). pose proof (GetScriptOp_shorter _ _ _ _ E).
    split_and!; try done; [by constructor | ]. unfold vsize in *. cbn [length]. lia. }
  specialize (H' Hd).
  destruct (eval_loop _ _ _ _ _ _ _) as [s | [ | | | std]]; simpl in H' |- *; try done; [ | by right].
  destruct H' as [(Hs & Ha & _) Hl]. destruct (negb _); [done | ]. left. split; [done | ]. split; [done | ].
  destruct Hl as [[? ->] | Hl]; [by left | right]. pose proof (vsize_nonneg (altstack s)). lia.
Qed.


Lemma toy_crypto_ok : crypto_ok toy_crypto.
Proof.
  intros b Hb. cbv zeta. assert (Ht : forall n k l, are_bytes l -> is_byte k ->
    are_bytes (take n (l ++ replicate n k)) /\ vsize (take n (l ++ replicate n k)) <= Z.of_nat n).
  { intros n k l Hl Hk. split; [apply Forall_take, Forall_app; split; [done | by apply Forall_replicate] | ].
    unfold vsize. rewrite length_take. lia. }
  simpl RIPEMD160. simpl SHA1. simpl SHA256. split_and!.
  all: try apply (Ht 20%nat 0 b Hb); try apply (Ht 20%nat 1 b Hb); try apply (Ht 32%nat 2 b Hb);
    try (unfold is_byte; lia).
  - etransitivity; [apply (Ht 20%nat 0 b Hb); unfold is_byte; lia | lia].
  - etransitivity; [apply (Ht 20%nat 1 b Hb); unfold is_byte; lia | lia].
Qed.

