(* ===== verification/VerifyScript.v ===== *)
(** * Script verification ([VerifyScript], [VerifyWitnessProgram] and [CountWitnessSigOps] of
      [src/script/interpreter.cpp])

    Running a scriptSig against a scriptPubKey: the two evaluations, pay-to-script-hash, bare and
    nested witness programs, clean-stack and unexpected-witness rules.  Theorems: no assertion
    fails under consistent flags; consistent flags are soft forks; a pay-to-pubkey-hash output
    is spent exactly by a key of that hash and a signature the checker accepts. *)

From S2P Require Import Prelude ScriptNum Script SigEncoding Interpreter.
Open Scope Z_scope.

(** ** Definitions *)

Definition WITNESS_V0_SCRIPTHASH_SIZE : Z := 32.
Definition WITNESS_V0_KEYHASH_SIZE : Z := 20.

(** [false] with the error it sets, or a failed assertion. *)
Inductive verify_error : Type :=
| VFail (e : ScriptError)
| VAbort.

Abbreviation verify A := (result verify_error A).

(** [if (!EvalScript(...)) return false;] *)
Definition eval_or_fail (r : eval_result) : verify (list valtype) :=
  match r with
  | EvalTrue st _ => Ok st
  | EvalFalse e => Err (VFail e)
  | EvalAbort => Err VAbort
  end.

Definition require (b : bool) (e : ScriptError) : verify unit := if b then Ok tt else Err (VFail e).
Definition vassert (b : bool) : verify unit := if b then Ok tt else Err VAbort.

(** [stack.resize(1)]: the bottom element stays. *)
Definition resize_1 (st : list valtype) : list valtype :=
  match rev st with
  | [] => [[]]
  | x :: _ => [x]
  end.

Section Verify.
Context (C : Crypto) (checker : BaseSignatureChecker).

(** The script and the stack a version 0 program runs; the witness is in the vector's order. *)
Definition witness_v0_script (witness : CScriptWitness) (program : bytes)
  : verify (CScript * list valtype) :=
  if vsize program =? WITNESS_V0_SCRIPTHASH_SIZE then
    match rev witness with
    | [] => Err (VFail SCRIPT_ERR_WITNESS_PROGRAM_WITNESS_EMPTY)
    | scriptPubKey :: st =>
        if negb (bool_decide (SHA256 C scriptPubKey = program))
        then Err (VFail SCRIPT_ERR_WITNESS_PROGRAM_MISMATCH)
        else Ok (scriptPubKey, st)
    end
  else if vsize program =? WITNESS_V0_KEYHASH_SIZE then
    if negb (vsize witness =? 2) then Err (VFail SCRIPT_ERR_WITNESS_PROGRAM_MISMATCH)
    else Ok ([OP_DUP; OP_HASH160] ++ push_data program ++ [OP_EQUALVERIFY; OP_CHECKSIG], rev witness)
  else Err (VFail SCRIPT_ERR_WITNESS_PROGRAM_WRONG_LENGTH).

Definition VerifyWitnessProgram (witness : CScriptWitness) (witversion : Z) (program : bytes)
  (flags : Z) : verify unit :=
  if witversion =? 0 then
    '(scriptPubKey, st) ← witness_v0_script witness program;
    if existsb (fun v => MAX_SCRIPT_ELEMENT_SIZE <? vsize v) st then Err (VFail SCRIPT_ERR_PUSH_SIZE)
    else
    st ← eval_or_fail (EvalScript C checker st scriptPubKey flags WITNESS_V0);
    if negb (vsize st =? 1) then Err (VFail SCRIPT_ERR_CLEANSTACK)
    else match st with
    | [] => Err (VFail SCRIPT_ERR_CLEANSTACK)
    | top :: _ => require (CastToBool top) SCRIPT_ERR_EVAL_FALSE
    end
  else if has flags SCRIPT_VERIFY_DISCOURAGE_UPGRADABLE_WITNESS_PROGRAM
  then Err (VFail SCRIPT_ERR_DISCOURAGE_UPGRADABLE_WITNESS_PROGRAM)
  else Ok tt.

(** [stack.empty()] or a false top: [SCRIPT_ERR_EVAL_FALSE]. *)
Definition require_true (st : list valtype) : verify unit :=
  match st with
  | [] => Err (VFail SCRIPT_ERR_EVAL_FALSE)
  | top :: _ => require (CastToBool top) SCRIPT_ERR_EVAL_FALSE
  end.

(** "Bare witness programs": the stack and [hadWitness] afterwards. *)
Definition bare_witness (scriptSig scriptPubKey : CScript) (witness : CScriptWitness) (flags : Z)
  (st : list valtype) : verify (list valtype * bool) :=
  if has flags SCRIPT_VERIFY_WITNESS then
    match IsWitnessProgram scriptPubKey with
    | Some (version, program) =>
        _ ← require (vsize scriptSig =? 0) SCRIPT_ERR_WITNESS_MALLEATED;
        _ ← VerifyWitnessProgram witness version program flags;
        Ok (resize_1 st, true)
    | None => Ok (st, false)
    end
  else Ok (st, false).

(** "P2SH witness program" *)
Definition p2sh_witness (scriptSig pubKey2 : CScript) (witness : CScriptWitness) (flags : Z)
  (st : list valtype) (hadWitness : bool) : verify (list valtype * bool) :=
  if has flags SCRIPT_VERIFY_WITNESS then
    match IsWitnessProgram pubKey2 with
    | Some (version, program) =>
        _ ← require (bool_decide (scriptSig = push_data pubKey2)) SCRIPT_ERR_WITNESS_MALLEATED_P2SH;
        _ ← VerifyWitnessProgram witness version program flags;
        Ok (resize_1 st, true)
    | None => Ok (st, hadWitness)
    end
  else Ok (st, hadWitness).

(** "Additional validation for spend-to-script-hash transactions" *)
Definition p2sh_stage (scriptSig scriptPubKey : CScript) (witness : CScriptWitness) (flags : Z)
  (stackCopy : list valtype) (st : list valtype) (hadWitness : bool) : verify (list valtype * bool) :=
  if has flags SCRIPT_VERIFY_P2SH && IsPayToScriptHash scriptPubKey then
    _ ← require (IsPushOnly scriptSig) SCRIPT_ERR_SIG_PUSHONLY;
    match stackCopy with
    | [] => Err VAbort
    | pubKey2 :: st =>
        st ← eval_or_fail (EvalScript C checker st pubKey2 flags BASE);
        _ ← require_true st;
        p2sh_witness scriptSig pubKey2 witness flags st hadWitness
    end
  else Ok (st, hadWitness).

Definition final_checks (witness : CScriptWitness) (flags : Z) (st : list valtype) (hadWitness : bool)
  : verify unit :=
  _ ← (if has flags SCRIPT_VERIFY_CLEANSTACK then
         _ ← vassert (has flags SCRIPT_VERIFY_P2SH);
         _ ← vassert (has flags SCRIPT_VERIFY_WITNESS);
         require (vsize st =? 1) SCRIPT_ERR_CLEANSTACK
       else Ok tt);
  if has flags SCRIPT_VERIFY_WITNESS then
    _ ← vassert (has flags SCRIPT_VERIFY_P2SH);
    if negb hadWitness && negb (witness_IsNull witness) then Err (VFail SCRIPT_ERR_WITNESS_UNEXPECTED)
    else Ok tt
  else Ok tt.

(** [VerifyScript]; the null witness pointer is the empty witness.  [stackCopy] is only kept, and
    only used, with [SCRIPT_VERIFY_P2SH]. *)
Definition VerifyScript (scriptSig scriptPubKey : CScript) (witness : CScriptWitness) (flags : Z)
  : verify unit :=
  if has flags SCRIPT_VERIFY_SIGPUSHONLY && negb (IsPushOnly scriptSig)
  then Err (VFail SCRIPT_ERR_SIG_PUSHONLY)
  else
  st1 ← eval_or_fail (EvalScript C checker [] scriptSig flags BASE);
  st2 ← eval_or_fail (EvalScript C checker st1 scriptPubKey flags BASE);
  _ ← require_true st2;
  '(st3, hadWitness) ← bare_witness scriptSig scriptPubKey witness flags st2;
  '(st4, hadWitness) ← p2sh_stage scriptSig scriptPubKey witness flags st1 st3 hadWitness;
  final_checks witness flags st4 hadWitness.

End Verify.

(** *** Witness signature operations *)

Definition WitnessSigOps (witversion : Z) (witprogram : bytes) (witness : CScriptWitness) : Z :=
  if witversion =? 0 then
    if vsize witprogram =? WITNESS_V0_KEYHASH_SIZE then 1
    else if (vsize witprogram =? WITNESS_V0_SCRIPTHASH_SIZE) && (0 <? vsize witness) then
      match rev witness with
      | subscript :: _ => GetSigOpCount subscript true
      | [] => 0
      end
    else 0
  else 0.

(** The operand of the last instruction of [scriptSig], which is push-only here. *)
Fixpoint last_data (fuel : nat) (pc data : bytes) : bytes :=
  match fuel, GetScriptOp pc with
  | S fuel, Some (_, data, pc) => last_data fuel pc data
  | _, _ => data
  end.

(** [None] is the failed assertion that [WITNESS] comes with [P2SH]. *)
Definition CountWitnessSigOps (scriptSig scriptPubKey : CScript) (witness : CScriptWitness) (flags : Z)
  : option Z :=
  if negb (has flags SCRIPT_VERIFY_WITNESS) then Some 0
  else if negb (has flags SCRIPT_VERIFY_P2SH) then None
  else match IsWitnessProgram scriptPubKey with
  | Some (version, program) => Some (WitnessSigOps version program witness)
  | None =>
      if IsPayToScriptHash scriptPubKey && IsPushOnly scriptSig then
        match IsWitnessProgram (last_data (length scriptSig) scriptSig []) with
        | Some (version, program) => Some (WitnessSigOps version program witness)
        | None => Some 0
        end
      else Some 0
  end.

(** ** Theorems *)

(** The flags [VerifyScript] accepts without an assertion: [CLEANSTACK] and [WITNESS] come with
    what they need. *)
Definition flags_consistent (flags : Z) : Prop :=
  (has flags SCRIPT_VERIFY_WITNESS = true -> has flags SCRIPT_VERIFY_P2SH = true) /\
  (has flags SCRIPT_VERIFY_CLEANSTACK = true -> has flags SCRIPT_VERIFY_WITNESS = true).

(** *** Soft forks *)

Section SoftForks.
Context (C : Crypto) (checker : BaseSignatureChecker) (F F' : Z) (HF : flags_le F F').
Context (Hc : flags_consistent F).

Lemma vbind_ok {A B} (r : verify A) (f : A -> verify B) b :
  r ≫= f = Ok b -> exists a, r = Ok a /\ f a = Ok b.
Proof. destruct r as [a | e]; [eauto | done]. Qed.

Lemma eval_ok_mono st script sv st' :
  eval_or_fail (EvalScript C checker st script F' sv) = Ok st' ->
  eval_or_fail (EvalScript C checker st script F sv) = Ok st'.
Proof.
  destruct (EvalScript C checker st script F' sv) as [st1 e | | ] eqn:E; try done.
  by rewrite (EvalScript_mono C checker F F' HF _ _ _ _ _ E).
Qed.

Lemma VerifyWitnessProgram_mono witness v p :
  VerifyWitnessProgram C checker witness v p F' = Ok tt -> VerifyWitnessProgram C checker witness v p F = Ok tt.
Proof.
  unfold VerifyWitnessProgram. destruct (v =? 0).
  - intros H. apply vbind_ok in H as ([spk st] & E & H). rewrite E. simpl. destruct (existsb _ st); [done | ].
    apply vbind_ok in H as (st' & E' & H). by rewrite (eval_ok_mono _ _ _ _ E').
  - destruct (has F _) eqn:E; [by rewrite (has_mono _ _ _ HF E) | by destruct (has F' _)].
Qed.

Lemma bare_witness_mono ss spk w st r : has F SCRIPT_VERIFY_WITNESS = true ->
  bare_witness C checker ss spk w F' st = Ok r -> bare_witness C checker ss spk w F st = Ok r.
Proof.
  intros HW. unfold bare_witness. rewrite HW, (has_mono _ _ _ HF HW).
  destruct (IsWitnessProgram spk) as [[v p] | ]; [ | done]. intros H.
  apply vbind_ok in H as ([] & E & H). rewrite E. apply vbind_ok in H as ([] & E' & H).
  simpl. by rewrite (VerifyWitnessProgram_mono _ _ _ E').
Qed.

Lemma p2sh_witness_mono ss p2 w st had r : has F SCRIPT_VERIFY_WITNESS = true ->
  p2sh_witness C checker ss p2 w F' st had = Ok r -> p2sh_witness C checker ss p2 w F st had = Ok r.
Proof.
  intros HW. unfold p2sh_witness. rewrite HW, (has_mono _ _ _ HF HW).
  destruct (IsWitnessProgram p2) as [[v p] | ]; [ | done]. intros H.
  apply vbind_ok in H as ([] & E & H). rewrite E. apply vbind_ok in H as ([] & E' & H).
  simpl. by rewrite (VerifyWitnessProgram_mono _ _ _ E').
Qed.

(** The pay-to-script-hash stage under the smaller flags, whatever stack it is handed: it
    succeeds; and ends alike when witnesses are on. *)
Lemma p2sh_stage_mono ss spk w copy st had st' had' : has F SCRIPT_VERIFY_P2SH = true ->
  p2sh_stage C checker ss spk w F' copy st had = Ok (st', had') ->
  (has F SCRIPT_VERIFY_WITNESS = true -> p2sh_stage C checker ss spk w F copy st had = Ok (st', had')) /\
  forall st0 had0, exists r, p2sh_stage C checker ss spk w F copy st0 had0 = Ok r.
Proof.
  intros HP. unfold p2sh_stage. rewrite HP, (has_mono _ _ _ HF HP).
  destruct (IsPayToScriptHash spk); simpl; [ | by eauto]. intros H.
  apply vbind_ok in H as ([] & -> & H). destruct copy as [ | p2 copy]; [done | ]. simpl.
  apply vbind_ok in H as (st2 & E & H). rewrite (eval_ok_mono _ _ _ _ E). simpl.
  apply vbind_ok in H as ([] & -> & H). simpl. split.
  - intros HW. by apply p2sh_witness_mono.
  - intros st0 had0. unfold p2sh_witness in *. destruct (has F SCRIPT_VERIFY_WITNESS) eqn:HW; [ | eauto].
    rewrite (has_mono _ _ _ HF HW) in H. destruct (IsWitnessProgram p2) as [[v p] | ]; [ | eauto].
    apply vbind_ok in H as ([] & -> & H). apply vbind_ok in H as ([] & E' & _).
    simpl. rewrite (VerifyWitnessProgram_mono _ _ _ E'). simpl. eauto.
Qed.

Lemma final_checks_mono w st had : final_checks w F' st had = Ok tt -> final_checks w F st had = Ok tt.
Proof.
  destruct Hc as [HcP HcW]. unfold final_checks. intros H. apply vbind_ok in H as ([] & E1 & E2).
  destruct (has F SCRIPT_VERIFY_CLEANSTACK) eqn:HCl.
  - pose proof (HcW eq_refl) as HW. pose proof (HcP HW) as HP.
    rewrite (has_mono _ _ _ HF HCl), (has_mono _ _ _ HF HP), (has_mono _ _ _ HF HW) in *.
    rewrite HW, HP. simpl in *. by rewrite E1.
  - simpl. destruct (has F SCRIPT_VERIFY_WITNESS) eqn:HW; [ | done].
    pose proof (HcP eq_refl) as HP. rewrite (has_mono _ _ _ HF HW), (has_mono _ _ _ HF HP) in E2. by rewrite HP.
Qed.

Lemma final_checks_nothing w st had :
  has F SCRIPT_VERIFY_WITNESS = false -> final_checks w F st had = Ok tt.
Proof.
  intros HW. destruct Hc as [_ HcW]. unfold final_checks. rewrite HW.
  destruct (has F SCRIPT_VERIFY_CLEANSTACK); [discriminate (HcW eq_refl) || (rewrite HcW in HW; done) | done].
Qed.

Lemma VerifyScript_mono ss spk w :
  VerifyScript C checker ss spk w F' = Ok tt -> VerifyScript C checker ss spk w F = Ok tt.
Proof.
  unfold VerifyScript. intros H.
  destruct (has F SCRIPT_VERIFY_SIGPUSHONLY && negb (IsPushOnly ss)) eqn:E0.
  { apply andb_true_iff in E0 as [E0 E1]. by rewrite (has_mono _ _ _ HF E0), E1 in H. }
  destruct (_ && _); [done | ].
  apply vbind_ok in H as (st1 & E1 & H). rewrite (eval_ok_mono _ _ _ _ E1). simpl.
  apply vbind_ok in H as (st2 & E2 & H). rewrite (eval_ok_mono _ _ _ _ E2). simpl.
  apply vbind_ok in H as ([] & E3 & H). rewrite E3. simpl.
  apply vbind_ok in H as ([st3 had3] & E4 & H). apply vbind_ok in H as ([st4 had4] & E5 & H).
  destruct (has F SCRIPT_VERIFY_WITNESS) eqn:HW.
  - rewrite (bare_witness_mono _ _ _ _ _ HW E4). simpl.
    destruct (p2sh_stage_mono _ _ _ _ _ _ _ _ (proj1 Hc HW) E5) as [E5' _]. rewrite (E5' HW). simpl.
    by apply final_checks_mono.
  - unfold bare_witness. rewrite HW. simpl. destruct (has F SCRIPT_VERIFY_P2SH) eqn:HP.
    + destruct (p2sh_stage_mono _ _ _ _ _ _ _ _ HP E5) as [_ Hr]. destruct (Hr st2 false) as [[st5 had5] ->].
      simpl. by apply final_checks_nothing.
    + unfold p2sh_stage. rewrite HP. simpl. by apply final_checks_nothing.
Qed.

End SoftForks.

(** (C23) Verification flags are soft forks for [VerifyScript], as [interpreter.h] intends: for a
    consistent set of flags, whatever inputs are accepted under a larger set are accepted under
    it too. *)
Theorem VerifyScript_flags_soft_fork C checker F F' scriptSig scriptPubKey witness :
  flags_le F F' -> flags_consistent F ->
  VerifyScript C checker scriptSig scriptPubKey witness F' = Ok tt ->
  VerifyScript C checker scriptSig scriptPubKey witness F = Ok tt.
Proof. intros HF Hc. by apply VerifyScript_mono. Qed.

Lemma VerifyScript_flags_soft_fork_witness :
  VerifyScript toy_crypto toy_checker [OP_1] [OP_1; OP_EQUAL] [] SCRIPT_VERIFY_P2SH = Ok tt.
Proof.
  apply (VerifyScript_flags_soft_fork toy_crypto toy_checker SCRIPT_VERIFY_P2SH
    (SCRIPT_VERIFY_P2SH + SCRIPT_VERIFY_WITNESS + SCRIPT_VERIFY_CLEANSTACK)).
  - reflexivity.
  - split; vm_compute; discriminate.
  - vm_compute. reflexivity.
Defined.

(** *** No assertion fails *)

Lemma elems_weaken limit limit' st :
  limit <= limit' -> Forall (elem_ok limit) st -> Forall (elem_ok limit') st.
Proof. intros Hl H. eapply Forall_impl; [exact H | ]. intros v [Hb Hs]. split; [done | lia]. Qed.

(** Elements of stacks between scripts: an early success may have put a script on top. *)
Abbreviation belem := (elem_ok MAX_SCRIPT_SIZE).

Lemma eval_belem C checker st script flags sv : crypto_ok C -> Forall belem st -> are_bytes script ->
  match eval_or_fail (EvalScript C checker st script flags sv) with
  | Ok st' => Forall belem st'
  | Err VAbort => False
  | Err (VFail _) => True
  end.
Proof.
  intros HC Hst Hb.
  pose proof (EvalScript_safe_aux MAX_SCRIPT_SIZE C checker st script flags sv
    ltac:(unfold MAX_SCRIPT_ELEMENT_SIZE, MAX_SCRIPT_SIZE; lia) HC Hst Hb) as H.
  destruct (EvalScript C checker st script flags sv) as [st' e | e | ] eqn:E; simpl in H |- *; try done.
  destruct H as [(_ & ? & _) | (_ & pc & op & v & rest & st1 & _ & _ & [[_ ->] | [_ ->]] & Hst1 & _ & Hx & Hl)]; [done | done | ].
  constructor; [ | done]. split; [done | ]. unfold EvalScript in E. destruct (Z.ltb_spec MAX_SCRIPT_SIZE (vsize script)); [discriminate E | lia].
Qed.

(** [EvalScript] of a pay-to-script-hash script on an empty stack fails at its first opcode. *)
Lemma p2sh_needs_stack C checker h flags : length h = 20%nat ->
  EvalScript C checker [] ([OP_HASH160; 0x14] ++ h ++ [OP_EQUAL]) flags BASE =
  EvalFalse SCRIPT_ERR_INVALID_STACK_OPERATION.
Proof.
  intros Hh. unfold EvalScript. destruct (Z.ltb_spec MAX_SCRIPT_SIZE (vsize ([OP_HASH160; 20] ++ h ++ [OP_EQUAL]))) as [Hl | _].
  { rewrite !vsize_app in Hl. unfold vsize in Hl. rewrite Hh in Hl. vm_compute in Hl. done. }
  cbn [app length eval_loop]. rewrite GetScriptOp_op by (unfold OP_HASH160, OP_PUSHDATA4; lia). reflexivity.
Qed.

Lemma witness_no_abort C checker w v p flags :
  crypto_ok C -> Forall are_bytes w -> are_bytes p ->
  VerifyWitnessProgram C checker w v p flags <> Err VAbort.
Proof.
  intros HC Hw Hp. unfold VerifyWitnessProgram. destruct (v =? 0); [ | by destruct (has _ _)].
  unfold witness_v0_script.
  assert (Hr : Forall are_bytes (rev w)) by (by apply Forall_rev).
  assert (Hrun : forall spk st, are_bytes spk -> Forall are_bytes st ->
    (if existsb (fun v => MAX_SCRIPT_ELEMENT_SIZE <? vsize v) st then Err (VFail SCRIPT_ERR_PUSH_SIZE)
     else st ← eval_or_fail (EvalScript C checker st spk flags WITNESS_V0);
       if negb (vsize st =? 1) then Err (VFail SCRIPT_ERR_CLEANSTACK)
       else match st with
            | [] => Err (VFail SCRIPT_ERR_CLEANSTACK)
            | top :: _ => require (CastToBool top) SCRIPT_ERR_EVAL_FALSE
            end) <> Err VAbort).
  { intros spk st Hspk Hst. destruct (existsb _ st) eqn:Ex; [done | ].
    assert (Hst' : Forall belem st).
    { apply Forall_forall. intros x Hx. rewrite Forall_forall in Hst. split; [by apply Hst | ].
      destruct (Z.leb_spec (vsize x) MAX_SCRIPT_SIZE) as [? | Hgt]; [done | exfalso].
      apply eq_true_false_abs in Ex; [done | ]. apply existsb_exists. exists x.
      split; [by apply list_elem_of_In | ]. apply Z.ltb_lt. unfold MAX_SCRIPT_SIZE, MAX_SCRIPT_ELEMENT_SIZE in *. lia. }
    pose proof (eval_belem C checker st spk flags WITNESS_V0 HC Hst' Hspk) as H.
    destruct (eval_or_fail _) as [st1 | [ | ]]; simpl; [ | done..].
    destruct (negb _); [done | ]. destruct st1 as [ | top st1]; [done | ]. unfold require. by destruct (CastToBool top). }
  destruct (_ =? WITNESS_V0_SCRIPTHASH_SIZE).
  - destruct (rev w) as [ | spk st]; [done | ]. apply Forall_cons in Hr as [? ?].
    destruct (negb _); [done | ]. by apply Hrun.
  - destruct (_ =? WITNESS_V0_KEYHASH_SIZE); [ | done]. destruct (negb _); [done | ].
    apply Hrun; [ | done]. rewrite !Forall_app. split_and!; [ | by apply push_data_bytes | ].
    all: repeat constructor; unfold is_byte, OP_DUP, OP_HASH160, OP_EQUALVERIFY, OP_CHECKSIG; lia.
Qed.

Lemma IsWitnessProgram_bytes s v p : are_bytes s -> IsWitnessProgram s = Some (v, p) -> are_bytes p.
Proof.
  intros Hs (_ & _ & ->)%IsWitnessProgram_iff. inversion Hs as [ | ? ? _ Hs']. by inversion Hs'.
Qed.

Lemma final_checks_no_abort w flags st had : flags_consistent flags -> final_checks w flags st had <> Err VAbort.
Proof.
  intros [HP HW]. unfold final_checks, vassert, require.
  destruct (has flags SCRIPT_VERIFY_CLEANSTACK), (has flags SCRIPT_VERIFY_WITNESS),
    (has flags SCRIPT_VERIFY_P2SH), (vsize st =? 1), (negb had && negb (witness_IsNull w));
    simpl; try done; try (discriminate (HP eq_refl)); discriminate (HW eq_refl).
Qed.

Lemma require_no_abort b e : require b e <> Err VAbort.
Proof. by destruct b. Qed.

(** No assertion fails in [VerifyScript] under consistent flags: in particular the stack
    restored for a pay-to-script-hash output is never empty, as the comment at the assertion
    argues; and every verification ends with a verdict. *)
Theorem VerifyScript_no_abort C checker scriptSig scriptPubKey witness flags :
  crypto_ok C -> are_bytes scriptSig -> are_bytes scriptPubKey -> Forall are_bytes witness ->
  flags_consistent flags ->
  VerifyScript C checker scriptSig scriptPubKey witness flags = Ok tt \/
  exists e, VerifyScript C checker scriptSig scriptPubKey witness flags = Err (VFail e).
Proof.
  intros HC Hss Hspk Hw Hc.
  assert (H : VerifyScript C checker scriptSig scriptPubKey witness flags <> Err VAbort).
  2: { destruct (VerifyScript _ _ _ _ _ _) as [[] | [e | ]]; [by left | right; eauto | done]. }
  unfold VerifyScript. destruct (_ && _); [done | ].
  pose proof (eval_belem C checker [] scriptSig flags BASE HC ltac:(constructor) Hss) as H1.
  destruct (eval_or_fail (EvalScript C checker [] scriptSig flags BASE)) as [st1 | [ | ]]; simpl; [ | done..].
  pose proof (eval_belem C checker st1 scriptPubKey flags BASE HC H1 Hspk) as H2.
  destruct (EvalScript C checker st1 scriptPubKey flags BASE) as [st2 e2 | | ] eqn:E2; simpl in H2 |- *; [ | done..].
  destruct (require_true st2) as [[] | [e | ]] eqn:E3; simpl; [ | done | ].
  2: { unfold require_true in E3. destruct st2; [done | ]. by apply require_no_abort in E3. }
  destruct (bare_witness C checker scriptSig scriptPubKey witness flags st2) as [[st3 had] | [e | ]] eqn:E4; simpl; [ | done | ].
  2: { unfold bare_witness in E4. destruct (has _ _); [ | done].
       destruct (IsWitnessProgram scriptPubKey) as [[v p] | ] eqn:Ew; [ | done].
       unfold require in E4. destruct (_ =? 0); [ | done]. simpl in E4.
       destruct (VerifyWitnessProgram _ _ _ _ _ _) as [[] | [e | ]] eqn:Ev; try done.
       by apply witness_no_abort in Ev; [ | | | apply (IsWitnessProgram_bytes scriptPubKey v)]. }
  destruct (p2sh_stage C checker scriptSig scriptPubKey witness flags st1 st3 had) as [[st4 had4] | [e | ]] eqn:E5; simpl;
    [by apply final_checks_no_abort | done | ]. exfalso.
  unfold p2sh_stage in E5. destruct (has _ _ && _) eqn:Ep; [ | done]. apply andb_true_iff in Ep as [_ Ep].
  apply IsPayToScriptHash_iff in Ep as (h & Hh & Es). unfold require in E5.
  destruct (IsPushOnly scriptSig); [ | done]. simpl in E5. destruct st1 as [ | pubKey2 st1].
  { rewrite Es, p2sh_needs_stack in E2 by done. done. }
  apply Forall_cons in H1 as [[Hp2 _] Hst1].
  pose proof (eval_belem C checker st1 pubKey2 flags BASE HC Hst1 Hp2) as H5.
  destruct (eval_or_fail (EvalScript C checker st1 pubKey2 flags BASE)) as [st5 | [ | ]]; simpl in E5; [ | done..].
  destruct (require_true st5) as [[] | [e | ]] eqn:E6; simpl in E5; [ | done | ].
  2: { unfold require_true in E6. destruct st5; [done | ]. by apply require_no_abort in E6. }
  unfold p2sh_witness in E5. destruct (has _ _); [ | done].
  destruct (IsWitnessProgram pubKey2) as [[v p] | ] eqn:Ew; [ | done].
  unfold require in E5. destruct (bool_decide _); [ | done]. simpl in E5.
  destruct (VerifyWitnessProgram _ _ _ _ _ _) as [[] | [e | ]] eqn:Ev; try done.
  by apply witness_no_abort in Ev; [ | | | apply (IsWitnessProgram_bytes pubKey2 v)].
Qed.

(** *** Pay-to-pubkey-hash *)

Section Run.
Context (C : Crypto) (checker : BaseSignatureChecker) (flags : Z) (sv : SigVersion).

Lemma eval_loop_fuel f f' pc s : (length pc <= f)%nat -> (length pc <= f')%nat ->
  eval_loop C checker f flags sv pc s = eval_loop C checker f' flags sv pc s.
Proof.
  revert f' pc s. induction f as [ | f IH]; intros [ | f'] [ | b pc] s Hf Hf'; try done; simpl length in *; try lia.
  cbn [eval_loop]. destruct (GetScriptOp (b :: pc)) as [[[op v] pc'] | ] eqn:E; [ | done].
  apply GetScriptOp_shorter in E. simpl in E.
  destruct (exec_instruction _ _ _ _ _ _ _ _) as [s' | ]; simpl; [ | done]. destruct (_ <? _); [done | ]. apply IH; lia.
Qed.

(** One instruction that goes on. *)
Lemma eval_loop_step pc op v pc' s s' :
  GetScriptOp pc = Some (op, v, pc') ->
  exec_instruction C checker flags sv op v pc' s = Ok s' ->
  vsize (stack s') + vsize (altstack s') <= MAX_STACK_SIZE ->
  eval_loop C checker (length pc) flags sv pc s = eval_loop C checker (length pc') flags sv pc' s'.
Proof.
  intros HG HE Hs. destruct pc as [ | b pc]; [done | ]. cbn [length eval_loop]. rewrite HG, HE. simpl.
  destruct (Z.ltb_spec MAX_STACK_SIZE (vsize (stack s') + vsize (altstack s'))); [lia | ].
  apply GetScriptOp_shorter in HG. simpl in HG. apply eval_loop_fuel; lia.
Qed.

End Run.

Lemma push_opcode_small n : 0 <= n -> 0 <= push_opcode n <= OP_PUSHDATA4.
Proof. intros. unfold push_opcode. zcases; unop; lia. Qed.

(** A data push in a branch being executed, without the minimality flag. *)
Lemma exec_push_flags C checker flags sv b pc s : has flags SCRIPT_VERIFY_MINIMALDATA = false -> vsize b <= MAX_SCRIPT_ELEMENT_SIZE -> vfExec s = [] ->
  exec_instruction C checker flags sv (push_opcode (vsize b)) b pc s = Ok (with_stack s (b :: stack s)).
Proof.
  intros Hf Hb Hv. pose proof (push_opcode_small (vsize b) (vsize_nonneg b)). unfold exec_instruction.
  destruct (Z.ltb_spec MAX_SCRIPT_ELEMENT_SIZE (vsize b)); [lia | ].
  destruct (Z.ltb_spec OP_16 (push_opcode (vsize b))); [unop; lia | ]. cbn [andb].
  replace (is_disabled (push_opcode (vsize b))) with false.
  2: { symmetry. apply bool_decide_eq_false. rewrite !elem_of_cons, elem_of_nil. unop. lia. }
  destruct (Z.eqb_spec (push_opcode (vsize b)) OP_CODESEPARATOR); [unop; lia | ]. cbn [andb].
  rewrite Hv. destruct (Z.leb_spec 0 (push_opcode (vsize b))), (Z.leb_spec (push_opcode (vsize b)) OP_PUSHDATA4); try lia.
  by rewrite Hf.
Qed.
Lemma exec_push C checker sv b pc s : vsize b <= MAX_SCRIPT_ELEMENT_SIZE -> vfExec s = [] ->
  exec_instruction C checker 0 sv (push_opcode (vsize b)) b pc s = Ok (with_stack s (b :: stack s)).
Proof. by apply exec_push_flags. Qed.

Definition p2pkh_script (h : bytes) : CScript :=
  [OP_DUP; OP_HASH160; 0x14] ++ h ++ [OP_EQUALVERIFY; OP_CHECKSIG].

(** The script code a pre-segwit signature commits to. *)
Definition code_without (script : CScript) (sig : valtype) : CScript :=
  fst (FindAndDelete script (push_data sig)).

Lemma vsize_push_data b : vsize (push_data b) <= vsize b + 5.
Proof.
  unfold push_data. rewrite vsize_app. zcases; rewrite ?vsize_cons; unfold vsize; rewrite ?le_encode_length; simpl; lia.
Qed.

Lemma eval_two_pushes C checker sig key :
  vsize sig <= 520 -> vsize key <= 520 ->
  EvalScript C checker [] (push_data sig ++ push_data key) 0 BASE = EvalTrue [key; sig] SCRIPT_ERR_OK.
Proof.
  intros Hs Hk. pose proof (vsize_push_data sig). pose proof (vsize_push_data key).
  unfold EvalScript. destruct (Z.ltb_spec MAX_SCRIPT_SIZE (vsize (push_data sig ++ push_data key))) as [Hl | _].
  { rewrite vsize_app in Hl. unfold MAX_SCRIPT_SIZE in Hl. lia. }
  assert (HG1 := GetScriptOp_push sig (push_data key) ltac:(rewrite vsize_app; lia)).
  assert (HG2 := GetScriptOp_push key [] ltac:(rewrite app_nil_r; lia)). rewrite app_nil_r in HG2.
  erewrite eval_loop_step; [ | exact HG1 | apply exec_push; [unfold MAX_SCRIPT_ELEMENT_SIZE; lia | reflexivity] | ];
    [ | vm_compute; discriminate].
  erewrite eval_loop_step; [ | exact HG2 | apply exec_push; [unfold MAX_SCRIPT_ELEMENT_SIZE; lia | reflexivity] | ];
    [reflexivity | vm_compute; discriminate].
Qed.

Lemma eval_p2pkh C checker sig key h :
  length h = 20%nat -> vsize (Hash160 C key) <= MAX_SCRIPT_ELEMENT_SIZE ->
  EvalScript C checker [key; sig] (p2pkh_script h) 0 BASE =
  if bool_decide (Hash160 C key = h)
  then EvalTrue [vchBool (CheckSig checker sig key (code_without (p2pkh_script h) sig) BASE)] SCRIPT_ERR_OK
  else EvalFalse SCRIPT_ERR_EQUALVERIFY.
Proof.
  intros Hh Hhash. set (spk := p2pkh_script h). unfold EvalScript.
  assert (Lh : vsize h = 20) by (unfold vsize; lia).
  destruct (Z.ltb_spec MAX_SCRIPT_SIZE (vsize spk)) as [Hl | _].
  { unfold spk, p2pkh_script in Hl. rewrite !vsize_app, Lh in Hl. vm_compute in Hl. done. }
  unfold spk at 1 2, p2pkh_script. cbn [app].
  erewrite eval_loop_step; [ | apply GetScriptOp_op; unop; lia | reflexivity | vm_compute; discriminate].
  erewrite eval_loop_step; [ | apply GetScriptOp_op; unop; lia | reflexivity | vm_compute; discriminate].
  assert (HG : GetScriptOp (20 :: h ++ [OP_EQUALVERIFY; OP_CHECKSIG]) =
    Some (push_opcode (vsize h), h, [OP_EQUALVERIFY; OP_CHECKSIG])).
  { rewrite <- (GetScriptOp_push h) by (rewrite vsize_app, Lh; vm_compute; done).
    unfold push_data. rewrite Lh. reflexivity. }
  erewrite eval_loop_step; [ | exact HG | apply exec_push; [rewrite Lh; unfold MAX_SCRIPT_ELEMENT_SIZE; lia | reflexivity] | ];
    [ | vm_compute; discriminate].
  set (s3 := with_stack _ _).
  assert (E3 : s3 = mk_estate [h; Hash160 C key; key; sig] [] [] spk 2) by reflexivity.
  clearbody s3. subst s3.
  assert (HE : exec_instruction C checker 0 BASE OP_EQUALVERIFY [] [OP_CHECKSIG]
      (mk_estate [h; Hash160 C key; key; sig] [] [] spk 2) =
    if bool_decide (Hash160 C key = h) then Ok (mk_estate [key; sig] [] [] spk 3)
    else Err (Fail SCRIPT_ERR_EQUALVERIFY)).
  { transitivity (on_stack (mk_estate [h; Hash160 C key; key; sig] [] [] spk 3)
      (op_equal OP_EQUALVERIFY [h; Hash160 C key; key; sig])); [reflexivity | ].
    unfold op_equal. change (OP_EQUALVERIFY =? OP_EQUALVERIFY) with true. cbv iota.
    by destruct (bool_decide (Hash160 C key = h)). }
  destruct (bool_decide (Hash160 C key = h)).
  - erewrite eval_loop_step; [ | reflexivity | exact HE | vm_compute; discriminate].
    assert (HS : exec_instruction C checker 0 BASE OP_CHECKSIG [] [] (mk_estate [key; sig] [] [] spk 3) =
      Ok (mk_estate [vchBool (CheckSig checker sig key (code_without spk sig) BASE)] [] [] spk 4)).
    { transitivity (on_stack (mk_estate [key; sig] [] [] spk 4)
        (op_checksig C checker OP_CHECKSIG 0 BASE spk [key; sig])); [reflexivity | ].
      unfold op_checksig, drop_signature, code_without.
      destruct (FindAndDelete spk (push_data sig)) as [code found]. change (has 0 _) with false.
      rewrite andb_false_r. simpl mbind. rewrite check_encodings_none. simpl mbind.
      rewrite andb_false_r. reflexivity. }
    erewrite eval_loop_step; [ | reflexivity | exact HS | vm_compute; discriminate]. reflexivity.
  - cbn [length eval_loop]. rewrite GetScriptOp_op by (unop; lia). rewrite HE. reflexivity.
Qed.

(** Spending a pay-to-pubkey-hash output: pushing a signature and a key is accepted, with
    no flags, exactly when the key hashes to the output's hash and the checker accepts the
    signature for it over the output script with the signature dropped; under any flags,
    acceptance still implies both. *)
Theorem p2pkh_spend C checker sig key h flags :
  vsize sig <= 520 -> vsize key <= 520 -> length h = 20%nat ->
  vsize (Hash160 C key) <= MAX_SCRIPT_ELEMENT_SIZE ->
  let scriptSig := push_data sig ++ push_data key in
  let authorised := Hash160 C key = h /\
    CheckSig checker sig key (code_without (p2pkh_script h) sig) BASE = true in
  (VerifyScript C checker scriptSig (p2pkh_script h) [] 0 = Ok tt <-> authorised) /\
  (VerifyScript C checker scriptSig (p2pkh_script h) [] flags = Ok tt -> authorised).
Proof.
  intros Hs Hk Hh Hhash scriptSig authorised.
  assert (H0 : VerifyScript C checker scriptSig (p2pkh_script h) [] 0 = Ok tt <-> authorised).
  { unfold VerifyScript, scriptSig, authorised. change (has 0 _) with false. cbn [andb].
    rewrite eval_two_pushes by done. simpl mbind. rewrite eval_p2pkh by done.
    destruct (bool_decide (Hash160 C key = h)) eqn:Eh; simpl.
    - apply bool_decide_eq_true in Eh. unfold bare_witness, p2sh_stage, final_checks.
      change (has 0 _) with false. destruct (CheckSig _ _ _ _ _); simpl; [done | ]. split; [done | by intros [_ ?]].
    - apply bool_decide_eq_false in Eh. split; [done | by intros [? _]]. }
  split; [done | ]. intros H. apply H0. apply (VerifyScript_mono C checker 0 flags); [done | done | exact H].
Qed.

Lemma p2pkh_spend_witness :
  VerifyScript toy_crypto toy_checker (push_data [5; 6] ++ push_data [5; 6])
    (p2pkh_script (Hash160 toy_crypto [5; 6])) [] 0 = Ok tt.
Proof.
  destruct (p2pkh_spend toy_crypto toy_checker [5; 6] [5; 6] (Hash160 toy_crypto [5; 6]) 0) as [H _];
    [vm_compute; discriminate | vm_compute; discriminate | reflexivity | vm_compute; discriminate | ].
  apply H. split; [reflexivity | vm_compute; reflexivity].
Defined.

Lemma VerifyScript_no_abort_witness :
  VerifyScript toy_crypto toy_checker [OP_1] [OP_1; OP_EQUAL] [] SCRIPT_VERIFY_P2SH = Ok tt \/
  exists e, VerifyScript toy_crypto toy_checker [OP_1] [OP_1; OP_EQUAL] [] SCRIPT_VERIFY_P2SH = Err (VFail e).
Proof.
  apply (VerifyScript_no_abort toy_crypto toy_checker [OP_1] [OP_1; OP_EQUAL] [] SCRIPT_VERIFY_P2SH).
  - apply toy_crypto_ok.
  - repeat constructor; unfold is_byte, OP_1; lia.
  - repeat constructor; unfold is_byte, OP_1, OP_EQUAL; lia.
  - constructor.
  - split; vm_compute; discriminate.
Defined.
