(* ===== verification/Standard.v ===== *)
(** * Standard outputs ([src/script/standard.h], [src/script/standard.cpp])

    The template matcher [Solver] (with the contract templates and the rules on their version,
    gas limit and gas price), destinations, and the scripts made for them; the part of [CPubKey]
    ([src/pubkey.h]) that looks at sizes only and [VersionVM] ([src/xax/xaxtransaction.h]).
    Theorems: [Solver] always answers, and the answer of every type is given exactly to the
    scripts of its form; a destination is read back from its script. *)

From S2P Require Import Prelude ScriptNum Script SigEncoding Interpreter VerifyScript.
Open Scope Z_scope.

(** ** Definitions *)

(** *** Contract versions: a packed struct of bit fields read as a 32-bit word *)

Record VersionVM : Type := mk_VersionVM {
  vm_format : Z;       (* 2 bits *)
  rootVM : Z;          (* 6 bits *)
  vmVersion : Z;       (* 8 bits *)
  flagOptions : Z }.   (* 16 bits *)

(** Little-endian hosts: [format] holds the lowest bits. *)
Definition toRaw (v : VersionVM) : Z :=
  Z.lor (vm_format v) (Z.lor (Z.shiftl (rootVM v) 2) (Z.lor (Z.shiftl (vmVersion v) 8) (Z.shiftl (flagOptions v) 16))).
Definition fromRaw (val : Z) : VersionVM :=
  mk_VersionVM (Z.land val 3) (Z.land (Z.shiftr val 2) 63) (Z.land (Z.shiftr val 8) 255) (Z.land (Z.shiftr val 16) 65535).
Definition GetNoExec : VersionVM := mk_VersionVM 0 0 0 0.
Definition GetEVMDefault : VersionVM := mk_VersionVM 0 1 0 0.

(** *** Public keys: the bytes between [begin()] and [end()]; none for an invalid key *)

Definition GetLen (chHeader : Z) : Z :=
  if (chHeader =? 2) || (chHeader =? 3) then COMPRESSED_PUBLIC_KEY_SIZE
  else if (chHeader =? 4) || (chHeader =? 6) || (chHeader =? 7) then PUBLIC_KEY_SIZE else 0.
Definition CPubKey_Set (vch : bytes) : bytes :=
  let len := if bool_decide (vch = []) then 0 else GetLen (byte_at vch 0) in
  if negb (len =? 0) && (len =? vsize vch) then vch else [].
Definition CPubKey_IsValid (key : bytes) : bool := 0 <? vsize key.

(** *** Output types and templates *)

Inductive txnouttype : Type :=
| TX_NONSTANDARD | TX_PUBKEY | TX_PUBKEYHASH | TX_SCRIPTHASH | TX_MULTISIG | TX_NULL_DATA
| TX_WITNESS_V0_SCRIPTHASH | TX_WITNESS_V0_KEYHASH | TX_WITNESS_UNKNOWN | TX_CREATE | TX_CALL.

#[export] Instance txnouttype_eq_dec : EqDecision txnouttype.
Proof. solve_decision. Defined.

Definition STANDARD_MINIMUM_GAS_LIMIT : Z := 10000.
Definition STANDARD_MINIMUM_GAS_PRICE : Z := 1.
Definition MAX_BLOCK_GAS_LIMIT_DGP : Z := 1000000000.
Definition DEFAULT_BLOCK_GAS_LIMIT_DGP : Z := 40000000.

(** In the order of the multimap's keys *)
Definition mTemplates : list (txnouttype * CScript) :=
  [ (TX_PUBKEY, [OP_PUBKEY; OP_CHECKSIG]);
    (TX_PUBKEYHASH, [OP_DUP; OP_HASH160; OP_PUBKEYHASH; OP_EQUALVERIFY; OP_CHECKSIG]);
    (TX_MULTISIG, [OP_SMALLINTEGER; OP_PUBKEYS; OP_SMALLINTEGER; OP_CHECKMULTISIG]);
    (TX_CREATE, [OP_VERSION; OP_GAS_LIMIT; OP_GAS_PRICE; OP_DATA; OP_CREATE]);
    (TX_CALL, [OP_VERSION; OP_GAS_LIMIT; OP_GAS_PRICE; OP_DATA; OP_PUBKEYHASH; OP_CALL]) ].

(** *** [Solver] *)

Definition key_size (vch : bytes) : bool := (33 <=? vsize vch) && (vsize vch <=? 65).

(** How the comparison of one template opcode goes on. [Stuck] stands for what must not happen:
    an exception nobody catches, a failed assertion, the front of an empty vector. *)
Inductive verdict : Type :=
| Go (version : VersionVM) (vSolutions : list bytes)
| Break
| ReturnFalse
| Stuck.

(** The chain of [if]s on [opcode2], after the case of [OP_PUBKEYS] *)
Definition compare_op (contractConsensus : bool) (opcode2 : opcodetype) (vch2 : bytes) (opcode1 : opcodetype) (vch1 : bytes)
  (version : VersionVM) (vSolutions : list bytes) : verdict :=
  if opcode2 =? OP_PUBKEY then
    if negb (key_size vch1) then Break else Go version (vSolutions ++ [vch1])
  else if opcode2 =? OP_PUBKEYHASH then
    if negb (vsize vch1 =? 20) then Break else Go version (vSolutions ++ [vch1])
  else if opcode2 =? OP_SMALLINTEGER then
    if (opcode1 =? OP_0) || ((OP_1 <=? opcode1) && (opcode1 <=? OP_16)) then
      match DecodeOP_N opcode1 with
      | Some n => Go version (vSolutions ++ [[n]])
      | None => Stuck
      end
    else Break
  else if opcode2 =? OP_VERSION then
    if (0 <=? opcode1) && (opcode1 <=? OP_PUSHDATA4) then
      if bool_decide (vch1 = []) || (4 <? vsize vch1) || negb (Z.land (back vch1) 0x80 =? 0) then ReturnFalse
      else match vch_to_uint64 vch1 with
           | Err _ => Stuck
           | Ok raw =>
               let version := fromRaw (u32 raw) in
               if negb ((toRaw version =? toRaw GetEVMDefault) || (toRaw version =? toRaw GetNoExec)) then ReturnFalse
               else Go version vSolutions
           end
    else Go version vSolutions
  else if opcode2 =? OP_GAS_LIMIT then
    match vch_to_uint64 vch1 with
    | Err _ => ReturnFalse
    | Ok val =>
        if contractConsensus then
          if negb (rootVM version =? 0) && (val <? 1) then ReturnFalse
          else if MAX_BLOCK_GAS_LIMIT_DGP <? val then ReturnFalse
          else Go version vSolutions
        else
          if negb (rootVM version =? 0) && (val <? STANDARD_MINIMUM_GAS_LIMIT) then ReturnFalse
          else if DEFAULT_BLOCK_GAS_LIMIT_DGP / 2 <? val then ReturnFalse
          else Go version vSolutions
    end
  else if opcode2 =? OP_GAS_PRICE then
    match vch_to_uint64 vch1 with
    | Err _ => ReturnFalse
    | Ok val =>
        if negb (rootVM version =? 0) && (val <? (if contractConsensus then 1 else STANDARD_MINIMUM_GAS_PRICE))
        then ReturnFalse else Go version vSolutions
    end
  else if opcode2 =? OP_DATA then
    if (0 <=? opcode1) && (opcode1 <=? OP_PUSHDATA4) && bool_decide (vch1 = []) then Break else Go version vSolutions
  else if negb (opcode1 =? opcode2) || negb (bool_decide (vch1 = vch2)) then Break
  else Go version vSolutions.

(** [while (vch1.size() >= 33 && vch1.size() <= 65)]: a [GetOp] that fails leaves [OP_INVALIDOPCODE]
    and no data; where it leaves [pc1] does not matter, as no opcode of a template after
    [OP_PUBKEYS] accepts [OP_INVALIDOPCODE].  Each turn takes an instruction off [pc1]. *)
Fixpoint read_pubkeys (fuel : nat) (opcode1 : opcodetype) (vch1 pc1 : bytes) (vSolutions : list bytes)
  : opcodetype * bytes * bytes * list bytes :=
  match fuel with
  | O => (opcode1, vch1, pc1, vSolutions)
  | S fuel =>
      if key_size vch1 then
        match GetScriptOp pc1 with
        | None => (OP_INVALIDOPCODE, [], pc1, vSolutions ++ [vch1])
        | Some (opcode1, vch1', pc1) => read_pubkeys fuel opcode1 vch1' pc1 (vSolutions ++ [vch1])
        end
      else (opcode1, vch1, pc1, vSolutions)
  end.

(** The end of the comparison with a template: the script matched, [break], [return false] with
    [typeRet] as it was, or [Stuck]. *)
Inductive scan : Type :=
| Found (vSolutions : list bytes)
| NoMatch
| Rejected (vSolutions : list bytes)
| ScanStuck.

(** One turn of [while (true)] takes at least an opcode off the template. *)
Fixpoint match_loop (fuel : nat) (contractConsensus : bool) (pc1 pc2 : bytes) (version : VersionVM) (vSolutions : list bytes) : scan :=
  match fuel with
  | O => ScanStuck
  | S fuel =>
      if bool_decide (pc1 = []) && bool_decide (pc2 = []) then Found vSolutions
      else match GetScriptOp pc1 with
      | None => NoMatch
      | Some (opcode1, vch1, pc1) =>
          match GetScriptOp pc2 with
          | None => NoMatch
          | Some (opcode2, vch2, pc2) =>
              let go opcode1 vch1 pc1 opcode2 vch2 pc2 vSolutions :=
                match compare_op contractConsensus opcode2 vch2 opcode1 vch1 version vSolutions with
                | Go version vSolutions => match_loop fuel contractConsensus pc1 pc2 version vSolutions
                | Break => NoMatch
                | ReturnFalse => Rejected vSolutions
                | Stuck => ScanStuck
                end in
              if opcode2 =? OP_PUBKEYS then
                let '(opcode1, vch1, pc1, vSolutions) := read_pubkeys (S (length pc1)) opcode1 vch1 pc1 vSolutions in
                match GetScriptOp pc2 with
                | None => NoMatch
                | Some (opcode2, vch2, pc2) => go opcode1 vch1 pc1 opcode2 vch2 pc2 vSolutions
                end
              else go opcode1 vch1 pc1 opcode2 vch2 pc2 vSolutions
          end
      end
  end.

(** [version.rootVM = 20]; the other fields are not read before they are set. *)
Definition match_template (contractConsensus : bool) (script1 script2 : CScript) : scan :=
  match_loop (S (length script2)) contractConsensus script1 script2 (mk_VersionVM 0 20 0 0) [].

(** The answer: what is returned, [typeRet] ([None] where it is left as it was) and
    [vSolutionsRet]. *)
Record solution : Type := mk_solution { ret : bool; typeRet : option txnouttype; vSolutionsRet : list bytes }.

Definition multisig_ok (vSolutions : list bytes) : option bool :=
  match vSolutions, rev vSolutions with
  | (m :: _) :: _, (n :: _) :: _ =>
      Some (negb ((m <? 1) || (n <? 1) || (n <? m) || negb (vsize vSolutions - 2 =? n)))
  | _, _ => None
  end.

Fixpoint scan_templates (contractConsensus : bool) (script1 : CScript) (templates : list (txnouttype * CScript)) : option solution :=
  match templates with
  | [] => Some (mk_solution false (Some TX_NONSTANDARD) [])
  | (type, script2) :: templates =>
      match match_template contractConsensus script1 script2 with
      | Found vSolutions =>
          if bool_decide (type = TX_MULTISIG) then
            b ← multisig_ok vSolutions; Some (mk_solution b (Some type) vSolutions)
          else Some (mk_solution true (Some type) vSolutions)
      | NoMatch => scan_templates contractConsensus script1 templates
      | Rejected vSolutions => Some (mk_solution false None vSolutions)
      | ScanStuck => None
      end
  end.

Definition Solver (scriptPubKey : CScript) (contractConsensus : bool) : option solution :=
  if IsPayToScriptHash scriptPubKey then
    Some (mk_solution true (Some TX_SCRIPTHASH) [take 20 (drop 2 scriptPubKey)])
  else match IsWitnessProgram scriptPubKey with
  | Some (witnessversion, witnessprogram) =>
      if (witnessversion =? 0) && (vsize witnessprogram =? WITNESS_V0_KEYHASH_SIZE) then
        Some (mk_solution true (Some TX_WITNESS_V0_KEYHASH) [witnessprogram])
      else if (witnessversion =? 0) && (vsize witnessprogram =? WITNESS_V0_SCRIPTHASH_SIZE) then
        Some (mk_solution true (Some TX_WITNESS_V0_SCRIPTHASH) [witnessprogram])
      else if negb (witnessversion =? 0) then
        Some (mk_solution true (Some TX_WITNESS_UNKNOWN) [[u8 witnessversion]; witnessprogram])
      else Some (mk_solution false (Some TX_NONSTANDARD) [])
  | None =>
      if (1 <=? vsize scriptPubKey) && (sbyte scriptPubKey 0 =? OP_RETURN) && IsPushOnly (drop 1 scriptPubKey) then
        Some (mk_solution true (Some TX_NULL_DATA) [])
      else scan_templates contractConsensus scriptPubKey mTemplates
  end.

(** *** Destinations *)

(** A [WitnessUnknown]'s program is the first [length] bytes of its array. *)
Inductive CTxDestination : Type :=
| CNoDestination
| DestKeyID (hash : bytes)
| DestScriptID (hash : bytes)
| WitnessV0ScriptHash (hash : bytes)
| WitnessV0KeyHash (hash : bytes)
| WitnessUnknown (version : Z) (program : bytes).

#[export] Instance CTxDestination_eq_dec : EqDecision CTxDestination.
Proof. solve_decision. Defined.

Section Destinations.
Context (C : Crypto).

Definition GetID (key : bytes) : bytes := Hash160 C key.

(** [None]: [Solver] is stuck or a solution is missing.  Otherwise the destination when true is
    returned, and what is written to [typeRet], if anything is. *)
Definition ExtractDestination (scriptPubKey : CScript) : option (option CTxDestination * option txnouttype) :=
  s ← Solver scriptPubKey false;
  if negb (ret s) then Some (None, None)
  else
    whichType ← typeRet s;
    match whichType with
    | TX_PUBKEY =>
        v ← vSolutionsRet s !! 0%nat;
        let pubKey := CPubKey_Set v in
        if negb (CPubKey_IsValid pubKey) then Some (None, Some whichType)
        else Some (Some (DestKeyID (GetID pubKey)), Some whichType)
    | TX_PUBKEYHASH => v ← vSolutionsRet s !! 0%nat; Some (Some (DestKeyID v), Some whichType)
    | TX_SCRIPTHASH => v ← vSolutionsRet s !! 0%nat; Some (Some (DestScriptID v), Some whichType)
    | TX_WITNESS_V0_KEYHASH => v ← vSolutionsRet s !! 0%nat; Some (Some (WitnessV0KeyHash v), Some whichType)
    | TX_WITNESS_V0_SCRIPTHASH => v ← vSolutionsRet s !! 0%nat; Some (Some (WitnessV0ScriptHash v), Some whichType)
    | TX_WITNESS_UNKNOWN =>
        v ← vSolutionsRet s !! 0%nat; version ← v !! 0%nat; program ← vSolutionsRet s !! 1%nat;
        Some (Some (WitnessUnknown version program), Some whichType)
    | _ => Some (None, Some whichType)
    end.

(** What is returned, [typeRet], [addressRet], and [nRequiredRet] when it is written *)
Definition ExtractDestinations (scriptPubKey : CScript) : option (bool * txnouttype * list CTxDestination * option Z) :=
  s ← Solver scriptPubKey false;
  let type := default TX_NONSTANDARD (typeRet s) in
  if negb (ret s) then Some (false, type, [], None)
  else
    match type with
    | TX_NULL_DATA => Some (false, type, [], None)
    | TX_MULTISIG =>
        front ← vSolutionsRet s !! 0%nat; nRequired ← front !! 0%nat;
        let keys := take (length (vSolutionsRet s) - 2) (drop 1 (vSolutionsRet s)) in
        let addressRet := (fun key => DestKeyID (GetID key)) <$> filter CPubKey_IsValid (CPubKey_Set <$> keys) in
        Some (negb (bool_decide (addressRet = [])), type, addressRet, Some nRequired)
    | _ =>
        d ← ExtractDestination scriptPubKey;
        match fst d with
        | None => Some (false, type, [], Some 1)
        | Some address => Some (true, type, [address], Some 1)
        end
    end.

(** [CScriptVisitor]; [None] is a failed assertion of [EncodeOP_N] *)
Definition GetScriptForDestination (dest : CTxDestination) : option CScript :=
  match dest with
  | CNoDestination => Some []
  | DestKeyID keyID => Some ([OP_DUP; OP_HASH160] ++ push_data keyID ++ [OP_EQUALVERIFY; OP_CHECKSIG])
  | DestScriptID scriptID => Some ([OP_HASH160] ++ push_data scriptID ++ [OP_EQUAL])
  | WitnessV0KeyHash id => Some ([OP_0] ++ push_data id)
  | WitnessV0ScriptHash id => Some ([OP_0] ++ push_data id)
  | WitnessUnknown version program => op ← EncodeOP_N version; Some ([op] ++ push_data program)
  end.

Definition GetScriptForRawPubKey (pubKey : bytes) : CScript := push_data pubKey ++ [OP_CHECKSIG].

Definition GetScriptForMultisig (nRequired : Z) (keys : list bytes) : option CScript :=
  m ← EncodeOP_N nRequired; n ← EncodeOP_N (vsize keys);
  Some ([m] ++ flat_map push_data keys ++ [n; OP_CHECKMULTISIG]).

Definition GetScriptForWitness (redeemscript : CScript) : option CScript :=
  s ← Solver redeemscript false;
  let dest :=
    match ret s, typeRet s, vSolutionsRet s with
    | true, Some TX_PUBKEY, v :: _ => WitnessV0KeyHash (Hash160 C v)
    | true, Some TX_PUBKEYHASH, v :: _ => WitnessV0KeyHash v
    | _, _, _ => WitnessV0ScriptHash (SHA256 C redeemscript)
    end in
  GetScriptForDestination dest.

Definition IsValidDestination (dest : CTxDestination) : bool :=
  match dest with CNoDestination => false | _ => true end.
Definition IsValidContractSenderAddress (dest : CTxDestination) : bool :=
  match dest with DestKeyID _ => true | _ => false end.
End Destinations.

(** ** Theorems *)

(** *** Words *)

Lemma vch_loop_spec vch i acc : are_bytes vch -> 0 <= i -> 0 <= acc < 2 ^ (8 * i) -> i + vsize vch <= 8 ->
  vch_to_uint64_loop vch i acc = acc + 2 ^ (8 * i) * le_decode vch.
Proof.
  intros Hb. revert i acc. induction Hb as [ | b vch Hb Hv IH]; intros i acc Hi Ha Hs.
  { change (le_decode []) with 0. cbn [vch_to_uint64_loop]. lia. }
  rewrite vsize_cons in Hs. pose proof (vsize_nonneg vch). unfold is_byte in Hb.
  assert (Hp : 2 ^ (8 * (i + 1)) = 256 * 2 ^ (8 * i)).
  { replace (8 * (i + 1)) with (8 + 8 * i) by lia. rewrite Z.pow_add_r by lia. done. }
  assert (Hle : 2 ^ (8 * (i + 1)) <= 2 ^ 64) by (apply Z.pow_le_mono_r; lia).
  cbn [vch_to_uint64_loop]. change (le_decode (b :: vch)) with (b + 256 * le_decode vch).
  rewrite u64_id, lor_shiftl_add by (rewrite ?Z.shiftl_mul_pow2 by lia; lia || nia).
  rewrite IH by lia || nia. rewrite Hp. lia.
Qed.

(** The operand of a contract output as the number it stands for *)
Definition gas_word (d : bytes) (v : Z) : Prop := vsize d <= 8 /\ (d = [] \/ back d < 128) /\ le_decode d = v.

Lemma vch_to_uint64_ok d v : are_bytes d -> vch_to_uint64 d = Ok v <-> gas_word d v.
Proof.
  intros Hb. unfold vch_to_uint64, gas_word. destruct (Z.ltb_spec 8 (vsize d)).
  { split; [done | lia]. }
  destruct d as [ | x d]. { change (le_decode []) with 0. split; [intros [= <-]; auto | by intros (_ & _ & <-)]. }
  rewrite vch_loop_spec by (done || lia). change (2 ^ (8 * 0)) with 1.
  assert (Hx : is_byte (back (x :: d))).
  { unfold back. destruct (exists_last (l := x :: d)) as (l & y & E); [done | ]. rewrite E, last_last.
    rewrite E in Hb. apply Forall_app in Hb as [_ Hy]. by inv Hy. }
  rewrite land_128_byte by done. destruct (Z.leb_spec 128 (back (x :: d))); simpl negb; cbv iota.
  - split; [done | ]. intros (_ & [? | ?] & _); [done | lia].
  - split; [intros [= <-]; split; [lia | ]; split; [by right | lia] | ].
    intros (_ & _ & <-). f_equal. lia.
Qed.

(** Closes a decidable goal on constants by computing it. *)
Ltac decided := apply (bool_decide_unpack _); vm_compute; exact I.

(** *** Matching decoded instructions *)

Fixpoint match_list (cc : bool) (ops : list opcodetype) (d : list (opcodetype * bytes)) (ok : bool) (version : VersionVM) (sols : list bytes) : scan :=
  match ops with
  | [] => if bool_decide (d = []) && ok then Found sols else NoMatch
  | o2 :: ops =>
      match d with
      | [] => NoMatch
      | (o1, v1) :: d =>
          match compare_op cc o2 [] o1 v1 version sols with
          | Go version sols => match_list cc ops d ok version sols
          | Break => NoMatch
          | ReturnFalse => Rejected sols
          | Stuck => ScanStuck
          end
      end
  end.

Lemma decode_nil : decode [] = ([], true).
Proof. done. Qed.

Lemma decode_not_nil pc l : decode pc = (l, true) -> pc <> [] -> l <> [].
Proof.
  intros Hd Hne. destruct (GetScriptOp pc) as [[[o d] pc'] | ] eqn:E.
  - rewrite (decode_cons _ _ _ _ E) in Hd. destruct (decode pc'). by injection Hd as <- _.
  - by rewrite (decode_fail _ Hne E) in Hd.
Qed.

Lemma GetScriptOp_nil : GetScriptOp [] = None.
Proof. done. Qed.

Lemma match_loop_list cc ops fuel pc1 version sols :
  Forall (fun o => OP_PUSHDATA4 < o) ops -> OP_PUBKEYS ∉ ops -> (length ops < fuel)%nat ->
  match_loop fuel cc pc1 ops version sols = match_list cc ops (fst (decode pc1)) (snd (decode pc1)) version sols.
Proof.
  intros Ho. revert fuel pc1 version sols. induction Ho as [ | o2 ops Ho2 Ho IH]; intros [ | fuel] pc1 version sols Hk Hf;
    simpl length in Hf; try lia; cbn [match_loop match_list].
  - destruct (decide (pc1 = [])) as [-> | Hne]; [done | ]. rewrite (bool_decide_eq_false_2 (pc1 = [])) by done. cbn [andb].
    destruct (GetScriptOp pc1) as [[[o1 v1] pc1'] | ] eqn:E.
    + rewrite GetScriptOp_nil. destruct (decode pc1) as [l [ | ]] eqn:Ed; cbn [fst snd]; [ | by rewrite andb_false_r].
      rewrite bool_decide_eq_false_2; [done | ]. by eapply decode_not_nil.
    + rewrite (decode_fail _ Hne E). done.
  - rewrite (bool_decide_eq_false_2 (o2 :: ops = [])) by done. rewrite andb_false_r.
    destruct (GetScriptOp pc1) as [[[o1 v1] pc1'] | ] eqn:E.
    + rewrite (decode_cons _ _ _ _ E), GetScriptOp_op by done. apply not_elem_of_cons in Hk as [Hk1 Hk].
      destruct (Z.eqb_spec o2 OP_PUBKEYS); [done | ].
      destruct (decode pc1') as [l ok] eqn:Ed. cbn [fst snd].
      destruct (compare_op cc o2 [] o1 v1 version sols); try done. rewrite IH by (done || lia). by rewrite Ed.
    + destruct (decide (pc1 = [])) as [-> | Hne]; [done | ]. by rewrite (decode_fail _ Hne E).
Qed.

Lemma match_template_list cc s ops : Forall (fun o => OP_PUSHDATA4 < o) ops -> OP_PUBKEYS ∉ ops ->
  match_template cc s ops = match_list cc ops (fst (decode s)) (snd (decode s)) (mk_VersionVM 0 20 0 0) [].
Proof. intros. apply match_loop_list; [done .. | lia]. Qed.

(** *** Multisignature scripts *)

Abbreviation are_keys ks := (Forall (fun k : opcodetype * bytes => key_size (snd k) = true) ks).

Lemma read_pubkeys_spec fuel o v pc sols : (length pc < fuel)%nat ->
  exists ks o' v' pc', read_pubkeys fuel o v pc sols = (o', v', pc', sols ++ (snd <$> ks)) /\ are_keys ks /\
    (((o, v) :: fst (decode pc) = ks ++ (o', v') :: fst (decode pc') /\ snd (decode pc) = snd (decode pc') /\ key_size v' = false) \/
     (o' = OP_INVALIDOPCODE /\ v' = [] /\ (o, v) :: fst (decode pc) = ks)).
Proof.
  revert o v pc sols. induction fuel as [ | fuel IH]; intros o v pc sols Hf; [lia | ]. cbn [read_pubkeys].
  destruct (key_size v) eqn:Ek.
  2: { exists [], o, v, pc. cbn [fmap list_fmap app]. rewrite app_nil_r. split; [done | ]. split; [by constructor | by left]. }
  destruct (GetScriptOp pc) as [[[o1 v1] pc1] | ] eqn:E.
  - pose proof (GetScriptOp_shorter _ _ _ _ E) as Hl.
    destruct (IH o1 v1 pc1 (sols ++ [v]) ltac:(lia)) as (ks & o' & v' & pc' & Er & Hk & Hc).
    exists ((o, v) :: ks), o', v', pc'. rewrite Er, (decode_cons _ _ _ _ E). destruct (decode pc1) as [l ok].
    cbn [fst snd fmap list_fmap] in *. rewrite <- app_assoc. split; [done | ]. split; [by constructor | ].
    destruct Hc as [(E1 & E2 & E3) | (-> & -> & E1)]; [left | right].
    + cbn [app]. by rewrite E1.
    + by rewrite E1.
  - exists [(o, v)], OP_INVALIDOPCODE, [], pc. split; [done | ]. split; [by repeat constructor | ]. right.
    split; [done | ]. split; [done | ]. destruct (decide (pc = [])) as [-> | Hne]; [done | ]. by rewrite (decode_fail _ Hne E).
Qed.

Lemma keys_prefix (ks ks' : list (opcodetype * bytes)) i i' l l' :
  ks ++ i :: l = ks' ++ i' :: l' -> are_keys ks -> key_size (snd i) = false -> are_keys ks' -> key_size (snd i') = false ->
  ks = ks' /\ i = i' /\ l = l'.
Proof.
  intros E Hk Hi. revert ks' E. induction Hk as [ | k ks Hk Hks IH]; intros [ | k' ks'] E Hk' Hi'; injection E as E1 E.
  - done.
  - subst. inv Hk'. congruence.
  - subst. congruence.
  - subst k'. inv Hk'. destruct (IH ks' E) as (-> & -> & ->); done.
Qed.

Definition multisig_template : CScript := [OP_SMALLINTEGER; OP_PUBKEYS; OP_SMALLINTEGER; OP_CHECKMULTISIG].

(** What the template accepts, before the numbers are compared *)
Definition multisig_form (d : list (opcodetype * bytes) * bool) (m : Z) (ks : list (opcodetype * bytes)) (n : Z) : Prop :=
  exists om vm on vn, d = ((om, vm) :: ks ++ [(on, vn); (OP_CHECKMULTISIG, [])], true) /\
    DecodeOP_N om = Some m /\ DecodeOP_N on = Some n /\ are_keys ks /\ key_size vn = false.

Lemma small_integer o n : DecodeOP_N o = Some n ->
  (o =? OP_0) || ((OP_1 <=? o) && (o <=? OP_16)) = true /\ 0 <= n <= 16.
Proof.
  unfold DecodeOP_N. destruct (Z.eqb_spec o OP_0); [intros [= <-]; split; [done | lia] | ].
  destruct (_ && _) eqn:E; [ | done]. intros [= <-]. split; [done | ]. zbool. unop. lia.
Qed.

Lemma compare_small cc o v version sols :
  compare_op cc OP_SMALLINTEGER [] o v version sols =
  match DecodeOP_N o with Some n => Go version (sols ++ [[n]]) | None => Break end.
Proof.
  unfold compare_op. change (OP_SMALLINTEGER =? OP_PUBKEY) with false. change (OP_SMALLINTEGER =? OP_PUBKEYHASH) with false.
  change (OP_SMALLINTEGER =? OP_SMALLINTEGER) with true. cbv iota.
  destruct (DecodeOP_N o) as [n | ] eqn:E; [by rewrite (proj1 (small_integer _ _ E)) | ].
  unfold DecodeOP_N in E. destruct (Z.eqb_spec o OP_0); [done | ]. cbn [orb]. by destruct (_ && _).
Qed.

Lemma match_loop_S cc fuel pc1 o2 pc2 version sols : OP_PUSHDATA4 < o2 -> o2 <> OP_PUBKEYS ->
  match_loop (S fuel) cc pc1 (o2 :: pc2) version sols =
  match GetScriptOp pc1 with
  | None => NoMatch
  | Some (o1, v1, pc1) =>
      match compare_op cc o2 [] o1 v1 version sols with
      | Go version sols => match_loop fuel cc pc1 pc2 version sols
      | Break => NoMatch
      | ReturnFalse => Rejected sols
      | Stuck => ScanStuck
      end
  end.
Proof.
  intros Ho Hk. cbn [match_loop]. rewrite (bool_decide_eq_false_2 (o2 :: pc2 = [])), andb_false_r by done.
  destruct (GetScriptOp pc1) as [[[o1 v1] pc1'] | ]; [ | done]. rewrite GetScriptOp_op by done.
  by destruct (Z.eqb_spec o2 OP_PUBKEYS).
Qed.

Lemma match_loop_keys cc fuel pc1 o2 pc2 version sols : OP_PUSHDATA4 < o2 ->
  match_loop (S fuel) cc pc1 (OP_PUBKEYS :: o2 :: pc2) version sols =
  match GetScriptOp pc1 with
  | None => NoMatch
  | Some (o1, v1, pc1) =>
      let '(o1, v1, pc1, sols) := read_pubkeys (S (length pc1)) o1 v1 pc1 sols in
      match compare_op cc o2 [] o1 v1 version sols with
      | Go version sols => match_loop fuel cc pc1 pc2 version sols
      | Break => NoMatch
      | ReturnFalse => Rejected sols
      | Stuck => ScanStuck
      end
  end.
Proof.
  intros Ho. cbn [match_loop]. rewrite (bool_decide_eq_false_2 (OP_PUBKEYS :: _ = [])), andb_false_r by done.
  destruct (GetScriptOp pc1) as [[[o1 v1] pc1'] | ]; [ | done]. rewrite GetScriptOp_op by done.
  change (OP_PUBKEYS =? OP_PUBKEYS) with true. cbv iota.
  destruct (read_pubkeys (S (length pc1')) o1 v1 pc1' sols) as [[[o1' v1'] pc1''] sols'].
  by rewrite GetScriptOp_op.
Qed.

Lemma match_tail cc fuel pc on vn version sols : (2 <= fuel)%nat ->
  match compare_op cc OP_SMALLINTEGER [] on vn version sols with
  | Go version sols => match_loop fuel cc pc [OP_CHECKMULTISIG] version sols
  | Break => NoMatch
  | ReturnFalse => Rejected sols
  | Stuck => ScanStuck
  end = match DecodeOP_N on with
        | Some n => if bool_decide (decode pc = ([(OP_CHECKMULTISIG, [])], true)) then Found (sols ++ [[n]]) else NoMatch
        | None => NoMatch
        end.
Proof.
  intros Hf. rewrite compare_small. destruct (DecodeOP_N on) as [n | ]; [ | done].
  rewrite match_loop_list; [ | by repeat constructor | by decided | simpl; lia].
  destruct (decode pc) as [l ok]. cbn [fst snd match_list]. destruct l as [ | [o v] l].
  { by rewrite bool_decide_eq_false_2. }
  unfold compare_op. repeat (match goal with |- context [OP_CHECKMULTISIG =? ?x] =>
    let e := eval vm_compute in (OP_CHECKMULTISIG =? x) in change (OP_CHECKMULTISIG =? x) with e end; cbv iota).
  destruct (Z.eqb_spec o OP_CHECKMULTISIG) as [-> | Hne]; cbn [negb orb].
  2: { rewrite bool_decide_eq_false_2; [done | congruence]. }
  destruct (decide (v = [])) as [-> | Hv].
  - rewrite (bool_decide_eq_true_2 ([] = [])) by done. cbn [negb]. destruct (decide (l = [])) as [-> | Hl].
    + rewrite bool_decide_eq_true_2 by done. destruct ok; [by rewrite bool_decide_eq_true_2 | by rewrite bool_decide_eq_false_2].
    + rewrite bool_decide_eq_false_2 by done. rewrite bool_decide_eq_false_2 by congruence. done.
  - rewrite (bool_decide_eq_false_2 (v = [])) by done. cbn [negb]. rewrite bool_decide_eq_false_2 by congruence. done.
Qed.

Lemma match_multisig cc s :
  (exists m ks n, multisig_form (decode s) m ks n /\
     match_template cc s multisig_template = Found ([m] :: (snd <$> ks) ++ [[n]])) \/
  ((forall m ks n, ~ multisig_form (decode s) m ks n) /\ match_template cc s multisig_template = NoMatch).
Proof.
  unfold match_template, multisig_template. rewrite match_loop_S by (done || discriminate).
  destruct (GetScriptOp s) as [[[om vm] pc] | ] eqn:E.
  2: { right. split; [ | done]. intros m ks n (? & ? & ? & ? & Hd & _).
       destruct (decide (s = [])) as [-> | Hne]; [done | ]. by rewrite (decode_fail _ Hne E) in Hd. }
  rewrite compare_small, (decode_cons _ _ _ _ E).
  assert (Hform : forall m ks n, multisig_form (let '(l, ok) := decode pc in ((om, vm) :: l, ok)) m ks n ->
    DecodeOP_N om = Some m /\ exists on vn, decode pc = (ks ++ [(on, vn); (OP_CHECKMULTISIG, [])], true) /\
      DecodeOP_N on = Some n /\ are_keys ks /\ key_size vn = false).
  { intros m ks n (om' & vm' & on & vn & Hd & H1 & H2 & H3 & H4). destruct (decode pc) as [l ok].
    injection Hd as -> -> -> ->. eauto 10. }
  destruct (DecodeOP_N om) as [m | ] eqn:Em.
  2: { right. split; [ | done]. intros m ks n H. by apply Hform in H as [? _]. }
  cbn [app]. change (length [OP_SMALLINTEGER; OP_PUBKEYS; OP_SMALLINTEGER; OP_CHECKMULTISIG]) with 4%nat.
  rewrite match_loop_keys by done.
  destruct (GetScriptOp pc) as [[[o1 v1] pc1] | ] eqn:E1.
  2: { right. split; [ | done]. intros m' ks n (_ & on & vn & Hd & _)%Hform.
       destruct (decide (pc = [])) as [-> | Hne]; [by destruct ks | ]. rewrite (decode_fail _ Hne E1) in Hd. by destruct ks. }
  destruct (read_pubkeys_spec (S (length pc1)) o1 v1 pc1 [[m]] ltac:(lia)) as (ks & on & vn & pc2 & Er & Hk & Hc). rewrite Er.
  rewrite match_tail by lia. rewrite (decode_cons _ _ _ _ E1) in *.
  (* any other reading of the instructions agrees with this one *)
  assert (Huniq : forall m' ks' n, multisig_form (let '(l, ok) := let '(l, ok) := decode pc1 in ((o1, v1) :: l, ok) in ((om, vm) :: l, ok)) m' ks' n ->
    DecodeOP_N on = Some n /\ decode pc2 = ([(OP_CHECKMULTISIG, [])], true)).
  { intros m' ks' n (_ & on' & vn' & Hd & Hn & Hk' & Hv')%Hform. destruct (decode pc1) as [l ok]. injection Hd as Hd ->.
    cbn [fst snd] in Hc. destruct Hc as [(Hl & Hok & Hv) | (-> & -> & Hl)]; rewrite Hd in Hl.
    - destruct (keys_prefix _ _ _ _ _ _ Hl Hk' Hv' Hk Hv) as (-> & E2 & E3). injection E2 as -> ->.
      split; [done | ]. destruct (decode pc2). cbn [fst snd] in *. by subst.
    - exfalso. rewrite <- Hl in Hk. apply Forall_app in Hk as [_ Hk]. inv Hk. cbn [snd] in *. congruence. }
  destruct (DecodeOP_N on) as [n | ] eqn:En.
  2: { right. split; [ | done]. intros m' ks' n' [H _]%Huniq. done. }
  destruct (decide (decode pc2 = ([(OP_CHECKMULTISIG, [])], true))) as [Hd | Hd].
  2: { right. rewrite bool_decide_eq_false_2 by done. split; [ | done]. intros m' ks' n' [_ H]%Huniq. done. }
  left. exists m, ks, n. rewrite bool_decide_eq_true_2 by done. split; [ | done]. rewrite Hd in Hc. cbn [fst snd] in Hc.
  destruct Hc as [(Hl & Hok & Hv) | (-> & -> & Hl)]; [ | done].
  exists om, vm, on, vn. destruct (decode pc1) as [l ok]. cbn [fst snd] in *. subst ok. rewrite Hl. done.
Qed.

(** *** Contract outputs *)

Lemma toRaw_add f r v g : 0 <= f < 4 -> 0 <= r < 64 -> 0 <= v < 256 -> 0 <= g ->
  toRaw (mk_VersionVM f r v g) = f + r * 4 + v * 256 + g * 65536.
Proof.
  intros Hf Hr Hv Hg. unfold toRaw. cbn [vm_format rootVM vmVersion flagOptions]. rewrite !Z.lor_assoc.
  rewrite (lor_shiftl_add f r 2), (lor_shiftl_add _ v 8), (lor_shiftl_add _ g 16) by lia. lia.
Qed.

Lemma fromRaw_fields x : fromRaw x = mk_VersionVM (x mod 4) (x / 4 mod 64) (x / 256 mod 256) (x / 65536 mod 65536).
Proof.
  unfold fromRaw. rewrite !Z.shiftr_div_pow2 by lia.
  change 3 with (Z.ones 2). change 63 with (Z.ones 6). change 255 with (Z.ones 8). change 65535 with (Z.ones 16).
  rewrite !Z.land_ones by lia. done.
Qed.

(** The bit fields of the struct lose nothing of the word. *)
Lemma toRaw_fromRaw x : 0 <= x < 2 ^ 32 -> toRaw (fromRaw x) = x.
Proof.
  intros Hx. rewrite fromRaw_fields, toRaw_add by (try apply Z.mod_pos_bound; lia).
  Z.to_euclidean_division_equations. lia.
Qed.

Lemma back_le d : are_bytes d -> d <> [] -> 0 <= back d <= le_decode d.
Proof.
  intros Hb Hne. destruct (exists_last Hne) as (l & x & ->). apply Forall_app in Hb as [Hl Hx]. inv Hx.
  rewrite back_snoc, le_decode_app. pose proof (le_decode_bound l Hl). pose proof (vsize_nonneg l).
  change (le_decode [x]) with (x + 256 * 0). unfold is_byte in *.
  assert (1 <= 2 ^ (8 * vsize l)) by (apply (Z.pow_le_mono_r 2 0); lia). nia.
Qed.

(** The version operand: a push of one to four bytes worth 0 (no execution) or 4 (the EVM's
    default version); or any instruction that is not a push, which asks for execution. *)
Definition contract_version (i : opcodetype * bytes) (executes : bool) : Prop :=
  if fst i <=? OP_PUSHDATA4 then
    snd i <> [] /\ vsize (snd i) <= 4 /\ le_decode (snd i) = (if executes then 4 else 0)
  else executes = true.

Definition gas_limits (cc executes : bool) (limit price : bytes) : Prop :=
  exists gl gp, gas_word limit gl /\ gas_word price gp /\
    gl <= (if cc then MAX_BLOCK_GAS_LIMIT_DGP else DEFAULT_BLOCK_GAS_LIMIT_DGP / 2) /\
    (executes = true -> (if cc then 1 else STANDARD_MINIMUM_GAS_LIMIT) <= gl /\ 1 <= gp).

Definition contract_form (cc : bool) (v gl gp d : opcodetype * bytes) : Prop :=
  exists executes, contract_version v executes /\ gas_limits cc executes (snd gl) (snd gp) /\
    (fst d <= OP_PUSHDATA4 -> snd d <> []).

Definition instr_bytes_ok (i : opcodetype * bytes) : Prop := is_byte (fst i) /\ are_bytes (snd i).

Ltac eval_eqb x :=
  repeat (match goal with |- context [x =? ?y] =>
    let e := eval vm_compute in (x =? y) in change (x =? y) with e end; cbv iota).

Lemma compare_version cc i version sols : instr_bytes_ok i -> rootVM version = 20 ->
  (exists version', compare_op cc OP_VERSION [] (fst i) (snd i) version sols = Go version' sols /\
     contract_version i (negb (rootVM version' =? 0)) /\ (forall e, contract_version i e -> e = negb (rootVM version' =? 0))) \/
  (compare_op cc OP_VERSION [] (fst i) (snd i) version sols = ReturnFalse /\ forall e, ~ contract_version i e).
Proof.
  destruct i as [o d]. intros [Ho Hd] Hv. cbn [fst snd] in *. unfold compare_op. eval_eqb OP_VERSION. unfold contract_version.
  cbn [fst snd]. unfold is_byte in Ho. destruct (Z.leb_spec 0 o) as [_ | ?]; [ | lia]. cbn [andb].
  destruct (Z.leb_spec o OP_PUSHDATA4).
  2: { left. exists version. rewrite Hv. split; [done | ]. split; [done | by intros]. }
  destruct (bool_decide_reflect (d = [])) as [-> | Hne].
  { right. split; [done | ]. by intros e [? _]. }
  cbn [orb]. destruct (Z.ltb_spec 4 (vsize d)).
  { right. split; [done | ]. intros e (_ & ? & _). lia. }
  cbn [orb]. pose proof (back_le d Hd Hne) as Hback.
  destruct (vch_to_uint64 d) as [raw | err] eqn:Ew.
  - apply vch_to_uint64_ok in Ew as (_ & [-> | Hb] & Hraw); [done | | done].
    rewrite land_128_byte by (unfold is_byte; lia). destruct (Z.leb_spec 128 (back d)); [lia | ]. cbn [negb].
    pose proof (le_decode_bound d Hd) as Hr. assert (2 ^ (8 * vsize d) <= 2 ^ 32) by (apply Z.pow_le_mono_r; lia).
    rewrite u32_id by lia. rewrite toRaw_fromRaw by lia. change (toRaw GetEVMDefault) with 4. change (toRaw GetNoExec) with 0.
    rewrite fromRaw_fields. subst raw. destruct (Z.eqb_spec (le_decode d) 4) as [E4 | N4].
    { left. eexists. split; [done | ]. rewrite E4. split; [done | ]. by intros [] (_ & _ & ?). }
    destruct (Z.eqb_spec (le_decode d) 0) as [E0 | N0].
    { left. eexists. split; [done | ]. rewrite E0. split; [done | ]. by intros [] (_ & _ & ?). }
    right. split; [done | ]. intros e (_ & _ & ?). by destruct e.
  - destruct (decide (back d < 128)).
    { assert (vch_to_uint64 d = Ok (le_decode d)) as E'; [ | congruence]. apply vch_to_uint64_ok; [done | ].
      split; [lia | ]. split; [by right | done]. }
    assert (is_byte (back d)).
    { destruct (exists_last Hne) as (l & x & ->). apply Forall_app in Hd as [_ Hx]. inv Hx. by rewrite back_snoc. }
    rewrite land_128_byte by done. destruct (Z.leb_spec 128 (back d)); [ | lia]. right. split; [done | ].
    intros e (_ & _ & ?). destruct e; lia.
Qed.

Lemma compare_gas cc limit price version sols : instr_bytes_ok limit -> instr_bytes_ok price ->
  let g1 := compare_op cc OP_GAS_LIMIT [] (fst limit) (snd limit) version sols in
  let g2 := compare_op cc OP_GAS_PRICE [] (fst price) (snd price) version sols in
  (g1 = ReturnFalse \/ g1 = Go version sols) /\ (g2 = ReturnFalse \/ g2 = Go version sols) /\
  (g1 = Go version sols /\ g2 = Go version sols <-> gas_limits cc (negb (rootVM version =? 0)) (snd limit) (snd price)).
Proof.
  destruct limit as [o1 d1], price as [o2 d2]. intros [_ H1] [_ H2]. cbn [fst snd] in *. unfold compare_op.
  eval_eqb OP_GAS_LIMIT. eval_eqb OP_GAS_PRICE. unfold gas_limits.
  destruct (vch_to_uint64 d1) as [gl | ] eqn:E1.
  2: { split; [by left | ]. split.
       { destruct (vch_to_uint64 d2); [destruct (_ && _); auto | auto]. }
       split; [by intros [? _] | ]. intros (gl & gp & Hg & _). apply vch_to_uint64_ok in Hg; [congruence | done]. }
  destruct (vch_to_uint64 d2) as [gp | ] eqn:E2.
  2: { split; [destruct cc; repeat (match goal with |- context [if ?c then _ else _] => destruct c end); auto | ].
       split; [by left | ]. split; [by intros [_ ?] | ].
       intros (? & gp & _ & Hg & _). apply vch_to_uint64_ok in Hg; [congruence | done]. }
  split; [destruct cc; repeat (match goal with |- context [if ?c then _ else _] => destruct c end); auto | ].
  split; [destruct (_ && _); auto | ].
  apply vch_to_uint64_ok in E1, E2; [ | done ..].
  assert (Hx : forall P : Prop, (P <-> (if cc then gl <= MAX_BLOCK_GAS_LIMIT_DGP else gl <= DEFAULT_BLOCK_GAS_LIMIT_DGP / 2) /\
    (negb (rootVM version =? 0) = true -> (if cc then 1 else STANDARD_MINIMUM_GAS_LIMIT) <= gl /\ 1 <= gp)) ->
    (P <-> exists gl gp, gas_word d1 gl /\ gas_word d2 gp /\ gl <= (if cc then MAX_BLOCK_GAS_LIMIT_DGP else DEFAULT_BLOCK_GAS_LIMIT_DGP / 2) /\
      (negb (rootVM version =? 0) = true -> (if cc then 1 else STANDARD_MINIMUM_GAS_LIMIT) <= gl /\ 1 <= gp))).
  { intros P ->. split.
    - intros [Ha Hb]. exists gl, gp. split; [done | ]. split; [done | ]. split; [by destruct cc | done].
    - intros (gl' & gp' & (_ & _ & <-) & (_ & _ & <-) & Ha & Hb). destruct E1 as (_ & _ & <-), E2 as (_ & _ & <-).
      split; [by destruct cc | done]. }
  apply Hx. clear Hx. unfold STANDARD_MINIMUM_GAS_PRICE, STANDARD_MINIMUM_GAS_LIMIT.
  destruct (negb (rootVM version =? 0)), cc; cbn [andb];
    repeat match goal with |- context [?a <? ?b] => destruct (Z.ltb_spec a b) end;
    (split; [intros [? ?] | intros [? Hi]]);
    try (specialize (Hi eq_refl)); try done; try (split; [done || lia | intros; lia || done]); lia.
Qed.

Lemma decode_bytes s : are_bytes s -> Forall instr_bytes_ok (fst (decode s)).
Proof.
  remember (length s) as n eqn:Hn. revert s Hn. induction (lt_wf n) as [n _ IH]. intros s -> Hs.
  destruct (GetScriptOp s) as [[[o d] pc] | ] eqn:E.
  - rewrite (decode_cons _ _ _ _ E). destruct (GetScriptOp_bytes _ _ _ _ Hs E) as (Ho & Hd & Hpc).
    specialize (IH (length pc) (GetScriptOp_shorter _ _ _ _ E) pc eq_refl Hpc). destruct (decode pc). cbn [fst] in *.
    by constructor.
  - destruct (decide (s = [])) as [-> | Hne]; [constructor | ]. rewrite (decode_fail _ Hne E). constructor.
Qed.

Abbreviation contract_ops := [OP_VERSION; OP_GAS_LIMIT; OP_GAS_PRICE; OP_DATA].

(** The four operands the contract templates begin with *)
Lemma match_contract cc ops l ok : Forall instr_bytes_ok l ->
  (exists v gl gp d l' version, l = v :: gl :: gp :: d :: l' /\ contract_form cc v gl gp d /\
     match_list cc (contract_ops ++ ops) l ok (mk_VersionVM 0 20 0 0) [] = match_list cc ops l' ok version []) \/
  ((forall v gl gp d l', l = v :: gl :: gp :: d :: l' -> ~ contract_form cc v gl gp d) /\
   match_list cc (contract_ops ++ ops) l ok (mk_VersionVM 0 20 0 0) [] ∈ [NoMatch; Rejected []]).
Proof.
  intros Hl. assert (Hno : forall P, (forall v gl gp d l', l = v :: gl :: gp :: d :: l' -> contract_form cc v gl gp d -> False) ->
     forall r, r = NoMatch \/ r = Rejected [] -> P \/ (forall v gl gp d l', l = v :: gl :: gp :: d :: l' -> ~ contract_form cc v gl gp d) /\ r ∈ [NoMatch; Rejected []]).
  { intros P Hf r [-> | ->]; right; (split; [intros v gl gp d l' E HF; by eapply Hf | ]); [by left | right; by left]. }
  destruct l as [ | [ov dv] l]; [apply Hno; [done | by left] | ]. inv Hl. cbn [app match_list].
  destruct (compare_version cc (ov, dv) (mk_VersionVM 0 20 0 0) []) as [(version & Ev & Hv & Hvu) | [Ev Hv]];
    [done | done | | ]; cbn [fst snd] in Ev; rewrite Ev.
  2: { apply Hno; [ | by right]. intros v gl gp d l' [= <- _] (e & He & _). by apply (Hv e). }
  destruct l as [ | [ol dl] l]; [apply Hno; [done | by left] | ].
  match goal with H : Forall _ (_ :: _) |- _ => inv H end.
  destruct l as [ | [op dp] l].
  { apply Hno; [done | ]. destruct (compare_gas cc (ol, dl) (ol, dl) version []) as ([E | E] & _); [done | done | | ];
      cbn [fst snd] in E; rewrite E; [by right | by left]. }
  match goal with H : Forall _ (_ :: _) |- _ => inv H end.
  destruct (compare_gas cc (ol, dl) (op, dp) version []) as (G1 & G2 & G); [done | done | ]. cbn [fst snd] in *.
  assert (Hbad : ~ gas_limits cc (negb (rootVM version =? 0)) dl dp -> forall v gl gp d l',
    (ov, dv) :: (ol, dl) :: (op, dp) :: l = v :: gl :: gp :: d :: l' -> contract_form cc v gl gp d -> False).
  { intros Hg v gl gp d l' [= <- <- <- _] (e & He & Hgas & _). rewrite (Hvu e He) in Hgas. by apply Hg. }
  destruct G1 as [E1 | E1]; rewrite E1.
  { apply Hno; [ | by right]. apply Hbad. intros [? _]%G. congruence. }
  destruct G2 as [E2 | E2]; rewrite E2.
  { apply Hno; [ | by right]. apply Hbad. intros [_ ?]%G. congruence. }
  assert (Hgas : gas_limits cc (negb (rootVM version =? 0)) dl dp) by (apply G; done).
  destruct l as [ | [od dd] l]; [apply Hno; [done | by left] | ].
  match goal with H : Forall _ (_ :: _) |- _ => inv H end. unfold compare_op. eval_eqb OP_DATA.
  match goal with H : instr_bytes_ok (od, dd) |- _ => destruct H as [Ho Hd]; cbn [fst snd] in Ho, Hd end. unfold is_byte in Ho.
  destruct (Z.leb_spec 0 od); [ | lia]. cbn [andb].
  destruct (Z.leb_spec od OP_PUSHDATA4) as [Hp | Hp]; cbn [andb];
    [destruct (bool_decide_reflect (dd = [])) as [-> | Hne] | ].
  - apply Hno; [ | by left]. intros v gl gp d l' [= <- <- <- <- _] (e & _ & _ & Hd'). by apply Hd'.
  - left. exists (ov, dv), (ol, dl), (op, dp), (od, dd), l, version. split; [done | ]. split; [ | done].
    exists (negb (rootVM version =? 0)). done.
  - left. exists (ov, dv), (ol, dl), (op, dp), (od, dd), l, version. split; [done | ]. split; [ | done].
    exists (negb (rootVM version =? 0)). split; [done | ]. split; [done | ]. cbn [fst]. lia.
Qed.

Lemma compare_exact cc o2 o v version sols :
  o2 ∉ [OP_PUBKEY; OP_PUBKEYHASH; OP_SMALLINTEGER; OP_VERSION; OP_GAS_LIMIT; OP_GAS_PRICE; OP_DATA] ->
  compare_op cc o2 [] o v version sols = if bool_decide ((o, v) = (o2, [])) then Go version sols else Break.
Proof.
  intros Hn. rewrite !not_elem_of_cons in Hn. destruct Hn as (N1 & N2 & N3 & N4 & N5 & N6 & N7 & _). unfold compare_op.
  apply Z.eqb_neq in N1, N2, N3, N4, N5, N6, N7. rewrite N1, N2, N3, N4, N5, N6, N7.
  destruct (Z.eqb_spec o o2) as [-> | Ho]; cbn [negb orb].
  - destruct (decide (v = [])) as [-> | Hv]; [by rewrite !bool_decide_eq_true_2 | ].
    rewrite !bool_decide_eq_false_2; [done | congruence ..].
  - rewrite bool_decide_eq_false_2; [done | congruence].
Qed.

(** The templates on the decoded instructions, without and with contract operands *)
Definition create_form (cc : bool) (d : list (opcodetype * bytes) * bool) : Prop :=
  exists v gl gp da, d = ([v; gl; gp; da; (OP_CREATE, [])], true) /\ contract_form cc v gl gp da.
Definition call_form (cc : bool) (d : list (opcodetype * bytes) * bool) (a : bytes) : Prop :=
  exists v gl gp da o, d = ([v; gl; gp; da; (o, a); (OP_CALL, [])], true) /\ contract_form cc v gl gp da /\ vsize a = 20.
Definition pubkey_form (d : list (opcodetype * bytes) * bool) (k : bytes) : Prop :=
  exists o, d = ([(o, k); (OP_CHECKSIG, [])], true) /\ key_size k = true.
Definition pubkeyhash_form (d : list (opcodetype * bytes) * bool) (h : bytes) : Prop :=
  exists o, d = ([(OP_DUP, []); (OP_HASH160, []); (o, h); (OP_EQUALVERIFY, []); (OP_CHECKSIG, [])], true) /\ vsize h = 20.

Ltac exact_op := rewrite compare_exact by decided;
  match goal with |- context [bool_decide (?x = ?y)] => destruct (bool_decide_reflect (x = y)) as [?E | ?E] end.

Lemma compare_pubkey cc o v version sols :
  compare_op cc OP_PUBKEY [] o v version sols = if negb (key_size v) then Break else Go version (sols ++ [v]).
Proof. done. Qed.

Lemma compare_pubkeyhash cc o v version sols :
  compare_op cc OP_PUBKEYHASH [] o v version sols = if negb (vsize v =? 20) then Break else Go version (sols ++ [v]).
Proof. done. Qed.

Ltac no_form := right; split; [ | done]; intros ? (? & ? & ?); simplify_eq; congruence.

Lemma match_pubkey cc s :
  (exists k, pubkey_form (decode s) k /\ match_template cc s [OP_PUBKEY; OP_CHECKSIG] = Found [k]) \/
  ((forall k, ~ pubkey_form (decode s) k) /\ match_template cc s [OP_PUBKEY; OP_CHECKSIG] = NoMatch).
Proof.
  rewrite match_template_list by first [by repeat constructor | decided]. destruct (decode s) as [l ok]. cbn [fst snd match_list].
  destruct l as [ | [o1 v1] l]; [no_form | ]. rewrite compare_pubkey.
  destruct (key_size v1) eqn:Ek; cbn [negb]; [ | no_form].
  destruct l as [ | [o2 v2] l]; [no_form | ]. exact_op; [ | no_form]. injection E as -> ->.
  destruct l as [ | i l]; [ | no_form]. destruct ok; [ | no_form]. left. exists v1. split; [ | done]. by exists o1.
Qed.

Lemma match_pubkeyhash cc s :
  (exists h, pubkeyhash_form (decode s) h /\ match_template cc s [OP_DUP; OP_HASH160; OP_PUBKEYHASH; OP_EQUALVERIFY; OP_CHECKSIG] = Found [h]) \/
  ((forall h, ~ pubkeyhash_form (decode s) h) /\
   match_template cc s [OP_DUP; OP_HASH160; OP_PUBKEYHASH; OP_EQUALVERIFY; OP_CHECKSIG] = NoMatch).
Proof.
  rewrite match_template_list by first [by repeat constructor | decided]. destruct (decode s) as [l ok]. cbn [fst snd match_list].
  destruct l as [ | [o1 v1] l]; [no_form | ]. exact_op; [ | no_form]. injection E as -> ->.
  destruct l as [ | [o2 v2] l]; [no_form | ]. exact_op; [ | no_form]. injection E as -> ->.
  destruct l as [ | [o3 v3] l]; [no_form | ]. rewrite compare_pubkeyhash.
  destruct (Z.eqb_spec (vsize v3) 20); cbn [negb]; [ | no_form].
  destruct l as [ | [o4 v4] l]; [no_form | ]. exact_op; [ | no_form]. injection E as -> ->.
  destruct l as [ | [o5 v5] l]; [no_form | ]. exact_op; [ | no_form]. injection E as -> ->.
  destruct l as [ | i l]; [ | no_form]. destruct ok; [ | no_form]. left. exists v3. split; [ | done]. by exists o3.
Qed.

Lemma match_create cc s : are_bytes s ->
  (create_form cc (decode s) /\ match_template cc s (contract_ops ++ [OP_CREATE]) = Found []) \/
  (~ create_form cc (decode s) /\ match_template cc s (contract_ops ++ [OP_CREATE]) ∈ [NoMatch; Rejected []] /\
   ((exists a, call_form cc (decode s) a) -> match_template cc s (contract_ops ++ [OP_CREATE]) = NoMatch)).
Proof.
  intros Hs. apply decode_bytes in Hs. rewrite match_template_list by first [by repeat constructor | decided].
  destruct (decode s) as [l ok]. cbn [fst snd] in *.
  destruct (match_contract cc [OP_CREATE] l ok Hs) as [(v & gl & gp & d & l' & version & -> & Hf & ->) | [Hno Hr]].
  - cbn [match_list]. destruct l' as [ | [o x] l'].
    { right. split; [by intros (? & ? & ? & ? & ? & _) | ]. split; [by left | done]. }
    exact_op.
    2: { right. split; [intros (? & ? & ? & ? & ? & _); simplify_eq | ]. split; [by left | done]. }
    injection E as -> ->. destruct l' as [ | i l'].
    2: { right. split; [by intros (? & ? & ? & ? & ? & _) | ]. split; [by left | done]. }
    destruct ok; [left | right]; [split; [by exists v, gl, gp, d | done] | ].
    split; [by intros (? & ? & ? & ? & ? & _) | ]. split; [by left | done].
  - right. split; [ | split; [done | ]].
    + intros (v & gl & gp & d & [= -> ->] & Hf). by eapply Hno.
    + intros (a & v & gl & gp & d & o & [= -> ->] & Hf & _). destruct (Hno _ _ _ _ _ eq_refl Hf).
Qed.

Lemma match_call cc s : are_bytes s ->
  (exists a, call_form cc (decode s) a /\ match_template cc s (contract_ops ++ [OP_PUBKEYHASH; OP_CALL]) = Found [a]) \/
  ((forall a, ~ call_form cc (decode s) a) /\
   match_template cc s (contract_ops ++ [OP_PUBKEYHASH; OP_CALL]) ∈ [NoMatch; Rejected []]).
Proof.
  intros Hs. apply decode_bytes in Hs. rewrite match_template_list by first [by repeat constructor | decided].
  destruct (decode s) as [l ok]. cbn [fst snd] in *.
  assert (Hno' : forall l', (forall a o, (l', ok) <> ([(o, a); (OP_CALL, [])], true) \/ vsize a <> 20) ->
    forall v gl gp d a, ~ call_form cc (v :: gl :: gp :: d :: l', ok) a).
  { intros l' Hl v gl gp d a (v' & gl' & gp' & d' & o & [= -> -> -> -> -> ->] & _ & Ha). by destruct (Hl a o). }
  destruct (match_contract cc [OP_PUBKEYHASH; OP_CALL] l ok Hs) as [(v & gl & gp & d & l' & version & -> & Hf & ->) | [Hno Hr]].
  - cbn [match_list]. destruct l' as [ | [o x] l'].
    { right. split; [intros; apply Hno'; intros; left; congruence | by left]. }
    rewrite compare_pubkeyhash. destruct (Z.eqb_spec (vsize x) 20) as [Ex | Ex]; cbn [negb].
    2: { right. split; [ | by left]. intros. apply Hno'. intros a' o'. destruct (decide (x = a')); [right | left]; congruence. }
    destruct l' as [ | [o' x'] l'].
    { right. split; [intros; apply Hno'; intros; left; congruence | by left]. }
    exact_op.
    2: { right. split; [intros; apply Hno'; intros; left; congruence | by left]. }
    injection E as -> ->. destruct l' as [ | i l'].
    2: { right. split; [intros; apply Hno'; intros; left; congruence | by left]. }
    destruct ok; [left | right].
    + exists x. split; [by exists v, gl, gp, d, o | done].
    + split; [intros; apply Hno'; intros; left; congruence | by left].
  - right. split; [ | done]. intros a (v & gl & gp & d & o & [= -> ->] & Hf & _). destruct (Hno _ _ _ _ _ eq_refl Hf).
Qed.

(** *** The forms of standard scripts *)

(** Which scripts are of a type, and the solutions they have.  Pushes are compared by what they
    push, so a hash or a key may be pushed by any of the push opcodes. *)
Definition form (cc : bool) (t : txnouttype) (s : CScript) (sols : list bytes) : Prop :=
  match t with
  | TX_NONSTANDARD => False
  | TX_PUBKEY => exists k, pubkey_form (decode s) k /\ sols = [k]
  | TX_PUBKEYHASH => exists h, pubkeyhash_form (decode s) h /\ sols = [h]
  | TX_SCRIPTHASH => exists h, length h = 20%nat /\ s = [OP_HASH160; 0x14] ++ h ++ [OP_EQUAL] /\ sols = [h]
  | TX_MULTISIG => exists m ks, multisig_form (decode s) m ks (vsize ks) /\ 1 <= m <= vsize ks /\
                     sols = [m] :: (snd <$> ks) ++ [[vsize ks]]
  | TX_NULL_DATA => exists rest, s = OP_RETURN :: rest /\ IsPushOnly rest = true /\ sols = []
  | TX_WITNESS_V0_SCRIPTHASH => exists p, vsize p = 32 /\ s = OP_0 :: 32 :: p /\ sols = [p]
  | TX_WITNESS_V0_KEYHASH => exists p, vsize p = 20 /\ s = OP_0 :: 20 :: p /\ sols = [p]
  | TX_WITNESS_UNKNOWN => exists v p, 1 <= v <= 16 /\ 2 <= vsize p <= 40 /\ s = OP_1 - 1 + v :: vsize p :: p /\ sols = [[v]; p]
  | TX_CREATE => create_form cc (decode s) /\ sols = []
  | TX_CALL => exists a, call_form cc (decode s) a /\ sols = [a]
  end.

Lemma multisig_ok_spec m ks n : 0 <= n ->
  multisig_ok ([m] :: (snd <$> ks) ++ [[n]]) = Some (bool_decide (1 <= m <= vsize (ks : list (opcodetype * bytes)) /\ n = vsize ks)).
Proof.
  intros Hn. unfold multisig_ok. cbn [rev]. rewrite rev_app_distr. cbn [rev app].
  rewrite vsize_cons, vsize_app, vsize_cons, vsize_nil. replace (vsize (snd <$> ks)) with (vsize ks) by (unfold vsize; by rewrite length_fmap).
  pose proof (vsize_nonneg ks). f_equal.
  destruct (Z.ltb_spec m 1), (Z.ltb_spec n 1), (Z.ltb_spec n m), (Z.eqb_spec (1 + (vsize ks + (1 + 0)) - 2) n); cbn [negb orb];
    symmetry; (apply bool_decide_eq_true_2 || apply bool_decide_eq_false_2); lia.
Qed.

(** The last opcode of the scripts found by the templates *)
Definition ends_with (s : CScript) (o : opcodetype) : Prop := exists l, decode s = (l ++ [(o, [])], true).

Lemma ends_with_unique s o o' : ends_with s o -> ends_with s o' -> o = o'.
Proof. intros [l H] [l' H']. rewrite H in H'. injection H' as H'. by apply app_inj_tail in H' as [_ [= ->]]. Qed.

Definition type_opcode (t : txnouttype) : option opcodetype :=
  match t with
  | TX_PUBKEY | TX_PUBKEYHASH => Some OP_CHECKSIG
  | TX_MULTISIG => Some OP_CHECKMULTISIG
  | TX_CREATE => Some OP_CREATE
  | TX_CALL => Some OP_CALL
  | _ => None
  end.

Lemma multisig_ends s m ks n : multisig_form (decode s) m ks n -> ends_with s OP_CHECKMULTISIG.
Proof. intros (om & vm & on & vn & E & _). exists ((om, vm) :: ks ++ [(on, vn)]). rewrite E. cbn [app]. by rewrite <- app_assoc. Qed.

Lemma form_ends cc t s sols o : form cc t s sols -> type_opcode t = Some o -> ends_with s o.
Proof.
  destruct t; simpl; intros H; try discriminate; intros [= <-].
  - destruct H as (k & (o1 & E & _) & _). by exists [(o1, k)].
  - destruct H as (h & (o1 & E & _) & _). by exists [(OP_DUP, []); (OP_HASH160, []); (o1, h); (OP_EQUALVERIFY, [])].
  - destruct H as (m & ks & H & _). by eapply multisig_ends.
  - destruct H as ((v & gl & gp & d & E & _) & _). by exists [v; gl; gp; d].
  - destruct H as (a & (v & gl & gp & d & o1 & E & _) & _). by exists [v; gl; gp; d; (o1, a)].
Qed.

(** The scripts the shortcuts take do not end with an opcode of a template. *)
Lemma push_small h n : vsize h = n -> n < OP_PUSHDATA1 -> push_data h = n :: h.
Proof.
  intros Hn Hs. unfold push_data. rewrite Hn. pose proof (vsize_nonneg h). destruct (Z.ltb_spec n OP_PUSHDATA1); [ | lia].
  cbn [app]. f_equal. apply Z.mod_small. unop. lia.
Qed.

Lemma p2sh_ends s : IsPayToScriptHash s = true -> ends_with s OP_EQUAL.
Proof.
  intros (h & Hh & ->)%IsPayToScriptHash_iff. exists [(OP_HASH160, []); (0x14, h)].
  assert (Hp : push_data h = 0x14 :: h) by (apply push_small; [unfold vsize; lia | done]).
  replace ([OP_HASH160; 0x14] ++ h ++ [OP_EQUAL]) with (assemble [IOp OP_HASH160; IPush h; IOp OP_EQUAL])
    by (cbn; by rewrite Hp).
  rewrite decode_assemble; [ | by repeat constructor | ].
  - cbn [map instr_decoded]. replace (vsize h) with 20 by (unfold vsize; lia). done.
  - cbn. rewrite Hp. rewrite !vsize_cons, vsize_app. unfold vsize. simpl. lia.
Qed.

Lemma witness_ends s v p o : IsWitnessProgram s = Some (v, p) -> ~ ends_with s o.
Proof.
  intros (Hv & Hp & ->)%IsWitnessProgram_iff [l E].
  assert (Hpush : push_data p = vsize p :: p) by (apply push_small; [done | unop; lia]).
  assert (Ho : instr_bytes (IInt v) = [version_opcode v]).
  { unfold instr_bytes, push_int64, version_opcode. destruct (Z.eqb_spec v 0) as [-> | ?]; [done | ].
    destruct ((v =? -1) || ((1 <=? v) && (v <=? 16))) eqn:E'; [ | lia]. f_equal. unfold u8. rewrite Z.mod_small by (unop; lia). lia. }
  replace (version_opcode v :: vsize p :: p) with (assemble [IInt v; IPush p]) in E
    by (unfold assemble; cbn [flat_map]; rewrite Ho; cbn [instr_bytes]; rewrite Hpush, app_nil_r; done).
  rewrite decode_assemble in E.
  - injection E as E. cbn [map] in E. destruct l as [ | i l]; [done | ]. injection E as _ E. destruct l as [ | i' l]; [ | by destruct l].
    injection E as _ ->. rewrite vsize_nil in Hp. lia.
  - by repeat constructor.
  - unfold assemble; cbn [flat_map]; rewrite Ho; cbn [instr_bytes]; rewrite Hpush, app_nil_r.
    cbn [app]. rewrite !vsize_cons. lia.
Qed.

Lemma null_data_ends rest o : IsPushOnly rest = true -> ends_with (OP_RETURN :: rest) o -> o <= OP_16 \/ o = OP_RETURN.
Proof.
  intros Hp [l E]. rewrite (decode_cons _ _ _ _ (GetScriptOp_op OP_RETURN rest eq_refl)) in E.
  rewrite IsPushOnly_decode in Hp. destruct (decode rest) as [l' ok]. cbn [fst snd] in Hp. apply andb_true_iff in Hp as [-> Hp].
  injection E as E. destruct l as [ | i l]; [injection E as <- _; by right | ]. injection E as _ ->.
  left. rewrite forallb_app in Hp. apply andb_true_iff in Hp as [_ Hp]. cbn [forallb fst] in Hp. rewrite andb_true_r in Hp. lia.
Qed.

Definition is_template_opcode (o : opcodetype) : bool := bool_decide (o ∈ [OP_CHECKSIG; OP_CHECKMULTISIG; OP_CREATE; OP_CALL]).

Lemma Solver_templates s cc o : ends_with s o -> is_template_opcode o = true -> Solver s cc = scan_templates cc s mTemplates.
Proof.
  intros He Ho. unfold is_template_opcode in Ho. apply bool_decide_eq_true in Ho.
  assert (Hbig : OP_16 < o /\ o <> OP_RETURN /\ o <> OP_EQUAL).
  { repeat (apply elem_of_cons in Ho as [-> | Ho]; [done | ]). by apply not_elem_of_nil in Ho. }
  unfold Solver. destruct (IsPayToScriptHash s) eqn:E1.
  { apply p2sh_ends in E1. pose proof (ends_with_unique _ _ _ He E1). lia. }
  destruct (IsWitnessProgram s) as [[v p] | ] eqn:E2; [by apply (witness_ends _ _ _ o) in E2 | ].
  destruct (_ && _) eqn:E3; [ | done]. apply andb_true_iff in E3 as [E3 Hp]. apply andb_true_iff in E3 as [_ E3].
  destruct s as [ | b s]; [done | ]. rewrite sbyte_0 in E3. apply Z.eqb_eq in E3 as ->. cbn [drop] in Hp. rewrite drop_0 in Hp.
  apply null_data_ends in He; [lia | done].
Qed.

(** A script that ends with another opcode does not match a template. *)
Lemma no_pubkey cc s o : ends_with s o -> o <> OP_CHECKSIG ->
  match_template cc s [OP_PUBKEY; OP_CHECKSIG] = NoMatch /\
  match_template cc s [OP_DUP; OP_HASH160; OP_PUBKEYHASH; OP_EQUALVERIFY; OP_CHECKSIG] = NoMatch.
Proof.
  intros He Ho. split.
  - destruct (match_pubkey cc s) as [(k & Hf & _) | [_ ->]]; [ | done]. exfalso. apply Ho.
    eapply ends_with_unique; [done | ]. eapply (form_ends cc TX_PUBKEY); [by exists k | done].
  - destruct (match_pubkeyhash cc s) as [(k & Hf & _) | [_ ->]]; [ | done]. exfalso. apply Ho.
    eapply ends_with_unique; [done | ]. eapply (form_ends cc TX_PUBKEYHASH); [by exists k | done].
Qed.

Lemma no_multisig cc s o : ends_with s o -> o <> OP_CHECKMULTISIG -> match_template cc s multisig_template = NoMatch.
Proof.
  intros He Ho. destruct (match_multisig cc s) as [(m & ks & n & Hf & _) | [_ ->]]; [ | done]. exfalso. apply Ho.
  eapply ends_with_unique; [done | ]. by eapply multisig_ends.
Qed.

Lemma scan_eq cc s : scan_templates cc s mTemplates =
  match match_template cc s [OP_PUBKEY; OP_CHECKSIG] with
  | Found sols => Some (mk_solution true (Some TX_PUBKEY) sols)
  | Rejected sols => Some (mk_solution false None sols)
  | ScanStuck => None
  | NoMatch =>
  match match_template cc s [OP_DUP; OP_HASH160; OP_PUBKEYHASH; OP_EQUALVERIFY; OP_CHECKSIG] with
  | Found sols => Some (mk_solution true (Some TX_PUBKEYHASH) sols)
  | Rejected sols => Some (mk_solution false None sols)
  | ScanStuck => None
  | NoMatch =>
  match match_template cc s multisig_template with
  | Found sols => b ← multisig_ok sols; Some (mk_solution b (Some TX_MULTISIG) sols)
  | Rejected sols => Some (mk_solution false None sols)
  | ScanStuck => None
  | NoMatch =>
  match match_template cc s (contract_ops ++ [OP_CREATE]) with
  | Found sols => Some (mk_solution true (Some TX_CREATE) sols)
  | Rejected sols => Some (mk_solution false None sols)
  | ScanStuck => None
  | NoMatch =>
  match match_template cc s (contract_ops ++ [OP_PUBKEYHASH; OP_CALL]) with
  | Found sols => Some (mk_solution true (Some TX_CALL) sols)
  | Rejected sols => Some (mk_solution false None sols)
  | ScanStuck => None
  | NoMatch => Some (mk_solution false (Some TX_NONSTANDARD) [])
  end end end end end.
Proof. done. Qed.

(** *** Soundness: an answer of true names a form the script has *)

Definition sound (cc : bool) (s : CScript) (r : solution) : Prop :=
  ret r = true -> exists t, typeRet r = Some t /\ form cc t s (vSolutionsRet r).

Lemma scan_sound cc s : are_bytes s -> exists r, scan_templates cc s mTemplates = Some r /\ sound cc s r.
Proof.
  intros Hs. rewrite scan_eq.
  destruct (match_pubkey cc s) as [(k & Hf & ->) | [_ ->]].
  { eexists. split; [done | ]. intros _. exists TX_PUBKEY. split; [done | ]. by exists k. }
  destruct (match_pubkeyhash cc s) as [(h & Hf & ->) | [_ ->]].
  { eexists. split; [done | ]. intros _. exists TX_PUBKEYHASH. split; [done | ]. by exists h. }
  destruct (match_multisig cc s) as [(m & ks & n & Hf & ->) | [_ ->]].
  { assert (Hn : 0 <= n) by (destruct Hf as (? & ? & ? & ? & _ & _ & Hn & _); apply small_integer in Hn; lia).
    rewrite multisig_ok_spec by done. cbn [mbind option_bind]. eexists. split; [done | ]. cbn [ret].
    intros [Hm ->]%bool_decide_eq_true. exists TX_MULTISIG. split; [done | ]. by exists m, ks. }
  destruct (match_create cc s Hs) as [[Hf ->] | (_ & Hr & _)].
  { eexists. split; [done | ]. intros _. exists TX_CREATE. split; [done | ]. by split. }
  apply elem_of_cons in Hr as [-> | Hr]; [ | apply list_elem_of_singleton in Hr as ->; by eexists].
  destruct (match_call cc s Hs) as [(a & Hf & ->) | [_ Hr]].
  { eexists. split; [done | ]. intros _. exists TX_CALL. split; [done | ]. by exists a. }
  apply elem_of_cons in Hr as [-> | Hr]; [by eexists | apply list_elem_of_singleton in Hr as ->; by eexists].
Qed.

Lemma Solver_sound cc s : are_bytes s -> exists r, Solver s cc = Some r /\ sound cc s r.
Proof.
  intros Hs. unfold Solver. destruct (IsPayToScriptHash s) eqn:E1.
  { eexists. split; [done | ]. intros _. exists TX_SCRIPTHASH. split; [done | ].
    apply IsPayToScriptHash_iff in E1 as (h & Hh & ->). exists h. split; [done | ]. split; [done | ].
    cbn [vSolutionsRet app drop]. by rewrite drop_0, (take_app_length' h). }
  destruct (IsWitnessProgram s) as [[v p] | ] eqn:E2.
  { apply IsWitnessProgram_iff in E2 as (Hv & Hp & ->). unfold WITNESS_V0_KEYHASH_SIZE, WITNESS_V0_SCRIPTHASH_SIZE, version_opcode.
    destruct (Z.eqb_spec v 0) as [-> | Hv0]; cbn [andb negb].
    - destruct (Z.eqb_spec (vsize p) 20) as [E20 | ].
      { eexists. split; [done | ]. intros _. exists TX_WITNESS_V0_KEYHASH. split; [done | ]. exists p. by rewrite E20. }
      destruct (Z.eqb_spec (vsize p) 32) as [E32 | ]; [ | by eexists].
      eexists. split; [done | ]. intros _. exists TX_WITNESS_V0_SCRIPTHASH. split; [done | ]. exists p. by rewrite E32.
    - eexists. split; [done | ]. intros _. exists TX_WITNESS_UNKNOWN. split; [done | ]. exists v, p.
      split; [lia | ]. split; [done | ]. split; [done | ]. cbn [vSolutionsRet]. unfold u8. by rewrite Z.mod_small by lia. }
  destruct (_ && _) eqn:E3; [ | by apply scan_sound].
  eexists. split; [done | ]. intros _. exists TX_NULL_DATA. split; [done | ].
  apply andb_true_iff in E3 as [E3 Hp]. apply andb_true_iff in E3 as [_ E3]. destruct s as [ | b s]; [done | ].
  rewrite sbyte_0 in E3. apply Z.eqb_eq in E3 as ->. cbn [drop] in Hp. rewrite drop_0 in Hp. by exists s.
Qed.

(** *** Completeness: a script of a form gets its type *)

Lemma first_byte_not_p2sh b s : b <> OP_HASH160 -> IsPayToScriptHash (b :: s) = false.
Proof.
  intros Hb. destruct (IsPayToScriptHash (b :: s)) eqn:E; [ | done].
  apply IsPayToScriptHash_iff in E as (h & _ & [= -> _]). done.
Qed.

Lemma complete_shortcut cc t s sols : form cc t s sols -> type_opcode t = None -> Solver s cc = Some (mk_solution true (Some t) sols).
Proof.
  unfold Solver. destruct t; simpl; intros H Ho; try done.
  - destruct H as (h & Hh & -> & ->). rewrite (proj2 (IsPayToScriptHash_iff _)) by by exists h.
    cbn [app drop]. by rewrite drop_0, (take_app_length' h).
  - destruct H as (rest & -> & Hp & ->). rewrite first_byte_not_p2sh by done.
    destruct (IsWitnessProgram (OP_RETURN :: rest)) as [[v p] | ] eqn:E.
    { apply IsWitnessProgram_iff in E as (Hv & _ & [= E _]). unfold version_opcode in E. destruct (v =? 0); unop; lia. }
    rewrite sbyte_0, vsize_cons. pose proof (vsize_nonneg rest). destruct (Z.leb_spec 1 (1 + vsize rest)); [ | lia].
    cbn [drop]. rewrite drop_0, Hp. done.
  - destruct H as (p & Hp & -> & ->). rewrite first_byte_not_p2sh by done.
    rewrite (proj2 (IsWitnessProgram_iff _ 0 p)) by (rewrite Hp; split_and!; done || lia).
    unfold WITNESS_V0_KEYHASH_SIZE, WITNESS_V0_SCRIPTHASH_SIZE. by rewrite Hp.
  - destruct H as (p & Hp & -> & ->). rewrite first_byte_not_p2sh by done.
    rewrite (proj2 (IsWitnessProgram_iff _ 0 p)) by (rewrite Hp; split_and!; done || lia).
    unfold WITNESS_V0_KEYHASH_SIZE. by rewrite Hp.
  - destruct H as (v & p & Hv & Hp & -> & ->). rewrite first_byte_not_p2sh by (unop; lia).
    rewrite (proj2 (IsWitnessProgram_iff _ v p)).
    2: { unfold version_opcode. destruct (Z.eqb_spec v 0); [lia | ]. split_and!; done || lia. }
    destruct (Z.eqb_spec v 0); [lia | ]. cbn [andb negb]. unfold u8. by rewrite Z.mod_small by lia.
Qed.

Lemma complete_template cc t s sols o : are_bytes s -> form cc t s sols -> type_opcode t = Some o ->
  Solver s cc = Some (mk_solution true (Some t) sols).
Proof.
  intros Hs H Ho. pose proof (form_ends _ _ _ _ _ H Ho) as He.
  rewrite (Solver_templates _ _ o) by (done || (destruct t; try done; by injection Ho as <-)).
  rewrite scan_eq. destruct t; try done; injection Ho as <-; simpl in H.
  - destruct H as (k & Hf & ->). destruct (match_pubkey cc s) as [(k' & Hf' & ->) | [Hn _]]; [ | by apply Hn in Hf].
    destruct Hf as (o & E & _), Hf' as (o' & E' & _). rewrite E in E'. by injection E' as _ ->.
  - destruct H as (h & Hf & ->). destruct (match_pubkey cc s) as [(k' & (o' & E' & _) & _) | [_ ->]].
    { destruct Hf as (o & E & _). rewrite E in E'. done. }
    destruct (match_pubkeyhash cc s) as [(h' & Hf' & ->) | [Hn _]]; [ | by apply Hn in Hf].
    destruct Hf as (o & E & _), Hf' as (o' & E' & _). rewrite E in E'. by injection E' as _ ->.
  - destruct H as (m & ks & Hf & Hm & ->). destruct (no_pubkey cc s _ He) as [-> ->]; [done | ].
    destruct (match_multisig cc s) as [(m' & ks' & n' & Hf' & ->) | [Hn _]]; [ | by apply Hn in Hf].
    assert (m' = m /\ ks' = ks /\ n' = vsize ks) as (-> & -> & ->).
    { destruct Hf as (om & vm & on & vn & E & Em & En & Hk & Hv), Hf' as (om' & vm' & on' & vn' & E' & Em' & En' & Hk' & Hv').
      rewrite E in E'. injection E' as -> -> E'. destruct (keys_prefix _ _ _ _ _ _ E' Hk Hv Hk' Hv') as (-> & [= -> ->] & _).
      split; [congruence | ]. split; [done | congruence]. }
    rewrite multisig_ok_spec by apply vsize_nonneg. cbn [mbind option_bind]. by rewrite bool_decide_eq_true_2.
  - destruct H as [Hf ->]. destruct (no_pubkey cc s _ He) as [-> ->]; [done | ]. rewrite (no_multisig cc s _ He) by done.
    destruct (match_create cc s Hs) as [[_ ->] | (Hn & _)]; done.
  - destruct H as (a & Hf & ->). destruct (no_pubkey cc s _ He) as [-> ->]; [done | ]. rewrite (no_multisig cc s _ He) by done.
    destruct (match_create cc s Hs) as [[Hc _] | (_ & _ & Hc)].
    { pose proof (form_ends cc TX_CREATE s [] OP_CREATE (conj Hc eq_refl) eq_refl) as He'.
      by pose proof (ends_with_unique _ _ _ He He'). }
    rewrite Hc by by exists a. destruct (match_call cc s Hs) as [(a' & Hf' & ->) | [Hn _]]; [ | by apply Hn in Hf].
    destruct Hf as (v & gl & gp & d & o & E & _), Hf' as (v' & gl' & gp' & d' & o' & E' & _). rewrite E in E'. by injection E' as _ _ _ _ _ ->.
Qed.

(** A contract whose version is given by an opcode, not pushed as data: the version is not looked at
    ([version_opcode_accepted]). *)
Definition version_by_opcode (s : CScript) : Prop :=
  exists v rest, fst (decode s) = v :: rest /\ OP_PUSHDATA4 < fst v /\ (last rest = Some (OP_CREATE, []) \/ last rest = Some (OP_CALL, [])).

Lemma contract_version_pushed cc s v gl gp da rest : ~ version_by_opcode s -> fst (decode s) = v :: gl :: gp :: da :: rest ->
  contract_form cc v gl gp da -> last rest = Some (OP_CREATE, []) \/ last rest = Some (OP_CALL, []) ->
  exists v rest, fst (decode s) = v :: rest /\ fst v <= OP_PUSHDATA4 /\ (le_decode (snd v) = toRaw GetEVMDefault \/ le_decode (snd v) = toRaw GetNoExec).
Proof.
  intros Hno E (ex & Hver & _) Hl. unfold contract_version in Hver. destruct (Z.leb_spec (fst v) OP_PUSHDATA4) as [Hle | Hgt].
  - exists v, (gl :: gp :: da :: rest). split; [done | ]. split; [done | ]. destruct Hver as (_ & _ & ->). destruct ex; [by left | by right].
  - destruct Hno. exists v, (gl :: gp :: da :: rest). split; [done | ]. split; [done | ]. by destruct rest as [ | x rest]; [destruct Hl | ].
Qed.

(** (C20) [Solver] is exact: on every script, but for contracts whose version is given by an opcode
    instead of data, it answers (no exception escapes, no assertion fails, no empty vector is read,
    the scan of the templates ends), and it answers true with a type and solutions exactly when the
    script has the form of that type with those solutions; in particular no script has two forms.
    For the contract types the form includes the rules on version, gas limit and gas price, those of
    blocks or those of the memory pool; the version is the one of the virtual machine or of no
    execution. *)
Theorem Solver_exact s cc :
  are_bytes s -> ~ version_by_opcode s ->
  exists r, Solver s cc = Some r /\
    (ret r = true -> exists t, typeRet r = Some t /\ form cc t s (vSolutionsRet r)) /\
    (forall t sols, form cc t s sols -> r = mk_solution true (Some t) sols) /\
    (ret r = true -> typeRet r = Some TX_CREATE \/ typeRet r = Some TX_CALL ->
     exists v rest, fst (decode s) = v :: rest /\ fst v <= OP_PUSHDATA4 /\
       (le_decode (snd v) = toRaw GetEVMDefault \/ le_decode (snd v) = toRaw GetNoExec)).
Proof.
  intros Hs Hv. destruct (Solver_sound cc s Hs) as (r & E & H). exists r. split; [done | ]. split; [done | ]. split.
  - intros t sols Hf. assert (Solver s cc = Some (mk_solution true (Some t) sols)) as E'; [ | congruence].
    destruct (type_opcode t) as [o | ] eqn:Ho; [by apply (complete_template _ _ _ _ o) | by apply complete_shortcut].
  - intros Hr Ht. destruct (H Hr) as (t & Et & Hf). rewrite Et in Ht. destruct Ht as [[= ->] | [= ->]]; cbn [form] in Hf.
    + destruct Hf as [(v & gl & gp & da & Ed & Hc) _]. eapply contract_version_pushed; [done | by rewrite Ed | done | by left].
    + destruct Hf as (a & (v & gl & gp & da & o & Ed & Hc & _) & _). eapply contract_version_pushed; [done | by rewrite Ed | done | by right].
Qed.

Lemma Solver_form cc t s sols : are_bytes s -> form cc t s sols -> Solver s cc = Some (mk_solution true (Some t) sols).
Proof.
  intros Hs Hf. destruct (type_opcode t) as [o | ] eqn:Ho; [by apply (complete_template _ _ _ _ o) | by apply complete_shortcut].
Qed.

(** A contract call in a block: version 4, 250000 gas at price 40, four bytes of data *)
Definition sample_call : CScript :=
  [1; 4; 3; 0x90; 0xd0; 0x03; 1; 40; 4; 1; 2; 3; 4; 20] ++ replicate 20 9 ++ [OP_CALL].

Lemma Solver_exact_witness : Solver sample_call true = Some (mk_solution true (Some TX_CALL) [replicate 20 9]).
Proof.
  destruct (Solver_exact sample_call true) as (r & E & _ & H & _).
  - apply (bool_decide_unpack _). vm_compute. exact I.
  - intros (v & rest & Ed & Hv & _). vm_compute in Ed. injection Ed as <- _. vm_compute in Hv. discriminate Hv.
  - rewrite E. f_equal. apply H. exists (replicate 20 9). split; [ | reflexivity].
    exists (1, [4]), (3, [0x90; 0xd0; 0x03]), (1, [40]), (4, [1; 2; 3; 4]), 20.
    split; [vm_compute; reflexivity | ]. split; [ | reflexivity]. exists true.
    split; [split; [discriminate | split; [discriminate | reflexivity]] | ]. split; [ | discriminate].
    exists 250000, 40. split; [split; [discriminate | split; [right; reflexivity | reflexivity]] | ].
    split; [split; [discriminate | split; [right; reflexivity | reflexivity]] | ].
    split; [discriminate | intros _; split; discriminate].
Defined.

(** *** Destinations *)

Definition destination_ok (d : CTxDestination) : Prop :=
  match d with
  | CNoDestination => False
  | DestKeyID h | DestScriptID h | WitnessV0KeyHash h => vsize h = 20 /\ are_bytes h
  | WitnessV0ScriptHash h => vsize h = 32 /\ are_bytes h
  | WitnessUnknown v p => 1 <= v <= 16 /\ 2 <= vsize p <= 40 /\ are_bytes p
  end.
Definition destination_type (d : CTxDestination) : txnouttype :=
  match d with
  | CNoDestination => TX_NONSTANDARD
  | DestKeyID _ => TX_PUBKEYHASH
  | DestScriptID _ => TX_SCRIPTHASH
  | WitnessV0KeyHash _ => TX_WITNESS_V0_KEYHASH
  | WitnessV0ScriptHash _ => TX_WITNESS_V0_SCRIPTHASH
  | WitnessUnknown _ _ => TX_WITNESS_UNKNOWN
  end.
Definition destination_solutions (d : CTxDestination) : list bytes :=
  match d with
  | CNoDestination => []
  | DestKeyID h | DestScriptID h | WitnessV0KeyHash h | WitnessV0ScriptHash h => [h]
  | WitnessUnknown v p => [[v]; p]
  end.

Lemma script_of_destination d : destination_ok d ->
  exists s, GetScriptForDestination d = Some s /\ are_bytes s /\ form false (destination_type d) s (destination_solutions d).
Proof.
  destruct d as [ | h | h | h | h | v p]; simpl; intros H; [done | | | | | ].
  - destruct H as [Hl Hb]. eexists. split; [done | ].
    rewrite (push_small h 20) by done. split; [by repeat (constructor; [done | ]); apply Forall_app; split; [done | repeat constructor] | ].
    exists h. split; [ | done]. exists 20. split; [ | done].
    replace (OP_DUP :: OP_HASH160 :: (20 :: h) ++ [OP_EQUALVERIFY; OP_CHECKSIG])
      with (assemble [IOp OP_DUP; IOp OP_HASH160; IPush h; IOp OP_EQUALVERIFY; IOp OP_CHECKSIG]) by (cbn; by rewrite (push_small h 20)).
    rewrite decode_assemble.
    + cbn [map instr_decoded]. by rewrite Hl.
    + by repeat constructor.
    + cbn. rewrite (push_small h 20) by done. cbn [app]. rewrite !vsize_cons, vsize_app, Hl. done.
  - destruct H as [Hl Hb]. eexists. split; [done | ]. rewrite (push_small h 20) by done.
    split; [by repeat (constructor; [done | ]); apply Forall_app; split; [done | repeat constructor] | ].
    exists h. split; [unfold vsize in Hl; lia | done].
  - destruct H as [Hl Hb]. eexists. split; [done | ]. rewrite (push_small h 32) by done.
    split; [by repeat (constructor; [done | ]) | by exists h].
  - destruct H as [Hl Hb]. eexists. split; [done | ]. rewrite (push_small h 20) by done.
    split; [by repeat (constructor; [done | ]) | by exists h].
  - destruct H as (Hv & Hp & Hb). unfold EncodeOP_N. destruct (Z.leb_spec 0 v), (Z.leb_spec v 16); try lia. cbn [andb mbind option_bind].
    destruct (Z.eqb_spec v 0); [lia | ]. eexists. split; [done | ]. rewrite (push_small p (vsize p)) by (done || (unop; lia)).
    split.
    + constructor; [unfold is_byte; unop; lia | ]. constructor; [unfold is_byte; lia | done].
    + exists v, p. split; [done | ]. split; [done | ]. split; [ | done]. cbn [app]. f_equal. lia.
Qed.

Lemma ExtractDestination_form C d s : destination_ok d -> are_bytes s ->
  form false (destination_type d) s (destination_solutions d) ->
  ExtractDestination C s = Some (Some d, Some (destination_type d)).
Proof.
  intros Hd Hs Hf. unfold ExtractDestination. rewrite (Solver_form _ _ _ _ Hs Hf). by destruct d.
Qed.

Lemma destination_of_script C s d t : are_bytes s -> ExtractDestination C s = Some (Some d, Some t) -> t <> TX_PUBKEY ->
  destination_ok d /\ t = destination_type d /\ form false t s (destination_solutions d).
Proof.
  intros Hs H Ht. unfold ExtractDestination in H. destruct (Solver_sound false s Hs) as (r & E & Hr). rewrite E in H.
  cbn [mbind option_bind] in H. destruct (ret r) eqn:Er; [ | done]. cbn [negb] in H.
  destruct (Hr Er) as (t' & Et & Hf). rewrite Et in H. cbn [mbind option_bind] in H.
  assert (Hb : forall p, (exists l, s = l ++ p) -> are_bytes p).
  { intros p [l ->]. by apply Forall_app in Hs as [_ ?]. }
  destruct t'; simpl in Hf; try done.
  - destruct Hf as (k & _ & Ek). rewrite Ek in H. cbn in H. destruct (negb _); by simplify_eq.
  - destruct Hf as (h & (o & Ed & Hl) & Eh). rewrite Eh in H. cbn in H. simplify_eq. split; [ | split; [done | ]].
    + split; [done | ]. pose proof (decode_bytes s Hs) as Hi. rewrite Ed in Hi. cbn [fst] in Hi.
      do 2 (apply Forall_cons in Hi as [_ Hi]). apply Forall_cons in Hi as [[_ Hi] _]. done.
    + by exists h; split; [exists o | ].
  - destruct Hf as (h & Hl & -> & Eh). rewrite Eh in H. cbn in H. simplify_eq. split; [ | split; [done | by exists h]].
    split; [unfold vsize; lia | ]. apply (Forall_app _ [_; _]) in Hs as [_ Hs]. by apply Forall_app in Hs as [? _].
  - destruct Hf as (h & Hl & -> & Eh). rewrite Eh in H. cbn in H. simplify_eq. split; [ | split; [done | by exists h]].
    split; [done | ]. apply Hb. by exists [OP_0; 32].
  - destruct Hf as (h & Hl & -> & Eh). rewrite Eh in H. cbn in H. simplify_eq. split; [ | split; [done | by exists h]].
    split; [done | ]. apply Hb. by exists [OP_0; 20].
  - destruct Hf as (v & p & Hv & Hp & -> & Eh). rewrite Eh in H. cbn in H. simplify_eq. split; [ | split; [done | by exists v, p]].
    split; [done | ]. split; [done | ]. apply Hb. by exists [OP_1 - 1 + v; vsize p].
Qed.

(** *** Keys and multisignature scripts made for them *)

Definition key_ok (k : bytes) : Prop := are_bytes k /\ k <> [] /\ CPubKey_Set k = k.

Lemma key_ok_size k : key_ok k -> (vsize k = 33 \/ vsize k = 65) /\ key_size k = true /\ CPubKey_IsValid k = true.
Proof.
  intros (Hb & Hne & Hs). unfold CPubKey_Set in Hs. rewrite bool_decide_eq_false_2 in Hs by done.
  destruct (negb _ && _) eqn:E; [ | by symmetry in Hs]. apply andb_true_iff in E as [E1 E2].
  apply Z.eqb_eq in E2. apply negb_true_iff, Z.eqb_neq in E1.
  assert (vsize k = 33 \/ vsize k = 65) as Hk.
  { unfold GetLen, PUBLIC_KEY_SIZE, COMPRESSED_PUBLIC_KEY_SIZE in *. destruct (_ || _); [lia | ]. destruct (_ || _); lia. }
  split; [done | ]. unfold key_size, CPubKey_IsValid. destruct Hk as [-> | ->]; done.
Qed.

Lemma EncodeOP_N_instr n : 0 <= n <= 16 -> exists o, EncodeOP_N n = Some o /\ instr_bytes (IInt n) = [o] /\
  instr_decoded (IInt n) = (o, []) /\ DecodeOP_N o = Some n /\ is_byte o.
Proof.
  intros Hn. unfold EncodeOP_N, instr_bytes, instr_decoded, push_int64, DecodeOP_N, is_byte.
  destruct (Z.leb_spec 0 n), (Z.leb_spec n 16); try lia. cbn [andb]. destruct (Z.eqb_spec n 0) as [-> | Hn0].
  { exists OP_0. done. }
  exists (OP_1 + n - 1). destruct (Z.eqb_spec n (-1)); [lia | ]. destruct (Z.leb_spec 1 n); [ | lia]. cbn [orb andb].
  replace (n + (OP_1 - 1)) with (OP_1 + n - 1) by lia.
  replace (u8 (OP_1 + n - 1)) with (OP_1 + n - 1) by (symmetry; apply Z.mod_small; unop; lia).
  destruct (Z.eqb_spec (OP_1 + n - 1) OP_0); [unop; lia | ].
  destruct (Z.leb_spec OP_1 (OP_1 + n - 1)), (Z.leb_spec (OP_1 + n - 1) OP_16); try (unop; lia).
  cbn [andb]. split_and!; try done; try (f_equal; lia); unop; lia.
Qed.

Lemma keys_size keys : Forall key_ok keys -> vsize (flat_map push_data keys) <= 66 * vsize keys.
Proof.
  induction 1 as [ | k keys Hk Hks IH]; [done | ]. cbn [flat_map]. destruct (key_ok_size k Hk) as (Hl & _).
  rewrite (push_small k (vsize k)) by (done || (unop; lia)). rewrite vsize_app, !vsize_cons. lia.
Qed.

Lemma script_of_multisig m keys : Forall key_ok keys -> 1 <= m <= vsize keys -> vsize keys <= 16 ->
  exists s, GetScriptForMultisig m keys = Some s /\ are_bytes s /\ form false TX_MULTISIG s ([m] :: keys ++ [[vsize keys]]).
Proof.
  intros Hk Hm Hn. destruct (EncodeOP_N_instr m) as (om & Em & Im & Jm & Dm & Bm); [lia | ].
  destruct (EncodeOP_N_instr (vsize keys)) as (on & En & In_ & Jn & Dn & Bn); [pose proof (vsize_nonneg keys); lia | ].
  unfold GetScriptForMultisig. rewrite Em, En. cbn [mbind option_bind]. eexists. split; [done | ].
  set (ks := instr_decoded <$> (IPush <$> keys)).
  assert (Hsnd : snd <$> ks = keys).
  { unfold ks. rewrite <- !list_fmap_compose. rewrite <- (list_fmap_id keys) at 2. by apply list_fmap_ext. }
  assert (Hlen : vsize ks = vsize keys) by (unfold ks, vsize; by rewrite !length_fmap).
  split.
  - cbn [app]. constructor; [done | ]. apply Forall_app. split; [ | constructor; [done | constructor; [done | constructor]]].
    clear -Hk. induction Hk as [ | k keys Hk Hks IH]; [constructor | ]. cbn [flat_map]. apply Forall_app. split; [ | done].
    by apply push_data_bytes, Hk.
  - exists m, ks. split; [ | split; [lia | ]].
    2: { by rewrite Hsnd, Hlen. }
    exists om, [], on, []. rewrite Hlen. split; [ | split; [done | split; [done | split; [ | done]]]].
    + assert (Ea : [om] ++ flat_map push_data keys ++ [on; OP_CHECKMULTISIG] =
        assemble (IInt m :: (IPush <$> keys) ++ [IInt (vsize keys); IOp OP_CHECKMULTISIG])).
      { unfold assemble. cbn [flat_map]. rewrite Im, flat_map_app. cbn [flat_map]. rewrite In_. cbn [app]. f_equal. f_equal.
        rewrite !flat_map_concat_map. f_equal. symmetry. apply (map_map IPush instr_bytes). }
      rewrite Ea, decode_assemble.
      * cbn [map]. rewrite Jm, map_app. cbn [map]. by rewrite Jn.
      * constructor; [done | ]. apply Forall_app. split; [ | by repeat constructor]. apply Forall_fmap, Forall_forall. done.
      * rewrite <- Ea. pose proof (keys_size keys Hk). rewrite !vsize_app, !vsize_cons, !vsize_nil. lia.
    + unfold ks. apply Forall_fmap, Forall_fmap. eapply Forall_impl; [exact Hk | ]. intros k Hk'. cbn [compose snd instr_decoded].
      by apply key_ok_size.
Qed.

Lemma raw_key_destination C k : key_ok k ->
  ExtractDestination C (GetScriptForRawPubKey k) = Some (Some (DestKeyID (GetID C k)), Some TX_PUBKEY).
Proof.
  intros Hk. destruct (key_ok_size k Hk) as (Hl & Hks & Hv). destruct Hk as (Hb & _ & Hset).
  assert (Hs : are_bytes (GetScriptForRawPubKey k)).
  { apply Forall_app. split; [by apply push_data_bytes | by repeat constructor]. }
  unfold ExtractDestination. rewrite (Solver_form false TX_PUBKEY _ [k] Hs).
  { cbn. by rewrite Hset, Hv. }
  exists k. split; [ | done]. exists (push_opcode (vsize k)). split; [ | done].
  change (GetScriptForRawPubKey k) with (assemble [IPush k; IOp OP_CHECKSIG]). rewrite decode_assemble; [done | by repeat constructor | ].
  cbn. rewrite (push_small k (vsize k)) by (done || (unop; lia)). rewrite vsize_app, !vsize_cons, vsize_nil. lia.
Qed.

Lemma multisig_destinations C m keys : Forall key_ok keys -> 1 <= m <= vsize keys -> vsize keys <= 16 ->
  exists s, GetScriptForMultisig m keys = Some s /\
    ExtractDestinations C s = Some (true, TX_MULTISIG, (fun k => DestKeyID (GetID C k)) <$> keys, Some m).
Proof.
  intros Hk Hm Hn. destruct (script_of_multisig m keys Hk Hm Hn) as (s & E & Hs & Hf). exists s. split; [done | ].
  unfold ExtractDestinations. rewrite (Solver_form _ _ _ _ Hs Hf). cbn [mbind option_bind ret typeRet vSolutionsRet default negb from_option id].
  cbn [lookup list_lookup mbind option_bind]. cbn [drop length]. rewrite drop_0, length_app. cbn [length].
  replace (S (length keys + 1) - 2)%nat with (length keys) by lia. rewrite take_app_length.
  assert (Hset : CPubKey_Set <$> keys = keys).
  { clear -Hk. induction Hk as [ | k keys (_ & _ & Hk) Hks IH]; [done | ]. cbn [fmap list_fmap] in *. by rewrite Hk, IH. }
  rewrite Hset. assert (Hfil : filter CPubKey_IsValid keys = keys).
  { clear -Hk. induction Hk as [ | k keys Hk Hks IH]; [done | ]. rewrite filter_cons_True, IH; [done | ].
    by rewrite (proj2 (proj2 (key_ok_size k Hk))). }
  rewrite Hfil, bool_decide_eq_false_2; [done | ]. destruct keys; [unfold vsize in Hm; simpl in Hm; lia | done].
Qed.

(** Addresses and their scripts: the script of every destination is read back as that
    destination, with its type; every script read as a destination other than through a public
    key is, for script-hash and witness destinations, exactly the script made for it; a key's
    script gives the key's hash; and an m-of-n script gives the hashes of its keys and m. *)
Theorem destinations_round_trip C :
  (forall d, destination_ok d -> exists s, GetScriptForDestination d = Some s /\
     ExtractDestination C s = Some (Some d, Some (destination_type d)) /\
     ExtractDestinations C s = Some (true, destination_type d, [d], Some 1)) /\
  (forall s d t, are_bytes s -> ExtractDestination C s = Some (Some d, Some t) -> t <> TX_PUBKEY ->
     t = destination_type d /\ destination_ok d /\ (t <> TX_PUBKEYHASH -> GetScriptForDestination d = Some s)) /\
  (forall k, key_ok k -> ExtractDestination C (GetScriptForRawPubKey k) = Some (Some (DestKeyID (GetID C k)), Some TX_PUBKEY)) /\
  (forall m keys, Forall key_ok keys -> 1 <= m <= vsize keys -> vsize keys <= 16 ->
     exists s, GetScriptForMultisig m keys = Some s /\
       ExtractDestinations C s = Some (true, TX_MULTISIG, (fun k => DestKeyID (GetID C k)) <$> keys, Some m)).
Proof.
  split; [ | split; [ | split]].
  - intros d Hd. destruct (script_of_destination d Hd) as (s & E & Hs & Hf). exists s. split; [done | ].
    pose proof (ExtractDestination_form C d s Hd Hs Hf) as Ex. split; [done | ].
    unfold ExtractDestinations. rewrite (Solver_form _ _ _ _ Hs Hf), Ex. by destruct d.
  - intros s d t Hs H Ht. destruct (destination_of_script C s d t Hs H Ht) as (Hd & -> & Hf). split; [done | ]. split; [done | ].
    intros Hpk. destruct (script_of_destination d Hd) as (s' & E & _ & Hf'). rewrite E. f_equal.
    destruct d; simpl in *; try done.
    + destruct Hf as (h & _ & -> & [= ->]), Hf' as (h' & _ & -> & [= ->]). done.
    + destruct Hf as (h & _ & -> & [= ->]), Hf' as (h' & _ & -> & [= ->]). done.
    + destruct Hf as (h & _ & -> & [= ->]), Hf' as (h' & _ & -> & [= ->]). done.
    + destruct Hf as (v & p & _ & _ & -> & [= -> ->]), Hf' as (v' & p' & _ & _ & -> & [= -> ->]). done.
  - apply raw_key_destination.
  - apply multisig_destinations.
Qed.

(** Hash functions cut to length, for examples *)
Definition sample_crypto : Crypto := {| RIPEMD160 := fun b => take 20 (b ++ replicate 20 0); SHA1 := fun b => take 20 (b ++ replicate 20 0);
  SHA256 := fun b => take 32 (b ++ replicate 32 0); CheckLowS := fun _ => true |}.
Definition sample_key (n : Z) : bytes := 2 :: replicate 31 0 ++ [n].

Lemma destinations_round_trip_witness :
  (exists s, GetScriptForDestination (WitnessUnknown 3 [7; 8]) = Some s /\
     ExtractDestination sample_crypto s = Some (Some (WitnessUnknown 3 [7; 8]), Some TX_WITNESS_UNKNOWN)) /\
  (exists s, GetScriptForMultisig 1 [sample_key 5; sample_key 6] = Some s /\
     ExtractDestinations sample_crypto s = Some (true, TX_MULTISIG,
       [DestKeyID (GetID sample_crypto (sample_key 5)); DestKeyID (GetID sample_crypto (sample_key 6))], Some 1)).
Proof.
  destruct (destinations_round_trip sample_crypto) as (H1 & _ & _ & H4). split.
  - destruct (H1 (WitnessUnknown 3 [7; 8])) as (s & E & Ex & _).
    + split; [split; discriminate | ]. split; [split; discriminate | ]. apply (bool_decide_unpack _). vm_compute. exact I.
    + exists s. split; [exact E | exact Ex].
  - destruct (H4 1 [sample_key 5; sample_key 6]) as (s & E & Ex).
    + repeat constructor; first [discriminate | apply (bool_decide_unpack _); vm_compute; exact I].
    + split; discriminate.
    + discriminate.
    + exists s. split; [exact E | exact Ex].
Defined.

(** The version is compared with the two allowed ones only when it is pushed as data: [OP_2], which
    leaves the version 2 on the stack, passes the rules of the memory pool. *)
Lemma version_opcode_accepted :
  Solver ([OP_2; 3; 0x90; 0xd0; 0x03; 1; 40; 2; 0x60; 0x60; OP_CREATE]) false = Some (mk_solution true (Some TX_CREATE) []).
Proof. vm_compute. reflexivity. Qed.
