(* ===== verification/Transaction.v ===== *)
(** * Transactions ([src/primitives/transaction.h], [src/primitives/transaction.cpp],
      [src/amount.h], the blobs of [src/uint256.h])

    Outpoints, inputs, outputs and transactions with their wire format in both variants (with and
    without witnesses), the cached transaction hashes, the classification into coinbase,
    coinstake and normal transactions, and the summation of outputs.  Theorems: what each variant
    reads back and exactly which byte strings it accepts; what the two hashes commit to; the
    output sum is exact or refused. *)

From S2P Require Import Prelude Serialize Script Interpreter.
Open Scope Z_scope.

(** ** Definitions *)

(** *** Opaque blobs: the bytes in memory order *)

Abbreviation uint256 := bytes (only parsing).

(** [base_blob()] and [SetNull], for 256 bits *)
Definition uint256_SetNull : uint256 := repeat 0 32.
Definition base_blob_IsNull (data : bytes) : bool := forallb (fun b => b =? 0) data.

(** [memcmp]: the sign of the first difference *)
Fixpoint memcmp (a b : bytes) : Z :=
  match a, b with
  | x :: a, y :: b => if x <? y then -1 else if y <? x then 1 else memcmp a b
  | _, _ => 0
  end.
Definition base_blob_Compare (a b : bytes) : Z := memcmp a b.
Definition base_blob_eq (a b : bytes) : bool := base_blob_Compare a b =? 0.
Definition base_blob_lt (a b : bytes) : bool := base_blob_Compare a b <? 0.

Definition uint256_Serialize (data : uint256) : bytes := data.
Definition uint256_Unserialize : reader uint256 := stream_read 32.

(** *** Amounts *)

Abbreviation CAmount := Z (only parsing).
Definition COIN : CAmount := 100000000.
Definition CENT : CAmount := 1000000.
Definition MAX_MONEY : CAmount := 21000000 * COIN + 25 * CENT.
Definition MoneyRange (nValue : CAmount) : bool := (0 <=? nValue) && (nValue <=? MAX_MONEY).

(** *** Outpoints, inputs and outputs *)

Record COutPoint : Type := mk_COutPoint { outpoint_hash : uint256; outpoint_n : Z }.
#[export] Instance COutPoint_eq_dec : EqDecision COutPoint.
Proof. solve_decision. Defined.

(** [(uint32_t) -1] *)
Definition NULL_INDEX : Z := u32 (-1).

Definition COutPoint_Serialize (o : COutPoint) : bytes :=
  uint256_Serialize (outpoint_hash o) ++ ser_writedata32 (outpoint_n o).
Definition COutPoint_Unserialize : reader COutPoint :=
  h ← uint256_Unserialize; n ← ser_readdata32; mret (mk_COutPoint h n).
Definition COutPoint_SetNull : COutPoint := mk_COutPoint uint256_SetNull NULL_INDEX.
Definition COutPoint_IsNull (o : COutPoint) : bool :=
  base_blob_IsNull (outpoint_hash o) && (outpoint_n o =? NULL_INDEX).
Definition COutPoint_lt (a b : COutPoint) : bool :=
  let cmp := base_blob_Compare (outpoint_hash a) (outpoint_hash b) in
  (cmp <? 0) || ((cmp =? 0) && (outpoint_n a <? outpoint_n b)).
Definition COutPoint_eq (a b : COutPoint) : bool :=
  base_blob_eq (outpoint_hash a) (outpoint_hash b) && (outpoint_n a =? outpoint_n b).

Record CTxIn : Type := mk_CTxIn {
  prevout : COutPoint;
  scriptSig : CScript;
  nSequence : Z;
  scriptWitness : CScriptWitness }.
#[export] Instance CTxIn_eq_dec : EqDecision CTxIn.
Proof. unfold CScriptWitness. solve_decision. Defined.

Definition SEQUENCE_LOCKTIME_GRANULARITY : Z := 9.

Definition CTxIn_Serialize (i : CTxIn) : bytes :=
  COutPoint_Serialize (prevout i) ++ Serialize_bytes (scriptSig i) ++ ser_writedata32 (nSequence i).
(** The witness of a fresh [CTxIn] is empty. *)
Definition CTxIn_Unserialize : reader CTxIn :=
  p ← COutPoint_Unserialize; s ← Unserialize_bytes; q ← ser_readdata32; mret (mk_CTxIn p s q []).

Record CTxOut : Type := mk_CTxOut { nValue : CAmount; scriptPubKey : CScript }.
#[export] Instance CTxOut_eq_dec : EqDecision CTxOut.
Proof. solve_decision. Defined.

Definition CTxOut_Serialize (o : CTxOut) : bytes :=
  ser_writedata64 (nValue o) ++ Serialize_bytes (scriptPubKey o).
Definition CTxOut_Unserialize : reader CTxOut :=
  v ← Unserialize_int64; s ← Unserialize_bytes; mret (mk_CTxOut v s).
Definition CTxOut_SetNull : CTxOut := mk_CTxOut (-1) [].
Definition CTxOut_IsNull (o : CTxOut) : bool := nValue o =? -1.
Definition CTxOut_SetEmpty : CTxOut := mk_CTxOut 0 [].
Definition CTxOut_IsEmpty (o : CTxOut) : bool := (nValue o =? 0) && bool_decide (scriptPubKey o = []).

(** *** Transactions *)

Record CMutableTransaction : Type := mk_tx {
  vin : list CTxIn;
  vout : list CTxOut;
  tx_nVersion : Z;
  nLockTime : Z }.
#[export] Instance CMutableTransaction_eq_dec : EqDecision CMutableTransaction.
Proof. solve_decision. Defined.

Definition HasWitness (tx : CMutableTransaction) : bool :=
  existsb (fun i => negb (witness_IsNull (scriptWitness i))) (vin tx).

Definition SERIALIZE_TRANSACTION_NO_WITNESS : Z := 0x40000000.
Definition PROTOCOL_VERSION : Z := 70017.

(** [fAllowWitness], from the version of the stream *)
Definition fAllowWitness (version : Z) : bool :=
  Z.land version SERIALIZE_TRANSACTION_NO_WITNESS =? 0.

(** A witness stack: a vector of byte vectors *)
Definition witness_Serialize (w : CScriptWitness) : bytes := Serialize_vector Serialize_bytes w.
Definition witness_Unserialize : reader CScriptWitness := Unserialize_vector Unserialize_bytes.

Definition set_witness (i : CTxIn) (w : CScriptWitness) : CTxIn :=
  mk_CTxIn (prevout i) (scriptSig i) (nSequence i) w.

(** The loop [for (i...) s >> tx.vin[i].scriptWitness.stack] *)
Fixpoint read_witnesses (vin : list CTxIn) : reader (list CTxIn) :=
  match vin with
  | [] => mret []
  | i :: vin => w ← witness_Unserialize; rest ← read_witnesses vin; mret (set_witness i w :: rest)
  end.

(** From the first [vin] read to the outputs: [flags], [vin] and [vout] *)
Definition read_inputs_outputs (version : Z) (vin : list CTxIn)
  : reader (Z * list CTxIn * list CTxOut) :=
  if (vsize vin =? 0) && fAllowWitness version then
    flags ← ser_readdata8;
    if negb (flags =? 0) then
      vin ← Unserialize_vector CTxIn_Unserialize;
      vout ← Unserialize_vector CTxOut_Unserialize;
      mret (flags, vin, vout)
    else mret (flags, vin, [])
  else
    vout ← Unserialize_vector CTxOut_Unserialize;
    mret (0, vin, vout).

(** The witnesses, and [flags] without the bit that announced them *)
Definition read_flagged (version flags : Z) (vin : list CTxIn) : reader (Z * list CTxIn) :=
  if negb (Z.land flags 1 =? 0) && fAllowWitness version then
    vin ← read_witnesses vin; mret (Z.lxor flags 1, vin)
  else mret (flags, vin).

Definition UnserializeTransaction (version : Z) : reader CMutableTransaction :=
  nVersion ← Unserialize_int32;
  vin ← Unserialize_vector CTxIn_Unserialize;
  '(flags, vin, vout) ← read_inputs_outputs version vin;
  '(flags, vin) ← read_flagged version flags vin;
  if negb (flags =? 0) then reader_throw UnknownTransactionData
  else
  nLockTime ← ser_readdata32;
  mret (mk_tx vin vout nVersion nLockTime).

Definition SerializeTransaction (version : Z) (tx : CMutableTransaction) : bytes :=
  let flags := if fAllowWitness version then if HasWitness tx then Z.lor 0 1 else 0 else 0 in
  ser_writedata32 (tx_nVersion tx) ++
  (if negb (flags =? 0) then Serialize_vector CTxIn_Serialize [] ++ ser_writedata8 flags else []) ++
  Serialize_vector CTxIn_Serialize (vin tx) ++
  Serialize_vector CTxOut_Serialize (vout tx) ++
  (if negb (Z.land flags 1 =? 0)
   then flat_map (fun i => witness_Serialize (scriptWitness i)) (vin tx) else []) ++
  ser_writedata32 (nLockTime tx).

Definition CURRENT_VERSION : Z := 2.
Definition CMutableTransaction_new : CMutableTransaction := mk_tx [] [] CURRENT_VERSION 0.

Definition tx_IsNull (tx : CMutableTransaction) : bool :=
  bool_decide (vin tx = []) && bool_decide (vout tx = []).

(** [None] is the [std::runtime_error] thrown; the running sum is an [int64_t]. *)
Fixpoint GetValueOut_loop (vout : list CTxOut) (nValueOut : CAmount) : option CAmount :=
  match vout with
  | [] => Some nValueOut
  | tx_out :: vout =>
      let nValueOut := i64 (nValueOut + nValue tx_out) in
      if negb (MoneyRange (nValue tx_out)) || negb (MoneyRange nValueOut) then None
      else GetValueOut_loop vout nValueOut
  end.
Definition GetValueOut (tx : CMutableTransaction) : option CAmount := GetValueOut_loop (vout tx) 0.

Definition GetTotalSize (tx : CMutableTransaction) : Z :=
  u32 (vsize (SerializeTransaction PROTOCOL_VERSION tx)).

Definition tx_HasCreateOrCall (tx : CMutableTransaction) : bool :=
  existsb (fun v => HasOpCreate (scriptPubKey v) || HasOpCall (scriptPubKey v)) (vout tx).
Definition tx_HasOpSpend (tx : CMutableTransaction) : bool :=
  existsb (fun i => HasOpSpend (scriptSig i)) (vin tx).
Definition tx_HasOpCreate (tx : CMutableTransaction) : bool :=
  existsb (fun v => HasOpCreate (scriptPubKey v)) (vout tx).
Definition tx_HasOpCall (tx : CMutableTransaction) : bool :=
  existsb (fun v => HasOpCall (scriptPubKey v)) (vout tx).

Definition OpCall : Z := 1.
Definition OpCreate : Z := 2.
Definition GetCreateOrCall (tx : CMutableTransaction) : Z :=
  (if tx_HasOpCall tx then OpCall else 0) + (if tx_HasOpCreate tx then OpCreate else 0).

Definition IsCoinBase (tx : CMutableTransaction) : bool :=
  match vin tx with
  | [i] => COutPoint_IsNull (prevout i) && (1 <=? vsize (vout tx))
  | _ => false
  end.

Definition IsCoinStake (tx : CMutableTransaction) : bool :=
  match vin tx, vout tx with
  | i :: _, o :: _ =>
      negb (COutPoint_IsNull (prevout i)) && (2 <=? vsize (vout tx)) && CTxOut_IsEmpty o
  | _, _ => false
  end.

Definition IsNormalTx (tx : CMutableTransaction) : bool := negb (IsCoinBase tx) && negb (IsCoinStake tx).

(** *** Hashes *)

(** A [CTransaction]: the fields and the two cached hashes *)
Record CTransaction : Type := mk_CTransaction {
  tx_fields :> CMutableTransaction;
  GetHash : uint256;
  GetWitnessHash : uint256 }.
#[export] Instance CTransaction_eq_dec : EqDecision CTransaction.
Proof. solve_decision. Defined.

Section Hashes.
Context (C : Crypto).

(** [SerializeHash]: what is written to the [CHashWriter] is hashed. *)
Definition SerializeHash (written : bytes) : uint256 := Hash256 C written.

Definition ComputeHash (tx : CMutableTransaction) : uint256 :=
  SerializeHash (SerializeTransaction SERIALIZE_TRANSACTION_NO_WITNESS tx).
Definition ComputeWitnessHash (tx : CMutableTransaction) : uint256 :=
  if negb (HasWitness tx) then ComputeHash tx
  else SerializeHash (SerializeTransaction 0 tx).
(** [CTransaction(const CMutableTransaction&)] *)
Definition MakeTransaction (tx : CMutableTransaction) : CTransaction :=
  mk_CTransaction tx (ComputeHash tx) (ComputeWitnessHash tx).
End Hashes.

(** ** Theorems *)

(** *** Blobs *)

Definition uint256_ok (h : uint256) : Prop := are_bytes h /\ length h = 32%nat.

Lemma memcmp_eq a b : length a = length b -> memcmp a b = 0 <-> a = b.
Proof.
  revert b. induction a as [ | x a IH]; intros [ | y b] Hlen; simpl in *; try done.
  zcases; split; intros E; try done; try (injection E as -> ->; lia).
  - f_equal; [lia | ]. by apply IH; [lia | ].
  - injection E as -> ->. by apply IH.
Qed.

Lemma base_blob_eq_spec a b : length a = length b -> base_blob_eq a b = bool_decide (a = b).
Proof.
  intros Hlen. unfold base_blob_eq, base_blob_Compare. apply eq_true_iff_eq.
  by rewrite bool_decide_eq_true, Z.eqb_eq, memcmp_eq.
Qed.

#[export] Instance uint256_codec : Codec uint256_ok uint256_Serialize uint256_Unserialize.
Proof.
  split.
  - intros h rest [_ Hh]. apply stream_read_app. unfold vsize. by rewrite Hh.
  - intros s h rest Hs H. apply stream_read_ok in H as [-> Hlen]; [ | lia].
    apply Forall_app in Hs as [? ?]. unfold vsize in Hlen. split_and!; try done. split; [done | lia].
Qed.

(** *** The wire format of the parts *)

Definition outpoint_ok (o : COutPoint) : Prop := uint256_ok (outpoint_hash o) /\ in_u 32 (outpoint_n o).

#[export] Instance COutPoint_codec : Codec outpoint_ok COutPoint_Serialize COutPoint_Unserialize.
Proof.
  unfold COutPoint_Serialize, COutPoint_Unserialize. split.
  - intros [h n] rest [Hh Hn]. codec_read_fields.
  - intros s o rest Hs H. codec_inv_fields H.
Qed.

(** An input as it is written on its own: its witness is not part of it. *)
Definition bare_input_ok (i : CTxIn) : Prop :=
  outpoint_ok (prevout i) /\ blob_ok (scriptSig i) /\ in_u 32 (nSequence i) /\ scriptWitness i = [].

#[export] Instance CTxIn_codec : Codec bare_input_ok CTxIn_Serialize CTxIn_Unserialize.
Proof.
  unfold CTxIn_Serialize, CTxIn_Unserialize. split.
  - intros [p s q w] rest (Hp & Hs & Hq & Hw). simpl in *. subst w. codec_read_fields.
  - intros s i rest Hs H. codec_inv_fields H.
Qed.

Definition output_ok (o : CTxOut) : Prop := in_i 64 (nValue o) /\ blob_ok (scriptPubKey o).

#[export] Instance CTxOut_codec : Codec output_ok CTxOut_Serialize CTxOut_Unserialize.
Proof.
  unfold CTxOut_Serialize, CTxOut_Unserialize. split.
  - intros [v s] rest [Hv Hs]. codec_read_fields.
  - intros s o rest Hs H. codec_inv_fields H.
Qed.

Definition witness_ok (w : CScriptWitness) : Prop := vector_ok blob_ok w.

#[export] Instance witness_codec : Codec witness_ok witness_Serialize witness_Unserialize.
Proof. apply vector_codec, _. Qed.

(** *** The wire format of transactions *)

Definition strip_input (i : CTxIn) : CTxIn := set_witness i [].
(** A transaction without its witnesses *)
Definition strip_witness (tx : CMutableTransaction) : CMutableTransaction :=
  mk_tx (map strip_input (vin tx)) (vout tx) (tx_nVersion tx) (nLockTime tx).

Definition input_ok (i : CTxIn) : Prop :=
  bare_input_ok (strip_input i) /\ witness_ok (scriptWitness i).

(** A transaction whose fields fit their types and whose vectors fit [MAX_SIZE] *)
Definition tx_ok (tx : CMutableTransaction) : Prop :=
  in_i 32 (tx_nVersion tx) /\ vector_ok input_ok (vin tx) /\ vector_ok output_ok (vout tx) /\
  in_u 32 (nLockTime tx).

(** The two formats described above [UnserializeTransaction] in the source *)
Definition basic_format (tx : CMutableTransaction) : bytes :=
  ser_writedata32 (tx_nVersion tx) ++ Serialize_vector CTxIn_Serialize (vin tx) ++
  Serialize_vector CTxOut_Serialize (vout tx) ++ ser_writedata32 (nLockTime tx).
Definition extended_format (tx : CMutableTransaction) : bytes :=
  ser_writedata32 (tx_nVersion tx) ++ ser_writedata8 0 ++ ser_writedata8 1 ++
  Serialize_vector CTxIn_Serialize (vin tx) ++ Serialize_vector CTxOut_Serialize (vout tx) ++
  flat_map (fun i => witness_Serialize (scriptWitness i)) (vin tx) ++ ser_writedata32 (nLockTime tx).

Lemma SerializeTransaction_eq version tx :
  SerializeTransaction version tx =
  if fAllowWitness version && HasWitness tx then extended_format tx else basic_format tx.
Proof.
  unfold SerializeTransaction, extended_format, basic_format.
  destruct (fAllowWitness version), (HasWitness tx); cbn [andb]; try done.
Qed.

Lemma strip_input_bare i : scriptWitness i = [] -> strip_input i = i.
Proof. destruct i. simpl. by intros ->. Qed.

Lemma vector_strip v :
  Serialize_vector CTxIn_Serialize (map strip_input v) = Serialize_vector CTxIn_Serialize v.
Proof.
  unfold Serialize_vector. rewrite vsize_map. f_equal. induction v as [ | i v IH]; simpl; [done | by rewrite IH].
Qed.

Lemma vector_strip_ok v : vector_ok input_ok v -> vector_ok bare_input_ok (map strip_input v).
Proof.
  intros [Hl HF]. split; [by rewrite vsize_map | ]. apply Forall_map.
  eapply Forall_impl; [exact HF | ]. by intros i [? _].
Qed.

Lemma HasWitness_false tx : HasWitness tx = false <-> strip_witness tx = tx.
Proof.
  unfold HasWitness, strip_witness, witness_IsNull. destruct tx as [v o ver lt]; simpl.
  transitivity (map strip_input v = v).
  2: { split; [by intros -> | congruence]. }
  induction v as [ | i v IH]; simpl; [done | ].
  rewrite orb_false_iff, negb_false_iff, bool_decide_eq_true, IH.
  destruct i as [p s q w]; unfold strip_input, set_witness; simpl. split; [by intros [-> ->] | ].
  intros E. injection E as -> ->. done.
Qed.

Lemma read_witnesses_round v rest : Forall (fun i => witness_ok (scriptWitness i)) v ->
  read_witnesses (map strip_input v)
    (flat_map (fun i => witness_Serialize (scriptWitness i)) v ++ rest) = Ok (v, rest).
Proof.
  induction 1 as [ | i v Hi Hv IH]; simpl; [done | ].
  rewrite <- app_assoc, codec_bind_round by done. unfold mbind, reader_bind. rewrite IH.
  by destruct i.
Qed.

Lemma read_witnesses_inv l s v rest : are_bytes s -> Forall bare_input_ok l ->
  read_witnesses l s = Ok (v, rest) ->
  s = flat_map (fun i => witness_Serialize (scriptWitness i)) v ++ rest /\
  map strip_input v = l /\ Forall input_ok v /\ are_bytes rest.
Proof.
  intros Hs Hl. revert s v Hs. induction Hl as [ | i l Hi Hl IH]; intros s v Hs H; simpl in H.
  - by injection H as <- <-.
  - apply codec_bind_inv in H as (w & s' & -> & Hw & Hs' & H); [ | done].
    apply reader_bind_inv in H as (v' & s'' & H & [= <- <-]).
    apply IH in H as (-> & <- & ? & ?); [ | done]. simpl. rewrite <- app_assoc.
    assert (E : strip_input (set_witness i w) = i) by (apply (strip_input_bare i), Hi).
    split_and!; try done; [by rewrite E | constructor; [ | done]]. split; [by rewrite E | done].
Qed.

Section Wire.
Context (version : Z).

Lemma read_flagged_0 v s : read_flagged version 0 v s = Ok ((0, v), s).
Proof. done. Qed.

Lemma read_basic tx rest : tx_ok tx ->
  fAllowWitness version = false \/ vin tx <> [] \/ vout tx = [] ->
  UnserializeTransaction version (basic_format tx ++ rest) = Ok (strip_witness tx, rest).
Proof.
  intros (Hver & Hin & Hout & Hlt) Haw. unfold UnserializeTransaction, basic_format.
  rewrite <- !app_assoc, codec_bind_round, <- vector_strip by done.
  rewrite codec_bind_round by (by apply vector_strip_ok).
  assert (E : read_inputs_outputs version (map strip_input (vin tx))
    (Serialize_vector CTxOut_Serialize (vout tx) ++ ser_writedata32 (nLockTime tx) ++ rest) =
    Ok (0, map strip_input (vin tx), vout tx, ser_writedata32 (nLockTime tx) ++ rest)).
  { unfold read_inputs_outputs. rewrite vsize_map. destruct (_ && _) eqn:Ec.
    - apply andb_true_iff in Ec as [Ec Ea]. rewrite Ea in Haw.
      destruct (vin tx); [ | done]. destruct Haw as [ | [ | Ho]]; try done. rewrite Ho.
      change (Serialize_vector CTxOut_Serialize []) with (ser_writedata8 0).
      by rewrite codec_bind_round by lia.
    - by rewrite codec_bind_round by done. }
  rewrite (reader_bind_ok _ _ _ _ _ E), (reader_bind_ok _ _ _ _ _ (read_flagged_0 _ _)).
  cbv iota zeta beta. cbn [negb Z.eqb]. by rewrite codec_bind_round by done.
Qed.

Lemma read_extended tx rest : tx_ok tx -> fAllowWitness version = true ->
  UnserializeTransaction version (extended_format tx ++ rest) = Ok (tx, rest).
Proof.
  intros (Hver & Hin & Hout & Hlt) Haw. unfold UnserializeTransaction, extended_format.
  rewrite <- !app_assoc, codec_bind_round by done.
  change (ser_writedata8 0) with (Serialize_vector CTxIn_Serialize []).
  rewrite codec_bind_round by (split; [done | constructor]).
  rewrite <- vector_strip. unfold read_inputs_outputs at 1. rewrite Haw.
  change ((vsize (@nil CTxIn) =? 0) && true) with true. cbv iota.
  rewrite reader_bind_assoc, codec_bind_round by lia.
  cbn [negb Z.eqb]. rewrite reader_bind_assoc, codec_bind_round by (by apply vector_strip_ok).
  rewrite reader_bind_assoc, codec_bind_round, reader_ret_bind by done. cbv iota zeta beta.
  unfold read_flagged. rewrite Haw. change (negb (Z.land 1 1 =? 0) && true) with true. cbv iota.
  rewrite reader_bind_assoc, (reader_bind_ok _ _ _ _ _ (read_witnesses_round _ _ ltac:(eapply
    Forall_impl; [exact (proj2 Hin) | by intros i [_ ?]]))).
  rewrite reader_ret_bind. change (negb (Z.lxor 1 1 =? 0)) with false. cbv iota zeta beta.
  rewrite codec_bind_round by done. by destruct tx.
Qed.

(** What the three ways through the reader have consumed: [flags] is 0 and the basic format was
    read, or the extended format's marker was read and [flags] is what follows it. *)
Lemma read_inputs_outputs_inv v s flags v' o rest : are_bytes s -> vector_ok bare_input_ok v ->
  read_inputs_outputs version v s = Ok ((flags, v', o), rest) ->
  are_bytes rest /\ vector_ok bare_input_ok v' /\ vector_ok output_ok o /\
  ((flags = 0 /\ v' = v /\ s = Serialize_vector CTxOut_Serialize o ++ rest) \/
   (fAllowWitness version = true /\ v = [] /\ flags <> 0 /\ in_u 8 flags /\
    s = ser_writedata8 flags ++ Serialize_vector CTxIn_Serialize v' ++
        Serialize_vector CTxOut_Serialize o ++ rest)).
Proof.
  intros Hs Hv H. unfold read_inputs_outputs in H. destruct (_ && _) eqn:Ec.
  - apply andb_true_iff in Ec as [Ec Haw]. destruct v; [ | done].
    apply codec_bind_inv in H as (f & s1 & -> & Hf & Hs1 & H); [ | done].
    destruct (Z.eqb_spec f 0) as [-> | Hne]; cbn [negb] in H.
    + injection H as <- <- <- <-. split_and!; [done.. | by split; [ | constructor] | by left].
    + apply codec_bind_inv in H as (v2 & s2 & -> & Hv2 & Hs2 & H); [ | done].
      apply codec_bind_inv in H as (o2 & s3 & -> & Ho & Hs3 & H); [ | done].
      injection H as <- <- <- <-. split_and!; try done. right. split_and!; done || lia.
  - apply codec_bind_inv in H as (o2 & s3 & -> & Ho & Hs3 & H); [ | done].
    injection H as <- <- <- <-. split_and!; try done. by left.
Qed.

Lemma bare_inputs_ok v : vector_ok bare_input_ok v ->
  vector_ok input_ok v /\ map strip_input v = v.
Proof.
  intros [Hl HF]. split; [split; [done | ] | ].
  - eapply Forall_impl; [exact HF | ]. intros i Hi. destruct (Hi) as (_ & _ & _ & E).
    split; [by rewrite strip_input_bare | rewrite E; split; [done | constructor]].
  - clear Hl. induction HF as [ | i v Hi HF IH]; simpl; [done | ]. by rewrite IH, strip_input_bare by apply Hi.
Qed.

Lemma read_tx_inv s tx rest : are_bytes s -> UnserializeTransaction version s = Ok (tx, rest) ->
  tx_ok tx /\
  ((strip_witness tx = tx /\ s = basic_format tx ++ rest) \/
   (fAllowWitness version = true /\ s = extended_format tx ++ rest)).
Proof.
  intros Hs H. unfold UnserializeTransaction in H.
  apply codec_bind_inv in H as (ver & s1 & -> & Hver & Hs1 & H); [ | done].
  apply codec_bind_inv in H as (v & s2 & -> & Hv & Hs2 & H); [ | done].
  apply reader_bind_inv in H as ([[flags v'] o] & s3 & Hio & H).
  apply read_inputs_outputs_inv in Hio as (Hs3 & Hv' & Ho & Hcase); [ | done..].
  apply reader_bind_inv in H as ([flags' v''] & s4 & Hw & H). unfold read_flagged in Hw.
  destruct (Z.eqb_spec flags' 0) as [-> | Hne]; cbn [negb] in H; [ | done].
  destruct Hcase as [(-> & -> & ->) | (Haw & -> & Hne & Hf & ->)].
  - injection Hw as <- <-.
    apply codec_bind_inv in H as (lt & s5 & -> & Hlt & Hs5 & [= <- <-]); [ | done].
    destruct (bare_inputs_ok v Hv) as [Hvok Hstrip]. split; [exact (conj Hver (conj Hvok (conj Ho Hlt))) | left].
    unfold strip_witness, basic_format. cbn [vin vout tx_nVersion nLockTime].
    rewrite Hstrip, <- !app_assoc. done.
  - rewrite Haw, andb_true_r in Hw. destruct (Z.eqb_spec (Z.land flags 1) 0); cbn [negb] in Hw.
    { injection Hw as -> _ _. done. }
    apply reader_bind_inv in Hw as (v3 & s5 & Hw & [= Hx <- <-]).
    assert (flags = 1) as -> by (apply Z.lxor_eq in Hx; done).
    apply read_witnesses_inv in Hw as (-> & <- & Hv3 & Hs5); [ | done | apply Hv'].
    apply codec_bind_inv in H as (lt & s6 & -> & Hlt & Hs6 & [= <- <-]); [ | done].
    destruct Hv' as [Hl _]. rewrite vsize_map in Hl.
    split; [exact (conj Hver (conj (conj Hl Hv3) (conj Ho Hlt))) | right].
    split; [done | ]. unfold extended_format. cbn [vin vout tx_nVersion nLockTime].
    by rewrite vector_strip, <- !app_assoc.
Qed.
End Wire.

Lemma transaction_wire_format_aux version :
  (forall tx rest, tx_ok tx -> fAllowWitness version = true -> vin tx <> [] \/ vout tx = [] ->
     UnserializeTransaction version (SerializeTransaction version tx ++ rest) = Ok (tx, rest)) /\
  (forall tx rest, tx_ok tx -> fAllowWitness version = false ->
     UnserializeTransaction version (SerializeTransaction version tx ++ rest) =
       Ok (strip_witness tx, rest)) /\
  (forall s tx rest, are_bytes s -> UnserializeTransaction version s = Ok (tx, rest) ->
     tx_ok tx /\
     (s = SerializeTransaction version tx ++ rest \/
      fAllowWitness version = true /\ HasWitness tx = false /\ s = extended_format tx ++ rest)).
Proof.
  split_and!.
  - intros tx rest Hok Haw Hne. rewrite SerializeTransaction_eq, Haw. cbn [andb].
    destruct (HasWitness tx) eqn:Hw; [by apply read_extended | ].
    apply HasWitness_false in Hw. rewrite read_basic by tauto. by rewrite Hw.
  - intros tx rest Hok Haw. rewrite SerializeTransaction_eq, Haw. cbn [andb].
    apply read_basic; tauto.
  - intros s tx rest Hs H. apply read_tx_inv in H as [Hok Hs']; [ | done]. split; [done | ].
    rewrite SerializeTransaction_eq. destruct Hs' as [[Hw ->] | [Haw ->]].
    + apply HasWitness_false in Hw. rewrite Hw, andb_false_r. by left.
    + rewrite Haw. destruct (HasWitness tx); [by left | right; done].
Qed.

(** (C17) The wire format.  A stream that carries witnesses gives back every transaction that has an
    input, or nothing at all; one that does not gives back the transaction without witnesses.
    Conversely every string the reader accepts is well-formed and is what the writer emits for
    the transaction read, except for one more form the reader tolerates where witnesses are
    carried: the extended format around a transaction that has none. *)
Theorem transaction_wire_format version :
  (forall tx rest, tx_ok tx -> fAllowWitness version = true -> vin tx <> [] \/ vout tx = [] ->
     UnserializeTransaction version (SerializeTransaction version tx ++ rest) = Ok (tx, rest)) /\
  (forall tx rest, tx_ok tx -> fAllowWitness version = false ->
     UnserializeTransaction version (SerializeTransaction version tx ++ rest) =
       Ok (strip_witness tx, rest)) /\
  (forall s tx rest, are_bytes s -> UnserializeTransaction version s = Ok (tx, rest) ->
     tx_ok tx /\
     (s = SerializeTransaction version tx ++ rest \/
      fAllowWitness version = true /\ HasWitness tx = false /\ s = extended_format tx ++ rest)).
Proof. apply transaction_wire_format_aux. Qed.

(** One input spent with a witness, one output *)
Definition sample_tx : CMutableTransaction :=
  mk_tx [mk_CTxIn (mk_COutPoint (repeat 7 32) 1) [] SEQUENCE_FINAL [[1; 2]; [3]]]
        [mk_CTxOut (5 * COIN) [OP_TRUE]] 2 0.

Lemma sample_tx_ok : tx_ok sample_tx.
Proof.
  unfold tx_ok, vector_ok, input_ok, bare_input_ok, outpoint_ok, uint256_ok, output_ok, witness_ok,
    vector_ok, blob_ok, is_byte; simpl.
  repeat (split || constructor); unfold is_byte; lia || discriminate || done.
Qed.

Lemma transaction_wire_format_witness :
  UnserializeTransaction 0 (SerializeTransaction 0 sample_tx ++ [1]) = Ok (sample_tx, [1]) /\
  UnserializeTransaction SERIALIZE_TRANSACTION_NO_WITNESS
    (SerializeTransaction SERIALIZE_TRANSACTION_NO_WITNESS sample_tx ++ [1]) =
    Ok (strip_witness sample_tx, [1]).
Proof.
  split.
  - apply (proj1 (transaction_wire_format 0)); [apply sample_tx_ok | done | by left].
  - apply (proj1 (proj2 (transaction_wire_format SERIALIZE_TRANSACTION_NO_WITNESS)));
      [apply sample_tx_ok | done].
Defined.

(** *** Transaction hashes *)

(** Two different strings among [S], which lists what was hashed, with the same hash.  (Without
    [S] there would always be a collision, since there are more strings than hashes.) *)
Definition collision (h : bytes -> bytes) (S : list bytes) : Prop := exists a b, a ∈ S /\ b ∈ S /\ a <> b /\ h a = h b.

Lemma collision_mono h S S' : S ⊆ S' -> collision h S -> collision h S'.
Proof. intros HS (a & b & Ha & Hb & H). exists a, b. split; [by apply HS|]. split; [by apply HS | done]. Qed.

Lemma hash_eq_or_collision (h : bytes -> bytes) a b : h a = h b -> a = b \/ collision h [a; b].
Proof. intros H. destruct (decide (a = b)); [by left | right; exists a, b; split_and!; [by left | by right; left | done | done]]. Qed.

(** Inclusion of lists made of the same parts, and a collision among the strings of a part *)
Ltac list_incl :=
  let x := fresh "x" in let Hx := fresh "Hx" in
  intros x Hx; repeat (rewrite elem_of_app in Hx || rewrite elem_of_cons in Hx || rewrite elem_of_nil in Hx);
  repeat (rewrite elem_of_app || rewrite elem_of_cons || rewrite elem_of_nil); tauto.
Ltac collides := match goal with H : collision _ _ |- collision _ _ => solve [apply (collision_mono _ _ _) with (2 := H); cbn; list_incl] end.

(** What is hashed for the hash of a transaction, and for its hash with witnesses *)
Definition txid_string (tx : CMutableTransaction) : bytes := SerializeTransaction SERIALIZE_TRANSACTION_NO_WITNESS tx.
Definition wtxid_string (tx : CMutableTransaction) : bytes := SerializeTransaction 0 tx.

Lemma ComputeWitnessHash_eq C tx :
  ComputeWitnessHash C tx = SerializeHash C (SerializeTransaction 0 tx).
Proof.
  unfold ComputeWitnessHash, ComputeHash. destruct (HasWitness tx) eqn:E; [done | ]. cbn [negb].
  by rewrite !SerializeTransaction_eq, E.
Qed.

Lemma basic_format_strip tx tx' : tx_ok tx -> tx_ok tx' -> basic_format tx = basic_format tx' ->
  strip_witness tx = strip_witness tx'.
Proof.
  intros H H' E. pose proof (read_basic SERIALIZE_TRANSACTION_NO_WITNESS) as R.
  pose proof (R tx [] H ltac:(by left)) as R1. pose proof (R tx' [] H' ltac:(by left)) as R2.
  rewrite E, R2 in R1. congruence.
Qed.

Lemma tx_hash_binds C tx tx' : tx_ok tx -> tx_ok tx' -> ComputeHash C tx = ComputeHash C tx' ->
  strip_witness tx = strip_witness tx' \/ collision (Hash256 C) [txid_string tx; txid_string tx'].
Proof.
  intros Hok Hok' E. apply (hash_eq_or_collision (Hash256 C)) in E as [E | ?]; [left | by right].
  rewrite !SerializeTransaction_eq in E. by apply basic_format_strip.
Qed.

Lemma tx_wtxid_binds C tx tx' : tx_ok tx -> tx_ok tx' -> vin tx <> [] -> vin tx' <> [] -> ComputeWitnessHash C tx = ComputeWitnessHash C tx' ->
  tx = tx' \/ collision (Hash256 C) [wtxid_string tx; wtxid_string tx'].
Proof.
  intros Hok Hok' Hne Hne'. rewrite !ComputeWitnessHash_eq. intros [E | ?]%hash_eq_or_collision; [left | by right].
  destruct (transaction_wire_format_aux 0) as [R _].
  pose proof (R tx [] Hok eq_refl (or_introl Hne)) as R1. pose proof (R tx' [] Hok' eq_refl (or_introl Hne')) as R2.
  rewrite E, R2 in R1. congruence.
Qed.

(** What the two transaction hashes commit to.  The transaction hash does not depend on the
    witnesses and determines everything else; the witness hash determines the whole of a
    transaction that has inputs, and is the transaction hash when there is no witness: two
    transactions that agree on a hash agree on what it commits to, or the strings hashed for them
    are a collision of the double SHA-256. *)
Theorem transaction_hashes_commit C tx tx' :
  tx_ok tx -> tx_ok tx' ->
  ComputeHash C (strip_witness tx) = ComputeHash C tx /\
  (HasWitness tx = false -> ComputeWitnessHash C tx = ComputeHash C tx) /\
  (ComputeHash C tx = ComputeHash C tx' ->
     strip_witness tx = strip_witness tx' \/ collision (Hash256 C) [txid_string tx; txid_string tx']) /\
  (vin tx <> [] -> vin tx' <> [] -> ComputeWitnessHash C tx = ComputeWitnessHash C tx' ->
     tx = tx' \/ collision (Hash256 C) [wtxid_string tx; wtxid_string tx']).
Proof.
  intros Hok Hok'. split_and!.
  - unfold ComputeHash. rewrite !SerializeTransaction_eq. change (fAllowWitness SERIALIZE_TRANSACTION_NO_WITNESS) with false. cbn [andb].
    unfold basic_format, strip_witness. cbn [vin vout tx_nVersion nLockTime]. by rewrite vector_strip.
  - intros Hw. unfold ComputeWitnessHash. by rewrite Hw.
  - by apply (tx_hash_binds C).
  - by apply tx_wtxid_binds.
Qed.

Lemma transaction_hashes_commit_witness :
  ComputeHash toy_crypto (strip_witness sample_tx) = ComputeHash toy_crypto sample_tx.
Proof. refine (proj1 (transaction_hashes_commit toy_crypto sample_tx sample_tx _ _)); apply sample_tx_ok. Defined.

(** *** Amounts *)

Definition total_out (vout : list CTxOut) : Z := foldr (fun o s => nValue o + s) 0 vout.

Lemma MoneyRange_spec v : MoneyRange v = true <-> 0 <= v <= MAX_MONEY.
Proof. unfold MoneyRange. rewrite andb_true_iff, !Z.leb_le. done. Qed.

Lemma GetValueOut_loop_spec l acc v : 0 <= acc <= MAX_MONEY ->
  GetValueOut_loop l acc = Some v <->
  Forall (fun o => MoneyRange (nValue o) = true) l /\ v = acc + total_out l /\ acc + total_out l <= MAX_MONEY.
Proof.
  revert acc. induction l as [ | o l IH]; intros acc Hacc; simpl.
  { split; [intros [= <-]; split_and!; [constructor | lia | lia] | intros (_ & -> & _); f_equal; lia]. }
  rewrite Forall_cons_iff. destruct (MoneyRange (nValue o)) eqn:Em; cbn [negb orb].
  2: { split; [done | by intros ([? _] & _)]. }
  apply MoneyRange_spec in Em. unfold MAX_MONEY, COIN, CENT in *.
  rewrite i64_id by lia. destruct (MoneyRange (acc + nValue o)) eqn:Es; cbn [negb].
  - apply MoneyRange_spec in Es. rewrite IH by done.
    split; [intros (? & -> & ?) | intros ((_ & ?) & -> & ?)]; split_and!; try done; lia.
  - split; [done | ]. intros ([_ HF] & _ & Hle).
    assert (0 <= total_out l).
    { clear -HF. induction HF as [ | o l Ho HF IH]; simpl; [lia | ]. apply MoneyRange_spec in Ho. lia. }
    assert (MoneyRange (acc + nValue o) = true) as E by (apply MoneyRange_spec; unfold MAX_MONEY, COIN, CENT; lia).
    congruence.
Qed.

(** [GetValueOut] returns the exact sum of the outputs, whatever their number, when each
    output and the sum are money amounts, and throws in every other case: the wrap-around of
    the 64-bit running sum never shows. *)
Theorem value_out_exact tx v :
  GetValueOut tx = Some v <->
  Forall (fun o => 0 <= nValue o <= MAX_MONEY) (vout tx) /\ v = total_out (vout tx) /\ v <= MAX_MONEY.
Proof.
  unfold GetValueOut. rewrite GetValueOut_loop_spec by (unfold MAX_MONEY, COIN, CENT; lia).
  rewrite Z.add_0_l. assert (forall l, Forall (fun o => MoneyRange (nValue o) = true) l <->
    Forall (fun o => 0 <= nValue o <= MAX_MONEY) l) as ->.
  { intros l. rewrite !Forall_forall. setoid_rewrite MoneyRange_spec. done. }
  split; intros (? & ? & ?); subst; done.
Qed.

(** Coinbase, coinstake and normal transactions exclude one another. *)
Lemma coinbase_not_coinstake tx : IsCoinBase tx = true -> IsCoinStake tx = false.
Proof.
  unfold IsCoinBase, IsCoinStake. destruct (vin tx) as [ | i [ | ? ?]]; try done.
  intros [-> _]%andb_true_iff. by destruct (vout tx).
Qed.
