(* ===== verification/Block.v ===== *)
(** * Blocks ([src/primitives/block.h], [src/primitives/block.cpp])

    Block headers with the proof-of-stake fields, blocks and locators, their wire formats and the
    header's two hashes.  Lemmas: the formats are exact codecs (every value is read back, nothing
    else is accepted), which the Merkle tree and the block index build on. *)

From S2P Require Import Prelude Serialize Script Interpreter Transaction.
Open Scope Z_scope.

(** ** Definitions *)

Definition SER_NETWORK : Z := Z.shiftl 1 0.
Definition SER_DISK : Z := Z.shiftl 1 1.
Definition SER_GETHASH : Z := Z.shiftl 1 2.
Definition SER_WITHOUT_SIGNATURE : Z := Z.shiftl 1 3.

Record CBlockHeader : Type := mk_CBlockHeader {
  hdr_nVersion : Z;
  hashPrevBlock : uint256;
  hashMerkleRoot : uint256;
  nTime : Z;
  nBits : Z;
  nNonce : Z;
  hashStateRoot : uint256;
  hashUTXORoot : uint256;
  prevoutStake : COutPoint;
  vchBlockSig : bytes }.
#[export] Instance CBlockHeader_eq_dec : EqDecision CBlockHeader.
Proof. solve_decision. Defined.

(** [!(s.GetType() & SER_WITHOUT_SIGNATURE)] *)
Definition with_signature (nType : Z) : bool := Z.land nType SER_WITHOUT_SIGNATURE =? 0.

Definition CBlockHeader_Serialize (nType : Z) (b : CBlockHeader) : bytes :=
  ser_writedata32 (hdr_nVersion b) ++
  uint256_Serialize (hashPrevBlock b) ++
  uint256_Serialize (hashMerkleRoot b) ++
  ser_writedata32 (nTime b) ++
  ser_writedata32 (nBits b) ++
  ser_writedata32 (nNonce b) ++
  uint256_Serialize (hashStateRoot b) ++
  uint256_Serialize (hashUTXORoot b) ++
  COutPoint_Serialize (prevoutStake b) ++
  (if with_signature nType then Serialize_bytes (vchBlockSig b) else []).

(** Read into a header that [SetNull] has emptied: without the field, the signature stays empty. *)
Definition CBlockHeader_Unserialize (nType : Z) : reader CBlockHeader :=
  nVersion ← Unserialize_int32;
  hashPrevBlock ← uint256_Unserialize;
  hashMerkleRoot ← uint256_Unserialize;
  nTime ← ser_readdata32;
  nBits ← ser_readdata32;
  nNonce ← ser_readdata32;
  hashStateRoot ← uint256_Unserialize;
  hashUTXORoot ← uint256_Unserialize;
  prevoutStake ← COutPoint_Unserialize;
  vchBlockSig ← (if with_signature nType then Unserialize_bytes else mret []);
  mret (mk_CBlockHeader nVersion hashPrevBlock hashMerkleRoot nTime nBits nNonce
          hashStateRoot hashUTXORoot prevoutStake vchBlockSig).

Definition CBlockHeader_SetNull : CBlockHeader :=
  mk_CBlockHeader 0 uint256_SetNull uint256_SetNull 0 0 0 uint256_SetNull uint256_SetNull
    COutPoint_SetNull [].
Definition CBlockHeader_IsNull (b : CBlockHeader) : bool := nBits b =? 0.
Definition header_GetBlockTime (b : CBlockHeader) : Z := i64 (nTime b).
Definition header_IsProofOfStake (b : CBlockHeader) : bool := negb (COutPoint_IsNull (prevoutStake b)).
Definition header_IsProofOfWork (b : CBlockHeader) : bool := negb (header_IsProofOfStake b).
Definition StakeTime (b : CBlockHeader) : Z := if header_IsProofOfStake b then nTime b else 0.

(** A block: the header (the base class), the transactions and the memory-only flag *)
Record CBlock : Type := mk_CBlock {
  block_header :> CBlockHeader;
  vtx : list CTransaction;
  fChecked : bool }.

Definition CBlock_SetNull : CBlock := mk_CBlock CBlockHeader_SetNull [] false.
(** [CBlock(const CBlockHeader&)] *)
Definition CBlock_of_header (header : CBlockHeader) : CBlock := mk_CBlock header [] false.
Definition GetBlockHeader (b : CBlock) : CBlockHeader :=
  mk_CBlockHeader (hdr_nVersion b) (hashPrevBlock b) (hashMerkleRoot b) (nTime b) (nBits b)
    (nNonce b) (hashStateRoot b) (hashUTXORoot b) (prevoutStake b) (vchBlockSig b).
Definition GetProofOfStake (b : CBlock) : COutPoint * Z :=
  if header_IsProofOfStake b then (prevoutStake b, nTime b) else (COutPoint_SetNull, 0).

Section Hashes.
Context (C : Crypto).

Definition Block_GetHash (b : CBlockHeader) : uint256 :=
  SerializeHash C (CBlockHeader_Serialize SER_GETHASH b).
Definition GetHashWithoutSign (b : CBlockHeader) : uint256 :=
  SerializeHash C (CBlockHeader_Serialize (Z.lor SER_GETHASH SER_WITHOUT_SIGNATURE) b).

(** A transaction in a block is a [CTransactionRef]: what is pointed to is written, and the
    deserializing constructor computes the hashes. *)
Definition CTransaction_Serialize (version : Z) (tx : CTransaction) : bytes :=
  SerializeTransaction version tx.
Definition CTransaction_Unserialize (version : Z) : reader CTransaction :=
  tx ← UnserializeTransaction version; mret (MakeTransaction C tx).

Definition CBlock_Serialize (nType version : Z) (b : CBlock) : bytes :=
  CBlockHeader_Serialize nType b ++ Serialize_vector (CTransaction_Serialize version) (vtx b).
Definition CBlock_Unserialize (nType version : Z) : reader CBlock :=
  h ← CBlockHeader_Unserialize nType;
  vtx ← Unserialize_vector (CTransaction_Unserialize version);
  mret (mk_CBlock h vtx false).
End Hashes.

(** [CBlockLocator]: the version of the stream is written first, and ignored when read. *)
Definition CBlockLocator_Serialize (nType version : Z) (vHave : list uint256) : bytes :=
  (if Z.land nType SER_GETHASH =? 0 then ser_writedata32 version else []) ++
  Serialize_vector uint256_Serialize vHave.
Definition CBlockLocator_Unserialize (nType : Z) : reader (list uint256) :=
  _ ← (if Z.land nType SER_GETHASH =? 0 then Unserialize_int32 else mret 0);
  Unserialize_vector uint256_Unserialize.

(** ** Theorems *)

(** A header whose fields fit their types *)
Definition unsigned_header_ok (b : CBlockHeader) : Prop :=
  in_i 32 (hdr_nVersion b) /\ uint256_ok (hashPrevBlock b) /\ uint256_ok (hashMerkleRoot b) /\
  in_u 32 (nTime b) /\ in_u 32 (nBits b) /\ in_u 32 (nNonce b) /\
  uint256_ok (hashStateRoot b) /\ uint256_ok (hashUTXORoot b) /\ outpoint_ok (prevoutStake b).
Definition header_ok (b : CBlockHeader) : Prop := unsigned_header_ok b /\ blob_ok (vchBlockSig b).

#[export] Instance CBlockHeader_codec nType : with_signature nType = true ->
  Codec header_ok (CBlockHeader_Serialize nType) (CBlockHeader_Unserialize nType).
Proof.
  intros Ht. unfold CBlockHeader_Serialize, CBlockHeader_Unserialize, header_ok, unsigned_header_ok.
  rewrite Ht. split.
  - intros [] rest H. cbn [hdr_nVersion hashPrevBlock hashMerkleRoot nTime nBits nNonce hashStateRoot
      hashUTXORoot prevoutStake vchBlockSig] in *. codec_read_fields.
  - intros s b rest Hs H. codec_inv_fields H.
Qed.

(** Without the signature, the header read has an empty one. *)
Definition strip_signature (b : CBlockHeader) : CBlockHeader :=
  mk_CBlockHeader (hdr_nVersion b) (hashPrevBlock b) (hashMerkleRoot b) (nTime b) (nBits b)
    (nNonce b) (hashStateRoot b) (hashUTXORoot b) (prevoutStake b) [].

Lemma read_unsigned_header nType b rest : with_signature nType = false -> unsigned_header_ok b ->
  CBlockHeader_Unserialize nType (CBlockHeader_Serialize nType b ++ rest) = Ok (strip_signature b, rest).
Proof.
  intros Ht H. unfold CBlockHeader_Serialize, CBlockHeader_Unserialize, unsigned_header_ok in *.
  rewrite Ht. codec_read_fields.
Qed.

(** What is hashed for the two hashes of a block *)
Definition header_string (b : CBlockHeader) : bytes := CBlockHeader_Serialize SER_GETHASH b.
Definition unsigned_string (b : CBlockHeader) : bytes := CBlockHeader_Serialize (Z.lor SER_GETHASH SER_WITHOUT_SIGNATURE) b.

(** The hash without signature is that of the header alone; it determines all of it. *)
Lemma unsigned_hash_binds C b b' : unsigned_header_ok b -> unsigned_header_ok b' ->
  GetHashWithoutSign C b = GetHashWithoutSign C b' ->
  strip_signature b = strip_signature b' \/ collision (Hash256 C) [unsigned_string b; unsigned_string b'].
Proof.
  intros Hb Hb' [E | ?]%hash_eq_or_collision; [left | by right].
  set (t := Z.lor SER_GETHASH SER_WITHOUT_SIGNATURE) in E.
  pose proof (read_unsigned_header t b [] eq_refl Hb) as R.
  pose proof (read_unsigned_header t b' [] eq_refl Hb') as R'.
  rewrite E, R' in R. congruence.
Qed.

Lemma block_hash_binds C b b' : header_ok b -> header_ok b' ->
  Block_GetHash C b = Block_GetHash C b' -> b = b' \/ collision (Hash256 C) [header_string b; header_string b'].
Proof.
  intros Hb Hb' [E | ?]%hash_eq_or_collision; [left | by right].
  pose proof (CBlockHeader_codec SER_GETHASH eq_refl) as [R _].
  pose proof (R b [] Hb) as R1. pose proof (R b' [] Hb') as R2. rewrite E, R2 in R1. congruence.
Qed.

(** A transaction as the deserializing constructor makes it, with at least one input *)
Definition block_tx_ok C (tx : CTransaction) : Prop :=
  tx_ok tx /\ vin tx <> [] /\ tx = MakeTransaction C tx.

#[export] Instance CTransaction_roundtrip C version : fAllowWitness version = true ->
  RoundTrip (block_tx_ok C) (CTransaction_Serialize version) (CTransaction_Unserialize C version).
Proof.
  intros Hv tx rest (Hok & Hne & E). unfold CTransaction_Serialize, CTransaction_Unserialize.
  destruct (transaction_wire_format_aux version) as [R _].
  rewrite (reader_bind_ok _ _ _ _ _ (R tx rest Hok Hv (or_introl Hne))). by rewrite E at 2.
Qed.

(** A whole block is read back, with its transactions' hashes recomputed. *)
Lemma CBlock_round_trip C nType version (b : CBlock) rest :
  with_signature nType = true -> fAllowWitness version = true ->
  header_ok b -> vector_ok (block_tx_ok C) (vtx b) ->
  CBlock_Unserialize C nType version (CBlock_Serialize nType version b ++ rest) =
    Ok (mk_CBlock b (vtx b) false, rest).
Proof.
  intros Ht Hv Hh Hvtx. unfold CBlock_Serialize, CBlock_Unserialize. rewrite <- app_assoc.
  pose proof (CBlockHeader_codec nType Ht). pose proof (CTransaction_roundtrip C version Hv).
  rewrite (reader_bind_round (P := header_ok)) by done.
  by rewrite (reader_bind_round (P := vector_ok (block_tx_ok C)) (H := vector_roundtrip _ _ _)) by done.
Qed.
