(* ===== verification/Merkle.v ===== *)
(** * Merkle trees ([src/consensus/merkle.cpp], [src/merkleblock.h], [src/merkleblock.cpp])

    The Merkle root of a block with its duplicate detection, and partial Merkle trees: building
    one for a selection of transactions and extracting the selection from one that was received.
    Theorems: the loop and the recursion compute the same root; an unflagged root determines its
    leaves; what was built is extracted; what is extracted is in the tree of that root. *)

From S2P Require Import Prelude Serialize Script Interpreter Transaction Block.
Open Scope Z_scope.

(** ** Definitions *)

Section Root.
Context (C : Crypto).

(** The hash of the concatenation of two nodes: one block of [SHA256D64], or
    [Hash(BEGIN(left), END(left), BEGIN(right), END(right))] *)
Definition Hash_pair (left right : uint256) : uint256 := Hash256 C (left ++ right).

(** [SHA256D64(out, in, blocks)]: each 64-byte block of the input, two nodes, to one node *)
Fixpoint SHA256D64 (hashes : list uint256) : list uint256 :=
  match hashes with
  | a :: b :: hashes => Hash_pair a b :: SHA256D64 hashes
  | _ => []
  end.

(** The loop over [pos] that sets [mutation] *)
Fixpoint equal_pair (hashes : list uint256) : bool :=
  match hashes with
  | a :: b :: hashes => base_blob_eq a b || equal_pair hashes
  | _ => false
  end.

(** One turn of the loop, on the hashes *)
Definition merkle_level (hashes : list uint256) : list uint256 :=
  let hashes := if negb (Z.land (vsize hashes) 1 =? 0) then hashes ++ [List.last hashes []] else hashes in
  SHA256D64 hashes.

Fixpoint ComputeMerkleRoot_loop (fuel : nat) (hashes : list uint256) (mutation : bool)
  : list uint256 * bool :=
  if 1 <? vsize hashes then
    match fuel with
    | O => (hashes, mutation)
    | S fuel => ComputeMerkleRoot_loop fuel (merkle_level hashes) (mutation || equal_pair hashes)
    end
  else (hashes, mutation).

(** The root and [*mutated].  The list gets shorter at each turn: its length is enough fuel. *)
Definition ComputeMerkleRoot (hashes : list uint256) : uint256 * bool :=
  let '(hashes, mutated) := ComputeMerkleRoot_loop (length hashes) hashes false in
  match hashes with
  | [] => (uint256_SetNull, mutated)
  | h :: _ => (h, mutated)
  end.

Definition BlockMerkleRoot (block : CBlock) : uint256 * bool :=
  ComputeMerkleRoot (map GetHash (vtx block)).

(** [leaves[0].SetNull()] and [leaves[1].SetNull()] write out of range ([None]) when the block has
    no such transaction. *)
Definition BlockWitnessMerkleRoot (block : CBlock) (pfProofOfStake : option bool)
  : option (uint256 * bool) :=
  let fProofOfStake := default (header_IsProofOfStake block) pfProofOfStake in
  match vtx block with
  | [] => None
  | _ :: txs =>
      if fProofOfStake then
        match txs with
        | [] => None
        | _ :: txs =>
            Some (ComputeMerkleRoot (uint256_SetNull :: uint256_SetNull :: map GetWitnessHash txs))
        end
      else Some (ComputeMerkleRoot (uint256_SetNull :: map GetWitnessHash txs))
  end.
End Root.

(** *** Partial Merkle trees *)

Record CPartialMerkleTree : Type := mk_pmt {
  nTransactions : Z;
  vBits : list bool;
  vHash : list uint256;
  fBad : bool }.

(** [(nTransactions+(1 << height)-1) >> height] in [unsigned int] *)
Definition CalcTreeWidth (nTransactions : Z) (height : nat) : Z :=
  Z.shiftr (u32 (nTransactions + Z.shiftl 1 (Z.of_nat height) - 1)) (Z.of_nat height).

(** [while (CalcTreeWidth(nHeight) > 1) nHeight++]: no width exceeds 1 at height 32. *)
Fixpoint tree_height (fuel nHeight : nat) (nTransactions : Z) : nat :=
  match fuel with
  | O => nHeight
  | S fuel => if 1 <? CalcTreeWidth nTransactions nHeight
              then tree_height fuel (S nHeight) nTransactions else nHeight
  end.
Definition TreeHeight (nTransactions : Z) : nat := tree_height 32 0 nTransactions.

(** [v[pos]]: [None] out of range, where the source is undefined *)
Definition at_pos {A} (v : list A) (pos : Z) : option A := v !! Z.to_nat pos.

(** The loop over [p] from [pos << height]: whether one of the next [n] below [end_] is matched *)
Fixpoint any_match (n : nat) (p end_ nTransactions : Z) (vMatch : list bool) : option bool :=
  match n with
  | O => Some false
  | S n =>
      if (p <? end_) && (p <? nTransactions) then
        b ← at_pos vMatch p;
        r ← any_match n (p + 1) end_ nTransactions vMatch;
        Some (b || r)
      else Some false
  end.

(** The state [TraverseAndExtract] threads: the two counters, the results and [fBad] *)
Record xstate : Type := mk_xstate {
  nBitsUsed : Z;
  nHashUsed : Z;
  xMatch : list uint256;
  xIndex : list Z;
  xBad : bool }.

Section Partial.
Context (C : Crypto).

(** Positions are [unsigned int]s.  [None]: the assertion on [vTxid] fails, or [vTxid[pos]] is out of range. *)
Fixpoint CalcHash (nTransactions : Z) (height : nat) (pos : Z) (vTxid : list uint256)
  : option uint256 :=
  if vsize vTxid =? 0 then None
  else match height with
  | O => at_pos vTxid pos
  | S height =>
      lhs ← CalcHash nTransactions height (u32 (pos * 2)) vTxid;
      rhs ← (if u32 (pos * 2 + 1) <? CalcTreeWidth nTransactions height
               then CalcHash nTransactions height (u32 (pos * 2 + 1)) vTxid
               else Some lhs);
      Some (Hash_pair C lhs rhs)
  end.

(** The bits and hashes already stored are threaded through. *)
Fixpoint TraverseAndBuild (nTransactions : Z) (height : nat) (pos : Z) (vTxid : list uint256)
  (vMatch : list bool) (st : list bool * list uint256) : option (list bool * list uint256) :=
  let '(vBits, vHash) := st in
  fParentOfMatch ← any_match (2 ^ height) (u32 (Z.shiftl pos (Z.of_nat height)))
                     (u32 (Z.shiftl (pos + 1) (Z.of_nat height))) nTransactions vMatch;
  let vBits := vBits ++ [fParentOfMatch] in
  match height with
  | O => h ← CalcHash nTransactions 0 pos vTxid; Some (vBits, vHash ++ [h])
  | S height' =>
      if negb fParentOfMatch then
        h ← CalcHash nTransactions height pos vTxid; Some (vBits, vHash ++ [h])
      else
        st ← TraverseAndBuild nTransactions height' (u32 (pos * 2)) vTxid vMatch (vBits, vHash);
        if u32 (pos * 2 + 1) <? CalcTreeWidth nTransactions height'
        then TraverseAndBuild nTransactions height' (u32 (pos * 2 + 1)) vTxid vMatch st
        else Some st
  end.

(** [CPartialMerkleTree(vTxid, vMatch)] *)
Definition CPartialMerkleTree_new (vTxid : list uint256) (vMatch : list bool)
  : option CPartialMerkleTree :=
  let nTransactions := u32 (vsize vTxid) in
  '(vBits, vHash) ← TraverseAndBuild nTransactions (TreeHeight nTransactions) 0 vTxid vMatch ([], []);
  Some (mk_pmt nTransactions vBits vHash false).

Fixpoint TraverseAndExtract (t : CPartialMerkleTree) (height : nat) (pos : Z) (s : xstate)
  : uint256 * xstate :=
  let bad s := mk_xstate (nBitsUsed s) (nHashUsed s) (xMatch s) (xIndex s) true in
  match at_pos (vBits t) (nBitsUsed s) with
  | None => (uint256_SetNull, bad s)
  | Some fParentOfMatch =>
      let s := mk_xstate (nBitsUsed s + 1) (nHashUsed s) (xMatch s) (xIndex s) (xBad s) in
      let stored (leaf : bool) :=
        match at_pos (vHash t) (nHashUsed s) with
        | None => (uint256_SetNull, bad s)
        | Some hash =>
            (hash, if leaf && fParentOfMatch
                   then mk_xstate (nBitsUsed s) (nHashUsed s + 1) (xMatch s ++ [hash])
                          (xIndex s ++ [pos]) (xBad s)
                   else mk_xstate (nBitsUsed s) (nHashUsed s + 1) (xMatch s) (xIndex s) (xBad s))
        end in
      match height with
      | O => stored true
      | S height =>
          if negb fParentOfMatch then stored false
          else
            let '(lhs, s) := TraverseAndExtract t height (u32 (pos * 2)) s in
            let '(rhs, s) :=
              if u32 (pos * 2 + 1) <? CalcTreeWidth (nTransactions t) height then
                let '(rhs, s) := TraverseAndExtract t height (u32 (pos * 2 + 1)) s in
                (rhs, if base_blob_eq rhs lhs then bad s else s)
              else (lhs, s) in
            (Hash_pair C lhs rhs, s)
      end
  end.

Definition WITNESS_SCALE_FACTOR : Z := 4.
Definition MIN_TRANSACTION_WEIGHT : Z := WITNESS_SCALE_FACTOR * 60.

(** The root, or null on failure, with the results: [vMatch] is cleared first, [vnIndex] is added
    to.  [dgpMaxBlockSize] is the global of that name; [unsigned int * int] is [unsigned int]. *)
Definition ExtractMatches (dgpMaxBlockSize : Z) (t : CPartialMerkleTree) (vnIndex : list Z)
  : uint256 * list uint256 * list Z :=
  if nTransactions t =? 0 then (uint256_SetNull, [], vnIndex)
  else if u32 (dgpMaxBlockSize * WITNESS_SCALE_FACTOR) / MIN_TRANSACTION_WEIGHT <? nTransactions t
  then (uint256_SetNull, [], vnIndex)
  else if nTransactions t <? vsize (vHash t) then (uint256_SetNull, [], vnIndex)
  else if vsize (vBits t) <? vsize (vHash t) then (uint256_SetNull, [], vnIndex)
  else
    let '(hashMerkleRoot, s) :=
      TraverseAndExtract t (TreeHeight (nTransactions t)) 0 (mk_xstate 0 0 [] vnIndex (fBad t)) in
    if xBad s then (uint256_SetNull, xMatch s, xIndex s)
    else if negb ((nBitsUsed s + 7) / 8 =? (vsize (vBits t) + 7) / 8)
    then (uint256_SetNull, xMatch s, xIndex s)
    else if negb (nHashUsed s =? vsize (vHash t)) then (uint256_SetNull, xMatch s, xIndex s)
    else (hashMerkleRoot, xMatch s, xIndex s).
End Partial.

(** ** Theorems *)

(** *** Levels of the tree *)

(** Induction on a list two elements at a time *)
Lemma list_pair_ind {A} (P : list A -> Prop) :
  P [] -> (forall a, P [a]) -> (forall a b l, P l -> P (a :: b :: l)) -> forall l, P l.
Proof.
  intros H0 H1 H2. fix IH 1. intros [ | a [ | b l]]; [done | done | ]. apply H2, IH.
Qed.

Section Levels.
Context (C : Crypto).

Lemma merkle_level_pair a b l : merkle_level C (a :: b :: l) = Hash_pair C a b :: merkle_level C l.
Proof.
  unfold merkle_level. rewrite !vsize_cons.
  assert (forall z, Z.land z 1 = z mod 2) as E by (intros; apply (Z.land_ones _ 1); lia).
  rewrite !E. replace (1 + (1 + vsize l)) with (vsize l + 1 * 2) by lia. rewrite Z.mod_add by lia.
  destruct (negb _) eqn:Eodd; [ | done]. simpl. do 3 f_equal. by destruct l.
Qed.

Lemma merkle_level_one a : merkle_level C [a] = [Hash_pair C a a].
Proof. done. Qed.

Lemma merkle_level_length l : length (merkle_level C l) = Nat.div2 (S (length l)).
Proof.
  induction l as [ | a | a b l IH] using list_pair_ind; [done | done | ].
  rewrite merkle_level_pair. simpl length. by rewrite IH.
Qed.

(** A node is the hash of the two below it, the last one alone being paired with itself. *)
Lemma merkle_level_lookup l i :
  merkle_level C l !! i =
    a ← l !! (2 * i)%nat; Some (Hash_pair C a (default a (l !! (2 * i + 1)%nat))).
Proof.
  revert i. induction l as [ | a | a b l IH] using list_pair_ind; intros i.
  - done.
  - rewrite merkle_level_one. destruct i; [done | ]. by rewrite !lookup_ge_None_2 by (simpl; lia).
  - rewrite merkle_level_pair. destruct i as [ | i]; [done | ].
    replace (2 * S i)%nat with (S (S (2 * i))) by lia.
    replace (S (S (2 * i)) + 1)%nat with (S (S (2 * i + 1))) by lia. simpl. apply IH.
Qed.

(** The nodes at a height *)
Definition levels (h : nat) (l : list uint256) : list uint256 := Nat.iter h (merkle_level C) l.

Lemma levels_S h l : levels (S h) l = merkle_level C (levels h l).
Proof. done. Qed.

Lemma levels_add h k l : levels (h + k) l = levels h (levels k l).
Proof. apply Nat.iter_add. Qed.

Lemma width_eq n h : 0 <= n <= 2 ^ 31 -> (h <= 31)%nat ->
  CalcTreeWidth n h = (n + 2 ^ Z.of_nat h - 1) / 2 ^ Z.of_nat h.
Proof.
  intros Hn Hh. unfold CalcTreeWidth. rewrite Z.shiftl_1_l, Z.shiftr_div_pow2 by lia.
  assert (0 < 2 ^ Z.of_nat h <= 2 ^ 31).
  { split; [apply Z.pow_pos_nonneg; lia | apply Z.pow_le_mono_r; lia]. }
  rewrite u32_id by lia. done.
Qed.

Lemma width_0 n : 0 <= n <= 2 ^ 31 -> CalcTreeWidth n 0 = n.
Proof. intros Hn. rewrite width_eq by lia. change (2 ^ Z.of_nat 0) with 1. rewrite Z.div_1_r. lia. Qed.

Lemma width_S n h : 0 <= n <= 2 ^ 31 -> (S h <= 31)%nat ->
  CalcTreeWidth n (S h) = (CalcTreeWidth n h + 1) / 2.
Proof.
  intros Hn Hh. rewrite !width_eq by lia. rewrite Nat2Z.inj_succ, Z.pow_succ_r by lia.
  set (p := 2 ^ Z.of_nat h). assert (0 < p) by (apply Z.pow_pos_nonneg; lia).
  rewrite (Z.mul_comm 2 p), <- Z.div_div by lia. f_equal.
  rewrite <- Z.div_add by lia. f_equal. lia.
Qed.

Lemma width_range n h : 0 <= n <= 2 ^ 31 -> (h <= 31)%nat -> 0 <= CalcTreeWidth n h <= 2 ^ 31.
Proof.
  intros Hn. induction h as [ | h IH]; intros Hh; [by rewrite width_0 | ].
  rewrite width_S by lia. specialize (IH ltac:(lia)).
  split; [apply Z.div_pos; lia | apply Z.div_le_upper_bound; lia].
Qed.

Lemma width_pos n h : 0 < n <= 2 ^ 31 -> (h <= 31)%nat -> 0 < CalcTreeWidth n h.
Proof.
  intros Hn. induction h as [ | h IH]; intros Hh; [rewrite width_0; lia | ].
  rewrite width_S by lia. specialize (IH ltac:(lia)). apply Z.div_str_pos. lia.
Qed.

Lemma levels_length l h : vsize l <= 2 ^ 31 -> (h <= 31)%nat ->
  vsize (levels h l) = CalcTreeWidth (vsize l) h.
Proof.
  intros Hl. pose proof (vsize_nonneg l). induction h as [ | h IH]; intros Hh; [by rewrite width_0 | ].
  rewrite levels_S, width_S, <- IH by lia. unfold vsize at 1. rewrite merkle_level_length.
  rewrite Nat.div2_div, Nat2Z.inj_div. unfold vsize. f_equal. lia.
Qed.

(** The height at which one node is left *)
Lemma tree_height_spec fuel h n : 0 <= n <= 2 ^ 31 -> (fuel + h = 32)%nat ->
  let k := tree_height fuel h n in
  (h <= k)%nat /\ CalcTreeWidth n k <= 1 /\ (forall j, (h <= j < k)%nat -> 1 < CalcTreeWidth n j) /\
  ((h <= 31)%nat -> (k <= 31)%nat).
Proof.
  intros Hn. revert h. induction fuel as [ | fuel IH]; intros h Hf; simpl.
  { split_and!; try lia. replace h with 32%nat by lia. unfold CalcTreeWidth.
    pose proof (u32_range (n + Z.shiftl 1 (Z.of_nat 32) - 1)). rewrite Z.shiftr_div_pow2 by lia.
    change (Z.of_nat 32) with 32 in *. rewrite Z.div_small by lia. lia. }
  destruct (Z.ltb_spec 1 (CalcTreeWidth n h)) as [Hw | Hw]; [ | split_and!; lia].
  destruct (IH (S h)) as (H1 & H2 & H3 & H4); [lia | ]. split_and!; [lia | done | | ].
  - intros j Hj. destruct (decide (j = h)) as [-> | ]; [done | apply H3; lia].
  - intros _. apply H4. destruct (decide (h = 31%nat)) as [-> | ]; [ | lia].
    rewrite width_eq in Hw by lia. change (Z.of_nat 31) with 31 in Hw.
    assert ((n + 2 ^ 31 - 1) / 2 ^ 31 < 2) by (apply Z.div_lt_upper_bound; lia). lia.
Qed.

Lemma TreeHeight_spec n : 0 < n <= 2 ^ 31 ->
  (TreeHeight n <= 31)%nat /\ CalcTreeWidth n (TreeHeight n) = 1 /\
  (forall j, (j < TreeHeight n)%nat -> 1 < CalcTreeWidth n j).
Proof.
  intros Hn. destruct (tree_height_spec 32 0 n) as (_ & H2 & H3 & H4); [lia | lia | ].
  specialize (H4 ltac:(lia)). fold (TreeHeight n) in *. pose proof (width_pos n (TreeHeight n) Hn H4).
  split_and!; [done | lia | ]. intros j Hj. apply H3. lia.
Qed.

(** *** The root *)

(** Whether a pair of equal siblings is seen at one of the first [k] levels *)
Fixpoint duplicates (k : nat) (l : list uint256) : bool :=
  match k with
  | O => false
  | S k => equal_pair l || duplicates k (merkle_level C l)
  end.

Lemma levels_level j l : levels j (merkle_level C l) = levels (S j) l.
Proof. change (merkle_level C l) with (levels 1 l). rewrite <- levels_add. f_equal. lia. Qed.

Lemma ComputeMerkleRoot_loop_spec fuel l mut : (length l <= fuel)%nat ->
  exists k, ComputeMerkleRoot_loop C fuel l mut = (levels k l, mut || duplicates k l) /\
    vsize (levels k l) <= 1 /\ (forall j, (j < k)%nat -> 1 < vsize (levels j l)).
Proof.
  revert l mut. induction fuel as [ | fuel IH]; intros l mut Hf; simpl.
  all: destruct (Z.ltb_spec 1 (vsize l)) as [Hl | Hl].
  1: { unfold vsize in Hl. lia. }
  1, 3: exists 0%nat; rewrite orb_false_r; split_and!; [done | done | lia].
  destruct (IH (merkle_level C l) (mut || equal_pair l)) as (k & -> & H1 & H2).
  { rewrite merkle_level_length. unfold vsize in Hl.
    pose proof (Nat.div2_double (length l)). pose proof (Nat.div2_decr (S (length l)) fuel).
    rewrite Nat.div2_div. apply Nat.lt_succ_r, Nat.Div0.div_lt_upper_bound. lia. }
  exists (S k). rewrite levels_level in *. simpl duplicates. rewrite orb_assoc. split_and!; [done | done | ].
  intros [ | j] Hj; [done | ]. rewrite <- levels_level. apply H2. lia.
Qed.

Lemma ComputeMerkleRoot_spec l : l <> [] -> vsize l <= 2 ^ 31 ->
  let k := TreeHeight (vsize l) in
  levels k l = [fst (ComputeMerkleRoot C l)] /\ snd (ComputeMerkleRoot C l) = duplicates k l.
Proof.
  intros Hne Hl k.
  pose proof (vsize_pos l Hne) as H0. assert (0 < vsize l <= 2 ^ 31) as Hn by lia.
  destruct (TreeHeight_spec (vsize l) Hn) as (Hk & Hw & Hlt). fold k in Hk, Hw, Hlt.
  unfold ComputeMerkleRoot. destruct (ComputeMerkleRoot_loop_spec (length l) l false) as (k' & -> & H1 & H2);
    [done | ].
  assert (k' = k) as ->.
  { destruct (lt_eq_lt_dec k' k) as [[H | H] | H]; [ | done | ].
    - specialize (Hlt k' H). rewrite <- levels_length in Hlt by lia. lia.
    - specialize (H2 k H). rewrite levels_length in H2 by lia. lia. }
  assert (E : vsize (levels k l) = 1) by (rewrite levels_length by lia; lia). unfold vsize in E.
  destruct (levels k l) as [ | r [ | ? ?]]; simpl in E; [lia | done | lia].
Qed.

(** *** The recursive definition of a node *)

Lemma node_children n h pos : 0 < n <= 2 ^ 31 -> (S h <= 31)%nat ->
  0 <= pos < CalcTreeWidth n (S h) ->
  u32 (pos * 2) = pos * 2 /\ u32 (pos * 2 + 1) = pos * 2 + 1 /\ pos * 2 < CalcTreeWidth n h.
Proof.
  intros Hn Hh Hp. pose proof (width_range n h ltac:(lia) ltac:(lia)).
  rewrite width_S in Hp by lia.
  assert (pos * 2 < CalcTreeWidth n h).
  { pose proof (Z.mul_div_le (CalcTreeWidth n h + 1) 2). lia. }
  rewrite !u32_id by lia. lia.
Qed.

Lemma CalcHash_node l h pos : 0 < vsize l <= 2 ^ 31 -> (h <= 31)%nat ->
  0 <= pos < CalcTreeWidth (vsize l) h ->
  CalcHash C (vsize l) h pos l = levels h l !! Z.to_nat pos.
Proof.
  intros Hn. revert pos. induction h as [ | h IH]; intros pos Hh Hp; simpl CalcHash.
  all: destruct (Z.eqb_spec (vsize l) 0); [lia | ].
  1: done.
  destruct (node_children (vsize l) h pos) as (-> & -> & Hc); [done.. | ].
  pose proof (width_range (vsize l) h ltac:(lia) ltac:(lia)).
  rewrite levels_S, merkle_level_lookup. rewrite (IH (pos * 2)) by lia.
  replace (Z.to_nat (pos * 2)) with (2 * Z.to_nat pos)%nat by lia.
  destruct (levels h l !! (2 * Z.to_nat pos)%nat) as [a | ] eqn:Ea; cbn [mbind option_bind]; [ | done].
  destruct (Z.ltb_spec (pos * 2 + 1) (CalcTreeWidth (vsize l) h)) as [Hr | Hr].
  - rewrite IH by lia. replace (Z.to_nat (pos * 2 + 1)) with (2 * Z.to_nat pos + 1)%nat by lia.
    rewrite <- levels_length in Hr by lia. unfold vsize in Hr.
    destruct (levels h l !! (2 * Z.to_nat pos + 1)%nat) eqn:Eb; [done | ].
    apply lookup_ge_None in Eb. lia.
  - rewrite <- levels_length in Hr by lia. unfold vsize in Hr.
    rewrite (lookup_ge_None_2 _ (2 * Z.to_nat pos + 1)) by lia. done.
Qed.
End Levels.

(** Two ways to the root.  The loop that halves the list of hashes and the recursion partial
    trees use give the same root for every non-empty list of transactions, and the recursion
    never reads out of range. *)
Theorem merkle_root_agrees C l :
  l <> [] -> vsize l <= 2 ^ 31 ->
  CalcHash C (vsize l) (TreeHeight (vsize l)) 0 l = Some (fst (ComputeMerkleRoot C l)).
Proof.
  intros Hne Hl. pose proof (vsize_pos l Hne) as H0.
  destruct (TreeHeight_spec (vsize l) ltac:(lia)) as (Hk & Hw & _).
  rewrite CalcHash_node by lia. by rewrite (proj1 (ComputeMerkleRoot_spec C l Hne Hl)).
Qed.

Lemma merkle_root_agrees_witness :
  CalcHash toy_crypto 3 2 0 [repeat 1 32; repeat 2 32; repeat 3 32] =
  Some (fst (ComputeMerkleRoot toy_crypto [repeat 1 32; repeat 2 32; repeat 3 32])).
Proof.
  apply (merkle_root_agrees toy_crypto [repeat 1 32; repeat 2 32; repeat 3 32]);
    [discriminate | vm_compute; discriminate].
Defined.

(** *** The root binds the leaves *)

Section Binding.
Context (C : Crypto) (HC : forall b, length (Hash256 C b) = 32%nat).

Definition hash_sized (h : uint256) : Prop := length h = 32%nat.

Lemma Hash_pair_inj a b c d : hash_sized a -> hash_sized c ->
  Hash_pair C a b = Hash_pair C c d -> (a = c /\ b = d) \/ collision (Hash256 C) [a ++ b; c ++ d].
Proof.
  intros Ha Hc E. apply (hash_eq_or_collision (Hash256 C)) in E as [E | ?]; [left | by right].
  apply app_inj_1 in E; [done | ]. by rewrite Ha, Hc.
Qed.

Lemma merkle_level_sized l : Forall hash_sized (merkle_level C l).
Proof.
  induction l as [ | a | a b l IH] using list_pair_ind.
  - constructor.
  - rewrite merkle_level_one. repeat constructor. apply HC.
  - rewrite merkle_level_pair. constructor; [apply HC | done].
Qed.

Lemma merkle_level_nil l : merkle_level C l = [] -> l = [].
Proof. destruct l as [ | a [ | b l]]; [done.. | by rewrite merkle_level_pair]. Qed.

Lemma same_blobs a b : hash_sized a -> hash_sized b -> base_blob_eq a b = false -> a <> b.
Proof.
  intros Ha Hb. rewrite base_blob_eq_spec by congruence. by intros ?%bool_decide_eq_false.
Qed.

(** What is hashed from one level to the next, and for [k] levels *)
Fixpoint level_strings (l : list uint256) : list bytes :=
  match l with
  | [] => []
  | [a] => [a ++ a]
  | a :: b :: l => (a ++ b) :: level_strings l
  end.
Fixpoint tree_strings (k : nat) (l : list uint256) : list bytes :=
  match k with O => [] | S k => level_strings l ++ tree_strings k (merkle_level C l) end.

(** Without a pair of equal siblings, a level determines the one below. *)
Lemma merkle_level_inj l l' : Forall hash_sized l -> Forall hash_sized l' ->
  equal_pair l = false -> equal_pair l' = false ->
  merkle_level C l = merkle_level C l' -> l = l' \/ collision (Hash256 C) (level_strings l ++ level_strings l').
Proof.
  revert l'. induction l as [ | a | a b l IH] using list_pair_ind; intros l' Hl Hl' Hd Hd' E.
  - left. symmetry. by apply merkle_level_nil.
  - rewrite merkle_level_one in E. destruct l' as [ | c [ | d l']]; [done | | ].
    all: rewrite !Forall_cons in *; destruct Hl as [Ha _], Hl' as [Hc Hl'].
    + injection E as E. apply Hash_pair_inj in E as [[-> _] | ?]; [by left | right; collides | done | done].
    + rewrite merkle_level_pair in E. injection E as E E'. symmetry in E'.
      apply merkle_level_nil in E' as ->. simpl in Hd'. rewrite orb_false_r in Hd'.
      apply same_blobs in Hd'; [ | done | apply Hl'].
      apply Hash_pair_inj in E as [[-> ->] | ?]; [done | right; collides | done | done].
  - rewrite merkle_level_pair in E. rewrite !Forall_cons in Hl. destruct Hl as (Ha & Hb & Hl).
    simpl in Hd. apply orb_false_iff in Hd as [Hd1 Hd2]. apply same_blobs in Hd1; [ | done..].
    destruct l' as [ | c [ | d l']]; [done | | ]; rewrite !Forall_cons in Hl'.
    + injection E as E E'. destruct Hl' as [Hc _].
      apply Hash_pair_inj in E as [[-> ->] | ?]; [done | right; collides | done | done].
    + rewrite merkle_level_pair in E. injection E as E E'. destruct Hl' as (Hc & _ & Hl').
      simpl in Hd'. apply orb_false_iff in Hd' as [_ Hd'].
      apply Hash_pair_inj in E as [[-> ->] | ?]; [ | right; collides | done | done].
      destruct (IH l') as [-> | ?]; [done.. | by left | right; collides].
Qed.

Lemma levels_inj k l l' : Forall hash_sized l -> Forall hash_sized l' ->
  duplicates C k l = false -> duplicates C k l' = false ->
  levels C k l = levels C k l' -> l = l' \/ collision (Hash256 C) (tree_strings k l ++ tree_strings k l').
Proof.
  revert l l'. induction k as [ | k IH]; intros l l' Hl Hl' Hd Hd' E; [by left | ].
  simpl in Hd, Hd'. apply orb_false_iff in Hd as [Hd1 Hd2]. apply orb_false_iff in Hd' as [Hd1' Hd2'].
  rewrite <- !levels_level in E.
  destruct (IH (merkle_level C l) (merkle_level C l')) as [E' | ?];
    [by apply merkle_level_sized.. | done | done | done | | right; collides].
  destruct (merkle_level_inj l l') as [-> | ?]; [done.. | by left | right; collides].
Qed.

Lemma duplicates_add j k l : duplicates C (j + k) l = false -> duplicates C k (levels C j l) = false.
Proof.
  revert l. induction j as [ | j IH]; intros l; [done | ]. simpl. intros [_ H]%orb_false_iff.
  rewrite <- levels_S, <- levels_level. by apply IH.
Qed.

(** A leaf that is itself the hash of a string in [S] that could be two nodes *)
Definition leaf_is_node (S : list bytes) (l : list uint256) : Prop :=
  exists a b, a ++ b ∈ S /\ hash_sized a /\ hash_sized b /\ Hash_pair C a b ∈ l.

Lemma leaf_is_node_mono S S' l : S ⊆ S' -> leaf_is_node S l -> leaf_is_node S' l.
Proof. intros HS (a & b & Hab & H). exists a, b. split; [by apply HS | done]. Qed.

Lemma tree_strings_add j k l : tree_strings (j + k) l = tree_strings j l ++ tree_strings k (levels C j l).
Proof.
  revert l. induction j as [ | j IH]; intros l; [done | ]. cbn [Nat.add tree_strings]. rewrite IH, <- app_assoc.
  by rewrite levels_level.
Qed.

Lemma leaf_of_level l x l' : Forall hash_sized l -> merkle_level C l = x :: l' ->
  exists a b, a ++ b ∈ level_strings l /\ hash_sized a /\ hash_sized b /\ x = Hash_pair C a b.
Proof.
  destruct l as [ | a [ | b l]]; [done | rewrite merkle_level_one | rewrite merkle_level_pair]; rewrite ?Forall_cons.
  - intros [Ha _] [= <- _]. exists a, a. cbn. split_and!; [by left | done..].
  - intros (Ha & Hb & _) [= <- _]. exists a, b. cbn. split_and!; [by left | done..].
Qed.

Lemma higher_root_leaves k k' l l' r : (k < k')%nat -> l <> [] -> Forall hash_sized l ->
  Forall hash_sized l' -> duplicates C k l = false -> duplicates C k' l' = false ->
  levels C k l = [r] -> levels C k' l' = [r] ->
  leaf_is_node (tree_strings k' l') l \/ collision (Hash256 C) (tree_strings k l ++ tree_strings k' l').
Proof.
  intros Hk Hne Hl Hl' Hd Hd' E E'. set (j := (k' - k - 1)%nat). replace k' with (S j + k)%nat in * by (unfold j; lia).
  rewrite Nat.add_comm, levels_add in E'. apply duplicates_add in Hd'.
  rewrite levels_S in Hd', E'. rewrite <- E in E'. rewrite tree_strings_add.
  assert (Forall hash_sized (levels C j l')) as Hj by (destruct j; [done | apply merkle_level_sized]).
  apply levels_inj in E' as [E' | ?]; [left | right | by apply merkle_level_sized | done..].
  - destruct l as [ | x l]; [done | ]. apply leaf_of_level in E' as (a & b & Hab & Ha & Hb & ->); [ | done].
    exists a, b. split_and!; [ | done | done | apply list_elem_of_here].
    replace (S j) with (j + 1)%nat by lia. rewrite !tree_strings_add, !elem_of_app. left. right. cbn. apply elem_of_app. by left.
  - eapply collision_mono; [ | eassumption]. rewrite levels_S. list_incl.
Qed.

Lemma merkle_root_binds_aux l l' r :
  l <> [] -> l' <> [] -> vsize l <= 2 ^ 31 -> vsize l' <= 2 ^ 31 ->
  Forall hash_sized l -> Forall hash_sized l' ->
  ComputeMerkleRoot C l = (r, false) -> ComputeMerkleRoot C l' = (r, false) ->
  let S := tree_strings (TreeHeight (vsize l)) l ++ tree_strings (TreeHeight (vsize l')) l' in
  l = l' \/ collision (Hash256 C) S \/ leaf_is_node S l \/ leaf_is_node S l'.
Proof.
  intros Hne Hne' Hn Hn' Hl Hl' E E'.
  destruct (ComputeMerkleRoot_spec C l Hne Hn) as [Hr Hd]. rewrite E in Hr, Hd.
  destruct (ComputeMerkleRoot_spec C l' Hne' Hn') as [Hr' Hd']. rewrite E' in Hr', Hd'.
  cbn [fst snd] in *. set (k := TreeHeight (vsize l)) in *. set (k' := TreeHeight (vsize l')) in *.
  destruct (lt_eq_lt_dec k k') as [[H | H] | H].
  - destruct (higher_root_leaves k k' l l' r) as [? | ?]; auto. do 2 right. left. eapply leaf_is_node_mono; [ | done]. list_incl.
  - rewrite <- H in *. rewrite <- Hr' in Hr. destruct (levels_inj k l l'); auto.
  - destruct (higher_root_leaves k' k l' l r) as [? | ?]; auto.
    + do 3 right. eapply leaf_is_node_mono; [ | done]. list_incl.
    + right. left. collides.
Qed.
End Binding.

(** What a block commits to: its transactions without their witnesses *)
Definition block_contents (b : CBlock) : CBlockHeader * list CMutableTransaction :=
  (block_header b, map (fun tx : CTransaction => strip_witness tx) (vtx b)).

Lemma txids_bind C txs txs' : Forall (block_tx_ok C) txs -> Forall (block_tx_ok C) txs' ->
  map GetHash txs = map GetHash txs' ->
  map (fun tx : CTransaction => strip_witness tx) txs = map (fun tx : CTransaction => strip_witness tx) txs' \/
  collision (Hash256 C) (map (fun tx : CTransaction => txid_string tx) txs ++ map (fun tx : CTransaction => txid_string tx) txs').
Proof.
  intros H. revert txs'. induction H as [ | tx txs (Hok & _ & Etx) H IH]; intros [ | tx' txs'] H' E; try done.
  { by left. }
  apply Forall_cons in H' as [(Hok' & _ & Etx') H']. injection E as E1 E2.
  destruct (IH txs' H' E2) as [IH' | ?]; [ | right; collides].
  rewrite Etx, Etx' in E1. cbn [MakeTransaction GetHash] in E1.
  destruct (tx_hash_binds C tx tx' Hok Hok' E1) as [Es | ?]; [left | right; collides].
  cbn [map]. by rewrite Es, IH'.
Qed.

(** What is hashed for the hash of a block, those of its transactions and its Merkle root *)
Definition block_strings C (b : CBlock) : list bytes :=
  header_string b :: map (fun tx : CTransaction => txid_string tx) (vtx b) ++
  tree_strings C (TreeHeight (vsize (map GetHash (vtx b)))) (map GetHash (vtx b)).

(** A transaction hash that is also that of two nodes belongs to a transaction of 64 bytes. *)
Lemma leaf_of_64_bytes C S txs : Forall (block_tx_ok C) txs -> leaf_is_node C S (map GetHash txs) ->
  (exists tx : CTransaction, tx ∈ txs /\ vsize (txid_string tx) = 64) \/
  collision (Hash256 C) (map (fun tx : CTransaction => txid_string tx) txs ++ S).
Proof.
  intros HF (a & b & Hab & Ha & Hb & Hin). apply list_elem_of_fmap in Hin as (tx & E & Htx).
  assert (block_tx_ok C tx) as (_ & _ & Etx) by (by eapply Forall_forall). rewrite Etx in E. cbn [MakeTransaction GetHash] in E.
  apply (hash_eq_or_collision (Hash256 C)) in E as [E | Hc].
  - left. exists tx. split; [done | ]. change (SerializeTransaction _ tx) with (txid_string tx) in E. rewrite <- E.
    red in Ha, Hb. unfold vsize. rewrite length_app. lia.
  - right. eapply collision_mono; [ | exact Hc]. intros x [-> | [-> | []%not_elem_of_nil]%elem_of_cons]%elem_of_cons.
    + apply elem_of_app. by right.
    + apply elem_of_app. left. apply list_elem_of_fmap. by exists tx.
Qed.

(** (C22) A block is determined by its hash.  Two blocks with the same header hash, whose Merkle
    roots match their headers and were not flagged as mutated (what [CheckBlock] demands), have
    the same header and, up to witnesses, the same transactions; otherwise the strings hashed for
    the two blocks contain a collision of the double SHA-256, or one of the blocks has a
    transaction of exactly 64 bytes, which can be taken for a pair of nodes of the tree. *)
Theorem block_hash_determines_block C (b b' : CBlock) :
  (forall m, length (Hash256 C m) = 32%nat) ->
  header_ok b -> header_ok b' ->
  vector_ok (block_tx_ok C) (vtx b) -> vector_ok (block_tx_ok C) (vtx b') ->
  vtx b <> [] -> vtx b' <> [] ->
  BlockMerkleRoot C b = (hashMerkleRoot b, false) -> BlockMerkleRoot C b' = (hashMerkleRoot b', false) ->
  Block_GetHash C b = Block_GetHash C b' ->
  block_contents b = block_contents b' \/ collision (Hash256 C) (block_strings C b ++ block_strings C b') \/
  exists tx : CTransaction, (tx ∈ vtx b \/ tx ∈ vtx b') /\ vsize (txid_string tx) = 64.
Proof.
  intros HC Hh Hh' [Hn Htx] [Hn' Htx'] Hne Hne' Hr Hr' E. unfold block_strings.
  destruct (block_hash_binds C b b' Hh Hh' E) as [Eh | ?]; [ | right; left; collides].
  assert (forall txs, Forall (block_tx_ok C) txs -> Forall hash_sized (map GetHash txs)) as Hsz.
  { intros txs HF. apply Forall_map. eapply Forall_impl; [exact HF | ]. intros tx (_ & _ & E'). red.
    simpl. rewrite E'. apply HC. }
  destruct (merkle_root_binds_aux C HC (map GetHash (vtx b)) (map GetHash (vtx b')) (hashMerkleRoot b))
    as [Et | [? | [Hl | Hl]]]; rewrite ?vsize_map; auto.
  1, 2: by intros ?%map_eq_nil.
  1, 2: unfold MAX_SIZE in *; lia.
  1: by rewrite Eh.
  - destruct (txids_bind C (vtx b) (vtx b')) as [Es | ?]; auto; [ | right; left; collides].
    left. unfold block_contents. by rewrite Eh, Es.
  - right. left. rewrite !vsize_map in *. collides.
  - apply leaf_of_64_bytes in Hl as [(tx & ? & ?) | ?]; [eauto 6 | | done]. right. left. rewrite !vsize_map in *. collides.
  - apply leaf_of_64_bytes in Hl as [(tx & ? & ?) | ?]; [eauto 6 | | done]. right. left. rewrite !vsize_map in *. collides.
Qed.

Lemma toy_hash_sized m : length (Hash256 toy_crypto m) = 32%nat.
Proof.
  unfold Hash256, toy_crypto. cbn [SHA256]. rewrite length_take, length_app, length_replicate. lia.
Qed.

(** A block of one transaction *)
Definition sample_block : CBlock :=
  mk_CBlock (mk_CBlockHeader 4 uint256_SetNull (ComputeHash toy_crypto sample_tx) 0 0x1d00ffff 0
               uint256_SetNull uint256_SetNull COutPoint_SetNull [])
    [MakeTransaction toy_crypto sample_tx] false.

Lemma is_byte_dec_all l : forallb (fun b => (0 <=? b) && (b <? 256)) l = true -> are_bytes l.
Proof.
  rewrite forallb_forall. intros H. apply List.Forall_forall. intros b Hb%H.
  apply andb_true_iff in Hb as [?%Z.leb_le ?%Z.ltb_lt]. unfold is_byte. lia.
Qed.

Lemma uint256_ok_dec h :
  forallb (fun b => (0 <=? b) && (b <? 256)) h && (length h =? 32)%nat = true -> uint256_ok h.
Proof. intros [H1 H2]%andb_true_iff. split; [by apply is_byte_dec_all | by apply Nat.eqb_eq]. Qed.

Lemma sample_header_ok : header_ok sample_block.
Proof.
  split; [ | by split].
  split_and!; try (apply uint256_ok_dec; vm_compute; done); try (vm_compute; done).
  split; [by apply uint256_ok_dec | vm_compute; done].
Qed.

Lemma sample_block_txs_ok : vector_ok (block_tx_ok toy_crypto) (vtx sample_block).
Proof.
  split; [done | ]. constructor; [ | constructor]. split; [apply sample_tx_ok | ].
  split; [discriminate | reflexivity].
Qed.

(** The same block without the witnesses *)
Definition stripped_block : CBlock :=
  mk_CBlock (GetBlockHeader sample_block) [MakeTransaction toy_crypto (strip_witness sample_tx)] false.

Lemma stripped_block_txs_ok : vector_ok (block_tx_ok toy_crypto) (vtx stripped_block).
Proof.
  split; [done | ]. constructor; [ | constructor]. split; [ | split; [discriminate | reflexivity]].
  unfold tx_ok, vector_ok, input_ok, bare_input_ok, outpoint_ok, uint256_ok, output_ok, witness_ok,
    vector_ok, blob_ok, is_byte; simpl.
  repeat (split || constructor); unfold is_byte; lia || discriminate || done.
Qed.

Lemma block_hash_determines_block_witness :
  sample_block <> stripped_block /\
  (block_contents sample_block = block_contents stripped_block \/
   collision (Hash256 toy_crypto) (block_strings toy_crypto sample_block ++ block_strings toy_crypto stripped_block) \/
   exists tx : CTransaction, (tx ∈ vtx sample_block \/ tx ∈ vtx stripped_block) /\ vsize (txid_string tx) = 64).
Proof.
  split; [discriminate | ]. apply (block_hash_determines_block toy_crypto sample_block stripped_block).
  - apply toy_hash_sized.
  - apply sample_header_ok.
  - apply sample_header_ok.
  - apply sample_block_txs_ok.
  - apply stripped_block_txs_ok.
  - discriminate.
  - discriminate.
  - vm_compute. reflexivity.
  - vm_compute. reflexivity.
  - reflexivity.
Defined.

(** *** Partial trees: soundness *)

Lemma level_string_at (v : list uint256) i a : v !! (2 * i)%nat = Some a -> a ++ default a (v !! (2 * i + 1)%nat) ∈ level_strings v.
Proof.
  revert i. induction v as [ | x | x y v IH] using list_pair_ind; intros i; [done | | ].
  - destruct i as [ | i]; [intros [= ->]; by left | by rewrite lookup_ge_None_2 by (cbn; lia)].
  - destruct i as [ | i]; [intros [= ->]; by left | ].
    replace (2 * S i)%nat with (S (S (2 * i))) by lia. replace (S (S (2 * i)) + 1)%nat with (S (S (2 * i + 1))) by lia.
    intros E. cbn [level_strings lookup list_lookup] in *. apply elem_of_cons. right. by apply IH.
Qed.

(** What a traversal hashes *)
Fixpoint extract_strings C (t : CPartialMerkleTree) (height : nat) (pos : Z) (s : xstate) : list bytes :=
  match height, at_pos (vBits t) (nBitsUsed s) with
  | S height, Some true =>
      let s := mk_xstate (nBitsUsed s + 1) (nHashUsed s) (xMatch s) (xIndex s) (xBad s) in
      let '(lhs, s1) := TraverseAndExtract C t height (u32 (pos * 2)) s in
      extract_strings C t height (u32 (pos * 2)) s ++
      (if u32 (pos * 2 + 1) <? CalcTreeWidth (nTransactions t) height then
         extract_strings C t height (u32 (pos * 2 + 1)) s1 ++ [lhs ++ fst (TraverseAndExtract C t height (u32 (pos * 2 + 1)) s1)]
       else [lhs ++ lhs])
  | _, _ => []
  end.

Section Sound.
Context (C : Crypto) (HC : forall b, length (Hash256 C b) = 32%nat).
Context (l : list uint256) (Hl : Forall hash_sized l).
Context (t : CPartialMerkleTree) (Ht : Forall hash_sized (vHash t)).
(** Strings among which there may be a collision *)
Context (S_ : list bytes).

(** A result: the transaction at an index *)
Definition result_ok (i : Z) (x : uint256) : Prop := 0 <= i /\ l !! Z.to_nat i = Some x.

(** What a traversal adds to the results *)
Definition adds (s s' : xstate) : Prop :=
  exists is_ ms, xIndex s' = xIndex s ++ is_ /\ xMatch s' = xMatch s ++ ms /\ Forall2 result_ok is_ ms.

Lemma adds_same s s' : xIndex s' = xIndex s -> xMatch s' = xMatch s -> adds s s'.
Proof. intros E1 E2. exists [], []. by rewrite !app_nil_r. Qed.

Lemma adds_trans s1 s2 s3 : adds s1 s2 -> adds s2 s3 -> adds s1 s3.
Proof.
  intros (i & m & E1 & E2 & F) (i' & m' & E1' & E2' & F'). exists (i ++ i'), (m ++ m').
  rewrite E1', E1, E2', E2, !app_assoc. split_and!; [done | done | by apply Forall2_app].
Qed.

Lemma levels_sized h : Forall hash_sized (levels C h l).
Proof. destruct h; [done | by apply merkle_level_sized]. Qed.

Lemma stored_sized h : at_pos (vHash t) h = None \/ exists x, at_pos (vHash t) h = Some x /\ hash_sized x.
Proof.
  unfold at_pos. destruct (vHash t !! Z.to_nat h) as [x | ] eqn:E; [right | by left].
  exists x. split; [done | ]. by eapply Forall_lookup_1.
Qed.

Lemma extract_sized h pos s : hash_sized (fst (TraverseAndExtract C t h pos s)).
Proof.
  destruct h; simpl; destruct (at_pos (vBits t) (nBitsUsed s)) as [b | ]; try done.
  1: destruct (stored_sized (nHashUsed s)) as [-> | (x & -> & Hx)]; done.
  destruct b; simpl.
  - destruct (TraverseAndExtract _ _ _ _ _) as [lhs s1]. destruct (_ <? _).
    + destruct (TraverseAndExtract _ _ _ _ _) as [rhs s2]. apply HC.
    + apply HC.
  - destruct (stored_sized (nHashUsed s)) as [-> | (x & -> & Hx)]; done.
Qed.

Lemma tree_strings_S h v : tree_strings C (S h) v = tree_strings C h v ++ level_strings (levels C h v).
Proof. replace (S h) with (h + 1)%nat by lia. rewrite tree_strings_add. cbn. by rewrite app_nil_r. Qed.

(** The two sides of an equality of nodes *)
Lemma same_node h i lhs rhs a : tree_strings C (S h) l ⊆ S_ -> lhs ++ rhs ∈ S_ -> hash_sized lhs ->
  levels C h l !! (2 * i)%nat = Some a -> Hash_pair C a (default a (levels C h l !! (2 * i + 1)%nat)) = Hash_pair C lhs rhs ->
  (a = lhs /\ default a (levels C h l !! (2 * i + 1)%nat) = rhs) \/ collision (Hash256 C) S_.
Proof.
  intros HS Hin Hlhs Ea E. apply Hash_pair_inj in E as [? | Hc]; [by left | right | | done].
  - eapply collision_mono; [ | exact Hc]. intros x [-> | [-> | []%not_elem_of_nil]%elem_of_cons]%elem_of_cons; [ | done].
    apply HS. rewrite tree_strings_S. apply elem_of_app. right. by apply level_string_at.
  - eapply Forall_lookup_1; [exact (levels_sized h) | exact Ea].
Qed.

Section Counted.
Context (Hn : nTransactions t = vsize l) (Hsize : 0 < vsize l <= 2 ^ 31).

(** If a traversal returns the node of [l] at its position, all it adds is in [l]. *)
Lemma extract_sound h pos s : (h <= 31)%nat -> 0 <= pos < CalcTreeWidth (vsize l) h ->
  tree_strings C h l ⊆ S_ -> extract_strings C t h pos s ⊆ S_ ->
  levels C h l !! Z.to_nat pos = Some (fst (TraverseAndExtract C t h pos s)) ->
  adds s (snd (TraverseAndExtract C t h pos s)) \/ collision (Hash256 C) S_.
Proof.
  revert pos s. induction h as [ | h IH]; intros pos s Hh Hp HS HX.
  - simpl. destruct (at_pos (vBits t) (nBitsUsed s)) as [b | ]; [ | by left; apply adds_same].
    destruct (at_pos (vHash t) (nHashUsed s)) as [x | ]; [simpl | by left; apply adds_same].
    intros E. left. destruct b; [ | by apply adds_same]. exists [pos], [x]. split_and!; [done | done | ].
    repeat constructor; [lia | done].
  - simpl TraverseAndExtract. cbn [extract_strings] in HX.
    destruct (at_pos (vBits t) (nBitsUsed s)) as [b | ]; [ | by left; apply adds_same].
    destruct b; cbn [negb].
    2: { destruct (at_pos (vHash t) (nHashUsed s)); by left; apply adds_same. }
    destruct (node_children (vsize l) h pos) as (E1 & E2 & Hc); [done.. | ]. rewrite E1, E2, Hn in *. cbv zeta in HX.
    set (s0 := mk_xstate _ _ _ _ _) in *. pose proof (extract_sized h (pos * 2) s0) as Hsz.
    assert (tree_strings C h l ⊆ S_) as HS' by (intros x Hx; apply HS; rewrite tree_strings_S, elem_of_app; by left).
    specialize (IH (pos * 2) s0 ltac:(lia) ltac:(lia) HS') as IHl.
    destruct (TraverseAndExtract C t h (pos * 2) s0) as [lhs s1]. cbn [fst snd] in *.
    specialize (IHl ltac:(intros x Hx; apply HX, elem_of_app; by left)).
    rewrite levels_S, merkle_level_lookup.
    replace (Z.to_nat (pos * 2)) with (2 * Z.to_nat pos)%nat in IHl by lia.
    destruct (levels C h l !! (2 * Z.to_nat pos)%nat) as [a | ] eqn:Ea; cbn [mbind option_bind]; [ | done].
    pose proof (levels_length C l h ltac:(lia) ltac:(lia)) as Hlen. unfold vsize in Hlen at 1.
    destruct (Z.ltb_spec (pos * 2 + 1) (CalcTreeWidth (vsize l) h)) as [Hr | Hr].
    + specialize (IH (pos * 2 + 1) s1 ltac:(lia) ltac:(lia) HS' ltac:(intros x Hx; apply HX; rewrite !elem_of_app; auto)).
      replace (Z.to_nat (pos * 2 + 1)) with (2 * Z.to_nat pos + 1)%nat in IH by lia.
      destruct (TraverseAndExtract C t h (pos * 2 + 1) s1) as [rhs s2]. cbn [fst snd] in *. intros [= E].
      apply same_node in E as [[-> E] | ?]; [ | by right | done | apply HX; rewrite !elem_of_app, elem_of_cons; auto | done | done].
      destruct (levels C h l !! (2 * Z.to_nat pos + 1)%nat) as [b | ] eqn:Eb; [ | apply lookup_ge_None in Eb; lia]. cbn in E. subst b.
      destruct (IHl eq_refl) as [A1 | ?]; [ | by right]. destruct (IH eq_refl) as [A2 | ?]; [ | by right].
      left. eapply adds_trans; [exact A1 | ]. destruct (base_blob_eq rhs lhs); [ | done].
      eapply adds_trans; [exact A2 | by apply adds_same].
    + cbn [fst snd]. intros [= E].
      apply same_node in E as [[-> _] | ?]; [ | by right | done | apply HX; rewrite !elem_of_app, elem_of_cons; auto | done | done].
      by apply IHl.
Qed.
End Counted.

(** *** Whatever number of transactions is claimed *)

Definition tree_node (x : uint256) : Prop := exists h i, (h <= TreeHeight (vsize l))%nat /\ levels C h l !! i = Some x.
Definition adds_nodes (s s' : xstate) : Prop := exists ms, xMatch s' = xMatch s ++ ms /\ Forall tree_node ms.

Lemma adds_nodes_same s s' : xMatch s' = xMatch s -> adds_nodes s s'.
Proof. intros E. exists []. by rewrite app_nil_r. Qed.

Lemma adds_nodes_trans s1 s2 s3 : adds_nodes s1 s2 -> adds_nodes s2 s3 -> adds_nodes s1 s3.
Proof.
  intros (m & E & F) (m' & E' & F'). exists (m ++ m'). rewrite E', E, app_assoc. split; [done | by apply Forall_app].
Qed.

(** If a traversal returns a node of the tree of [l], all it adds are nodes, unless it goes below
    the transactions. *)
Lemma extract_nodes h g i pos s : (g <= TreeHeight (vsize l))%nat ->
  tree_strings C g l ⊆ S_ -> extract_strings C t h pos s ⊆ S_ ->
  levels C g l !! i = Some (fst (TraverseAndExtract C t h pos s)) ->
  adds_nodes s (snd (TraverseAndExtract C t h pos s)) \/ collision (Hash256 C) S_ \/ leaf_is_node C S_ l.
Proof.
  revert g i pos s. induction h as [ | h IH]; intros g i pos s Hg HS HX.
  - simpl. destruct (at_pos (vBits t) (nBitsUsed s)) as [b | ]; [ | by left; apply adds_nodes_same].
    destruct (at_pos (vHash t) (nHashUsed s)) as [x | ]; [simpl | by left; apply adds_nodes_same].
    intros E. left. destruct b; [ | by apply adds_nodes_same]. exists [x]. split; [done | ]. repeat constructor. by exists g, i.
  - simpl TraverseAndExtract. cbn [extract_strings] in HX.
    destruct (at_pos (vBits t) (nBitsUsed s)) as [b | ]; [ | by left; apply adds_nodes_same].
    destruct b; cbn [negb].
    2: { destruct (at_pos (vHash t) (nHashUsed s)); by left; apply adds_nodes_same. }
    cbv zeta in HX. set (s0 := mk_xstate _ _ _ _ _) in *. pose proof (extract_sized h (u32 (pos * 2)) s0) as Hsz.
    pose proof (fun g i Hg HS => IH g i (u32 (pos * 2)) s0 Hg HS) as IHl.
    destruct (TraverseAndExtract C t h (u32 (pos * 2)) s0) as [lhs s1]. cbn [fst snd] in *.
    assert (extract_strings C t h (u32 (pos * 2)) s0 ⊆ S_) as HX0 by (intros x Hx; apply HX, elem_of_app; by left).
    set (right_ := u32 (pos * 2 + 1) <? _) in *.
    assert (exists rhs s2, (if right_ then let '(rhs, s) := TraverseAndExtract C t h (u32 (pos * 2 + 1)) s1 in
        (rhs, if base_blob_eq rhs lhs then mk_xstate (nBitsUsed s) (nHashUsed s) (xMatch s) (xIndex s) true else s) else (lhs, s1)) = (rhs, s2) /\
      lhs ++ rhs ∈ S_ /\ hash_sized rhs /\
      forall g i, (g <= TreeHeight (vsize l))%nat -> tree_strings C g l ⊆ S_ -> levels C g l !! i = Some rhs ->
        adds_nodes s1 s2 \/ collision (Hash256 C) S_ \/ leaf_is_node C S_ l) as (rhs & s2 & -> & Hin & Hszr & IHr).
    { destruct right_.
      - pose proof (extract_sized h (u32 (pos * 2 + 1)) s1) as Hszr. pose proof (fun g i Hg HS => IH g i (u32 (pos * 2 + 1)) s1 Hg HS) as IHr.
        destruct (TraverseAndExtract C t h (u32 (pos * 2 + 1)) s1) as [rhs s2] eqn:Et. cbn [fst snd] in *. eexists rhs, _. split; [done | ].
        split; [apply HX; rewrite !elem_of_app, elem_of_cons; auto | ]. split; [done | ]. intros g' i' Hg' HS' E.
        destruct (IHr g' i' Hg' HS') as [A | ?]; [intros x Hx; apply HX; rewrite !elem_of_app; auto | done | left | by right].
        destruct (base_blob_eq rhs lhs); [ | done]. eapply adds_nodes_trans; [exact A | by apply adds_nodes_same].
      - exists lhs, s1. split; [done | ]. split; [apply HX; rewrite !elem_of_app, elem_of_cons; auto | ]. split; [done | ]. intros. left. by apply adds_nodes_same. }
    cbn [fst snd]. destruct g as [ | g]; intros E.
    + do 2 right. exists lhs, rhs. split_and!; [done | done | done | ]. by eapply list_elem_of_lookup_2.
    + rewrite levels_S, merkle_level_lookup in E. destruct (levels C g l !! (2 * i)%nat) as [a | ] eqn:Ea; [ | done]. cbn [mbind option_bind] in E.
      injection E as E. apply same_node in E as [[-> E] | ?]; [ | by auto | done..].
      assert (tree_strings C g l ⊆ S_) as HS' by (intros x Hx; apply HS; rewrite tree_strings_S, elem_of_app; by left).
      destruct (IHl g (2 * i)%nat ltac:(lia) HS' HX0 Ea) as [A1 | ?]; [ | by right].
      assert (exists k, levels C g l !! k = Some rhs) as [k Ek].
      { destruct (levels C g l !! (2 * i + 1)%nat) as [b | ] eqn:Eb; cbn in E; subst; eauto. }
      destruct (IHr g k ltac:(lia) HS' Ek) as [A2 | ?]; [ | by right]. left. by eapply adds_nodes_trans.
Qed.
End Sound.

Lemma max_transactions_small m : u32 (m * WITNESS_SCALE_FACTOR) / MIN_TRANSACTION_WEIGHT <= 2 ^ 31.
Proof.
  pose proof (u32_range (m * WITNESS_SCALE_FACTOR)). unfold MIN_TRANSACTION_WEIGHT, WITNESS_SCALE_FACTOR in *.
  apply Z.div_le_upper_bound; lia.
Qed.

(** What is hashed for the root of [l] and by [ExtractMatches] *)
Definition proof_strings C (t : CPartialMerkleTree) (l : list uint256) : list bytes :=
  tree_strings C (TreeHeight (vsize l)) l ++ extract_strings C t (TreeHeight (nTransactions t)) 0 (mk_xstate 0 0 [] [] (fBad t)).

(** An accepted tree is a complete traversal. *)
Lemma accepted_traversal C dgpMaxBlockSize t root vMatch vnIndex :
  ExtractMatches C dgpMaxBlockSize t [] = (root, vMatch, vnIndex) -> root <> uint256_SetNull ->
  nTransactions t <> 0 /\ nTransactions t <= 2 ^ 31 /\
  exists s, TraverseAndExtract C t (TreeHeight (nTransactions t)) 0 (mk_xstate 0 0 [] [] (fBad t)) = (root, s) /\ vMatch = xMatch s /\ vnIndex = xIndex s.
Proof.
  intros E Hroot. unfold ExtractMatches in E. destruct (Z.eqb_spec (nTransactions t) 0); [by injection E as <- | ].
  destruct (Z.ltb_spec (u32 (dgpMaxBlockSize * WITNESS_SCALE_FACTOR) / MIN_TRANSACTION_WEIGHT) (nTransactions t));
    [by injection E as <- | ].
  pose proof (max_transactions_small dgpMaxBlockSize). do 2 (destruct (_ <? _); [by injection E as <- | ]).
  split; [done | ]. split; [lia | ].
  destruct (TraverseAndExtract _ _ _ _ _) as [r s]. destruct (xBad s); [by injection E as <- | ].
  do 2 (destruct (negb _); [by injection E as <- | ]). injection E as <- <- <-. eauto.
Qed.

(** (C18) Partial trees authenticate.  When [ExtractMatches] accepts a partial tree, whoever made
    it, and returns the Merkle root of a list of transactions, there are two cases.  If the tree
    claims the number of transactions in the list, every hash it reports is the hash of the
    transaction at the index it reports.  If it claims another number, the hashes it reports are
    still nodes of the tree of the list, though perhaps inner ones, unless one of the transaction
    hashes is itself the hash of two nodes.  In both cases the alternative is a collision of the
    double SHA-256 among the strings hashed for the root and for the partial tree. *)
Theorem partial_tree_sound C dgpMaxBlockSize t l root vMatch vnIndex :
  (forall m, length (Hash256 C m) = 32%nat) ->
  Forall hash_sized l -> l <> [] -> vsize l <= 2 ^ 31 -> Forall hash_sized (vHash t) ->
  ExtractMatches C dgpMaxBlockSize t [] = (root, vMatch, vnIndex) ->
  root <> uint256_SetNull -> root = fst (ComputeMerkleRoot C l) ->
  collision (Hash256 C) (proof_strings C t l) \/
  (nTransactions t = vsize l -> Forall2 (fun i txid => 0 <= i /\ l !! Z.to_nat i = Some txid) vnIndex vMatch) /\
  (Forall (tree_node C l) vMatch \/ leaf_is_node C (proof_strings C t l) l).
Proof.
  intros HC Hl Hne Hsz Ht E Hroot Hr. destruct (accepted_traversal C _ t root vMatch vnIndex E Hroot) as (Hn0 & Hnt & s & Et & -> & ->).
  pose proof (vsize_pos l Hne). destruct (TreeHeight_spec (vsize l) ltac:(lia)) as (Hk & Hw & _).
  destruct (ComputeMerkleRoot_spec C l Hne Hsz) as [Ek _]. rewrite <- Hr in Ek.
  assert (tree_strings C (TreeHeight (vsize l)) l ⊆ proof_strings C t l) as HS by (intros x Hx; apply elem_of_app; by left).
  assert (extract_strings C t (TreeHeight (nTransactions t)) 0 (mk_xstate 0 0 [] [] (fBad t)) ⊆ proof_strings C t l) as HX
    by (intros x Hx; apply elem_of_app; by right).
  assert (collision (Hash256 C) (proof_strings C t l) \/
    (nTransactions t = vsize l -> Forall2 (fun i txid => 0 <= i /\ l !! Z.to_nat i = Some txid) (xIndex s) (xMatch s))) as [? | Hcount]; [ | by left | ].
  { destruct (decide (nTransactions t = vsize l)) as [Hn | Hn]; [ | by right]. rewrite Hn in HX, Et.
    destruct (extract_sound C HC l Hl t Ht _ Hn ltac:(lia) (TreeHeight (vsize l)) 0 _ Hk ltac:(lia) HS HX) as [(is_ & ms & E1 & E2 & F) | ?]; [ | | by left].
    - rewrite Et. cbn [fst]. by rewrite Ek.
    - right. intros _. rewrite Et in E1, E2. cbn in E1, E2. by rewrite E1, E2. }
  destruct (extract_nodes C HC l Hl t Ht _ _ (TreeHeight (vsize l)) 0 0 _ (le_n _) HS HX) as [(ms & Em & F) | [? | ?]]; [ | | by left | by auto].
  - rewrite Et. cbn [fst]. by rewrite Ek.
  - right. split; [done | left]. rewrite Et in Em. cbn in Em. by rewrite Em.
Qed.


(** *** Partial trees: completeness *)

Section Complete.
Context (C : Crypto) (l : list uint256) (vMatch : list bool).

(** The matched transactions among the [len] from [lo], with their indices *)
Definition match_at (i : nat) : list (Z * uint256) :=
  match vMatch !! i, l !! i with
  | Some true, Some x => [(Z.of_nat i, x)]
  | _, _ => []
  end.
Definition matched (lo len : nat) : list (Z * uint256) := flat_map match_at (seq lo len).

Lemma matched_app lo m k : matched lo (m + k) = matched lo m ++ matched (lo + m) k.
Proof. unfold matched. by rewrite seq_app, flat_map_app. Qed.

Lemma matched_beyond lo len : (length l <= lo)%nat -> matched lo len = [].
Proof.
  revert lo. induction len as [ | len IH]; intros lo H; [done | ].
  unfold matched in *. simpl. rewrite IH by lia. unfold match_at.
  rewrite (lookup_ge_None_2 l lo) by lia. by destruct (vMatch !! lo) as [[] | ].
Qed.

Context (Hm : length vMatch = length l) (Hsize : 0 < vsize l <= 2 ^ 31).

(** The flag of a node: whether it is the parent of a match *)
Lemma any_match_spec m p : 0 <= p ->
  exists b, any_match m p (p + Z.of_nat m) (vsize l) vMatch = Some b /\
    (b = false -> matched (Z.to_nat p) m = []) /\
    (m = 1%nat -> p < vsize l -> b = default false (vMatch !! Z.to_nat p)).
Proof.
  revert p. induction m as [ | m IH]; intros p Hp; simpl; [exists false; split_and!; done | ].
  destruct (Z.ltb_spec p (p + Z.of_nat (S m))) as [_ | ]; [ | lia].
  destruct (Z.ltb_spec p (vsize l)) as [Hlt | Hge]; cbn [andb].
  2: { exists false. split_and!; [done | | lia]. intros _. apply matched_beyond. unfold vsize in Hge. lia. }
  destruct (IH (p + 1) ltac:(lia)) as (b & Hb & Hf & _).
  replace (p + 1 + Z.of_nat m) with (p + Z.of_nat (S m)) in Hb by lia. rewrite Hb.
  unfold at_pos. unfold vsize in Hlt.
  destruct (lookup_lt_is_Some_2 vMatch (Z.to_nat p) ltac:(lia)) as [c Ec]. rewrite Ec.
  exists (c || b). split_and!; [done | | ].
  - intros [-> ->]%orb_false_iff. change (S m) with (1 + m)%nat. rewrite matched_app.
    replace (Z.to_nat p + 1)%nat with (Z.to_nat (p + 1)) by lia. rewrite Hf by done.
    unfold matched, match_at. simpl. by rewrite Ec.
  - intros [= ->] _. simpl in Hb. injection Hb as <-. by rewrite orb_false_r.
Qed.

Lemma at_pos_app {A} (pre : list A) x post k : vsize pre = k -> at_pos (pre ++ x :: post) k = Some x.
Proof.
  intros <-. unfold at_pos, vsize. rewrite Nat2Z.id, lookup_app_r by lia. by rewrite Nat.sub_diag.
Qed.

Lemma equal_pair_lookup (v : list uint256) i a b : equal_pair v = false ->
  v !! (2 * i)%nat = Some a -> v !! (2 * i + 1)%nat = Some b -> base_blob_eq a b = false.
Proof.
  revert i. induction v as [ | x | x y v IH] using list_pair_ind; intros i; simpl; [done | | ].
  { intros _ _. by rewrite lookup_ge_None_2 by (simpl; lia). }
  intros [Hxy Hv]%orb_false_iff. destruct i as [ | i]; simpl; [by intros [= <-] [= <-] | ].
  replace (i + S (i + 0))%nat with (S (2 * i)) by lia.
  replace (S (2 * i) + 1)%nat with (S (2 * i + 1)) by lia. simpl. by apply IH.
Qed.

Lemma duplicates_level k j v : duplicates C k v = false -> (j < k)%nat -> equal_pair (levels C j v) = false.
Proof.
  intros Hd Hj. replace k with (j + S (k - j - 1))%nat in Hd by lia. apply duplicates_add in Hd.
  simpl in Hd. by apply orb_false_iff in Hd as [? _].
Qed.

(** The leaves under a node *)
Definition leaves_under (h : nat) (pos : Z) : Z :=
  Z.min (vsize l) ((pos + 1) * 2 ^ Z.of_nat h) - pos * 2 ^ Z.of_nat h.

Lemma in_tree h pos : (h <= 31)%nat -> 0 <= pos < CalcTreeWidth (vsize l) h ->
  pos * 2 ^ Z.of_nat h < vsize l /\ (pos + 1) * 2 ^ Z.of_nat h < 2 ^ 32 /\
  1 <= leaves_under h pos.
Proof.
  intros Hh Hp. rewrite width_eq in Hp by lia. unfold leaves_under. set (q := 2 ^ Z.of_nat h) in *.
  assert (0 < q <= 2 ^ 31) by (split; [apply Z.pow_pos_nonneg; lia | apply Z.pow_le_mono_r; lia]).
  assert ((pos + 1) * q <= vsize l + q - 1).
  { transitivity ((vsize l + q - 1) / q * q); [nia | ]. pose proof (Z.mul_div_le (vsize l + q - 1) q). lia. }
  nia.
Qed.

Lemma beyond_tree h pos : (h <= 31)%nat -> 0 <= pos -> CalcTreeWidth (vsize l) h <= pos ->
  vsize l <= pos * 2 ^ Z.of_nat h.
Proof.
  intros Hh Hp Hw. rewrite width_eq in Hw by lia. set (q := 2 ^ Z.of_nat h) in *.
  assert (0 < q) by (apply Z.pow_pos_nonneg; lia).
  pose proof (Z.div_mod (vsize l + q - 1) q). pose proof (Z.mod_pos_bound (vsize l + q - 1) q). nia.
Qed.

Lemma node_exists h pos : (h <= 31)%nat -> 0 <= pos < CalcTreeWidth (vsize l) h ->
  exists x, levels C h l !! Z.to_nat pos = Some x.
Proof.
  intros Hh Hp. apply lookup_lt_is_Some_2. pose proof (levels_length C l h ltac:(lia) Hh) as E.
  unfold vsize in E at 1. lia.
Qed.

(** The bits and hashes stored for a node are what its extraction consumes. *)
Definition extracts (h : nat) (pos : Z) (bits : list bool) (hs : list uint256) : Prop :=
  forall t s preB postB preH postH,
    nTransactions t = vsize l -> xBad s = false ->
    vBits t = preB ++ bits ++ postB -> vsize preB = nBitsUsed s ->
    vHash t = preH ++ hs ++ postH -> vsize preH = nHashUsed s ->
    exists node, levels C h l !! Z.to_nat pos = Some node /\
      let ms := matched (Z.to_nat pos * 2 ^ h) (2 ^ h) in
      TraverseAndExtract C t h pos s =
        (node, mk_xstate (nBitsUsed s + vsize bits) (nHashUsed s + vsize hs)
                 (xMatch s ++ map snd ms) (xIndex s ++ map fst ms) false).

(** Equality of concatenations up to their bracketing *)
Ltac list_assoc := cbn [app]; repeat (rewrite <- app_assoc; cbn [app]); reflexivity.

(** A node stored as its hash *)
Lemma extracts_stored h pos (b : bool) x : levels C h l !! Z.to_nat pos = Some x ->
  matched (Z.to_nat pos * 2 ^ h) (2 ^ h) =
    match h with O => if b then [(pos, x)] else [] | S _ => [] end ->
  (h <> 0%nat -> b = false) -> extracts h pos [b] [x].
Proof.
  intros Ex Em Hb t s preB postB preH postH Hn Hbad HB HpB HH HpH. exists x. split; [done | ].
  rewrite Em. cbv zeta. destruct h as [ | h]; simpl.
  - rewrite HB, HH. cbn [app]. rewrite !at_pos_app by done. rewrite Hbad.
    destruct b; simpl; rewrite ?app_nil_r; done.
  - rewrite (Hb ltac:(done)) in *. rewrite HB, HH. cbn [app]. rewrite !at_pos_app by done.
    rewrite Hbad. simpl. by rewrite !app_nil_r.
Qed.

Lemma matched_children h pos : 0 <= pos ->
  matched (Z.to_nat pos * 2 ^ S h) (2 ^ S h) =
  matched (Z.to_nat (pos * 2) * 2 ^ h) (2 ^ h) ++ matched (Z.to_nat (pos * 2 + 1) * 2 ^ h) (2 ^ h).
Proof.
  intros Hp. replace (2 ^ S h)%nat with (2 ^ h + 2 ^ h)%nat by (simpl; lia). rewrite matched_app.
  replace (Z.to_nat (pos * 2)) with (Z.to_nat pos * 2)%nat by lia.
  replace (Z.to_nat (pos * 2 + 1)) with (Z.to_nat pos * 2 + 1)%nat by lia.
  f_equal; f_equal; lia.
Qed.

Section Children.
Context (h : nat) (pos : Z) (Hh : (S h <= 31)%nat) (Hp : 0 <= pos < CalcTreeWidth (vsize l) (S h)).

(** A node with two children that differ *)
Lemma extracts_both bits1 hs1 bits2 hs2 : pos * 2 + 1 < CalcTreeWidth (vsize l) h ->
  Forall hash_sized (levels C h l) -> equal_pair (levels C h l) = false ->
  extracts h (pos * 2) bits1 hs1 -> extracts h (pos * 2 + 1) bits2 hs2 ->
  extracts (S h) pos (true :: bits1 ++ bits2) (hs1 ++ hs2).
Proof.
  intros Hr Hsz Hd H1 H2 t s preB postB preH postH Hn Hbad HB HpB HH HpH.
  destruct (node_children (vsize l) h pos) as (E1 & E2 & Hc); [done.. | ].
  destruct (node_exists (S h) pos ltac:(lia) Hp) as [x Ex]. exists x. split; [done | ]. cbv zeta.
  rewrite matched_children by lia. simpl TraverseAndExtract. rewrite HB. cbn [app].
  rewrite at_pos_app, E1, E2, Hn by done. cbn [negb].
  set (s0 := mk_xstate _ _ _ _ _).
  destruct (H1 t s0 (preB ++ [true]) (bits2 ++ postB) preH (hs2 ++ postH)) as (a & Ea & ->); try done.
  { rewrite HB. list_assoc. }
  { rewrite vsize_app. unfold s0. simpl. unfold vsize at 2. simpl. lia. }
  { rewrite HH. list_assoc. }
  set (s1 := mk_xstate (nBitsUsed s0 + _) _ _ _ _).
  destruct (Z.ltb_spec (pos * 2 + 1) (CalcTreeWidth (vsize l) h)) as [_ | ]; [ | lia].
  destruct (H2 t s1 (preB ++ true :: bits1) postB (preH ++ hs1) postH) as (b & Eb & ->); try done.
  { rewrite HB. list_assoc. }
  { rewrite vsize_app, vsize_cons. unfold s1, s0. simpl. lia. }
  { rewrite HH. list_assoc. }
  { rewrite vsize_app. unfold s1, s0. simpl. lia. }
  replace (Z.to_nat (pos * 2)) with (2 * Z.to_nat pos)%nat in Ea by lia.
  replace (Z.to_nat (pos * 2 + 1)) with (2 * Z.to_nat pos + 1)%nat in Eb by lia.
  assert (base_blob_eq b a = false) as ->.
  { pose proof (equal_pair_lookup _ _ _ _ Hd Ea Eb) as Hab. apply same_blobs in Hab.
    - rewrite base_blob_eq_spec; [by apply bool_decide_eq_false | ].
      by rewrite (Forall_lookup_1 _ _ _ _ Hsz Ea), (Forall_lookup_1 _ _ _ _ Hsz Eb).
    - by apply (Forall_lookup_1 _ _ _ _ Hsz Ea).
    - by apply (Forall_lookup_1 _ _ _ _ Hsz Eb). }
  rewrite levels_S, merkle_level_lookup, Ea in Ex. cbn [mbind option_bind] in Ex.
  rewrite Eb in Ex. injection Ex as <-. f_equal. unfold s1, s0. cbn [nBitsUsed nHashUsed xMatch xIndex].
  rewrite vsize_cons, !vsize_app, !map_app, !app_assoc. f_equal; lia.
Qed.

(** A node whose only child is paired with itself *)
Lemma extracts_one bits1 hs1 : CalcTreeWidth (vsize l) h <= pos * 2 + 1 ->
  extracts h (pos * 2) bits1 hs1 -> extracts (S h) pos (true :: bits1) hs1.
Proof.
  intros Hr H1 t s preB postB preH postH Hn Hbad HB HpB HH HpH.
  destruct (node_children (vsize l) h pos) as (E1 & E2 & Hc); [done.. | ].
  destruct (node_exists (S h) pos ltac:(lia) Hp) as [x Ex]. exists x. split; [done | ]. cbv zeta.
  rewrite matched_children by lia.
  pose proof (beyond_tree h (pos * 2 + 1) ltac:(lia) ltac:(lia) Hr) as Hbey.
  rewrite (matched_beyond (Z.to_nat (pos * 2 + 1) * 2 ^ h)), app_nil_r.
  2: { unfold vsize in Hbey. rewrite <- Nat2Z.inj_pow with (n := 2%nat) in Hbey. lia. }
  simpl TraverseAndExtract. rewrite HB. cbn [app]. rewrite at_pos_app, E1, E2, Hn by done. cbn [negb].
  set (s0 := mk_xstate _ _ _ _ _).
  destruct (H1 t s0 (preB ++ [true]) postB preH postH) as (a & Ea & ->); try done.
  { rewrite HB. list_assoc. }
  { rewrite vsize_app. unfold s0. simpl. unfold vsize at 2. simpl. lia. }
  destruct (Z.ltb_spec (pos * 2 + 1) (CalcTreeWidth (vsize l) h)) as [ | _]; [lia | ].
  replace (Z.to_nat (pos * 2)) with (2 * Z.to_nat pos)%nat in Ea by lia.
  rewrite levels_S, merkle_level_lookup, Ea in Ex. cbn [mbind option_bind] in Ex.
  pose proof (levels_length C l h ltac:(lia) ltac:(lia)) as Hlen. unfold vsize in Hlen at 1.
  rewrite (lookup_ge_None_2 _ (2 * Z.to_nat pos + 1)) in Ex by lia. injection Ex as <-.
  f_equal. unfold s0. cbn [nBitsUsed nHashUsed xMatch xIndex]. rewrite vsize_cons. f_equal; lia.
Qed.
End Children.

(** What is stored for a node: no more hashes than leaves, and a bit for every hash *)
Definition builds (h : nat) (pos : Z) (bits : list bool) (hs : list uint256) : Prop :=
  (forall B H, TraverseAndBuild C (vsize l) h pos l vMatch (B, H) = Some (B ++ bits, H ++ hs)) /\
  vsize hs <= leaves_under h pos /\ vsize hs <= vsize bits /\ extracts h pos bits hs.

Lemma any_match_node h pos : (h <= 31)%nat -> 0 <= pos < CalcTreeWidth (vsize l) h ->
  exists b, any_match (2 ^ h) (u32 (Z.shiftl pos (Z.of_nat h))) (u32 (Z.shiftl (pos + 1) (Z.of_nat h)))
      (vsize l) vMatch = Some b /\
    (b = false -> matched (Z.to_nat pos * 2 ^ h) (2 ^ h) = []) /\
    (h = 0%nat -> b = default false (vMatch !! Z.to_nat pos)).
Proof.
  intros Hh Hp. destruct (in_tree h pos Hh Hp) as (H1 & H2 & _).
  assert (0 < 2 ^ Z.of_nat h) by (apply Z.pow_pos_nonneg; lia).
  assert (0 <= pos * 2 ^ Z.of_nat h) by (apply Z.mul_nonneg_nonneg; lia).
  rewrite !Z.shiftl_mul_pow2 by lia. rewrite !u32_id by lia.
  destruct (any_match_spec (2 ^ h) (pos * 2 ^ Z.of_nat h) ltac:(lia)) as (b & Hb & Hf & Hone).
  rewrite Nat2Z.inj_pow in Hb. change (Z.of_nat 2) with 2 in Hb.
  replace (pos * 2 ^ Z.of_nat h + 2 ^ Z.of_nat h) with ((pos + 1) * 2 ^ Z.of_nat h) in Hb by lia.
  exists b. split_and!; [done | | ].
  - intros E. specialize (Hf E). rewrite Z2Nat.inj_mul, Z2Nat.inj_pow, Nat2Z.id in Hf by lia. done.
  - intros ->. change (Z.of_nat 0) with 0 in *. rewrite Z.pow_0_r, Z.mul_1_r in *. by apply Hone.
Qed.

Section Inner.
Context (h : nat) (pos : Z) (Hh : (S h <= 31)%nat) (Hp : 0 <= pos < CalcTreeWidth (vsize l) (S h)).
Context (Hb : any_match (2 ^ S h) (u32 (Z.shiftl pos (Z.of_nat (S h))))
  (u32 (Z.shiftl (pos + 1) (Z.of_nat (S h)))) (vsize l) vMatch = Some true).

Lemma builds_both bits1 hs1 bits2 hs2 : pos * 2 + 1 < CalcTreeWidth (vsize l) h ->
  Forall hash_sized (levels C h l) -> equal_pair (levels C h l) = false ->
  builds h (pos * 2) bits1 hs1 -> builds h (pos * 2 + 1) bits2 hs2 ->
  builds (S h) pos (true :: bits1 ++ bits2) (hs1 ++ hs2).
Proof.
  intros Hr Hsz Hd (B1 & L1 & V1 & X1) (B2 & L2 & V2 & X2).
  destruct (node_children (vsize l) h pos) as (E1 & E2 & Hc); [done.. | ].
  destruct (in_tree h (pos * 2 + 1) ltac:(lia) ltac:(lia)) as (Hin & _). split_and!.
  - intros B H. cbn [TraverseAndBuild]. rewrite Hb. cbn [mbind option_bind negb].
    rewrite E1, E2, B1. cbn [mbind option_bind].
    destruct (Z.ltb_spec (pos * 2 + 1) (CalcTreeWidth (vsize l) h)); [ | lia].
    rewrite B2. do 2 f_equal; list_assoc.
  - unfold leaves_under in *. rewrite vsize_app, Nat2Z.inj_succ, Z.pow_succ_r by lia. lia.
  - rewrite vsize_cons, !vsize_app. lia.
  - by apply extracts_both.
Qed.

Lemma builds_one bits1 hs1 : CalcTreeWidth (vsize l) h <= pos * 2 + 1 ->
  builds h (pos * 2) bits1 hs1 -> builds (S h) pos (true :: bits1) hs1.
Proof.
  intros Hr (B1 & L1 & V1 & X1).
  destruct (node_children (vsize l) h pos) as (E1 & E2 & Hc); [done.. | ]. split_and!.
  - intros B H. cbn [TraverseAndBuild]. rewrite Hb. cbn [mbind option_bind negb].
    rewrite E1, E2, B1. cbn [mbind option_bind].
    destruct (Z.ltb_spec (pos * 2 + 1) (CalcTreeWidth (vsize l) h)); [lia | ].
    do 2 f_equal; list_assoc.
  - assert (0 < 2 ^ Z.of_nat h) by (apply Z.pow_pos_nonneg; lia).
    unfold leaves_under in *. rewrite Nat2Z.inj_succ, Z.pow_succ_r by lia. lia.
  - rewrite vsize_cons. lia.
  - by apply extracts_one.
Qed.
End Inner.

Lemma build_spec k h pos : Forall hash_sized l -> (forall b, length (Hash256 C b) = 32%nat) ->
  duplicates C k l = false -> (k <= 31)%nat -> (h <= k)%nat ->
  0 <= pos < CalcTreeWidth (vsize l) h -> exists bits hs, builds h pos bits hs.
Proof.
  intros Hsz HC Hd Hk. revert pos. induction h as [ | h IH]; intros pos Hh Hp.
  all: match type of Hp with _ <= _ < CalcTreeWidth _ ?n => assert (Hn : (n <= 31)%nat) by lia end.
  all: destruct (in_tree _ pos Hn Hp) as (_ & _ & Hlv).
  all: destruct (any_match_node _ pos Hn Hp) as (b & Hb & Hf & H0).
  all: destruct (node_exists _ pos Hn Hp) as [x Ex].
  all: pose proof (CalcHash_node C l _ pos Hsize Hn Hp) as Ec; rewrite Ex in Ec.
  - exists [b], [x]. split_and!; [ | done | done | ].
    + intros B H. cbn [TraverseAndBuild]. rewrite Hb. cbn [mbind option_bind].
      by rewrite Ec.
    + apply extracts_stored; [done | | done]. rewrite H0 in * by done. simpl. rewrite Nat.mul_1_r.
      unfold matched, match_at. simpl. change (levels C 0 l) with l in Ex. rewrite Ex.
      destruct (vMatch !! Z.to_nat pos) as [[] | ]; simpl; [ | done..]. rewrite Z2Nat.id by lia. done.
  - destruct b.
    2: { exists [false], [x]. split_and!; [ | done | done | ].
      - intros B H. cbn [TraverseAndBuild]. rewrite Hb. cbn [mbind option_bind negb]. by rewrite Ec.
      - apply extracts_stored; [done | by apply Hf | done]. }
    destruct (node_children (vsize l) h pos) as (E1 & E2 & Hc); [lia | lia | done | ].
    destruct (IH (pos * 2) ltac:(lia) ltac:(lia)) as (bits1 & hs1 & B1).
    destruct (Z.ltb_spec (pos * 2 + 1) (CalcTreeWidth (vsize l) h)) as [Hr | Hr].
    + destruct (IH (pos * 2 + 1) ltac:(lia) ltac:(lia)) as (bits2 & hs2 & B2).
      eexists _, _. apply builds_both; [done.. | | by apply (duplicates_level k) | exact B1 | exact B2].
      destruct h; [done | by apply merkle_level_sized].
    + eexists _, _. by apply builds_one.
Qed.
End Complete.

(** The transactions selected by a mask, with their indices *)
Definition selected (l : list uint256) (vMatch : list bool) : list (Z * uint256) :=
  matched l vMatch 0 (length l).

Lemma matched_enough l vMatch len : (length l <= len)%nat -> matched l vMatch 0 len = selected l vMatch.
Proof.
  intros H. unfold selected. replace len with (length l + (len - length l))%nat by lia.
  rewrite matched_app, (matched_beyond l vMatch (0 + length l)%nat) by lia. by rewrite app_nil_r.
Qed.

Lemma leaves_fit {A} (l : list A) : 0 < vsize l <= 2 ^ 31 -> (length l <= 2 ^ TreeHeight (vsize l))%nat.
Proof.
  intros Hl. destruct (TreeHeight_spec (vsize l) Hl) as (Hk & Hw & _).
  rewrite width_eq in Hw by lia. set (q := 2 ^ Z.of_nat (TreeHeight (vsize l))) in *.
  assert (0 < q) by (apply Z.pow_pos_nonneg; lia).
  pose proof (Z.div_mod (vsize l + q - 1) q). pose proof (Z.mod_pos_bound (vsize l + q - 1) q).
  assert (vsize l <= q) as Hq by lia. apply Nat2Z.inj_le. rewrite Nat2Z.inj_pow. exact Hq.
Qed.

(** Partial trees carry what they were made for.  For a block of transactions whose Merkle
    root is not flagged and that is within the size limit, the partial tree for any mask is
    built, and [ExtractMatches] returns from it the Merkle root of the block and exactly the
    selected hashes and indices, in order. *)
Theorem partial_tree_complete C dgpMaxBlockSize l vMatch :
  (forall m, length (Hash256 C m) = 32%nat) ->
  Forall hash_sized l -> l <> [] -> length vMatch = length l ->
  vsize l <= u32 (dgpMaxBlockSize * WITNESS_SCALE_FACTOR) / MIN_TRANSACTION_WEIGHT ->
  snd (ComputeMerkleRoot C l) = false ->
  exists t, CPartialMerkleTree_new C l vMatch = Some t /\
    ExtractMatches C dgpMaxBlockSize t [] =
      (fst (ComputeMerkleRoot C l), map snd (selected l vMatch), map fst (selected l vMatch)).
Proof.
  intros HC Hsz Hne Hm Hmax Hd. pose proof (max_transactions_small dgpMaxBlockSize).
  pose proof (vsize_pos l Hne). set (n := vsize l) in *.
  destruct (TreeHeight_spec n ltac:(lia)) as (Hk & Hw & _).
  destruct (ComputeMerkleRoot_spec C l Hne ltac:(lia)) as [Hroot Hdup]. fold n in Hroot, Hdup.
  rewrite Hd in Hdup. symmetry in Hdup. set (k := TreeHeight n) in *.
  destruct (build_spec C l vMatch Hm ltac:(fold n; lia) k k 0) as (bits & hs & HB & HL & HV & HX);
    [done | done | done | done | done | fold n; lia | ].
  fold n in HB. unfold CPartialMerkleTree_new. fold n. rewrite u32_id by lia. fold k. rewrite HB.
  eexists. split; [reflexivity | ]. unfold ExtractMatches. cbn [nTransactions vBits vHash fBad app].
  assert (vsize hs <= n) by (unfold leaves_under in HL; lia).
  repeat match goal with |- context [if ?a =? ?b then (uint256_SetNull, [], []) else _] =>
    destruct (Z.eqb_spec a b); [lia | ]
  | |- context [if ?a <? ?b then (uint256_SetNull, [], []) else _] => destruct (Z.ltb_spec a b); [lia | ] end.
  fold k. destruct (HX (mk_pmt n bits hs false) (mk_xstate 0 0 [] [] false) [] [] [] [])
    as (node & En & ->); try done.
  1, 2: by rewrite app_nil_r.
  rewrite Hroot in En. injection En as <-. cbn [xBad nBitsUsed nHashUsed xMatch xIndex].
  rewrite !Z.add_0_l, !Z.eqb_refl. cbn [negb app]. change (Z.to_nat 0 * 2 ^ k)%nat with 0%nat.
  rewrite matched_enough; [reflexivity | ]. apply (leaves_fit l). fold n. lia.
Qed.

(** Three transactions, the last two selected *)
Definition sample_leaves : list uint256 := [repeat 1 32; repeat 2 32; repeat 3 32].
Definition sample_mask : list bool := [false; true; true].

Lemma sample_leaves_sized : Forall hash_sized sample_leaves.
Proof. repeat constructor. Qed.

Lemma partial_tree_complete_witness :
  exists t, CPartialMerkleTree_new toy_crypto sample_leaves sample_mask = Some t /\
    ExtractMatches toy_crypto 2000000 t [] =
      (fst (ComputeMerkleRoot toy_crypto sample_leaves), map snd (selected sample_leaves sample_mask),
       map fst (selected sample_leaves sample_mask)).
Proof.
  apply (partial_tree_complete toy_crypto 2000000 sample_leaves sample_mask).
  - apply toy_hash_sized.
  - apply sample_leaves_sized.
  - discriminate.
  - reflexivity.
  - vm_compute. discriminate.
  - vm_compute. reflexivity.
Defined.

(** Its partial tree: bits, and the hashes stored *)
Definition sample_pmt : CPartialMerkleTree :=
  mk_pmt 3 [true; true; false; true; true; true] sample_leaves false.

Lemma partial_tree_sound_witness :
  collision (Hash256 toy_crypto) (proof_strings toy_crypto sample_pmt sample_leaves) \/
  (3 = vsize sample_leaves -> Forall2 (fun i txid => 0 <= i /\ sample_leaves !! Z.to_nat i = Some txid) [1; 2] [repeat 2 32; repeat 3 32]) /\
  (Forall (tree_node toy_crypto sample_leaves) [repeat 2 32; repeat 3 32] \/
   leaf_is_node toy_crypto (proof_strings toy_crypto sample_pmt sample_leaves) sample_leaves).
Proof.
  apply (partial_tree_sound toy_crypto 2000000 sample_pmt sample_leaves
    (fst (ComputeMerkleRoot toy_crypto sample_leaves))).
  - apply toy_hash_sized.
  - apply sample_leaves_sized.
  - discriminate.
  - vm_compute. discriminate.
  - apply sample_leaves_sized.
  - vm_compute. reflexivity.
  - vm_compute. discriminate.
  - reflexivity.
Defined.
