(* ===== verification/Chain.v ===== *)
(** * The block index and chains ([src/chain.h], [src/chain.cpp], [AddToBlockIndex] of
      [src/validation.cpp])

    The tree of block index entries with its skip pointers, the operation that adds a header to
    it, the walks over it ([GetAncestor], [LastCommonAncestor], [GetMedianTimePast]), the proof a
    block contributes, and the active chain as an indexed vector ([CChain]).

    An entry is allocated once for the key it has in [mapBlockIndex] and is never moved, so a
    [CBlockIndex*] is represented by that key: [None] is [nullptr].

    Theorems: adding a header keeps the tree well-formed; ancestors found through skip pointers are
    those found by walking back; the vector is the path of its tip and the fork point is the
    highest common block; the block proof is the exact quotient. *)

From S2P Require Import Prelude Serialize ArithUint256 Script Interpreter Transaction Block.
From stdpp Require Import gmap sorting.
Open Scope Z_scope.

(** ** Definitions *)

(** *** Block index entries *)

Definition BLOCK_VALID_UNKNOWN : Z := 0.
Definition BLOCK_VALID_HEADER : Z := 1.
Definition BLOCK_VALID_TREE : Z := 2.
Definition BLOCK_VALID_TRANSACTIONS : Z := 3.
Definition BLOCK_VALID_CHAIN : Z := 4.
Definition BLOCK_VALID_SCRIPTS : Z := 5.
Definition BLOCK_VALID_MASK : Z :=
  Z.lor (Z.lor (Z.lor (Z.lor BLOCK_VALID_HEADER BLOCK_VALID_TREE) BLOCK_VALID_TRANSACTIONS)
    BLOCK_VALID_CHAIN) BLOCK_VALID_SCRIPTS.
Definition BLOCK_HAVE_DATA : Z := 8.
Definition BLOCK_HAVE_UNDO : Z := 16.
Definition BLOCK_HAVE_MASK : Z := Z.lor BLOCK_HAVE_DATA BLOCK_HAVE_UNDO.
Definition BLOCK_FAILED_VALID : Z := 32.
Definition BLOCK_FAILED_CHILD : Z := 64.
Definition BLOCK_FAILED_MASK : Z := Z.lor BLOCK_FAILED_VALID BLOCK_FAILED_CHILD.
Definition BLOCK_OPT_WITNESS : Z := 128.

(** A pointer to an entry: its key *)
Abbreviation ptr := (list Z) (only parsing).

Record CBlockIndex : Type := mk_CBlockIndex {
  phashBlock : option ptr;
  pprev : option ptr;
  pnext : option ptr;
  pskip : option ptr;
  nHeight : Z;
  nFile : Z;
  nDataPos : Z;
  nUndoPos : Z;
  nChainWork : base_uint;
  nTx : Z;
  nChainTx : Z;
  nStatus : Z;
  bi_nVersion : Z;
  bi_hashMerkleRoot : uint256;
  bi_nTime : Z;
  bi_nBits : Z;
  bi_nNonce : Z;
  bi_hashStateRoot : uint256;
  bi_hashUTXORoot : uint256;
  bi_vchBlockSig : bytes;
  nStakeModifier : uint256;
  bi_prevoutStake : COutPoint;
  hashProof : uint256;
  nMoneySupply : Z;
  nSequenceId : Z;
  nTimeMax : Z }.

Definition CBlockIndex_SetNull : CBlockIndex :=
  mk_CBlockIndex None None None None 0 0 0 0 zero 0 0 0 0 uint256_SetNull 0 0 0
    uint256_SetNull uint256_SetNull [] uint256_SetNull COutPoint_SetNull uint256_SetNull 0 0 0.

(** [CBlockIndex(const CBlockHeader&)] *)
Definition CBlockIndex_of_header (block : CBlockHeader) : CBlockIndex :=
  mk_CBlockIndex None None None None 0 0 0 0 zero 0 0 0 (hdr_nVersion block) (hashMerkleRoot block)
    (nTime block) (nBits block) (nNonce block) (hashStateRoot block) (hashUTXORoot block)
    (vchBlockSig block) uint256_SetNull (prevoutStake block) uint256_SetNull 0 0 0.

(** The assignments made to entries, as functions of the entry *)
Definition set_phashBlock (b : CBlockIndex) (v : option ptr) : CBlockIndex :=
  let 'mk_CBlockIndex _ a2 a3 a4 a5 a6 a7 a8 a9 a10 a11 a12 a13 a14 a15 a16 a17 a18 a19 a20 a21 a22 a23 a24 a25 a26 := b in
  mk_CBlockIndex v a2 a3 a4 a5 a6 a7 a8 a9 a10 a11 a12 a13 a14 a15 a16 a17 a18 a19 a20 a21 a22 a23 a24 a25 a26.
Definition set_pprev_nHeight (b : CBlockIndex) (p : option ptr) (h : Z) : CBlockIndex :=
  let 'mk_CBlockIndex a1 _ a3 a4 _ a6 a7 a8 a9 a10 a11 a12 a13 a14 a15 a16 a17 a18 a19 a20 a21 a22 a23 a24 a25 a26 := b in
  mk_CBlockIndex a1 p a3 a4 h a6 a7 a8 a9 a10 a11 a12 a13 a14 a15 a16 a17 a18 a19 a20 a21 a22 a23 a24 a25 a26.
Definition set_pskip (b : CBlockIndex) (v : option ptr) : CBlockIndex :=
  let 'mk_CBlockIndex a1 a2 a3 _ a5 a6 a7 a8 a9 a10 a11 a12 a13 a14 a15 a16 a17 a18 a19 a20 a21 a22 a23 a24 a25 a26 := b in
  mk_CBlockIndex a1 a2 a3 v a5 a6 a7 a8 a9 a10 a11 a12 a13 a14 a15 a16 a17 a18 a19 a20 a21 a22 a23 a24 a25 a26.
Definition set_nStatus (b : CBlockIndex) (v : Z) : CBlockIndex :=
  let 'mk_CBlockIndex a1 a2 a3 a4 a5 a6 a7 a8 a9 a10 a11 _ a13 a14 a15 a16 a17 a18 a19 a20 a21 a22 a23 a24 a25 a26 := b in
  mk_CBlockIndex a1 a2 a3 a4 a5 a6 a7 a8 a9 a10 a11 v a13 a14 a15 a16 a17 a18 a19 a20 a21 a22 a23 a24 a25 a26.
Definition set_derived (b : CBlockIndex) (work : base_uint) (modifier : uint256) (timeMax : Z) : CBlockIndex :=
  let 'mk_CBlockIndex a1 a2 a3 a4 a5 a6 a7 a8 _ a10 a11 a12 a13 a14 a15 a16 a17 a18 a19 a20 _ a22 a23 a24 a25 _ := b in
  mk_CBlockIndex a1 a2 a3 a4 a5 a6 a7 a8 work a10 a11 a12 a13 a14 a15 a16 a17 a18 a19 a20 modifier a22 a23 a24 a25 timeMax.

Definition GetBlockTime (b : CBlockIndex) : Z := i64 (bi_nTime b).
Definition GetBlockTimeMax (b : CBlockIndex) : Z := i64 (nTimeMax b).
Definition IsProofOfStake (b : CBlockIndex) : bool := negb (COutPoint_IsNull (bi_prevoutStake b)).
Definition IsProofOfWork (b : CBlockIndex) : bool := negb (IsProofOfStake b).

Definition CDiskBlockPos : Type := (Z * Z)%type.
Definition CDiskBlockPos_SetNull : CDiskBlockPos := (-1, 0).
Definition GetBlockPos (b : CBlockIndex) : CDiskBlockPos :=
  if negb (Z.land (nStatus b) BLOCK_HAVE_DATA =? 0) then (nFile b, nDataPos b) else CDiskBlockPos_SetNull.
Definition GetUndoPos (b : CBlockIndex) : CDiskBlockPos :=
  if negb (Z.land (nStatus b) BLOCK_HAVE_UNDO =? 0) then (nFile b, nUndoPos b) else CDiskBlockPos_SetNull.

(** [IsValid]: [None] is the assertion that only validity flags are given. *)
Definition IsValid (b : CBlockIndex) (nUpTo : Z) : option bool :=
  if negb (Z.land nUpTo (u32 (Z.lnot BLOCK_VALID_MASK)) =? 0) then None
  else if negb (Z.land (nStatus b) BLOCK_FAILED_MASK =? 0) then Some false
  else Some (nUpTo <=? Z.land (nStatus b) BLOCK_VALID_MASK).

(** [RaiseValidity]: the entry and whether its validity was changed *)
Definition RaiseValidity (b : CBlockIndex) (nUpTo : Z) : option (CBlockIndex * bool) :=
  if negb (Z.land nUpTo (u32 (Z.lnot BLOCK_VALID_MASK)) =? 0) then None
  else if negb (Z.land (nStatus b) BLOCK_FAILED_MASK =? 0) then Some (b, false)
  else if Z.land (nStatus b) BLOCK_VALID_MASK <? nUpTo
  then Some (set_nStatus b (Z.lor (Z.land (nStatus b) (u32 (Z.lnot BLOCK_VALID_MASK))) nUpTo), true)
  else Some (b, false).

(** *** The tree *)

Abbreviation BlockMap := (gmap (list Z) CBlockIndex).

Definition InvertLowestOne (n : Z) : Z := Z.land n (n - 1).

Definition GetSkipHeight (height : Z) : Z :=
  if height <? 2 then 0
  else if negb (Z.land height 1 =? 0) then InvertLowestOne (InvertLowestOne (height - 1)) + 1
  else InvertLowestOne height.

Section Walks.
Context (m : BlockMap).

(** The loop of [GetAncestor].  [None]: an assertion fails, or a pointer dangles.  The height goes
    down at every turn. *)
Fixpoint GetAncestor_loop (fuel : nat) (pindexWalk : ptr) (heightWalk height : Z) : option ptr :=
  if height <? heightWalk then
    match fuel with
    | O => None
    | S fuel =>
        w ← m !! pindexWalk;
        let heightSkip := GetSkipHeight heightWalk in
        let heightSkipPrev := GetSkipHeight (heightWalk - 1) in
        match pskip w with
        | Some skip =>
            if (heightSkip =? height) ||
               ((height <? heightSkip) && negb ((heightSkipPrev <? heightSkip - 2) && (height <=? heightSkipPrev)))
            then GetAncestor_loop fuel skip heightSkip height
            else prev ← pprev w; GetAncestor_loop fuel prev (heightWalk - 1) height
        | None => prev ← pprev w; GetAncestor_loop fuel prev (heightWalk - 1) height
        end
    end
  else Some pindexWalk.

(** [Some None] is the [nullptr] returned out of range. *)
Definition GetAncestor (this : ptr) (height : Z) : option (option ptr) :=
  b ← m !! this;
  if (nHeight b <? height) || (height <? 0) then Some None
  else
    r ← GetAncestor_loop (Z.to_nat (nHeight b)) this (nHeight b) height;
    Some (Some r).

(** [BuildSkip], on the entry being linked: the new [pskip] *)
Definition BuildSkip (b : CBlockIndex) : option CBlockIndex :=
  match pprev b with
  | Some prev =>
      skip ← GetAncestor prev (GetSkipHeight (nHeight b));
      Some (set_pskip b skip)
  | None => Some b
  end.

(** The times of the block and the ten before it, as the array holds them *)
Fixpoint past_times (n : nat) (pindex : option ptr) (acc : list Z) : option (list Z) :=
  match n, pindex with
  | S n, Some p => b ← m !! p; past_times n (pprev b) (GetBlockTime b :: acc)
  | _, _ => Some acc
  end.
Definition nMedianTimeSpan : nat := 11.
(** [std::sort], then the middle element *)
Definition GetMedianTimePast (this : ptr) : option Z :=
  ts ← past_times nMedianTimeSpan (Some this) [];
  merge_sort Z.le ts !! (length ts / 2)%nat.

(** [while (pa != pb && pa && pb)]: one turn of fuel per block of the shorter branch *)
Fixpoint meet_loop (fuel : nat) (pa pb : option ptr) : option (option ptr * option ptr) :=
  match fuel with
  | O => Some (pa, pb)
  | S fuel =>
      if bool_decide (pa = pb) then Some (pa, pb)
      else match pa, pb with
      | Some a, Some b =>
          ba ← m !! a; bb ← m !! b; meet_loop fuel (pprev ba) (pprev bb)
      | _, _ => Some (pa, pb)
      end
  end.

(** [None] when an assertion fails (the last one: the branches have no common block) or a null
    pointer is followed. *)
Definition LastCommonAncestor (pa pb : ptr) : option (option ptr) :=
  a ← m !! pa; b ← m !! pb;
  '(pa, pb) ←
    (if nHeight b <? nHeight a then pa ← GetAncestor pa (nHeight b); Some (pa, Some pb)
     else if nHeight a <? nHeight b then pb ← GetAncestor pb (nHeight a); Some (Some pa, pb)
     else Some (Some pa, Some pb));
  '(pa, pb) ← meet_loop (S (Z.to_nat (Z.min (nHeight a) (nHeight b)))) pa pb;
  if bool_decide (pa = pb) then Some pa else None.
End Walks.

(** [GetBlockProof]; [Err] is the exception a division by zero throws. *)
Definition GetBlockProof (block : CBlockIndex) : result uint_error base_uint :=
  let '(bnTarget, fNegative, fOverflow) := SetCompact (bi_nBits block) in
  if fNegative || fOverflow || EqualTo bnTarget 0 then Ok (of_u64 0)
  else q ← udiv (bitnot bnTarget) (add bnTarget (of_u64 1)); Ok (add q (of_u64 1)).

(** [ComputeStakeModifier] of [pos.cpp] *)
Definition ComputeStakeModifier (C : Crypto) (pindexPrev : option CBlockIndex) (kernel : uint256) : uint256 :=
  match pindexPrev with
  | None => uint256_SetNull
  | Some prev => Hash256 C (uint256_Serialize kernel ++ uint256_Serialize (nStakeModifier prev))
  end.

#[export] Instance COutPoint_countable : Countable COutPoint.
Proof.
  refine (inj_countable' (fun o => (outpoint_hash o, outpoint_n o)) (fun p => mk_COutPoint (fst p) (snd p)) _).
  by intros [].
Defined.

(** The part of the chain state and of the globals [AddToBlockIndex] works on *)
Record ChainState : Type := mk_ChainState {
  mapBlockIndex : BlockMap;
  setStakeSeen : gset (COutPoint * Z);
  pindexBestHeader : option ptr;
  setDirtyBlockIndex : gset (list Z) }.

(** The new entry, linked to its predecessor: everything [AddToBlockIndex] assigns to it *)
Definition link_entry (C : Crypto) (m : BlockMap) (hash : uint256) (block : CBlockHeader)
  : option CBlockIndex :=
  let b := set_phashBlock (CBlockIndex_of_header block) (Some hash) in
  let prev := m !! hashPrevBlock block in
  b ← match prev with
      | Some p => BuildSkip m (set_pprev_nHeight b (Some (hashPrevBlock block)) (i32 (nHeight p + 1)))
      | None => Some b
      end;
  let timeMax := match prev with Some p => Z.max (nTimeMax p) (bi_nTime b) | None => bi_nTime b end in
  proof ← match GetBlockProof b with Ok w => Some w | Err _ => None end;
  let work := add (match prev with Some p => nChainWork p | None => of_u64 0 end) proof in
  let modifier := ComputeStakeModifier C prev
    (if header_IsProofOfWork block then hash else outpoint_hash (prevoutStake block)) in
  '(b, _) ← RaiseValidity (set_derived b work modifier timeMax) BLOCK_VALID_TREE;
  Some b.

(** The entry is inserted before its predecessor is looked up.  (A header that names itself as its
    predecessor would need a hash that is part of its own preimage; the theorems exclude it.) *)
Definition AddToBlockIndex (C : Crypto) (st : ChainState) (block : CBlockHeader)
  : option (ChainState * ptr) :=
  let hash := Block_GetHash C block in
  match mapBlockIndex st !! hash with
  | Some _ => Some (st, hash)
  | None =>
      let fresh := set_phashBlock (CBlockIndex_of_header block) (Some hash) in
      let m := <[hash := fresh]> (mapBlockIndex st) in
      let seen := if IsProofOfStake fresh
                  then {[(bi_prevoutStake fresh, bi_nTime fresh)]} ∪ setStakeSeen st
                  else setStakeSeen st in
      b ← link_entry C m hash block;
      let better := match pindexBestHeader st with
                    | None => Some true
                    | Some best => e ← m !! best; Some (ltb (nChainWork e) (nChainWork b))
                    end in
      better ← better;
      Some (mk_ChainState (<[hash := b]> m) seen
              (if better : bool then Some hash else pindexBestHeader st)
              ({[hash]} ∪ setDirtyBlockIndex st), hash)
  end.

(** *** The active chain *)

Section CChain.
Context (m : BlockMap).

(** [vChain]: a vector of pointers *)
Abbreviation CChain := (list (option (list Z))).

Definition Genesis (vChain : CChain) : option ptr := match vChain with p :: _ => p | [] => None end.
Definition Tip (vChain : CChain) : option ptr := match rev vChain with p :: _ => p | [] => None end.
(** [operator[]] *)
Definition chain_at (vChain : CChain) (nHeight : Z) : option ptr :=
  if (nHeight <? 0) || (vsize vChain <=? nHeight) then None
  else match vChain !! Z.to_nat nHeight with Some p => p | None => None end.
Definition Contains (vChain : CChain) (pindex : ptr) : option bool :=
  b ← m !! pindex; Some (bool_decide (chain_at vChain (nHeight b) = Some pindex)).
Definition Next (vChain : CChain) (pindex : ptr) : option (option ptr) :=
  c ← Contains vChain pindex;
  if (c : bool) then b ← m !! pindex; Some (chain_at vChain (nHeight b + 1)) else Some None.
Definition Height (vChain : CChain) : Z := vsize vChain - 1.

(** [vChain.resize(n)] *)
Definition resize (n : Z) (vChain : CChain) : CChain :=
  take (Z.to_nat n) vChain ++ replicate (Z.to_nat n - length vChain) None.

(** [while (pindex && vChain[pindex->nHeight] != pindex)]; [None]: an access out of range *)
Fixpoint SetTip_loop (fuel : nat) (vChain : CChain) (pindex : option ptr) : option CChain :=
  match pindex with
  | None => Some vChain
  | Some p =>
      b ← m !! p;
      e ← vChain !! Z.to_nat (nHeight b);
      if bool_decide (e = Some p) then Some vChain
      else match fuel with
      | O => None
      | S fuel => SetTip_loop fuel (<[Z.to_nat (nHeight b) := Some p]> vChain) (pprev b)
      end
  end.

Definition SetTip (vChain : CChain) (pindex : option ptr) : option CChain :=
  match pindex with
  | None => Some []
  | Some p =>
      b ← m !! p;
      SetTip_loop (S (Z.to_nat (nHeight b))) (resize (nHeight b + 1) vChain) (Some p)
  end.

(** [while (pindex && !Contains(pindex)) pindex = pindex->pprev] *)
Fixpoint FindFork_loop (fuel : nat) (vChain : CChain) (pindex : option ptr) : option (option ptr) :=
  match pindex with
  | None => Some None
  | Some p =>
      c ← Contains vChain p;
      if (c : bool) then Some (Some p)
      else match fuel with
      | O => None
      | S fuel => b ← m !! p; FindFork_loop fuel vChain (pprev b)
      end
  end.

Definition FindFork (vChain : CChain) (pindex : option ptr) : option (option ptr) :=
  match pindex with
  | None => Some None
  | Some p =>
      b ← m !! p;
      start ← (if Height vChain <? nHeight b then GetAncestor m p (Height vChain) else Some (Some p));
      FindFork_loop (S (Z.to_nat (nHeight b))) vChain start
  end.

(** The loop of [GetLocator]; [nStep] and the size of [vHave] are threaded. *)
Fixpoint GetLocator_loop (fuel : nat) (vChain : CChain) (pindex : option ptr) (nStep : Z)
  (vHave : list uint256) : option (list uint256) :=
  match pindex with
  | None => Some vHave
  | Some p =>
      b ← m !! p;
      h ← phashBlock b;
      let vHave := vHave ++ [h] in
      if nHeight b =? 0 then Some vHave
      else match fuel with
      | O => None
      | S fuel =>
          let height := Z.max (nHeight b - nStep) 0 in
          c ← Contains vChain p;
          next ← (if (c : bool) then Some (chain_at vChain height) else GetAncestor m p height);
          GetLocator_loop fuel vChain next (if 10 <? vsize vHave then i32 (nStep * 2) else nStep) vHave
      end
  end.

Definition GetLocator (vChain : CChain) (pindex : option ptr) : option (list uint256) :=
  let pindex := match pindex with None => Tip vChain | Some p => Some p end in
  match pindex with
  | None => Some []
  | Some p => b ← m !! p; GetLocator_loop (S (Z.to_nat (nHeight b))) vChain pindex 1 []
  end.
End CChain.

(** ** Theorems *)

(** *** Skip heights *)

Lemma InvertLowestOne_lt n : 0 < n -> 0 <= InvertLowestOne n < n.
Proof.
  intros Hn. unfold InvertLowestOne. split; [apply Z.land_nonneg; lia | ].
  rewrite Z.land_comm. assert (Z.land (n - 1) n <= n - 1) by (apply land_le; lia). lia.
Qed.

Lemma InvertLowestOne_le n : 0 <= n -> 0 <= InvertLowestOne n <= n.
Proof.
  intros Hn. destruct (decide (n = 0)) as [-> | ]; [done | ]. pose proof (InvertLowestOne_lt n). lia.
Qed.

Lemma GetSkipHeight_lt h : 0 < h -> 0 <= GetSkipHeight h < h.
Proof.
  intros Hh. unfold GetSkipHeight. destruct (Z.ltb_spec h 2); [lia | ]. destruct (negb _).
  - pose proof (InvertLowestOne_lt (h - 1) ltac:(lia)).
    pose proof (InvertLowestOne_le (InvertLowestOne (h - 1)) ltac:(lia)). lia.
  - apply InvertLowestOne_lt. lia.
Qed.

(** *** Walking back *)

(** The entry [n] steps before [p] *)
Fixpoint up (m : BlockMap) (n : nat) (p : ptr) : option ptr :=
  match n with
  | O => Some p
  | S n => b ← m !! p; q ← pprev b; up m n q
  end.

(** The ancestor of [p] at a height, by walking back *)
Definition ancestor (m : BlockMap) (p : ptr) (height : Z) : option ptr :=
  b ← m !! p; if (0 <=? height) && (height <=? nHeight b)
              then up m (Z.to_nat (nHeight b - height)) p else None.

(** An entry in its place: one above its predecessor, with the skip pointer [GetSkipHeight] asks for,
    the latest time and the accumulated work of its chain *)
Definition entry_ok (m : BlockMap) (p : ptr) (b : CBlockIndex) : Prop :=
  phashBlock b = Some p /\ 0 <= nHeight b < 2 ^ 31 /\ wf256 (nChainWork b) /\
  match pprev b with
  | None => nHeight b = 0 /\ pskip b = None /\ nTimeMax b = bi_nTime b /\
      exists w, GetBlockProof b = Ok w /\ val (nChainWork b) = val w
  | Some q => exists b', m !! q = Some b' /\ nHeight b = nHeight b' + 1 /\
      pskip b = ancestor m q (GetSkipHeight (nHeight b)) /\
      nTimeMax b = Z.max (nTimeMax b') (bi_nTime b) /\
      exists w, GetBlockProof b = Ok w /\
        val (nChainWork b) = (val (nChainWork b') + val w) mod 2 ^ 256
  end.

Definition index_ok (m : BlockMap) : Prop := map_Forall (entry_ok m) m.

Lemma up_add m n k p : up m (n + k) p = q ← up m n p; up m k q.
Proof.
  revert p. induction n as [ | n IH]; intros p; [done | ]. simpl.
  destruct (m !! p) as [b | ]; [simpl | done]. destruct (pprev b); [apply IH | done].
Qed.

Section Tree.
Context (m : BlockMap) (Hm : index_ok m).

Lemma prev_entry p b q : m !! p = Some b -> pprev b = Some q ->
  exists b', m !! q = Some b' /\ nHeight b = nHeight b' + 1.
Proof.
  intros Hp Hq. destruct (Hm _ _ Hp) as (_ & _ & _ & H). rewrite Hq in H.
  destruct H as (b' & ? & ? & _). eauto.
Qed.

Lemma height_range p b : m !! p = Some b -> 0 <= nHeight b < 2 ^ 31.
Proof. intros Hp. by destruct (Hm _ _ Hp) as (_ & ? & _). Qed.

Lemma has_prev p b : m !! p = Some b -> 0 < nHeight b -> exists q, pprev b = Some q.
Proof.
  intros Hp H. destruct (Hm _ _ Hp) as (_ & _ & _ & H'). destruct (pprev b); [eauto | lia].
Qed.

Lemma up_height n p b q : m !! p = Some b -> up m n p = Some q ->
  exists b', m !! q = Some b' /\ nHeight b' = nHeight b - Z.of_nat n.
Proof.
  revert p b. induction n as [ | n IH]; intros p b Hp Hq; simpl in Hq.
  - injection Hq as <-. exists b. split; [done | lia].
  - rewrite Hp in Hq. simpl in Hq. destruct (pprev b) as [r | ] eqn:Er; [simpl in Hq | done].
    destruct (prev_entry p b r Hp Er) as (b' & Hb' & Hh). destruct (IH r b' Hb' Hq) as (c & Hc & E).
    exists c. split; [done | lia].
Qed.

Lemma up_total n p b : m !! p = Some b -> Z.of_nat n <= nHeight b -> exists q, up m n p = Some q.
Proof.
  revert p b. induction n as [ | n IH]; intros p b Hp Hn; simpl; [eauto | ]. rewrite Hp. simpl.
  destruct (has_prev p b Hp ltac:(lia)) as [r Er]. rewrite Er. simpl.
  destruct (prev_entry p b r Hp Er) as (b' & Hb' & Hh). apply (IH r b'); [done | lia].
Qed.

Lemma up_pprev n p b q : m !! p = Some b -> pprev b = Some q -> up m (S n) p = up m n q.
Proof. intros Hp Hq. simpl. rewrite Hp. simpl. by rewrite Hq. Qed.

(** A skip pointer is the ancestor at its height. *)
Lemma skip_up p b s : m !! p = Some b -> pskip b = Some s ->
  0 < nHeight b /\ up m (Z.to_nat (nHeight b - GetSkipHeight (nHeight b))) p = Some s.
Proof.
  intros Hp Hs. destruct (Hm _ _ Hp) as (_ & Hr & _ & H).
  destruct (pprev b) as [q | ] eqn:Eq; [ | destruct H as (_ & E & _); congruence].
  destruct H as (b' & Hb' & Hh & Hsk & _). pose proof (height_range _ _ Hb').
  split; [lia | ]. rewrite Hs in Hsk. unfold ancestor in Hsk. rewrite Hb' in Hsk. simpl in Hsk.
  destruct (_ && _) eqn:E; [ | done]. zbool.
  pose proof (GetSkipHeight_lt (nHeight b) ltac:(lia)).
  replace (Z.to_nat (nHeight b - GetSkipHeight (nHeight b)))
    with (S (Z.to_nat (nHeight b' - GetSkipHeight (nHeight b)))) by lia.
  by rewrite (up_pprev _ p b q).
Qed.

Lemma GetAncestor_loop_spec fuel w b height : m !! w = Some b -> 0 <= height <= nHeight b ->
  nHeight b - height <= Z.of_nat fuel ->
  GetAncestor_loop m fuel w (nHeight b) height = up m (Z.to_nat (nHeight b - height)) w.
Proof.
  revert w b. induction fuel as [ | fuel IH]; intros w b Hw Hh Hf; simpl.
  all: destruct (Z.ltb_spec height (nHeight b)); try lia.
  1, 3: by replace (Z.to_nat (nHeight b - height)) with 0%nat by lia.
  rewrite Hw. cbn [mbind option_bind]. set (k := nHeight b) in *.
  assert (Hprev : (prev ← pprev b; GetAncestor_loop m fuel prev (k - 1) height) =
                  up m (Z.to_nat (k - height)) w).
  { destruct (has_prev w b Hw ltac:(lia)) as [q Eq]. rewrite Eq. simpl.
    destruct (prev_entry w b q Hw Eq) as (b' & Hb' & Hk). fold k in Hk.
    replace (k - 1) with (nHeight b') by lia. rewrite (IH q b') by (done || lia).
    replace (Z.to_nat (k - height)) with (S (Z.to_nat (nHeight b' - height))) by lia.
    by rewrite (up_pprev _ w b q). }
  destruct (pskip b) as [s | ] eqn:Es; [ | done]. destruct (_ || _) eqn:Ec; [ | done].
  destruct (skip_up w b s Hw Es) as [Hk Hup]. fold k in Hk, Hup.
  pose proof (GetSkipHeight_lt k Hk).
  assert (height <= GetSkipHeight k) by (apply orb_true_iff in Ec as [Ec | Ec]; zbool; lia).
  destruct (up_height _ _ _ _ Hw Hup) as (c & Hc & Ek). fold k in Ek.
  replace (GetSkipHeight k) with (nHeight c) at 1 by lia. rewrite (IH s c) by (done || lia).
  replace (Z.to_nat (k - height)) with
    (Z.to_nat (k - GetSkipHeight k) + Z.to_nat (nHeight c - height))%nat by lia.
  by rewrite up_add, Hup.
Qed.

Lemma GetAncestor_spec p b height : m !! p = Some b -> GetAncestor m p height = Some (ancestor m p height).
Proof.
  intros Hp. unfold GetAncestor, ancestor. rewrite Hp. simpl. pose proof (height_range _ _ Hp).
  destruct (Z.ltb_spec (nHeight b) height); destruct (Z.ltb_spec height 0);
    destruct (Z.leb_spec 0 height); destruct (Z.leb_spec height (nHeight b)); try lia; try done.
  simpl. rewrite GetAncestor_loop_spec by (done || lia).
  by destruct (up_total (Z.to_nat (nHeight b - height)) p b Hp ltac:(lia)) as [q ->].
Qed.

Lemma ancestor_total p b height : m !! p = Some b -> 0 <= height <= nHeight b ->
  exists q c, ancestor m p height = Some q /\ m !! q = Some c /\ nHeight c = height.
Proof.
  intros Hp Hh. unfold ancestor. rewrite Hp. simpl.
  destruct (Z.leb_spec 0 height); [ | lia]. destruct (Z.leb_spec height (nHeight b)); [simpl | lia].
  destruct (up_total (Z.to_nat (nHeight b - height)) p b Hp ltac:(lia)) as [q Hq].
  destruct (up_height _ _ _ _ Hp Hq) as (c & Hc & E). exists q, c. split_and!; [done | done | lia].
Qed.
End Tree.

(** *** The proof of a block *)

(** Whether a compact target is one a proof can be measured against *)
Definition usable_target (nBits : Z) : bool :=
  negb (compact_value nBits =? 0) && negb (Z.testbit nBits 23) && (compact_value nBits <? 2 ^ 256).

Lemma compact_value_not_ones c : in_u 32 c -> compact_value c <> 2 ^ 256 - 1.
Proof.
  intros Hc. unfold compact_value. pose proof (Z.mod_pos_bound c (2 ^ 23)).
  destruct (Z.leb_spec (c / 2 ^ 24) 3).
  - assert (0 < 256 ^ (3 - c / 2 ^ 24)) by (apply Z.pow_pos_nonneg; lia).
    assert (c mod 2 ^ 23 / 256 ^ (3 - c / 2 ^ 24) <= c mod 2 ^ 23) by (apply Z.div_le_upper_bound; nia). lia.
  - replace (c / 2 ^ 24 - 3) with (1 + (c / 2 ^ 24 - 4)) by lia. rewrite Z.pow_add_r by lia.
    set (k := 256 ^ (c / 2 ^ 24 - 4)). intros E. replace (_ * _) with (2 * (c mod 2 ^ 23 * 128 * k)) in E by lia. lia.
Qed.

Lemma compact_value_nonneg c : in_u 32 c -> 0 <= compact_value c.
Proof.
  intros Hc. unfold compact_value. pose proof (Z.mod_pos_bound c (2 ^ 23)).
  destruct (Z.leb_spec (c / 2 ^ 24) 3).
  - assert (0 < 256 ^ (3 - c / 2 ^ 24)) by (apply Z.pow_pos_nonneg; lia). apply Z.div_pos; lia.
  - assert (0 < 256 ^ (c / 2 ^ 24 - 3)) by (apply Z.pow_pos_nonneg; lia). nia.
Qed.

Lemma GetBlockProof_spec b : in_u 32 (bi_nBits b) ->
  exists w, GetBlockProof b = Ok w /\ wf256 w /\
    val w = if usable_target (bi_nBits b) then 2 ^ 256 / (compact_value (bi_nBits b) + 1) else 0.
Proof.
  intros Hb. unfold GetBlockProof, usable_target. pose proof (SetCompact_aux _ Hb) as HS.
  pose proof (compact_value_not_ones _ Hb). pose proof (compact_value_nonneg _ Hb). set (V := compact_value (bi_nBits b)) in *.
  destruct (SetCompact (bi_nBits b)) as [[t neg_] ovf]. destruct HS as (Ht & Ev & -> & ->).
  rewrite EqualTo_spec by (done || lia). rewrite Ev. clearbody V.
  destruct (of_u64_spec 1) as [W1 V1]; [lia | ]. destruct (of_u64_spec 0) as [W0 V0]; [lia | ].
  pose proof (val_range256 _ Ht). destruct (Z.leb_spec (2 ^ 256) V) as [Hov | Hfit].
  { rewrite orb_true_r. exists (of_u64 0). split_and!; [done | done | ].
    destruct (Z.ltb_spec V (2 ^ 256)); [lia | ]. by rewrite andb_false_r. }
  destruct (Z.ltb_spec V (2 ^ 256)); [ | lia]. rewrite andb_true_r, orb_false_r.
  rewrite Z.mod_small in Ev |- * by lia.
  destruct (Z.eqb_spec V 0); cbn [negb andb orb]; [by exists (of_u64 0) | ].
  rewrite orb_false_r. destruct (Z.testbit (bi_nBits b) 23); cbn [negb]; [by exists (of_u64 0) | ].
  destruct (bitnot_spec 8 t Ht) as [Hn Vn]. destruct (add_spec_n 8 t (of_u64 1) Ht W1) as [Ha Va].
  change (32 * Z.of_nat 8) with 256 in *. rewrite V1, Ev, Z.mod_small in Va by lia.
  pose proof (udiv_spec _ _ Hn Ha) as Hd. destruct (udiv _ _) as [q | []]; [ | rewrite Va in Hd; lia].
  destruct Hd as (_ & Hq & Vq). destruct (add_spec_n 8 q (of_u64 1) Hq W1) as [Hr Vr].
  exists (add q (of_u64 1)). split_and!; [done | done | ]. change (32 * Z.of_nat 8) with 256 in *.
  rewrite Vr, V1, Vq, Va, Vn, Ev.
  replace (2 ^ 256 - 1 - V) with (2 ^ 256 + (-1) * (V + 1)) by lia. rewrite Z.div_add by lia.
  assert (2 ^ 256 / (V + 1) < 2 ^ 256) by (apply Z.div_lt; lia).
  assert (0 <= 2 ^ 256 / (V + 1)) by (apply Z.div_pos; lia).
  rewrite Z.mod_small by lia. lia.
Qed.

(** *** Adding a header *)

Section Insert.
Context (m : BlockMap) (h : ptr) (e : CBlockIndex) (Hh : m !! h = None).

Lemma up_insert n p q : up m n p = Some q -> up (<[h := e]> m) n p = Some q.
Proof.
  revert p. induction n as [ | n IH]; intros p; simpl; [done | ].
  destruct (m !! p) as [b | ] eqn:Hp; [simpl | done]. rewrite lookup_insert_ne, Hp by congruence. simpl.
  destruct (pprev b); [apply IH | done].
Qed.

Lemma ancestor_insert p b k : index_ok m -> m !! p = Some b ->
  ancestor (<[h := e]> m) p k = ancestor m p k.
Proof.
  intros Hm Hp. unfold ancestor. rewrite lookup_insert_ne, Hp by congruence. simpl.
  destruct (_ && _) eqn:E; [ | done]. zbool.
  destruct (up_total m Hm (Z.to_nat (nHeight b - k)) p b Hp ltac:(lia)) as [q Hq].
  rewrite Hq. by apply up_insert.
Qed.

Lemma entry_ok_insert p b : index_ok m -> entry_ok m p b -> entry_ok (<[h := e]> m) p b.
Proof.
  intros Hm (H1 & H2 & H3 & H4). refine (conj H1 (conj H2 (conj H3 _))). destruct (pprev b) as [q | ]; [ | done].
  destruct H4 as (b' & Hb' & Hr & Hs & H5 & H6). exists b'.
  rewrite lookup_insert_ne by congruence. split_and!; try done.
  rewrite Hs. symmetry. by apply (ancestor_insert q b').
Qed.

Lemma index_ok_insert : index_ok m -> entry_ok (<[h := e]> m) h e -> index_ok (<[h := e]> m).
Proof.
  intros Hm He p b. destruct (decide (p = h)) as [-> | Hne].
  - rewrite lookup_insert_eq. by intros [= <-].
  - rewrite lookup_insert_ne by congruence. intros Hp. apply entry_ok_insert; [done | ]. by apply Hm.
Qed.

(** Walks from the old entries do not see the new one, so they are the same whatever it holds. *)
Lemma GetAncestor_loop_insert fuel w c k : index_ok m -> m !! w = Some c -> 0 <= k ->
  GetAncestor_loop (<[h := e]> m) fuel w (nHeight c) k = GetAncestor_loop m fuel w (nHeight c) k.
Proof.
  intros Hm. revert w c. induction fuel as [ | fuel IH]; intros w c Hw Hk; simpl; [done | ].
  destruct (Z.ltb_spec k (nHeight c)) as [Hlt | ]; [ | done].
  rewrite lookup_insert_ne, Hw by congruence. cbn [mbind option_bind].
  destruct (has_prev m Hm w c Hw ltac:(lia)) as [q Eq]. rewrite Eq. cbn [mbind option_bind].
  destruct (prev_entry m Hm w c q Hw Eq) as (c' & Hc' & Ec).
  replace (nHeight c - 1) with (nHeight c') by lia.
  destruct (pskip c) as [sk | ] eqn:Es; [ | by apply IH]. destruct (_ || _); [ | by apply IH].
  destruct (skip_up m Hm w c sk Hw Es) as [Hpos Hup].
  destruct (up_height m Hm _ _ _ _ Hw Hup) as (d & Hd & Ed). pose proof (GetSkipHeight_lt _ Hpos).
  replace (GetSkipHeight (nHeight c)) with (nHeight d) by lia. by apply IH.
Qed.

Lemma GetAncestor_insert p b k : index_ok m -> m !! p = Some b ->
  GetAncestor (<[h := e]> m) p k = Some (ancestor m p k).
Proof.
  intros Hm Hp. rewrite <- (GetAncestor_spec m Hm p b k Hp). unfold GetAncestor.
  rewrite lookup_insert_ne, Hp by congruence. cbn [mbind option_bind].
  destruct (_ || _) eqn:Eo; [done | ]. zbool. by rewrite GetAncestor_loop_insert.
Qed.
End Insert.

(** The best header has the most work of all entries. *)
Definition best_ok (st : ChainState) : Prop :=
  match pindexBestHeader st with
  | None => mapBlockIndex st = ∅
  | Some best => exists e, mapBlockIndex st !! best = Some e /\
      map_Forall (fun _ b => val (nChainWork b) <= val (nChainWork e)) (mapBlockIndex st)
  end.

Definition state_ok (st : ChainState) : Prop := index_ok (mapBlockIndex st) /\ best_ok st.

(** A header that can be added: its hash is not its own predecessor and the height stays an [int] *)
Definition addable (C : Crypto) (m : BlockMap) (block : CBlockHeader) : Prop :=
  hashPrevBlock block <> Block_GetHash C block /\ in_u 32 (nBits block) /\
  (forall p, m !! hashPrevBlock block = Some p -> nHeight p + 1 < 2 ^ 31).

Lemma RaiseValidity_tree b : nStatus b = 0 ->
  exists s, RaiseValidity b BLOCK_VALID_TREE = Some (set_nStatus b s, true) /\ s = BLOCK_VALID_TREE.
Proof. intros E. unfold RaiseValidity. rewrite E. eexists. split; reflexivity. Qed.

(** The linked entry is in its place. *)
Lemma link_entry_ok C m block fresh : index_ok m -> addable C m block ->
  m !! Block_GetHash C block = None ->
  let hash := Block_GetHash C block in
  exists b, link_entry C (<[hash := fresh]> m) hash block = Some b /\
    entry_ok (<[hash := b]> m) hash b /\ pprev b = ((fun _ => hashPrevBlock block) <$> m !! hashPrevBlock block).
Proof.
  intros Hm (Hself & Hbits & Hroom) Hnone hash. unfold link_entry.
  rewrite lookup_insert_ne by (by apply not_eq_sym).
  destruct (m !! hashPrevBlock block) as [p | ] eqn:Hp.
  - specialize (Hroom p eq_refl). pose proof (height_range m Hm _ _ Hp) as Hr.
    destruct (Hm _ _ Hp) as (_ & _ & Hwp & _).
    rewrite i32_id by lia. unfold BuildSkip. cbn [pprev set_pprev_nHeight set_phashBlock CBlockIndex_of_header nHeight].
    rewrite (GetAncestor_insert m hash fresh Hnone _ p) by done. cbn [mbind option_bind].
    match goal with |- context [GetBlockProof ?x] => destruct (GetBlockProof_spec x Hbits) as (w & Ew & Hw & Vw) end.
    rewrite Ew. cbn [mbind option_bind].
    match goal with |- context [RaiseValidity ?x _] => destruct (RaiseValidity_tree x eq_refl) as (s & Es & _) end.
    rewrite Es. cbn [mbind option_bind]. eexists. split; [reflexivity | ]. split; [ | done].
    destruct (add_spec_n 8 (nChainWork p) w Hwp Hw) as [Ha Va].
    split; [done | ]. split; [simpl; lia | ]. split; [done | ]. simpl. exists p.
    rewrite lookup_insert_ne by (by apply not_eq_sym). split_and!; [done | done | | done | ].
    + symmetry. by apply (ancestor_insert m hash _ Hnone _ p).
    + exists w. split; [exact Ew | exact Va].
  - cbn [mbind option_bind].
    match goal with |- context [GetBlockProof ?x] => destruct (GetBlockProof_spec x Hbits) as (w & Ew & Hw & Vw) end.
    rewrite Ew. cbn [mbind option_bind].
    match goal with |- context [RaiseValidity ?x _] => destruct (RaiseValidity_tree x eq_refl) as (s & Es & _) end.
    rewrite Es. cbn [mbind option_bind]. eexists. split; [reflexivity | ]. split; [ | done].
    destruct (of_u64_spec 0) as [W0 V0]; [lia | ].
    destruct (add_spec_n 8 (of_u64 0) w W0 Hw) as [Ha Va]. pose proof (val_range256 _ Hw).
    split; [done | ]. split; [simpl; lia | ]. split; [done | ]. simpl. split_and!; try done.
    exists w. split; [exact Ew | ]. change (32 * Z.of_nat 8) with 256 in Va.
    rewrite V0, Z.add_0_l, Z.mod_small in Va by lia. exact Va.
Qed.

Lemma AddToBlockIndex_ok C st block : state_ok st -> addable C (mapBlockIndex st) block ->
  exists st' b, AddToBlockIndex C st block = Some (st', Block_GetHash C block) /\
    mapBlockIndex st ⊆ mapBlockIndex st' /\
    mapBlockIndex st' !! Block_GetHash C block = Some b /\ state_ok st'.
Proof.
  intros [Hm Hbest] Hadd. unfold AddToBlockIndex. set (hash := Block_GetHash C block).
  destruct (mapBlockIndex st !! hash) as [b | ] eqn:Hnone; [by exists st, b | ].
  set (fresh := set_phashBlock _ _).
  destruct (link_entry_ok C (mapBlockIndex st) block fresh Hm Hadd Hnone) as (b & Hb & Hok & _).
  fold hash in Hb, Hok. rewrite Hb. cbn [mbind option_bind]. rewrite insert_insert_eq.
  pose proof (index_ok_insert (mapBlockIndex st) hash b Hnone Hm Hok) as Hm'.
  destruct (Hok) as (_ & _ & Hwf & _).
  unfold best_ok in Hbest. destruct (pindexBestHeader st) as [best | ].
  - destruct Hbest as (e & He & Hmax). rewrite lookup_insert_ne, He by congruence. cbn [mbind option_bind].
    destruct (Hm _ _ He) as (_ & _ & Hwe & _). rewrite (ltb_spec 8) by done.
    eexists _, b. split; [reflexivity | ]. cbn [mapBlockIndex].
    split; [by apply insert_subseteq | ]. split; [apply lookup_insert_eq | ]. split; [done | ].
    unfold best_ok. cbn [pindexBestHeader mapBlockIndex].
    destruct (Z.ltb_spec (val (nChainWork e)) (val (nChainWork b))) as [Hlt | Hge].
    + exists b. rewrite lookup_insert_eq. split; [done | ]. apply map_Forall_insert_2; [lia | ].
      intros q c Hq. specialize (Hmax q c Hq). simpl in Hmax. lia.
    + exists e. rewrite lookup_insert_ne by congruence. split; [done | ]. by apply map_Forall_insert_2.
  - eexists _, b. split; [reflexivity | ]. cbn [mapBlockIndex].
    split; [by apply insert_subseteq | ]. split; [apply lookup_insert_eq | ]. split; [done | ].
    exists b. cbn [mapBlockIndex]. rewrite lookup_insert_eq. split; [done | ].
    rewrite Hbest. apply map_Forall_insert_2; [lia | ]. intros q c. by rewrite lookup_empty.
Qed.

(** The states [AddToBlockIndex] leads to from the empty index *)
Inductive reachable (C : Crypto) : ChainState -> Prop :=
| reach_empty : reachable C (mk_ChainState ∅ ∅ None ∅)
| reach_add st block st' p :
    reachable C st -> addable C (mapBlockIndex st) block ->
    AddToBlockIndex C st block = Some (st', p) -> reachable C st'.

Lemma reachable_ok C st : reachable C st -> state_ok st.
Proof.
  induction 1 as [ | st block st' p _ IH Hadd H].
  - split; [ | done]. intros p b. cbn [mapBlockIndex]. by rewrite lookup_empty.
  - destruct (AddToBlockIndex_ok C st block IH Hadd) as (st'' & b & E & _ & _ & Hok). congruence.
Qed.

(** The block index.  In every state reached by adding headers, each entry is one above its
    predecessor, its skip pointer is its ancestor at the skip height, its latest time and its
    work are those of its chain, and the best header has the most work; adding a further header
    succeeds without an assertion failing, keeps all of this and changes no existing entry. *)
Theorem block_index_invariant C st block :
  reachable C st -> addable C (mapBlockIndex st) block ->
  index_ok (mapBlockIndex st) /\ best_ok st /\
  exists st' b, AddToBlockIndex C st block = Some (st', Block_GetHash C block) /\
    mapBlockIndex st ⊆ mapBlockIndex st' /\
    mapBlockIndex st' !! Block_GetHash C block = Some b /\
    index_ok (mapBlockIndex st') /\ best_ok st'.
Proof.
  intros Hst Hadd. apply reachable_ok in Hst. destruct (Hst) as [? ?]. split_and!; [done | done | ].
  destruct (AddToBlockIndex_ok C st block Hst Hadd) as (st' & b & E & Hsub & Hb & [? ?]).
  exists st', b. by split_and!.
Qed.

(** A genesis header, and one on top of it *)
Definition genesis_header : CBlockHeader :=
  mk_CBlockHeader 4 uint256_SetNull uint256_SetNull 1000 0x1d00ffff 0
    uint256_SetNull uint256_SetNull COutPoint_SetNull [].

Lemma block_index_invariant_witness :
  exists st' b, AddToBlockIndex toy_crypto (mk_ChainState ∅ ∅ None ∅) genesis_header =
      Some (st', Block_GetHash toy_crypto genesis_header) /\
    mapBlockIndex st' !! Block_GetHash toy_crypto genesis_header = Some b.
Proof.
  destruct (block_index_invariant toy_crypto (mk_ChainState ∅ ∅ None ∅) genesis_header)
    as (_ & _ & st' & b & E & _ & Hb & _).
  - apply reach_empty.
  - split; [vm_compute; discriminate | ]. split; [simpl; lia | ]. intros p. cbn [mapBlockIndex].
    by rewrite lookup_empty.
  - exists st', b. split; [exact E | exact Hb].
Defined.

(** Ancestors.  [GetAncestor] follows skip pointers, and returns at every height the entry
    that walking back one predecessor at a time reaches, or null out of range; its assertion
    never fails and its loop ends within as many turns as the block is high. *)
Theorem GetAncestor_is_walk C st p b height :
  reachable C st -> mapBlockIndex st !! p = Some b ->
  GetAncestor (mapBlockIndex st) p height = Some (ancestor (mapBlockIndex st) p height) /\
  (0 <= height <= nHeight b -> exists q c, ancestor (mapBlockIndex st) p height = Some q /\
     mapBlockIndex st !! q = Some c /\ nHeight c = height).
Proof.
  intros [Hm _]%reachable_ok Hp. split; [by apply (GetAncestor_spec _ Hm p b) | ].
  by apply ancestor_total.
Qed.

(** Four more headers, each on top of the one before *)
Fixpoint sample_header (n : nat) : CBlockHeader :=
  match n with
  | O => genesis_header
  | S n => mk_CBlockHeader (5 + Z.of_nat n) (Block_GetHash toy_crypto (sample_header n)) uint256_SetNull
             (1000 + 10 * Z.of_nat n) 0x1d00ffff 0 uint256_SetNull uint256_SetNull COutPoint_SetNull []
  end.
Fixpoint sample_state (n : nat) : ChainState :=
  match n with
  | O => mk_ChainState ∅ ∅ None ∅
  | S n => default (sample_state n)
             (fst <$> AddToBlockIndex toy_crypto (sample_state n) (sample_header n))
  end.

Lemma sample_addable n : (n <= 4)%nat -> addable toy_crypto (mapBlockIndex (sample_state n)) (sample_header n).
Proof.
  intros Hn. split; [ | split].
  - do 5 (destruct n as [ | n]; [vm_compute; discriminate | ]). lia.
  - do 5 (destruct n as [ | n]; [simpl; lia | ]). lia.
  - intros p Hp. cut (forallb (fun b => nHeight b + 1 <? 2 ^ 31)
      (map snd (map_to_list (mapBlockIndex (sample_state n)))) = true).
    + rewrite forallb_forall. intros H. apply elem_of_map_to_list in Hp. apply Z.ltb_lt, H.
      apply in_map_iff. exists (hashPrevBlock (sample_header n), p). split; [done | ].
      by apply list_elem_of_In.
    + do 5 (destruct n as [ | n]; [vm_compute; reflexivity | ]). lia.
Qed.

Lemma sample_reachable n : (n <= 5)%nat -> reachable toy_crypto (sample_state n).
Proof.
  induction n as [ | n IH]; intros Hn; [apply reach_empty | ].
  pose proof (sample_addable n ltac:(lia)) as Hadd. specialize (IH ltac:(lia)).
  destruct (AddToBlockIndex_ok toy_crypto _ _ (reachable_ok _ _ IH) Hadd) as (st' & b & E & _).
  eapply reach_add; [exact IH | exact Hadd | ]. rewrite E. simpl. by rewrite E.
Qed.

Lemma GetAncestor_is_walk_witness :
  let m := mapBlockIndex (sample_state 5) in
  let tip := Block_GetHash toy_crypto (sample_header 4) in
  GetAncestor m tip 1 = Some (ancestor m tip 1).
Proof.
  intros m tip. destruct (m !! tip) as [b | ] eqn:E; [ | vm_compute in E; discriminate].
  refine (proj1 (GetAncestor_is_walk toy_crypto (sample_state 5) tip b 1 _ E)).
  apply sample_reachable. lia.
Defined.

(** *** The active chain *)

Section Chains.
Context (m : BlockMap) (Hm : index_ok m).

Lemma ancestor_at p b k : m !! p = Some b -> 0 <= k <= nHeight b ->
  ancestor m p k = up m (Z.to_nat (nHeight b - k)) p.
Proof.
  intros Hp Hk. unfold ancestor. rewrite Hp. simpl.
  destruct (Z.leb_spec 0 k); [ | lia]. by destruct (Z.leb_spec k (nHeight b)); [ | lia].
Qed.

Lemma ancestor_self p b : m !! p = Some b -> ancestor m p (nHeight b) = Some p.
Proof.
  intros Hp. pose proof (height_range m Hm _ _ Hp). rewrite (ancestor_at p b) by (done || lia).
  by rewrite Z.sub_diag.
Qed.

Lemma ancestor_inv p b k q : m !! p = Some b -> ancestor m p k = Some q ->
  0 <= k <= nHeight b /\ exists c, m !! q = Some c /\ nHeight c = k.
Proof.
  intros Hp H. unfold ancestor in H. rewrite Hp in H. simpl in H.
  destruct (_ && _) eqn:E; [ | done]. zbool. split; [lia | ].
  destruct (up_height m Hm _ _ _ _ Hp H) as (c & Hc & Ec). exists c. split; [done | lia].
Qed.

(** An ancestor of an ancestor *)
Lemma ancestor_trans p b q k j : m !! p = Some b -> ancestor m p k = Some q -> 0 <= j <= k ->
  ancestor m q j = ancestor m p j.
Proof.
  intros Hp Hq Hj. destruct (ancestor_inv p b k q Hp Hq) as (Hk & c & Hc & Ec).
  rewrite (ancestor_at p b) in Hq by (done || lia).
  rewrite (ancestor_at p b), (ancestor_at q c) by (done || lia).
  replace (Z.to_nat (nHeight b - j)) with (Z.to_nat (nHeight b - k) + Z.to_nat (nHeight c - j))%nat by lia.
  by rewrite up_add, Hq.
Qed.

(** The predecessor is the ancestor one below. *)
Lemma ancestor_pprev p b c q k : m !! p = Some b -> ancestor m p k = Some q -> m !! q = Some c ->
  pprev c = if k =? 0 then None else ancestor m p (k - 1).
Proof.
  intros Hp Hq Hc. destruct (ancestor_inv p b k q Hp Hq) as (Hk & c' & Hc' & Ec).
  rewrite Hc in Hc'. injection Hc' as <-. destruct (Z.eqb_spec k 0) as [-> | Hne].
  - destruct (Hm _ _ Hc) as (_ & _ & _ & H). destruct (pprev c) as [r | ]; [ | done].
    destruct H as (d & Hd & E & _). pose proof (height_range m Hm _ _ Hd). lia.
  - destruct (has_prev m Hm q c Hc ltac:(lia)) as [r Er]. rewrite Er.
    rewrite <- (ancestor_trans p b q k (k - 1) Hp Hq ltac:(lia)).
    rewrite (ancestor_at q c) by (done || lia).
    replace (Z.to_nat (nHeight c - (k - 1))) with 1%nat by lia. simpl. rewrite Hc. simpl. by rewrite Er.
Qed.

(** [v] is the path from the genesis block to [p]. *)
Definition chain_is (v : list (option ptr)) (p : ptr) : Prop :=
  exists b, m !! p = Some b /\ vsize v = nHeight b + 1 /\
    forall i, 0 <= i <= nHeight b -> chain_at v i = ancestor m p i.
Definition chain_ok (v : list (option ptr)) : Prop := v = [] \/ exists p, chain_is v p.

Lemma chain_at_lookup v i : 0 <= i < vsize v -> v !! Z.to_nat i = Some (chain_at v i).
Proof.
  intros Hi. unfold chain_at. destruct (Z.ltb_spec i 0); [lia | ].
  destruct (Z.leb_spec (vsize v) i); [lia | ]. cbn [orb]. unfold vsize in Hi.
  by destruct (lookup_lt_is_Some_2 v (Z.to_nat i) ltac:(lia)) as [x ->].
Qed.

Lemma chain_at_out v i : i < 0 \/ vsize v <= i -> chain_at v i = None.
Proof.
  intros H. unfold chain_at. destruct (Z.ltb_spec i 0); [done | ].
  by destruct (Z.leb_spec (vsize v) i); [ | lia].
Qed.

Lemma resize_spec n v : 0 <= n -> vsize (resize n v) = n /\
  forall i, 0 <= i < n -> chain_at (resize n v) i = chain_at v i.
Proof.
  intros Hn. unfold resize.
  assert (E : vsize (take (Z.to_nat n) v ++ replicate (Z.to_nat n - length v) None) = n).
  { unfold vsize. rewrite length_app, length_take, length_replicate. lia. }
  split; [done | ]. intros i Hi. apply (inj Some). rewrite <- chain_at_lookup by lia.
  destruct (decide (i < vsize v)) as [Hlt | Hge]; unfold vsize in *.
  - rewrite lookup_app_l by (rewrite length_take; lia). rewrite lookup_take_lt by lia.
    apply chain_at_lookup. unfold vsize. lia.
  - rewrite lookup_app_r by (rewrite length_take; lia). rewrite chain_at_out by (unfold vsize; lia).
    apply lookup_replicate. split; [done | ]. rewrite length_take. lia.
Qed.

Lemma chain_at_insert v i x j : 0 <= i < vsize v -> 0 <= j ->
  chain_at (<[Z.to_nat i := x]> v) j = if j =? i then x else chain_at v j.
Proof.
  intros Hi Hj. unfold chain_at. assert (vsize (<[Z.to_nat i := x]> v) = vsize v) as ->.
  { unfold vsize. by rewrite length_insert. }
  destruct (Z.ltb_spec j 0); [lia | ]. destruct (Z.leb_spec (vsize v) j); cbn [orb];
    destruct (Z.eqb_spec j i) as [-> | ]; try lia; try done.
  - rewrite list_lookup_insert_eq; [done | ]. unfold vsize in Hi. lia.
  - by rewrite list_lookup_insert_ne by lia.
Qed.

(** Where the vector has an entry, it has that entry's ancestors below. *)
Definition coherent (at_ : Z -> option ptr) : Prop :=
  forall i q j, at_ i = Some q -> 0 <= j <= i -> at_ j = ancestor m q j.

Lemma chain_coherent v : chain_ok v -> coherent (chain_at v).
Proof.
  intros [-> | (p & b & Hp & Hv & Hat)] i q j Hq Hj.
  - rewrite chain_at_out in Hq; [done | right; change (0 <= i); lia].
  - destruct (decide (i <= nHeight b)) as [Hi | Hi]; [ | by rewrite chain_at_out in Hq by lia].
    rewrite Hat in Hq |- * by lia. symmetry. by apply (ancestor_trans p b q i).
Qed.

(** The loop fills in the path from the top until it meets what is already there. *)
Lemma SetTip_loop_spec p b old fuel k v : m !! p = Some b -> coherent old ->
  -1 <= k <= nHeight b -> k + 1 <= Z.of_nat fuel -> vsize v = nHeight b + 1 ->
  (forall i, k < i <= nHeight b -> chain_at v i = ancestor m p i) ->
  (forall i, 0 <= i <= k -> chain_at v i = old i) ->
  exists v', SetTip_loop m fuel v (ancestor m p k) = Some v' /\ vsize v' = nHeight b + 1 /\
    forall i, 0 <= i <= nHeight b -> chain_at v' i = ancestor m p i.
Proof.
  intros Hp Hold. revert k v. induction fuel as [ | fuel IH]; intros k v Hk Hf Hv Hhi Hlo.
  all: destruct (decide (k = -1)) as [-> | Hne]; [ | try lia].
  1, 2: assert (ancestor m p (-1) = None) as -> by (unfold ancestor; by rewrite Hp);
    exists v; split_and!; [by simpl | done | intros i Hi; apply Hhi; lia].
  destruct (ancestor_total m Hm p b k Hp ltac:(lia)) as (c & bc & Hc & Hbc & Ek).
  rewrite Hc. simpl. rewrite Hbc. simpl. rewrite Ek, chain_at_lookup by lia. simpl.
  rewrite Hlo by lia. destruct (bool_decide_reflect (old k = Some c)) as [Ho | Ho].
  - exists v. split_and!; [done | done | ]. intros i Hi.
    destruct (decide (i <= k)) as [Hle | Hgt]; [ | apply Hhi; lia].
    rewrite Hlo, (Hold k c i Ho) by lia. apply (ancestor_trans p b c k); done || lia.
  - rewrite (ancestor_pprev p b bc c k Hp Hc Hbc).
    replace (if k =? 0 then None else ancestor m p (k - 1)) with (ancestor m p (k - 1)).
    2: { destruct (Z.eqb_spec k 0) as [-> | ]; [ | done]. unfold ancestor. by rewrite Hp. }
    apply IH; [lia | lia | | | ].
    + unfold vsize. by rewrite length_insert.
    + intros i Hi. rewrite chain_at_insert by lia. destruct (Z.eqb_spec i k) as [-> | ]; [done | apply Hhi; lia].
    + intros i Hi. rewrite chain_at_insert by lia. destruct (Z.eqb_spec i k); [lia | apply Hlo; lia].
Qed.

Lemma SetTip_spec v p b : chain_ok v -> m !! p = Some b ->
  exists v', SetTip m v (Some p) = Some v' /\ chain_is v' p.
Proof.
  intros Hv Hp. pose proof (height_range m Hm _ _ Hp). unfold SetTip. rewrite Hp. cbn [mbind option_bind].
  destruct (resize_spec (nHeight b + 1) v ltac:(lia)) as [Hsz Hat].
  destruct (SetTip_loop_spec p b (chain_at v) (S (Z.to_nat (nHeight b))) (nHeight b)
    (resize (nHeight b + 1) v)) as (v' & E & Hv' & Hat'); try done; try lia.
  { by apply chain_coherent. }
  { intros i Hi. apply Hat. lia. }
  rewrite (ancestor_self p b Hp) in E. exists v'. split; [done | ]. by exists b.
Qed.

Lemma Contains_spec v p b : m !! p = Some b ->
  Contains m v p = Some (bool_decide (chain_at v (nHeight b) = Some p)).
Proof. intros Hp. unfold Contains. by rewrite Hp. Qed.

(** The last of the ancestors of [p] that is in the chain [v] *)
Definition is_fork (v : list (option ptr)) (p : ptr) (b : CBlockIndex) (r : option ptr) : Prop :=
  match r with
  | Some q => exists k, 0 <= k <= nHeight b /\ ancestor m p k = Some q /\ chain_at v k = Some q /\
      forall j, k < j <= nHeight b -> chain_at v j <> ancestor m p j
  | None => forall j, 0 <= j <= nHeight b -> chain_at v j <> ancestor m p j
  end.

Lemma FindFork_loop_spec v p b fuel k : m !! p = Some b -> -1 <= k <= nHeight b ->
  k + 1 <= Z.of_nat fuel -> (forall j, k < j <= nHeight b -> chain_at v j <> ancestor m p j) ->
  exists r, FindFork_loop m fuel v (ancestor m p k) = Some r /\ is_fork v p b r.
Proof.
  intros Hp. revert k. induction fuel as [ | fuel IH]; intros k Hk Hf Hhi.
  all: destruct (decide (k = -1)) as [-> | Hne]; [ | try lia].
  1, 2: assert (ancestor m p (-1) = None) as -> by (unfold ancestor; by rewrite Hp);
    exists None; split; [by simpl | intros j Hj; apply Hhi; lia].
  destruct (ancestor_total m Hm p b k Hp ltac:(lia)) as (c & bc & Hc & Hbc & Ek).
  rewrite Hc. simpl. rewrite (Contains_spec v c bc Hbc), Ek. simpl.
  destruct (bool_decide_reflect (chain_at v k = Some c)) as [Ho | Ho].
  - exists (Some c). split; [done | ]. exists k. by split_and!; [lia | lia | | | ].
  - rewrite Hbc. simpl. rewrite (ancestor_pprev p b bc c k Hp Hc Hbc).
    replace (if k =? 0 then None else ancestor m p (k - 1)) with (ancestor m p (k - 1)).
    2: { destruct (Z.eqb_spec k 0) as [-> | ]; [ | done]. unfold ancestor. by rewrite Hp. }
    apply IH; [lia | lia | ]. intros j Hj. destruct (decide (j = k)) as [-> | ]; [congruence | apply Hhi; lia].
Qed.

Lemma FindFork_spec v p b : m !! p = Some b ->
  exists r, FindFork m v (Some p) = Some r /\ is_fork v p b r.
Proof.
  intros Hp. pose proof (height_range m Hm _ _ Hp). unfold FindFork, Height. rewrite Hp. cbn [mbind option_bind].
  pose proof (vsize_nonneg v). destruct (Z.ltb_spec (vsize v - 1) (nHeight b)).
  - rewrite (GetAncestor_spec m Hm p b) by done. cbn [mbind option_bind]. apply FindFork_loop_spec; try done; try lia.
    intros j Hj. rewrite chain_at_out by lia.
    destruct (ancestor_total m Hm p b j Hp ltac:(lia)) as (c & bc & -> & _). done.
  - cbn [mbind option_bind]. rewrite <- (ancestor_self p b Hp). apply FindFork_loop_spec; try done; lia.
Qed.

Lemma chain_is_tip v p : chain_is v p -> Tip v = Some p.
Proof.
  intros (b & Hp & Hv & Hat). pose proof (height_range m Hm _ _ Hp).
  assert (Hl : v !! (length v - 1)%nat = Some (Some p)).
  { unfold vsize in Hv. replace (length v - 1)%nat with (Z.to_nat (nHeight b)) by lia.
    rewrite chain_at_lookup by (unfold vsize; lia). rewrite Hat, (ancestor_self p b Hp) by lia. done. }
  destruct (rev v) as [ | x r] eqn:E.
  - apply (f_equal (@rev _)) in E. rewrite rev_involutive in E. subst v. done.
  - unfold Tip. rewrite E. apply (f_equal (@rev _)) in E. rewrite rev_involutive in E. subst v.
    simpl in Hl. rewrite length_app, Nat.add_sub, list_lookup_middle in Hl by done. congruence.
Qed.

(** The chain moves from [q] to the block after it. *)
Lemma Next_spec v p b k q : chain_is v p -> m !! p = Some b -> 0 <= k <= nHeight b ->
  ancestor m p k = Some q -> Next m v q = Some (if k =? nHeight b then None else ancestor m p (k + 1)).
Proof.
  intros (b' & Hp' & Hv & Hat) Hp Hk Hq. rewrite Hp in Hp'. injection Hp' as <-.
  destruct (ancestor_inv p b k q Hp Hq) as (_ & c & Hc & Ec).
  unfold Next. rewrite (Contains_spec v q c Hc), Ec. cbn [mbind option_bind].
  rewrite bool_decide_true by (rewrite Hat by lia; done). rewrite Hc. cbn [mbind option_bind]. rewrite Ec.
  destruct (Z.eqb_spec k (nHeight b)); [by rewrite chain_at_out by lia | by rewrite Hat by lia].
Qed.

(** *** The last common block of two branches *)

(** [r] is an ancestor of both, and above it the branches differ. *)
Definition last_common (p q : ptr) (top : Z) (r : ptr) : Prop :=
  exists k, 0 <= k <= top /\ ancestor m p k = Some r /\ ancestor m q k = Some r /\
    forall j, k < j <= top -> ancestor m p j <> ancestor m q j.

Lemma meet_loop_spec p b q c j0 g fuel k top :
  m !! p = Some b -> m !! q = Some c -> top <= nHeight b -> top <= nHeight c ->
  ancestor m p j0 = Some g -> ancestor m q j0 = Some g -> 0 <= j0 <= k -> k <= top ->
  k < Z.of_nat fuel -> (forall j, k < j <= top -> ancestor m p j <> ancestor m q j) ->
  exists r, meet_loop m fuel (ancestor m p k) (ancestor m q k) = Some (Some r, Some r) /\
    last_common p q top r.
Proof.
  intros Hp Hq Hb Hc Hpg Hqg. revert k. induction fuel as [ | fuel IH]; intros k Hj Hk Hf Hhi; [lia | ].
  destruct (ancestor_total m Hm p b k Hp ltac:(lia)) as (x & bx & Hx & Hbx & Ex).
  destruct (ancestor_total m Hm q c k Hq ltac:(lia)) as (y & by_ & Hy & Hby & Ey).
  simpl. rewrite Hx, Hy. destruct (bool_decide_reflect (Some x = Some y)) as [E | Hne].
  - injection E as <-. exists x. split; [done | ]. exists k. split_and!; try done; lia.
  - rewrite Hbx, Hby. simpl. rewrite (ancestor_pprev p b bx x k Hp Hx Hbx), (ancestor_pprev q c by_ y k Hq Hy Hby).
    destruct (decide (j0 = k)) as [-> | Hj0]; [congruence | ]. destruct (Z.eqb_spec k 0); [lia | ].
    apply IH; try lia. intros j Hj'. destruct (decide (j = k)) as [-> | ]; [congruence | apply Hhi; lia].
Qed.

Lemma LastCommonAncestor_spec p b q c j0 g : m !! p = Some b -> m !! q = Some c ->
  ancestor m p j0 = Some g -> ancestor m q j0 = Some g ->
  exists r, LastCommonAncestor m p q = Some (Some r) /\
    last_common p q (Z.min (nHeight b) (nHeight c)) r.
Proof.
  intros Hp Hq Hpg Hqg. set (top := Z.min (nHeight b) (nHeight c)).
  destruct (ancestor_inv p b j0 g Hp Hpg) as [Hj _]. destruct (ancestor_inv q c j0 g Hq Hqg) as [Hj' _].
  destruct (meet_loop_spec p b q c j0 g (S (Z.to_nat top)) top top) as (r & E & Hr);
    try done; try (unfold top; lia).
  assert (Est : (if nHeight c <? nHeight b then pa ← GetAncestor m p (nHeight c); Some (pa, Some q)
     else if nHeight b <? nHeight c then pb ← GetAncestor m q (nHeight b); Some (Some p, pb)
     else Some (Some p, Some q)) = Some (ancestor m p top, ancestor m q top)).
  { rewrite (GetAncestor_spec m Hm p b), (GetAncestor_spec m Hm q c) by done. simpl.
    pose proof (ancestor_self p b Hp). pose proof (ancestor_self q c Hq). unfold top.
    destruct (Z.ltb_spec (nHeight c) (nHeight b)); [ | destruct (Z.ltb_spec (nHeight b) (nHeight c))].
    - by replace (Z.min (nHeight b) (nHeight c)) with (nHeight c) by lia; congruence.
    - by replace (Z.min (nHeight b) (nHeight c)) with (nHeight b) by lia; congruence.
    - replace (nHeight c) with (nHeight b) in * by lia. rewrite Z.min_id. congruence. }
  exists r. split; [ | done]. unfold LastCommonAncestor. rewrite Hp, Hq. cbn [mbind option_bind].
  rewrite Est. cbn [mbind option_bind]. fold top. rewrite E. cbn [mbind option_bind].
  by rewrite bool_decide_true.
Qed.
End Chains.

(** The active chain.  From any chain, [SetTip] makes the vector the path from the genesis
    block to the new tip (walking back only until it meets what is already there), and
    [FindFork] returns the highest ancestor of a block that is in the chain, or null when there
    is none; neither follows a null pointer nor leaves the vector. *)
Theorem active_chain C st v p b :
  reachable C st -> chain_ok (mapBlockIndex st) v -> mapBlockIndex st !! p = Some b ->
  (exists v', SetTip (mapBlockIndex st) v (Some p) = Some v' /\ chain_is (mapBlockIndex st) v' p /\
     Tip v' = Some p /\ Height v' = nHeight b) /\
  (exists r, FindFork (mapBlockIndex st) v (Some p) = Some r /\ is_fork (mapBlockIndex st) v p b r).
Proof.
  intros [Hm _]%reachable_ok Hv Hp. split; [ | by apply FindFork_spec].
  destruct (SetTip_spec _ Hm v p b Hv Hp) as (v' & E & Hc). exists v'.
  split_and!; [done | done | by apply (chain_is_tip _ Hm) | ].
  destruct Hc as (b' & Hb' & Hsz & _). rewrite Hp in Hb'. injection Hb' as <-. unfold Height. lia.
Qed.

Lemma active_chain_witness :
  let m := mapBlockIndex (sample_state 5) in
  let tip := Block_GetHash toy_crypto (sample_header 4) in
  exists v', SetTip m [] (Some tip) = Some v' /\ Tip v' = Some tip.
Proof.
  intros m tip. destruct (m !! tip) as [b | ] eqn:E; [ | vm_compute in E; discriminate].
  destruct (active_chain toy_crypto (sample_state 5) [] tip b) as [(v' & Hv & _ & Ht & _) _].
  - apply sample_reachable. lia.
  - by left.
  - exact E.
  - exists v'. split; [exact Hv | exact Ht].
Defined.

(** Branches meet.  For two blocks of one tree, [LastCommonAncestor] returns the highest block
    that is an ancestor of both; its final assertion holds. *)
Theorem LastCommonAncestor_highest C st p b q c j g :
  reachable C st -> mapBlockIndex st !! p = Some b -> mapBlockIndex st !! q = Some c ->
  ancestor (mapBlockIndex st) p j = Some g -> ancestor (mapBlockIndex st) q j = Some g ->
  exists r, LastCommonAncestor (mapBlockIndex st) p q = Some (Some r) /\
    last_common (mapBlockIndex st) p q (Z.min (nHeight b) (nHeight c)) r.
Proof. intros [Hm _]%reachable_ok. by apply LastCommonAncestor_spec. Qed.

Lemma LastCommonAncestor_highest_witness :
  let m := mapBlockIndex (sample_state 5) in
  exists r, LastCommonAncestor m (Block_GetHash toy_crypto (sample_header 4))
              (Block_GetHash toy_crypto (sample_header 2)) = Some (Some r).
Proof.
  intros m. destruct (m !! Block_GetHash toy_crypto (sample_header 4)) as [b | ] eqn:E;
    [ | vm_compute in E; discriminate].
  destruct (m !! Block_GetHash toy_crypto (sample_header 2)) as [c | ] eqn:E';
    [ | vm_compute in E'; discriminate].
  destruct (LastCommonAncestor_highest toy_crypto (sample_state 5) _ b _ c 0
    (Block_GetHash toy_crypto (sample_header 0)) (sample_reachable 5 ltac:(lia)) E E') as (r & Hr & _).
  - vm_compute. reflexivity.
  - vm_compute. reflexivity.
  - exists r. exact Hr.
Defined.

(** The proof of a block is the expected number of hashes: the exact quotient of [2^256] by
    the target plus one, computed within 256 bits without dividing by zero, and zero for a
    target that is null, negative or too large. *)
Theorem block_proof_exact b :
  in_u 32 (bi_nBits b) ->
  exists w, GetBlockProof b = Ok w /\ wf256 w /\
    val w = if usable_target (bi_nBits b) then 2 ^ 256 / (compact_value (bi_nBits b) + 1) else 0.
Proof. apply GetBlockProof_spec. Qed.

Lemma block_proof_exact_witness :
  exists w, GetBlockProof (CBlockIndex_of_header genesis_header) = Ok w /\ val w = 4295032833.
Proof.
  destruct (block_proof_exact (CBlockIndex_of_header genesis_header)) as (w & E & _ & V).
  - simpl. lia.
  - exists w. split; [exact E | ]. rewrite V. vm_compute. reflexivity.
Defined.
