(* ===== verification/MedianTime.v ===== *)
(** * Median time past ([GetMedianTimePast] of [src/chain.h])

    The median of the times of a block and the ten before it, as version bits, lock times and header
    checks use it.  Theorems: the median is always found; it is the middle of the window; and it
    does not go back from a block to a later one when each block is newer than the median of its
    predecessor, which is what [ContextualCheckBlockHeader] asks of proof-of-stake blocks. *)

From S2P Require Import Prelude Serialize Interpreter Transaction Block Chain.
From stdpp Require Import gmap sorting.
Open Scope Z_scope.

(** ** Counting in sorted lists *)

(** How many elements are below [v] *)
Definition below (v : Z) (l : list Z) : nat := length (filter (fun x => x < v) l).

Lemma below_perm v l l' : l ≡ₚ l' -> below v l = below v l'.
Proof. intros H. unfold below. by rewrite H. Qed.

Lemma below_app v l l' : below v (l ++ l') = (below v l + below v l')%nat.
Proof. unfold below. by rewrite filter_app, length_app. Qed.

Lemma below_cons_ge v x l : v <= x -> below v (x :: l) = below v l.
Proof. intros H. unfold below. by rewrite filter_cons_False by lia. Qed.

(** In a sorted list the element at [i] is at least [v] exactly when at most [i] elements are below. *)
Lemma sorted_lookup_below v l i x : StronglySorted Z.le l -> l !! i = Some x ->
  (below v l <= i)%nat <-> v <= x.
Proof.
  intros Hs. revert i. induction Hs as [ | y l Hs IH Hall]; intros i Hx; [done | ].
  destruct (decide (y < v)) as [Hlt | Hge].
  - assert (Ey : below v (y :: l) = S (below v l)) by (unfold below; by rewrite filter_cons_True).
    rewrite Ey. destruct i as [ | i]; simpl in Hx; [injection Hx as <-; lia | ]. rewrite <- (IH i Hx). lia.
  - rewrite below_cons_ge by lia. assert (below v l = 0%nat) as ->.
    { unfold below. clear -Hall Hge. induction Hall as [ | z l Hz _ IHl]; [done | ].
      by rewrite filter_cons_False by lia. }
    split; [intros _ | lia]. destruct i as [ | i]; simpl in Hx; [injection Hx as <-; lia | ].
    rewrite Forall_forall in Hall. specialize (Hall x ltac:(by eapply list_elem_of_lookup_2)). lia.
Qed.

#[local] Instance le_total : Total Z.le.
Proof. intros x y. lia. Qed.
#[local] Instance le_trans : Transitive Z.le.
Proof. intros x y z. lia. Qed.

Lemma merge_sort_spec l : StronglySorted Z.le (merge_sort Z.le l) /\ merge_sort Z.le l ≡ₚ l.
Proof. split; [apply (StronglySorted_merge_sort Z.le) | apply merge_sort_Permutation]. Qed.

(** The middle of a list that is not empty *)
Lemma median_exists l : l <> [] ->
  exists x, merge_sort Z.le l !! (length l / 2)%nat = Some x /\
    forall v, (below v l <= length l / 2)%nat <-> v <= x.
Proof.
  intros Hl. destruct (merge_sort_spec l) as [Hs Hp].
  assert (Hlen : length (merge_sort Z.le l) = length l) by (by rewrite Hp).
  assert (0 < length l)%nat by (destruct l; [done | simpl; lia]).
  assert (length l / 2 < length l)%nat by (apply Nat.div_lt; lia).
  destruct (lookup_lt_is_Some_2 (merge_sort Z.le l) (length l / 2)) as [x Hx]; [lia | ].
  exists x. split; [done | ]. intros v. rewrite <- (below_perm v _ _ Hp). by apply sorted_lookup_below.
Qed.

(** ** The window of a block *)

Section Window.
Context (m : BlockMap) (Hm : index_ok m).

(** The times of [p] and of up to [n - 1] blocks before it, newest first *)
Fixpoint window (n : nat) (p : option ptr) : list Z :=
  match n, p with
  | S n, Some p => match m !! p with
                   | Some b => GetBlockTime b :: window n (pprev b)
                   | None => []
                   end
  | _, _ => []
  end.

Lemma past_times_window n p acc : (forall q, p = Some q -> is_Some (m !! q)) ->
  past_times m n p acc = Some (rev (window n p) ++ acc).
Proof.
  revert p acc. induction n as [ | n IH]; intros p acc Hp; [by destruct p | ].
  destruct p as [p | ]; [ | done]. simpl. destruct (Hp p eq_refl) as [b Hb]. rewrite Hb. simpl.
  rewrite IH.
  - by rewrite <- app_assoc.
  - intros q Eq. destruct (prev_entry m Hm p b q Hb Eq) as (c & Hc & _). by exists c.
Qed.

(** The median of a block *)
Definition mtp (p : ptr) (t : Z) : Prop := GetMedianTimePast m p = Some t.

Lemma mtp_total p b : m !! p = Some b -> exists t, mtp p t /\
  let w := window nMedianTimeSpan (Some p) in
  forall v, (below v w <= length w / 2)%nat <-> v <= t.
Proof.
  intros Hp. unfold mtp, GetMedianTimePast. rewrite past_times_window.
  2: { intros q [= <-]. by exists b. }
  cbn [mbind option_bind]. rewrite app_nil_r. set (w := window nMedianTimeSpan (Some p)).
  destruct (median_exists (rev w)) as (x & Hx & Hv).
  - unfold w. cbn [nMedianTimeSpan window]. rewrite Hp. intros E. apply (f_equal length) in E.
    rewrite length_rev in E. done.
  - exists x. split; [done | ]. intros v. rewrite <- (Hv v), length_rev. f_equiv.
    apply below_perm. apply Permutation_rev.
Qed.

(** A longer window only adds older times. *)
Lemma window_S n p : exists l, window (S n) p = window n p ++ l /\ (length l <= 1)%nat.
Proof.
  revert p. induction n as [ | n IH]; intros [p | ]; simpl; try (exists []; split; [done | simpl; lia]).
  - destruct (m !! p) as [b | ]; [exists [GetBlockTime b] | exists []]; split; simpl; try done; lia.
  - destruct (m !! p) as [b | ]; [ | exists []; split; [done | simpl; lia]].
    destruct (IH (pprev b)) as (l & E & Hl). exists l. split; [ | done]. simpl in E. by rewrite E.
Qed.

(** Newer than the median of its predecessor: the median does not decrease. *)
Lemma mtp_step p b q t t' : m !! p = Some b -> pprev b = Some q -> mtp q t -> mtp p t' ->
  t < GetBlockTime b -> t <= t'.
Proof.
  intros Hp Hq Ht Ht' Hlt. destruct (prev_entry m Hm p b q Hp Hq) as (c & Hc & _).
  destruct (mtp_total p b Hp) as (x & Hx & Hvx). destruct (mtp_total q c Hc) as (y & Hy & Hvy).
  unfold mtp in *. assert (x = t') as -> by congruence. assert (y = t) as -> by congruence.
  cbv zeta in *. apply (Hvx t). pose proof (proj2 (Hvy t) ltac:(lia)) as Hb.
  unfold nMedianTimeSpan in *. destruct (window_S 10 (Some q)) as (l & E & Hl). rewrite E in Hb.
  assert (window 11 (Some p) = GetBlockTime b :: window 10 (Some q)) as ->
    by (change (window 11 (Some p)) with (match m !! p with Some b => GetBlockTime b :: window 10 (pprev b) | None => [] end);
        by rewrite Hp, Hq).
  rewrite below_cons_ge by lia. rewrite below_app, length_app in Hb.
  set (n := length (window 10 (Some q))) in *. cbn [length]. fold n.
  assert ((n + length l) / 2 <= S n / 2)%nat by (apply Nat.Div0.div_le_mono; lia). lia.
Qed.

(** The rule on the time of a new block, kept by every entry that has a predecessor *)
Definition times_ok : Prop :=
  map_Forall (fun p b => forall q t, pprev b = Some q -> mtp q t -> t < GetBlockTime b) m.

Lemma mtp_up n p b q t t' : times_ok -> m !! p = Some b -> up m n p = Some q -> mtp q t -> mtp p t' -> t <= t'.
Proof.
  intros Hok. revert p b t'. induction n as [ | n IH]; intros p b t' Hp Hup Ht Ht'.
  - simpl in Hup. injection Hup as <-. unfold mtp in *. assert (t = t') as -> by congruence. lia.
  - simpl in Hup. rewrite Hp in Hup. cbn [mbind option_bind] in Hup.
    destruct (pprev b) as [r | ] eqn:Er; [ | done]. cbn [mbind option_bind] in Hup.
    destruct (prev_entry m Hm p b r Hp Er) as (c & Hc & _). destruct (mtp_total r c Hc) as (s & Hs & _).
    pose proof (IH r c s Hc Hup Ht Hs). pose proof (mtp_step p b r s t' Hp Er Hs Ht' (Hok _ _ Hp r s Er Hs)). lia.
Qed.
End Window.

(** ** The theorem *)

(** Median time past.  On every reachable block tree the median of every block is found and
    is the largest number that at most half of its window of times is below; and where every block is newer than the median of its predecessor, the median of a block is never below the
    median of an ancestor. *)
Theorem median_time_past C st p b :
  reachable C st -> mapBlockIndex st !! p = Some b ->
  let m := mapBlockIndex st in
  exists t, GetMedianTimePast m p = Some t /\
    (forall v, (below v (window m nMedianTimeSpan (Some p)) <=
                length (window m nMedianTimeSpan (Some p)) / 2)%nat <-> v <= t) /\
    (times_ok m -> forall q k s, ancestor m p k = Some q -> GetMedianTimePast m q = Some s -> s <= t).
Proof.
  intros [Hm _]%reachable_ok Hp m. destruct (mtp_total m Hm p b Hp) as (t & Ht & Hv).
  exists t. split_and!; [done | done | ]. intros Hok q k s Hq Hs.
  unfold ancestor in Hq. unfold m in Hq. rewrite Hp in Hq. cbn [mbind option_bind] in Hq.
  destruct (_ && _); [ | done]. by eapply (mtp_up m Hm).
Qed.

Lemma median_time_past_witness :
  let m := mapBlockIndex (sample_state 5) in
  exists t, GetMedianTimePast m (Block_GetHash toy_crypto (sample_header 4)) = Some t /\
    1000 <= t.
Proof.
  intros m. destruct (m !! Block_GetHash toy_crypto (sample_header 4)) as [b | ] eqn:E;
    [ | vm_compute in E; discriminate].
  destruct (median_time_past toy_crypto (sample_state 5) _ b (sample_reachable 5 (le_n 5)) E) as (t & Ht & Hv & _).
  exists t. split; [exact Ht | ]. apply Hv. vm_compute. lia.
Defined.
