(* ===== verification/Coins.v ===== *)
(** * The set of unspent outputs ([src/coins.h], [src/coins.cpp], [CCoinsViewDB] of
      [src/txdb.cpp])

    A view of the unspent outputs is an interface ([CoinsView]); what one view promises to another
    that is built on it are the laws of [CoinsViewLaws].  A [CCoinsViewCache] over any lawful
    view, and the database view at the bottom, are instances: so are caches over caches.

    Reading through a cache fills it, so the [const] methods return the view they leave behind.
    A base view is owned by the one cache on top of it.

    Theorems: a cache answers every sequence of operations as a plain map of unspent outputs
    would, and flushing it installs that map in its base; writing a batch into a cache never
    misapplies the FRESH flag; a crash in the middle of a database write is always detectable. *)

From S2P Require Import Prelude Serialize Script Interpreter Transaction Chain.
From stdpp Require Import gmap.
Open Scope Z_scope.

(** ** Definitions *)

(** *** Coins and cache entries *)

(** The bit fields are one, one and thirty bits wide. *)
Record Coin : Type := mk_Coin {
  out : CTxOut;
  fCoinBase : bool;
  fCoinStake : bool;
  coin_nHeight : Z }.
#[export] Instance Coin_eq_dec : EqDecision Coin.
Proof. solve_decision. Defined.

(** [Coin(const CTxOut&, int, bool, bool)]: the height is truncated to its thirty bits. *)
Definition Coin_new (outIn : CTxOut) (nHeightIn : Z) (fCoinBaseIn fCoinStakeIn : bool) : Coin :=
  mk_Coin outIn fCoinBaseIn fCoinStakeIn (nHeightIn mod 2 ^ 30).
(** [Coin()] and [Clear()] *)
Definition Coin_Clear : Coin := mk_Coin CTxOut_SetNull false false 0.
Definition IsSpent (c : Coin) : bool := CTxOut_IsNull (out c).

Definition DIRTY : Z := Z.shiftl 1 0.
Definition FRESH : Z := Z.shiftl 1 1.

Record CCoinsCacheEntry : Type := mk_entry { coin : Coin; flags : Z }.

Definition is_dirty (e : CCoinsCacheEntry) : bool := negb (Z.land (flags e) DIRTY =? 0).
Definition is_fresh (e : CCoinsCacheEntry) : bool := negb (Z.land (flags e) FRESH =? 0).

Abbreviation CCoinsMap := (gmap COutPoint CCoinsCacheEntry).

(** *** Views *)

(** [GetCoin] is [None] where the method returns false.  [BatchWrite] is [None] where it throws or
    an assertion fails; it empties the map it is given. *)
Class CoinsView (V : Type) : Type := {
  view_GetCoin : V -> COutPoint -> option Coin * V;
  view_GetBestBlock : V -> uint256 * V;
  view_BatchWrite : V -> CCoinsMap -> uint256 -> option (bool * V) }.

Record CCoinsViewCache (B : Type) : Type := mk_cache {
  base : B;
  hashBlock : uint256;
  cacheCoins : CCoinsMap;
  cachedCoinsUsage : Z }.
Arguments mk_cache {B} _ _ _ _.
Arguments base {B} _.
Arguments hashBlock {B} _.
Arguments cacheCoins {B} _.
Arguments cachedCoinsUsage {B} _.

Section Cache.
Context {B : Type} `{CoinsView B}.
(** [Coin::DynamicMemoryUsage]: what the allocator gave the script of a coin *)
Context (DynamicMemoryUsage : Coin -> Z).

Abbreviation cache := (CCoinsViewCache B).

(** A cache on top of [baseIn] *)
Definition cache_new (baseIn : B) : cache := mk_cache baseIn uint256_SetNull ∅ 0.

(** The entries and the usage replaced *)
Definition with_coins (c : cache) (m : CCoinsMap) (usage : Z) : cache :=
  mk_cache (base c) (hashBlock c) m (u64 usage).

(** [None] is [cacheCoins.end()]. *)
Definition FetchCoin (c : cache) (outpoint : COutPoint) : option CCoinsCacheEntry * cache :=
  match cacheCoins c !! outpoint with
  | Some e => (Some e, c)
  | None =>
      let '(tmp, base') := view_GetCoin (base c) outpoint in
      let c := mk_cache base' (hashBlock c) (cacheCoins c) (cachedCoinsUsage c) in
      match tmp with
      | None => (None, c)
      | Some tmp =>
          let e := mk_entry tmp (if IsSpent tmp then FRESH else 0) in
          (Some e, with_coins c (<[outpoint := e]> (cacheCoins c))
                     (cachedCoinsUsage c + DynamicMemoryUsage tmp))
      end
  end.

Definition GetCoin (c : cache) (outpoint : COutPoint) : option Coin * cache :=
  match FetchCoin c outpoint with
  | (Some e, c) => (if IsSpent (coin e) then None else Some (coin e), c)
  | (None, c) => (None, c)
  end.

(** [None]: the assertion fails or the logic error is thrown.  The new entry of [emplace] holds a
    default coin, which is spent. *)
Definition AddCoin (c : cache) (outpoint : COutPoint) (coin_ : Coin) (possible_overwrite : bool)
  : option cache :=
  if IsSpent coin_ then None
  else if IsUnspendable (scriptPubKey (out coin_)) then Some c
  else
    let '(e, usage) :=
      match cacheCoins c !! outpoint with
      | Some e => (e, u64 (cachedCoinsUsage c - DynamicMemoryUsage (coin e)))
      | None => (mk_entry Coin_Clear 0, cachedCoinsUsage c)
      end in
    if negb possible_overwrite && negb (IsSpent (coin e)) then None
    else
      let fresh := negb possible_overwrite && negb (is_dirty e) in
      let flags' := Z.lor (flags e) (Z.lor DIRTY (if fresh then FRESH else 0)) in
      Some (with_coins c (<[outpoint := mk_entry coin_ flags']> (cacheCoins c))
              (usage + DynamicMemoryUsage coin_)).

(** The value returned, what [moveout] receives, and the cache *)
Definition SpendCoin (c : cache) (outpoint : COutPoint) : bool * option Coin * cache :=
  match FetchCoin c outpoint with
  | (None, c) => (false, None, c)
  | (Some e, c) =>
      let usage := cachedCoinsUsage c - DynamicMemoryUsage (coin e) in
      let m := if is_fresh e then delete outpoint (cacheCoins c)
               else <[outpoint := mk_entry Coin_Clear (Z.lor (flags e) DIRTY)]> (cacheCoins c) in
      (true, Some (coin e), with_coins c m usage)
  end.

Definition AccessCoin (c : cache) (outpoint : COutPoint) : Coin * cache :=
  match FetchCoin c outpoint with
  | (None, c) => (Coin_Clear, c)
  | (Some e, c) => (coin e, c)
  end.

Definition HaveCoin (c : cache) (outpoint : COutPoint) : bool * cache :=
  match FetchCoin c outpoint with
  | (Some e, c) => (negb (IsSpent (coin e)), c)
  | (None, c) => (false, c)
  end.

Definition HaveCoinInCache (c : cache) (outpoint : COutPoint) : bool :=
  match cacheCoins c !! outpoint with
  | Some e => negb (IsSpent (coin e))
  | None => false
  end.

Definition GetBestBlock (c : cache) : uint256 * cache :=
  if base_blob_IsNull (hashBlock c) then
    let '(h, base') := view_GetBestBlock (base c) in
    (h, mk_cache base' h (cacheCoins c) (cachedCoinsUsage c))
  else (hashBlock c, c).

Definition SetBestBlock (c : cache) (hashBlockIn : uint256) : cache :=
  mk_cache (base c) hashBlockIn (cacheCoins c) (cachedCoinsUsage c).

(** The body of the loop of [BatchWrite], for one entry of the child *)
Definition BatchWrite_entry (c : cache) (outpoint : COutPoint) (it : CCoinsCacheEntry) : option cache :=
  if negb (is_dirty it) then Some c
  else match cacheCoins c !! outpoint with
  | None =>
      if negb (is_fresh it && IsSpent (coin it)) then
        Some (with_coins c
                (<[outpoint := mk_entry (coin it) (if is_fresh it then Z.lor DIRTY FRESH else DIRTY)]> (cacheCoins c))
                (cachedCoinsUsage c + DynamicMemoryUsage (coin it)))
      else Some c
  | Some itUs =>
      if is_fresh it && negb (IsSpent (coin itUs)) then None
      else if is_fresh itUs && IsSpent (coin it) then
        Some (with_coins c (delete outpoint (cacheCoins c))
                (cachedCoinsUsage c - DynamicMemoryUsage (coin itUs)))
      else
        Some (with_coins c (<[outpoint := mk_entry (coin it) (Z.lor (flags itUs) DIRTY)]> (cacheCoins c))
                (u64 (cachedCoinsUsage c - DynamicMemoryUsage (coin itUs)) + DynamicMemoryUsage (coin it)))
  end.

(** The loop, over the entries in the order of the hash map *)
Fixpoint BatchWrite_loop (c : cache) (entries : list (COutPoint * CCoinsCacheEntry)) : option cache :=
  match entries with
  | [] => Some c
  | (o, it) :: entries => c ← BatchWrite_entry c o it; BatchWrite_loop c entries
  end.

Definition BatchWrite (c : cache) (mapCoins : CCoinsMap) (hashBlockIn : uint256) : option (bool * cache) :=
  c ← BatchWrite_loop c (map_to_list mapCoins);
  Some (true, SetBestBlock c hashBlockIn).

Definition Flush (c : cache) : option (bool * cache) :=
  '(fOk, base') ← view_BatchWrite (base c) (cacheCoins c) (hashBlock c);
  Some (fOk, mk_cache base' (hashBlock c) ∅ 0).

Definition Uncache (c : cache) (hash : COutPoint) : cache :=
  match cacheCoins c !! hash with
  | Some e => if flags e =? 0
              then with_coins c (delete hash (cacheCoins c)) (cachedCoinsUsage c - DynamicMemoryUsage (coin e))
              else c
  | None => c
  end.

Definition GetCacheSize (c : cache) : Z := u32 (Z.of_nat (size (cacheCoins c))).

(** *** Transactions through a cache *)

Fixpoint AddCoins_loop (c : cache) (txid : uint256) (i : Z) (vout : list CTxOut) (nHeight : Z)
  (fCoinbase fCoinstake check : bool) : option cache :=
  match vout with
  | [] => Some c
  | o :: vout =>
      let outpoint := mk_COutPoint txid (u32 i) in
      let '(overwrite, c) := if check then HaveCoin c outpoint else (fCoinbase, c) in
      c ← AddCoin c outpoint (Coin_new o nHeight fCoinbase fCoinstake) overwrite;
      AddCoins_loop c txid (i + 1) vout nHeight fCoinbase fCoinstake check
  end.

Definition AddCoins (c : cache) (tx : CTransaction) (nHeight : Z) (check : bool) : option cache :=
  AddCoins_loop c (GetHash tx) 0 (vout tx) nHeight (IsCoinBase tx) (IsCoinStake tx) check.

(** The running sum is an [int64_t]. *)
Fixpoint GetValueIn_loop (c : cache) (vin : list CTxIn) (nResult : CAmount) : CAmount * cache :=
  match vin with
  | [] => (nResult, c)
  | i :: vin =>
      let '(k, c) := AccessCoin c (prevout i) in
      GetValueIn_loop c vin (i64 (nResult + nValue (out k)))
  end.
Definition GetValueIn (c : cache) (tx : CTransaction) : CAmount * cache :=
  if IsCoinBase tx then (0, c) else GetValueIn_loop c (vin tx) 0.

Definition GetOutputFor (c : cache) (input : CTxIn) : CTxOut * cache :=
  let '(k, c) := AccessCoin c (prevout input) in (out k, c).

Fixpoint HaveInputs_loop (c : cache) (vin : list CTxIn) : bool * cache :=
  match vin with
  | [] => (true, c)
  | i :: vin =>
      let '(b, c) := HaveCoin c (prevout i) in
      if negb b then (false, c) else HaveInputs_loop c vin
  end.
Definition HaveInputs (c : cache) (tx : CTransaction) : bool * cache :=
  if negb (IsCoinBase tx) then HaveInputs_loop c (vin tx) else (true, c).

(** A cache is a view. *)
#[export] Instance cache_view : CoinsView (CCoinsViewCache B) := {
  view_GetCoin := GetCoin;
  view_GetBestBlock := GetBestBlock;
  view_BatchWrite := BatchWrite }.
End Cache.

(** *** The database view *)

(** The keys of the coin database this view uses: the coins, [DB_BEST_BLOCK], [DB_HEAD_BLOCKS] *)
Record CCoinsViewDB : Type := mk_db {
  db_coins : gmap COutPoint Coin;
  db_best : option uint256;
  db_heads : option (list uint256) }.

(** What a [CDBBatch] collects *)
Inductive db_op : Type :=
| EraseCoin (o : COutPoint)
| WriteCoin (o : COutPoint) (c : Coin)
| EraseBest
| WriteBest (h : uint256)
| EraseHeads
| WriteHeads (hs : list uint256).

Definition apply_op (db : CCoinsViewDB) (op : db_op) : CCoinsViewDB :=
  match op with
  | EraseCoin o => mk_db (delete o (db_coins db)) (db_best db) (db_heads db)
  | WriteCoin o c => mk_db (<[o := c]> (db_coins db)) (db_best db) (db_heads db)
  | EraseBest => mk_db (db_coins db) None (db_heads db)
  | WriteBest h => mk_db (db_coins db) (Some h) (db_heads db)
  | EraseHeads => mk_db (db_coins db) (db_best db) None
  | WriteHeads hs => mk_db (db_coins db) (db_best db) (Some hs)
  end.

(** [db.WriteBatch(batch)]: all of the batch or, if the process dies, nothing of it *)
Definition WriteBatch (db : CCoinsViewDB) (batch : list db_op) : CCoinsViewDB := foldl apply_op db batch.

Definition db_GetBestBlock (db : CCoinsViewDB) : uint256 := default uint256_SetNull (db_best db).
Definition db_GetHeadBlocks (db : CCoinsViewDB) : list uint256 := default [] (db_heads db).

(** The loop over [mapCoins]: [full batch] is [batch.SizeEstimate() > batch_size]. *)
Fixpoint db_batches (full : list db_op -> bool) (batch : list db_op)
  (entries : list (COutPoint * CCoinsCacheEntry)) (closing : list db_op) : list (list db_op) :=
  match entries with
  | [] => [batch ++ closing]
  | (o, e) :: entries =>
      let batch :=
        if is_dirty e
        then batch ++ [if IsSpent (coin e) then EraseCoin o else WriteCoin o (coin e)]
        else batch in
      if full batch then batch :: db_batches full [] entries closing
      else db_batches full batch entries closing
  end.

(** The batches [BatchWrite] writes one after the other; [None]: an assertion fails. *)
Definition db_plan (full : list db_op -> bool) (db : CCoinsViewDB) (mapCoins : CCoinsMap)
  (hashBlock : uint256) : option (list (list db_op)) :=
  if base_blob_IsNull hashBlock then None
  else
    old_tip ←
      (if base_blob_IsNull (db_GetBestBlock db) then
         match db_GetHeadBlocks db with
         | [new; old] => if base_blob_eq new hashBlock then Some old else None
         | _ => Some (db_GetBestBlock db)
         end
       else Some (db_GetBestBlock db));
    Some (db_batches full [EraseBest; WriteHeads [hashBlock; old_tip]] (map_to_list mapCoins)
            [EraseHeads; WriteBest hashBlock]).

Definition db_BatchWrite (full : list db_op -> bool) (db : CCoinsViewDB) (mapCoins : CCoinsMap)
  (hashBlock : uint256) : option (bool * CCoinsViewDB) :=
  plan ← db_plan full db mapCoins hashBlock;
  Some (true, foldl WriteBatch db plan).

(** A database with its batch size *)
Record DBView : Type := mk_DBView { dbv : CCoinsViewDB; dbv_full : list db_op -> bool }.
#[export] Instance db_view : CoinsView DBView := {
  view_GetCoin := fun v o => (db_coins (dbv v) !! o, v);
  view_GetBestBlock := fun v => (db_GetBestBlock (dbv v), v);
  view_BatchWrite := fun v m h =>
    '(b, db) ← db_BatchWrite (dbv_full v) (dbv v) m h; Some (b, mk_DBView db (dbv_full v)) }.

(** ** Theorems *)

(** *** What a view promises *)

Definition unspent (c : Coin) : option Coin := if IsSpent c then None else Some c.

(** The unspent outputs after a batch: its dirty entries replace what was there. *)
Definition apply_batch (m : CCoinsMap) (old : COutPoint -> option Coin) (o : COutPoint) : option Coin :=
  match m !! o with
  | Some e => if is_dirty e then unspent (coin e) else old o
  | None => old o
  end.

(** FRESH is only set where the view below has no unspent output. *)
Definition fresh_ok (old : COutPoint -> option Coin) (m : CCoinsMap) : Prop :=
  map_Forall (fun o e => is_fresh e = true -> old o = None) m.

Class CoinsViewLaws (V : Type) `{CoinsView V} : Type := {
  valid : V -> Prop;
  contents : V -> COutPoint -> option Coin;
  best : V -> uint256;
  law_unspent : forall v o c, valid v -> contents v o = Some c -> IsSpent c = false;
  law_GetCoin : forall v o, valid v ->
    fst (view_GetCoin v o) = contents v o /\ valid (snd (view_GetCoin v o)) /\
    (forall o', contents (snd (view_GetCoin v o)) o' = contents v o') /\
    best (snd (view_GetCoin v o)) = best v;
  law_GetBestBlock : forall v, valid v ->
    fst (view_GetBestBlock v) = best v /\ valid (snd (view_GetBestBlock v)) /\
    (forall o, contents (snd (view_GetBestBlock v)) o = contents v o) /\
    best (snd (view_GetBestBlock v)) = best v;
  law_BatchWrite : forall v m h, valid v -> fresh_ok (contents v) m -> base_blob_IsNull h = false ->
    exists v', view_BatchWrite v m h = Some (true, v') /\ valid v' /\
      (forall o, contents v' o = apply_batch m (contents v) o) /\ best v' = h }.

(** *** Flags *)

Lemma lor_dirty f c : is_dirty (mk_entry c (Z.lor f DIRTY)) = true /\
  is_fresh (mk_entry c (Z.lor f DIRTY)) = is_fresh (mk_entry c f).
Proof.
  unfold is_dirty, is_fresh. cbn [flags]. rewrite !Z.land_lor_distr_l. split.
  - apply negb_true_iff, Z.eqb_neq. intros [_ E]%Z.lor_eq_0_iff. done.
  - change (Z.land DIRTY FRESH) with 0. by rewrite Z.lor_0_r.
Qed.

Lemma lor_fresh f c : is_dirty (mk_entry c (Z.lor f (Z.lor DIRTY FRESH))) = true /\
  is_fresh (mk_entry c (Z.lor f (Z.lor DIRTY FRESH))) = true.
Proof.
  unfold is_dirty, is_fresh. cbn [flags]. rewrite !Z.land_lor_distr_l.
  split; apply negb_true_iff, Z.eqb_neq; intros [_ E]%Z.lor_eq_0_iff; done.
Qed.

(** *** A cache over a lawful view *)

Section CacheLaws.
Context {B : Type} `{HB : CoinsViewLaws B} (usage : Coin -> Z).

(** An entry against what the base has: FRESH means nothing is there, and an entry that is not
    DIRTY agrees with it. *)
Definition entry_valid (old : option Coin) (e : CCoinsCacheEntry) : Prop :=
  (is_fresh e = true -> old = None) /\ (is_dirty e = false -> unspent (coin e) = old).

Definition valid_cache (c : CCoinsViewCache B) : Prop :=
  valid (base c) /\ map_Forall (fun o e => entry_valid (contents (base c) o) e) (cacheCoins c).
Definition contents_cache (c : CCoinsViewCache B) (o : COutPoint) : option Coin :=
  match cacheCoins c !! o with Some e => unspent (coin e) | None => contents (base c) o end.
Definition best_cache (c : CCoinsViewCache B) : uint256 :=
  if base_blob_IsNull (hashBlock c) then best (base c) else hashBlock c.

(** Two caches with the same meaning *)
Definition same_view (c c' : CCoinsViewCache B) : Prop :=
  valid_cache c' /\ (forall o, contents_cache c' o = contents_cache c o) /\ best_cache c' = best_cache c.

Lemma contents_insert c o e u o' :
  contents_cache (with_coins c (<[o := e]> (cacheCoins c)) u) o' =
  if decide (o' = o) then unspent (coin e) else contents_cache c o'.
Proof.
  unfold contents_cache. cbn [with_coins cacheCoins base]. destruct (decide (o' = o)) as [-> | Hne].
  - by rewrite lookup_insert_eq.
  - by rewrite lookup_insert_ne by congruence.
Qed.

Lemma contents_delete c o u o' : contents (base c) o = None ->
  contents_cache (with_coins c (delete o (cacheCoins c)) u) o' =
  if decide (o' = o) then None else contents_cache c o'.
Proof.
  intros Hb. unfold contents_cache. cbn [with_coins cacheCoins base]. destruct (decide (o' = o)) as [-> | Hne].
  - by rewrite lookup_delete_eq.
  - by rewrite lookup_delete_ne by congruence.
Qed.

Lemma valid_insert c o e u : valid_cache c -> entry_valid (contents (base c) o) e ->
  valid_cache (with_coins c (<[o := e]> (cacheCoins c)) u).
Proof. intros [Hb Hm] He. split; [done | ]. by apply map_Forall_insert_2. Qed.

Lemma valid_delete c o u : valid_cache c -> valid_cache (with_coins c (delete o (cacheCoins c)) u).
Proof. intros [Hb Hm]. split; [done | ]. by apply map_Forall_delete. Qed.

Lemma contents_cache_unspent c o k : valid_cache c -> contents_cache c o = Some k -> IsSpent k = false.
Proof.
  intros [Hb Hm]. unfold contents_cache. destruct (cacheCoins c !! o) as [e | ].
  - unfold unspent. destruct (IsSpent (coin e)) eqn:E; [done | ]. by intros [= <-].
  - by apply law_unspent.
Qed.

Lemma FetchCoin_spec c o : valid_cache c ->
  let '(r, c') := FetchCoin usage c o in
  same_view c c' /\ cacheCoins c' !! o = r /\
  contents_cache c o = (r ≫= fun e => unspent (coin e)) /\
  (forall e, r = Some e -> entry_valid (contents (base c') o) e).
Proof.
  intros Hv. destruct (Hv) as [Hb Hm]. unfold FetchCoin.
  destruct (cacheCoins c !! o) as [e | ] eqn:Eo.
  { split; [by split | ]. split; [done | ]. split; [unfold contents_cache; by rewrite Eo | ].
    intros e' [= <-]. by apply Hm. }
  destruct (law_GetCoin (base c) o Hb) as (Hr & Hb' & Hc' & Hbest).
  destruct (view_GetCoin (base c) o) as [r base']. cbn [fst snd] in *.
  set (c1 := mk_cache base' (hashBlock c) (cacheCoins c) (cachedCoinsUsage c)).
  assert (Hsame : same_view c c1).
  { split; [ | split].
    - split; [done | ]. intros o' e' He'. cbn [c1 base]. rewrite Hc'. by apply Hm.
    - intros o'. unfold contents_cache. cbn [c1 cacheCoins base]. by destruct (cacheCoins c !! o').
    - unfold best_cache. cbn [c1 hashBlock base]. by rewrite Hbest. }
  assert (Hco : contents_cache c o = r) by (unfold contents_cache; by rewrite Eo).
  destruct r as [tmp | ]; [ | done]. cbn [mbind option_bind].
  assert (Hsp : IsSpent tmp = false) by (by apply (contents_cache_unspent c o)).
  rewrite Hsp. destruct Hsame as (Hv1 & Hc1 & Hb1).
  assert (He : entry_valid (contents (base c1) o) (mk_entry tmp 0)).
  { split; [done | ]. intros _. unfold unspent. cbn [coin]. rewrite Hsp. cbn [c1 base]. by rewrite Hc'. }
  split; [split; [ | split] | ].
  - by apply valid_insert.
  - intros o'. rewrite contents_insert. destruct (decide (o' = o)) as [-> | ]; [ | done].
    unfold unspent. cbn [coin]. rewrite Hsp. done.
  - done.
  - split; [cbn [with_coins cacheCoins]; apply lookup_insert_eq | ].
    split; [unfold unspent; cbn [coin]; by rewrite Hsp | ]. by intros e [= <-].
Qed.

Lemma same_view_trans c1 c2 c3 : same_view c1 c2 -> same_view c2 c3 -> same_view c1 c3.
Proof. intros (_ & H1 & H2) (? & H3 & H4). split_and!; [done | | ]; intros; by rewrite ?H3, ?H4. Qed.

(** Reading: the answers are the contents, and the contents stay. *)
Lemma GetCoin_spec c o : valid_cache c ->
  fst (GetCoin usage c o) = contents_cache c o /\ same_view c (snd (GetCoin usage c o)).
Proof.
  intros Hv. pose proof (FetchCoin_spec c o Hv) as Hf. unfold GetCoin.
  destruct (FetchCoin usage c o) as [[e | ] c']; destruct Hf as (Hs & _ & -> & _); done.
Qed.

Lemma HaveCoin_spec c o : valid_cache c ->
  fst (HaveCoin usage c o) = bool_decide (is_Some (contents_cache c o)) /\
  same_view c (snd (HaveCoin usage c o)).
Proof.
  intros Hv. pose proof (FetchCoin_spec c o Hv) as Hf. unfold HaveCoin.
  destruct (FetchCoin usage c o) as [[e | ] c']; destruct Hf as (Hs & _ & -> & _); split; try done.
  simpl. unfold unspent. by destruct (IsSpent (coin e)).
Qed.

Lemma AccessCoin_spec c o : valid_cache c ->
  unspent (fst (AccessCoin usage c o)) = contents_cache c o /\ same_view c (snd (AccessCoin usage c o)).
Proof.
  intros Hv. pose proof (FetchCoin_spec c o Hv) as Hf. unfold AccessCoin.
  destruct (FetchCoin usage c o) as [[e | ] c']; destruct Hf as (Hs & _ & -> & _); done.
Qed.

Lemma GetBestBlock_spec c : valid_cache c ->
  fst (GetBestBlock c) = best_cache c /\ same_view c (snd (GetBestBlock c)).
Proof.
  intros Hv. destruct (Hv) as [Hb Hm]. unfold GetBestBlock, same_view, best_cache.
  destruct (base_blob_IsNull (hashBlock c)) eqn:En; [ | cbn [fst snd]; rewrite En; done].
  destruct (law_GetBestBlock (base c) Hb) as (Hr & Hb' & Hc' & Hbest).
  destruct (view_GetBestBlock (base c)) as [h base']. cbn [fst snd base hashBlock] in *. subst h.
  split_and!; [done | split; [done | ] | | ].
  - intros o e He. cbn [base]. rewrite Hc'. by apply Hm.
  - intros o. unfold contents_cache. cbn [cacheCoins base]. by destruct (cacheCoins c !! o).
  - by destruct (base_blob_IsNull (best (base c))).
Qed.

(** Writing.  [possible_overwrite] may be false only where there is no unspent output. *)
Lemma AddCoin_spec c o k ow : valid_cache c -> IsSpent k = false ->
  ow = true \/ contents_cache c o = None ->
  exists c', AddCoin usage c o k ow = Some c' /\ valid_cache c' /\ best_cache c' = best_cache c /\
    forall o', contents_cache c' o' =
      if decide (o' = o) then if IsUnspendable (scriptPubKey (out k)) then contents_cache c o else Some k
      else contents_cache c o'.
Proof.
  intros Hv Hk Hpre. destruct (Hv) as [Hb Hm]. unfold AddCoin. rewrite Hk.
  destruct (IsUnspendable _).
  { exists c. split_and!; try done. intros o'. by destruct (decide (o' = o)) as [-> | ]. }
  set (p := match cacheCoins c !! o with Some e => _ | None => _ end).
  assert (Hp : exists e u, p = (e, u) /\ (ow = false -> IsSpent (coin e) = true) /\
    (is_fresh e = true -> contents (base c) o = None) /\
    (ow = false -> is_dirty e = false -> contents (base c) o = None)).
  { unfold p, contents_cache in *. destruct (cacheCoins c !! o) as [e | ] eqn:Eo.
    - eexists e, _. split; [done | ]. destruct (Hm _ _ Eo) as [Hf Hd]. split_and!.
      + intros ->. destruct Hpre as [ | Hn]; [done | ]. unfold unspent in Hn. by destruct (IsSpent (coin e)).
      + done.
      + intros -> Hnd. rewrite <- Hd by done. by destruct Hpre.
    - eexists _, _. split; [done | ]. split_and!; [done | done | ]. intros -> _. by destruct Hpre. }
  destruct Hp as (e & u & -> & Hsp & Hf & Hd).
  assert (negb ow && negb (IsSpent (coin e)) = false) as ->.
  { destruct ow; [done | ]. by rewrite Hsp. }
  eexists. split; [reflexivity | ]. split; [ | split; [done | ]].
  - apply valid_insert; [done | ]. destruct (negb ow && negb (is_dirty e)) eqn:Efr.
    + destruct (lor_fresh (flags e) k) as [E1 E2]. apply andb_true_iff in Efr as [How Hnd].
      apply negb_true_iff in How, Hnd. split; [by auto | ]. rewrite E1. done.
    + rewrite Z.lor_0_r. destruct (lor_dirty (flags e) k) as [E1 E2].
      split; [rewrite E2; exact Hf | rewrite E1; done].
  - intros o'. rewrite contents_insert. unfold unspent. cbn [coin]. by rewrite Hk.
Qed.

Lemma AddCoin_throws c o k ow : AddCoin usage c o k ow = None ->
  IsSpent k = true \/ (ow = false /\ exists k', contents_cache c o = Some k').
Proof.
  unfold AddCoin, contents_cache, unspent. destruct (IsSpent k); [by left | ].
  destruct (IsUnspendable _); [done | ]. destruct (cacheCoins c !! o) as [e | ].
  - destruct ow; [done | ]. destruct (IsSpent (coin e)); [done | ]. right. eauto.
  - by destruct ow.
Qed.

Lemma SpendCoin_spec c o : valid_cache c ->
  let '(b, moveout, c') := SpendCoin usage c o in
  valid_cache c' /\ best_cache c' = best_cache c /\
  (forall o', contents_cache c' o' = if decide (o' = o) then None else contents_cache c o') /\
  (forall k, contents_cache c o = Some k -> b = true /\ moveout = Some k).
Proof.
  intros Hv. pose proof (FetchCoin_spec c o Hv) as Hf. unfold SpendCoin.
  destruct (FetchCoin usage c o) as [[e | ] c']; destruct Hf as ((Hv' & Hc' & Hb') & Ho & Hr & He).
  2: { split_and!; try done.
    - intros o'. rewrite Hc'. destruct (decide (o' = o)) as [-> | ]; [by rewrite Hr | done].
    - rewrite Hr. done. }
  assert (Hmv : forall k, contents_cache c o = Some k -> true = true /\ Some (coin e) = Some k).
  { intros k. rewrite Hr. simpl. unfold unspent. destruct (IsSpent (coin e)); [done | ].
    intros [= <-]. done. }
  destruct (He e eq_refl) as [Hfr Hd]. destruct (is_fresh e) eqn:Ef.
  - split_and!; [by apply valid_delete | done | | done].
    intros o'. rewrite contents_delete by auto. destruct (decide (o' = o)); [done | apply Hc'].
  - destruct (lor_dirty (flags e) Coin_Clear) as [E1 E2]. split_and!; [ | done | | done].
    + apply valid_insert; [done | ]. split; [ | by rewrite E1]. rewrite E2. intros E3.
      change (is_fresh e = true) in E3. congruence.
    + intros o'. rewrite contents_insert. destruct (decide (o' = o)); [done | apply Hc'].
Qed.

Lemma Uncache_spec c o : valid_cache c -> same_view c (Uncache usage c o).
Proof.
  intros Hv. destruct (Hv) as [Hb Hm]. unfold Uncache. destruct (cacheCoins c !! o) as [e | ] eqn:Eo; [ | by split].
  destruct (Z.eqb_spec (flags e) 0) as [E0 | ]; [ | by split].
  destruct (Hm _ _ Eo) as [_ Hd]. unfold is_dirty in Hd. rewrite E0 in Hd. specialize (Hd eq_refl).
  split_and!; [by apply valid_delete | | done].
  intros o'. unfold contents_cache. cbn [with_coins cacheCoins base]. destruct (decide (o' = o)) as [-> | ].
  - rewrite lookup_delete_eq, Eo. done.
  - by rewrite lookup_delete_ne by congruence.
Qed.

(** *** Batches *)

Lemma BatchWrite_entry_spec c o e : valid_cache c -> (is_fresh e = true -> contents_cache c o = None) ->
  exists c', BatchWrite_entry usage c o e = Some c' /\ valid_cache c' /\ hashBlock c' = hashBlock c /\
    forall o', contents_cache c' o' =
      if decide (o' = o) then if is_dirty e then unspent (coin e) else contents_cache c o
      else contents_cache c o'.
Proof.
  intros Hv Hfr. destruct (Hv) as [Hb Hm]. unfold BatchWrite_entry.
  destruct (is_dirty e) eqn:Ed; cbn [negb].
  2: { exists c. split_and!; try done. intros o'. by destruct (decide (o' = o)) as [-> | ]. }
  destruct (cacheCoins c !! o) as [us | ] eqn:Eo.
  - assert (Hus : contents_cache c o = unspent (coin us)) by (unfold contents_cache; by rewrite Eo).
    destruct (Hm _ _ Eo) as [Hf Hd].
    assert (is_fresh e && negb (IsSpent (coin us)) = false) as ->.
    { destruct (is_fresh e); [ | done]. rewrite Hus in Hfr. specialize (Hfr eq_refl).
      unfold unspent in Hfr. by destruct (IsSpent (coin us)). }
    destruct (is_fresh us && IsSpent (coin e)) eqn:Ef.
    + apply andb_true_iff in Ef as [Ef Es]. eexists. split; [reflexivity | ].
      split_and!; [by apply valid_delete | done | ]. intros o'. rewrite contents_delete by auto.
      destruct (decide (o' = o)); [ | done]. unfold unspent. by rewrite Es.
    + eexists. split; [reflexivity | ]. destruct (lor_dirty (flags us) (coin e)) as [E1 E2].
      split_and!; [apply valid_insert; [done | ] | done | ].
      * split; [rewrite E2; exact Hf | by rewrite E1].
      * intros o'. rewrite contents_insert. by destruct (decide (o' = o)).
  - assert (Hbase : contents_cache c o = contents (base c) o) by (unfold contents_cache; by rewrite Eo).
    destruct (is_fresh e && IsSpent (coin e)) eqn:Ef; cbn [negb].
    + apply andb_true_iff in Ef as [Ef Es]. exists c. split_and!; try done. intros o'.
      destruct (decide (o' = o)) as [-> | ]; [ | done]. rewrite Hfr by done. unfold unspent. by rewrite Es.
    + eexists. split; [reflexivity | ]. split_and!; [apply valid_insert; [done | ] | done | ].
      * rewrite <- Hbase. split; [ | by destruct (is_fresh e)]. by destruct (is_fresh e).
      * intros o'. rewrite contents_insert. by destruct (decide (o' = o)).
Qed.

Lemma BatchWrite_loop_spec l c : valid_cache c -> NoDup l.*1 ->
  (forall o e, (o, e) ∈ l -> is_fresh e = true -> contents_cache c o = None) ->
  exists c', BatchWrite_loop usage c l = Some c' /\ valid_cache c' /\
    forall o, contents_cache c' o = apply_batch (list_to_map l) (contents_cache c) o.
Proof.
  revert c. induction l as [ | [o e] l IH]; intros c Hv Hnd Hfr; simpl; [by exists c | ].
  apply NoDup_cons in Hnd as [Hni Hnd].
  destruct (BatchWrite_entry_spec c o e Hv) as (c1 & E1 & Hv1 & _ & Hc1).
  { apply Hfr. apply list_elem_of_here. }
  rewrite E1. cbn [mbind option_bind].
  destruct (IH c1 Hv1 Hnd) as (c2 & E2 & Hv2 & Hc2).
  { intros o' e' Hin Hf'. rewrite Hc1. destruct (decide (o' = o)) as [-> | ].
    - exfalso. apply Hni. apply list_elem_of_fmap. by exists (o, e').
    - apply (Hfr o' e'); [by apply list_elem_of_further | done]. }
  exists c2. split_and!; [done | done | ]. intros o'. rewrite Hc2. unfold apply_batch.
  destruct (decide (o' = o)) as [-> | Hne].
  - rewrite not_elem_of_list_to_map_1 by done. rewrite lookup_insert_eq, Hc1. by rewrite decide_True.
  - rewrite lookup_insert_ne by congruence. rewrite Hc1. by rewrite decide_False.
Qed.

Lemma BatchWrite_spec c m h : valid_cache c -> fresh_ok (contents_cache c) m -> base_blob_IsNull h = false ->
  exists c', BatchWrite usage c m h = Some (true, c') /\ valid_cache c' /\
    (forall o, contents_cache c' o = apply_batch m (contents_cache c) o) /\ best_cache c' = h.
Proof.
  intros Hv Hfr Hh. unfold BatchWrite.
  destruct (BatchWrite_loop_spec (map_to_list m) c Hv) as (c' & -> & Hv' & Hc').
  { apply NoDup_fst_map_to_list. }
  { intros o e Hin. apply elem_of_map_to_list in Hin. by apply Hfr. }
  rewrite list_to_map_to_list in Hc'. eexists. split; [reflexivity | ].
  split_and!; [done | done | ]. unfold best_cache. simpl. by rewrite Hh.
Qed.

(** A cache keeps the promises of a view, so caches can be stacked. *)
#[export] Instance cache_laws : CoinsViewLaws (H := cache_view usage) (CCoinsViewCache B) := {
  valid := valid_cache;
  contents := contents_cache;
  best := best_cache;
  law_unspent := contents_cache_unspent;
  law_GetCoin := GetCoin_spec;
  law_GetBestBlock := GetBestBlock_spec;
  law_BatchWrite := BatchWrite_spec }.

(** Flushing gives the base the contents of the cache. *)
Lemma Flush_spec c : valid_cache c -> base_blob_IsNull (hashBlock c) = false ->
  exists c', Flush c = Some (true, c') /\ valid_cache c' /\ cacheCoins c' = ∅ /\
    (forall o, contents (base c') o = contents_cache c o) /\ best (base c') = hashBlock c /\
    same_view c c'.
Proof.
  intros Hv Hh. destruct (Hv) as [Hb Hm]. unfold Flush.
  destruct (law_BatchWrite (base c) (cacheCoins c) (hashBlock c) Hb) as (b' & -> & Hb' & Hc' & Hbest);
    [ | done | ].
  { intros o e He. by destruct (Hm _ _ He). }
  assert (Hcon : forall o, contents b' o = contents_cache c o).
  { intros o. rewrite Hc'. unfold apply_batch, contents_cache.
    destruct (cacheCoins c !! o) as [e | ] eqn:Eo; [ | done]. destruct (Hm _ _ Eo) as [_ Hd].
    destruct (is_dirty e); [done | ]. symmetry. by apply Hd. }
  cbn [mbind option_bind]. eexists. split; [reflexivity | ]. cbn [base cacheCoins].
  assert (Hv' : valid_cache (mk_cache b' (hashBlock c) ∅ 0)).
  { split; [done | ]. intros o e. cbn [cacheCoins]. by rewrite lookup_empty. }
  split_and!; try done. split_and!; [done | | ].
  - intros o. unfold contents_cache at 1. cbn [cacheCoins base]. by rewrite lookup_empty.
  - unfold best_cache. cbn [hashBlock]. by rewrite Hh.
Qed.
End CacheLaws.

(** *** The database view *)

(** The operations on coins a map stands for *)
Definition entry_ops (l : list (COutPoint * CCoinsCacheEntry)) : list db_op :=
  flat_map (fun '(o, e) => if is_dirty e
    then [if IsSpent (coin e) then EraseCoin o else WriteCoin o (coin e)] else []) l.

Definition coin_op (op : db_op) : Prop :=
  match op with EraseCoin _ | WriteCoin _ _ => True | _ => False end.

Lemma WriteBatch_app db a b : WriteBatch db (a ++ b) = WriteBatch (WriteBatch db a) b.
Proof. apply foldl_app. Qed.

Lemma WriteBatches_concat plan db : foldl WriteBatch db plan = WriteBatch db (concat plan).
Proof.
  revert db. induction plan as [ | b plan IH]; intros db; [done | ]. simpl.
  by rewrite IH, WriteBatch_app.
Qed.

(** Coin operations leave the two markers alone. *)
Lemma coin_ops_markers ops db : Forall coin_op ops ->
  db_best (WriteBatch db ops) = db_best db /\ db_heads (WriteBatch db ops) = db_heads db.
Proof.
  intros H. revert db. induction H as [ | op ops Hop H IH]; intros db; [done | ].
  simpl. destruct (IH (apply_op db op)) as [-> ->]. by destruct op.
Qed.

Lemma entry_ops_coin l : Forall coin_op (entry_ops l).
Proof.
  induction l as [ | [o e] l IH]; [constructor | ]. simpl. apply Forall_app. split; [ | done].
  destruct (is_dirty e); [ | constructor]. repeat constructor. by destruct (IsSpent (coin e)).
Qed.

Lemma entry_ops_contents l db : NoDup l.*1 -> forall o,
  db_coins (WriteBatch db (entry_ops l)) !! o =
  apply_batch (list_to_map l) (fun o => db_coins db !! o) o.
Proof.
  revert db. induction l as [ | [p e] l IH]; intros db Hnd o; [done | ].
  apply NoDup_cons in Hnd as [Hni Hnd]. simpl entry_ops. rewrite WriteBatch_app, IH by done.
  unfold apply_batch. simpl list_to_map. destruct (decide (o = p)) as [-> | Hne].
  - rewrite not_elem_of_list_to_map_1, lookup_insert_eq by done. destruct (is_dirty e); [ | done].
    unfold unspent. simpl. destruct (IsSpent (coin e)); simpl; [apply lookup_delete_eq | apply lookup_insert_eq].
  - rewrite lookup_insert_ne by congruence. destruct (is_dirty e); [ | done]. simpl.
    destruct (IsSpent (coin e)); simpl.
    + by rewrite lookup_delete_ne by congruence.
    + by rewrite lookup_insert_ne by congruence.
Qed.

(** The batches before the last hold the opening operations, then coin operations only; the last
    one ends with the closing operations. *)
Lemma db_batches_shape full batch l closing :
  exists init lst, db_batches full batch l closing = init ++ [lst ++ closing] /\
    concat init ++ lst = batch ++ entry_ops l /\
    forall k, (0 < k <= length init)%nat -> exists ops, concat (take k init) = batch ++ ops /\ Forall coin_op ops.
Proof.
  revert batch. induction l as [ | [o e] l IH]; intros batch.
  { exists [], batch. split_and!; [done | by rewrite app_nil_r | ]. intros k Hk. simpl in Hk. lia. }
  simpl. set (op := if IsSpent (coin e) then EraseCoin o else WriteCoin o (coin e)).
  set (ops := if is_dirty e then [op] else []).
  assert (Hb : (if is_dirty e then batch ++ [op] else batch) = batch ++ ops).
  { unfold ops. by destruct (is_dirty e); rewrite ?app_nil_r. }
  assert (Hops : Forall coin_op ops).
  { unfold ops. destruct (is_dirty e); [ | constructor]. repeat constructor. unfold op. by destruct (IsSpent (coin e)). }
  rewrite Hb. destruct (full (batch ++ ops)).
  - destruct (IH []) as (init & lst & E & Hc & Hk). exists ((batch ++ ops) :: init), lst.
    rewrite E. split_and!; [done | | ].
    + simpl. rewrite <- app_assoc, Hc. simpl. by rewrite <- app_assoc.
    + intros k Hlt. destruct k as [ | k]; [lia | ]. simpl in Hlt |- *.
      destruct k as [ | k]; [exists ops; by rewrite take_0, app_nil_r | ].
      destruct (Hk (S k)) as (ops' & -> & Hf); [lia | ]. exists (ops ++ ops'). simpl.
      split; [by rewrite app_assoc | by apply Forall_app].
  - destruct (IH (batch ++ ops)) as (init & lst & E & Hc & Hk). exists init, lst.
    rewrite E. split_and!; [done | by rewrite Hc, <- app_assoc | ].
    intros k Hlt. destruct (Hk k Hlt) as (ops' & -> & Hf). exists (ops ++ ops').
    split; [by rewrite app_assoc | by apply Forall_app].
Qed.

(** A database between writes: no transition is marked, and only unspent coins are stored. *)
Definition valid_db (db : CCoinsViewDB) : Prop :=
  db_heads db = None /\ map_Forall (fun _ c => IsSpent c = false) (db_coins db).

Lemma db_plan_ok full db m h : valid_db db -> base_blob_IsNull h = false ->
  exists init lst, db_plan full db m h = Some (init ++ [lst ++ [EraseHeads; WriteBest h]]) /\
    concat init ++ lst = [EraseBest; WriteHeads [h; db_GetBestBlock db]] ++ entry_ops (map_to_list m) /\
    forall k, (0 < k <= length init)%nat -> exists ops,
      concat (take k init) = [EraseBest; WriteHeads [h; db_GetBestBlock db]] ++ ops /\ Forall coin_op ops.
Proof.
  intros [Hh _] Hn. unfold db_plan, db_GetHeadBlocks. rewrite Hn, Hh.
  change (default [] None) with (@nil uint256). cbv iota.
  rewrite Tauto.if_same. cbn [mbind option_bind].
  destruct (db_batches_shape full [EraseBest; WriteHeads [h; db_GetBestBlock db]] (map_to_list m)
    [EraseHeads; WriteBest h]) as (init & lst & -> & ? & ?). by exists init, lst.
Qed.

Lemma db_BatchWrite_spec full db m h : valid_db db -> base_blob_IsNull h = false ->
  exists db', db_BatchWrite full db m h = Some (true, db') /\ valid_db db' /\
    (forall o, db_coins db' !! o = apply_batch m (fun o => db_coins db !! o) o) /\ db_best db' = Some h.
Proof.
  intros Hv Hn. destruct (db_plan_ok full db m h Hv Hn) as (init & lst & E & Hc & _).
  unfold db_BatchWrite. rewrite E. cbn [mbind option_bind]. eexists. split; [reflexivity | ].
  rewrite WriteBatches_concat, concat_app. cbn [concat]. rewrite app_nil_r, app_assoc, Hc, !WriteBatch_app. set (db1 := WriteBatch db [EraseBest; _]).
  pose proof (entry_ops_contents (map_to_list m) db1 (NoDup_fst_map_to_list m)) as Hcon.
  rewrite list_to_map_to_list in Hcon. simpl. split_and!; [ | exact Hcon | done].
  split; [done | ]. simpl. intros o c. rewrite Hcon. unfold apply_batch. simpl.
  destruct (m !! o) as [e | ]; [ | by apply (proj2 Hv)].
  destruct (is_dirty e); [ | by apply (proj2 Hv)]. unfold unspent.
  destruct (IsSpent (coin e)) eqn:Es; [done | ]. by intros [= <-].
Qed.

#[export] Program Instance db_laws : CoinsViewLaws DBView := {
  valid v := valid_db (dbv v);
  contents v o := db_coins (dbv v) !! o;
  best v := db_GetBestBlock (dbv v) }.
Next Obligation. intros v o c [_ H]. apply H. Qed.
Next Obligation. done. Qed.
Next Obligation. done. Qed.
Next Obligation.
  intros v m h Hv _ Hn. destruct (db_BatchWrite_spec (dbv_full v) (dbv v) m h Hv Hn) as (db' & E & H1 & H2 & H3).
  exists (mk_DBView db' (dbv_full v)). simpl. rewrite E. split_and!; try done.
  unfold db_GetBestBlock. by rewrite H3.
Qed.

(** *** Sequences of operations *)

(** The operations of a cache, and what the caller sees of each *)
Inductive cache_op : Type :=
| OpGetCoin (o : COutPoint)
| OpHaveCoin (o : COutPoint)
| OpAccessCoin (o : COutPoint)
| OpAddCoin (o : COutPoint) (k : Coin) (possible_overwrite : bool)
| OpSpendCoin (o : COutPoint)
| OpUncache (o : COutPoint)
| OpGetBestBlock
| OpSetBestBlock (h : uint256).

Inductive answer : Type :=
| Found (r : option Coin)
| Have (b : bool)
| Hash (h : uint256)
| Nothing.

Definition run_op {B} `{CoinsView B} (usage : Coin -> Z) (op : cache_op) (c : CCoinsViewCache B)
  : option (answer * CCoinsViewCache B) :=
  match op with
  | OpGetCoin o => let '(r, c) := GetCoin usage c o in Some (Found r, c)
  | OpHaveCoin o => let '(b, c) := HaveCoin usage c o in Some (Have b, c)
  | OpAccessCoin o => let '(k, c) := AccessCoin usage c o in Some (Found (unspent k), c)
  | OpAddCoin o k ow => c ← AddCoin usage c o k ow; Some (Nothing, c)
  | OpSpendCoin o => let '(_, moveout, c) := SpendCoin usage c o in Some (Found (moveout ≫= unspent), c)
  | OpUncache o => Some (Nothing, Uncache usage c o)
  | OpGetBestBlock => let '(h, c) := GetBestBlock c in Some (Hash h, c)
  | OpSetBestBlock h => Some (Nothing, SetBestBlock c h)
  end.

(** The same operations on a plain map of unspent outputs with a best block.  [None] where the
    caller breaks the rules: adding a spent coin, overwriting an unspent one without saying so,
    setting a null best block. *)
Definition utxo : Type := (COutPoint -> option Coin) * uint256.

Definition spec_op (op : cache_op) (s : utxo) : option (answer * utxo) :=
  let '(u, b) := s in
  match op with
  | OpGetCoin o | OpAccessCoin o => Some (Found (u o), s)
  | OpHaveCoin o => Some (Have (bool_decide (is_Some (u o))), s)
  | OpAddCoin o k ow =>
      if IsSpent k || (negb ow && bool_decide (is_Some (u o))) then None
      else if IsUnspendable (scriptPubKey (out k)) then Some (Nothing, s)
      else Some (Nothing, (fun o' => if decide (o' = o) then Some k else u o', b))
  | OpSpendCoin o => Some (Found (u o), (fun o' => if decide (o' = o) then None else u o', b))
  | OpUncache _ => Some (Nothing, s)
  | OpGetBestBlock => Some (Hash b, s)
  | OpSetBestBlock h => if base_blob_IsNull h then None else Some (Nothing, (u, h))
  end.

Section Run.
Context {S : Type} (step : cache_op -> S -> option (answer * S)).
Fixpoint run (ops : list cache_op) (s : S) : option (list answer * S) :=
  match ops with
  | [] => Some ([], s)
  | op :: ops => '(a, s) ← step op s; '(l, s) ← run ops s; Some (a :: l, s)
  end.
End Run.

Section Refinement.
Context {B : Type} `{HB : CoinsViewLaws B} (usage : Coin -> Z).

(** The cache stands for the map. *)
Definition refines (c : CCoinsViewCache B) (s : utxo) : Prop :=
  valid_cache c /\ (forall o, contents_cache c o = fst s o) /\ best_cache c = snd s.

Lemma same_view_refines c c' s : refines c s -> same_view c c' -> refines c' s.
Proof.
  intros (_ & H1 & H2) (Hv & H3 & H4). split; [done | ]. split; [ | by rewrite H4].
  intros o. by rewrite H3.
Qed.

Lemma op_refines op c s a s' : refines c s -> spec_op op s = Some (a, s') ->
  exists c', run_op usage op c = Some (a, c') /\ refines c' s'.
Proof.
  intros Hr. destruct (Hr) as (Hv & Hc & Hb). destruct s as [u b]. cbn [fst snd] in *.
  destruct op as [o | o | o | o k ow | o | o | | h]; simpl.
  - destruct (GetCoin_spec usage c o Hv) as [Ha Hs]. destruct (GetCoin usage c o) as [r c'].
    intros [= <- <-]. exists c'. cbn [fst] in Ha. rewrite Ha, Hc. split; [done | ]. by eapply same_view_refines.
  - destruct (HaveCoin_spec usage c o Hv) as [Ha Hs]. destruct (HaveCoin usage c o) as [r c'].
    intros [= <- <-]. exists c'. cbn [fst] in Ha. rewrite Ha, Hc. split; [done | ]. by eapply same_view_refines.
  - destruct (AccessCoin_spec usage c o Hv) as [Ha Hs]. destruct (AccessCoin usage c o) as [r c'].
    intros [= <- <-]. exists c'. cbn [fst] in Ha. rewrite Ha, Hc. split; [done | ]. by eapply same_view_refines.
  - destruct (IsSpent k) eqn:Ek; [done | ]. cbn [orb]. destruct (negb ow && _) eqn:Eow; [done | ].
    destruct (AddCoin_spec usage c o k ow Hv Ek) as (c' & -> & Hv' & Hb' & Hc').
    { destruct ow; [by left | right]. rewrite Hc. apply bool_decide_eq_false in Eow. by apply eq_None_not_Some. }
    cbn [mbind option_bind]. destruct (IsUnspendable _); intros [= <- <-]; exists c'.
    + split; [done | ]. split_and!; [done | | by rewrite Hb'].
      intros o'. rewrite Hc'. destruct (decide (o' = o)) as [-> | ]; apply Hc.
    + split; [done | ]. split_and!; [done | | by rewrite Hb']. intros o'. simpl. rewrite Hc'.
      destruct (decide (o' = o)); [done | apply Hc].
  - pose proof (SpendCoin_spec usage c o Hv) as Hs. pose proof (FetchCoin_spec usage c o Hv) as Hf.
    unfold SpendCoin in *. destruct (FetchCoin usage c o) as [[e | ] c0] eqn:Ef.
    + destruct Hf as (_ & _ & Hf & _). destruct Hs as (Hv' & Hb' & Hc' & _). intros [= <- <-].
      eexists. split; [rewrite <- Hc, Hf; reflexivity | ]. split_and!; [done | | by rewrite Hb'].
      intros o'. simpl. rewrite Hc'. destruct (decide (o' = o)); [done | apply Hc].
    + destruct Hf as (_ & _ & Hf & _). destruct Hs as (Hv' & Hb' & Hc' & _). intros [= <- <-].
      eexists. split; [rewrite <- Hc, Hf; reflexivity | ]. split_and!; [done | | by rewrite Hb'].
      intros o'. simpl. rewrite Hc'. destruct (decide (o' = o)); [done | apply Hc].
  - intros [= <- <-]. eexists. split; [reflexivity | ]. eapply same_view_refines; [done | ]. by apply Uncache_spec.
  - destruct (GetBestBlock_spec c Hv) as [Ha Hs]. destruct (GetBestBlock c) as [r c'].
    intros [= <- <-]. exists c'. cbn [fst] in Ha. rewrite Ha, Hb. split; [done | ]. by eapply same_view_refines.
  - destruct (base_blob_IsNull h) eqn:Eh; [done | ]. intros [= <- <-]. eexists. split; [reflexivity | ].
    split_and!; [done | done | ]. unfold best_cache. simpl. by rewrite Eh.
Qed.

Lemma run_refines ops c s l s' : refines c s -> run spec_op ops s = Some (l, s') ->
  exists c', run (run_op usage) ops c = Some (l, c') /\ refines c' s'.
Proof.
  revert c s l. induction ops as [ | op ops IH]; intros c s l Hr; simpl.
  { intros [= <- <-]. by exists c. }
  destruct (spec_op op s) as [[a s1] | ] eqn:E1; [simpl | done].
  destruct (run spec_op ops s1) as [[l1 s2] | ] eqn:E2; [simpl | done]. intros [= <- <-].
  destruct (op_refines op c s a s1 Hr E1) as (c1 & -> & Hr1). simpl.
  destruct (IH c1 s1 l1 Hr1 E2) as (c2 & -> & Hr2). by exists c2.
Qed.
End Refinement.

(** (C3) A cache is transparent.  Over any lawful base, whatever mixture of reads, additions,
    spends, evictions and best-block updates the callers perform within the rules, the cache
    answers each exactly as a plain map of unspent outputs would; and flushing it then installs
    that map and best block in the base and leaves the cache empty. *)
Theorem coins_cache_refines {B} `{HB : CoinsViewLaws B} (usage : Coin -> Z) ops (c : CCoinsViewCache B) l u b :
  valid_cache c ->
  run spec_op ops (contents_cache c, best_cache c) = Some (l, (u, b)) ->
  exists c', run (run_op usage) ops c = Some (l, c') /\ refines c' (u, b) /\
    (base_blob_IsNull (hashBlock c') = false ->
     exists c'', Flush c' = Some (true, c'') /\ cacheCoins c'' = ∅ /\
       (forall o, contents (base c'') o = u o) /\ best (base c'') = b /\ refines c'' (u, b)).
Proof.
  intros Hv Hrun. destruct (run_refines usage ops c (contents_cache c, best_cache c) l (u, b) ltac:(split; [done | by split]) Hrun) as (c' & E & Hr).
  exists c'. split_and!; [done | done | ]. intros Hh. destruct (Hr) as (Hv' & Hc' & Hb').
  destruct (Flush_spec c' Hv' Hh) as (c'' & Ef & Hv'' & Hemp & Hcon & Hbest & Hsame).
  exists c''. split_and!; [done | done | | | by eapply same_view_refines].
  - intros o. by rewrite Hcon, Hc'.
  - rewrite Hbest. unfold best_cache in Hb'. by rewrite Hh in Hb'.
Qed.

(** A database with one coin, a cache over a cache over it *)
Definition sample_coin : Coin := Coin_new (mk_CTxOut (5 * COIN) [OP_TRUE]) 7 false false.
Definition sample_outpoint (n : Z) : COutPoint := mk_COutPoint (repeat 9 32) n.
Definition sample_db : DBView :=
  mk_DBView (mk_db {[sample_outpoint 0 := sample_coin]} (Some (repeat 1 32)) None)
    (fun batch => 1 <? vsize batch).
Definition no_usage (c : Coin) : Z := 0.
#[local] Instance sample_inner : CoinsView (CCoinsViewCache DBView) := cache_view no_usage.
Definition sample_stack : CCoinsViewCache (CCoinsViewCache DBView) := cache_new (cache_new sample_db).
Definition sample_ops : list cache_op :=
  [OpGetCoin (sample_outpoint 0); OpAddCoin (sample_outpoint 1) sample_coin false;
   OpSpendCoin (sample_outpoint 0); OpHaveCoin (sample_outpoint 0); OpSetBestBlock (repeat 2 32);
   OpGetCoin (sample_outpoint 1)].

Lemma sample_db_valid : valid_db (dbv sample_db).
Proof. split; [done | ]. by apply map_Forall_singleton. Qed.

Lemma sample_stack_valid : valid_cache (HB := cache_laws no_usage) sample_stack.
Proof.
  split; [ | intros o e; simpl; by rewrite lookup_empty].
  split; [apply sample_db_valid | intros o e; simpl; by rewrite lookup_empty].
Qed.

Lemma coins_cache_refines_witness :
  exists c', run (run_op no_usage) sample_ops sample_stack =
    Some ([Found (Some sample_coin); Nothing; Found (Some sample_coin); Have false; Nothing;
           Found (Some sample_coin)], c').
Proof.
  pose proof (coins_cache_refines (HB := cache_laws no_usage) no_usage sample_ops sample_stack) as H.
  destruct (run spec_op sample_ops (contents_cache (HB := cache_laws no_usage) sample_stack,
    best_cache (HB := cache_laws no_usage) sample_stack)) as [[l [u b]] | ] eqn:E;
    [ | vm_compute in E; discriminate].
  destruct (H l u b sample_stack_valid eq_refl) as (c' & Ec & _). exists c'.
  assert (l = [Found (Some sample_coin); Nothing; Found (Some sample_coin); Have false; Nothing;
    Found (Some sample_coin)]) as <-; [ | exact Ec].
  apply (f_equal (fmap fst)) in E. simpl in E. injection E as <-. vm_compute. reflexivity.
Defined.

(** (C26) A crash while coins are written is always detectable.  [BatchWrite] writes a sequence of
    atomic batches.  Stopped before the first, the database is unchanged; stopped anywhere
    before the last, it has no best block and its head blocks name the block being written and
    the one before; after the last, it has the new best block, no head blocks, and exactly the
    coins of the batch applied to the old ones. *)
Theorem db_write_crash_safe full db m h k :
  valid_db db -> base_blob_IsNull h = false ->
  exists plan, db_plan full db m h = Some plan /\
    let db' := foldl WriteBatch db (take k plan) in
    (k = 0%nat -> db' = db) /\
    ((0 < k < length plan)%nat -> db_best db' = None /\ db_heads db' = Some [h; db_GetBestBlock db]) /\
    ((length plan <= k)%nat -> db_best db' = Some h /\ db_heads db' = None /\
       forall o, db_coins db' !! o = apply_batch m (fun o => db_coins db !! o) o).
Proof.
  intros Hv Hn. destruct (db_plan_ok full db m h Hv Hn) as (init & lst & E & Hc & Hpre).
  eexists. split; [exact E | ]. cbv zeta. split_and!.
  - by intros ->.
  - rewrite length_app. simpl. intros Hk. rewrite take_app_le by lia. rewrite WriteBatches_concat.
    destruct (Hpre k) as (ops & -> & Hops); [lia | ]. rewrite WriteBatch_app.
    destruct (coin_ops_markers ops (WriteBatch db [EraseBest; WriteHeads [h; db_GetBestBlock db]]) Hops)
      as [-> ->]. done.
  - intros Hk. rewrite take_ge by done.
    destruct (db_BatchWrite_spec full db m h Hv Hn) as (db' & Ew & [Hh _] & Hcon & Hb).
    unfold db_BatchWrite in Ew. rewrite E in Ew. cbn [mbind option_bind] in Ew. injection Ew as ->. done.
Qed.

Lemma db_write_crash_safe_witness :
  exists plan, db_plan (fun batch => 1 <? vsize batch) (dbv sample_db)
      {[sample_outpoint 0 := mk_entry Coin_Clear DIRTY]} (repeat 2 32) = Some plan /\
    length plan = 2%nat /\ db_best (foldl WriteBatch (dbv sample_db) (take 1 plan)) = None.
Proof.
  destruct (db_write_crash_safe (fun batch => 1 <? vsize batch) (dbv sample_db)
    {[sample_outpoint 0 := mk_entry Coin_Clear DIRTY]} (repeat 2 32) 1 sample_db_valid)
    as (plan & E & _ & H & _).
  - reflexivity.
  - exists plan. split; [exact E | ]. assert (length plan = 2%nat) as El.
    { vm_compute in E. injection E as <-. reflexivity. }
    split; [exact El | ]. apply H. lia.
Defined.
