(* ===== verification/Pow.v ===== *)
(** * Difficulty and proofs ([src/consensus/params.h], [src/chainparams.cpp], [src/pow.cpp],
      [src/pos.cpp])

    The consensus parameters with the values of the three networks, the target the next block must
    meet, the check of a block hash against its target, and the stake kernel with its cache.

    Theorems: [CheckProofOfWork] accepts exactly the hashes not above a usable target within the
    limit; the next target is total, acceptable again, and is the exact exponential moving
    retarget rounded to the best compact word; a stake kernel found through the cache is
    one the check without the cache finds. *)

From S2P Require Import Prelude Serialize ArithUint256 Script Interpreter Transaction Block Chain Coins.
From stdpp Require Import gmap.
Open Scope Z_scope.

(** ** Definitions *)

(** *** Consensus parameters *)

Inductive DeploymentPos : Type := DEPLOYMENT_TESTDUMMY | DEPLOYMENT_CSV | DEPLOYMENT_SEGWIT.
#[export] Instance DeploymentPos_eq_dec : EqDecision DeploymentPos.
Proof. solve_decision. Defined.

Record BIP9Deployment : Type := mk_BIP9Deployment { bit : Z; nStartTime : Z; nTimeout : Z }.
Definition NO_TIMEOUT : Z := INT64_MAX.
Definition ALWAYS_ACTIVE : Z := -1.

(** [vDeployments] is a function of the position. *)
Record Params : Type := mk_Params {
  hashGenesisBlock : uint256;
  nSubsidyHalvingInterval : Z;
  BIP16Exception : uint256;
  BIP34Height : Z;
  BIP34Hash : uint256;
  BIP65Height : Z;
  BIP66Height : Z;
  nRuleChangeActivationThreshold : Z;
  nMinerConfirmationWindow : Z;
  vDeployments : DeploymentPos -> BIP9Deployment;
  powLimit : uint256;
  posLimit : uint256;
  fPowAllowMinDifficultyBlocks : bool;
  fPowNoRetargeting : bool;
  fPoSNoRetargeting : bool;
  nPowTargetSpacing : Z;
  nPowTargetTimespan : Z;
  nMinimumChainWork : uint256;
  defaultAssumeValid : uint256;
  nLastPOWBlock : Z;
  nFirstMPoSBlock : Z;
  nMPoSRewardRecipients : Z;
  nFixUTXOCacheHFHeight : Z }.

(** [None]: a division by zero *)
Definition DifficultyAdjustmentInterval (params : Params) : option Z :=
  if nPowTargetSpacing params =? 0 then None
  else Some (i64 (Z.quot (nPowTargetTimespan params) (nPowTargetSpacing params))).

(** [uint256S] of the hexadecimal literals below *)
Definition uint256S (z : Z) : uint256 := le_encode 32 z.

Definition COINBASE_MATURITY : Z := 500.

Definition CMainParams_deployments (d : DeploymentPos) : BIP9Deployment :=
  match d with
  | DEPLOYMENT_TESTDUMMY => mk_BIP9Deployment 28 1199145601 1230767999
  | DEPLOYMENT_CSV => mk_BIP9Deployment 0 0 999999999999
  | DEPLOYMENT_SEGWIT => mk_BIP9Deployment 1 0 999999999999
  end.

(** The main network.  The genesis hash is the one the constructor asserts; fields the constructor
    leaves out have the null value of their type. *)
Definition CMainParams : Params := {|
  hashGenesisBlock := uint256S 0x00002ec6a82bc47bfb3e13b3530503b3d6ee28eb20555634d227a9ea1572a92a;
  nSubsidyHalvingInterval := 985500;
  BIP16Exception := uint256S 0x000075aef83cf2853580f8ae8ce6f8c3096cfa21d98334d6e3f95e5582ed986c;
  BIP34Height := 0;
  BIP34Hash := uint256S 0x000075aef83cf2853580f8ae8ce6f8c3096cfa21d98334d6e3f95e5582ed986c;
  BIP65Height := 0;
  BIP66Height := 0;
  nRuleChangeActivationThreshold := 1916;
  nMinerConfirmationWindow := 2016;
  vDeployments := CMainParams_deployments;
  powLimit := uint256S 0x0000ffffffffffffffffffffffffffffffffffffffffffffffffffffffffffff;
  posLimit := uint256S 0x00000000ffffffffffffffffffffffffffffffffffffffffffffffffffffffff;
  fPowAllowMinDifficultyBlocks := false;
  fPowNoRetargeting := true;
  fPoSNoRetargeting := false;
  nPowTargetSpacing := 2 * 64;
  nPowTargetTimespan := 16 * 60;
  nMinimumChainWork := uint256_SetNull;
  defaultAssumeValid := uint256_SetNull;
  nLastPOWBlock := 5500;
  nFirstMPoSBlock := 5500 + 10 + COINBASE_MATURITY;
  nMPoSRewardRecipients := 10;
  nFixUTXOCacheHFHeight := 100000 |}.

(** *** Targets ([pow.cpp]) *)

Definition GetLimit (params : Params) (fProofOfStake : bool) : base_uint :=
  if fProofOfStake then UintToArith256 (posLimit params) else UintToArith256 (powLimit params).

Section Required.
Context (m : BlockMap).

(** [while (pindex && pindex->pprev && (pindex->IsProofOfStake() != fProofOfStake))] from an entry;
    one turn of fuel per block passed *)
Fixpoint GetLastBlockIndex (fuel : nat) (pindex : ptr) (fProofOfStake : bool) : option ptr :=
  b ← m !! pindex;
  match pprev b with
  | Some prev =>
      if negb (Bool.eqb (IsProofOfStake b) fProofOfStake) then
        match fuel with
        | O => None
        | S fuel => GetLastBlockIndex fuel prev fProofOfStake
        end
      else Some pindex
  | None => Some pindex
  end.

(** [while (pindex->pprev && pindex->nHeight % interval != 0 && pindex->nBits == nTargetLimit)] *)
Fixpoint skip_special (fuel : nat) (interval nTargetLimit : Z) (pindex : ptr) : option ptr :=
  b ← m !! pindex;
  match pprev b with
  | Some prev =>
      if interval =? 0 then None
      else if negb (Z.rem (nHeight b) interval =? 0) && (bi_nBits b =? nTargetLimit) then
        match fuel with
        | O => None
        | S fuel => skip_special fuel interval nTargetLimit prev
        end
      else Some pindex
  | None => Some pindex
  end.

(** [None]: a division by zero or a failed assertion of [GetCompact].  Multiplying by an [int64_t]
    selects the overload for [uint32_t]; the divisor is converted to a 256-bit number. *)
Definition CalculateNextWorkRequired (pindexLast : CBlockIndex) (nFirstBlockTime : Z)
  (params : Params) (fProofOfStake : bool) : option Z :=
  if (if fProofOfStake then fPoSNoRetargeting params else fPowNoRetargeting params)
  then Some (bi_nBits pindexLast)
  else
    let nTargetSpacing := nPowTargetSpacing params in
    let nActualSpacing := i64 (GetBlockTime pindexLast - nFirstBlockTime) in
    let nActualSpacing := if nActualSpacing <? 0 then nTargetSpacing else nActualSpacing in
    let nActualSpacing := if i64 (nTargetSpacing * 10) <? nActualSpacing then i64 (nTargetSpacing * 10)
                          else nActualSpacing in
    let bnTargetLimit := GetLimit params fProofOfStake in
    let '(bnNew, _, _) := SetCompact (bi_nBits pindexLast) in
    nInterval ← DifficultyAdjustmentInterval params;
    let bnNew := mul32 bnNew
      (u32 (i64 ((nInterval - 1) * nTargetSpacing + nActualSpacing + nActualSpacing))) in
    match udiv bnNew (of_u64 (u64 (i64 ((nInterval + 1) * nTargetSpacing)))) with
    | Err _ => None
    | Ok bnNew =>
        let bnNew := if ArithUint256.leb bnNew (of_u64 0) || ltb bnTargetLimit bnNew then bnTargetLimit else bnNew in
        GetCompact bnNew false
    end.

(** [GetNextWorkRequired] *)
Definition GetNextWorkRequired (pindexLast : option ptr) (pblock : CBlockHeader) (params : Params)
  (fProofOfStake : bool) : option Z :=
  nTargetLimit ← GetCompact (GetLimit params fProofOfStake) false;
  match pindexLast with
  | None => Some nTargetLimit
  | Some last =>
      blast ← m !! last;
      let fuel := Z.to_nat (nHeight blast) in
      pindexPrev ← GetLastBlockIndex fuel last fProofOfStake;
      bprev ← m !! pindexPrev;
      match pprev bprev with
      | None => Some nTargetLimit
      | Some before =>
          pindexPrevPrev ← GetLastBlockIndex fuel before fProofOfStake;
          bprevprev ← m !! pindexPrevPrev;
          match pprev bprevprev with
          | None => Some nTargetLimit
          | Some _ =>
              if fPowAllowMinDifficultyBlocks params then
                if i64 (GetBlockTime blast + i64 (nPowTargetSpacing params * 2)) <? header_GetBlockTime pblock
                then Some nTargetLimit
                else
                  interval ← DifficultyAdjustmentInterval params;
                  pindex ← skip_special fuel interval nTargetLimit last;
                  b ← m !! pindex;
                  Some (bi_nBits b)
              else CalculateNextWorkRequired bprev (GetBlockTime bprevprev) params fProofOfStake
          end
      end
  end.
End Required.

Definition CheckProofOfWork (hash : uint256) (nBits : Z) (params : Params) (fProofOfStake : bool) : bool :=
  let '(bnTarget, fNegative, fOverflow) := SetCompact nBits in
  if fNegative || EqualTo bnTarget 0 || fOverflow || ltb (GetLimit params fProofOfStake) bnTarget then false
  else if ltb bnTarget (UintToArith256 hash) then false
  else true.

(** *** Stake kernels ([pos.cpp]) *)

Definition STAKE_TIMESTAMP_MASK : Z := 15.
Record CStakeCache : Type := mk_CStakeCache { blockFromTime : Z; amount : CAmount }.

(** The value returned, [hashProofOfStake] and [targetProofOfStake]; the last two keep the values
    they had when the times are in the wrong order. *)
Definition CheckStakeKernelHash (C : Crypto) (pindexPrev : CBlockIndex) (nBits blockFromTime : Z)
  (prevoutValue : CAmount) (prevout : COutPoint) (nTimeBlock : Z)
  (hashProofOfStake targetProofOfStake : uint256) : bool * uint256 * uint256 :=
  if nTimeBlock <? blockFromTime then (false, hashProofOfStake, targetProofOfStake)
  else
    let '(bnTarget, _, _) := SetCompact nBits in
    let bnWeight := of_u64 (u64 prevoutValue) in
    let bnTarget := mul bnTarget bnWeight in
    let targetProofOfStake := ArithToUint256 bnTarget in
    let hashProofOfStake := Hash256 C
      (uint256_Serialize (nStakeModifier pindexPrev) ++ ser_writedata32 blockFromTime ++
       uint256_Serialize (outpoint_hash prevout) ++ ser_writedata32 (outpoint_n prevout) ++
       ser_writedata32 nTimeBlock) in
    (negb (ltb bnTarget (UintToArith256 hashProofOfStake)), hashProofOfStake, targetProofOfStake).

Definition CheckCoinStakeTimestamp (nTimeBlock : Z) : bool :=
  Z.land nTimeBlock STAKE_TIMESTAMP_MASK =? 0.

Section Kernel.
Context (C : Crypto) {B : Type} `{CoinsView B} (usage : Coin -> Z) (m : BlockMap).

(** The coin of the kernel and the block it is from, when it exists and is mature: the part
    [CheckKernel] and [CacheKernel] share.  The outer [None] is a dangling pointer. *)
Definition kernel_source (pindexPrev : ptr) (prevout : COutPoint) (view : CCoinsViewCache B)
  : option (option (Coin * CBlockIndex) * CCoinsViewCache B) :=
  bprev ← m !! pindexPrev;
  let '(coinPrev, view) := GetCoin usage view prevout in
  match coinPrev with
  | None => Some (None, view)
  | Some coinPrev =>
      if i32 (nHeight bprev + 1) - coin_nHeight coinPrev <? COINBASE_MATURITY then Some (None, view)
      else
        blockFrom ← GetAncestor m pindexPrev (coin_nHeight coinPrev);
        match blockFrom with
        | None => Some (None, view)
        | Some from => b ← m !! from; Some (Some (coinPrev, b), view)
        end
  end.

(** [CheckKernel] without a cache *)
Definition CheckKernel (pindexPrev : ptr) (nBits nTimeBlock : Z) (prevout : COutPoint)
  (view : CCoinsViewCache B) : option (bool * CCoinsViewCache B) :=
  '(src, view) ← kernel_source pindexPrev prevout view;
  match src with
  | None => Some (false, view)
  | Some (coinPrev, blockFrom) =>
      if IsSpent coinPrev then Some (false, view)
      else
        bprev ← m !! pindexPrev;
        Some (fst (fst (CheckStakeKernelHash C bprev nBits (bi_nTime blockFrom) (nValue (out coinPrev))
                          prevout nTimeBlock uint256_SetNull uint256_SetNull)), view)
  end.

(** [CheckKernel] with the cache *)
Definition CheckKernel_cached (pindexPrev : ptr) (nBits nTimeBlock : Z) (prevout : COutPoint)
  (view : CCoinsViewCache B) (cache : gmap COutPoint CStakeCache) : option (bool * CCoinsViewCache B) :=
  match cache !! prevout with
  | None => CheckKernel pindexPrev nBits nTimeBlock prevout view
  | Some stake =>
      bprev ← m !! pindexPrev;
      if fst (fst (CheckStakeKernelHash C bprev nBits (blockFromTime stake) (amount stake)
                     prevout nTimeBlock uint256_SetNull uint256_SetNull))
      then CheckKernel pindexPrev nBits nTimeBlock prevout view
      else Some (false, view)
  end.

Definition CacheKernel (cache : gmap COutPoint CStakeCache) (prevout : COutPoint) (pindexPrev : ptr)
  (view : CCoinsViewCache B) : option (gmap COutPoint CStakeCache * CCoinsViewCache B) :=
  match cache !! prevout with
  | Some _ => Some (cache, view)
  | None =>
      '(src, view) ← kernel_source pindexPrev prevout view;
      match src with
      | None => Some (cache, view)
      | Some (coinPrev, blockFrom) =>
          Some (<[prevout := mk_CStakeCache (bi_nTime blockFrom) (nValue (out coinPrev))]> cache, view)
      end
  end.
End Kernel.

(** ** Theorems *)

(** *** Proof of work *)

(** The limit of a kind of block, as a number *)
Definition limit (params : Params) (fProofOfStake : bool) : Z :=
  le_decode (if fProofOfStake then posLimit params else powLimit params).
Definition limits_ok (params : Params) : Prop := uint256_ok (posLimit params) /\ uint256_ok (powLimit params).

(** A compact target a block of that kind may have *)
Definition acceptable (params : Params) (fProofOfStake : bool) (nBits : Z) : Prop :=
  in_u 32 nBits /\ usable_target nBits = true /\ compact_value nBits <= limit params fProofOfStake.

Lemma GetLimit_spec params f : limits_ok params ->
  wf256 (GetLimit params f) /\ val (GetLimit params f) = limit params f.
Proof. intros [[Hs Ls] [Hw Lw]]. unfold GetLimit, limit. destruct f; by apply UintToArith256_spec. Qed.

Lemma usable_iff c : in_u 32 c -> usable_target c = true <->
  0 < compact_value c < 2 ^ 256 /\ Z.testbit c 23 = false.
Proof.
  intros Hc. pose proof (compact_value_nonneg c Hc). unfold usable_target.
  rewrite !andb_true_iff, !negb_true_iff, Z.eqb_neq, Z.ltb_lt. split.
  - intros [[? ?] ?]. split; [lia | done].
  - intros [? ?]. split; [split; [lia | done] | lia].
Qed.

(** A proof of work is accepted exactly when the compact target is positive, fits 256 bits, is
    not above the limit of its kind, and the hash read as a number is not above it. *)
Theorem CheckProofOfWork_exact hash nBits params f :
  limits_ok params -> uint256_ok hash -> in_u 32 nBits ->
  CheckProofOfWork hash nBits params f = true <->
  acceptable params f nBits /\ le_decode hash <= compact_value nBits.
Proof.
  intros Hl [Hh Lh] Hb. destruct (GetLimit_spec params f Hl) as [Hw Ev].
  destruct (UintToArith256_spec hash Hh Lh) as [Hwh Evh]. pose proof (compact_value_nonneg _ Hb).
  unfold acceptable. rewrite usable_iff by done.
  pose proof (SetCompact_aux _ Hb) as HS. unfold CheckProofOfWork.
  destruct (SetCompact nBits) as [[t neg_] ovf]. destruct HS as (Ht & Vt & -> & ->).
  rewrite EqualTo_spec, !(ltb_spec 8), Ev, Evh, Vt by (done || lia).
  set (V := compact_value nBits) in *. destruct (Z.leb_spec (2 ^ 256) V).
  { rewrite orb_true_r. simpl. split; [done | lia]. }
  rewrite Z.mod_small, orb_false_r by lia.
  destruct (Z.eqb_spec V 0); [rewrite orb_true_r; simpl; split; [done | lia] | ].
  destruct (Z.testbit nBits 23); [simpl; split; [done | by intros [(_ & [_ ?] & _) _]] | ].
  simpl. destruct (Z.ltb_spec (limit params f) V); [split; [done | lia] | ].
  destruct (Z.ltb_spec V (le_decode hash)); split; try done; lia.
Qed.

Lemma main_limits_ok : limits_ok CMainParams.
Proof.
  split; split; try (vm_compute; reflexivity); simpl posLimit; simpl powLimit; apply le_encode_bytes.
Qed.

Lemma CheckProofOfWork_exact_witness :
  CheckProofOfWork (hashGenesisBlock CMainParams) 0x1f00ffff CMainParams false = true /\
  le_decode (hashGenesisBlock CMainParams) <= compact_value 0x1f00ffff.
Proof.
  assert (CheckProofOfWork (hashGenesisBlock CMainParams) 0x1f00ffff CMainParams false = true) as E
    by (vm_compute; reflexivity).
  split; [exact E | ]. apply (CheckProofOfWork_exact _ _ CMainParams false) in E as [_ H]; [exact H | | | lia].
  - apply main_limits_ok.
  - split; [apply le_encode_bytes | vm_compute; reflexivity].
Defined.

(** *** The next target *)

(** The compact word that announces the largest representable number not above [X] *)
Definition best_compact (c X : Z) : Prop :=
  compact_value c <= X /\
  forall c', in_u 32 c' -> compact_value c' <= X -> compact_value c' <= compact_value c.

Lemma GetCompact_acceptable params f a : wf256 a -> 0 < val a <= limit params f ->
  exists c, GetCompact a false = Some c /\ acceptable params f c /\ best_compact c (val a).
Proof.
  intros Ha Hv. destruct (GetCompact_normal a false Ha) as (m & s & E & Hm & Hs & Hlo & Hhi).
  destruct (compact_word_value m s false Hm Hs) as (Hc & _ & Hsgn).
  pose proof (val_range256 _ Ha).
  destruct (compact_round_down (val a) m s false ltac:(lia) Hm Hs Hlo Hhi) as (Hle & _ & Hbest).
  set (c := compact_word m s false) in *. exists c. split; [done | ].
  assert (1 <= compact_value c) by (apply (Hbest 0x01010000); [lia | change (1 <= val a); lia]).
  split; [ | split; [lia | done]]. split; [done | ]. rewrite usable_iff by done.
  split; [split; [lia | done] | lia].
Qed.

(** The retarget rule on numbers: the spacing is clamped, the target moves by the ratio, and a
    result out of range is replaced by the limit. *)
Definition clamped_spacing (spacing actual : Z) : Z :=
  if actual <? 0 then spacing else Z.min actual (spacing * 10).
Definition retarget (params : Params) (f : bool) (target actual : Z) : Z :=
  let spacing := nPowTargetSpacing params in
  let interval := nPowTargetTimespan params / spacing in
  let t := target * ((interval - 1) * spacing + 2 * clamped_spacing spacing actual) /
           ((interval + 1) * spacing) in
  if (t =? 0) || (limit params f <? t) then limit params f else t.

Definition no_retargeting (params : Params) (f : bool) : bool :=
  if f then fPoSNoRetargeting params else fPowNoRetargeting params.

(** Parameters for which nothing overflows *)
Record params_ok (params : Params) (f : bool) : Prop := {
  po_limits : limits_ok params;
  po_limit : 0 < limit params f;
  po_spacing : 0 < nPowTargetSpacing params <= nPowTargetTimespan params;
  po_timespan : nPowTargetTimespan params + 19 * nPowTargetSpacing params < 2 ^ 32;
  po_product : no_retargeting params f = false ->
    limit params f * (nPowTargetTimespan params + 19 * nPowTargetSpacing params) < 2 ^ 256 }.

Section Retarget.
Context (params : Params) (f : bool) (Hp : params_ok params f).

Lemma interval_spec : exists n, DifficultyAdjustmentInterval params = Some n /\
  n = nPowTargetTimespan params / nPowTargetSpacing params /\ 1 <= n /\
  n * nPowTargetSpacing params <= nPowTargetTimespan params.
Proof.
  destruct Hp as [_ _ [H1 H2] H3 _]. set (s := nPowTargetSpacing params) in *.
  set (t := nPowTargetTimespan params) in *. unfold DifficultyAdjustmentInterval. fold s t.
  destruct (Z.eqb_spec s 0); [lia | ]. rewrite Z.quot_div_nonneg by lia.
  assert (1 <= t / s) by (apply Z.div_le_lower_bound; lia). pose proof (Z.mul_div_le t s H1).
  exists (t / s). split; [f_equal; apply i64_id; nia | ]. split; [done | ]. lia.
Qed.

Lemma clamp_spec actual : - 2 ^ 63 <= actual < 2 ^ 63 ->
  let s := nPowTargetSpacing params in
  let a := if actual <? 0 then s else actual in
  (if i64 (s * 10) <? a then i64 (s * 10) else a) = clamped_spacing s actual /\
  0 <= clamped_spacing s actual <= 10 * s.
Proof.
  intros Ha s a. destruct Hp as [_ _ [H1 H2] H3 _]. fold s in H1, H2, H3.
  unfold clamped_spacing. rewrite i64_id by lia. subst a.
  destruct (Z.ltb_spec actual 0); [destruct (Z.ltb_spec (s * 10) s) | destruct (Z.ltb_spec (s * 10) actual)]; lia.
Qed.

Lemma CalculateNextWorkRequired_spec b first : no_retargeting params f = false ->
  acceptable params f (bi_nBits b) -> - 2 ^ 63 <= GetBlockTime b - first < 2 ^ 63 ->
  exists c, CalculateNextWorkRequired b first params f = Some c /\ acceptable params f c /\
    best_compact c (retarget params f (compact_value (bi_nBits b)) (GetBlockTime b - first)).
Proof.
  intros Hr (Hb & Hu & Hle) Ht. apply usable_iff in Hu as [Hv _]; [ | done].
  destruct interval_spec as (n & En & Dn & Hn1 & Hns). destruct (clamp_spec _ Ht) as [Ec Hc].
  destruct (Hp) as [Hl Hlim [H1 H2] H3 H4]. specialize (H4 Hr).
  destruct (GetLimit_spec params f Hl) as [Hw Vw].
  unfold CalculateNextWorkRequired. fold (no_retargeting params f). rewrite Hr.
  cbv zeta. rewrite (i64_id (GetBlockTime b - first)) by done. cbv zeta in Ec. rewrite Ec, En.
  pose proof (SetCompact_aux _ Hb) as HS. destruct (SetCompact (bi_nBits b)) as [[t neg_] ovf].
  destruct HS as (Ht' & Vt & _ & _). rewrite Z.mod_small in Vt by lia. cbn [mbind option_bind].
  unfold retarget. rewrite <- Dn. set (s := nPowTargetSpacing params) in *.
  set (a := clamped_spacing s (GetBlockTime b - first)) in *. set (V := compact_value (bi_nBits b)) in *.
  set (K := (n - 1) * s + 2 * a). assert (0 <= K <= nPowTargetTimespan params + 19 * s) by (unfold K; nia).
  replace ((n - 1) * s + a + a) with K by (unfold K; lia).
  rewrite (i64_id K), u32_id by lia.
  set (D := (n + 1) * s). assert (0 < D < 2 ^ 32) by (unfold D; nia).
  rewrite (i64_id D), u64_id by lia.
  destruct (mul32_spec t K Ht' ltac:(lia)) as [Hm Vm]. rewrite Vt, Z.mod_small in Vm by nia.
  destruct (of_u64_spec D) as [HD VD]; [lia | ]. pose proof (udiv_spec _ _ Hm HD) as Hq.
  destruct (udiv _ _) as [q | []]; [ | lia]. destruct Hq as (_ & Hq & Vq). rewrite Vm, VD in Vq.
  destruct (of_u64_spec 0) as [W0 V0]; [lia | ].
  rewrite (leb_spec 8), (ltb_spec 8), V0, Vw, Vq by done.
  assert (0 <= V * K / D) by (apply Z.div_pos; nia).
  replace (V * K / D <=? 0) with (V * K / D =? 0) by lia.
  destruct (_ || _) eqn:Eo.
  - rewrite <- Vw. apply GetCompact_acceptable; [done | lia].
  - apply orb_false_iff in Eo as [E1 E2]. rewrite <- Vq. apply GetCompact_acceptable; [done | lia].
Qed.
End Retarget.

(** The nearest block of a kind at or before [p]; the genesis block where there is none *)
Definition last_of_kind (m : BlockMap) (f : bool) (p q : ptr) : Prop :=
  exists n b, up m n p = Some q /\ m !! q = Some b /\
    (IsProofOfStake b = f \/ pprev b = None) /\
    forall k r c, (k < n)%nat -> up m k p = Some r -> m !! r = Some c -> IsProofOfStake c <> f.

Lemma GetLastBlockIndex_spec m fuel p b f : index_ok m -> m !! p = Some b -> nHeight b <= Z.of_nat fuel ->
  exists q, GetLastBlockIndex m fuel p f = Some q /\ last_of_kind m f p q.
Proof.
  intros Hm. revert p b. induction fuel as [ | fuel IH]; intros p b Hp Hf; simpl; rewrite Hp; cbn [mbind option_bind].
  all: destruct (pprev b) as [r | ] eqn:Er;
    [ | exists p; split; [done | ]; exists 0%nat, b; split_and!; [done | done | by right | lia]].
  all: destruct (prev_entry m Hm p b r Hp Er) as (c & Hc & Hh); pose proof (height_range m Hm _ _ Hc).
  1: lia.
  destruct (Bool.eqb_spec (IsProofOfStake b) f) as [Hk | Hk]; cbn [negb].
  - exists p. split; [done | ]. exists 0%nat, b. split_and!; [done | done | by left | lia].
  - destruct (IH r c Hc ltac:(lia)) as (q & Eq & n & d & Hup & Hd & Hkind & Hno). exists q. split; [done | ].
    exists (S n), d. rewrite (up_pprev m n p b r Hp Er). split_and!; [done | done | done | ].
    intros [ | k] s e Hlt Hs He.
    + simpl in Hs. injection Hs as <-. rewrite Hp in He. by injection He as <-.
    + rewrite (up_pprev m k p b r Hp Er) in Hs. apply (Hno k s e); [lia | done | done].
Qed.

Lemma skip_special_spec m fuel interval lim p b : index_ok m -> interval <> 0 -> m !! p = Some b ->
  nHeight b <= Z.of_nat fuel ->
  exists q c, skip_special m fuel interval lim p = Some q /\ m !! q = Some c.
Proof.
  intros Hm Hi. revert p b. induction fuel as [ | fuel IH]; intros p b Hp Hf; simpl; rewrite Hp; cbn [mbind option_bind].
  all: destruct (pprev b) as [r | ] eqn:Er; [ | by eauto].
  all: destruct (prev_entry m Hm p b r Hp Er) as (c & Hc & Hh); pose proof (height_range m Hm _ _ Hc).
  1: lia.
  destruct (Z.eqb_spec interval 0); [done | ]. destruct (_ && _); [ | by eauto].
  apply (IH r c Hc). lia.
Qed.

Lemma last_of_kind_height m f p b q : index_ok m -> m !! p = Some b -> last_of_kind m f p q ->
  exists c, m !! q = Some c /\ nHeight c <= nHeight b /\ (IsProofOfStake c = f \/ pprev c = None).
Proof.
  intros Hm Hp (n & c & Hup & Hc & Hk & _). destruct (up_height m Hm n p b q Hp Hup) as (c' & Hc' & E).
  rewrite Hc in Hc'. injection Hc' as <-. exists c. split; [done | split; [lia | done]].
Qed.

Lemma last_of_kind_first m f p q q' n n' b : up m n p = Some q -> m !! q = Some b ->
  (IsProofOfStake b = f \/ pprev b = None) -> up m n' p = Some q' ->
  (forall k r c, (k < n')%nat -> up m k p = Some r -> m !! r = Some c -> IsProofOfStake c <> f) ->
  (n' <= n)%nat.
Proof.
  intros Hup Hb Hk Hup' Hno. destruct (Nat.le_gt_cases n' n) as [ | Hlt]; [done | exfalso].
  destruct Hk as [Hk | Hk]; [by apply (Hno n q b) | ].
  replace n' with (n + S (n' - S n))%nat in Hup' by lia. rewrite up_add, Hup in Hup'.
  cbn [mbind option_bind up] in Hup'. rewrite Hb in Hup'. cbn [mbind option_bind] in Hup'. by rewrite Hk in Hup'.
Qed.

Lemma last_of_kind_unique m f p q q' : last_of_kind m f p q -> last_of_kind m f p q' -> q = q'.
Proof.
  intros (n & b & H1 & H2 & H3 & H4) (n' & b' & H1' & H2' & H3' & H4').
  assert (n' = n) as -> by (apply Nat.le_antisymm; eapply last_of_kind_first; eassumption). congruence.
Qed.

(** The targets of a tree that blocks of a kind may take over *)
Definition targets_ok (params : Params) (f : bool) (m : BlockMap) : Prop :=
  map_Forall (fun _ b => in_u 32 (bi_nTime b) /\
    (IsProofOfStake b = f \/ fPowAllowMinDifficultyBlocks params = true -> acceptable params f (bi_nBits b))) m.

Lemma GetNextWorkRequired_spec m params f p b header :
  index_ok m -> params_ok params f -> targets_ok params f m -> m !! p = Some b ->
  exists c, GetNextWorkRequired m (Some p) header params f = Some c /\ acceptable params f c /\
    (forall q bq q1 r br,
       last_of_kind m f p q -> m !! q = Some bq -> pprev bq = Some q1 ->
       last_of_kind m f q1 r -> m !! r = Some br -> pprev br <> None ->
       fPowAllowMinDifficultyBlocks params = false -> no_retargeting params f = false ->
       best_compact c (retarget params f (compact_value (bi_nBits bq)) (GetBlockTime bq - GetBlockTime br))).
Proof.
  intros Hm Hpar Ht Hp. destruct (Hpar) as [Hl Hlim [H1 H2] H3 _].
  destruct (GetLimit_spec params f Hl) as [Hw Vw]. pose proof (height_range m Hm _ _ Hp) as Hh.
  destruct (GetCompact_acceptable params f (GetLimit params f) Hw ltac:(lia)) as (lim & El & Hacc & _).
  unfold GetNextWorkRequired. rewrite El, Hp. cbn [mbind option_bind].
  set (fuel := Z.to_nat (nHeight b)).
  destruct (GetLastBlockIndex_spec m fuel p b f Hm Hp ltac:(unfold fuel; lia)) as (q & Eq & Hq).
  destruct (last_of_kind_height m f p b q Hm Hp Hq) as (bq & Hbq & Hhq & Hkq).
  rewrite Eq. cbn [mbind option_bind]. rewrite Hbq. cbn [mbind option_bind].
  destruct (pprev bq) as [q1 | ] eqn:Eq1.
  2: { exists lim. split_and!; [done | done | ]. intros q' bq' q1' r br Hq'.
       rewrite <- (last_of_kind_unique m f p q q' Hq Hq'). congruence. }
  destruct (prev_entry m Hm q bq q1 Hbq Eq1) as (b1 & Hb1 & Hh1).
  destruct (GetLastBlockIndex_spec m fuel q1 b1 f Hm Hb1 ltac:(unfold fuel; lia)) as (r & Er & Hr).
  destruct (last_of_kind_height m f q1 b1 r Hm Hb1 Hr) as (br & Hbr & Hhr & _).
  rewrite Er. cbn [mbind option_bind]. rewrite Hbr. cbn [mbind option_bind].
  assert (Hsame : forall q' bq' q1' r' br', last_of_kind m f p q' -> m !! q' = Some bq' ->
    pprev bq' = Some q1' -> last_of_kind m f q1' r' -> m !! r' = Some br' -> bq' = bq /\ br' = br).
  { intros q' bq' q1' r' br' Hq' Hbq' Hq1' Hr' Hbr'.
    rewrite <- (last_of_kind_unique m f p q q' Hq Hq') in Hbq'. assert (bq' = bq) as -> by congruence.
    assert (q1' = q1) as -> by congruence.
    rewrite <- (last_of_kind_unique m f q1 r r' Hr Hr') in Hbr'. by split; [ | congruence]. }
  destruct (pprev br) as [r1 | ] eqn:Er1.
  2: { exists lim. split_and!; [done | done | ]. intros q' bq' q1' r' br' A1 A2 A3 A4 A5 A6.
       destruct (Hsame q' bq' q1' r' br') as [_ ->]; congruence. }
  destruct (fPowAllowMinDifficultyBlocks params) eqn:Emin.
  { destruct (_ <? _); [exists lim; by split_and! | ].
    destruct (interval_spec params f Hpar) as (n & En & _ & Hn & _). rewrite En. cbn [mbind option_bind].
    destruct (skip_special_spec m fuel n lim p b Hm ltac:(lia) Hp ltac:(unfold fuel; lia)) as (s & bs & Es & Hs).
    rewrite Es. cbn [mbind option_bind]. rewrite Hs. exists (bi_nBits bs).
    split_and!; [done | | done]. destruct (Ht _ _ Hs) as [_ Hok]. apply Hok. by right. }
  destruct (Ht _ _ Hbq) as [Htq Hacq]. destruct (Ht _ _ Hbr) as [Htr _].
  assert (Hacq' : acceptable params f (bi_nBits bq))
    by (apply Hacq; left; destruct Hkq as [? | ?]; [done | congruence]).
  destruct (no_retargeting params f) eqn:Enr.
  { exists (bi_nBits bq). split_and!; [ | done | done]. unfold CalculateNextWorkRequired.
    fold (no_retargeting params f). by rewrite Enr. }
  assert (Hspan : - 2 ^ 63 <= GetBlockTime bq - GetBlockTime br < 2 ^ 63)
    by (unfold GetBlockTime; rewrite !i64_id by lia; lia).
  destruct (CalculateNextWorkRequired_spec params f Hpar bq (GetBlockTime br) Enr Hacq' Hspan) as (c & Ec & Hc & Hbest).
  exists c. split_and!; [done | done | ]. intros q' bq' q1' r' br' A1 A2 A3 A4 A5 _ _ _.
  by destruct (Hsame q' bq' q1' r' br') as [-> ->].
Qed.

(** (C19) The target of the next block.  On any block tree whose targets are acceptable, the computation
    returns (no walk runs out, nothing divides by zero, no assertion fails) a target that is
    acceptable again, so the property is kept along the chain; and with retargeting in force it is
    the best compact word for the target of the last block of that kind, moved by the clamped
    spacing to the one before it and capped at the limit. *)
Theorem next_target_correct m params f p b header :
  index_ok m -> params_ok params f -> targets_ok params f m -> m !! p = Some b ->
  exists c, GetNextWorkRequired m (Some p) header params f = Some c /\ acceptable params f c /\
    (forall q bq q1 r br,
       last_of_kind m f p q -> m !! q = Some bq -> pprev bq = Some q1 ->
       last_of_kind m f q1 r -> m !! r = Some br -> pprev br <> None ->
       fPowAllowMinDifficultyBlocks params = false -> no_retargeting params f = false ->
       best_compact c (retarget params f (compact_value (bi_nBits bq)) (GetBlockTime bq - GetBlockTime br))).
Proof. apply GetNextWorkRequired_spec. Qed.

(** The main network's parameters with proof-of-work retargeting switched on *)
Definition retargeting_params : Params :=
  let p := CMainParams in
  mk_Params (hashGenesisBlock p) (nSubsidyHalvingInterval p) (BIP16Exception p) (BIP34Height p) (BIP34Hash p)
    (BIP65Height p) (BIP66Height p) (nRuleChangeActivationThreshold p) (nMinerConfirmationWindow p)
    (vDeployments p) (powLimit p) (posLimit p) false false false (nPowTargetSpacing p)
    (nPowTargetTimespan p) (nMinimumChainWork p) (defaultAssumeValid p) (nLastPOWBlock p)
    (nFirstMPoSBlock p) (nMPoSRewardRecipients p) (nFixUTXOCacheHFHeight p).

Lemma retargeting_params_ok : params_ok retargeting_params false.
Proof.
  split; [exact main_limits_ok | reflexivity | split; [reflexivity | discriminate] | reflexivity | ].
  intros _. vm_compute. reflexivity.
Qed.

(** Both of the networks' own retargeting settings are covered. *)
Lemma main_params_ok f : params_ok CMainParams f.
Proof.
  split; [exact main_limits_ok | destruct f; reflexivity | split; [reflexivity | discriminate] | reflexivity | ].
  intros _. destruct f; vm_compute; reflexivity.
Qed.

Lemma sample_targets_ok : targets_ok retargeting_params false (mapBlockIndex (sample_state 5)).
Proof.
  unfold targets_ok, acceptable. apply (bool_decide_unpack _). vm_compute. exact I.
Qed.

Lemma next_target_correct_witness :
  let m := mapBlockIndex (sample_state 5) in
  let tip := Block_GetHash toy_crypto (sample_header 4) in
  exists c, GetNextWorkRequired m (Some tip) (sample_header 4) retargeting_params false = Some c /\
    acceptable retargeting_params false c.
Proof.
  intros m tip. destruct (m !! tip) as [b | ] eqn:E; [ | vm_compute in E; discriminate].
  destruct (next_target_correct m retargeting_params false tip b (sample_header 4)) as (c & Ec & Hc & _).
  - exact (proj1 (reachable_ok _ _ (sample_reachable 5 (le_n 5)))).
  - exact retargeting_params_ok.
  - exact sample_targets_ok.
  - exact E.
  - exists c. split; [exact Ec | exact Hc].
Defined.

(** *** Stake kernels *)

Lemma CheckStakeKernelHash_spec C prev nBits from value o t h0 t0 :
  (forall b, uint256_ok (Hash256 C b)) -> in_u 32 nBits ->
  let '(ok, h, target) := CheckStakeKernelHash C prev nBits from value o t h0 t0 in
  if t <? from then ok = false /\ h = h0 /\ target = t0
  else uint256_ok h /\ le_decode target = (compact_value nBits * u64 value) mod 2 ^ 256 /\
       ok = (le_decode h <=? le_decode target).
Proof.
  intros HC Hb. unfold CheckStakeKernelHash. destruct (t <? from); [done | ].
  pose proof (SetCompact_aux _ Hb) as HS. destruct (SetCompact nBits) as [[tg neg_] ovf].
  destruct HS as (Ht & Vt & _). pose proof (u64_range value).
  destruct (of_u64_spec (u64 value)) as [Hv Vv]; [done | ].
  destruct (mul_spec tg (of_u64 (u64 value)) Ht Hv) as [Hm Vm].
  set (h := Hash256 C _). destruct (HC (uint256_Serialize (nStakeModifier prev) ++ ser_writedata32 from ++
    uint256_Serialize (outpoint_hash o) ++ ser_writedata32 (outpoint_n o) ++ ser_writedata32 t)) as [Hh Lh].
  fold h in Hh, Lh. destruct (UintToArith256_spec h Hh Lh) as [Hwh Vh].
  assert (Et : le_decode (ArithToUint256 (mul tg (of_u64 (u64 value)))) = val (mul tg (of_u64 (u64 value)))).
  { unfold ArithToUint256. rewrite <- (uint_words_encode 8 (mul tg (of_u64 (u64 value))) Hm) at 2.
    destruct (uint_words_spec 8 (flat_map (le_encode 4) (mul tg (of_u64 (u64 value))))) as (_ & -> & _); [ | | done].
    - apply Forall_flat_map, Forall_true. intros x. apply le_encode_bytes.
    - destruct Hm as [Lm _]. clear -Lm. revert Lm. generalize (mul tg (of_u64 (u64 value))).
      intros l Hl. do 9 (destruct l as [ | ? l]; [done || (simpl in Hl; lia) | ]). simpl in Hl. lia. }
  split; [done | ]. rewrite Et, Vm, Vt, Vv. split; [by rewrite Zmult_mod_idemp_l | ].
  rewrite (ltb_spec 8), Vm, Vt, Vv, Vh by done. by rewrite Z.ltb_antisym, negb_involutive.
Qed.

Section KernelCache.
Context (C : Crypto) {B : Type} `{HB : CoinsViewLaws B} (usage : Coin -> Z) (m : BlockMap).
Context (Hm : index_ok m) (prev : ptr) (b : CBlockIndex) (Hprev : m !! prev = Some b).
Context (Hroom : nHeight b + 1 < 2 ^ 31).

(** The coin of a kernel and its block, from the contents of a view *)
Definition source_spec (u : COutPoint -> option Coin) (o : COutPoint) : option (Coin * CBlockIndex) :=
  c ← u o;
  if nHeight b + 1 - coin_nHeight c <? COINBASE_MATURITY then None
  else q ← ancestor m prev (coin_nHeight c); e ← m !! q; Some (c, e).

Lemma kernel_source_spec view o : valid_cache view ->
  exists view', kernel_source usage m prev o view = Some (source_spec (contents_cache view) o, view') /\
    same_view view view'.
Proof.
  intros Hv. unfold kernel_source, source_spec. rewrite Hprev. cbn [mbind option_bind].
  destruct (GetCoin_spec usage view o Hv) as [Ha Hs]. destruct (GetCoin usage view o) as [r view'].
  cbn [fst snd] in Ha, Hs. subst r. pose proof (height_range m Hm _ _ Hprev). rewrite i32_id by lia.
  destruct (contents_cache view o) as [c | ]; cbn [mbind option_bind]; [ | by exists view'].
  destruct (_ <? _); [by exists view' | ].
  rewrite (GetAncestor_spec m Hm prev b) by done. cbn [mbind option_bind].
  destruct (ancestor m prev (coin_nHeight c)) as [q | ] eqn:Eq; cbn [mbind option_bind]; [ | by exists view'].
  destruct (ancestor_inv m Hm prev b _ q Hprev Eq) as (_ & e & He & _). rewrite He.
  cbn [mbind option_bind]. by exists view'.
Qed.

(** The answer of [CheckKernel] from the contents of a view *)
Definition kernel_ok (u : COutPoint -> option Coin) (nBits t : Z) (o : COutPoint) : bool :=
  match source_spec u o with
  | None => false
  | Some (c, e) => fst (fst (CheckStakeKernelHash C b nBits (bi_nTime e) (nValue (out c)) o t
                               uint256_SetNull uint256_SetNull))
  end.

Lemma source_unspent view o c e : valid_cache view ->
  source_spec (contents_cache view) o = Some (c, e) -> IsSpent c = false.
Proof.
  intros Hv. unfold source_spec. destruct (contents_cache view o) as [c' | ] eqn:Ec; [ | done].
  cbn [mbind option_bind]. destruct (_ <? _); [done | ].
  destruct (ancestor m prev (coin_nHeight c')) as [q | ]; [ | done].
  cbn [mbind option_bind]. destruct (m !! q) as [e' | ]; [ | done]. cbn [mbind option_bind].
  intros E. injection E as -> _.
  by apply (contents_cache_unspent view o).
Qed.

Lemma CheckKernel_spec view nBits t o : valid_cache view ->
  exists view', CheckKernel C usage m prev nBits t o view = Some (kernel_ok (contents_cache view) nBits t o, view') /\
    same_view view view'.
Proof.
  intros Hv. unfold CheckKernel, kernel_ok. destruct (kernel_source_spec view o Hv) as (view' & E & Hs).
  rewrite E. cbn [mbind option_bind]. destruct (source_spec _ o) as [[c e] | ] eqn:Ec; [ | by exists view'].
  rewrite (source_unspent view o c e Hv Ec), Hprev. cbn [mbind option_bind]. by exists view'.
Qed.

(** The coins a staker caches one after the other *)
Fixpoint cache_all (cache : gmap COutPoint CStakeCache) (os : list COutPoint) (view : CCoinsViewCache B)
  : option (gmap COutPoint CStakeCache * CCoinsViewCache B) :=
  match os with
  | [] => Some (cache, view)
  | o :: os => '(cache, view) ← CacheKernel usage m cache o prev view; cache_all cache os view
  end.

Definition stakes_ok (u : COutPoint -> option Coin) (cache : gmap COutPoint CStakeCache) : Prop :=
  map_Forall (fun o s => exists c e, source_spec u o = Some (c, e) /\
    s = mk_CStakeCache (bi_nTime e) (nValue (out c))) cache.

Lemma source_spec_ext u u' o : (forall o, u' o = u o) -> source_spec u' o = source_spec u o.
Proof. intros Hu. unfold source_spec. by rewrite Hu. Qed.

Lemma cache_all_spec os cache view : valid_cache view -> stakes_ok (contents_cache view) cache ->
  exists cache' view', cache_all cache os view = Some (cache', view') /\ same_view view view' /\
    stakes_ok (contents_cache view) cache'.
Proof.
  revert cache view. induction os as [ | o os IH]; intros cache view Hv Hc; simpl.
  { exists cache, view. split_and!; [done | by split_and! | done]. }
  unfold CacheKernel. destruct (cache !! o) as [s | ] eqn:Eo; cbn [mbind option_bind]; [by apply IH | ].
  destruct (kernel_source_spec view o Hv) as (view1 & E1 & Hs1). rewrite E1. cbn [mbind option_bind].
  destruct Hs1 as (Hv1 & Hc1 & Hb1).
  assert (Hstep : forall cache1, stakes_ok (contents_cache view) cache1 ->
    exists cache' view', cache_all cache1 os view1 = Some (cache', view') /\ same_view view view' /\
      stakes_ok (contents_cache view) cache').
  { intros cache1 Hc1'. destruct (IH cache1 view1 Hv1) as (cache' & view' & E & Hs & Hc').
    - intros o' s' Hs'. destruct (Hc1' o' s' Hs') as (c & e & He & ->). exists c, e.
      by rewrite (source_spec_ext (contents_cache view)).
    - exists cache', view'. split_and!; [done | eapply same_view_trans; [by split_and! | done] | ].
      intros o' s' Hs'. destruct (Hc' o' s' Hs') as (c & e & He & ->). exists c, e.
      by rewrite <- (source_spec_ext _ (contents_cache view1)). }
  destruct (source_spec (contents_cache view) o) as [[c e] | ] eqn:Ec; cbn [mbind option_bind]; apply Hstep; [ | done].
  apply map_Forall_insert_2; [ | done]. by exists c, e.
Qed.

Lemma CheckKernel_cached_spec cache view nBits t o : valid_cache view -> stakes_ok (contents_cache view) cache ->
  exists view', CheckKernel_cached C usage m prev nBits t o view cache =
      Some (kernel_ok (contents_cache view) nBits t o, view') /\ same_view view view'.
Proof.
  intros Hv Hc. unfold CheckKernel_cached. destruct (cache !! o) as [s | ] eqn:Eo; [ | by apply CheckKernel_spec].
  rewrite Hprev. cbn [mbind option_bind]. destruct (Hc o s Eo) as (c & e & Es & ->). cbn [blockFromTime amount].
  destruct (fst (fst _)) eqn:Eh; [by apply CheckKernel_spec | ]. exists view.
  split; [ | by split_and!]. unfold kernel_ok. by rewrite Es, Eh.
Qed.
End KernelCache.

(** Stake kernels.  Checking a kernel is total on any valid view and tree; it accepts exactly when
    the coin is unspent and mature, the block is not older than the coin's, and the kernel hash is
    not above target times value modulo [2^256].  After any number of coins have been cached, the check through the
    cache gives the same answer; and whatever the cache holds, it never accepts what the check
    without it rejects. *)
Theorem stake_kernel_cache_transparent C {B} `{HB : CoinsViewLaws B} usage m prev b (view : CCoinsViewCache B) os nBits t o :
  index_ok m -> m !! prev = Some b -> nHeight b + 1 < 2 ^ 31 -> valid_cache view ->
  (forall x, uint256_ok (Hash256 C x)) -> in_u 32 nBits ->
  exists ok v0 cache view' v1,
    CheckKernel C usage m prev nBits t o view = Some (ok, v0) /\ same_view view v0 /\
    (ok = true <-> exists c e, source_spec m prev b (contents_cache view) o = Some (c, e) /\ bi_nTime e <= t /\
       le_decode (Hash256 C (uint256_Serialize (nStakeModifier b) ++ ser_writedata32 (bi_nTime e) ++
          uint256_Serialize (outpoint_hash o) ++ ser_writedata32 (outpoint_n o) ++ ser_writedata32 t)) <=
       (compact_value nBits * u64 (nValue (out c))) mod 2 ^ 256) /\
    cache_all usage m prev ∅ os view = Some (cache, view') /\
    CheckKernel_cached C usage m prev nBits t o view' cache = Some (ok, v1) /\ same_view view v1 /\
    (forall any v2, CheckKernel_cached C usage m prev nBits t o view any = Some (true, v2) -> ok = true).
Proof.
  intros Hm Hp Hr Hv HC Hb.
  destruct (CheckKernel_spec C usage m Hm prev b Hp Hr view nBits t o Hv) as (v0 & E0 & Hs0).
  destruct (cache_all_spec usage m Hm prev b Hp Hr os ∅ view Hv) as (cache & view' & Ec & Hs' & Hc').
  { apply map_Forall_empty. }
  destruct (Hs') as (Hv' & Hcon & _).
  assert (Hu : forall x, source_spec m prev b (contents_cache view') x = source_spec m prev b (contents_cache view) x)
    by (intros x; by apply source_spec_ext).
  destruct (CheckKernel_cached_spec C usage m Hm prev b Hp Hr cache view' nBits t o Hv') as (v1 & E1 & Hs1).
  { intros x s Hx. destruct (Hc' x s Hx) as (c & e & He & ->). exists c, e. by rewrite Hu. }
  exists (kernel_ok C m prev b (contents_cache view) nBits t o), v0, cache, view', v1.
  split_and!; [done | done | | done | | by eapply same_view_trans | ].
  - unfold kernel_ok. destruct (source_spec m prev b (contents_cache view) o) as [[c e] | ] eqn:Es.
    + pose proof (CheckStakeKernelHash_spec C b nBits (bi_nTime e) (nValue (out c)) o t uint256_SetNull uint256_SetNull HC Hb) as Hk.
      unfold CheckStakeKernelHash in *. destruct (Z.ltb_spec t (bi_nTime e)).
      * split; [done | ]. intros (c' & e' & [= <- <-] & Hle & _). lia.
      * destruct (SetCompact nBits) as [[tg ?] ?]. destruct Hk as (_ & Et & Eok). cbn [fst]. rewrite Eok, Et, Z.leb_le. split.
        { intros Hle. by exists c, e. }
        by intros (c' & e' & [= <- <-] & _ & Hle).
    + split; [done | ]. by intros (c & e & ? & _).
  - rewrite E1. unfold kernel_ok. by rewrite Hu.
  - intros any v2. unfold CheckKernel_cached. destruct (any !! o); [ | by rewrite E0; intros [= ->]].
    rewrite Hp. cbn [mbind option_bind]. destruct (fst (fst _)); [by rewrite E0; intros [= ->] | done].
Qed.

(** A stand-in hash that always gives 32 bytes *)
Definition sum_crypto : Crypto :=
  {| RIPEMD160 := le_encode 20 ∘ foldl (fun a x => 31 * a + x) 7;
     SHA1 := le_encode 20 ∘ foldl (fun a x => 33 * a + x) 7;
     SHA256 := le_encode 32 ∘ foldl (fun a x => 37 * a + x) 7; CheckLowS := fun _ => true |}.

Lemma stake_kernel_cache_transparent_witness :
  let m := mapBlockIndex (sample_state 5) in
  let tip := Block_GetHash toy_crypto (sample_header 4) in
  exists ok v0 cache view' v1,
    CheckKernel sum_crypto no_usage m tip 0x1d00ffff 2000 (sample_outpoint 0) (cache_new sample_db) = Some (ok, v0) /\
    cache_all no_usage m tip ∅ [sample_outpoint 0; sample_outpoint 1] (cache_new sample_db) = Some (cache, view') /\
    CheckKernel_cached sum_crypto no_usage m tip 0x1d00ffff 2000 (sample_outpoint 0) view' cache = Some (ok, v1).
Proof.
  intros m tip. destruct (m !! tip) as [b | ] eqn:E; [ | vm_compute in E; discriminate].
  assert (Hh : nHeight b = 4) by (vm_compute in E; injection E as <-; reflexivity).
  destruct (stake_kernel_cache_transparent sum_crypto no_usage m tip b (cache_new sample_db)
    [sample_outpoint 0; sample_outpoint 1] 0x1d00ffff 2000 (sample_outpoint 0))
    as (ok & v0 & cache & view' & v1 & E0 & _ & _ & Ec & E1 & _).
  - exact (proj1 (reachable_ok _ _ (sample_reachable 5 (le_n 5)))).
  - exact E.
  - rewrite Hh. reflexivity.
  - split; [exact sample_db_valid | apply map_Forall_empty].
  - intros x. split; [apply le_encode_bytes | apply le_encode_length].
  - lia.
  - exists ok, v0, cache, view', v1. split; [exact E0 | ]. split; [exact Ec | exact E1].
Defined.
