(* ===== verification/VersionBits.v ===== *)
(** * Version bits ([src/versionbits.h], [src/versionbits.cpp])

    The threshold state machine of a deployment, computed for a block from the blocks of the period
    before it and cached per period, with the statistics and the height a state began at.

    The reference is [bip9]: the state of a chain at the end of each period, by recursion on the
    number of the period.  Theorems: the function that walks back to a known state and forward
    again returns that state whatever valid cache it starts from, and leaves a valid cache (where the
    median time goes back before the start time, the state of [restarted] instead); states
    only move along the edges of the machine, lock-in is followed by activation, and ends are
    final; the height reported is the first of the current run of periods. *)

From stdpp Require Import gmap.
From S2P Require Import Prelude Serialize Interpreter Transaction Block Chain MedianTime Coins Pow.
Open Scope Z_scope.

(** ** Definitions *)

Definition VERSIONBITS_LAST_OLD_BLOCK_VERSION : Z := 4.
Definition VERSIONBITS_TOP_BITS : Z := 0x20000000.
(** [0xE0000000UL] stored in an [int32_t] *)
Definition VERSIONBITS_TOP_MASK : Z := i32 0xE0000000.
Definition VERSIONBITS_NUM_BITS : Z := 29.

Inductive ThresholdState : Type := DEFINED | STARTED | LOCKED_IN | ACTIVE | FAILED.
#[export] Instance ThresholdState_eq_dec : EqDecision ThresholdState.
Proof. solve_decision. Defined.

(** Keys are pointers to the parent: [None] is the parent of the genesis block. *)
Abbreviation ThresholdConditionCache := (gmap (option (list Z)) ThresholdState).

Record BIP9Stats : Type := mk_BIP9Stats {
  period : Z; threshold : Z; elapsed : Z; count : Z; possible : bool }.

(** The virtual methods of [AbstractThresholdConditionChecker] *)
Record ThresholdConditionChecker : Type := mk_checker {
  Condition : CBlockIndex -> bool;
  BeginTime : Z;
  EndTime : Z;
  Period : Z;
  Threshold : Z }.

Section Checker.
Context (m : BlockMap) (K : ThresholdConditionChecker).

(** The end of the period before the block after [pindex]: [pindex] itself when it ends a period.
    [None]: a division by zero *)
Definition period_parent (pindex : ptr) : option (option ptr) :=
  b ← m !! pindex;
  if Period K =? 0 then None
  else GetAncestor m pindex (i32 (nHeight b - Z.rem (i32 (nHeight b + 1)) (Period K))).

Definition one_period_back (pindex : ptr) : option (option ptr) :=
  b ← m !! pindex; GetAncestor m pindex (i32 (nHeight b - Period K)).

(** [while (cache.count(pindexPrev) == 0)]: where the walk stops, the cache, and [vToCompute] with
    its back first *)
Fixpoint walk_back (fuel : nat) (cache : ThresholdConditionCache) (pindexPrev : option ptr)
  (vToCompute : list ptr) : option (option ptr * ThresholdConditionCache * list ptr) :=
  match cache !! pindexPrev with
  | Some _ => Some (pindexPrev, cache, vToCompute)
  | None =>
      match pindexPrev with
      | None => Some (None, <[None := DEFINED]> cache, vToCompute)
      | Some p =>
          mtp ← GetMedianTimePast m p;
          if mtp <? BeginTime K then Some (Some p, <[Some p := DEFINED]> cache, vToCompute)
          else match fuel with
          | O => None
          | S fuel => prev ← one_period_back p; walk_back fuel cache prev (p :: vToCompute)
          end
      end
  end.

(** [for (int i = 0; i < nPeriod; i++)]: signalling blocks from [pindexCount] on back; [None] is a
    null pointer followed *)
Fixpoint count_loop (n : nat) (pindexCount : option ptr) (count : Z) : option Z :=
  match n with
  | O => Some count
  | S n =>
      p ← pindexCount; b ← m !! p;
      count_loop n (pprev b) (if Condition K b then i32 (count + 1) else count)
  end.

(** The body of the [switch]: [stateNext] *)
Definition next_state (state : ThresholdState) (pindexPrev : ptr) : option ThresholdState :=
  match state with
  | DEFINED =>
      mtp ← GetMedianTimePast m pindexPrev;
      Some (if EndTime K <=? mtp then FAILED else if BeginTime K <=? mtp then STARTED else DEFINED)
  | STARTED =>
      mtp ← GetMedianTimePast m pindexPrev;
      if EndTime K <=? mtp then Some FAILED
      else
        count ← count_loop (Z.to_nat (Period K)) (Some pindexPrev) 0;
        Some (if Threshold K <=? count then LOCKED_IN else STARTED)
  | LOCKED_IN => Some ACTIVE
  | FAILED => Some FAILED
  | ACTIVE => Some ACTIVE
  end.

(** [while (!vToCompute.empty())] *)
Fixpoint walk_forward (vToCompute : list ptr) (state : ThresholdState) (cache : ThresholdConditionCache)
  : option (ThresholdState * ThresholdConditionCache) :=
  match vToCompute with
  | [] => Some (state, cache)
  | p :: vToCompute =>
      stateNext ← next_state state p;
      walk_forward vToCompute stateNext (<[Some p := stateNext]> cache)
  end.

(** [GetStateFor]; [None]: the assertion fails, a null pointer is followed or a division by zero.
    The walk back needs a turn per period, and there are no more periods than blocks. *)
Definition GetStateFor (pindexPrev : option ptr) (cache : ThresholdConditionCache)
  : option (ThresholdState * ThresholdConditionCache) :=
  if BeginTime K =? ALWAYS_ACTIVE then Some (ACTIVE, cache)
  else
    '(start, fuel) ← match pindexPrev with
                     | None => Some (None, O)
                     | Some p => b ← m !! p; q ← period_parent p; Some (q, Z.to_nat (nHeight b + 1))
                     end;
    '(known, cache, vToCompute) ← walk_back fuel cache start [];
    state ← cache !! known;
    walk_forward vToCompute state cache.

(** The loop of [GetStateStatisticsFor] *)
Fixpoint stats_loop (fuel : nat) (currentIndex : ptr) (endHeight count : Z) : option Z :=
  b ← m !! currentIndex;
  if endHeight =? nHeight b then Some count
  else match fuel with
  | O => None
  | S fuel =>
      prev ← pprev b;
      stats_loop fuel prev endHeight (if Condition K b then i32 (count + 1) else count)
  end.

(** [None]: no period has ended before [pindex] (the null pointer is followed) *)
Definition GetStateStatisticsFor (pindex : option ptr) : option BIP9Stats :=
  match pindex with
  | None => Some (mk_BIP9Stats (Period K) (Threshold K) 0 0 false)
  | Some p =>
      b ← m !! p;
      endPrev ← period_parent p;
      e ← endPrev; be ← m !! e;
      let elapsed := i32 (nHeight b - nHeight be) in
      count ← stats_loop (Z.to_nat (nHeight b)) p (nHeight be) 0;
      Some (mk_BIP9Stats (Period K) (Threshold K) elapsed count
              (i32 (elapsed - count) <=? i32 (Period K - Threshold K)))
  end.

(** The loop of [GetStateSinceHeightFor]: the last [pindexPrev] and the cache *)
Fixpoint since_loop (fuel : nat) (initialState : ThresholdState) (pindexPrev : ptr)
  (cache : ThresholdConditionCache) : option (ptr * ThresholdConditionCache) :=
  parent ← one_period_back pindexPrev;
  match parent with
  | None => Some (pindexPrev, cache)
  | Some parent =>
      '(state, cache) ← GetStateFor (Some parent) cache;
      if decide (state = initialState) then
        match fuel with
        | O => None
        | S fuel => since_loop fuel initialState parent cache
        end
      else Some (pindexPrev, cache)
  end.

Definition GetStateSinceHeightFor (pindexPrev : option ptr) (cache : ThresholdConditionCache)
  : option (Z * ThresholdConditionCache) :=
  if BeginTime K =? ALWAYS_ACTIVE then Some (0, cache)
  else
    '(initialState, cache) ← GetStateFor pindexPrev cache;
    if decide (initialState = DEFINED) then Some (0, cache)
    else
      p ← pindexPrev; b ← m !! p;
      q ← period_parent p; q ← q;
      '(first, cache) ← since_loop (Z.to_nat (nHeight b)) initialState q cache;
      bf ← m !! first;
      Some (i32 (nHeight bf + 1), cache).
End Checker.

(** *** Deployments *)

Definition Mask (params : Params) (id : DeploymentPos) : Z := u32 (Z.shiftl 1 (bit (vDeployments params id))).

(** [nVersion & Mask]: the [int32_t] is converted to [uint32_t]. *)
Definition VersionBitsConditionChecker (params : Params) (id : DeploymentPos) : ThresholdConditionChecker := {|
  Condition := fun b =>
    (Z.land (bi_nVersion b) VERSIONBITS_TOP_MASK =? VERSIONBITS_TOP_BITS) &&
    negb (Z.land (u32 (bi_nVersion b)) (Mask params id) =? 0);
  BeginTime := nStartTime (vDeployments params id);
  EndTime := nTimeout (vDeployments params id);
  Period := i32 (nMinerConfirmationWindow params);
  Threshold := i32 (nRuleChangeActivationThreshold params) |}.

(** A cache per deployment *)
Definition VersionBitsCache : Type := DeploymentPos -> ThresholdConditionCache.
Definition VersionBitsCache_Clear : VersionBitsCache := fun _ => ∅.
Definition set_cache (c : VersionBitsCache) (pos : DeploymentPos) (v : ThresholdConditionCache) : VersionBitsCache :=
  fun d => if decide (d = pos) then v else c d.

Definition VersionBitsState (m : BlockMap) (pindexPrev : option ptr) (params : Params) (pos : DeploymentPos)
  (cache : VersionBitsCache) : option (ThresholdState * VersionBitsCache) :=
  '(s, c) ← GetStateFor m (VersionBitsConditionChecker params pos) pindexPrev (cache pos);
  Some (s, set_cache cache pos c).
Definition VersionBitsStatistics (m : BlockMap) (pindexPrev : option ptr) (params : Params) (pos : DeploymentPos)
  : option BIP9Stats := GetStateStatisticsFor m (VersionBitsConditionChecker params pos) pindexPrev.
Definition VersionBitsStateSinceHeight (m : BlockMap) (pindexPrev : option ptr) (params : Params)
  (pos : DeploymentPos) (cache : VersionBitsCache) : option (Z * VersionBitsCache) :=
  '(h, c) ← GetStateSinceHeightFor m (VersionBitsConditionChecker params pos) pindexPrev (cache pos);
  Some (h, set_cache cache pos c).
Definition VersionBitsMask (params : Params) (pos : DeploymentPos) : Z := Mask params pos.

(** ** Theorems *)

Section Reference.
Context (m : BlockMap) (Hm : index_ok m) (K : ThresholdConditionChecker).
Context (HP : 0 < Period K < 2 ^ 31).

(** *** The reference machine *)

(** The next state, from the median time and the number of signalling blocks of a period *)
Definition bip9_next (s : ThresholdState) (mtp signals : Z) : ThresholdState :=
  match s with
  | DEFINED => if EndTime K <=? mtp then FAILED else if BeginTime K <=? mtp then STARTED else DEFINED
  | STARTED => if EndTime K <=? mtp then FAILED else if Threshold K <=? signals then LOCKED_IN else STARTED
  | LOCKED_IN | ACTIVE => ACTIVE
  | FAILED => FAILED
  end.

(** The [n] entries from [p] on back *)
Fixpoint segment (n : nat) (p : option ptr) : list CBlockIndex :=
  match n, p with
  | S n, Some p => match m !! p with Some b => b :: segment n (pprev b) | None => [] end
  | _, _ => []
  end.
Definition signals (p : ptr) : Z := vsize (filter (fun b => Condition K b = true) (segment (Z.to_nat (Period K)) (Some p))).
Definition mtp_of (p : ptr) : Z := default 0 (GetMedianTimePast m p).

(** The last block of the [j]-th period of the chain of [p] *)
Definition boundary (p : ptr) (j : nat) : option ptr := ancestor m p (Z.of_nat j * Period K - 1).

(** The state after [j] periods of the chain of [p] *)
Fixpoint bip9 (p : ptr) (j : nat) : ThresholdState :=
  match j with
  | O => DEFINED
  | S i => match boundary p j with
           | Some q => bip9_next (bip9 p i) (mtp_of q) (signals q)
           | None => DEFINED
           end
  end.

(** The number of periods that end at or before a block *)
Definition periods (b : CBlockIndex) : nat := Z.to_nat ((nHeight b + 1) / Period K).
(** The state of the block after [pindexPrev] *)
Definition state_after (pindexPrev : option ptr) : ThresholdState :=
  match pindexPrev with
  | None => DEFINED
  | Some p => match m !! p with Some b => bip9 p (periods b) | None => DEFINED end
  end.

(** The machine that is back at the start whenever the median is before the start time: on a chain
    whose medians never decrease, the same machine *)
Fixpoint restarted (p : ptr) (j : nat) : ThresholdState :=
  match j with
  | O => DEFINED
  | S i => match boundary p j with
           | Some q => if mtp_of q <? BeginTime K then DEFINED else bip9_next (restarted p i) (mtp_of q) (signals q)
           | None => DEFINED
           end
  end.
(** The state of the block after [pindexPrev], for any times and also for a deployment that is always active *)
Definition restarted_after (pindexPrev : option ptr) : ThresholdState :=
  match pindexPrev with
  | None => DEFINED
  | Some p => match m !! p with Some b => restarted p (periods b) | None => DEFINED end
  end.
Definition answer (pindexPrev : option ptr) : ThresholdState :=
  if BeginTime K =? ALWAYS_ACTIVE then ACTIVE else restarted_after pindexPrev.

(** *** Counting *)

Lemma count_loop_spec n p c : 0 <= c -> c + Z.of_nat n < 2 ^ 31 ->
  length (segment n p) = n ->
  count_loop m K n p c = Some (c + vsize (filter (fun b => Condition K b = true) (segment n p))).
Proof.
  revert p c. induction n as [ | n IH]; intros p c Hc Hn Hl.
  { destruct p; simpl; f_equal; unfold vsize; simpl; lia. }
  destruct p as [p | ]; [ | done]. simpl in Hl |- *. destruct (m !! p) as [b | ]; [ | done]. simpl in Hl. injection Hl as Hl.
  cbn [mbind option_bind]. destruct (Condition K b) eqn:E.
  - rewrite filter_cons_True by done. rewrite i32_id by lia. rewrite IH by (done || lia). f_equal.
    unfold vsize. simpl. lia.
  - rewrite filter_cons_False by congruence. rewrite IH by (done || lia). done.
Qed.

Lemma segment_length n p b : m !! p = Some b -> Z.of_nat n <= nHeight b + 1 -> length (segment n (Some p)) = n.
Proof.
  revert p b. induction n as [ | n IH]; intros p b Hp Hn; [done | ]. simpl. rewrite Hp. simpl. f_equal.
  destruct n as [ | n]; [done | ]. destruct (has_prev m Hm p b Hp ltac:(lia)) as [q Eq]. rewrite Eq.
  destruct (prev_entry m Hm p b q Hp Eq) as (c & Hc & Hh). apply (IH q c); [done | lia].
Qed.

Lemma next_state_spec s p b : m !! p = Some b -> Period K <= nHeight b + 1 ->
  next_state m K s p = Some (bip9_next s (mtp_of p) (signals p)).
Proof.
  intros Hp Hh. destruct (mtp_total m Hm p b Hp) as (t & Ht & _). unfold mtp in Ht.
  unfold next_state, mtp_of. rewrite Ht. cbn [mbind option_bind default].
  destruct s; try done. simpl. destruct (_ <=? _); [done | ].
  rewrite count_loop_spec; [done | lia | lia | ]. apply (segment_length _ p b); [done | lia].
Qed.

(** *** Periods *)

Lemma boundary_0 p : boundary p 0 = None.
Proof.
  unfold boundary, ancestor. destruct (m !! p); [ | done]. cbn [mbind option_bind].
  by destruct (Z.leb_spec 0 (Z.of_nat 0 * Period K - 1)); [lia | ].
Qed.

Lemma periods_le p b j : m !! p = Some b -> (j <= periods b)%nat <-> Z.of_nat j * Period K <= nHeight b + 1.
Proof.
  intros Hp. pose proof (height_range m Hm _ _ Hp). unfold periods.
  pose proof (Z.mul_div_le (nHeight b + 1) (Period K) ltac:(lia)).
  assert (0 <= (nHeight b + 1) / Period K) by (apply Z.div_pos; lia).
  split; intros Hj; [nia | ].
  apply Nat2Z.inj_le. rewrite Z2Nat.id by done. apply Z.div_le_lower_bound; lia.
Qed.

Lemma boundary_some p b j : m !! p = Some b -> (0 < j <= periods b)%nat ->
  exists q c, boundary p j = Some q /\ m !! q = Some c /\ nHeight c = Z.of_nat j * Period K - 1.
Proof.
  intros Hp Hj. apply (ancestor_total m Hm p b); [done | ].
  assert (Z.of_nat j * Period K <= nHeight b + 1) by (apply (periods_le p b j Hp); lia). nia.
Qed.

Lemma periods_boundary c j : nHeight c = Z.of_nat j * Period K - 1 -> periods c = j.
Proof.
  intros E. unfold periods. rewrite E. replace (Z.of_nat j * Period K - 1 + 1) with (Z.of_nat j * Period K) by lia.
  rewrite Z.div_mul by lia. apply Nat2Z.id.
Qed.

Lemma boundary_trans p b j q i : m !! p = Some b -> boundary p j = Some q -> (i <= j)%nat -> boundary q i = boundary p i.
Proof.
  intros Hp Hq Hi. destruct i as [ | i]; [by rewrite !boundary_0 | ].
  unfold boundary in *. eapply (ancestor_trans m Hm); [exact Hp | exact Hq | nia].
Qed.

Lemma bip9_trans p b j q i : m !! p = Some b -> boundary p j = Some q -> (i <= j)%nat -> bip9 q i = bip9 p i.
Proof.
  intros Hp Hq. induction i as [ | i IH]; intros Hi; [done | ]. cbn [bip9].
  rewrite (boundary_trans p b j q (S i)) by done. rewrite IH by lia. done.
Qed.

Lemma restarted_trans p b j q i : m !! p = Some b -> boundary p j = Some q -> (i <= j)%nat -> restarted q i = restarted p i.
Proof.
  intros Hp Hq. induction i as [ | i IH]; intros Hi; [done | ]. cbn [restarted].
  rewrite (boundary_trans p b j q (S i)) by done. rewrite IH by lia. done.
Qed.

Lemma period_parent_spec p b : m !! p = Some b -> nHeight b + 1 < 2 ^ 31 ->
  period_parent m K p = Some (boundary p (periods b)).
Proof.
  intros Hp Hh. pose proof (height_range m Hm _ _ Hp). unfold period_parent. rewrite Hp. cbn [mbind option_bind].
  destruct (Z.eqb_spec (Period K) 0); [lia | ]. rewrite (i32_id (nHeight b + 1)) by lia.
  rewrite Z.rem_mod_nonneg by lia. pose proof (Z.mod_pos_bound (nHeight b + 1) (Period K) ltac:(lia)).
  pose proof (Z.div_mod (nHeight b + 1) (Period K) ltac:(lia)).
  assert (0 <= (nHeight b + 1) / Period K) by (apply Z.div_pos; lia).
  pose proof (Z.mod_le (nHeight b + 1) (Period K) ltac:(lia) ltac:(lia)).
  rewrite i32_id by lia. rewrite (GetAncestor_spec m Hm p b) by done. unfold boundary, periods. f_equal. f_equal. lia.
Qed.

Lemma one_period_back_spec q c j : m !! q = Some c -> nHeight c = Z.of_nat (S j) * Period K - 1 ->
  one_period_back m K q = Some (boundary q j).
Proof.
  intros Hq Hh. pose proof (height_range m Hm _ _ Hq). unfold one_period_back. rewrite Hq. cbn [mbind option_bind].
  rewrite i32_id by lia. rewrite (GetAncestor_spec m Hm q c) by done. unfold boundary. f_equal. f_equal. lia.
Qed.

(** *** The walk *)

(** Cached states are the states of the machine. *)
Definition cache_ok (cache : ThresholdConditionCache) : Prop :=
  map_Forall (fun k s => match k with
    | None => s = DEFINED
    | Some q => exists c j, m !! q = Some c /\ nHeight c = Z.of_nat j * Period K - 1 /\ s = restarted q j
    end) cache.

(** The boundaries of periods [i+1 .. i+n], in the order they are computed *)
Definition boundaries (p : ptr) (i n : nat) : list ptr := omap (boundary p) (seq (S i) n).

Lemma walk_back_spec p b fuel j cache v : m !! p = Some b -> (j <= periods b)%nat -> (j <= fuel)%nat -> cache_ok cache ->
  exists i cache', walk_back m K fuel cache (boundary p j) v = Some (boundary p i, cache', boundaries p i (j - i) ++ v) /\
    (i <= j)%nat /\ cache_ok cache' /\ cache' !! boundary p i = Some (restarted p i) /\
    (forall k q, (i < k <= j)%nat -> boundary p k = Some q -> BeginTime K <= mtp_of q).
Proof.
  intros Hp. revert j v. induction fuel as [ | fuel IH]; intros j v Hj Hf Hc.
  all: destruct (cache !! boundary p j) as [s | ] eqn:Es.
  1, 3: exists j, cache; rewrite Nat.sub_diag; destruct j as [ | j];
    [rewrite boundary_0 in Es |- *
    | destruct (boundary_some p b (S j) Hp ltac:(lia)) as (q & c & Hq & Hqc & Hh); rewrite Hq in Es |- *];
    simpl; rewrite Es; (split_and!; [done | done | done | f_equal | lia]);
    [by apply (Hc None) | ];
    destruct (Hc (Some q) s Es) as (c' & i & Hc' & Hh' & ->); assert (c' = c) as -> by congruence;
    assert (i = S j) as -> by nia; by apply (restarted_trans p b (S j)).
  all: destruct j as [ | j].
  1, 3: rewrite boundary_0 in *; exists 0%nat, (<[None := DEFINED]> cache); simpl; rewrite Es;
    (split_and!; [by rewrite boundary_0 | done | by apply map_Forall_insert_2 | | lia]);
    rewrite boundary_0; apply lookup_insert_eq.
  1: lia.
  destruct (boundary_some p b (S j) Hp ltac:(lia)) as (q & c & Hq & Hqc & Hh). rewrite Hq in *. simpl. rewrite Es.
  destruct (mtp_total m Hm q c Hqc) as (t & Ht & _). unfold mtp in Ht. rewrite Ht. cbn [mbind option_bind].
  assert (Emtp : mtp_of q = t) by (unfold mtp_of; by rewrite Ht).
  destruct (Z.ltb_spec t (BeginTime K)).
  - assert (Hd : restarted p (S j) = DEFINED) by (cbn [restarted]; rewrite Hq; destruct (Z.ltb_spec (mtp_of q) (BeginTime K)); [done | lia]).
    exists (S j), (<[Some q := DEFINED]> cache). rewrite Nat.sub_diag, Hq. split_and!; [done | done | | | lia].
    + apply map_Forall_insert_2; [ | done]. exists c, (S j). split_and!; [done | done | ]. by rewrite (restarted_trans p b (S j) q (S j)).
    + rewrite lookup_insert_eq. by f_equal.
  - rewrite (one_period_back_spec q c j) by done. cbn [mbind option_bind].
    rewrite (boundary_trans p b (S j) q j) by (done || lia).
    destruct (IH j (q :: v) ltac:(lia) ltac:(lia) Hc) as (i & cache' & E & Hi & Hc' & Hk & Hafter).
    exists i, cache'. split_and!; [ | lia | done | done | ].
    2: { intros k r Hkj Hr. destruct (decide (k = S j)) as [-> | ]; [ | apply (Hafter k r); [lia | done]]. assert (r = q) as -> by congruence. lia. }
    rewrite E. do 2 f_equal. unfold boundaries.
    replace (S j - i)%nat with (j - i + 1)%nat by lia. rewrite seq_app, omap_app, <- app_assoc. f_equal.
    replace (S i + (j - i))%nat with (S j) by lia. simpl. by rewrite Hq.
Qed.

Lemma walk_forward_spec p b n i cache : m !! p = Some b -> (i + n <= periods b)%nat -> cache_ok cache ->
  (forall k q, (i < k <= i + n)%nat -> boundary p k = Some q -> BeginTime K <= mtp_of q) ->
  exists cache', walk_forward m K (boundaries p i n) (restarted p i) cache = Some (restarted p (i + n), cache') /\ cache_ok cache'.
Proof.
  intros Hp. revert i cache. induction n as [ | n IH]; intros i cache Hn Hc Hafter.
  { exists cache. by rewrite Nat.add_0_r. }
  destruct (boundary_some p b (S i) Hp ltac:(lia)) as (q & c & Hq & Hqc & Hh).
  unfold boundaries. simpl. rewrite Hq. simpl. rewrite (next_state_spec _ q c) by (done || lia).
  cbn [mbind option_bind].
  assert (En : bip9_next (restarted p i) (mtp_of q) (signals q) = restarted p (S i)).
  { cbn [restarted]. rewrite Hq. destruct (Z.ltb_spec (mtp_of q) (BeginTime K)) as [Hlt | ]; [ | done]. pose proof (Hafter (S i) q ltac:(lia) Hq). lia. }
  rewrite En. replace (i + S n)%nat with (S i + n)%nat by lia. apply IH; [lia | | intros k r Hk; apply Hafter; lia].
  apply map_Forall_insert_2; [ | done]. exists c, (S i). split_and!; [done | done | ].
  symmetry. by apply (restarted_trans p b (S i)).
Qed.

Lemma GetStateFor_answer pindexPrev cache : cache_ok cache ->
  (forall p, pindexPrev = Some p -> exists b, m !! p = Some b /\ nHeight b + 1 < 2 ^ 31) ->
  exists cache', GetStateFor m K pindexPrev cache = Some (answer pindexPrev, cache') /\ cache_ok cache'.
Proof.
  intros Hc Hp. unfold GetStateFor, answer. destruct (Z.eqb_spec (BeginTime K) ALWAYS_ACTIVE); [by exists cache | ].
  destruct pindexPrev as [p | ]; cbn [mbind option_bind].
  - destruct (Hp p eq_refl) as (b & Hb & Hh). pose proof (height_range m Hm _ _ Hb). rewrite Hb. cbn [mbind option_bind].
    rewrite (period_parent_spec p b) by done. cbn [mbind option_bind].
    assert (periods b <= Z.to_nat (nHeight b + 1))%nat.
    { pose proof (proj1 (periods_le p b (periods b) Hb) ltac:(lia)). nia. }
    destruct (walk_back_spec p b (Z.to_nat (nHeight b + 1)) (periods b) cache [] Hb) as (i & cache' & E & Hi & Hc' & Hk & Hafter);
      [lia | done | done | ].
    rewrite E. cbn [mbind option_bind]. rewrite Hk, app_nil_r. cbn [mbind option_bind].
    destruct (walk_forward_spec p b (periods b - i) i cache' Hb) as (cache'' & E' & Hc''); [lia | done | intros k q Hkq; apply Hafter; lia | ].
    exists cache''. rewrite E'. replace (i + (periods b - i))%nat with (periods b) by lia.
    split; [unfold restarted_after; by rewrite Hb | done].
  - simpl. destruct (cache !! None) as [s | ] eqn:Es; cbn [mbind option_bind].
    + rewrite Es. cbn [mbind option_bind]. exists cache. split; [ | done]. simpl. by rewrite (Hc None s Es).
    + rewrite lookup_insert_eq. cbn [mbind option_bind]. exists (<[None := DEFINED]> cache).
      split; [done | by apply map_Forall_insert_2].
Qed.

(** *** Whatever is cached *)

Lemma walk_back_total p b fuel : forall j cache v, m !! p = Some b -> (j <= periods b)%nat -> (j <= fuel)%nat ->
  exists i cache' s, walk_back m K fuel cache (boundary p j) v = Some (boundary p i, cache', boundaries p i (j - i) ++ v) /\
    (i <= j)%nat /\ cache' !! boundary p i = Some s.
Proof.
  induction fuel as [|fuel IH]; intros j cache v Hp Hj Hf; destruct j as [|j]; try lia.
  1, 2: rewrite boundary_0; cbn [walk_back]; destruct (cache !! None) as [s|] eqn:Es;
    [exists 0%nat, cache, s | exists 0%nat, (<[None := DEFINED]> cache), DEFINED; rewrite boundary_0, lookup_insert_eq]; by rewrite ?boundary_0.
  destruct (boundary_some p b (S j) Hp ltac:(lia)) as (q & c & Hq & Hqc & Hh). cbn [walk_back]. rewrite Hq.
  destruct (cache !! Some q) as [s|] eqn:Es; [exists (S j), cache, s; by rewrite Nat.sub_diag, Hq|].
  destruct (mtp_total m Hm q c Hqc) as (t & Ht & _). unfold mtp in Ht. rewrite Ht. cbn [mbind option_bind]. destruct (Z.ltb_spec t (BeginTime K)).
  - exists (S j), (<[Some q := DEFINED]> cache), DEFINED. by rewrite Nat.sub_diag, Hq, lookup_insert_eq.
  - rewrite (one_period_back_spec q c j) by done. cbn [mbind option_bind]. rewrite (boundary_trans p b (S j) q j) by (done || lia).
    destruct (IH j cache (q :: v) Hp ltac:(lia) ltac:(lia)) as (i & cache' & s & E & Hi & Hk). exists i, cache', s. split_and!; [|lia | done].
    rewrite E. do 2 f_equal. unfold boundaries. replace (S j - i)%nat with (j - i + 1)%nat by lia. rewrite seq_app, omap_app, <- app_assoc. f_equal.
    replace (S i + (j - i))%nat with (S j) by lia. simpl. by rewrite Hq.
Qed.

Lemma walk_forward_total p b n : forall i s cache, m !! p = Some b -> (i + n <= periods b)%nat ->
  exists r, walk_forward m K (boundaries p i n) s cache = Some r.
Proof.
  induction n as [|n IH]; intros i s cache Hp Hn; [by eexists|].
  destruct (boundary_some p b (S i) Hp ltac:(lia)) as (q & c & Hq & Hqc & Hh). unfold boundaries. simpl. rewrite Hq. simpl.
  rewrite (next_state_spec _ q c) by (done || lia). cbn [mbind option_bind]. apply IH; [done | lia].
Qed.

Lemma GetStateFor_total pindexPrev cache : (forall p, pindexPrev = Some p -> exists b, m !! p = Some b /\ nHeight b + 1 < 2 ^ 31) ->
  exists r, GetStateFor m K pindexPrev cache = Some r.
Proof.
  intros Hp. unfold GetStateFor. destruct (Z.eqb_spec (BeginTime K) ALWAYS_ACTIVE); [by eexists|]. destruct pindexPrev as [p|]; cbn [mbind option_bind].
  - destruct (Hp p eq_refl) as (b & Hb & Hh). pose proof (height_range m Hm _ _ Hb). rewrite Hb. cbn [mbind option_bind].
    rewrite (period_parent_spec p b) by done. cbn [mbind option_bind].
    assert (periods b <= Z.to_nat (nHeight b + 1))%nat by (pose proof (proj1 (periods_le p b (periods b) Hb) ltac:(lia)); nia).
    destruct (walk_back_total p b (Z.to_nat (nHeight b + 1)) (periods b) cache [] Hb) as (i & cache' & s & E & Hi & Hk); [lia | done|].
    rewrite E. cbn [mbind option_bind]. rewrite Hk, app_nil_r. cbn [mbind option_bind]. apply (walk_forward_total p b); [done | lia].
  - cbn [walk_back]. destruct (cache !! None) as [s|] eqn:Es; cbn [mbind option_bind]; [rewrite Es | rewrite lookup_insert_eq]; by eexists.
Qed.

(** *** Medians that never decrease *)

(** Once the median is before the start, it was before the start at every earlier block. *)
Definition start_monotone : Prop := forall p b n q,
  m !! p = Some b -> up m n p = Some q -> mtp_of p < BeginTime K -> mtp_of q < BeginTime K.

Context (Hstart : start_monotone) (Hends : BeginTime K <= EndTime K).

Lemma before_start p b j : m !! p = Some b -> (j <= periods b)%nat -> mtp_of p < BeginTime K -> bip9 p j = DEFINED.
Proof.
  intros Hp. induction j as [ | j IH]; intros Hj Hlt; [done | ]. cbn [bip9].
  destruct (boundary_some p b (S j) Hp ltac:(lia)) as (q & c & Hq & _). rewrite Hq.
  rewrite IH by (done || lia). simpl.
  assert (mtp_of q < BeginTime K).
  { unfold boundary, ancestor in Hq. rewrite Hp in Hq. cbn [mbind option_bind] in Hq.
    destruct (_ && _); [ | done]. by apply (Hstart p b _ q Hp Hq). }
  destruct (Z.leb_spec (EndTime K) (mtp_of q)); [lia | ]. by destruct (Z.leb_spec (BeginTime K) (mtp_of q)); [lia | ].
Qed.

Lemma restarted_bip9 p b j : m !! p = Some b -> (j <= periods b)%nat -> restarted p j = bip9 p j.
Proof.
  intros Hp. induction j as [ | j IH]; intros Hj; [done | ]. destruct (boundary_some p b (S j) Hp ltac:(lia)) as (q & c & Hq & Hc & Hh).
  destruct (Z.ltb_spec (mtp_of q) (BeginTime K)) as [Hlt | Hge].
  - rewrite <- (bip9_trans p b (S j) q (S j)), (before_start q c) by (done || by rewrite (periods_boundary c (S j))). cbn [restarted]. rewrite Hq.
    by destruct (Z.ltb_spec (mtp_of q) (BeginTime K)); [ | lia].
  - cbn [restarted bip9]. rewrite Hq. destruct (Z.ltb_spec (mtp_of q) (BeginTime K)); [lia | ]. by rewrite IH by lia.
Qed.

Lemma answer_bip9 pindexPrev : BeginTime K <> ALWAYS_ACTIVE -> answer pindexPrev = state_after pindexPrev.
Proof.
  intros Ha. unfold answer. destruct (Z.eqb_spec (BeginTime K) ALWAYS_ACTIVE); [done | ]. destruct pindexPrev as [p | ]; [ | done].
  cbn [restarted_after state_after]. destruct (m !! p) as [b | ] eqn:Hb; [by apply (restarted_bip9 p b) | done].
Qed.

Lemma GetStateFor_spec pindexPrev cache : BeginTime K <> ALWAYS_ACTIVE -> cache_ok cache ->
  (forall p, pindexPrev = Some p -> exists b, m !! p = Some b /\ nHeight b + 1 < 2 ^ 31) ->
  exists cache', GetStateFor m K pindexPrev cache = Some (state_after pindexPrev, cache') /\ cache_ok cache'.
Proof. intros Ha Hc Hp. rewrite <- answer_bip9 by done. by apply GetStateFor_answer. Qed.

(** *** Since which height *)

Lemma state_after_boundary p b j q : m !! p = Some b -> (0 < j <= periods b)%nat -> boundary p j = Some q ->
  state_after (Some q) = bip9 p j.
Proof.
  intros Hp Hj Hq. destruct (boundary_some p b j Hp Hj) as (q' & c & Hq' & Hc & Hh).
  assert (q' = q) as -> by congruence. unfold state_after. rewrite Hc, (periods_boundary c j Hh).
  by apply (bip9_trans p b j).
Qed.

(** The first period of the run of [s] that includes the [k]-th *)
Definition run_start (p : ptr) (s : ThresholdState) (i k : nat) : Prop :=
  (0 < i <= k)%nat /\ (forall j, (i <= j <= k)%nat -> bip9 p j = s) /\ (i = 1%nat \/ bip9 p (i - 1) <> s).

Lemma since_loop_spec p b fuel s k q cache : m !! p = Some b -> nHeight b + 1 < 2 ^ 31 ->
  BeginTime K <> ALWAYS_ACTIVE -> (0 < k <= periods b)%nat -> (k <= S fuel)%nat ->
  boundary p k = Some q -> bip9 p k = s -> cache_ok cache ->
  exists i r cache', since_loop m K fuel s q cache = Some (r, cache') /\ boundary p i = Some r /\ cache_ok cache' /\ run_start p s i k.
Proof.
  intros Hp Hh Ha. revert k q cache. induction fuel as [ | fuel IH]; intros k q cache Hk Hf Hq Hs Hc.
  all: destruct (boundary_some p b k Hp Hk) as (q' & c & Hq' & Hqc & Hhc); assert (q' = q) as -> by congruence.
  all: destruct k as [ | k]; [lia | ]; cbn [since_loop]; rewrite (one_period_back_spec q c k) by done; cbn [mbind option_bind].
  all: rewrite (boundary_trans p b (S k) q k) by (done || lia).
  all: destruct k as [ | k]; [rewrite boundary_0; exists 1%nat, q, cache; split_and!; try done; split_and!; [lia | lia | | by left];
      intros j Hj; by replace j with 1%nat by lia | ].
  1: lia.
  destruct (boundary_some p b (S k) Hp ltac:(lia)) as (r & d & Hr & Hd & Hhd). rewrite Hr.
  destruct (GetStateFor_spec (Some r) cache Ha Hc) as (cache1 & E1 & Hc1).
  { intros r' [= <-]. exists d. split; [done | ]. pose proof (proj1 (periods_le p b (S k) Hp) ltac:(lia)). lia. }
  rewrite E1. cbn [mbind option_bind]. rewrite (state_after_boundary p b (S k) r) by (done || lia).
  destruct (decide (bip9 p (S k) = s)) as [Heq | Hne].
  - destruct (IH (S k) r cache1 ltac:(lia) ltac:(lia) Hr Heq Hc1) as (i & r' & cache' & E & Hi & Hc' & Hrun & Hall & Hfirst).
    exists i, r', cache'. split_and!; [done | done | done | ]. split_and!; [lia | lia | | done].
    intros j Hj. destruct (decide (j = S (S k))) as [-> | ]; [done | apply Hall; lia].
  - exists (S (S k)), q, cache1. split_and!; [done | done | done | ]. split_and!; [lia | lia | | by right].
    intros j Hj. by replace j with (S (S k)) by lia.
Qed.

Lemma GetStateSinceHeightFor_spec p b cache : m !! p = Some b -> nHeight b + 1 < 2 ^ 31 ->
  BeginTime K <> ALWAYS_ACTIVE -> cache_ok cache ->
  exists h cache', GetStateSinceHeightFor m K (Some p) cache = Some (h, cache') /\ cache_ok cache' /\
    if decide (state_after (Some p) = DEFINED) then h = 0
    else exists i, h = Z.of_nat i * Period K /\ run_start p (state_after (Some p)) i (periods b).
Proof.
  intros Hp Hh Ha Hc. unfold GetStateSinceHeightFor. destruct (Z.eqb_spec (BeginTime K) ALWAYS_ACTIVE); [done | ].
  destruct (GetStateFor_spec (Some p) cache Ha Hc) as (cache1 & E1 & Hc1).
  { intros p' [= <-]. by exists b. }
  rewrite E1. cbn [mbind option_bind]. destruct (decide (state_after (Some p) = DEFINED)) as [ | Hne]; [by exists 0, cache1 | ].
  rewrite Hp. cbn [mbind option_bind]. rewrite (period_parent_spec p b) by done. cbn [mbind option_bind].
  assert (Es : state_after (Some p) = bip9 p (periods b)) by (unfold state_after; by rewrite Hp).
  assert (Hk : (0 < periods b)%nat).
  { destruct (periods b) eqn:E0; [ | lia]. rewrite Es in Hne. by simpl in Hne. }
  destruct (boundary_some p b (periods b) Hp ltac:(lia)) as (q & c & Hq & _). rewrite Hq. cbn [mbind option_bind].
  pose proof (proj1 (periods_le p b (periods b) Hp) ltac:(lia)).
  destruct (since_loop_spec p b (Z.to_nat (nHeight b)) (state_after (Some p)) (periods b) q cache1)
    as (i & r & cache' & E & Hr & Hc' & Hrun); try done; [nia | ].
  rewrite E. cbn [mbind option_bind]. destruct (Hrun) as [Hi _].
  destruct (boundary_some p b i Hp ltac:(lia)) as (r' & d & Hr' & Hd & Hhd). assert (r' = r) as -> by congruence.
  rewrite Hd. cbn [mbind option_bind]. pose proof (proj1 (periods_le p b i Hp) ltac:(lia)).
  eexists _, cache'. split_and!; [reflexivity | done | ]. exists i. split; [rewrite i32_id by nia; lia | done].
Qed.

(** *** The edges of the machine *)

Definition edge (s s' : ThresholdState) : Prop :=
  match s, s' with
  | DEFINED, (DEFINED | STARTED | FAILED) | STARTED, (STARTED | LOCKED_IN | FAILED)
  | LOCKED_IN, ACTIVE | ACTIVE, ACTIVE | FAILED, FAILED => True
  | _, _ => False
  end.

Lemma bip9_edge p b j : m !! p = Some b -> (j < periods b)%nat -> edge (bip9 p j) (bip9 p (S j)).
Proof.
  intros Hp Hj. destruct (boundary_some p b (S j) Hp ltac:(lia)) as (q & c & Hq & _). cbn [bip9]. rewrite Hq.
  destruct (bip9 p j); simpl; repeat destruct (_ <=? _); done.
Qed.

Lemma bip9_final p b i j : m !! p = Some b -> (i <= j <= periods b)%nat ->
  bip9 p i = ACTIVE \/ bip9 p i = FAILED -> bip9 p j = bip9 p i.
Proof.
  intros Hp Hij Hs. induction j as [ | j IH]; [by replace i with 0%nat by lia | ].
  destruct (decide (i = S j)) as [-> | ]; [done | ]. rewrite <- IH by lia.
  pose proof (bip9_edge p b j Hp ltac:(lia)) as He. rewrite IH in He |- * by lia.
  destruct Hs as [Hs | Hs]; rewrite Hs in He |- *; by destruct (bip9 p (S j)).
Qed.
End Reference.


(** *** What a deployment needs *)

Record checker_ok (m : BlockMap) (K : ThresholdConditionChecker) : Prop := {
  ck_period : 0 < Period K < 2 ^ 31;
  ck_start : start_monotone m K;
  ck_ends : BeginTime K <= EndTime K;
  ck_used : BeginTime K <> ALWAYS_ACTIVE }.

(** Where every block is newer than the median before it, the median is monotone. *)
Lemma times_ok_start m K : index_ok m -> times_ok m -> start_monotone m K.
Proof.
  intros Hm Hok p b n q Hp Hup. destruct (up_height m Hm n p b q Hp Hup) as (c & Hc & _).
  destruct (mtp_total m Hm p b Hp) as (t & Ht & _). destruct (mtp_total m Hm q c Hc) as (s & Hs & _).
  pose proof (mtp_up m Hm n p b q s t Hok Hp Hup Hs Ht). unfold mtp, mtp_of in *. rewrite Ht, Hs. simpl. lia.
Qed.

(** A deployment that starts at time 0 has started for every block. *)
Lemma zero_start m K : index_ok m -> map_Forall (fun _ b => in_u 32 (bi_nTime b)) m ->
  BeginTime K <= 0 -> start_monotone m K.
Proof.
  intros Hm Ht H0 p b n q Hp _. destruct (mtp_total m Hm p b Hp) as (t & Et & Hv).
  unfold mtp, mtp_of in *. rewrite Et. simpl. intros Hlt. exfalso. assert (0 <= t); [ | lia].
  apply Hv. assert (below 0 (window m nMedianTimeSpan (Some p)) = 0%nat) as ->; [ | lia].
  clear -Ht. generalize nMedianTimeSpan (Some p). intros n0. induction n0 as [ | n0 IH]; intros [r | ]; try done.
  simpl. destruct (m !! r) as [c | ] eqn:Er; [ | done]. rewrite below_cons_ge; [apply IH | ].
  specialize (Ht r c Er). cbv beta in Ht. unfold GetBlockTime. rewrite i64_id by lia. lia.
Qed.

(** Queries one after the other on one cache *)
Fixpoint queries (m : BlockMap) (K : ThresholdConditionChecker) (ps : list (option ptr))
  (cache : ThresholdConditionCache) : option (list ThresholdState * ThresholdConditionCache) :=
  match ps with
  | [] => Some ([], cache)
  | p :: ps =>
      '(s, cache) ← GetStateFor m K p cache;
      '(l, cache) ← queries m K ps cache;
      Some (s :: l, cache)
  end.

(** The blocks whose successor has a state: entries below the largest height, or the parent of genesis *)
Definition has_successor (m : BlockMap) (pindexPrev : option ptr) : Prop :=
  forall p, pindexPrev = Some p -> exists b, m !! p = Some b /\ nHeight b + 1 < 2 ^ 31.

(** (C21) The state of a deployment.  Whatever blocks are asked about, in whatever order and on
    whatever branches, the cached computation never follows a null pointer, fails an assertion or
    runs out, and answers for each one the state of a machine that is run period by period from
    genesis and is back at the start after each period that ends with a median time before the
    start time (active, for a deployment that is always active).  If along
    each chain the median time, once it has reached the start time, does not go back before it (as
    when every block is newer than the median before it), and the start is not after the timeout,
    these are the states of the plain machine of BIP9. *)
Theorem version_bits_state_exact m K ps :
  index_ok m -> 0 < Period K < 2 ^ 31 -> Forall (has_successor m) ps ->
  (exists cache, queries m K ps ∅ = Some (map (answer m K) ps, cache)) /\
  (start_monotone m K \/ times_ok m -> BeginTime K <= EndTime K -> BeginTime K <> ALWAYS_ACTIVE -> map (answer m K) ps = map (state_after m K) ps).
Proof.
  intros Hm HP Hps. split.
  - enough (forall cache, cache_ok m K cache -> exists cache', queries m K ps cache = Some (map (answer m K) ps, cache')) as Hgen by (apply Hgen, map_Forall_empty).
    induction Hps as [ | p ps Hp Hps IH]; intros cache Hc; simpl; [by exists cache | ].
    destruct (GetStateFor_answer m Hm K HP p cache Hc Hp) as (cache1 & -> & Hc1).
    cbn [mbind option_bind]. destruct (IH cache1 Hc1) as (cache2 & ->). by exists cache2.
  - intros Hs Hends Ha. apply map_ext. intros p. apply answer_bip9; try done. destruct Hs as [Hs | Hs]; [done | by apply times_ok_start].
Qed.

(** Progress of a deployment.  Between one period and the next the state moves along an edge
    of the machine; lock-in happens only when the period had enough signalling blocks before the
    timeout, and is followed by activation; active and failed are final; and at the end of any
    period whose median time has reached the timeout the deployment is active or failed. *)
Theorem version_bits_progress m K p b j :
  index_ok m -> checker_ok m K -> m !! p = Some b -> nHeight b + 1 < 2 ^ 31 -> (j < periods K b)%nat ->
  exists q, boundary m K p (S j) = Some q /\ GetStateFor m K (Some q) ∅ <> None /\
    (forall s' c, GetStateFor m K (Some q) ∅ = Some (s', c) ->
       edge (bip9 m K p j) s' /\
       (s' = LOCKED_IN -> mtp_of m q < EndTime K /\ Threshold K <= signals m K q) /\
       (EndTime K <= mtp_of m q -> s' = ACTIVE \/ s' = FAILED) /\
       (bip9 m K p j = LOCKED_IN -> s' = ACTIVE) /\
       (s' = ACTIVE \/ s' = FAILED -> forall k, (j < k <= periods K b)%nat -> bip9 m K p k = s')).
Proof.
  intros Hm [HP Hstart Hends Hused] Hp Hroom Hj.
  destruct (boundary_some m Hm K HP p b (S j) Hp ltac:(lia)) as (q & c & Hq & Hc & Hh).
  pose proof (proj1 (periods_le m Hm K HP p b (S j) Hp) ltac:(lia)) as Hper. pose proof (height_range m Hm _ _ Hp).
  pose proof (height_range m Hm _ _ Hc).
  destruct (GetStateFor_spec m Hm K HP Hstart Hends (Some q) ∅ Hused (map_Forall_empty _)) as (cache & E & _).
  { intros q' [= <-]. exists c. split; [done | lia]. }
  rewrite (state_after_boundary m Hm K HP p b (S j) q) in E by (done || lia).
  exists q. split; [done | ]. rewrite E. split; [done | ]. intros s' c' E'.
  assert (s' = bip9 m K p (S j)) as -> by congruence. clear E'.
  pose proof (bip9_edge m Hm K HP p b j Hp Hj) as He. split; [done | ].
  split; [ | split; [ | split]].
  - cbn [bip9]. rewrite Hq. destruct (bip9 m K p j); simpl; try done.
    + repeat destruct (_ <=? _); discriminate.
    + destruct (Z.leb_spec (EndTime K) (mtp_of m q)); [discriminate | ].
      destruct (Z.leb_spec (Threshold K) (signals m K q)); [by split | discriminate].
  - intros Ht. cbn [bip9]. rewrite Hq. destruct (Z.leb_spec (EndTime K) (mtp_of m q)) as [Hle | ]; [ | lia].
    destruct (bip9 m K p j); simpl; auto; destruct (Z.leb_spec (EndTime K) (mtp_of m q)); auto; lia.
  - intros El. rewrite El in He. by destruct (bip9 m K p (S j)).
  - intros Hs k Hk. by apply (bip9_final m Hm K HP p b).
Qed.

(** The height a state began at.  It is 0 for a deployment that is merely defined; otherwise it
    is the first height of the period from which on the state has been what it is, and in the
    period before it was different. *)
Theorem version_bits_since_height m K p b :
  index_ok m -> checker_ok m K -> m !! p = Some b -> nHeight b + 1 < 2 ^ 31 ->
  exists h cache, GetStateSinceHeightFor m K (Some p) ∅ = Some (h, cache) /\
    (state_after m K (Some p) = DEFINED -> h = 0) /\
    (state_after m K (Some p) <> DEFINED -> exists i, h = Z.of_nat i * Period K /\ (0 < i <= periods K b)%nat /\
       (forall j, (i <= j <= periods K b)%nat -> bip9 m K p j = state_after m K (Some p)) /\
       bip9 m K p (i - 1) <> state_after m K (Some p)).
Proof.
  intros Hm [HP Hstart Hends Hused] Hp Hh.
  destruct (GetStateSinceHeightFor_spec m Hm K HP Hstart Hends p b ∅ Hp Hh Hused (map_Forall_empty _))
    as (h & cache & E & _ & H). exists h, cache. split; [done | ].
  destruct (decide _) as [Hd | Hd]; [by split | ]. split; [done | ]. intros _.
  destruct H as (i & -> & Hi & Hall & Hfirst). exists i. split_and!; [done | lia | lia | done | ].
  destruct Hfirst as [-> | ]; [ | done]. change (DEFINED <> state_after m K (Some p)). congruence.
Qed.

(** A deployment with periods of two blocks, on the sample chain *)
Definition sample_deployment : ThresholdConditionChecker :=
  mk_checker (fun b => 5 <=? bi_nVersion b) 0 1000000 2 2.

Lemma sample_deployment_ok : checker_ok (mapBlockIndex (sample_state 5)) sample_deployment.
Proof.
  split; [split; [reflexivity | reflexivity] | | discriminate | discriminate].
  apply zero_start; [exact (proj1 (reachable_ok _ _ (sample_reachable 5 (le_n 5)))) | | reflexivity].
  apply (bool_decide_unpack _). vm_compute. exact I.
Qed.

Lemma sample_index_ok : index_ok (mapBlockIndex (sample_state 5)).
Proof. exact (proj1 (reachable_ok _ _ (sample_reachable 5 (le_n 5)))). Qed.

Lemma version_bits_state_exact_witness :
  let m := mapBlockIndex (sample_state 5) in
  let tip := Block_GetHash toy_crypto (sample_header 4) in
  exists cache, queries m sample_deployment [Some tip; None; Some tip] ∅ =
    Some ([LOCKED_IN; DEFINED; LOCKED_IN], cache).
Proof.
  intros m tip. destruct (version_bits_state_exact m sample_deployment [Some tip; None; Some tip]) as [(cache & E) Eb9].
  - exact sample_index_ok.
  - exact (ck_period _ _ sample_deployment_ok).
  - destruct (m !! tip) as [b | ] eqn:Eb; [ | vm_compute in Eb; discriminate].
    assert (Hh : nHeight b = 4) by (vm_compute in Eb; injection Eb as <-; reflexivity).
    assert (has_successor m (Some tip)) by (intros p [= <-]; exists b; split; [exact Eb | rewrite Hh; reflexivity]).
    repeat constructor; try assumption. intros p [=].
  - exists cache. rewrite E. rewrite Eb9; [do 2 f_equal | left; exact (ck_start _ _ sample_deployment_ok) | discriminate | discriminate].
Defined.

Lemma version_bits_progress_witness :
  let m := mapBlockIndex (sample_state 5) in
  let tip := Block_GetHash toy_crypto (sample_header 4) in
  exists q, boundary m sample_deployment tip 2 = Some q /\ GetStateFor m sample_deployment (Some q) ∅ <> None.
Proof.
  intros m tip. destruct (m !! tip) as [b | ] eqn:Eb; [ | vm_compute in Eb; discriminate].
  destruct (version_bits_progress m sample_deployment tip b 1) as (q & Eq & Hs & _).
  - exact sample_index_ok.
  - exact sample_deployment_ok.
  - exact Eb.
  - vm_compute in Eb. injection Eb as <-. reflexivity.
  - vm_compute in Eb. injection Eb as <-. vm_compute. lia.
  - exists q. split; [exact Eq | exact Hs].
Defined.

Lemma version_bits_since_height_witness :
  let m := mapBlockIndex (sample_state 5) in
  let tip := Block_GetHash toy_crypto (sample_header 4) in
  exists h cache, GetStateSinceHeightFor m sample_deployment (Some tip) ∅ = Some (h, cache) /\ h = 4.
Proof.
  intros m tip. destruct (m !! tip) as [b | ] eqn:Eb; [ | vm_compute in Eb; discriminate].
  destruct (version_bits_since_height m sample_deployment tip b) as (h & cache & E & _).
  - exact sample_index_ok.
  - exact sample_deployment_ok.
  - exact Eb.
  - vm_compute in Eb. injection Eb as <-. reflexivity.
  - exists h, cache. split; [exact E | ]. apply (f_equal (fmap fst)) in E. vm_compute in E. injection E as <-. reflexivity.
Defined.
