(* ===== verification/Undo.v ===== *)
(** * Connecting and disconnecting a block's coins ([UpdateCoins], [ApplyTxInUndo] and
      [DisconnectBlock] of [src/validation.cpp], [AccessByTxid] of [src/coins.cpp])

    What a block does to the set of unspent outputs when it is connected, the undo records this
    leaves, and how a reorganisation takes them back.

    Theorem: on any lawful cache, disconnecting the block that was just connected succeeds cleanly
    and gives back exactly the unspent outputs and the best block of before. *)

From stdpp Require Import gmap.
From S2P Require Import Prelude Serialize Script Interpreter Transaction Block Chain Coins.
Open Scope Z_scope.

(** ** Definitions *)

Definition CTxUndo : Type := list Coin.
Definition CBlockUndo : Type := list CTxUndo.

Inductive DisconnectResult : Type := DISCONNECT_OK | DISCONNECT_UNCLEAN | DISCONNECT_FAILED.

Section Undo.
Context {B : Type} `{CoinsView B} (usage : Coin -> Z).
Abbreviation cache := (CCoinsViewCache B).

(** The loop of [UpdateCoins] over the inputs; [None] is the failed assertion that a coin was spent *)
Fixpoint spend_inputs (inputs : cache) (vin : list CTxIn) (vprevout : CTxUndo) : option (cache * CTxUndo) :=
  match vin with
  | [] => Some (inputs, vprevout)
  | txin :: vin =>
      let '(is_spent, moveout, inputs) := SpendCoin usage inputs (prevout txin) in
      if negb is_spent then None
      else spend_inputs inputs vin (vprevout ++ [default Coin_Clear moveout])
  end.

Definition UpdateCoins (tx : CTransaction) (inputs : cache) (txundo : CTxUndo) (nHeight : Z)
  : option (cache * CTxUndo) :=
  '(inputs, txundo) ← (if negb (IsCoinBase tx) then spend_inputs inputs (vin tx) txundo
                       else Some (inputs, txundo));
  inputs ← AddCoins usage inputs tx nHeight false;
  Some (inputs, txundo).

(** What [ConnectBlock] does to the coins once its checks have passed: each transaction in turn, an
    undo record for all but the first *)
Fixpoint connect_txs (view : cache) (first : bool) (vtx : list CTransaction) (nHeight : Z) (vtxundo : CBlockUndo)
  : option (cache * CBlockUndo) :=
  match vtx with
  | [] => Some (view, vtxundo)
  | tx :: vtx =>
      '(view, txundo) ← UpdateCoins tx view [] nHeight;
      connect_txs view false vtx nHeight (if first then vtxundo else vtxundo ++ [txundo])
  end.
Definition ConnectBlock_coins (block : CBlock) (pindex : CBlockIndex) (view : cache)
  : option (cache * CBlockUndo) :=
  '(view, blockundo) ← connect_txs view true (vtx block) (nHeight pindex) [];
  hash ← phashBlock pindex;
  Some (SetBestBlock view hash, blockundo).

(** [MAX_OUTPUTS_PER_BLOCK] for the weight the program started with: an empty output takes nine bytes *)
Definition MIN_TRANSACTION_OUTPUT_WEIGHT : Z := 4 * 9.
Definition MAX_OUTPUTS_PER_BLOCK (dgpMaxBlockWeight : Z) : Z := dgpMaxBlockWeight / MIN_TRANSACTION_OUTPUT_WEIGHT.

Fixpoint AccessByTxid_loop (left_ : nat) (view : cache) (txid : uint256) (n : Z) : Coin * cache :=
  match left_ with
  | O => (Coin_Clear, view)
  | S left_ =>
      let '(alternate, view) := AccessCoin usage view (mk_COutPoint txid (u32 n)) in
      if negb (IsSpent alternate) then (alternate, view) else AccessByTxid_loop left_ view txid (n + 1)
  end.
Definition AccessByTxid (dgpMaxBlockWeight : Z) (view : cache) (txid : uint256) : Coin * cache :=
  AccessByTxid_loop (Z.to_nat (MAX_OUTPUTS_PER_BLOCK dgpMaxBlockWeight)) view txid 0.

Section Disconnect.
Context (dgpMaxBlockWeight : Z).

(** [None]: [AddCoin] throws or its assertion fails *)
Definition ApplyTxInUndo (undo : Coin) (view : cache) (out_ : COutPoint) : option (DisconnectResult * cache) :=
  let '(have, view) := HaveCoin usage view out_ in
  let fClean := negb have in
  let '(undo, view) :=
    if coin_nHeight undo =? 0 then
      let '(alternate, view) := AccessByTxid dgpMaxBlockWeight view (outpoint_hash out_) in
      (if negb (IsSpent alternate)
       then Some (mk_Coin (out undo) (fCoinBase alternate) (fCoinStake undo) (coin_nHeight alternate))
       else None, view)
    else (Some undo, view) in
  match undo with
  | None => Some (DISCONNECT_FAILED, view)
  | Some undo =>
      view ← AddCoin usage view out_ undo (negb fClean);
      Some (if fClean then DISCONNECT_OK else DISCONNECT_UNCLEAN, view)
  end.

(** One output of a transaction: it is spent, and compared with what the block created *)
Definition spend_output (view : cache) (hash : uint256) (o : Z) (t : CTxOut) (height : Z)
  (is_coinbase is_coinstake fClean : bool) : bool * cache :=
  if negb (IsUnspendable (scriptPubKey t)) then
    let '(is_spent, moveout, view) := SpendCoin usage view (mk_COutPoint hash (u32 o)) in
    let c := default Coin_Clear moveout in
    (if negb is_spent || negb (bool_decide (t = out c)) || negb (height =? coin_nHeight c) ||
        negb (Bool.eqb is_coinbase (fCoinBase c)) || negb (Bool.eqb is_coinstake (fCoinStake c))
     then false else fClean, view)
  else (fClean, view).

Fixpoint spend_outputs (view : cache) (hash : uint256) (o : Z) (vout : list CTxOut) (height : Z)
  (is_coinbase is_coinstake fClean : bool) : bool * cache :=
  match vout with
  | [] => (fClean, view)
  | t :: vout =>
      let '(fClean, view) := spend_output view hash o t height is_coinbase is_coinstake fClean in
      spend_outputs view hash (o + 1) vout height is_coinbase is_coinstake fClean
  end.

(** The loop over the inputs, from the last to the first.  The outer [None]: a throw; the inner
    one: [DISCONNECT_FAILED] *)
Fixpoint restore_inputs (view : cache) (ins : list (CTxIn * Coin)) (fClean : bool) : option (option bool * cache) :=
  match ins with
  | [] => Some (Some fClean, view)
  | (txin, undo) :: ins =>
      '(res, view) ← ApplyTxInUndo undo view (prevout txin);
      match res with
      | DISCONNECT_FAILED => Some (None, view)
      | DISCONNECT_UNCLEAN => restore_inputs view ins false
      | DISCONNECT_OK => restore_inputs view ins fClean
      end
  end.

(** [for (int i = block.vtx.size() - 1; i >= 0; i--)], from [i = n - 1] *)
Fixpoint disconnect_txs (n : nat) (vtx : list CTransaction) (vtxundo : CBlockUndo) (height : Z)
  (view : cache) (fClean : bool) : option (option bool * cache) :=
  match n with
  | O => Some (Some fClean, view)
  | S i =>
      tx ← vtx !! i;
      let '(fClean, view) := spend_outputs view (GetHash tx) 0 (vout tx) height (IsCoinBase tx) (IsCoinStake tx) fClean in
      match i with
      | O => disconnect_txs i vtx vtxundo height view fClean
      | S i' =>
          txundo ← vtxundo !! i';
          if negb (vsize txundo =? vsize (vin tx)) then Some (None, view)
          else
            '(res, view) ← restore_inputs view (rev (zip (vin tx) txundo)) fClean;
            match res with
            | None => Some (None, view)
            | Some fClean => disconnect_txs i vtx vtxundo height view fClean
            end
      end
  end.

(** [DisconnectBlock].  [blockUndo] is what [UndoReadFromDisk] gives ([None]: it failed); the roots
    the contract state is set back to come with the result.  [None]: an assertion fails or a null
    pointer is followed *)
Definition DisconnectBlock (m : BlockMap) (block : CBlock) (pindex : CBlockIndex) (view : cache)
  (blockUndo : option CBlockUndo) : option (DisconnectResult * cache * option (uint256 * uint256)) :=
  hash ← phashBlock pindex;
  let '(bestBlock, view) := GetBestBlock view in
  if negb (base_blob_eq hash bestBlock) then None
  else match blockUndo with
  | None => Some (DISCONNECT_FAILED, view, None)
  | Some vtxundo =>
      if negb (vsize vtxundo + 1 =? vsize (vtx block)) then Some (DISCONNECT_FAILED, view, None)
      else
        '(res, view) ← disconnect_txs (length (vtx block)) (vtx block) vtxundo (nHeight pindex) view true;
        match res with
        | None => Some (DISCONNECT_FAILED, view, None)
        | Some fClean =>
            prev ← pprev pindex; bprev ← m !! prev; hashPrev ← phashBlock bprev;
            Some (if (fClean : bool) then DISCONNECT_OK else DISCONNECT_UNCLEAN,
                  SetBestBlock view hashPrev, Some (bi_hashStateRoot bprev, bi_hashUTXORoot bprev))
        end
  end.
End Disconnect.
End Undo.

(** ** Theorems *)

(** *** What a transaction does to the unspent outputs *)

(** The coin an outpoint of transaction [txid] becomes, for its outputs from index [i] on *)
Definition new_coin (txid : uint256) (i : Z) (vout : list CTxOut) (h : Z) (cb cs : bool) (o : COutPoint) : option Coin :=
  if bool_decide (outpoint_hash o = txid /\ i <= outpoint_n o) then
    t ← vout !! Z.to_nat (outpoint_n o - i);
    if IsUnspendable (scriptPubKey t) then None else Some (Coin_new t h cb cs)
  else None.
Definition tx_outputs (tx : CTransaction) (h : Z) : COutPoint -> option Coin :=
  new_coin (GetHash tx) 0 (vout tx) h (IsCoinBase tx) (IsCoinStake tx).
Definition prevouts (tx : CTransaction) : list COutPoint := if IsCoinBase tx then [] else prevout <$> vin tx.

Definition apply_tx (tx : CTransaction) (h : Z) (u : COutPoint -> option Coin) (o : COutPoint) : option Coin :=
  match tx_outputs tx h o with
  | Some c => Some c
  | None => if decide (o ∈ prevouts tx) then None else u o
  end.

(** A transaction that may be connected: its inputs are distinct, unspent and have a height; its id
    is new; its outputs are values *)
Record connectable (u : COutPoint -> option Coin) (tx : CTransaction) : Prop := {
  cn_outputs : Forall (fun t => CTxOut_IsNull t = false) (vout tx);
  cn_count : vsize (vout tx) <= 2 ^ 32;
  cn_new : forall n, u (mk_COutPoint (GetHash tx) n) = None;
  cn_distinct : NoDup (prevouts tx);
  cn_inputs : Forall (fun o => exists c, u o = Some c /\ coin_nHeight c <> 0 /\
                IsUnspendable (scriptPubKey (out c)) = false) (prevouts tx) }.

(** A block: a coinbase first and nowhere else, each transaction connectable after those before it *)
Fixpoint all_connectable (u : COutPoint -> option Coin) (h : Z) (vtx : list CTransaction) : Prop :=
  match vtx with
  | [] => True
  | tx :: vtx => connectable u tx /\ all_connectable (apply_tx tx h u) h vtx
  end.
Definition block_connectable (u : COutPoint -> option Coin) (h : Z) (block : CBlock) : Prop :=
  match vtx block with
  | [] => False
  | tx :: rest => IsCoinBase tx = true /\ Forall (fun t : CTransaction => IsCoinBase t = false) rest /\
                  all_connectable u h (vtx block)
  end.

Lemma new_coin_head txid i t vout h cb cs :
  new_coin txid i (t :: vout) h cb cs (mk_COutPoint txid i) =
    if IsUnspendable (scriptPubKey t) then None else Some (Coin_new t h cb cs).
Proof.
  unfold new_coin. cbn [outpoint_hash outpoint_n]. rewrite bool_decide_true by (split; [done | lia]).
  by rewrite Z.sub_diag.
Qed.

Lemma new_coin_tail txid i t vout h cb cs o : o <> mk_COutPoint txid i ->
  new_coin txid i (t :: vout) h cb cs o = new_coin txid (i + 1) vout h cb cs o.
Proof.
  intros Hne. unfold new_coin. destruct o as [oh on]. cbn [outpoint_hash outpoint_n] in *.
  destruct (decide (oh = txid /\ i + 1 <= on)) as [[-> Hi] | Hno].
  - rewrite !bool_decide_true by (split; [done | lia]).
    by replace (Z.to_nat (on - i)) with (S (Z.to_nat (on - (i + 1)))) by lia.
  - rewrite (bool_decide_false (oh = txid /\ i + 1 <= on)) by done.
    rewrite bool_decide_false; [done | ]. intros [-> Hi]. apply Hno. split; [done | ].
    destruct (decide (on = i)) as [-> | ]; [done | lia].
Qed.

Lemma new_coin_before txid i vout h cb cs n : n < i -> new_coin txid i vout h cb cs (mk_COutPoint txid n) = None.
Proof. intros Hn. unfold new_coin. cbn [outpoint_hash outpoint_n]. rewrite bool_decide_false; [done | ]. intros [_ ?]. lia. Qed.

(** Sets of unspent outputs are compared outpoint by outpoint. *)
Abbreviation utxo_eq := (pointwise_relation COutPoint (@eq (option Coin))).

#[export] Instance apply_tx_proper tx h : Proper (utxo_eq ==> utxo_eq) (apply_tx tx h).
Proof. intros u u' Hu o. unfold apply_tx. by rewrite (Hu o). Qed.

#[export] Instance connectable_proper : Proper (utxo_eq ==> eq ==> iff) connectable.
Proof.
  assert (Himp : forall u u' tx, utxo_eq u u' -> connectable u tx -> connectable u' tx).
  { intros u u' tx Hu [H1 H2 H3 H4 H5]. split; [done | done | intros n; by rewrite <- (Hu _) | done | ].
    eapply Forall_impl; [exact H5 | ]. intros o (c & Hc & Hr). exists c. by rewrite <- (Hu o). }
  intros u u' Hu tx _ <-. split; apply Himp; [done | by symmetry].
Qed.

#[export] Instance all_connectable_proper : Proper (utxo_eq ==> eq ==> eq ==> iff) all_connectable.
Proof.
  intros u u' Hu h _ <- l _ <-. revert u u' Hu. induction l as [ | tx l IH]; intros u u' Hu; simpl; [done | ].
  rewrite (connectable_proper u u' Hu tx tx eq_refl). by rewrite (IH _ _ (apply_tx_proper tx h u u' Hu)).
Qed.

Definition apply_txs (h : Z) (u : COutPoint -> option Coin) (l : list CTransaction) : COutPoint -> option Coin :=
  foldl (fun u tx => apply_tx tx h u) u l.

Lemma apply_txs_snoc h u l tx : apply_txs h u (l ++ [tx]) = apply_tx tx h (apply_txs h u l).
Proof. unfold apply_txs. by rewrite foldl_app. Qed.

#[export] Instance apply_txs_proper h : Proper (utxo_eq ==> eq ==> utxo_eq) (apply_txs h).
Proof.
  intros u u' Hu l _ <-. revert u u' Hu. induction l as [ | tx l IH]; intros u u' Hu; [done | ].
  unfold apply_txs. simpl. apply IH. by apply apply_tx_proper.
Qed.

Lemma all_connectable_lookup h u l k tx : all_connectable u h l -> l !! k = Some tx ->
  connectable (apply_txs h u (take k l)) tx.
Proof.
  revert u k. induction l as [ | t l IH]; intros u [ | k] Hall Hk; simpl in *; try done.
  - injection Hk as <-. by destruct Hall.
  - destruct Hall as [_ Hall]. by apply IH.
Qed.

(** The undo records of transactions that are not coinbases *)
Fixpoint undo_ok (h : Z) (u : COutPoint -> option Coin) (l : list CTransaction) (undos : CBlockUndo) : Prop :=
  match l, undos with
  | [], [] => True
  | tx :: l, k :: undos =>
      Forall2 (fun i c => u (prevout i) = Some c) (vin tx) k /\ undo_ok h (apply_tx tx h u) l undos
  | _, _ => False
  end.

Lemma undo_ok_proper h u u' l undos : utxo_eq u u' -> undo_ok h u l undos -> undo_ok h u' l undos.
Proof.
  revert u u' undos. induction l as [ | tx l IH]; intros u u' [ | k undos] Hu; simpl; try done.
  intros [Hf Hr]. split; [ | by eapply IH; [apply apply_tx_proper | ]].
  eapply Forall2_impl; [exact Hf | ]. intros i c Hc. by rewrite <- (Hu _).
Qed.

Lemma undo_ok_length h u l undos : undo_ok h u l undos -> length undos = length l.
Proof.
  revert u undos. induction l as [ | tx l IH]; intros u [ | k undos]; simpl; try done. intros [_ Hr]. f_equal. by eapply IH.
Qed.

Lemma undo_ok_lookup h u l undos k (tx : CTransaction) : undo_ok h u l undos -> l !! k = Some tx ->
  exists coins, undos !! k = Some coins /\
    Forall2 (fun i c => apply_txs h u (take k l) (prevout i) = Some c) (vin tx) coins.
Proof.
  revert u undos k. induction l as [ | t l IH]; intros u [ | d undos] [ | k]; simpl; try done.
  - intros [Hf _] [= <-]. by exists d.
  - intros [_ Hr] Hk. by apply (IH _ undos).
Qed.

Section Inverse.
Context {B : Type} `{HB : CoinsViewLaws B} (usage : Coin -> Z).
Implicit Types c : CCoinsViewCache B.

(** [c'] has the best block of [c] and the contents [u]. *)
Definition becomes c c' (u : COutPoint -> option Coin) : Prop :=
  valid_cache c' /\ best_cache c' = best_cache c /\ forall o, contents_cache c' o = u o.

Lemma spend_inputs_spec vin c acc : valid_cache c -> NoDup (prevout <$> vin) ->
  Forall (fun o => is_Some (contents_cache c o)) (prevout <$> vin) ->
  exists c' coins, spend_inputs usage c vin acc = Some (c', acc ++ coins) /\
    becomes c c' (fun o => if decide (o ∈ prevout <$> vin) then None else contents_cache c o) /\
    Forall2 (fun i k => contents_cache c (prevout i) = Some k) vin coins.
Proof.
  revert c acc. induction vin as [ | i vin IH]; intros c acc Hv Hnd Hin; cbn [spend_inputs].
  { exists c, []. rewrite app_nil_r. split; [done | ]. split; [ | constructor]. split_and!; [done | done | ].
    intros o. by destruct (decide (o ∈ prevout <$> [])) as [Ho%elem_of_nil | ]. }
  rewrite fmap_cons in Hnd, Hin. apply NoDup_cons in Hnd as [Hni Hnd]. apply Forall_cons in Hin as [[k Hk] Hin].
  pose proof (SpendCoin_spec usage c (prevout i) Hv) as Hs.
  destruct (SpendCoin usage c (prevout i)) as [[b mo] c1]. destruct Hs as (Hv1 & Hb1 & Hc1 & Hm1).
  destruct (Hm1 k Hk) as [-> ->]. cbn [negb default from_option id].
  assert (Hkeep : forall o, o ∈ prevout <$> vin -> contents_cache c1 o = contents_cache c o).
  { intros o Ho. rewrite Hc1. by destruct (decide (o = prevout i)) as [-> | ]. }
  destruct (IH c1 (acc ++ [k]) Hv1 Hnd) as (c' & coins & E & (Hv' & Hb' & Hc') & Hf).
  { rewrite Forall_forall in Hin |- *. intros o Ho. rewrite Hkeep by done. by apply Hin. }
  exists c', (k :: coins). rewrite E, <- app_assoc. split; [done | ]. split; [split_and!; [done | congruence | ] | ].
  - intros o. rewrite Hc', Hc1. destruct (decide (o ∈ prevout <$> vin)) as [Ho | Ho].
    + rewrite decide_True; [done | ]. rewrite fmap_cons. by right.
    + destruct (decide (o = prevout i)) as [-> | Hne].
      * rewrite decide_True; [done | ]. rewrite fmap_cons. by left.
      * rewrite decide_False; [done | ]. rewrite fmap_cons. by intros [? | ?]%elem_of_cons.
  - constructor; [done | ]. apply Forall2_same_length_lookup_2; [by eapply Forall2_length | ].
    intros j x y Hx Hy. rewrite <- Hkeep by (apply list_elem_of_fmap; exists x; split; [done | by eapply list_elem_of_lookup_2]).
    by apply (Forall2_lookup_lr _ _ _ _ _ _ Hf Hx Hy).
Qed.

Lemma AddCoins_loop_spec vout c txid i h cb cs : valid_cache c -> 0 <= i -> i + vsize vout <= 2 ^ 32 ->
  Forall (fun t => CTxOut_IsNull t = false) vout ->
  (forall n, i <= n -> contents_cache c (mk_COutPoint txid n) = None) ->
  exists c', AddCoins_loop usage c txid i vout h cb cs false = Some c' /\
    becomes c c' (fun o => match new_coin txid i vout h cb cs o with Some k => Some k | None => contents_cache c o end).
Proof.
  revert c i. induction vout as [ | t vout IH]; intros c i Hv Hi Hn Hout Hnew; simpl.
  { exists c. split; [done | ]. split_and!; [done | done | ]. intros o. unfold new_coin. by destruct (bool_decide _). }
  apply Forall_cons in Hout as [Ht Hout]. unfold vsize in Hn. cbn [length] in Hn.
  rewrite u32_id by lia. destruct (AddCoin_spec usage c (mk_COutPoint txid i) (Coin_new t h cb cs) cb) as (c1 & -> & Hv1 & Hb1 & Hc1).
  { done. } { done. } { right. apply Hnew. lia. }
  cbn [mbind option_bind].
  destruct (IH c1 (i + 1) Hv1) as (c' & E & Hv' & Hb' & Hc'); [lia | unfold vsize; lia | done | | ].
  { intros n Hle. rewrite Hc1. rewrite decide_False by (intros [= ->]; lia). apply Hnew. lia. }
  exists c'. split; [done | ]. split_and!; [done | congruence | ]. intros o. rewrite Hc', Hc1.
  destruct (decide (o = mk_COutPoint txid i)) as [-> | Hne].
  - rewrite new_coin_before by lia. rewrite new_coin_head. cbn [out Coin_new].
    by destruct (IsUnspendable _).
  - by rewrite new_coin_tail.
Qed.

Lemma UpdateCoins_spec tx c h : valid_cache c -> connectable (contents_cache c) tx ->
  exists c' coins, UpdateCoins usage tx c [] h = Some (c', coins) /\
    becomes c c' (apply_tx tx h (contents_cache c)) /\
    (IsCoinBase tx = false -> Forall2 (fun i k => contents_cache c (prevout i) = Some k) (vin tx) coins).
Proof.
  intros Hv [Hout Hcount Hnew Hnd Hin]. unfold UpdateCoins, apply_tx, tx_outputs, AddCoins, prevouts in *.
  destruct (IsCoinBase tx) eqn:Ecb; cbn [negb mbind option_bind].
  - destruct (AddCoins_loop_spec (vout tx) c (GetHash tx) 0 h true (IsCoinStake tx) Hv) as (c' & -> & Hv' & Hb' & Hc');
      [lia | done | done | done | ]. cbn [mbind option_bind].
    exists c', []. split; [done | ]. split; [ | done]. split_and!; [done | done | ]. intros o. rewrite Hc'.
    destruct (new_coin _ _ _ _ _ _ _); [done | ]. rewrite decide_False; [done | by apply not_elem_of_nil].
  - destruct (spend_inputs_spec (vin tx) c [] Hv Hnd) as (c1 & coins & E & (Hv1 & Hb1 & Hc1) & Hf).
    { eapply Forall_impl; [exact Hin | ]. intros o (k & Hk & _). by exists k. }
    rewrite E. cbn [mbind option_bind].
    destruct (AddCoins_loop_spec (vout tx) c1 (GetHash tx) 0 h false (IsCoinStake tx) Hv1) as (c' & -> & Hv' & Hb' & Hc');
      [lia | done | done | | ].
    { intros n _. rewrite Hc1. destruct (decide _); [done | apply Hnew]. }
    cbn [mbind option_bind]. exists c', coins. split; [done | ]. split; [ | done]. split_and!; [done | congruence | ].
    intros o. rewrite Hc'. destruct (new_coin _ _ _ _ _ _ _); [done | apply Hc1].
Qed.
Lemma spend_output_spec t vout c txid i h cb cs fClean : valid_cache c -> 0 <= i < 2 ^ 32 -> 0 <= h < 2 ^ 30 ->
  (forall o k, new_coin txid i (t :: vout) h cb cs o = Some k -> contents_cache c o = Some k) ->
  exists c1, spend_output usage c txid i t h cb cs fClean = (fClean, c1) /\
    becomes c c1 (fun o => if decide (o = mk_COutPoint txid i)
      then match new_coin txid i (t :: vout) h cb cs o with Some _ => None | None => contents_cache c o end
      else contents_cache c o).
Proof.
  intros Hv Hi Hh Hhave. unfold spend_output. rewrite u32_id by lia.
  pose proof (new_coin_head txid i t vout h cb cs) as Hhead.
  destruct (IsUnspendable (scriptPubKey t)); cbn [negb].
  - exists c. split; [done | ]. split_and!; [done | done | ]. intros o.
    by destruct (decide (o = mk_COutPoint txid i)) as [-> | ]; [rewrite Hhead | ].
  - pose proof (SpendCoin_spec usage c (mk_COutPoint txid i) Hv) as Hs.
    destruct (SpendCoin usage c (mk_COutPoint txid i)) as [[b mo] c1]. destruct Hs as (Hv1 & Hb1 & Hc1 & Hm1).
    destruct (Hm1 _ (Hhave _ _ Hhead)) as [-> ->]. exists c1.
    cbn [default from_option id out Coin_new fCoinBase fCoinStake coin_nHeight]. rewrite Z.mod_small by lia.
    rewrite bool_decide_true, Z.eqb_refl, !Bool.eqb_reflx by done. split; [done | ]. split_and!; [done | done | ].
    intros o. rewrite Hc1. by destruct (decide (o = mk_COutPoint txid i)) as [-> | ]; [rewrite Hhead | ].
Qed.

Lemma spend_outputs_spec vout c txid i h cb cs fClean : valid_cache c -> 0 <= i -> i + vsize vout <= 2 ^ 32 ->
  0 <= h < 2 ^ 30 ->
  (forall o k, new_coin txid i vout h cb cs o = Some k -> contents_cache c o = Some k) ->
  exists c', spend_outputs usage c txid i vout h cb cs fClean = (fClean, c') /\
    becomes c c' (fun o => match new_coin txid i vout h cb cs o with Some _ => None | None => contents_cache c o end).
Proof.
  revert c i. induction vout as [ | t vout IH]; intros c i Hv Hi Hn Hh Hhave; cbn [spend_outputs].
  { exists c. split; [done | ]. split_and!; [done | done | ]. intros o. unfold new_coin. by destruct (bool_decide _). }
  unfold vsize in Hn. cbn [length] in Hn.
  destruct (spend_output_spec t vout c txid i h cb cs fClean Hv ltac:(lia) Hh Hhave) as (c1 & -> & Hv1 & Hb1 & Hc1).
  destruct (IH c1 (i + 1) Hv1) as (c' & E & Hv' & Hb' & Hc'); [lia | unfold vsize; lia | done | | ].
  { intros o k Ho. assert (Hne : o <> mk_COutPoint txid i) by (intros ->; by rewrite new_coin_before in Ho by lia).
    rewrite Hc1, decide_False by done. apply Hhave. by rewrite new_coin_tail. }
  exists c'. split; [done | ]. split_and!; [done | congruence | ]. intros o. rewrite Hc', Hc1.
  destruct (decide (o = mk_COutPoint txid i)) as [-> | Hne].
  - by rewrite new_coin_before by lia.
  - by rewrite new_coin_tail.
Qed.

Lemma ApplyTxInUndo_spec dgp k c o : valid_cache c -> contents_cache c o = None -> IsSpent k = false ->
  coin_nHeight k <> 0 -> IsUnspendable (scriptPubKey (out k)) = false ->
  exists c', ApplyTxInUndo usage dgp k c o = Some (DISCONNECT_OK, c') /\
    becomes c c' (fun o' => if decide (o' = o) then Some k else contents_cache c o').
Proof.
  intros Hv Hno Hsp Hh Hun. unfold ApplyTxInUndo. destruct (HaveCoin_spec usage c o Hv) as [Ha (Hv1 & Hc1 & Hb1)].
  destruct (HaveCoin usage c o) as [have c1]. cbn [fst snd] in *. rewrite Hno in Ha. rewrite bool_decide_false in Ha by (by intros []).
  subst have. cbn [negb]. destruct (Z.eqb_spec (coin_nHeight k) 0); [done | ].
  destruct (AddCoin_spec usage c1 o k false Hv1 Hsp) as (c' & -> & Hv' & Hb' & Hc').
  { right. by rewrite Hc1. }
  cbn [mbind option_bind]. exists c'. split; [done | ]. split_and!; [done | congruence | ].
  intros o'. rewrite Hc', Hun. destruct (decide (o' = o)); [done | apply Hc1].
Qed.

(** The inputs given back, in any order *)
Lemma restore_inputs_spec dgp ins c fClean : valid_cache c -> NoDup ((fun p => prevout (fst p)) <$> ins) ->
  Forall (fun p => contents_cache c (prevout (fst p)) = None /\ IsSpent (snd p) = false /\
    coin_nHeight (snd p) <> 0 /\ IsUnspendable (scriptPubKey (out (snd p))) = false) ins ->
  exists c', restore_inputs usage dgp c ins fClean = Some (Some fClean, c') /\
    valid_cache c' /\ best_cache c' = best_cache c /\
    (forall p, p ∈ ins -> contents_cache c' (prevout (fst p)) = Some (snd p)) /\
    (forall o, o ∉ (fun p => prevout (fst p)) <$> ins -> contents_cache c' o = contents_cache c o).
Proof.
  revert c. induction ins as [ | [i k] ins IH]; intros c Hv Hnd Hin; cbn [restore_inputs].
  { exists c. split_and!; [done | done | done | | done]. by intros p ?%elem_of_nil. }
  rewrite fmap_cons in Hnd. cbn [fst] in Hnd. apply NoDup_cons in Hnd as [Hni Hnd].
  apply Forall_cons in Hin as [(H1 & H2 & H3 & H4) Hin]. cbn [fst snd] in *.
  destruct (ApplyTxInUndo_spec dgp k c (prevout i) Hv H1 H2 H3 H4) as (c1 & -> & Hv1 & Hb1 & Hc1).
  cbn [mbind option_bind].
  assert (Hne : forall p, p ∈ ins -> prevout (fst p) <> prevout i).
  { intros p Hp E. apply Hni. rewrite <- E. apply list_elem_of_fmap. by exists p. }
  destruct (IH c1 Hv1 Hnd) as (c' & E & Hv' & Hb' & Hp' & Ho').
  { rewrite Forall_forall in Hin |- *. intros p Hp. rewrite Hc1, decide_False by (by apply Hne). by apply Hin. }
  exists c'. split_and!; [done | done | congruence | | ].
  - intros p [-> | Hp]%elem_of_cons; [ | by apply Hp']. cbn [fst snd]. rewrite Ho' by done. by rewrite Hc1, decide_True.
  - intros o. rewrite fmap_cons, not_elem_of_cons. cbn [fst]. intros [Hoi Hno]. rewrite Ho', Hc1 by done. by rewrite decide_False.
Qed.
(** Spending the outputs of the last transaction leaves its inputs missing and nothing else. *)
Lemma unspend_tx u tx c h fClean : valid_cache c -> 0 <= h < 2 ^ 30 -> connectable u tx ->
  (forall o, contents_cache c o = apply_tx tx h u o) ->
  exists c', spend_outputs usage c (GetHash tx) 0 (vout tx) h (IsCoinBase tx) (IsCoinStake tx) fClean = (fClean, c') /\
    becomes c c' (fun o => if decide (o ∈ prevouts tx) then None else u o).
Proof.
  intros Hv Hh [Hout Hcount Hnew Hnd Hin] Hc. unfold apply_tx, tx_outputs in Hc.
  destruct (spend_outputs_spec (vout tx) c (GetHash tx) 0 h (IsCoinBase tx) (IsCoinStake tx) fClean Hv)
    as (c' & -> & Hv' & Hb' & Hc'); [lia | done | done | intros o k Ho; by rewrite Hc, Ho | ].
  exists c'. split; [done | ]. split_and!; [done | done | ]. intros o. rewrite Hc', Hc.
  destruct (new_coin _ _ _ _ _ _ _) eqn:Eo; [ | done]. unfold new_coin in Eo.
  destruct (bool_decide_reflect (outpoint_hash o = GetHash tx /\ 0 <= outpoint_n o)) as [[Eh _] | ]; [ | done].
  destruct (decide _); [done | ]. symmetry. destruct o as [oh on]. simpl in Eh. subst oh. apply Hnew.
Qed.

Lemma zip_prevouts (l : list CTxIn) (k : list Coin) : length l = length k ->
  (fun p => prevout (fst p)) <$> zip l k = prevout <$> l.
Proof. intros E. rewrite <- (fst_zip l k) at 2 by lia. by rewrite <- list_fmap_compose. Qed.

Lemma undo_tx dgp u tx c h coins fClean : valid_cache c -> 0 <= h < 2 ^ 30 -> connectable u tx ->
  IsCoinBase tx = false -> (forall o, contents_cache c o = apply_tx tx h u o) ->
  (forall o k, u o = Some k -> IsSpent k = false) ->
  Forall2 (fun i k => u (prevout i) = Some k) (vin tx) coins ->
  exists c1 c', spend_outputs usage c (GetHash tx) 0 (vout tx) h (IsCoinBase tx) (IsCoinStake tx) fClean = (fClean, c1) /\
    (vsize coins =? vsize (vin tx)) = true /\
    restore_inputs usage dgp c1 (rev (zip (vin tx) coins)) fClean = Some (Some fClean, c') /\ becomes c c' u.
Proof.
  intros Hv Hh Hcn Hcb Hc Hun Hf. destruct (unspend_tx u tx c h fClean Hv Hh Hcn Hc) as (c1 & E1 & Hv1 & Hb1 & Hc1).
  destruct Hcn as [_ _ _ Hnd Hin]. unfold prevouts in *. rewrite Hcb in *.
  pose proof (Forall2_length _ _ _ Hf) as Hlen.
  assert (Hpairs : forall p, p ∈ zip (vin tx) coins -> u (prevout (fst p)) = Some (snd p) /\ prevout (fst p) ∈ prevout <$> vin tx).
  { intros [i k] [j Hj]%list_elem_of_lookup. apply lookup_zip_Some in Hj as [Hi Hk]. cbn [fst snd].
    split; [exact (Forall2_lookup_lr _ _ _ _ _ _ Hf Hi Hk) | ].
    apply list_elem_of_fmap. exists i. split; [done | by eapply list_elem_of_lookup_2]. }
  destruct (restore_inputs_spec dgp (rev (zip (vin tx) coins)) c1 fClean Hv1) as (c' & E' & Hv' & Hb' & Hp' & Ho').
  - rewrite <- Permutation_rev, zip_prevouts by done. done.
  - rewrite <- Permutation_rev, Forall_forall. intros p Hp. destruct (Hpairs p Hp) as [Hu Hpre].
    rewrite Hc1, decide_True by done. rewrite Forall_forall in Hin.
    destruct (Hin _ Hpre) as (k & Hk & H1 & H2). assert (k = snd p) as -> by congruence.
    split_and!; [done | by eapply Hun | done | done].
  - exists c1, c'. split_and!; [done | unfold vsize; rewrite Hlen; apply Z.eqb_refl | done | ].
    split_and!; [done | congruence | ]. intros o. destruct (decide (o ∈ prevout <$> vin tx)) as [Ho | Ho].
    + rewrite <- (zip_prevouts _ coins) in Ho by done. apply list_elem_of_fmap in Ho as (p & -> & Hp).
      rewrite Hp' by (by rewrite <- Permutation_rev). symmetry. by apply Hpairs.
    + rewrite Ho' by (by rewrite <- Permutation_rev, zip_prevouts). by rewrite Hc1, decide_False.
Qed.

(** *** A whole block *)

Lemma connect_txs_spec h vtx c acc : valid_cache c -> Forall (fun t : CTransaction => IsCoinBase t = false) vtx ->
  all_connectable (contents_cache c) h vtx ->
  exists c' undos, connect_txs usage c false vtx h acc = Some (c', acc ++ undos) /\
    becomes c c' (apply_txs h (contents_cache c) vtx) /\ undo_ok h (contents_cache c) vtx undos.
Proof.
  revert c acc. induction vtx as [ | tx vtx IH]; intros c acc Hv Hncb Hall; cbn [connect_txs].
  { exists c, []. rewrite app_nil_r. split_and!; try done. }
  apply Forall_cons in Hncb as [Hcb Hncb]. destruct Hall as [Hcn Hall].
  destruct (UpdateCoins_spec tx c h Hv Hcn) as (c1 & coins & -> & (Hv1 & Hb1 & Hc1) & Hf). cbn [mbind option_bind].
  destruct (IH c1 (acc ++ [coins]) Hv1 Hncb) as (c' & undos & E & (Hv' & Hb' & Hc') & Hu).
  { eapply all_connectable_proper; [exact Hc1 | done | done | done]. }
  exists c', (coins :: undos). rewrite E, <- app_assoc. split; [done | ]. split.
  - split_and!; [done | congruence | ]. intros o. rewrite Hc'.
    by apply (apply_txs_proper h _ (apply_tx tx h (contents_cache c)) Hc1 vtx vtx eq_refl).
  - split; [by apply Hf | ]. by eapply undo_ok_proper.
Qed.

(** The coins that appear while a block is connected are unspent. *)
Lemma apply_tx_unspent tx h u : connectable u tx -> (forall o k, u o = Some k -> IsSpent k = false) ->
  forall o k, apply_tx tx h u o = Some k -> IsSpent k = false.
Proof.
  intros [Hout _ _ _ _] Hu o k. unfold apply_tx. destruct (tx_outputs tx h o) as [k' | ] eqn:E.
  - intros [= <-]. unfold tx_outputs, new_coin in E. destruct (bool_decide _); [ | done].
    destruct (vout tx !! _) as [t | ] eqn:Et; [ | done]. cbn [mbind option_bind] in E.
    destruct (IsUnspendable _); [done | ]. injection E as <-. rewrite Forall_forall in Hout.
    apply Hout. by eapply list_elem_of_lookup_2.
  - destruct (decide _); [done | apply Hu].
Qed.

Lemma apply_txs_unspent h l u : all_connectable u h l -> (forall o k, u o = Some k -> IsSpent k = false) ->
  forall n o k, apply_txs h u (take n l) o = Some k -> IsSpent k = false.
Proof.
  revert u. induction l as [ | tx l IH]; intros u Hall Hu n; [by rewrite take_nil | ]. destruct n as [ | n]; [done | ].
  destruct Hall as [Hcn Hall]. apply (IH (apply_tx tx h u)); [done | ]. by apply apply_tx_unspent.
Qed.

Lemma disconnect_txs_spec dgp h u (cb : CTransaction) rest undos n c fClean : valid_cache c -> 0 <= h < 2 ^ 30 ->
  IsCoinBase cb = true -> Forall (fun t : CTransaction => IsCoinBase t = false) rest ->
  connectable u cb -> all_connectable (apply_tx cb h u) h rest -> undo_ok h (apply_tx cb h u) rest undos ->
  (forall o k, u o = Some k -> IsSpent k = false) -> (n <= length rest)%nat ->
  (forall o, contents_cache c o = apply_txs h (apply_tx cb h u) (take n rest) o) ->
  exists c', disconnect_txs usage dgp (S n) (cb :: rest) undos h c fClean = Some (Some fClean, c') /\ becomes c c' u.
Proof.
  intros Hv Hh Hcb Hncb Hcn Hall Hundo Hun. revert c Hv. induction n as [ | n IH]; intros c Hv Hn Hc.
  - cbn [disconnect_txs]. change ((cb :: rest) !! 0%nat) with (Some cb). cbn [mbind option_bind].
    destruct (unspend_tx u cb c h fClean Hv Hh Hcn Hc) as (c1 & -> & Hv1 & Hb1 & Hc1).
    exists c1. split; [done | ]. split_and!; [done | done | ]. intros o. rewrite Hc1. unfold prevouts.
    rewrite Hcb. rewrite decide_False; [done | by apply not_elem_of_nil].
  - destruct (lookup_lt_is_Some_2 rest n ltac:(lia)) as [tx Htx].
    pose proof (all_connectable_lookup h _ rest n tx Hall Htx) as Hctx.
    destruct (undo_ok_lookup h _ rest undos n tx Hundo Htx) as (coins & Hk & Hf).
    assert (Htcb : IsCoinBase tx = false)
      by (rewrite Forall_forall in Hncb; apply Hncb; by eapply list_elem_of_lookup_2).
    set (un := apply_txs h (apply_tx cb h u) (take n rest)) in *.
    assert (Hcu : forall o, contents_cache c o = apply_tx tx h un o).
    { intros o. rewrite Hc. rewrite (take_S_r rest n tx Htx). by rewrite apply_txs_snoc. }
    destruct (undo_tx dgp un tx c h coins fClean Hv Hh Hctx Htcb Hcu) as (c1 & c2 & E1 & El & E2 & Hv2 & Hb2 & Hc2).
    { apply (apply_txs_unspent h rest); [done | ]. by apply apply_tx_unspent. }
    { done. }
    destruct (IH c2 Hv2 ltac:(lia) Hc2) as (c' & E & Hv' & Hb' & Hc'). exists c'.
    split; [ | split_and!; [done | congruence | done]].
    change (disconnect_txs usage dgp (S (S n)) (cb :: rest) undos h c fClean) with
      (t ← (cb :: rest) !! S n;
       let '(fClean, view) := spend_outputs usage c (GetHash t) 0 (vout t) h (IsCoinBase t) (IsCoinStake t) fClean in
       txundo ← undos !! n;
       if negb (vsize txundo =? vsize (vin t)) then Some (None, view)
       else '(res, view) ← restore_inputs usage dgp view (rev (zip (vin t) txundo)) fClean;
            match res with
            | None => Some (None, view)
            | Some fClean => disconnect_txs usage dgp (S n) (cb :: rest) undos h view fClean
            end).
    change ((cb :: rest) !! S n) with (rest !! n). rewrite Htx. cbn [mbind option_bind]. rewrite E1, Hk.
    cbn [mbind option_bind]. rewrite El. cbn [negb]. rewrite E2. cbn [mbind option_bind]. exact E.
Qed.

(** [DisconnectBlock] on what connecting a block has left *)
Lemma DisconnectBlock_ok dgp m block pindex prev bprev hash hashPrev c u cb rest undos : valid_cache c -> 0 <= nHeight pindex < 2 ^ 30 ->
  vtx block = cb :: rest -> IsCoinBase cb = true -> Forall (fun t : CTransaction => IsCoinBase t = false) rest ->
  connectable u cb -> all_connectable (apply_tx cb (nHeight pindex) u) (nHeight pindex) rest ->
  undo_ok (nHeight pindex) (apply_tx cb (nHeight pindex) u) rest undos -> (forall o k, u o = Some k -> IsSpent k = false) ->
  (forall o, contents_cache c o = apply_txs (nHeight pindex) u (vtx block) o) -> best_cache c = hash -> phashBlock pindex = Some hash ->
  pprev pindex = Some prev -> m !! prev = Some bprev -> phashBlock bprev = Some hashPrev -> base_blob_IsNull hashPrev = false ->
  exists c', DisconnectBlock usage dgp m block pindex c (Some undos) =
      Some (DISCONNECT_OK, c', Some (bi_hashStateRoot bprev, bi_hashUTXORoot bprev)) /\
    valid_cache c' /\ (forall o, contents_cache c' o = u o) /\ best_cache c' = hashPrev.
Proof.
  intros Hv Hh Evtx Hcb Hncb Hcn Hall Hundo Hun Hc Hbs Hhash Hprev Hbprev Hbest Hbn.
  destruct (GetBestBlock_spec c Hv) as [Hg (Hv3 & Hc3 & Hb3)].
  destruct (GetBestBlock c) as [g v3] eqn:Eg. cbn [fst snd] in *. subst g. rewrite Evtx in Hc.
  destruct (disconnect_txs_spec dgp (nHeight pindex) u cb rest undos (length rest) v3 true) as (v4 & E4 & Hv4 & Hb4 & Hc4); try done.
  { intros o. rewrite firstn_all, Hc3. apply Hc. }
  exists (SetBestBlock v4 hashPrev). split.
  - unfold DisconnectBlock. rewrite Hhash. cbn [mbind option_bind]. rewrite Eg, Hbs.
    rewrite base_blob_eq_spec, bool_decide_true by done. cbn [negb]. rewrite Evtx. pose proof (undo_ok_length _ _ _ _ Hundo) as Hl.
    assert ((vsize undos + 1 =? vsize (cb :: rest)) = true) as -> by (apply Z.eqb_eq; unfold vsize; cbn [length]; lia).
    cbn [negb length]. rewrite E4. cbn [mbind option_bind]. rewrite Hprev. cbn [mbind option_bind].
    rewrite Hbprev. cbn [mbind option_bind]. by rewrite Hbest.
  - split_and!; [exact Hv4 | exact Hc4 | ]. unfold best_cache. cbn [SetBestBlock hashBlock]. by rewrite Hbn.
Qed.
End Inverse.

(** (C10) Disconnecting undoes connecting.  On any valid cache, over any lawful base, connecting the
    coins of a block whose transactions are connectable in turn succeeds and applies each
    transaction's effect; disconnecting it again with the undo records this made succeeds, reports
    a clean result, leaves exactly the unspent outputs and the best block of before, and sets the
    contract state back to the roots of the previous block. *)
Theorem disconnect_undoes_connect {B} `{HB : CoinsViewLaws B} (usage : Coin -> Z) dgp m block pindex prev bprev hash
    (view : CCoinsViewCache B) :
  valid_cache view -> 0 <= nHeight pindex < 2 ^ 30 ->
  block_connectable (contents_cache view) (nHeight pindex) block ->
  phashBlock pindex = Some hash -> base_blob_IsNull hash = false ->
  pprev pindex = Some prev -> m !! prev = Some bprev ->
  phashBlock bprev = Some (best_cache view) -> base_blob_IsNull (best_cache view) = false ->
  exists view1 undo view2,
    ConnectBlock_coins usage block pindex view = Some (view1, undo) /\
    (forall o, contents_cache view1 o = apply_txs (nHeight pindex) (contents_cache view) (vtx block) o) /\
    best_cache view1 = hash /\
    DisconnectBlock usage dgp m block pindex view1 (Some undo) =
      Some (DISCONNECT_OK, view2, Some (bi_hashStateRoot bprev, bi_hashUTXORoot bprev)) /\
    same_view view view2.
Proof.
  intros Hv Hh Hblock Hhash Hnn Hprev Hbprev Hbest Hbn. unfold block_connectable in Hblock.
  destruct (vtx block) as [ | cb rest] eqn:Evtx; [done | ]. destruct Hblock as (Hcb & Hncb & Hcn & Hall).
  set (h := nHeight pindex) in *. set (u := contents_cache view) in *.
  destruct (UpdateCoins_spec usage cb view h Hv Hcn) as (v1 & k1 & E1 & (Hv1 & Hb1 & Hc1) & _).
  destruct (connect_txs_spec usage h rest v1 [] Hv1 Hncb) as (v2 & undos & E2 & (Hv2 & Hb2 & Hc2) & Hundo).
  { eapply all_connectable_proper; [exact Hc1 | done | done | done]. }
  assert (Hc2' : forall o, contents_cache v2 o = apply_txs h (apply_tx cb h u) rest o)
    by (intros o; rewrite Hc2; by apply (apply_txs_proper h _ (apply_tx cb h u) Hc1 rest rest eq_refl)).
  assert (Hundo' : undo_ok h (apply_tx cb h u) rest undos) by (by eapply undo_ok_proper).
  assert (Hbs : best_cache (SetBestBlock v2 hash) = hash) by (unfold best_cache; cbn [SetBestBlock hashBlock]; by rewrite Hnn).
  destruct (DisconnectBlock_ok usage dgp m block pindex prev bprev hash (best_cache view) (SetBestBlock v2 hash) u cb rest undos)
    as (v4 & E4 & Hv4 & Hc4 & Hb4); try done.
  { intros o k Hk. by apply (contents_cache_unspent view o). } { by rewrite Evtx. }
  exists (SetBestBlock v2 hash), undos, v4. split_and!; try done.
  unfold ConnectBlock_coins. rewrite Evtx. cbn [connect_txs]. fold h. rewrite E1. cbn [mbind option_bind].
  rewrite E2. cbn [mbind option_bind]. by rewrite Hhash.
Qed.

(** A block at height 600 that spends the coin of the sample database *)
Definition sample_coinbase : CTransaction :=
  MakeTransaction toy_crypto
    (mk_tx [mk_CTxIn COutPoint_SetNull [OP_1; OP_1] SEQUENCE_FINAL []] [mk_CTxOut (4 * COIN) [OP_TRUE]] 2 0).
Definition sample_spend : CTransaction :=
  MakeTransaction toy_crypto
    (mk_tx [mk_CTxIn (sample_outpoint 0) [] SEQUENCE_FINAL []]
           [mk_CTxOut (3 * COIN) [OP_TRUE]; mk_CTxOut 0 [OP_RETURN]] 1 0).
Definition spending_block : CBlock := mk_CBlock (sample_header 4) [sample_coinbase; sample_spend] false.
Definition spending_entry : CBlockIndex :=
  set_pprev_nHeight (set_phashBlock (CBlockIndex_of_header (sample_header 4)) (Some (repeat 2 32))) (Some (repeat 1 32)) 600.
Definition spending_prev : CBlockIndex := set_phashBlock (CBlockIndex_of_header (sample_header 3)) (Some (repeat 1 32)).

Lemma apply_tx_other tx h u o : outpoint_hash o <> GetHash tx -> o ∉ prevouts tx -> apply_tx tx h u o = u o.
Proof.
  intros Hh Ho. unfold apply_tx, tx_outputs, new_coin. rewrite bool_decide_false by (by intros [? _]).
  by rewrite decide_False.
Qed.

Lemma sample_contents o : o <> sample_outpoint 0 -> contents_cache (cache_new sample_db) o = None.
Proof. intros Ho. unfold contents_cache. simpl. rewrite lookup_empty. by rewrite lookup_singleton_ne. Qed.

Lemma spending_block_ok : block_connectable (contents_cache (cache_new sample_db)) 600 spending_block.
Proof.
  split; [reflexivity | ]. split; [by repeat constructor | ]. split; [ | split; [ | done]].
  - split; [by repeat constructor | vm_compute; discriminate | | constructor | constructor].
    intros n. apply sample_contents. vm_compute. discriminate.
  - split; [by repeat constructor | vm_compute; discriminate | | | ].
    + intros n. rewrite apply_tx_other; [apply sample_contents; vm_compute; discriminate | vm_compute; discriminate | ].
      intros Hin. by apply elem_of_nil in Hin.
    + apply NoDup_singleton.
    + apply Forall_singleton. exists sample_coin. split_and!; [ | discriminate | reflexivity].
      rewrite apply_tx_other; [reflexivity | vm_compute; discriminate | intros Hin; by apply elem_of_nil in Hin].
Qed.

Lemma disconnect_undoes_connect_witness :
  exists view1 undo view2,
    ConnectBlock_coins no_usage spending_block spending_entry (cache_new sample_db) = Some (view1, undo) /\
    DisconnectBlock no_usage 8000000 {[ repeat 1 32 := spending_prev ]} spending_block spending_entry view1 (Some undo) =
      Some (DISCONNECT_OK, view2, Some (uint256_SetNull, uint256_SetNull)).
Proof.
  destruct (disconnect_undoes_connect no_usage 8000000 {[ repeat 1 32 := spending_prev ]} spending_block spending_entry
    (repeat 1 32) spending_prev (repeat 2 32) (cache_new sample_db)) as (v1 & undo & v2 & E1 & _ & _ & E2 & _).
  - split; [exact sample_db_valid | apply map_Forall_empty].
  - vm_compute. split; [discriminate | reflexivity].
  - exact spending_block_ok.
  - reflexivity.
  - reflexivity.
  - reflexivity.
  - apply lookup_singleton_eq.
  - reflexivity.
  - reflexivity.
  - exists v1, undo, v2. split; [exact E1 | exact E2].
Defined.
