(* ===== verification/TxVerify.v ===== *)
(** * Transaction checks ([src/consensus/tx_verify.cpp], [src/consensus/validation.h],
      [src/consensus/consensus.cpp])

    The validation state, the checks on a transaction by itself and against its inputs, absolute
    and relative lock times, signature-operation costs and weights.

    Theorems: [CheckTransaction] accepts exactly the transactions that break none of its rules and
    otherwise reports a rule that is broken; [CheckTxInputs] accepts exactly when every input is an
    unspent, mature output, the sums stay in range and no value is created, and the fee it reports
    is the difference; relative lock times mean what BIP 68 says. *)

From Stdlib Require Import String.
From stdpp Require Import gmap.
From S2P Require Import Prelude Serialize Script SigEncoding Interpreter VerifyScript Standard Transaction Block Merkle Chain MedianTime Coins Pow Undo.
Open Scope Z_scope.

Abbreviation length := Datatypes.length (only parsing).

(** ** Definitions *)

(** *** Limits set by the distributed governance *)

Record BlockSizeParams : Type := mk_params {
  dgpMaxBlockSerSize : Z;
  dgpMaxBlockWeight : Z;
  dgpMaxBlockSigOps : Z;
  dgpMaxTxSigOps : Z;
  dgpMaxProtoMsgLength : Z }.

Definition MAX_TRANSACTION_BASE_SIZE : Z := 1000000.
Definition LOCKTIME_VERIFY_SEQUENCE : Z := Z.shiftl 1 0.

Definition default_params : BlockSizeParams := mk_params 8000000 8000000 80000 16000 8000000.
Definition updateBlockSizeParams (newBlockSize : Z) : BlockSizeParams :=
  let newSizeForParams := u32 (WITNESS_SCALE_FACTOR * newBlockSize) in
  let sigops := newSizeForParams / 100 in
  mk_params newSizeForParams newSizeForParams sigops (u32 (sigops / 5)) newSizeForParams.

(** *** [CValidationState] (the text for the log is left out) *)

Inductive mode_state : Type := MODE_VALID | MODE_INVALID | MODE_ERROR.
#[export] Instance mode_state_eq_dec : EqDecision mode_state.
Proof. solve_decision. Defined.

Record CValidationState : Type := mk_state {
  mode : mode_state;
  nDoS : Z;
  strRejectReason : string;
  chRejectCode : Z;
  corruptionPossible : bool }.

Definition REJECT_INVALID : Z := 0x10.
Definition CValidationState_new : CValidationState := mk_state MODE_VALID 0 String.EmptyString 0 false.

Definition DoS (st : CValidationState) (level : Z) (code : Z) (reason : string) (corruption : bool) : CValidationState :=
  if bool_decide (mode st = MODE_ERROR) then mk_state MODE_ERROR (nDoS st) reason code corruption
  else mk_state MODE_INVALID (i32 (nDoS st + level)) reason code corruption.
Definition Invalid (st : CValidationState) (code : Z) (reason : string) : CValidationState := DoS st 0 code reason false.
Definition Error (st : CValidationState) (reason : string) : CValidationState :=
  mk_state MODE_ERROR (nDoS st) (if bool_decide (mode st = MODE_VALID) then reason else strRejectReason st)
    (chRejectCode st) (corruptionPossible st).
Definition state_IsValid (st : CValidationState) : bool := bool_decide (mode st = MODE_VALID).
Definition state_IsInvalid (st : CValidationState) : option Z :=
  if bool_decide (mode st = MODE_INVALID) then Some (nDoS st) else None.
Definition state_IsError (st : CValidationState) : bool := bool_decide (mode st = MODE_ERROR).
Definition SetCorruptionPossible (st : CValidationState) : CValidationState :=
  mk_state (mode st) (nDoS st) (strRejectReason st) (chRejectCode st) true.

(** How a check ends otherwise than by going on: [return state.DoS(level, false, REJECT_INVALID,
    reason)], or an assertion that fails or an exception. *)
Inductive failure : Type :=
| Reject (level : Z) (reason : string)
| Abort.
Abbreviation checks := (result failure).

Definition fail_if (b : bool) (level : Z) (reason : string) : checks unit := if b then Err (Reject level reason) else Ok tt.

(** What the caller sees: the value returned and the state; [None] is an abort. *)
Definition report {A} (st : CValidationState) (r : checks A) : option (bool * CValidationState) :=
  match r with
  | Ok _ => Some (true, st)
  | Err (Reject level reason) => Some (false, DoS st level REJECT_INVALID reason false)
  | Err Abort => None
  end.

(** *** Weights *)

Definition NO_WITNESS_VERSION : Z := Z.lor PROTOCOL_VERSION SERIALIZE_TRANSACTION_NO_WITNESS.
Definition base_size (tx : CMutableTransaction) : Z := vsize (SerializeTransaction NO_WITNESS_VERSION tx).
Definition GetTransactionWeight (tx : CMutableTransaction) : Z :=
  base_size tx * (WITNESS_SCALE_FACTOR - 1) + vsize (SerializeTransaction PROTOCOL_VERSION tx).
Definition GetTransactionInputWeight (txin : CTxIn) : Z :=
  vsize (CTxIn_Serialize txin) * (WITNESS_SCALE_FACTOR - 1) + vsize (CTxIn_Serialize txin) + vsize (witness_Serialize (scriptWitness txin)).

(** *** Checks without context *)

Section Context_free.
(** The weight limit in force *)
Context (maxBlockWeight : Z).

(** The loop over the outputs *)
Fixpoint check_outputs (tx : CMutableTransaction) (vout : list CTxOut) (nValueOut : CAmount) : checks unit :=
  match vout with
  | [] => Ok tt
  | txout :: vout =>
      _ ← fail_if (CTxOut_IsEmpty txout && negb (IsCoinBase tx) && negb (IsCoinStake tx)) 100 "bad-txns-vout-empty"%string;
      _ ← fail_if (nValue txout <? 0) 100 "bad-txns-vout-negative"%string;
      _ ← fail_if (MAX_MONEY <? nValue txout) 100 "bad-txns-vout-toolarge"%string;
      let nValueOut := i64 (nValueOut + nValue txout) in
      _ ← fail_if (negb (MoneyRange nValueOut)) 100 "bad-txns-txouttotal-toolarge"%string;
      _ ← (if HasOpCall (scriptPubKey txout) || HasOpCreate (scriptPubKey txout) then
             match Solver (scriptPubKey txout) true with
             | None => Err Abort
             | Some s => fail_if (negb (ret s)) 100 "bad-txns-contract-nonstandard"%string
             end
           else Ok tt);
      check_outputs tx vout nValueOut
  end.

(** [vInOutPoints.insert(p).second]: a [std::set] holds one of any two elements neither of which is
    below the other. *)
Definition set_contains (s : list COutPoint) (p : COutPoint) : bool :=
  existsb (fun o => negb (COutPoint_lt o p) && negb (COutPoint_lt p o)) s.
Fixpoint check_duplicates (vInOutPoints : list COutPoint) (vin : list CTxIn) : checks unit :=
  match vin with
  | [] => Ok tt
  | txin :: vin =>
      _ ← fail_if (set_contains vInOutPoints (prevout txin)) 100 "bad-txns-inputs-duplicate"%string;
      check_duplicates (prevout txin :: vInOutPoints) vin
  end.

Fixpoint check_prevouts (vin : list CTxIn) : checks unit :=
  match vin with
  | [] => Ok tt
  | txin :: vin =>
      _ ← fail_if (COutPoint_IsNull (prevout txin)) 10 "bad-txns-prevout-null"%string;
      check_prevouts vin
  end.

Definition check_tx (tx : CMutableTransaction) (fCheckDuplicateInputs : bool) : checks unit :=
  _ ← fail_if (bool_decide (vin tx = [])) 10 "bad-txns-vin-empty"%string;
  _ ← fail_if (bool_decide (vout tx = [])) 10 "bad-txns-vout-empty"%string;
  _ ← fail_if ((MAX_TRANSACTION_BASE_SIZE <? base_size tx) || (maxBlockWeight <? base_size tx * WITNESS_SCALE_FACTOR))
        100 "bad-txns-oversize"%string;
  _ ← check_outputs tx (vout tx) 0;
  _ ← (if fCheckDuplicateInputs then check_duplicates [] (vin tx) else Ok tt);
  if IsCoinBase tx then
    match vin tx with
    | txin :: _ => fail_if ((vsize (scriptSig txin) <? 2) || (100 <? vsize (scriptSig txin))) 100 "bad-cb-length"%string
    | [] => Err Abort
    end
  else check_prevouts (vin tx).

Definition CheckTransaction (tx : CMutableTransaction) (state : CValidationState) (fCheckDuplicateInputs : bool)
  : option (bool * CValidationState) := report state (check_tx tx fCheckDuplicateInputs).
End Context_free.

(** *** Lock times *)

Definition IsFinalTx (tx : CMutableTransaction) (nBlockHeight nBlockTime : Z) : bool :=
  if nLockTime tx =? 0 then true
  else if nLockTime tx <? (if nLockTime tx <? LOCKTIME_THRESHOLD then nBlockHeight else nBlockTime) then true
  else forallb (fun txin => nSequence txin =? SEQUENCE_FINAL) (vin tx).

Section Sequence_locks.
Context (m : BlockMap).

(** One input with the height of the output it spends: the new minima and the height left in
    [prevHeights].  [None]: there is no ancestor at the height asked for. *)
Definition sequence_lock (block : ptr) (txin : CTxIn) (nCoinHeight nMinHeight nMinTime : Z) : option (Z * Z * Z) :=
  if has (nSequence txin) SEQUENCE_LOCKTIME_DISABLE_FLAG then Some (nMinHeight, nMinTime, 0)
  else if has (nSequence txin) SEQUENCE_LOCKTIME_TYPE_FLAG then
    a ← GetAncestor m block (Z.max (nCoinHeight - 1) 0);
    p ← a;
    nCoinTime ← GetMedianTimePast m p;
    Some (nMinHeight,
          Z.max nMinTime (nCoinTime + u32 (Z.shiftl (Z.land (nSequence txin) SEQUENCE_LOCKTIME_MASK) SEQUENCE_LOCKTIME_GRANULARITY) - 1),
          nCoinHeight)
  else Some (Z.max nMinHeight (nCoinHeight + Z.land (nSequence txin) SEQUENCE_LOCKTIME_MASK - 1), nMinTime, nCoinHeight).

Fixpoint sequence_locks (block : ptr) (ins : list (CTxIn * Z)) (nMinHeight nMinTime : Z) : option (Z * Z * list Z) :=
  match ins with
  | [] => Some (nMinHeight, nMinTime, [])
  | (txin, nCoinHeight) :: ins =>
      '(nMinHeight, nMinTime, h) ← sequence_lock block txin nCoinHeight nMinHeight nMinTime;
      '(nMinHeight, nMinTime, hs) ← sequence_locks block ins nMinHeight nMinTime;
      Some (nMinHeight, nMinTime, h :: hs)
  end.

(** The pair of the last invalid height and time, and [prevHeights] after the call; heights have
    thirty bits, so the sums fit an [int].  [None] also stands for the assertion on the sizes. *)
Definition CalculateSequenceLocks (tx : CMutableTransaction) (flags : Z) (prevHeights : list Z) (block : ptr)
  : option (Z * Z * list Z) :=
  if negb (vsize prevHeights =? vsize (vin tx)) then None
  else
    let fEnforceBIP68 := (2 <=? u32 (tx_nVersion tx)) && has flags LOCKTIME_VERIFY_SEQUENCE in
    if negb fEnforceBIP68 then Some (-1, -1, prevHeights)
    else sequence_locks block (zip (vin tx) prevHeights) (-1) (-1).

(** [None] is the failed assertion that there is a predecessor. *)
Definition EvaluateSequenceLocks (block : ptr) (lockPair : Z * Z) : option bool :=
  b ← m !! block;
  prev ← pprev b;
  nBlockTime ← GetMedianTimePast m prev;
  Some (negb ((nHeight b <=? fst lockPair) || (nBlockTime <=? snd lockPair))).

Definition SequenceLocks (tx : CMutableTransaction) (flags : Z) (prevHeights : list Z) (block : ptr) : option (bool * list Z) :=
  '(h, t, prevHeights) ← CalculateSequenceLocks tx flags prevHeights block;
  b ← EvaluateSequenceLocks block (h, t);
  Some (b, prevHeights).
End Sequence_locks.

(** *** Signature operations and inputs *)

Definition GetLegacySigOpCount (tx : CMutableTransaction) : Z :=
  let nSigOps := foldl (fun n txin => u32 (n + GetSigOpCount (scriptSig txin) false)) 0 (vin tx) in
  foldl (fun n txout => u32 (n + GetSigOpCount (scriptPubKey txout) false)) nSigOps (vout tx).

Section Inputs.
Context {B : Type} `{CoinsView B} (usage : Coin -> Z).
Abbreviation cache := (CCoinsViewCache B).

(** [None] is the failed assertion that the coin is not spent. *)
Fixpoint P2SHSigOps_loop (inputs : cache) (vin : list CTxIn) (nSigOps : Z) : option (Z * cache) :=
  match vin with
  | [] => Some (nSigOps, inputs)
  | txin :: vin =>
      let '(coin, inputs) := AccessCoin usage inputs (prevout txin) in
      if IsSpent coin then None
      else
        let prevout := out coin in
        P2SHSigOps_loop inputs vin
          (if IsPayToScriptHash (scriptPubKey prevout)
           then u32 (nSigOps + GetSigOpCount_P2SH (scriptPubKey prevout) (scriptSig txin)) else nSigOps)
  end.
Definition GetP2SHSigOpCount (tx : CMutableTransaction) (inputs : cache) : option (Z * cache) :=
  if IsCoinBase tx then Some (0, inputs) else P2SHSigOps_loop inputs (vin tx) 0.

Fixpoint WitnessSigOps_loop (inputs : cache) (vin : list CTxIn) (flags nSigOps : Z) : option (Z * cache) :=
  match vin with
  | [] => Some (nSigOps, inputs)
  | txin :: vin =>
      let '(coin, inputs) := AccessCoin usage inputs (prevout txin) in
      if IsSpent coin then None
      else
        n ← CountWitnessSigOps (scriptSig txin) (scriptPubKey (out coin)) (scriptWitness txin) flags;
        WitnessSigOps_loop inputs vin flags (i64 (nSigOps + n))
  end.

Definition GetTransactionSigOpCost (tx : CMutableTransaction) (inputs : cache) (flags : Z) : option (Z * cache) :=
  let nSigOps := u32 (GetLegacySigOpCount tx * WITNESS_SCALE_FACTOR) in
  if IsCoinBase tx then Some (nSigOps, inputs)
  else
    '(nSigOps, inputs) ←
      (if has flags SCRIPT_VERIFY_P2SH then
         '(n, inputs) ← GetP2SHSigOpCount tx inputs;
         Some (i64 (nSigOps + u32 (n * WITNESS_SCALE_FACTOR)), inputs)
       else Some (nSigOps, inputs));
    WitnessSigOps_loop inputs (vin tx) flags nSigOps.

(** The loop of [CheckTxInputs] over the inputs: the sum of their values *)
Fixpoint check_inputs (inputs : cache) (vin : list CTxIn) (nSpendHeight : Z) (nValueIn : CAmount) : checks CAmount * cache :=
  match vin with
  | [] => (Ok nValueIn, inputs)
  | txin :: vin =>
      let '(coin, inputs) := AccessCoin usage inputs (prevout txin) in
      if IsSpent coin then (Err Abort, inputs)
      else if (fCoinBase coin || fCoinStake coin) && (nSpendHeight - coin_nHeight coin <? COINBASE_MATURITY)
      then (Err (Reject 0 "bad-txns-premature-spend-of-coinbase"%string), inputs)
      else
        let nValueIn := i64 (nValueIn + nValue (out coin)) in
        if negb (MoneyRange (nValue (out coin))) || negb (MoneyRange nValueIn)
        then (Err (Reject 100 "bad-txns-inputvalues-outofrange"%string), inputs)
        else check_inputs inputs vin nSpendHeight nValueIn
  end.

(** What [CheckTxInputs] does to [txfee]: a coinstake leaves it as it was. *)
Definition check_values (tx : CMutableTransaction) (nValueIn : CAmount) : checks (option CAmount) :=
  if IsCoinStake tx then Ok None
  else
    match GetValueOut tx with
    | None => Err Abort
    | Some value_out =>
        _ ← fail_if (nValueIn <? value_out) 100 "bad-txns-in-belowout"%string;
        let txfee_aux := i64 (nValueIn - value_out) in
        _ ← fail_if (negb (MoneyRange txfee_aux)) 100 "bad-txns-fee-outofrange"%string;
        Ok (Some txfee_aux)
    end.

Definition check_tx_inputs (tx : CTransaction) (inputs : cache) (nSpendHeight : Z) : checks (option CAmount) * cache :=
  let '(have, inputs) := HaveInputs usage inputs tx in
  if negb have then (Err (Reject 100 "bad-txns-inputs-missingorspent"%string), inputs)
  else
    let '(r, inputs) := check_inputs inputs (vin tx) nSpendHeight 0 in
    (nValueIn ← r; check_values tx nValueIn, inputs).

(** The value returned with the state, the fee when it is set, and the cache *)
Definition CheckTxInputs (tx : CTransaction) (state : CValidationState) (inputs : cache) (nSpendHeight : Z)
  : option (bool * CValidationState) * option CAmount * cache :=
  let '(r, inputs) := check_tx_inputs tx inputs nSpendHeight in
  (report state r, match r with Ok fee => fee | Err _ => None end, inputs).
End Inputs.

(** ** Theorems *)

(** *** The rules on a transaction by itself *)

Section Rules.
Context (maxBlockWeight : Z) (fCheckDuplicateInputs : bool) (tx : CMutableTransaction).

(** A rule that is broken, with the penalty and the reason reported for it *)
Inductive violates : Z -> string -> Prop :=
| no_inputs : vin tx = [] -> violates 10 "bad-txns-vin-empty"
| no_outputs : vout tx = [] -> violates 10 "bad-txns-vout-empty"
| oversize : MAX_TRANSACTION_BASE_SIZE < base_size tx \/ maxBlockWeight < base_size tx * WITNESS_SCALE_FACTOR ->
    violates 100 "bad-txns-oversize"
| empty_output o : o ∈ vout tx -> CTxOut_IsEmpty o = true -> IsNormalTx tx = true -> violates 100 "bad-txns-vout-empty"
| negative_output o : o ∈ vout tx -> nValue o < 0 -> violates 100 "bad-txns-vout-negative"
| large_output o : o ∈ vout tx -> MAX_MONEY < nValue o -> violates 100 "bad-txns-vout-toolarge"
| large_total n : MAX_MONEY < total_out (take n (vout tx)) -> violates 100 "bad-txns-txouttotal-toolarge"
| bad_contract o : o ∈ vout tx -> HasOpCall (scriptPubKey o) || HasOpCreate (scriptPubKey o) = true ->
    (forall t sols, ~ form true t (scriptPubKey o) sols) -> violates 100 "bad-txns-contract-nonstandard"
| duplicate_inputs : fCheckDuplicateInputs = true -> ~ NoDup (prevout <$> vin tx) -> violates 100 "bad-txns-inputs-duplicate"
| coinbase_length i : IsCoinBase tx = true -> vin tx = [i] -> ~ 2 <= vsize (scriptSig i) <= 100 -> violates 100 "bad-cb-length"
| null_input i : IsCoinBase tx = false -> i ∈ vin tx -> COutPoint_IsNull (prevout i) = true -> violates 10 "bad-txns-prevout-null".

(** A check that either passes, and then [P] holds, or reports a broken rule. *)
Definition sound_check {A} (r : checks A) (P : Prop) : Prop :=
  (exists a, r = Ok a /\ P) \/ (exists level reason, r = Err (Reject level reason) /\ violates level reason).

Lemma sound_bind {A B} (r : checks A) (f : A -> checks B) (P Q : Prop) :
  sound_check r P -> (forall a, r = Ok a -> P -> sound_check (f a) Q) -> sound_check (r ≫= f) Q.
Proof.
  intros [(a & -> & HP) | (l & s & -> & Hv)] Hf; [by apply (Hf a) | ]. right. by exists l, s.
Qed.

Lemma sound_fail_if b level reason (P : Prop) : (b = true -> violates level reason) -> (b = false -> P) -> sound_check (fail_if b level reason) P.
Proof. destruct b; intros H1 H2; [right; exists level, reason; auto | left; exists tt; auto]. Qed.

Lemma sound_skip {A} (a : A) (P : Prop) : P -> sound_check (Ok a) P.
Proof. left. by exists a. Qed.

(** What passing says of an output, and of the running sum *)
Definition output_fine (o : CTxOut) : Prop :=
  0 <= nValue o <= MAX_MONEY /\ ~ (CTxOut_IsEmpty o = true /\ IsNormalTx tx = true) /\
  (HasOpCall (scriptPubKey o) || HasOpCreate (scriptPubKey o) = true -> exists t sols, form true t (scriptPubKey o) sols).

Lemma total_out_app a b : total_out (a ++ b) = total_out a + total_out b.
Proof. induction a as [ | o a IH]; [done | ]. simpl. rewrite IH. lia. Qed.

Lemma check_outputs_sound l pre : vout tx = pre ++ l -> Forall (fun o => output_ok o) l ->
  0 <= total_out pre <= MAX_MONEY ->
  sound_check (check_outputs tx l (total_out pre)) (Forall output_fine l /\ 0 <= total_out (vout tx) <= MAX_MONEY).
Proof.
  revert pre. induction l as [ | o l IH]; intros pre E Hok Hpre; cbn [check_outputs].
  { apply sound_skip. split; [constructor | ]. by rewrite E, app_nil_r. }
  apply Forall_cons in Hok as [[Hv Hs] Hok]. assert (Ho : o ∈ vout tx) by (rewrite E; apply elem_of_app; right; left).
  assert (HM : MAX_MONEY + MAX_MONEY < 2 ^ 63) by done.
  eapply (sound_bind _ _ (~ (CTxOut_IsEmpty o = true /\ IsNormalTx tx = true))).
  { apply sound_fail_if.
    - intros H. rewrite !andb_true_iff in H. destruct H as [[? ?] ?]. eapply empty_output; [done | done | ]. unfold IsNormalTx. by rewrite andb_true_iff.
    - intros H [H1 H2]. unfold IsNormalTx in H2. rewrite <- andb_assoc, H1, H2 in H. done. }
  intros _ _ He. eapply (sound_bind _ _ (0 <= nValue o)).
  { apply sound_fail_if; intros H; [ | lia]. by apply (negative_output o); [ | lia]. }
  intros _ _ Hn. eapply (sound_bind _ _ (nValue o <= MAX_MONEY)).
  { apply sound_fail_if; intros H; [ | lia]. by apply (large_output o); [ | lia]. }
  intros _ _ Hm. rewrite i64_id by (change (64 - 1) with 63; lia).
  eapply (sound_bind _ _ (total_out pre + nValue o <= MAX_MONEY)).
  { apply sound_fail_if; intros H.
    - apply (large_total (length (pre ++ [o]))). rewrite E. change (o :: l) with ([o] ++ l). rewrite app_assoc, take_app_length, total_out_app.
      unfold MoneyRange in H. simpl. lia.
    - apply negb_false_iff in H. unfold MoneyRange in H. lia. }
  intros _ _ Ht. eapply (sound_bind _ _ (HasOpCall (scriptPubKey o) || HasOpCreate (scriptPubKey o) = true -> exists t sols, form true t (scriptPubKey o) sols)).
  { destruct (HasOpCall (scriptPubKey o) || HasOpCreate (scriptPubKey o)) eqn:Ec; [ | by apply sound_skip].
    destruct (Solver_sound true (scriptPubKey o) (proj1 Hs)) as (r & Er & Hr). rewrite Er. apply sound_fail_if.
    - intros H. eapply bad_contract; [done | done | ]. intros t sols Hf. rewrite (Solver_form _ _ _ _ (proj1 Hs) Hf) in Er.
      injection Er as <-. done.
    - intros H _. apply negb_false_iff in H. destruct (Hr H) as (t & _ & Hf). eauto. }
  intros _ _ Hc. replace (total_out pre + nValue o) with (total_out (pre ++ [o])) by (rewrite total_out_app; simpl; lia).
  destruct (IH (pre ++ [o])) as [([] & -> & Hl & Htot) | (lv & rs & -> & Hvio)].
  - by rewrite <- app_assoc.
  - done.
  - rewrite total_out_app. simpl. lia.
  - left. exists tt. split; [done | ]. split; [ | done]. constructor; [ | done]. split_and!; done || lia.
  - right. by exists lv, rs.
Qed.

(** [std::set] on outpoints of 32-byte hashes is a set of outpoints. *)
Lemma memcmp_anti a b : length a = length b -> memcmp a b < 0 \/ memcmp b a < 0 \/ a = b.
Proof.
  revert b. induction a as [ | x a IH]; intros [ | y b] Hl; simpl in *; try done; [auto | ].
  destruct (IH b ltac:(lia)) as [H | [H | ->]]; zcases; auto; try lia; replace x with y by lia; auto.
Qed.

Lemma memcmp_refl a : memcmp a a = 0.
Proof. apply memcmp_eq; done. Qed.

Lemma outpoints_equivalent a b : outpoint_ok a -> outpoint_ok b ->
  negb (COutPoint_lt a b) && negb (COutPoint_lt b a) = bool_decide (a = b).
Proof.
  destruct a as [ha na], b as [hb nb]. intros [[_ Ha] _] [[_ Hb] _]. cbn [outpoint_hash] in *.
  unfold COutPoint_lt, base_blob_Compare. cbn [outpoint_hash outpoint_n].
  destruct (decide (ha = hb)) as [-> | Hne].
  - rewrite memcmp_refl. cbn [Z.ltb Z.eqb orb andb Z.compare]. destruct (Z.ltb_spec na nb), (Z.ltb_spec nb na); try lia; simpl; symmetry.
    1, 2: apply bool_decide_eq_false_2; intros [= E]; lia.
    apply bool_decide_eq_true_2. f_equal. lia.
  - rewrite (bool_decide_eq_false_2 (mk_COutPoint ha na = mk_COutPoint hb nb)) by congruence.
    destruct (memcmp_anti ha hb ltac:(lia)) as [H | [H | H]]; [ | | done]; apply Z.ltb_lt in H; rewrite H; [done | ].
    by rewrite andb_false_r.
Qed.

Lemma set_contains_spec s p : Forall outpoint_ok s -> outpoint_ok p -> set_contains s p = bool_decide (p ∈ s).
Proof.
  intros Hs Hp. unfold set_contains. induction Hs as [ | o s Ho Hs IH]; [done | ]. cbn [existsb]. rewrite outpoints_equivalent, IH by done.
  destruct (bool_decide_reflect (o = p)) as [-> | Hne]; cbn [orb].
  - symmetry. apply bool_decide_eq_true_2. left.
  - destruct (bool_decide_reflect (p ∈ s)) as [Hin | Hin]; symmetry.
    + apply bool_decide_eq_true_2. by right.
    + apply bool_decide_eq_false_2. by intros [-> | ?]%elem_of_cons.
Qed.
Lemma check_duplicates_sound s l : fCheckDuplicateInputs = true -> prevout <$> vin tx = rev s ++ (prevout <$> l) ->
  Forall outpoint_ok s -> Forall (fun i => outpoint_ok (prevout i)) l -> NoDup s ->
  sound_check (check_duplicates s l) (NoDup (prevout <$> vin tx)).
Proof.
  intros Hd. revert s. induction l as [ | i l IH]; intros s E Hs Hl Hnd; cbn [check_duplicates].
  { apply sound_skip. rewrite E, app_nil_r. apply NoDup_ListNoDup, NoDup_rev. by apply NoDup_ListNoDup. }
  apply Forall_cons in Hl as [Hi Hl]. rewrite fmap_cons in E.
  eapply (sound_bind _ _ (prevout i ∉ s)).
  - rewrite set_contains_spec by done. apply sound_fail_if; intros H; [ | by apply bool_decide_eq_false in H].
    apply bool_decide_eq_true in H. apply duplicate_inputs; [done | ]. rewrite E. intros Hn%NoDup_app.
    destruct Hn as (_ & Hn & _). eapply Hn; [ | left]. by apply list_elem_of_In, in_rev; rewrite rev_involutive; apply list_elem_of_In.
  - intros _ _ Hn. apply IH; [ | by constructor .. | done | by constructor]. cbn [rev]. by rewrite <- app_assoc.
Qed.

Lemma check_prevouts_sound l : IsCoinBase tx = false -> l ⊆ vin tx ->
  sound_check (check_prevouts l) (Forall (fun i => COutPoint_IsNull (prevout i) = false) l).
Proof.
  intros Hc. induction l as [ | i l IH]; intros Hl; cbn [check_prevouts]; [by apply sound_skip | ].
  assert (Hi : i ∈ vin tx) by (apply Hl; left). assert (Hl' : l ⊆ vin tx) by (intros x Hx; apply Hl; by right).
  eapply (sound_bind _ _ (COutPoint_IsNull (prevout i) = false)); [apply sound_fail_if; [by apply (null_input i) | done] | ].
  intros _ _ Hn. destruct (IH Hl') as [(a & E & Hf) | Hv]; [left | by right]. exists a. split; [done | by constructor].
Qed.

(** A transaction that breaks no rule *)
Definition tx_fine : Prop :=
  vin tx <> [] /\ vout tx <> [] /\ base_size tx <= MAX_TRANSACTION_BASE_SIZE /\ base_size tx * WITNESS_SCALE_FACTOR <= maxBlockWeight /\
  Forall output_fine (vout tx) /\ 0 <= total_out (vout tx) <= MAX_MONEY /\
  (fCheckDuplicateInputs = true -> NoDup (prevout <$> vin tx)) /\
  (IsCoinBase tx = true -> forall i, vin tx = [i] -> 2 <= vsize (scriptSig i) <= 100) /\
  (IsCoinBase tx = false -> Forall (fun i => COutPoint_IsNull (prevout i) = false) (vin tx)).

Lemma tx_inputs_ok : tx_ok tx -> Forall (fun i => outpoint_ok (prevout i)) (vin tx).
Proof. intros (_ & [_ Hi] & _). eapply Forall_impl; [exact Hi | ]. by intros i [(Ho & _) _]. Qed.

Lemma check_tx_sound : tx_ok tx -> sound_check (check_tx maxBlockWeight tx fCheckDuplicateInputs) tx_fine.
Proof.
  intros Hok. unfold check_tx, tx_fine.
  eapply (sound_bind _ _ (vin tx <> [])); [apply sound_fail_if; intros H | intros _ _ H1].
  { apply bool_decide_eq_true in H. by constructor. }
  { by apply bool_decide_eq_false in H. }
  eapply (sound_bind _ _ (vout tx <> [])); [apply sound_fail_if; intros H | intros _ _ H2].
  { apply bool_decide_eq_true in H. by constructor. }
  { by apply bool_decide_eq_false in H. }
  eapply (sound_bind _ _ (base_size tx <= MAX_TRANSACTION_BASE_SIZE /\ base_size tx * WITNESS_SCALE_FACTOR <= maxBlockWeight));
    [apply sound_fail_if; intros H; [apply oversize; lia | lia] | intros _ _ [H3 H4]].
  eapply sound_bind; [apply (check_outputs_sound (vout tx) []) | intros _ _ [H5 H6]].
  { done. } { by destruct Hok as (_ & _ & [_ ?] & _). } { done. }
  eapply (sound_bind _ _ (fCheckDuplicateInputs = true -> NoDup (prevout <$> vin tx))); [ | intros _ _ H7].
  { destruct fCheckDuplicateInputs eqn:Ed; [ | by apply sound_skip].
    destruct (check_duplicates_sound [] (vin tx)) as [(a & E & Hd) | Hv]; try done.
    - by apply tx_inputs_ok.
    - constructor.
    - left. by exists a.
    - by right. }
  destruct (IsCoinBase tx) eqn:Ec.
  - unfold IsCoinBase in Ec. destruct (vin tx) as [ | i [ | i' l]] eqn:Ei; try done.
    apply sound_fail_if; intros H.
    + apply (coinbase_length i); [unfold IsCoinBase; by rewrite Ei | done | lia].
    + split_and!; try done; try lia. intros _ i' [= <-]. lia.
  - destruct (check_prevouts_sound (vin tx)) as [(a & E & Hf) | Hv]; [done | done | | by right].
    left. exists a. split; [done | ]. split_and!; done || lia.
Qed.

Lemma tx_fine_breaks_no_rule level reason : tx_fine -> ~ violates level reason.
Proof.
  intros (H1 & H2 & H3 & H4 & H5 & H6 & H7 & H8 & H9) Hv. rewrite Forall_forall in H5.
  destruct Hv as [E | E | E | o Ho Hx Hn | o Ho Hx | o Ho Hx | n Hx | o Ho Hc Hx | E Hx | i Ec Ei Hx | i Ec Hi Hx].
  - done.
  - done.
  - lia.
  - by destruct (H5 o Ho) as (_ & [] & _).
  - destruct (H5 o Ho) as (? & _). lia.
  - destruct (H5 o Ho) as (? & _). lia.
  - assert (total_out (take n (vout tx)) <= total_out (vout tx)); [ | lia].
    rewrite <- (take_drop n (vout tx)) at 2. rewrite total_out_app. assert (0 <= total_out (drop n (vout tx))); [ | lia].
    assert (Hd : Forall (fun o => 0 <= nValue o) (drop n (vout tx))).
    { apply Forall_drop, Forall_forall. intros o Ho. destruct (H5 o Ho) as (? & _). lia. }
    clear -Hd. induction Hd; simpl; lia.
  - destruct (H5 o Ho) as (_ & _ & Hf). destruct (Hf Hc) as (t & sols & Hform). by apply (Hx t sols).
  - by apply Hx, H7.
  - by apply Hx, H8.
  - specialize (H9 Ec). rewrite Forall_forall in H9. rewrite (H9 i Hi) in Hx. done.
Qed.
End Rules.

(** (C15) [CheckTransaction] is exact: it always answers (no assertion fails and no exception is
    thrown); it accepts exactly the transactions that break none of its rules, leaving the state
    as it was; an accepted transaction has a total output that [GetValueOut] computes without
    throwing; and a rejection records the penalty and the reason of a rule that is broken. *)
Theorem CheckTransaction_exact maxBlockWeight tx st dup :
  tx_ok tx ->
  exists ok st', CheckTransaction maxBlockWeight tx st dup = Some (ok, st') /\
    (ok = true <-> forall level reason, ~ violates maxBlockWeight dup tx level reason) /\
    (ok = true -> st' = st /\ GetValueOut tx = Some (total_out (vout tx))) /\
    (ok = false -> exists level reason, violates maxBlockWeight dup tx level reason /\
       st' = DoS st level REJECT_INVALID reason false).
Proof.
  intros Hok. unfold CheckTransaction.
  destruct (check_tx_sound maxBlockWeight dup tx Hok) as [(a & -> & Hf) | (level & reason & -> & Hv)]; cbn [report].
  - exists true, st. split; [done | ]. split; [split; [intros _ level reason; by apply tx_fine_breaks_no_rule | done] | ].
    split; [ | done]. intros _. split; [done | ]. destruct Hf as (_ & _ & _ & _ & Hout & Htot & _).
    apply GetValueOut_loop_spec; [done | ]. split; [ | lia].
    eapply Forall_impl; [exact Hout | ]. intros o (Hr & _). by apply MoneyRange_spec.
  - eexists false, _. split; [done | ]. split; [split; [done | intros H; by apply H in Hv] | ]. split; [done | ].
    intros _. eauto.
Qed.

Lemma CheckTransaction_exact_witness :
  CheckTransaction 8000000 sample_tx CValidationState_new true = Some (true, CValidationState_new) /\
  GetValueOut sample_tx = Some (total_out (vout sample_tx)).
Proof.
  destruct (CheckTransaction_exact 8000000 sample_tx CValidationState_new true sample_tx_ok) as (ok & st' & E & _ & H & _).
  assert (Hc : CheckTransaction 8000000 sample_tx CValidationState_new true = Some (true, CValidationState_new)) by (vm_compute; reflexivity).
  split; [exact Hc | ]. apply H. rewrite Hc in E. injection E as <- _. reflexivity.
Defined.

(** *** The rules on a transaction and its inputs *)

Definition total_in (ks : list Coin) : Z := foldr (fun k s => nValue (out k) + s) 0 ks.

(** The coins an input list spends, in a set of unspent outputs *)
Abbreviation spends u := (Forall2 (fun i k => u (prevout i) = Some k)).

Lemma spends_det (u : COutPoint -> option Coin) l ks ks' : spends u l ks -> spends u l ks' -> ks = ks'.
Proof. intros H. revert ks'. induction H as [ | i k l ks Hi Hl IH]; intros ks' H'; inv H'; [done | ]. f_equal. by apply IH. Qed.

Section Input_rules.
Context (u : COutPoint -> option Coin) (tx : CMutableTransaction) (nSpendHeight : Z).

Definition immature (k : Coin) : bool := (fCoinBase k || fCoinStake k) && (nSpendHeight - coin_nHeight k <? COINBASE_MATURITY).

Inductive input_violates : Z -> string -> Prop :=
| missing_input i : i ∈ vin tx -> u (prevout i) = None -> input_violates 100 "bad-txns-inputs-missingorspent"
| premature_spend i k : i ∈ vin tx -> u (prevout i) = Some k -> immature k = true ->
    input_violates 0 "bad-txns-premature-spend-of-coinbase"
| value_out_of_range i k : i ∈ vin tx -> u (prevout i) = Some k -> MoneyRange (nValue (out k)) = false ->
    input_violates 100 "bad-txns-inputvalues-outofrange"
| sum_out_of_range n ks : spends u (take n (vin tx)) ks -> MAX_MONEY < total_in ks ->
    input_violates 100 "bad-txns-inputvalues-outofrange"
| in_below_out ks : IsCoinStake tx = false -> spends u (vin tx) ks -> total_in ks < total_out (vout tx) ->
    input_violates 100 "bad-txns-in-belowout".

Definition coin_fine (k : Coin) : Prop := immature k = false /\ 0 <= nValue (out k) <= MAX_MONEY.

Lemma total_in_app a b : total_in (a ++ b) = total_in a + total_in b.
Proof. induction a as [ | k a IH]; [done | ]. simpl. rewrite IH. lia. Qed.

Lemma total_in_nonneg ks : Forall coin_fine ks -> 0 <= total_in ks.
Proof. induction 1 as [ | k ks [_ Hk] Hks IH]; simpl; lia. Qed.

Lemma inputs_fine ks level reason : spends u (vin tx) ks -> Forall coin_fine ks -> total_in ks <= MAX_MONEY ->
  (IsCoinStake tx = false -> total_out (vout tx) <= total_in ks) -> ~ input_violates level reason.
Proof.
  intros Hs Hk Ht Hb Hv.
  assert (Hin : forall i k, i ∈ vin tx -> u (prevout i) = Some k -> coin_fine k).
  { intros i k [j Hj]%list_elem_of_lookup Hu. destruct (Forall2_lookup_l _ _ _ _ _ Hs Hj) as (k' & Hk' & E).
    rewrite Forall_forall in Hk. assert (k = k') as -> by congruence. apply Hk. by eapply list_elem_of_lookup_2. }
  destruct Hv as [i Hi Hn | i k Hi Hu Hx | i k Hi Hu Hx | n ks' Hs' Hx | ks' Hc Hs' Hx].
  - apply list_elem_of_lookup in Hi as [j Hj]. destruct (Forall2_lookup_l _ _ _ _ _ Hs Hj) as (k' & _ & E). congruence.
  - destruct (Hin i k Hi Hu) as [? _]. congruence.
  - destruct (Hin i k Hi Hu) as [_ Hr]. apply MoneyRange_spec in Hr. congruence.
  - rewrite <- (take_drop n (vin tx)) in Hs. apply Forall2_app_inv_l in Hs as (k1 & k2 & H1 & H2 & ->).
    assert (ks' = k1) as ->.
    { by eapply spends_det. }
    apply Forall_app in Hk as [_ Hk2%total_in_nonneg]. rewrite total_in_app in Ht. lia.
  - assert (ks' = ks) as ->; [ | specialize (Hb Hc); lia].
    by eapply spends_det.
Qed.
End Input_rules.

Section Spending.
Context {B : Type} `{HB : CoinsViewLaws B} (usage : Coin -> Z).
Implicit Types c : CCoinsViewCache B.

Lemma spends_same_view c c' l ks : same_view c c' -> spends (contents_cache c) l ks <-> spends (contents_cache c') l ks.
Proof. intros (_ & Hc & _). split; intros Hf; (eapply Forall2_impl; [exact Hf | ]); intros i k; cbn; by rewrite Hc. Qed.

Lemma HaveInputs_loop_spec l c : valid_cache c ->
  same_view c (snd (HaveInputs_loop usage c l)) /\
  (fst (HaveInputs_loop usage c l) = true /\ (exists ks, spends (contents_cache c) l ks) \/
   fst (HaveInputs_loop usage c l) = false /\ exists i, i ∈ l /\ contents_cache c (prevout i) = None).
Proof.
  revert c. induction l as [ | i l IH]; intros c Hv; cbn [HaveInputs_loop].
  { split; [by split | ]. left. split; [done | ]. exists []. constructor. }
  pose proof (HaveCoin_spec usage c (prevout i) Hv) as [Hb Hs]. destruct (HaveCoin usage c (prevout i)) as [b c1]. cbn [fst snd] in *. subst b.
  destruct (contents_cache c (prevout i)) as [k | ] eqn:Ek.
  - rewrite bool_decide_eq_true_2 by done. cbn [negb]. destruct (IH c1 (proj1 Hs)) as [Hs' Hr].
    split; [by eapply same_view_trans | ]. destruct Hr as [[-> [ks Hks]] | [-> (j & Hj & Hn)]]; [left | right]; (split; [done | ]).
    + exists (k :: ks). constructor; [done | ]. by apply (spends_same_view c c1).
    + exists j. split; [by right | ]. by rewrite <- (proj1 (proj2 Hs)).
  - rewrite bool_decide_eq_false_2 by (by intros [? [=]]). cbn [negb fst snd]. split; [done | ]. right. split; [done | ].
    exists i. split; [left | done].
Qed.

Lemma check_inputs_spec (tx : CMutableTransaction) h l ks c pre kpre : vin tx = pre ++ l -> valid_cache c ->
  spends (contents_cache c) pre kpre -> spends (contents_cache c) l ks -> 0 <= total_in kpre <= MAX_MONEY ->
  same_view c (snd (check_inputs usage c l h (total_in kpre))) /\
  (fst (check_inputs usage c l h (total_in kpre)) = Ok (total_in (kpre ++ ks)) /\ Forall (coin_fine h) ks /\ 0 <= total_in (kpre ++ ks) <= MAX_MONEY \/
   exists level reason, fst (check_inputs usage c l h (total_in kpre)) = Err (Reject level reason) /\
     input_violates (contents_cache c) tx h level reason).
Proof.
  revert c ks pre kpre. induction l as [ | i l IH]; intros c ks pre kpre E Hv Hp Hl Ha; cbn [check_inputs].
  { inv Hl. rewrite app_nil_r. split; [by split | ]. left. split; [done | ]. by split. }
  inv Hl. rename y into k, l' into ks. assert (Hi : i ∈ vin tx) by (rewrite E; apply elem_of_app; right; left).
  match goal with H : contents_cache c _ = Some k |- _ => rename H into Hk end.
  match goal with H : Forall2 _ l ks |- _ => rename H into Hl end.
  pose proof (AccessCoin_spec usage c (prevout i) Hv) as [Hu Hs]. destruct (AccessCoin usage c (prevout i)) as [k' c1]. cbn [fst snd] in *.
  rewrite Hk in Hu. unfold unspent in Hu. destruct (IsSpent k') eqn:Esp; [done | ]. injection Hu as ->.
  fold (immature h k). destruct (immature h k) eqn:Em.
  { split; [done | ]. right. do 2 eexists. split; [done | ]. by eapply premature_spend. }
  destruct (MoneyRange (nValue (out k))) eqn:Er; cbn [negb orb].
  2: { split; [done | ]. right. do 2 eexists. split; [done | ]. by eapply value_out_of_range. }
  apply MoneyRange_spec in Er. assert (HM : MAX_MONEY + MAX_MONEY < 2 ^ 63) by done.
  rewrite i64_id by (change (64 - 1) with 63; lia).
  assert (Et : total_in kpre + nValue (out k) = total_in (kpre ++ [k])) by (rewrite total_in_app; simpl; lia). rewrite Et.
  assert (Hp' : spends (contents_cache c) (pre ++ [i]) (kpre ++ [k])) by (apply Forall2_app; [done | by repeat constructor]).
  destruct (MoneyRange (total_in (kpre ++ [k]))) eqn:Es; cbn [negb].
  - apply MoneyRange_spec in Es.
    destruct (IH c1 ks (pre ++ [i]) (kpre ++ [k])) as [Hs' Hr]; [ | apply Hs | | | done | ].
    + by rewrite <- app_assoc.
    + by apply (spends_same_view c c1).
    + by apply (spends_same_view c c1).
    + split; [by eapply same_view_trans | ]. rewrite <- app_assoc in Hr. destruct Hr as [(-> & Hf & Hr) | (lv & rs & -> & Hvio)]; [left | right].
      * split; [done | ]. split; [by constructor | done].
      * exists lv, rs. split; [done | ]. destruct Hs as (_ & Hc & _).
        destruct Hvio as [j Hj Hn | j x Hj Hu Hx | j x Hj Hu Hx | n xs Hxs Hx | xs Hc' Hxs Hx].
        -- rewrite Hc in Hn. by eapply missing_input.
        -- rewrite Hc in Hu. by eapply premature_spend.
        -- rewrite Hc in Hu. by eapply value_out_of_range.
        -- eapply (sum_out_of_range _ _ _ n xs); [ | done]. eapply Forall2_impl; [exact Hxs | ]. intros a b. cbn. by rewrite Hc.
        -- eapply (in_below_out _ _ _ xs); [done | | done]. eapply Forall2_impl; [exact Hxs | ]. intros a b. cbn. by rewrite Hc.
  - split; [done | ]. right. do 2 eexists. split; [done | ].
    apply (sum_out_of_range _ _ _ (length (pre ++ [i])) (kpre ++ [k])).
    + rewrite E. change (i :: l) with ([i] ++ l). by rewrite app_assoc, take_app_length.
    + assert (~ 0 <= total_in (kpre ++ [k]) <= MAX_MONEY); [intros Hx%MoneyRange_spec; congruence | lia].
Qed.

Lemma GetValueOut_range (tx : CMutableTransaction) vo : GetValueOut tx = Some vo -> vo = total_out (vout tx) /\ 0 <= vo <= MAX_MONEY.
Proof.
  intros (Hpos & -> & Hle)%GetValueOut_loop_spec; [ | done]. split; [done | ]. split; [ | done].
  clear -Hpos. induction Hpos as [ | o l Ho HF IH]; simpl; [lia | ]. apply MoneyRange_spec in Ho. lia.
Qed.

Lemma check_values_spec (tx : CMutableTransaction) v vo : 0 <= v <= MAX_MONEY -> GetValueOut tx = Some vo -> 0 <= vo <= MAX_MONEY ->
  (IsCoinStake tx = true /\ check_values tx v = Ok None) \/
  (IsCoinStake tx = false /\ vo <= v /\ check_values tx v = Ok (Some (v - vo))) \/
  (IsCoinStake tx = false /\ v < vo /\ check_values tx v = Err (Reject 100 "bad-txns-in-belowout")).
Proof.
  intros Hv E Hvo. unfold check_values. destruct (IsCoinStake tx); [by left | right]. rewrite E. unfold fail_if.
  destruct (Z.ltb_spec v vo); [right; split_and!; done || lia | left]. split_and!; try done; try lia.
  assert (HM : MAX_MONEY + MAX_MONEY < 2 ^ 63) by done. rewrite i64_id by (change (64 - 1) with 63; lia).
  cbn [mbind result_bind]. rewrite (proj2 (MoneyRange_spec (v - vo))) by lia. done.
Qed.

Lemma check_tx_inputs_spec (tx : CTransaction) c h vo : valid_cache c -> IsCoinBase tx = false -> GetValueOut tx = Some vo ->
  let r := fst (check_tx_inputs usage tx c h) in
  same_view c (snd (check_tx_inputs usage tx c h)) /\
  ((exists ks fee, r = Ok fee /\ spends (contents_cache c) (vin tx) ks /\ Forall (coin_fine h) ks /\ 0 <= total_in ks <= MAX_MONEY /\
      (IsCoinStake tx = true /\ fee = None \/ IsCoinStake tx = false /\ vo <= total_in ks /\ fee = Some (total_in ks - vo))) \/
   (exists level reason, r = Err (Reject level reason) /\ input_violates (contents_cache c) tx h level reason)).
Proof.
  intros Hv Hcb Hvo r. subst r. unfold check_tx_inputs, HaveInputs. rewrite Hcb. cbn [negb].
  destruct (HaveInputs_loop_spec (vin tx) c Hv) as [Hs Hr]. destruct (HaveInputs_loop usage c (vin tx)) as [b c1]. cbn [fst snd] in *.
  destruct Hr as [[-> [ks Hks]] | [-> (i & Hi & Hn)]]; cbn [negb].
  2: { split; [done | ]. right. do 2 eexists. split; [done | ]. by eapply missing_input. }
  assert (Hc1 : forall o, contents_cache c1 o = contents_cache c o) by apply Hs.
  destruct (check_inputs_spec tx h (vin tx) ks c1 [] []) as [Hs' Hr]; [done | apply Hs | constructor | by apply (spends_same_view c c1) | done | ].
  change (total_in []) with 0 in *. cbn [app] in Hr.
  destruct (check_inputs usage c1 (vin tx) h 0) as [r c2]. cbn [fst snd] in *. split; [by eapply same_view_trans | ].
  destruct Hr as [(-> & Hf & Ht) | (lv & rs & -> & Hvio)].
  2: { right. exists lv, rs. split; [done | ].
       destruct Hvio as [j Hj Hn | j x Hj Hu Hx | j x Hj Hu Hx | n xs Hxs Hx | xs Hc' Hxs Hx]; rewrite ?Hc1 in *.
       - by eapply missing_input.
       - by eapply premature_spend.
       - by eapply value_out_of_range.
       - eapply (sum_out_of_range _ _ _ n xs); [by apply (spends_same_view c c1) | done].
       - eapply (in_below_out _ _ _ xs); [done | by apply (spends_same_view c c1) | done]. }
  cbn [mbind result_bind].
  destruct (GetValueOut_range tx vo Hvo) as [Evo Hrange].
  destruct (check_values_spec tx (total_in ks) vo Ht Hvo ltac:(lia)) as [[Ec ->] | [(Ec & Hx & ->) | (Ec & Hx & ->)]].
  - left. exists ks, None. split_and!; try done; try lia. by left.
  - left. eexists ks, _. split_and!; try done; try lia. right. done.
  - right. do 2 eexists. split; [done | ]. apply (in_below_out _ _ _ ks); [done | done | lia].
Qed.
End Spending.

(** For a coinstake no fee is set, though the call succeeds. *)
Lemma coinstake_fee_unset {B} `{HB : CoinsViewLaws B} usage (tx : CTransaction) st (c : CCoinsViewCache B) h st' fee c' :
  IsCoinStake tx = true -> CheckTxInputs usage tx st c h = (Some (true, st'), fee, c') -> fee = None.
Proof.
  intros Hcs. unfold CheckTxInputs, check_tx_inputs. destruct (HaveInputs usage c tx) as [have c1]. destruct have; cbn [negb]; [ | done].
  destruct (check_inputs usage c1 (vin tx) h 0) as [[v | e] c2]; cbn [mbind result_bind]; [ | by destruct e]. unfold check_values. rewrite Hcs. by intros [= _ <- _].
Qed.

(** (C14) [CheckTxInputs] is exact and, but for coinstakes, conserves value.  On any lawful coin cache,
    for a transaction that is not a coinbase and whose outputs have a sum: it answers without an
    assertion failing and leaves the unspent outputs as they were; it accepts exactly when every
    input is unspent, newly minted outputs are deep enough, values and sums are money amounts and,
    unless the transaction is a coinstake, the outputs are not worth more than the inputs; then, for
    a transaction that is not a coinstake, the fee it reports is exactly the difference, a money
    amount; when it does not accept, it records the penalty and the reason of a rule that is broken. *)
Theorem CheckTxInputs_exact {B} `{HB : CoinsViewLaws B} usage (tx : CTransaction) st (c : CCoinsViewCache B) h vo :
  valid_cache c -> IsCoinBase tx = false -> GetValueOut tx = Some vo ->
  let u := contents_cache c in
  exists ok st' fee c', CheckTxInputs usage tx st c h = (Some (ok, st'), fee, c') /\ same_view c c' /\
    (ok = true <-> forall level reason, ~ input_violates u tx h level reason) /\
    (ok = true -> st' = st /\ exists ks, spends u (vin tx) ks /\ Forall (fun k => immature h k = false) ks /\
       (IsCoinStake tx = false -> 0 <= total_in ks - vo <= MAX_MONEY /\ fee = Some (total_in ks - vo))) /\
    (ok = false -> exists level reason, input_violates u tx h level reason /\ st' = DoS st level REJECT_INVALID reason false).
Proof.
  intros Hv Hcb Hvo u. unfold CheckTxInputs. destruct (check_tx_inputs_spec usage tx c h vo Hv Hcb Hvo) as [Hs Hr].
  destruct (check_tx_inputs usage tx c h) as [r c']. cbn [fst snd] in *.
  apply GetValueOut_range in Hvo as [-> Hrange].
  destruct Hr as [(ks & fee & -> & Hks & Hf & Ht & Hfee) | (lv & rs & -> & Hvio)]; cbn [report].
  - eexists true, _, _, _. split; [done | ]. split; [done | ]. split; [split; [ | done] | split; [ | done]].
    + intros _ level reason. apply (inputs_fine u tx h ks); [done | done | lia | ]. destruct Hfee as [[? _] | (_ & ? & _)]; [congruence | lia].
    + intros _. split; [done | ]. exists ks. split; [done | ]. split.
      { eapply Forall_impl; [exact Hf | ]. by intros k [? _]. }
      intros Hcs. destruct Hfee as [[? _] | (_ & ? & ->)]; [congruence | ]. split; [lia | done].
  - eexists false, _, _, _. split; [done | ]. split; [done | ]. split; [split; [done | intros Hn; by apply Hn in Hvio] | ].
    split; [done | ]. intros _. eauto.
Qed.

Lemma CheckTxInputs_exact_witness : exists st' c',
  CheckTxInputs no_usage sample_spend CValidationState_new (cache_new sample_db) 600 = (Some (true, st'), Some (2 * COIN), c').
Proof.
  destruct (CheckTxInputs_exact no_usage sample_spend CValidationState_new (cache_new sample_db) 600 (3 * COIN))
    as (ok & st' & fee & c' & E & _ & Hok & _).
  - split; [exact sample_db_valid | apply map_Forall_empty].
  - reflexivity.
  - vm_compute. reflexivity.
  - exists st', c'. assert (Hc : fst (CheckTxInputs no_usage sample_spend CValidationState_new (cache_new sample_db) 600) =
      (Some (true, CValidationState_new), Some (2 * COIN))) by (vm_compute; reflexivity).
    rewrite E in Hc |- *. cbn [fst] in Hc. injection Hc as -> -> ->. reflexivity.
Defined.

(** *** Lock times *)

Section Locks.
Context (m : BlockMap) (Hm : index_ok m).

(** What BIP 68 asks of an input whose output was created at a height, in a block at another *)
Definition lock_satisfied (block : ptr) (height mtp_prev : Z) (i : CTxIn) (coin_height : Z) : Prop :=
  if has (nSequence i) SEQUENCE_LOCKTIME_DISABLE_FLAG then True
  else let n := nSequence i mod 2 ^ 16 in
  if has (nSequence i) SEQUENCE_LOCKTIME_TYPE_FLAG then
    forall q t, ancestor m block (Z.max (coin_height - 1) 0) = Some q -> GetMedianTimePast m q = Some t -> t + 512 * n <= mtp_prev
  else coin_height + n <= height.

Lemma lock_mask s : 0 <= Z.land s SEQUENCE_LOCKTIME_MASK < 2 ^ 16 /\ Z.land s SEQUENCE_LOCKTIME_MASK = s mod 2 ^ 16 /\
  u32 (Z.shiftl (Z.land s SEQUENCE_LOCKTIME_MASK) SEQUENCE_LOCKTIME_GRANULARITY) = 512 * (s mod 2 ^ 16).
Proof.
  assert (E : Z.land s SEQUENCE_LOCKTIME_MASK = s mod 2 ^ 16) by (apply (Z.land_ones s 16); lia).
  pose proof (Z.mod_pos_bound s (2 ^ 16) ltac:(lia)). rewrite E. split; [done | ]. split; [done | ].
  unfold SEQUENCE_LOCKTIME_GRANULARITY. rewrite Z.shiftl_mul_pow2 by lia. change (2 ^ 9) with 512. rewrite u32_id by lia. lia.
Qed.

Lemma GetAncestor_total p b h : m !! p = Some b -> 0 <= h <= nHeight b ->
  exists q, GetAncestor m p h = Some (Some q) /\ ancestor m p h = Some q /\ is_Some (m !! q).
Proof.
  intros Hp Hh. destruct (up_total m Hm (Z.to_nat (nHeight b - h)) p b Hp ltac:(lia)) as [q Hq].
  assert (Ha : ancestor m p h = Some q).
  { unfold ancestor. rewrite Hp. cbn [mbind option_bind]. destruct (Z.leb_spec 0 h), (Z.leb_spec h (nHeight b)); try lia. done. }
  exists q. split; [ | split; [done | ]].
  - pose proof (GetAncestor_spec m Hm p b h Hp) as E. rewrite E. by rewrite Ha.
  - destruct (up_height m Hm _ _ _ _ Hp Hq) as (b' & Hb' & _). by exists b'.
Qed.

Lemma sequence_lock_spec block b i ch mh mt : m !! block = Some b -> 0 <= ch <= nHeight b + 1 ->
  exists mh' mt', sequence_lock m block i ch mh mt =
      Some (mh', mt', if has (nSequence i) SEQUENCE_LOCKTIME_DISABLE_FLAG then 0 else ch) /\
    forall height mtpp, mh' < height /\ mt' < mtpp <-> (mh < height /\ mt < mtpp) /\ lock_satisfied block height mtpp i ch.
Proof.
  intros Hb Hc. unfold sequence_lock, lock_satisfied.
  destruct (has (nSequence i) SEQUENCE_LOCKTIME_DISABLE_FLAG). { exists mh, mt. split; [done | ]. intros. tauto. }
  destruct (lock_mask (nSequence i)) as (Hn & En & Es). rewrite Es, En in *.
  destruct (has (nSequence i) SEQUENCE_LOCKTIME_TYPE_FLAG).
  2: { eexists _, _. split; [done | ]. intros. lia. }
  pose proof (height_range m Hm _ _ Hb).
  destruct (GetAncestor_total block b (Z.max (ch - 1) 0) Hb ltac:(lia)) as (q & E & Ea & [bq Hq]).
  destruct (mtp_total m Hm q bq Hq) as (t & Ht & _). unfold mtp in Ht. rewrite E. cbn [mbind option_bind]. rewrite Ht. cbn [mbind option_bind].
  eexists _, _. split; [done | ]. intros height mtpp. split.
  - intros [H1 H2]. split; [lia | ]. intros q' t' Hq' Ht'. rewrite Ea in Hq'. injection Hq' as <-. rewrite Ht in Ht'. injection Ht' as <-. lia.
  - intros [[H1 H2] H3]. specialize (H3 q t Ea Ht). lia.
Qed.

Lemma sequence_locks_spec block b l mh mt : m !! block = Some b -> Forall (fun p => 0 <= snd p <= nHeight b + 1) l ->
  exists mh' mt', sequence_locks m block l mh mt =
      Some (mh', mt', (fun p => if has (nSequence (fst p)) SEQUENCE_LOCKTIME_DISABLE_FLAG then 0 else snd p) <$> l) /\
    forall height mtpp, mh' < height /\ mt' < mtpp <->
      (mh < height /\ mt < mtpp) /\ Forall (fun p => lock_satisfied block height mtpp (fst p) (snd p)) l.
Proof.
  intros Hb Hl. revert mh mt. induction Hl as [ | [i ch] l Hc Hl IH]; intros mh mt; cbn [sequence_locks].
  { exists mh, mt. split; [done | ]. intros. split; [intros; split; [done | constructor] | tauto]. }
  destruct (sequence_lock_spec block b i ch mh mt Hb Hc) as (mh1 & mt1 & E1 & H1). rewrite E1. cbn [mbind option_bind].
  destruct (IH mh1 mt1) as (mh2 & mt2 & E2 & H2). rewrite E2. cbn [mbind option_bind].
  exists mh2, mt2. split; [done | ]. intros height mtpp. rewrite H2, H1, Forall_cons. cbn [fst snd]. tauto.
Qed.

(** Block times are 32-bit words. *)
Definition times_fit : Prop := map_Forall (fun _ b => in_u 32 (bi_nTime b)) m.

Lemma window_nonneg n p : times_fit -> Forall (fun t => 0 <= t) (window m n p).
Proof.
  intros Ht. revert p. induction n as [ | n IH]; intros [p | ]; cbn [window]; try constructor.
  destruct (m !! p) as [b | ] eqn:Hp; [ | constructor]. constructor; [ | done].
  pose proof (Ht _ _ Hp) as Hb. cbv beta in Hb. unfold GetBlockTime. rewrite i64_id; lia.
Qed.

Lemma mtp_nonneg p b t : times_fit -> m !! p = Some b -> GetMedianTimePast m p = Some t -> 0 <= t.
Proof.
  intros Ht Hp E. destruct (mtp_total m Hm p b Hp) as (t' & Ht' & Hv). unfold mtp in Ht'. assert (t' = t) as -> by congruence.
  apply Hv. assert (below 0 (window m nMedianTimeSpan (Some p)) = 0%nat) as ->; [ | lia].
  unfold below. pose proof (window_nonneg nMedianTimeSpan (Some p) Ht) as Hw. clear Hv.
  induction Hw as [ | x l Hx Hl IH]; [done | ]. rewrite filter_cons_False by lia. exact IH.
Qed.
End Locks.

Definition enforces_bip68 (tx : CMutableTransaction) (flags : Z) : bool :=
  (2 <=? u32 (tx_nVersion tx)) && has flags LOCKTIME_VERIFY_SEQUENCE.

(** Lock times.  A transaction is final at a height and time exactly when its lock time is
    zero, below the height or time it is compared with, or switched off by every input, and it
    stays final later.  On every reachable block tree, for a block with a predecessor and inputs
    created no later than it, [SequenceLocks] finds all the ancestors and times it needs and
    accepts exactly when, unless BIP 68 is not enforced, every input that sets a relative lock
    is old enough: by blocks, or by units of 512 seconds between the median times past. *)
Theorem lock_times C st (tx : CMutableTransaction) flags prevHeights block b prev :
  reachable C st -> times_fit (mapBlockIndex st) ->
  mapBlockIndex st !! block = Some b -> pprev b = Some prev ->
  length prevHeights = length (vin tx) -> Forall (fun h => 0 <= h <= nHeight b + 1) prevHeights ->
  (forall h t, IsFinalTx tx h t = true <->
     nLockTime tx = 0 \/ nLockTime tx < (if nLockTime tx <? LOCKTIME_THRESHOLD then h else t) \/
     Forall (fun i => nSequence i = SEQUENCE_FINAL) (vin tx)) /\
  (forall h t h' t', IsFinalTx tx h t = true -> h <= h' -> t <= t' -> IsFinalTx tx h' t' = true) /\
  exists t ok hs, GetMedianTimePast (mapBlockIndex st) prev = Some t /\
    SequenceLocks (mapBlockIndex st) tx flags prevHeights block = Some (ok, hs) /\
    (ok = true <-> (enforces_bip68 tx flags = true ->
       Forall (fun p => lock_satisfied (mapBlockIndex st) block (nHeight b) t (fst p) (snd p)) (zip (vin tx) prevHeights))).
Proof.
  intros [Hm _]%reachable_ok Htf Hb Hprev Hlen Hh. set (m := mapBlockIndex st) in *.
  assert (Hfin : forall h t, IsFinalTx tx h t = true <->
     nLockTime tx = 0 \/ nLockTime tx < (if nLockTime tx <? LOCKTIME_THRESHOLD then h else t) \/
     Forall (fun i => nSequence i = SEQUENCE_FINAL) (vin tx)).
  { intros h t. unfold IsFinalTx. destruct (Z.eqb_spec (nLockTime tx) 0); [tauto | ].
    destruct (Z.ltb_spec (nLockTime tx) (if nLockTime tx <? LOCKTIME_THRESHOLD then h else t)); [tauto | ].
    rewrite forallb_forall, Forall_forall. setoid_rewrite Z.eqb_eq. setoid_rewrite <- list_elem_of_In. split; [tauto | ]. intros [? | [? | ?]]; [lia | lia | done]. }
  split; [done | ]. split.
  { intros h t h' t' Hf Hle Hle'. apply Hfin. apply Hfin in Hf as [? | [? | ?]]; [tauto | | tauto]. right. left.
    destruct (_ <? LOCKTIME_THRESHOLD); lia. }
  destruct (prev_entry m Hm block b prev Hb Hprev) as (bp & Hbp & _). destruct (mtp_total m Hm prev bp Hbp) as (t & Ht & _). unfold mtp in Ht.
  pose proof (mtp_nonneg m Hm prev bp t Htf Hbp Ht). pose proof (height_range m Hm _ _ Hb).
  exists t. unfold SequenceLocks, CalculateSequenceLocks, EvaluateSequenceLocks. fold (enforces_bip68 tx flags).
  unfold vsize. rewrite Hlen, Z.eqb_refl. cbn [negb].
  rewrite Hb. cbn [mbind option_bind]. rewrite Hprev. cbn [mbind option_bind]. rewrite Ht. cbn [mbind option_bind].
  destruct (enforces_bip68 tx flags); cbn [negb].
  - destruct (sequence_locks_spec m Hm block b (zip (vin tx) prevHeights) (-1) (-1) Hb) as (mh & mt & E & Hr).
    { apply Forall_forall. intros [i h] Hi. rewrite Forall_forall in Hh. apply Hh. by apply elem_of_zip_r in Hi. }
    rewrite E. cbn [mbind option_bind fst snd]. eexists _, _. split; [done | ]. split; [done | ].
    rewrite negb_true_iff, orb_false_iff, !Z.leb_gt, Hr. split; [tauto | ]. intros Hf. split; [lia | by apply Hf].
  - cbn [mbind option_bind fst snd]. eexists _, _. split; [done | ]. split; [done | ].
    rewrite negb_true_iff, orb_false_iff, !Z.leb_gt. split; [done | lia].
Qed.

(** A transaction that waits two blocks after its input *)
Definition waiting_tx : CMutableTransaction := mk_tx [mk_CTxIn (sample_outpoint 0) [] 2 []] [mk_CTxOut (3 * COIN) [OP_TRUE]] 2 0.

Lemma lock_times_witness :
  let m := mapBlockIndex (sample_state 5) in
  let tip := Block_GetHash toy_crypto (sample_header 4) in
  IsFinalTx waiting_tx 1 1 = true /\ (exists hs, SequenceLocks m waiting_tx LOCKTIME_VERIFY_SEQUENCE [2] tip = Some (true, hs)).
Proof.
  intros m tip. destruct (m !! tip) as [b | ] eqn:E; [ | vm_compute in E; discriminate].
  assert (Hb : nHeight b = 4 /\ pprev b = Some (Block_GetHash toy_crypto (sample_header 3))).
  { assert (Hc : (nHeight <$> m !! tip, pprev <$> m !! tip) = (Some 4, Some (Some (Block_GetHash toy_crypto (sample_header 3))))) by (vm_compute; reflexivity).
    rewrite E in Hc. cbn [fmap option_fmap option_map] in Hc. injection Hc as -> ->. split; reflexivity. }
  destruct Hb as [Hh Hp].
  destruct (lock_times toy_crypto (sample_state 5) waiting_tx LOCKTIME_VERIFY_SEQUENCE [2] tip b _ (sample_reachable 5 (le_n 5))
    ltac:(apply (bool_decide_unpack _); vm_compute; exact I) E Hp eq_refl) as (Hf & _ & t & ok & hs & _ & Es & Hok).
  - constructor; [rewrite Hh; lia | constructor].
  - split; [apply Hf; left; reflexivity | ]. exists hs. assert (ok = true) as <-; [ | exact Es].
    apply Hok. intros _. constructor; [ | constructor]. unfold lock_satisfied. rewrite Hh. vm_compute. discriminate.
Defined.

(** *** Signature-operation costs *)

Definition sum {A} (f : A -> Z) (l : list A) : Z := foldr (fun x s => f x + s) 0 l.

Lemma sum_cons {A} (f : A -> Z) x l : sum f (x :: l) = f x + sum f l.
Proof. done. Qed.

Lemma sum_nonneg {A} (f : A -> Z) l : (forall x, 0 <= f x) -> 0 <= sum f l.
Proof. intros Hf. induction l as [ | x l IH]; [done | ]. rewrite sum_cons. specialize (Hf x). lia. Qed.

Lemma sum_le {A} (f g : A -> Z) k l : 0 <= k -> (forall x, f x <= k * g x) -> sum f l <= k * sum g l.
Proof. intros Hk Hf. induction l as [ | x l IH]; [unfold sum; simpl; lia | ]. rewrite !sum_cons. specialize (Hf x). lia. Qed.

(** A 32-bit counter that does not reach its limit counts. *)
Lemma foldl_u32 {A} (f : A -> Z) l a : (forall x, 0 <= f x) -> 0 <= a -> a + sum f l < 2 ^ 32 ->
  foldl (fun n x => u32 (n + f x)) a l = a + sum f l.
Proof.
  intros Hf. revert a. induction l as [ | x l IH]; intros a Ha Hl; cbn [foldl]; [unfold sum; simpl; lia | ].
  rewrite sum_cons in *. pose proof (sum_nonneg f l Hf). specialize (Hf x) as Hx.
  rewrite u32_id by lia. rewrite IH by lia. lia.
Qed.

Lemma GetSigOpCount_range s acc : 0 <= GetSigOpCount s acc <= 20 * vsize s.
Proof.
  rewrite !GetSigOpCount_decode.
  destruct (sigops_fold_bounds (fst (decode s)) OP_INVALIDOPCODE 0 0) as [Hle Hub]; [lia | ].
  pose proof (decode_loop_length (length s) s ltac:(lia)) as Hl. fold (decode s) in Hl. destruct acc; lia.
Qed.

Lemma last_push_size f pc d v : (length pc <= f)%nat -> last_push f pc d = Some v -> vsize v <= Z.max (vsize d) (vsize pc).
Proof.
  revert pc d. induction f as [ | f IH]; intros [ | b pc] d Hf H; simpl in Hf; try lia; cbn [last_push] in H.
  - injection H as <-. lia.
  - injection H as <-. lia.
  - destruct (GetScriptOp (b :: pc)) as [[[o d'] pc'] | ] eqn:E; [ | done]. destruct (OP_16 <? o); [done | ].
    pose proof (GetScriptOp_shorter _ _ _ _ E) as Hs. simpl in Hs. specialize (IH pc' d' ltac:(lia) H).
    apply GetScriptOp_suffix in E as (used & -> & pre & ->). rewrite vsize_cons, !vsize_app.
    pose proof (vsize_nonneg pc'). pose proof (vsize_nonneg d'). pose proof (vsize_nonneg pre). lia.
Qed.

Lemma P2SH_count_range s sig : IsPayToScriptHash s = true -> 0 <= GetSigOpCount_P2SH s sig <= 20 * vsize sig.
Proof.
  intros Hp. unfold GetSigOpCount_P2SH. rewrite Hp. cbn [negb]. pose proof (vsize_nonneg sig).
  destruct (last_push (length sig) sig []) as [v | ] eqn:E; [ | lia].
  apply last_push_size in E; [ | lia]. rewrite vsize_nil in E. pose proof (GetSigOpCount_range v true). lia.
Qed.

Definition witness_bytes (w : CScriptWitness) : Z := sum vsize w.

Lemma WitnessSigOps_range v p w : 0 <= WitnessSigOps v p w <= 1 + 20 * witness_bytes w.
Proof.
  assert (0 <= witness_bytes w) by (apply sum_nonneg, vsize_nonneg).
  unfold WitnessSigOps. destruct (v =? 0); [ | lia]. destruct (_ =? _); [lia | ]. destruct (_ && _); [ | lia].
  destruct (rev w) as [ | s l] eqn:E; [lia | ]. pose proof (GetSigOpCount_range s true).
  assert (vsize s <= witness_bytes w); [ | lia]. apply (f_equal (@rev bytes)) in E. rewrite rev_involutive in E. subst w. cbn [rev].
  unfold witness_bytes. induction (rev l) as [ | x l' IH]; cbn [app]; rewrite sum_cons; [unfold sum; simpl; lia | ].
  pose proof (vsize_nonneg x). lia.
Qed.

(** The count of an input in a set of coins *)
Definition p2sh_cost (p : CTxIn * Coin) : Z :=
  let '(i, k) := p in
  if IsPayToScriptHash (scriptPubKey (out k)) then GetSigOpCount_P2SH (scriptPubKey (out k)) (scriptSig i) else 0.
Definition witness_cost (flags : Z) (p : CTxIn * Coin) : Z :=
  let '(i, k) := p in default 0 (CountWitnessSigOps (scriptSig i) (scriptPubKey (out k)) (scriptWitness i) flags).

Lemma p2sh_cost_range p : 0 <= p2sh_cost p <= 20 * vsize (scriptSig (fst p)).
Proof.
  destruct p as [i k]. unfold p2sh_cost. cbn [fst]. pose proof (vsize_nonneg (scriptSig i)).
  destruct (IsPayToScriptHash _) eqn:E; [by apply P2SH_count_range | lia].
Qed.

Lemma witness_cost_spec flags p : flags_consistent flags ->
  CountWitnessSigOps (scriptSig (fst p)) (scriptPubKey (out (snd p))) (scriptWitness (fst p)) flags = Some (witness_cost flags p) /\
  0 <= witness_cost flags p <= 1 + 20 * witness_bytes (scriptWitness (fst p)).
Proof.
  destruct p as [i k]. intros [Hf _]. cbn [fst snd]. unfold witness_cost, CountWitnessSigOps.
  assert (0 <= witness_bytes (scriptWitness i)) by (apply sum_nonneg, vsize_nonneg).
  destruct (has flags SCRIPT_VERIFY_WITNESS); [ | cbn; split; [done | lia]]. rewrite Hf by done. cbn [negb].
  destruct (IsWitnessProgram _) as [[v p] | ]; [split; [done | apply WitnessSigOps_range] | ].
  destruct (_ && _); [ | cbn; split; [done | lia]].
  destruct (IsWitnessProgram _) as [[v p] | ]; [split; [done | apply WitnessSigOps_range] | cbn; split; [done | lia]].
Qed.

Section Costs.
Context {B : Type} `{HB : CoinsViewLaws B} (usage : Coin -> Z).
Implicit Types c : CCoinsViewCache B.

Lemma access_spent c i k : valid_cache c -> contents_cache c (prevout i) = Some k ->
  exists c', AccessCoin usage c (prevout i) = (k, c') /\ IsSpent k = false /\ same_view c c'.
Proof.
  intros Hv Hk. pose proof (AccessCoin_spec usage c (prevout i) Hv) as [Hu Hs].
  destruct (AccessCoin usage c (prevout i)) as [k' c']. cbn [fst snd] in *. rewrite Hk in Hu. unfold unspent in Hu.
  destruct (IsSpent k') eqn:E; [done | ]. injection Hu as ->. by exists c'.
Qed.

Lemma P2SHSigOps_loop_spec l ks c n : valid_cache c -> spends (contents_cache c) l ks -> 0 <= n ->
  n + sum p2sh_cost (zip l ks) < 2 ^ 32 ->
  exists c', P2SHSigOps_loop usage c l n = Some (n + sum p2sh_cost (zip l ks), c') /\ same_view c c'.
Proof.
  intros Hv Hs. revert c n Hv Hs. revert ks. induction l as [ | i l IH]; intros [ | k ks] c n Hv Hs Hn Hb; inv Hs.
  { exists c. cbn. rewrite Z.add_0_r. by split. }
  match goal with H : contents_cache c _ = Some k |- _ => rename H into Hk end.
  match goal with H : Forall2 _ l ks |- _ => rename H into Hs end.
  destruct (access_spent c i k Hv Hk) as (c1 & E & Hsp & Hv1). cbn [P2SHSigOps_loop zip zip_with]. rewrite E, Hsp.
  change (zip (i :: l) (k :: ks)) with ((i, k) :: zip l ks) in Hb. rewrite sum_cons in *.
  pose proof (p2sh_cost_range (i, k)) as Hc. assert (Hrest : 0 <= sum p2sh_cost (zip l ks)) by (apply sum_nonneg; intros x; apply p2sh_cost_range).
  assert (En : (if IsPayToScriptHash (scriptPubKey (out k)) then u32 (n + GetSigOpCount_P2SH (scriptPubKey (out k)) (scriptSig i)) else n) =
    n + p2sh_cost (i, k)).
  { unfold p2sh_cost in *. destruct (IsPayToScriptHash _); [apply u32_id | ]; lia. }
  rewrite En. destruct (IH ks c1 (n + p2sh_cost (i, k))) as (c' & E' & Hv').
  - apply Hv1.
  - by apply (spends_same_view c c1).
  - lia.
  - lia.
  - exists c'. rewrite E'. split; [do 2 f_equal; unfold zip; lia | by eapply same_view_trans].
Qed.

Lemma WitnessSigOps_loop_spec flags l ks c n : flags_consistent flags -> valid_cache c -> spends (contents_cache c) l ks -> 0 <= n ->
  n + sum (witness_cost flags) (zip l ks) < 2 ^ 63 ->
  exists c', WitnessSigOps_loop usage c l flags n = Some (n + sum (witness_cost flags) (zip l ks), c') /\ same_view c c'.
Proof.
  intros Hf Hv Hs. revert c n Hv Hs. revert ks. induction l as [ | i l IH]; intros [ | k ks] c n Hv Hs Hn Hb; inv Hs.
  { exists c. cbn. rewrite Z.add_0_r. by split. }
  match goal with H : contents_cache c _ = Some k |- _ => rename H into Hk end.
  match goal with H : Forall2 _ l ks |- _ => rename H into Hs end.
  destruct (access_spent c i k Hv Hk) as (c1 & E & Hsp & Hv1). cbn [WitnessSigOps_loop zip zip_with]. rewrite E, Hsp.
  change (zip (i :: l) (k :: ks)) with ((i, k) :: zip l ks) in Hb. rewrite sum_cons in *.
  destruct (witness_cost_spec flags (i, k) Hf) as [Ec Hc]. cbn [fst snd] in Ec, Hc.
  assert (Hrest : 0 <= sum (witness_cost flags) (zip l ks)) by (apply sum_nonneg; intros x; apply (proj2 (witness_cost_spec flags x Hf))).
  rewrite Ec. cbn [mbind option_bind]. rewrite i64_id by (change (64 - 1) with 63; lia).
  destruct (IH ks c1 (n + witness_cost flags (i, k))) as (c' & E' & Hv').
  - apply Hv1.
  - by apply (spends_same_view c c1).
  - lia.
  - lia.
  - exists c'. rewrite E'. split; [do 2 f_equal; unfold zip; lia | by eapply same_view_trans].
Qed.
End Costs.

Definition script_bytes (tx : CMutableTransaction) : Z :=
  sum (fun i => vsize (scriptSig i)) (vin tx) + sum (fun o => vsize (scriptPubKey o)) (vout tx).
Definition all_witness_bytes (tx : CMutableTransaction) : Z := sum (fun i => 1 + 20 * witness_bytes (scriptWitness i)) (vin tx).
Definition legacy_count (tx : CMutableTransaction) : Z :=
  sum (fun i => GetSigOpCount (scriptSig i) false) (vin tx) + sum (fun o => GetSigOpCount (scriptPubKey o) false) (vout tx).

Lemma sum_zip_le {K} (f : CTxIn * K -> Z) g k l (ks : list K) : 0 <= k -> (forall x, 0 <= g x) -> (forall p, f p <= k * g (fst p)) ->
  sum f (zip l ks) <= k * sum g l.
Proof.
  intros Hk Hg Hf. revert ks. induction l as [ | x l IH]; intros [ | y ks]; cbn [zip zip_with]; rewrite ?sum_cons.
  1, 2: unfold sum; simpl; lia.
  - pose proof (sum_nonneg g l Hg). specialize (Hg x). unfold sum at 1. simpl. nia.
  - specialize (Hf (x, y)). specialize (IH ks). cbn [fst] in Hf. rewrite Z.mul_add_distr_l. lia.
Qed.

Lemma legacy_range tx : 0 <= legacy_count tx <= 20 * script_bytes tx.
Proof.
  unfold legacy_count, script_bytes. split.
  - apply Z.add_nonneg_nonneg; apply sum_nonneg; intros; apply GetSigOpCount_range.
  - rewrite Z.mul_add_distr_l. apply Z.add_le_mono; apply sum_le; try lia; intros; apply GetSigOpCount_range.
Qed.

Lemma GetLegacySigOpCount_exact tx : legacy_count tx < 2 ^ 32 -> GetLegacySigOpCount tx = legacy_count tx.
Proof.
  intros Hb. unfold GetLegacySigOpCount, legacy_count in *.
  assert (0 <= sum (fun i => GetSigOpCount (scriptSig i) false) (vin tx)) by (apply sum_nonneg; intros; apply GetSigOpCount_range).
  assert (0 <= sum (fun o => GetSigOpCount (scriptPubKey o) false) (vout tx)) by (apply sum_nonneg; intros; apply GetSigOpCount_range).
  rewrite (foldl_u32 (fun i => GetSigOpCount (scriptSig i) false)); [ | intros; apply GetSigOpCount_range | lia | lia].
  rewrite (foldl_u32 (fun o => GetSigOpCount (scriptPubKey o) false)); [lia | intros; apply GetSigOpCount_range | lia | lia].
Qed.

(** Signature-operation costs do not wrap around.  On any lawful coin cache that has the inputs,
    and for flags that ask for [P2SH] with [WITNESS], no assertion of [GetTransactionSigOpCost]
    fails and the unspent outputs stay as they were; for a transaction with at most 50 million
    bytes of scripts the cost is exactly four times the legacy and pay-to-script-hash counts plus
    the witness counts, and is linear in the bytes of scripts and witnesses. *)
Theorem sigop_cost_exact {B} `{HB : CoinsViewLaws B} usage (tx : CMutableTransaction) (c : CCoinsViewCache B) ks flags :
  valid_cache c -> IsCoinBase tx = false -> spends (contents_cache c) (vin tx) ks -> flags_consistent flags ->
  script_bytes tx <= 50000000 -> all_witness_bytes tx < 2 ^ 62 ->
  let cost := 4 * legacy_count tx + (if has flags SCRIPT_VERIFY_P2SH then 4 * sum p2sh_cost (zip (vin tx) ks) else 0) +
              sum (witness_cost flags) (zip (vin tx) ks) in
  exists c', GetTransactionSigOpCost usage tx c flags = Some (cost, c') /\ same_view c c' /\
    0 <= cost <= 160 * script_bytes tx + all_witness_bytes tx.
Proof.
  intros Hv Hcb Hs Hf Hb Hw cost. pose proof (legacy_range tx) as Hl.
  assert (Hout : 0 <= sum (fun o => vsize (scriptPubKey o)) (vout tx)) by (apply sum_nonneg; intros; apply vsize_nonneg).
  assert (Hp : 0 <= sum p2sh_cost (zip (vin tx) ks) <= 20 * script_bytes tx).
  { split; [apply sum_nonneg; intros; apply p2sh_cost_range | ]. unfold script_bytes. rewrite Z.mul_add_distr_l.
    pose proof (sum_zip_le p2sh_cost (fun i => vsize (scriptSig i)) 20 (vin tx) ks) as Hz.
    specialize (Hz ltac:(lia) ltac:(intros; apply vsize_nonneg) ltac:(intros; apply p2sh_cost_range)). lia. }
  assert (Hwit : 0 <= sum (witness_cost flags) (zip (vin tx) ks) <= all_witness_bytes tx).
  { split; [apply sum_nonneg; intros x; apply (proj2 (witness_cost_spec flags x Hf)) | ]. unfold all_witness_bytes.
    rewrite <- (Z.mul_1_l (sum _ (vin tx))). apply sum_zip_le; [lia | | ].
    - intros i. assert (0 <= witness_bytes (scriptWitness i)) by (apply sum_nonneg, vsize_nonneg). lia.
    - intros p. rewrite Z.mul_1_l. apply (proj2 (witness_cost_spec flags p Hf)). }
  unfold GetTransactionSigOpCost, WITNESS_SCALE_FACTOR, GetP2SHSigOpCount. rewrite Hcb.
  rewrite GetLegacySigOpCount_exact by lia. rewrite u32_id by lia.
  destruct (has flags SCRIPT_VERIFY_P2SH).
  - destruct (P2SHSigOps_loop_spec usage (vin tx) ks c 0 Hv Hs) as (c1 & E1 & Hs1); [lia | lia | ].
    rewrite E1. cbn [mbind option_bind]. rewrite Z.add_0_l, u32_id by lia. rewrite i64_id by (change (64 - 1) with 63; lia).
    destruct (WitnessSigOps_loop_spec usage flags (vin tx) ks c1 (legacy_count tx * 4 + sum p2sh_cost (zip (vin tx) ks) * 4) Hf)
      as (c2 & E2 & Hs2); [apply Hs1 | by apply (spends_same_view c c1) | lia | lia | ].
    exists c2. rewrite E2. split; [do 2 f_equal; lia | ]. split; [by eapply same_view_trans | lia].
  - cbn [mbind option_bind].
    destruct (WitnessSigOps_loop_spec usage flags (vin tx) ks c (legacy_count tx * 4) Hf Hv Hs) as (c2 & E2 & Hs2); [lia | lia | ].
    exists c2. rewrite E2. split; [do 2 f_equal; lia | ]. split; [done | lia].
Qed.

Lemma sigop_cost_exact_witness : exists c', GetTransactionSigOpCost no_usage sample_spend (cache_new sample_db) SCRIPT_VERIFY_P2SH = Some (0, c').
Proof.
  destruct (sigop_cost_exact no_usage sample_spend (cache_new sample_db) [sample_coin] SCRIPT_VERIFY_P2SH) as (c' & E & _).
  - split; [exact sample_db_valid | apply map_Forall_empty].
  - reflexivity.
  - constructor; [reflexivity | constructor].
  - split; intros H; vm_compute in H; discriminate.
  - vm_compute. discriminate.
  - vm_compute. reflexivity.
  - exists c'. rewrite E. vm_compute. reflexivity.
Defined.
