(* ===== verification/SigHash.v ===== *)
(** * Signature hashes and the signature checker ([SignatureHash] and
      [GenericTransactionSignatureChecker] of [src/script/interpreter.cpp], [VerifySignature] of
      [src/script/sign.cpp])

    What a signature signs, in the format of old scripts and in that of witness version 0 with its
    cache of partial hashes, and the checker the interpreter asks about signatures and lock times.
    The curve library's verification is the parameter [Verify].

    Theorems: the serializer that modifies a transaction while it writes it gives the hash of the
    modified copy; equal hashes mean equal signed parts; a script's lock time is honoured by every
    block the transaction can be in. *)

From stdpp Require Import gmap.
From S2P Require Import Prelude Serialize ScriptNum Script SigEncoding Interpreter VerifyScript Standard Transaction Block Merkle Chain MedianTime Coins Pow Undo TxVerify.
Open Scope Z_scope.

(** ** Definitions *)

(** *** The format of old scripts *)

Definition fAnyoneCanPay (nHashType : Z) : bool := negb (Z.land nHashType SIGHASH_ANYONECANPAY =? 0).
Definition fHashSingle (nHashType : Z) : bool := Z.land nHashType 0x1f =? SIGHASH_SINGLE.
Definition fHashNone (nHashType : Z) : bool := Z.land nHashType 0x1f =? SIGHASH_NONE.

(** Where [GetScriptOp] leaves [pc] when it fails: after the opcode and the size it has read *)
Definition failed_pc (pc : bytes) : bytes :=
  match pc with
  | [] => []
  | opcode :: pc =>
      if opcode <? OP_PUSHDATA1 then pc
      else
        let n := if opcode =? OP_PUSHDATA1 then 1 else if opcode =? OP_PUSHDATA2 then 2 else 4 in
        if vsize pc <? n then pc else drop (Z.to_nat n) pc
  end.

(** [while (scriptCode.GetOp(it, opcode))]: the separators from [it] on *)
Fixpoint count_separators (fuel : nat) (it : bytes) (nCodeSeparators : Z) : Z :=
  match fuel, GetScriptOp it with
  | S fuel, Some (opcode, _, it) =>
      count_separators fuel it (if opcode =? OP_CODESEPARATOR then u32 (nCodeSeparators + 1) else nCodeSeparators)
  | _, _ => nCodeSeparators
  end.

(** The second loop and the last write; an iterator is what is left from it on. *)
Fixpoint write_pieces (fuel : nat) (itBegin it : bytes) : bytes :=
  match fuel, GetScriptOp it with
  | S fuel, Some (opcode, _, it) =>
      if opcode =? OP_CODESEPARATOR then take (length itBegin - length it - 1) itBegin ++ write_pieces fuel it it
      else write_pieces fuel itBegin it
  | _, _ => match itBegin with [] => [] | _ => take (length itBegin - length (failed_pc it)) itBegin end
  end.

Definition SerializeScriptCode (scriptCode : CScript) : bytes :=
  let nCodeSeparators := count_separators (length scriptCode) scriptCode 0 in
  WriteCompactSize (vsize scriptCode - nCodeSeparators) ++ write_pieces (length scriptCode) scriptCode scriptCode.

Section Serializer.
Context (txTo : CMutableTransaction) (scriptCode : CScript) (nIn nHashType : Z).

(** [None]: an index out of range *)
Definition SerializeInput (nInput : Z) : option bytes :=
  let nInput := if fAnyoneCanPay nHashType then nIn else nInput in
  i ← vin txTo !! Z.to_nat nInput;
  Some (COutPoint_Serialize (prevout i) ++
        (if negb (nInput =? nIn) then Serialize_bytes [] else SerializeScriptCode scriptCode) ++
        (if negb (nInput =? nIn) && (fHashSingle nHashType || fHashNone nHashType) then ser_writedata32 0
         else ser_writedata32 (nSequence i))).

Definition SerializeOutput (nOutput : Z) : option bytes :=
  if fHashSingle nHashType && negb (nOutput =? nIn) then Some (CTxOut_Serialize CTxOut_SetNull)
  else o ← vout txTo !! Z.to_nat nOutput; Some (CTxOut_Serialize o).

(** [for (unsigned int n = 0; n < count; n++)] *)
Definition serialize_each (f : Z -> option bytes) (count : Z) : option bytes :=
  foldr (fun n acc => b ← f (Z.of_nat n); rest ← acc; Some (b ++ rest)) (Some []) (seq 0 (Z.to_nat count)).

Definition SignatureSerializer_Serialize : option bytes :=
  let nInputs := if fAnyoneCanPay nHashType then 1 else u32 (vsize (vin txTo)) in
  let nOutputs := if fHashNone nHashType then 0 else if fHashSingle nHashType then u32 (nIn + 1) else u32 (vsize (vout txTo)) in
  ins ← serialize_each SerializeInput nInputs;
  outs ← serialize_each SerializeOutput nOutputs;
  Some (ser_writedata32 (tx_nVersion txTo) ++ WriteCompactSize nInputs ++ ins ++ WriteCompactSize nOutputs ++ outs ++
        ser_writedata32 (nLockTime txTo)).
End Serializer.

(** *** The format of witness version 0 *)

Section Hashes.
Context (C : Crypto).

Definition GetPrevoutHash (txTo : CMutableTransaction) : uint256 := Hash256 C (flat_map (fun i => COutPoint_Serialize (prevout i)) (vin txTo)).
Definition GetSequenceHash (txTo : CMutableTransaction) : uint256 := Hash256 C (flat_map (fun i => ser_writedata32 (nSequence i)) (vin txTo)).
Definition GetOutputsHash (txTo : CMutableTransaction) : uint256 := Hash256 C (flat_map CTxOut_Serialize (vout txTo)).

Record PrecomputedTransactionData : Type := mk_txdata {
  hashPrevouts : uint256; hashSequence : uint256; hashOutputs : uint256; ready : bool }.
Definition PrecomputedTransactionData_new (txTo : CMutableTransaction) : PrecomputedTransactionData :=
  if HasWitness txTo then mk_txdata (GetPrevoutHash txTo) (GetSequenceHash txTo) (GetOutputsHash txTo) true
  else mk_txdata uint256_SetNull uint256_SetNull uint256_SetNull false.

(** What is hashed for witness version 0, for the input [txin] at [nIn] *)
Definition witness_preimage (scriptCode : CScript) (txTo : CMutableTransaction) (txin : CTxIn) (nIn nHashType amount : Z)
  (cache : option PrecomputedTransactionData) : bytes :=
  let cacheready := match cache with Some c => if ready c then Some c else None | None => None end in
  let hashPrevouts :=
    if negb (fAnyoneCanPay nHashType) then from_option hashPrevouts (GetPrevoutHash txTo) cacheready else uint256_SetNull in
  let hashSequence :=
    if negb (fAnyoneCanPay nHashType) && negb (fHashSingle nHashType) && negb (fHashNone nHashType)
    then from_option hashSequence (GetSequenceHash txTo) cacheready else uint256_SetNull in
  let hashOutputs :=
    if negb (fHashSingle nHashType) && negb (fHashNone nHashType) then from_option hashOutputs (GetOutputsHash txTo) cacheready
    else if fHashSingle nHashType then
      match vout txTo !! Z.to_nat nIn with Some o => Hash256 C (CTxOut_Serialize o) | None => uint256_SetNull end
    else uint256_SetNull in
  ser_writedata32 (tx_nVersion txTo) ++ uint256_Serialize hashPrevouts ++ uint256_Serialize hashSequence ++
  COutPoint_Serialize (prevout txin) ++ Serialize_bytes scriptCode ++ ser_writedata64 amount ++ ser_writedata32 (nSequence txin) ++
  uint256_Serialize hashOutputs ++ ser_writedata32 (nLockTime txTo) ++ ser_writedata32 nHashType.

(** [uint256S("00...01")]: the bytes are stored from the last hexadecimal digits on. *)
Definition hash_one : uint256 := 1 :: repeat 0 31.

(** [None]: the assertion on [nIn] *)
Definition SignatureHash (scriptCode : CScript) (txTo : CMutableTransaction) (nIn nHashType amount : Z) (sigversion : SigVersion)
  (cache : option PrecomputedTransactionData) : option uint256 :=
  txin ← vin txTo !! Z.to_nat nIn;
  match sigversion with
  | WITNESS_V0 => Some (Hash256 C (witness_preimage scriptCode txTo txin nIn nHashType amount cache))
  | BASE =>
      if fHashSingle nHashType && (vsize (vout txTo) <=? nIn) then Some hash_one
      else b ← SignatureSerializer_Serialize txTo scriptCode nIn nHashType; Some (Hash256 C (b ++ ser_writedata32 nHashType))
  end.

(** *** The checker *)

(** [CPubKey::Verify(hash, sig)], on the bytes of a key *)
Context (Verify : bytes -> uint256 -> bytes -> bool).

Section Checker.
Context (txTo : CMutableTransaction) (nIn amount : Z) (txdata : option PrecomputedTransactionData).

(** [nIn] is the index of an input: elsewhere the assertion of [SignatureHash] fails, for which
    [false] stands here. *)
Definition TransactionSignatureChecker_CheckSig (vchSigIn vchPubKey : valtype) (scriptCode : CScript) (sigversion : SigVersion) : bool :=
  let pubkey := CPubKey_Set vchPubKey in
  if negb (CPubKey_IsValid pubkey) then false
  else match rev vchSigIn with
  | [] => false
  | nHashType :: vchSig =>
      match SignatureHash scriptCode txTo nIn nHashType amount sigversion txdata with
      | None => false
      | Some sighash => Verify pubkey sighash (rev vchSig)
      end
  end.

Definition TransactionSignatureChecker_CheckLockTime (nLockTime_ : Z) : bool :=
  if negb (((nLockTime txTo <? LOCKTIME_THRESHOLD) && (nLockTime_ <? LOCKTIME_THRESHOLD)) ||
           ((LOCKTIME_THRESHOLD <=? nLockTime txTo) && (LOCKTIME_THRESHOLD <=? nLockTime_))) then false
  else if nLockTime txTo <? nLockTime_ then false
  else match vin txTo !! Z.to_nat nIn with
  | None => false
  | Some i => negb (SEQUENCE_FINAL =? nSequence i)
  end.

Definition TransactionSignatureChecker_CheckSequence (nSequence_ : Z) : bool :=
  match vin txTo !! Z.to_nat nIn with
  | None => false
  | Some i =>
      let txToSequence := nSequence i in
      if u32 (tx_nVersion txTo) <? 2 then false
      else if negb (Z.land txToSequence SEQUENCE_LOCKTIME_DISABLE_FLAG =? 0) then false
      else
        let nLockTimeMask := Z.lor SEQUENCE_LOCKTIME_TYPE_FLAG SEQUENCE_LOCKTIME_MASK in
        let txToSequenceMasked := Z.land txToSequence nLockTimeMask in
        let nSequenceMasked := Z.land nSequence_ nLockTimeMask in
        if negb (((txToSequenceMasked <? SEQUENCE_LOCKTIME_TYPE_FLAG) && (nSequenceMasked <? SEQUENCE_LOCKTIME_TYPE_FLAG)) ||
                 ((SEQUENCE_LOCKTIME_TYPE_FLAG <=? txToSequenceMasked) && (SEQUENCE_LOCKTIME_TYPE_FLAG <=? nSequenceMasked))) then false
        else negb (txToSequenceMasked <? nSequenceMasked)
  end.

Definition TransactionSignatureChecker : BaseSignatureChecker :=
  {| CheckSig := TransactionSignatureChecker_CheckSig;
     CheckLockTime := TransactionSignatureChecker_CheckLockTime;
     CheckSequence := TransactionSignatureChecker_CheckSequence |}.
End Checker.
End Hashes.

(** *** The hash as it was first defined

    [SignatureHashOld] of [src/test/sighash_tests.cpp]: a copy of the transaction is modified and
    then serialized. *)

Definition signed_code (scriptCode : CScript) : CScript := fst (FindAndDelete scriptCode [OP_CODESEPARATOR]).

Definition signed_input (scriptCode : CScript) (nIn : nat) (loose : bool) (i : nat) (txin : CTxIn) : CTxIn :=
  if bool_decide (i = nIn) then mk_CTxIn (prevout txin) (signed_code scriptCode) (nSequence txin) []
  else mk_CTxIn (prevout txin) [] (if loose then 0 else nSequence txin) [].

(** The modified transaction, given the input and, for [SIGHASH_SINGLE], the output at [nIn] *)
Definition signed_tx (scriptCode : CScript) (txTo : CMutableTransaction) (nIn nHashType : Z) : CMutableTransaction :=
  let n := Z.to_nat nIn in
  let vin_ := imap (signed_input scriptCode n (fHashSingle nHashType || fHashNone nHashType)) (vin txTo) in
  let vout_ :=
    if fHashNone nHashType then []
    else if fHashSingle nHashType then replicate n CTxOut_SetNull ++ take 1 (drop n (vout txTo))
    else vout txTo in
  mk_tx (if fAnyoneCanPay nHashType then take 1 (drop n vin_) else vin_) vout_ (tx_nVersion txTo) (nLockTime txTo).

Definition SignatureHashOld (C : Crypto) (scriptCode : CScript) (txTo : CMutableTransaction) (nIn nHashType : Z) : uint256 :=
  if vsize (vin txTo) <=? nIn then hash_one
  else if fHashSingle nHashType && (vsize (vout txTo) <=? nIn) then hash_one
  else Hash256 C (SerializeTransaction SERIALIZE_TRANSACTION_NO_WITNESS (signed_tx scriptCode txTo nIn nHashType) ++ ser_writedata32 nHashType).

(** ** Theorems *)

(** *** Scripts without their separators *)

Fixpoint strip_loop (fuel : nat) (pc : bytes) : bytes :=
  match fuel, GetScriptOp pc with
  | S fuel, Some (o, _, pc') =>
      (if o =? OP_CODESEPARATOR then [] else take (length pc - length pc') pc) ++ strip_loop fuel pc'
  | _, _ => pc
  end.

Lemma separator_op pc : GetScriptOp (OP_CODESEPARATOR :: pc) = Some (OP_CODESEPARATOR, [], pc).
Proof. reflexivity. Qed.

Lemma separator_first pc o d pc' : GetScriptOp pc = Some (o, d, pc') -> o = OP_CODESEPARATOR -> pc = OP_CODESEPARATOR :: pc'.
Proof.
  intros E ->. pose proof (GetScriptOp_suffix _ _ _ _ E) as (used & -> & _). cbn [app] in E.
  rewrite separator_op in E. injection E as _ E. by rewrite E.
Qed.

Lemma op_bytes pc o d pc' : GetScriptOp pc = Some (o, d, pc') -> take (length pc - length pc') pc ++ pc' = pc /\ pc = take (length pc - length pc') pc ++ pc'.
Proof.
  intros (used & -> & _)%GetScriptOp_suffix. cbn [length]. rewrite length_app.
  replace (S (length used + length pc') - length pc')%nat with (S (length used)) by lia. cbn [take app]. by rewrite take_app_length.
Qed.

Lemma strip_loop_fuel f f' pc : (length pc <= f)%nat -> (length pc <= f')%nat -> strip_loop f pc = strip_loop f' pc.
Proof.
  revert f' pc. induction f as [ | f IH]; intros [ | f'] pc Hf Hf'; cbn [strip_loop]; try done.
  - destruct (GetScriptOp pc) as [[[o d] pc'] | ] eqn:E; [ | done]. apply GetScriptOp_shorter in E. lia.
  - destruct (GetScriptOp pc) as [[[o d] pc'] | ] eqn:E; [ | done]. apply GetScriptOp_shorter in E. lia.
  - destruct (GetScriptOp pc) as [[[o d] pc'] | ] eqn:E; [ | done]. apply GetScriptOp_shorter in E. by rewrite (IH f') by lia.
Qed.

Lemma skip_separators k pc n : (length pc <= k)%nat -> 0 <= n -> exists pc' n', skip_matches k [OP_CODESEPARATOR] pc n = (pc', n') /\
  (n <= n') /\ strip_loop (length pc) pc = strip_loop (length pc') pc' /\ (length pc' <= length pc)%nat /\
  (forall o d r, GetScriptOp pc' = Some (o, d, r) -> o <> OP_CODESEPARATOR) /\ (n' = n -> pc' = pc).
Proof.
  revert pc n. induction k as [ | k IH]; intros pc n Hk Hn; cbn [skip_matches].
  { destruct pc; [ | cbn [length] in Hk; lia]. eexists _, _. split_and!; done || lia. }
  destruct pc as [ | x pc]. { eexists _, _. split_and!; done || lia. }
  assert ((vsize [OP_CODESEPARATOR] <=? vsize (x :: pc)) = true) as -> by (apply Z.leb_le; rewrite !vsize_cons, vsize_nil; pose proof (vsize_nonneg pc); lia).
  cbn [length take drop andb]. rewrite take_0, drop_0.
  destruct (bool_decide_reflect ([x] = [OP_CODESEPARATOR])) as [[= ->] | Hne].
  - cbn [length] in Hk. destruct (IH pc (n + 1)) as (pc' & n' & E & Hn' & Hs & Hl & Ho & _); [lia | lia | ]. exists pc', n'. split; [exact E | ].
    split_and!; try lia; done.
  - exists (x :: pc), n. split_and!; try (done || lia). intros o d r E ->. apply separator_first in E; [ | done]. injection E as -> _. done.
Qed.

Lemma FindAndDelete_separators fuel pc result n : (length pc <= fuel)%nat -> 0 <= n -> exists n',
  FindAndDelete_loop fuel [OP_CODESEPARATOR] pc result n = (result ++ strip_loop (length pc) pc, n') /\ n <= n' /\
  (n' = n -> strip_loop (length pc) pc = pc).
Proof.
  revert pc result n. induction fuel as [ | fuel IH]; intros pc result n Hf Hn; cbn [FindAndDelete_loop].
  { destruct pc; [ | cbn [length] in Hf; lia]. exists n. done. }
  destruct (skip_separators (length pc) pc n) as (pc1 & n1 & -> & Hn1 & Hs & Hl & Ho & Hsame); [lia | lia | ]. rewrite Hs.
  destruct (GetScriptOp pc1) as [[[o d] pc2] | ] eqn:E.
  2: { exists n1. assert (strip_loop (length pc1) pc1 = pc1) as -> by (destruct pc1; [done | cbn [length strip_loop]; by rewrite E]).
       split; [done | ]. split; [done | exact Hsame]. }
  pose proof (GetScriptOp_shorter _ _ _ _ E). pose proof (Ho _ _ _ eq_refl) as Hno.
  destruct (IH pc2 (result ++ take (length pc1 - length pc2) pc1) n1) as (n' & -> & Hn' & Hs'); [lia | lia | ].
  exists n'. assert (strip_loop (length pc1) pc1 = take (length pc1 - length pc2) pc1 ++ strip_loop (length pc2) pc2) as Es.
  { destruct pc1 as [ | x pc1]; [done | ]. cbn [length strip_loop] in *. rewrite E. destruct (Z.eqb_spec o OP_CODESEPARATOR); [done | ].
    f_equal. apply strip_loop_fuel; lia. }
  rewrite Es, app_assoc. split; [done | ]. split; [lia | ]. intros ->. assert (n1 = n) as -> by lia.
  rewrite Hs' by done. rewrite (proj1 (op_bytes _ _ _ _ E)). by apply Hsame.
Qed.

Lemma signed_code_strip s : signed_code s = strip_loop (length s) s.
Proof.
  unfold signed_code, FindAndDelete. destruct (FindAndDelete_separators (length s) s [] 0) as (n & -> & Hn & Hs); [done | done | ].
  destruct (Z.ltb_spec 0 n); [done | ]. cbn [fst]. symmetry. apply Hs. lia.
Qed.

Lemma write_pieces_strip fuel pre it : (length it <= fuel)%nat -> snd (decode it) = true ->
  write_pieces fuel (pre ++ it) it = pre ++ strip_loop (length it) it.
Proof.
  revert pre it. induction fuel as [ | fuel IH]; intros pre it Hf Hd; cbn [write_pieces].
  { destruct it; [ | cbn [length] in Hf; lia]. cbn [strip_loop length failed_pc]. rewrite !app_nil_r, Nat.sub_0_r, take_ge by done. by destruct pre. }
  destruct (GetScriptOp it) as [[[o d] it'] | ] eqn:E.
  - pose proof (GetScriptOp_shorter _ _ _ _ E) as Hl. rewrite (decode_cons _ _ _ _ E) in Hd. destruct (decode it') as [l ok] eqn:Ed. cbn [snd] in Hd.
    assert (snd (decode it') = true) as Hd' by (by rewrite Ed).
    destruct it as [ | x it]; [done | ]. cbn [length strip_loop] in *. rewrite E. rewrite (strip_loop_fuel (length it) (length it')) by lia.
    destruct (Z.eqb_spec o OP_CODESEPARATOR) as [Eo | Eo].
    + pose proof (separator_first _ _ _ _ E Eo) as Esep. injection Esep as -> ->.
      rewrite length_app. cbn [length]. replace (length pre + S (length it') - length it' - 1)%nat with (length pre) by lia.
      rewrite take_app_length, app_nil_l. f_equal. pose proof (IH [] it' ltac:(lia) Hd') as IH'. by rewrite !app_nil_l in IH'.
    + destruct (op_bytes _ _ _ _ E) as [_ E']. cbn [length] in E'. rewrite E' at 1. rewrite app_assoc, IH by (done || lia). by rewrite app_assoc.
  - destruct it as [ | x it]; [ | rewrite decode_fail in Hd by done; done].
    cbn [strip_loop length failed_pc]. rewrite !app_nil_r, Nat.sub_0_r, take_ge by done. by destruct pre.
Qed.

Lemma count_separators_strip fuel it n : (length it <= fuel)%nat -> 0 <= n -> n + vsize it < 2 ^ 32 -> snd (decode it) = true ->
  vsize (strip_loop (length it) it) = vsize it - (count_separators fuel it n - n).
Proof.
  revert it n. induction fuel as [ | fuel IH]; intros it n Hf Hn Hs Hd; cbn [count_separators].
  { destruct it; [ | cbn [length] in Hf; lia]. cbn [strip_loop length]. rewrite vsize_nil. lia. }
  destruct (GetScriptOp it) as [[[o d] it'] | ] eqn:E.
  2: { destruct it as [ | x it]; [cbn [strip_loop length]; rewrite vsize_nil; lia | rewrite decode_fail in Hd by done; done]. }
  pose proof (GetScriptOp_shorter _ _ _ _ E) as Hl. rewrite (decode_cons _ _ _ _ E) in Hd. destruct (decode it') as [l ok] eqn:Ed. cbn [snd] in Hd.
  assert (snd (decode it') = true) as Hd' by (by rewrite Ed). destruct (op_bytes _ _ _ _ E) as [_ E'].
  assert (vsize it = vsize (take (length it - length it') it) + vsize it') as Ev by (rewrite E' at 1; apply vsize_app).
  pose proof (vsize_nonneg it'). pose proof (vsize_nonneg (take (length it - length it') it)).
  destruct it as [ | x it]; [done | ]. cbn [length strip_loop] in *. rewrite E. rewrite (strip_loop_fuel (length it) (length it')) by lia.
  destruct (Z.eqb_spec o OP_CODESEPARATOR) as [Eo | Eo].
  - pose proof (separator_first _ _ _ _ E Eo) as Esep. injection Esep as -> ->. rewrite vsize_cons in *. rewrite u32_id by lia. rewrite app_nil_l, (IH _ (n + 1)) by (done || lia). lia.
  - rewrite vsize_app, (IH _ n) by (done || lia). lia.
Qed.

Lemma SerializeScriptCode_signed s : vsize s < 2 ^ 32 -> snd (decode s) = true -> SerializeScriptCode s = Serialize_bytes (signed_code s).
Proof.
  intros Hs Hd. unfold SerializeScriptCode, Serialize_bytes. rewrite signed_code_strip, (count_separators_strip (length s) s 0) by (done || lia).
  rewrite Z.sub_0_r. f_equal. apply (write_pieces_strip (length s) [] s); done.
Qed.

(** *** The serializer writes the modified transaction *)

Lemma serialize_each_spec {A} (w : A -> bytes) (f : Z -> option bytes) (l : list A) :
  (forall i x, l !! i = Some x -> f (Z.of_nat i) = Some (w x)) -> serialize_each f (vsize l) = Some (flat_map w l).
Proof.
  intros Hf. unfold serialize_each, vsize. rewrite Nat2Z.id.
  assert (forall k, (forall i x, l !! i = Some x -> f (Z.of_nat (k + i)) = Some (w x)) ->
    foldr (fun n acc => b ← f (Z.of_nat n); rest ← acc; Some (b ++ rest)) (Some []) (seq k (length l)) = Some (flat_map w l)) as H; [ | by apply H].
  clear Hf. induction l as [ | x l IH]; intros k Hf; [done | ]. cbn [length seq foldr flat_map].
  pose proof (Hf 0%nat x eq_refl) as H0. rewrite Nat.add_0_r in H0. rewrite H0. cbn [mbind option_bind].
  rewrite (IH (S k)); [done | ]. intros i y Hy. specialize (Hf (S i) y Hy). by rewrite Nat.add_succ_r in Hf.
Qed.

Section Equivalence.
Context (txTo : CMutableTransaction) (scriptCode : CScript) (nIn nHashType : Z) (txin : CTxIn).
Context (Hok : tx_ok txTo) (Hn : 0 <= nIn) (Hin : vin txTo !! Z.to_nat nIn = Some txin).
Context (Hs : vsize scriptCode < 2 ^ 32) (Hd : snd (decode scriptCode) = true).

Lemma vsizes_fit : vsize (vin txTo) < 2 ^ 31 /\ vsize (vout txTo) < 2 ^ 31.
Proof. destruct Hok as (_ & [H1 _] & [H2 _] & _). unfold MAX_SIZE in *. lia. Qed.

Lemma inputs_signed : serialize_each (SerializeInput txTo scriptCode nIn nHashType) (if fAnyoneCanPay nHashType then 1 else u32 (vsize (vin txTo))) =
  Some (flat_map CTxIn_Serialize (vin (signed_tx scriptCode txTo nIn nHashType))) /\
  (if fAnyoneCanPay nHashType then 1 else u32 (vsize (vin txTo))) = vsize (vin (signed_tx scriptCode txTo nIn nHashType)).
Proof.
  unfold signed_tx. cbn [vin]. set (loose := fHashSingle nHashType || fHashNone nHashType).
  set (l := imap (signed_input scriptCode (Z.to_nat nIn) loose) (vin txTo)).
  assert (l !! Z.to_nat nIn = Some (mk_CTxIn (prevout txin) (signed_code scriptCode) (nSequence txin) [])) as Hl.
  { unfold l. rewrite list_lookup_imap, Hin. cbn [fmap option_fmap option_map]. unfold signed_input. by rewrite bool_decide_true. }
  destruct (fAnyoneCanPay nHashType) eqn:Ea.
  - rewrite (drop_S _ _ _ Hl). cbn [take]. split; [ | done].
    apply (serialize_each_spec CTxIn_Serialize _ [_]). intros [ | i] x [= <-]. unfold SerializeInput. rewrite Ea, Hin, Z.eqb_refl. cbn [mbind option_bind negb andb].
    unfold CTxIn_Serialize. cbn [prevout scriptSig nSequence]. by rewrite SerializeScriptCode_signed.
  - pose proof (vsize_nonneg (vin txTo)). pose proof vsizes_fit. rewrite u32_id by lia.
    replace (vsize (vin txTo)) with (vsize l) by (unfold l, vsize; by rewrite length_imap). split; [ | done].
    apply serialize_each_spec. intros i x Hx. unfold l in Hx. rewrite list_lookup_imap in Hx.
    destruct (vin txTo !! i) as [t | ] eqn:Et; [ | done]. injection Hx as <-. unfold SerializeInput. rewrite Ea, Nat2Z.id, Et. cbn [mbind option_bind].
    unfold signed_input, CTxIn_Serialize. destruct (bool_decide_reflect (i = Z.to_nat nIn)) as [-> | Hne].
    + rewrite Z2Nat.id, Z.eqb_refl by done. cbn [negb andb prevout scriptSig nSequence]. by rewrite SerializeScriptCode_signed.
    + destruct (Z.eqb_spec (Z.of_nat i) nIn); [lia | ]. cbn [negb andb prevout scriptSig nSequence]. fold loose. by destruct loose.
Qed.

Lemma outputs_signed : (fHashSingle nHashType = true -> nIn < vsize (vout txTo)) ->
  let nOutputs := if fHashNone nHashType then 0 else if fHashSingle nHashType then u32 (nIn + 1) else u32 (vsize (vout txTo)) in
  serialize_each (SerializeOutput txTo nIn nHashType) nOutputs = Some (flat_map CTxOut_Serialize (vout (signed_tx scriptCode txTo nIn nHashType))) /\
  nOutputs = vsize (vout (signed_tx scriptCode txTo nIn nHashType)).
Proof.
  intros Hsingle. unfold signed_tx. cbn [vout]. pose proof vsizes_fit as [_ Hfit]. pose proof (vsize_nonneg (vout txTo)).
  destruct (fHashNone nHashType) eqn:En; [done | ]. destruct (fHashSingle nHashType) eqn:Es.
  - specialize (Hsingle eq_refl). destruct (lookup_lt_is_Some_2 (vout txTo) (Z.to_nat nIn)) as [o Ho]; [unfold vsize in *; lia | ].
    rewrite u32_id by lia. rewrite (drop_S _ _ _ Ho). cbn [take]. set (l := replicate (Z.to_nat nIn) CTxOut_SetNull ++ [o]).
    assert (nIn + 1 = vsize l) as -> by (unfold l, vsize; rewrite length_app, length_replicate; cbn [length]; lia). split; [ | done].
    apply serialize_each_spec. intros i x Hx. unfold SerializeOutput. rewrite Es. cbn [andb].
    apply lookup_app_Some in Hx as [Hx | [Hi Hx]].
    + apply lookup_replicate in Hx as [-> Hi]. destruct (Z.eqb_spec (Z.of_nat i) nIn); [lia | ]. done.
    + rewrite length_replicate in *. apply list_lookup_singleton_Some in Hx as [Hi' <-].
      assert (i = Z.to_nat nIn) as -> by lia. rewrite Z2Nat.id, Z.eqb_refl by done. cbn [negb]. by rewrite Ho.
  - rewrite u32_id by lia. split; [ | done]. apply serialize_each_spec. intros i x Hx. unfold SerializeOutput. rewrite Es. cbn [andb]. by rewrite Nat2Z.id, Hx.
Qed.

Lemma serializer_spec : (fHashSingle nHashType = true -> nIn < vsize (vout txTo)) ->
  SignatureSerializer_Serialize txTo scriptCode nIn nHashType = Some (basic_format (signed_tx scriptCode txTo nIn nHashType)).
Proof.
  intros Hsingle. destruct inputs_signed as [E1 E2], (outputs_signed Hsingle) as [E3 E4]. unfold SignatureSerializer_Serialize.
  rewrite E1. cbn [mbind option_bind]. rewrite E3. cbn [mbind option_bind]. rewrite E2, E4. unfold basic_format, Serialize_vector. cbn [tx_nVersion nLockTime signed_tx]. by rewrite <- !app_assoc.
Qed.
End Equivalence.

(** (C28) The signature hash.  For any transaction, input and script that decodes, the serializer that
    modifies the transaction while writing it hashes exactly what [SignatureHashOld] does, which
    copies and modifies the transaction first: separators removed, other scripts blanked, and
    inputs, sequence numbers and outputs dropped as the hash type says, including the answer for
    [SIGHASH_SINGLE] without an output.  No index is out of range.  For witness version 0 the
    cache of partial hashes does not change the answer. *)
Theorem signature_hash_equivalence C scriptCode txTo nIn nHashType amount cache :
  tx_ok txTo -> 0 <= nIn < vsize (vin txTo) -> vsize scriptCode < 2 ^ 32 -> snd (decode scriptCode) = true ->
  SignatureHash C scriptCode txTo nIn nHashType amount BASE cache = Some (SignatureHashOld C scriptCode txTo nIn nHashType) /\
  SignatureHash C scriptCode txTo nIn nHashType amount WITNESS_V0 (Some (PrecomputedTransactionData_new C txTo)) =
    SignatureHash C scriptCode txTo nIn nHashType amount WITNESS_V0 None.
Proof.
  intros Hok Hn Hs Hd. destruct (lookup_lt_is_Some_2 (vin txTo) (Z.to_nat nIn)) as [txin Hin]; [unfold vsize in *; lia | ]. split.
  - unfold SignatureHash, SignatureHashOld. rewrite Hin. cbn [mbind option_bind]. destruct (Z.leb_spec (vsize (vin txTo)) nIn); [lia | ].
    destruct (fHashSingle nHashType && (vsize (vout txTo) <=? nIn)) eqn:Es; [done | ].
    erewrite serializer_spec; [ | done | lia | done | done | done | ].
    + cbn [mbind option_bind]. by rewrite SerializeTransaction_eq.
    + intros E. rewrite E in Es. cbn [andb] in Es. lia.
  - unfold SignatureHash. rewrite Hin. cbn [mbind option_bind]. unfold PrecomputedTransactionData_new, witness_preimage.
    by destruct (HasWitness txTo).
Qed.

Lemma signature_hash_equivalence_witness :
  SignatureHash toy_crypto [OP_1; OP_CODESEPARATOR; OP_2] sample_tx 0 SIGHASH_ALL 0 BASE None =
    Some (SignatureHashOld toy_crypto [OP_1; OP_CODESEPARATOR; OP_2] sample_tx 0 SIGHASH_ALL).
Proof.
  refine (proj1 (signature_hash_equivalence toy_crypto [OP_1; OP_CODESEPARATOR; OP_2] sample_tx 0 SIGHASH_ALL 0 None sample_tx_ok _ _ _)).
  - vm_compute. split; [discriminate | reflexivity].
  - reflexivity.
  - reflexivity.
Defined.

(** *** What a signature hash binds *)

Lemma flat_map_inj {A} (P : A -> Prop) (w : A -> bytes) (r : reader A) `{!RoundTrip P w r} l l' :
  (forall a, P a -> w a <> []) -> Forall P l -> Forall P l' -> flat_map w l = flat_map w l' -> l = l'.
Proof.
  intros Hne Hl. revert l'. induction Hl as [ | a l Ha _ IH]; intros [ | a' l'] Hl' E; [done | | | ].
  - apply Forall_cons in Hl' as [Ha' _]. cbn [flat_map] in E. symmetry in E. apply app_nil in E as [E _]. by destruct (Hne a' Ha').
  - cbn [flat_map] in E. apply app_nil in E as [E _]. by destruct (Hne a Ha).
  - apply Forall_cons in Hl' as [Ha' Hl']. cbn [flat_map] in E. pose proof (round_trip a (flat_map w l) Ha) as R1. pose proof (round_trip a' (flat_map w l') Ha') as R2.
    rewrite E, R2 in R1. injection R1 as <- E'. f_equal. by apply IH.
Qed.

Lemma RoundTrip_inj {A} (P : A -> Prop) (w : A -> bytes) (r : reader A) `{!RoundTrip P w r} a a' : P a -> P a' -> w a = w a' -> a = a'.
Proof. intros Ha Ha' E. pose proof (round_trip a [] Ha) as R1. pose proof (round_trip a' [] Ha') as R2. rewrite E, R2 in R1. congruence. Qed.

(** A place a signature can be for: an input of a well-formed transaction, with a hash type *)
Definition signable (txTo : CMutableTransaction) (scriptCode : CScript) (nIn nHashType : Z) : Prop :=
  tx_ok txTo /\ 0 <= nIn < vsize (vin txTo) /\ blob_ok scriptCode /\ snd (decode scriptCode) = true /\ 0 <= nHashType < 256.

(** The script with its separators is one of fewer bytes. *)
Lemma strip_loop_blob fuel pc : are_bytes pc -> are_bytes (strip_loop fuel pc) /\ vsize (strip_loop fuel pc) <= vsize pc.
Proof.
  revert pc. induction fuel as [ | fuel IH]; intros pc Hb; cbn [strip_loop]; [done | ].
  destruct (GetScriptOp pc) as [[[o d] pc'] | ] eqn:E; [ | done]. destruct (op_bytes _ _ _ _ E) as [_ E'].
  set (t := take (length pc - length pc') pc) in *. rewrite E' in Hb. apply Forall_app in Hb as [Ht Hp']. destruct (IH pc' Hp') as [H1 H2].
  assert (vsize pc = vsize t + vsize pc') by (rewrite E' at 1; apply vsize_app). clearbody t. pose proof (vsize_nonneg t).
  destruct (o =? OP_CODESEPARATOR); rewrite ?app_nil_l, ?vsize_app; (split; [try done | lia]).
  by apply Forall_app.
Qed.

Lemma signed_tx_ok txTo scriptCode nIn nHashType : signable txTo scriptCode nIn nHashType ->
  (fHashSingle nHashType = true -> nIn < vsize (vout txTo)) ->
  tx_ok (signed_tx scriptCode txTo nIn nHashType) /\ strip_witness (signed_tx scriptCode txTo nIn nHashType) = signed_tx scriptCode txTo nIn nHashType.
Proof.
  intros ((Hv & [Hi1 Hi2] & [Ho1 Ho2] & Hl) & Hn & [Hb Hbs] & _ & _) Hsingle.
  assert (blob_ok (signed_code scriptCode)) as Hcode.
  { rewrite signed_code_strip. destruct (strip_loop_blob (length scriptCode) scriptCode Hb). split; [done | lia]. }
  set (f := signed_input scriptCode (Z.to_nat nIn) (fHashSingle nHashType || fHashNone nHashType)).
  assert (Forall (fun i => bare_input_ok i /\ input_ok i) (imap f (vin txTo))) as HF.
  { apply Forall_lookup_2. intros i x Hx. rewrite list_lookup_imap in Hx. destruct (vin txTo !! i) as [t | ] eqn:Et; [ | done]. injection Hx as <-.
    rewrite Forall_lookup in Hi2. destruct (Hi2 i t Et) as [(Hp & _ & Hq & _) _].
    assert (bare_input_ok (f i t)) as Hbare.
    { unfold f, signed_input. case_bool_decide; refine (conj Hp (conj _ (conj _ eq_refl))); cbn [scriptSig nSequence].
      - exact Hcode.
      - exact Hq.
      - split; [constructor | done].
      - destruct (_ || _); [lia | exact Hq]. }
    split; [done | ]. split; [ | by destruct Hbare as (_ & _ & _ & ->)]. destruct Hbare as (? & ? & ? & Ew). unfold strip_input, set_witness, bare_input_ok. done. }
  assert (Hvin : vector_ok (fun i => bare_input_ok i /\ input_ok i) (vin (signed_tx scriptCode txTo nIn nHashType))).
  { unfold signed_tx. cbn [vin]. fold f. destruct (fAnyoneCanPay nHashType).
    - split; [ | by apply Forall_take, Forall_drop]. unfold vsize, MAX_SIZE. rewrite length_take. lia.
    - split; [ | done]. unfold vsize in *. by rewrite length_imap. }
  split.
  - split; [done | ]. split; [destruct Hvin as [? HF']; split; [done | ]; eapply Forall_impl; [exact HF' | by intros i [_ ?]] | ]. split; [ | done].
    unfold signed_tx. cbn [vout]. destruct (fHashNone nHashType); [split; [done | constructor] | ]. destruct (fHashSingle nHashType) eqn:Es; [ | done].
    specialize (Hsingle eq_refl). split.
    + unfold vsize in *. rewrite length_app, length_replicate, length_take, length_drop. lia.
    + apply Forall_app. split; [ | by apply Forall_take, Forall_drop]. apply Forall_replicate. split; [decided | split; [constructor | done]].
  - apply HasWitness_false. unfold HasWitness. apply not_true_is_false. intros Hx. apply existsb_exists in Hx as (i & Hi & Hx).
    destruct Hvin as [_ HF']. rewrite Forall_forall in HF'. destruct (HF' i (proj2 (list_elem_of_In _ _) Hi)) as [(_ & _ & _ & Ew) _]. by rewrite Ew in Hx.
Qed.

(** What a signature for witness version 0 is for *)
Definition witness_signed (scriptCode : CScript) (txTo : CMutableTransaction) (txin : CTxIn) (nIn nHashType amount : Z) :=
  ((tx_nVersion txTo, nLockTime txTo, nHashType), (prevout txin, scriptCode, amount, nSequence txin),
   (if fAnyoneCanPay nHashType then None else Some (prevout <$> vin txTo)),
   (if fAnyoneCanPay nHashType || fHashSingle nHashType || fHashNone nHashType then None else Some (nSequence <$> vin txTo)),
   (if fHashNone nHashType then None else if fHashSingle nHashType then (fun o => [o]) <$> vout txTo !! Z.to_nat nIn else Some (vout txTo))).

Section Binds.
Context (C : Crypto) (HC : forall m, length (Hash256 C m) = 32%nat).
(** One of the strings hashed has a given hash. *)
Definition hashes_to (S : list bytes) (h : uint256) : Prop := exists x, x ∈ S /\ Hash256 C x = h.

(** What is hashed of the parts of a transaction *)
Definition prevouts_string (txTo : CMutableTransaction) : bytes := flat_map (fun i => COutPoint_Serialize (prevout i)) (vin txTo).
Definition sequences_string (txTo : CMutableTransaction) : bytes := flat_map (fun i => ser_writedata32 (nSequence i)) (vin txTo).
Definition outputs_string (txTo : CMutableTransaction) : bytes := flat_map CTxOut_Serialize (vout txTo).
Definition output_strings (o : option CTxOut) : list bytes := match o with Some o => [CTxOut_Serialize o] | None => [] end.
Definition part_strings (txTo : CMutableTransaction) (nIn : Z) : list bytes :=
  [prevouts_string txTo; sequences_string txTo; outputs_string txTo] ++ output_strings (vout txTo !! Z.to_nat nIn).

Lemma flat_map_fmap {A B} (w : B -> bytes) (g : A -> B) l : flat_map (fun i => w (g i)) l = flat_map w (g <$> l).
Proof. induction l as [ | x l IH]; [done | ]. cbn [flat_map fmap list_fmap]. by rewrite IH. Qed.

Lemma prevouts_bind txTo txTo' : tx_ok txTo -> tx_ok txTo' -> GetPrevoutHash C txTo = GetPrevoutHash C txTo' ->
  prevout <$> vin txTo = prevout <$> vin txTo' \/ collision (Hash256 C) [prevouts_string txTo; prevouts_string txTo'].
Proof.
  intros Hok Hok' [E | ?]%hash_eq_or_collision; [left | by right]. rewrite !(flat_map_fmap COutPoint_Serialize prevout) in E.
  apply (flat_map_inj outpoint_ok _ COutPoint_Unserialize) in E; [done | | apply Forall_fmap; by apply tx_inputs_ok..].
  intros o [[_ Hh] _] Hnil. unfold COutPoint_Serialize, uint256_Serialize in Hnil. destruct (outpoint_hash o); done.
Qed.

Lemma input_sequences txTo : tx_ok txTo -> Forall (fun q => in_u 32 q) (nSequence <$> vin txTo).
Proof. intros (_ & [_ Hi] & _). apply Forall_fmap. eapply Forall_impl; [exact Hi | ]. by intros i [(_ & _ & Hq & _) _]. Qed.

Lemma sequences_bind txTo txTo' : tx_ok txTo -> tx_ok txTo' -> GetSequenceHash C txTo = GetSequenceHash C txTo' ->
  nSequence <$> vin txTo = nSequence <$> vin txTo' \/ collision (Hash256 C) [sequences_string txTo; sequences_string txTo'].
Proof.
  intros Hok Hok' [E | ?]%hash_eq_or_collision; [left | by right]. rewrite !(flat_map_fmap ser_writedata32 nSequence) in E.
  apply (flat_map_inj (fun q => in_u 32 q) _ ser_readdata32) in E; [done | | by apply input_sequences..]. done.
Qed.

Lemma output_nonempty o : CTxOut_Serialize o <> [].
Proof. unfold CTxOut_Serialize, ser_writedata64. intros E%app_nil. destruct E as [E _]. apply (f_equal length) in E. by rewrite le_encode_length in E. Qed.

Lemma outputs_bind txTo txTo' : tx_ok txTo -> tx_ok txTo' -> GetOutputsHash C txTo = GetOutputsHash C txTo' ->
  vout txTo = vout txTo' \/ collision (Hash256 C) [outputs_string txTo; outputs_string txTo'].
Proof.
  intros (_ & _ & [_ Ho] & _) (_ & _ & [_ Ho'] & _) [E | ?]%hash_eq_or_collision; [left | by right].
  apply (flat_map_inj output_ok _ CTxOut_Unserialize) in E; [done | | done | done]. intros o _. apply output_nonempty.
Qed.

Lemma output_at_ok txTo n o : tx_ok txTo -> vout txTo !! n = Some o -> output_ok o.
Proof. intros (_ & _ & [_ Ho] & _) E. rewrite Forall_lookup in Ho. by apply (Ho n). Qed.

(** The hash of the output at an index, if there is one *)
Definition single_hash (o : option CTxOut) : uint256 := match o with Some o => Hash256 C (CTxOut_Serialize o) | None => uint256_SetNull end.

Lemma single_bind (o o' : option CTxOut) : (forall x, o = Some x -> output_ok x) -> (forall x, o' = Some x -> output_ok x) ->
  single_hash o = single_hash o' -> o = o' \/ collision (Hash256 C) (output_strings o ++ output_strings o') \/
    hashes_to (output_strings o ++ output_strings o') uint256_SetNull.
Proof.
  destruct o as [x | ], o' as [x' | ]; cbn [single_hash output_strings app]; intros Hx Hx' E;
    [ | right; right; eexists; (split; [by left | done]).. | by left].
  apply hash_eq_or_collision in E as [E | ?]; [left | by auto]. f_equal.
  apply (RoundTrip_inj output_ok _ CTxOut_Unserialize); auto.
Qed.

(** The parts of the preimage have fixed sizes but for the script. *)
Lemma preimage_inj v v' p p' q q' (o o' : bytes) c c' a a' s s' h h' l l' t t' :
  length v = length v' -> length p = length p' -> length q = length q' -> length o = length o' ->
  length a = length a' -> length s = length s' -> length h = length h' -> length l = length l' -> length t = length t' ->
  v ++ p ++ q ++ o ++ c ++ a ++ s ++ h ++ l ++ t = v' ++ p' ++ q' ++ o' ++ c' ++ a' ++ s' ++ h' ++ l' ++ (t' : bytes) ->
  (v = v' /\ p = p' /\ q = q' /\ o = o') /\ c = c' /\ (a = a' /\ s = s' /\ h = h' /\ l = l' /\ t = t').
Proof.
  intros H1 H2 H3 H4 H5 H6 H7 H8 H9 E. apply app_inj_1 in E as [E1 E]; [ | done]. apply app_inj_1 in E as [E2 E]; [ | done].
  apply app_inj_1 in E as [E3 E]; [ | done]. apply app_inj_1 in E as [E4 E]; [ | done].
  apply app_inj_2 in E as [E5 E]; [ | rewrite !length_app; congruence]. apply app_inj_1 in E as [E6 E]; [ | done].
  apply app_inj_1 in E as [E7 E]; [ | done]. apply app_inj_1 in E as [E8 E]; [ | done]. apply app_inj_1 in E as [E9 E]; done.
Qed.

Lemma word_length z : length (ser_writedata32 z) = 4%nat.
Proof. apply le_encode_length. Qed.

Lemma outpoint_length o : outpoint_ok o -> length (COutPoint_Serialize o) = 36%nat.
Proof. intros [[_ Hh] _]. unfold COutPoint_Serialize, uint256_Serialize. by rewrite length_app, Hh, word_length. Qed.

Lemma input_at_ok txTo n i : tx_ok txTo -> vin txTo !! n = Some i -> outpoint_ok (prevout i) /\ in_u 32 (nSequence i).
Proof. intros (_ & [_ Hi] & _) E. rewrite Forall_lookup in Hi. destruct (Hi n i E) as [(Hp & _ & Hq & _) _]. done. Qed.

Lemma witness_preimage_inj code txTo i nIn ht amount code' txTo' i' nIn' ht' amount' :
  signable txTo code nIn ht -> signable txTo' code' nIn' ht' -> in_i 64 amount -> in_i 64 amount' ->
  vin txTo !! Z.to_nat nIn = Some i -> vin txTo' !! Z.to_nat nIn' = Some i' ->
  witness_preimage C code txTo i nIn ht amount None = witness_preimage C code' txTo' i' nIn' ht' amount' None ->
  witness_signed code txTo i nIn ht amount = witness_signed code' txTo' i' nIn' ht' amount' \/
  collision (Hash256 C) (part_strings txTo nIn ++ part_strings txTo' nIn') \/
  hashes_to (part_strings txTo nIn ++ part_strings txTo' nIn') uint256_SetNull.
Proof.
  intros (Hok & Hn & Hb & _ & Hht) (Hok' & Hn' & Hb' & _ & Hht') Ha Ha' Hi Hi' E.
  destruct (input_at_ok _ _ _ Hok Hi) as [Hp Hq], (input_at_ok _ _ _ Hok' Hi') as [Hp' Hq'].
  assert (forall b x, length (if b : bool then Hash256 C x else uint256_SetNull) = 32%nat) as Hsz by (intros [] ?; [apply HC | done]).
  assert (forall o, length (single_hash o) = 32%nat) as Hsz1 by (intros [o | ]; [apply HC | done]).
  unfold witness_preimage in E. cbn [from_option] in E. unfold uint256_Serialize in E.
  change (match vout txTo !! Z.to_nat nIn with Some o => Hash256 C (CTxOut_Serialize o) | None => uint256_SetNull end) with (single_hash (vout txTo !! Z.to_nat nIn)) in E.
  change (match vout txTo' !! Z.to_nat nIn' with Some o => Hash256 C (CTxOut_Serialize o) | None => uint256_SetNull end) with (single_hash (vout txTo' !! Z.to_nat nIn')) in E.
  apply preimage_inj in E.
  2, 6, 7, 9, 10: unfold ser_writedata32, ser_writedata64; by rewrite !le_encode_length.
  2, 3: unfold GetPrevoutHash, GetSequenceHash; by rewrite !Hsz.
  2: by rewrite !outpoint_length.
  2: unfold GetOutputsHash; by repeat case_match; rewrite ?HC, ?Hsz1.
  destruct E as ((Ev & Ep & Es & Eo) & Ec & (Ea & Eq & Eh & El & Et)).
  assert (tx_nVersion txTo = tx_nVersion txTo') as Ev'.
  { apply (RoundTrip_inj (fun x => in_i 32 x) ser_writedata32 Unserialize_int32); [by destruct Hok | by destruct Hok' | done]. }
  assert (nLockTime txTo = nLockTime txTo') as El'.
  { apply (RoundTrip_inj (fun x => in_u 32 x) ser_writedata32 ser_readdata32); [by destruct Hok as (_ & _ & _ & ?) | by destruct Hok' as (_ & _ & _ & ?) | done]. }
  assert (ht = ht') as <- by (apply (RoundTrip_inj (fun x => in_u 32 x) ser_writedata32 ser_readdata32); done || lia).
  assert (prevout i = prevout i') as Ep' by (by apply (RoundTrip_inj outpoint_ok COutPoint_Serialize COutPoint_Unserialize)).
  assert (nSequence i = nSequence i') as Eq' by (by apply (RoundTrip_inj (fun x => in_u 32 x) ser_writedata32 ser_readdata32)).
  assert (code = code') as Ec' by (by apply (RoundTrip_inj blob_ok Serialize_bytes Unserialize_bytes)).
  assert (amount = amount') as Ea' by (by apply (RoundTrip_inj (fun x => in_i 64 x) ser_writedata64 Unserialize_int64)).
  unfold witness_signed. rewrite Ev', El', Ep', Eq', Ec', Ea'.
  assert ((if fAnyoneCanPay ht then None else Some (prevout <$> vin txTo)) = (if fAnyoneCanPay ht then None else Some (prevout <$> vin txTo')) \/ collision (Hash256 C) (part_strings txTo nIn ++ part_strings txTo' nIn')) as [-> | ?].
  { destruct (fAnyoneCanPay ht); [by left | ]. cbn [negb] in Ep. apply prevouts_bind in Ep as [-> | ?]; [by left | right; collides | done..]. }
  2: by auto.
  assert ((if fAnyoneCanPay ht || fHashSingle ht || fHashNone ht then None else Some (nSequence <$> vin txTo)) =
          (if fAnyoneCanPay ht || fHashSingle ht || fHashNone ht then None else Some (nSequence <$> vin txTo')) \/ collision (Hash256 C) (part_strings txTo nIn ++ part_strings txTo' nIn')) as [-> | ?].
  { destruct (fAnyoneCanPay ht), (fHashSingle ht), (fHashNone ht); cbn [negb andb orb] in *; try by left. apply sequences_bind in Es as [-> | ?]; [by left | right; collides | done..]. }
  2: by auto.
  destruct (fHashNone ht); [by left | ]. destruct (fHashSingle ht); cbn [negb andb] in Eh.
  - apply single_bind in Eh as [-> | [? | (x & Hx & ?)]]; [by left | right; left; collides | | intros x; by apply output_at_ok | intros x; by apply output_at_ok].
    right; right. exists x. split; [ | done]. revert Hx. unfold part_strings. rewrite !elem_of_app. tauto.
  - apply outputs_bind in Eh as [-> | ?]; [by left | right; left; collides | done..].
Qed.
End Binds.

(** [SIGHASH_SINGLE] for an input without an output of its index *)
Definition single_missing (txTo : CMutableTransaction) (nIn ht : Z) : bool := fHashSingle ht && (vsize (vout txTo) <=? nIn).

(** What is hashed for the two kinds of signatures *)
Definition base_string (code : CScript) (txTo : CMutableTransaction) (nIn ht : Z) : bytes := basic_format (signed_tx code txTo nIn ht) ++ ser_writedata32 ht.
Definition witness_strings C (code : CScript) (txTo : CMutableTransaction) (i : CTxIn) (nIn ht amount : Z) : list bytes :=
  witness_preimage C code txTo i nIn ht amount None :: part_strings txTo nIn.

Lemma base_hash C code txTo nIn ht amount : signable txTo code nIn ht ->
  SignatureHash C code txTo nIn ht amount BASE None = Some (if single_missing txTo nIn ht then hash_one else Hash256 C (base_string code txTo nIn ht)).
Proof.
  intros (Hok & Hn & [_ Hb] & Hd & Hht). destruct (lookup_lt_is_Some_2 (vin txTo) (Z.to_nat nIn)) as [i Hi]; [unfold vsize in *; lia | ].
  unfold SignatureHash, single_missing. rewrite Hi. cbn [mbind option_bind]. destruct (_ && _) eqn:E; [done | ].
  rewrite (serializer_spec txTo code nIn ht i); [done | try done; unfold MAX_SIZE in *; lia.. | ].
  intros Hs. rewrite Hs in E. cbn [andb] in E. lia.
Qed.

(** (C29) What a signature binds.  When two places have the same signature hash, then for old
    scripts the two modified transactions and the hash types are the same (so a signature with
    [SIGHASH_ALL] fixes version, every outpoint and sequence number, every output and the lock
    time), with one exception: under [SIGHASH_SINGLE] an input without an output of its index has
    the constant hash 1, which binds nothing.  For witness version 0 there is no exception:
    version, lock time, hash type, the outpoint, script, amount and sequence number of the input,
    and whatever the hash type keeps of the other inputs and of the outputs are the same.  The only
    other ways are a collision of the double SHA-256 among the strings hashed for the two places,
    or one of these strings that hashes to the constant in use: 1 for old scripts, and 0 for an
    output of witness version 0. *)
Theorem signature_hash_binds C code txTo nIn ht amount code' txTo' nIn' ht' amount' i i' :
  (forall m, length (Hash256 C m) = 32%nat) ->
  signable txTo code nIn ht -> signable txTo' code' nIn' ht' -> in_i 64 amount -> in_i 64 amount' ->
  vin txTo !! Z.to_nat nIn = Some i -> vin txTo' !! Z.to_nat nIn' = Some i' ->
  let S := [base_string code txTo nIn ht; base_string code' txTo' nIn' ht'] in
  let T := witness_strings C code txTo i nIn ht amount ++ witness_strings C code' txTo' i' nIn' ht' amount' in
  (SignatureHash C code txTo nIn ht amount BASE None = SignatureHash C code' txTo' nIn' ht' amount' BASE None ->
   (single_missing txTo nIn ht = true /\ single_missing txTo' nIn' ht' = true) \/
   (single_missing txTo nIn ht = false /\ single_missing txTo' nIn' ht' = false /\ signed_tx code txTo nIn ht = signed_tx code' txTo' nIn' ht' /\ ht = ht') \/
   collision (Hash256 C) S \/ hashes_to C S hash_one) /\
  (SignatureHash C code txTo nIn ht amount WITNESS_V0 None = SignatureHash C code' txTo' nIn' ht' amount' WITNESS_V0 None ->
   witness_signed code txTo i nIn ht amount = witness_signed code' txTo' i' nIn' ht' amount' \/
   collision (Hash256 C) T \/ hashes_to C T uint256_SetNull).
Proof.
  intros HC Hs Hs' Ha Ha' Hi Hi' S T. pose proof Hs as (_ & _ & _ & _ & Hht). pose proof Hs' as (_ & _ & _ & _ & Hht'). split.
  - rewrite !base_hash by done. intros E. apply (inj Some) in E.
    destruct (single_missing txTo nIn ht) eqn:M, (single_missing txTo' nIn' ht') eqn:M'.
    + by left.
    + do 3 right. exists (base_string code' txTo' nIn' ht'). split; [right; by left | done].
    + do 3 right. exists (base_string code txTo nIn ht). split; [by left | done].
    + apply hash_eq_or_collision in E as [E | ?]; [right; left | by auto].
      apply app_inj_2 in E as [E Et]; [ | by rewrite !word_length].
      destruct (signed_tx_ok _ _ _ _ Hs) as [Hk Hw]; [intros E1; unfold single_missing in M; rewrite E1 in M; cbn [andb] in M; lia | ].
      destruct (signed_tx_ok _ _ _ _ Hs') as [Hk' Hw']; [intros E1; unfold single_missing in M'; rewrite E1 in M'; cbn [andb] in M'; lia | ].
      apply basic_format_strip in E; [ | done | done]. rewrite Hw, Hw' in E. split_and!; [done | done | done | ].
      apply (RoundTrip_inj (fun x => in_u 32 x) ser_writedata32 ser_readdata32); done || lia.
  - unfold SignatureHash. rewrite Hi, Hi'. cbn [mbind option_bind]. intros E. apply (inj Some) in E.
    apply hash_eq_or_collision in E as [E | ?]; [ | right; left; unfold T, witness_strings; collides].
    apply (witness_preimage_inj C HC) in E as [E | [? | (x & Hx & ?)]]; try done; [by left | right; left; unfold T, witness_strings; collides | ].
    right; right. exists x. split; [ | done]. unfold T, witness_strings. revert Hx. rewrite !elem_of_app, !elem_of_cons. tauto.
Qed.

Lemma sample_signable : signable sample_tx [OP_1] 0 SIGHASH_ALL.
Proof.
  split; [exact sample_tx_ok | ]. split; [vm_compute; split; [discriminate | reflexivity] | ]. split; [split; decided | ].
  split; [reflexivity | unfold SIGHASH_ALL; lia].
Qed.

(** The same transaction with another witness: a signature covers no witness. *)
Definition rewitnessed_tx : CMutableTransaction :=
  mk_tx [mk_CTxIn (mk_COutPoint (repeat 7 32) 1) [] SEQUENCE_FINAL [[9]]] [mk_CTxOut (5 * COIN) [OP_TRUE]] 2 0.

Lemma rewitnessed_signable : signable rewitnessed_tx [OP_1] 0 SIGHASH_ALL.
Proof.
  split; [ | ].
  - unfold tx_ok, vector_ok, input_ok, bare_input_ok, outpoint_ok, uint256_ok, output_ok, witness_ok, vector_ok, blob_ok, is_byte; simpl.
    repeat (split || constructor); unfold is_byte; lia || discriminate || done.
  - split; [vm_compute; split; [discriminate | reflexivity] | ]. split; [split; decided | ]. split; [reflexivity | unfold SIGHASH_ALL; lia].
Qed.

Lemma signature_hash_binds_witness : sample_tx <> rewitnessed_tx /\
  exists i i', vin sample_tx !! 0%nat = Some i /\ vin rewitnessed_tx !! 0%nat = Some i' /\
  (witness_signed [OP_1] sample_tx i 0 SIGHASH_ALL 7 = witness_signed [OP_1] rewitnessed_tx i' 0 SIGHASH_ALL 7 \/
   collision (Hash256 toy_crypto) (witness_strings toy_crypto [OP_1] sample_tx i 0 SIGHASH_ALL 7 ++ witness_strings toy_crypto [OP_1] rewitnessed_tx i' 0 SIGHASH_ALL 7) \/
   hashes_to toy_crypto (witness_strings toy_crypto [OP_1] sample_tx i 0 SIGHASH_ALL 7 ++ witness_strings toy_crypto [OP_1] rewitnessed_tx i' 0 SIGHASH_ALL 7) uint256_SetNull).
Proof.
  split; [discriminate | ]. eexists _, _. split; [reflexivity | ]. split; [reflexivity | ].
  refine (proj2 (signature_hash_binds toy_crypto [OP_1] sample_tx 0 SIGHASH_ALL 7 [OP_1] rewitnessed_tx 0 SIGHASH_ALL 7 _ _
    toy_hash_sized sample_signable rewitnessed_signable _ _ eq_refl eq_refl) eq_refl).
  - lia.
  - lia.
Defined.

(** *** Lock times in scripts *)

Lemma land_bit s k : 0 <= k -> Z.land s (2 ^ k) = if Z.testbit s k then 2 ^ k else 0.
Proof.
  intros Hk. apply Z.bits_inj'. intros i Hi. rewrite Z.land_spec, Z.pow2_bits_eqb by lia.
  destruct (Z.eqb_spec k i) as [<- | Hne]; [rewrite andb_true_r | rewrite andb_false_r]; destruct (Z.testbit s k) eqn:E;
    rewrite ?Z.bits_0, ?Z.pow2_bits_eqb by lia; rewrite ?Z.eqb_refl; try done. by destruct (Z.eqb_spec k i).
Qed.

(** What is compared: the type bit and the low sixteen bits *)
Lemma masked_sequence s : Z.land s (Z.lor SEQUENCE_LOCKTIME_TYPE_FLAG SEQUENCE_LOCKTIME_MASK) =
  (if has s SEQUENCE_LOCKTIME_TYPE_FLAG then 2 ^ 22 else 0) + s mod 2 ^ 16.
Proof.
  unfold has. rewrite Z.land_lor_distr_r. change SEQUENCE_LOCKTIME_TYPE_FLAG with (2 ^ 22). change SEQUENCE_LOCKTIME_MASK with (Z.ones 16).
  rewrite Z.land_ones, land_bit by lia. pose proof (Z.mod_pos_bound s (2 ^ 16) ltac:(lia)).
  destruct (Z.testbit s 22); cbn [negb Z.eqb]; [ | by rewrite Z.lor_0_l].
  change (2 ^ 22 =? 0) with false. cbn [negb]. rewrite Z.lor_comm. change (2 ^ 22) with (Z.shiftl 1 22). rewrite lor_shiftl_add by lia.
  rewrite Z.shiftl_1_l. lia.
Qed.

Section Locks.
Context (C : Crypto) (Verify : bytes -> uint256 -> bytes -> bool) (txTo : CMutableTransaction) (nIn amount : Z) (txdata : option PrecomputedTransactionData).
Context (txin : CTxIn) (Hin : vin txTo !! Z.to_nat nIn = Some txin).

Lemma CheckLockTime_final n h t : 0 <= n -> 0 <= nLockTime txTo -> TransactionSignatureChecker_CheckLockTime txTo nIn n = true ->
  0 < h -> IsFinalTx txTo h t = true -> n < (if n <? LOCKTIME_THRESHOLD then h else t).
Proof.
  unfold TransactionSignatureChecker_CheckLockTime, IsFinalTx. rewrite Hin. intros Hn Hl Hc Hh Hf.
  destruct (_ || _) eqn:Ek; cbn [negb] in Hc; [ | done]. destruct (Z.ltb_spec (nLockTime txTo) n); [done | ].
  apply negb_true_iff, Z.eqb_neq in Hc.
  assert (forallb (fun i => nSequence i =? SEQUENCE_FINAL) (vin txTo) = false) as Hfa.
  { apply not_true_is_false. rewrite forallb_forall. intros Hall. apply list_elem_of_lookup_2, list_elem_of_In, Hall, Z.eqb_eq in Hin. lia. }
  rewrite Hfa in Hf. apply orb_true_iff in Ek. rewrite !andb_true_iff, !Z.ltb_lt, !Z.leb_le in Ek.
  destruct (Z.eqb_spec (nLockTime txTo) 0).
  - assert (n = 0) as -> by lia. change (0 <? LOCKTIME_THRESHOLD) with true. lia.
  - destruct (Z.ltb_spec (nLockTime txTo) (if nLockTime txTo <? LOCKTIME_THRESHOLD then h else t)) as [Hlt | ]; [ | done].
    destruct (Z.ltb_spec (nLockTime txTo) LOCKTIME_THRESHOLD), (Z.ltb_spec n LOCKTIME_THRESHOLD); lia.
Qed.

(** The input with the lock a script asks for *)
Definition with_sequence (n : Z) : CTxIn := mk_CTxIn (prevout txin) (scriptSig txin) n (scriptWitness txin).

Lemma CheckSequence_locks n m block height mtp_prev coin_height : TransactionSignatureChecker_CheckSequence txTo nIn n = true ->
  2 <= u32 (tx_nVersion txTo) /\
  (lock_satisfied m block height mtp_prev txin coin_height -> lock_satisfied m block height mtp_prev (with_sequence n) coin_height).
Proof.
  unfold TransactionSignatureChecker_CheckSequence, lock_satisfied, with_sequence. rewrite Hin, !masked_sequence. cbn [nSequence].
  destruct (Z.ltb_spec (u32 (tx_nVersion txTo)) 2); [done | ]. fold (has (nSequence txin) SEQUENCE_LOCKTIME_DISABLE_FLAG).
  destruct (has (nSequence txin) SEQUENCE_LOCKTIME_DISABLE_FLAG); [done | ]. intros Hc. split; [done | ].
  destruct (has n SEQUENCE_LOCKTIME_DISABLE_FLAG); [done | ].
  pose proof (Z.mod_pos_bound n (2 ^ 16) ltac:(lia)). pose proof (Z.mod_pos_bound (nSequence txin) (2 ^ 16) ltac:(lia)).
  change SEQUENCE_LOCKTIME_TYPE_FLAG with (2 ^ 22) in *.
  destruct (_ || _) eqn:Ek; cbn [negb] in Hc; [ | done]. rewrite negb_true_iff, Z.ltb_ge in Hc.
  apply orb_true_iff in Ek. rewrite !andb_true_iff, !Z.ltb_lt, !Z.leb_le in Ek.
  destruct (has (nSequence txin) (2 ^ 22)), (has n (2 ^ 22)); try lia. intros Hl q t Hq Ht. specialize (Hl q t Hq Ht). lia.
Qed.
End Locks.

(** Lock times in scripts are honoured.  When [OP_CHECKLOCKTIMEVERIFY] passes for an input,
    every block the transaction is final in is past the height or the time the script names;
    when [OP_CHECKSEQUENCEVERIFY] passes, and its operand is not switched off, the transaction
    is one of those BIP 68 is enforced for, and wherever the input's own relative lock is
    satisfied, so is the lock the script names. *)
Theorem script_locks_honoured C Verify txTo nIn amount txdata txin :
  vin txTo !! Z.to_nat nIn = Some txin -> 0 <= nLockTime txTo ->
  let checker := TransactionSignatureChecker C Verify txTo nIn amount txdata in
  (forall flags fRequireMinimal top st, has flags SCRIPT_VERIFY_CHECKLOCKTIMEVERIFY = true ->
     op_checklocktime checker flags fRequireMinimal (top :: st) = Ok tt ->
     exists n, CScriptNum top fRequireMinimal 5 = Ok n /\ 0 <= n /\
       forall h t, 0 < h -> IsFinalTx txTo h t = true -> n < (if n <? LOCKTIME_THRESHOLD then h else t)) /\
  (forall flags fRequireMinimal top st, has flags SCRIPT_VERIFY_CHECKSEQUENCEVERIFY = true ->
     op_checksequence checker flags fRequireMinimal (top :: st) = Ok tt ->
     exists n, CScriptNum top fRequireMinimal 5 = Ok n /\ 0 <= n /\
       (has n SEQUENCE_LOCKTIME_DISABLE_FLAG = true \/
        (forall flags', enforces_bip68 txTo flags' = has flags' LOCKTIME_VERIFY_SEQUENCE) /\
        forall m block height mtp_prev coin_height, lock_satisfied m block height mtp_prev txin coin_height ->
          lock_satisfied m block height mtp_prev (with_sequence txin n) coin_height)).
Proof.
  intros Hin Hl checker. split; intros flags fmin top st Hf.
  - unfold op_checklocktime. rewrite Hf. cbn [negb]. unfold num. destruct (CScriptNum top fmin 5) as [n | ]; [ | done]. cbn [mbind result_bind].
    destruct (Z.ltb_spec n 0); [done | ]. destruct (CheckLockTime checker n) eqn:Ec; [ | done]. intros _. exists n. split; [done | ]. split; [done | ].
    intros h t Hh Hfin. by apply (CheckLockTime_final txTo nIn txin Hin n h t).
  - unfold op_checksequence. rewrite Hf. cbn [negb]. unfold num. destruct (CScriptNum top fmin 5) as [n | ]; [ | done]. cbn [mbind result_bind].
    destruct (Z.ltb_spec n 0); [done | ]. fold (has n SEQUENCE_LOCKTIME_DISABLE_FLAG). destruct (has n SEQUENCE_LOCKTIME_DISABLE_FLAG) eqn:Ed.
    { intros _. exists n. auto. }
    destruct (CheckSequence checker n) eqn:Ec; [ | done]. intros _. exists n. split; [done | ]. split; [done | ]. right. split.
    + intros flags'. destruct (CheckSequence_locks txTo nIn txin Hin n ∅ [] 0 0 0 Ec) as [Hv _]. unfold enforces_bip68. by rewrite (proj2 (Z.leb_le _ _) Hv).
    + intros m block height mtp_prev coin_height. by apply (CheckSequence_locks txTo nIn txin Hin n).
Qed.

(** A transaction locked until block 100; the script asks for block 90. *)
Definition locked_tx : CMutableTransaction := mk_tx [mk_CTxIn (mk_COutPoint (repeat 7 32) 1) [] 0 []] [mk_CTxOut COIN [OP_TRUE]] 2 100.

Lemma script_locks_honoured_witness : IsFinalTx locked_tx 101 0 = true /\ 90 < 101.
Proof.
  destruct (script_locks_honoured toy_crypto (fun _ _ _ => true) locked_tx 0 0 None (mk_CTxIn (mk_COutPoint (repeat 7 32) 1) [] 0 []) eq_refl) as [H _].
  - cbn [nLockTime locked_tx]. lia.
  - destruct (H SCRIPT_VERIFY_CHECKLOCKTIMEVERIFY true [90] [] eq_refl eq_refl) as (n & E & _ & Hn).
    assert (n = 90) as -> by (vm_compute in E; by injection E). split; [reflexivity | ]. exact (Hn 101 0 eq_refl eq_refl).
Defined.
