(* ===== verification/Condensing.v ===== *)
(** * Condensing transactions ([src/xax/xaxstate.cpp], [src/xax/xaxstate.h])

    A contract holds its coins in at most one output; after a contract ran, one transaction spends
    the outputs of every account the run moved coins from or to and pays each its new balance.
    Modelled: the map from accounts to outputs ([vin], [kill], [deleteAccounts], [updateUTXO],
    [commit]), the class [CondensingTX], [ArtaxState::execute] around the virtual machine, and how
    balances, their rollback and the list of transfers are kept.

    The virtual machine and the account trie are parameters; [dev::h256] and [uint256] are the same
    bytes.

    Theorems: a condensing transaction spends exactly what it pays, and pays every account its old
    balance plus what it received minus what it sent; the map of outputs then records exactly these
    payments; recorded transfers explain the balances as long as no nested call is rolled back. *)

From stdpp Require Import gmap sorting.
From S2P Require Import Prelude Serialize Script Interpreter Standard Transaction Coins.
Open Scope Z_scope.

(** ** Definitions *)

Abbreviation Address := bytes (only parsing).
Definition null_Address : Address := repeat 0 20.
Definition u256 (z : Z) : Z := z mod 2 ^ 256.

Record TransferInfo : Type := mk_TransferInfo { from : Address; to : Address; ti_value : Z }.
Record Vin : Type := mk_Vin { vin_hash : uint256; nVout : Z; vin_value : Z; alive : Z }.
#[export] Instance Vin_eq_dec : EqDecision Vin.
Proof. solve_decision. Defined.

(** A [std::map] gives its elements in the order of the keys. *)
Definition key_le {V} (p q : Address * V) : Prop := memcmp (fst p) (fst q) <= 0.
#[export] Instance key_le_dec {V} (p q : Address * V) : Decision (key_le p q).
Proof. unfold key_le. apply _. Defined.
Definition in_order {V} (m : gmap Address V) : list (Address * V) := merge_sort key_le (map_to_list m).

(** What is used of an [ArtaxTransaction]; [receiveAddress] is [None] for a creation. *)
Record ArtaxTransaction : Type := mk_ArtaxTransaction {
  at_value : Z; at_gasPrice : Z; at_gas : Z; at_data : bytes; receiveAddress : option Address;
  sender : Address; getHashWith : uint256; getNVout : Z; getVersion : VersionVM }.
Definition isCreation (t : ArtaxTransaction) : bool := bool_decide (receiveAddress t = None).

Definition p2pkh (a : Address) : CScript := [OP_DUP; OP_HASH160] ++ push_data a ++ [OP_EQUALVERIFY; OP_CHECKSIG].
(** A contract output that runs nothing when it is spent *)
Definition no_exec (a : Address) : CScript :=
  push_data [0] ++ push_data [0] ++ push_data [0] ++ push_data [0] ++ push_data a ++ [OP_CALL].
Definition MAX_CONTRACT_VOUTS : Z := 1000.

(** *** The outputs of accounts *)

(** [stateUTXO] is the trie (of RLP lists), [cacheUTXO] what is read or changed of it. *)
Record UTXOState : Type := mk_UTXOState { cacheUTXO : gmap Address Vin; stateUTXO : gmap Address Vin }.

Definition vin_of (s : UTXOState) (addr : Address) : option Vin * UTXOState :=
  match cacheUTXO s !! addr with
  | Some v => (Some v, s)
  | None =>
      match stateUTXO s !! addr with
      | None => (None, s)
      | Some v => (Some v, mk_UTXOState (<[addr := v]> (cacheUTXO s)) (stateUTXO s))
      end
  end.

(** Through the pointer [vin] returns *)
Definition set_vin (s : UTXOState) (addr : Address) (v : Vin) : UTXOState :=
  mk_UTXOState (<[addr := v]> (cacheUTXO s)) (stateUTXO s).
Definition dead (v : Vin) : Vin := mk_Vin (vin_hash v) (nVout v) (vin_value v) 0.

(** The part of [kill] and of [deleteAccounts] that concerns outputs *)
Definition kill_vin (s : UTXOState) (addr : Address) : UTXOState :=
  let '(v, s) := vin_of s addr in
  match v with Some v => set_vin s addr (dead v) | None => s end.
Definition delete_vins (s : UTXOState) (addrs : list Address) : UTXOState := foldl kill_vin s addrs.

Definition updateUTXO_entry (s : UTXOState) (e : Address * Vin) : UTXOState :=
  let '(vi, s) := vin_of s (fst e) in
  match vi with
  | Some _ => set_vin s (fst e) (snd e)
  | None => if 0 <? alive (snd e) then set_vin s (fst e) (snd e) else s
  end.
(** The order of an [unordered_map] does not matter: the keys are distinct. *)
Definition updateUTXO (s : UTXOState) (vins : gmap Address Vin) : UTXOState := foldl updateUTXO_entry s (map_to_list vins).

Definition commit_entry (st : gmap Address Vin) (e : Address * Vin) : gmap Address Vin :=
  if alive (snd e) =? 0 then delete (fst e) st else <[fst e := snd e]> st.
(** [xax::commit(cacheUTXO, stateUTXO, m_cache); cacheUTXO.clear()] *)
Definition commit_utxo (s : UTXOState) : UTXOState :=
  mk_UTXOState ∅ (foldl commit_entry (stateUTXO s) (map_to_list (cacheUTXO s))).

(** *** [CondensingTX] *)

Section Condensing.
Context (C : Crypto).
(** [state->account(a)] is an account that is alive *)
Context (account_alive : Address -> bool).
Context (transfers : list TransferInfo) (deleteAddresses : list Address) (transaction : ArtaxTransaction).

Definition checkDeleteAddress (addr : Address) : bool := bool_decide (addr ∈ deleteAddresses).

Definition select_from (vins : gmap Address Vin) (st : UTXOState) (a : Address) : gmap Address Vin * UTXOState :=
  if bool_decide (is_Some (vins !! a)) then (vins, st)
  else
    let '(v, st) := vin_of st a in
    let vins := match v with Some v => <[a := v]> vins | None => vins end in
    (if bool_decide (a = sender transaction) && (0 <? at_value transaction)
     then <[a := mk_Vin (getHashWith transaction) (getNVout transaction) (at_value transaction) 1]> vins else vins, st).
Definition select_to (vins : gmap Address Vin) (st : UTXOState) (a : Address) : gmap Address Vin * UTXOState :=
  if bool_decide (is_Some (vins !! a)) then (vins, st)
  else
    let '(v, st) := vin_of st a in
    (match v with Some v => <[a := v]> vins | None => vins end, st).
Fixpoint selectionVin (l : list TransferInfo) (vins : gmap Address Vin) (st : UTXOState) : gmap Address Vin * UTXOState :=
  match l with
  | [] => (vins, st)
  | ti :: l =>
      let '(vins, st) := select_from vins st (from ti) in
      let '(vins, st) := select_to vins st (to ti) in
      selectionVin l vins st
  end.

(** [plusAndMinus]: what an account receives and what it sends *)
Definition add_minus (m : gmap Address (Z * Z)) (ti : TransferInfo) : gmap Address (Z * Z) :=
  match m !! from ti with
  | None => <[from ti := (0, ti_value ti)]> m
  | Some (p, n) => <[from ti := (p, u256 (n + ti_value ti))]> m
  end.
Definition add_plus (m : gmap Address (Z * Z)) (ti : TransferInfo) : gmap Address (Z * Z) :=
  match m !! to ti with
  | None => <[to ti := (ti_value ti, 0)]> m
  | Some (p, n) => <[to ti := (u256 (p + ti_value ti), n)]> m
  end.
Definition calculatePlusAndMinus : gmap Address (Z * Z) := foldl (fun m ti => add_plus (add_minus m ti) ti) ∅ transfers.

(** [vins[a]] inserts a value of zeros where there is none. *)
Definition zero_Vin : Vin := mk_Vin uint256_SetNull 0 0 0.
Definition touch_vin (vins : gmap Address Vin) (a : Address) : gmap Address Vin :=
  match vins !! a with Some _ => vins | None => <[a := zero_Vin]> vins end.
(** An output counts unless it is dead because its account was only paid to. *)
Definition counted (a : Address) (v : Vin) : bool := negb (alive v =? 0) || negb (checkDeleteAddress a).

(** [None] is [return false]. *)
Fixpoint createNewBalances (l : list (Address * (Z * Z))) (vins : gmap Address Vin) (balances : gmap Address Z)
  : option unit * gmap Address Vin * gmap Address Z :=
  match l with
  | [] => (Some tt, vins, balances)
  | (a, (plus, minus)) :: l =>
      let vins := touch_vin vins a in
      let v := default zero_Vin (vins !! a) in
      let balance := if counted a v then vin_value v else 0 in
      let balance := u256 (balance + plus) in
      if balance <? minus then (None, vins, balances)
      else createNewBalances l vins (<[a := u256 (balance - minus)]> balances)
  end.

Definition vin_input (v : Vin) : CTxIn := mk_CTxIn (mk_COutPoint (vin_hash v) (nVout v)) [OP_SPEND] SEQUENCE_FINAL [].
Definition createVins (vins : gmap Address Vin) : list CTxIn :=
  (fun e => vin_input (snd e)) <$> filter (fun e => 0 < vin_value (snd e) /\ counted (fst e) (snd e) = true) (in_order vins).

Definition account_script (a : Address) : CScript := if account_alive a then no_exec a else p2pkh a.
(** The outputs, where they are, and whether the limit was passed; a balance is a sum of coins, so
    the conversion to [CAmount] keeps it. *)
Fixpoint createVout (l : list (Address * Z)) (count : Z) (outs : list CTxOut) (nVouts : gmap Address Z)
  : list CTxOut * gmap Address Z * bool :=
  match l with
  | [] => (outs, nVouts, false)
  | (a, b) :: l =>
      let '(outs, nVouts, count) :=
        if 0 <? b then (outs ++ [mk_CTxOut (i64 b) (account_script a)], <[a := count]> nVouts, count + 1)
        else (outs, nVouts, count) in
      if MAX_CONTRACT_VOUTS <? count then (outs, nVouts, true) else createVout l count outs nVouts
  end.

Record CondensingTX : Type := mk_CondensingTX { balances : gmap Address Z; nVouts : gmap Address Z; reachedVoutLimit : bool }.
Definition empty_CTransaction : CTransaction := MakeTransaction C CMutableTransaction_new.

Definition createCondensingTX (state : UTXOState) : CTransaction * CondensingTX * UTXOState :=
  let '(vins, state) := selectionVin transfers ∅ state in
  let plusMinusInfo := calculatePlusAndMinus in
  let '(ok, vins, balances) := createNewBalances (in_order plusMinusInfo) vins ∅ in
  match ok with
  | None => (empty_CTransaction, mk_CondensingTX balances ∅ false, state)
  | Some _ =>
      let ins := createVins vins in
      let '(outs, nVouts, overflow) := createVout (in_order balances) 0 [] ∅ in
      (if bool_decide (ins = []) || bool_decide (outs = []) then empty_CTransaction
       else MakeTransaction C (mk_tx ins outs CURRENT_VERSION 0),
       mk_CondensingTX balances nVouts overflow, state)
  end.

(** [createVin]: what the map of outputs becomes ([nVouts[a]] is zero where there is none) *)
Definition createVin (ctx : CondensingTX) (tx : CTransaction) : gmap Address Vin :=
  map_imap (fun a b =>
    if bool_decide (a = sender transaction) then None
    else Some (if 0 <? b then mk_Vin (GetHash tx) (default 0 (nVouts ctx !! a)) b 1 else mk_Vin (GetHash tx) 0 0 0))
    (balances ctx).
End Condensing.

(** *** [ArtaxState::execute] *)

(** [excepted] as the number of the [TransactionException]; 0 is [None]. *)
Record ExecutionResult : Type := mk_ExecutionResult { gasUsed : Z; excepted : Z }.
Record ResultExecute : Type := mk_ResultExecute { execRes : ExecutionResult; re_tx : CTransaction }.
Definition TransactionException_None : Z := 0.
Definition TransactionException_Unknown : Z := 1.

(** The account state of the virtual machine, [dev::eth::State] *)
Record AccountOps (A : Type) : Type := mk_AccountOps {
  acc_alive : A -> Address -> bool;
  acc_inUse : A -> Address -> bool;
  acc_kill : A -> Address -> A;
  (** [m_cache.clear()] *)
  acc_clear : A -> A;
  (** [commit(behaviour)] *)
  acc_commit : bool -> A -> A;
  (** [e.revert()] *)
  acc_revert : A -> A }.
Arguments acc_alive {A}. Arguments acc_inUse {A}. Arguments acc_kill {A}. Arguments acc_clear {A}.
Arguments acc_commit {A}. Arguments acc_revert {A}.

(** How a run of the [Executive] ends: by an exception, or finalized with the transfers it
    recorded and the accounts it killed, in the order of [finalize]; and the set of addresses
    that were only paid to. *)
Inductive outcome : Type :=
| Threw (code : Z)
| Finalized (res : ExecutionResult) (suicides : list Address) (transfers : list TransferInfo).
Record vm_run (A : Type) : Type := mk_vm_run { run_accounts : A; run_delete : list Address; run_outcome : outcome }.
Arguments mk_vm_run {A}. Arguments run_accounts {A}. Arguments run_delete {A}. Arguments run_outcome {A}.

Section Execute.
Context (C : Crypto) {A : Type} (ops : AccountOps A).
(** [addBalance(sender, value + gas * gasPrice)], then [initialize], [execute], [go] and
    [finalize] of the [Executive] *)
Context (prepare : ArtaxTransaction -> A -> A) (executive : ArtaxTransaction -> A -> list Address -> vm_run A).
(** [toTransactionException(CreateWithValue())], the author of the block, the active chain's height,
    the height of the fix, and whether empty accounts are removed *)
Context (create_with_value : Z) (author : Address) (height nFixUTXOCacheHFHeight : Z) (removeEmptyAccounts : bool).

Record exec_state : Type := mk_exec_state { es_utxo : UTXOState; es_accounts : A; es_delete : list Address }.

Definition deleteAccounts (s : exec_state) : exec_state :=
  mk_exec_state (delete_vins (es_utxo s) (es_delete s)) (foldl (acc_kill ops) (es_accounts s) (es_delete s)) (es_delete s).

Definition clear_caches (s : exec_state) : exec_state :=
  mk_exec_state (mk_UTXOState ∅ (stateUTXO (es_utxo s))) (acc_clear ops (es_accounts s)) (es_delete s).

(** The [catch] block's effect on the state *)
Definition caught (committed : bool) (s : exec_state) : exec_state :=
  if (height <? nFixUTXOCacheHFHeight) && committed then
    let s := deleteAccounts s in mk_exec_state (es_utxo s) (acc_commit ops true (es_accounts s)) (es_delete s)
  else clear_caches s.

Definition refund_tx (t : ArtaxTransaction) : CTransaction :=
  if 0 <? at_value t then
    MakeTransaction C (mk_tx [vin_input (mk_Vin (getHashWith t) (getNVout t) (at_value t) 1)]
                             [mk_CTxOut (i64 (at_value t)) (p2pkh (sender t))] CURRENT_VERSION 0)
  else empty_CTransaction C.

(** What follows a finalized run of a transaction that is to be kept *)
Definition settle (t : ArtaxTransaction) (res : ExecutionResult) (transfers : list TransferInfo) (s : exec_state)
  : ResultExecute * exec_state :=
  let s := deleteAccounts s in
  let done_ (tx : CTransaction) (s : exec_state) :=
    (mk_ResultExecute res tx,
     mk_exec_state (commit_utxo (es_utxo s)) (acc_commit ops removeEmptyAccounts (es_accounts s)) (es_delete s)) in
  if excepted res =? TransactionException_None then
    let '(tx, ctx, u) := createCondensingTX C (acc_alive ops (es_accounts s)) transfers (es_delete s) t (es_utxo s) in
    if reachedVoutLimit ctx then
      (mk_ResultExecute (mk_ExecutionResult (at_gas t) TransactionException_None) (refund_tx t),
       caught true (mk_exec_state u (acc_revert ops (es_accounts s)) (es_delete s)))
    else done_ tx (mk_exec_state (updateUTXO u (createVin t ctx tx)) (es_accounts s) (es_delete s))
  else done_ (empty_CTransaction C) s.

(** [None] is the failed assertion on the version; [committed] is [_p != Permanence::Reverted]. *)
Definition execute (t : ArtaxTransaction) (committed : bool) (s : exec_state) : option (ResultExecute * exec_state) :=
  if negb (toRaw (getVersion t) =? toRaw GetEVMDefault) then None
  else
    let accounts := prepare t (es_accounts s) in
    let del := sender t :: author :: es_delete s in
    let threw (code : Z) (s : exec_state) :=
      (mk_ResultExecute (mk_ExecutionResult (at_gas t) code) (empty_CTransaction C), caught committed s) in
    if isCreation t && negb (at_value t =? 0) then Some (threw create_with_value (mk_exec_state (es_utxo s) accounts del))
    else
      let r := executive t accounts del in
      let s := mk_exec_state (es_utxo s) (run_accounts r) (run_delete r) in
      match run_outcome r with
      | Threw code => Some (threw code s)
      | Finalized res suicides transfers =>
          let s := mk_exec_state (foldl kill_vin (es_utxo s) suicides) (es_accounts s) (es_delete s) in
          if negb committed then Some (mk_ResultExecute res (empty_CTransaction C), clear_caches s)
          else Some (settle t res transfers s)
      end.
End Execute.

(** *** Balances, their rollback and the transfers

    [ArtaxState::transferBalance] and [addBalance], [State::subBalance] and [rollback]; of the
    change log, the entries that bear on balances. *)

Inductive Change : Type := ChBalance (a : Address) (value : Z) | ChCreate (a : Address).
Record Ledger : Type := mk_Ledger {
  accounts : gmap Address Z; m_changeLog : list Change; lg_transfers : list TransferInfo; newAddress : Address }.

(** The reference [_id] is redirected to the new contract's address when its account does not
    exist: the second component is what it refers to afterwards. *)
Definition addBalance (s : Ledger) (id_ : Address) (amount : Z) : Ledger * Address :=
  let '(s, id_) :=
    match accounts s !! id_ with
    | Some b => (mk_Ledger (<[id_ := u256 (b + amount)]> (accounts s)) (m_changeLog s) (lg_transfers s) (newAddress s), id_)
    | None =>
        let '(id_, new_) :=
          if bool_decide (accounts s !! newAddress s = None) && negb (bool_decide (newAddress s = null_Address))
          then (newAddress s, null_Address) else (id_, newAddress s) in
        (mk_Ledger (<[id_ := amount]> (accounts s)) (m_changeLog s ++ [ChCreate id_]) (lg_transfers s) new_, id_)
    end in
  (if amount =? 0 then s
   else mk_Ledger (accounts s) (m_changeLog s ++ [ChBalance id_ amount]) (lg_transfers s) (newAddress s), id_).

(** [None] is the exception [NotEnoughCash]. *)
Definition subBalance (s : Ledger) (addr : Address) (value : Z) : option Ledger :=
  if value =? 0 then Some s
  else match accounts s !! addr with
  | Some b => if b <? value then None else Some (fst (addBalance s addr (u256 (0 - value))))
  | None => None
  end.

Definition transferBalance (s : Ledger) (from_ to_ : Address) (value : Z) : option Ledger :=
  s ← subBalance s from_ value;
  let '(s, to_) := addBalance s to_ value in
  Some (if 0 <? value
        then mk_Ledger (accounts s) (m_changeLog s) (lg_transfers s ++ [mk_TransferInfo from_ to_ value]) (newAddress s) else s).

Definition undo_change (accs : gmap Address Z) (c : Change) : gmap Address Z :=
  match c with
  | ChBalance a v => match accs !! a with Some b => <[a := u256 (b + u256 (0 - v))]> accs | None => accs end
  | ChCreate a => delete a accs
  end.
Definition savepoint (s : Ledger) : nat := length (m_changeLog s).
Definition rollback (s : Ledger) (sp : nat) : Ledger :=
  mk_Ledger (foldl undo_change (accounts s) (rev (drop sp (m_changeLog s)))) (take sp (m_changeLog s)) (lg_transfers s) (newAddress s).

(** What a contract does to balances: it transfers, or makes a nested call, which is rolled back
    when it fails. *)
#[warnings="-register-all"]
Inductive vm_op : Type :=
| Transfer (from_ to_ : Address) (value : Z)
| Nested (body : list vm_op) (fails : bool).

(** [None]: a transfer is not covered, on which the whole run fails. *)
Fixpoint run_op (s : Ledger) (op : vm_op) : option Ledger :=
  match op with
  | Transfer f t v => transferBalance s f t (u256 v)
  | Nested body fails =>
      let sp := savepoint s in
      s ← (fix go (s : Ledger) (l : list vm_op) : option Ledger :=
             match l with [] => Some s | op :: l => s ← run_op s op; go s l end) s body;
      Some (if fails then rollback s sp else s)
  end.
Fixpoint run_ops (s : Ledger) (l : list vm_op) : option Ledger :=
  match l with [] => Some s | op :: l => s ← run_op s op; run_ops s l end.

(** ** Theorems *)

(** *** Sums and ordered maps *)

Definition zsum (l : list Z) : Z := foldr Z.add 0 l.

Lemma zsum_app a b : zsum (a ++ b) = zsum a + zsum b.
Proof. induction a as [ | x a IH]; cbn [zsum foldr app]; [done | ]. unfold zsum in *. lia. Qed.
#[export] Instance zsum_proper : Proper ((≡ₚ) ==> (=)) zsum.
Proof. intros a b H. unfold zsum. induction H; cbn [foldr]; lia. Qed.

Lemma zsum_add {X} (f g : X -> Z) l : zsum ((fun a => f a + g a) <$> l) = zsum (f <$> l) + zsum (g <$> l).
Proof. induction l as [ | a l IH]; [done | ]. rewrite !fmap_cons. unfold zsum in *. cbn [foldr]. lia. Qed.
Lemma zsum_sub {X} (f g : X -> Z) l : zsum ((fun a => f a - g a) <$> l) = zsum (f <$> l) - zsum (g <$> l).
Proof. induction l as [ | a l IH]; [done | ]. rewrite !fmap_cons. unfold zsum in *. cbn [foldr]. lia. Qed.
Lemma zsum_zero {X} (f : X -> Z) l : (forall a, a ∈ l -> f a = 0) -> zsum (f <$> l) = 0.
Proof.
  induction l as [ | a l IH]; intros H; [done | ]. rewrite fmap_cons. unfold zsum in *. cbn [foldr].
  rewrite IH by (intros; apply H; by constructor). rewrite H by constructor. lia.
Qed.
Lemma zsum_filter {X} (f : X -> Z) (P : X -> Prop) `{forall x, Decision (P x)} l :
  (forall a, a ∈ l -> ~ P a -> f a = 0) -> zsum (f <$> filter P l) = zsum (f <$> l).
Proof.
  induction l as [ | a l IH]; intros Hf; [done | ]. rewrite filter_cons, fmap_cons.
  assert (forall b, b ∈ l -> ~ P b -> f b = 0) as Hl by (intros; apply Hf; [by constructor | done]).
  destruct (decide (P a)) as [Hp | Hp]; rewrite ?fmap_cons; unfold zsum in *; cbn [foldr]; rewrite (IH Hl); [done | ].
  rewrite (Hf a) by (constructor || done). lia.
Qed.
Lemma zsum_member {X} (f : X -> Z) l a : (forall b, b ∈ l -> 0 <= f b) -> a ∈ l -> f a <= zsum (f <$> l).
Proof.
  intros Hf [l1 [l2 ->]]%list_elem_of_split. rewrite fmap_app, zsum_app, fmap_cons.
  assert (forall k, (forall b, b ∈ k -> 0 <= f b) -> 0 <= zsum (f <$> k)) as Hn.
  { induction k as [ | c k IH]; intros Hk; [done | ]. rewrite fmap_cons. unfold zsum in *. cbn [foldr].
    pose proof (Hk c ltac:(constructor)). pose proof (IH ltac:(intros; apply Hk; by constructor)). lia. }
  pose proof (Hn l1 ltac:(intros; apply Hf; set_solver)). pose proof (Hn l2 ltac:(intros; apply Hf; set_solver)).
  unfold zsum at 2. cbn [foldr]. fold (zsum (f <$> l2)). lia.
Qed.

(** The keys of a map, in order *)
Definition keys {V} (m : gmap Address V) : list Address := (in_order m).*1.

Lemma in_order_perm {V} (m : gmap Address V) : in_order m ≡ₚ map_to_list m.
Proof. apply merge_sort_Permutation. Qed.
Lemma in_order_elem {V} (m : gmap Address V) a v : (a, v) ∈ in_order m <-> m !! a = Some v.
Proof. rewrite in_order_perm. apply elem_of_map_to_list. Qed.
Lemma keys_NoDup {V} (m : gmap Address V) : NoDup (keys m).
Proof. unfold keys. rewrite in_order_perm. apply NoDup_fst_map_to_list. Qed.
Lemma keys_elem {V} (m : gmap Address V) a : a ∈ keys m <-> is_Some (m !! a).
Proof.
  unfold keys. rewrite list_elem_of_fmap. split.
  - intros ([b v] & -> & H%in_order_elem). by exists v.
  - intros [v H]. exists (a, v). split; [done | by apply in_order_elem].
Qed.
Lemma NoDup_keys_filter {V} (P : Address * V -> Prop) `{forall e, Decision (P e)} l : NoDup l.*1 -> NoDup (filter P l).*1.
Proof.
  induction l as [ | e l IH]; intros Hd; [done | ]. rewrite fmap_cons in Hd. apply NoDup_cons in Hd as [He Hd]. rewrite filter_cons.
  case_decide; [ | by apply IH]. rewrite fmap_cons. apply NoDup_cons. split; [ | by apply IH]. intros (x & Ex & [_ Hx]%list_elem_of_filter)%list_elem_of_fmap.
  apply He. rewrite Ex. by apply list_elem_of_fmap_2.
Qed.
Lemma in_order_keys {V} (m : gmap Address V) (h : Address -> V) : (forall a v, m !! a = Some v -> v = h a) ->
  in_order m = (fun a => (a, h a)) <$> keys m.
Proof.
  intros H. unfold keys. rewrite <- list_fmap_compose. symmetry. rewrite <- (list_fmap_id (in_order m)) at 2.
  apply list_fmap_ext. intros i [a v] E. cbn. f_equal. symmetry. apply H, in_order_elem. by eapply list_elem_of_lookup_2.
Qed.
Lemma keys_same {V W : Type} (m : gmap Address V) (n : gmap Address W) : (forall a, is_Some (m !! a) <-> is_Some (n !! a)) -> keys m ≡ₚ keys n.
Proof. intros H. apply NoDup_Permutation; [apply keys_NoDup.. | ]. intros a. rewrite !keys_elem. apply H. Qed.

(** *** What moves *)

Definition moved (transfers : list TransferInfo) : Z := zsum (ti_value <$> transfers).
Definition received (transfers : list TransferInfo) (a : Address) : Z :=
  zsum ((fun ti => if bool_decide (to ti = a) then ti_value ti else 0) <$> transfers).
Definition sent (transfers : list TransferInfo) (a : Address) : Z :=
  zsum ((fun ti => if bool_decide (from ti = a) then ti_value ti else 0) <$> transfers).
(** The accounts coins are moved from or to *)
Definition parties (transfers : list TransferInfo) : list Address := flat_map (fun ti => [from ti; to ti]) transfers.

Lemma indicator_sum (X : list Address) b v : NoDup X -> b ∈ X -> zsum ((fun a => if bool_decide (b = a) then v else 0) <$> X) = v.
Proof.
  intros HX [l1 [l2 ->]]%list_elem_of_split. apply NoDup_app in HX as (_ & H1 & H2). apply NoDup_cons in H2 as [H2 _].
  rewrite fmap_app, zsum_app, fmap_cons. rewrite (zsum_zero _ l1).
  - unfold zsum. cbn [foldr]. fold (zsum ((fun a => if bool_decide (b = a) then v else 0) <$> l2)). rewrite zsum_zero.
    + rewrite bool_decide_true by done. lia.
    + intros a Ha. rewrite bool_decide_false; [done | ]. by intros ->.
  - intros a Ha. rewrite bool_decide_false; [done | ]. intros ->. apply (H1 a Ha). constructor.
Qed.

Lemma received_cons ti l a : received (ti :: l) a = (if bool_decide (to ti = a) then ti_value ti else 0) + received l a.
Proof. done. Qed.
Lemma sent_cons ti l a : sent (ti :: l) a = (if bool_decide (from ti = a) then ti_value ti else 0) + sent l a.
Proof. done. Qed.
Lemma moved_cons ti l : moved (ti :: l) = ti_value ti + moved l.
Proof. done. Qed.

Lemma received_total transfers X : NoDup X -> (forall ti, ti ∈ transfers -> to ti ∈ X) -> zsum (received transfers <$> X) = moved transfers.
Proof.
  intros HX. induction transfers as [ | ti l IH]; intros H; [by apply zsum_zero | ].
  rewrite (list_fmap_ext _ _ X (fun _ a _ => received_cons ti l a)), (zsum_add (fun a => if bool_decide (to ti = a) then ti_value ti else 0)).
  rewrite indicator_sum by (try done; apply H; constructor). rewrite moved_cons, IH; [done | ]. intros; apply H; by constructor.
Qed.
Lemma sent_total transfers X : NoDup X -> (forall ti, ti ∈ transfers -> from ti ∈ X) -> zsum (sent transfers <$> X) = moved transfers.
Proof.
  intros HX. induction transfers as [ | ti l IH]; intros H; [by apply zsum_zero | ].
  rewrite (list_fmap_ext _ _ X (fun _ a _ => sent_cons ti l a)), (zsum_add (fun a => if bool_decide (from ti = a) then ti_value ti else 0)).
  rewrite indicator_sum by (try done; apply H; constructor). rewrite moved_cons, IH; [done | ]. intros; apply H; by constructor.
Qed.

Lemma parties_cons ti l : parties (ti :: l) = from ti :: to ti :: parties l.
Proof. done. Qed.
Lemma parties_from transfers ti : ti ∈ transfers -> from ti ∈ parties transfers.
Proof. induction 1; rewrite parties_cons; [by constructor | by do 2 constructor]. Qed.
Lemma parties_to transfers ti : ti ∈ transfers -> to ti ∈ parties transfers.
Proof. induction 1; rewrite parties_cons; [by do 2 constructor | by do 2 constructor]. Qed.

(** *** Sums of transfers *)

Lemma received_snoc l ti a : received (l ++ [ti]) a = received l a + (if bool_decide (to ti = a) then ti_value ti else 0).
Proof. unfold received. rewrite fmap_app, zsum_app. cbn [fmap list_fmap zsum foldr]. lia. Qed.
Lemma sent_snoc l ti a : sent (l ++ [ti]) a = sent l a + (if bool_decide (from ti = a) then ti_value ti else 0).
Proof. unfold sent. rewrite fmap_app, zsum_app. cbn [fmap list_fmap zsum foldr]. lia. Qed.
Lemma moved_snoc l ti : moved (l ++ [ti]) = moved l + ti_value ti.
Proof. unfold moved. rewrite fmap_app, zsum_app. cbn [fmap list_fmap zsum foldr]. lia. Qed.
Lemma parties_snoc l ti : parties (l ++ [ti]) = parties l ++ [from ti; to ti].
Proof. unfold parties. by rewrite flat_map_app. Qed.

Lemma moved_range l a : Forall (fun ti => 0 < ti_value ti) l -> 0 <= received l a <= moved l /\ 0 <= sent l a <= moved l.
Proof.
  induction l as [ | ti l IH]; intros H; [done | ]. apply Forall_cons in H as [Hp H]. specialize (IH H).
  rewrite received_cons, sent_cons, moved_cons. repeat case_bool_decide; lia.
Qed.
Lemma no_part_received l a : a ∉ parties l -> received l a = 0 /\ sent l a = 0.
Proof.
  induction l as [ | ti l IH]; intros H; [done | ]. rewrite parties_cons, !not_elem_of_cons in H. destruct H as (H1 & H2 & H3).
  rewrite received_cons, sent_cons, !bool_decide_false by congruence. destruct (IH H3). lia.
Qed.

Lemma u256_id z : 0 <= z < 2 ^ 256 -> u256 z = z.
Proof. intros. unfold u256. by apply Z.mod_small. Qed.

Lemma plus_minus_spec l a : Forall (fun ti => 0 < ti_value ti) l -> moved l < 2 ^ 256 ->
  calculatePlusAndMinus l !! a = if decide (a ∈ parties l) then Some (received l a, sent l a) else None.
Proof.
  unfold calculatePlusAndMinus. revert a. induction l as [ | ti l IH] using rev_ind; intros a Hp Hm; [done | ].
  apply Forall_app in Hp as [Hp Ht]. apply Forall_inv in Ht. rewrite moved_snoc in Hm. pose proof (moved_range l) as Hr.
  assert (moved l < 2 ^ 256) as Hm' by lia. specialize (fun a => IH a Hp Hm'). specialize (fun a => Hr a Hp).
  rewrite foldl_app, received_snoc, sent_snoc, parties_snoc. cbn [foldl].
  set (m := foldl _ _ _) in *.
  assert (forall b, add_minus m ti !! b = if decide (b ∈ parties l ++ [from ti]) then Some (received l b, sent l b + (if bool_decide (from ti = b) then ti_value ti else 0)) else None) as Hminus.
  { intros b. unfold add_minus. rewrite (IH (from ti)). pose proof (Hr (from ti)). destruct (decide (b = from ti)) as [-> | Hne].
    - rewrite (decide_True (P := from ti ∈ parties l ++ _)) by (rewrite elem_of_app, list_elem_of_singleton; tauto). rewrite bool_decide_true by done.
      case_decide as Hin; rewrite lookup_insert_eq; [rewrite u256_id by lia; done | ]. destruct (no_part_received l (from ti) Hin) as [-> ->]. done.
    - rewrite bool_decide_false, Z.add_0_r by congruence. rewrite (decide_ext (b ∈ parties l ++ [from ti]) (b ∈ parties l)) by (rewrite elem_of_app, list_elem_of_singleton; tauto).
      case_decide; rewrite lookup_insert_ne by done; apply IH. }
  unfold add_plus. rewrite (Hminus (to ti)). pose proof (Hr (to ti)). destruct (decide (a = to ti)) as [-> | Hne].
  - rewrite (decide_True (P := to ti ∈ parties l ++ [from ti; to ti])) by (rewrite elem_of_app, !elem_of_cons; tauto). rewrite (bool_decide_true (to ti = to ti)) by done.
    case_decide as Hin; rewrite lookup_insert_eq; [rewrite u256_id by lia; done | ].
    rewrite elem_of_app, list_elem_of_singleton in Hin. destruct (no_part_received l (to ti) ltac:(tauto)) as [-> ->]. rewrite bool_decide_false by (intros E; rewrite E in Hin; tauto). done.
  - rewrite (bool_decide_false (to ti = a)), Z.add_0_r by congruence.
    rewrite (decide_ext (a ∈ parties l ++ [from ti; to ti]) (a ∈ parties l ++ [from ti])) by (rewrite !elem_of_app, !elem_of_cons, !elem_of_nil; tauto).
    rewrite <- (Hminus a). case_decide; by rewrite lookup_insert_ne by done.
Qed.

(** *** New balances and outputs *)

Section Pieces.
Context (deleteAddresses : list Address).
Abbreviation counted := (counted deleteAddresses).

Definition worth_in (vins : gmap Address Vin) (a : Address) : Z :=
  let v := default zero_Vin (vins !! a) in if counted a v then vin_value v else 0.

Lemma touch_vin_default vins a b : default zero_Vin (touch_vin vins a !! b) = default zero_Vin (vins !! b).
Proof.
  unfold touch_vin. destruct (vins !! a) eqn:E; [done | ]. rewrite lookup_insert. case_decide; [subst; by rewrite E | done].
Qed.

Lemma new_balances_spec l vins bal : NoDup l.*1 ->
  (forall a p n, (a, (p, n)) ∈ l -> 0 <= worth_in vins a /\ 0 <= p /\ worth_in vins a + p < 2 ^ 256 /\ 0 <= n <= worth_in vins a + p) ->
  exists vins' bal', createNewBalances deleteAddresses l vins bal = (Some tt, vins', bal') /\
    (forall a, vins' !! a = if decide (a ∈ l.*1) then Some (default zero_Vin (vins !! a)) else vins !! a) /\
    (forall a p n, (a, (p, n)) ∈ l -> bal' !! a = Some (worth_in vins a + p - n)) /\
    (forall a, a ∉ l.*1 -> bal' !! a = bal !! a).
Proof.
  revert vins bal. induction l as [ | [a [p n]] l IH]; intros vins bal Hd Hok; cbn [createNewBalances].
  { exists vins, bal. split_and!; try done. intros a p n H. by apply not_elem_of_nil in H. }
  rewrite fmap_cons in Hd. apply NoDup_cons in Hd as [Ha Hd]. cbn [fst] in *. destruct (Hok a p n ltac:(constructor)) as (Hw & Hp & Hlt & Hn).
  rewrite touch_vin_default. fold (worth_in vins a). rewrite u256_id by lia. destruct (Z.ltb_spec (worth_in vins a + p) n); [lia | ]. rewrite u256_id by lia.
  assert (forall b, worth_in (touch_vin vins a) b = worth_in vins b) as Hwt by (intros b; unfold worth_in; by rewrite touch_vin_default).
  destruct (IH (touch_vin vins a) (<[a := worth_in vins a + p - n]> bal)) as (vins' & bal' & -> & Hv & Hb & Hb'); [done | | ].
  { intros b p' n' Hin. rewrite Hwt. apply Hok. by constructor. }
  exists vins', bal'. split; [done | ]. split_and!.
  - intros b. rewrite Hv, touch_vin_default, fmap_cons. cbn [fst]. destruct (decide (b = a)) as [-> | Hne].
    + rewrite decide_False, decide_True by (done || constructor). unfold touch_vin. destruct (vins !! a) eqn:E; [by rewrite E | by rewrite lookup_insert_eq].
    + rewrite (decide_ext (b ∈ a :: l.*1) (b ∈ l.*1)) by (rewrite elem_of_cons; tauto). case_decide; [done | ].
      unfold touch_vin. destruct (vins !! a); [done | by rewrite lookup_insert_ne by done].
  - intros b p' n' [[= -> -> ->] | Hin]%elem_of_cons; [rewrite Hb' by done; apply lookup_insert_eq | ]. rewrite (Hb b p' n') by done. by rewrite Hwt.
  - intros b Hb''. rewrite fmap_cons, not_elem_of_cons in Hb''. cbn [fst] in Hb''. rewrite Hb' by tauto. rewrite lookup_insert_ne by (intros ->; tauto). done.
Qed.
End Pieces.

Definition positive (l : list (Address * Z)) : list (Address * Z) := filter (fun e => 0 < snd e) l.

Lemma createVout_spec account_alive l count outs nV outs' nV' : NoDup l.*1 ->
  createVout account_alive l count outs nV = (outs', nV', false) ->
  outs' = outs ++ ((fun e => mk_CTxOut (i64 (snd e)) (account_script account_alive (fst e))) <$> positive l) /\
  (forall i a b, positive l !! i = Some (a, b) -> nV' !! a = Some (count + Z.of_nat i)) /\
  (forall a, a ∉ l.*1 -> nV' !! a = nV !! a).
Proof.
  unfold positive. revert count outs nV. induction l as [ | [a b] l IH]; intros count outs nV Hd; cbn [createVout].
  { intros [= <- <-]. rewrite app_nil_r. done. }
  rewrite fmap_cons in Hd. apply NoDup_cons in Hd as [Ha Hd]. cbn [fst] in *. rewrite filter_cons. cbn [snd].
  destruct (Z.ltb_spec 0 b) as [Hb | Hb]; [rewrite decide_True by done | rewrite decide_False by lia];
    (destruct (MAX_CONTRACT_VOUTS <? _); [done | ]); intros E; apply IH in E as (-> & Hi & Hk); try done.
  - split; [by rewrite fmap_cons, <- app_assoc | ]. split.
    + intros [ | i] a' b' Hl; cbn in Hl; [injection Hl as <- <-; rewrite Hk by done; rewrite lookup_insert_eq; f_equal; lia | ].
      rewrite (Hi _ _ _ Hl). f_equal. lia.
    + intros a' Hn. rewrite fmap_cons, not_elem_of_cons in Hn. cbn [fst] in Hn. destruct Hn as [Hn1 Hn2]. rewrite Hk by done. by rewrite lookup_insert_ne by congruence.
  - split; [done | ]. split; [done | ]. intros a' Hn. rewrite fmap_cons, not_elem_of_cons in Hn. cbn [fst] in Hn. by apply Hk, Hn.
Qed.

(** The output of an account, wherever it is kept *)
Definition lookup_vin (s : UTXOState) (a : Address) : option Vin :=
  match cacheUTXO s !! a with Some v => Some v | None => stateUTXO s !! a end.

Definition same_outputs (s s' : UTXOState) : Prop := (forall a, lookup_vin s' a = lookup_vin s a) /\ stateUTXO s' = stateUTXO s.

Lemma vin_of_spec s a : exists s', vin_of s a = (lookup_vin s a, s') /\ same_outputs s s'.
Proof.
  unfold vin_of, lookup_vin, same_outputs, lookup_vin. destruct (cacheUTXO s !! a) as [v | ] eqn:E; [by eauto | ].
  destruct (stateUTXO s !! a) as [v | ] eqn:E'; [ | by eauto]. eexists. split; [done | ]. split; [ | done]. cbn [cacheUTXO stateUTXO].
  intros b. rewrite lookup_insert. case_decide as Hb; [subst b | done]. by rewrite E, E'.
Qed.

Lemma set_vin_spec s a v b : lookup_vin (set_vin s a v) b = if decide (a = b) then Some v else lookup_vin s b.
Proof. unfold lookup_vin, set_vin. cbn [cacheUTXO stateUTXO]. rewrite lookup_insert. by case_decide. Qed.

Section Conservation.
Context (C : Crypto) (account_alive : Address -> bool) (transfers : list TransferInfo) (deleteAddresses : list Address).
Context (t : ArtaxTransaction) (st : UTXOState).
Abbreviation counted := (counted deleteAddresses).

(** The output that carries the coins of [a] before: the transaction's own for its sender *)
Definition source (a : Address) : option Vin :=
  if bool_decide (a = sender t) && (0 <? at_value t) then Some (mk_Vin (getHashWith t) (getNVout t) (at_value t) 1)
  else lookup_vin st a.
Definition worth (a : Address) : Z :=
  match source a with Some v => if counted a v then vin_value v else 0 | None => 0 end.
Definition new_balance (a : Address) : Z := worth a + received transfers a - sent transfers a.

(** What a run of the virtual machine guarantees: only positive transfers are recorded, the first
    is that of the transaction's own value, no account sends more than it has and receives, and
    there are no more coins than amounts can express. *)
Record covered : Prop := {
  transfers_positive : Forall (fun ti => 0 < ti_value ti) transfers;
  value_first : 0 < at_value t -> forall ti, head transfers = Some ti -> from ti = sender t;
  value_nonneg : 0 <= at_value t;
  outputs_nonneg : forall a v, lookup_vin st a = Some v -> 0 <= vin_value v;
  sent_covered : forall a, sent transfers a <= worth a + received transfers a;
  coins_bounded : zsum (worth <$> remove_dups (parties transfers)) < 2 ^ 63;
  moved_bounded : moved transfers < 2 ^ 255 }.

(** [vins] holds the sources of the accounts [seen] so far. *)
Definition selected (vins : gmap Address Vin) (seen : list Address) : Prop :=
  forall a, vins !! a = if decide (a ∈ seen) then source a else None.

Lemma selected_again vins seen a : selected vins seen -> is_Some (vins !! a) -> selected vins (a :: seen).
Proof.
  intros Hv Hi b. rewrite Hv. destruct (decide (b = a)) as [-> | Hne].
  - rewrite Hv in Hi. destruct (decide (a ∈ seen)); [ | by destruct Hi]. rewrite decide_True by (by constructor). done.
  - apply decide_ext. rewrite elem_of_cons. tauto.
Qed.
Lemma selected_new vins seen a : selected vins seen -> ~ is_Some (vins !! a) ->
  selected (match source a with Some v => <[a := v]> vins | None => vins end) (a :: seen).
Proof.
  intros Hv Hi%eq_None_not_Some b. destruct (decide (b = a)) as [-> | Hne].
  - rewrite decide_True by constructor. destruct (source a); [by rewrite lookup_insert_eq | done].
  - rewrite (decide_ext _ (b ∈ seen)) by (rewrite elem_of_cons; tauto). rewrite <- Hv. destruct (source a); by rewrite ?lookup_insert_ne by done.
Qed.
Lemma same_outputs_trans s1 s2 s3 : same_outputs s1 s2 -> same_outputs s2 s3 -> same_outputs s1 s3.
Proof. intros [H1 E1] [H2 E2]. split; [intros; congruence | congruence]. Qed.

Lemma select_from_spec vins s seen a : same_outputs st s -> selected vins seen ->
  exists vins' s', select_from t vins s a = (vins', s') /\ same_outputs st s' /\ selected vins' (a :: seen).
Proof.
  intros Hs Hv. unfold select_from. case_bool_decide as Hi; [exists vins, s; eauto using selected_again | ].
  destruct (vin_of_spec s a) as (s1 & -> & Hs1). eexists _, s1. split; [done | ]. split; [by eapply same_outputs_trans | ].
  pose proof (selected_new _ _ _ Hv Hi) as Hn. rewrite (proj1 Hs). unfold source in Hn.
  destruct (_ && _); [ | done]. destruct (lookup_vin st a); [by rewrite insert_insert_eq | done].
Qed.
Lemma select_to_spec vins s seen a : same_outputs st s -> selected vins seen -> (0 < at_value t -> sender t ∈ seen) ->
  exists vins' s', select_to vins s a = (vins', s') /\ same_outputs st s' /\ selected vins' (a :: seen).
Proof.
  intros Hs Hv Hf. unfold select_to. case_bool_decide as Hi; [exists vins, s; eauto using selected_again | ].
  destruct (vin_of_spec s a) as (s1 & -> & Hs1). eexists _, s1. split; [done | ]. split; [by eapply same_outputs_trans | ].
  pose proof (selected_new _ _ _ Hv Hi) as Hn. rewrite (proj1 Hs).
  assert (source a = lookup_vin st a) as E; [ | by rewrite E in Hn]. unfold source.
  destruct (bool_decide_reflect (a = sender t)) as [-> | ]; [ | done]. destruct (Z.ltb_spec 0 (at_value t)) as [Hpos | ]; [ | done].
  destruct Hi. rewrite Hv, decide_True by auto. unfold source. rewrite bool_decide_true, (proj2 (Z.ltb_lt _ _)) by done. by eexists.
Qed.

Lemma selection_spec vins s seen l : same_outputs st s -> selected vins seen ->
  (0 < at_value t -> sender t ∈ seen \/ (seen = [] /\ forall ti, head l = Some ti -> from ti = sender t)) ->
  exists vins' s', selectionVin t l vins s = (vins', s') /\ same_outputs st s' /\ selected vins' (parties l ++ seen).
Proof.
  revert vins s seen. induction l as [ | ti l IH]; intros vins s seen Hs Hv Hf; cbn [selectionVin]; [by eauto | ].
  destruct (select_from_spec vins s seen (from ti)) as (vins1 & s1 & -> & Hs1 & Hv1); [done.. | ].
  assert (0 < at_value t -> sender t ∈ from ti :: seen) as Hf1.
  { intros H. destruct (Hf H) as [? | [-> He]]; [by constructor | ]. rewrite (He ti) by done. constructor. }
  destruct (select_to_spec vins1 s1 (from ti :: seen) (to ti)) as (vins2 & s2 & -> & Hs2 & Hv2); [done.. | ].
  destruct (IH vins2 s2 (to ti :: from ti :: seen)) as (vins' & s' & -> & Hs' & Hv'); [done | done | | ].
  - intros H. left. constructor. by apply Hf1.
  - exists vins', s'. split; [done | ]. split; [done | ]. intros a. rewrite Hv'. apply decide_ext.
    rewrite parties_cons, !elem_of_app, !elem_of_cons. tauto.
Qed.
(** *** Old and new balances *)

Context (Hrun : covered).

Definition X : list Address := remove_dups (parties transfers).

Lemma is_Some_if {V} (P : Prop) `{Decision P} (x : V) : is_Some (if decide P then Some x else None) <-> P.
Proof. case_decide; split; intros Hx; try done; by destruct Hx. Qed.

Lemma X_elem a : a ∈ X <-> a ∈ parties transfers.
Proof. apply elem_of_remove_dups. Qed.
Lemma keys_X {V} (m : gmap Address V) : (forall a, is_Some (m !! a) <-> a ∈ parties transfers) -> keys m ≡ₚ X.
Proof.
  intros H. apply NoDup_Permutation; [apply keys_NoDup | apply NoDup_remove_dups | ]. intros a. by rewrite keys_elem, X_elem.
Qed.

Lemma source_nonneg a v : source a = Some v -> 0 <= vin_value v.
Proof.
  unfold source. destruct (_ && _); [intros [= <-]; apply (value_nonneg Hrun) | apply (outputs_nonneg Hrun)].
Qed.
Lemma worth_nonneg a : 0 <= worth a.
Proof. unfold worth. destruct (source a) eqn:E; [ | done]. apply source_nonneg in E. by case_match. Qed.
Lemma new_balance_nonneg a : 0 <= new_balance a.
Proof. unfold new_balance. pose proof (sent_covered Hrun a). lia. Qed.

(** No coins appear or vanish. *)
Lemma new_balance_total : zsum (new_balance <$> X) = zsum (worth <$> X).
Proof.
  unfold new_balance. rewrite (zsum_sub (fun a => worth a + received transfers a)), (zsum_add worth).
  assert (NoDup X) as HX by apply NoDup_remove_dups.
  rewrite received_total, sent_total; [lia | done | | done | ]; intros ti Hti; apply X_elem; by (apply parties_from || apply parties_to).
Qed.
Lemma new_balance_bounded a : a ∈ parties transfers -> new_balance a < 2 ^ 63.
Proof.
  intros Ha. pose proof (zsum_member new_balance X a (fun b _ => new_balance_nonneg b) (proj2 (X_elem a) Ha)).
  rewrite new_balance_total in *. pose proof (coins_bounded Hrun). fold X in *. lia.
Qed.

Lemma worth_selected vins a : selected vins (parties transfers) -> a ∈ parties transfers -> worth_in deleteAddresses vins a = worth a.
Proof.
  intros Hv Ha. unfold worth_in, worth. cbv zeta. rewrite !Hv, decide_True by done. destruct (source a); [reflexivity | ]. cbn.
  by case_match.
Qed.

Lemma balances_spec : exists vins0 st' vins bals,
  selectionVin t transfers ∅ st = (vins0, st') /\ same_outputs st st' /\
  createNewBalances deleteAddresses (in_order (calculatePlusAndMinus transfers)) vins0 ∅ = (Some tt, vins, bals) /\
  (forall a, vins !! a = if decide (a ∈ parties transfers) then Some (default zero_Vin (source a)) else None) /\
  (forall a, bals !! a = if decide (a ∈ parties transfers) then Some (new_balance a) else None).
Proof.
  destruct (selection_spec ∅ st [] transfers) as (vins0 & st' & Hsel & Hst & Hv0); [done | done | | ].
  { intros Hpos. right. split; [done | ]. by apply (value_first Hrun). }
  rewrite app_nil_r in Hv0. pose proof (moved_bounded Hrun) as Hm. pose proof (transfers_positive Hrun) as Hp.
  pose proof (fun a => plus_minus_spec transfers a Hp ltac:(lia)) as Hpm. set (pm := calculatePlusAndMinus transfers) in *.
  assert (forall a p n, (a, (p, n)) ∈ in_order pm -> a ∈ parties transfers /\ p = received transfers a /\ n = sent transfers a) as Hin.
  { intros a p n H%in_order_elem. rewrite Hpm in H. case_decide; [ | done]. by injection H as <- <-. }
  assert (forall a, a ∈ (in_order pm).*1 <-> a ∈ parties transfers) as Hk.
  { intros a. rewrite (keys_elem pm a), Hpm. apply is_Some_if. }
  destruct (new_balances_spec deleteAddresses (in_order pm) vins0 ∅) as (vins & bals & Hnb & Hv & Hb & Hb'); [apply keys_NoDup | | ].
  - intros a p n (Ha & -> & ->)%Hin. rewrite (worth_selected _ _ Hv0 Ha). pose proof (worth_nonneg a). destruct (moved_range transfers a Hp) as [Hr Hs].
    pose proof (sent_covered Hrun a). pose proof (zsum_member worth X a (fun b _ => worth_nonneg b) (proj2 (X_elem a) Ha)).
    pose proof (coins_bounded Hrun). fold X in *. lia.
  - exists vins0, st', vins, bals. split; [done | ]. split; [done | ]. split; [done | ]. split.
    + intros a. rewrite Hv, Hv0. rewrite (decide_ext (a ∈ (in_order pm).*1) (a ∈ parties transfers)) by apply Hk. by case_decide.
    + intros a. case_decide as Ha.
      * apply Hk, list_elem_of_fmap in Ha as ([? [p n]] & -> & Ha). destruct (Hin _ _ _ Ha) as (Ha' & -> & ->). cbn [fst]. rewrite (Hb _ _ _ Ha).
        rewrite (worth_selected _ _ Hv0 Ha'). done.
      * rewrite Hb'; [apply lookup_empty | ]. by rewrite Hk.
Qed.

(** The outputs that are spent, in the order of their accounts *)
Lemma spent_spec vins : (forall a, vins !! a = if decide (a ∈ parties transfers) then Some (default zero_Vin (source a)) else None) ->
  exists spent : list (Address * Vin), createVins deleteAddresses vins = (fun e => vin_input (snd e)) <$> spent /\ NoDup spent.*1 /\
    (forall a v, (a, v) ∈ spent <-> a ∈ parties transfers /\ source a = Some v /\ counted a v = true /\ 0 < vin_value v) /\
    zsum ((fun e => vin_value (snd e)) <$> spent) = zsum (worth <$> X).
Proof.
  intros Hv. eexists. split; [reflexivity | ]. split; [ | split].
  - apply NoDup_keys_filter, keys_NoDup.
  - intros a v. rewrite list_elem_of_filter, in_order_elem, Hv. cbn [fst snd]. split.
    + intros [[Hpos Hc] E]. case_decide; [ | done]. injection E as <-. destruct (source a); [done | cbn in Hpos; lia].
    + intros (Ha & E & Hc & Hpos). rewrite decide_True, E by done. done.
  - rewrite <- (keys_X vins).
    2: { intros a. rewrite Hv. apply is_Some_if. }
    pose (f := fun e : Address * Vin => if counted (fst e) (snd e) then vin_value (snd e) else 0).
    transitivity (zsum (f <$> in_order vins)).
    + rewrite <- (zsum_filter f (fun e => 0 < vin_value (snd e) /\ counted (fst e) (snd e) = true)).
      * f_equal. apply list_fmap_ext. intros i e He%list_elem_of_lookup_2. apply list_elem_of_filter in He as [[_ He] _]. unfold f. by rewrite He.
      * intros [a v] Ha%in_order_elem Hn. rewrite Hv in Ha. case_decide; [ | done]. injection Ha as <-. unfold f. cbn [fst snd] in *.
        destruct (counted a _); [ | done]. destruct (source a) as [w | ] eqn:E; cbn [from_option id] in *; [ | done]. apply source_nonneg in E.
        destruct (Z.le_gt_cases (vin_value w) 0); [lia | ]. destruct Hn. split; [lia | done].
    + rewrite (in_order_keys vins (fun a => default zero_Vin (source a))).
      2: { intros a v. rewrite Hv. by case_decide; intros [= <-]. }
      rewrite <- list_fmap_compose. f_equal. apply list_fmap_ext. intros i a _. unfold f, worth. cbn. destruct (source a); [done | ]. cbn. by case_match.
Qed.

(** The payments, in the order of their accounts *)
Definition payment (a : Address) : CTxOut := mk_CTxOut (new_balance a) (account_script account_alive a).

Lemma positive_fmap (f : Address -> Z) l : positive ((fun a => (a, f a)) <$> l) = (fun a => (a, f a)) <$> filter (fun a => 0 < f a) l.
Proof. unfold positive. induction l as [ | a l IH]; [done | ]. rewrite fmap_cons, !filter_cons. cbn [snd]. case_decide; by rewrite IH. Qed.
Lemma payment_total l : total_out (payment <$> l) = zsum (new_balance <$> l).
Proof. induction l as [ | a l IH]; [done | ]. rewrite !fmap_cons. cbn [total_out foldr zsum payment nValue]. unfold total_out, zsum in IH. by rewrite IH. Qed.

Lemma outputs_spec bals outs nV : (forall a, bals !! a = if decide (a ∈ parties transfers) then Some (new_balance a) else None) ->
  createVout account_alive (in_order bals) 0 [] ∅ = (outs, nV, false) ->
  exists paid : list Address, outs = payment <$> paid /\ NoDup paid /\
    (forall a, a ∈ paid <-> a ∈ parties transfers /\ 0 < new_balance a) /\
    (forall i a, paid !! i = Some a -> nV !! a = Some (Z.of_nat i)) /\ total_out outs = zsum (new_balance <$> X).
Proof.
  intros Hb E. apply createVout_spec in E as (Ho & Hi & _); [ | apply keys_NoDup]. rewrite app_nil_l in Ho.
  assert (forall a, is_Some (bals !! a) <-> a ∈ parties transfers) as Hs by (intros a; rewrite Hb; apply is_Some_if).
  assert (in_order bals = (fun a => (a, new_balance a)) <$> keys bals) as Hio.
  { apply in_order_keys. intros a v. rewrite Hb. by case_decide; intros [= <-]. }
  rewrite Hio, positive_fmap in Hi, Ho. set (paid := filter (fun a => 0 < new_balance a) (keys bals)) in *.
  assert (forall a, a ∈ paid <-> a ∈ parties transfers /\ 0 < new_balance a) as Hpaid.
  { intros a. unfold paid. rewrite list_elem_of_filter, keys_elem, Hs. tauto. }
  assert (outs = payment <$> paid) as ->.
  { rewrite Ho, <- list_fmap_compose. apply list_fmap_ext. intros i a (Ha & Hp)%list_elem_of_lookup_2%Hpaid.
    unfold payment. cbn. rewrite i64_id; [done | ]. pose proof (new_balance_bounded a Ha). lia. }
  exists paid. split; [done | ]. split; [apply NoDup_filter, keys_NoDup | ]. split; [done | ]. split.
  - intros i a Ha. apply (Hi i a (new_balance a)). by rewrite list_lookup_fmap, Ha.
  - rewrite payment_total, <- (keys_X bals) by done. apply zsum_filter. intros a _ Hn. pose proof (new_balance_nonneg a). lia.
Qed.

Lemma condensing_spec tx ctx st' : createCondensingTX C account_alive transfers deleteAddresses t st = (tx, ctx, st') ->
  reachedVoutLimit ctx = false ->
  exists (spent : list (Address * Vin)) (paid : list Address),
    tx = MakeTransaction C (mk_tx ((fun e => vin_input (snd e)) <$> spent) (payment <$> paid) CURRENT_VERSION 0) /\
    NoDup spent.*1 /\ NoDup paid /\
    (forall a v, (a, v) ∈ spent <-> a ∈ parties transfers /\ source a = Some v /\ counted a v = true /\ 0 < vin_value v) /\
    (forall a, a ∈ paid <-> a ∈ parties transfers /\ 0 < new_balance a) /\
    zsum ((fun e => vin_value (snd e)) <$> spent) = total_out (payment <$> paid) /\
    same_outputs st st' /\
    (forall a, balances ctx !! a = if decide (a ∈ parties transfers) then Some (new_balance a) else None) /\
    (forall i a, paid !! i = Some a -> nVouts ctx !! a = Some (Z.of_nat i)).
Proof.
  destruct balances_spec as (vins0 & st1 & vins & bals & Hsel & Hst & Hnb & Hv & Hb). unfold createCondensingTX. rewrite Hsel, Hnb.
  destruct (spent_spec vins Hv) as (spent & -> & Hds & Hspent & Hsum).
  destruct (createVout _ _ _ _ _) as [[outs nV] ov] eqn:Eo. intros [= <- <- <-] Hov. cbn [reachedVoutLimit] in Hov. subst ov.
  destruct (outputs_spec _ _ _ Hb Eo) as (paid & -> & Hdp & Hpaid & Hn & Htot).
  exists spent, paid. rewrite new_balance_total in Htot. split; [ | split_and!; (done || congruence)].
  assert (spent = [] <-> paid = []) as Hempty.
  { rewrite <- Hsum in Htot. split; intros ->.
    - destruct paid as [ | a paid]; [done | ]. exfalso. rewrite payment_total in Htot. cbn in Htot.
      pose proof (zsum_member new_balance (a :: paid) a (fun b _ => new_balance_nonneg b) ltac:(constructor)).
      destruct (proj1 (Hpaid a)) as [_ Hpos]; [constructor | ]. unfold zsum in *. cbn in *. lia.
    - destruct spent as [ | [a v] spent]; [done | ]. exfalso. cbn in Htot.
      pose proof (zsum_member (fun e : Address * Vin => vin_value (snd e)) ((a, v) :: spent) (a, v)
        (fun b Hb => Z.lt_le_incl _ _ (proj2 (proj2 (proj2 (proj1 (Hspent (fst b) (snd b)) ltac:(by destruct b))))))
        ltac:(constructor)). destruct (proj1 (Hspent a v)) as (_ & _ & _ & Hpos); [constructor | ]. unfold zsum in *. cbn in *. lia. }
  destruct spent, paid; cbn; try done; by destruct Hempty as [H1 H2]; (discriminate (H1 eq_refl) || discriminate (H2 eq_refl)).
Qed.
End Conservation.

(** *** Condensing transactions conserve value *)

(** (C11) A condensing transaction spends what it pays: if a run moved only coins that were there,
    the transaction made for it spends exactly the outputs, with coins, of the accounts that took
    part (one for each), pays each of them its old balance plus what it received minus what it
    sent, once and only if that is positive, to a contract output or to the key's hash; and the
    sum of what it spends is the sum of what it pays, so a run neither creates nor destroys coins. *)
Theorem condensing_conserves_value C account_alive transfers deleteAddresses t st tx ctx st' :
  covered transfers deleteAddresses t st ->
  createCondensingTX C account_alive transfers deleteAddresses t st = (tx, ctx, st') -> reachedVoutLimit ctx = false ->
  exists (spent : list (Address * Vin)) (paid : list Address),
    vin tx = (fun e => vin_input (snd e)) <$> spent /\
    vout tx = (fun a => mk_CTxOut (new_balance transfers deleteAddresses t st a) (account_script account_alive a)) <$> paid /\
    NoDup spent.*1 /\ NoDup paid /\
    (forall a v, (a, v) ∈ spent <->
       a ∈ parties transfers /\ source t st a = Some v /\ counted deleteAddresses a v = true /\ 0 < vin_value v) /\
    (forall a, a ∈ paid <-> a ∈ parties transfers /\ 0 < new_balance transfers deleteAddresses t st a) /\
    zsum ((fun e => vin_value (snd e)) <$> spent) = total_out (vout tx).
Proof.
  intros Hrun E Ho. destruct (condensing_spec C account_alive _ _ _ _ Hrun _ _ _ E Ho) as (spent & paid & -> & Hds & Hdp & Hs & Hp & Hsum & _).
  exists spent, paid. by split_and!.
Qed.

(** *** The map of outputs after a run *)

Definition living (v : option Vin) : option Vin := v ← v; if alive v =? 0 then None else Some v.
(** The trie holds outputs that can be spent. *)
Definition living_trie (s : UTXOState) : Prop := forall a, living (stateUTXO s !! a) = stateUTXO s !! a.

Lemma kill_vin_trie s a : stateUTXO (kill_vin s a) = stateUTXO s.
Proof.
  unfold kill_vin. destruct (vin_of_spec s a) as (s' & -> & Hs). destruct (lookup_vin s a); cbn [set_vin stateUTXO]; apply (proj2 Hs).
Qed.
Lemma delete_vins_trie l s : stateUTXO (delete_vins s l) = stateUTXO s.
Proof. revert s. unfold delete_vins. induction l as [ | a l IH]; intros s; [done | ]. cbn [foldl]. by rewrite IH, kill_vin_trie. Qed.

Lemma update_entry_spec s e : stateUTXO (updateUTXO_entry s e) = stateUTXO s /\
  forall a, lookup_vin (updateUTXO_entry s e) a =
    if decide (fst e = a) then
      match lookup_vin s a with Some _ => Some (snd e) | None => if 0 <? alive (snd e) then Some (snd e) else None end
    else lookup_vin s a.
Proof.
  unfold updateUTXO_entry. destruct (vin_of_spec s (fst e)) as (s' & -> & [Hl Ht]). split.
  - repeat case_match; cbn [set_vin stateUTXO]; done.
  - intros a. destruct (decide (fst e = a)) as [<- | Hne].
    + destruct (lookup_vin s (fst e)) eqn:E; [by rewrite set_vin_spec, decide_True by done | ].
      destruct (0 <? alive (snd e)); [by rewrite set_vin_spec, decide_True by done | by rewrite Hl].
    + rewrite <- Hl. repeat case_match; rewrite ?set_vin_spec, ?decide_False by done; done.
Qed.

Lemma updateUTXO_spec m s : stateUTXO (updateUTXO s m) = stateUTXO s /\
  forall a, lookup_vin (updateUTXO s m) a =
    match m !! a with
    | Some v => match lookup_vin s a with Some _ => Some v | None => if 0 <? alive v then Some v else None end
    | None => lookup_vin s a
    end.
Proof.
  unfold updateUTXO. revert s.
  assert (forall l s, NoDup l.*1 -> stateUTXO (foldl updateUTXO_entry s l) = stateUTXO s /\
    forall a, lookup_vin (foldl updateUTXO_entry s l) a =
      match (list_to_map l : gmap Address Vin) !! a with
      | Some v => match lookup_vin s a with Some _ => Some v | None => if 0 <? alive v then Some v else None end
      | None => lookup_vin s a
      end) as H.
  { induction l as [ | [b v] l IH]; intros s Hd; [done | ]. rewrite fmap_cons in Hd. apply NoDup_cons in Hd as [Hb Hd]. cbn [foldl list_to_map foldr fst snd] in *.
    destruct (update_entry_spec s (b, v)) as [Ht Hl]. destruct (IH (updateUTXO_entry s (b, v)) Hd) as [Ht' Hl']. split; [congruence | ].
    intros a. change (foldr _ ∅ l) with (list_to_map l : gmap Address Vin). rewrite Hl', Hl. cbn [fst snd]. destruct (decide (b = a)) as [<- | Hne].
    - rewrite lookup_insert_eq, not_elem_of_list_to_map_1 by done. done.
    - by rewrite lookup_insert_ne by done. }
  intros s. destruct (H (map_to_list m) s (NoDup_fst_map_to_list m)) as [Ht Hl]. split; [done | ]. intros a. by rewrite Hl, list_to_map_to_list.
Qed.

Lemma commit_spec s : living_trie s -> forall a, stateUTXO (commit_utxo s) !! a = living (lookup_vin s a).
Proof.
  intros Hs a. unfold commit_utxo, lookup_vin. cbn [stateUTXO].
  assert (forall l st, NoDup l.*1 -> foldl commit_entry st l !! a =
    match (list_to_map l : gmap Address Vin) !! a with Some v => living (Some v) | None => st !! a end) as H.
  { induction l as [ | [b v] l IH]; intros st Hd; [done | ]. rewrite fmap_cons in Hd. apply NoDup_cons in Hd as [Hb Hd]. cbn [foldl list_to_map foldr fst snd] in *.
    change (foldr _ ∅ l) with (list_to_map l : gmap Address Vin). rewrite IH by done. unfold commit_entry, living. cbn [fst snd mbind option_bind].
    destruct (decide (b = a)) as [<- | Hne].
    - rewrite lookup_insert_eq, not_elem_of_list_to_map_1 by done. destruct (alive v =? 0); [by rewrite lookup_delete_eq | by rewrite lookup_insert_eq].
    - rewrite lookup_insert_ne by done. destruct (alive v =? 0); by rewrite ?lookup_delete_ne, ?lookup_insert_ne by done. }
  rewrite H by apply NoDup_fst_map_to_list. rewrite list_to_map_to_list. destruct (cacheUTXO s !! a); [done | ]. by rewrite Hs.
Qed.
Lemma commit_living s : living_trie s -> living_trie (commit_utxo s).
Proof. intros Hs a. rewrite commit_spec by done. destruct (lookup_vin s a) as [v | ]; cbn; [ | done]. destruct (alive v =? 0) eqn:E; cbn; by rewrite ?E. Qed.

Lemma few_payments account_alive l count outs nV : count + Z.of_nat (length (positive l)) <= MAX_CONTRACT_VOUTS ->
  snd (createVout account_alive l count outs nV) = false.
Proof.
  unfold positive. revert count outs nV. induction l as [ | [a b] l IH]; intros count outs nV; cbn [createVout]; [done | ].
  rewrite filter_cons. cbn [snd]. destruct (Z.ltb_spec 0 b); [rewrite decide_True by done | rewrite decide_False by lia]; cbn [length]; intros Hc.
  - destruct (Z.ltb_spec MAX_CONTRACT_VOUTS (count + 1)); [lia | ]. apply IH. lia.
  - destruct (Z.ltb_spec MAX_CONTRACT_VOUTS count); [lia | ]. by apply IH.
Qed.

(** Who is paid *)
Definition payees (transfers : list TransferInfo) (deleteAddresses : list Address) (t : ArtaxTransaction) (st : UTXOState) : list Address :=
  filter (fun a => 0 < new_balance transfers deleteAddresses t st a) (remove_dups (parties transfers)).

Lemma condensing_within_limit C account_alive transfers deleteAddresses t st tx ctx st' : covered transfers deleteAddresses t st ->
  Z.of_nat (length (payees transfers deleteAddresses t st)) <= MAX_CONTRACT_VOUTS ->
  createCondensingTX C account_alive transfers deleteAddresses t st = (tx, ctx, st') -> reachedVoutLimit ctx = false.
Proof.
  intros Hrun Hfew. destruct (balances_spec account_alive transfers deleteAddresses t st Hrun) as (vins0 & st1 & vins & bals & Hsel & _ & Hnb & _ & Hb).
  unfold createCondensingTX. rewrite Hsel, Hnb. pose proof (few_payments account_alive (in_order bals) 0 [] ∅) as Hlim.
  destruct (createVout _ _ _ _ _) as [[outs nV] ov]. intros [= <- <- <-]. apply Hlim.
  rewrite (in_order_keys bals (new_balance transfers deleteAddresses t st)) by (intros a v; rewrite Hb; by case_decide; intros [= <-]).
  rewrite positive_fmap, length_fmap. unfold payees in Hfew.
  rewrite (keys_X transfers bals) by (intros a; rewrite Hb; apply is_Some_if). unfold X. lia.
Qed.

(** (C12) The map of contract outputs follows the balances: after a run that succeeded, and moved
    only coins that were there, the trie holds for every account other than the sender that took
    part its new balance, at an output of the condensing transaction that pays exactly that
    (nothing, if the balance is zero); for the others it holds what it held unless that died in
    the run; the cache is empty, and the trie still holds spendable outputs only. *)
Theorem contract_outputs_follow_balances C {A} (ops : AccountOps A) height nFix removeEmpty t res transfers s r s' :
  let u := delete_vins (es_utxo s) (es_delete s) in
  excepted res = TransactionException_None -> living_trie (es_utxo s) -> covered transfers (es_delete s) t u ->
  Z.of_nat (length (payees transfers (es_delete s) t u)) <= MAX_CONTRACT_VOUTS ->
  settle C ops height nFix removeEmpty t res transfers s = (r, s') ->
  execRes r = res /\ cacheUTXO (es_utxo s') = ∅ /\ living_trie (es_utxo s') /\
  (forall a, a <> sender t -> a ∈ parties transfers ->
     if decide (0 < new_balance transfers (es_delete s) t u a) then
       exists i o, stateUTXO (es_utxo s') !! a = Some (mk_Vin (GetHash (re_tx r)) (Z.of_nat i) (nValue o) 1) /\
         vout (re_tx r) !! i = Some o /\ nValue o = new_balance transfers (es_delete s) t u a
     else stateUTXO (es_utxo s') !! a = None) /\
  (forall a, a ∉ parties transfers -> stateUTXO (es_utxo s') !! a = living (lookup_vin u a)).
Proof.
  intros u Hres Htrie Hrun Hfew. unfold settle. cbn [deleteAccounts es_utxo es_accounts es_delete]. fold u. rewrite Hres. cbn [Z.eqb TransactionException_None].
  set (alive_ := acc_alive ops _). destruct (createCondensingTX _ _ _ _ _ _) as [[tx ctx] u'] eqn:Ec.
  pose proof (condensing_within_limit _ _ _ _ _ _ _ _ _ Hrun Hfew Ec) as Hlim. rewrite Hlim. intros [= <- <-]. cbn [execRes re_tx es_utxo].
  destruct (condensing_spec C alive_ _ _ _ _ Hrun _ _ _ Ec Hlim) as (spent & paid & Etx & _ & _ & _ & Hp & _ & Hu & Hb & Hn).
  destruct (updateUTXO_spec (createVin t ctx tx) u') as [Ht Hl].
  assert (living_trie (updateUTXO u' (createVin t ctx tx))) as Hliving.
  { intros a. unfold living_trie in Htrie. rewrite Ht, (proj2 Hu). unfold u. by rewrite delete_vins_trie. }
  assert (forall a, createVin t ctx tx !! a = b ← balances ctx !! a; if bool_decide (a = sender t) then None
    else Some (if 0 <? b then mk_Vin (GetHash tx) (default 0 (nVouts ctx !! a)) b 1 else mk_Vin (GetHash tx) 0 0 0)) as Hcv by (intros a; apply map_lookup_imap).
  split; [done | ]. split; [done | ]. split; [by apply commit_living | ]. split; intros a Ha.
  - intros Hpart. rewrite (commit_spec _ Hliving), Hl, Hcv, Hb, (decide_True (P := a ∈ parties transfers)), bool_decide_false by done. cbn [mbind option_bind].
    case_decide as Hpos; [rewrite (proj2 (Z.ltb_lt _ _)) by done | destruct (Z.ltb_spec 0 (new_balance transfers (es_delete s) t u a)); [done | ]].
    + destruct (proj1 (list_elem_of_lookup paid a) (proj2 (Hp a) (conj Hpart Hpos))) as [i Hi]. exists i. eexists.
      assert (vout tx = payment alive_ transfers (es_delete s) t u <$> paid) as -> by (by rewrite Etx). rewrite list_lookup_fmap, Hi. split; [ | split; [reflexivity | done]].
      rewrite (Hn i a Hi). cbn. by destruct (lookup_vin u' a).
    + cbn. by destruct (lookup_vin u' a).
  - rewrite (commit_spec _ Hliving), Hl, Hcv, Hb, decide_False by done. cbn [mbind option_bind]. by rewrite (proj1 Hu).
Qed.

(** *** Balances and transfers *)

Definition balance (s : Ledger) (a : Address) : Z := default 0 (accounts s !! a).
Definition msum (m : gmap Address Z) : Z := zsum (snd <$> map_to_list m).
(** Balances are not negative and there are no more coins than fit a word. *)
Definition ledger_ok (s : Ledger) : Prop := (forall a b, accounts s !! a = Some b -> 0 <= b) /\ msum (accounts s) < 2 ^ 256.

Lemma msum_delete m a b : m !! a = Some b -> msum m = b + msum (delete a m).
Proof. intros E. unfold msum. by rewrite <- (map_to_list_delete m a b E). Qed.
Lemma msum_insert m a v : msum (<[a := v]> m) = msum m - default 0 (m !! a) + v.
Proof.
  unfold msum. rewrite <- insert_delete_eq, map_to_list_insert by apply lookup_delete_eq. rewrite fmap_cons. cbn [snd].
  change (zsum (v :: ?l)) with (v + zsum l). fold (msum (delete a m)) (msum m). destruct (m !! a) as [b | ] eqn:E; cbn [default from_option id].
  - rewrite (msum_delete m a b E). lia.
  - rewrite delete_id by done. lia.
Qed.
Lemma msum_nonneg m : (forall a b, m !! a = Some b -> 0 <= b) -> 0 <= msum m.
Proof.
  intros Hm. unfold msum. assert (forall e, e ∈ map_to_list m -> 0 <= snd e) as H by (intros [a b] H%elem_of_map_to_list; by eapply Hm).
  induction (map_to_list m) as [ | e l IH]; [done | ]. rewrite fmap_cons. pose proof (H e ltac:(constructor)).
  change (zsum (e.2 :: ?l)) with (e.2 + zsum l). pose proof (IH ltac:(intros; apply H; by constructor)). lia.
Qed.
Lemma balance_range s a : ledger_ok s -> 0 <= balance s a <= msum (accounts s).
Proof.
  intros [H1 _]. unfold balance. destruct (accounts s !! a) as [b | ] eqn:E; cbn [default from_option id].
  - pose proof (H1 _ _ E). rewrite (msum_delete _ _ _ E).
    assert (0 <= msum (delete a (accounts s))); [ | lia]. apply msum_nonneg. intros c d [_ Hc]%lookup_delete_Some. by eapply H1.
  - pose proof (msum_nonneg _ H1). lia.
Qed.

(** [s] becomes [s'] by changes that the log records and that undoing takes back. *)
Definition undoes_to (s s' : Ledger) : Prop := exists log, m_changeLog s' = m_changeLog s ++ log /\
  foldl undo_change (accounts s') (rev log) = accounts s.
Lemma undoes_refl s : undoes_to s s.
Proof. exists []. by rewrite app_nil_r. Qed.
Lemma undoes_trans s1 s2 s3 : undoes_to s1 s2 -> undoes_to s2 s3 -> undoes_to s1 s3.
Proof.
  intros (l1 & E1 & U1) (l2 & E2 & U2). exists (l1 ++ l2). split; [by rewrite E2, E1, app_assoc | ]. rewrite rev_app_distr, foldl_app, U2. done.
Qed.
Lemma rollback_undoes s s' : undoes_to s s' -> accounts (rollback s' (savepoint s)) = accounts s /\ m_changeLog (rollback s' (savepoint s)) = m_changeLog s.
Proof.
  intros (log & E & U). unfold rollback, savepoint. cbn [accounts m_changeLog]. rewrite E, drop_app_length, take_app_length. done.
Qed.

Lemma u256_add b delta : 0 <= b + delta < 2 ^ 256 -> u256 (b + u256 delta) = b + delta.
Proof. intros H. unfold u256. rewrite Zplus_mod_idemp_r. by apply Z.mod_small. Qed.
Lemma u256_sub_back b v : 0 <= b < 2 ^ 256 -> u256 (u256 (b + v) + u256 (0 - v)) = b.
Proof. intros H. unfold u256. rewrite <- Zplus_mod. replace (b + v + (0 - v)) with b by lia. by apply Z.mod_small. Qed.

(** What [addBalance] leaves, for an account with the balance [b] after it *)
Lemma credited s a b delta : ledger_ok s -> balance s a + delta = b -> 0 <= b -> msum (accounts s) + delta < 2 ^ 256 ->
  let s' m := mk_Ledger (<[a := b]> (accounts s)) m (lg_transfers s) (newAddress s) in
  forall m, ledger_ok (s' m) /\ msum (accounts (s' m)) = msum (accounts s) + delta /\
    (forall c, balance (s' m) c = balance s c + (if bool_decide (a = c) then delta else 0)).
Proof.
  intros [Hn Hm] Hb Hpos Hlt s' m. unfold s'. cbn [accounts]. assert (msum (<[a := b]> (accounts s)) = msum (accounts s) + delta) as Hs.
  { rewrite msum_insert. fold (balance s a). lia. }
  split; [split | split]; cbn [accounts].
  - intros c d. rewrite lookup_insert. case_decide; [intros [= <-]; lia | apply Hn].
  - lia.
  - done.
  - intros c. unfold balance. cbn [accounts]. rewrite lookup_insert. case_decide as Hc; [subst c; rewrite bool_decide_true by done; unfold balance in Hb; cbn; lia | ].
    rewrite bool_decide_false by done. lia.
Qed.

(** An account is credited or debited by [delta]. *)
Lemma addBalance_spec s a delta : ledger_ok s -> 0 <= balance s a + delta -> msum (accounts s) + delta < 2 ^ 256 ->
  is_Some (accounts s !! a) \/ 0 <= delta ->
  exists s' a', addBalance s a (u256 delta) = (s', a') /\ ledger_ok s' /\ msum (accounts s') = msum (accounts s) + delta /\
    (forall c, balance s' c = balance s c + (if bool_decide (a' = c) then delta else 0)) /\ undoes_to s s' /\
    lg_transfers s' = lg_transfers s /\ (is_Some (accounts s !! a) -> a' = a).
Proof.
  intros Hok Hpos Hlt Hcase. pose proof (balance_range s a Hok) as Hr. pose proof (proj2 Hok). unfold addBalance.
  destruct (accounts s !! a) as [b | ] eqn:E.
  - assert (balance s a = b) as Hb by (unfold balance; by rewrite E). rewrite u256_add by lia.
    destruct (credited s a (b + delta) delta Hok) with (m := m_changeLog s) as (H1 & H2 & H3); [lia.. | ].
    destruct (Z.eqb_spec (u256 delta) 0) as [E0 | E0]; eexists _, _; (split; [reflexivity | ]); (split; [done | ]); (split; [done | ]); (split; [done | ]); (split; [ | by split]).
    + exists []. rewrite app_nil_r. split; [done | ]. cbn [rev foldl accounts]. assert (delta = 0) as ->.
      { unfold u256 in E0. apply Z.mod_divide in E0 as [q Hq]; lia. }
      rewrite Z.add_0_r. by apply insert_id.
    + exists [ChBalance a (u256 delta)]. split; [done | ]. cbn [rev app foldl undo_change accounts]. rewrite lookup_insert_eq, insert_insert_eq.
      rewrite <- (u256_add b delta) by lia. rewrite u256_sub_back by lia. by apply insert_id.
  - assert (0 <= delta) as Hd by (destruct Hcase as [Hc | ]; [by destruct Hc | done]). rewrite u256_id by lia.
    destruct (if bool_decide _ && _ then _ else _) as [a' new'] eqn:Ea.
    assert (accounts s !! a' = None) as E'.
    { destruct (bool_decide_reflect (accounts s !! newAddress s = None)); cbn [andb] in Ea; repeat case_match; by simplify_eq. }
    assert (balance s a' = 0) as Hb by (unfold balance; by rewrite E').
    pose (sn := mk_Ledger (accounts s) (m_changeLog s) (lg_transfers s) new').
    destruct (credited sn a' delta delta) with (m := m_changeLog s ++ [ChCreate a']) as (H1 & H2 & H3); [done | change (balance sn a') with (balance s a'); lia | lia | done | ].
    destruct (Z.eqb_spec delta 0) as [E0 | E0]; eexists _, _; (split; [reflexivity | ]); (split; [done | ]); (split; [done | ]); (split; [done | ]); (split; [ | split; [done | by intros []]]).
    + exists [ChCreate a']. split; [done | ]. cbn [rev app foldl undo_change accounts sn]. by apply delete_insert_id.
    + exists [ChCreate a'; ChBalance a' delta]. split; [cbn [m_changeLog]; by rewrite <- app_assoc | ]. cbn [rev app foldl undo_change accounts sn].
      rewrite lookup_insert_eq, insert_insert_eq. by apply delete_insert_id.
Qed.

Lemma transferBalance_spec s f t v s' : ledger_ok s -> 0 <= v < 2 ^ 256 -> transferBalance s f t v = Some s' ->
  ledger_ok s' /\ undoes_to s s' /\ exists l, lg_transfers s' = lg_transfers s ++ l /\
    forall c, balance s' c = balance s c + received l c - sent l c.
Proof.
  intros Hok Hv. unfold transferBalance. intros (s1 & Esub & E)%bind_Some.
  assert (ledger_ok s1 /\ undoes_to s s1 /\ lg_transfers s1 = lg_transfers s /\ msum (accounts s1) + v < 2 ^ 256 /\
    forall c, balance s1 c = balance s c - (if bool_decide (f = c) then v else 0)) as (H1 & Hu1 & Hl1 & Hm1 & Hb1).
  { unfold subBalance in Esub. destruct (Z.eqb_spec v 0) as [-> | Hv0].
    - injection Esub as <-. split; [done | ]. split; [apply undoes_refl | ]. split; [done | ]. split; [destruct Hok; lia | ]. intros c. case_bool_decide; lia.
    - destruct (accounts s !! f) as [b | ] eqn:Ef; [ | done]. destruct (Z.ltb_spec b v); [done | ].
      assert (balance s f = b) as Hb by (unfold balance; by rewrite Ef). pose proof (balance_range s f Hok).
      destruct (addBalance_spec s f (0 - v)) as (s2 & a' & E2 & Hok2 & Hm2 & Hb2 & Hu2 & Hl2 & Ha); [done | lia | destruct Hok; lia | left; by rewrite Ef | ].
      rewrite E2 in Esub. injection Esub as <-. cbn [fst]. rewrite Ha in Hb2 by (by rewrite Ef). split_and!; try done; [destruct Hok; lia | ].
      intros c. rewrite Hb2. case_bool_decide; lia. }
  destruct (addBalance_spec s1 t v) as (s2 & t' & E2 & Hok2 & _ & Hb2 & Hu2 & Hl2 & _); [done | pose proof (balance_range s1 t H1); lia | lia | lia | ].
  rewrite u256_id in E2 by done. rewrite E2 in E. injection E as <-.
  destruct (Z.ltb_spec 0 v) as [Hpos | Hz].
  - split; [done | ]. split; [exact (undoes_trans _ _ _ Hu1 Hu2) | ]. exists [mk_TransferInfo f t' v]. split; [cbn [lg_transfers]; congruence | ].
    intros c. change (balance (mk_Ledger (accounts s2) _ _ _) c) with (balance s2 c). rewrite Hb2, Hb1, received_cons, sent_cons. cbn [from to ti_value]. unfold received, sent. cbn. lia.
  - split; [done | ]. split; [exact (undoes_trans _ _ _ Hu1 Hu2) | ]. exists []. split; [rewrite app_nil_r; congruence | ].
    intros c. rewrite Hb2, Hb1. unfold received, sent. cbn. assert (v = 0) as -> by lia. repeat case_bool_decide; lia.
Qed.

(** No nested call fails. *)
Fixpoint succeeds (op : vm_op) : bool :=
  match op with Transfer _ _ _ => true | Nested body fails => negb fails && forallb succeeds body end.

Lemma run_nested s body fails : run_op s (Nested body fails) = s' ← run_ops s body; Some (if fails then rollback s' (savepoint s) else s').
Proof.
  reflexivity.
Qed.

Definition explained (ok : bool) (s s' : Ledger) : Prop :=
  ledger_ok s' /\ undoes_to s s' /\ exists l, lg_transfers s' = lg_transfers s ++ l /\
    (ok = true -> forall c, balance s' c = balance s c + received l c - sent l c).

Lemma received_app l l' c : received (l ++ l') c = received l c + received l' c.
Proof. unfold received. by rewrite fmap_app, zsum_app. Qed.
Lemma sent_app l l' c : sent (l ++ l') c = sent l c + sent l' c.
Proof. unfold sent. by rewrite fmap_app, zsum_app. Qed.

Lemma explained_trans ok ok' s1 s2 s3 : explained ok s1 s2 -> explained ok' s2 s3 -> explained (ok && ok') s1 s3.
Proof.
  intros (H1 & U1 & l1 & E1 & B1) (H2 & U2 & l2 & E2 & B2). split; [done | ]. split; [exact (undoes_trans _ _ _ U1 U2) | ].
  exists (l1 ++ l2). split; [by rewrite E2, E1, app_assoc | ]. intros [Ho Ho']%andb_true_iff c.
  rewrite B2, B1, received_app, sent_app by done. lia.
Qed.

Lemma run_op_explained op : forall s s', ledger_ok s -> run_op s op = Some s' -> explained (succeeds op) s s'.
Proof.
  revert op. fix IH 1. intros [f t v | body fails] s s' Hok.
  - cbn [run_op succeeds]. intros E. assert (0 <= u256 v < 2 ^ 256) as Hv by (apply Z.mod_pos_bound; lia).
    destruct (transferBalance_spec _ _ _ _ _ Hok Hv E) as (H1 & H2 & l & H3 & H4). split; [done | ]. split; [done | ]. by exists l.
  - rewrite run_nested. intros (s1 & E1 & [= <-])%bind_Some.
    assert (explained (forallb succeeds body) s s1) as Hx.
    { clear fails. revert s s1 Hok E1. induction body as [ | op body IHb]; intros s s1 Hok; cbn [run_ops forallb].
      - intros [= <-]. split; [done | ]. split; [apply undoes_refl | ]. exists []. rewrite app_nil_r. split; [done | ]. intros _ c. unfold received, sent. cbn. lia.
      - intros (s2 & E2 & E)%bind_Some. pose proof (IH op s s2 Hok E2) as Hx. eapply explained_trans; [exact Hx | ]. apply IHb; [apply Hx | done]. }
    destruct fails; cbn [succeeds negb andb]; [ | done]. destruct Hx as (H1 & Hu & l & El & _). destruct (rollback_undoes _ _ Hu) as [Ha Hlog].
    split; [unfold ledger_ok; by rewrite Ha | ]. split; [ | exists l; by split]. exists []. rewrite app_nil_r. split; [done | ]. by rewrite Ha.
Qed.

Lemma run_ops_explained ops s s' : ledger_ok s -> run_ops s ops = Some s' -> explained (forallb succeeds ops) s s'.
Proof.
  intros Hok E. pose proof (run_op_explained (Nested ops false) s s' Hok) as H. rewrite run_nested, E in H. by apply H.
Qed.

(** Transfers explain the balances unless a nested call fails.  Whatever a contract does,
    undoing back to the savepoint before it restores every balance; if no nested call fails, each
    balance changes by exactly what the recorded transfers say; but undoing does not take back
    recorded transfers, so those of a nested call that failed stay in the list from which the
    condensing transaction is made. *)
Theorem rollback_keeps_transfers s ops s' : ledger_ok s -> run_ops s ops = Some s' ->
  ledger_ok s' /\ accounts (rollback s' (savepoint s)) = accounts s /\
  exists l, lg_transfers s' = lg_transfers s ++ l /\
    (forallb succeeds ops = true -> forall a, balance s' a = balance s a + received l a - sent l a) /\
    run_op s (Nested ops true) = Some (rollback s' (savepoint s)) /\ lg_transfers (rollback s' (savepoint s)) = lg_transfers s ++ l.
Proof.
  intros Hok E. destruct (run_ops_explained ops s s' Hok E) as (H1 & Hu & l & El & Hb). split; [done | ].
  split; [by apply rollback_undoes | ]. exists l. split; [done | ]. split; [done | ]. split; [by rewrite run_nested, E | done].
Qed.

(** *** Examples *)

Definition addr (n : Z) : Address := repeat n 20.
Definition sample_call (value : Z) : ArtaxTransaction :=
  mk_ArtaxTransaction value 40 100000 [1] (Some (addr 1)) (addr 9) (repeat 7 32) 0 GetEVMDefault.
(** Contract 1 holds 5 coins' worth; the call brings 10, and the contract passes 7 on to key 2. *)
Definition sample_utxo : UTXOState := mk_UTXOState ∅ {[ addr 1 := mk_Vin (repeat 8 32) 1 5 1 ]}.
Definition sample_transfers : list TransferInfo := [mk_TransferInfo (addr 9) (addr 1) 10; mk_TransferInfo (addr 1) (addr 2) 7].
Definition sample_delete : list Address := [addr 9; addr 2].

Lemma sample_covered : covered sample_transfers sample_delete (sample_call 10) sample_utxo.
Proof.
  assert (forall a, lookup_vin sample_utxo a = if decide (addr 1 = a) then Some (mk_Vin (repeat 8 32) 1 5 1) else None) as Hl.
  { intros a. unfold lookup_vin, sample_utxo. cbn [cacheUTXO stateUTXO]. rewrite lookup_empty. apply lookup_singleton. }
  split.
  - repeat constructor.
  - by intros _ ti [= <-].
  - vm_compute. discriminate.
  - intros a v. rewrite Hl. case_decide; intros [= <-]. by cbn.
  - intros a. unfold worth, source. rewrite Hl. cbn [sender sample_call at_value].
    unfold sample_transfers. rewrite !received_cons, !sent_cons. cbn [from to ti_value].
    change (received [] a) with 0. change (sent [] a) with 0.
    destruct (decide (a = addr 9)) as [-> | H9]; [vm_compute; discriminate | ]. rewrite (bool_decide_false (a = addr 9)) by done. cbn [andb].
    destruct (decide (a = addr 1)) as [-> | H1]; [vm_compute; discriminate | ]. rewrite (decide_False (P := addr 1 = a)) by congruence.
    destruct (decide (a = addr 2)) as [-> | H2]; [vm_compute; discriminate | ].
    rewrite !bool_decide_false by congruence. done.
  - vm_compute. reflexivity.
  - vm_compute. reflexivity.
Qed.

Definition contract_1 (a : Address) : bool := bool_decide (a = addr 1).
Definition sample_condensing := createCondensingTX toy_crypto contract_1 sample_transfers sample_delete (sample_call 10) sample_utxo.
Lemma sample_condensed : nValue <$> vout (tx_fields (fst (fst sample_condensing))) = [8; 7] /\ reachedVoutLimit (snd (fst sample_condensing)) = false.
Proof. split; vm_compute; reflexivity. Qed.

Lemma condensing_conserves_value_witness : exists spent,
  vin (tx_fields (fst (fst sample_condensing))) = vin_input <$> spent /\ zsum (vin_value <$> spent) = 8 + 7.
Proof.
  pose proof sample_condensed as [Ev El]. destruct sample_condensing as [[tx ctx] st'] eqn:E. cbn [fst snd] in *.
  destruct (condensing_conserves_value toy_crypto contract_1 sample_transfers sample_delete (sample_call 10) sample_utxo
    tx ctx st' sample_covered E El) as (spent & paid & H1 & _ & _ & _ & _ & _ & H2).
  exists (snd <$> spent). split; [by rewrite <- list_fmap_compose | ]. rewrite <- list_fmap_compose. etransitivity; [exact H2 | ].
  destruct (vout tx) as [ | o1 [ | o2 [ | ]]]; try discriminate Ev. injection Ev as E1 E2. cbn. rewrite E1, E2. reflexivity.
Defined.

(** Accounts that are a list of living addresses *)
Definition list_accounts : AccountOps (list Address) := {|
  acc_alive := fun l a => bool_decide (a ∈ l); acc_inUse := fun l a => bool_decide (a ∈ l);
  acc_kill := fun l a => filter (fun b => b <> a) l; acc_clear := id; acc_commit := fun _ l => l; acc_revert := id |}.
Definition sample_exec : exec_state := mk_exec_state sample_utxo [addr 1; addr 2; addr 9] sample_delete.

Lemma sample_deleted : delete_vins (es_utxo sample_exec) (es_delete sample_exec) = sample_utxo.
Proof. vm_compute. reflexivity. Qed.

Lemma contract_outputs_follow_balances_witness : exists r s' i,
  settle toy_crypto list_accounts 0 0 false (sample_call 10) (mk_ExecutionResult 50000 0) sample_transfers sample_exec = (r, s') /\
  stateUTXO (es_utxo s') !! addr 1 = Some (mk_Vin (GetHash (re_tx r)) (Z.of_nat i) 8 1).
Proof.
  destruct (settle toy_crypto list_accounts 0 0 false (sample_call 10) (mk_ExecutionResult 50000 0) sample_transfers sample_exec) as [r s'] eqn:E.
  destruct (contract_outputs_follow_balances toy_crypto list_accounts 0 0 false (sample_call 10) (mk_ExecutionResult 50000 0) sample_transfers
    sample_exec r s') as (_ & _ & _ & H & _); rewrite ?sample_deleted.
  - reflexivity.
  - intros a. unfold sample_exec, sample_utxo. cbn [es_utxo stateUTXO]. rewrite lookup_singleton. by case_decide.
  - exact sample_covered.
  - vm_compute. discriminate.
  - exact E.
  - specialize (H (addr 1)). rewrite sample_deleted in H.
    assert (new_balance sample_transfers (es_delete sample_exec) (sample_call 10) sample_utxo (addr 1) = 8) as Hb by (vm_compute; reflexivity).
    rewrite Hb, decide_True in H by lia. destruct H as (i & o & H & _ & Ho); [discriminate | by do 2 constructor | ].
    exists r, s', i. split; [reflexivity | ]. by rewrite H, Ho.
Defined.

(** A nested call moves 3 from contract 1 to key 2 and fails: the balances are as before, the
    condensing transaction pays key 2 all the same. *)
Definition sample_ledger : Ledger := mk_Ledger {[ addr 1 := 5 ]} [] [] null_Address.

Lemma rollback_keeps_transfers_witness : exists s', run_op sample_ledger (Nested [Transfer (addr 1) (addr 2) 3] true) = Some s' /\
  balance s' (addr 1) = 5 /\ balance s' (addr 2) = 0 /\
  nValue <$> vout (tx_fields (fst (fst (createCondensingTX toy_crypto contract_1 (lg_transfers s') sample_delete (sample_call 0) sample_utxo)))) = [2; 3].
Proof.
  destruct (run_ops sample_ledger [Transfer (addr 1) (addr 2) 3]) as [s1 | ] eqn:E; [ | vm_compute in E; discriminate E].
  destruct (rollback_keeps_transfers sample_ledger [Transfer (addr 1) (addr 2) 3] s1) as (_ & Ha & l & El & _ & Hr & Ht).
  - split; [ | vm_compute; reflexivity]. intros a b. cbn [accounts sample_ledger]. rewrite lookup_singleton. case_decide; intros [= <-]. lia.
  - exact E.
  - exists (rollback s1 (savepoint sample_ledger)). split; [exact Hr | ]. unfold balance. rewrite Ha. split; [reflexivity | ]. split; [reflexivity | ].
    rewrite Ht, <- El. assert (lg_transfers s1 = [mk_TransferInfo (addr 1) (addr 2) 3]) as ->; [ | vm_compute; reflexivity].
    assert (lg_transfers <$> run_ops sample_ledger [Transfer (addr 1) (addr 2) 3] = Some [mk_TransferInfo (addr 1) (addr 2) 3]) as Hc by (vm_compute; reflexivity).
    rewrite E in Hc. by injection Hc.
Defined.
