(* ===== verification/Contract.v ===== *)
(** * Contract transactions ([src/validation.cpp]: [ArtaxTxConverter], [ByteCodeExec] and the part of
      [ConnectBlock] that runs contracts)

    From the outputs of a transaction to calls of the virtual machine and back: the stack the
    script leaves is parsed into the parameters of a call, the gas is checked against the fee,
    every call is executed, and what was not used is refunded.

    Theorems: the parameters written into a script are the ones that are read back; the fee of a
    contract transaction covers all its gas, and the refunds are exactly the gas that was bought
    and not used. *)

From Stdlib Require Import String.
From stdpp Require Import gmap.
From S2P Require Import Prelude Serialize ScriptNum Script SigEncoding Interpreter VerifyScript Standard Transaction Block Merkle Chain Coins Pow Undo TxVerify Condensing.
Open Scope Z_scope.

Abbreviation length := Datatypes.length (only parsing).

(** ** Definitions *)

Definition MINIMUM_GAS_LIMIT : Z := 10000.
Definition SCRIPT_EXEC_BYTE_CODE : Z := Z.shiftl 1 30.

Record EthTransactionParams : Type := mk_EthTransactionParams {
  etp_version : VersionVM; etp_gasLimit : Z; etp_gasPrice : Z; etp_code : valtype; etp_receiveAddress : Address }.

(** [BaseSignatureChecker]'s own methods *)
Definition BaseSignatureChecker_default : BaseSignatureChecker :=
  {| CheckSig := fun _ _ _ _ => false; CheckLockTime := fun _ => false; CheckSequence := fun _ => false |}.

(** [dev::Address(bytes)]: zero unless the size fits *)
Definition to_Address (b : bytes) : Address := if vsize b =? 20 then b else null_Address.

(** *** The sender *)

Section Convert.
Context (C : Crypto) {B : Type} `{CoinsView B} (usage : Coin -> Z).
Abbreviation cache := (CCoinsViewCache B).

(** [None]: [Solver] is stuck. *)
Definition key_destination (script : CScript) : option valtype :=
  '(addressBit, txType) ← ExtractDestination C script;
  Some (match addressBit, txType with
        | Some (DestKeyID senderAddress), Some (TX_PUBKEY | TX_PUBKEYHASH) => senderAddress
        | _, _ => []
        end).

(** With a view and the transactions of the block, as contracts are run; [None]: an index out of
    range. *)
Definition GetSenderAddress (tx : CTransaction) (coinsView : cache) (blockTxs : list CTransaction) : option (valtype * cache) :=
  txin ← vin tx !! 0%nat;
  '(script, coinsView) ←
    match list_find (fun btx => base_blob_eq (GetHash btx) (outpoint_hash (prevout txin)) = true) blockTxs with
    | Some (_, btx) => o ← vout (tx_fields btx) !! Z.to_nat (outpoint_n (prevout txin)); Some (scriptPubKey o, coinsView)
    | None => let '(coin, coinsView) := AccessCoin usage coinsView (prevout txin) in Some (scriptPubKey (out coin), coinsView)
    end;
  a ← key_destination script;
  Some (a, coinsView).

Definition EthAddrFromScript (script : CScript) : option Address := a ← key_destination script; Some (to_Address a).

Definition CheckSenderScript (view : cache) (tx : CTransaction) : option (bool * cache) :=
  txin ← vin tx !! 0%nat;
  let '(coin, view) := AccessCoin usage view (prevout txin) in
  let script := scriptPubKey (out coin) in
  Some (IsPayToPubkeyHash script || IsPayToPubkey script, view).

(** *** [ArtaxTxConverter]; a stack has its top first. *)

(** What is returned, [opcode] and the stack.  The value [EvalScript] returns is not looked at: on
    a script that fails the stack is what the failing instruction left of it, for which [None]
    stands here, as for the first byte of an empty one. *)
Definition receiveStack (stack : list valtype) (scriptPubKey : CScript) : option (bool * opcodetype * list valtype) :=
  match EvalScript C BaseSignatureChecker_default stack scriptPubKey SCRIPT_EXEC_BYTE_CODE BASE with
  | EvalTrue [] _ => Some (false, OP_INVALIDOPCODE, [])
  | EvalTrue (scriptRest :: stack) _ =>
      opcode ← head scriptRest;
      if ((opcode =? OP_CREATE) && (vsize stack <? 4)) || ((opcode =? OP_CALL) && (vsize stack <? 5))
      then Some (false, opcode, []) else Some (true, opcode, stack)
  | _ => None
  end.

(** From the check of the size on; [None] is [return false], after the exception
    [scriptnum_error] too. *)
Definition parse_params (receiveAddress : Address) (stack : list valtype) : option (EthTransactionParams * list valtype) :=
  match stack with
  | code :: price :: limit :: version :: stack =>
      if vsize code <? 1 then None
      else match vch_to_uint64 price, vch_to_uint64 limit with
      | Ok gasPrice, Ok gasLimit =>
          if (INT64_MAX <? gasPrice) || (INT64_MAX <? gasLimit) then None
          else if negb (gasPrice =? 0) && (INT64_MAX / gasPrice <? gasLimit) then None
          else if 4 <? vsize version then None
          else match vch_to_uint64 version with
          | Ok raw => Some (mk_EthTransactionParams (fromRaw (u32 raw)) gasLimit gasPrice code receiveAddress, stack)
          | Err _ => None
          end
      | _, _ => None
      end
  | _ => None
  end.
Definition parseEthTXParams (opcode : opcodetype) (stack : list valtype) : option (EthTransactionParams * list valtype) :=
  if opcode =? OP_CALL then match stack with vecAddr :: stack => parse_params (to_Address vecAddr) stack | [] => None end
  else parse_params null_Address stack.

Definition createEthTX (txBit : CTransaction) (view : cache) (blockTransactions : list CTransaction) (opcode : opcodetype)
  (etp : EthTransactionParams) (nOut : Z) (value : CAmount) : option (ArtaxTransaction * cache) :=
  '(sender, view) ← GetSenderAddress txBit view blockTransactions;
  let receive := if bool_decide (etp_receiveAddress etp = null_Address) && negb (opcode =? OP_CALL) then None else Some (etp_receiveAddress etp) in
  Some (mk_ArtaxTransaction (u256 value) (etp_gasPrice etp) (etp_gasLimit etp) (etp_code etp) receive (to_Address sender)
          (GetHash txBit) nOut (etp_version etp), view).

(** The loop over the outputs from the [i]-th on; the stack is a member of the converter and is
    not cleared between outputs.  The inner [None] is [return false]. *)
Fixpoint extraction (txBit : CTransaction) (blockTransactions : list CTransaction) (vout : list CTxOut) (i : Z) (stack : list valtype) (view : cache)
  : option (option (list (ArtaxTransaction * EthTransactionParams)) * cache) :=
  match vout with
  | [] => Some (Some [], view)
  | o :: vout =>
      if HasOpCreate (scriptPubKey o) || HasOpCall (scriptPubKey o) then
        '(ok, opcode, stack) ← receiveStack stack (scriptPubKey o);
        if negb ok then Some (None, view)
        else match parseEthTXParams opcode stack with
        | None => Some (None, view)
        | Some (params, stack) =>
            '(t, view) ← createEthTX txBit view blockTransactions opcode params i (nValue o);
            '(rest, view) ← extraction txBit blockTransactions vout (i + 1) stack view;
            Some (l ← rest; Some ((t, params) :: l), view)
        end
      else extraction txBit blockTransactions vout (i + 1) stack view
  end.
Definition extractionArtaxTransactions (txBit : CTransaction) (view : cache) (blockTransactions : list CTransaction)
  : option (option (list (ArtaxTransaction * EthTransactionParams)) * cache) :=
  extraction txBit blockTransactions (vout txBit) 0 [] view.
End Convert.

Definition CheckMinGasPrice (etps : list EthTransactionParams) (minGasPrice : Z) : bool :=
  forallb (fun etp => negb (etp_gasPrice etp <? minGasPrice)) etps.

(** *** The checks of [ConnectBlock] before a contract runs *)

Fixpoint check_gas (txs : list ArtaxTransaction) (nTxFee : CAmount) (blockGasLimit minGasPrice : Z)
  (sumGas gasAllTxs : Z) (nonZeroVersion : bool) : checks bool :=
  match txs with
  | [] => Ok nonZeroVersion
  | qtx :: txs =>
      let sumGas := u256 (sumGas + u256 (at_gas qtx * at_gasPrice qtx)) in
      let v := getVersion qtx in
      _ ← fail_if (INT64_MAX <? sumGas) 100 "bad-tx-gas-stipend-overflow"%string;
      _ ← fail_if (u256 nTxFee <? sumGas) 100 "bad-txns-fee-notenough"%string;
      _ ← fail_if (negb (vm_format v =? 0)) 100 "bad-tx-version-format"%string;
      _ ← fail_if ((rootVM v =? 0) && nonZeroVersion) 100 "bad-tx-mixed-zero-versions"%string;
      let nonZeroVersion := nonZeroVersion || negb (rootVM v =? 0) in
      _ ← fail_if (negb ((rootVM v =? 0) || (rootVM v =? 1))) 100 "bad-tx-version-rootvm"%string;
      _ ← fail_if (negb (vmVersion v =? 0)) 100 "bad-tx-version-vmversion"%string;
      _ ← fail_if (negb (flagOptions v =? 0)) 100 "bad-tx-version-flags"%string;
      _ ← fail_if ((at_gas qtx <? MINIMUM_GAS_LIMIT) && negb (rootVM v =? 0)) 100 "bad-tx-too-little-gas"%string;
      _ ← fail_if (UINT32_MAX <? at_gas qtx) 100 "bad-tx-too-much-gas"%string;
      let gasAllTxs := u256 (gasAllTxs + at_gas qtx) in
      _ ← fail_if (blockGasLimit <? gasAllTxs) 1 "bad-txns-gas-exceeds-blockgaslimit"%string;
      _ ← fail_if (negb (rootVM v =? 0) && (u64 (at_gasPrice qtx) <? minGasPrice)) 100 "bad-tx-low-gas-price"%string;
      check_gas txs nTxFee blockGasLimit minGasPrice sumGas gasAllTxs nonZeroVersion
  end.

(** *** [ByteCodeExec] *)

Record EnvInfo : Type := mk_EnvInfo {
  env_number : Z; env_timestamp : Z; env_difficulty : Z; env_lastHashes : list uint256; env_gasLimit : Z; env_author : Address }.

Section Run.
Context (C : Crypto) {A : Type} (ops : AccountOps A).
Context (prepare : ArtaxTransaction -> A -> A) (executive : EnvInfo -> ArtaxTransaction -> A -> list Address -> vm_run A).
Context (create_with_value nFixUTXOCacheHFHeight : Z) (removeEmptyAccounts : EnvInfo -> bool).

(** The hashes of the tip and its predecessors; the rest of the 256 are zero. *)
Fixpoint last_hashes (n : nat) (m : BlockMap) (tip : option ptr) : list uint256 :=
  match n, tip ≫= fun p => m !! p with
  | S n, Some b => default uint256_SetNull (phashBlock b) :: last_hashes n m (pprev b)
  | n, _ => repeat uint256_SetNull n
  end.

(** [None]: no tip, or an output that is not there. *)
Definition BuildEVMEnvironment (m : BlockMap) (tip : ptr) (block : CBlock) (blockGasLimit : Z) : option EnvInfo :=
  b ← m !! tip;
  o ← (if header_IsProofOfStake block then tx ← vtx block !! 1%nat; vout (tx_fields tx) !! 1%nat
       else tx ← vtx block !! 0%nat; vout (tx_fields tx) !! 0%nat);
  author ← EthAddrFromScript C (scriptPubKey o);
  Some (mk_EnvInfo (nHeight b + 1) (nTime block) (nBits block) (last_hashes 256 m (Some tip)) blockGasLimit author).

(** The results and whether true is returned; on [true] the databases are written and the set of
    addresses is cleared.  [height] is that of the active chain. *)
Fixpoint perform (env : EnvInfo) (height : Z) (committed : bool) (txs : list ArtaxTransaction) (s : exec_state)
  : option (bool * list ResultExecute * exec_state) :=
  match txs with
  | [] => Some (true, [], mk_exec_state (es_utxo s) (es_accounts s) [])
  | t :: txs =>
      if negb (toRaw (getVersion t) =? toRaw GetEVMDefault) then Some (false, [], s)
      else
        '(r, s) ←
          match receiveAddress t with
          | Some a =>
              if negb (acc_inUse ops (es_accounts s) a)
              then Some (mk_ResultExecute (mk_ExecutionResult 0 TransactionException_Unknown) (empty_CTransaction C), s)
              else execute C ops prepare (executive env) create_with_value (env_author env) height nFixUTXOCacheHFHeight (removeEmptyAccounts env) t committed s
          | None => execute C ops prepare (executive env) create_with_value (env_author env) height nFixUTXOCacheHFHeight (removeEmptyAccounts env) t committed s
          end;
        '(ok, rs, s) ← perform env height committed txs s;
        Some (ok, r :: rs, s)
  end.
Definition performByteCode (m : BlockMap) (tip : ptr) (block : CBlock) (blockGasLimit : Z) (committed : bool) (txs : list ArtaxTransaction) (s : exec_state)
  : option (bool * list ResultExecute * exec_state) :=
  tip_ ← m !! tip;
  env ← BuildEVMEnvironment m tip block blockGasLimit;
  perform env (nHeight tip_) committed txs s.
End Run.

Record ByteCodeExecResult : Type := mk_ByteCodeExecResult {
  usedGas : Z; refundSender : CAmount; refundOutputs : list CTxOut; valueTransfers : list CTransaction }.
Definition ByteCodeExecResult_new : ByteCodeExecResult := mk_ByteCodeExecResult 0 0 [] [].

Section Results.
Context (C : Crypto).

(** The transaction that returns the value of a call that failed *)
Definition return_value (t : ArtaxTransaction) : CTransaction :=
  MakeTransaction C (mk_tx [vin_input (mk_Vin (getHashWith t) (getNVout t) (at_value t) 1)]
                           [mk_CTxOut (i64 (at_value t)) (p2pkh (sender t))] CURRENT_VERSION 0).

(** One turn of the loop; [None] is [return false]. *)
Definition process_result (res : ByteCodeExecResult) (t : ArtaxTransaction) (r : ResultExecute) : option ByteCodeExecResult :=
  let used := u64 (gasUsed (execRes r)) in
  let tail_ (res : ByteCodeExecResult) :=
    if base_blob_eq (GetHash (re_tx r)) (GetHash (empty_CTransaction C)) then res
    else mk_ByteCodeExecResult (usedGas res) (refundSender res) (refundOutputs res) (valueTransfers res ++ [re_tx r]) in
  if negb (excepted (execRes r) =? TransactionException_None) then
    Some (tail_ (mk_ByteCodeExecResult (u64 (usedGas res + used)) (refundSender res) (refundOutputs res)
                   (if 0 <? at_value t then valueTransfers res ++ [return_value t] else valueTransfers res)))
  else if (UINT64_MAX <? at_gas t) || (UINT64_MAX <? gasUsed (execRes r)) || (UINT64_MAX <? at_gasPrice t) then None
  else
    let amount := i64 (u64 (u64 (at_gas t - used) * at_gasPrice t)) in
    if amount <? 0 then None
    else
      Some (tail_ (if 0 <? amount
                   then mk_ByteCodeExecResult (u64 (usedGas res + used)) (i64 (refundSender res + amount))
                          (refundOutputs res ++ [mk_CTxOut amount (p2pkh (sender t))]) (valueTransfers res)
                   else mk_ByteCodeExecResult (u64 (usedGas res + used)) (refundSender res) (refundOutputs res) (valueTransfers res))).

Fixpoint processingResults (txs : list ArtaxTransaction) (rs : list ResultExecute) (res : ByteCodeExecResult) : option ByteCodeExecResult :=
  match txs, rs with
  | t :: txs, r :: rs => res ← process_result res t r; processingResults txs rs res
  | _, [] => Some res
  | [], _ => None
  end.
End Results.

(** ** Theorems *)

(** *** Parameters written into a script *)

Lemma serialize_word n : 0 <= n < 2 ^ 63 -> are_bytes (serialize n) /\ vch_to_uint64 (serialize n) = Ok n /\ (n < 2 ^ 31 -> vsize (serialize n) <= 4).
Proof.
  intros Hn. destruct (Z.eq_dec n 0) as [-> | Hz]; [split; [by constructor | ]; by split | ].
  destruct (serialize_form n Hz) as (k & Hk & -> & Hlt & Hneed); [lia | ]. rewrite Z.abs_eq in * by lia.
  rewrite (proj2 (Z.ltb_ge n 0)) by lia. destruct (back_sign_mag k false n) as [Ht Hb]; [lia | ].
  assert (sign_mag (S k) false n = n) as Es by (unfold sign_mag; lia). rewrite Es in *.
  assert (are_bytes (le_encode (S k) n)) as Hbytes by apply le_encode_bytes.
  split; [done | ]. split.
  - apply vch_to_uint64_ok; [done | ]. unfold gas_word. unfold vsize. rewrite le_encode_length. split; [lia | ]. split; [right; lia | ].
    rewrite le_decode_encode. apply Z.mod_small. split; [lia | ]. etransitivity; [exact Hlt | ]. apply Z.pow_lt_mono_r; lia.
  - intros Hsmall. unfold vsize. rewrite le_encode_length. unfold needs_bytes in Hneed.
    destruct (Nat.le_gt_cases (S k) 4) as [ | Hbig]; [lia | ]. exfalso. destruct k as [ | k]; [lia | ].
    assert (2 ^ 31 <= 2 ^ (8 * Z.of_nat (S k) - 1)) by (apply Z.pow_le_mono_r; lia). lia.
Qed.

Lemma push_data_longer b : vsize b <= vsize (push_data b).
Proof. unfold push_data. rewrite vsize_app. pose proof (fun l : bytes => vsize_nonneg l) as H. match goal with |- _ <= vsize ?l + _ => specialize (H l) end. lia. Qed.

(** Pushes and one opcode: what [createcontract] and [sendtocontract] write *)
Definition contract_script (parts : list bytes) (op : opcodetype) : CScript := flat_map push_data parts ++ [op].

Lemma eval_pushes C checker flags sv parts rest s : has flags SCRIPT_VERIFY_MINIMALDATA = false ->
  Forall (fun b => vsize b <= MAX_SCRIPT_ELEMENT_SIZE) parts -> vsize (flat_map push_data parts ++ rest) < 2 ^ 32 ->
  vfExec s = [] -> vsize parts + vsize (stack s) + vsize (altstack s) <= MAX_STACK_SIZE ->
  exists s', eval_loop C checker (length (flat_map push_data parts ++ rest)) flags sv (flat_map push_data parts ++ rest) s =
    eval_loop C checker (length rest) flags sv rest s' /\ stack s' = rev parts ++ stack s /\ vfExec s' = [] /\ nOpCount s' = nOpCount s.
Proof.
  intros Hf Hp. revert s. induction Hp as [ | b parts Hb Hp IH]; intros s Hl Hv Hs; [by exists s | ].
  cbn [flat_map] in *. rewrite <- app_assoc in *. rewrite vsize_cons in Hs. pose proof (vsize_nonneg parts). pose proof (vsize_nonneg (stack s)).
  assert (vsize (flat_map push_data parts ++ rest) < 2 ^ 32) as Hl' by (rewrite vsize_app in Hl; pose proof (vsize_nonneg (push_data b)); lia).
  erewrite eval_loop_step; [ | apply GetScriptOp_push | by apply exec_push_flags | ].
  - destruct (IH (with_stack s (b :: stack s))) as (s' & -> & Es & Ev & En); [done | done | cbn [with_stack stack altstack]; rewrite vsize_cons; lia | ].
    exists s'. split; [done | ]. rewrite Es. cbn [with_stack stack rev]. by rewrite <- app_assoc.
  - rewrite vsize_app in Hl |- *. pose proof (push_data_longer b). lia.
  - cbn [with_stack stack altstack]. rewrite vsize_cons. lia.
Qed.

Lemma eval_contract_script C checker parts op st : op = OP_CREATE \/ op = OP_CALL ->
  Forall (fun b => vsize b <= MAX_SCRIPT_ELEMENT_SIZE) parts -> vsize (contract_script parts op) <= MAX_SCRIPT_SIZE ->
  vsize parts + vsize st <= MAX_STACK_SIZE ->
  EvalScript C checker st (contract_script parts op) SCRIPT_EXEC_BYTE_CODE BASE = EvalTrue ([op] :: rev parts ++ st) SCRIPT_ERR_UNKNOWN_ERROR.
Proof.
  intros Hop Hp Hl Hs. unfold EvalScript. destruct (Z.ltb_spec MAX_SCRIPT_SIZE (vsize (contract_script parts op))); [lia | ].
  unfold contract_script in *. unfold MAX_SCRIPT_SIZE in *.
  destruct (eval_pushes C checker SCRIPT_EXEC_BYTE_CODE BASE parts [op] (mk_estate st [] [] (flat_map push_data parts ++ [op]) 0))
    as (s' & -> & Es & Ev & En); [reflexivity | done | lia | done | cbn [stack altstack]; rewrite vsize_nil; lia | ].
  cbn [stack nOpCount] in *. cbn [length eval_loop]. rewrite GetScriptOp_op by (destruct Hop as [-> | ->]; unop; lia).
  unfold exec_instruction. rewrite Ev. rewrite vsize_nil. change (MAX_SCRIPT_ELEMENT_SIZE <? 0) with false. cbv iota.
  rewrite <- Es. destruct Hop as [-> | ->]; cbn -[stack]; rewrite En; reflexivity.
Qed.

Lemma parse_params_spec limit price code raw a st :
  0 <= limit <= INT64_MAX -> 0 <= price <= INT64_MAX -> (price = 0 \/ limit <= INT64_MAX / price) -> 1 <= vsize code -> 0 <= raw < 2 ^ 31 ->
  parse_params a (code :: serialize price :: serialize limit :: serialize raw :: st) =
    Some (mk_EthTransactionParams (fromRaw raw) limit price code a, st).
Proof.
  unfold INT64_MAX. intros Hl Hp Hm Hc Hraw. unfold parse_params, INT64_MAX.
  destruct (serialize_word limit ltac:(lia)) as (_ & -> & _), (serialize_word price ltac:(lia)) as (_ & -> & _),
    (serialize_word raw ltac:(lia)) as (_ & -> & H4). specialize (H4 ltac:(lia)).
  destruct (Z.ltb_spec (vsize code) 1); [lia | ]. rewrite (proj2 (Z.ltb_ge (2 ^ 63 - 1) price)), (proj2 (Z.ltb_ge (2 ^ 63 - 1) limit)) by lia. cbn [orb].
  assert (negb (price =? 0) && ((2 ^ 63 - 1) / price <? limit) = false) as ->.
  { destruct Hm as [-> | Hm]; [done | ]. by rewrite (proj2 (Z.ltb_ge _ _) Hm), andb_false_r. }
  destruct (Z.ltb_spec 4 (vsize (serialize raw))); [lia | ]. by rewrite u32_id by lia.
Qed.

(** The parameters of a contract survive the way through a script: the version, the gas
    limit, the gas price, the code or call data and the address pushed before [OP_CALL] (or all
    but the address before [OP_CREATE]) are what the converter reads back from the stack the
    script leaves, whatever was on the stack before, provided the gas bought can be expressed as
    an amount; and the converter then has the stack it had. *)
Theorem contract_parameters_round_trip C raw limit price code addr st :
  0 <= raw < 2 ^ 31 -> 0 <= limit <= INT64_MAX -> 0 <= price <= INT64_MAX -> (price = 0 \/ limit <= INT64_MAX / price) ->
  1 <= vsize code <= MAX_SCRIPT_ELEMENT_SIZE -> vsize addr = 20 -> vsize st <= MAX_STACK_SIZE - 5 ->
  let create := contract_script [serialize raw; serialize limit; serialize price; code] OP_CREATE in
  let call := contract_script [serialize raw; serialize limit; serialize price; code; addr] OP_CALL in
  vsize call <= MAX_SCRIPT_SIZE ->
  ('(ok, op, stack) ← receiveStack C st create; if (ok : bool) then parseEthTXParams op stack else None) =
    Some (mk_EthTransactionParams (fromRaw raw) limit price code null_Address, st) /\
  ('(ok, op, stack) ← receiveStack C st call; if (ok : bool) then parseEthTXParams op stack else None) =
    Some (mk_EthTransactionParams (fromRaw raw) limit price code addr, st).
Proof.
  intros Hraw Hl Hp Hm Hc Ha Hst create call Hsize. pose proof (vsize_nonneg st).
  assert (forall n, 0 <= n < 2 ^ 63 -> vsize (serialize n) <= MAX_SCRIPT_ELEMENT_SIZE) as Hw.
  { intros n Hn. destruct (serialize_word n Hn) as (Hb & E & _). apply vch_to_uint64_ok in E as [E _]; [ | done]. unfold MAX_SCRIPT_ELEMENT_SIZE. lia. }
  unfold INT64_MAX in *. pose proof (Hw raw ltac:(lia)). pose proof (Hw limit ltac:(lia)). pose proof (Hw price ltac:(lia)).
  assert (vsize create <= MAX_SCRIPT_SIZE) as Hsize'.
  { etransitivity; [ | exact Hsize]. unfold create, call, contract_script. rewrite !vsize_app. cbn [flat_map]. rewrite !vsize_app.
    pose proof (vsize_nonneg (push_data addr)). rewrite !vsize_cons, !vsize_nil. lia. }
  assert (vsize addr <= MAX_SCRIPT_ELEMENT_SIZE) by (unfold MAX_SCRIPT_ELEMENT_SIZE; lia).
  unfold receiveStack, create, call. unfold MAX_STACK_SIZE in *. split.
  - rewrite eval_contract_script; [ | by left | repeat constructor; lia | done | rewrite !vsize_cons, vsize_nil; unfold MAX_STACK_SIZE; lia].
    cbn [rev app head mbind option_bind]. rewrite !vsize_cons. rewrite (proj2 (Z.ltb_ge (1 + (1 + (1 + (1 + vsize st)))) 4)) by lia.
    change (OP_CREATE =? OP_CALL) with false. rewrite andb_false_r. cbn [orb andb]. unfold parseEthTXParams. apply parse_params_spec; unfold INT64_MAX; lia || done.
  - rewrite eval_contract_script; [ | by right | repeat constructor; lia | done | rewrite !vsize_cons, vsize_nil; unfold MAX_STACK_SIZE; lia].
    cbn [rev app head mbind option_bind]. rewrite !vsize_cons. rewrite (proj2 (Z.ltb_ge (1 + (1 + (1 + (1 + (1 + vsize st))))) 5)) by lia.
    change (OP_CALL =? OP_CREATE) with false. rewrite andb_false_r. cbn [orb andb mbind option_bind]. unfold parseEthTXParams. change (OP_CALL =? OP_CALL) with true. cbv iota.
    unfold to_Address. rewrite Ha. change (20 =? 20) with true. cbv iota. apply parse_params_spec; unfold INT64_MAX; lia || done.
Qed.

Lemma contract_parameters_round_trip_witness :
  ('(ok, op, stack) ← receiveStack toy_crypto [] (contract_script [serialize 4; serialize 250000; serialize 40; [1; 2]; addr 7] OP_CALL);
   if (ok : bool) then parseEthTXParams op stack else None) = Some (mk_EthTransactionParams GetEVMDefault 250000 40 [1; 2] (addr 7), []).
Proof.
  refine (proj2 (contract_parameters_round_trip toy_crypto 4 250000 40 [1; 2] (addr 7) [] _ _ _ _ _ _ _ _)).
  - lia.
  - unfold INT64_MAX. lia.
  - unfold INT64_MAX. lia.
  - right. vm_compute. discriminate.
  - split; vm_compute; discriminate.
  - reflexivity.
  - vm_compute. discriminate.
  - vm_compute. discriminate.
Defined.

(** *** Gas *)

Definition bought (txs : list ArtaxTransaction) : Z := zsum ((fun t => at_gas t * at_gasPrice t) <$> txs).
(** What a call that ended with [r] pays for: all its gas if it failed *)
Definition charged (t : ArtaxTransaction) (r : ResultExecute) : Z :=
  (if excepted (execRes r) =? TransactionException_None then gasUsed (execRes r) else at_gas t) * at_gasPrice t.
Definition charges (txs : list ArtaxTransaction) (rs : list ResultExecute) : Z := zsum (zip_with charged txs rs).
(** As [parseEthTXParams] leaves them *)
Definition gas_ok (t : ArtaxTransaction) : Prop := 0 <= at_gas t <= INT64_MAX /\ 0 <= at_gasPrice t <= INT64_MAX.

Lemma zsum_cons x l : zsum (x :: l) = x + zsum l.
Proof. done. Qed.

Lemma fail_if_bind_ok {A} b level reason (k : checks A) a : (_ ← fail_if b level reason; k) = Ok a -> b = false /\ k = Ok a.
Proof. unfold fail_if. destruct b; done. Qed.
(** Every check that was passed *)
Ltac passed H := repeat (apply fail_if_bind_ok in H; let E := fresh "Hcheck" in destruct H as [E H]).

Lemma check_gas_spec txs fee limit minPrice sum all nz nz' : Forall gas_ok txs -> 0 <= fee < 2 ^ 63 -> 0 <= sum <= fee -> 0 <= limit < 2 ^ 64 -> 0 <= all <= limit ->
  check_gas txs fee limit minPrice sum all nz = Ok nz' ->
  sum + bought txs <= fee /\ all + zsum (at_gas <$> txs) <= limit /\ Forall (fun t => at_gas t <= UINT32_MAX) txs.
Proof.
  intros Hok Hfee. revert sum all nz. induction Hok as [ | t txs [Hg Hp] Hok IH]; intros sum all nz Hs Hlim Ha; cbn [check_gas].
  { intros _. unfold bought. cbn. split; [lia | ]. split; [lia | constructor]. }
  unfold INT64_MAX in Hg, Hp. rewrite (u256_id (at_gas t * at_gasPrice t)) by nia. rewrite (u256_id (sum + at_gas t * at_gasPrice t)) by nia. rewrite (u256_id fee), (u256_id (all + at_gas t)) by lia.
  intros E. passed E. rewrite !Z.ltb_ge in *. apply IH in E as (H1 & H2 & H3); [ | nia | done | lia].
  unfold bought in *. rewrite !fmap_cons, !zsum_cons. split; [lia | ]. split; [lia | by constructor].
Qed.

Lemma process_result_spec C res t r : gas_ok t -> 0 <= gasUsed (execRes r) <= at_gas t -> at_gas t <= UINT32_MAX -> at_gas t * at_gasPrice t < 2 ^ 63 ->
  0 <= usedGas res -> usedGas res + gasUsed (execRes r) < 2 ^ 64 -> 0 <= refundSender res -> refundSender res + at_gas t * at_gasPrice t < 2 ^ 63 ->
  exists res', process_result C res t r = Some res' /\ usedGas res' = usedGas res + gasUsed (execRes r) /\
    refundSender res' = refundSender res + (at_gas t * at_gasPrice t - charged t r) /\
    total_out (refundOutputs res') = total_out (refundOutputs res) + (at_gas t * at_gasPrice t - charged t r).
Proof.
  intros [Hg Hp] Hu Hsmall Hprod Hug Hug' Hr Hr'. unfold process_result, charged, INT64_MAX, UINT32_MAX, UINT64_MAX in *.
  rewrite (u64_id (gasUsed (execRes r))), (u64_id (usedGas res + gasUsed (execRes r))) by lia.
  destruct (Z.eqb_spec (excepted (execRes r)) TransactionException_None) as [Ee | Ee]; cbn [negb].
  - rewrite (proj2 (Z.ltb_ge (2 ^ 64 - 1) (at_gas t))), (proj2 (Z.ltb_ge (2 ^ 64 - 1) (gasUsed (execRes r)))), (proj2 (Z.ltb_ge (2 ^ 64 - 1) (at_gasPrice t))) by lia. cbn [orb].
    assert (0 <= (at_gas t - gasUsed (execRes r)) * at_gasPrice t <= at_gas t * at_gasPrice t) as Hm by nia.
    rewrite (u64_id (at_gas t - gasUsed (execRes r))), u64_id, i64_id by lia.
    set (amount := (at_gas t - gasUsed (execRes r)) * at_gasPrice t) in *.
    assert (at_gas t * at_gasPrice t - gasUsed (execRes r) * at_gasPrice t = amount) as -> by lia.
    destruct (Z.ltb_spec amount 0); [lia | ].
    destruct (Z.ltb_spec 0 amount) as [Hpos | Hz]; eexists; (split; [reflexivity | ]); destruct (base_blob_eq _ _); cbn [usedGas refundSender refundOutputs];
      rewrite ?i64_id, ?total_out_app by lia; split_and!; try lia; cbn [total_out foldr nValue]; lia.
  - eexists. split; [reflexivity | ]. destruct (base_blob_eq _ _); cbn [usedGas refundSender refundOutputs]; split_and!; lia.
Qed.

Lemma processing_spec C txs rs res : Forall gas_ok txs -> Forall (fun t => at_gas t <= UINT32_MAX) txs ->
  Forall2 (fun t r => 0 <= gasUsed (execRes r) <= at_gas t) txs rs ->
  0 <= usedGas res -> usedGas res + zsum (at_gas <$> txs) < 2 ^ 64 -> 0 <= refundSender res -> refundSender res + bought txs < 2 ^ 63 ->
  exists res', processingResults C txs rs res = Some res' /\
    usedGas res' = usedGas res + zsum ((fun r => gasUsed (execRes r)) <$> rs) /\
    refundSender res' = refundSender res + (bought txs - charges txs rs) /\
    total_out (refundOutputs res') = total_out (refundOutputs res) + (bought txs - charges txs rs).
Proof.
  intros Hok Hsmall H2. revert res Hok Hsmall.
  assert (forall l, Forall gas_ok l -> 0 <= zsum (at_gas <$> l) /\ 0 <= bought l) as Hpos.
  { induction 1 as [ | t l [Hg Hp] _ IH]; [done | ]. unfold bought in *. rewrite !fmap_cons, !zsum_cons. nia. }
  induction H2 as [ | t r txs rs Hu H2 IH]; intros res Hok Hsmall Hu0 Hu1 Hr0 Hr1; cbn [processingResults].
  { exists res. unfold bought, charges. cbn. split_and!; done || lia. }
  apply Forall_cons in Hok as [Hg Hok]. apply Forall_cons in Hsmall as [Hs Hsmall]. destruct (Hpos _ Hok) as [Hp1 Hp2].
  unfold bought, charges in *. cbn [zip_with]. rewrite !fmap_cons, !zsum_cons in *. destruct Hg as [Hg Hp].
  destruct (process_result_spec C res t r) as (res1 & -> & E1 & E2 & E3); [done | done | done | nia | done | nia | done | nia | ].
  assert (0 <= charged t r <= at_gas t * at_gasPrice t) as Hc by (unfold charged; destruct (_ =? _); nia). cbn [mbind option_bind].
  destruct (IH res1 Hok Hsmall) as (res' & -> & F1 & F2 & F3); [lia | lia | lia | lia | ]. exists res'. split; [done | ]. split_and!; lia.
Qed.

(** Gas is paid for: if the calls of a transaction pass the checks against its fee and none
    uses more gas than it bought, then processing the results succeeds; the refund outputs sum to
    the refund reported; refund and charges (the gas used by calls that succeeded and all the gas
    of calls that failed, at their prices) are exactly the gas bought, which the fee covers, so
    the block keeps what was charged; and the gas used is within the block's limit. *)
Theorem gas_is_paid_for C txs rs fee limit minPrice nz : Forall gas_ok txs -> 0 <= fee < 2 ^ 63 -> 0 <= limit < 2 ^ 64 ->
  check_gas txs fee limit minPrice 0 0 false = Ok nz -> Forall2 (fun t r => 0 <= gasUsed (execRes r) <= at_gas t) txs rs ->
  exists res, processingResults C txs rs ByteCodeExecResult_new = Some res /\
    total_out (refundOutputs res) = refundSender res /\ refundSender res + charges txs rs = bought txs /\ bought txs <= fee /\
    usedGas res = zsum ((fun r => gasUsed (execRes r)) <$> rs) /\ usedGas res <= limit.
Proof.
  intros Hok Hfee Hlim E H2. destruct (check_gas_spec txs fee limit minPrice 0 0 false nz Hok) as (Hb & Ha & Hs); [lia.. | done | ].
  destruct (processing_spec C txs rs ByteCodeExecResult_new Hok Hs H2) as (res & E' & F1 & F2 & F3); cbn [usedGas refundSender refundOutputs ByteCodeExecResult_new] in *; try lia.
  exists res. split; [done | ]. unfold total_out at 2 in F3. cbn [foldr] in F3. split_and!; try lia.
  rewrite F1. assert (zsum ((fun r => gasUsed (execRes r)) <$> rs) <= zsum (at_gas <$> txs)); [ | lia].
  clear -H2. induction H2 as [ | t r txs rs Hu _ IH]; [done | ]. rewrite !fmap_cons, !zsum_cons. lia.
Qed.

Lemma gas_is_paid_for_witness : exists res,
  processingResults toy_crypto [sample_call 0] [mk_ResultExecute (mk_ExecutionResult 60000 0) (empty_CTransaction toy_crypto)] ByteCodeExecResult_new = Some res /\
  refundSender res = 1600000.
Proof.
  destruct (gas_is_paid_for toy_crypto [sample_call 0] [mk_ResultExecute (mk_ExecutionResult 60000 0) (empty_CTransaction toy_crypto)]
    5000000 40000000 40 true) as (res & E & _ & Hr & _).
  - repeat constructor; vm_compute; discriminate.
  - lia.
  - lia.
  - vm_compute. reflexivity.
  - repeat constructor; vm_compute; discriminate.
  - exists res. split; [exact E | ]. change (bought _) with 4000000 in Hr. change (charges _ _) with 2400000 in Hr. lia.
Defined.
