(* ===== verification/Activation.v ===== *)
(** * Choosing and activating the best chain ([CChainState] of [src/validation.cpp])

    The candidates for the tip, ordered by work; blocks whose data has come before that of their
    predecessors; finding the candidate with the most work whose chain is usable; disconnecting
    and connecting blocks until it is active; and the operator's commands that mark blocks as
    invalid, reconsider them or prefer them.

    Connecting and disconnecting a block on the coins and the contract state is a parameter here:
    it may succeed, find the block invalid, or fail for reasons of the system ([NodeOps.v] gives the
    operations of the node and shows that they obey [ops_ok]).  Not modelled: the memory pool and
    the notifications that accompany these steps, and the pruning of the index that
    [FlushStateToDisk] may do ([BlockFiles.v] models it by itself).

    Theorems: after every operation the candidates hold every block that could become the tip; no
    assertion fails; the search for the best chain ends, and what it leaves is the best chain. *)

From S2P Require Import Prelude Serialize ArithUint256 Script Interpreter Transaction Block Chain.
From stdpp Require Import gmap sorting.
Open Scope Z_scope.

(** ** Definitions *)

Definition set_nSequenceId (b : CBlockIndex) (v : Z) : CBlockIndex :=
  let 'mk_CBlockIndex a1 a2 a3 a4 a5 a6 a7 a8 a9 a10 a11 a12 a13 a14 a15 a16 a17 a18 a19 a20 a21 a22 a23 a24 _ a26 := b in
  mk_CBlockIndex a1 a2 a3 a4 a5 a6 a7 a8 a9 a10 a11 a12 a13 a14 a15 a16 a17 a18 a19 a20 a21 a22 a23 a24 v a26.
Definition set_nChainTx (b : CBlockIndex) (v : Z) : CBlockIndex :=
  let 'mk_CBlockIndex a1 a2 a3 a4 a5 a6 a7 a8 a9 a10 _ a12 a13 a14 a15 a16 a17 a18 a19 a20 a21 a22 a23 a24 a25 a26 := b in
  mk_CBlockIndex a1 a2 a3 a4 a5 a6 a7 a8 a9 a10 v a12 a13 a14 a15 a16 a17 a18 a19 a20 a21 a22 a23 a24 a25 a26.
(** [nTx], [nFile], [nDataPos] and [nUndoPos] *)
Definition set_data (b : CBlockIndex) (tx file data undo : Z) : CBlockIndex :=
  let 'mk_CBlockIndex a1 a2 a3 a4 a5 _ _ _ a9 _ a11 a12 a13 a14 a15 a16 a17 a18 a19 a20 a21 a22 a23 a24 a25 a26 := b in
  mk_CBlockIndex a1 a2 a3 a4 a5 file data undo a9 tx a11 a12 a13 a14 a15 a16 a17 a18 a19 a20 a21 a22 a23 a24 a25 a26.

Abbreviation CChain := (list (option (list Z))).

Record CChainState : Type := mk_CChainState {
  cs_index : ChainState;                      (* mapBlockIndex, setStakeSeen, pindexBestHeader, setDirtyBlockIndex *)
  chainActive : CChain;
  setBlockIndexCandidates : gset (list Z);
  mapBlocksUnlinked : list (option (list Z) * list Z);  (* pairs of one key in the order of insertion *)
  m_failed_blocks : gset (list Z);
  pindexBestInvalid : option ptr;
  nBlockSequenceId : Z;
  nBlockReverseSequenceId : Z;
  nLastPreciousChainwork : base_uint }.

Definition cs_map (st : CChainState) : BlockMap := mapBlockIndex (cs_index st).

(** Assignments to the parts of the state *)
Definition set_index (st : CChainState) (i : ChainState) : CChainState :=
  mk_CChainState i (chainActive st) (setBlockIndexCandidates st) (mapBlocksUnlinked st) (m_failed_blocks st) (pindexBestInvalid st)
    (nBlockSequenceId st) (nBlockReverseSequenceId st) (nLastPreciousChainwork st).
Definition set_active (st : CChainState) (v : CChain) : CChainState :=
  mk_CChainState (cs_index st) v (setBlockIndexCandidates st) (mapBlocksUnlinked st) (m_failed_blocks st) (pindexBestInvalid st)
    (nBlockSequenceId st) (nBlockReverseSequenceId st) (nLastPreciousChainwork st).
Definition set_candidates (st : CChainState) (c : gset (list Z)) : CChainState :=
  mk_CChainState (cs_index st) (chainActive st) c (mapBlocksUnlinked st) (m_failed_blocks st) (pindexBestInvalid st)
    (nBlockSequenceId st) (nBlockReverseSequenceId st) (nLastPreciousChainwork st).
Definition set_unlinked (st : CChainState) (u : list (option (list Z) * list Z)) : CChainState :=
  mk_CChainState (cs_index st) (chainActive st) (setBlockIndexCandidates st) u (m_failed_blocks st) (pindexBestInvalid st)
    (nBlockSequenceId st) (nBlockReverseSequenceId st) (nLastPreciousChainwork st).
Definition set_failed (st : CChainState) (f : gset (list Z)) : CChainState :=
  mk_CChainState (cs_index st) (chainActive st) (setBlockIndexCandidates st) (mapBlocksUnlinked st) f (pindexBestInvalid st)
    (nBlockSequenceId st) (nBlockReverseSequenceId st) (nLastPreciousChainwork st).
Definition set_best_invalid (st : CChainState) (p : option ptr) : CChainState :=
  mk_CChainState (cs_index st) (chainActive st) (setBlockIndexCandidates st) (mapBlocksUnlinked st) (m_failed_blocks st) p
    (nBlockSequenceId st) (nBlockReverseSequenceId st) (nLastPreciousChainwork st).
Definition set_sequence (st : CChainState) (seq rev_seq : Z) (work : base_uint) : CChainState :=
  mk_CChainState (cs_index st) (chainActive st) (setBlockIndexCandidates st) (mapBlocksUnlinked st) (m_failed_blocks st) (pindexBestInvalid st)
    seq rev_seq work.

Definition set_entry (st : CChainState) (p : ptr) (b : CBlockIndex) : CChainState :=
  let i := cs_index st in
  set_index st (mk_ChainState (<[p := b]> (mapBlockIndex i)) (setStakeSeen i) (pindexBestHeader i) (setDirtyBlockIndex i)).
Definition set_dirty (st : CChainState) (p : ptr) : CChainState :=
  let i := cs_index st in
  set_index st (mk_ChainState (mapBlockIndex i) (setStakeSeen i) (pindexBestHeader i) ({[p]} ∪ setDirtyBlockIndex i)).
Definition insert_candidate (st : CChainState) (p : ptr) : CChainState := set_candidates st ({[p]} ∪ setBlockIndexCandidates st).
Definition erase_candidate (st : CChainState) (p : ptr) : CChainState := set_candidates st (setBlockIndexCandidates st ∖ {[p]}).
(** [p->nStatus |= flag] *)
Definition add_status (st : CChainState) (p : ptr) (flag : Z) : option CChainState :=
  b ← cs_map st !! p; Some (set_entry st p (set_nStatus b (Z.lor (nStatus b) flag))).

Definition has (b : CBlockIndex) (flag : Z) : bool := negb (Z.land (nStatus b) flag =? 0).

(** *** Order by work *)

Section Order.
(** The addresses of the entries *)
Context (addr : ptr -> Z).

Definition worse_entry (pa pb : ptr) (a b : CBlockIndex) : bool :=
  if ltb (nChainWork b) (nChainWork a) then false
  else if ltb (nChainWork a) (nChainWork b) then true
  else if nSequenceId a <? nSequenceId b then false
  else if nSequenceId b <? nSequenceId a then true
  else if addr pa <? addr pb then false
  else addr pb <? addr pa.

(** [CBlockIndexWorkComparator()(pa, pb)]; [None]: a null pointer *)
Definition worse (m : BlockMap) (pa : ptr) (pb : option ptr) : option bool :=
  pb ← pb; a ← m !! pa; b ← m !! pb; Some (worse_entry pa pb a b).

(** The last element of the set in its order.  The keys of its elements change only while they are
    not in it. *)
Definition better_of (m : BlockMap) (acc : option ptr) (p : ptr) : option ptr :=
  match acc with
  | None => Some p
  | Some q => match worse m q (Some p) with Some true => Some p | _ => Some q end
  end.
Definition best_candidate (st : CChainState) : option ptr := foldl (better_of (cs_map st)) None (elements (setBlockIndexCandidates st)).

(** *** Blocks whose data has arrived *)

(** Take out the blocks that wait for [p]. *)
Definition waiting (u : list (option ptr * ptr)) (p : ptr) : list ptr := snd <$> filter (fun e => fst e = Some p) u.
Definition not_waiting (u : list (option ptr * ptr)) (p : ptr) : list (option ptr * ptr) := filter (fun e => fst e <> Some p) u.

(** One turn of the loop: [p] is the block at the front of the queue. *)
Definition link_block (st : CChainState) (p : ptr) : option CChainState :=
  b ← cs_map st !! p;
  parentTx ← match pprev b with None => Some 0 | Some q => c ← cs_map st !! q; Some (nChainTx c) end;
  let b := set_nSequenceId (set_nChainTx b (u32 (parentTx + nTx b))) (nBlockSequenceId st) in
  let st := set_entry st p b in
  let st := set_sequence st (nBlockSequenceId st + 1) (nBlockReverseSequenceId st) (nLastPreciousChainwork st) in
  insert ← match Tip (chainActive st) with
           | None => Some true
           | Some t => w ← worse (cs_map st) p (Some t); Some (negb w)
           end;
  let st := if (insert : bool) then insert_candidate st p else st in
  Some (set_unlinked st (not_waiting (mapBlocksUnlinked st) p)).

(** Every turn of the loop links a block for the first time. *)
Fixpoint link_loop (fuel : nat) (st : CChainState) (queue : list ptr) : option CChainState :=
  match queue with
  | [] => Some st
  | p :: queue =>
      match fuel with
      | O => None
      | S fuel =>
          let children := waiting (mapBlocksUnlinked st) p in
          st ← link_block st p;
          link_loop fuel st (queue ++ children)
      end
  end.

Definition ReceivedBlockTransactions (witness_enabled : bool) (st : CChainState) (block : CBlock) (p : ptr) (pos : CDiskBlockPos)
  : option CChainState :=
  b ← cs_map st !! p;
  let b := set_nChainTx (set_data b (u32 (vsize (vtx block))) (fst pos) (snd pos) 0) 0 in
  let b := set_nStatus b (Z.lor (nStatus b) BLOCK_HAVE_DATA) in
  let b := if witness_enabled then set_nStatus b (Z.lor (nStatus b) BLOCK_OPT_WITNESS) else b in
  '(b, _) ← RaiseValidity b BLOCK_VALID_TRANSACTIONS;
  let st := set_dirty (set_entry st p b) p in
  parent ← match pprev b with None => Some None | Some q => c ← cs_map st !! q; Some (Some (q, c)) end;
  match parent with
  | None => link_loop (size (cs_map st)) st [p]
  | Some (q, c) =>
      if negb (nChainTx c =? 0) then link_loop (size (cs_map st)) st [p]
      else
        v ← IsValid c BLOCK_VALID_TREE;
        Some (if (v : bool) then set_unlinked st (mapBlocksUnlinked st ++ [(Some q, p)]) else st)
  end.

(** *** The candidate with the most work *)

(** Walking from a candidate to the active chain: nothing in the way, or the first block that is
    failed ([true]) or whose data is missing.  [None]: the assertion *)
Inductive path_check : Type := PathClear | PathBlocked (pindexTest : ptr) (fFailedChain : bool).
Fixpoint test_path (fuel : nat) (m : BlockMap) (v : CChain) (pindexTest : option ptr) : option path_check :=
  match pindexTest with
  | None => Some PathClear
  | Some p =>
      c ← Contains m v p;
      if (c : bool) then Some PathClear
      else match fuel with
      | O => None
      | S fuel =>
          b ← m !! p;
          if (nChainTx b =? 0) && negb (nHeight b =? 0) then None
          else if has b BLOCK_FAILED_MASK || negb (has b BLOCK_HAVE_DATA) then Some (PathBlocked p (has b BLOCK_FAILED_MASK))
          else test_path fuel m v (pprev b)
      end
  end.

(** [while (pindexTest != pindexFailed)], then the block itself *)
Fixpoint drop_path (fuel : nat) (st : CChainState) (pindexTest pindexFailed : ptr) (fFailedChain : bool) : option CChainState :=
  if decide (pindexTest = pindexFailed) then Some (erase_candidate st pindexTest)
  else match fuel with
  | O => None
  | S fuel =>
      b ← cs_map st !! pindexFailed;
      st ← (if fFailedChain then add_status st pindexFailed BLOCK_FAILED_CHILD
            else Some (set_unlinked st (mapBlocksUnlinked st ++ [(pprev b, pindexFailed)])));
      next ← pprev b;
      drop_path fuel (erase_candidate st pindexFailed) pindexTest next fFailedChain
  end.

Definition path_fuel (m : BlockMap) (p : ptr) : nat := match m !! p with Some b => S (Z.to_nat (nHeight b)) | None => 0 end.

(** [if (!pindexBestInvalid || pindexNew->nChainWork > pindexBestInvalid->nChainWork)] *)
Definition note_invalid (st : CChainState) (pindexNew : ptr) : option CChainState :=
  match pindexBestInvalid st with
  | None => Some (set_best_invalid st (Some pindexNew))
  | Some q => a ← cs_map st !! q; b ← cs_map st !! pindexNew;
      Some (if ltb (nChainWork a) (nChainWork b) then set_best_invalid st (Some pindexNew) else st)
  end.

(** Every turn erases a candidate. *)
Fixpoint FindMostWorkChain_loop (fuel : nat) (st : CChainState) : option (option ptr * CChainState) :=
  match best_candidate st with
  | None => Some (None, st)
  | Some pindexNew =>
      r ← test_path (path_fuel (cs_map st) pindexNew) (cs_map st) (chainActive st) (Some pindexNew);
      match r with
      | PathClear => Some (Some pindexNew, st)
      | PathBlocked pindexTest fFailedChain =>
          match fuel with
          | O => None
          | S fuel =>
              st ← (if fFailedChain then note_invalid st pindexNew else Some st);
              st ← drop_path (path_fuel (cs_map st) pindexNew) st pindexTest pindexNew fFailedChain;
              FindMostWorkChain_loop fuel st
          end
      end
  end.
Definition FindMostWorkChain (st : CChainState) : option (option ptr * CChainState) :=
  FindMostWorkChain_loop (size (setBlockIndexCandidates st)) st.

(** The candidates are deleted from the worst up to the first that is not worse than the tip;
    [None]: no candidate is left. *)
Definition PruneBlockIndexCandidates (st : CChainState) : option CChainState :=
  t ← Tip (chainActive st);
  let c := filter (fun p => worse (cs_map st) p (Some t) <> Some true) (setBlockIndexCandidates st) in
  if decide (c = ∅) then None else Some (set_candidates st c).

(** *** Invalid blocks *)

(** [None]: there is no tip *)
Definition InvalidChainFound (st : CChainState) (pindexNew : ptr) : option CChainState :=
  st ← note_invalid st pindexNew;
  _ ← Tip (chainActive st);
  Some st.

(** When no corruption is possible *)
Definition InvalidBlockFound (st : CChainState) (pindex : ptr) : option CChainState :=
  st ← add_status st pindex BLOCK_FAILED_VALID;
  let st := erase_candidate (set_dirty (set_failed st ({[pindex]} ∪ m_failed_blocks st)) pindex) pindex in
  InvalidChainFound st pindex.

(** *** Steps along a chain *)

(** How connecting a block ends, with the entry of the block as it is left; [BlockInvalid] says
    whether the block could just be corrupted. *)
Inductive connect_outcome (W : Type) : Type :=
| BlockConnected (s : W) (b : CBlockIndex)
| BlockInvalid (s : W) (b : CBlockIndex) (corruptionPossible : bool)
| ConnectFailed (s : W) (b : CBlockIndex).

Inductive FlushStateMode : Type := FLUSH_NONE | FLUSH_IF_NEEDED | FLUSH_PERIODIC | FLUSH_ALWAYS.

(** What the steps do to coins, contract state and files, [W]: connecting a block, which is read
    from disk unless it is given, on a cache that is flushed when it succeeds; disconnecting a
    block, with whether that worked; and [FlushStateToDisk], [None] if it returns false.  An
    assertion that fails in one of them ends the run, as a failure.  [NodeOps.v] has the operations
    built from [ConnectBlock] and [DisconnectBlock]. *)
Record BlockOps (W : Type) : Type := mk_BlockOps {
  op_connect : BlockMap -> CChain -> ptr -> option CBlock -> W -> connect_outcome W;
  op_disconnect : BlockMap -> CChain -> ptr -> W -> bool * W;
  op_flush : FlushStateMode -> W -> option W }.

End Order.
Arguments BlockConnected {W}. Arguments BlockInvalid {W}. Arguments ConnectFailed {W}.
Arguments op_connect {W}. Arguments op_disconnect {W}. Arguments op_flush {W}.

Section Steps.
Context (C : Crypto) (addr : ptr -> Z) {W : Type} (ops : BlockOps W).

Definition DisconnectTip (st : CChainState) (s : W) : option (bool * CChainState * W) :=
  pindexDelete ← Tip (chainActive st);
  b ← cs_map st !! pindexDelete;
  match op_disconnect ops (cs_map st) (chainActive st) pindexDelete s with
  | (false, s) => Some (false, st, s)
  | (true, s) =>
      match op_flush ops FLUSH_IF_NEEDED s with
      | None => Some (false, st, s)
      | Some s => v ← SetTip (cs_map st) (chainActive st) (pprev b); Some (true, set_active st v, s)
      end
  end.

Inductive tip_outcome : Type := TipConnected | TipInvalid (corruptionPossible : bool) | TipFailed.
Definition ConnectTip (st : CChainState) (pindexNew : ptr) (pblock : option CBlock) (s : W) : option (tip_outcome * CChainState * W) :=
  b ← cs_map st !! pindexNew;
  if negb (bool_decide (pprev b = Tip (chainActive st))) then None
  else
    match op_connect ops (cs_map st) (chainActive st) pindexNew pblock s with
    | ConnectFailed s b => Some (TipFailed, set_entry st pindexNew b, s)
    | BlockInvalid s b true => Some (TipInvalid true, set_entry st pindexNew b, s)
    | BlockInvalid s b false => st ← InvalidBlockFound (set_entry st pindexNew b) pindexNew; Some (TipInvalid false, st, s)
    | BlockConnected s b =>
        let st := set_entry st pindexNew b in
        match op_flush ops FLUSH_IF_NEEDED s with
        | None => Some (TipFailed, st, s)
        | Some s => v ← SetTip (cs_map st) (chainActive st) (Some pindexNew); Some (TipConnected, set_active st v, s)
        end
    end.

(** [while (chainActive.Tip() && chainActive.Tip() != pindexFork)] *)
Fixpoint disconnect_to (fuel : nat) (st : CChainState) (pindexFork : option ptr) (s : W) : option (bool * CChainState * W) :=
  if bool_decide (Tip (chainActive st) = None) || bool_decide (Tip (chainActive st) = pindexFork) then Some (true, st, s)
  else match fuel with
  | O => None
  | S fuel =>
      '(ok, st, s) ← DisconnectTip st s;
      if (ok : bool) then disconnect_to fuel st pindexFork s else Some (false, st, s)
  end.

(** [vpindexToConnect]: from [pindexIter] down to the height [nHeight], which is left out *)
Fixpoint blocks_down_to (fuel : nat) (m : BlockMap) (pindexIter : option ptr) (height : Z) : option (list ptr) :=
  match pindexIter with
  | None => Some []
  | Some p =>
      b ← m !! p;
      if nHeight b =? height then Some []
      else match fuel with
      | O => None
      | S fuel => l ← blocks_down_to fuel m (pprev b) height; Some (p :: l)
      end
  end.

(** How the loop over [vpindexToConnect] ends: at its end, at a better tip, at an invalid block, or
    with a failure *)
Inductive batch_outcome : Type := BatchDone | BatchBetter | BatchInvalid | BatchFailed.
(** [toConnect] is in the order in which blocks are connected; [front] is the last of them. *)
Fixpoint connect_batch (st : CChainState) (toConnect : list ptr) (front : option ptr) (pindexMostWork : ptr) (pblock : option CBlock)
    (pindexOldTip : option ptr) (s : W) : option (batch_outcome * CChainState * W) :=
  match toConnect with
  | [] => Some (BatchDone, st, s)
  | p :: toConnect =>
      '(r, st, s) ← ConnectTip st p (if decide (p = pindexMostWork) then pblock else None) s;
      match r with
      | TipFailed => Some (BatchFailed, st, s)
      | TipInvalid corruptionPossible =>
          st ← (if corruptionPossible then Some st else f ← front; InvalidChainFound st f);
          Some (BatchInvalid, st, s)
      | TipConnected =>
          st ← PruneBlockIndexCandidates addr st;
          better ← match pindexOldTip with
                   | None => Some true
                   | Some o => t ← Tip (chainActive st); a ← cs_map st !! t; b ← cs_map st !! o; Some (ltb (nChainWork b) (nChainWork a))
                   end;
          if (better : bool) then Some (BatchBetter, st, s)
          else connect_batch st toConnect front pindexMostWork pblock pindexOldTip s
      end
  end.

(** [while (fContinue && nHeight != pindexMostWork->nHeight)] *)
Fixpoint connect_batches (fuel : nat) (st : CChainState) (height : Z) (pindexMostWork : ptr) (pblock : option CBlock)
    (pindexOldTip : option ptr) (s : W) : option (batch_outcome * CChainState * W) :=
  b ← cs_map st !! pindexMostWork;
  if height =? nHeight b then Some (BatchDone, st, s)
  else match fuel with
  | O => None
  | S fuel =>
      let nTargetHeight := Z.min (height + 32) (nHeight b) in
      pindexIter ← GetAncestor (cs_map st) pindexMostWork nTargetHeight;
      vpindexToConnect ← blocks_down_to (Z.to_nat (nTargetHeight - height)) (cs_map st) pindexIter height;
      '(r, st, s) ← connect_batch st (rev vpindexToConnect) (head vpindexToConnect) pindexMostWork pblock pindexOldTip s;
      match r with
      | BatchDone => connect_batches fuel st nTargetHeight pindexMostWork pblock pindexOldTip s
      | _ => Some (r, st, s)
      end
  end.

(** [None] in the first component is [return false], else [fInvalidFound]. *)
Definition ActivateBestChainStep (st : CChainState) (pindexMostWork : ptr) (pblock : option CBlock) (s : W)
  : option (option bool * CChainState * W) :=
  let pindexOldTip := Tip (chainActive st) in
  pindexFork ← FindFork (cs_map st) (chainActive st) (Some pindexMostWork);
  '(ok, st, s) ← disconnect_to (length (chainActive st)) st pindexFork s;
  if negb ok then Some (None, st, s)
  else
    height ← match pindexFork with None => Some (-1) | Some f => b ← cs_map st !! f; Some (nHeight b) end;
    b ← cs_map st !! pindexMostWork;
    '(r, st, s) ← connect_batches (Z.to_nat (nHeight b - height)) st height pindexMostWork pblock pindexOldTip s;
    Some (match r with BatchFailed => None | BatchInvalid => Some true | _ => Some false end, st, s).

(** *** Until the best chain is active *)

(** The inner loop ends with [return false], or with whether blocks were connected, the candidate
    and [pindexNewTip]. *)
Inductive round_outcome : Type :=
| RoundFailed
| RoundDone (blocks_connected : bool) (pindexMostWork pindexNewTip : option ptr).

Fixpoint activate_round (fuel : nat) (starting_tip : option ptr) (pblock : option CBlock) (blocks_connected : bool)
    (pindexMostWork pindexNewTip : option ptr) (st : CChainState) (s : W) : option (round_outcome * CChainState * W) :=
  '(pindexMostWork, st) ← match pindexMostWork with
                          | None => FindMostWorkChain addr st
                          | Some p => Some (Some p, st)
                          end;
  match pindexMostWork with
  | None => Some (RoundDone blocks_connected None pindexNewTip, st, s)
  | Some p =>
      if bool_decide (Tip (chainActive st) = Some p) then Some (RoundDone blocks_connected (Some p) pindexNewTip, st, s)
      else match fuel with
      | O => None
      | S fuel =>
          b ← cs_map st !! p;
          let given := match pblock with
                       | Some block => if bool_decide (Some (Block_GetHash C block) = phashBlock b) then pblock else None
                       | None => None
                       end in
          '(r, st, s) ← ActivateBestChainStep st p given s;
          match r with
          | None => Some (RoundFailed, st, s)
          | Some fInvalidFound =>
              let pindexMostWork := if (fInvalidFound : bool) then None else Some p in
              let pindexNewTip := Tip (chainActive st) in
              again ← match Tip (chainActive st), starting_tip with
                      | None, _ => Some true
                      | Some _, None => Some false
                      | Some t, Some t0 => worse addr (cs_map st) t (Some t0)
                      end;
              if (again : bool) then activate_round fuel starting_tip pblock true pindexMostWork pindexNewTip st s
              else Some (RoundDone true pindexMostWork pindexNewTip, st, s)
          end
      end
  end.

(** [ShutdownRequested]: the answers it gives, by the number of turns that are left *)
Context (ShutdownRequested : nat -> bool).

Fixpoint activate_rounds (fuel inner : nat) (pblock : option CBlock) (pindexMostWork pindexNewTip : option ptr)
    (st : CChainState) (s : W) : option (bool * CChainState * W) :=
  let finish (st : CChainState) (s : W) :=
    match op_flush ops FLUSH_PERIODIC s with None => Some (false, st, s) | Some s => Some (true, st, s) end in
  match fuel with
  | O => None
  | S fuel =>
      '(r, st, s) ← activate_round inner (Tip (chainActive st)) pblock false pindexMostWork pindexNewTip st s;
      match r with
      | RoundFailed => Some (false, st, s)
      | RoundDone false _ _ => Some (true, st, s)
      | RoundDone true pindexMostWork pindexNewTip =>
          if ShutdownRequested fuel || bool_decide (pindexNewTip = pindexMostWork) then finish st s
          else activate_rounds fuel inner pblock pindexMostWork pindexNewTip st s
      end
  end.

(** Turns enough: every step finds a block invalid, gains work or reaches its goal. *)
Definition activation_fuel (st : CChainState) : nat := let n := S (size (cs_map st)) in (n * n + 2)%nat.

Definition ActivateBestChain (st : CChainState) (pblock : option CBlock) (s : W) : option (bool * CChainState * W) :=
  activate_rounds (activation_fuel st) (activation_fuel st) pblock None None st s.

(** *** The operator's commands *)

Definition PreciousBlock (st : CChainState) (pindex : ptr) (s : W) : option (bool * CChainState * W) :=
  t ← Tip (chainActive st);
  a ← cs_map st !! pindex; b ← cs_map st !! t;
  if ltb (nChainWork a) (nChainWork b) then Some (true, st, s)
  else
    let reverse := if ltb (nLastPreciousChainwork st) (nChainWork b) then -1 else nBlockReverseSequenceId st in
    let st := erase_candidate st pindex in
    let a := set_nSequenceId a reverse in
    let st := set_entry st pindex a in
    let st := set_sequence st (nBlockSequenceId st) (if INT32_MIN <? reverse then reverse - 1 else reverse) (nChainWork b) in
    v ← IsValid a BLOCK_VALID_TRANSACTIONS;
    st ← (if (v : bool) && negb (nChainTx a =? 0) then PruneBlockIndexCandidates addr (insert_candidate st pindex) else Some st);
    ActivateBestChain st None s.

(** [while (chainActive.Contains(pindex))] *)
Fixpoint disconnect_from (fuel : nat) (st : CChainState) (pindex : ptr) (s : W) : option (bool * CChainState * W) :=
  c ← Contains (cs_map st) (chainActive st) pindex;
  if negb c then Some (true, st, s)
  else match fuel with
  | O => None
  | S fuel =>
      '(ok, st, s) ← DisconnectTip st s;
      if (ok : bool) then disconnect_from fuel st pindex s else Some (false, st, s)
  end.

(** [while (pindex_was_in_chain && invalid_walk_tip != pindex)] *)
Fixpoint mark_down_to (fuel : nat) (st : CChainState) (invalid_walk_tip : option ptr) (pindex : ptr) : option CChainState :=
  if bool_decide (invalid_walk_tip = Some pindex) then Some st
  else match fuel with
  | O => None
  | S fuel =>
      w ← invalid_walk_tip;
      b ← cs_map st !! w;
      st ← add_status st w BLOCK_FAILED_CHILD;
      mark_down_to fuel (erase_candidate (set_dirty st w) w) (pprev b) pindex
  end.

Definition can_be_tip (b : CBlockIndex) : option bool := v ← IsValid b BLOCK_VALID_TRANSACTIONS; Some (v && negb (nChainTx b =? 0)).

(** The entries that are as good as the tip are candidates again. *)
Definition restore_candidate (st : CChainState) (e : ptr * CBlockIndex) : option CChainState :=
  c ← can_be_tip (snd e);
  if (c : bool) then w ← worse addr (cs_map st) (fst e) (Tip (chainActive st)); Some (if (w : bool) then st else insert_candidate st (fst e))
  else Some st.

Fixpoint fold_entries (f : CChainState -> ptr * CBlockIndex -> option CChainState) (st : CChainState) (l : list (ptr * CBlockIndex)) : option CChainState :=
  match l with [] => Some st | e :: l => st ← f st e; fold_entries f st l end.

Definition InvalidateBlock (st : CChainState) (pindex : ptr) (s : W) : option (bool * CChainState * W) :=
  pindex_was_in_chain ← Contains (cs_map st) (chainActive st) pindex;
  let invalid_walk_tip := Tip (chainActive st) in
  let n := length (chainActive st) in
  '(ok, st, s) ← disconnect_from n st pindex s;
  if negb ok then Some (false, st, s)
  else
    st ← (if (pindex_was_in_chain : bool) then mark_down_to n st invalid_walk_tip pindex else Some st);
    st ← add_status st pindex BLOCK_FAILED_VALID;
    let st := erase_candidate (set_dirty st pindex) pindex in
    let st := set_failed st ({[pindex]} ∪ m_failed_blocks st) in
    st ← fold_entries restore_candidate st (map_to_list (cs_map st));
    st ← InvalidChainFound st pindex;
    Some (true, st, s).

(** [nStatus &= ~BLOCK_FAILED_MASK] *)
Definition clear_failed (b : CBlockIndex) : CBlockIndex := set_nStatus b (Z.land (nStatus b) (Z.lnot BLOCK_FAILED_MASK)).

(** One entry of the index: a descendant of [pindex] that is not valid *)
Definition reset_entry (height : Z) (pindex : ptr) (st : CChainState) (e : ptr * CBlockIndex) : option CChainState :=
  let '(p, b) := e in
  v ← IsValid b BLOCK_VALID_TRANSACTIONS;
  if (v : bool) then Some st
  else
    a ← GetAncestor (cs_map st) p height;
    if negb (bool_decide (a = Some pindex)) then Some st
    else
      let b := clear_failed b in
      let st := set_dirty (set_entry st p b) p in
      c ← can_be_tip b;
      st ← (if (c : bool) then
              t ← Tip (chainActive st);
              w ← worse addr (cs_map st) t (Some p);
              Some (if (w : bool) then insert_candidate st p else st)
            else Some st);
      let st := if bool_decide (pindexBestInvalid st = Some p) then set_best_invalid st None else st in
      Some (set_failed st (m_failed_blocks st ∖ {[p]})).

(** The ancestors of [pindex], and [pindex] itself *)
Fixpoint reset_ancestors (fuel : nat) (st : CChainState) (pindex : option ptr) : option CChainState :=
  match pindex with
  | None => Some st
  | Some p =>
      match fuel with
      | O => None
      | S fuel =>
          b ← cs_map st !! p;
          let st := if has b BLOCK_FAILED_MASK
                    then set_failed (set_dirty (set_entry st p (clear_failed b)) p) (m_failed_blocks st ∖ {[p]}) else st in
          reset_ancestors fuel st (pprev b)
      end
  end.

Definition ResetBlockFailureFlags (st : CChainState) (pindex : ptr) : option CChainState :=
  b ← cs_map st !! pindex;
  st ← fold_entries (reset_entry (nHeight b) pindex) st (map_to_list (cs_map st));
  reset_ancestors (path_fuel (cs_map st) pindex) st (Some pindex).
End Steps.

(** *** A common block of a chain and a locator *)

Fixpoint FindForkInGlobalIndex (m : BlockMap) (v : CChain) (vHave : list uint256) : option (option ptr) :=
  match vHave with
  | [] => Some (Genesis v)
  | hash :: vHave =>
      match m !! hash with
      | None => FindForkInGlobalIndex m v vHave
      | Some _ =>
          c ← Contains m v hash;
          if (c : bool) then Some (Some hash)
          else
            a ← GetAncestor m hash (Height v);
            if bool_decide (a = Tip v) then Some (Tip v) else FindForkInGlobalIndex m v vHave
      end
  end.

(** ** Theorems *)

(** *** Entries that differ only in what is not part of the tree *)

Definition skel (b b' : CBlockIndex) : Prop :=
  phashBlock b' = phashBlock b /\ pprev b' = pprev b /\ pskip b' = pskip b /\ nHeight b' = nHeight b /\
  nChainWork b' = nChainWork b /\ nTimeMax b' = nTimeMax b /\ bi_nTime b' = bi_nTime b /\ bi_nBits b' = bi_nBits b /\
  bi_prevoutStake b' = bi_prevoutStake b.
Definition same_tree (m m' : BlockMap) : Prop := forall p, option_Forall2 skel (m !! p) (m' !! p).

Lemma skel_refl b : skel b b.
Proof. by split_and!. Qed.
Lemma skel_trans b c d : skel b c -> skel c d -> skel b d.
Proof.
  intros (A1 & A2 & A3 & A4 & A5 & A6 & A7 & A8 & A9) (B1 & B2 & B3 & B4 & B5 & B6 & B7 & B8 & B9). by split_and!; etrans.
Qed.

Lemma same_tree_refl m : same_tree m m.
Proof. intros p. destruct (m !! p); constructor. apply skel_refl. Qed.
Lemma same_tree_trans m1 m2 m3 : same_tree m1 m2 -> same_tree m2 m3 -> same_tree m1 m3.
Proof.
  intros H12 H23 p. specialize (H12 p). specialize (H23 p).
  inversion H12 as [b c Hbc E1 E2 | E1 E2]; rewrite <- E2 in H23; inversion H23; constructor. by eapply skel_trans.
Qed.

Lemma same_tree_insert m p b b' : m !! p = Some b -> skel b b' -> same_tree m (<[p := b']> m).
Proof.
  intros Hp Hs q. destruct (decide (q = p)) as [->|Hq].
  - rewrite Hp, lookup_insert_eq. by constructor.
  - rewrite lookup_insert_ne by done. destruct (m !! q); constructor. apply skel_refl.
Qed.

Section Same.
Context (m m' : BlockMap) (H : same_tree m m').

Lemma same_lookup p b : m !! p = Some b -> exists b', m' !! p = Some b' /\ skel b b'.
Proof. intros Hp. specialize (H p). rewrite Hp in H. inversion H. eauto. Qed.
Lemma same_lookup_rev p b' : m' !! p = Some b' -> exists b, m !! p = Some b /\ skel b b'.
Proof. intros Hp. specialize (H p). rewrite Hp in H. inversion H. eauto. Qed.
Lemma same_none p : m !! p = None -> m' !! p = None.
Proof. intros Hp. specialize (H p). rewrite Hp in H. by inversion H. Qed.

Lemma same_up n p : up m' n p = up m n p.
Proof.
  revert p. induction n as [|n IH]; intros p; [done|]. cbn [up]. destruct (m !! p) as [b|] eqn:Ep.
  - destruct (same_lookup p b Ep) as (b' & -> & (_ & Hb & _)). cbn [mbind option_bind]. rewrite Hb.
    destruct (pprev b); [apply IH | done].
  - by rewrite (same_none p Ep).
Qed.

Lemma same_ancestor p k : ancestor m' p k = ancestor m p k.
Proof.
  unfold ancestor. destruct (m !! p) as [b|] eqn:Ep.
  - destruct (same_lookup p b Ep) as (b' & -> & (_ & _ & _ & Hb & _)). cbn [mbind option_bind]. by rewrite Hb, same_up.
  - by rewrite (same_none p Ep).
Qed.

Lemma same_index_ok : index_ok m -> index_ok m'.
Proof.
  intros Hm p b' Hp. destruct (same_lookup_rev p b' Hp) as (b & Hb & (E1 & E2 & E3 & E4 & E5 & E6 & E7 & E8 & _)).
  destruct (Hm p b Hb) as (A1 & A2 & A3 & A4). unfold entry_ok. rewrite E1, E2, E3, E4, E5, E6, E7.
  assert (GetBlockProof b' = GetBlockProof b) as -> by (unfold GetBlockProof; by rewrite E8).
  split; [done|]. split; [done|]. split; [done|]. destruct (pprev b) as [q|]; [|done].
  destruct A4 as (c & Hc & B1 & B2 & B3 & B4). destruct (same_lookup q c Hc) as (c' & Hc' & (F1 & F2 & F3 & F4 & F5 & F6 & _)).
  exists c'. by rewrite F4, F5, F6, same_ancestor.
Qed.

Lemma same_chain_is v p : chain_is m v p -> chain_is m' v p.
Proof.
  intros (b & Hb & Hv & Hat). destruct (same_lookup p b Hb) as (b' & Hb' & (_ & _ & _ & E & _)).
  exists b'. rewrite E. split; [done|]. split; [done|]. intros i Hi. rewrite same_ancestor. by apply Hat.
Qed.

Lemma same_chain_ok v : chain_ok m v -> chain_ok m' v.
Proof. intros [->|[p Hp]]; [by left|]. right. exists p. by apply same_chain_is. Qed.
End Same.

(** *** Status flags *)

Lemma has_lor b flag f : has (set_nStatus b (Z.lor (nStatus b) flag)) f = has b f || negb (Z.land flag f =? 0).
Proof.
  unfold has. assert (nStatus (set_nStatus b (Z.lor (nStatus b) flag)) = Z.lor (nStatus b) flag) as -> by (by destruct b).
  rewrite Z.land_lor_distr_l.
  destruct (Z.eqb_spec (Z.land (nStatus b) f) 0) as [->|Hx]; cbn [negb orb].
  - by rewrite Z.lor_0_l.
  - apply negb_true_iff, Z.eqb_neq. intros E. apply Z.lor_eq_0_iff in E as [E _]. done.
Qed.

Lemma skel_set_nStatus b s : skel b (set_nStatus b s).
Proof. by destruct b. Qed.
Lemma skel_set_nSequenceId b s : skel b (set_nSequenceId b s).
Proof. by destruct b. Qed.
Lemma skel_set_nChainTx b s : skel b (set_nChainTx b s).
Proof. by destruct b. Qed.
Lemma skel_set_data b a c d e : skel b (set_data b a c d e).
Proof. by destruct b. Qed.

(** *** Entries along the way *)

Abbreviation failed b := (has b BLOCK_FAILED_MASK).
(** Its scripts have been checked, as those of every block that has been connected *)
Definition scripts_ok (b : CBlockIndex) : Prop := nHeight b = 0 \/ BLOCK_VALID_SCRIPTS <= Z.land (nStatus b) BLOCK_VALID_MASK.

(** What happens to an entry while a chain is activated *)
Definition entry_evolves (b b' : CBlockIndex) : Prop :=
  skel b b' /\ nTx b' = nTx b /\ nChainTx b' = nChainTx b /\ nSequenceId b' = nSequenceId b /\
  has b' BLOCK_HAVE_DATA = has b BLOCK_HAVE_DATA /\
  (forall f, f = BLOCK_FAILED_MASK \/ f = BLOCK_FAILED_VALID -> has b f = true -> has b' f = true) /\ (scripts_ok b -> scripts_ok b') /\
  Z.land (nStatus b) BLOCK_VALID_MASK <= Z.land (nStatus b') BLOCK_VALID_MASK /\ nFile b' = nFile b /\ nDataPos b' = nDataPos b.
Definition evolves (m m' : BlockMap) : Prop := forall p, option_Forall2 entry_evolves (m !! p) (m' !! p).

Lemma entry_evolves_refl b : entry_evolves b b.
Proof. split; [apply skel_refl | by split_and!]. Qed.
Lemma entry_evolves_trans b c d : entry_evolves b c -> entry_evolves c d -> entry_evolves b d.
Proof.
  intros (A0 & A1 & A2 & A3 & A4 & A5 & A6 & A7 & A8 & A9) (B0 & B1 & B2 & B3 & B4 & B5 & B6 & B7 & B8 & B9).
  split; [by eapply skel_trans|]. split_and!; try congruence; auto; by etrans.
Qed.

Lemma evolves_refl m : evolves m m.
Proof. intros p. destruct (m !! p); constructor. apply entry_evolves_refl. Qed.
Lemma evolves_trans m1 m2 m3 : evolves m1 m2 -> evolves m2 m3 -> evolves m1 m3.
Proof.
  intros H12 H23 p. specialize (H12 p). specialize (H23 p).
  inversion H12 as [b c Hbc E1 E2 | E1 E2]; rewrite <- E2 in H23; inversion H23; constructor. by eapply entry_evolves_trans.
Qed.
Lemma evolves_insert m p b b' : m !! p = Some b -> entry_evolves b b' -> evolves m (<[p := b']> m).
Proof.
  intros Hp Hs q. destruct (decide (q = p)) as [->|Hq].
  - rewrite Hp, lookup_insert_eq. by constructor.
  - rewrite lookup_insert_ne by done. destruct (m !! q); constructor. apply entry_evolves_refl.
Qed.
Lemma evolves_tree m m' : evolves m m' -> same_tree m m'.
Proof. intros H p. destruct (H p) as [b b' (Hs & _)|]; by constructor. Qed.

Section Evolved.
Context (m m' : BlockMap) (H : evolves m m').
Lemma evolved_lookup p b : m !! p = Some b -> exists b', m' !! p = Some b' /\ entry_evolves b b'.
Proof. intros Hp. specialize (H p). rewrite Hp in H. inversion H. eauto. Qed.
Lemma evolved_lookup_rev p b' : m' !! p = Some b' -> exists b, m !! p = Some b /\ entry_evolves b b'.
Proof. intros Hp. specialize (H p). rewrite Hp in H. inversion H. eauto. Qed.
End Evolved.

(** No block of the chain of [p] is marked as failed. *)
Definition clean (m : BlockMap) (p : ptr) : Prop := forall n q c, up m n p = Some q -> m !! q = Some c -> failed c = false.

Lemma clean_self m p b : m !! p = Some b -> clean m p -> failed b = false.
Proof. intros Hb Hc. by apply (Hc 0%nat p). Qed.
Lemma clean_prev m p b q : m !! p = Some b -> pprev b = Some q -> clean m p -> clean m q.
Proof. intros Hb Hq Hc n r c Hr. apply (Hc (S n)). cbn [up]. rewrite Hb. cbn [mbind option_bind]. by rewrite Hq. Qed.
Lemma clean_intro m p b : m !! p = Some b -> failed b = false -> (forall q, pprev b = Some q -> clean m q) -> clean m p.
Proof.
  intros Hb Hf Hq [|n] r c Hr Hc; cbn [up] in Hr; [congruence|]. rewrite Hb in Hr. cbn [mbind option_bind] in Hr.
  destruct (pprev b) as [q|]; [|done]. by apply (Hq q eq_refl n r c).
Qed.
Lemma clean_up m p n q : up m n p = Some q -> clean m p -> clean m q.
Proof. intros Hn Hc k r c Hr. apply (Hc (n + k)%nat). by rewrite up_add, Hn. Qed.
Lemma clean_before m m' p : evolves m m' -> clean m' p -> clean m p.
Proof.
  intros He Hc n q c Hq Hqc. destruct (evolved_lookup m m' He q c Hqc) as (c' & Hc' & (_ & _ & _ & _ & _ & Hf & _)).
  specialize (Hc n q c'). rewrite (same_up m m' (evolves_tree m m' He)) in Hc. specialize (Hc Hq Hc').
  destruct (failed c) eqn:E; [pose proof (Hf _ (or_introl eq_refl) E); congruence | done].
Qed.

(** *** The order of the candidates *)

Section Ordered.
Context (addr : ptr -> Z) (Haddr : forall p q, addr p = addr q -> p = q).

(** What the comparator compares, with the signs it gives to it *)
Definition rank (p : ptr) (b : CBlockIndex) : Z * Z * Z := (val (nChainWork b), - nSequenceId b, - addr p).
Definition rank_lt (x y : Z * Z * Z) : Prop :=
  let '(w, s, a) := x in let '(w', s', a') := y in w < w' \/ (w = w' /\ (s < s' \/ (s = s' /\ a < a'))).

(** [p] is worse than [q]; nothing is worse than no block. *)
Definition wlt (m : BlockMap) (p q : ptr) : Prop :=
  exists b c, m !! p = Some b /\ m !! q = Some c /\ rank_lt (rank p b) (rank q c).
Definition wlt_opt (m : BlockMap) (p : ptr) (q : option ptr) : Prop := match q with Some q => wlt m p q | None => False end.

Lemma worse_entry_spec p q b c : wf256 (nChainWork b) -> wf256 (nChainWork c) ->
  worse_entry addr p q b c = true <-> rank_lt (rank p b) (rank q c).
Proof.
  intros Hb Hc. unfold worse_entry. rewrite !(ltb_spec 8) by done. cbn [rank_lt rank].
  destruct (Z.ltb_spec (val (nChainWork c)) (val (nChainWork b))); [split; [done|lia]|].
  destruct (Z.ltb_spec (val (nChainWork b)) (val (nChainWork c))); [split; [lia|done]|].
  destruct (Z.ltb_spec (nSequenceId b) (nSequenceId c)); [split; [done|lia]|].
  destruct (Z.ltb_spec (nSequenceId c) (nSequenceId b)); [split; [lia|done]|].
  destruct (Z.ltb_spec (addr p) (addr q)); [split; [done|lia]|]. rewrite Z.ltb_lt. lia.
Qed.

Lemma worse_spec m p q b c : index_ok m -> m !! p = Some b -> m !! q = Some c ->
  exists w, worse addr m p (Some q) = Some w /\ (w = true <-> wlt m p q).
Proof.
  intros Hm Hp Hq. unfold worse. cbn [mbind option_bind]. rewrite Hp, Hq. cbn [mbind option_bind]. eexists. split; [done|].
  destruct (Hm p b Hp) as (_ & _ & Wb & _). destruct (Hm q c Hq) as (_ & _ & Wc & _).
  rewrite worse_entry_spec by done. split; [intros; by exists b, c|]. intros (b' & c' & Hb' & Hc' & Hr). congruence.
Qed.

Lemma wlt_irrefl m p : ~ wlt m p p.
Proof. intros (b & c & Hb & Hc & Hr). simplify_eq. cbn in Hr. lia. Qed.
Lemma wlt_trans m p q r : wlt m p q -> wlt m q r -> wlt m p r.
Proof. intros (a & b & Ha & Hb & H1) (b' & c & Hb' & Hc & H2). simplify_eq. exists a, c. split; [done|]. split; [done|]. cbn in *. lia. Qed.
Lemma wlt_total m p q b c : m !! p = Some b -> m !! q = Some c -> p = q \/ wlt m p q \/ wlt m q p.
Proof.
  intros Hp Hq. destruct (decide (p = q)) as [|Hne]; [by left|]. right.
  assert (addr p <> addr q) by (intros E; by apply Haddr in E).
  assert (rank_lt (rank p b) (rank q c) \/ rank_lt (rank q c) (rank p b)) as [L|L] by (cbn; lia).
  - left. by exists b, c.
  - right. by exists c, b.
Qed.
Lemma wlt_work m p q b c : m !! p = Some b -> m !! q = Some c -> val (nChainWork b) < val (nChainWork c) -> wlt m p q.
Proof. intros Hp Hq Hw. exists b, c. split; [done|]. split; [done|]. cbn. lia. Qed.

Lemma wlt_evolves m m' p q : evolves m m' -> wlt m' p q <-> wlt m p q.
Proof.
  intros He. split.
  - intros (b' & c' & Hb & Hc & Hr). destruct (evolved_lookup_rev m m' He p b' Hb) as (b & Eb & ((_ & _ & _ & _ & Wb & _) & _ & _ & Sb & _)).
    destruct (evolved_lookup_rev m m' He q c' Hc) as (c & Ec & ((_ & _ & _ & _ & Wc & _) & _ & _ & Sc & _)).
    exists b, c. split; [done|]. split; [done|]. unfold rank in *. by rewrite <- Wb, <- Wc, <- Sb, <- Sc.
  - intros (b & c & Hb & Hc & Hr). destruct (evolved_lookup m m' He p b Hb) as (b' & Eb & ((_ & _ & _ & _ & Wb & _) & _ & _ & Sb & _)).
    destruct (evolved_lookup m m' He q c Hc) as (c' & Ec & ((_ & _ & _ & _ & Wc & _) & _ & _ & Sc & _)).
    exists b', c'. split; [done|]. split; [done|]. unfold rank in *. by rewrite Wb, Wc, Sb, Sc.
Qed.

Lemma better_fold m l acc : index_ok m -> (forall p, p ∈ l \/ acc = Some p -> is_Some (m !! p)) ->
  match foldl (better_of addr m) acc l with
  | Some r => (r ∈ l \/ acc = Some r) /\ forall q, q ∈ l \/ acc = Some q -> ~ wlt m r q
  | None => l = [] /\ acc = None
  end.
Proof.
  intros Hm. revert acc. induction l as [|p l IH]; intros acc Hin; cbn [foldl].
  - destruct acc as [r|]; [|done]. split; [by right|]. intros q [Hq|Hq]; [by apply elem_of_nil in Hq|]. simplify_eq. apply wlt_irrefl.
  - assert (exists r, better_of addr m acc p = Some r /\ (r = p \/ acc = Some r) /\ forall q, q = p \/ acc = Some q -> ~ wlt m r q)
      as (r & Er & Hr & Hmax).
    { destruct acc as [q|]; cbn [better_of].
      - destruct (Hin p) as [b Hb]; [left; by left|]. destruct (Hin q) as [c Hc]; [by right|].
        destruct (worse_spec m q p c b Hm Hc Hb) as (w & -> & Hw). destruct w.
        + exists p. split; [done|]. split; [by left|]. intros x [->|Hx]; [apply wlt_irrefl|]. simplify_eq.
          intros Hx. apply (wlt_irrefl m x), (wlt_trans m x p x); [by apply Hw | done].
        + exists q. split; [done|]. split; [by right|]. intros x [->|Hx]; [by rewrite <- Hw|]. simplify_eq. apply wlt_irrefl.
      - exists p. split; [done|]. split; [by left|]. intros x [->|Hx]; [apply wlt_irrefl | done]. }
    rewrite Er. assert (forall q, q ∈ l \/ Some r = Some q -> is_Some (m !! q)) as Hin'.
    { intros q [Hq|[= <-]]; [apply Hin; left; by right|]. apply Hin. destruct Hr as [->|Hr]; [left; by left | by right]. }
    specialize (IH (Some r) Hin'). destruct (foldl _ (Some r) l) as [x|]; [|by destruct IH].
    destruct IH as [Hx Hxm]. split.
    + destruct Hx as [Hx|[= <-]]; [left; by right|]. destruct Hr as [->|Hr]; [left; by left | by right].
    + intros q [Hq|Hq].
      * apply elem_of_cons in Hq as [->|Hq]; [|apply Hxm; by left]. intros Hw. destruct (Hin p) as [b Hb]; [left; by left|].
        destruct (Hin' r) as [c Hc]; [by right|]. destruct (wlt_total m p r b c Hb Hc) as [->|[Hpr|Hrp]].
        -- apply (Hxm r); [by right | done].
        -- apply (Hxm r); [by right | by eapply wlt_trans].
        -- apply (Hmax p); [by left | done].
      * intros Hw. destruct (Hin q) as [b Hb]; [by right|]. destruct (Hin' r) as [c Hc]; [by right|].
        destruct (wlt_total m q r b c Hb Hc) as [->|[Hpr|Hrp]].
        -- apply (Hxm r); [by right | done].
        -- apply (Hxm r); [by right | by eapply wlt_trans].
        -- apply (Hmax q); [by right | done].
Qed.

Lemma best_candidate_spec st : index_ok (cs_map st) -> (forall p, p ∈ setBlockIndexCandidates st -> is_Some (cs_map st !! p)) ->
  match best_candidate addr st with
  | Some r => r ∈ setBlockIndexCandidates st /\ forall q, q ∈ setBlockIndexCandidates st -> ~ wlt (cs_map st) r q
  | None => setBlockIndexCandidates st = ∅
  end.
Proof.
  intros Hm Hin. unfold best_candidate.
  pose proof (better_fold (cs_map st) (elements (setBlockIndexCandidates st)) None Hm) as L.
  destruct (foldl _ _ _) as [r|].
  - destruct L as [Hr Hq]; [intros p [Hp|?]; [by apply Hin, elem_of_elements | done]|].
    split; [destruct Hr as [Hr|]; [by apply elem_of_elements | done]|]. intros q Hx. apply Hq. left. by apply elem_of_elements.
  - destruct L as [Hr _]; [intros p [Hp|?]; [by apply Hin, elem_of_elements | done]|]. apply elements_empty_inv in Hr. by apply leibniz_equiv.
Qed.
End Ordered.

(** *** A state from which chains can be activated *)

Record ready (st : CChainState) : Prop := {
  r_index : index_ok (cs_map st);
  r_work : forall p b q c, cs_map st !! p = Some b -> pprev b = Some q -> cs_map st !! q = Some c -> val (nChainWork c) < val (nChainWork b);
  r_data : forall p b, cs_map st !! p = Some b -> nTx b <> 0 -> has b BLOCK_HAVE_DATA = true;
  r_linked : forall p b, cs_map st !! p = Some b -> nChainTx b <> 0 ->
    nTx b <> 0 /\ forall q c, pprev b = Some q -> cs_map st !! q = Some c -> nChainTx c <> 0;
  r_chain : chain_ok (cs_map st) (chainActive st);
  r_active : forall i q c, chain_at (chainActive st) i = Some q -> cs_map st !! q = Some c -> nChainTx c <> 0 /\ failed c = false /\ scripts_ok c;
  r_cand : forall p, p ∈ setBlockIndexCandidates st -> exists b, cs_map st !! p = Some b /\ nChainTx b <> 0;
  r_best : forall p, pindexBestInvalid st = Some p -> is_Some (cs_map st !! p);
  r_failed : forall p, p ∈ m_failed_blocks st -> exists b, cs_map st !! p = Some b /\ has b BLOCK_FAILED_VALID = true;
  r_header : best_ok (cs_index st) }.

(** A block that can be the tip: the data of its chain is there and none of it is marked as failed *)
Definition eligible (m : BlockMap) (p : ptr) : Prop := (exists b, m !! p = Some b /\ nChainTx b <> 0) /\ clean m p.

(** Marks are set on blocks that are not clean anyway; candidates that are clean are kept. *)
Record marked (st st' : CChainState) : Prop := {
  mk_evolves : evolves (cs_map st) (cs_map st');
  mk_clean : forall p, clean (cs_map st) p -> clean (cs_map st') p;
  mk_active : chainActive st' = chainActive st;
  mk_unlinked : mapBlocksUnlinked st' = mapBlocksUnlinked st;
  mk_cand : setBlockIndexCandidates st' ⊆ setBlockIndexCandidates st;
  mk_keep : forall p, p ∈ setBlockIndexCandidates st -> clean (cs_map st) p -> p ∈ setBlockIndexCandidates st';
  mk_best : forall p, pindexBestInvalid st' = Some p -> pindexBestInvalid st = Some p \/ is_Some (cs_map st !! p);
  mk_failed : m_failed_blocks st' = m_failed_blocks st;
  mk_header : pindexBestHeader (cs_index st') = pindexBestHeader (cs_index st) }.

Lemma marked_refl st : marked st st.
Proof. split; try done; [apply evolves_refl|]. by left. Qed.
Lemma marked_trans st1 st2 st3 : marked st1 st2 -> marked st2 st3 -> marked st1 st3.
Proof.
  intros [A1 A2 A3 A4 A5 A6 A7 A8 A9] [B1 B2 B3 B4 B5 B6 B7 B8 B9]. split; try (by etrans); eauto using evolves_trans.
  intros p Hp. destruct (B7 p Hp) as [Hp'|[b Hb]]; [by apply A7|]. right.
  destruct (evolved_lookup_rev _ _ A1 p b Hb) as (c & Hc & _). eauto.
Qed.

Lemma active_clean st i q : ready st -> chain_at (chainActive st) i = Some q -> clean (cs_map st) q.
Proof.
  intros R Hi n r c Hr Hc. pose proof (r_index st R) as Hm.
  destruct (decide (0 <= i < vsize (chainActive st))) as [Hr0|Ho]; [|by rewrite chain_at_out in Hi by lia].
  destruct (r_chain st R) as [E|[t Ht]]; [rewrite E in Hr0; change (vsize []) with 0 in Hr0; lia|].
  destruct Ht as (bt & Hbt & Hv & Hat). pose proof Hi as Hi'. rewrite Hat in Hi' by lia.
  destruct (ancestor_inv (cs_map st) Hm t bt i q Hbt Hi') as (_ & bq & Hbq & Eq).
  destruct (up_height (cs_map st) Hm n q bq r Hbq Hr) as (c0 & Hc0 & Eh).
  rewrite Hc in Hc0. injection Hc0 as <-.
  pose proof (height_range (cs_map st) Hm r c Hc).
  destruct (r_active st R (nHeight c) r c) as (_ & Hf & _); [|done|done].
  rewrite (chain_coherent (cs_map st) Hm _ (or_intror (ex_intro _ t (ex_intro _ bt (conj Hbt (conj Hv Hat))))) i q (nHeight c) Hi) by lia.
  unfold ancestor. rewrite Hbq. cbn [mbind option_bind]. destruct (Z.leb_spec 0 (nHeight c)); [|lia].
  destruct (Z.leb_spec (nHeight c) (nHeight bq)); [cbn [andb]|lia]. replace (Z.to_nat (nHeight bq - nHeight c)) with n by lia. done.
Qed.

Lemma best_ok_same i i' : same_tree (mapBlockIndex i) (mapBlockIndex i') -> pindexBestHeader i' = pindexBestHeader i -> best_ok i -> best_ok i'.
Proof.
  intros Ht Hb. unfold best_ok. rewrite Hb. destruct (pindexBestHeader i) as [best|].
  - intros (e & He & Hmax). destruct (same_lookup _ _ Ht best e He) as (e' & He' & (_ & _ & _ & _ & E & _)). exists e'. split; [done|].
    intros p b Hp. destruct (same_lookup_rev _ _ Ht p b Hp) as (b0 & Hb0 & (_ & _ & _ & _ & E0 & _)). rewrite E, E0. by apply (Hmax p).
  - intros E. apply map_empty. intros p. apply (same_none _ _ Ht). by rewrite E, lookup_empty.
Qed.

(** Entries evolve, and those of the active chain are not marked. *)
Lemma ready_evolves st st' : ready st -> evolves (cs_map st) (cs_map st') -> chainActive st' = chainActive st ->
  (forall i q c, chain_at (chainActive st) i = Some q -> cs_map st' !! q = Some c -> failed c = false) ->
  (forall p, p ∈ setBlockIndexCandidates st' -> exists b, cs_map st !! p = Some b /\ nChainTx b <> 0) ->
  (forall p, pindexBestInvalid st' = Some p -> pindexBestInvalid st = Some p \/ is_Some (cs_map st !! p)) ->
  (forall p, p ∈ m_failed_blocks st' -> p ∈ m_failed_blocks st \/ exists b, cs_map st' !! p = Some b /\ has b BLOCK_FAILED_VALID = true) ->
  pindexBestHeader (cs_index st') = pindexBestHeader (cs_index st) -> ready st'.
Proof.
  intros [R1 R2 R3 R4 R5 R6 R7 R8 R9 R10] He Ha Hact Hc Hbi Hfb Hbh. pose proof (evolves_tree _ _ He) as Ht. split.
  - by apply (same_index_ok (cs_map st)).
  - intros p b q c Hb Hq Hc'. destruct (evolved_lookup_rev _ _ He p b Hb) as (b0 & Hb0 & ((_ & E1 & _ & _ & E2 & _) & _)).
    destruct (evolved_lookup_rev _ _ He q c Hc') as (c0 & Hc0 & ((_ & _ & _ & _ & E3 & _) & _)). rewrite E2, E3.
    apply (R2 p b0 q c0); [done | congruence | done].
  - intros p b Hb. destruct (evolved_lookup_rev _ _ He p b Hb) as (b0 & Hb0 & (_ & E1 & _ & _ & E2 & _)). rewrite E1, E2. by apply R3 with p.
  - intros p b Hb. destruct (evolved_lookup_rev _ _ He p b Hb) as (b0 & Hb0 & ((_ & E0 & _) & E1 & E2 & _)). rewrite E1, E2, E0. intros Hn.
    destruct (R4 p b0 Hb0 Hn) as [Hn1 Hn2]. split; [done|]. intros q c Hq Hc'.
    destruct (evolved_lookup_rev _ _ He q c Hc') as (c0 & Hc0 & (_ & _ & E3 & _)). rewrite E3. by apply (Hn2 q c0).
  - rewrite Ha. by apply (same_chain_ok (cs_map st)).
  - rewrite Ha. intros i q c Hi Hc'. destruct (evolved_lookup_rev _ _ He q c Hc') as (c0 & Hc0 & (_ & _ & E3 & _ & _ & _ & E4 & _)).
    destruct (R6 i q c0 Hi Hc0) as (A1 & _ & A3). rewrite E3. split; [done|]. split; [by apply (Hact i q) | by apply E4].
  - intros p Hp. destruct (Hc p Hp) as (b0 & Hb0 & Hn). destruct (evolved_lookup _ _ He p b0 Hb0) as (b & Hb & (_ & _ & E & _)).
    exists b. by rewrite E.
  - intros p Hp. assert (is_Some (cs_map st !! p)) as [b Hb] by (destruct (Hbi p Hp); auto).
    destruct (evolved_lookup _ _ He p b Hb) as (b' & Hb' & _). eauto.
  - intros p Hp. destruct (Hfb p Hp) as [H|H]; [|done]. destruct (R9 p H) as (b & Hb & Hf).
    destruct (evolved_lookup _ _ He p b Hb) as (b' & Hb' & (_ & _ & _ & _ & _ & Hk & _)). exists b'. split; [done|]. apply Hk; [by right | done].
  - by apply (best_ok_same (cs_index st)).
Qed.

Lemma ready_marked st st' : ready st -> marked st st' -> ready st'.
Proof.
  intros R [He Hcl Ha _ Hc _ Hbi Hfb Hbh]. apply (ready_evolves st); try done.
  - intros i q c Hi Hq. apply (clean_self _ q c Hq), Hcl. by apply (active_clean st i).
  - intros p Hp. apply (r_cand st R), (Hc p Hp).
  - intros p Hp. left. by rewrite <- Hfb.
Qed.

Lemma mark_evolves b flag : flag = BLOCK_FAILED_CHILD \/ flag = BLOCK_FAILED_VALID -> entry_evolves b (set_nStatus b (Z.lor (nStatus b) flag)).
Proof.
  intros Hf. split; [apply skel_set_nStatus|].
  assert (nTx (set_nStatus b (Z.lor (nStatus b) flag)) = nTx b /\ nChainTx (set_nStatus b (Z.lor (nStatus b) flag)) = nChainTx b /\
    nSequenceId (set_nStatus b (Z.lor (nStatus b) flag)) = nSequenceId b /\ nHeight (set_nStatus b (Z.lor (nStatus b) flag)) = nHeight b /\
    nStatus (set_nStatus b (Z.lor (nStatus b) flag)) = Z.lor (nStatus b) flag) as (E1 & E2 & E3 & E4 & E5) by (by destruct b).
  split; [done|]. split; [done|]. split; [done|]. rewrite !has_lor. split; [|split; [|split; [|split; [|by destruct b]]]].
  - destruct Hf as [-> | ->]; by rewrite orb_false_r.
  - intros f _. rewrite has_lor. by intros ->.
  - unfold scripts_ok. rewrite E4, E5, Z.land_lor_distr_l. destruct Hf as [-> | ->]; by rewrite Z.lor_0_r.
  - rewrite E5, Z.land_lor_distr_l. destruct Hf as [-> | ->]; by rewrite Z.lor_0_r.
Qed.

Lemma clean_mark m p x b b' : m !! x = Some b -> skel b b' -> ~ clean m x -> clean m p -> clean (<[x := b']> m) p.
Proof.
  intros Hx Hs Hn Hc n q c Hq Hqc. rewrite (same_up m _ (same_tree_insert m x b b' Hx Hs)) in Hq.
  destruct (decide (q = x)) as [->|Hne].
  - destruct Hn. by apply (clean_up m p n).
  - rewrite lookup_insert_ne in Hqc by done. by apply (Hc n q c).
Qed.

Lemma test_path_ok st fuel p b : ready st -> cs_map st !! p = Some b -> nChainTx b <> 0 -> nHeight b + 1 <= Z.of_nat fuel ->
  exists r, test_path fuel (cs_map st) (chainActive st) (Some p) = Some r /\
    match r with
    | PathClear => clean (cs_map st) p
    | PathBlocked t f => f = true /\ exists n c, up (cs_map st) n p = Some t /\ cs_map st !! t = Some c /\ failed c = true
    end.
Proof.
  intros R. pose proof (r_index st R) as Hm. revert p b. induction fuel as [|fuel IH]; intros p b Hp Hn Hf;
    pose proof (height_range _ Hm p b Hp); [lia|]. cbn [test_path]. rewrite (Contains_spec (cs_map st) _ p b Hp). cbn [mbind option_bind].
  destruct (bool_decide_reflect (chain_at (chainActive st) (nHeight b) = Some p)) as [Hin|Hin].
  - eexists. split; [done|]. cbn. by apply (active_clean st (nHeight b)).
  - rewrite Hp. cbn [mbind option_bind]. destruct (Z.eqb_spec (nChainTx b) 0); [done|]. cbn [andb].
    destruct (failed b) eqn:Efb; cbn [orb].
    + eexists. split; [done|]. cbn. split; [done|]. exists 0%nat, b. done.
    + destruct (r_linked st R p b Hp Hn) as [Htx Hpar]. rewrite (r_data st R p b Hp Htx). cbn [negb].
      destruct (pprev b) as [q|] eqn:Eq.
      * destruct (prev_entry _ Hm p b q Hp Eq) as (c & Hc & Eh). destruct (IH q c Hc (Hpar q c eq_refl Hc) ltac:(lia)) as (r & Er & Hr).
        exists r. split; [done|]. destruct r as [|t f].
        -- apply (clean_intro _ p b Hp Efb). intros q' Hq'. by assert (q' = q) as -> by congruence.
        -- destruct Hr as (-> & k & ct & Hu & Hct & Hfail). split; [done|]. exists (S k), ct. split; [|done]. by rewrite (up_pprev _ k p b q).
      * eexists. split; [by destruct fuel|]. cbn. apply (clean_intro _ p b Hp Efb). intros q Hq. congruence.
Qed.

Lemma note_invalid_ok st p b : is_Some (cs_map st !! p) -> (forall q, pindexBestInvalid st = Some q -> is_Some (cs_map st !! q)) ->
  cs_map st !! p = Some b -> exists x, note_invalid st p = Some (set_best_invalid st x) /\ (x = Some p \/ x = pindexBestInvalid st).
Proof.
  intros Hp Hq Hb. unfold note_invalid. destruct (pindexBestInvalid st) as [q|] eqn:E; [|eauto].
  destruct (Hq q eq_refl) as [c Hc]. rewrite Hc, Hb. cbn [mbind option_bind]. destruct (ltb _ _); [eauto|].
  exists (Some q). split; [|by right]. do 2 f_equal. destruct st; cbn in *. by rewrite E.
Qed.

(** Erasing a candidate that is not clean *)
Lemma erase_marked st t : ~ clean (cs_map st) t -> marked st (erase_candidate st t).
Proof.
  intros Hn. split; try done; [apply evolves_refl | cbn; clear; set_solver | | by left].
  intros q Hq Hcl. cbn. apply elem_of_difference. split; [done|]. intros ->%elem_of_singleton. done.
Qed.

Lemma drop_path_ok fuel : forall st t p n c, ready st -> up (cs_map st) n p = Some t -> cs_map st !! t = Some c -> failed c = true -> (n <= fuel)%nat ->
  exists st', drop_path fuel st t p true = Some st' /\ marked st st' /\ (p ∉ setBlockIndexCandidates st') /\ pindexBestInvalid st' = pindexBestInvalid st.
Proof.
  induction fuel as [|fuel IH]; intros st t p n c R Hu Hc Hf Hn.
  - assert (n = 0)%nat as -> by lia. cbn in Hu. injection Hu as ->. cbn [drop_path]. rewrite decide_True by done.
    eexists. split; [done|]. split; [|split; [cbn; clear; set_solver|done]]. apply erase_marked.
    intros Hcl. pose proof (clean_self _ t c Hc Hcl). congruence.
  - cbn [drop_path]. destruct (decide (t = p)) as [->|Hne].
    + eexists. split; [done|]. split; [|split; [cbn; clear; set_solver|done]]. apply erase_marked.
      intros Hcl. pose proof (clean_self _ p c Hc Hcl). congruence.
    + destruct n as [|n]; [cbn in Hu; congruence|]. cbn [up] in Hu. destruct (cs_map st !! p) as [b|] eqn:Hp; [|done].
      cbn [mbind option_bind] in Hu. destruct (pprev b) as [q|] eqn:Eq; [|done].
      assert (~ clean (cs_map st) p) as Hdirty.
      { intros Hcl. pose proof (Hcl (S n) t c) as Hx. cbn [up] in Hx. rewrite Hp in Hx. cbn [mbind option_bind] in Hx.
        rewrite Eq in Hx. cbn in Hx. specialize (Hx Hu Hc). congruence. }
      set (b' := set_nStatus b (Z.lor (nStatus b) BLOCK_FAILED_CHILD)).
      pose proof (mark_evolves b BLOCK_FAILED_CHILD (or_introl eq_refl)) as Hev. fold b' in Hev.
      set (st1 := erase_candidate (set_entry st p b') p).
      assert (marked st st1) as M1.
      { split; try done.
        - by apply evolves_insert with b.
        - intros x Hx. apply (clean_mark _ x p b b' Hp (proj1 Hev) Hdirty Hx).
        - cbn. set_solver.
        - intros x Hx Hcl. cbn. apply elem_of_difference. split; [done|]. intros ->%elem_of_singleton. done.
        - by left. }
      unfold add_status. rewrite Hp. cbn [mbind option_bind]. rewrite Eq. cbn [mbind option_bind]. fold b' st1.
      destruct (evolved_lookup _ _ (mk_evolves _ _ M1) t c Hc) as (c1 & Hc1 & (_ & _ & _ & _ & _ & Hf1 & _)).
      destruct (IH st1 t q n c1) as (st' & E & M2 & Hq & Eb).
      * by apply (ready_marked st).
      * by rewrite (same_up _ _ (evolves_tree _ _ (mk_evolves _ _ M1))).
      * done.
      * apply Hf1; [by left | done].
      * lia.
      * rewrite E. exists st'. split; [done|]. split; [by eapply marked_trans|]. split; [|done].
        intros Hin. apply (mk_cand _ _ M2) in Hin. cbn in Hin. set_solver.
Qed.

(** *** Finding the candidate with the most work *)

Section Find.
Context (addr : ptr -> Z) (Haddr : forall p q, addr p = addr q -> p = q).

(** A candidate that can be the tip and that no other one beats *)
Definition top_candidate (st : CChainState) (p : ptr) : Prop :=
  p ∈ setBlockIndexCandidates st /\ eligible (cs_map st) p /\ forall q, q ∈ setBlockIndexCandidates st -> ~ wlt addr (cs_map st) p q.

Lemma FindMostWorkChain_loop_ok fuel : forall st, ready st -> (size (setBlockIndexCandidates st) <= fuel)%nat ->
  exists r st', FindMostWorkChain_loop addr fuel st = Some (r, st') /\ marked st st' /\
    match r with Some p => top_candidate st' p | None => setBlockIndexCandidates st' = ∅ end.
Proof.
  induction fuel as [|fuel IH]; intros st R Hs.
  all: pose proof (best_candidate_spec addr Haddr st (r_index st R)) as Hbest.
  all: destruct (best_candidate addr st) as [p|] eqn:Eb.
  all: cbn [FindMostWorkChain_loop]; rewrite Eb.
  2, 4: eexists None, st; split; [done|]; split; [apply marked_refl|]; apply Hbest; intros q Hq; destruct (r_cand st R q Hq) as (c & Hc & _); eauto.
  all: destruct Hbest as [Hp Hmax]; [intros q Hq; destruct (r_cand st R q Hq) as (c & Hc & _); eauto|].
  all: destruct (r_cand st R p Hp) as (b & Hb & Hn).
  - assert (setBlockIndexCandidates st = ∅) as E by (apply leibniz_equiv, size_empty_iff; lia). rewrite E in Hp. set_solver.
  - assert (path_fuel (cs_map st) p = S (Z.to_nat (nHeight b))) as -> by (unfold path_fuel; by rewrite Hb).
    pose proof (height_range _ (r_index st R) p b Hb).
    destruct (test_path_ok st (S (Z.to_nat (nHeight b))) p b R Hb Hn ltac:(lia)) as (r & -> & Hr). cbn [mbind option_bind].
    destruct r as [|t f].
    + exists (Some p), st. split; [done|]. split; [apply marked_refl|]. split; [done|]. split; [|done]. split; [eauto|done].
    + destruct Hr as (-> & n & c & Hu & Hc & Hf).
      destruct (note_invalid_ok st p b ltac:(eauto) (r_best st R) Hb) as (x & -> & Hx). cbn [mbind option_bind].
      assert (marked st (set_best_invalid st x)) as M0.
      { split; try done; [apply evolves_refl|]. intros q Hq. cbn in Hq. destruct Hx as [-> | ->]; [|by left].
        injection Hq as <-. right. eauto. }
      destruct (up_height _ (r_index st R) n p b t Hb Hu) as (c' & Hc' & Eh). pose proof (height_range _ (r_index st R) t c' Hc').
      destruct (drop_path_ok (path_fuel (cs_map (set_best_invalid st x)) p) (set_best_invalid st x) t p n c) as (st1 & -> & M1 & Hout & _);
        [by apply (ready_marked st) | done | done | done | unfold path_fuel; change (cs_map (set_best_invalid st x)) with (cs_map st); rewrite Hb; lia |].
      cbn [mbind option_bind]. pose proof (marked_trans _ _ _ M0 M1) as M.
      destruct (IH st1) as (r & st' & Er & M2 & Hr); [by apply (ready_marked st)| |].
      * assert (size (setBlockIndexCandidates st1) < size (setBlockIndexCandidates st))%nat; [|lia].
        apply subset_size. split; [apply M|]. intros Hsub. by apply Hout, Hsub.
      * exists r, st'. split; [done|]. split; [by eapply marked_trans | done].
Qed.
End Find.

(** *** Moving the tip *)

(** A block that is or could be in the active chain, with all blocks before it *)
Definition sound_chain (m : BlockMap) (t : ptr) : Prop :=
  forall n q c, up m n t = Some q -> m !! q = Some c -> nChainTx c <> 0 /\ failed c = false /\ scripts_ok c.

Lemma chain_member m v t i q : index_ok m -> chain_is m v t -> chain_at v i = Some q -> exists n, up m n t = Some q.
Proof.
  intros Hm (b & Hb & Hv & Hat) Hi.
  destruct (decide (0 <= i < vsize v)) as [Hr|Ho]; [|by rewrite chain_at_out in Hi by lia].
  rewrite Hat in Hi by lia. exists (Z.to_nat (nHeight b - i)). by rewrite <- (ancestor_at m t b) by (done || lia).
Qed.

Lemma member_chain m v t n q c : index_ok m -> chain_is m v t -> up m n t = Some q -> m !! q = Some c -> chain_at v (nHeight c) = Some q.
Proof.
  intros Hm (b & Hb & Hv & Hat) Hu Hc. destruct (up_height m Hm n t b q Hb Hu) as (c' & Hc' & Eh). simplify_eq.
  pose proof (height_range m Hm q c Hc). rewrite Hat by lia. rewrite (ancestor_at m t b) by (done || lia).
  by replace (Z.to_nat (nHeight b - nHeight c)) with n by lia.
Qed.

Lemma tip_chain st t : ready st -> Tip (chainActive st) = Some t -> chain_is (cs_map st) (chainActive st) t.
Proof.
  intros R Ht. destruct (r_chain st R) as [E|[p Hp]]; [by rewrite E in Ht|].
  rewrite (chain_is_tip _ (r_index st R) _ p Hp) in Ht. by injection Ht as <-.
Qed.

Lemma tip_sound st t : ready st -> Tip (chainActive st) = Some t -> sound_chain (cs_map st) t.
Proof.
  intros R Ht n q c Hu Hc. apply (r_active st R (nHeight c) q c); [|done].
  apply (member_chain _ _ t n q c (r_index st R)); [by apply tip_chain | done | done].
Qed.

Lemma sound_clean m t : sound_chain m t -> clean m t.
Proof. intros H n q c Hu Hc. by destruct (H n q c Hu Hc) as (_ & ? & _). Qed.

Lemma sound_up m t n q : sound_chain m t -> up m n t = Some q -> sound_chain m q.
Proof. intros H Hn k r c Hr. apply (H (n + k)%nat). by rewrite up_add, Hn. Qed.

Lemma ready_set_active st v t : ready st -> chain_is (cs_map st) v t -> sound_chain (cs_map st) t -> ready (set_active st v).
Proof.
  intros [R1 R2 R3 R4 R5 R6 R7 R8 R9 R10] Hv Hs. split; try done.
  - right. by exists t.
  - intros i q c Hi Hc. destruct (chain_member _ v t i q R1 Hv Hi) as [n Hn]. by apply (Hs n q).
Qed.

Lemma ready_no_chain st : ready st -> ready (set_active st []).
Proof.
  intros [R1 R2 R3 R4 R5 R6 R7 R8 R9 R10]. split; try done; [by left|]. intros i q c Hi. cbn in Hi. by rewrite chain_at_out in Hi by (unfold vsize; cbn; lia).
Qed.

(** The state with the chain cut at [t] *)
Lemma SetTip_ready st t : ready st -> match t with Some t => is_Some (cs_map st !! t) /\ sound_chain (cs_map st) t | None => True end ->
  exists v, SetTip (cs_map st) (chainActive st) t = Some v /\ ready (set_active st v) /\ Tip v = t.
Proof.
  intros R Ht. destruct t as [t|].
  - destruct Ht as [[b Hb] Hs]. destruct (SetTip_spec _ (r_index st R) _ t b (r_chain st R) Hb) as (v & E & Hv).
    exists v. split; [done|]. split; [by apply ready_set_active with t|]. apply (chain_is_tip _ (r_index st R) v t Hv).
  - exists []. split; [done|]. split; [by apply ready_no_chain | done].
Qed.

Lemma tip_entry st t : ready st -> Tip (chainActive st) = Some t -> exists b, cs_map st !! t = Some b.
Proof. intros R Ht. destruct (tip_chain st t R Ht) as (b & Hb & _). eauto. Qed.

(** *** The steps *)

(** What is relied on of connecting blocks: the entry keeps its place, its data and its marks, and
    is marked as checked when the block is connected; the genesis block is not found invalid; and a
    block is only called invalid when it cannot just be corrupted.  [NodeOps.v] shows this of
    [ConnectBlock]. *)
Record ops_ok {W} (ops : BlockOps W) : Prop := {
  connect_ok : forall m v p blk s s' b b', m !! p = Some b -> failed b = false -> op_connect ops m v p blk s = BlockConnected s' b' ->
    entry_evolves b b' /\ failed b' = failed b /\ scripts_ok b';
  connect_invalid : forall m v p blk s s' b b' c, m !! p = Some b -> op_connect ops m v p blk s = BlockInvalid s' b' c ->
    entry_evolves b b' /\ failed b' = failed b /\ nHeight b <> 0 /\ c = false;
  connect_failed : forall m v p blk s s' b b', m !! p = Some b -> op_connect ops m v p blk s = ConnectFailed s' b' ->
    entry_evolves b b' /\ failed b' = failed b }.

(** A block that was connected once is called invalid, and was not before: connecting it again has
    failed. *)
Definition reneged (m m' : BlockMap) : Prop :=
  exists p b', m' !! p = Some b' /\ has b' BLOCK_FAILED_VALID = true /\ scripts_ok b' /\ forall b, m !! p = Some b -> has b BLOCK_FAILED_VALID = false.

(** No mark is taken away. *)
Definition keeps_marks (m m' : BlockMap) : Prop :=
  forall p b, m !! p = Some b -> has b BLOCK_FAILED_VALID = true -> exists b', m' !! p = Some b' /\ has b' BLOCK_FAILED_VALID = true.

Lemma has_failed_valid b : has b BLOCK_FAILED_VALID = true -> failed b = true.
Proof.
  unfold has. intros H%negb_true_iff%Z.eqb_neq. apply negb_true_iff, Z.eqb_neq. intros E. apply H.
  change BLOCK_FAILED_VALID with (Z.land BLOCK_FAILED_MASK BLOCK_FAILED_VALID). by rewrite Z.land_assoc, E.
Qed.

Lemma evolves_marks m m' : evolves m m' -> keeps_marks m m'.
Proof. intros He p b Hb Hf. destruct (evolved_lookup _ _ He p b Hb) as (c & Hc & (_ & _ & _ & _ & _ & E & _)). exists c. auto. Qed.
Lemma keeps_marks_trans m1 m2 m3 : keeps_marks m1 m2 -> keeps_marks m2 m3 -> keeps_marks m1 m3.
Proof. intros H1 H2 p b Hb Hf. destruct (H1 p b Hb Hf) as (c & Hc & Hcf). by apply (H2 p c). Qed.
Lemma reneged_l m1 m2 m3 : reneged m1 m2 -> evolves m2 m3 -> reneged m1 m3.
Proof.
  intros (p & b' & Hb' & H1 & H2 & H3) He. destruct (evolved_lookup _ _ He p b' Hb') as (c & Hc & (_ & _ & _ & _ & _ & E1 & E2 & _)).
  exists p, c. split_and!; auto.
Qed.
Lemma reneged_r m1 m2 m3 : keeps_marks m1 m2 -> reneged m2 m3 -> reneged m1 m3.
Proof.
  intros Hk (p & b' & Hb' & H1 & H2 & H3). exists p, b'. split_and!; try done. intros b Hb. destruct (has b BLOCK_FAILED_VALID) eqn:Ef; [|done].
  destruct (Hk p b Hb Ef) as (c & Hc & Hcf). rewrite (H3 c Hc) in Hcf. done.
Qed.

(** What holds along the steps: [later] states keep sound chains sound, unless a block is refused,
    and lose candidates only. *)
Record later (st st' : CChainState) : Prop := {
  lt_evolves : evolves (cs_map st) (cs_map st');
  lt_sound : reneged (cs_map st) (cs_map st') \/ forall p, sound_chain (cs_map st) p -> sound_chain (cs_map st') p;
  lt_unlinked : mapBlocksUnlinked st' = mapBlocksUnlinked st;
  lt_cand : setBlockIndexCandidates st' ⊆ setBlockIndexCandidates st }.

Lemma later_refl st : later st st.
Proof. split; try done; [apply evolves_refl | by right]. Qed.
Lemma later_trans st1 st2 st3 : later st1 st2 -> later st2 st3 -> later st1 st3.
Proof.
  intros [A1 A2 A3 A4] [B1 B2 B3 B4]. split; try (by etrans); [by eapply evolves_trans|].
  destruct A2 as [A2|A2]; [left; by eapply reneged_l|]. destruct B2 as [B2|B2]; [left; by eapply reneged_r, B2; apply evolves_marks | right; auto].
Qed.
Lemma later_active st v : later st (set_active st v).
Proof. split; try done; [apply evolves_refl | by right]. Qed.

Lemma sound_evolves m m' p : evolves m m' -> (clean m p -> clean m' p) -> sound_chain m p -> sound_chain m' p.
Proof.
  intros He Hc Hs n q c' Hu Hq. rewrite (same_up m m' (evolves_tree m m' He)) in Hu.
  destruct (evolved_lookup_rev m m' He q c' Hq) as (c & Hqc & (_ & _ & E1 & _ & _ & _ & E2)).
  destruct (Hs n q c Hu Hqc) as (A1 & _ & A3). rewrite E1. split; [done|]. split; [|by apply E2].
  apply (Hc (sound_clean m p Hs) n q c'); [|done]. by rewrite (same_up m m' (evolves_tree m m' He)).
Qed.

Lemma marked_later st st' : marked st st' -> later st st'.
Proof. intros [A1 A2 A3 A4 A5 A6 A7 A8 A9]. split; try done. right. intros p. apply (sound_evolves _ _ p A1 (A2 p)). Qed.

Section Moves.
Context (C : Crypto) (addr : ptr -> Z) (Haddr : forall p q, addr p = addr q -> p = q) {W : Type} (ops : BlockOps W) (Hops : ops_ok ops).

Lemma DisconnectTip_ok st s t b : ready st -> Tip (chainActive st) = Some t -> cs_map st !! t = Some b ->
  exists ok v s', DisconnectTip ops st s = Some (ok, set_active st v, s') /\ ready (set_active st v) /\
    Tip v = if (ok : bool) then pprev b else Some t.
Proof.
  intros R Ht Hb. unfold DisconnectTip. rewrite Ht. cbn [mbind option_bind]. rewrite Hb. cbn [mbind option_bind].
  destruct (op_disconnect ops _ _ _ s) as [[] s1]; [|exists false, (chainActive st), s1; split; [by destruct st|]; split; [|done]; by destruct st].
  destruct (op_flush ops FLUSH_IF_NEEDED s1) as [s2|].
  - destruct (SetTip_ready st (pprev b) R) as (v & E & Rv & Tv).
    + destruct (pprev b) as [q|] eqn:Eq; [|done]. destruct (prev_entry _ (r_index st R) t b q Hb Eq) as (c & Hc & _). split; [eauto|].
      apply (sound_up _ t 1 q (tip_sound st t R Ht)). cbn [up]. rewrite Hb. cbn [mbind option_bind]. by rewrite Eq.
    + rewrite E. cbn [mbind option_bind]. by exists true, v, s2.
  - exists false, (chainActive st), s1. split; [by destruct st|]. split; [|done]. by destruct st.
Qed.

Lemma set_active_twice st v v' : set_active (set_active st v) v' = set_active st v'.
Proof. done. Qed.

Lemma no_tip st : ready st -> Tip (chainActive st) = None -> chainActive st = [].
Proof. intros R Et. destruct (r_chain st R) as [E|[x Hx]]; [done | by rewrite (chain_is_tip _ (r_index st R) _ x Hx) in Et]. Qed.

(** The chain without its tip *)
Lemma shorter_chain st t b v : ready st -> Tip (chainActive st) = Some t -> cs_map st !! t = Some b -> ready (set_active st v) -> Tip v = pprev b ->
  (length v < length (chainActive st))%nat /\ (forall k f, chain_at (chainActive st) k = Some f -> f <> t -> chain_at v k = Some f).
Proof.
  intros R Et Hb Rv Tv. pose proof (r_index st R) as Hm. destruct (tip_chain st t R Et) as (b' & Hb' & Hsz & Hat). rewrite Hb in Hb'. injection Hb' as <-.
  assert (forall k f, chain_at (chainActive st) k = Some f -> 0 <= k <= nHeight b) as Hin.
  { intros k f Hk. destruct (decide (0 <= k < vsize (chainActive st))) as [Hr|Ho]; [lia | by rewrite chain_at_out in Hk by lia]. }
  unfold vsize in *. destruct (pprev b) as [q|] eqn:Eq.
  - destruct (tip_chain (set_active st v) q Rv Tv) as (c & Hc & Hsz' & Hat'). change (cs_map (set_active st v)) with (cs_map st) in *. change (chainActive (set_active st v)) with v in *.
    unfold vsize in *. destruct (prev_entry _ Hm t b q Hb Eq) as (c' & Hc' & Eh). simplify_eq. split; [lia|]. intros k f Hk Hne. pose proof (Hin k f Hk).
    rewrite Hat in Hk by lia. destruct (Z.eq_dec k (nHeight b)) as [->|Hkb]; [rewrite (ancestor_self _ Hm t b Hb) in Hk; congruence|].
    rewrite Hat' by lia. rewrite <- Hk, (ancestor_at _ t b), (ancestor_at _ q c) by (done || lia).
    replace (Z.to_nat (nHeight b - k)) with (S (Z.to_nat (nHeight c - k))) by lia. by rewrite (up_pprev _ _ t b q).
  - pose proof (no_tip _ Rv Tv) as Ev. cbn in Ev. subst v. pose proof (height_range _ Hm t b Hb). split; [cbn; lia|].
    destruct (Hm t b Hb) as (_ & _ & _ & Hpp). rewrite Eq in Hpp. intros k f Hk Hne. pose proof (Hin k f Hk). assert (k = nHeight b) as -> by lia.
    rewrite Hat, (ancestor_self _ Hm t b Hb) in Hk by lia. congruence.
Qed.

Lemma disconnect_to_ok fuel : forall st fork s, ready st ->
  match fork with
  | Some f => exists k, chain_at (chainActive st) k = Some f
  | None => True
  end -> (length (chainActive st) <= fuel)%nat ->
  exists ok v s', disconnect_to ops fuel st fork s = Some (ok, set_active st v, s') /\ ready (set_active st v) /\
    (ok = true -> Tip v = fork).
Proof.
  induction fuel as [|fuel IH]; intros st fork s R Hf Hn.
  all: cbn [disconnect_to]; destruct (Tip (chainActive st)) as [t|] eqn:Et.
  1: destruct (chainActive st); [done | cbn in Hn; lia].
  1, 3: exists true, (chainActive st), s; rewrite (bool_decide_eq_true_2 (None = None)) by done; cbn [orb]; split; [by destruct st|]; split; [by destruct st|];
    intros _; destruct fork as [f|]; [|done]; destruct Hf as [k Hk]; rewrite (no_tip st R Et) in Hk; by rewrite chain_at_out in Hk by (unfold vsize; cbn; lia).
  rewrite (bool_decide_eq_false_2 (Some t = None)) by done. cbn [orb]. destruct (bool_decide_reflect (Some t = fork)) as [<-|Hne].
  - exists true, (chainActive st), s. split; [by destruct st|]. split; [by destruct st | done].
  - destruct (tip_entry st t R Et) as [b Hb]. destruct (DisconnectTip_ok st s t b R Et Hb) as (ok & v & s1 & E & Rv & Tv).
    rewrite E. cbn [mbind option_bind]. destruct ok; [|exists false, v, s1; by split_and!]. destruct (shorter_chain st t b v R Et Hb Rv Tv) as [Hlen Hkeep].
    destruct (IH (set_active st v) fork s1 Rv) as (ok & v' & s2 & E2 & Rv' & Hok).
    + destruct fork as [f|]; [|done]. destruct Hf as [k Hk]. exists k. apply Hkeep; [done | congruence].
    + cbn. lia.
    + rewrite E2. exists ok, v', s2. by split_and!.
Qed.

(** *** Connecting blocks *)

(** The blocks that are not marked *)
Definition unmarked (m : BlockMap) : gset (list Z) := dom (filter (fun e => failed (snd e) = false) m).

Lemma elem_of_unmarked m p : p ∈ unmarked m <-> exists b, m !! p = Some b /\ failed b = false.
Proof.
  unfold unmarked. rewrite elem_of_dom. unfold is_Some. setoid_rewrite map_lookup_filter_Some. cbn. naive_solver.
Qed.

Lemma unmarked_evolves m m' : evolves m m' -> unmarked m' ⊆ unmarked m.
Proof.
  intros He p. rewrite !elem_of_unmarked. intros (b' & Hb' & Hf). destruct (evolved_lookup_rev m m' He p b' Hb') as (b & Hb & (_ & _ & _ & _ & _ & Hx & _)).
  exists b. split; [done|]. destruct (failed b) eqn:E; [pose proof (Hx _ (or_introl eq_refl) E); congruence | done].
Qed.

(** The entry of [p] changes, but its mark does not. *)
Lemma entry_later st p b b' : ready st -> cs_map st !! p = Some b -> entry_evolves b b' -> failed b' = failed b ->
  marked st (set_entry st p b').
Proof.
  intros R Hp He Hf. split; try done; [by apply evolves_insert with b | | by left].
  intros q Hq n r c Hu Hr. rewrite (same_up (cs_map st)) in Hu by (apply evolves_tree; by apply evolves_insert with b).
  change (cs_map (set_entry st p b')) with (<[p := b']> (cs_map st)) in Hr. destruct (decide (r = p)) as [->|Hne].
  - rewrite lookup_insert_eq in Hr. injection Hr as <-. rewrite Hf. by apply (Hq n p).
  - rewrite lookup_insert_ne in Hr by done. by apply (Hq n r).
Qed.

(** A block that is not in the chain is marked. *)
Lemma mark_invalid st p b : ready st -> cs_map st !! p = Some b -> failed b = false -> (forall i, chain_at (chainActive st) i <> Some p) ->
  let st' := erase_candidate (set_entry st p (set_nStatus b (Z.lor (nStatus b) BLOCK_FAILED_VALID))) p in
  ready st' /\ later st st' /\ unmarked (cs_map st') ⊂ unmarked (cs_map st) /\
  (forall q, q ∈ setBlockIndexCandidates st -> clean (cs_map st') q -> q ∈ setBlockIndexCandidates st').
Proof.
  intros R Hp Hunf Hn st'. set (b' := set_nStatus b (Z.lor (nStatus b) BLOCK_FAILED_VALID)) in *.
  pose proof (mark_evolves b BLOCK_FAILED_VALID (or_intror eq_refl)) as He. fold b' in He.
  assert (evolves (cs_map st) (cs_map st')) as Hev by (by apply evolves_insert with b).
  assert (failed b' = true) as Hfail by (unfold b'; rewrite has_lor; by rewrite orb_true_r).
  assert (cs_map st' !! p = Some b') as Hp' by apply lookup_insert_eq.
  assert (forall q c, q <> p -> cs_map st' !! q = Some c -> cs_map st !! q = Some c) as Hother
    by (intros q c Hq Hc; unfold st' in Hc; cbn in Hc; by rewrite lookup_insert_ne in Hc by done).
  assert (reneged (cs_map st) (cs_map st') \/ forall q, sound_chain (cs_map st) q -> sound_chain (cs_map st') q) as Hsound.
  { destruct (decide (nHeight b = 0 \/ BLOCK_VALID_SCRIPTS <= Z.land (nStatus b) BLOCK_VALID_MASK)) as [Hs|Hs].
    - left. exists p, b'. split; [done|]. split; [unfold b'; by rewrite has_lor, orb_true_r|]. split; [by apply He|]. intros c Hc. assert (c = b) as -> by congruence.
      destruct (has b BLOCK_FAILED_VALID) eqn:Ev; [|done]. by rewrite (has_failed_valid b Ev) in Hunf.
    - right. intros q Hq. apply (sound_evolves _ _ q Hev); [|done]. intros Hc n r c Hu Hr.
      rewrite (same_up _ _ (evolves_tree _ _ Hev)) in Hu. destruct (decide (r = p)) as [->|Hne].
      + by destruct (Hq n p b Hu Hp) as (_ & _ & Hs').
      + by apply (Hc n r c Hu), Hother. }
  split; [|split; [|split]].
  - apply (ready_evolves st); try done.
    + intros i q c Hi Hc. destruct (decide (q = p)) as [->|Hne]; [by destruct (Hn i) | by apply (r_active st R i q c Hi), Hother].
    + intros q Hq. apply (r_cand st R). apply elem_of_difference in Hq. by destruct Hq.
    + by left.
    + by left.
  - split; [done | done | done | ]. cbn. clear. set_solver.
  - split; [by apply unmarked_evolves|]. intros Hsub.
    assert (p ∈ unmarked (cs_map st)) as Hin by (apply elem_of_unmarked; eauto).
    apply Hsub, elem_of_unmarked in Hin as (c & Hc & Hcf). congruence.
  - intros q Hq Hc. apply elem_of_difference. split; [done|]. intros ->%elem_of_singleton.
    pose proof (clean_self _ p b' Hp' Hc). congruence.
Qed.

Lemma InvalidChainFound_ok st p t : ready st -> is_Some (cs_map st !! p) -> Tip (chainActive st) = Some t ->
  exists x, InvalidChainFound st p = Some (set_best_invalid st x) /\ ready (set_best_invalid st x).
Proof.
  intros R [b Hb] Ht. destruct (note_invalid_ok st p b ltac:(eauto) (r_best st R) Hb) as (x & E & Hx).
  exists x. unfold InvalidChainFound. rewrite E. cbn [mbind option_bind]. change (chainActive (set_best_invalid st x)) with (chainActive st).
  rewrite Ht. split; [done|]. destruct R as [R1 R2 R3 R4 R5 R6 R7 R8 R9 R10]. split; try done.
  intros q Hq. cbn in Hq. destruct Hx as [-> | ->]; [injection Hq as <-; eauto | by apply R8].
Qed.

Lemma ready_dirty st p b : ready st -> cs_map st !! p = Some b -> has b BLOCK_FAILED_VALID = true ->
  ready (set_dirty (set_failed st ({[p]} ∪ m_failed_blocks st)) p).
Proof.
  intros [R1 R2 R3 R4 R5 R6 R7 R8 R9 R10] Hp Hf. split; try done. intros q [->%elem_of_singleton|Hq]%elem_of_union; [by exists b | by apply R9].
Qed.

(** The block above the tip is not in the chain. *)
Lemma next_not_in_chain st p b : ready st -> cs_map st !! p = Some b -> pprev b = Tip (chainActive st) -> forall i, chain_at (chainActive st) i <> Some p.
Proof.
  intros R Hp Ht i Hi. pose proof (r_index st R) as Hm. destruct (Tip (chainActive st)) as [t|] eqn:Et.
  - destruct (tip_chain st t R Et) as (bt & Hbt & Hsz & Hat). destruct (prev_entry _ Hm p b t Hp Ht) as (c & Hc & Eh).
    rewrite Hbt in Hc. injection Hc as <-. destruct (decide (0 <= i < vsize (chainActive st))) as [Hr|Ho]; [|by rewrite chain_at_out in Hi by lia]. rewrite Hat in Hi by lia.
    destruct (ancestor_inv _ Hm t bt i p Hbt Hi) as (? & b' & Hb' & E). rewrite Hp in Hb'. injection Hb' as <-. lia.
  - rewrite (no_tip st R Et) in Hi. by rewrite chain_at_out in Hi by (unfold vsize; cbn; lia).
Qed.

(** What one turn does, when the block's predecessor is the tip *)
Lemma ConnectTip_ok st p b pblock s : ready st -> cs_map st !! p = Some b -> pprev b = Tip (chainActive st) -> eligible (cs_map st) p ->
  exists r st' s', ConnectTip ops st p pblock s = Some (r, st', s') /\ ready st' /\ later st st' /\
    match r with
    | TipConnected => Tip (chainActive st') = Some p /\ setBlockIndexCandidates st' = setBlockIndexCandidates st /\
        (forall q, clean (cs_map st) q -> clean (cs_map st') q)
    | TipInvalid c => c = false /\ (exists t, Tip (chainActive st) = Some t) /\ chainActive st' = chainActive st /\
        unmarked (cs_map st') ⊂ unmarked (cs_map st) /\
        (forall q, q ∈ setBlockIndexCandidates st -> clean (cs_map st') q -> q ∈ setBlockIndexCandidates st')
    | TipFailed => True
    end.
Proof.
  intros R Hp Ht [[b0 [Hb0 Hlink]] Hcl]. rewrite Hp in Hb0. injection Hb0 as <-.
  unfold ConnectTip. rewrite Hp. cbn [mbind option_bind]. rewrite bool_decide_eq_true_2 by done. cbn [negb].
  destruct (op_connect ops _ _ _ _ _) as [s1 b1|s1 b1 c|s1 b1] eqn:Eo.
  - destruct (connect_ok ops Hops _ _ _ _ _ _ _ _ Hp (clean_self _ p b Hp Hcl) Eo) as (He & Hf & Hs).
    pose proof (entry_later st p b b1 R Hp He Hf) as M. pose proof (ready_marked _ _ R M) as R1.
    destruct (op_flush ops FLUSH_IF_NEEDED s1) as [s2|].
    2: { exists TipFailed, (set_entry st p b1), s1. split; [done|]. split; [done|]. split; [by apply marked_later | done]. }
    assert (cs_map (set_entry st p b1) !! p = Some b1) as Hp1 by apply lookup_insert_eq.
    destruct (SetTip_ready (set_entry st p b1) (Some p) R1) as (v & E & Rv & Tv).
    { split; [eauto|]. destruct He as ((_ & Epp & _) & _ & Ec & _). intros [|n] q c Hu Hq.
      - cbn in Hu. injection Hu as <-. rewrite Hp1 in Hq. injection Hq as <-. rewrite Ec, Hf.
        split; [done|]. split; [|done]. by apply (clean_self _ p b Hp).
      - cbn [up] in Hu. rewrite Hp1 in Hu. cbn [mbind option_bind] in Hu. rewrite Epp in Hu.
        destruct (pprev b) as [t|] eqn:Eq; [|done]. cbn [mbind option_bind] in Hu. symmetry in Ht.
        apply (tip_sound (set_entry st p b1) t R1 Ht n q c Hu Hq). }
    rewrite E. cbn [mbind option_bind]. exists TipConnected, (set_active (set_entry st p b1) v), s2. split; [done|]. split; [done|].
    split; [apply (later_trans _ (set_entry st p b1)); [by apply marked_later | apply later_active]|].
    split; [done|]. split; [done|]. apply (mk_clean _ _ M).
  - destruct (connect_invalid ops Hops _ _ _ _ _ _ _ _ _ Hp Eo) as (He & Hf & Hs & ->).
    pose proof (entry_later st p b b1 R Hp He Hf) as M. pose proof (ready_marked _ _ R M) as R1.
    assert (cs_map (set_entry st p b1) !! p = Some b1) as Hp1 by apply lookup_insert_eq.
    assert (exists t, Tip (chainActive st) = Some t) as [t Htip].
    { destruct (Tip (chainActive st)) as [t|]; [eauto|]. destruct Hs.
      destruct (r_index st R p b Hp) as (_ & _ & _ & Hx). rewrite Ht in Hx. by destruct Hx. }
    destruct (mark_invalid (set_entry st p b1) p b1 R1 Hp1) as (R2 & L2 & U2 & K2).
    { rewrite Hf. by apply (clean_self _ p b Hp). }
    { by apply (next_not_in_chain st p b). }
    unfold InvalidBlockFound, add_status. rewrite Hp1. cbn [mbind option_bind].
    set (st2 := erase_candidate _ p) in R2, L2, U2, K2.
    set (f := {[p]} ∪ m_failed_blocks _).
    change (erase_candidate (set_dirty (set_failed _ f) p) p) with (set_dirty (set_failed st2 f) p).
    destruct (InvalidChainFound_ok (set_dirty (set_failed st2 f) p) p t) as (x & E & R3).
    { apply (ready_dirty st2 p (set_nStatus b1 (Z.lor (nStatus b1) BLOCK_FAILED_VALID)) R2); [apply lookup_insert_eq|]. by rewrite has_lor, orb_true_r. }
    { cbn. rewrite lookup_insert_eq. eauto. }
    { done. }
    rewrite E. cbn [mbind option_bind]. eexists (TipInvalid false), _, s1. split; [done|]. split; [done|].
    split; [apply (later_trans _ (set_entry st p b1)); [by apply marked_later | by destruct L2; split]|].
    split; [done|]. split; [eauto|]. split; [done|]. split.
    + pose proof (unmarked_evolves _ _ (mk_evolves _ _ M)). clear -U2 H. set_solver.
    + intros q Hq Hqc. by apply K2.
  - destruct (connect_failed ops Hops _ _ _ _ _ _ _ _ Hp Eo) as (He & Hf).
    pose proof (entry_later st p b b1 R Hp He Hf) as M.
    exists TipFailed, (set_entry st p b1), s1. split; [done|]. split; [by apply (ready_marked st)|]. split; [by apply marked_later | done].
Qed.

Lemma work_up st n : ready st -> forall p q b c, cs_map st !! p = Some b -> up (cs_map st) n p = Some q -> cs_map st !! q = Some c ->
  val (nChainWork c) <= val (nChainWork b) /\ (n <> 0%nat -> val (nChainWork c) < val (nChainWork b)).
Proof.
  intros R. induction n as [|n IH]; intros p q b c Hp Hu Hq.
  - cbn in Hu. simplify_eq. lia.
  - cbn [up] in Hu. rewrite Hp in Hu. cbn [mbind option_bind] in Hu. destruct (pprev b) as [r|] eqn:Er; [|done]. cbn [mbind option_bind] in Hu.
    destruct (prev_entry _ (r_index st R) p b r Hp Er) as (d & Hd & _). destruct (IH r q d c Hd Hu Hq) as [H1 _].
    pose proof (r_work st R p b r d Hp Er Hd). lia.
Qed.

Lemma ancestor_not_worse st p q b n : ready st -> cs_map st !! p = Some b -> up (cs_map st) n p = Some q -> ~ wlt addr (cs_map st) p q.
Proof.
  intros R Hp Hu (b' & c & Hb' & Hc & Hr). simplify_eq. destruct (work_up st n R p q b c Hp Hu Hc) as [H1 H2].
  destruct n as [|n]; [cbn in Hu; simplify_eq; cbn in Hr; lia|]. specialize (H2 ltac:(done)). cbn in Hr. lia.
Qed.

Lemma Prune_ok st t x : ready st -> Tip (chainActive st) = Some t -> x ∈ setBlockIndexCandidates st -> ~ wlt addr (cs_map st) x t ->
  exists c, PruneBlockIndexCandidates addr st = Some (set_candidates st c) /\ ready (set_candidates st c) /\
    forall q, q ∈ c <-> q ∈ setBlockIndexCandidates st /\ ~ wlt addr (cs_map st) q t.
Proof.
  intros R Ht Hx Hw. unfold PruneBlockIndexCandidates. rewrite Ht. cbn [mbind option_bind].
  set (c := filter _ _). destruct (tip_entry st t R Ht) as [bt Hbt].
  assert (forall q, q ∈ c <-> q ∈ setBlockIndexCandidates st /\ ~ wlt addr (cs_map st) q t) as Hc.
  { intros q. unfold c. rewrite elem_of_filter. split; intros [H1 H2].
    - split; [done|]. intros Hwq. apply H1. destruct (r_cand st R q H2) as (b & Hb & _).
      destruct (worse_spec addr _ q t b bt (r_index st R) Hb Hbt) as (w & -> & Hw'). by rewrite (proj2 Hw' Hwq).
    - split; [|done]. intros E. apply H2. destruct (r_cand st R q H1) as (b & Hb & _).
      destruct (worse_spec addr _ q t b bt (r_index st R) Hb Hbt) as (w & Ew & Hw'). apply Hw'. congruence. }
  exists c. rewrite decide_False by (intros E; assert (x ∈ c) as Hxc by (by apply Hc); rewrite E in Hxc; by apply elem_of_empty in Hxc).
  split; [done|]. split; [|done]. destruct R as [R1 R2 R3 R4 R5 R6 R7 R8 R9 R10]. split; try done. intros q Hq. apply Hc in Hq as [Hq _]. by apply R7.
Qed.

(** Every block that can be the tip is a candidate, or worse than [ref] or the tip. *)
Definition covered (st : CChainState) (ref : option ptr) : Prop :=
  forall p, eligible (cs_map st) p ->
    p ∈ setBlockIndexCandidates st \/ wlt_opt addr (cs_map st) p ref \/ wlt_opt addr (cs_map st) p (Tip (chainActive st)).

Lemma eligible_before m m' p : evolves m m' -> eligible m' p -> eligible m p.
Proof.
  intros He [(b & Hb & Hn) Hc]. destruct (evolved_lookup_rev m m' He p b Hb) as (b0 & Hb0 & (_ & _ & E & _)).
  split; [exists b0; by rewrite <- E | by apply (clean_before m m')].
Qed.
Lemma eligible_after m m' p : evolves m m' -> (clean m p -> clean m' p) -> eligible m p -> eligible m' p.
Proof.
  intros He Hcl [(b & Hb & Hn) Hc]. destruct (evolved_lookup m m' He p b Hb) as (b0 & Hb0 & (_ & _ & E & _)).
  split; [exists b0; by rewrite E | by apply Hcl].
Qed.

Lemma wlt_opt_evolves m m' p q : evolves m m' -> wlt_opt addr m p q -> wlt_opt addr m' p q.
Proof. intros He. destruct q; [|done]. cbn. by apply (wlt_evolves addr m m'). Qed.

(** The goal of a step: a candidate whose blocks from height [h + 1] on are to be connected *)
Record goal_ok (st : CChainState) (mw : ptr) (h : Z) : Prop := {
  g_cand : mw ∈ setBlockIndexCandidates st;
  g_eligible : eligible (cs_map st) mw;
  g_tip : Tip (chainActive st) = ancestor (cs_map st) mw h;
  g_height : -1 <= h }.

Definition beats (m : BlockMap) (t : ptr) (old : option ptr) : Prop :=
  match old with None => True | Some o => exists a b, m !! o = Some a /\ m !! t = Some b /\ val (nChainWork a) < val (nChainWork b) end.

Lemma linked_back st n : ready st -> forall x y b, cs_map st !! x = Some b -> nChainTx b <> 0 -> up (cs_map st) n x = Some y ->
  exists c, cs_map st !! y = Some c /\ nChainTx c <> 0.
Proof.
  intros R. induction n as [|n IH]; intros x y b Hx Hn Hu; cbn [up] in Hu; [simplify_eq; eauto|].
  rewrite Hx in Hu. cbn [mbind option_bind] in Hu. destruct (pprev b) as [q|] eqn:Eq; [|done]. cbn [mbind option_bind] in Hu.
  destruct (prev_entry _ (r_index st R) x b q Hx Eq) as (c & Hc & _). apply (IH q y c Hc); [|done]. by apply (proj2 (r_linked st R x b Hx Hn) q c).
Qed.

(** The next block on the way to the goal *)
Lemma goal_next st mw h bm p : ready st -> goal_ok st mw h -> cs_map st !! mw = Some bm -> h + 1 <= nHeight bm -> ancestor (cs_map st) mw (h + 1) = Some p ->
  exists b n, cs_map st !! p = Some b /\ pprev b = Tip (chainActive st) /\ eligible (cs_map st) p /\ up (cs_map st) n mw = Some p.
Proof.
  intros R [Gc [(bm' & Hbm' & Hlm) Hcl] Gt Gh] Hbm Hh Hp. rewrite Hbm in Hbm'. injection Hbm' as <-. pose proof (r_index st R) as Hm.
  destruct (ancestor_inv _ Hm mw bm (h + 1) p Hbm Hp) as (_ & b & Hb & _).
  assert (up (cs_map st) (Z.to_nat (nHeight bm - (h + 1))) mw = Some p) as Hup by (rewrite <- (ancestor_at _ mw bm) by (done || lia); done).
  exists b, (Z.to_nat (nHeight bm - (h + 1))). split; [done|]. split.
  - rewrite Gt, (ancestor_pprev _ Hm mw bm b p (h + 1) Hbm Hp Hb). destruct (Z.eqb_spec (h + 1) 0).
    + unfold ancestor. rewrite Hbm. cbn. destruct (Z.leb_spec 0 h); [lia | done].
    + by replace (h + 1 - 1) with h by lia.
  - split; [|done]. split; [|by apply (clean_up _ mw _ p Hup)]. destruct (linked_back st _ R mw p bm Hbm Hlm Hup) as (c & Hc & Hn). eauto.
Qed.

Lemma covered_connected ref st st1 p b : ready st -> later st st1 -> covered st ref -> cs_map st !! p = Some b -> pprev b = Tip (chainActive st) ->
  Tip (chainActive st1) = Some p -> setBlockIndexCandidates st1 = setBlockIndexCandidates st -> covered st1 ref.
Proof.
  intros R L Hcov Hb Hpp T1 C1 q Hq. pose proof (lt_evolves _ _ L) as He. destruct (Hcov q (eligible_before _ _ q He Hq)) as [H|[H|H]];
    [left; by rewrite C1 | right; left; by apply (wlt_opt_evolves (cs_map st)) |].
  right. right. rewrite T1. cbn. destruct (Tip (chainActive st)) as [t|] eqn:Et; [|done]. apply (wlt_trans _ _ _ t); [by apply (wlt_evolves addr _ _ _ _ He)|].
  destruct (prev_entry _ (r_index st R) p b t Hb Hpp) as (ct & Hct & _). apply (wlt_evolves addr _ _ _ _ He).
  apply (wlt_work addr _ t p ct b Hct Hb). by apply (r_work st R p b t ct).
Qed.

(** Pruning after a block was connected *)
Lemma pruned_step ref st mw p n bm : ready st -> Tip (chainActive st) = Some p -> mw ∈ setBlockIndexCandidates st ->
  cs_map st !! mw = Some bm -> up (cs_map st) n mw = Some p ->
  exists c, PruneBlockIndexCandidates addr st = Some (set_candidates st c) /\ ready (set_candidates st c) /\ (covered st ref -> covered (set_candidates st c) ref) /\
    mw ∈ c /\ later st (set_candidates st c).
Proof.
  intros R Ht Hmw Hbm Hup. pose proof (ancestor_not_worse st mw p bm n R Hbm Hup) as Hnw.
  destruct (Prune_ok st p mw R Ht Hmw Hnw) as (c & E & R2 & Hc). exists c. split; [done|]. split; [done|]. split; [|split; [by apply Hc|]].
  - intros Hcov q Hq. destruct (Hcov q Hq) as [H|[H|H]]; [|right; by left | right; by right].
    destruct (r_cand st R q H) as (bq & Hbq & _). destruct (tip_entry st p R Ht) as [bp Hbp].
    destruct (worse_spec addr _ q p bq bp (r_index st R) Hbq Hbp) as (w & _ & Hw). destruct w.
    + right. right. change (wlt_opt addr (cs_map st) q (Tip (chainActive st))). rewrite Ht. cbn. by apply Hw.
    + left. apply Hc. split; [done|]. intros Hx. by apply Hw in Hx.
  - destruct (later_refl st) as [A1 A2 A3 A4]. split; try done. intros q Hq. by apply Hc in Hq as [? _].
Qed.

(** Whether the tip has more work than the one at the start *)
Lemma better_test st p old : ready st -> Tip (chainActive st) = Some p -> match old with Some o => is_Some (cs_map st !! o) | None => True end ->
  exists better, (match old with
    | None => Some true
    | Some o => t ← Tip (chainActive st); a ← cs_map st !! t; b ← cs_map st !! o; Some (ltb (nChainWork b) (nChainWork a))
    end) = Some better /\ (better = true -> beats (cs_map st) p old).
Proof.
  intros R Ht Hold. destruct old as [o|]; [|by exists true]. rewrite Ht. cbn [mbind option_bind]. destruct (tip_entry st p R Ht) as [bp Hbp]. rewrite Hbp. cbn [mbind option_bind].
  destruct Hold as [bo Hbo]. rewrite Hbo. cbn [mbind option_bind]. eexists. split; [done|]. destruct (r_index st R p bp Hbp) as (_ & _ & W1 & _).
  destruct (r_index st R o bo Hbo) as (_ & _ & W2 & _). rewrite (ltb_spec 8) by done. intros Hlt%Z.ltb_lt. by exists bo, bp.
Qed.

Lemma known_later st st' o : later st st' -> is_Some (cs_map st !! o) -> is_Some (cs_map st' !! o).
Proof. intros L [b Hb]. destruct (evolved_lookup _ _ (lt_evolves _ _ L) o b Hb) as (b' & Hb' & _). eauto. Qed.

(** A block on the way is found invalid. *)
Lemma invalid_step ref st st1 f : ready st1 -> later st st1 -> (exists t, Tip (chainActive st) = Some t) -> chainActive st1 = chainActive st ->
  (forall q, q ∈ setBlockIndexCandidates st -> clean (cs_map st1) q -> q ∈ setBlockIndexCandidates st1) -> is_Some (cs_map st !! f) ->
  exists x, InvalidChainFound st1 f = Some (set_best_invalid st1 x) /\ ready (set_best_invalid st1 x) /\ later st (set_best_invalid st1 x) /\
    (covered st ref -> covered (set_best_invalid st1 x) ref) /\ exists t, Tip (chainActive (set_best_invalid st1 x)) = Some t.
Proof.
  intros R1 L1 [t Ht] A1 K1 Hf. pose proof (lt_evolves _ _ L1) as He1.
  destruct (InvalidChainFound_ok st1 f t R1) as (x & -> & R2); [by apply (known_later st) | by rewrite A1 |]. exists x. split; [done|]. split; [done|].
  split; [by destruct L1; split|]. split; [|exists t; cbn; by rewrite A1]. intros Hcov q Hq. change (eligible (cs_map st1) q) in Hq. cbn. fold (cs_map st1).
  destruct (Hcov q (eligible_before _ _ q He1 Hq)) as [H|[H|H]].
  - left. apply K1; [done | apply Hq].
  - right. left. by apply (wlt_opt_evolves (cs_map st)).
  - right. right. rewrite A1. by apply (wlt_opt_evolves (cs_map st)).
Qed.

Lemma connect_batch_ok ref mw pblock old : forall l st h front s, ready st -> goal_ok st mw h ->
  (forall i, (i < length l)%nat -> l !! i = ancestor (cs_map st) mw (h + 1 + Z.of_nat i)) ->
  (forall b, cs_map st !! mw = Some b -> h + Z.of_nat (length l) <= nHeight b) ->
  match old with Some o => is_Some (cs_map st !! o) | None => True end ->
  match front with Some f => is_Some (cs_map st !! f) | None => l = [] end ->
  exists r st' s', connect_batch addr ops st l front mw pblock old s = Some (r, st', s') /\ ready st' /\ later st st' /\ (r <> BatchFailed -> covered st ref -> covered st' ref) /\
    match r with
    | BatchDone => goal_ok st' mw (h + Z.of_nat (length l))
    | BatchBetter => exists t h', Tip (chainActive st') = Some t /\ beats (cs_map st') t old /\ goal_ok st' mw h'
    | BatchInvalid => (exists t, Tip (chainActive st') = Some t) /\ unmarked (cs_map st') ⊂ unmarked (cs_map st)
    | BatchFailed => True
    end.
Proof.
  induction l as [|p l IH]; intros st h front s R G Hpath Hlen Hold Hfront; cbn [connect_batch].
  { exists BatchDone, st, s. split; [done|]. split; [done|]. split; [apply later_refl|]. split; [done|]. by rewrite Z.add_0_r. }
  destruct (g_eligible _ _ _ G) as [(bm & Hbm & _) _]. pose proof (Hpath 0%nat ltac:(cbn; lia)) as Hp0. cbn in Hp0. rewrite Z.add_0_r in Hp0. symmetry in Hp0.
  specialize (Hlen bm Hbm) as Hl. rewrite length_cons in Hl.
  destruct (goal_next st mw h bm p R G Hbm ltac:(lia) Hp0) as (b & n & Hb & Hpp & Hep & Hup).
  destruct (ConnectTip_ok st p b (if decide (p = mw) then pblock else None) s R Hb Hpp Hep) as (r & st1 & s1 & -> & R1 & L1 & Hr1).
  cbn [mbind option_bind]. pose proof (lt_evolves _ _ L1) as He1. pose proof (evolves_tree _ _ He1) as Ht1.
  destruct r as [|c|]; [| |by exists BatchFailed, st1, s1; split_and!].
  - destruct Hr1 as (T1 & C1 & K1). destruct (evolved_lookup _ _ He1 mw bm Hbm) as (bm1 & Hbm1 & ((_ & _ & _ & Ehm & _) & _)).
    destruct (pruned_step ref st1 mw p n bm1 R1) as (c & -> & R2 & Hcov2 & Hmw2 & L2); try done;
      [rewrite C1; apply (g_cand _ _ _ G) | by rewrite (same_up _ _ Ht1) |].
    cbn [mbind option_bind]. set (st2 := set_candidates st1 c) in *. pose proof (later_trans _ _ _ L1 L2) as L12.
    assert (goal_ok st2 mw (h + 1)) as G2.
    { split; [done | apply (eligible_after _ _ mw He1); [auto | apply G] | | pose proof (g_height _ _ _ G); lia].
      change (Tip (chainActive st1) = ancestor (cs_map st1) mw (h + 1)). by rewrite T1, (same_ancestor _ _ Ht1), Hp0. }
    assert (match old with Some o => is_Some (cs_map st2 !! o) | None => True end) as Hold2 by (destruct old; [by apply (known_later st) | done]).
    destruct (better_test st2 p old R2 T1 Hold2) as (better & -> & Hbet). cbn [mbind option_bind].
    assert (covered st ref -> covered st2 ref) as Hcov12 by (intros Hcov; by apply Hcov2, (covered_connected ref st st1 p b)). destruct better.
    { exists BatchBetter, st2, s1. split; [done|]. split; [done|]. split; [done|]. split; [by intros _|]. exists p, (h + 1). split; [done|]. split; [by apply Hbet | done]. }
    destruct (IH st2 (h + 1) front s1 R2 G2) as (r & st' & s' & E & R' & L' & Cv' & Hr').
    + intros i Hi. change (cs_map st2) with (cs_map st1). rewrite (same_ancestor _ _ Ht1).
      specialize (Hpath (S i) ltac:(cbn; lia)). change ((p :: l) !! S i) with (l !! i) in Hpath. rewrite Hpath. f_equal. lia.
    + intros bx Hbx. change (cs_map st2) with (cs_map st1) in Hbx. rewrite Hbm1 in Hbx. injection Hbx as <-. lia.
    + done.
    + destruct front; [by apply (known_later st) | done].
    + rewrite E. exists r, st', s'. split; [done|]. split; [done|]. split; [by eapply later_trans|]. split; [auto|].
      destruct r; [by rewrite length_cons, Nat2Z.inj_succ, <- Z.add_1_l, Z.add_assoc in * | done | | done].
      destruct Hr' as [Ht' Hu']. split; [done|]. pose proof (unmarked_evolves _ _ He1) as Hu. change (cs_map st2) with (cs_map st1) in Hu'. clear -Hu Hu'. set_solver.
  - destruct Hr1 as (-> & Htip & A1 & U1 & K1). destruct front as [f|]; [|done]. cbn [mbind option_bind].
    destruct (invalid_step ref st st1 f R1 L1 Htip A1 K1 Hfront) as (x & -> & R2 & L2 & Cv2 & T2). cbn [mbind option_bind].
    exists BatchInvalid, (set_best_invalid st1 x), s1. by split_and!.
Qed.

Lemma blocks_down_to_ok m mw bm h : index_ok m -> m !! mw = Some bm -> -1 <= h ->
  forall fuel k, h <= k <= nHeight bm -> k - h <= Z.of_nat fuel ->
  exists l, blocks_down_to fuel m (ancestor m mw k) h = Some l /\ Z.of_nat (length l) = k - h /\
    (forall i, (i < length l)%nat -> rev l !! i = ancestor m mw (h + 1 + Z.of_nat i)) /\
    match head l with Some f => is_Some (m !! f) | None => rev l = [] end.
Proof.
  intros Hm Hbm Hh. induction fuel as [|fuel IH]; intros k Hk Hf.
  all: destruct (Z.eq_dec k (-1)) as [->|Hk1].
  1, 3: exists []; assert (ancestor m mw (-1) = None) as -> by (unfold ancestor; by rewrite Hbm);
    split; [by cbn | split; [cbn; lia | split; [intros i Hi; cbn in Hi; lia | done]]].
  all: destruct (ancestor_total m Hm mw bm k Hbm ltac:(lia)) as (p & b & Ep & Hp & Eh); rewrite Ep; cbn [blocks_down_to].
  all: rewrite Hp; cbn [mbind option_bind]; destruct (Z.eqb_spec (nHeight b) h) as [E|E].
  1, 3: exists []; split; [done | split; [cbn; lia | split; [intros i Hi; cbn in Hi; lia | done]]].
  { lia. }
  rewrite (ancestor_pprev m Hm mw bm b p k Hbm Ep Hp).
  assert ((if k =? 0 then None else ancestor m mw (k - 1)) = ancestor m mw (k - 1)) as ->.
  { destruct (Z.eqb_spec k 0) as [->|]; [|done]. unfold ancestor. by rewrite Hbm. }
  destruct (IH (k - 1) ltac:(lia) ltac:(lia)) as (l & -> & Hl & Hpath & _). cbn [mbind option_bind].
  exists (p :: l). split; [done|]. split; [rewrite length_cons; lia|]. split; [|cbn; eauto].
  intros i Hi. cbn [rev]. destruct (decide (i < length l)%nat) as [Hlt|Hge].
  - rewrite lookup_app_l by (rewrite length_rev; lia). by apply Hpath.
  - rewrite length_cons in Hi. assert (i = length (rev l)) as -> by (rewrite length_rev; lia). rewrite list_lookup_middle by done.
    rewrite <- Ep. f_equal. rewrite length_rev. lia.
Qed.

(** How the blocks up to the goal are connected *)
Definition batch_post (st st' : CChainState) (ref : option ptr) (mw : ptr) (old : option ptr) (r : batch_outcome) : Prop :=
  match r with
  | BatchDone => (covered st ref -> covered st' ref) /\ mw ∈ setBlockIndexCandidates st' /\ eligible (cs_map st') mw /\ Tip (chainActive st') = Some mw
  | BatchBetter => (covered st ref -> covered st' ref) /\ mw ∈ setBlockIndexCandidates st' /\ eligible (cs_map st') mw /\
      exists t, Tip (chainActive st') = Some t /\ beats (cs_map st') t old
  | BatchInvalid => (covered st ref -> covered st' ref) /\ (exists t, Tip (chainActive st') = Some t) /\ unmarked (cs_map st') ⊂ unmarked (cs_map st)
  | BatchFailed => True
  end.

Lemma connect_batches_ok ref mw pblock old fuel : forall st h s bm, ready st -> goal_ok st mw h -> cs_map st !! mw = Some bm ->
  h <= nHeight bm -> nHeight bm - h <= Z.of_nat fuel ->
  match old with Some o => is_Some (cs_map st !! o) | None => True end ->
  exists r st' s', connect_batches addr ops fuel st h mw pblock old s = Some (r, st', s') /\ ready st' /\ later st st' /\ batch_post st st' ref mw old r.
Proof.
  induction fuel as [|fuel IH]; intros st h s bm R G Hbm Hh Hf Hold.
  all: pose proof (r_index st R) as Hm; pose proof G as [Gc Ge Gt Gh].
  all: cbn [connect_batches]; rewrite Hbm; cbn [mbind option_bind]; destruct (Z.eqb_spec h (nHeight bm)) as [E|E]; [|try lia].
  1, 2: exists BatchDone, st, s; split; [done|]; split; [done|]; split; [apply later_refl|]; split; [done|]; split; [done|]; split; [done|];
    by rewrite Gt, E, (ancestor_self _ Hm mw bm Hbm).
  set (k := Z.min (h + 32) (nHeight bm)). rewrite (GetAncestor_spec _ Hm mw bm k Hbm). cbn [mbind option_bind].
  destruct (blocks_down_to_ok (cs_map st) mw bm h Hm Hbm Gh (Z.to_nat (k - h)) k ltac:(lia) ltac:(lia)) as (l & -> & Hl & Hpath & Hfront).
  cbn [mbind option_bind].
  destruct (connect_batch_ok ref mw pblock old (rev l) st h (head l) s R G) as (r & st1 & s1 & -> & R1 & L1 & C1 & Hr1).
  { intros i Hi. apply Hpath. by rewrite length_rev in Hi. }
  { intros b' Hb'. rewrite length_rev. simplify_eq. lia. }
  { done. }
  { done. }
  cbn [mbind option_bind]. pose proof (lt_evolves _ _ L1) as He1.
  destruct r.
  - rewrite length_rev in Hr1. replace (h + Z.of_nat (length l)) with k in Hr1 by lia.
    destruct (evolved_lookup _ _ He1 mw bm Hbm) as (bm1 & Hbm1 & ((_ & _ & _ & Ehm & _) & _)).
    destruct (IH st1 k s1 bm1 R1 Hr1 Hbm1) as (r & st' & s' & -> & R' & L' & P'); [lia | lia | |].
    { destruct old as [o|]; [|done]. destruct Hold as [bo Hbo]. destruct (evolved_lookup _ _ He1 o bo Hbo) as (bo1 & Hbo1 & _). eauto. }
    exists r, st', s'. split; [done|]. split; [done|]. split; [by eapply later_trans|].
    pose proof (C1 ltac:(done)) as C1'. destruct r; cbn [batch_post] in *; try done; try (destruct P' as [P1 P2]; split; [auto | done]).
    destruct P' as (A1 & A2 & A3). split; [auto|]. split; [done|]. pose proof (unmarked_evolves _ _ He1) as Hu. clear -A3 Hu. set_solver.
  - exists BatchBetter, st1, s1. split; [done|]. split; [done|]. split; [done|]. destruct Hr1 as (t & h' & T1 & B1 & [G1 G2 G3 G4]).
    split; [by apply C1|]. split; [done|]. split; [done|]. by exists t.
  - exists BatchInvalid, st1, s1. split; [done|]. split; [done|]. split; [done|]. split; [by apply C1 | done].
  - by exists BatchFailed, st1, s1.
Qed.

(** Every block that can be the tip is a candidate or worse than [ref]. *)
Definition complete (st : CChainState) (ref : option ptr) : Prop :=
  forall p, eligible (cs_map st) p -> p ∈ setBlockIndexCandidates st \/ wlt_opt addr (cs_map st) p ref.

Lemma ActivateBestChainStep_ok ref mw pblock st s : ready st -> mw ∈ setBlockIndexCandidates st -> eligible (cs_map st) mw ->
  exists r st' s', ActivateBestChainStep addr ops st mw pblock s = Some (r, st', s') /\ ready st' /\ later st st' /\
    match r with
    | None => True
    | Some false => (complete st ref -> covered st' ref) /\ mw ∈ setBlockIndexCandidates st' /\ eligible (cs_map st') mw /\
        exists t, Tip (chainActive st') = Some t /\ (t = mw \/ beats (cs_map st') t (Tip (chainActive st)))
    | Some true => (complete st ref -> covered st' ref) /\ (exists t, Tip (chainActive st') = Some t) /\ unmarked (cs_map st') ⊂ unmarked (cs_map st)
    end.
Proof.
  intros R Hmw He. pose proof (r_index st R) as Hm. destruct (He) as [(bm & Hbm & Hlm) Hclm]. unfold ActivateBestChainStep.
  destruct (FindFork_spec _ Hm (chainActive st) mw bm Hbm) as (fork & -> & Hfork). cbn [mbind option_bind].
  destruct (disconnect_to_ok (length (chainActive st)) st fork s R) as (ok & v & s1 & -> & R1 & Hok); [|done|].
  { destruct fork as [f|]; [|done]. destruct Hfork as (k & _ & _ & Hk & _). eauto. }
  cbn [mbind option_bind]. destruct ok; cbn [negb]; [|exists None, (set_active st v), s1; split; [done|]; split; [done|]; split; [apply later_active | done]].
  specialize (Hok eq_refl).
  assert (exists h, (match fork with None => Some (-1) | Some f => b ← cs_map (set_active st v) !! f; Some (nHeight b) end) = Some h /\
    -1 <= h <= nHeight bm /\ fork = ancestor (cs_map st) mw h) as (h & -> & Hh & Eh).
  { destruct fork as [f|].
    - destruct Hfork as (k & Hk & Ek & _). destruct (ancestor_inv _ Hm mw bm k f Hbm Ek) as (_ & c & Hcf & Ec).
      exists (nHeight c). change (cs_map (set_active st v)) with (cs_map st). rewrite Hcf. cbn. split; [done|]. split; [lia | congruence].
    - exists (-1). split; [done|]. pose proof (height_range _ Hm mw bm Hbm). split; [lia|]. unfold ancestor. by rewrite Hbm. }
  cbn [mbind option_bind]. change (cs_map (set_active st v)) with (cs_map st). rewrite Hbm. cbn [mbind option_bind].
  assert (goal_ok (set_active st v) mw h) as G by (split; [done | done | by cbn; rewrite Hok, Eh | lia]).
  destruct (connect_batches_ok ref mw pblock (Tip (chainActive st)) (Z.to_nat (nHeight bm - h)) (set_active st v) h s1 bm R1 G) as (r & st' & s' & -> & R' & L' & P').
  { done. }
  { lia. }
  { lia. }
  { destruct (Tip (chainActive st)) as [t|] eqn:Et; [|done]. destruct (tip_entry st t R Et) as [b Hb]. eauto. }
  cbn [mbind option_bind]. exists (match r with BatchFailed => None | BatchInvalid => Some true | _ => Some false end), st', s'.
  split; [done|]. split; [done|]. split; [apply (later_trans _ (set_active st v)); [apply later_active | done]|].
  assert (complete st ref -> covered (set_active st v) ref) as Hstart by (intros Hc p Hp; destruct (Hc p Hp) as [H|H]; [by left | right; by left]).
  destruct r; cbn; try done; try (destruct P' as [P1 P2]; split; [auto | done]).
  - destruct P' as (A1 & A2 & A3 & A4). split; [auto|]. split; [done|]. split; [done|]. exists mw. split; [done | by left].
  - destruct P' as (A1 & A2 & A3 & t & A4 & A5). split; [auto|]. split; [done|]. split; [done|]. exists t. split; [done | by right].
Qed.

(** *** Rounds of steps *)

(** No block that can be the tip beats [p]. *)
Definition top (m : BlockMap) (p : ptr) : Prop := forall q, eligible m q -> ~ wlt addr m p q.

Lemma top_later st st' p : later st st' -> top (cs_map st) p -> top (cs_map st') p.
Proof.
  intros L Ht q Hq Hw. pose proof (lt_evolves _ _ L) as He. apply (Ht q); [by apply (eligible_before _ _ q He)|].
  by apply (wlt_evolves addr _ _ _ _ He).
Qed.

(** The tip a round starts from *)
Definition start_ok (st : CChainState) (ref : option ptr) : Prop :=
  match ref with Some t => is_Some (cs_map st !! t) /\ sound_chain (cs_map st) t | None => True end.

Lemma start_later st st' ref : later st st' -> start_ok st ref -> reneged (cs_map st) (cs_map st') \/ start_ok st' ref.
Proof.
  intros L. destruct ref as [t|]; [|by right]. intros [Hb Hs]. destruct (lt_sound _ _ L) as [H|H]; [by left | right].
  split; [by apply (known_later st) | by apply H].
Qed.
Lemma start_marked st st' ref : marked st st' -> start_ok st ref -> start_ok st' ref.
Proof.
  intros M. destruct ref as [t|]; [|done]. intros [Hb Hs]. split; [by apply (known_later st), Hb; apply marked_later|].
  by apply (sound_evolves _ _ t (mk_evolves _ _ M) (mk_clean _ _ M t)).
Qed.

Lemma start_tip st : ready st -> start_ok st (Tip (chainActive st)).
Proof.
  intros R. destruct (Tip (chainActive st)) as [t|] eqn:Et; [|done]. split; [|by apply tip_sound].
  destruct (tip_entry st t R Et) as [b Hb]. eauto.
Qed.

Lemma sound_eligible m t : is_Some (m !! t) -> sound_chain m t -> eligible m t.
Proof. intros [b Hb] Hs. split; [|by apply sound_clean]. exists b. split; [done|]. by destruct (Hs 0%nat t b eq_refl Hb). Qed.

Lemma start_candidate st ref t : complete st ref -> start_ok st ref -> ref = Some t -> t ∈ setBlockIndexCandidates st.
Proof.
  intros Hc Hs ->. destruct Hs as [Hb Hs]. destruct (Hc t (sound_eligible _ t Hb Hs)) as [H|H]; [done|]. by apply wlt_irrefl in H.
Qed.

Lemma complete_marked st st' ref : marked st st' -> complete st ref -> complete st' ref.
Proof.
  intros M Hc q Hq. pose proof (mk_evolves _ _ M) as He. pose proof (eligible_before _ _ q He Hq) as Hq0.
  destruct (Hc q Hq0) as [H|H]; [left; apply (mk_keep _ _ M); [done | apply Hq0] | right; by apply (wlt_opt_evolves (cs_map st))].
Qed.

(** The candidates are complete with respect to a tip that is sound. *)
Definition intact (st : CChainState) (ref : option ptr) : Prop := complete st ref /\ start_ok st ref.

Lemma intact_marked st st' ref : marked st st' -> intact st ref -> intact st' ref.
Proof. intros M [H1 H2]. split; [by apply (complete_marked st) | by apply (start_marked st)]. Qed.

Lemma FindMostWorkChain_ok st : ready st ->
  exists r st', FindMostWorkChain addr st = Some (r, st') /\ marked st st' /\
    match r with
    | Some p => p ∈ setBlockIndexCandidates st' /\ eligible (cs_map st') p /\ forall ref, intact st ref -> top (cs_map st') p
    | None => forall ref, intact st ref -> forall q, ~ eligible (cs_map st') q
    end.
Proof.
  intros R. destruct (FindMostWorkChain_loop_ok addr Haddr (size (setBlockIndexCandidates st)) st R (le_n _)) as (r & st' & E & M & Hr).
  exists r, st'. split; [done|]. split; [done|]. destruct r as [p|].
  - destruct Hr as (H1 & H2 & H3). split; [done|]. split; [done|]. intros ref [Hc Hs]%(intact_marked st st' ref M) q Hq Hw.
    destruct (Hc q Hq) as [H|H]; [by apply (H3 q)|].
    destruct ref as [t|]; [|done]. apply (H3 t); [by apply (start_candidate st' (Some t)) | by apply (wlt_trans _ _ _ q)].
  - intros ref [Hc Hs]%(intact_marked st st' ref M) q Hq. assert (exists x, x ∈ setBlockIndexCandidates st') as [x Hx]; [|rewrite Hr in Hx; by apply elem_of_empty in Hx].
    destruct ref as [t|]; [exists t; by apply (start_candidate st' (Some t) t)|]. destruct (Hc q Hq) as [H|H]; [eauto | done].
Qed.

(** *** They come to an end *)

(** The blocks with more work than the tip *)
Definition above (st : CChainState) : gset (list Z) :=
  match Tip (chainActive st) ≫= fun t => cs_map st !! t with
  | Some b => dom (filter (fun e => val (nChainWork b) < val (nChainWork (snd e))) (cs_map st))
  | None => dom (cs_map st)
  end.
Definition potential (st : CChainState) : nat := (size (unmarked (cs_map st)) * S (size (cs_map st)) + size (above st))%nat.

Lemma dom_evolves m m' : evolves m m' -> dom m' = dom m.
Proof.
  intros He. apply leibniz_equiv. intros p. rewrite !elem_of_dom. unfold is_Some. split; intros [b Hb].
  - destruct (evolved_lookup_rev m m' He p b Hb) as (c & Hc & _). eauto.
  - destruct (evolved_lookup m m' He p b Hb) as (c & Hc & _). eauto.
Qed.
Lemma size_evolves m m' : evolves m m' -> size m' = size m.
Proof. intros He. by rewrite <- !size_dom, (dom_evolves m m' He). Qed.

Lemma above_size st : (size (above st) <= size (cs_map st))%nat.
Proof.
  rewrite <- size_dom. apply subseteq_size. unfold above. destruct (_ ≫= _) as [b|]; [|done]. apply dom_filter_subseteq.
Qed.

Lemma elem_of_above st t b q : Tip (chainActive st) = Some t -> cs_map st !! t = Some b ->
  q ∈ above st <-> exists c, cs_map st !! q = Some c /\ val (nChainWork b) < val (nChainWork c).
Proof.
  intros Ht Hb. unfold above. rewrite Ht. cbn [mbind option_bind]. rewrite Hb, elem_of_dom. unfold is_Some.
  setoid_rewrite map_lookup_filter_Some. cbn. naive_solver.
Qed.

Lemma potential_invalid st st' : evolves (cs_map st) (cs_map st') -> unmarked (cs_map st') ⊂ unmarked (cs_map st) -> (potential st' < potential st)%nat.
Proof.
  intros He Hu. unfold potential. rewrite (size_evolves _ _ He). pose proof (subset_size _ _ Hu). pose proof (above_size st').
  rewrite (size_evolves _ _ He) in *. nia.
Qed.

Lemma potential_better st st' t : ready st -> ready st' -> evolves (cs_map st) (cs_map st') -> Tip (chainActive st') = Some t ->
  beats (cs_map st') t (Tip (chainActive st)) -> (potential st' < potential st)%nat.
Proof.
  intros R R' He Ht Hb. unfold potential. rewrite (size_evolves _ _ He).
  pose proof (subseteq_size _ _ (unmarked_evolves _ _ He)). assert (size (above st') < size (above st))%nat; [|nia].
  destruct (tip_entry st' t R' Ht) as [bt Hbt]. apply subset_size.
  destruct (Tip (chainActive st)) as [o|] eqn:Eo; cbn [beats] in Hb.
  - destruct Hb as (a & b & Ha & Hb & Hlt). rewrite Hbt in Hb. injection Hb as <-. destruct (tip_entry st o R Eo) as [bo Hbo].
    destruct (evolved_lookup _ _ He o bo Hbo) as (a' & Ha' & ((_ & _ & _ & _ & Ew & _) & _)). rewrite Ha in Ha'. injection Ha' as <-. split.
    + intros q. rewrite (elem_of_above st' t bt q Ht Hbt), (elem_of_above st o bo q Eo Hbo). intros (c & Hc & Hx).
      destruct (evolved_lookup_rev _ _ He q c Hc) as (c0 & Hc0 & ((_ & _ & _ & _ & Ec & _) & _)). exists c0. split; [done|]. rewrite <- Ec, <- Ew. lia.
    + intros Hsub. destruct (evolved_lookup_rev _ _ He t bt Hbt) as (b0 & Hb0 & ((_ & _ & _ & _ & Eb & _) & _)).
      assert (t ∈ above st) as Hin by (apply (elem_of_above st o bo t Eo Hbo); exists b0; split; [done|]; rewrite <- Eb, <- Ew; lia).
      apply Hsub, (elem_of_above st' t bt t Ht Hbt) in Hin as (c & Hc & Hx). simplify_eq. lia.
  - assert (above st = dom (cs_map st)) as -> by (unfold above; by rewrite Eo). rewrite <- (dom_evolves _ _ He). split.
    + intros q. rewrite (elem_of_above st' t bt q Ht Hbt), elem_of_dom. intros (c & Hc & _). eauto.
    + intros Hsub. assert (t ∈ dom (cs_map st')) as Hin by (apply elem_of_dom; eauto).
      apply Hsub, (elem_of_above st' t bt t Ht Hbt) in Hin as (c & Hc & Hx). simplify_eq. lia.
Qed.

Lemma potential_marked st st' : ready st -> marked st st' -> (potential st' <= potential st)%nat.
Proof.
  intros R M. pose proof (mk_evolves _ _ M) as He. unfold potential. rewrite (size_evolves _ _ He).
  pose proof (subseteq_size _ _ (unmarked_evolves _ _ He)). assert (size (above st') <= size (above st))%nat; [|nia]. apply subseteq_size.
  pose proof (ready_marked _ _ R M) as R'. pose proof (mk_active _ _ M) as Ha.
  destruct (Tip (chainActive st)) as [o|] eqn:Eo.
  - assert (Tip (chainActive st') = Some o) as Eo' by (by rewrite Ha). destruct (tip_entry st o R Eo) as [b Hb]. destruct (tip_entry st' o R' Eo') as [b' Hb'].
    destruct (evolved_lookup _ _ He o b Hb) as (x & Hx & ((_ & _ & _ & _ & Ew & _) & _)). rewrite Hb' in Hx. injection Hx as <-.
    intros q. rewrite (elem_of_above st' o b' q Eo' Hb'), (elem_of_above st o b q Eo Hb). intros (c & Hc & Hlt).
    destruct (evolved_lookup_rev _ _ He q c Hc) as (c0 & Hc0 & ((_ & _ & _ & _ & Ec & _) & _)). exists c0. split; [done|]. rewrite <- Ec, <- Ew. lia.
  - unfold above. rewrite Ha, Eo. cbn [mbind option_bind]. by rewrite (dom_evolves _ _ He).
Qed.

(** The tip is the best block there can be. *)
Definition best_tip (st : CChainState) : Prop :=
  match Tip (chainActive st) with Some t => top (cs_map st) t | None => forall q, ~ eligible (cs_map st) q end.

Section Activated.
(** From here on [m0] is the index when [ActivateBestChain] was called. *)
Context (m0 : BlockMap).
Abbreviation spoiled st := (reneged m0 (cs_map st)).

(** The candidate that is worked towards *)
Definition target_ok (st : CChainState) (mw : option ptr) : Prop :=
  match mw with
  | Some p => p ∈ setBlockIndexCandidates st /\ eligible (cs_map st) p /\ (spoiled st \/ top (cs_map st) p)
  | None => True
  end.

Lemma not_worse_covered st ref t : ready st -> start_ok st ref -> Tip (chainActive st) = Some t ->
  match ref with Some t0 => ~ wlt addr (cs_map st) t t0 | None => True end ->
  covered st ref -> complete st (Some t).
Proof.
  intros R Hs Ht Hn Hc q Hq. destruct (Hc q Hq) as [H|[H|H]]; [by left | | right; by rewrite Ht in H].
  destruct ref as [t0|]; [|done]. right. destruct Hs as [[b0 Hb0] _]. destruct (tip_entry st t R Ht) as [b Hb].
  destruct (wlt_total addr Haddr _ t0 t b0 b Hb0 Hb) as [->|[Hx|Hx]]; [done | by apply (wlt_trans _ _ _ t0) | done].
Qed.

(** What a round leaves, when no step failed *)
Record round_post (st st' : CChainState) (before connected : bool) (mw newtip : option ptr) : Prop := {
  rp_complete : spoiled st' \/ complete st' (Tip (chainActive st'));
  rp_target : target_ok st' mw;
  rp_newtip : connected = true -> newtip = Tip (chainActive st');
  rp_best : connected = false \/ Tip (chainActive st') = mw -> spoiled st' \/ best_tip st';
  rp_progress : Tip (chainActive st') = mw \/ (potential st' < potential st)%nat \/ connected = before /\ (potential st' <= potential st)%nat }.

(** The candidate at the head of a turn *)
Definition current_target (st : CChainState) (mw : option ptr) : option (option ptr * CChainState) :=
  match mw with None => FindMostWorkChain addr st | Some p => Some (Some p, st) end.

Lemma spoiled_later st st' : later st st' -> spoiled st -> spoiled st'.
Proof. intros L Hs. apply (reneged_l _ _ _ Hs), (lt_evolves _ _ L). Qed.

Lemma current_target_ok st ref mw : ready st -> spoiled st \/ intact st ref -> target_ok st mw ->
  exists mw' st1, current_target st mw = Some (mw', st1) /\ marked st st1 /\ (spoiled st1 \/ intact st1 ref) /\ target_ok st1 mw' /\
    (mw' = None -> spoiled st1 \/ forall q, ~ eligible (cs_map st1) q).
Proof.
  intros R Hi Ht. destruct mw as [p|]; [exists (Some p), st; split; [done|]; split; [apply marked_refl|]; by split_and!|].
  destruct (FindMostWorkChain_ok st R) as (r & st1 & E & M & Hr). exists r, st1. split; [done|]. split; [done|].
  pose proof (spoiled_later _ _ (marked_later _ _ M)) as Hsp.
  split; [destruct Hi; [left; auto | right; by apply (intact_marked st)]|].
  destruct r as [p|]; [split; [|done] | split; [done|intros _]].
  - destruct Hr as (H1 & H2 & H3). split; [done|]. split; [done|]. destruct Hi as [Hi|Hi]; [left; auto | right; by apply (H3 ref)].
  - destruct Hi as [Hi|Hi]; [left; auto | right; by apply (Hr ref)].
Qed.

(** Nothing is left to do. *)
Lemma nothing_to_do st ref mw connected newtip st0 : ready st -> spoiled st \/ intact st ref -> target_ok st mw -> (potential st <= potential st0)%nat ->
  (mw = None -> spoiled st \/ forall q, ~ eligible (cs_map st) q) -> (connected = true -> newtip = Tip (chainActive st)) ->
  (mw = None \/ Tip (chainActive st) = mw) -> round_post st0 st connected connected mw newtip.
Proof.
  intros R Hi Ht Hpot Hn Hnt Hmw.
  assert (spoiled st \/ complete st (Tip (chainActive st)) /\ best_tip st) as Hgood.
  { destruct Hi as [Hi|[Hc Hs]]; [by left|]. destruct mw as [p|].
    - destruct Hmw as [?|Et]; [done|]. destruct Ht as (_ & _ & [Ht|Ht]); [by left | right]. unfold best_tip. rewrite Et. split; [|done].
      apply (not_worse_covered st ref p R Hs Et).
      + destruct ref as [t0|]; [|done]. destruct Hs. apply Ht. by apply sound_eligible.
      + intros q Hq. destruct (Hc q Hq); [by left | right; by left].
    - destruct (Hn eq_refl) as [H|H]; [by left | right]. split; [intros q Hq; by destruct (H q)|]. unfold best_tip.
      destruct (Tip (chainActive st)) as [t|] eqn:Et; [|done]. intros q Hq. by destruct (H q). }
  split; [ | done | done | | by right; right].
  - destruct Hgood as [?|[? _]]; [by left | by right].
  - intros _. destruct Hgood as [?|[_ ?]]; [by left | by right].
Qed.

(** One step towards [p], and whether the tip is now worse than the one before *)
Lemma one_step st ref p given s : ready st -> evolves m0 (cs_map st) -> spoiled st \/ intact st ref ->
  match ref with Some t0 => is_Some (cs_map st !! t0) | None => True end -> target_ok st (Some p) ->
  exists r st' s', ActivateBestChainStep addr ops st p given s = Some (r, st', s') /\ ready st' /\ later st st' /\
    match r with
    | None => True
    | Some inv => let mw := if (inv : bool) then None else Some p in
        (spoiled st' \/ covered st' ref /\ start_ok st' ref) /\ target_ok st' mw /\ (Tip (chainActive st') = mw /\ mw <> None \/ (potential st' < potential st)%nat) /\
        exists t again, Tip (chainActive st') = Some t /\
          (match ref with None => Some false | Some t0 => worse addr (cs_map st') t (Some t0) end) = Some again /\
          if (again : bool) then exists t0, ref = Some t0 /\ wlt addr (cs_map st') t t0
          else match ref with Some t0 => ~ wlt addr (cs_map st') t t0 | None => True end
    end.
Proof.
  intros R Hev Hi Hk (Tp1 & Tp2 & Tp3). destruct (ActivateBestChainStep_ok ref p given st s R Tp1 Tp2) as (r & st2 & s2 & E & R2 & L2 & Hr2).
  pose proof (lt_evolves _ _ L2) as He2. pose proof (spoiled_later _ _ L2) as Hsp. exists r, st2, s2. split; [done|]. split; [done|]. split; [done|].
  destruct r as [inv|]; [|done]. assert ((complete st ref -> covered st2 ref) /\ (exists t, Tip (chainActive st2) = Some t) /\ target_ok st2 (if inv then None else Some p) /\
    (Tip (chainActive st2) = (if inv then None else Some p) /\ (if inv then None else Some p) <> None \/ (potential st2 < potential st)%nat)) as (Cv2 & [t Et2] & Tg2 & Pr2).
  { destruct inv.
    - destruct Hr2 as (B1 & B2 & B3). split; [done|]. split; [done|]. split; [done|]. right. by apply potential_invalid.
    - destruct Hr2 as (B1 & B2 & B3 & t & B4 & B5). split; [done|]. split; [eauto|]. split.
      + split; [done|]. split; [done|]. destruct Tp3; [left; auto | right; by apply (top_later st)].
      + destruct B5 as [->|B5]; [by left|]. right. by apply (potential_better st st2 t). }
  split.
  { destruct Hi as [Hi|[Hc Hs]]; [left; auto|]. destruct (start_later _ _ ref L2 Hs) as [H|H]; [left; by apply (reneged_r _ (cs_map st)), H; apply evolves_marks | right; auto]. }
  split; [done|]. split; [done|]. exists t. destruct ref as [t0|]; [|by exists false].
  apply (known_later _ _ _ L2) in Hk as [b0 Hb0]. destruct (tip_entry st2 t R2 Et2) as [bt Hbt].
  destruct (worse_spec addr _ t t0 bt b0 (r_index st2 R2) Hbt Hb0) as (w & Ew & Hw). exists w. split; [done|]. split; [done|].
  destruct w; [exists t0; split; [done | by apply Hw]|]. intros Hx. by apply Hw in Hx.
Qed.

Lemma activate_round_stop ref pblock fuel connected p newtip st s : Tip (chainActive st) = Some p ->
  activate_round C addr ops fuel ref pblock connected (Some p) newtip st s = Some (RoundDone connected (Some p) newtip, st, s).
Proof. intros Ht. destruct fuel; cbn [activate_round mbind option_bind]; by rewrite bool_decide_eq_true_2. Qed.

Lemma activate_round_ok ref pblock fuel : forall connected mw newtip st s, ready st -> evolves m0 (cs_map st) -> spoiled st \/ intact st ref ->
  match ref with Some t0 => is_Some (cs_map st !! t0) | None => True end -> target_ok st mw ->
  (connected = true -> newtip = Tip (chainActive st)) -> (potential st < fuel)%nat ->
  exists r st' s', activate_round C addr ops fuel ref pblock connected mw newtip st s = Some (r, st', s') /\ ready st' /\ later st st' /\
    match r with RoundFailed => True | RoundDone c mw' newtip' => round_post st st' connected c mw' newtip' end.
Proof.
  induction fuel as [|fuel IH]; intros connected mw newtip st s R Hev Hi Hk Htg Hnt Hf; [lia|].
  destruct (current_target_ok st ref mw R Hi Htg) as (mw' & st1 & E1 & M1 & I1 & T1 & N1).
  cbn [activate_round]. fold (current_target st mw). rewrite E1. cbn [mbind option_bind]. pose proof (ready_marked _ _ R M1) as R1.
  pose proof (marked_later _ _ M1) as L1. pose proof (potential_marked st st1 R M1) as Hpm. pose proof (evolves_trans _ _ _ Hev (mk_evolves _ _ M1)) as Hev1.
  assert (connected = true -> newtip = Tip (chainActive st1)) as Hnt1 by (intros Hx; rewrite (mk_active _ _ M1); by apply Hnt).
  assert (match ref with Some t0 => is_Some (cs_map st1 !! t0) | None => True end) as Hk1 by (destruct ref; [by apply (known_later st) | done]).
  destruct mw' as [p|].
  2: { exists (RoundDone connected None newtip), st1, s. split; [done|]. split; [done|]. split; [done|]. apply (nothing_to_do st1 ref); auto. }
  destruct (bool_decide_reflect (Tip (chainActive st1) = Some p)) as [Etip|Etip].
  { exists (RoundDone connected (Some p) newtip), st1, s. split; [done|]. split; [done|]. split; [done|]. apply (nothing_to_do st1 ref); auto. }
  destruct (T1) as (_ & [(bp & Hbp & _) _] & _). rewrite Hbp. cbn [mbind option_bind]. set (given := match pblock with Some block => _ | None => None end).
  destruct (one_step st1 ref p given s R1 Hev1 I1 Hk1 T1) as (r & st2 & s2 & -> & R2 & L2 & Hr2). cbn [mbind option_bind].
  pose proof (later_trans _ _ _ L1 L2) as L12. destruct r as [inv|]; [|exists RoundFailed, st2, s2; by split_and!].
  destruct Hr2 as (Cv2 & Tg2 & Pr2 & t & again & Et2 & Ea & Ha). rewrite Et2, Ea. cbn [mbind option_bind]. destruct again.
  - destruct Ha as (t0 & -> & Hw). assert (spoiled st2 \/ intact st2 (Some t0)) as I2.
    { destruct Cv2 as [?|[Cv2 Hs2]]; [by left|]. right. split; [|done]. intros q Hq. destruct (Cv2 q Hq) as [H|[H|H]]; [by left | by right |]. right. rewrite Et2 in H. by apply (wlt_trans _ _ _ t). }
    apply (known_later _ _ _ L2) in Hk1. pose proof (evolves_trans _ _ _ Hev1 (lt_evolves _ _ L2)) as Hev2.
    destruct Pr2 as [[Ep Hne]|Pr2].
    + destruct inv; [done|]. rewrite activate_round_stop by done. eexists _, st2, s2. split; [done|]. split; [done|]. split; [done|].
      destruct (nothing_to_do st2 (Some t0) (Some p) true (Some t) st2) as [P1 P2 P3 P4 P5]; auto. split; auto.
    + destruct (IH true (if inv then None else Some p) (Some t) st2 s2 R2 Hev2 I2 Hk1 Tg2) as (r & st' & s' & -> & R' & L' & P'); [done | lia|].
      exists r, st', s'. split; [done|]. split; [done|]. split; [by eapply later_trans|]. destruct r as [|c mw2 nt2]; [done|].
      destruct P' as [P1 P2 P3 P4 P5]. split; try done. destruct P5 as [P5|[P5|[P5 P6]]]; [by left | right; left; lia | right; left; lia].
  - eexists (RoundDone true (if inv then None else Some p) (Some t)), st2, s2. split; [done|]. split; [done|]. split; [done|].
    split; [ | done | done | | ].
    + destruct Cv2 as [?|[Cv2 Hs2]]; [by left|]. right. rewrite Et2. by apply (not_worse_covered st2 ref).
    + intros [?|E]; [done|]. unfold best_tip. rewrite Et2. rewrite Et2 in E. destruct inv; [done|]. injection E as ->. by destruct Tg2 as (_ & _ & ?).
    + destruct Pr2 as [[Pr2 _]|Pr2]; [by left | right; left; lia].
Qed.

Section Rounds.
Context (ShutdownRequested : nat -> bool).

Lemma activate_rounds_ok inner pblock fuel : forall mw newtip st s, ready st -> evolves m0 (cs_map st) -> spoiled st \/ complete st (Tip (chainActive st)) -> target_ok st mw ->
  (potential st < inner)%nat -> (potential st < fuel)%nat ->
  exists ok st' s', activate_rounds C addr ops ShutdownRequested fuel inner pblock mw newtip st s = Some (ok, st', s') /\ ready st' /\ later st st' /\
    (ok = true -> spoiled st' \/ complete st' (Tip (chainActive st')) /\ ((forall n, ShutdownRequested n = false) -> best_tip st')).
Proof.
  induction fuel as [|fuel IH]; intros mw newtip st s R Hev Hc Ht Hi Hf; [lia|]. cbn [activate_rounds]. pose proof (start_tip st R) as Hst.
  destruct (activate_round_ok (Tip (chainActive st)) pblock inner false mw newtip st s R Hev) as (r & st1 & s1 & -> & R1 & L1 & P1); try done.
  { destruct Hc; [by left | by right]. }
  { destruct (Tip (chainActive st)); [apply Hst | done]. }
  cbn [mbind option_bind]. destruct r as [|c mw1 nt1]; [by exists false, st1, s1|]. destruct P1 as [P1 P2 P3 P4 P5].
  assert ((spoiled st1 \/ best_tip st1) -> spoiled st1 \/ complete st1 (Tip (chainActive st1)) /\ ((forall n, ShutdownRequested n = false) -> best_tip st1)) as Hend.
  { intros [?|?]; [by left|]. destruct P1; [by left | by right]. }
  destruct c.
  - assert (forall s, exists ok st' s', match op_flush ops FLUSH_PERIODIC s with None => Some (false, st1, s) | Some s => Some (true, st1, s) end = Some (ok, st', s') /\ st' = st1) as Hfin.
    { intros x. destruct (op_flush ops FLUSH_PERIODIC x); eauto. }
    rewrite (P3 eq_refl). destruct (ShutdownRequested fuel) eqn:Esd; cbn [orb].
    + destruct (Hfin s1) as (ok & st' & s' & -> & ->). exists ok, st1, s'. split; [done|]. split; [done|]. split; [done|]. intros _.
      destruct P1 as [?|P1]; [by left | right]. split; [done|]. intros Hno. by rewrite Hno in Esd.
    + destruct (bool_decide_reflect (Tip (chainActive st1) = mw1)) as [Ee|Ee].
      * destruct (Hfin s1) as (ok & st' & s' & -> & ->). exists ok, st1, s'. split; [done|]. split; [done|]. split; [done|]. intros _. apply Hend, P4. by right.
      * destruct P5 as [P5|[P5|[P5 _]]]; [done | | done].
        destruct (IH mw1 (Tip (chainActive st1)) st1 s1 R1 (evolves_trans _ _ _ Hev (lt_evolves _ _ L1)) P1 P2) as (ok & st' & s' & -> & R' & L' & H'); [lia | lia|].
        exists ok, st', s'. split; [done|]. split; [done|]. split; [by eapply later_trans | done].
  - exists true, st1, s1. split; [done|]. split; [done|]. split; [done|]. intros _. apply Hend, P4. by left.
Qed.
End Rounds.
Lemma potential_fuel st : (potential st < activation_fuel st)%nat.
Proof.
  unfold potential, activation_fuel. pose proof (above_size st). assert (size (unmarked (cs_map st)) <= size (cs_map st))%nat; [|nia].
  rewrite <- size_dom. apply subseteq_size. apply dom_filter_subseteq.
Qed.

End Activated.

Lemma ActivateBestChain_ok shutdown pblock st s : ready st -> complete st (Tip (chainActive st)) ->
  exists ok st' s', ActivateBestChain C addr ops shutdown st pblock s = Some (ok, st', s') /\ ready st' /\ later st st' /\
    (ok = true -> reneged (cs_map st) (cs_map st') \/
      complete st' (Tip (chainActive st')) /\ ((forall n, shutdown n = false) -> best_tip st')).
Proof. intros R Hc. apply activate_rounds_ok; try done; [apply evolves_refl | by right | apply potential_fuel..]. Qed.
End Moves.
