(* ===== verification/ChainInvariant.v ===== *)
(** * What the chain state keeps true

    The invariant that ties the parts of [CChainState] together, as [CheckBlockIndex] of
    [src/validation.cpp] asserts it for a node that does not prune: every block whose chain is
    there and not marked as failed is linked, and is a candidate unless it is worse than the tip;
    every other block with data waits for its predecessor.  It holds at first and is kept by every
    operation of [Activation.v] that new headers, new blocks and the operator lead to, and with it
    the best chain is the active one whenever [ActivateBestChain] returns. *)

From S2P Require Import Prelude Serialize ArithUint256 Script Interpreter Transaction Block Chain Activation.
From stdpp Require Import gmap sorting.
Open Scope Z_scope.

(** ** Transactions of a chain *)

Fixpoint txs_up (n : nat) (m : BlockMap) (p : ptr) : Z :=
  match m !! p with
  | Some b => nTx b + match n, pprev b with S n, Some q => txs_up n m q | _, _ => 0 end
  | None => 0
  end.
(** The number of transactions from the genesis block to [p] *)
Definition txs (m : BlockMap) (p : ptr) : Z := match m !! p with Some b => txs_up (Z.to_nat (nHeight b)) m p | None => 0 end.

Lemma txs_prev m p b q : index_ok m -> m !! p = Some b -> pprev b = Some q -> txs m p = nTx b + txs m q.
Proof.
  intros Hm Hp Hq. destruct (prev_entry m Hm p b q Hp Hq) as (c & Hc & Eh). pose proof (height_range m Hm q c Hc).
  unfold txs at 1. rewrite Hp. replace (Z.to_nat (nHeight b)) with (S (Z.to_nat (nHeight c))) by lia. cbn [txs_up]. rewrite Hp, Hq.
  unfold txs. by rewrite Hc.
Qed.

Lemma txs_first m p b : m !! p = Some b -> pprev b = None -> txs m p = nTx b.
Proof. intros Hp Hq. unfold txs. rewrite Hp. destruct (Z.to_nat (nHeight b)); cbn [txs_up]; rewrite Hp, ?Hq; lia. Qed.

(** Induction along a chain, from the genesis block *)
Lemma chain_ind (m : BlockMap) (P : ptr -> CBlockIndex -> Prop) : index_ok m ->
  (forall p b, m !! p = Some b -> (forall q c, pprev b = Some q -> m !! q = Some c -> P q c) -> P p b) ->
  forall p b, m !! p = Some b -> P p b.
Proof.
  intros Hm Hstep. assert (forall n p b, m !! p = Some b -> nHeight b <= Z.of_nat n -> P p b) as H.
  { induction n as [|n IH]; intros p b Hp Hh; apply Hstep; try done; intros q c Hq Hc;
      destruct (prev_entry m Hm p b q Hp Hq) as (c' & Hc' & Eh); simplify_eq; pose proof (height_range m Hm q c Hc); [lia | apply IH; [done | lia]]. }
  intros p b Hp. apply (H (Z.to_nat (nHeight b))); [done|]. pose proof (height_range m Hm p b Hp). lia.
Qed.

Lemma txs_nonneg m p : index_ok m -> (forall q c, m !! q = Some c -> 0 <= nTx c) -> 0 <= txs m p.
Proof.
  intros Hm Hn. destruct (m !! p) as [b|] eqn:Hp; [|unfold txs; by rewrite Hp]. revert p b Hp.
  apply (chain_ind m (fun p b => _) Hm). intros p b Hp IH. pose proof (Hn p b Hp). destruct (pprev b) as [q|] eqn:Eq.
  - rewrite (txs_prev m p b q Hm Hp Eq). destruct (prev_entry m Hm p b q Hp Eq) as (c & Hc & _). specialize (IH q c eq_refl Hc). lia.
  - by rewrite (txs_first m p b Hp Eq).
Qed.

(** The numbers agree where the entries do. *)
Lemma txs_same m m' p b : index_ok m -> same_tree m m' -> m !! p = Some b ->
  (forall n q c c', up m n p = Some q -> m !! q = Some c -> m' !! q = Some c' -> nTx c' = nTx c) -> txs m' p = txs m p.
Proof.
  intros Hm Hs. pose proof (same_index_ok m m' Hs Hm) as Hm'. revert p b. apply (chain_ind m (fun p b => _ -> _) Hm). intros p b Hp IH Hn.
  destruct (same_lookup m m' Hs p b Hp) as (b' & Hp' & (_ & Epp & _)). pose proof (Hn 0%nat p b b' eq_refl Hp Hp') as Et.
  destruct (pprev b) as [q|] eqn:Eq.
  - rewrite (txs_prev m p b q Hm Hp Eq), (txs_prev m' p b' q Hm' Hp') by congruence. rewrite Et. f_equal.
    destruct (prev_entry m Hm p b q Hp Eq) as (c & Hc & _). apply (IH q c eq_refl Hc).
    intros n r x x' Hu. apply (Hn (S n) r). by rewrite (up_pprev m n p b q).
  - rewrite (txs_first m p b Hp Eq), (txs_first m' p b' Hp'); congruence.
Qed.

(** ** The invariant *)

(** Linking goes on while blocks are in [queue]. *)
Record linked_upto (st : CChainState) (queue : list ptr) : Prop := {
  lk_tree : forall p b, cs_map st !! p = Some b -> BLOCK_VALID_TREE <= Z.land (nStatus b) BLOCK_VALID_MASK;
  lk_tx : forall p b, cs_map st !! p = Some b -> 0 <= nTx b;
  (** [nChainTx] counts the transactions of the chain, when all of them are there. *)
  lk_sum : forall p b, cs_map st !! p = Some b -> nChainTx b <> 0 -> nChainTx b = txs (cs_map st) p;
  lk_complete : forall p b, cs_map st !! p = Some b -> clean (cs_map st) p -> nTx b <> 0 ->
    (forall q c, pprev b = Some q -> cs_map st !! q = Some c -> nChainTx c <> 0) -> nChainTx b <> 0 \/ p ∈ queue;
  (** A block that has data waits for a predecessor that is not linked. *)
  lk_unlinked : forall p b q c, cs_map st !! p = Some b -> clean (cs_map st) p -> nTx b <> 0 -> pprev b = Some q ->
    cs_map st !! q = Some c -> nChainTx c = 0 -> (Some q, p) ∈ mapBlocksUnlinked st;
  lk_waiting : forall k p, (k, p) ∈ mapBlocksUnlinked st -> exists b q, k = Some q /\ cs_map st !! p = Some b /\ pprev b = Some q /\
    nTx b <> 0 /\ nChainTx b = 0;
  lk_nodup : NoDup (mapBlocksUnlinked st);
  lk_valid : forall p b, cs_map st !! p = Some b -> nTx b <> 0 -> BLOCK_VALID_TRANSACTIONS <= Z.land (nStatus b) BLOCK_VALID_MASK }.
Abbreviation linked_ok st := (linked_upto st []).

Lemma linked_evolves st st' : ready st -> linked_ok st -> evolves (cs_map st) (cs_map st') -> mapBlocksUnlinked st' = mapBlocksUnlinked st -> linked_ok st'.
Proof.
  intros R K He Hu. pose proof (evolves_tree _ _ He) as Ht. destruct K as [K1 K2 K3 K4 K5 K6 K7 K8].
  assert (forall p b', cs_map st' !! p = Some b' -> exists b, cs_map st !! p = Some b /\ entry_evolves b b') as Hback by (apply (evolved_lookup_rev _ _ He)).
  split.
  - intros p b' Hp. destruct (Hback p b' Hp) as (b & Hb & (_ & _ & _ & _ & _ & _ & _ & Hv & _)). etrans; [by apply (K1 p b Hb) | done].
  - intros p b' Hp. destruct (Hback p b' Hp) as (b & Hb & (_ & -> & _)). by apply (K2 p b).
  - intros p b' Hp. destruct (Hback p b' Hp) as (b & Hb & (_ & _ & -> & _)). intros Hn. rewrite (K3 p b Hb Hn). symmetry.
    apply (txs_same _ _ p b (r_index st R) Ht Hb). intros n q c c' _ Hc Hc'.
    destruct (Hback q c' Hc') as (c0 & Hc0 & (_ & E & _)). congruence.
  - intros p b' Hp Hcl Hn Hpar. destruct (Hback p b' Hp) as (b & Hb & ((_ & Epp & _) & Et & Ec & _)). rewrite Ec.
    apply (K4 p b Hb); [by apply (clean_before _ _ p He) | congruence|]. intros q c Hq Hc.
    destruct (evolved_lookup _ _ He q c Hc) as (c' & Hc' & (_ & _ & Ecc & _)). rewrite <- Ecc. apply (Hpar q c'); [congruence | done].
  - intros p b' q c' Hp Hcl Hn Hq Hc Hz. destruct (Hback p b' Hp) as (b & Hb & ((_ & Epp & _) & Et & _)). destruct (Hback q c' Hc) as (c & Hc0 & (_ & _ & Ec & _)).
    rewrite Hu. apply (K5 p b q c Hb); [by apply (clean_before _ _ p He) | congruence..].
  - intros k p Hkp. rewrite Hu in Hkp. destruct (K6 k p Hkp) as (b & q & -> & Hb & Hq & Hn & Hz).
    destruct (evolved_lookup _ _ He p b Hb) as (b' & Hb' & ((_ & Epp & _) & Et & Ec & _)). exists b', q. split_and!; congruence.
  - by rewrite Hu.
  - intros p b' Hp. destruct (Hback p b' Hp) as (b & Hb & (_ & -> & _ & _ & _ & _ & _ & Hv & _)). intros Hn. etrans; [by apply (K8 p b Hb) | done].
Qed.

(** All data of the chain of [p] has arrived and none of it is marked as failed. *)
Definition available (m : BlockMap) (p : ptr) : Prop :=
  is_Some (m !! p) /\ forall n q c, up m n p = Some q -> m !! q = Some c -> nTx c <> 0 /\ failed c = false.

Lemma available_eligible st p : ready st -> linked_ok st -> available (cs_map st) p <-> eligible (cs_map st) p.
Proof.
  intros R K. split.
  - intros [[b Hb] Ha]. assert (clean (cs_map st) p) as Hcl by (intros n q c Hu Hc; by destruct (Ha n q c Hu Hc)).
    split; [|done]. exists b. split; [done|]. revert p b Hb Ha Hcl. apply (chain_ind _ (fun p b => _ -> _ -> _) (r_index st R)).
    intros p b Hp IH Ha Hcl. destruct (lk_complete st [] K p b Hp Hcl) as [H|H]; [by destruct (Ha 0%nat p b eq_refl Hp) | | done | by apply elem_of_nil in H].
    intros q c Hq Hc. apply (IH q c Hq Hc); [|by apply (clean_prev _ p b q)]. intros n r x Hu. apply (Ha (S n)). by rewrite (up_pprev _ n p b q).
  - intros [(b & Hb & Hn) Hcl]. split; [eauto|]. revert p b Hb Hn Hcl.
    apply (chain_ind _ (fun p b => _ -> _ -> forall n q c, _ -> _ -> _) (r_index st R)). intros p b Hp IH Hn Hcl k q c Hu Hc.
    destruct (r_linked st R p b Hp Hn) as [Ht Hpar]. destruct k as [|k].
    + injection Hu as <-. rewrite Hp in Hc. injection Hc as <-. split; [done|]. by apply (clean_self _ p b Hp).
    + cbn [up] in Hu. rewrite Hp in Hu. cbn [mbind option_bind] in Hu. destruct (pprev b) as [r|] eqn:Er; [|done]. cbn [mbind option_bind] in Hu.
      destruct (prev_entry _ (r_index st R) p b r Hp Er) as (x & Hx & _).
      apply (IH r x eq_refl Hx (Hpar r x eq_refl Hx) (clean_prev _ p b r Hp Er Hcl) k q c Hu Hc).
Qed.

(** The invariant of the chain state *)
Record chain_state_ok (addr : ptr -> Z) (st : CChainState) : Prop := {
  ok_ready : ready st;
  ok_linked : linked_ok st;
  ok_complete : complete addr st (Tip (chainActive st)) }.

(** ** Blocks that arrive *)

(** What the queue holds: blocks whose predecessors are linked and that are not waiting any more *)
Record linking (addr : ptr -> Z) (st : CChainState) (queue : list ptr) : Prop := {
  lq_ready : ready st;
  lq_complete : complete addr st (Tip (chainActive st));
  lq_linked : linked_upto st queue;
  lq_queue : forall p, p ∈ queue -> exists b, cs_map st !! p = Some b /\ nTx b <> 0 /\ nChainTx b = 0 /\
    (forall q c, pprev b = Some q -> cs_map st !! q = Some c -> nChainTx c <> 0) /\ forall k, ~ (k, p) ∈ mapBlocksUnlinked st;
  lq_nodup : NoDup queue;
  lq_bound : forall p, txs (cs_map st) p < 2 ^ 32 }.

(** The blocks that are still to be linked *)
Definition pending (m : BlockMap) : gset (list Z) := dom (filter (fun e => nTx (snd e) <> 0 /\ nChainTx (snd e) = 0) m).
Lemma elem_of_pending m p : p ∈ pending m <-> exists b, m !! p = Some b /\ nTx b <> 0 /\ nChainTx b = 0.
Proof. unfold pending. rewrite elem_of_dom. unfold is_Some. setoid_rewrite map_lookup_filter_Some. cbn. naive_solver. Qed.

Lemma elem_of_waiting u p x : x ∈ waiting u p <-> (Some p, x) ∈ u.
Proof.
  unfold waiting. rewrite list_elem_of_fmap. split.
  - intros ([k y] & -> & Hin). apply list_elem_of_filter in Hin as [Hk Hin]. cbn in Hk. by subst k.
  - intros Hin. exists (Some p, x). split; [done|]. by apply list_elem_of_filter.
Qed.
Lemma elem_of_not_waiting u p k x : (k, x) ∈ not_waiting u p <-> (k, x) ∈ u /\ k <> Some p.
Proof. unfold not_waiting. rewrite list_elem_of_filter. cbn. tauto. Qed.
Lemma waiting_nodup u p : NoDup u -> NoDup (waiting u p).
Proof.
  intros Hu. unfold waiting. apply NoDup_fmap_2_strong; [|by apply NoDup_filter].
  intros [k x] [k' x'] H1 H2 E. apply list_elem_of_filter in H1 as [H1 _]. apply list_elem_of_filter in H2 as [H2 _]. cbn in *. congruence.
Qed.

Section Link.
Context (addr : ptr -> Z).

(** The state once [p] is linked *)
Definition linked_entry (st : CChainState) (p : ptr) (b : CBlockIndex) : CBlockIndex :=
  set_nSequenceId (set_nChainTx b (txs (cs_map st) p)) (nBlockSequenceId st).

Lemma link_value st p q queue b : linking addr st queue -> p ∈ queue -> cs_map st !! p = Some b -> pprev b = q ->
  (match q with None => Some 0 | Some q => c ← cs_map st !! q; Some (nChainTx c) end) =
    Some (txs (cs_map st) p - nTx b) /\ 0 < txs (cs_map st) p < 2 ^ 32.
Proof.
  intros L Hin Hp <-. pose proof (r_index st (lq_ready _ _ _ L)) as Hm. destruct (lq_queue _ _ _ L p Hin) as (b' & Hb' & Ht & Hz & Hpar & _).
  rewrite Hp in Hb'. injection Hb' as <-. pose proof (lk_tx st queue (lq_linked _ _ _ L) p b Hp). pose proof (lq_bound _ _ _ L p).
  destruct (pprev b) as [q|] eqn:Eq.
  - destruct (prev_entry _ Hm p b q Hp Eq) as (c & Hc & _). rewrite Hc. cbn [mbind option_bind].
    pose proof (lk_sum st queue (lq_linked _ _ _ L) q c Hc (Hpar q c eq_refl Hc)) as Es. rewrite (txs_prev _ p b q Hm Hp Eq) in *.
    pose proof (lq_bound _ _ _ L q).
    pose proof (txs_nonneg _ q Hm (lk_tx st queue (lq_linked _ _ _ L))). split; [f_equal; lia | lia].
  - rewrite (txs_first _ p b Hp Eq) in *. split; [f_equal; lia | lia].
Qed.

Lemma linked_entry_skel st p b : skel b (linked_entry st p b).
Proof. by destruct b. Qed.
Lemma linked_entry_fields st p b : let b' := linked_entry st p b in
  nTx b' = nTx b /\ nStatus b' = nStatus b /\ nChainTx b' = txs (cs_map st) p /\ pprev b' = pprev b /\ nChainWork b' = nChainWork b.
Proof. by destruct b. Qed.

(** The state in which the entry of [p] has been linked *)
Definition linked_state (st : CChainState) (p : ptr) (b : CBlockIndex) (insert : bool) : CChainState :=
  let st1 := set_sequence (set_entry st p (linked_entry st p b)) (nBlockSequenceId st + 1) (nBlockReverseSequenceId st) (nLastPreciousChainwork st) in
  let st2 := if insert then insert_candidate st1 p else st1 in
  set_unlinked st2 (not_waiting (mapBlocksUnlinked st) p).

Section One.
Context (st : CChainState) (p : ptr) (queue : list ptr) (b : CBlockIndex) (insert : bool).
Context (L : linking addr st (p :: queue)) (Hp : cs_map st !! p = Some b).
Abbreviation m := (cs_map st).
Abbreviation st' := (linked_state st p b insert).
Abbreviation b' := (linked_entry st p b).

Lemma ls_map : cs_map st' = <[p := b']> m.
Proof. by destruct insert. Qed.
Lemma ls_active : chainActive st' = chainActive st.
Proof. by destruct insert. Qed.
Lemma ls_other q : q <> p -> cs_map st' !! q = m !! q.
Proof. intros Hq. rewrite ls_map. by apply lookup_insert_ne. Qed.
Lemma ls_self : cs_map st' !! p = Some b'.
Proof. rewrite ls_map. apply lookup_insert_eq. Qed.
Lemma ls_tree : same_tree m (cs_map st').
Proof. rewrite ls_map. apply (same_tree_insert m p b); [done|]. apply linked_entry_skel. Qed.

Lemma in_queue : nTx b <> 0 /\ nChainTx b = 0 /\ (forall q c, pprev b = Some q -> m !! q = Some c -> nChainTx c <> 0) /\ forall k, ~ (k, p) ∈ mapBlocksUnlinked st.
Proof. destruct (lq_queue _ _ _ L p) as (b0 & Hb0 & H); [by left|]. by simplify_eq. Qed.

Lemma ls_nonzero : txs m p <> 0.
Proof. destruct (link_value st p (pprev b) (p :: queue) b L) as [_ H]; [by left | done | done|]. lia. Qed.

(** Entries, as they were before *)
Lemma ls_back q c' : cs_map st' !! q = Some c' -> exists c, m !! q = Some c /\ skel c c' /\ nTx c' = nTx c /\ nStatus c' = nStatus c /\
  (q = p /\ c' = b' \/ q <> p /\ c' = c).
Proof.
  intros Hq. destruct (decide (q = p)) as [->|Hne].
  - rewrite ls_self in Hq. injection Hq as <-. exists b. destruct (linked_entry_fields st p b) as (E1 & E2 & _).
    split; [done|]. split; [apply linked_entry_skel|]. split; [done|]. split; [done|]. by left.
  - rewrite ls_other in Hq by done. exists c'. split; [done|]. split; [apply skel_refl|]. split; [done|]. split; [done|]. by right.
Qed.

Lemma ls_linked q c c' : m !! q = Some c -> cs_map st' !! q = Some c' -> nChainTx c <> 0 -> nChainTx c' <> 0.
Proof.
  intros Hc Hc' Hn. destruct (ls_back q c' Hc') as (c0 & Hc0 & _ & _ & _ & [[-> ->]|[_ ->]]); [|congruence].
  destruct (linked_entry_fields st p b) as (_ & _ & -> & _). apply ls_nonzero.
Qed.

Lemma ls_clean q : clean (cs_map st') q <-> clean m q.
Proof.
  split; intros H n r c Hu Hr.
  - destruct (same_lookup _ _ ls_tree r c Hr) as (c' & Hc' & _). destruct (ls_back r c' Hc') as (c0 & Hc0 & _ & _ & Es & _).
    assert (failed c' = false) as Hf by (apply (H n r c'); [by rewrite (same_up _ _ ls_tree) | done]).
    rewrite Hr in Hc0. injection Hc0 as <-. unfold has in *. by rewrite Es in Hf.
  - destruct (ls_back r c Hr) as (c0 & Hc0 & _ & _ & Es & _). rewrite (same_up _ _ ls_tree) in Hu.
    specialize (H n r c0 Hu Hc0). unfold has in *. by rewrite Es.
Qed.

Lemma ls_ready : ready st'.
Proof.
  pose proof (lq_ready _ _ _ L) as R. destruct in_queue as (Ht & Hz & Hpar & _).
  assert (forall i, chain_at (chainActive st) i <> Some p) as Hnot.
  { intros i Hi. by destruct (r_active st R i p b Hi Hp) as (Hx & _). }
  split.
  - by apply (same_index_ok _ _ ls_tree), (r_index st R).
  - intros x bx q c Hx Hq Hc. destruct (ls_back x bx Hx) as (x0 & Hx0 & (_ & E1 & _ & _ & E2 & _) & _).
    destruct (ls_back q c Hc) as (c0 & Hc0 & (_ & _ & _ & _ & E3 & _) & _). rewrite E2, E3. apply (r_work st R x x0 q c0); congruence.
  - intros x bx Hx Hn. destruct (ls_back x bx Hx) as (x0 & Hx0 & _ & E1 & E2 & _). unfold has. rewrite E2. apply (r_data st R x x0 Hx0). congruence.
  - intros x bx Hx Hn. destruct (ls_back x bx Hx) as (x0 & Hx0 & (_ & Epp & _) & E1 & _ & Hcase).
    assert (nTx x0 <> 0 /\ forall q c, pprev x0 = Some q -> m !! q = Some c -> nChainTx c <> 0) as [H1 H2].
    { destruct Hcase as [[-> _]|[_ ->]]; [by simplify_eq | by apply (r_linked st R x x0)]. }
    split; [congruence|]. intros q c Hq Hc. destruct (ls_back q c Hc) as (c0 & Hc0 & _). apply (ls_linked q c0 c Hc0 Hc), (H2 q c0); congruence.
  - rewrite ls_active. apply (same_chain_ok _ _ ls_tree), (r_chain st R).
  - rewrite ls_active. intros i q c Hi Hc. rewrite ls_other in Hc by (intros ->; by apply (Hnot i)). by apply (r_active st R i q c).
  - intros q Hq. assert (q = p \/ q ∈ setBlockIndexCandidates st) as [->|Hin] by (destruct insert; cbn in Hq; [apply elem_of_union in Hq as [->%elem_of_singleton|Hq]; auto | auto]).
    + exists b'. split; [apply ls_self|]. destruct (linked_entry_fields st p b) as (_ & _ & -> & _). apply ls_nonzero.
    + destruct (r_cand st R q Hin) as (c & Hc & Hn). destruct (same_lookup _ _ ls_tree q c Hc) as (c' & Hc' & _). exists c'. split; [done | by apply (ls_linked q c c')].
  - intros q Hq. destruct (r_best st R q) as [c Hc]; [by destruct insert|]. destruct (same_lookup _ _ ls_tree q c Hc) as (c' & Hc' & _). eauto.
  - intros q Hq. destruct (r_failed st R q) as (c & Hc & Hf); [by destruct insert|]. destruct (same_lookup _ _ ls_tree q c Hc) as (c' & Hc' & _).
    destruct (ls_back q c' Hc') as (c0 & Hc0 & _ & _ & Es & _). exists c'. split; [done|]. unfold has. rewrite Es. by simplify_eq.
  - apply (best_ok_same (cs_index st)); [apply ls_tree | by destruct insert | apply (r_header st R)].
Qed.

Lemma ls_wlt q t : q <> p -> t <> p -> wlt addr (cs_map st') q t <-> wlt addr m q t.
Proof. intros Hq Ht. unfold wlt. by rewrite !ls_other by done. Qed.

Lemma ls_complete : (insert = false -> wlt_opt addr (cs_map st') p (Tip (chainActive st))) -> complete addr st' (Tip (chainActive st')).
Proof.
  intros Hins q [(c & Hc & Hn) Hcl]. rewrite ls_active. destruct (decide (q = p)) as [->|Hne].
  - destruct insert; [left; cbn; apply elem_of_union_l; by apply elem_of_singleton | right; by apply Hins].
  - assert (eligible m q) as He by (split; [exists c; by rewrite <- ls_other by done | by apply ls_clean]).
    destruct (lq_complete _ _ _ L q He) as [H|H].
    + left. destruct insert; [by apply elem_of_union_r | done].
    + right. destruct (Tip (chainActive st)) as [t|] eqn:Et; [|done]. apply ls_wlt; [done | | done].
      intros ->. destruct (tip_sound st p (lq_ready _ _ _ L) Et 0%nat p b eq_refl Hp) as (Hx & _). destruct in_queue as (_ & Hz & _). done.
Qed.

Lemma ls_txs q : txs (cs_map st') q = txs m q.
Proof.
  destruct (m !! q) as [c|] eqn:Hq.
  - apply (txs_same _ _ q c (r_index st (lq_ready _ _ _ L)) ls_tree Hq). intros n r x x' _ Hx Hx'.
    destruct (ls_back r x' Hx') as (x0 & Hx0 & _ & E & _). congruence.
  - unfold txs. by rewrite Hq, (same_none _ _ ls_tree q Hq).
Qed.

Lemma ls_unlinked : mapBlocksUnlinked st' = not_waiting (mapBlocksUnlinked st) p.
Proof. by destruct insert. Qed.

Lemma ls_linked_upto : linked_upto st' (queue ++ waiting (mapBlocksUnlinked st) p).
Proof.
  pose proof (lq_linked _ _ _ L) as K. destruct in_queue as (Ht & Hz & Hpar & Hw). destruct (linked_entry_fields st p b) as (F1 & F2 & F3 & F4 & F5). split.
  - intros x bx Hx. destruct (ls_back x bx Hx) as (x0 & Hx0 & _ & _ & -> & _). by apply (lk_tree st _ K x x0).
  - intros x bx Hx. destruct (ls_back x bx Hx) as (x0 & Hx0 & _ & -> & _). by apply (lk_tx st _ K x x0).
  - intros x bx Hx Hn. rewrite ls_txs. destruct (ls_back x bx Hx) as (x0 & Hx0 & _ & _ & _ & [[-> ->]|[_ ->]]); [done|]. by apply (lk_sum st _ K x x0).
  - intros x bx Hx Hcl Hn Hp'. destruct (ls_back x bx Hx) as (x0 & Hx0 & (_ & Epp & _) & Et & _ & Hcase). apply ls_clean in Hcl.
    destruct Hcase as [[-> ->]|[Hne ->]]; [left; rewrite F3; apply ls_nonzero|].
    destruct (decide (pprev x0 = Some p)) as [Ep|Ep].
    + right. apply elem_of_app. right. apply elem_of_waiting. by apply (lk_unlinked st _ K x x0 p b).
    + destruct (lk_complete st _ K x x0 Hx0 Hcl Hn) as [H|H]; [ | by left | right; apply elem_of_cons in H as [->|H]; [done | apply elem_of_app; by left]].
      intros q c Hq Hc. apply (Hp' q c Hq). rewrite ls_other; [done | congruence].
  - intros x bx q c Hx Hcl Hn Hq Hc Hcz. destruct (ls_back x bx Hx) as (x0 & Hx0 & (_ & Epp & _) & Et & _). apply ls_clean in Hcl.
    destruct (ls_back q c Hc) as (c0 & Hc0 & _ & _ & _ & [[-> ->]|[Hne ->]]); [rewrite F3 in Hcz; by apply ls_nonzero in Hcz|].
    rewrite ls_unlinked. apply elem_of_not_waiting. split; [|congruence]. by apply (lk_unlinked st _ K x x0 q c0); [ | | congruence | congruence | |].
  - intros k x Hkx. rewrite ls_unlinked in Hkx. apply elem_of_not_waiting in Hkx as [Hkx Hk].
    destruct (lk_waiting st _ K k x Hkx) as (bx & q & -> & Hbx & Hq & Hn & Hc0). exists bx, q. rewrite ls_other by (intros ->; by apply (Hw (Some q))). by split_and!.
  - rewrite ls_unlinked. apply NoDup_filter, (lk_nodup st _ K).
  - intros x bx Hx. destruct (ls_back x bx Hx) as (x0 & Hx0 & _ & -> & -> & _). by apply (lk_valid st _ K x x0).
Qed.

Lemma ls_queue : (insert = false -> wlt_opt addr (cs_map st') p (Tip (chainActive st))) ->
  linking addr st' (queue ++ waiting (mapBlocksUnlinked st) p).
Proof.
  intros Hins. pose proof (lq_linked _ _ _ L) as K. pose proof (lq_nodup _ _ _ L) as Hnd. apply NoDup_cons in Hnd as [Hpq Hnd].
  split; [apply ls_ready | by apply ls_complete | apply ls_linked_upto | | | intros q; rewrite ls_txs; apply (lq_bound _ _ _ L)].
  - intros x Hx. apply elem_of_app in Hx as [Hx|Hx].
    + destruct (lq_queue _ _ _ L x) as (bx & Hbx & Ht & Hz & Hpar & Hw); [by right|]. assert (x <> p) as Hne by (intros ->; done).
      exists bx. rewrite ls_other by done. split; [done|]. split; [done|]. split; [done|]. split.
      * intros q c Hq Hc. destruct (ls_back q c Hc) as (c0 & Hc0 & _). apply (ls_linked q c0 c Hc0 Hc), (Hpar q c0 Hq Hc0).
      * intros k. rewrite ls_unlinked. intros [Hkx _]%elem_of_not_waiting. by apply (Hw k).
    + apply elem_of_waiting in Hx. destruct (lk_waiting st _ K _ x Hx) as (bx & q & E & Hbx & Hq & Hn & Hz). injection E as <-.
      assert (x <> p) as Hne by (intros ->; destruct in_queue as (_ & _ & _ & Hw); by apply (Hw (Some p))).
      exists bx. rewrite ls_other by done. split; [done|]. split; [done|]. split; [done|]. split.
      * intros q c Hq' Hc. assert (q = p) as -> by congruence. rewrite ls_self in Hc. injection Hc as <-.
        destruct (linked_entry_fields st p b) as (_ & _ & -> & _). apply ls_nonzero.
      * intros k. rewrite ls_unlinked. intros [Hkx Hk]%elem_of_not_waiting. destruct (lk_waiting st _ K k x Hkx) as (by_ & q & -> & Hby & Hq' & _). congruence.
  - apply NoDup_app. split; [done|]. split; [|by apply waiting_nodup, (lk_nodup st _ K)].
    intros x Hx Hwx. apply elem_of_waiting in Hwx. destruct (lq_queue _ _ _ L x) as (bx & _ & _ & _ & _ & Hw); [by right|]. by apply (Hw (Some p)).
Qed.

Lemma ls_pending : pending (cs_map st') ⊂ pending m.
Proof.
  destruct in_queue as (Ht & Hz & _). destruct (linked_entry_fields st p b) as (F1 & F2 & F3 & _). split.
  - intros x. rewrite !elem_of_pending. intros (bx & Hx & Hn & Hc0). destruct (ls_back x bx Hx) as (x0 & Hx0 & _ & Et & _ & [[-> ->]|[_ ->]]).
    + rewrite F3 in Hc0. by apply ls_nonzero in Hc0.
    + exists x0. split_and!; congruence.
  - intros Hsub. assert (p ∈ pending m) as Hin by (apply elem_of_pending; eauto). apply Hsub, elem_of_pending in Hin as (x & Hx & _ & Hc0).
    rewrite ls_self in Hx. injection Hx as <-. rewrite F3 in Hc0. by apply ls_nonzero in Hc0.
Qed.
End One.

Lemma link_block_ok st p queue : linking addr st (p :: queue) ->
  exists st', link_block addr st p = Some st' /\ linking addr st' (queue ++ waiting (mapBlocksUnlinked st) p) /\ pending (cs_map st') ⊂ pending (cs_map st).
Proof.
  intros L. destruct (lq_queue _ _ _ L p) as (b & Hb & Ht & Hz & Hpar & Hw); [by left|].
  destruct (link_value st p (pprev b) (p :: queue) b L) as [Ev Hr]; [by left | done | done|].
  assert (exists insert, match Tip (chainActive st) with None => Some true | Some t => w ← worse addr (<[p := linked_entry st p b]> (cs_map st)) p (Some t); Some (negb w) end = Some insert /\
    (insert = false -> wlt_opt addr (cs_map (linked_state st p b insert)) p (Tip (chainActive st)))) as (insert & Ei & Hi).
  { destruct (Tip (chainActive st)) as [t|] eqn:Et; [|by exists true].
    destruct (tip_entry (linked_state st p b true) t (ls_ready st p queue b true L Hb) Et) as [bt Hbt].
    destruct (worse_spec addr _ p t _ bt (r_index _ (ls_ready st p queue b true L Hb)) (ls_self st p b true) Hbt) as (w & Ew & Hw').
    change (cs_map (linked_state st p b true)) with (<[p := linked_entry st p b]> (cs_map st)) in Ew, Hw'. rewrite Ew. cbn [mbind option_bind].
    exists (negb w). split; [done|]. intros Hn. destruct w; [|done]. cbn. by apply Hw'. }
  exists (linked_state st p b insert). split; [|split; [by apply ls_queue | by apply ls_pending with queue]].
  unfold link_block. rewrite Hb. cbn [mbind option_bind]. rewrite Ev. cbn [mbind option_bind].
  replace (txs (cs_map st) p - nTx b + nTx b) with (txs (cs_map st) p) by lia. rewrite u32_id by lia. fold (linked_entry st p b).
  set (x := match Tip _ with Some _ => _ | None => _ end). change x with (match Tip (chainActive st) with None => Some true | Some t => w ← worse addr (<[p := linked_entry st p b]> (cs_map st)) p (Some t); Some (negb w) end).
  rewrite Ei. cbn [mbind option_bind]. by destruct insert.
Qed.

Lemma link_loop_ok fuel : forall st queue, linking addr st queue -> (size (pending (cs_map st)) <= fuel)%nat ->
  exists st', link_loop addr fuel st queue = Some st' /\ linking addr st' [].
Proof.
  induction fuel as [|fuel IH]; intros st [|p queue] L Hf; cbn [link_loop]; eauto.
  - destruct (lq_queue _ _ _ L p) as (b & Hb & Ht & Hz & _); [by left|]. assert (p ∈ pending (cs_map st)) as Hin by (apply elem_of_pending; eauto).
    assert (pending (cs_map st) = ∅) as E by (apply leibniz_equiv, size_empty_iff; lia). rewrite E in Hin. by apply elem_of_empty in Hin.
  - destruct (link_block_ok st p queue L) as (st1 & -> & L1 & Hp). cbn [mbind option_bind]. apply IH; [done|]. pose proof (subset_size _ _ Hp). lia.
Qed.
End Link.

(** ** The data of a block *)

(** The entry of a block whose [n] transactions have been received *)
Definition received (b b1 : CBlockIndex) (n : Z) : Prop :=
  skel b b1 /\ nTx b1 = n /\ nChainTx b1 = 0 /\ nSequenceId b1 = nSequenceId b /\ failed b1 = failed b /\ has b1 BLOCK_HAVE_DATA = true /\
  Z.land (nStatus b) BLOCK_VALID_MASK <= Z.land (nStatus b1) BLOCK_VALID_MASK /\ BLOCK_VALID_TRANSACTIONS <= Z.land (nStatus b1) BLOCK_VALID_MASK.

Section Received.
Context (addr : ptr -> Z) (st : CChainState) (p : ptr) (b b1 : CBlockIndex) (n : Z).
Context (K : chain_state_ok addr st) (Hp : cs_map st !! p = Some b) (Hb1 : received b b1 n) (Hnew : nTx b = 0) (Hn : 0 < n).
Context (Hroom : forall q, txs (cs_map st) q + n < 2 ^ 32).
Abbreviation m := (cs_map st).
Abbreviation m1 := (<[p := b1]> (cs_map st)).
Let R := ok_ready addr st K.

Lemma rc_zero : nChainTx b = 0.
Proof. destruct (Z.eq_dec (nChainTx b) 0); [done|]. by destruct (r_linked st R p b Hp). Qed.
Lemma rc_tree : same_tree m m1.
Proof. apply (same_tree_insert m p b); [done | apply Hb1]. Qed.
Lemma rc_back q c1 : m1 !! q = Some c1 -> exists c, m !! q = Some c /\ skel c c1 /\ nChainTx c1 = nChainTx c /\ nSequenceId c1 = nSequenceId c /\ failed c1 = failed c /\
  Z.land (nStatus c) BLOCK_VALID_MASK <= Z.land (nStatus c1) BLOCK_VALID_MASK /\ (q = p /\ c1 = b1 \/ q <> p /\ c1 = c).
Proof.
  intros Hq. destruct Hb1 as (E1 & E2 & E3 & E4 & E5 & E6 & E7 & _). destruct (decide (q = p)) as [->|Hne].
  - rewrite lookup_insert_eq in Hq. injection Hq as <-. exists b. rewrite rc_zero. split_and!; auto.
  - rewrite lookup_insert_ne in Hq by done. exists c1. pose proof (skel_refl c1). split_and!; auto; done.
Qed.

Lemma rc_clean q : clean m1 q <-> clean m q.
Proof.
  split; intros H k r c Hu Hr.
  - destruct (same_lookup _ _ rc_tree r c Hr) as (c1 & Hc1 & _). destruct (rc_back r c1 Hc1) as (c0 & Hc0 & _ & _ & _ & Ef & _).
    rewrite Hr in Hc0. injection Hc0 as <-. rewrite <- Ef. apply (H k r c1); [by rewrite (same_up _ _ rc_tree) | done].
  - destruct (rc_back r c Hr) as (c0 & Hc0 & _ & _ & _ & Ef & _). rewrite (same_up _ _ rc_tree) in Hu. rewrite Ef. by apply (H k r c0).
Qed.

Lemma rc_txs_linked q c : m !! q = Some c -> nChainTx c <> 0 -> txs m1 q = txs m q.
Proof.
  intros Hq Hc. apply (txs_same _ _ q c (r_index st R) rc_tree Hq). intros k r x x1 Hu Hx Hx1.
  destruct (rc_back r x1 Hx1) as (x0 & Hx0 & _ & _ & _ & _ & _ & [[-> _]|[_ ->]]); [|congruence].
  destruct (linked_back st k R q p c Hq Hc Hu) as (b' & Hb' & Hz). rewrite Hp in Hb'. injection Hb' as <-. by rewrite rc_zero in Hz.
Qed.

Lemma rc_txs q : txs m1 q < 2 ^ 32.
Proof.
  destruct (m !! q) as [c|] eqn:Hq.
  2: { unfold txs. rewrite (same_none _ _ rc_tree q Hq). lia. }
  assert (txs m1 q <= txs m q + n); [|specialize (Hroom q); lia]. revert q c Hq. pose proof (r_index st R) as Hm.
  pose proof (same_index_ok _ _ rc_tree Hm) as Hm1. apply (chain_ind m (fun q c => _) Hm). intros q c Hq IH.
  destruct (same_lookup _ _ rc_tree q c Hq) as (c1 & Hc1 & (_ & Epp & _)). destruct (rc_back q c1 Hc1) as (c0 & Hc0 & _ & _ & _ & _ & _ & Hcase).
  rewrite Hq in Hc0. injection Hc0 as <-. destruct (pprev c) as [r|] eqn:Er.
  - rewrite (txs_prev m q c r Hm Hq Er), (txs_prev m1 q c1 r Hm1 Hc1) by congruence.
    destruct (prev_entry m Hm q c r Hq Er) as (x & Hx & Eh). specialize (IH r x eq_refl Hx). destruct Hcase as [[-> ->]|[_ ->]]; [|lia].
    assert (c = b) as -> by congruence. destruct Hb1 as (_ & -> & _). rewrite Hnew.
    assert (txs m1 r = txs m r) as ->; [|lia]. apply (txs_same m m1 r x Hm rc_tree Hx). intros k y a a1 Hu Ha Ha1.
    destruct (up_height m Hm k r x y Hx Hu) as (a' & Ha' & Eh'). rewrite lookup_insert_ne in Ha1 by (intros <-; simplify_eq; lia). congruence.
  - rewrite (txs_first m q c Hq Er), (txs_first m1 q c1 Hc1) by congruence. destruct Hcase as [[-> ->]|[_ ->]]; [|lia].
    assert (c = b) as -> by congruence. destruct Hb1 as (_ & -> & _). lia.
Qed.

Section State.
Context (st1 : CChainState) (queue : list ptr).
Context (Hmap : cs_map st1 = m1) (Hact : chainActive st1 = chainActive st) (Hcand : setBlockIndexCandidates st1 = setBlockIndexCandidates st).
Context (Hbest : pindexBestInvalid st1 = pindexBestInvalid st).

Lemma rc_ready : failed b = false -> m_failed_blocks st1 = m_failed_blocks st -> pindexBestHeader (cs_index st1) = pindexBestHeader (cs_index st) -> ready st1.
Proof.
  intros Hclean Hfb Hbh.
  destruct Hb1 as (_ & En & _ & _ & _ & Ed & _). split; rewrite ?Hmap, ?Hact, ?Hcand, ?Hbest.
  - apply (same_index_ok _ _ rc_tree), (r_index st R).
  - intros x bx q c Hx Hq Hc. destruct (rc_back x bx Hx) as (x0 & Hx0 & (_ & E1 & _ & _ & E2 & _) & _).
    destruct (rc_back q c Hc) as (c0 & Hc0 & (_ & _ & _ & _ & E3 & _) & _). rewrite E2, E3. apply (r_work st R x x0 q c0); congruence.
  - intros x bx Hx Hx0. destruct (rc_back x bx Hx) as (x0 & Hx1 & _ & _ & _ & _ & _ & [[-> ->]|[_ ->]]); [done | by apply (r_data st R x x0)].
  - intros x bx Hx Hx0. destruct (rc_back x bx Hx) as (x0 & Hx1 & (_ & Epp & _) & Ec & _ & _ & _ & Hcase). rewrite Ec in Hx0.
    destruct (r_linked st R x x0 Hx1 Hx0) as [H1 H2]. split.
    + destruct Hcase as [[-> ->]|[_ ->]]; [lia | done].
    + intros q c Hq Hc. destruct (rc_back q c Hc) as (c0 & Hc0 & _ & -> & _). apply (H2 q c0); congruence.
  - apply (same_chain_ok _ _ rc_tree), (r_chain st R).
  - intros i q c Hi Hc. destruct (rc_back q c Hc) as (c0 & Hc0 & _ & Ec & _ & _ & _ & [[-> ->]|[_ ->]]); [|by apply (r_active st R i q c0)].
    destruct (r_active st R i p c0 Hi Hc0) as (Hx & _). assert (c0 = b) as -> by congruence. by rewrite rc_zero in Hx.
  - intros q Hq. destruct (r_cand st R q Hq) as (c & Hc & Hx). destruct (same_lookup _ _ rc_tree q c Hc) as (c1 & Hc1 & _).
    destruct (rc_back q c1 Hc1) as (c0 & Hc0 & _ & Ec & _). exists c1. split; [done | congruence].
  - intros q Hq. destruct (r_best st R q Hq) as [c Hc]. destruct (same_lookup _ _ rc_tree q c Hc) as (c1 & Hc1 & _). eauto.
  - rewrite Hfb. intros q Hq. destruct (r_failed st R q Hq) as (c & Hc & Hf). assert (q <> p) as Hne.
    { intros ->. rewrite Hp in Hc. injection Hc as <-. apply has_failed_valid in Hf. congruence. }
    exists c. by rewrite lookup_insert_ne.
  - apply (best_ok_same (cs_index st)); [|done | apply (r_header st R)]. fold (cs_map st1). rewrite Hmap. apply rc_tree.
Qed.

Lemma rc_complete : complete addr st1 (Tip (chainActive st1)).
Proof.
  intros q [(c & Hc & Hx) Hcl]. rewrite Hmap in *. rewrite Hact, Hcand. destruct (rc_back q c Hc) as (c0 & Hc0 & (_ & _ & _ & _ & Ew & _) & Ec & Es & _).
  destruct (ok_complete addr st K q) as [H|H]; [split; [exists c0; split; [done | congruence] | by apply rc_clean] | by left | right].
  destruct (Tip (chainActive st)) as [t|]; [|done]. destruct H as (a & d & Ha & Hd & Hlt).
  destruct (same_lookup _ _ rc_tree t d Hd) as (d1 & Hd1 & _). destruct (rc_back t d1 Hd1) as (d0 & Hd0 & (_ & _ & _ & _ & Ew' & _) & _ & Es' & _).
  exists c, d1. split; [done|]. split; [done|]. simplify_eq. unfold rank in *. by rewrite Ew, Es, Ew', Es'.
Qed.

(** [p] is in the queue, or it waits, or it is below a failed block. *)
Lemma rc_linked : NoDup (mapBlocksUnlinked st1) ->
  (forall e, e ∈ mapBlocksUnlinked st -> e ∈ mapBlocksUnlinked st1) ->
  (forall e, e ∈ mapBlocksUnlinked st1 -> e ∈ mapBlocksUnlinked st \/ exists q, pprev b = Some q /\ e = (Some q, p)) ->
  (p ∈ queue \/ exists q c, pprev b = Some q /\ m !! q = Some c /\ nChainTx c = 0 /\ (clean m p -> (Some q, p) ∈ mapBlocksUnlinked st1)) ->
  (forall q c, p ∈ queue -> pprev b = Some q -> m !! q = Some c -> nChainTx c <> 0) ->
  linked_upto st1 queue.
Proof.
  intros Hnd Hsub Hnewu Hcase Hq. pose proof (ok_linked addr st K) as Lk. destruct (Hb1) as ((_ & Epp1 & _) & En & Ez & _ & _ & _ & _ & Ev). split; rewrite ?Hmap.
  - intros x bx Hx. destruct (rc_back x bx Hx) as (x0 & Hx0 & _ & _ & _ & _ & Hv & _). etrans; [by apply (lk_tree st _ Lk x x0) | done].
  - intros x bx Hx. destruct (rc_back x bx Hx) as (x0 & Hx0 & _ & _ & _ & _ & _ & [[-> ->]|[_ ->]]); [lia | by apply (lk_tx st _ Lk x x0)].
  - intros x bx Hx Hx0. destruct (rc_back x bx Hx) as (x0 & Hx1 & _ & Ec & _). rewrite Ec in *. rewrite (rc_txs_linked x x0) by done. by apply (lk_sum st _ Lk).
  - intros x bx Hx Hcl Hx0 Hpar. apply rc_clean in Hcl. destruct (rc_back x bx Hx) as (x0 & Hx1 & (_ & Epp & _) & Ec & _ & _ & _ & [[-> ->]|[_ ->]]).
    + right. destruct Hcase as [|(q & c & Hqp & Hqc & Hz & _)]; [done|]. destruct (same_lookup _ _ rc_tree q c Hqc) as (c1 & Hc1 & _).
      destruct (rc_back q c1 Hc1) as (c0 & Hc0 & _ & Ecc & _). destruct (Hpar q c1); congruence.
    + left. destruct (lk_complete st _ Lk x x0 Hx1 Hcl Hx0) as [H|H]; [ | done | by apply elem_of_nil in H]. intros q c Hxq Hc.
      destruct (same_lookup _ _ rc_tree q c Hc) as (c1 & Hc1 & _). destruct (rc_back q c1 Hc1) as (c0 & Hc0 & _ & Ecc & _). simplify_eq. rewrite <- Ecc. by apply (Hpar q c1).
  - intros x bx q c Hx Hcl Hx0 Hxq Hc Hz. apply rc_clean in Hcl. destruct (rc_back q c Hc) as (c0 & Hc0 & _ & Ec & _). rewrite Ec in Hz.
    destruct (rc_back x bx Hx) as (x0 & Hx1 & (_ & Epp & _) & _ & _ & _ & _ & [[-> ->]|[_ ->]]).
    + assert (x0 = b) as -> by congruence. assert (pprev b = Some q) as Hbq by congruence. destruct Hcase as [Hin|(q' & c' & Hqp & Hqc & _ & Hw)].
      * by destruct (Hq q c0 Hin Hbq Hc0).
      * assert (q' = q) as -> by congruence. by apply Hw.
    + apply Hsub. by apply (lk_unlinked st _ Lk x x0 q c0).
  - intros k x Hkx. destruct (Hnewu _ Hkx) as [Hin|(q & Hbq & E)].
    + destruct (lk_waiting st _ Lk k x Hin) as (bx & q & -> & Hbx & Hxq & Hxn & Hxz). assert (x <> p) as Hne by (intros ->; congruence).
      exists bx, q. rewrite lookup_insert_ne by done. by split_and!.
    + injection E as -> ->. exists b1, q. rewrite lookup_insert_eq. split_and!; [done | done | congruence | lia | done].
  - done.
  - intros x bx Hx Hx0. destruct (rc_back x bx Hx) as (x0 & Hx1 & _ & _ & _ & _ & _ & [[-> ->]|[_ ->]]); [done | by apply (lk_valid st _ Lk x x0)].
Qed.
End State.
End Received.

Lemma has_raised b s v f : nStatus b = s -> Z.land (u32 (Z.lnot BLOCK_VALID_MASK)) f = f -> Z.land v f = 0 ->
  has (set_nStatus b (Z.lor (Z.land s (u32 (Z.lnot BLOCK_VALID_MASK))) v)) f = has b f.
Proof.
  intros <- H1 H2. unfold has. assert (forall z, nStatus (set_nStatus b z) = z) as -> by (by destruct b).
  by rewrite Z.land_lor_distr_l, H2, Z.lor_0_r, <- Z.land_assoc, H1.
Qed.

Lemma raise_received b : failed b = false -> exists b1 f, RaiseValidity b BLOCK_VALID_TRANSACTIONS = Some (b1, f) /\
  skel b b1 /\ nTx b1 = nTx b /\ nChainTx b1 = nChainTx b /\ nSequenceId b1 = nSequenceId b /\ failed b1 = false /\ has b1 BLOCK_HAVE_DATA = has b BLOCK_HAVE_DATA /\
  Z.land (nStatus b) BLOCK_VALID_MASK <= Z.land (nStatus b1) BLOCK_VALID_MASK /\ BLOCK_VALID_TRANSACTIONS <= Z.land (nStatus b1) BLOCK_VALID_MASK /\
  nFile b1 = nFile b /\ nDataPos b1 = nDataPos b.
Proof.
  intros Hf. unfold RaiseValidity. change (negb (Z.land BLOCK_VALID_TRANSACTIONS (u32 (Z.lnot BLOCK_VALID_MASK)) =? 0)) with false. cbv iota.
  change (negb (Z.land (nStatus b) BLOCK_FAILED_MASK =? 0)) with (failed b). rewrite Hf.
  destruct (Z.ltb_spec (Z.land (nStatus b) BLOCK_VALID_MASK) BLOCK_VALID_TRANSACTIONS) as [Hlt|Hge].
  - eexists _, true. split; [done|]. split; [apply skel_set_nStatus|]. set (b1 := set_nStatus b _).
    assert (nTx b1 = nTx b /\ nChainTx b1 = nChainTx b /\ nSequenceId b1 = nSequenceId b) as (E1 & E2 & E3) by (by destruct b).
    split; [done|]. split; [done|]. split; [done|]. split; [by unfold b1; rewrite has_raised|]. split; [by unfold b1; rewrite has_raised|].
    unfold b1. assert (forall z, nStatus (set_nStatus b z) = z) as -> by (by destruct b).
    rewrite Z.land_lor_distr_l, <- Z.land_assoc. change (Z.land (u32 (Z.lnot BLOCK_VALID_MASK)) BLOCK_VALID_MASK) with 0. rewrite Z.land_0_r, Z.lor_0_l.
    change (Z.land BLOCK_VALID_TRANSACTIONS BLOCK_VALID_MASK) with BLOCK_VALID_TRANSACTIONS. split; [lia|]. split; [lia | by destruct b].
  - exists b, false. pose proof (skel_refl b). split_and!; try done; lia.
Qed.

(** The entry with the data and its flags set *)
Lemma data_entry b n file pos (we : bool) : failed b = false ->
  let x := set_nChainTx (set_data b n file pos 0) 0 in
  let y := set_nStatus x (Z.lor (nStatus x) BLOCK_HAVE_DATA) in
  let b2 := if we then set_nStatus y (Z.lor (nStatus y) BLOCK_OPT_WITNESS) else y in
  skel b b2 /\ nTx b2 = n /\ nChainTx b2 = 0 /\ nSequenceId b2 = nSequenceId b /\ failed b2 = false /\ has b2 BLOCK_HAVE_DATA = true /\
  Z.land (nStatus b2) BLOCK_VALID_MASK = Z.land (nStatus b) BLOCK_VALID_MASK /\ nFile b2 = file /\ nDataPos b2 = pos.
Proof.
  intros Hf x y b2. assert (nFile b2 = file /\ nDataPos b2 = pos) as Hplace by (destruct we, b; by split). assert (nStatus x = nStatus b) as Ex by (by destruct b). assert (failed x = false) as Fx by (unfold has in *; by rewrite Ex).
  assert (skel b b2 /\ nTx b2 = n /\ nChainTx b2 = 0 /\ nSequenceId b2 = nSequenceId b) as (A1 & A2 & A3 & A4) by (destruct we, b; by split_and!).
  split; [done|]. split; [done|]. split; [done|]. split; [done|].
  assert (forall u z, nStatus (set_nStatus u z) = z) as Es by (by intros []). assert (has y BLOCK_HAVE_DATA = true) as Dy by (unfold y; by rewrite has_lor, orb_true_r).
  assert (failed y = false) as Fy by (unfold y; by rewrite has_lor, Fx).
  assert (Z.land (nStatus y) BLOCK_VALID_MASK = Z.land (nStatus b) BLOCK_VALID_MASK) as Vy by (unfold y; by rewrite Es, Ex, Z.land_lor_distr_l, Z.lor_0_r).
  split; [|split; [|split; [|done]]]; unfold b2; destruct we; try done; by rewrite ?has_lor, ?Fy, ?Dy, ?Es, ?Z.land_lor_distr_l, ?Z.lor_0_r.
Qed.

Lemma ReceivedBlockTransactions_ok addr st we block p b pos : chain_state_ok addr st -> cs_map st !! p = Some b -> failed b = false -> nTx b = 0 ->
  0 < vsize (vtx block) -> (forall q, txs (cs_map st) q + vsize (vtx block) < 2 ^ 32) ->
  exists st', ReceivedBlockTransactions addr we st block p pos = Some st' /\ chain_state_ok addr st'.
Proof.
  intros K Hp Hf Hnew Hn Hroom. pose proof (ok_ready addr st K) as R. pose proof (ok_linked addr st K) as Lk. pose proof (r_index st R) as Hm.
  assert (vsize (vtx block) < 2 ^ 32) as Hn2 by (pose proof (txs_nonneg _ p Hm (lk_tx st _ Lk)); specialize (Hroom p); lia).
  unfold ReceivedBlockTransactions. rewrite Hp. cbn [mbind option_bind].
  rewrite (u32_id (vsize (vtx block))) by lia. set (b2 := if we then _ else _).
  destruct (data_entry b (vsize (vtx block)) (fst pos) (snd pos) we Hf) as (E1 & E2 & E3 & E4 & E5 & E6 & E7 & _). fold b2 in E1, E2, E3, E4, E5, E6, E7.
  destruct (raise_received b2 E5) as (b1 & f & -> & D1 & D2 & D3 & D4 & D5 & D6 & D7 & D8 & _). cbn [mbind option_bind].
  assert (received b b1 (vsize (vtx block))) as Hrec.
  { split; [by eapply skel_trans|]. split_and!; congruence. }
  set (st1 := set_dirty (set_entry st p b1) p).
  assert (cs_map st1 = <[p := b1]> (cs_map st)) as Hmap by done.
  pose proof (rc_ready addr st p b b1 _ K Hp Hrec Hnew Hn st1 Hmap eq_refl eq_refl eq_refl Hf eq_refl eq_refl) as R1.
  pose proof (rc_complete addr st p b b1 _ K Hp Hrec Hnew st1 Hmap eq_refl eq_refl) as C1.
  assert (forall k, ~ (k, p) ∈ mapBlocksUnlinked st) as Hnw.
  { intros k Hk. destruct (lk_waiting st _ Lk k p Hk) as (x & q & _ & Hx & _ & Hxn & _). congruence. }
  assert (pprev b1 = pprev b) as Epp by apply Hrec. rewrite Epp.
  assert (forall (parent_linked : forall q c, pprev b = Some q -> cs_map st !! q = Some c -> nChainTx c <> 0),
    exists st', link_loop addr (size (cs_map st1)) st1 [p] = Some st' /\ chain_state_ok addr st') as Hlink.
  { intros Hpar. destruct (link_loop_ok addr (size (cs_map st1)) st1 [p]) as (st' & E & L').
    - split; [done | done | | | apply NoDup_singleton | intros q; rewrite Hmap; by apply (rc_txs addr st p b b1 _ K Hp Hrec Hnew Hn Hroom)].
      + apply (rc_linked addr st p b b1 _ K Hp Hrec Hnew Hn Hroom st1 [p] Hmap); [apply (lk_nodup st _ Lk) | done | by left | left; by apply list_elem_of_singleton |].
        intros q c _. apply Hpar.
      + intros q Hq. apply list_elem_of_singleton in Hq as ->. exists b1. rewrite Hmap, lookup_insert_eq. split; [done|]. split; [rewrite D2, E2; lia|]. split; [congruence|].
        split; [|done]. intros q c Hq Hc. destruct (rc_back addr st p b b1 _ K Hp Hrec Hnew q c Hc) as (c0 & Hc0 & _ & -> & _). apply (Hpar q c0); congruence.
    - rewrite <- size_dom. apply subseteq_size, dom_filter_subseteq.
    - exists st'. split; [done|]. split; [apply L' | apply L' | apply L']. }
  destruct (pprev b) as [q|] eqn:Eq.
  - destruct (prev_entry _ Hm p b q Hp Eq) as (c & Hc & Eh). assert (q <> p) as Hne by (intros ->; simplify_eq; lia).
    rewrite Hmap, lookup_insert_ne, Hc by done. cbn [mbind option_bind]. destruct (Z.eqb_spec (nChainTx c) 0) as [Hz|Hz]; cbn [negb].
    2: { rewrite <- Hmap. apply Hlink. intros q' c' [= <-] Hc'. congruence. }
    unfold IsValid. change (negb (Z.land BLOCK_VALID_TREE (u32 (Z.lnot BLOCK_VALID_MASK)) =? 0)) with false. cbv iota.
    change (negb (Z.land (nStatus c) BLOCK_FAILED_MASK =? 0)) with (failed c). destruct (failed c) eqn:Ec; cbn [mbind option_bind].
    + exists st1. split; [done|]. split; [done | | done].
      apply (rc_linked addr st p b b1 _ K Hp Hrec Hnew Hn Hroom st1 [] Hmap); [apply (lk_nodup st _ Lk) | done | by left | | by intros ? ? ?%elem_of_nil].
      right. exists q, c. split; [done|]. split; [done|]. split; [done|]. intros Hcl.
      pose proof (clean_self _ q c Hc (clean_prev _ p b q Hp Eq Hcl)). congruence.
    + destruct (Z.leb_spec BLOCK_VALID_TREE (Z.land (nStatus c) BLOCK_VALID_MASK)) as [_|Hlt]; [|pose proof (lk_tree st _ Lk q c Hc); lia].
      set (st2 := set_unlinked st1 _). exists st2. split; [done|].
      pose proof (rc_ready addr st p b b1 _ K Hp Hrec Hnew Hn st2 Hmap eq_refl eq_refl eq_refl Hf eq_refl eq_refl) as R2.
      pose proof (rc_complete addr st p b b1 _ K Hp Hrec Hnew st2 Hmap eq_refl eq_refl) as C2. split; [done | | done].
      apply (rc_linked addr st p b b1 _ K Hp Hrec Hnew Hn Hroom st2 [] Hmap); [ | | | | by intros ? ? ?%elem_of_nil].
      * cbn. apply NoDup_app. split; [apply (lk_nodup st _ Lk)|]. split; [|apply NoDup_singleton]. intros [k x] Hx Hin. apply list_elem_of_singleton in Hin. simplify_eq. by apply (Hnw (Some q)).
      * intros e He. cbn. apply elem_of_app. by left.
      * intros e He. cbn in He. apply elem_of_app in He as [He|He]; [by left|]. apply list_elem_of_singleton in He as ->. right. by exists q.
      * right. exists q, c. split; [done|]. split; [done|]. split; [done|]. intros _. cbn. apply elem_of_app. right. by apply list_elem_of_singleton.
  - cbn [mbind option_bind]. apply Hlink. by intros q c [=].
Qed.
