(* ===== verification/ChainSteps.v ===== *)
(** * The operations on the chain state

    Headers, blocks, activation and the operator's commands keep the invariant of
    [ChainInvariant.v] when they succeed, so that the best chain is the active one when
    [ActivateBestChain] reports success.  Two commands are outside of this: [PreciousBlock] where it
    raises the sequence number of the tip ([precious_ok] excludes it) and [ResetBlockFailureFlags];
    there the code does not keep the invariant.  So is a block that was connected once and is
    refused later ([reneged]). *)

From S2P Require Import Prelude Serialize ArithUint256 Script Interpreter Transaction Block Chain Activation ChainInvariant.
From stdpp Require Import gmap sorting.
Open Scope Z_scope.

(** ** Headers *)

(** What a new entry takes from the header *)
Definition entry_of (block : CBlockHeader) (b : CBlockIndex) : Prop :=
  nTx b = 0 /\ nChainTx b = 0 /\ bi_nTime b = nTime block /\ bi_nBits b = nBits block /\ bi_prevoutStake b = prevoutStake block.

Lemma link_entry_new C m hash block b : link_entry C m hash block = Some b -> entry_of block b /\ nStatus b = BLOCK_VALID_TREE.
Proof.
  unfold link_entry. set (b0 := set_phashBlock _ _). intros E.
  destruct (match m !! hashPrevBlock block with Some p => _ | None => Some b0 end) as [b1|] eqn:E1; [|done]. cbn [mbind option_bind] in E.
  assert (entry_of block b1 /\ nStatus b1 = 0) as [A1 A2].
  { destruct (m !! hashPrevBlock block) as [c|]; [|injection E1 as <-; by split]. unfold BuildSkip in E1.
    cbn [pprev set_pprev_nHeight b0 set_phashBlock CBlockIndex_of_header] in E1. destruct (GetAncestor _ _ _); [|done]. injection E1 as <-. by split. }
  destruct (GetBlockProof b1) as [w|]; [|done]. cbn [mbind option_bind] in E. set (b2 := set_derived b1 _ _ _) in E.
  assert (entry_of block b2 /\ nStatus b2 = 0) as [B1 B2] by (unfold b2; by destruct b1).
  destruct (RaiseValidity_tree b2 B2) as (s & Es & ->). rewrite Es in E. cbn [mbind option_bind] in E. injection E as <-. by destruct b2.
Qed.

Lemma AddToBlockIndex_new C st block i p : index_ok (mapBlockIndex st) -> addable C (mapBlockIndex st) block -> AddToBlockIndex C st block = Some (i, p) ->
  p = Block_GetHash C block /\ (i = st \/ mapBlockIndex st !! p = None /\ exists b, mapBlockIndex i = <[p := b]> (mapBlockIndex st) /\
    entry_ok (<[p := b]> (mapBlockIndex st)) p b /\ entry_of block b /\ nStatus b = BLOCK_VALID_TREE /\
    pprev b = ((fun _ => hashPrevBlock block) <$> mapBlockIndex st !! hashPrevBlock block)).
Proof.
  intros Hm Hadd. unfold AddToBlockIndex. set (hash := Block_GetHash C block). destruct (mapBlockIndex st !! hash) eqn:Hnone; [intros [= <- <-]; by split; [|left]|].
  set (fresh := set_phashBlock _ _). destruct (link_entry_ok C (mapBlockIndex st) block fresh Hm Hadd Hnone) as (b & Hb & Hok & Hp). fold hash in Hb, Hok.
  rewrite Hb. cbn [mbind option_bind]. rewrite insert_insert_eq. destruct (match pindexBestHeader st with None => _ | Some best => _ end); [|done].
  intros [= <- <-]. split; [done|]. right. split; [done|]. exists b. split; [done|]. split; [done|]. destruct (link_entry_new C _ _ _ b Hb) as [A1 A2]. by split.
Qed.

Section NewEntry.
Context (m : BlockMap) (Hm : index_ok m) (h : ptr) (e : CBlockIndex) (Hh : m !! h = None).
Abbreviation m' := (<[h := e]> m).

Lemma new_lookup p b : m !! p = Some b -> m' !! p = Some b.
Proof. intros Hp. by rewrite lookup_insert_ne by congruence. Qed.
Lemma new_lookup_rev p b : m' !! p = Some b -> p = h /\ b = e \/ p <> h /\ m !! p = Some b.
Proof.
  destruct (decide (p = h)) as [->|Hne]; [rewrite lookup_insert_eq; intros [= <-]; by left|]. rewrite lookup_insert_ne by done. by right.
Qed.
Lemma old_prev p b q : m !! p = Some b -> pprev b = Some q -> q <> h.
Proof. intros Hp Hq ->. destruct (prev_entry m Hm p b h Hp Hq) as (c & Hc & _). congruence. Qed.

Lemma new_up n : forall p b, m !! p = Some b -> up m' n p = up m n p.
Proof.
  induction n as [|n IH]; intros p b Hp; [done|]. cbn [up]. rewrite (new_lookup p b Hp), Hp. cbn [mbind option_bind].
  destruct (pprev b) as [q|] eqn:Eq; [|done]. cbn [mbind option_bind]. destruct (prev_entry m Hm p b q Hp Eq) as (c & Hc & _). by apply (IH q c).
Qed.
Lemma up_old n p b q : m !! p = Some b -> up m n p = Some q -> q <> h.
Proof. intros Hp Hu ->. destruct (up_height m Hm n p b h Hp Hu) as (c & Hc & _). congruence. Qed.

Lemma new_clean p b : m !! p = Some b -> clean m' p <-> clean m p.
Proof.
  intros Hp. split; intros Hc n q c Hu Hq.
  - apply (Hc n q c); [by rewrite (new_up n p b) | by apply new_lookup].
  - rewrite (new_up n p b Hp) in Hu. pose proof (up_old n p b q Hp Hu). destruct (new_lookup_rev q c Hq) as [[? _]|[_ Hq']]; [done | by apply (Hc n q c)].
Qed.

Lemma new_wlt addr p q : wlt addr m p q -> wlt addr m' p q.
Proof. intros (b & c & Hb & Hc & Hr). exists b, c. split; [by apply new_lookup|]. split; [by apply new_lookup | done]. Qed.

Lemma new_txs p b : index_ok m' -> m !! p = Some b -> txs m' p = txs m p.
Proof.
  intros Hm'. revert p b. apply (chain_ind m (fun p b => _) Hm). intros p b Hp IH. destruct (pprev b) as [q|] eqn:Eq.
  - destruct (prev_entry m Hm p b q Hp Eq) as (c & Hc & _). by rewrite (txs_prev m p b q), (txs_prev m' p b q), (IH q c) by (done || by apply new_lookup).
  - by rewrite (txs_first m p b), (txs_first m' p b) by (done || by apply new_lookup).
Qed.

Lemma new_chain v : chain_ok m v -> chain_ok m' v.
Proof.
  intros [->|(t & b & Hb & Hv & Hat)]; [by left|]. right. exists t, b. split; [by apply new_lookup|]. split; [done|].
  intros j Hj. rewrite (ancestor_insert m h e Hh t b) by done. by apply Hat.
Qed.
End NewEntry.

Section Header.
Context (addr : ptr -> Z) (st : CChainState) (i : ChainState) (h : ptr) (e : CBlockIndex).
Context (K : chain_state_ok addr st) (Hh : cs_map st !! h = None) (Hi : mapBlockIndex i = <[h := e]> (cs_map st)) (Hok : entry_ok (<[h := e]> (cs_map st)) h e).
Context (Htx : nTx e = 0) (Hchain : nChainTx e = 0) (Hst : nStatus e = BLOCK_VALID_TREE).
Context (Hwork : forall q c, pprev e = Some q -> cs_map st !! q = Some c -> val (nChainWork c) < val (nChainWork e)) (Hbest : best_ok i).
Abbreviation R := (ok_ready addr st K).
Abbreviation Lk := (ok_linked addr st K).
Abbreviation st' := (set_index st i).

Lemma header_map : cs_map st' = <[h := e]> (cs_map st).
Proof. apply Hi. Qed.
Lemma header_old p b : cs_map st' !! p = Some b -> (nTx b <> 0 \/ nChainTx b <> 0 \/ is_Some (cs_map st !! p)) -> p <> h /\ cs_map st !! p = Some b.
Proof.
  rewrite header_map. intros Hp Hb. destruct (new_lookup_rev _ h e p b Hp) as [[-> ->]|[? ?]]; [|done].
  destruct Hb as [?|[?|[? ?]]]; congruence.
Qed.

Lemma header_ready : ready st'.
Proof.
  pose proof R as [R1 R2 R3 R4 R5 R6 R7 R8 R9 R10]. assert (forall p b, cs_map st !! p = Some b -> cs_map st' !! p = Some b) as Hkeep
    by (intros p b Hp; rewrite header_map; by apply new_lookup).
  split.
  - rewrite header_map. by apply index_ok_insert.
  - intros p b q c Hp Hq Hc. rewrite header_map in Hp. destruct (new_lookup_rev _ h e p b Hp) as [[-> ->]|[_ Hp0]].
    + rewrite header_map in Hc. destruct (new_lookup_rev _ h e q c Hc) as [[-> ->]|[_ Hc0]]; [|by apply (Hwork q)].
      destruct Hok as (_ & _ & _ & Hx). rewrite Hq in Hx. destruct Hx as (c' & Hc' & Hr & _). rewrite lookup_insert_eq in Hc'. simplify_eq. lia.
    + destruct (header_old q c Hc) as [_ Hc0]; [|by apply (R2 p b q c)]. right. right. destruct (prev_entry _ R1 p b q Hp0 Hq) as (c0 & Hc0 & _). eauto.
  - intros p b Hp Hn. destruct (header_old p b Hp) as [_ Hp0]; [by left | by apply (R3 p)].
  - intros p b Hp Hn. destruct (header_old p b Hp) as [_ Hp0]; [right; by left|]. destruct (R4 p b Hp0 Hn) as [A1 A2]. split; [done|].
    intros q c Hq Hc. destruct (header_old q c Hc) as [_ Hc0]; [|by apply (A2 q)]. right. right. destruct (prev_entry _ R1 p b q Hp0 Hq) as (c0 & Hc0 & _). eauto.
  - rewrite header_map. by apply new_chain.
  - intros j q c Hj Hc. destruct (header_old q c Hc) as [_ Hc0]; [|by apply (R6 j q)]. right. right.
    destruct (Tip (chainActive st)) as [t|] eqn:Et.
    + pose proof (tip_chain st t R Et) as Hch. destruct (chain_member _ _ t j q R1 Hch Hj) as [n Hn]. destruct (tip_entry st t R Et) as [b Hb].
      destruct (up_height _ R1 n t b q Hb Hn) as (c0 & Hc0 & _). eauto.
    + destruct R5 as [E|[x Hx]]; [|by rewrite (chain_is_tip _ R1 _ x Hx) in Et].
      change (chainActive st') with (chainActive st) in Hj. rewrite E in Hj. by rewrite chain_at_out in Hj by (unfold vsize; cbn; lia).
  - intros p Hp. destruct (R7 p Hp) as (b & Hb & Hn). eauto.
  - intros p Hp. destruct (R8 p Hp) as [b Hb]. eauto.
  - intros p Hp. assert (p ∈ m_failed_blocks st) as Hp0 by exact Hp. destruct (R9 p Hp0) as (b & Hb & Hf). eauto.
  - exact Hbest.
Qed.

Lemma header_linked : linked_ok st'.
Proof.
  pose proof (r_index st R) as Hm. pose proof (r_index st' header_ready) as Hm'. pose proof Lk as [K1 K2 K3 K4 K5 K6 K7 K8].
  assert (forall p b q c, cs_map st !! p = Some b -> pprev b = Some q -> cs_map st' !! q = Some c -> cs_map st !! q = Some c) as Hprev.
  { intros p b q c Hp Hq Hc. destruct (prev_entry _ Hm p b q Hp Hq) as (c0 & Hc0 & _). destruct (header_old q c Hc) as [_ ?]; [right; right; eauto | done]. }
  split.
  - intros p b Hp. rewrite header_map in Hp. destruct (new_lookup_rev _ h e p b Hp) as [[-> ->]|[_ Hp0]]; [by rewrite Hst | by apply (K1 p)].
  - intros p b Hp. rewrite header_map in Hp. destruct (new_lookup_rev _ h e p b Hp) as [[-> ->]|[_ Hp0]]; [lia | by apply (K2 p)].
  - intros p b Hp Hn. destruct (header_old p b Hp) as [_ Hp0]; [right; by left|]. rewrite header_map in *. rewrite (new_txs _ Hm h e Hh p b) by done. by apply K3.
  - intros p b Hp Hcl Hn Hpar. destruct (header_old p b Hp) as [_ Hp0]; [by left|]. apply (K4 p b Hp0); [|done|].
    + rewrite header_map in Hcl. by apply (new_clean _ Hm h e Hh p b).
    + intros q c Hq Hc. apply (Hpar q c Hq). rewrite header_map. by apply new_lookup.
  - intros p b q c Hp Hcl Hn Hq Hc Hz. destruct (header_old p b Hp) as [_ Hp0]; [by left|]. apply (K5 p b q c Hp0); try done.
    + rewrite header_map in Hcl. by apply (new_clean _ Hm h e Hh p b).
    + by apply (Hprev p b).
  - intros k p Hkp. destruct (K6 k p Hkp) as (b & q & -> & Hb & Hx). exists b, q. split; [done|]. split; [|done]. rewrite header_map. by apply new_lookup.
  - done.
  - intros p b Hp Hn. destruct (header_old p b Hp) as [_ Hp0]; [by left | by apply (K8 p)].
Qed.

Lemma header_complete : complete addr st' (Tip (chainActive st')).
Proof.
  intros q [(b & Hb & Hn) Hcl]. destruct (header_old q b Hb) as [_ Hb0]; [right; by left|]. rewrite header_map in Hcl.
  destruct (ok_complete addr st K q) as [H|H].
  - split; [eauto|]. by apply (new_clean _ (r_index st R) h e Hh q b).
  - by left.
  - right. rewrite header_map. change (chainActive st') with (chainActive st). destruct (Tip (chainActive st)); [|done]. by apply new_wlt.
Qed.
End Header.

Lemma header_ok C addr st block i p : chain_state_ok addr st -> addable C (cs_map st) block -> AddToBlockIndex C (cs_index st) block = Some (i, p) ->
  (forall e q c, mapBlockIndex i !! p = Some e -> pprev e = Some q -> cs_map st !! q = Some c -> val (nChainWork c) < val (nChainWork e)) ->
  chain_state_ok addr (set_index st i).
Proof.
  intros K Hadd E Hwork. destruct (AddToBlockIndex_new C (cs_index st) block i p (r_index st (ok_ready addr st K)) Hadd E) as [_ [->|(Hh & e & Hi & Hok & (A1 & A2 & _) & A3 & _)]];
    [by destruct st|].
  destruct (AddToBlockIndex_ok C (cs_index st) block (conj (r_index st (ok_ready addr st K)) (r_header st (ok_ready addr st K))) Hadd) as (i' & b' & E' & _ & _ & [_ Hbest]).
  assert (i' = i) as -> by congruence. assert (forall q c, pprev e = Some q -> cs_map st !! q = Some c -> val (nChainWork c) < val (nChainWork e)) as Hw.
  { intros q c. apply Hwork. by rewrite Hi, lookup_insert_eq. }
  split; [by apply (header_ready addr st i p e) | by apply (header_linked addr st i p e) | by apply (header_complete addr st i p e)].
Qed.

(** ** Activation *)

(** The state when the node starts on an empty index *)
Definition empty_chain_state : CChainState :=
  mk_CChainState (mk_ChainState ∅ ∅ None ∅) [] ∅ [] ∅ None 1 (-1) (of_u64 0).

Lemma empty_ok addr : chain_state_ok addr empty_chain_state.
Proof.
  assert (forall p, cs_map empty_chain_state !! p = None) as He by (intros p; apply lookup_empty).
  split; [split | split |]; try (intros p b Hp; by rewrite He in Hp); try (intros p b q c Hp; by rewrite He in Hp).
  - by left.
  - intros p Hp. by apply elem_of_empty in Hp.
  - by intros p [=].
  - intros p Hp. by apply elem_of_empty in Hp.
  - done.
  - intros k p Hkp. by apply elem_of_nil in Hkp.
  - apply NoDup_nil_2.
  - intros p [(b & Hb & _) _]. by rewrite He in Hb.
Qed.

Section Steps.
Context (C : Crypto) (addr : ptr -> Z) (Haddr : forall p q, addr p = addr q -> p = q) {W : Type} (ops : BlockOps W) (Hops : ops_ok ops).
Context (ShutdownRequested : nat -> bool).

Lemma activated_ok pblock st s : chain_state_ok addr st ->
  exists ok st' s', ActivateBestChain C addr ops ShutdownRequested st pblock s = Some (ok, st', s') /\ ready st' /\ linked_ok st' /\
    (ok = true -> reneged (cs_map st) (cs_map st') \/ chain_state_ok addr st' /\ ((forall n, ShutdownRequested n = false) -> best_tip addr st')).
Proof.
  intros [R K Hc]. destruct (ActivateBestChain_ok C addr Haddr ops Hops ShutdownRequested pblock st s R Hc) as (ok & st' & s' & E & R' & L & Hok).
  exists ok, st', s'. pose proof (linked_evolves st st' R K (lt_evolves _ _ L) (lt_unlinked _ _ L)) as K'. split; [done|]. split; [done|]. split; [done|].
  intros ->. destruct (Hok eq_refl) as [?|[? ?]]; [by left | right]. by split.
Qed.

(** ** Blocks the operator calls invalid *)

Definition descends (m : BlockMap) (q p : ptr) : Prop := exists n, up m n q = Some p.

(** Only descendants of [p] are marked, and only they stop being candidates. *)
Record dropped (p : ptr) (st st' : CChainState) : Prop := {
  dr_evolves : evolves (cs_map st) (cs_map st');
  dr_clean : forall q, ~ descends (cs_map st) q p -> clean (cs_map st) q -> clean (cs_map st') q;
  dr_active : chainActive st' = chainActive st;
  dr_unlinked : mapBlocksUnlinked st' = mapBlocksUnlinked st;
  dr_cand : setBlockIndexCandidates st' ⊆ setBlockIndexCandidates st;
  dr_best : pindexBestInvalid st' = pindexBestInvalid st;
  dr_failed : m_failed_blocks st' = m_failed_blocks st;
  dr_header : pindexBestHeader (cs_index st') = pindexBestHeader (cs_index st) }.

Lemma dropped_refl p st : dropped p st st.
Proof. split; try done. apply evolves_refl. Qed.
Lemma dropped_trans p st1 st2 st3 : dropped p st1 st2 -> dropped p st2 st3 -> dropped p st1 st3.
Proof.
  intros [A1 A2 A3 A4 A5 A6 A7 A8] [B1 B2 B3 B4 B5 B6 B7 B8]. split; try (by etrans); [by eapply evolves_trans|]. intros q Hq Hcl.
  apply B2; [|by apply A2]. intros [n Hn]. apply Hq. exists n. by rewrite <- (same_up _ _ (evolves_tree _ _ A1)).
Qed.

Lemma mark_dropped p w b flag st : flag = BLOCK_FAILED_CHILD \/ flag = BLOCK_FAILED_VALID -> cs_map st !! w = Some b -> descends (cs_map st) w p ->
  exists st1, add_status st w flag = Some st1 /\ dropped p st (erase_candidate (set_dirty st1 w) w) /\ cs_map st1 = <[w := set_nStatus b (Z.lor (nStatus b) flag)]> (cs_map st).
Proof.
  intros Hf Hw [k Hk]. unfold add_status. rewrite Hw. cbn [mbind option_bind]. eexists. split; [done|]. split; [|done]. pose proof (mark_evolves b flag Hf) as He.
  split; try done; [by apply evolves_insert with b | | cbn; clear; set_solver].
  intros q Hq Hcl n x c Hu Hx. pose proof (evolves_tree _ _ (evolves_insert _ w b _ Hw He)) as Ht. cbn in Hx, Hu. fold (cs_map st) in *.
  rewrite (same_up _ _ Ht) in Hu. destruct (decide (x = w)) as [->|Hne].
  - destruct Hq. exists (n + k)%nat. by rewrite up_add, Hu.
  - rewrite lookup_insert_ne in Hx by done. by apply (Hcl n x).
Qed.

Lemma mark_down_to_ok p fuel : forall st n w, up (cs_map st) n w = Some p -> (n <= fuel)%nat ->
  exists st', mark_down_to fuel st (Some w) p = Some st' /\ dropped p st st'.
Proof.
  induction fuel as [|fuel IH]; intros st n w Hu Hn; cbn [mark_down_to]; destruct (bool_decide_reflect (Some w = Some p)) as [E|Hne].
  1, 3: exists st; split; [done | apply dropped_refl].
  - destruct n as [|n]; [cbn in Hu; congruence | lia].
  - destruct n as [|n]; [cbn in Hu; congruence|]. cbn [mbind option_bind]. pose proof Hu as Hd. cbn [up] in Hu.
    destruct (cs_map st !! w) as [b|] eqn:Hw; [|done]. cbn [mbind option_bind] in Hu. destruct (pprev b) as [q|] eqn:Eq; [|done]. cbn [mbind option_bind] in Hu |- *.
    destruct (mark_dropped p w b BLOCK_FAILED_CHILD st (or_introl eq_refl) Hw (ex_intro _ _ Hd)) as (st1 & E1 & D1 & M1). rewrite E1. cbn [mbind option_bind].
    set (st2 := erase_candidate _ w) in *. pose proof (evolves_tree _ _ (dr_evolves _ _ _ D1)) as Ht.
    destruct (IH st2 n q) as (st' & E & D2); [by rewrite (same_up _ _ Ht) | lia|]. exists st'. rewrite Eq. split; [done | by eapply dropped_trans].
Qed.

Lemma tip_gone st t b v : ready st -> cs_map st !! t = Some b -> ready (set_active st v) -> Tip v = pprev b -> chain_at v (nHeight b) = None.
Proof.
  intros R Hb Rv Tv. apply chain_at_out. pose proof (height_range _ (r_index st R) t b Hb). unfold vsize. destruct (pprev b) as [q|] eqn:Eq.
  - destruct (tip_chain (set_active st v) q Rv Tv) as (c & Hc & Hsz & _). change (cs_map (set_active st v)) with (cs_map st) in Hc.
    change (chainActive (set_active st v)) with v in Hsz. unfold vsize in Hsz. destruct (prev_entry _ (r_index st R) t b q Hb Eq) as (c' & Hc' & Eh). simplify_eq. lia.
  - pose proof (no_tip _ Rv Tv) as Ev. cbn in Ev. subst v. cbn. lia.
Qed.

Lemma disconnect_from_ok p b fuel : forall st s, ready st -> cs_map st !! p = Some b -> (length (chainActive st) <= fuel)%nat ->
  exists ok v s', disconnect_from ops fuel st p s = Some (ok, set_active st v, s') /\ ready (set_active st v) /\
    (ok = true -> chain_at v (nHeight b) <> Some p /\
      if bool_decide (chain_at (chainActive st) (nHeight b) = Some p) then Tip v = pprev b else v = chainActive st).
Proof.
  induction fuel as [|fuel IH]; intros st s R Hp Hn; cbn [disconnect_from]; rewrite (Contains_spec (cs_map st) _ p b Hp); cbn [mbind option_bind];
    destruct (bool_decide_reflect (chain_at (chainActive st) (nHeight b) = Some p)) as [Hin|Hin]; cbn [negb].
  2, 4: exists true, (chainActive st), s; split; [by destruct st|]; split; [by destruct st | intros _; by split].
  - destruct (chainActive st); [|cbn in Hn; lia]. by rewrite chain_at_out in Hin by (unfold vsize; cbn; lia).
  - destruct (Tip (chainActive st)) as [t|] eqn:Et; [|rewrite (no_tip st R Et) in Hin; by rewrite chain_at_out in Hin by (unfold vsize; cbn; lia)].
    destruct (tip_entry st t R Et) as [bt Hbt]. destruct (DisconnectTip_ok ops st s t bt R Et Hbt) as (ok & v & s1 & E & Rv & Tv).
    rewrite E. cbn [mbind option_bind]. destruct ok; [|by exists false, v, s1].
    destruct (shorter_chain st t bt v R Et Hbt Rv Tv) as [Hlen Hkeep].
    destruct (IH (set_active st v) s1 Rv Hp ltac:(cbn; lia)) as (ok & v' & s2 & E2 & Rv' & Hok). rewrite E2.
    exists ok, v', s2. split; [done|]. split; [done|]. intros Et2. destruct (Hok Et2) as [H1 H2]. split; [done|].
    change (chainActive (set_active st v)) with v in H2. destruct (decide (p = t)) as [->|Hne].
    + assert (bt = b) as -> by congruence. rewrite bool_decide_eq_false_2 in H2; [by subst v'|].
      by rewrite (tip_gone st t b v).
    + rewrite bool_decide_eq_true_2 in H2; [done|]. by apply Hkeep.
Qed.

Lemma can_be_tip_spec b : exists c, can_be_tip b = Some c /\
  (c = true <-> failed b = false /\ BLOCK_VALID_TRANSACTIONS <= Z.land (nStatus b) BLOCK_VALID_MASK /\ nChainTx b <> 0).
Proof.
  unfold can_be_tip, IsValid. change (negb (Z.land BLOCK_VALID_TRANSACTIONS (u32 (Z.lnot BLOCK_VALID_MASK)) =? 0)) with false. cbv iota.
  change (negb (Z.land (nStatus b) BLOCK_FAILED_MASK =? 0)) with (failed b). destruct (failed b); cbn [mbind option_bind andb]; eexists; (split; [done|]).
  - split; [done | by intros [? _]].
  - rewrite andb_true_iff, negb_true_iff, Z.leb_le, Z.eqb_neq. naive_solver.
Qed.

(** Every entry of [l] that can be the tip and is as good as it becomes a candidate. *)
Lemma restore_ok t l : forall st, ready st -> Tip (chainActive st) = Some t -> (forall q b, (q, b) ∈ l -> cs_map st !! q = Some b) ->
  exists c, fold_entries (restore_candidate addr) st l = Some (set_candidates st c) /\ setBlockIndexCandidates st ⊆ c /\
    (forall q, q ∈ c -> q ∈ setBlockIndexCandidates st \/ exists b, cs_map st !! q = Some b /\ nChainTx b <> 0) /\
    (forall q b, (q, b) ∈ l -> can_be_tip b = Some true -> ~ wlt addr (cs_map st) q t -> q ∈ c).
Proof.
  induction l as [|[x bx] l IH]; intros st R Ht Hl; cbn [fold_entries].
  - exists (setBlockIndexCandidates st). split; [by destruct st|]. split; [done|]. split; [by left|]. intros q b Hq. by apply elem_of_nil in Hq.
  - assert (cs_map st !! x = Some bx) as Hx by (apply Hl; by left). destruct (tip_entry st t R Ht) as [bt Hbt].
    assert (exists c1, restore_candidate addr st (x, bx) = Some (set_candidates st c1) /\ setBlockIndexCandidates st ⊆ c1 /\
      (forall q, q ∈ c1 -> q ∈ setBlockIndexCandidates st \/ q = x /\ nChainTx bx <> 0) /\ (can_be_tip bx = Some true -> ~ wlt addr (cs_map st) x t -> x ∈ c1))
      as (c1 & -> & A1 & A2 & A3).
    { unfold restore_candidate. cbn [fst snd]. destruct (can_be_tip_spec bx) as (c & -> & Hc). cbn [mbind option_bind].
      assert (exists c1, Some st = Some (set_candidates st c1) /\ c1 = setBlockIndexCandidates st) as (c0 & E0 & Ec0) by (eexists; split; [|done]; by destruct st).
      destruct c; [|exists c0; subst c0; split; [done|]; split; [done|]; split; [by left | done]].
      rewrite Ht. destruct (worse_spec addr _ x t bx bt (r_index st R) Hx Hbt) as (w & -> & Hw). cbn [mbind option_bind]. destruct w.
      - exists c0. subst c0. split; [done|]. split; [done|]. split; [by left|]. intros _ Hn. destruct Hn. by apply Hw.
      - exists ({[x]} ∪ setBlockIndexCandidates st). split; [done|]. split; [clear; set_solver|]. split; [|intros _ _; clear; set_solver].
        intros q [->%elem_of_singleton|Hq]%elem_of_union; [right; split; [done | by apply Hc] | by left]. }
    cbn [mbind option_bind]. assert (ready (set_candidates st c1)) as R1.
    { apply (ready_evolves st); try done; [apply evolves_refl | intros i q c Hi Hq; by apply (r_active st R i q c) | | by left | by left].
      intros q Hq. cbn in Hq. destruct (A2 q Hq) as [H|[-> H]]; [by apply (r_cand st R) | eauto]. }
    destruct (IH (set_candidates st c1) R1 Ht) as (c & -> & B1 & B2 & B3); [intros q b Hq; apply Hl; by right|]. exists c. cbn in B1, B2, B3.
    split; [done|]. split; [by etrans|]. split.
    + intros q Hq. destruct (B2 q Hq) as [H|H]; [|by right]. destruct (A2 q H) as [H'|[-> H']]; [by left | right; eauto].
    + intros q b [[= -> ->]|Hq]%elem_of_cons Hc Hw; [|by apply (B3 q b)]. by apply B1, A3.
Qed.

(** The entry itself is marked. *)
Lemma ready_dropped p st st' : ready st -> dropped p st st' -> (forall i q, chain_at (chainActive st) i = Some q -> ~ descends (cs_map st) q p) -> ready st'.
Proof.
  intros R [D1 D2 D3 D4 D5 D6 D7 D8] Hact. apply (ready_evolves st); try done.
  - intros i q c Hi Hq. apply (clean_self _ q c Hq), D2; [by apply (Hact i) | by apply (active_clean st i)].
  - intros q Hq. by apply (r_cand st R), D5.
  - rewrite D6. by left.
  - rewrite D7. by left.
Qed.

(** No block of a chain that does not have [p] descends from [p]. *)
Lemma not_in_chain st p b i q : ready st -> cs_map st !! p = Some b -> chain_at (chainActive st) (nHeight b) <> Some p -> chain_at (chainActive st) i = Some q ->
  ~ descends (cs_map st) q p.
Proof.
  intros R Hp Hn Hi [n Hu]. destruct (Tip (chainActive st)) as [t|] eqn:Et; [|rewrite (no_tip st R Et) in Hi; by rewrite chain_at_out in Hi by (unfold vsize; cbn; lia)].
  apply Hn. pose proof (tip_chain st t R Et) as Hch. destruct (chain_member _ _ t i q (r_index st R) Hch Hi) as [k Hk].
  apply (member_chain _ _ t (k + n) p b (r_index st R) Hch); [by rewrite up_add, Hk | done].
Qed.

(** Once the candidates are restored, they are complete. *)
Lemma restored_ok st t : ready st -> linked_ok st -> Tip (chainActive st) = Some t ->
  exists c, fold_entries (restore_candidate addr) st (map_to_list (cs_map st)) = Some (set_candidates st c) /\ chain_state_ok addr (set_candidates st c).
Proof.
  intros R K Ht. destruct (restore_ok t (map_to_list (cs_map st)) st R Ht) as (c & E & C1 & C2 & C3); [intros q b; apply elem_of_map_to_list|].
  exists c. split; [done|]. split.
  - apply (ready_evolves st); try done; [apply evolves_refl | intros i q x Hi Hq; by apply (r_active st R i q x) | | by left | by left].
    intros q Hq. destruct (C2 q Hq) as [H|H]; [by apply (r_cand st R) | done].
  - by apply (linked_evolves st); [ | | apply evolves_refl |].
  - intros q [(b & Hb & Hn) Hcl]. change (cs_map (set_candidates st c)) with (cs_map st) in *. change (chainActive (set_candidates st c)) with (chainActive st).
    rewrite Ht. cbn. destruct (tip_entry st t R Ht) as [bt Hbt]. destruct (worse_spec addr _ q t b bt (r_index st R) Hb Hbt) as (w & _ & Hw).
    destruct w; [right; by apply Hw|]. left. apply (C3 q b); [by apply elem_of_map_to_list | | intros Hx; by apply Hw in Hx].
    destruct (can_be_tip_spec b) as (x & -> & Hx). f_equal. apply Hx. split; [by apply (clean_self (cs_map st) q b)|]. split; [|done].
    apply (lk_valid st _ K q b Hb). by destruct (r_linked st R q b Hb Hn).
Qed.

Lemma invalidated_ok st p b s : chain_state_ok addr st -> cs_map st !! p = Some b -> pprev b <> None -> Tip (chainActive st) <> None ->
  exists ok st' s', InvalidateBlock addr ops st p s = Some (ok, st', s') /\ ready st' /\
    (ok = true -> chain_state_ok addr st' /\ ~ clean (cs_map st') p /\ (forall i, chain_at (chainActive st') i <> Some p) /\
      evolves (cs_map st) (cs_map st') /\ Tip (chainActive st') <> None).
Proof.
  intros [R K Hc] Hp Hgen Htip. unfold InvalidateBlock. rewrite (Contains_spec (cs_map st) _ p b Hp). cbn [mbind option_bind].
  destruct (disconnect_from_ok p b (length (chainActive st)) st s R Hp (le_n _)) as (ok & v & s1 & -> & Rv & Hok). cbn [mbind option_bind].
  destruct ok; cbn [negb]; [|by exists false, (set_active st v), s1]. destruct (Hok eq_refl) as [Hout Hv]. set (st1 := set_active st v) in *.
  assert (exists t, Tip (chainActive st1) = Some t) as [t Ht].
  { change (chainActive st1) with v. destruct (bool_decide_reflect (chain_at (chainActive st) (nHeight b) = Some p)); [|subst v; destruct (Tip (chainActive st)); by eauto].
    rewrite Hv. destruct (pprev b); by eauto. }
  assert (forall i q, chain_at (chainActive st1) i = Some q -> ~ descends (cs_map st1) q p) as Hact by (intros i q; by apply (not_in_chain st1 p b)).
  assert (exists st2, (if bool_decide (chain_at (chainActive st) (nHeight b) = Some p) then mark_down_to (length (chainActive st)) st1 (Tip (chainActive st)) p else Some st1) = Some st2 /\
    dropped p st1 st2) as (st2 & -> & D2).
  { destruct (bool_decide_reflect (chain_at (chainActive st) (nHeight b) = Some p)) as [Hin|]; [|exists st1; split; [done | apply dropped_refl]].
    destruct (Tip (chainActive st)) as [o|] eqn:Eo; [|done]. pose proof (tip_chain st o R Eo) as Hch. destruct (chain_member _ _ o _ p (r_index st R) Hch Hin) as [n Hn].
    destruct Hch as (bo & Hbo & Hsz & _). destruct (up_height _ (r_index st R) n o bo p Hbo Hn) as (b' & Hb' & Eh). pose proof (height_range _ (r_index st R) p b' Hb').
    unfold vsize in Hsz. apply (mark_down_to_ok p (length (chainActive st)) st1 n o); [done | lia]. }
  cbn [mbind option_bind]. pose proof (dr_evolves _ _ _ D2) as He2. destruct (evolved_lookup _ _ He2 p b Hp) as (b2 & Hb2 & _).
  destruct (mark_dropped p p b2 BLOCK_FAILED_VALID st2 (or_intror eq_refl) Hb2 (ex_intro _ 0%nat eq_refl)) as (st3 & -> & D3 & M3). cbn [mbind option_bind].
  pose proof (dropped_trans _ _ _ _ D2 D3) as D. set (st4 := erase_candidate (set_dirty st3 p) p) in *.
  set (st5 := set_failed st4 _). assert (ready st4) as R4 by (by apply (ready_dropped p st1)).
  assert (ready st5) as R5.
  { destruct R4 as [R1 R2 R3 R6 R7 R8 R9 Rx Ry Rz]. split; try done. intros q [->%elem_of_singleton|Hq]%elem_of_union; [|by apply Ry].
    eexists. split; [change (cs_map st5) with (cs_map st3); rewrite M3; apply lookup_insert_eq|]. by rewrite has_lor, orb_true_r. }
  assert (linked_ok st5) as K5.
  { apply (linked_evolves st); [done | done | apply (dr_evolves _ _ _ D) | apply (dr_unlinked _ _ _ D)]. }
  assert (chainActive st5 = v) as Ha5 by apply (dr_active _ _ _ D).
  destruct (restored_ok st5 t R5 K5) as (c & -> & K6); [by rewrite Ha5|]. cbn [mbind option_bind].
  assert (exists b3, cs_map st5 !! p = Some b3 /\ failed b3 = true) as (b3 & Hb3 & Hf3).
  { change (cs_map st5) with (cs_map st3). rewrite M3, lookup_insert_eq. eexists. split; [done|]. by rewrite has_lor, orb_true_r. }
  destruct (InvalidChainFound_ok (set_candidates st5 c) p t (ok_ready _ _ K6)) as (x & -> & R7); [cbn; fold (cs_map st5); eauto | change (Tip (chainActive st5) = Some t); by rewrite Ha5 |].
  cbn [mbind option_bind]. eexists true, _, s1. split; [done|]. split; [done|]. intros _. destruct K6 as [Q1 Q2 Q3]. split; [|split; [|split; [|split]]].
  - split; [done | | done]. by destruct Q2; split.
  - intros Hcl. pose proof (clean_self _ p b3 Hb3 Hcl). congruence.
  - intros i Hi. change (chain_at (chainActive st5) i = Some p) in Hi. rewrite Ha5 in Hi. by apply (Hact i p Hi); exists 0%nat.
  - apply (dr_evolves _ _ _ D).
  - change (Tip (chainActive st5) <> None). rewrite Ha5. change (Tip (chainActive st1) <> None). by rewrite Ht.
Qed.

(** ** Blocks the operator prefers *)

Section Resequence.
Context (st st1 : CChainState) (p : ptr) (a : CBlockIndex) (s : Z) (K : chain_state_ok addr st) (Ha : cs_map st !! p = Some a).
Context (Hmap : cs_map st1 = <[p := set_nSequenceId a s]> (cs_map st)) (Hact : chainActive st1 = chainActive st).
Context (Hbest : pindexBestInvalid st1 = pindexBestInvalid st) (Hfb : m_failed_blocks st1 = m_failed_blocks st) (Hunl : mapBlocksUnlinked st1 = mapBlocksUnlinked st).
Context (Hbh : pindexBestHeader (cs_index st1) = pindexBestHeader (cs_index st)).

Lemma rs_tree : same_tree (cs_map st) (cs_map st1).
Proof. rewrite Hmap. apply (same_tree_insert _ p a _ Ha), skel_set_nSequenceId. Qed.
Lemma rs_back q c1 : cs_map st1 !! q = Some c1 -> exists c, cs_map st !! q = Some c /\ skel c c1 /\ nTx c1 = nTx c /\ nChainTx c1 = nChainTx c /\ nStatus c1 = nStatus c /\
  (q = p \/ nSequenceId c1 = nSequenceId c).
Proof.
  rewrite Hmap. intros Hq. destruct (decide (q = p)) as [->|Hne].
  - rewrite lookup_insert_eq in Hq. injection Hq as <-. exists a. split; [done|]. split; [apply skel_set_nSequenceId|]. destruct a. by split_and!; [..|left].
  - rewrite lookup_insert_ne in Hq by done. exists c1. split; [done|]. split; [apply skel_refl|]. by split_and!; [..|right].
Qed.
Lemma rs_fwd q c : cs_map st !! q = Some c -> exists c1, cs_map st1 !! q = Some c1 /\ skel c c1 /\ nTx c1 = nTx c /\ nChainTx c1 = nChainTx c /\ nStatus c1 = nStatus c /\
  (q = p \/ nSequenceId c1 = nSequenceId c).
Proof.
  intros Hc. destruct (same_lookup _ _ rs_tree q c Hc) as (c1 & Hc1 & _). exists c1. split; [done|]. destruct (rs_back q c1 Hc1) as (c0 & Hc0 & H). by simplify_eq.
Qed.
Lemma rs_clean q : clean (cs_map st1) q <-> clean (cs_map st) q.
Proof.
  split; intros Hc n x c Hu Hx.
  - destruct (rs_fwd x c Hx) as (c1 & Hc1 & _ & _ & _ & E & _). unfold has. rewrite <- E. apply (Hc n x c1); [by rewrite (same_up _ _ rs_tree) | done].
  - destruct (rs_back x c Hx) as (c0 & Hc0 & _ & _ & _ & E & _). unfold has. rewrite E. rewrite (same_up _ _ rs_tree) in Hu. by apply (Hc n x c0).
Qed.
Lemma rs_eligible q : eligible (cs_map st1) q -> eligible (cs_map st) q.
Proof. intros [(c & Hc & Hn) Hcl]. destruct (rs_back q c Hc) as (c0 & Hc0 & _ & _ & E & _). split; [exists c0; split; [done | congruence] | by apply rs_clean]. Qed.

Lemma rs_ready : (forall q, q ∈ setBlockIndexCandidates st1 -> q ∈ setBlockIndexCandidates st \/ q = p /\ nChainTx a <> 0) -> ready st1.
Proof.
  intros Hcand. pose proof (ok_ready addr st K) as [R1 R2 R3 R4 R5 R6 R7 R8 R9 R10]. split; rewrite ?Hact, ?Hbest.
  - by apply (same_index_ok _ _ rs_tree).
  - intros x b q c Hx Hq Hc. destruct (rs_back x b Hx) as (b0 & Hb0 & (_ & E1 & _ & _ & E2 & _) & _). destruct (rs_back q c Hc) as (c0 & Hc0 & (_ & _ & _ & _ & E3 & _) & _).
    rewrite E2, E3. apply (R2 x b0 q c0); congruence.
  - intros x b Hx Hn. destruct (rs_back x b Hx) as (b0 & Hb0 & _ & E1 & _ & E2 & _). unfold has. rewrite E2. apply (R3 x b0 Hb0). congruence.
  - intros x b Hx Hn. destruct (rs_back x b Hx) as (b0 & Hb0 & (_ & E0 & _) & E1 & E2 & _). rewrite E2 in Hn. destruct (R4 x b0 Hb0 Hn) as [A1 A2]. split; [congruence|].
    intros q c Hq Hc. destruct (rs_back q c Hc) as (c0 & Hc0 & _ & _ & -> & _). apply (A2 q c0); congruence.
  - by apply (same_chain_ok _ _ rs_tree).
  - intros i q c Hi Hc. destruct (rs_back q c Hc) as (c0 & Hc0 & (_ & _ & _ & E0 & _) & _ & E1 & E2 & _). destruct (R6 i q c0 Hi Hc0) as (A1 & A2 & A3).
    unfold has, scripts_ok in *. by rewrite E1, E2, E0.
  - intros q Hq. assert (exists b, cs_map st !! q = Some b /\ nChainTx b <> 0) as (b & Hb & Hn) by (destruct (Hcand q Hq) as [H|[-> H]]; [by apply R7 | eauto]).
    destruct (rs_fwd q b Hb) as (b1 & Hb1 & _ & _ & E & _). exists b1. split; [done | congruence].
  - intros q Hq. destruct (R8 q Hq) as [b Hb]. destruct (rs_fwd q b Hb) as (b1 & Hb1 & _). eauto.
  - rewrite Hfb. intros q Hq. destruct (R9 q Hq) as (b & Hb & Hf). destruct (rs_fwd q b Hb) as (b1 & Hb1 & _ & _ & _ & E & _). exists b1. split; [done|]. unfold has. by rewrite E.
  - by apply (best_ok_same (cs_index st)); [apply rs_tree | |].
Qed.

Lemma rs_linked : linked_ok st1.
Proof.
  pose proof (ok_linked addr st K) as [K1 K2 K3 K4 K5 K6 K7 K8]. pose proof (r_index st (ok_ready addr st K)) as Hm. split; rewrite ?Hunl.
  - intros x b Hx. destruct (rs_back x b Hx) as (b0 & Hb0 & _ & _ & _ & -> & _). by apply (K1 x).
  - intros x b Hx. destruct (rs_back x b Hx) as (b0 & Hb0 & _ & -> & _). by apply (K2 x).
  - intros x b Hx Hn. destruct (rs_back x b Hx) as (b0 & Hb0 & _ & _ & E & _). rewrite E in *. rewrite (K3 x b0 Hb0 Hn). symmetry.
    apply (txs_same _ _ x b0 Hm rs_tree Hb0). intros n q c c' _ Hc Hc'. destruct (rs_back q c' Hc') as (c0 & Hc0 & _ & E' & _). congruence.
  - intros x b Hx Hcl Hn Hpar. apply rs_clean in Hcl. destruct (rs_back x b Hx) as (b0 & Hb0 & (_ & E0 & _) & E1 & E2 & _). rewrite E2. apply (K4 x b0 Hb0 Hcl); [congruence|].
    intros q c Hq Hc. destruct (rs_fwd q c Hc) as (c1 & Hc1 & _ & _ & E & _). rewrite <- E. apply (Hpar q c1); congruence.
  - intros x b q c Hx Hcl Hn Hq Hc Hz. apply rs_clean in Hcl. destruct (rs_back x b Hx) as (b0 & Hb0 & (_ & E0 & _) & E1 & _).
    destruct (rs_back q c Hc) as (c0 & Hc0 & _ & _ & E & _). apply (K5 x b0 q c0 Hb0 Hcl); congruence.
  - intros k x Hkx. destruct (K6 k x Hkx) as (b & q & -> & Hb & Hq & Hn & Hz). destruct (rs_fwd x b Hb) as (b1 & Hb1 & (_ & E0 & _) & E1 & E2 & _).
    exists b1, q. split_and!; congruence.
  - done.
  - intros x b Hx Hn. destruct (rs_back x b Hx) as (b0 & Hb0 & _ & E1 & _ & -> & _). apply (K8 x b0 Hb0). congruence.
Qed.

(** The order changes only for [p]; the tip does not become worse. *)
Lemma rs_wlt q t : q <> p -> (t = p -> s <= nSequenceId a) -> wlt addr (cs_map st) q t -> wlt addr (cs_map st1) q t.
Proof.
  intros Hq Ht (b & c & Hb & Hc & Hr). destruct (rs_fwd q b Hb) as (b1 & Hb1 & (_ & _ & _ & _ & E1 & _) & _ & _ & _ & [?|E2]); [done|].
  destruct (rs_fwd t c Hc) as (c1 & Hc1 & (_ & _ & _ & _ & E3 & _) & _ & _ & _ & E4). exists b1, c1. split; [done|]. split; [done|].
  cbn in *. rewrite E1, E2, E3. destruct (decide (t = p)) as [->|Hne]; [|destruct E4 as [?|E4]; [done | by rewrite E4]].
  specialize (Ht eq_refl). rewrite Hmap, lookup_insert_eq in Hc1. injection Hc1 as <-. assert (c = a) as -> by congruence.
  assert (nSequenceId (set_nSequenceId a s) = s) as -> by (by destruct a). lia.
Qed.
End Resequence.

(** The sequence number [PreciousBlock] gives *)
Definition precious_sequence (st : CChainState) (b : CBlockIndex) : Z :=
  if ltb (nLastPreciousChainwork st) (nChainWork b) then -1 else nBlockReverseSequenceId st.

(** If the preferred block is the tip, it must not get a higher number than it has. *)
Definition precious_ok (st : CChainState) (p : ptr) : Prop :=
  forall b, Tip (chainActive st) = Some p -> cs_map st !! p = Some b -> precious_sequence st b <= nSequenceId b.

Lemma preferred_ok st p t a b : chain_state_ok addr st -> Tip (chainActive st) = Some t -> cs_map st !! p = Some a -> cs_map st !! t = Some b -> precious_ok st p ->
  let a1 := set_nSequenceId a (precious_sequence st b) in
  forall st1, cs_map st1 = <[p := a1]> (cs_map st) -> chainActive st1 = chainActive st -> pindexBestInvalid st1 = pindexBestInvalid st -> m_failed_blocks st1 = m_failed_blocks st ->
    mapBlocksUnlinked st1 = mapBlocksUnlinked st -> setBlockIndexCandidates st1 = setBlockIndexCandidates st ∖ {[p]} ->
    pindexBestHeader (cs_index st1) = pindexBestHeader (cs_index st) ->
  exists v st2, IsValid a1 BLOCK_VALID_TRANSACTIONS = Some v /\
    (if (v : bool) && negb (nChainTx a1 =? 0) then PruneBlockIndexCandidates addr (insert_candidate st1 p) else Some st1) = Some st2 /\ chain_state_ok addr st2 /\ cs_map st2 = cs_map st1 /\ chainActive st2 = chainActive st1.
Proof.
  intros K Ht Ha Hb Hpr a1 st1 Hmap Hact Hbest Hfb Hunl Hcand Hbh. pose proof (ok_ready addr st K) as R.
  assert (forall q, q <> p -> wlt_opt addr (cs_map st) q (Some t) -> wlt_opt addr (cs_map st1) q (Some t)) as Hord.
  { intros q Hq. apply (rs_wlt st st1 p a (precious_sequence st b) Ha Hmap q t Hq). intros ->. assert (a = b) as -> by congruence. by apply Hpr. }
  assert (t ∈ setBlockIndexCandidates st) as Htc by (apply (start_candidate addr st (Tip (chainActive st)) t (ok_complete _ _ K)); [by apply start_tip | done]).
  destruct (can_be_tip_spec a1) as (c & Ec & Hc). unfold can_be_tip in Ec. destruct (IsValid a1 BLOCK_VALID_TRANSACTIONS) as [v|]; [|done]. cbn [mbind option_bind] in Ec.
  injection Ec as Ec. exists v. rewrite Ec. assert (nChainTx a1 = nChainTx a /\ nStatus a1 = nStatus a) as [En Es] by (unfold a1; by destruct a).
  destruct c.
  - destruct Hc as [Hc _]. destruct (Hc eq_refl) as (_ & _ & Hn). set (st2 := insert_candidate st1 p).
    assert (ready st2) as R2.
    { apply (rs_ready st st2 p a (precious_sequence st b) K Ha Hmap Hact Hbest Hfb Hbh). intros q [->%elem_of_singleton|Hq]%elem_of_union; [right; split; [done | congruence]|].
      rewrite Hcand in Hq. left. by apply elem_of_difference in Hq as [? _]. }
    assert (t ∈ setBlockIndexCandidates st2) as Ht2 by (cbn; rewrite Hcand; clear -Htc; destruct (decide (t = p)); set_solver).
    destruct (Prune_ok addr st2 t t R2) as (cs & E & R3 & Hcs); [by cbn; rewrite Hact | done | apply wlt_irrefl|]. eexists. split; [done|]. split; [exact E|]. split; [|done]. split; [done | |].
    + apply (linked_evolves st2 _ R2); [ | apply evolves_refl | done]. by apply (rs_linked st st2 p a (precious_sequence st b)).
    + intros q Hq. change (chainActive (set_candidates st2 cs)) with (chainActive st1). rewrite Hact, Ht. change (eligible (cs_map st1) q) in Hq.
      change (q ∈ cs \/ wlt_opt addr (cs_map st1) q (Some t)). destruct (Hq) as [(bq & Hbq & _) _].
      destruct (same_lookup _ _ (rs_tree st st1 p a (precious_sequence st b) Ha Hmap) t b Hb) as (bt & Hbt & _).
      destruct (worse_spec addr _ q t bq bt (r_index st2 R2) Hbq Hbt) as (w & _ & Hw). destruct w; [right; by apply Hw|]. left. apply Hcs.
      split; [|intros Hx; by apply Hw in Hx]. cbn. rewrite Hcand. destruct (decide (q = p)) as [->|Hne]; [clear; set_solver|].
      destruct (ok_complete addr st K q (rs_eligible st st1 p a _ Ha Hmap q Hq)) as [H|H]; [clear -H Hne; set_solver|].
      rewrite Ht in H. apply (Hord q Hne), Hw in H. done.
  - exists st1. split; [done|]. split; [done|]. split; [|done].
    assert (~ eligible (cs_map st) p) as Hnot.
    { intros [(a' & Ha' & Hn) Hcl]. assert (a' = a) as -> by congruence. enough (false = true) by done. apply Hc. unfold has. rewrite En, Es.
      split; [by apply (clean_self (cs_map st) p a)|]. split; [|done]. apply (lk_valid st _ (ok_linked _ _ K) p a Ha). by destruct (r_linked st R p a Ha Hn). }
    split; [apply (rs_ready st st1 p a (precious_sequence st b) K Ha Hmap Hact Hbest Hfb Hbh); intros q Hq; rewrite Hcand in Hq; left; by apply elem_of_difference in Hq as [? _] | |].
    + by apply (rs_linked st st1 p a (precious_sequence st b)).
    + intros q Hq. pose proof (rs_eligible st st1 p a _ Ha Hmap q Hq) as Hq0. assert (q <> p) as Hne by (intros ->; done).
      rewrite Hact, Hcand, Ht. destruct (ok_complete addr st K q Hq0) as [H|H]; [left; clear -H Hne; set_solver|]. rewrite Ht in H. right. by apply Hord.
Qed.

Lemma reneged_resequence (m m' : BlockMap) p a s : m !! p = Some a -> reneged (<[p := set_nSequenceId a s]> m) m' -> reneged m m'.
Proof.
  intros Ha. apply reneged_r. intros q b Hb Hf. destruct (decide (q = p)) as [->|Hne].
  - rewrite lookup_insert_eq. eexists. split; [done|]. assert (b = a) as -> by congruence. by destruct a.
  - rewrite lookup_insert_ne by done. by exists b.
Qed.

Lemma precious_block_ok st p a s : chain_state_ok addr st -> cs_map st !! p = Some a -> Tip (chainActive st) <> None -> precious_ok st p ->
  exists ok st' s', PreciousBlock C addr ops ShutdownRequested st p s = Some (ok, st', s') /\ (ok = true -> reneged (cs_map st) (cs_map st') \/ chain_state_ok addr st').
Proof.
  intros K Ha Htip Hpr. unfold PreciousBlock. destruct (Tip (chainActive st)) as [t|] eqn:Ht; [|done]. cbn [mbind option_bind]. rewrite Ha. cbn [mbind option_bind].
  destruct (tip_entry st t (ok_ready _ _ K) Ht) as [b Hb]. rewrite Hb. cbn [mbind option_bind]. destruct (ltb (nChainWork a) (nChainWork b)); [exists true, st, s; split; [done|]; by right|].
  fold (precious_sequence st b). set (st1 := set_sequence _ _ _ _).
  destruct (preferred_ok st p t a b K Ht Ha Hb Hpr st1) as (v & st2 & -> & E & K2 & M2 & _); try done. cbn [mbind option_bind]. rewrite E. cbn [mbind option_bind].
  destruct (activated_ok None st2 s K2) as (ok & st' & s' & -> & _ & _ & Hok). exists ok, st', s'. split; [done|]. intros Ho. destruct (Hok Ho) as [Hr|[? _]]; [left | by right].
  rewrite M2 in Hr. by apply (reneged_resequence _ _ p a (precious_sequence st b)).
Qed.

(** ** Reachable states *)

(** The states that headers, blocks and the operator lead to, while no operation fails for reasons
    of the system and no block that was connected once is refused when it is connected again *)
Inductive chain_reachable : CChainState -> Prop :=
| reach_start : chain_reachable empty_chain_state
| reach_header st block i p : chain_reachable st -> addable C (cs_map st) block -> AddToBlockIndex C (cs_index st) block = Some (i, p) ->
    (forall e q c, mapBlockIndex i !! p = Some e -> pprev e = Some q -> cs_map st !! q = Some c -> val (nChainWork c) < val (nChainWork e)) ->
    chain_reachable (set_index st i)
| reach_data st we block p b pos st' : chain_reachable st -> cs_map st !! p = Some b -> failed b = false -> nTx b = 0 -> 0 < vsize (vtx block) ->
    (forall q, txs (cs_map st) q + vsize (vtx block) < 2 ^ 32) -> ReceivedBlockTransactions addr we st block p pos = Some st' -> chain_reachable st'
| reach_activate st pblock s st' s' : chain_reachable st -> ActivateBestChain C addr ops ShutdownRequested st pblock s = Some (true, st', s') ->
    ~ reneged (cs_map st) (cs_map st') -> chain_reachable st'
| reach_invalidate st p b s st' s' : chain_reachable st -> cs_map st !! p = Some b -> pprev b <> None -> Tip (chainActive st) <> None ->
    InvalidateBlock addr ops st p s = Some (true, st', s') -> chain_reachable st'
| reach_precious st p b s st' s' : chain_reachable st -> cs_map st !! p = Some b -> Tip (chainActive st) <> None -> precious_ok st p ->
    PreciousBlock C addr ops ShutdownRequested st p s = Some (true, st', s') -> ~ reneged (cs_map st) (cs_map st') -> chain_reachable st'.

Lemma reachable_state_ok st : chain_reachable st -> chain_state_ok addr st.
Proof.
  induction 1 as [|st block i p _ IH Hadd E Hw|st we block p b pos st' _ IH Hp Hf Hn Hv Hr E|st pblock s st' s' _ IH E Hnr|st p b s st' s' _ IH Hp Hg Ht E|
    st p b s st' s' _ IH Hp Ht Hpr E Hnr].
  - apply empty_ok.
  - by apply (header_ok C addr st block i p).
  - destruct (ReceivedBlockTransactions_ok addr st we block p b pos IH Hp Hf Hn Hv Hr) as (st1 & E1 & K1). congruence.
  - destruct (activated_ok pblock st s IH) as (ok & st1 & s1 & E1 & _ & _ & K1). rewrite E in E1. injection E1 as <- <- <-. by destruct (K1 eq_refl) as [?|[? _]].
  - destruct (invalidated_ok st p b s IH Hp Hg Ht) as (ok & st1 & s1 & E1 & _ & K1). rewrite E in E1. injection E1 as <- <- <-. by apply K1.
  - destruct (precious_block_ok st p b s IH Hp Ht Hpr) as (ok & st1 & s1 & E1 & K1). rewrite E in E1. injection E1 as <- <- <-. by destruct (K1 eq_refl).
Qed.

Lemma active_eligible st i q : ready st -> chain_at (chainActive st) i = Some q -> eligible (cs_map st) q.
Proof.
  intros R Hi. destruct (Tip (chainActive st)) as [t|] eqn:Et; [|rewrite (no_tip st R Et) in Hi; by rewrite chain_at_out in Hi by (unfold vsize; cbn; lia)].
  pose proof (tip_chain st t R Et) as Hch. destruct (chain_member _ _ t i q (r_index st R) Hch Hi) as [n Hn]. destruct (tip_entry st t R Et) as [b Hb].
  destruct (up_height _ (r_index st R) n t b q Hb Hn) as (c & Hcq & _). apply sound_eligible; [eauto|]. by apply (sound_up _ t n); [apply tip_sound|].
Qed.

(** *** The claims *)

(** (C2) Chain selection.  Take any state that headers, block data in any order, activation,
    [InvalidateBlock] and [PreciousBlock] lead to, as long as every one of these operations
    succeeded, no block that was connected once was refused later, the tip was not given a higher
    sequence number by [PreciousBlock] and no failure mark was taken away
    ([ResetBlockFailureFlags]) and no block file pruned.  There [ActivateBestChain] comes to an end
    within its fuel and no assertion fails, whatever connecting, disconnecting and flushing do; and
    when it reports success and no shutdown was asked for, then either a block that was connected
    once is now marked as invalid, or the tip is a block whose whole chain is there and not marked
    as failed, and no such block is better in the order of [CBlockIndexWorkComparator]. *)
Theorem best_chain_activated pblock st s : chain_reachable st ->
  exists ok st' s', ActivateBestChain C addr ops ShutdownRequested st pblock s = Some (ok, st', s') /\
    (ok = true -> (forall n, ShutdownRequested n = false) -> reneged (cs_map st) (cs_map st') \/
      match Tip (chainActive st') with
      | Some t => available (cs_map st') t /\ forall q, available (cs_map st') q -> worse addr (cs_map st') t (Some q) = Some false
      | None => forall q, ~ available (cs_map st') q
      end).
Proof.
  intros K%reachable_state_ok. destruct (activated_ok pblock st s K) as (ok & st' & s' & E & R & Lk & Hok). exists ok, st', s'. split; [done|].
  intros Ho Hsd. destruct (Hok Ho) as [?|[_ Hb]]; [by left | right]. specialize (Hb Hsd). unfold best_tip in Hb. destruct (Tip (chainActive st')) as [t|] eqn:Et.
  - destruct (tip_entry st' t R Et) as [b Hbt]. split.
    + apply available_eligible; [done | done|]. apply sound_eligible; [eauto | by apply tip_sound].
    + intros q Hq. apply available_eligible in Hq; [|done..]. destruct (Hq) as [(c & Hc & _) _]. destruct (worse_spec addr _ t q b c (r_index st' R) Hbt Hc) as (w & -> & Hw).
      destruct w; [|done]. destruct (Hb q Hq). by apply Hw.
  - intros q Hq%available_eligible; [|done..]. by apply (Hb q).
Qed.


(** (C9) Blocks called invalid.  In the states of C8, [InvalidateBlock] on a block that has a
    predecessor returns.  If it returns true, which it does not when a block cannot be
    disconnected or flushing fails, the state is again one of those states, the block and its
    descendants are not in the active chain any more, and none of them can become the tip. *)
Theorem invalidated_block_out st p b s : chain_reachable st -> cs_map st !! p = Some b -> pprev b <> None -> Tip (chainActive st) <> None ->
  exists ok st' s', InvalidateBlock addr ops st p s = Some (ok, st', s') /\
    (ok = true -> chain_reachable st' /\ forall q, descends (cs_map st') q p ->
      (forall i, chain_at (chainActive st') i <> Some q) /\ ~ available (cs_map st') q).
Proof.
  intros Hst Hp Hg Ht. pose proof (reachable_state_ok st Hst) as K. destruct (invalidated_ok st p b s K Hp Hg Ht) as (ok & st' & s' & E & _ & Hok).
  exists ok, st', s'. split; [done|]. intros ->. destruct (Hok eq_refl) as (K' & Hncl & Hout & _). split; [by apply (reach_invalidate st p b s st' s')|].
  intros q [n Hn]. assert (~ available (cs_map st') q) as Hna.
  { intros Ha%available_eligible; [|apply K'..]. apply Hncl. by apply (clean_up _ q n p Hn), Ha. }
  split; [|done]. intros i Hi. apply Hna, available_eligible; [apply K'..|]. apply (active_eligible st' i); [apply K' | done].
Qed.
End Steps.

(** ** Runs *)

(** Whether a block that was connected once is now called invalid, as a test *)
Definition renegedb (m m' : BlockMap) : bool :=
  existsb (fun e => has (snd e) BLOCK_FAILED_VALID && ((nHeight (snd e) =? 0) || (BLOCK_VALID_SCRIPTS <=? Z.land (nStatus (snd e)) BLOCK_VALID_MASK)) &&
    match m !! fst e with Some b => negb (has b BLOCK_FAILED_VALID) | None => true end) (map_to_list m').
Lemma renegedb_spec m m' : renegedb m m' = true <-> reneged m m'.
Proof.
  unfold renegedb. rewrite existsb_exists. split.
  - intros ([p b'] & Hin & Hx). cbn [fst snd] in Hx. rewrite !andb_true_iff, orb_true_iff, Z.eqb_eq, Z.leb_le in Hx. destruct Hx as [[H1 H2] H3].
    exists p, b'. split; [by apply elem_of_map_to_list, list_elem_of_In|]. split; [done|]. split; [done|]. intros b Hb. rewrite Hb in H3. by apply negb_true_iff.
  - intros (p & b' & Hb' & H1 & H2 & H3). exists (p, b'). split; [by apply list_elem_of_In, elem_of_map_to_list|]. cbn [fst snd].
    rewrite H1, !andb_true_iff, orb_true_iff, Z.eqb_eq, Z.leb_le. split; [by split|]. destruct (m !! p) as [b|]; [|done]. by rewrite (H3 b).
Qed.
#[export] Instance reneged_dec m m' : Decision (reneged m m').
Proof. destruct (renegedb m m') eqn:E; [left | right]; rewrite <- renegedb_spec; congruence. Defined.


(** Commands that are only carried out where [chain_reachable] allows them *)
Inductive command : Type :=
| CmdHeader (block : CBlockHeader)
| CmdData (block : CBlock)
| CmdActivate
| CmdInvalidate (p : ptr).

Section Run.
Context (C : Crypto) (addr : ptr -> Z) {W : Type} (ops : BlockOps W) (ShutdownRequested : nat -> bool) (s : W).

Definition entries (st : CChainState) : list (ptr * CBlockIndex) := map_to_list (cs_map st).
Definition grows (st : CChainState) (e : CBlockIndex) : bool :=
  match pprev e with
  | None => true
  | Some q => match cs_map st !! q with Some c => val (nChainWork c) <? val (nChainWork e) | None => true end
  end.

Definition run (st : CChainState) (c : command) : option CChainState :=
  match c with
  | CmdHeader block =>
      '(i, p) ← AddToBlockIndex C (cs_index st) block;
      e ← mapBlockIndex i !! p;
      if bool_decide (hashPrevBlock block <> Block_GetHash C block) && (0 <=? nBits block) && (nBits block <? 2 ^ 32) &&
         forallb (fun x => nHeight (snd x) + 1 <? 2 ^ 31) (entries st) && grows st e
      then Some (set_index st i) else None
  | CmdData block =>
      let p := Block_GetHash C block in
      b ← cs_map st !! p;
      if negb (failed b) && (nTx b =? 0) && (0 <? vsize (vtx block)) && (vsize (vtx block) <? 2 ^ 32) &&
         forallb (fun x => txs (cs_map st) (fst x) + vsize (vtx block) <? 2 ^ 32) (entries st)
      then ReceivedBlockTransactions addr true st block p (0, 0) else None
  | CmdActivate =>
      '(ok, st', _) ← ActivateBestChain C addr ops ShutdownRequested st None s;
      if (ok : bool) && negb (renegedb (cs_map st) (cs_map st')) then Some st' else None
  | CmdInvalidate p =>
      b ← cs_map st !! p;
      if bool_decide (pprev b <> None) && bool_decide (Tip (chainActive st) <> None)
      then '(ok, st, _) ← InvalidateBlock addr ops st p s; if (ok : bool) then Some st else None
      else None
  end.

Fixpoint runs (st : CChainState) (l : list command) : option CChainState :=
  match l with [] => Some st | c :: l => st ← run st c; runs st l end.

Lemma run_reachable st c st' : chain_reachable C addr ops ShutdownRequested st -> run st c = Some st' -> chain_reachable C addr ops ShutdownRequested st'.
Proof.
  intros Hst. destruct c as [block|block| |p]; cbn [run].
  - destruct (AddToBlockIndex C (cs_index st) block) as [[i p]|] eqn:E; [|done]. cbn [mbind option_bind]. destruct (mapBlockIndex i !! p) as [e|] eqn:Ee; [|done].
    cbn [mbind option_bind]. destruct (_ && _) eqn:Eb; [|done]. intros [= <-]. rewrite !andb_true_iff, bool_decide_eq_true, Z.leb_le, Z.ltb_lt in Eb.
    destruct Eb as ((((H1 & H2) & H3) & H4) & H5). apply (reach_header C addr ops ShutdownRequested st block i p Hst); [|done|].
    + split; [done|]. split; [by split|]. intros q Hq. rewrite forallb_forall in H4.
      apply Z.ltb_lt, (H4 (hashPrevBlock block, q)). by apply list_elem_of_In, elem_of_map_to_list.
    + intros e' q c He Hq Hc. rewrite Ee in He. injection He as <-. unfold grows in H5. rewrite Hq, Hc in H5. by apply Z.ltb_lt.
  - destruct (cs_map st !! Block_GetHash C block) as [b|] eqn:Hb; [|done]. cbn [mbind option_bind]. destruct (_ && _) eqn:Eb; [|done]. intros E.
    rewrite !andb_true_iff, negb_true_iff, Z.eqb_eq, !Z.ltb_lt in Eb. destruct Eb as ((((H1 & H2) & H3) & H4) & H5).
    apply (reach_data C addr ops ShutdownRequested st true block (Block_GetHash C block) b (0, 0)); try done.
    intros q. destruct (cs_map st !! q) as [c|] eqn:Hq.
    + rewrite forallb_forall in H5. apply Z.ltb_lt, (H5 (q, c)). by apply list_elem_of_In, elem_of_map_to_list.
    + unfold txs. rewrite Hq. lia.
  - destruct (ActivateBestChain _ _ _ _ _ _ _) as [[[[] st1] s1]|] eqn:E; try done. cbn [mbind option_bind andb].
    destruct (renegedb _ _) eqn:Er; [done|]. intros [= <-]. apply (reach_activate C addr ops ShutdownRequested st None s st1 s1 Hst E).
    rewrite <- renegedb_spec. congruence.
  - destruct (cs_map st !! p) as [b|] eqn:Hb; [|done]. cbn [mbind option_bind]. destruct (_ && _) eqn:Eb; [|done]. rewrite andb_true_iff, !bool_decide_eq_true in Eb.
    destruct (InvalidateBlock _ _ _ _ _) as [[[[] st1] s1]|] eqn:E; try done. cbn [mbind option_bind]. intros [= <-].
    destruct Eb. by apply (reach_invalidate C addr ops ShutdownRequested st p b s st1 s1).
Qed.

Lemma runs_reachable l : forall st st', chain_reachable C addr ops ShutdownRequested st -> runs st l = Some st' -> chain_reachable C addr ops ShutdownRequested st'.
Proof.
  induction l as [|c l IH]; intros st st' Hst; cbn [runs]; [by intros [= <-]|]. destruct (run st c) as [st1|] eqn:E; [|done]. cbn [mbind option_bind].
  apply IH. by apply (run_reachable st c).
Qed.
End Run.

(** *** A concrete run *)

(** Connecting marks the entry as checked; the block with [nVersion] 7 is invalid. *)
Definition sample_ops : BlockOps unit :=
  mk_BlockOps unit
    (fun m _ p _ s => match m !! p with
                      | Some b => if (bi_nVersion b =? 7) && negb (nHeight b =? 0) && (Z.land (nStatus b) BLOCK_VALID_MASK <? BLOCK_VALID_SCRIPTS) then BlockInvalid s b false
                                  else BlockConnected s (set_nStatus b (Z.lor (nStatus b) BLOCK_VALID_MASK))
                      | None => ConnectFailed s (CBlockIndex_of_header genesis_header)
                      end)
    (fun _ _ _ s => (true, s)) (fun _ s => Some s).

Lemma sample_ops_ok : ops_ok sample_ops.
Proof.
  split; cbn [op_connect sample_ops]; intros m v p blk s s' b b'; intros; rewrite H in *; destruct ((_ && _) && _) eqn:E; try done.
  - injection H1 as <- <-. set (b' := set_nStatus b _). assert (nStatus b' = Z.lor (nStatus b) BLOCK_VALID_MASK) as Es by (by destruct b).
    assert (Z.land (nStatus b') BLOCK_VALID_MASK = BLOCK_VALID_MASK) as Em by (rewrite Es; by apply Z.bits_inj'; intros i _; rewrite Z.land_spec, Z.lor_spec; destruct (Z.testbit (nStatus b) i), (Z.testbit BLOCK_VALID_MASK i)).
    assert (forall f, Z.land BLOCK_VALID_MASK f = 0 -> has b' f = has b f) as Hh by (intros f Hf; unfold b'; rewrite has_lor, Hf; apply orb_false_r).
    assert (scripts_ok b') as Hs by (right; by rewrite Em). split; [|split; [by apply Hh | done]]. split; [apply skel_set_nStatus|].
    assert (nTx b' = nTx b /\ nChainTx b' = nChainTx b /\ nSequenceId b' = nSequenceId b) as (E1 & E2 & E3) by (unfold b'; by destruct b).
    split; [done|]. split; [done|]. split; [done|]. split; [by apply Hh|]. split; [intros f [-> | ->] ?; by rewrite Hh|]. split; [done|].
    split; [rewrite Em, Z.land_comm; by apply land_le | unfold b'; by destruct b].
  - injection H0 as <- <- <-. split; [apply entry_evolves_refl|]. split; [done|]. split; [|done]. rewrite !andb_true_iff, negb_true_iff, Z.eqb_neq in E. lia.
Qed.

Definition sample_addr (p : ptr) : Z := Z.pos (encode p).
Lemma sample_addr_inj p q : sample_addr p = sample_addr q -> p = q.
Proof. intros [= E]. by apply encode_inj in E. Qed.

Definition sample_block (n : nat) : CBlock := mk_CBlock (sample_header n) [MakeTransaction toy_crypto sample_tx] false.
Definition sample_hash (n : nat) : ptr := Block_GetHash toy_crypto (sample_header n).

(** Four headers; the data of the third block comes before that of the second; the fourth block is
    invalid. *)
Definition sample_commands : list command :=
  [CmdHeader (sample_header 0); CmdHeader (sample_header 1); CmdHeader (sample_header 2); CmdHeader (sample_header 3);
   CmdData (sample_block 0); CmdActivate; CmdData (sample_block 2); CmdData (sample_block 1); CmdData (sample_block 3)].
Definition sample_chain : CChainState :=
  default empty_chain_state (runs toy_crypto sample_addr sample_ops (fun _ => false) tt empty_chain_state sample_commands).

Lemma sample_chain_reachable : chain_reachable toy_crypto sample_addr sample_ops (fun _ => false) sample_chain.
Proof.
  apply (runs_reachable toy_crypto sample_addr sample_ops (fun _ => false) tt sample_commands empty_chain_state); [apply reach_start|].
  unfold sample_chain. destruct (runs _ _ _ _ _ _ _) eqn:E; [done|]. exfalso. revert E. vm_compute. discriminate.
Qed.

Example third_block_is_tip :
  match ActivateBestChain toy_crypto sample_addr sample_ops (fun _ => false) sample_chain None tt with
  | Some (ok, st, _) => ok && bool_decide (Tip (chainActive st) = Some (sample_hash 2)) | None => false end = true.
Proof. vm_compute. reflexivity. Qed.

Lemma best_chain_activated_witness :
  exists ok st' s', ActivateBestChain toy_crypto sample_addr sample_ops (fun _ => false) sample_chain None tt = Some (ok, st', s') /\
    (ok = true -> reneged (cs_map sample_chain) (cs_map st') \/ match Tip (chainActive st') with
      | Some t => available (cs_map st') t /\ forall q, available (cs_map st') q -> worse sample_addr (cs_map st') t (Some q) = Some false
      | None => forall q, ~ available (cs_map st') q
      end).
Proof.
  destruct (best_chain_activated toy_crypto sample_addr sample_addr_inj sample_ops sample_ops_ok (fun _ => false) None sample_chain tt sample_chain_reachable)
    as (ok & st' & s' & E & H).
  exists ok, st', s'. split; [exact E|]. intros Hok. by apply H.
Defined.


Definition sample_active : CChainState :=
  default empty_chain_state (runs toy_crypto sample_addr sample_ops (fun _ => false) tt empty_chain_state (sample_commands ++ [CmdActivate])).
Lemma sample_active_reachable : chain_reachable toy_crypto sample_addr sample_ops (fun _ => false) sample_active.
Proof.
  apply (runs_reachable toy_crypto sample_addr sample_ops (fun _ => false) tt (sample_commands ++ [CmdActivate]) empty_chain_state); [apply reach_start|].
  unfold sample_active. destruct (runs _ _ _ _ _ _ _) eqn:E; [done|]. exfalso. revert E. vm_compute. discriminate.
Qed.

Definition second_entry : CBlockIndex := default (CBlockIndex_of_header genesis_header) (cs_map sample_active !! sample_hash 1).
Lemma sample_second : cs_map sample_active !! sample_hash 1 = Some second_entry /\ pprev second_entry <> None /\ Tip (chainActive sample_active) <> None.
Proof. split; [vm_compute; reflexivity|]. split; vm_compute; discriminate. Qed.

Lemma invalidated_block_out_witness :
  exists ok st' s', InvalidateBlock sample_addr sample_ops sample_active (sample_hash 1) tt = Some (ok, st', s') /\
    (ok = true -> forall q, descends (cs_map st') q (sample_hash 1) -> forall i, chain_at (chainActive st') i <> Some q).
Proof.
  destruct (invalidated_block_out toy_crypto sample_addr sample_addr_inj sample_ops sample_ops_ok (fun _ => false) sample_active (sample_hash 1) _ tt
    sample_active_reachable (proj1 sample_second) (proj1 (proj2 sample_second)) (proj2 (proj2 sample_second))) as (ok & st' & s' & E & H).
  exists ok, st', s'. split; [exact E|]. intros Hok q Hq. exact (proj1 (proj2 (H Hok) q Hq)).
Defined.

(** A block that arrives while its predecessor, whose data is missing, is marked as failed does not
    wait for it: once the mark is taken away and the predecessor's data arrives, all data of its
    chain is there and nothing is marked, but it is not linked. *)
Definition reconsidered : option CChainState :=
  st ← runs toy_crypto sample_addr sample_ops (fun _ => false) tt empty_chain_state
    [CmdHeader (sample_header 0); CmdHeader (sample_header 1); CmdHeader (sample_header 2); CmdData (sample_block 0); CmdActivate;
     CmdInvalidate (sample_hash 1); CmdData (sample_block 2)];
  st ← ResetBlockFailureFlags sample_addr st (sample_hash 1);
  runs toy_crypto sample_addr sample_ops (fun _ => false) tt st [CmdData (sample_block 1); CmdActivate].
Example reconsidered_block_not_linked :
  match reconsidered with
  | Some st => forallb (fun e => negb (nTx (snd e) =? 0) && negb (failed (snd e))) (entries st) &&
      bool_decide ((nChainTx <$> cs_map st !! sample_hash 2) = Some 0) && bool_decide (Tip (chainActive st) = Some (sample_hash 1))
  | None => false
  end = true.
Proof. vm_compute. reflexivity. Qed.
