(* ===== verification/BlockFiles.v ===== *)
(** * Block files ([src/validation.cpp], [CBlockFileInfo] of [src/chain.h])

    Where blocks and undo data are written, and the deletion of old files on a node that prunes.
    The files themselves are not modelled, only the statistics that are kept of them; whether there
    is space on the disk is a parameter.

    Theorems: the places given to blocks never overlap, within files of bounded size; and pruning
    never takes the data of a block close to the tip. *)

From S2P Require Import Prelude Serialize ArithUint256 Script Interpreter Transaction Block Chain Activation.
From stdpp Require Import gmap sorting.
Open Scope Z_scope.

(** ** Definitions *)

Record CBlockFileInfo : Type := mk_CBlockFileInfo {
  nBlocks : Z;
  nSize : Z;
  nUndoSize : Z;
  nHeightFirst : Z;
  nHeightLast : Z;
  nTimeFirst : Z;
  nTimeLast : Z }.

Definition CBlockFileInfo_SetNull : CBlockFileInfo := mk_CBlockFileInfo 0 0 0 0 0 0 0.

(** [SerializationOp] *)
Definition CBlockFileInfo_Serialize (i : CBlockFileInfo) : bytes :=
  WriteVarInt 32 (nBlocks i) ++ WriteVarInt 32 (nSize i) ++ WriteVarInt 32 (nUndoSize i) ++
  WriteVarInt 32 (nHeightFirst i) ++ WriteVarInt 32 (nHeightLast i) ++ WriteVarInt 64 (nTimeFirst i) ++ WriteVarInt 64 (nTimeLast i).
Definition CBlockFileInfo_Unserialize : reader CBlockFileInfo :=
  nBlocks ← ReadVarInt 32; nSize ← ReadVarInt 32; nUndoSize ← ReadVarInt 32; nHeightFirst ← ReadVarInt 32; nHeightLast ← ReadVarInt 32;
  nTimeFirst ← ReadVarInt 64; nTimeLast ← ReadVarInt 64;
  mret (mk_CBlockFileInfo nBlocks nSize nUndoSize nHeightFirst nHeightLast nTimeFirst nTimeLast).

Definition AddBlock (i : CBlockFileInfo) (nHeightIn nTimeIn : Z) : CBlockFileInfo :=
  mk_CBlockFileInfo (u32 (nBlocks i + 1)) (nSize i) (nUndoSize i)
    (if (nBlocks i =? 0) || (nHeightIn <? nHeightFirst i) then nHeightIn else nHeightFirst i)
    (if nHeightLast i <? nHeightIn then nHeightIn else nHeightLast i)
    (if (nBlocks i =? 0) || (nTimeIn <? nTimeFirst i) then nTimeIn else nTimeFirst i)
    (if nTimeLast i <? nTimeIn then nTimeIn else nTimeLast i).
Definition set_nSize (i : CBlockFileInfo) (v : Z) : CBlockFileInfo :=
  mk_CBlockFileInfo (nBlocks i) v (nUndoSize i) (nHeightFirst i) (nHeightLast i) (nTimeFirst i) (nTimeLast i).
Definition set_nUndoSize (i : CBlockFileInfo) (v : Z) : CBlockFileInfo :=
  mk_CBlockFileInfo (nBlocks i) (nSize i) v (nHeightFirst i) (nHeightLast i) (nTimeFirst i) (nTimeLast i).

Definition MAX_BLOCKFILE_SIZE : Z := 0x8000000.
Definition BLOCKFILE_CHUNK_SIZE : Z := 0x1000000.
Definition UNDOFILE_CHUNK_SIZE : Z := 0x100000.
Definition MIN_BLOCKS_TO_KEEP : Z := 288.

(** The globals *)
Record FileState : Type := mk_FileState {
  vinfoBlockFile : list CBlockFileInfo;
  nLastBlockFile : Z;
  setDirtyFileInfo : gset Z;
  fCheckForPruning : bool }.

(** [if (vinfoBlockFile.size() <= nFile) vinfoBlockFile.resize(nFile + 1)] *)
Definition grow (v : list CBlockFileInfo) (nFile : nat) : list CBlockFileInfo :=
  v ++ replicate (S nFile - length v) CBlockFileInfo_SetNull.

(** [vinfoBlockFile[nFile] = f(vinfoBlockFile[nFile])]; [None]: an access out of range *)
Definition update_info (v : list CBlockFileInfo) (nFile : nat) (f : CBlockFileInfo -> CBlockFileInfo) : option (list CBlockFileInfo) :=
  i ← v !! nFile; Some (<[nFile := f i]> v).

Section Files.
(** [CheckDiskSpace], on the number of bytes asked for *)
Context (fPruneMode : bool) (CheckDiskSpace : Z -> bool).

(** [while (vinfoBlockFile[nFile].nSize + nAddSize >= MAX_BLOCKFILE_SIZE)] *)
Fixpoint find_file (fuel : nat) (v : list CBlockFileInfo) (nFile : nat) (nAddSize : Z) : option (list CBlockFileInfo * nat) :=
  i ← v !! nFile;
  if u32 (nSize i + nAddSize) <? MAX_BLOCKFILE_SIZE then Some (v, nFile)
  else match fuel with
  | O => None
  | S fuel => find_file fuel (grow v (S nFile)) (S nFile) nAddSize
  end.

Definition chunks (nBytes chunk : Z) : Z := u32 (nBytes + chunk - 1) / chunk.

(** Space for the chunks that are begun is asked for; the new value of [fCheckForPruning] *)
Definition allocate (nPos nNewSize chunk : Z) (check : bool) : bool * bool :=
  let nOldChunks := chunks nPos chunk in
  let nNewChunks := chunks nNewSize chunk in
  if nOldChunks <? nNewChunks
  then (CheckDiskSpace (u32 (nNewChunks * chunk - nPos)), if fPruneMode then true else check)
  else (true, check).

(** The value returned, the position and the state *)
Definition FindBlockPos (st : FileState) (pos : CDiskBlockPos) (nAddSize nHeight nTime : Z) (fKnown : bool)
  : option (bool * CDiskBlockPos * FileState) :=
  let nFile := Z.to_nat (if fKnown then fst pos else nLastBlockFile st) in
  let v := grow (vinfoBlockFile st) nFile in
  '(v, nFile) ← (if fKnown then Some (v, nFile) else find_file (length v) v nFile nAddSize);
  i ← v !! nFile;
  let pos := if fKnown then pos else (Z.of_nat nFile, nSize i) in
  let i := AddBlock i nHeight nTime in
  let i := set_nSize i (if fKnown then Z.max (u32 (snd pos + nAddSize)) (nSize i) else u32 (nSize i + nAddSize)) in
  let v := <[nFile := i]> v in
  let '(space, check) := if fKnown then (true, fCheckForPruning st) else allocate (snd pos) (nSize i) BLOCKFILE_CHUNK_SIZE (fCheckForPruning st) in
  Some (space, pos, mk_FileState v (Z.of_nat nFile) (if space then {[Z.of_nat nFile]} ∪ setDirtyFileInfo st else setDirtyFileInfo st) check).

Definition FindUndoPos (st : FileState) (nFile : Z) (nAddSize : Z) : option (bool * CDiskBlockPos * FileState) :=
  i ← vinfoBlockFile st !! Z.to_nat nFile;
  let pos := (nFile, nUndoSize i) in
  let nNewSize := u32 (nUndoSize i + nAddSize) in
  let v := <[Z.to_nat nFile := set_nUndoSize i nNewSize]> (vinfoBlockFile st) in
  let '(space, check) := allocate (snd pos) nNewSize UNDOFILE_CHUNK_SIZE (fCheckForPruning st) in
  Some (space, pos, mk_FileState v (nLastBlockFile st) ({[nFile]} ∪ setDirtyFileInfo st) check).

(** *** Pruning *)

Definition CalculateCurrentUsage (st : FileState) : Z :=
  foldl (fun retval file => u64 (retval + u32 (nSize file + nUndoSize file))) 0 (vinfoBlockFile st).

(** The entry of a block whose file is deleted *)
Definition prune_entry (b : CBlockIndex) : CBlockIndex :=
  set_data (set_nStatus b (Z.land (Z.land (nStatus b) (u32 (Z.lnot BLOCK_HAVE_DATA))) (u32 (Z.lnot BLOCK_HAVE_UNDO)))) (nTx b) 0 0 0.

(** One entry of the index; the pairs of [mapBlocksUnlinked] with it are erased. *)
Definition prune_block (fileNumber : Z) (st : CChainState) (e : ptr * CBlockIndex) : CChainState :=
  let '(p, b) := e in
  if nFile b =? fileNumber then
    let st := set_dirty (set_entry st p (prune_entry b)) p in
    set_unlinked st (filter (fun w => w <> (pprev b, p)) (mapBlocksUnlinked st))
  else st.

Definition PruneOneBlockFile (st : CChainState) (files : FileState) (fileNumber : Z) : option (CChainState * FileState) :=
  let st := foldl (prune_block fileNumber) st (map_to_list (cs_map st)) in
  v ← update_info (vinfoBlockFile files) (Z.to_nat fileNumber) (fun _ => CBlockFileInfo_SetNull);
  Some (st, mk_FileState v (nLastBlockFile files) ({[fileNumber]} ∪ setDirtyFileInfo files) (fCheckForPruning files)).

(** [for (int fileNumber = 0; fileNumber < nLastBlockFile; fileNumber++)], with [n] files to go *)
Fixpoint prune_files_manual (n : nat) (st : CChainState) (files : FileState) (fileNumber nLastBlockWeCanPrune : Z) (setFilesToPrune : list Z)
  : option (CChainState * FileState * list Z) :=
  match n with
  | O => Some (st, files, setFilesToPrune)
  | S n =>
      i ← vinfoBlockFile files !! Z.to_nat fileNumber;
      if (nSize i =? 0) || (nLastBlockWeCanPrune <? nHeightLast i)
      then prune_files_manual n st files (fileNumber + 1) nLastBlockWeCanPrune setFilesToPrune
      else
        '(st, files) ← PruneOneBlockFile st files fileNumber;
        prune_files_manual n st files (fileNumber + 1) nLastBlockWeCanPrune (setFilesToPrune ++ [fileNumber])
  end.

(** [None]: the assertion, or an access out of range *)
Definition FindFilesToPruneManual (st : CChainState) (files : FileState) (nManualPruneHeight : Z) : option (CChainState * FileState * list Z) :=
  if negb (fPruneMode && (0 <? nManualPruneHeight)) then None
  else match Tip (chainActive st) with
  | None => Some (st, files, [])
  | Some t =>
      b ← cs_map st !! t;
      let nLastBlockWeCanPrune := Z.min (u32 nManualPruneHeight) (u32 (nHeight b - MIN_BLOCKS_TO_KEEP)) in
      prune_files_manual (Z.to_nat (nLastBlockFile files)) st files 0 nLastBlockWeCanPrune []
  end.

Fixpoint prune_files (n : nat) (nPruneTarget nBuffer : Z) (st : CChainState) (files : FileState) (fileNumber nLastBlockWeCanPrune nCurrentUsage : Z)
    (setFilesToPrune : list Z) : option (CChainState * FileState * list Z) :=
  match n with
  | O => Some (st, files, setFilesToPrune)
  | S n =>
      i ← vinfoBlockFile files !! Z.to_nat fileNumber;
      let nBytesToPrune := u32 (nSize i + nUndoSize i) in
      if nSize i =? 0 then prune_files n nPruneTarget nBuffer st files (fileNumber + 1) nLastBlockWeCanPrune nCurrentUsage setFilesToPrune
      else if u64 (nCurrentUsage + nBuffer) <? nPruneTarget then Some (st, files, setFilesToPrune)
      else if nLastBlockWeCanPrune <? nHeightLast i
      then prune_files n nPruneTarget nBuffer st files (fileNumber + 1) nLastBlockWeCanPrune nCurrentUsage setFilesToPrune
      else
        '(st, files) ← PruneOneBlockFile st files fileNumber;
        prune_files n nPruneTarget nBuffer st files (fileNumber + 1) nLastBlockWeCanPrune (u64 (nCurrentUsage - nBytesToPrune)) (setFilesToPrune ++ [fileNumber])
  end.

Definition FindFilesToPrune (IsInitialBlockDownload : bool) (nPruneTarget : Z) (st : CChainState) (files : FileState) (nPruneAfterHeight : Z)
  : option (CChainState * FileState * list Z) :=
  match Tip (chainActive st) with
  | None => Some (st, files, [])
  | Some t =>
      if nPruneTarget =? 0 then Some (st, files, [])
      else
        b ← cs_map st !! t;
        if u64 (nHeight b) <=? nPruneAfterHeight then Some (st, files, [])
        else
          let nLastBlockWeCanPrune := u32 (nHeight b - MIN_BLOCKS_TO_KEEP) in
          let nCurrentUsage := CalculateCurrentUsage files in
          let nBuffer := BLOCKFILE_CHUNK_SIZE + UNDOFILE_CHUNK_SIZE in
          if nPruneTarget <=? u64 (nCurrentUsage + nBuffer) then
            let nBuffer := if IsInitialBlockDownload then u64 (nBuffer + nPruneTarget / 10) else nBuffer in
            prune_files (Z.to_nat (nLastBlockFile files)) nPruneTarget nBuffer st files 0 nLastBlockWeCanPrune nCurrentUsage []
          else Some (st, files, [])
  end.
End Files.

(** ** Theorems *)

Definition file_info_ok (i : CBlockFileInfo) : Prop :=
  in_u 32 (nBlocks i) /\ in_u 32 (nSize i) /\ in_u 32 (nUndoSize i) /\ in_u 32 (nHeightFirst i) /\ in_u 32 (nHeightLast i) /\ in_u 64 (nTimeFirst i) /\ in_u 64 (nTimeLast i).

#[export] Instance CBlockFileInfo_round : RoundTrip file_info_ok CBlockFileInfo_Serialize CBlockFileInfo_Unserialize.
Proof.
  intros i rest (H1 & H2 & H3 & H4 & H5 & H6 & H7). unfold CBlockFileInfo_Serialize, CBlockFileInfo_Unserialize. rewrite <- !app_assoc.
  assert (forall w, w = 32 \/ w = 64 -> RoundTrip (fun n => 0 <= n < 2 ^ w) (WriteVarInt w) (ReadVarInt w)) as HR by (intros w [-> | ->]; apply VarInt_round; lia).
  do 5 (rewrite (@reader_bind_round _ _ _ _ _ (HR 32 ltac:(auto))) by done). do 2 (rewrite (@reader_bind_round _ _ _ _ _ (HR 64 ltac:(auto))) by done). by destruct i.
Qed.

(** *** Where blocks are put *)

(** The file, the position and the size of a block *)
Abbreviation extent := (Z * Z * Z)%type.
Definition apart (x y : extent) : Prop :=
  let '(f, p, s) := x in let '(f', p', s') := y in f <> f' \/ p + s <= p' \/ p' + s' <= p.
Definition inside (v : list CBlockFileInfo) (x : extent) : Prop :=
  let '(f, p, s) := x in 0 <= f /\ 0 <= p /\ 0 < s /\ exists i, v !! Z.to_nat f = Some i /\ p + s <= nSize i.

Record files_ok (st : FileState) (l : list extent) : Prop := {
  fo_last : 0 <= nLastBlockFile st /\ (vinfoBlockFile st = [] /\ nLastBlockFile st = 0 \/ nLastBlockFile st < vsize (vinfoBlockFile st));
  fo_sizes : Forall (fun i => 0 <= nSize i < MAX_BLOCKFILE_SIZE) (vinfoBlockFile st);
  fo_inside : Forall (inside (vinfoBlockFile st)) l;
  fo_apart : ForallOrdPairs apart l }.

Lemma sizes_grow v n : Forall (fun i => 0 <= nSize i < MAX_BLOCKFILE_SIZE) v -> Forall (fun i => 0 <= nSize i < MAX_BLOCKFILE_SIZE) (grow v n).
Proof. intros H. apply Forall_app. split; [done|]. apply Forall_replicate. by cbn. Qed.
Lemma grow_length v n : length (grow v n) = Nat.max (length v) (S n).
Proof. unfold grow. rewrite length_app, length_replicate. lia. Qed.
Lemma grow_lookup v n k i : v !! k = Some i -> grow v n !! k = Some i.
Proof. apply lookup_app_l_Some. Qed.
Lemma grow_new v n k i : grow v n !! k = Some i -> v !! k = Some i \/ i = CBlockFileInfo_SetNull.
Proof. unfold grow. rewrite lookup_app_Some. intros [H|[_ H]]; [by left|]. apply lookup_replicate in H as [-> _]. by right. Qed.
Lemma inside_grow v n x : inside v x -> inside (grow v n) x.
Proof. destruct x as [[f p] s]. intros (H1 & H2 & H3 & i & Hi & H4). split; [done|]. split; [done|]. split; [done|]. exists i. split; [by apply grow_lookup | done]. Qed.

Lemma find_file_ok nAddSize fuel : forall v nFile, 0 < nAddSize < MAX_BLOCKFILE_SIZE -> Forall (fun i => 0 <= nSize i < MAX_BLOCKFILE_SIZE) v ->
  (nFile < length v)%nat -> (length v - nFile <= fuel)%nat ->
  exists v' n i, find_file fuel v nFile nAddSize = Some (v', n) /\ Forall (fun i => 0 <= nSize i < MAX_BLOCKFILE_SIZE) v' /\ (nFile <= n)%nat /\
    v' !! n = Some i /\ nSize i + nAddSize < MAX_BLOCKFILE_SIZE /\ forall x, inside v x -> inside v' x.
Proof.
  induction fuel as [|fuel IH]; intros v nFile Ha Hv Hn Hf; [lia|]. destruct (lookup_lt_is_Some_2 v nFile Hn) as [i Hi].
  pose proof (Forall_lookup_1 _ _ _ _ Hv Hi) as Hs. cbn in Hs. cbn [find_file]. rewrite Hi. cbn [mbind option_bind].
  rewrite u32_id by (unfold MAX_BLOCKFILE_SIZE in *; lia). destruct (Z.ltb_spec (nSize i + nAddSize) MAX_BLOCKFILE_SIZE).
  - exists v, nFile, i. by split_and!.
  - destruct (decide (S nFile < length v)%nat) as [Hlt|Hge].
    + assert (grow v (S nFile) = v) as Eg by (unfold grow; replace (S (S nFile) - length v)%nat with 0%nat by lia; apply app_nil_r). rewrite Eg.
      destruct (IH v (S nFile) Ha Hv Hlt ltac:(lia)) as (v' & n & i' & E & H1 & H2 & H3 & H4 & H5). exists v', n, i'. split_and!; try done; lia.
    + set (v1 := grow v (S nFile)). assert (length v1 = S (S nFile)) as El by (unfold v1; rewrite grow_length; lia).
      assert (v1 !! S nFile = Some CBlockFileInfo_SetNull) as E1.
      { unfold v1, grow. rewrite lookup_app_r by lia. apply lookup_replicate. split; [done | lia]. }
      exists v1, (S nFile), CBlockFileInfo_SetNull. split.
      * destruct fuel; cbn [find_file]; rewrite E1; cbn [mbind option_bind nSize CBlockFileInfo_SetNull];
          rewrite u32_id by (unfold MAX_BLOCKFILE_SIZE in *; lia); destruct (Z.ltb_spec (0 + nAddSize) MAX_BLOCKFILE_SIZE); done || lia.
      * split; [by apply sizes_grow|]. split; [lia|]. split; [done|]. split; [cbn; lia|]. intros x. apply inside_grow.
Qed.

Lemma inside_insert v n i i' x : v !! n = Some i -> nSize i <= nSize i' -> inside v x -> inside (<[n := i']> v) x.
Proof.
  destruct x as [[f p] s]. intros Hi Hs (H1 & H2 & H3 & j & Hj & H4). split; [done|]. split; [done|]. split; [done|].
  destruct (decide (Z.to_nat f = n)) as [E|Hne].
  - rewrite E in *. assert (j = i) as -> by congruence. exists i'. rewrite list_lookup_insert_eq by (by apply lookup_lt_Some in Hi). split; [done | lia].
  - exists j. by rewrite list_lookup_insert_ne.
Qed.

Section Places.
Context (fPruneMode : bool) (CheckDiskSpace : Z -> bool).

Lemma FindBlockPos_ok st l pos nAddSize h t : files_ok st l -> 0 < nAddSize < MAX_BLOCKFILE_SIZE ->
  exists ok pos' st', FindBlockPos fPruneMode CheckDiskSpace st pos nAddSize h t false = Some (ok, pos', st') /\ files_ok st' ((fst pos', snd pos', nAddSize) :: l) /\
    0 <= fst pos' /\ 0 <= snd pos' /\ snd pos' + nAddSize < MAX_BLOCKFILE_SIZE.
Proof.
  intros [[F0 F1] F2 F3 F4] Ha. unfold FindBlockPos. set (n0 := Z.to_nat (nLastBlockFile st)). set (v0 := grow (vinfoBlockFile st) n0).
  destruct (find_file_ok nAddSize (length v0) v0 n0 Ha) as (v & n & i & -> & H1 & H2 & H3 & H4 & H5); [by apply sizes_grow | unfold v0; rewrite grow_length; lia | lia|].
  cbn [mbind option_bind]. rewrite H3. cbn [mbind option_bind fst snd]. pose proof (Forall_lookup_1 _ _ _ _ H1 H3) as Hs. cbn in Hs.
  pose proof (lookup_lt_Some _ _ _ H3) as Hlt.
  change (nSize (AddBlock i h t)) with (nSize i). set (i1 := set_nSize (AddBlock i h t) (u32 (nSize i + nAddSize))). assert (nSize i1 = nSize i + nAddSize) as Es.
  { unfold i1. cbn. rewrite u32_id; [done | unfold MAX_BLOCKFILE_SIZE in *; lia]. }
  destruct (allocate _ _ _ _ _ _) as [space check]. eexists space, (Z.of_nat n, nSize i), _. split; [done|]. cbn [fst snd]. split; [|split; [lia|]; split; [lia | lia]].
  assert (forall x, inside (vinfoBlockFile st) x -> inside (<[n := i1]> v) x) as Hin.
  { intros x Hx. apply (inside_insert v n i i1 x H3); [lia|]. by apply H5, inside_grow. }
  split; cbn [vinfoBlockFile nLastBlockFile].
  - split; [lia|]. right. unfold vsize. rewrite length_insert. lia.
  - apply Forall_insert; [done|]. rewrite Es. lia.
  - constructor; [|by eapply Forall_impl]. split; [lia|]. split; [lia|]. split; [lia|]. exists i1. rewrite Nat2Z.id, list_lookup_insert_eq by done. split; [done | lia].
  - constructor; [|done]. eapply Forall_impl; [exact F3|]. intros [[f p] s] (G1 & G2 & G3 & j & Hj & G4). cbn.
    destruct (Z.eq_dec f (Z.of_nat n)) as [->|]; [|left; congruence]. right. right. rewrite Nat2Z.id in Hj.
    assert (inside v0 (Z.of_nat n, p, s)) as Hv0 by (apply inside_grow; split; [done|]; split; [done|]; split; [done|]; exists j; by rewrite Nat2Z.id).
    apply H5 in Hv0 as (_ & _ & _ & j' & Hj' & G5). rewrite Nat2Z.id, H3 in Hj'. injection Hj' as <-. lia.
Qed.

(** Undo data, and files that are deleted, change the sizes of no other block file. *)
Lemma FindUndoPos_ok st l f nAddSize : files_ok st l -> 0 <= f -> forall ok pos st', FindUndoPos fPruneMode CheckDiskSpace st f nAddSize = Some (ok, pos, st') -> files_ok st' l.
Proof.
  intros [[F0 F1] F2 F3 F4] Hf ok pos st'. unfold FindUndoPos. destruct (vinfoBlockFile st !! Z.to_nat f) as [i|] eqn:Hi; [|done]. cbn [mbind option_bind].
  destruct (allocate _ _ _ _ _ _) as [space check]. intros [= <- <- <-]. split; cbn [vinfoBlockFile nLastBlockFile].
  - split; [done|]. destruct F1 as [[E _]|F1]; [by rewrite E in Hi|]. right. unfold vsize in *. by rewrite length_insert.
  - apply Forall_insert; [done|]. by apply (Forall_lookup_1 _ _ _ _ F2 Hi).
  - eapply Forall_impl; [exact F3|]. intros x. by apply (inside_insert _ _ i).
  - done.
Qed.

Lemma ordpairs_filter {A} (R : A -> A -> Prop) (P : A -> Prop) `{!forall x, Decision (P x)} l : ForallOrdPairs R l -> ForallOrdPairs R (filter P l).
Proof.
  induction 1 as [|x l Hx _ IH]; [constructor|]. rewrite filter_cons. destruct (decide (P x)); [|done]. constructor; [|done].
  apply Forall_forall. intros y Hy. apply list_elem_of_filter in Hy as [_ Hy]. rewrite Forall_forall in Hx. by apply Hx.
Qed.

Definition extent_file (x : extent) : Z := fst (fst x).

Lemma PruneOneBlockFile_files_ok cs st l f cs' st' : files_ok st l -> 0 <= f -> PruneOneBlockFile cs st f = Some (cs', st') ->
  files_ok st' (filter (fun x => extent_file x <> f) l).
Proof.
  intros [[F0 F1] F2 F3 F4] Hf. unfold PruneOneBlockFile, update_info. destruct (vinfoBlockFile st !! Z.to_nat f) as [i|] eqn:Hi; [|done]. cbn [mbind option_bind].
  intros [= _ <-]. split; cbn [vinfoBlockFile nLastBlockFile].
  - split; [done|]. destruct F1 as [[E _]|F1]; [by rewrite E in Hi|]. right. unfold vsize in *. by rewrite length_insert.
  - apply Forall_insert; [done|]. by cbn.
  - apply Forall_forall. intros x Hx. apply list_elem_of_filter in Hx as [Hne Hx]. rewrite Forall_forall in F3. specialize (F3 x Hx).
    destruct x as [[g p] s]. cbn in Hne. destruct F3 as (H1 & H2 & H3 & j & Hj & H4). split; [done|]. split; [done|]. split; [done|]. exists j.
    rewrite list_lookup_insert_ne by lia. done.
  - by apply ordpairs_filter.
Qed.

(** The states of the files, with the places of the blocks in them *)
Inductive files_reachable : FileState -> list extent -> Prop :=
| files_start : files_reachable (mk_FileState [] 0 ∅ false) []
| files_block st l pos nAddSize h t ok pos' st' : files_reachable st l -> 0 < nAddSize < MAX_BLOCKFILE_SIZE ->
    FindBlockPos fPruneMode CheckDiskSpace st pos nAddSize h t false = Some (ok, pos', st') -> files_reachable st' ((fst pos', snd pos', nAddSize) :: l)
| files_undo st l f nAddSize ok pos st' : files_reachable st l -> 0 <= f -> FindUndoPos fPruneMode CheckDiskSpace st f nAddSize = Some (ok, pos, st') -> files_reachable st' l
| files_prune st l cs f cs' st' : files_reachable st l -> 0 <= f -> PruneOneBlockFile cs st f = Some (cs', st') ->
    files_reachable st' (filter (fun x => extent_file x <> f) l).

Lemma files_reachable_ok st l : files_reachable st l -> files_ok st l.
Proof.
  induction 1 as [|st l pos n h t ok pos' st' _ IH Hn E|st l f n ok pos st' _ IH Hf E|st l cs f cs' st' _ IH Hf E].
  - split; [split; [done | by left] | constructor | constructor | constructor].
  - destruct (FindBlockPos_ok st l pos n h t IH Hn) as (ok1 & pos1 & st1 & E1 & H & _). rewrite E in E1. by injection E1 as <- <- <-.
  - by apply (FindUndoPos_ok st l f n IH Hf ok pos).
  - by apply (PruneOneBlockFile_files_ok cs st l f cs' st').
Qed.

(** (C24) Places of blocks.  Whatever blocks, undo data and deletions of files came before, a block
    that is smaller than a file gets a place: the search for a file ends, the place lies within
    the largest size of a file, and it does not overlap the place of any block that is still
    stored. *)
Theorem disk_positions_disjoint st l pos nAddSize h t : files_reachable st l -> 0 < nAddSize < MAX_BLOCKFILE_SIZE ->
  exists ok pos' st', FindBlockPos fPruneMode CheckDiskSpace st pos nAddSize h t false = Some (ok, pos', st') /\
    0 <= fst pos' /\ 0 <= snd pos' /\ snd pos' + nAddSize < MAX_BLOCKFILE_SIZE /\ Forall (apart (fst pos', snd pos', nAddSize)) l.
Proof.
  intros Hst Hn. destruct (FindBlockPos_ok st l pos nAddSize h t (files_reachable_ok st l Hst) Hn) as (ok & pos' & st' & E & [_ _ _ H] & H1 & H2 & H3).
  exists ok, pos', st'. inversion H. by split_and!.
Qed.
End Places.

Lemma disk_positions_disjoint_witness : exists ok pos' st',
  FindBlockPos false (fun _ => true) (mk_FileState [] 0 ∅ false) (0, 0) 1000 1 5 false = Some (ok, pos', st') /\ snd pos' + 1000 < MAX_BLOCKFILE_SIZE.
Proof.
  destruct (disk_positions_disjoint false (fun _ => true) (mk_FileState [] 0 ∅ false) [] (0, 0) 1000 1 5) as (ok & pos' & st' & E & _ & _ & H & _);
    [apply files_start | unfold MAX_BLOCKFILE_SIZE; lia|]. exists ok, pos', st'. split; [exact E | exact H].
Defined.

(** *** Pruning *)

(** Every block whose data is stored is counted in the statistics of its file. *)
Definition data_in_files (m : BlockMap) (files : FileState) : Prop :=
  forall p b, m !! p = Some b -> has b BLOCK_HAVE_DATA = true -> exists i, vinfoBlockFile files !! Z.to_nat (nFile b) = Some i /\ nHeight b <= nHeightLast i /\ 0 <= nFile b.

Definition pruned (f : Z) (b : CBlockIndex) : CBlockIndex := if nFile b =? f then prune_entry b else b.

Lemma prune_fold f l : forall st, NoDup (l.*1) -> (forall p b, (p, b) ∈ l -> cs_map st !! p = Some b) ->
  let st' := foldl (prune_block f) st l in
  chainActive st' = chainActive st /\ setBlockIndexCandidates st' = setBlockIndexCandidates st /\
  forall p, cs_map st' !! p = if decide (p ∈ l.*1) then pruned f <$> cs_map st !! p else cs_map st !! p.
Proof.
  induction l as [|[q c] l IH]; intros st Hnd Hl; cbn [foldl].
  - split; [done|]. split; [done|]. intros p. by rewrite decide_False by apply not_elem_of_nil.
  - cbn [fmap list_fmap fst] in Hnd. apply NoDup_cons in Hnd as [Hq Hnd]. set (st1 := prune_block f st (q, c)).
    assert (cs_map st !! q = Some c) as Hc by (apply Hl; by left).
    assert (cs_map st1 = <[q := pruned f c]> (cs_map st) /\ chainActive st1 = chainActive st /\ setBlockIndexCandidates st1 = setBlockIndexCandidates st) as (M1 & A1 & C1).
    { unfold st1, prune_block, pruned. destruct (nFile c =? f); [done|]. by rewrite insert_id. }
    destruct (IH st1 Hnd) as (A2 & C2 & H2).
    { intros p b Hp. rewrite M1, lookup_insert_ne; [apply Hl; by right|]. intros ->. apply Hq. apply list_elem_of_fmap. by exists (p, b). }
    cbn zeta in H2. split; [congruence|]. split; [congruence|]. intros p. rewrite H2, M1. cbn [fmap list_fmap fst]. destruct (decide (p = q)) as [->|Hne].
    + rewrite (decide_True (P := q ∈ q :: l.*1)) by (by left). rewrite decide_False by done. by rewrite lookup_insert_eq, Hc.
    + rewrite lookup_insert_ne by done. destruct (decide (p ∈ l.*1)); [rewrite decide_True by (by right) | rewrite decide_False by (by rewrite elem_of_cons; intros [|])]; done.
Qed.

Lemma PruneOneBlockFile_ok cs files f cs' files' : PruneOneBlockFile cs files f = Some (cs', files') ->
  cs_map cs' = pruned f <$> cs_map cs /\ chainActive cs' = chainActive cs /\ setBlockIndexCandidates cs' = setBlockIndexCandidates cs /\
  nLastBlockFile files' = nLastBlockFile files /\ vinfoBlockFile files' = <[Z.to_nat f := CBlockFileInfo_SetNull]> (vinfoBlockFile files).
Proof.
  unfold PruneOneBlockFile, update_info. destruct (vinfoBlockFile files !! Z.to_nat f); [|done]. cbn [mbind option_bind]. intros [= <- <-].
  destruct (prune_fold f (map_to_list (cs_map cs)) cs) as (A & B & H); [apply NoDup_fst_map_to_list | intros p b; apply elem_of_map_to_list|]. cbn zeta in H.
  split; [|by split_and!]. apply map_eq. intros p. rewrite H, lookup_fmap. destruct (decide _) as [|Hn]; [done|]. destruct (cs_map cs !! p) as [b|] eqn:Hp; [|done].
  destruct Hn. apply list_elem_of_fmap. exists (p, b). split; [done|]. by apply elem_of_map_to_list.
Qed.

Lemma prune_entry_data b : has (prune_entry b) BLOCK_HAVE_DATA = false.
Proof.
  unfold has, prune_entry. set (s := Z.land (Z.land (nStatus b) _) _). assert (forall x, nStatus (set_data (set_nStatus b s) x 0 0 0) = s) as -> by (by destruct b).
  unfold s. rewrite <- !Z.land_assoc. change (Z.land (u32 (Z.lnot BLOCK_HAVE_DATA)) (Z.land (u32 (Z.lnot BLOCK_HAVE_UNDO)) BLOCK_HAVE_DATA)) with 0. by rewrite Z.land_0_r.
Qed.

(** What pruning up to a height leaves *)
Record prune_safe (limit : Z) (cs : CChainState) (done : list Z) (cs' : CChainState) (files' : FileState) (done' : list Z) : Prop := {
  ps_keep : forall p b, cs_map cs !! p = Some b -> has b BLOCK_HAVE_DATA = true -> limit < nHeight b -> cs_map cs' !! p = Some b;
  ps_files : data_in_files (cs_map cs') files';
  ps_gone : (forall p b, cs_map cs !! p = Some b -> has b BLOCK_HAVE_DATA = true -> nFile b ∉ done) ->
    forall p b, cs_map cs' !! p = Some b -> has b BLOCK_HAVE_DATA = true -> nFile b ∉ done' }.

Lemma prune_one_safe limit cs files done f i cs' files' : data_in_files (cs_map cs) files -> vinfoBlockFile files !! Z.to_nat f = Some i -> 0 <= f ->
  nHeightLast i <= limit -> PruneOneBlockFile cs files f = Some (cs', files') -> prune_safe limit cs done cs' files' (done ++ [f]).
Proof.
  intros Hd Hi Hf Hl (M & _ & _ & _ & V)%PruneOneBlockFile_ok. split.
  - intros p b Hp Hb Hh. rewrite M, lookup_fmap, Hp. cbn. unfold pruned. destruct (Z.eqb_spec (nFile b) f) as [E|]; [|done].
    destruct (Hd p b Hp Hb) as (j & Hj & Hjh & _). rewrite E, Hi in Hj. injection Hj as <-. lia.
  - intros p b Hp Hb. rewrite M, lookup_fmap in Hp. destruct (cs_map cs !! p) as [c|] eqn:Hc; [|done]. cbn in Hp. injection Hp as <-. unfold pruned in *.
    destruct (Z.eqb_spec (nFile c) f) as [E|E]; [by rewrite prune_entry_data in Hb|]. destruct (Hd p c Hc Hb) as (j & Hj & Hjh & Hn).
    exists j. rewrite V, list_lookup_insert_ne by lia. done.
  - intros Hg p b Hp Hb. rewrite M, lookup_fmap in Hp. destruct (cs_map cs !! p) as [c|] eqn:Hc; [|done]. cbn in Hp. injection Hp as <-. unfold pruned in *.
    destruct (Z.eqb_spec (nFile c) f) as [E|E]; [by rewrite prune_entry_data in Hb|]. specialize (Hg p c Hc Hb). rewrite elem_of_app, list_elem_of_singleton. tauto.
Qed.

Lemma prune_safe_refl limit cs files done : data_in_files (cs_map cs) files -> prune_safe limit cs done cs files done.
Proof. intros Hd. by split. Qed.
Lemma prune_safe_trans limit cs done cs1 files1 done1 cs2 files2 done2 : prune_safe limit cs done cs1 files1 done1 -> prune_safe limit cs1 done1 cs2 files2 done2 ->
  prune_safe limit cs done cs2 files2 done2.
Proof. intros [A1 A2 A3] [B1 B2 B3]. split; [intros p b Hp Hb Hh; by apply (B1 p b (A1 p b Hp Hb Hh)) | exact B2 | intros Hg; exact (B3 (A3 Hg))]. Qed.

Lemma info_at files f n : nLastBlockFile files <= vsize (vinfoBlockFile files) -> f + Z.of_nat (S n) <= nLastBlockFile files -> 0 <= f ->
  exists i, vinfoBlockFile files !! Z.to_nat f = Some i.
Proof. intros H1 H2 H3. apply lookup_lt_is_Some_2. unfold vsize in H1. lia. Qed.

Lemma prune_one_total cs files f i : vinfoBlockFile files !! Z.to_nat f = Some i -> exists cs' files', PruneOneBlockFile cs files f = Some (cs', files') /\
  nLastBlockFile files' = nLastBlockFile files /\ vsize (vinfoBlockFile files') = vsize (vinfoBlockFile files).
Proof.
  intros Hi. destruct (PruneOneBlockFile cs files f) as [[cs' files']|] eqn:E.
  - exists cs', files'. destruct (PruneOneBlockFile_ok cs files f cs' files' E) as (_ & _ & _ & H1 & H2). split; [done|]. split; [done|]. rewrite H2. unfold vsize. by rewrite length_insert.
  - unfold PruneOneBlockFile, update_info in E. by rewrite Hi in E.
Qed.

Lemma prune_files_manual_ok limit n : forall cs files f done, data_in_files (cs_map cs) files -> nLastBlockFile files <= vsize (vinfoBlockFile files) -> 0 <= f ->
  f + Z.of_nat n <= nLastBlockFile files ->
  exists cs' files' done', prune_files_manual n cs files f limit done = Some (cs', files', done') /\ prune_safe limit cs done cs' files' done'.
Proof.
  induction n as [|n IH]; intros cs files f done Hd Hlen Hf Hn; cbn [prune_files_manual]; [exists cs, files, done; split; [reflexivity | by apply prune_safe_refl]|].
  destruct (info_at files f n Hlen Hn Hf) as [i Hi]. rewrite Hi. cbn [mbind option_bind]. destruct (nSize i =? 0); cbn [orb]; [apply IH; try (by auto); lia|].
  destruct (Z.ltb_spec limit (nHeightLast i)); [apply IH; try (by auto); lia|].
  destruct (prune_one_total cs files f i Hi) as (cs1 & files1 & E & E1 & E2). rewrite E. cbn [mbind option_bind].
  pose proof (prune_one_safe limit cs files done f i cs1 files1 Hd Hi Hf ltac:(lia) E) as S1.
  destruct (IH cs1 files1 (f + 1) (done ++ [f])) as (cs' & files' & done' & -> & S2); [apply S1 | lia | lia | lia|].
  exists cs', files', done'. split; [reflexivity | by eapply prune_safe_trans].
Qed.

Lemma prune_files_ok limit target buffer n : forall cs files f usage done, data_in_files (cs_map cs) files -> nLastBlockFile files <= vsize (vinfoBlockFile files) -> 0 <= f ->
  f + Z.of_nat n <= nLastBlockFile files ->
  exists cs' files' done', prune_files n target buffer cs files f limit usage done = Some (cs', files', done') /\ prune_safe limit cs done cs' files' done'.
Proof.
  induction n as [|n IH]; intros cs files f usage done Hd Hlen Hf Hn; cbn [prune_files]; [exists cs, files, done; split; [reflexivity | by apply prune_safe_refl]|].
  destruct (info_at files f n Hlen Hn Hf) as [i Hi]. rewrite Hi. cbn [mbind option_bind]. destruct (nSize i =? 0); [apply IH; try (by auto); lia|].
  destruct (u64 (usage + buffer) <? target); [exists cs, files, done; split; [reflexivity | by apply prune_safe_refl]|].
  destruct (Z.ltb_spec limit (nHeightLast i)); [apply IH; try (by auto); lia|].
  destruct (prune_one_total cs files f i Hi) as (cs1 & files1 & E & E1 & E2). rewrite E. cbn [mbind option_bind].
  pose proof (prune_one_safe limit cs files done f i cs1 files1 Hd Hi Hf ltac:(lia) E) as S1.
  destruct (IH cs1 files1 (f + 1) (u64 (usage - u32 (nSize i + nUndoSize i))) (done ++ [f])) as (cs' & files' & done' & -> & S2); [apply S1 | lia | lia | lia|].
  exists cs', files', done'. split; [reflexivity | by eapply prune_safe_trans].
Qed.

(** (C25) Pruning.  On a chain of at least 288 blocks, pruning by size and by height return, no
    block less than 288 below the tip loses its data, and afterwards no entry of the index says
    that its data is in a deleted file. *)
Theorem pruning_keeps_recent cs files ibd target after height t b :
  data_in_files (cs_map cs) files -> 0 <= nLastBlockFile files <= vsize (vinfoBlockFile files) ->
  Tip (chainActive cs) = Some t -> cs_map cs !! t = Some b -> MIN_BLOCKS_TO_KEEP <= nHeight b < 2 ^ 31 -> 0 < height ->
  let safe r := exists cs' files' deleted, r = Some (cs', files', deleted) /\
    (forall p e, cs_map cs !! p = Some e -> has e BLOCK_HAVE_DATA = true -> nHeight b - MIN_BLOCKS_TO_KEEP < nHeight e -> cs_map cs' !! p = Some e) /\
    (forall p e, cs_map cs' !! p = Some e -> has e BLOCK_HAVE_DATA = true -> nFile e ∉ deleted) in
  safe (FindFilesToPrune ibd target cs files after) /\ safe (FindFilesToPruneManual true cs files height).
Proof.
  intros Hd Hlast Ht Hb Hh Hpos safe. unfold MIN_BLOCKS_TO_KEEP in *.
  assert (forall limit cs' files' done, limit <= nHeight b - 288 -> prune_safe limit cs [] cs' files' done -> safe (Some (cs', files', done))) as Hsafe.
  { intros limit cs' files' done Hl [P1 P2 P3]. exists cs', files', done. split; [reflexivity|]. split.
    - intros p e Hp He Hhe. apply (P1 p e Hp He). lia.
    - apply P3. intros p e _ _. apply not_elem_of_nil. }
  assert (u32 (nHeight b - 288) = nHeight b - 288) as Eu by (apply u32_id; lia).
  pose proof (Hsafe (nHeight b - 288) cs files [] ltac:(lia) (prune_safe_refl _ _ _ _ Hd)) as Hnone. split.
  - unfold FindFilesToPrune. rewrite Ht, Hb. cbn [mbind option_bind]. destruct (target =? 0); [done|]. destruct (_ <=? after); [done|].
    unfold MIN_BLOCKS_TO_KEEP. rewrite Eu. destruct (target <=? _); [|done].
    destruct (prune_files_ok (nHeight b - 288) target (if ibd then u64 (BLOCKFILE_CHUNK_SIZE + UNDOFILE_CHUNK_SIZE + target / 10) else BLOCKFILE_CHUNK_SIZE + UNDOFILE_CHUNK_SIZE)
      (Z.to_nat (nLastBlockFile files)) cs files 0 (CalculateCurrentUsage files) [] Hd) as (cs' & files' & done' & E & Hs); [lia | lia | lia|].
    rewrite E. by apply (Hsafe (nHeight b - 288)).
  - unfold FindFilesToPruneManual. destruct (Z.ltb_spec 0 height); [|lia]. cbn [andb negb]. rewrite Ht, Hb. cbn [mbind option_bind]. unfold MIN_BLOCKS_TO_KEEP. rewrite Eu.
    destruct (prune_files_manual_ok (Z.min (u32 height) (nHeight b - 288)) (Z.to_nat (nLastBlockFile files)) cs files 0 [] Hd) as (cs' & files' & done' & E & Hs); [lia | lia | lia|].
    rewrite E. apply (Hsafe (Z.min (u32 height) (nHeight b - 288))); [lia | done].
Qed.

(** An old block in the first file, and the tip in the second *)
Definition stored_block (height file : Z) : CBlockIndex :=
  set_nStatus (set_data (set_pprev_nHeight CBlockIndex_SetNull None height) 1 file 0 0) BLOCK_HAVE_DATA.
Definition stored_chain : CChainState :=
  mk_CChainState (mk_ChainState (<[[1] := stored_block 5 0]> (<[[2] := stored_block 300 1]> ∅)) ∅ None ∅) [Some [2]] ∅ [] ∅ None 1 (-1) (of_u64 0).
Definition stored_files : FileState :=
  mk_FileState [mk_CBlockFileInfo 1 100 0 5 5 0 0; mk_CBlockFileInfo 1 50 0 300 300 0 0] 1 ∅ false.

Lemma stored_data : data_in_files (cs_map stored_chain) stored_files.
Proof.
  intros p b Hp _. change (cs_map stored_chain) with (<[[1] := stored_block 5 0]> (<[[2] := stored_block 300 1]> (∅ : BlockMap))) in Hp.
  apply lookup_insert_Some in Hp as [[<- <-]|[_ Hp]]; [eexists; split; [reflexivity|]; cbn; lia|].
  apply lookup_insert_Some in Hp as [[<- <-]|[_ Hp]]; [eexists; split; [reflexivity|]; cbn; lia|]. by rewrite lookup_empty in Hp.
Qed.

Lemma pruning_keeps_recent_witness :
  (exists cs' files' deleted, FindFilesToPruneManual true stored_chain stored_files 10 = Some (cs', files', deleted) /\
    cs_map cs' !! [2] = Some (stored_block 300 1)) /\
  snd <$> FindFilesToPruneManual true stored_chain stored_files 10 = Some [0].
Proof.
  split; [|vm_compute; reflexivity].
  destruct (pruning_keeps_recent stored_chain stored_files false 0 0 10 [2] (stored_block 300 1) stored_data) as [_ (cs' & files' & deleted & E & H & _)];
    [split; vm_compute; discriminate | reflexivity | reflexivity | split; [vm_compute; discriminate | vm_compute; reflexivity] | lia|].
  exists cs', files', deleted. split; [exact E|]. apply H; [reflexivity | reflexivity | unfold MIN_BLOCKS_TO_KEEP; cbn; lia].
Defined.
