(* ===== verification/DGP.v ===== *)
(** * Governed parameters ([src/xax/xaxDGP.cpp], [src/xax/xaxDGP.h], [CallContract] of
      [src/validation.cpp])

    The block size, the gas price, the block gas limit and the gas schedule are read from
    governance contracts: one contract keeps the list of the contracts that hold a value, each
    with the height from which it counts, and the value is read from the storage of the one that
    counts at a height, or by calling it.

    The storage of an account, the hash of the virtual machine and what a call returns are
    parameters.  Dereferencing what is not there is an error value, and so is a chain of calls
    that is deeper than a given bound. *)

From Stdlib Require Import String.
From stdpp Require Import gmap sorting.
From S2P Require Import Prelude Serialize ScriptNum Script Interpreter Standard Transaction Block Chain Condensing Contract.
Open Scope Z_scope.

Abbreviation length := Datatypes.length (only parsing).

(** ** Definitions *)

(** *** [EVMSchedule] *)

Record EVMSchedule : Type := mk_EVMSchedule {
  exceptionalFailedCodeDeposit : bool; haveDelegateCall : bool; eip150Mode : bool; eip158Mode : bool;
  tierStepGas : list Z;
  expGas : Z; expByteGas : Z; sha3Gas : Z; sha3WordGas : Z; sloadGas : Z; sstoreSetGas : Z; sstoreResetGas : Z;
  sstoreRefundGas : Z; jumpdestGas : Z; logGas : Z; logDataGas : Z; logTopicGas : Z; createGas : Z; callGas : Z;
  callStipend : Z; callValueTransferGas : Z; callNewAccountGas : Z; suicideRefundGas : Z; memoryGas : Z;
  quadCoeffDiv : Z; createDataGas : Z; txGas : Z; txCreateGas : Z; txDataZeroGas : Z; txDataNonZeroGas : Z;
  copyGas : Z; extcodesizeGas : Z; extcodecopyGas : Z; balanceGas : Z; suicideGas : Z; maxCodeSize : Z }.

Definition HomesteadSchedule : EVMSchedule :=
  mk_EVMSchedule true true false false [0; 2; 3; 5; 8; 10; 20; 0]
    10 10 30 6 50 20000 5000 15000 1 375 8 375 32000 40 2300 9000 25000 24000 3 512 200 21000 53000 4 68 3
    20 20 20 0 UINT32_MAX.

Definition EIP150Schedule : EVMSchedule :=
  let s := HomesteadSchedule in
  mk_EVMSchedule (exceptionalFailedCodeDeposit s) (haveDelegateCall s) true (eip158Mode s) (tierStepGas s)
    (expGas s) (expByteGas s) (sha3Gas s) (sha3WordGas s) 200 (sstoreSetGas s) (sstoreResetGas s)
    (sstoreRefundGas s) (jumpdestGas s) (logGas s) (logDataGas s) (logTopicGas s) (createGas s) 700
    (callStipend s) (callValueTransferGas s) (callNewAccountGas s) (suicideRefundGas s) (memoryGas s)
    (quadCoeffDiv s) (createDataGas s) (txGas s) (txCreateGas s) (txDataZeroGas s) (txDataNonZeroGas s)
    (copyGas s) 700 700 400 5000 24576.

Definition EIP158Schedule : EVMSchedule :=
  let s := EIP150Schedule in
  mk_EVMSchedule (exceptionalFailedCodeDeposit s) (haveDelegateCall s) (eip150Mode s) true (tierStepGas s)
    (expGas s) 50 (sha3Gas s) (sha3WordGas s) (sloadGas s) (sstoreSetGas s) (sstoreResetGas s)
    (sstoreRefundGas s) (jumpdestGas s) (logGas s) (logDataGas s) (logTopicGas s) (createGas s) (callGas s)
    (callStipend s) (callValueTransferGas s) (callNewAccountGas s) (suicideRefundGas s) (memoryGas s)
    (quadCoeffDiv s) (createDataGas s) (txGas s) (txCreateGas s) (txDataZeroGas s) (txDataNonZeroGas s)
    (copyGas s) (extcodesizeGas s) (extcodecopyGas s) (balanceGas s) (suicideGas s) (maxCodeSize s).

(** The entries of a schedule in the order in which [initDataEIP158] lists them *)
Definition schedule_data (s : EVMSchedule) : list Z :=
  tierStepGas s ++
  [expGas s; expByteGas s; sha3Gas s; sha3WordGas s; sloadGas s; sstoreSetGas s; sstoreResetGas s;
   sstoreRefundGas s; jumpdestGas s; logGas s; logDataGas s; logTopicGas s; createGas s; callGas s;
   callStipend s; callValueTransferGas s; callNewAccountGas s; suicideRefundGas s; memoryGas s;
   quadCoeffDiv s; createDataGas s; txGas s; txCreateGas s; txDataZeroGas s; txDataNonZeroGas s;
   copyGas s; extcodesizeGas s; extcodecopyGas s; balanceGas s; suicideGas s; maxCodeSize s].
Definition initDataEIP158 : list Z := schedule_data EIP158Schedule.

(** *** Constants and the words of the virtual machine *)

Definition dgp_address (n : Z) : Address := repeat 0 19 ++ [n].
Definition GasScheduleDGP : Address := dgp_address 128.
Definition BlockSizeDGP : Address := dgp_address 129.
Definition GasPriceDGP : Address := dgp_address 130.
Definition BlockGasLimitDGP : Address := dgp_address 132.

Definition MIN_BLOCK_SIZE_DGP : Z := 500000.
Definition MAX_BLOCK_SIZE_DGP : Z := 32000000.
Definition DEFAULT_BLOCK_SIZE_DGP : Z := 2000000.
Definition MIN_MIN_GAS_PRICE_DGP : Z := 1.
Definition MAX_MIN_GAS_PRICE_DGP : Z := 10000.
Definition DEFAULT_MIN_GAS_PRICE_DGP : Z := 40.
Definition MIN_BLOCK_GAS_LIMIT_DGP : Z := 1000000.

Abbreviation h256 := bytes (only parsing).
(** [h256(u256)] and [u256(h256)]: most significant byte first *)
Definition h256_of (z : Z) : h256 := rev (le_encode 32 z).
Definition u256_of (h : h256) : Z := le_decode (rev h).
(** [++h] *)
Definition h256_next (h : h256) : h256 := h256_of (u256_of h + 1).
Definition right160 (h : h256) : Address := drop 12 h.

(** What [std::map<h256, pair<u256, u256>>] maps the hash of a key to: the key and the value *)
Abbreviation Storage := (gmap h256 (Z * Z)).

Record ArtaxDGP : Type := mk_ArtaxDGP {
  dgpevm : bool;
  templateContract : Address;
  storageDGP : Storage;
  storageTemplate : Storage;
  dataTemplate : bytes;
  paramsInstance : list (Z * Address);
  dataEIP158Schedule : list Z }.
Definition ArtaxDGP_new (evm : bool) : ArtaxDGP := mk_ArtaxDGP evm null_Address ∅ ∅ [] [] initDataEIP158.
Definition dgp_clear (d : ArtaxDGP) : ArtaxDGP :=
  mk_ArtaxDGP (dgpevm d) null_Address ∅ ∅ (dataTemplate d) [] (dataEIP158Schedule d).

Inductive dgp_error : Type :=
| NoEntry    (** [find] of a key that is not there is dereferenced *)
| NoResult   (** the first of no results is taken *)
| TooDeep.   (** the calls are nested deeper than the bound *)
Abbreviation dgp := (result dgp_error).

(** *** The gas schedule *)

Definition check_limit (dflt v : Z) : bool :=
  let max := if 0 <? u32 (dflt * 1000) then u32 (dflt * 1000) else 1000 in
  let min := if 0 <? dflt / 100 then dflt / 100 else 1 in
  negb ((max <? v) || (v <? min)).
Definition checkLimitSchedule (defaultData checkData : list Z) : bool :=
  if (vsize defaultData =? 39) && (vsize checkData =? 39)
  then forallb (fun '(dflt, v) => check_limit dflt v) (zip defaultData checkData) else false.

Definition schedule_of (schedule : EVMSchedule) (uint32Values : list Z) : EVMSchedule :=
  let v (i : Z) := default 0 (uint32Values !! Z.to_nat i) in
  mk_EVMSchedule (exceptionalFailedCodeDeposit schedule) (haveDelegateCall schedule) (eip150Mode schedule) (eip158Mode schedule)
    [v 0; v 1; v 2; v 3; v 4; v 5; v 6; v 7]
    (v 8) (v 9) (v 10) (v 11) (v 12) (v 13) (v 14) (v 15) (v 16) (v 17) (v 18) (v 19) (v 20) (v 21) (v 22) (v 23)
    (v 24) (v 25) (v 26) (v 27) (v 28) (v 29) (v 30) (v 31) (v 32) (v 33) (v 34) (v 35) (v 36) (v 37) (v 38).

Section DGP.
(** [dev::sha3] of a word, [state->storage] *)
Context (sha3 : h256 -> h256) (storage : Address -> Storage).

(** *** The contract that counts at a height *)

(** Its loop, with the turns that are left *)
Fixpoint params_loop (n : nat) (paramsInstanceHash : h256) (s : Storage) : dgp (list (Z * Address)) :=
  match n with
  | O => Ok []
  | S n =>
      height ← of_option NoEntry (s !! sha3 paramsInstanceHash);
      let paramsInstanceHash := h256_next paramsInstanceHash in
      addr ← of_option NoEntry (s !! sha3 paramsInstanceHash);
      rest ← params_loop n (h256_next paramsInstanceHash) s;
      Ok ((u32 (u64 (snd height)), right160 (h256_of (snd addr))) :: rest)
  end.
Definition createParamsInstance (d : ArtaxDGP) : dgp ArtaxDGP :=
  let paramsInstanceHash := sha3 (h256_of 0) in
  match storageDGP d !! paramsInstanceHash with
  | None => Ok d
  | Some (_, paramsInstanceSize) =>
      params ← params_loop (Z.to_nat (u64 paramsInstanceSize)) paramsInstanceHash (storageDGP d);
      Ok (mk_ArtaxDGP (dgpevm d) (templateContract d) (storageDGP d) (storageTemplate d) (dataTemplate d)
            (paramsInstance d ++ params) (dataEIP158Schedule d))
  end.

Fixpoint find_params (l : list (Z * Address)) (blockHeight : Z) : Address :=
  match l with
  | [] => null_Address
  | (height, addr) :: l => if height <=? blockHeight then addr else find_params l blockHeight
  end.
Definition getAddressForBlock (d : ArtaxDGP) (blockHeight : Z) : Address := find_params (rev (paramsInstance d)) blockHeight.

(** *** Its value, from storage or by a call *)

(** [CallContract(addr, data)]: the outputs of the calls that were run *)
Context (Call : Address -> bytes -> dgp (list bytes)).

Definition initStorageDGP (d : ArtaxDGP) (addr : Address) : ArtaxDGP :=
  mk_ArtaxDGP (dgpevm d) (templateContract d) (storage addr) (storageTemplate d) (dataTemplate d) (paramsInstance d) (dataEIP158Schedule d).
Definition initStorageTemplate (d : ArtaxDGP) (addr : Address) : ArtaxDGP :=
  mk_ArtaxDGP (dgpevm d) (templateContract d) (storageDGP d) (storage addr) (dataTemplate d) (paramsInstance d) (dataEIP158Schedule d).
Definition initDataTemplate (d : ArtaxDGP) (addr : Address) (data : bytes) : dgp ArtaxDGP :=
  results ← Call addr data;
  output ← of_option NoResult (head results);
  Ok (mk_ArtaxDGP (dgpevm d) (templateContract d) (storageDGP d) (storageTemplate d) output (paramsInstance d) (dataEIP158Schedule d)).

Definition initStorages (d : ArtaxDGP) (addr : Address) (blockHeight : Z) (data : bytes) : dgp (bool * ArtaxDGP) :=
  d ← createParamsInstance (initStorageDGP d addr);
  let address := getAddressForBlock d blockHeight in
  if decide (address = null_Address) then Ok (false, d)
  else if negb (dgpevm d) then Ok (true, initStorageTemplate d address)
  else d ← initDataTemplate d address data; Ok (true, d).

(** The value that is stored replaces [value]. *)
Definition parseStorageOneUint64 (d : ArtaxDGP) (value : Z) : Z :=
  match storageTemplate d !! sha3 (h256_of 0) with
  | Some (_, v) => u64 v
  | None => value
  end.
Definition parseDataOneUint64 (d : ArtaxDGP) (value : Z) : Z :=
  if vsize (dataTemplate d) =? 32 then u64 (u256_of (dataTemplate d)) else value.

Definition getUint64FromDGP (d : ArtaxDGP) (blockHeight : Z) (contract : Address) (data : bytes) : dgp (Z * ArtaxDGP) :=
  '(found, d) ← initStorages d contract blockHeight data;
  Ok ((if (found : bool) then if negb (dgpevm d) then parseStorageOneUint64 d 0 else parseDataOneUint64 d 0 else 0), d).

Definition getBlockSize (d : ArtaxDGP) (blockHeight : Z) : dgp (Z * ArtaxDGP) :=
  '(v, d) ← getUint64FromDGP (dgp_clear d) blockHeight BlockSizeDGP [146; 172; 60; 98];
  let blockSize := u32 v in
  Ok (if (blockSize <=? MAX_BLOCK_SIZE_DGP) && (MIN_BLOCK_SIZE_DGP <=? blockSize) then blockSize else DEFAULT_BLOCK_SIZE_DGP, d).
Definition getMinGasPrice (d : ArtaxDGP) (blockHeight : Z) : dgp (Z * ArtaxDGP) :=
  '(minGasPrice, d) ← getUint64FromDGP (dgp_clear d) blockHeight GasPriceDGP [63; 181; 136; 25];
  Ok (if (minGasPrice <=? MAX_MIN_GAS_PRICE_DGP) && (MIN_MIN_GAS_PRICE_DGP <=? minGasPrice) then minGasPrice else DEFAULT_MIN_GAS_PRICE_DGP, d).
Definition getBlockGasLimit (d : ArtaxDGP) (blockHeight : Z) : dgp (Z * ArtaxDGP) :=
  '(blockGasLimit, d) ← getUint64FromDGP (dgp_clear d) blockHeight BlockGasLimitDGP [44; 200; 55; 125];
  Ok (if (blockGasLimit <=? MAX_BLOCK_GAS_LIMIT_DGP) && (MIN_BLOCK_GAS_LIMIT_DGP <=? blockGasLimit) then blockGasLimit
      else DEFAULT_BLOCK_GAS_LIMIT_DGP, d).

(** *** The schedule *)

Definition sortPairs (a b : Z * Z) : Prop := fst a <= fst b.
#[export] Instance sortPairs_dec a b : Decision (sortPairs a b).
Proof. unfold sortPairs. apply _. Defined.

(** The eight values in a word *)
Definition word_values (value : Z) : list Z :=
  flat_map (fun i => let uint64Value := u64 (Z.shiftr value (64 * i)) in [u32 uint64Value; u32 (Z.shiftr uint64Value 32)]) [0; 1; 2; 3].
(** Keys are distinct, so that how [std::sort] orders equal ones does not matter. *)
Definition parseStorageScheduleContract (d : ArtaxDGP) : list Z :=
  let data := omap (fun i => storageTemplate d !! sha3 (h256_of i)) [0; 1; 2; 3; 4] in
  flat_map (fun kv => word_values (snd kv)) (merge_sort sortPairs data).
Definition parseDataScheduleContract (d : ArtaxDGP) : list Z :=
  let size := (length (dataTemplate d) / 32)%nat in
  (fun i => u32 (u64 (u256_of (take 32 (drop (i * 32) (dataTemplate d)))))) <$> seq 0 size.

Definition createEVMSchedule (d : ArtaxDGP) : EVMSchedule :=
  let schedule := EIP158Schedule in
  let uint32Values := if negb (dgpevm d) then parseStorageScheduleContract d else parseDataScheduleContract d in
  if negb (checkLimitSchedule (dataEIP158Schedule d) uint32Values) then schedule
  else if 39 <=? vsize uint32Values then schedule_of schedule uint32Values else schedule.
Definition getGasSchedule (d : ArtaxDGP) (blockHeight : Z) : dgp (EVMSchedule * ArtaxDGP) :=
  '(found, d) ← initStorages (dgp_clear d) GasScheduleDGP blockHeight [38; 250; 219; 226];
  Ok (if (found : bool) then createEVMSchedule d else EIP158Schedule, d).
End DGP.

(** *** [CallContract] *)

Section CallContract.
Context (C : Crypto) (sha3 : h256 -> h256) (storage : Address -> Storage).
(** The outputs of [performByteCode(Reverted)] on a block, calls and a block gas limit *)
Context (outputs : CBlock -> list ArtaxTransaction -> Z -> list bytes).
(** The block of the tip as read from disk, its height, the time, [fGettingValuesDGP] *)
Context (tip : CBlock) (height adjustedTime : Z) (fGettingValuesDGP : bool).

Definition call_block (senderAddress : Address) : CBlock :=
  let h := block_header tip in
  mk_CBlock (mk_CBlockHeader (hdr_nVersion h) (hashPrevBlock h) (hashMerkleRoot h) (u32 adjustedTime) (nBits h) (nNonce h)
               (hashStateRoot h) (hashUTXORoot h) (prevoutStake h) (vchBlockSig h))
    (take (if header_IsProofOfStake tip then 2 else 1) (vtx tip) ++
     [MakeTransaction C (mk_tx [] [mk_CTxOut 0 (p2pkh senderAddress)] CURRENT_VERSION 0)]) (fChecked tip).

(** [depth] bounds how deep calls of this function are nested.  The fields [setHashWith] and
    [setNVout] would set are null here; a run that is reverted does not read them. *)
Fixpoint CallContract (depth : nat) (addrContract : Address) (opcode : bytes) (sender_ : Address) (gasLimit : Z) : dgp (list bytes) :=
  match depth with
  | O => Err TooDeep
  | S depth =>
      '(blockGasLimit, _) ← getBlockGasLimit sha3 storage (fun addr data => CallContract depth addr data null_Address 0)
                              (ArtaxDGP_new fGettingValuesDGP) (u32 (height + 1));
      let gasLimit := if gasLimit =? 0 then u64 (blockGasLimit - 1) else gasLimit in
      let senderAddress := if decide (sender_ = null_Address) then repeat 255 20 else sender_ in
      let callTransaction :=
        mk_ArtaxTransaction 0 1 gasLimit opcode (Some addrContract) senderAddress uint256_SetNull 0 GetEVMDefault in
      Ok (outputs (call_block senderAddress) [callTransaction] blockGasLimit)
  end.
End CallContract.

(** ** Theorems *)

(** *** What a governance contract promises *)

(** The [i]-th word of the list that starts at the hash of slot 0 *)
Definition params_slot (sha3 : h256 -> h256) (i : nat) : h256 := Nat.iter i h256_next (sha3 (h256_of 0)).
(** Storage holds a word at a slot; a word that is zero is not there. *)
Definition stores (sha3 : h256 -> h256) (s : Storage) (slot : h256) (v : Z) : Prop :=
  snd <$> s !! sha3 slot = if decide (v = 0) then None else Some v.

(** The storage of a contract keeps a history, which is empty before the first vote: pairs of a
    height and the contract that counts from that height on, neither of them zero. *)
Definition keeps (sha3 : h256 -> h256) (s : Storage) (hist : list (Z * Address)) : Prop :=
  vsize hist < 2 ^ 64 /\
  stores sha3 s (h256_of 0) (vsize hist) /\
  forall i height addr, hist !! i = Some (height, addr) ->
    0 < height < 2 ^ 32 /\ are_bytes addr /\ vsize addr = 20 /\ u256_of addr <> 0 /\
    stores sha3 s (params_slot sha3 (2 * i)) height /\ stores sha3 s (params_slot sha3 (2 * i + 1)) (u256_of addr).

(** The contract that counts at a height is the last one whose height has been reached. *)
Definition active (hist : list (Z * Address)) (height : Z) : option Address :=
  a ← snd <$> last (filter (fun p => fst p <= height) hist);
  if decide (a = null_Address) then None else Some a.

(** The value that is proposed: of slot 0 of a contract, or what the contract answers *)
Definition proposed (sha3 : h256 -> h256) (storage : Address -> Storage) (Call : Address -> bytes -> dgp (list bytes)) (evm : bool)
    (hist : list (Z * Address)) (height : Z) (data : bytes) : dgp Z :=
  match active hist height with
  | None => Ok 0
  | Some a =>
      if evm then
        results ← Call a data;
        output ← of_option NoResult (head results);
        Ok (if vsize output =? 32 then u64 (u256_of output) else 0)
      else Ok (default 0 ((fun kv => u64 (snd kv)) <$> storage a !! sha3 (h256_of 0)))
  end.

Definition governed (lo hi dflt v : Z) : Z := if decide (lo <= v <= hi) then v else dflt.

(** *** The history *)

Lemma le_encode_split a b z : le_encode (a + b) z = le_encode a z ++ le_encode b (z / 2 ^ (8 * Z.of_nat a)).
Proof.
  revert z. induction a as [|a IH]; intros z.
  - cbn [Nat.add le_encode app]. by rewrite Z.div_1_r.
  - change (z mod 256 :: le_encode (a + b) (z / 256) = z mod 256 :: le_encode a (z / 256) ++ le_encode b (z / 2 ^ (8 * Z.of_nat (S a)))).
    rewrite IH. do 3 f_equal.
    rewrite Nat2Z.inj_succ, Z.mul_succ_r, Z.add_comm, Z.pow_add_r by lia. change (2 ^ 8) with 256.
    by rewrite <- Z.div_div by lia.
Qed.

Lemma right160_of addr : are_bytes addr -> vsize addr = 20 -> right160 (h256_of (u256_of addr)) = addr.
Proof.
  intros Hb Hl. unfold right160, h256_of, u256_of. rewrite (le_encode_split 20 12), rev_app_distr.
  rewrite drop_app_length' by (by rewrite length_rev, le_encode_length).
  rewrite le_encode_decode; [apply rev_involutive | by apply Forall_rev | ].
  rewrite length_rev. unfold vsize in Hl. lia.
Qed.

Lemma stores_there sha3 s slot v : v <> 0 -> stores sha3 s slot v -> exists k, s !! sha3 slot = Some (k, v).
Proof.
  intros Hv. unfold stores. rewrite decide_False by done. destruct (s !! sha3 slot) as [[k w]|]; [|done]. intros [= ->]. eauto.
Qed.

Lemma params_slot_S sha3 i : h256_next (params_slot sha3 i) = params_slot sha3 (S i).
Proof. done. Qed.

Lemma params_loop_keeps sha3 s hist : keeps sha3 s hist ->
  forall l i, hist = take i hist ++ l -> i = (length hist - length l)%nat ->
  params_loop sha3 (length l) (params_slot sha3 (2 * i)) s = Ok l.
Proof.
  intros (_ & _ & H) l. induction l as [|[height addr] l IH]; intros i E Ei; [done|].
  assert (length hist = i + S (length l))%nat as Hi
    by (apply (f_equal length) in E; rewrite length_app, length_take, length_cons in E; rewrite length_cons in Ei; lia).
  assert (hist !! i = Some (height, addr)) as Hx.
  { rewrite E, lookup_app_r by (rewrite length_take; lia). by rewrite length_take, Nat.min_l, Nat.sub_diag by lia. }
  destruct (H i height addr Hx) as ([Hh1 Hh2] & Hb & Hl & Hz & S1 & S2).
  destruct (stores_there sha3 s _ height ltac:(lia) S1) as [k1 E1], (stores_there _ _ _ _ Hz S2) as [k2 E2].
  cbn [length params_loop]. rewrite E1. cbn [of_option mbind result_bind]. rewrite params_slot_S.
  replace (2 * i + 1)%nat with (S (2 * i)) in E2 by lia. rewrite E2. cbn [of_option mbind result_bind].
  rewrite params_slot_S. replace (S (S (2 * i))) with (2 * S i)%nat by lia. rewrite IH.
  - cbn [mbind result_bind snd]. rewrite right160_of by done. rewrite u64_id, u32_id by lia. done.
  - rewrite (take_S_r _ _ _ Hx), <- app_assoc. exact E.
  - lia.
Qed.

Lemma find_params_last l height :
  find_params (rev l) height = default null_Address (snd <$> last (filter (fun p => fst p <= height) l)).
Proof.
  induction l as [|[h a] l IH] using rev_ind; [done|].
  rewrite rev_app_distr, filter_app. cbn [rev app find_params]. rewrite filter_cons, filter_nil. cbn [fst].
  destruct (Z.leb_spec h height).
  - rewrite decide_True by lia. by rewrite last_snoc.
  - rewrite decide_False by lia. by rewrite app_nil_r.
Qed.

Section Reading.
Context (sha3 : h256 -> h256) (storage : Address -> Storage) (Call : Address -> bytes -> dgp (list bytes)).

Lemma createParamsInstance_keeps d c hist : keeps sha3 (storage c) hist -> paramsInstance d = [] ->
  createParamsInstance sha3 (initStorageDGP storage d c) =
  Ok (mk_ArtaxDGP (dgpevm d) (templateContract d) (storage c) (storageTemplate d) (dataTemplate d) hist (dataEIP158Schedule d)).
Proof.
  intros Hk Hp. pose proof Hk as (Hn & E0 & _). unfold createParamsInstance. cbn [storageDGP initStorageDGP].
  destruct (decide (vsize hist = 0)) as [Hz|Hz].
  { destruct hist; [|by rewrite vsize_cons in Hz; pose proof (vsize_nonneg hist); lia]. unfold stores in E0. rewrite decide_True in E0 by done.
    destruct (storage c !! _); [done|]. unfold initStorageDGP. by rewrite Hp. }
  destruct (stores_there _ _ _ _ Hz E0) as [k E].
  rewrite E, u64_id by (unfold vsize in *; lia). unfold vsize. rewrite Nat2Z.id.
  pose proof (params_loop_keeps sha3 (storage c) hist Hk hist 0 eq_refl) as L.
  rewrite Nat.sub_diag in L. specialize (L eq_refl). change (params_slot sha3 (2 * 0)) with (sha3 (h256_of 0)) in L.
  rewrite L. cbn [mbind result_bind initStorageDGP dgpevm templateContract storageTemplate dataTemplate paramsInstance dataEIP158Schedule].
  by rewrite Hp.
Qed.

(** What the object holds when the contracts have been looked up *)
Definition looked_up (d : ArtaxDGP) (c : Address) (hist : list (Z * Address)) (t : Storage) (output : bytes) : ArtaxDGP :=
  mk_ArtaxDGP (dgpevm d) null_Address (storage c) t output hist (dataEIP158Schedule d).

Lemma initStorages_keeps d c hist height data : keeps sha3 (storage c) hist ->
  initStorages sha3 storage Call (dgp_clear d) c height data =
  match active hist height with
  | None => Ok (false, looked_up d c hist ∅ (dataTemplate d))
  | Some a =>
      if dgpevm d then
        results ← Call a data;
        output ← of_option NoResult (head results);
        Ok (true, looked_up d c hist ∅ output)
      else Ok (true, looked_up d c hist (storage a) (dataTemplate d))
  end.
Proof.
  intros Hk. unfold initStorages. rewrite (createParamsInstance_keeps (dgp_clear d) c hist Hk eq_refl).
  cbn [mbind result_bind]. unfold getAddressForBlock. cbn [paramsInstance]. rewrite find_params_last. unfold active.
  destruct (last _) as [[h a]|]; cbn [fmap option_fmap option_map mbind option_bind default snd from_option id].
  2: { by rewrite decide_True by done. }
  destruct (decide (a = null_Address)) as [->|Ha]; [done|].
  cbn [dgpevm dgp_clear]. destruct (dgpevm d) eqn:Ed; cbn [negb]; [|by rewrite <- Ed].
  unfold initDataTemplate. destruct (Call a data) as [r|e]; [|done]. cbn [mbind result_bind].
  destruct (head r); cbn [mbind result_bind of_option]; [|done]. unfold looked_up. by rewrite Ed.
Qed.

Lemma getUint64_keeps d c hist height data : keeps sha3 (storage c) hist ->
  ('(v, _) ← getUint64FromDGP sha3 storage Call (dgp_clear d) height c data; Ok v) =
  proposed sha3 storage Call (dgpevm d) hist height data.
Proof.
  intros Hk. unfold getUint64FromDGP, proposed. rewrite (initStorages_keeps d c hist height data Hk).
  destruct (active hist height) as [a|]; [|done]. destruct (dgpevm d) eqn:Ed.
  - destruct (Call a data) as [r|e]; [|done]. cbn [mbind result_bind]. destruct (head r) as [o|]; [|done].
    cbn [mbind result_bind of_option looked_up dgpevm]. rewrite Ed. done.
  - cbn [mbind result_bind looked_up dgpevm]. rewrite Ed. cbn [negb]. unfold parseStorageOneUint64.
    cbn [storageTemplate looked_up]. by destruct (storage a !! _) as [[]|].
Qed.
End Reading.

Lemma governed_if lo hi dflt v : (if (v <=? hi) && (lo <=? v) then v else dflt) = governed lo hi dflt v.
Proof.
  unfold governed. destruct (Z.leb_spec v hi), (Z.leb_spec lo v); cbn [andb];
    first [by rewrite decide_True by lia | by rewrite decide_False by lia].
Qed.

Lemma governed_range lo hi dflt v : lo <= dflt <= hi -> lo <= governed lo hi dflt v <= hi.
Proof. unfold governed. case_decide; lia. Qed.

(** The value of a result, without the object *)
Definition value_of {A} (r : dgp (A * ArtaxDGP)) : dgp A := '(v, _) ← r; Ok v.

(** (C32) The governed values are the ones the governance contracts hold.  When the storage of a
    governance contract keeps a history, then at every height the value of the last contract
    whose height has been reached is taken, be it read from storage or asked for by a call, if it
    is within its limits; in all other cases (no vote yet, no contract counts yet, no value, a
    value out of range) the default is.  What the object held before makes no difference, and
    no contract can bring the block size, the gas price or the gas limit out of their ranges. *)
Theorem governed_values sha3 storage Call d height size price limit :
  keeps sha3 (storage BlockSizeDGP) size -> keeps sha3 (storage GasPriceDGP) price -> keeps sha3 (storage BlockGasLimitDGP) limit ->
  let asked hist data := proposed sha3 storage Call (dgpevm d) hist height data in
  value_of (getBlockSize sha3 storage Call d height) =
    (v ← asked size [146; 172; 60; 98]; Ok (governed 500000 32000000 2000000 (u32 v))) /\
  value_of (getMinGasPrice sha3 storage Call d height) =
    (v ← asked price [63; 181; 136; 25]; Ok (governed 1 10000 40 v)) /\
  value_of (getBlockGasLimit sha3 storage Call d height) =
    (v ← asked limit [44; 200; 55; 125]; Ok (governed 1000000 1000000000 40000000 v)) /\
  (forall v, value_of (getBlockSize sha3 storage Call d height) = Ok v -> 500000 <= v <= 32000000) /\
  (forall v, value_of (getMinGasPrice sha3 storage Call d height) = Ok v -> 1 <= v <= 10000) /\
  (forall v, value_of (getBlockGasLimit sha3 storage Call d height) = Ok v -> 1000000 <= v <= 1000000000).
Proof.
  intros Hs Hp Hl asked. subst asked. cbn beta.
  rewrite <- (getUint64_keeps sha3 storage Call d _ size height _ Hs), <- (getUint64_keeps sha3 storage Call d _ price height _ Hp),
    <- (getUint64_keeps sha3 storage Call d _ limit height _ Hl).
  unfold value_of, getBlockSize, getMinGasPrice, getBlockGasLimit.
  destruct (getUint64FromDGP _ _ _ _ _ BlockSizeDGP _) as [[s ds]|es], (getUint64FromDGP _ _ _ _ _ GasPriceDGP _) as [[p dp]|ep],
    (getUint64FromDGP _ _ _ _ _ BlockGasLimitDGP _) as [[l dl]|el]; cbn [mbind result_bind];
    rewrite ?(governed_if MIN_BLOCK_SIZE_DGP), ?(governed_if MIN_MIN_GAS_PRICE_DGP), ?(governed_if MIN_BLOCK_GAS_LIMIT_DGP);
    (split; [done|split; [done|split; [done|]]]);
    repeat split; intros; simplify_eq; apply governed_range; by vm_compute.
Qed.

(** *** The schedule *)

Lemma word_values_length v : length (word_values v) = 8%nat.
Proof. done. Qed.

Lemma storage_schedule_length sha3 d : exists n, length (parseStorageScheduleContract sha3 d) = (8 * n)%nat.
Proof.
  unfold parseStorageScheduleContract. generalize (merge_sort sortPairs (omap (fun i => storageTemplate d !! sha3 (h256_of i)) [0; 1; 2; 3; 4])).
  intros l. exists (length l). induction l as [|[k v] l IH]; [done|]. cbn [flat_map snd].
  rewrite length_app, IH, word_values_length, length_cons. lia.
Qed.

Lemma checkLimit_length a b : checkLimitSchedule a b = true -> length a = 39%nat /\ length b = 39%nat.
Proof. unfold checkLimitSchedule, vsize. zcases; cbn [andb]; done || lia. Qed.

(** The limits of an entry *)
Definition within (dflt v : Z) : Prop := Z.max 1 (dflt / 100) <= v <= 1000 * Z.max 1 dflt.
#[export] Instance within_dec dflt v : Decision (within dflt v).
Proof. unfold within. apply _. Defined.

Lemma check_limit_within dflt v : 0 <= dflt -> dflt * 1000 < 2 ^ 32 -> check_limit dflt v = bool_decide (within dflt v).
Proof.
  intros H0 H1. unfold check_limit. rewrite u32_id by lia. apply eq_true_iff_eq.
  rewrite bool_decide_eq_true, negb_true_iff, orb_false_iff, !Z.ltb_ge. unfold within.
  destruct (Z.ltb_spec 0 (dflt * 1000)), (Z.ltb_spec 0 (dflt / 100)); lia.
Qed.

Lemma eip158_small : Forall (fun x => 0 <= x /\ x * 1000 < 2 ^ 32) initDataEIP158.
Proof. apply (bool_decide_eq_true_1 _). vm_compute. reflexivity. Qed.

Lemma forallb_within l l' : Forall (fun x => 0 <= x /\ x * 1000 < 2 ^ 32) l -> length l = length l' ->
  forallb (fun '(dflt, v) => check_limit dflt v) (zip l l') = bool_decide (Forall2 within l l').
Proof.
  intros H. revert l'. induction H as [|x l [Hx1 Hx2] _ IH]; intros [|y l'] E; try done.
  cbn [zip zip_with forallb]. rewrite check_limit_within, IH by (done || by injection E).
  destruct (decide (within x y)) as [Hw|Hw], (decide (Forall2 within l l')) as [Hl|Hl];
    rewrite ?(bool_decide_eq_true_2 _ Hw), ?(bool_decide_eq_true_2 _ Hl), ?(bool_decide_eq_false_2 _ Hw), ?(bool_decide_eq_false_2 _ Hl);
    symmetry; cbn [andb]; first [by apply bool_decide_eq_true; constructor | apply bool_decide_eq_false; intros F; by inversion F].
Qed.

Lemma checkLimit_within l : checkLimitSchedule initDataEIP158 l = bool_decide (Forall2 within initDataEIP158 l).
Proof.
  unfold checkLimitSchedule. change (vsize initDataEIP158 =? 39) with true. cbn [andb].
  destruct (Z.eqb_spec (vsize l) 39) as [E|E].
  - apply forallb_within; [apply eip158_small|]. change (length initDataEIP158) with 39%nat. unfold vsize in E. lia.
  - symmetry. apply bool_decide_eq_false. intros F. apply Forall2_length in F. change (length initDataEIP158) with 39%nat in F.
    unfold vsize in E. lia.
Qed.

Lemma lookups_seq (l : list Z) n : length l = n -> (fun i => default 0 (l !! i)) <$> seq 0 n = l.
Proof.
  intros <-. apply list_eq. intros i. rewrite list_lookup_fmap. destruct (decide (i < length l)%nat) as [Hi|Hi].
  - rewrite lookup_seq_lt by done. cbn [fmap option_fmap option_map Nat.add]. destruct (l !! i) eqn:E; [done|].
    apply lookup_ge_None in E. lia.
  - rewrite lookup_seq_ge by lia. symmetry. apply lookup_ge_None. lia.
Qed.

Lemma schedule_data_of s l : length l = 39%nat -> schedule_data (schedule_of s l) = l.
Proof. intros E. rewrite <- (lookups_seq l 39 E) at 2. reflexivity. Qed.

(** The entries a contract answers with: the low 32 bits of each word *)
Fixpoint words (n : nat) (output : bytes) : list Z :=
  match n with O => [] | S n => u32 (u256_of (take 32 output)) :: words n (drop 32 output) end.

Lemma u32_u64 z : u32 (u64 z) = u32 z.
Proof. unfold u32, u64. apply Z.mod_mod_divide. by exists (2 ^ 32). Qed.

Lemma data_schedule_words d : parseDataScheduleContract d = words (length (dataTemplate d) / 32) (dataTemplate d).
Proof.
  unfold parseDataScheduleContract. generalize (length (dataTemplate d) / 32)%nat as n.
  assert (forall n i, (fun i => u32 (u64 (u256_of (take 32 (drop (i * 32) (dataTemplate d)))))) <$> seq i n =
    words n (drop (i * 32) (dataTemplate d))) as H.
  { induction n as [|n IH]; intros i; [done|]. change (seq i (S n)) with (i :: seq (S i) n). rewrite fmap_cons, IH.
    cbn [words]. rewrite u32_u64, drop_drop. do 3 f_equal. lia. }
  intros n. rewrite H. by rewrite drop_0.
Qed.

(** The schedule the entries stand for: the default one with all its entries replaced, or
    unchanged when there are not 39 of them or one is out of its limits *)
Definition governed_schedule (entries : list Z) : EVMSchedule :=
  if decide (Forall2 within initDataEIP158 entries) then schedule_of EIP158Schedule entries else EIP158Schedule.

Lemma createEVMSchedule_governed sha3 d : dataEIP158Schedule d = initDataEIP158 ->
  createEVMSchedule sha3 d = if dgpevm d then governed_schedule (words (length (dataTemplate d) / 32) (dataTemplate d)) else EIP158Schedule.
Proof.
  intros Hd. unfold createEVMSchedule. rewrite Hd. destruct (dgpevm d); cbn [negb].
  - rewrite data_schedule_words, checkLimit_within. unfold governed_schedule. set (l := words _ _).
    destruct (decide (Forall2 within initDataEIP158 l)) as [H|H]; [|by rewrite bool_decide_eq_false_2].
    rewrite bool_decide_eq_true_2 by done. cbn [negb]. apply Forall2_length in H. change (length initDataEIP158) with 39%nat in H.
    unfold vsize. by rewrite <- H.
  - destruct (checkLimitSchedule _ _) eqn:E; [|done]. apply checkLimit_length in E as [_ E].
    destruct (storage_schedule_length sha3 d) as [n En]. lia.
Qed.

(** The gas schedule.  Asked for by a call, the 39 entries of the contract that counts at the
    height replace the default ones, each of them between a hundredth of the default and a
    thousand times it (a default of zero counts as one); if there are not exactly 39 or one is
    out of its limits, the default schedule is taken as a whole.  Read from storage, where eight
    entries share a word, the count is a multiple of eight and never 39: the schedule is always
    the default one, whatever has been voted for. *)
Theorem governed_gas_schedule sha3 storage Call d height hist :
  keeps sha3 (storage GasScheduleDGP) hist -> dataEIP158Schedule d = initDataEIP158 ->
  value_of (getGasSchedule sha3 storage Call d height) =
    match active hist height with
    | Some a =>
        if dgpevm d then
          results ← Call a [38; 250; 219; 226];
          output ← of_option NoResult (head results);
          Ok (governed_schedule (words (length output / 32) output))
        else Ok EIP158Schedule
    | None => Ok EIP158Schedule
    end /\
  (forall s, value_of (getGasSchedule sha3 storage Call d height) = Ok s ->
     schedule_data s = initDataEIP158 \/ Forall2 within initDataEIP158 (schedule_data s)).
Proof.
  intros Hk Hd.
  assert (forall l, schedule_data (governed_schedule l) = initDataEIP158 \/ Forall2 within initDataEIP158 (schedule_data (governed_schedule l))) as G.
  { intros l. unfold governed_schedule. case_decide as F; [|by left]. right.
    rewrite schedule_data_of; [done|]. apply Forall2_length in F. by rewrite <- F. }
  unfold value_of, getGasSchedule. rewrite (initStorages_keeps sha3 storage Call d _ hist height _ Hk).
  destruct (active hist height) as [a|]; cbn [mbind result_bind].
  2: { split; [done|]. intros s [= <-]. by left. }
  destruct (dgpevm d) eqn:Ed; cbn [mbind result_bind].
  2: { rewrite createEVMSchedule_governed by done. cbn [looked_up dgpevm]. rewrite Ed. split; [done|]. intros s [= <-]. by left. }
  destruct (Call _ _) as [r|e]; [|done]. cbn [mbind result_bind]. destruct (head r) as [o|]; [|done]. cbn [of_option mbind result_bind].
  rewrite createEVMSchedule_governed by done. cbn [looked_up dgpevm dataTemplate]. rewrite Ed. split; [done|]. intros s [= <-]. apply G.
Qed.

(** *** Calls *)

(** Whether asking for the block gas limit makes another call *)
Definition asks_again (fGettingValuesDGP : bool) (hist : list (Z * Address)) (height : Z) : bool :=
  fGettingValuesDGP && bool_decide (is_Some (active hist height)).

(** (C33) Whether [CallContract] comes back, when the storage of the contract for the block gas limit
    keeps a history, empty before the first vote.  It reads the block gas limit first.  If that is read
    from storage, or if no contract counts for it at the next height, then one level suffices and
    the outputs of the run are returned.  Otherwise the limit is asked for by a call of
    [CallContract], which reads the limit first: no number of levels is enough. *)
Theorem CallContract_returns C sha3 storage outputs tip height time evm hist addr opcode sender_ gasLimit :
  keeps sha3 (storage BlockGasLimitDGP) hist ->
  (asks_again evm hist (u32 (height + 1)) = false ->
     exists block call limit, forall depth,
       CallContract C sha3 storage outputs tip height time evm (S depth) addr opcode sender_ gasLimit = Ok (outputs block [call] limit) /\
       receiveAddress call = Some addr /\ at_data call = opcode /\ 1000000 <= limit <= 1000000000) /\
  (asks_again evm hist (u32 (height + 1)) = true ->
     forall depth, CallContract C sha3 storage outputs tip height time evm depth addr opcode sender_ gasLimit = Err TooDeep).
Proof.
  intros Hk. unfold asks_again. split.
  - intros Hn.
    assert (exists v d, forall Call, getBlockGasLimit sha3 storage Call (ArtaxDGP_new evm) (u32 (height + 1)) =
      Ok (governed MIN_BLOCK_GAS_LIMIT_DGP MAX_BLOCK_GAS_LIMIT_DGP DEFAULT_BLOCK_GAS_LIMIT_DGP v, d)) as (v & d & Hv).
    { unfold getBlockGasLimit, getUint64FromDGP. destruct (active hist (u32 (height + 1))) as [a|] eqn:Ea.
      - destruct evm; [done|]. do 2 eexists. intros Call. rewrite (initStorages_keeps sha3 storage Call _ _ hist _ _ Hk), Ea.
        cbn [dgpevm ArtaxDGP_new mbind result_bind]. by rewrite governed_if.
      - do 2 eexists. intros Call. rewrite (initStorages_keeps sha3 storage Call _ _ hist _ _ Hk), Ea.
        cbn [mbind result_bind]. by rewrite governed_if. }
    do 3 eexists. intros depth. cbn [CallContract]. rewrite Hv. cbn [mbind result_bind].
    split; [reflexivity|]. split; [done|]. split; [done|]. apply governed_range. by vm_compute.
  - intros Hy depth. apply andb_true_iff in Hy as [-> Hy]. apply bool_decide_eq_true in Hy as [a Ha].
    revert addr opcode sender_ gasLimit. induction depth as [|depth IH]; intros; [done|]. cbn [CallContract].
    unfold getBlockGasLimit, getUint64FromDGP. rewrite (initStorages_keeps sha3 storage _ _ _ hist _ _ Hk), Ha.
    cbn [dgpevm ArtaxDGP_new]. rewrite IH. done.
Qed.

(** *** On a concrete state *)

Definition sample_sha3 (h : h256) : h256 := h256_of (u256_of h * 5 + 1000).
Definition stored_at (slots : list (h256 * Z)) : Storage := list_to_map ((fun '(slot, v) => (sample_sha3 slot, (u256_of slot, v))) <$> slots).
Definition sample_history : list (Z * Address) := [(100, dgp_address 7); (250, dgp_address 9)].
Definition history_storage : Storage :=
  stored_at ((h256_of 0, 2) ::
    ((fun '(i, v) => (params_slot sample_sha3 i, v)) <$> [(0%nat, 100); (1%nat, 7); (2%nat, 250); (3%nat, 9)])).
Definition sample_storage (a : Address) : Storage :=
  if decide (a = dgp_address 7) then stored_at [(h256_of 0, 9000)]
  else if decide (a = dgp_address 9) then stored_at [(h256_of 0, 2 ^ 64 + 3000000)]
  else history_storage.
Definition sample_call (a : Address) (data : bytes) : dgp (list bytes) := Ok [h256_of 12345678].

Lemma sample_keeps : keeps sample_sha3 history_storage sample_history.
Proof.
  split; [done|]. split; [by vm_compute|]. intros i height addr Hi.
  assert (i = 0 \/ i = 1)%nat as [-> | ->].
  { apply lookup_lt_Some in Hi. cbn in Hi. lia. }
  all: injection Hi as <- <-; split; [done|]; split; [by repeat constructor; vm_compute|]; split; [done|]; split; [by vm_compute|].
  all: split; vm_compute; reflexivity.
Qed.

(** Before the first vote: as in the genesis block, only slots 3 and 5 are stored. *)
Definition genesis_storage (a : Address) : Storage := stored_at [(h256_of 3, 1); (h256_of 5, 7)].

Lemma genesis_keeps a : keeps sample_sha3 (genesis_storage a) [].
Proof. split; [done|]. split; [by vm_compute|]. done. Qed.

Lemma governed_values_witness :
  let get {A} (g : (h256 -> h256) -> (Address -> Storage) -> (Address -> bytes -> dgp (list bytes)) -> ArtaxDGP -> Z -> A) h :=
    g sample_sha3 sample_storage sample_call (ArtaxDGP_new false) h in
  value_of (get getBlockSize 260) = Ok 3000000 /\ value_of (get getMinGasPrice 249) = Ok 9000 /\ value_of (get getBlockGasLimit 99) = Ok 40000000 /\
  value_of (getBlockSize sample_sha3 genesis_storage sample_call (ArtaxDGP_new true) 1) = Ok 2000000.
Proof.
  cbn beta zeta. split_and!.
  - exact (proj1 (governed_values sample_sha3 sample_storage sample_call (ArtaxDGP_new false) 260 _ _ _ sample_keeps sample_keeps sample_keeps)).
  - exact (proj1 (proj2 (governed_values sample_sha3 sample_storage sample_call (ArtaxDGP_new false) 249 _ _ _ sample_keeps sample_keeps sample_keeps))).
  - exact (proj1 (proj2 (proj2 (governed_values sample_sha3 sample_storage sample_call (ArtaxDGP_new false) 99 _ _ _ sample_keeps sample_keeps sample_keeps)))).
  - exact (proj1 (governed_values sample_sha3 genesis_storage sample_call (ArtaxDGP_new true) 1 _ _ _ (genesis_keeps _) (genesis_keeps _) (genesis_keeps _))).
Defined.

(** Every entry of the default schedule that is not zero, and one for the others *)
Definition sample_entries : list Z := Z.max 1 <$> initDataEIP158.

Lemma governed_gas_schedule_witness :
  value_of (getGasSchedule sample_sha3 sample_storage (fun _ _ => Ok [flat_map h256_of sample_entries]) (ArtaxDGP_new true) 260) =
  Ok (schedule_of EIP158Schedule sample_entries).
Proof.
  rewrite (proj1 (governed_gas_schedule sample_sha3 sample_storage (fun _ _ => Ok [flat_map h256_of sample_entries])
                    (ArtaxDGP_new true) 260 _ sample_keeps eq_refl)).
  vm_compute. reflexivity.
Defined.

Lemma CallContract_returns_witness :
  (forall depth, CallContract toy_crypto sample_sha3 sample_storage (fun _ _ limit => [h256_of limit]) CBlock_SetNull 260 0 true depth (dgp_address 1) [] null_Address 0 = Err TooDeep) /\
  (exists rs, CallContract toy_crypto sample_sha3 sample_storage (fun _ _ limit => [h256_of limit]) CBlock_SetNull 260 0 false 1 (dgp_address 1) [] null_Address 0 = Ok rs) /\
  exists rs, CallContract toy_crypto sample_sha3 genesis_storage (fun _ _ limit => [h256_of limit]) CBlock_SetNull 0 0 true 1 (dgp_address 1) [] null_Address 0 = Ok rs.
Proof.
  split_and!.
  - exact (proj2 (CallContract_returns toy_crypto sample_sha3 sample_storage _ CBlock_SetNull 260 0 true _ _ _ _ _ sample_keeps) eq_refl).
  - destruct (proj1 (CallContract_returns toy_crypto sample_sha3 sample_storage (fun _ _ limit => [h256_of limit]) CBlock_SetNull 260 0 false _ (dgp_address 1) [] null_Address 0 sample_keeps) eq_refl)
      as (b & c & l & H).
    exact (ex_intro _ _ (proj1 (H 0%nat))).
  - destruct (proj1 (CallContract_returns toy_crypto sample_sha3 genesis_storage (fun _ _ limit => [h256_of limit]) CBlock_SetNull 0 0 true [] (dgp_address 1) [] null_Address 0 (genesis_keeps _)) eq_refl)
      as (b & c & l & H).
    exact (ex_intro _ _ (proj1 (H 0%nat))).
Defined.
