(* ===== verification/CheckBlock.v ===== *)
(** * Block checks ([CheckBlock], [ContextualCheckBlock] and what they call, [src/validation.cpp])

    The checks on a block by itself (proof of work, time, Merkle root, coinbase and coinstake, block
    signature, transactions, order of contract spends, signature operations) and in the context of
    its predecessor (finality, height in the coinbase, witness commitment), and the making of
    witness commitments.  The curve library's verification is the parameter [Verify].

    Theorems: [CheckBlock] always answers and accepts exactly the blocks that satisfy its rules,
    and blames the sender's copy rather than the block only when the transactions do not match
    the header; a block given a commitment by [GenerateCoinbaseCommitment] passes the check of
    its witnesses. *)

From Stdlib Require Import String.
From stdpp Require Import gmap.
From S2P Require Import Prelude Serialize Script SigEncoding Interpreter VerifyScript Standard Transaction Block Merkle Chain MedianTime Coins Pow VersionBits Undo TxVerify.
Open Scope Z_scope.

Abbreviation length := Datatypes.length (only parsing).

(** ** Definitions *)

(** How a check of a block ends otherwise than by going on *)
Inductive block_failure : Type :=
| BlockReject (level code : Z) (reason : string) (corruption : bool)   (* [return state.DoS(...)] *)
| TxReject (level : Z) (reason : string)      (* [CheckTransaction] failed; [return state.Invalid(...)] *)
| PlainError                                  (* [return error(...)]: the state is left as it was *)
| BlockAbort.
Abbreviation bchecks := (result block_failure).

Definition reject_if (b : bool) (level : Z) (reason : string) (corruption : bool) : bchecks unit :=
  if b then Err (BlockReject level REJECT_INVALID reason corruption) else Ok tt.

Definition block_report {A} (st : CValidationState) (r : bchecks A) : option (bool * CValidationState) :=
  match r with
  | Ok _ => Some (true, st)
  | Err (BlockReject level code reason corruption) => Some (false, DoS st level code reason corruption)
  | Err (TxReject level reason) =>
      let st := DoS st level REJECT_INVALID reason false in
      Some (false, Invalid st (chRejectCode st) (strRejectReason st))
  | Err PlainError => Some (false, st)
  | Err BlockAbort => None
  end.

(** *** Parts of a block *)

(** The script of an output that commits to the witnesses *)
Definition is_commitment (o : CTxOut) : bool :=
  let s := scriptPubKey o in
  (38 <=? vsize s) && (sbyte s 0 =? OP_RETURN) && (sbyte s 1 =? 0x24) && (sbyte s 2 =? 0xaa) &&
  (sbyte s 3 =? 0x21) && (sbyte s 4 =? 0xa9) && (sbyte s 5 =? 0xed).

Fixpoint commitment_index (o : Z) (vout : list CTxOut) (commitpos : Z) : Z :=
  match vout with
  | [] => commitpos
  | txout :: vout => commitment_index (o + 1) vout (if is_commitment txout then i32 o else commitpos)
  end.
Definition GetWitnessCommitmentIndex (block : CBlock) : Z :=
  match vtx block with
  | [] => -1
  | tx :: _ => commitment_index 0 (vout tx) (-1)
  end.

(** [block.vtx[0]]; [None]: there is no first transaction. *)
Definition first_tx (block : CBlock) : option CMutableTransaction := tx_fields <$> (vtx block !! 0%nat).

Definition CheckFirstCoinstakeOutput (block : CBlock) : option bool :=
  tx ← first_tx block;
  if GetWitnessCommitmentIndex block <? 0 then
    match vout tx with
    | [o] => Some (CTxOut_IsEmpty o)
    | _ => Some false
    end
  else
    match vout tx with
    | [o; o'] => Some (CTxOut_IsEmpty o && (nValue o' =? 0))
    | _ => Some false
    end.

(** The key that signs a block, from the script of the output that holds it; [Some None]: false *)
Definition script_key (s : CScript) : option (option bytes) :=
  match Solver s false with
  | None => None
  | Some r =>
      if negb (ret r) then Some None
      else if bool_decide (typeRet r = Some TX_PUBKEY) then vchPubKey ← vSolutionsRet r !! 0%nat; Some (Some vchPubKey)
      else
        match GetScriptOp s with
        | None => Some None
        | Some (opcode, _, pc) =>
            if negb (opcode =? OP_RETURN) then Some None
            else match GetScriptOp pc with
            | None => Some None
            | Some (_, vchPubKey, _) =>
                if negb (IsCompressedOrUncompressedPubKey vchPubKey) then Some None else Some (Some vchPubKey)
            end
        end
  end.

(** [None]: an access out of range *)
Definition GetBlockPublicKey (block : CBlock) : option (option bytes) :=
  if header_IsProofOfWork block then Some None
  else if bool_decide (vchBlockSig block = []) then Some None
  else tx ← tx_fields <$> (vtx block !! 1%nat); txout ← vout tx !! 1%nat; script_key (scriptPubKey txout).

Section Checks.
Context (C : Crypto).
(** [CPubKey::Verify(hash, sig)], on the bytes of a key *)
Context (Verify : bytes -> uint256 -> bytes -> bool).
Context (params : Params).

Definition CheckBlockSignature (block : CBlock) : option bool :=
  if header_IsProofOfWork block then Some (bool_decide (vchBlockSig block = []))
  else
    key ← GetBlockPublicKey block;
    match key with
    | None => Some false
    | Some vchPubKey => Some (Verify (CPubKey_Set vchPubKey) (GetHashWithoutSign C block) (vchBlockSig block))
    end.

Definition CheckHeaderPoW (block : CBlockHeader) : bool := CheckProofOfWork (Block_GetHash C block) (nBits block) params false.

Definition CheckBlockHeader (block : CBlockHeader) (fCheckPOW : bool) : bchecks unit :=
  reject_if (fCheckPOW && header_IsProofOfWork block && negb (CheckHeaderPoW block)) 50 "high-hash"%string false.

(** The sum is an [unsigned int]. *)
Definition FutureDrift (nTime : Z) : Z := u32 (u32 nTime + 15).

Definition check_merkle_root (block : CBlock) : bchecks unit :=
  let '(hashMerkleRoot2, mutated) := BlockMerkleRoot C block in
  _ ← reject_if (negb (base_blob_eq (hashMerkleRoot block) hashMerkleRoot2)) 100 "bad-txnmrklroot"%string true;
  reject_if mutated 100 "bad-txns-duplicate"%string true.

Definition has_contract (tx : CMutableTransaction) : bool := tx_HasOpSpend tx || tx_HasCreateOrCall tx.

(** *** The coinbase and the coinstake *)

Definition check_coinbase (block : CBlock) : bchecks unit :=
  match vtx block with
  | [] => Err (BlockReject 100 REJECT_INVALID "bad-cb-missing"%string false)
  | cb :: rest =>
      _ ← reject_if (negb (IsCoinBase cb)) 100 "bad-cb-missing"%string false;
      _ ← reject_if (existsb (fun tx : CTransaction => IsCoinBase tx) rest) 100 "bad-cb-multiple"%string false;
      reject_if (has_contract cb) 100 "bad-cb-contract"%string false
  end.

Definition check_coinstake (block : CBlock) : bchecks unit :=
  match CheckFirstCoinstakeOutput block with
  | None => Err BlockAbort
  | Some first =>
      _ ← reject_if (negb first) 100 "bad-cb-missing"%string false;
      match vtx block with
      | _ :: cs :: rest =>
          _ ← reject_if (negb (IsCoinStake cs)) 100 "bad-cs-missing"%string false;
          _ ← reject_if (match vin cs with [] => true | i :: _ => negb (COutPoint_eq (prevoutStake block) (prevout i)) end)
                100 "bad-cs-invalid"%string false;
          _ ← reject_if (existsb (fun tx : CTransaction => IsCoinStake tx) rest) 100 "bad-cs-multiple"%string false;
          reject_if (has_contract cs) 100 "bad-cs-contract"%string false
      | _ => Err (BlockReject 100 REJECT_INVALID "bad-cs-missing"%string false)
      end
  end.

(** *** The transactions *)

Fixpoint check_transactions (maxBlockWeight : Z) (vtx : list CTransaction) (lastWasContract : bool) : bchecks unit :=
  match vtx with
  | [] => Ok tt
  | tx :: vtx =>
      match check_tx maxBlockWeight tx true with
      | Err (Reject level reason) => Err (TxReject level reason)
      | Err Abort => Err BlockAbort
      | Ok _ =>
          _ ← reject_if (tx_HasOpSpend tx && negb lastWasContract) 100 "bad-opspend-tx"%string false;
          check_transactions maxBlockWeight vtx (tx_HasCreateOrCall tx || tx_HasOpSpend tx)
      end
  end.

Definition block_sigops (block : CBlock) : Z := foldl (fun n (tx : CTransaction) => u32 (n + GetLegacySigOpCount tx)) 0 (vtx block).

(** [GetAdjustedTime()] is the argument [nAdjustedTime]. *)
Definition check_block (limits : BlockSizeParams) (nAdjustedTime : Z) (block : CBlock) (fCheckPOW fCheckMerkleRoot fCheckSig : bool)
  : bchecks unit :=
  _ ← CheckBlockHeader block fCheckPOW;
  _ ← (if header_IsProofOfStake block && (FutureDrift nAdjustedTime <? header_GetBlockTime block) then Err PlainError else Ok tt);
  _ ← (if fCheckMerkleRoot then check_merkle_root block else Ok tt);
  _ ← check_coinbase block;
  _ ← (if header_IsProofOfStake block then check_coinstake block else Ok tt);
  _ ← (if fCheckSig then
         match CheckBlockSignature block with
         | None => Err BlockAbort
         | Some good => reject_if (negb good) 100 "bad-blk-signature"%string false
         end
       else Ok tt);
  _ ← check_transactions (dgpMaxBlockWeight limits) (vtx block) false;
  reject_if (dgpMaxBlockSigOps limits <? u32 (block_sigops block * WITNESS_SCALE_FACTOR)) 100 "bad-blk-sigops"%string false.

(** The value returned with the state, and [block.fChecked] afterwards *)
Definition CheckBlock (limits : BlockSizeParams) (nAdjustedTime : Z) (block : CBlock) (state : CValidationState)
  (fCheckPOW fCheckMerkleRoot fCheckSig : bool) : option (bool * CValidationState) * bool :=
  if fChecked block then (Some (true, state), true)
  else
    let r := check_block limits nAdjustedTime block fCheckPOW fCheckMerkleRoot fCheckSig in
    (block_report state r, is_ok r && fCheckPOW && fCheckMerkleRoot).

(** *** Witness commitments *)

Definition IsWitnessEnabled (m : BlockMap) (pindexPrev : option ptr) (cache : VersionBitsCache) : option (bool * VersionBitsCache) :=
  '(s, cache) ← VersionBitsState m pindexPrev params DEPLOYMENT_SEGWIT cache;
  Some (bool_decide (s = ACTIVE), cache).

Definition witness_nonce : bytes := repeat 0 32.

(** [block.vtx[0] = MakeTransactionRef(std::move(tx))] *)
Definition set_first (block : CBlock) (tx : CMutableTransaction) : CBlock :=
  mk_CBlock (block_header block) (MakeTransaction C tx :: drop 1 (vtx block)) (fChecked block).

(** With [IsWitnessEnabled] answered; [None]: an access out of range *)
Definition UpdateUncommittedBlockStructures (block : CBlock) (enabled : bool) : option CBlock :=
  if negb (GetWitnessCommitmentIndex block =? -1) && enabled then
    tx ← first_tx block;
    if negb (HasWitness tx) then
      match vin tx with
      | [] => None
      | i :: vin => Some (set_first block (mk_tx (set_witness i [witness_nonce] :: vin) (vout tx) (tx_nVersion tx) (nLockTime tx)))
      end
    else Some block
  else Some block.

Definition commitment_script (witnessroot : uint256) : CScript := [OP_RETURN; 0x24; 0xaa; 0x21; 0xa9; 0xed] ++ witnessroot.

(** The commitment returned, and the block *)
Definition GenerateCoinbaseCommitment (block : CBlock) (enabled fProofOfStake : bool) : option (bytes * CBlock) :=
  '(commitment, block) ←
    (if negb (nTimeout (vDeployments params DEPLOYMENT_SEGWIT) =? 0) && (GetWitnessCommitmentIndex block =? -1) then
       '(witnessroot, _) ← BlockWitnessMerkleRoot C block (Some fProofOfStake);
       let witnessroot := Hash256 C (witnessroot ++ repeat 0 32) in
       let out := mk_CTxOut 0 (commitment_script witnessroot) in
       tx ← first_tx block;
       Some (scriptPubKey out, set_first block (mk_tx (vin tx) (vout tx ++ [out]) (tx_nVersion tx) (nLockTime tx)))
     else Some ([], block));
  block ← UpdateUncommittedBlockStructures block enabled;
  Some (commitment, block).

(** *** Checks in context *)

Definition LOCKTIME_MEDIAN_TIME_PAST : Z := Z.shiftl 1 1.

(** The check of the witness commitment: whether there is one that matches *)
Definition check_commitment (block : CBlock) (enabled : bool) : bchecks bool :=
  let commitpos := GetWitnessCommitmentIndex block in
  if negb enabled || (commitpos =? -1) then Ok false
  else
    match BlockWitnessMerkleRoot C block None, vtx block with
    | Some (hashWitness, _), cb :: _ =>
        match vin cb, vout cb !! Z.to_nat commitpos with
        | i :: _, Some o =>
            match scriptWitness i with
            | [nonce] =>
                _ ← reject_if (negb (vsize nonce =? 32)) 100 "bad-witness-nonce-size"%string true;
                _ ← reject_if (negb (base_blob_eq (Hash256 C (hashWitness ++ nonce)) (take 32 (drop 6 (scriptPubKey o)))))
                      100 "bad-witness-merkle-match"%string true;
                Ok true
            | _ => Err (BlockReject 100 REJECT_INVALID "bad-witness-nonce-size"%string true)
            end
        | _, _ => Err BlockAbort
        end
    | _, _ => Err BlockAbort
    end.

(** With the state of the deployment [CSV] after the predecessor and its median time past: the
    transactions are final and the coinbase starts with the height. *)
Definition check_final_and_height (block : CBlock) (nHeight : Z) (csv : ThresholdState) (mtpPrev : option Z) : bchecks unit :=
  let nLockTimeFlags := if bool_decide (csv = ACTIVE) then LOCKTIME_MEDIAN_TIME_PAST else 0 in
  match (if has nLockTimeFlags LOCKTIME_MEDIAN_TIME_PAST then mtpPrev else Some (header_GetBlockTime block)) with
  | None => Err BlockAbort
  | Some nLockTimeCutoff =>
      _ ← reject_if (existsb (fun tx : CTransaction => negb (IsFinalTx tx nHeight nLockTimeCutoff)) (vtx block)) 10 "bad-txns-nonfinal"%string false;
      if BIP34Height params <=? nHeight then
        match first_tx block with
        | None => Err BlockAbort
        | Some cb =>
            match vin cb with
            | [] => Err BlockAbort
            | i :: _ =>
                reject_if (negb (bool_decide (push_int64 nHeight `prefix_of` scriptSig i))) 100 "bad-cb-height"%string false
            end
        end
      else Ok tt
  end.

(** With the state of the deployment [SEGWIT] *)
Definition check_witnesses (block : CBlock) (segwit : ThresholdState) : bchecks unit :=
  fHaveWitness ← check_commitment block (bool_decide (segwit = ACTIVE));
  if negb fHaveWitness then
    reject_if (existsb (fun tx : CTransaction => HasWitness tx) (vtx block)) 100 "unexpected-witness"%string true
  else Ok tt.

Definition ContextualCheckBlock (m : BlockMap) (block : CBlock) (state : CValidationState) (pindexPrev : option ptr) (cache : VersionBitsCache)
  : option (bool * CValidationState * VersionBitsCache) :=
  nHeight ← match pindexPrev with None => Some 0 | Some p => b ← m !! p; Some (nHeight b + 1) end;
  '(csv, cache) ← VersionBitsState m pindexPrev params DEPLOYMENT_CSV cache;
  let mtpPrev := p ← pindexPrev; GetMedianTimePast m p in
  match check_final_and_height block nHeight csv mtpPrev with
  | Err e => '(ok, state) ← block_report state (A := unit) (Err e); Some (ok, state, cache)
  | Ok _ =>
      '(segwit, cache) ← VersionBitsState m pindexPrev params DEPLOYMENT_SEGWIT cache;
      '(ok, state) ← block_report state (check_witnesses block segwit);
      Some (ok, state, cache)
  end.
End Checks.

(** ** Theorems *)

Lemma existsb_lookup {A} (f : A -> bool) (l : list A) : existsb f l = true <-> exists i x, l !! i = Some x /\ f x = true.
Proof.
  rewrite existsb_exists. split.
  - intros (x & Hx & Hf). apply list_elem_of_In, list_elem_of_lookup in Hx as [i Hi]. eauto.
  - intros (i & x & Hi & Hf). exists x. split; [ | done]. apply list_elem_of_In, list_elem_of_lookup. eauto.
Qed.

(** *** The key that signs a block *)

(** The key is pushed before [OP_CHECKSIG], or right after the [OP_RETURN] of a standard script. *)
Definition signing_key (s : CScript) (key : bytes) : Prop :=
  pubkey_form (decode s) key \/
  (exists t sols, form false t s sols) /\
  (exists d o l ok, decode s = ((OP_RETURN, d) :: (o, key) :: l, ok)) /\ IsCompressedOrUncompressedPubKey key = true.

Definition signed (C : Crypto) (Verify : bytes -> uint256 -> bytes -> bool) (block : CBlock) : Prop :=
  if header_IsProofOfWork block then vchBlockSig block = []
  else vchBlockSig block <> [] /\ exists (tx : CTransaction) o key, vtx block !! 1%nat = Some tx /\ vout tx !! 1%nat = Some o /\
    signing_key (scriptPubKey o) key /\ Verify (CPubKey_Set key) (GetHashWithoutSign C block) (vchBlockSig block) = true.

Lemma decode_first pc o d l ok : decode pc = ((o, d) :: l, ok) -> exists pc', GetScriptOp pc = Some (o, d, pc') /\ decode pc' = (l, ok).
Proof.
  destruct (GetScriptOp pc) as [[[o' d'] pc'] | ] eqn:E.
  - rewrite (decode_cons _ _ _ _ E). destruct (decode pc') as [l' ok'] eqn:E'. intros [= <- <- <- <-]. eauto.
  - destruct pc as [ | b pc]; [done | ]. by rewrite decode_fail.
Qed.

Lemma script_key_spec s : are_bytes s ->
  exists k, script_key s = Some k /\ forall key, k = Some key <-> signing_key s key.
Proof.
  intros Hs. unfold script_key. destruct (Solver_sound false s Hs) as (r & E & Hr). rewrite E.
  destruct (ret r) eqn:Er; cbn [negb].
  2: { exists None. split; [done | ]. intros key. split; [done | ].
       assert (forall t sols, ~ form false t s sols) as Hno.
       { intros t sols Hf. apply Solver_form in Hf; [ | done]. rewrite Hf in E. by injection E as <-. }
       intros [Hk | [(t & sols & Hf) _]]; [ | by destruct (Hno t sols)].
       destruct (Hno TX_PUBKEY [key]). by exists key. }
  destruct (Hr Er) as (t & Et & Hf). rewrite Et. destruct (bool_decide_reflect (Some t = Some TX_PUBKEY)) as [[= ->] | Hne].
  { destruct Hf as (k & Hk & ->). exists (Some k). split; [done | ]. intros key. split; [intros [= ->]; by left | ].
    intros [Hk' | (_ & (d & o & l & ok & Hd) & Hc)].
    - destruct Hk as (o1 & H1 & _), Hk' as (o2 & H2 & _). congruence.
    - destruct Hk as (o1 & H1 & Hz). rewrite H1 in Hd. injection Hd as -> -> <- <- <- _. done. }
  assert (forall key, ~ pubkey_form (decode s) key) as Hno.
  { intros key Hk. assert (form false TX_PUBKEY s [key]) as Hp by (by exists key).
    apply Solver_form in Hp; [ | done]. rewrite Hp in E. injection E as <-. simpl in Et. congruence. }
  destruct (GetScriptOp s) as [[[o d] pc] | ] eqn:E1.
  2: { exists None. split; [done | ]. intros key. split; [done | ].
       intros [Hk | (_ & (d & o & l & ok & Hd) & _)]; [by destruct (Hno key) | ]. apply decode_first in Hd as (pc & Hd & _). congruence. }
  destruct (Z.eqb_spec o OP_RETURN) as [-> | Hor]; cbn [negb].
  2: { exists None. split; [done | ]. intros key. split; [done | ].
       intros [Hk | (_ & (d' & o' & l & ok & Hd) & _)]; [by destruct (Hno key) | ]. apply decode_first in Hd as (pc' & Hd & _). congruence. }
  destruct (GetScriptOp pc) as [[[o' k] pc'] | ] eqn:E2.
  2: { exists None. split; [done | ]. intros key. split; [done | ].
       intros [Hk | (_ & (d' & o' & l & ok & Hd) & _)]; [by destruct (Hno key) | ].
       apply decode_first in Hd as (pc1 & Hd & Hd'). apply decode_first in Hd' as (pc2 & Hd' & _). congruence. }
  assert (forall key, signing_key s key <-> key = k /\ IsCompressedOrUncompressedPubKey key = true) as Hkey.
  { intros key. split.
    - intros [Hk | (_ & (d' & o1 & l & ok & Hd) & Hc)]; [by destruct (Hno key) | ].
      apply decode_first in Hd as (pc1 & Hd & Hd'). apply decode_first in Hd' as (pc2 & Hd' & _).
      split; [congruence | done].
    - intros [-> Hc]. right. split; [eauto | ]. split; [ | done]. rewrite (decode_cons _ _ _ _ E1), (decode_cons _ _ _ _ E2).
      destruct (decode pc') as [l ok]. eauto. }
  destruct (IsCompressedOrUncompressedPubKey k) eqn:Ek; cbn [negb]; eexists; (split; [reflexivity | ]); intros key; rewrite Hkey.
  - split; [intros [= ->]; auto | by intros [-> _]].
  - split; [done | intros [-> ?]; congruence].
Qed.

(** *** The rules on a block by itself *)

(** The transaction at [i] follows a transaction that creates or calls a contract, with only
    contract spends between the two. *)
Definition after_contract (txs : list CTransaction) (i : nat) : Prop :=
  exists j, (j < i)%nat /\ (exists tx : CTransaction, txs !! j = Some tx /\ tx_HasCreateOrCall tx = true) /\
    forall k (tx : CTransaction), (j < k < i)%nat -> txs !! k = Some tx -> tx_HasOpSpend tx = true.

(** What the coinbase of a proof-of-stake block pays: nothing, besides a commitment to the witnesses *)
Definition pays_nothing (cb : CMutableTransaction) : Prop :=
  (exists o, vout cb = [o] /\ CTxOut_IsEmpty o = true) \/
  (exists o o', vout cb = [o; o'] /\ CTxOut_IsEmpty o = true /\ is_commitment o' = true /\ nValue o' = 0).

Section Rules.
Context (C : Crypto) (Verify : bytes -> uint256 -> bytes -> bool) (params : Params).
Context (limits : BlockSizeParams) (nAdjustedTime : Z) (fCheckPOW fCheckMerkleRoot fCheckSig : bool) (block : CBlock).

Let invalid (level : Z) (reason : string) : block_failure := BlockReject level REJECT_INVALID reason false.

(** A rule that is broken, with how the check ends for it *)
Inductive breaks : block_failure -> Prop :=
| high_hash : fCheckPOW = true -> header_IsProofOfWork block = true -> CheckHeaderPoW C params block = false -> breaks (invalid 50 "high-hash")
| from_the_future : header_IsProofOfStake block = true -> FutureDrift nAdjustedTime < header_GetBlockTime block -> breaks PlainError
| other_root : fCheckMerkleRoot = true -> base_blob_eq (hashMerkleRoot block) (fst (BlockMerkleRoot C block)) = false ->
    breaks (BlockReject 100 REJECT_INVALID "bad-txnmrklroot" true)
| repeated_txs : fCheckMerkleRoot = true -> snd (BlockMerkleRoot C block) = true -> breaks (BlockReject 100 REJECT_INVALID "bad-txns-duplicate" true)
| no_coinbase : (forall tx : CTransaction, vtx block !! 0%nat = Some tx -> IsCoinBase tx = false) -> breaks (invalid 100 "bad-cb-missing")
| second_coinbase i (tx : CTransaction) : (0 < i)%nat -> vtx block !! i = Some tx -> IsCoinBase tx = true -> breaks (invalid 100 "bad-cb-multiple")
| contract_coinbase (tx : CTransaction) : vtx block !! 0%nat = Some tx -> has_contract tx = true -> breaks (invalid 100 "bad-cb-contract")
| paying_coinbase (tx : CTransaction) : header_IsProofOfStake block = true -> vtx block !! 0%nat = Some tx -> ~ pays_nothing tx ->
    breaks (invalid 100 "bad-cb-missing")
| no_coinstake : header_IsProofOfStake block = true ->
    (forall tx : CTransaction, vtx block !! 1%nat = Some tx -> IsCoinStake tx = false) -> breaks (invalid 100 "bad-cs-missing")
| other_stake (tx : CTransaction) i : header_IsProofOfStake block = true -> vtx block !! 1%nat = Some tx -> vin tx !! 0%nat = Some i ->
    COutPoint_eq (prevoutStake block) (prevout i) = false -> breaks (invalid 100 "bad-cs-invalid")
| second_coinstake i (tx : CTransaction) : header_IsProofOfStake block = true -> (1 < i)%nat -> vtx block !! i = Some tx -> IsCoinStake tx = true ->
    breaks (invalid 100 "bad-cs-multiple")
| contract_coinstake (tx : CTransaction) : header_IsProofOfStake block = true -> vtx block !! 1%nat = Some tx -> has_contract tx = true ->
    breaks (invalid 100 "bad-cs-contract")
| not_signed : fCheckSig = true -> ~ signed C Verify block -> breaks (invalid 100 "bad-blk-signature")
| bad_transaction (tx : CTransaction) level reason : tx ∈ vtx block -> violates (dgpMaxBlockWeight limits) true tx level reason ->
    breaks (TxReject level reason)
| stray_spend i (tx : CTransaction) : vtx block !! i = Some tx -> tx_HasOpSpend tx = true -> ~ after_contract (vtx block) i ->
    breaks (invalid 100 "bad-opspend-tx")
| many_sigops : dgpMaxBlockSigOps limits < WITNESS_SCALE_FACTOR * sum (fun tx : CTransaction => legacy_count tx) (vtx block) ->
    breaks (invalid 100 "bad-blk-sigops").

(** A check that passes only when [P] holds, and otherwise ends for a rule that is broken *)
Definition guards {A} (r : bchecks A) (P : Prop) : Prop :=
  match r with Ok _ => P | Err e => breaks e end.

Lemma guards_bind {A B} (r : bchecks A) (f : A -> bchecks B) (P Q : Prop) :
  guards r P -> (forall a, r = Ok a -> P -> guards (f a) Q) -> guards (r ≫= f) Q.
Proof. destruct r as [a | e]; [intros HP Hf; by apply (Hf a) | done]. Qed.

Lemma guards_reject_if b level reason corruption (P : Prop) :
  (b = true -> breaks (BlockReject level REJECT_INVALID reason corruption)) -> (b = false -> P) -> guards (reject_if b level reason corruption) P.
Proof. destruct b; intros H1 H2; [by apply H1 | by apply H2]. Qed.

Lemma guards_weaken {A} (r : bchecks A) (P Q : Prop) : guards r P -> (P -> Q) -> guards r Q.
Proof. destruct r; simpl; auto. Qed.

(** No rule up to the coinbase's is broken. *)
Definition coinbase_fine : Prop :=
  exists (cb : CTransaction) rest, vtx block = cb :: rest /\ IsCoinBase cb = true /\ has_contract cb = false /\
    (forall i (tx : CTransaction), (0 < i)%nat -> vtx block !! i = Some tx -> IsCoinBase tx = false).

Lemma check_coinbase_guards : guards (check_coinbase block) coinbase_fine.
Proof.
  unfold check_coinbase. destruct (vtx block) as [ | cb rest] eqn:Ev.
  { apply no_coinbase. by rewrite Ev. }
  eapply (guards_bind _ _ (IsCoinBase cb = true)); [apply guards_reject_if; intros H | intros _ _ H1].
  { apply negb_true_iff in H. apply no_coinbase. rewrite Ev. by intros tx [= <-]. } { by apply negb_false_iff in H. }
  eapply (guards_bind _ _ (existsb (fun tx : CTransaction => IsCoinBase tx) rest = false)); [apply guards_reject_if; [intros H | done] | intros _ _ H2].
  { apply existsb_lookup in H as (i & tx & Hi & Ht). apply (second_coinbase (S i) tx); [lia | by rewrite Ev | done]. }
  apply guards_reject_if; intros H.
  - apply (contract_coinbase cb); [by rewrite Ev | done].
  - exists cb, rest. split_and!; try done. intros [ | i] tx Hi Ht; [lia | ]. rewrite Ev in Ht. simpl in Ht.
    destruct (IsCoinBase tx) eqn:E; [ | done]. rewrite (proj2 (existsb_lookup _ rest)) in H2; [done | by exists i, tx].
Qed.

(** The index is that of the last commitment. *)
Lemma commitment_index_spec o l p : 0 <= o -> o + vsize l < 2 ^ 31 ->
  (commitment_index o l p = p /\ forall x, x ∈ l -> is_commitment x = false) \/
  (exists pre x post, l = pre ++ x :: post /\ is_commitment x = true /\ (forall x', x' ∈ post -> is_commitment x' = false) /\
     commitment_index o l p = o + vsize pre).
Proof.
  revert o p. induction l as [ | x l IH]; intros o p Ho Hl; cbn [commitment_index].
  { left. split; [done | ]. intros x Hx. by apply elem_of_nil in Hx. }
  rewrite vsize_cons in Hl. pose proof (vsize_nonneg l).
  destruct (IH (o + 1) (if is_commitment x then i32 o else p)) as [[E Hn] | (pre & y & post & -> & Hy & Hn & E)]; [lia | lia | | ].
  - rewrite E. destruct (is_commitment x) eqn:Ex; [right | left].
    + exists [], x, l. rewrite vsize_nil, i32_id by lia. split_and!; [done.. | lia].
    + split; [done | ]. intros y [-> | Hy]%elem_of_cons; auto.
  - right. exists (x :: pre), y, post. rewrite E, vsize_cons. split_and!; [done.. | lia].
Qed.

(** The blocks of well-formed transactions *)
Definition txs_ok : Prop := Forall (fun tx : CTransaction => tx_ok tx) (vtx block).

Lemma tx_outputs_fit (tx : CMutableTransaction) : tx_ok tx -> vsize (vout tx) < 2 ^ 31.
Proof. intros (_ & _ & [H _] & _). unfold MAX_SIZE in H. lia. Qed.

Lemma empty_not_commitment o : CTxOut_IsEmpty o = true -> is_commitment o = false.
Proof. unfold CTxOut_IsEmpty, is_commitment. destruct (scriptPubKey o); [done | by rewrite andb_false_r]. Qed.

Lemma CheckFirstCoinstakeOutput_spec (cb : CTransaction) rest : txs_ok -> vtx block = cb :: rest ->
  exists b, CheckFirstCoinstakeOutput block = Some b /\ (b = true <-> pays_nothing cb).
Proof.
  intros Hok Ev. unfold CheckFirstCoinstakeOutput, first_tx, GetWitnessCommitmentIndex, txs_ok in *. rewrite Ev in *. cbn [lookup list_lookup fmap option_fmap option_map mbind option_bind].
  apply Forall_cons in Hok as [Hcb _]. apply tx_outputs_fit in Hcb.
  destruct (commitment_index_spec 0 (vout cb) (-1)) as [[-> Hn] | (pre & x & post & Eo & Hx & Hn & ->)]; [done | lia | | ].
  - unfold pays_nothing. destruct (vout cb) as [ | o [ | o' l]]; (eexists; split; [reflexivity | ]).
    + split; [done | ]. intros [(o & ? & _) | (o & o' & ? & _)]; done.
    + split; [left; eauto | ]. intros [(? & [= <-] & ?) | (? & ? & ? & _)]; done.
    + split; [done | ]. intros [(? & ? & ?) | (? & ? & [= <- <- ->] & _ & Hc & _)]; [done | ].
      by rewrite (Hn o') in Hc by (rewrite !elem_of_cons; auto).
  - pose proof (vsize_nonneg pre). destruct (Z.ltb_spec (0 + vsize pre) 0); [lia | ]. unfold pays_nothing. rewrite Eo.
    destruct pre as [ | o [ | o' pre]]; cbn [app].
    + destruct post as [ | o' [ | o'' post]]; (eexists; split; [reflexivity | ]).
      * split; [done | ]. intros [(? & [= <-] & He) | (? & ? & ? & _)]; [by rewrite (empty_not_commitment _ He) in Hx | done].
      * split; [intros He | ]. 
        { apply andb_true_iff in He as [He _]. by rewrite (empty_not_commitment _ He) in Hx. }
        intros [(? & ? & He) | (? & ? & [= <- ->] & He & _)]; [done | by rewrite (empty_not_commitment _ He) in Hx].
      * split; [done | ]. intros [(? & ? & ?) | (? & ? & ? & _)]; done.
    + destruct post as [ | o' post]; (eexists; split; [reflexivity | ]).
      * split; [intros [? ?%Z.eqb_eq]%andb_true_iff; right; eauto 6 | ].
        intros [(? & ? & ?) | (? & ? & [= <- <-] & He & _ & Hv)]; [done | ]. rewrite He, Hv. done.
      * split; [done | ]. intros [(? & ? & ?) | (? & ? & ? & _)]; done.
    + exists false. split; [by destruct pre | ]. split; [done | ]. intros [(? & ? & ?) | (? & ? & [= _ _ E] & _)]; [done | by destruct pre].
Qed.

(** No rule on a proof of stake is broken. *)
Definition coinstake_fine : Prop :=
  exists (cb cs : CTransaction) i rest, vtx block = cb :: cs :: rest /\ pays_nothing cb /\ IsCoinStake cs = true /\ vin cs !! 0%nat = Some i /\
    COutPoint_eq (prevoutStake block) (prevout i) = true /\ has_contract cs = false /\
    (forall i (tx : CTransaction), (1 < i)%nat -> vtx block !! i = Some tx -> IsCoinStake tx = false).

Lemma check_coinstake_guards : txs_ok -> header_IsProofOfStake block = true -> coinbase_fine ->
  guards (check_coinstake block) coinstake_fine.
Proof.
  intros Hok Hpos (cb & rest & Ev & _). unfold check_coinstake.
  destruct (CheckFirstCoinstakeOutput_spec cb rest Hok Ev) as (b & -> & Hb).
  eapply (guards_bind _ _ (pays_nothing cb)); [apply guards_reject_if; intros H | intros _ _ H1].
  { apply negb_true_iff in H. apply (paying_coinbase cb); [done | by rewrite Ev | ]. rewrite <- Hb. congruence. }
  { by apply Hb, negb_false_iff. }
  rewrite Ev. destruct rest as [ | cs rest].
  { apply no_coinstake; [done | by rewrite Ev]. }
  eapply (guards_bind _ _ (IsCoinStake cs = true)); [apply guards_reject_if; intros H | intros _ _ H2].
  { apply negb_true_iff in H. apply no_coinstake; [done | rewrite Ev; by intros tx [= <-]]. } { by apply negb_false_iff in H. }
  destruct (vin cs) as [ | i l] eqn:Ei; [unfold IsCoinStake in H2; by rewrite Ei in H2 | ].
  eapply (guards_bind _ _ (COutPoint_eq (prevoutStake block) (prevout i) = true)); [apply guards_reject_if; intros H | intros _ _ H3].
  { apply negb_true_iff in H. apply (other_stake cs i); [done | by rewrite Ev | by rewrite Ei | done]. } { by apply negb_false_iff in H. }
  eapply (guards_bind _ _ (existsb (fun tx : CTransaction => IsCoinStake tx) rest = false)); [apply guards_reject_if; [intros H | done] | intros _ _ H4].
  { apply existsb_lookup in H as (j & tx & Hj & Ht). apply (second_coinstake (S (S j)) tx); [done | lia | by rewrite Ev | done]. }
  apply guards_reject_if; intros H.
  - apply (contract_coinstake cs); [done | by rewrite Ev | done].
  - exists cb, cs, i, rest. split_and!; try done; [by rewrite Ei | ]. intros [ | [ | j]] tx Hj Ht; [lia | lia | ]. rewrite Ev in Ht. simpl in Ht.
    destruct (IsCoinStake tx) eqn:E; [ | done]. rewrite (proj2 (existsb_lookup _ rest)) in H4; [done | by exists j, tx].
Qed.
(** The block signature *)
Lemma CheckBlockSignature_spec : txs_ok -> (header_IsProofOfStake block = true -> coinstake_fine) ->
  exists b, CheckBlockSignature C Verify block = Some b /\ (b = true <-> signed C Verify block).
Proof.
  intros Hok Hcs. unfold CheckBlockSignature, signed, GetBlockPublicKey.
  destruct (header_IsProofOfWork block) eqn:Hw.
  { eexists. split; [reflexivity | ]. by rewrite bool_decide_eq_true. }
  unfold header_IsProofOfWork in Hw. apply negb_false_iff in Hw. destruct (Hcs Hw) as (cb & cs & i & rest & Ev & _ & Hst & _). clear Hcs.
  assert (exists o0 o l, vout cs = o0 :: o :: l) as (o0 & o & l & Eo).
  { unfold IsCoinStake in Hst. destruct (vin cs) as [ | i' vi]; [done | ]. destruct (vout cs) as [ | o0 [ | o l]]; [done | | by eauto].
    by rewrite andb_false_r in Hst. }
  destruct (bool_decide_reflect (vchBlockSig block = [])) as [Es | Es].
  { exists false. split; [done | ]. split; [done | by intros [? _]]. }
  assert (are_bytes (scriptPubKey o)) as Hb.
  { unfold txs_ok in Hok. rewrite Ev in Hok. apply Forall_cons in Hok as [_ Hok]. apply Forall_cons in Hok as [(_ & _ & [_ Ho] & _) _].
    rewrite Eo in Ho. apply Forall_cons in Ho as [_ Ho]. apply Forall_cons in Ho as [[_ [Ho _]] _]. exact Ho. }
  rewrite Ev. cbn [lookup list_lookup fmap option_fmap option_map mbind option_bind]. rewrite Eo. cbn [lookup list_lookup mbind option_bind].
  destruct (script_key_spec _ Hb) as (k & -> & Hk). cbn [mbind option_bind].
  assert (forall key, signed C Verify block -> signing_key (scriptPubKey o) key ->
    Verify (CPubKey_Set key) (GetHashWithoutSign C block) (vchBlockSig block) = true) as Hdet.
  { intros key. unfold signed, header_IsProofOfWork. rewrite Hw. cbn [negb]. intros (_ & tx & o' & key' & Htx & Ho' & Hkey' & Hv) Hkey.
    rewrite Ev in Htx. injection Htx as <-. rewrite Eo in Ho'. injection Ho' as <-.
    apply Hk in Hkey, Hkey'. congruence. }
  unfold signed, header_IsProofOfWork in Hdet. rewrite Hw, Ev in Hdet. cbn [negb] in Hdet.
  destruct k as [key | ]; eexists; (split; [reflexivity | ]).
  - split; [ | intros Hs; apply Hdet; [exact Hs | by apply Hk]].
    intros Hv. split; [done | ]. exists cs, o, key. rewrite Eo. split_and!; try done. by apply Hk.
  - split; [done | ]. intros (_ & tx & o' & key' & Htx & Ho' & Hkey' & _).
    injection Htx as <-. rewrite Eo in Ho'. injection Ho' as <-. by apply Hk in Hkey'.
Qed.

(** The loop over the transactions; the flag says whether the next one follows a contract. *)
Lemma check_transactions_guards l pre last : vtx block = pre ++ l -> Forall (fun tx : CTransaction => tx_ok tx) l ->
  (last = true <-> after_contract (vtx block) (length pre)) ->
  guards (check_transactions (dgpMaxBlockWeight limits) l last)
    (Forall (fun tx : CTransaction => tx_fine (dgpMaxBlockWeight limits) true tx) l /\
     forall i (tx : CTransaction), (length pre <= i)%nat -> vtx block !! i = Some tx -> tx_HasOpSpend tx = true -> after_contract (vtx block) i).
Proof.
  revert pre last. induction l as [ | tx l IH]; intros pre last Ev Hok Hlast; cbn [check_transactions].
  { split; [constructor | ]. intros i tx Hi Ht. rewrite Ev, app_nil_r in Ht. apply lookup_lt_Some in Ht. lia. }
  apply Forall_cons in Hok as [Htx Hok].
  assert (vtx block !! length pre = Some tx) as Hat by (rewrite Ev, lookup_app_r, Nat.sub_diag by lia; done).
  destruct (check_tx_sound (dgpMaxBlockWeight limits) true tx Htx) as [(u & -> & Hf) | (level & reason & -> & Hv)].
  2: { apply (bad_transaction tx); [apply list_elem_of_lookup; eauto | done]. }
  eapply (guards_bind _ _ (tx_HasOpSpend tx = true -> last = true)); [apply guards_reject_if; intros H | intros _ _ H1].
  { apply andb_true_iff in H as [H1 H2%negb_true_iff]. apply (stray_spend (length pre) tx); [done | done | ]. rewrite <- Hlast. congruence. }
  { intros E. rewrite E in H. by apply negb_false_iff. }
  assert (Hstep : tx_HasCreateOrCall tx || tx_HasOpSpend tx = true <-> after_contract (vtx block) (length (pre ++ [tx]))).
  { rewrite length_app. cbn [length]. rewrite orb_true_iff. split.
    - intros [E | E].
      + exists (length pre). split; [lia | ]. split; [eauto | lia].
      + destruct (proj1 Hlast (H1 E)) as (j & Hj & Hc & Hb). exists j. split; [lia | ]. split; [done | ].
        intros k tx' Hk Ht. destruct (decide (k = length pre)) as [-> | ]; [congruence | apply (Hb k); [lia | done]].
    - intros (j & Hj & (tx' & Ht & Hc) & Hb). destruct (decide (j = length pre)) as [-> | ]; [left; congruence | ].
      right. apply (Hb (length pre)); [lia | done]. }
  specialize (IH (pre ++ [tx]) _ ltac:(rewrite Ev, <- app_assoc; done) Hok Hstep).
  destruct (check_transactions _ l _); [ | done]. destruct IH as [IH1 IH2]. split; [by constructor | ].
  intros i tx' Hi Ht Hs. destruct (decide (i = length pre)) as [-> | ].
  - apply Hlast, H1. congruence.
  - apply (IH2 i tx'); [rewrite length_app; cbn [length]; lia | done | done].
Qed.

(** The scripts of a block, with at most 50 million bytes *)
Definition scripts_fit : Prop := 80 * sum (fun tx : CTransaction => script_bytes tx) (vtx block) < 2 ^ 32.

Lemma block_sigops_exact : scripts_fit ->
  u32 (block_sigops block * WITNESS_SCALE_FACTOR) = WITNESS_SCALE_FACTOR * sum (fun tx : CTransaction => legacy_count tx) (vtx block).
Proof.
  unfold scripts_fit, block_sigops. intros Hfit.
  assert (sum (fun tx : CTransaction => legacy_count tx) (vtx block) <= 20 * sum (fun tx : CTransaction => script_bytes tx) (vtx block)) as Hle
    by (apply sum_le; [lia | intros tx; apply legacy_range]).
  assert (0 <= sum (fun tx : CTransaction => legacy_count tx) (vtx block)) by (apply sum_nonneg; intros tx; apply legacy_range).
  assert (foldl (fun n (tx : CTransaction) => u32 (n + GetLegacySigOpCount tx)) 0 (vtx block) =
          0 + sum (fun tx : CTransaction => legacy_count tx) (vtx block)) as ->.
  { rewrite <- foldl_u32; [ | intros tx; apply legacy_range | lia | lia].
    assert (Forall (fun tx : CTransaction => legacy_count tx < 2 ^ 32) (vtx block)) as HF.
    { assert (sum (fun tx : CTransaction => legacy_count tx) (vtx block) < 2 ^ 32) as Hs by lia. clear Hle H Hfit.
      induction (vtx block) as [ | tx l IH]; [constructor | ]. rewrite sum_cons in Hs. pose proof (legacy_range tx).
      assert (0 <= sum (fun tx : CTransaction => legacy_count tx) l) by (apply sum_nonneg; intros t; apply legacy_range).
      constructor; [lia | apply IH; lia]. }
    clear -HF. generalize 0 as a. induction HF as [ | tx l Htx _ IH]; intros a; [done | ]. cbn [foldl].
    rewrite GetLegacySigOpCount_exact by done. apply IH. }
  unfold WITNESS_SCALE_FACTOR. rewrite u32_id; lia.
Qed.
(** A block that breaks no rule *)
Definition block_fine : Prop :=
  (fCheckPOW = true -> header_IsProofOfWork block = true -> CheckHeaderPoW C params block = true) /\
  (header_IsProofOfStake block = true -> header_GetBlockTime block <= FutureDrift nAdjustedTime) /\
  (fCheckMerkleRoot = true -> base_blob_eq (hashMerkleRoot block) (fst (BlockMerkleRoot C block)) = true /\ snd (BlockMerkleRoot C block) = false) /\
  coinbase_fine /\ (header_IsProofOfStake block = true -> coinstake_fine) /\ (fCheckSig = true -> signed C Verify block) /\
  Forall (fun tx : CTransaction => tx_fine (dgpMaxBlockWeight limits) true tx) (vtx block) /\
  (forall i (tx : CTransaction), vtx block !! i = Some tx -> tx_HasOpSpend tx = true -> after_contract (vtx block) i) /\
  WITNESS_SCALE_FACTOR * sum (fun tx : CTransaction => legacy_count tx) (vtx block) <= dgpMaxBlockSigOps limits.

Lemma block_fine_breaks_no_rule e : block_fine -> ~ breaks e.
Proof.
  intros (H1 & H2 & H3 & (cb & rest & Ev & Hcb & Hcc & Hcbs) & H5 & H6 & H7 & H8 & H9) Hb. rewrite Forall_forall in H7.
  assert (vtx block !! 0%nat = Some cb) as Hcb0 by (by rewrite Ev).
  destruct Hb as [Ew Ep Eh | Es Et | Em Er | Em Er | Hn | i tx Hi Ht Hc | tx Ht Hc | tx Es Ht Hp | Es Hn | tx i Es Ht Hi Hp | i tx Es Hi Ht Hc
    | tx Es Ht Hc | Eg Hs | tx level reason Ht Hv | i tx Ht Hs Hn | Hs].
  - rewrite H1 in Eh by done. done.
  - specialize (H2 Es). lia.
  - destruct (H3 Em) as [? _]. congruence.
  - destruct (H3 Em) as [_ ?]. congruence.
  - rewrite (Hn cb) in Hcb by done. done.
  - rewrite (Hcbs i tx) in Hc by done. done.
  - congruence.
  - destruct (H5 Es) as (cb' & cs & i & r & Ev' & Hpn & _). rewrite Ev' in Ht. injection Ht as <-. done.
  - destruct (H5 Es) as (cb' & cs & i & r & Ev' & _ & Hcs & _). rewrite (Hn cs) in Hcs by (by rewrite Ev'). done.
  - destruct (H5 Es) as (cb' & cs & i' & r & Ev' & _ & _ & Hi' & Hp' & _). rewrite Ev' in Ht. injection Ht as <-. congruence.
  - destruct (H5 Es) as (cb' & cs & i' & r & Ev' & _ & _ & _ & _ & _ & Hm). rewrite (Hm i tx) in Hc by done. done.
  - destruct (H5 Es) as (cb' & cs & i' & r & Ev' & _ & _ & _ & _ & Hc' & _). rewrite Ev' in Ht. injection Ht as <-. congruence.
  - by apply Hs, H6.
  - by apply (tx_fine_breaks_no_rule _ _ _ level reason (H7 tx Ht)).
  - by apply Hn, (H8 i tx).
  - lia.
Qed.

Lemma check_block_guards : txs_ok -> scripts_fit ->
  guards (check_block C Verify params limits nAdjustedTime block fCheckPOW fCheckMerkleRoot fCheckSig) block_fine.
Proof.
  intros Hok Hfit. unfold check_block, CheckBlockHeader, block_fine.
  eapply (guards_bind _ _ (fCheckPOW = true -> header_IsProofOfWork block = true -> CheckHeaderPoW C params block = true));
    [apply guards_reject_if; intros H | intros _ _ H1].
  { apply andb_true_iff in H as [[? ?]%andb_true_iff ?%negb_true_iff]. by apply high_hash. }
  { intros Ew Ep. rewrite Ew, Ep in H. by apply negb_false_iff in H. }
  eapply (guards_bind _ _ (header_IsProofOfStake block = true -> header_GetBlockTime block <= FutureDrift nAdjustedTime)); [ | intros _ _ H2].
  { destruct (header_IsProofOfStake block) eqn:Es; cbn [andb guards]; [ | done]. destruct (Z.ltb_spec (FutureDrift nAdjustedTime) (header_GetBlockTime block)); [by apply from_the_future | intros _; lia]. }
  eapply (guards_bind _ _ (fCheckMerkleRoot = true -> base_blob_eq (hashMerkleRoot block) (fst (BlockMerkleRoot C block)) = true /\ snd (BlockMerkleRoot C block) = false));
    [ | intros _ _ H3].
  { destruct fCheckMerkleRoot eqn:Em; [ | done]. unfold check_merkle_root. destruct (BlockMerkleRoot C block) as [root mutated] eqn:Er.
    eapply (guards_bind _ _ (base_blob_eq (hashMerkleRoot block) root = true)); [apply guards_reject_if; intros H | intros _ _ H3].
    { apply negb_true_iff in H. apply other_root; [done | by rewrite Er]. } { by apply negb_false_iff in H. }
    apply guards_reject_if; intros H; [apply repeated_txs; [done | by rewrite Er] | done]. }
  eapply guards_bind; [apply check_coinbase_guards | intros _ _ H4].
  eapply (guards_bind _ _ (header_IsProofOfStake block = true -> coinstake_fine)); [ | intros _ _ H5].
  { destruct (header_IsProofOfStake block) eqn:Es; [ | done]. eapply guards_weaken; [by apply check_coinstake_guards | auto]. }
  eapply (guards_bind _ _ (fCheckSig = true -> signed C Verify block)); [ | intros _ _ H6].
  { destruct fCheckSig eqn:Eg; [ | done]. destruct (CheckBlockSignature_spec Hok H5) as (b & -> & Hb).
    apply guards_reject_if; intros H; [apply negb_true_iff in H | apply negb_false_iff in H].
    - apply not_signed; [done | ]. rewrite <- Hb. congruence.
    - intros _. by apply Hb. }
  eapply guards_bind; [apply (check_transactions_guards (vtx block) [] false); [done | done | ] | intros _ _ [H7 H8]].
  { split; [done | ]. intros (j & Hj & _). cbn [length] in Hj. lia. }
  rewrite block_sigops_exact by done. apply guards_reject_if; intros H.
  - apply many_sigops. lia.
  - split_and!; try done; [ | lia]. intros i tx. apply H8. cbn [length]. lia.
Qed.
End Rules.

(** (C13) [CheckBlock] is exact.  On a block of well-formed transactions with at most 50 million bytes of
    scripts it always answers (no access is out of range, also in the search for the signing key),
    accepts exactly the blocks that break no rule and leaves the state as it was, and otherwise
    records a rule that is broken; the block is marked as checked exactly when everything was
    checked; and corruption in transit is recorded only when the transactions do not hash to the
    header's Merkle root or repeat, so that a bad block is not mistaken for a bad copy. *)
Theorem CheckBlock_exact C Verify params limits nAdjustedTime block state fCheckPOW fCheckMerkleRoot fCheckSig :
  txs_ok block -> scripts_fit block -> fChecked block = false ->
  exists ok st', CheckBlock C Verify params limits nAdjustedTime block state fCheckPOW fCheckMerkleRoot fCheckSig =
      (Some (ok, st'), ok && fCheckPOW && fCheckMerkleRoot) /\
    (ok = true <-> forall e, ~ breaks C Verify params limits nAdjustedTime fCheckPOW fCheckMerkleRoot fCheckSig block e) /\
    (ok = true -> st' = state) /\
    (ok = false -> exists e, breaks C Verify params limits nAdjustedTime fCheckPOW fCheckMerkleRoot fCheckSig block e /\
       block_report (A := unit) state (Err e) = Some (false, st')) /\
    (corruptionPossible st' = true -> corruptionPossible state = true \/
       fCheckMerkleRoot = true /\ (base_blob_eq (hashMerkleRoot block) (fst (BlockMerkleRoot C block)) = false \/ snd (BlockMerkleRoot C block) = true)).
Proof.
  intros Hok Hfit Hch. unfold CheckBlock. rewrite Hch.
  pose proof (check_block_guards C Verify params limits nAdjustedTime fCheckPOW fCheckMerkleRoot fCheckSig block Hok Hfit) as Hg.
  destruct (check_block _ _ _ _ _ _ _ _ _) as [u | e]; cbn [guards is_ok andb] in *.
  - exists true, state. split; [done | ]. split; [split; [intros _ e; by apply block_fine_breaks_no_rule | done] | ]. split; [done | ]. split; [done | auto].
  - assert (exists st', block_report (A := unit) state (Err e) = Some (false, st') /\
      (corruptionPossible st' = true -> corruptionPossible state = true \/ exists level code reason, e = BlockReject level code reason true))
      as (st' & E & Hc).
    { destruct e as [level code reason [ | ] | level reason | | ]; [ | | | | by inversion Hg]; eexists; (split; [reflexivity | ]); eauto.
      - unfold DoS. by case_bool_decide.
      - unfold Invalid, DoS. by repeat case_bool_decide. }
    exists false, st'. unfold block_report in *. split; [by rewrite E | ]. split; [split; [done | intros H; by apply H in Hg] | ].
    split; [done | ]. split; [eauto | ]. intros [? | (level & code & reason & ->)]%Hc; [auto | ]. right. inversion Hg; auto.
Qed.

(** A proof-of-stake block: the coinbase, the coinstake that pays to the key 2...2, a transaction *)
Definition sample_key : bytes := 2 :: replicate 32 5.
Definition sample_coinbase : CMutableTransaction :=
  mk_tx [mk_CTxIn COutPoint_SetNull [1; 7] SEQUENCE_FINAL []] [mk_CTxOut 0 []] 2 0.
Definition sample_coinstake : CMutableTransaction :=
  mk_tx [mk_CTxIn (mk_COutPoint (repeat 8 32) 0) [] SEQUENCE_FINAL []]
        [mk_CTxOut 0 []; mk_CTxOut (5 * COIN) (33 :: sample_key ++ [OP_CHECKSIG])] 2 0.
Definition stake_txs : list CTransaction := MakeTransaction toy_crypto <$> [sample_coinbase; sample_coinstake; sample_tx].
Definition stake_block : CBlock :=
  mk_CBlock (mk_CBlockHeader 4 uint256_SetNull (fst (ComputeMerkleRoot toy_crypto (map GetHash stake_txs))) 1000 0x1d00ffff 0
               uint256_SetNull uint256_SetNull (mk_COutPoint (repeat 8 32) 0) sample_key) stake_txs false.

Definition sample_verify (key : bytes) (_ : uint256) (sig : bytes) : bool := bool_decide (sig = key).

Lemma stake_txs_ok : txs_ok stake_block.
Proof.
  unfold txs_ok, stake_block, stake_txs, tx_ok, vector_ok, input_ok, bare_input_ok, outpoint_ok, uint256_ok, output_ok, witness_ok, vector_ok, blob_ok.
  cbn [vtx]. repeat constructor; simpl; unfold is_byte; lia || done || decided.
Qed.

Lemma CheckBlock_exact_witness :
  CheckBlock toy_crypto sample_verify CMainParams default_params 1000 stake_block CValidationState_new true true true =
    (Some (true, CValidationState_new), true) /\
  forall e, ~ breaks toy_crypto sample_verify CMainParams default_params 1000 true true true stake_block e.
Proof.
  destruct (CheckBlock_exact toy_crypto sample_verify CMainParams default_params 1000 stake_block CValidationState_new true true true)
    as (ok & st' & E & H & _).
  - exact stake_txs_ok.
  - decided.
  - reflexivity.
  - assert (Hc : CheckBlock toy_crypto sample_verify CMainParams default_params 1000 stake_block CValidationState_new true true true =
      (Some (true, CValidationState_new), true)) by (vm_compute; reflexivity).
    split; [exact Hc | ]. apply H. rewrite Hc in E. injection E as <- _. reflexivity.
Defined.

(** *** Witness commitments *)

(** The hashes the commitment covers: those of the transactions with their witnesses, except for
    the coinbase and the coinstake *)
Definition witness_leaves (block : CBlock) : list uint256 :=
  if header_IsProofOfStake block then uint256_SetNull :: uint256_SetNull :: map GetWitnessHash (drop 2 (vtx block))
  else uint256_SetNull :: map GetWitnessHash (drop 1 (vtx block)).

(** The transactions the code reads by position are there, and the hashes have their size. *)
Definition witness_block_ok (block : CBlock) : Prop :=
  ((if header_IsProofOfStake block then 2 else 1) <= length (vtx block))%nat /\ vsize (vtx block) <= 2 ^ 31 /\
  Forall (fun tx => hash_sized (GetWitnessHash tx)) (vtx block).

Section Commitment.
Context (C : Crypto) (HC : forall m, length (Hash256 C m) = 32%nat).

Lemma witness_root block : witness_block_ok block ->
  BlockWitnessMerkleRoot C block None = Some (ComputeMerkleRoot C (witness_leaves block)) /\
  BlockWitnessMerkleRoot C block (Some (header_IsProofOfStake block)) = Some (ComputeMerkleRoot C (witness_leaves block)).
Proof.
  intros (Hn & _). unfold BlockWitnessMerkleRoot, witness_leaves. cbn [default].
  destruct (header_IsProofOfStake block); destruct (vtx block) as [ | cb [ | cs rest]]; cbn [length] in Hn; try lia; by cbn [drop map].
Qed.

Lemma witness_leaves_ok block : witness_block_ok block ->
  witness_leaves block <> [] /\ vsize (witness_leaves block) <= 2 ^ 31 /\ Forall hash_sized (witness_leaves block).
Proof.
  intros (Hn & Hs & Hh). unfold witness_leaves, vsize in *.
  destruct (header_IsProofOfStake block); (split_and!; [done | | ]).
  - cbn [length]. rewrite length_map, length_drop. lia.
  - repeat (apply Forall_cons; split; [done | ]). by apply Forall_map, Forall_drop.
  - cbn [length]. rewrite length_map, length_drop. lia.
  - repeat (apply Forall_cons; split; [done | ]). by apply Forall_map, Forall_drop.
Qed.

Lemma witness_root_sized block : witness_block_ok block -> hash_sized (fst (ComputeMerkleRoot C (witness_leaves block))).
Proof.
  intros Hw. destruct (witness_leaves_ok block Hw) as (Hne & Hs & Hl). destruct (ComputeMerkleRoot_spec C _ Hne Hs) as [E _].
  set (k := TreeHeight (vsize (witness_leaves block))) in *.
  assert (Forall hash_sized (levels C k (witness_leaves block))) as HF by (apply levels_sized; assumption).
  rewrite E in HF. by apply Forall_cons in HF as [? _].
Qed.

(** What the check of a commitment that is there says *)
Lemma check_commitment_ok block : witness_block_ok block -> check_commitment C block true = Ok true <->
  exists (cb : CTransaction) rest i vi o nonce, vtx block = cb :: rest /\ vin cb = i :: vi /\ GetWitnessCommitmentIndex block <> -1 /\
    vout cb !! Z.to_nat (GetWitnessCommitmentIndex block) = Some o /\ scriptWitness i = [nonce] /\ vsize nonce = 32 /\
    base_blob_eq (Hash256 C (fst (ComputeMerkleRoot C (witness_leaves block)) ++ nonce)) (take 32 (drop 6 (scriptPubKey o))) = true.
Proof.
  intros Hw. destruct (witness_root block Hw) as [Hr _]. unfold check_commitment. cbn [negb orb]. rewrite Hr.
  destruct (Z.eqb_spec (GetWitnessCommitmentIndex block) (-1)) as [Ei | Ei].
  { split; [done | ]. by intros (? & ? & ? & ? & ? & ? & _ & _ & ? & _). }
  destruct (ComputeMerkleRoot C (witness_leaves block)) as [root mutated]. cbn [fst].
  destruct (vtx block) as [ | cb rest]. { split; [done | ]. by intros (? & ? & ? & ? & ? & ? & ? & _). }
  destruct (vin cb) as [ | i vi] eqn:Evi. { split; [done | ]. intros (? & ? & ? & ? & ? & ? & [= <- <-] & ? & _). congruence. }
  destruct (vout cb !! _) as [o | ] eqn:Eo. 2: { split; [done | ]. intros (? & ? & ? & ? & ? & ? & [= <- <-] & _ & _ & ? & _). congruence. }
  destruct (scriptWitness i) as [ | nonce [ | ? ?]] eqn:Ew.
  1, 3: split; [done | ]; intros (? & ? & i' & ? & ? & ? & [= <- <-] & Hi & _ & _ & ? & _); rewrite Evi in Hi; injection Hi as <- <-; congruence.
  unfold reject_if. destruct (Z.eqb_spec (vsize nonce) 32) as [En | En]; cbn [negb mbind result_bind].
  2: { split; [done | ]. intros (? & ? & i' & ? & ? & ? & [= <- <-] & Hi & _ & _ & Hw' & ? & _). rewrite Evi in Hi. injection Hi as <- <-. congruence. }
  destruct (base_blob_eq _ _) eqn:Eb; cbn [negb mbind result_bind].
  - split; [intros _ | done]. exists cb, rest, i, vi, o, nonce. split_and!; congruence.
  - split; [done | ]. intros (? & ? & i' & ? & ? & ? & [= <- <-] & Hi & _ & Ho & Hw' & _ & Hb). rewrite Evi in Hi. injection Hi as <- <-.
    congruence.
Qed.
Lemma commitment_script_size root : hash_sized root -> vsize (commitment_script root) = 38 /\ take 32 (drop 6 (commitment_script root)) = root.
Proof. intros Hr. unfold commitment_script, vsize. rewrite length_app, Hr. split; [done | ]. cbn [app drop]. apply take_ge. red in Hr. lia. Qed.

Lemma commitment_script_ok root : hash_sized root -> is_commitment (mk_CTxOut 0 (commitment_script root)) = true.
Proof. intros Hr. unfold is_commitment. cbn [scriptPubKey]. by rewrite (proj1 (commitment_script_size root Hr)). Qed.

(** A commitment after all other outputs is the one that counts. *)
Lemma index_of_last block (cb : CTransaction) rest outs o : vtx block = cb :: rest -> vout cb = outs ++ [o] -> is_commitment o = true -> vsize outs + 1 < 2 ^ 31 ->
  GetWitnessCommitmentIndex block = vsize outs.
Proof.
  intros Ev Eo Hc Hs. unfold GetWitnessCommitmentIndex. rewrite Ev, Eo.
  destruct (commitment_index_spec 0 (outs ++ [o]) (-1)) as [[_ Hn] | (pre & x & post & E & _ & Hn & ->)]; [lia | unfold vsize in *; rewrite length_app; cbn [length]; lia | | ].
  - rewrite Hn in Hc; [done | ]. apply elem_of_app. right. by apply list_elem_of_singleton.
  - destruct post as [ | y post _] using rev_ind; [by apply app_inj_tail in E as [-> _] | ].
    rewrite app_comm_cons, app_assoc in E. apply app_inj_tail in E as [_ ->].
    rewrite Hn in Hc; [done | ]. apply elem_of_app. right. by apply list_elem_of_singleton.
Qed.

Lemma set_first_leaves block tx (cb : CTransaction) rest : vtx block = cb :: rest ->
  witness_leaves (set_first C block tx) = witness_leaves block.
Proof. intros Ev. unfold witness_leaves, set_first. cbn [vtx block_header]. rewrite Ev. by destruct (header_IsProofOfStake block). Qed.

Lemma set_first_ok block tx (cb : CTransaction) rest : vtx block = cb :: rest -> witness_block_ok block -> witness_block_ok (set_first C block tx).
Proof.
  intros Ev (H1 & H2 & H3). unfold witness_block_ok, set_first, header_IsProofOfStake in *. cbn [vtx block_header]. rewrite Ev in *. cbn [drop].
  apply Forall_cons in H3 as [_ H3]. split_and!; [done | done | ]. constructor; [ | done].
  cbn [GetWitnessHash MakeTransaction]. unfold ComputeWitnessHash. red. destruct (negb (HasWitness tx)); apply HC.
Qed.

Lemma generated block (cb : CTransaction) rest params : witness_block_ok block -> vtx block = cb :: rest -> vin cb <> [] -> HasWitness cb = false ->
  vsize (vout cb) + 1 < 2 ^ 31 -> GetWitnessCommitmentIndex block = -1 -> nTimeout (vDeployments params DEPLOYMENT_SEGWIT) <> 0 ->
  let commitment := commitment_script (Hash256 C (fst (ComputeMerkleRoot C (witness_leaves block)) ++ witness_nonce)) in
  exists i vi, vin cb = i :: vi /\ GenerateCoinbaseCommitment C params block true (header_IsProofOfStake block) =
    Some (commitment, set_first C block (mk_tx (set_witness i [witness_nonce] :: vi) (vout cb ++ [mk_CTxOut 0 commitment]) (tx_nVersion cb) (nLockTime cb))).
Proof.
  intros Hw Ev Hvi Hnw Hs Hi Ht commitment. destruct (witness_root block Hw) as [_ Hr].
  destruct (vin cb) as [ | i vi] eqn:Evi; [done | ]. exists i, vi. split; [done | ].
  unfold GenerateCoinbaseCommitment. rewrite Hr, (proj2 (Z.eqb_neq _ _) Ht), Hi. change (-1 =? -1) with true.
  destruct (ComputeMerkleRoot C (witness_leaves block)) as [root mutated] eqn:Er. cbn [negb andb fst mbind option_bind] in *.
  unfold first_tx at 1. rewrite Ev. cbn [lookup list_lookup fmap option_fmap option_map mbind option_bind].
  fold (commitment_script). change (repeat 0 32) with witness_nonce. fold commitment. cbn [scriptPubKey].
  unfold UpdateUncommittedBlockStructures.
  erewrite (index_of_last _ _ rest (vout cb)); [ | unfold set_first; rewrite Ev; reflexivity | reflexivity | apply commitment_script_ok, HC | done].
  pose proof (vsize_nonneg (vout cb)). destruct (Z.eqb_spec (vsize (vout cb)) (-1)); [lia | ]. cbn [negb andb].
  unfold first_tx, set_first. cbn [vtx lookup list_lookup fmap option_fmap option_map mbind option_bind tx_fields MakeTransaction vin vout tx_nVersion nLockTime].
  unfold HasWitness in *. cbn [vin] in *. rewrite Evi in *. rewrite Hnw. cbn [negb]. rewrite Ev. by cbn [drop].
Qed.
End Commitment.

(** What is hashed for a witness commitment with a reserved value *)
Definition commitment_strings C (block : CBlock) (nonce : bytes) : list bytes :=
  (fst (ComputeMerkleRoot C (witness_leaves block)) ++ nonce) :: tree_strings C (TreeHeight (vsize (witness_leaves block))) (witness_leaves block).

(** Witness commitments.  [GenerateCoinbaseCommitment] makes a block without a commitment, and
    without a witness in its coinbase, pass the witness checks: it adds one empty-valued output and
    the reserved value to the coinbase and changes nothing else.  And the commitment binds the
    witnesses: any other block with the same coinbase outputs that passes has the same hashes of
    transactions with witnesses, unless a tree was flagged, there is a collision of the double
    SHA-256, or a hash is also that of a pair of nodes. *)
Theorem witness_commitment C params (block : CBlock) (cb : CTransaction) rest :
  (forall m, length (Hash256 C m) = 32%nat) -> witness_block_ok block -> vtx block = cb :: rest ->
  vin cb <> [] -> HasWitness cb = false -> vsize (vout cb) + 1 < 2 ^ 31 ->
  GetWitnessCommitmentIndex block = -1 -> nTimeout (vDeployments params DEPLOYMENT_SEGWIT) <> 0 ->
  exists commitment (cb' : CTransaction) block',
    GenerateCoinbaseCommitment C params block true (header_IsProofOfStake block) = Some (commitment, block') /\
    block_header block' = block_header block /\ vtx block' = cb' :: rest /\ vout cb' = vout cb ++ [mk_CTxOut 0 commitment] /\
    check_witnesses C block' ACTIVE = Ok tt /\
    (forall (other : CBlock) (ocb : CTransaction) orest, witness_block_ok other -> vtx other = ocb :: orest -> vout ocb = vout cb' ->
       check_commitment C other true = Ok true ->
       snd (ComputeMerkleRoot C (witness_leaves other)) = false -> snd (ComputeMerkleRoot C (witness_leaves block')) = false ->
       exists nonce, let S := commitment_strings C other nonce ++ commitment_strings C block' witness_nonce in
       witness_leaves other = witness_leaves block' \/ collision (Hash256 C) S \/
       leaf_is_node C S (witness_leaves other) \/ leaf_is_node C S (witness_leaves block')).
Proof.
  intros HC Hw Ev Hvi Hnw Hs Hi Ht. destruct (generated C HC block cb rest params Hw Ev Hvi Hnw Hs Hi Ht) as (i & vi & Evi & E).
  set (root := Hash256 C (fst (ComputeMerkleRoot C (witness_leaves block)) ++ witness_nonce)) in *.
  set (tx := mk_tx _ _ _ _) in E. set (block' := set_first C block tx) in *.
  assert (Ev' : vtx block' = MakeTransaction C tx :: rest) by (unfold block', set_first; by rewrite Ev).
  assert (Hw' : witness_block_ok block') by (by apply (set_first_ok C HC _ _ cb rest)).
  assert (Hl : witness_leaves block' = witness_leaves block) by (by apply (set_first_leaves C _ _ cb rest)).
  assert (hash_sized root) as Hroot by apply HC. pose proof (commitment_script_ok root Hroot) as Hc. pose proof (vsize_nonneg (vout cb)).
  assert (Hidx : forall (b : CBlock) (tx : CTransaction) r, vtx b = tx :: r -> vout tx = vout cb ++ [mk_CTxOut 0 (commitment_script root)] ->
    GetWitnessCommitmentIndex b = vsize (vout cb) /\ vout tx !! Z.to_nat (vsize (vout cb)) = Some (mk_CTxOut 0 (commitment_script root))).
  { intros b t r Eb Eo. split; [by apply (index_of_last b t r (vout cb) (mk_CTxOut 0 (commitment_script root))) | ].
    rewrite Eo. unfold vsize. by rewrite Nat2Z.id, lookup_app_r, Nat.sub_diag by lia. }
  exists (commitment_script root), (MakeTransaction C tx), block'. split_and!; try done.
  - destruct (Hidx block' _ rest Ev' eq_refl) as [E1 E2].
    assert (check_commitment C block' true = Ok true) as Ec; [ | unfold check_witnesses; rewrite bool_decide_true by done; by rewrite Ec].
    apply (check_commitment_ok C block' Hw'). exists (MakeTransaction C tx), rest, (set_witness i [witness_nonce]), vi, (mk_CTxOut 0 (commitment_script root)), witness_nonce.
    rewrite E1. split_and!; try done; [lia | ]. cbn [scriptPubKey]. rewrite (proj2 (commitment_script_size root Hroot)), Hl. fold root.
    by rewrite base_blob_eq_spec, bool_decide_true.
  - intros other ocb orest Ho Eo Evo Hco Hm Hm'. destruct (Hidx other ocb orest Eo ltac:(rewrite Evo; reflexivity)) as [E1 E2].
    apply (check_commitment_ok C other Ho) in Hco as (ocb' & orest' & oi & ovi & o & nonce & Eo' & _ & _ & Eout & _ & Hn & Hb).
    rewrite Eo in Eo'. injection Eo' as <- <-. rewrite E1, E2 in Eout. injection Eout as <-. cbn [scriptPubKey] in Hb.
    rewrite (proj2 (commitment_script_size root Hroot)), base_blob_eq_spec in Hb by (rewrite HC; done). apply bool_decide_eq_true in Hb.
    exists nonce. cbv zeta. unfold commitment_strings. rewrite Hl in *. destruct (hash_eq_or_collision _ _ _ Hb) as [Er | ?]; [ | right; left; collides].
    apply app_inj_1 in Er as [Er _]; [ | by rewrite (witness_root_sized C HC other Ho), (witness_root_sized C HC block Hw)].
    destruct (witness_leaves_ok other Ho) as (N1 & N2 & N3), (witness_leaves_ok block Hw) as (M1 & M2 & M3).
    destruct (merkle_root_binds_aux C HC (witness_leaves other) (witness_leaves block) (fst (ComputeMerkleRoot C (witness_leaves block)))) as [? | [? | [? | ?]]]; try done.
    + rewrite <- Er, <- Hm. by destruct (ComputeMerkleRoot C (witness_leaves other)).
    + rewrite <- Hm'. by destruct (ComputeMerkleRoot C (witness_leaves block)).
    + by left.
    + right; left. collides.
    + right; right; left. eapply leaf_is_node_mono; [ | done]. list_incl.
    + right; right; right. eapply leaf_is_node_mono; [ | done]. list_incl.
Qed.

Lemma witness_commitment_witness : exists commitment block',
  GenerateCoinbaseCommitment toy_crypto CMainParams stake_block true true = Some (commitment, block') /\
  check_witnesses toy_crypto block' ACTIVE = Ok tt.
Proof.
  destruct (witness_commitment toy_crypto CMainParams stake_block (MakeTransaction toy_crypto sample_coinbase) (drop 1 stake_txs))
    as (commitment & cb' & block' & E & _ & _ & _ & H & _).
  - exact toy_hash_sized.
  - split_and!; vm_compute; [lia | discriminate | ]. repeat constructor.
  - reflexivity.
  - discriminate.
  - reflexivity.
  - reflexivity.
  - reflexivity.
  - vm_compute. discriminate.
  - exists commitment, block'. split; [exact E | exact H].
Defined.
