(* ===== verification/CuckooCache.v ===== *)
(** * The cuckoo cache ([src/cuckoocache.h], with [SignatureCacheHasher] of [src/script/sigcache.h])

    The table in which the caches of signatures and of script executions keep their keys: eight
    places per key, a bit per place that says whether it may be overwritten, and two epochs that
    make old keys give way.  A key is erased by setting the bit of its place; it is found until
    another key takes the place.

    The class is used with 256-bit keys only, so it is modelled for them.  The flags are bit-packed
    as in the source; that they are atomic, for threads that erase at the same time, is not
    modelled.  [std::log2] on [float], which gives the number of keys an insertion may move, is a
    parameter.

    Theorem: whatever was done to a cache, it finds only keys that were inserted, or the null key of
    its empty places; looking up, also to erase, changes no answer; an insertion makes the key found
    and loses nothing when there is room, and otherwise loses at most one key that was to be kept. *)

From S2P Require Import Prelude Serialize ArithUint256 Script Interpreter Transaction.
Open Scope Z_scope.

Module Cuckoo.

(** ** Definitions *)

(** *** [bit_packed_atomic_flags] *)

Definition flags_new (size : Z) : list Z := replicate (Z.to_nat (u32 (size + 7) / 8)) 255.
Definition bit_set (mem : list Z) (s : Z) : list Z :=
  alter (fun b => Z.lor b (Z.shiftl 1 (Z.land s 7))) (Z.to_nat (Z.shiftr s 3)) mem.
Definition bit_unset (mem : list Z) (s : Z) : list Z :=
  alter (fun b => Z.land b (u8 (Z.lnot (Z.shiftl 1 (Z.land s 7))))) (Z.to_nat (Z.shiftr s 3)) mem.
Definition bit_is_set (mem : list Z) (s : Z) : bool :=
  negb (Z.land (default 0 (mem !! Z.to_nat (Z.shiftr s 3))) (Z.shiftl 1 (Z.land s 7)) =? 0).

(** *** [cache] *)

Record cuckoo_cache : Type := mk_cache {
  table : list uint256;
  size : Z;
  collection_flags : list Z;
  epoch_flags : list bool;
  epoch_heuristic_counter : Z;
  epoch_size : Z;
  depth_limit : Z }.

Definition cache_empty : cuckoo_cache := mk_cache [] 0 (flags_new 0) [] 0 0 0.

(** Assignments *)
Definition set_table (c : cuckoo_cache) (n : Z) (e : uint256) : cuckoo_cache :=
  mk_cache (<[Z.to_nat n := e]> (table c)) (size c) (collection_flags c) (epoch_flags c) (epoch_heuristic_counter c) (epoch_size c) (depth_limit c).
Definition set_collection (c : cuckoo_cache) (f : list Z) : cuckoo_cache :=
  mk_cache (table c) (size c) f (epoch_flags c) (epoch_heuristic_counter c) (epoch_size c) (depth_limit c).
Definition set_epoch (c : cuckoo_cache) (n : Z) (b : bool) : cuckoo_cache :=
  mk_cache (table c) (size c) (collection_flags c) (<[Z.to_nat n := b]> (epoch_flags c)) (epoch_heuristic_counter c) (epoch_size c) (depth_limit c).
Definition set_counter (c : cuckoo_cache) (n : Z) : cuckoo_cache :=
  mk_cache (table c) (size c) (collection_flags c) (epoch_flags c) n (epoch_size c) (depth_limit c).

(** [table[n]] and [epoch_flags[n]]; the theorems show that [n] is in range. *)
Definition at_loc (c : cuckoo_cache) (n : Z) : uint256 := default uint256_SetNull (table c !! Z.to_nat n).
Definition epoch_at (c : cuckoo_cache) (n : Z) : bool := default false (epoch_flags c !! Z.to_nat n).

(** [SignatureCacheHasher::operator()<hash_select>] on a little-endian machine *)
Definition SignatureCacheHasher (hash_select : nat) (key : uint256) : Z := u32 (le_decode (take 4 (drop (4 * hash_select) key))).

Definition compute_hashes (size : Z) (e : uint256) : list Z :=
  map (fun i => u32 (Z.shiftr (u64 (SignatureCacheHasher i e * size)) 32)) (seq 0 8).

Definition invalid : Z := u32 (Z.lnot 0).

Definition allow_erase (c : cuckoo_cache) (n : Z) : cuckoo_cache := set_collection c (bit_set (collection_flags c) n).
Definition please_keep (c : cuckoo_cache) (n : Z) : cuckoo_cache := set_collection c (bit_unset (collection_flags c) n).

Definition indices (c : cuckoo_cache) : list Z := map Z.of_nat (seq 0 (Z.to_nat (size c))).

(** The two loops of [epoch_check] *)
Definition epoch_unused_count (c : cuckoo_cache) : Z :=
  foldl (fun n i => u32 (n + if epoch_at c i && negb (bit_is_set (collection_flags c) i) then 1 else 0)) 0 (indices c).
Definition age (c : cuckoo_cache) (i : Z) : cuckoo_cache := if epoch_at c i then set_epoch c i false else allow_erase c i.

Definition epoch_check (c : cuckoo_cache) : cuckoo_cache :=
  if negb (epoch_heuristic_counter c =? 0) then set_counter c (epoch_heuristic_counter c - 1)
  else if epoch_size c <=? epoch_unused_count c then set_counter (foldl age c (indices c)) (epoch_size c)
  else set_counter c (Z.max 1 (Z.max (epoch_size c / 16) (epoch_size c - epoch_unused_count c))).

(** [std::log2(static_cast<float>(n))] rounded down *)
Definition setup (float_log2 : Z -> Z) (c : cuckoo_cache) (new_size : Z) : cuckoo_cache :=
  let n := Z.max 2 new_size in
  mk_cache (resize (Z.to_nat n) uint256_SetNull (table c)) n (flags_new n) (resize (Z.to_nat n) false (epoch_flags c))
    (Z.max 1 (u32 (45 * n) / 100)) (Z.max 1 (u32 (45 * n) / 100)) (u8 (float_log2 n)).
Definition setup_bytes (float_log2 : Z -> Z) (c : cuckoo_cache) (n : Z) : cuckoo_cache := setup float_log2 c (u32 (n / 32)).

(** [std::find(locs.begin(), locs.end(), x) - locs.begin()] *)
Fixpoint position (locs : list Z) (x : Z) : nat :=
  match locs with [] => 0 | l :: locs => if l =? x then 0 else S (position locs x) end.
Definition next_loc (locs : list Z) (last_loc : Z) : Z :=
  default 0 (locs !! Z.to_nat (Z.land (1 + Z.of_nat (position locs last_loc)) 7)).

(** The place at which a key is found *)
Definition find_key (c : cuckoo_cache) (e : uint256) : option Z := List.find (fun loc => bool_decide (at_loc c loc = e)) (compute_hashes (size c) e).
Definition find_free (c : cuckoo_cache) (e : uint256) : option Z := List.find (bit_is_set (collection_flags c)) (compute_hashes (size c) e).

Fixpoint cuckoo_insert_loop (depth : nat) (c : cuckoo_cache) (last_loc : Z) (last_epoch : bool) (e : uint256) : cuckoo_cache :=
  match depth with
  | O => c
  | S depth =>
      match find_free c e with
      | Some loc => set_epoch (please_keep (set_table c loc e) loc) loc last_epoch
      | None =>
          let last_loc := next_loc (compute_hashes (size c) e) last_loc in
          cuckoo_insert_loop depth (set_epoch (set_table c last_loc e) last_loc last_epoch) last_loc (epoch_at c last_loc) (at_loc c last_loc)
      end
  end.

Definition cache_insert (c : cuckoo_cache) (e : uint256) : cuckoo_cache :=
  let c := epoch_check c in
  match find_key c e with
  | Some loc => set_epoch (please_keep c loc) loc true
  | None => cuckoo_insert_loop (Z.to_nat (depth_limit c)) c invalid true e
  end.

Definition cache_contains (c : cuckoo_cache) (e : uint256) (erase : bool) : bool * cuckoo_cache :=
  match find_key c e with
  | Some loc => (true, if erase then allow_erase c loc else c)
  | None => (false, c)
  end.

(** ** Theorems *)

(** *** The flags *)

Lemma bit_parts s : 0 <= s -> Z.land s 7 = s mod 8 /\ Z.shiftr s 3 = s / 8.
Proof. intros Hs. split; [apply (Z.land_ones s 3); lia | rewrite Z.shiftr_div_pow2 by lia; done]. Qed.

Lemma bit_is_set_spec mem s : 0 <= s -> bit_is_set mem s = Z.testbit (default 0 (mem !! Z.to_nat (s / 8))) (s mod 8).
Proof. intros Hs. unfold bit_is_set. destruct (bit_parts s Hs) as [-> ->]. apply land_power_bit. apply Z.mod_pos_bound. lia. Qed.

Lemma same_bit s t : 0 <= s -> 0 <= t -> s / 8 = t / 8 -> s mod 8 = t mod 8 -> s = t.
Proof. intros. rewrite (Z.div_mod s 8), (Z.div_mod t 8) by lia. congruence. Qed.

Lemma alter_bit (g : Z -> Z) mem s t : 0 <= s < 8 * vsize mem -> 0 <= t ->
  default 0 (alter g (Z.to_nat (s / 8)) mem !! Z.to_nat (t / 8)) =
  (if decide (s / 8 = t / 8) then g else id) (default 0 (mem !! Z.to_nat (t / 8))).
Proof.
  intros Hs Ht. assert (0 <= s / 8 < vsize mem) as H1 by (split; [apply Z.div_pos | apply Z.div_lt_upper_bound]; lia).
  assert (0 <= t / 8) by (apply Z.div_pos; lia). destruct (decide (s / 8 = t / 8)) as [<- | Hne].
  - rewrite list_lookup_alter_eq. destruct (lookup_lt_is_Some_2 mem (Z.to_nat (s / 8))) as [x ->]; [unfold vsize in H1; lia | done].
  - rewrite list_lookup_alter_ne; [done | lia].
Qed.

Lemma bit_is_set_set mem s t : 0 <= s < 8 * vsize mem -> 0 <= t -> bit_is_set (bit_set mem s) t = (t =? s) || bit_is_set mem t.
Proof.
  intros Hs Ht. rewrite !bit_is_set_spec by done. unfold bit_set. destruct (bit_parts s) as [-> ->]; [lia | ]. rewrite alter_bit by done.
  pose proof (Z.mod_pos_bound t 8 ltac:(lia)). pose proof (Z.mod_pos_bound s 8 ltac:(lia)).
  destruct (decide (s / 8 = t / 8)) as [E | E]; [ | destruct (Z.eqb_spec t s); [congruence | done]].
  rewrite Z.lor_spec, Z.shiftl_1_l, Z.pow2_bits_eqb by lia. rewrite orb_comm. f_equal.
  destruct (Z.eqb_spec (s mod 8) (t mod 8)), (Z.eqb_spec t s); try done; [ | congruence]. by pose proof (same_bit s t ltac:(lia) Ht E e).
Qed.

Lemma bit_is_set_unset mem s t : 0 <= s < 8 * vsize mem -> 0 <= t -> bit_is_set (bit_unset mem s) t = negb (t =? s) && bit_is_set mem t.
Proof.
  intros Hs Ht. rewrite !bit_is_set_spec by done. unfold bit_unset. destruct (bit_parts s) as [-> ->]; [lia | ]. rewrite alter_bit by done.
  pose proof (Z.mod_pos_bound t 8 ltac:(lia)). pose proof (Z.mod_pos_bound s 8 ltac:(lia)).
  destruct (decide (s / 8 = t / 8)) as [E | E]; [ | destruct (Z.eqb_spec t s); [congruence | done]].
  rewrite Z.land_spec. unfold u8. rewrite Z.mod_pow2_bits_low, Z.lnot_spec, Z.shiftl_1_l, Z.pow2_bits_eqb by lia. rewrite andb_comm. do 2 f_equal.
  destruct (Z.eqb_spec (s mod 8) (t mod 8)), (Z.eqb_spec t s); try done; [ | congruence]. by pose proof (same_bit s t ltac:(lia) Ht E e).
Qed.

Lemma vsize_alter {A} (g : A -> A) i (l : list A) : vsize (alter g i l) = vsize l.
Proof. unfold vsize. by rewrite length_alter. Qed.
Lemma vsize_insert {A} i (x : A) (l : list A) : vsize (<[i := x]> l) = vsize l.
Proof. unfold vsize. by rewrite length_insert. Qed.

(** *** The state *)

Lemma locs_range n e loc : 0 < n < 2 ^ 32 -> loc ∈ compute_hashes n e -> 0 <= loc < n.
Proof.
  intros Hn Hl. apply list_elem_of_fmap in Hl as (i & -> & _). pose proof (u32_range (le_decode (take 4 (drop (4 * i) e)))) as Hr.
  fold (SignatureCacheHasher i e) in Hr. set (h := SignatureCacheHasher i e) in *. unfold u64. rewrite (Z.mod_small (h * n)) by nia.
  rewrite Z.shiftr_div_pow2 by lia. assert (0 <= h * n / 2 ^ 32 < n) by (split; [apply Z.div_pos; nia | apply Z.div_lt_upper_bound; nia]).
  unfold u32. rewrite Z.mod_small by lia. lia.
Qed.

Lemma locs_length n e : length (compute_hashes n e) = 8%nat.
Proof. done. Qed.

(** The sizes agree, and a key that is to be kept is at one of its places. *)
Record cache_ok (c : cuckoo_cache) : Prop := {
  ok_size : 2 <= size c < 2 ^ 32;
  ok_table : vsize (table c) = size c;
  ok_epochs : vsize (epoch_flags c) = size c;
  ok_flags : size c <= 8 * vsize (collection_flags c);
  ok_placed : forall n, 0 <= n < size c -> bit_is_set (collection_flags c) n = false -> n ∈ compute_hashes (size c) (at_loc c n) }.

(** A key that is found, and one that is to be kept *)
Definition found (c : cuckoo_cache) (e : uint256) : Prop := exists n, n ∈ compute_hashes (size c) e /\ at_loc c n = e.
Definition kept (c : cuckoo_cache) (e : uint256) : Prop := exists n, 0 <= n < size c /\ bit_is_set (collection_flags c) n = false /\ at_loc c n = e.
(** A key that is to be kept and was inserted in the present epoch *)
Definition recent (c : cuckoo_cache) (e : uint256) : Prop :=
  exists n, 0 <= n < size c /\ bit_is_set (collection_flags c) n = false /\ epoch_at c n = true /\ at_loc c n = e.
(** A key that is there already, or one of whose places is free *)
Definition room (c : cuckoo_cache) (e : uint256) : Prop :=
  found c e \/ exists n, n ∈ compute_hashes (size c) e /\ bit_is_set (collection_flags c) n = true.
(** What is in the table *)
Definition stored (c : cuckoo_cache) (e : uint256) : Prop := exists n, 0 <= n < size c /\ at_loc c n = e.

Lemma kept_found c e : cache_ok c -> kept c e -> found c e.
Proof. intros Hc (n & Hn & Hb & <-). exists n. split; [by apply ok_placed | done]. Qed.
Lemma found_stored c e : cache_ok c -> found c e -> stored c e.
Proof. intros Hc (n & Hn & E). exists n. split; [ | done]. apply (locs_range _ e); [pose proof (ok_size c Hc); lia | done]. Qed.

Lemma find_key_spec c e : match find_key c e with
  | Some n => n ∈ compute_hashes (size c) e /\ at_loc c n = e
  | None => ~ found c e
  end.
Proof.
  unfold find_key. destruct (List.find _ _) as [n | ] eqn:E.
  - apply find_some in E as [Hn He]. apply bool_decide_eq_true in He. by rewrite list_elem_of_In.
  - intros (n & Hn & He). apply list_elem_of_In in Hn. apply (find_none _ _ E) in Hn. by apply bool_decide_eq_false in Hn.
Qed.

Lemma contains_found c e erase : fst (cache_contains c e erase) = true <-> found c e.
Proof.
  pose proof (find_key_spec c e) as Hs. unfold cache_contains. destruct (find_key c e) as [n | ]; cbn [fst]; [ | done].
  split; [intros _; by exists n | done].
Qed.

Lemma find_free_spec c e : match find_free c e with
  | Some n => n ∈ compute_hashes (size c) e /\ bit_is_set (collection_flags c) n = true
  | None => forall n, n ∈ compute_hashes (size c) e -> bit_is_set (collection_flags c) n = false
  end.
Proof.
  unfold find_free. destruct (List.find _ _) as [n | ] eqn:E.
  - apply find_some in E as [Hn He]. by rewrite list_elem_of_In.
  - intros n Hn. apply list_elem_of_In in Hn. by apply (find_none _ _ E).
Qed.

Lemma next_loc_in n e last : next_loc (compute_hashes n e) last ∈ compute_hashes n e.
Proof.
  unfold next_loc. set (k := Z.to_nat _). assert ((k < 8)%nat) as Hk.
  { unfold k. rewrite (Z.land_ones _ 3) by lia. change (2 ^ 3) with 8. pose proof (Z.mod_pos_bound (1 + Z.of_nat (position (compute_hashes n e) last)) 8 ltac:(lia)). lia. }
  destruct (lookup_lt_is_Some_2 (compute_hashes n e) k) as [x Hx]; [by rewrite locs_length | ]. rewrite Hx. by eapply list_elem_of_lookup_2.
Qed.

(** *** Assignments *)

Lemma at_loc_set c n e m : 0 <= n < size c -> vsize (table c) = size c -> 0 <= m -> at_loc (set_table c n e) m = if decide (m = n) then e else at_loc c m.
Proof.
  intros Hn Ht Hm. unfold at_loc, set_table. cbn [table]. unfold vsize in Ht. destruct (decide (m = n)) as [-> | Hne].
  - by rewrite list_lookup_insert_eq by lia.
  - by rewrite list_lookup_insert_ne by lia.
Qed.

Lemma set_epoch_ok c n b : cache_ok c -> cache_ok (set_epoch c n b).
Proof. intros [H1 H2 H3 H4 H5]. split; try done. cbn [epoch_flags set_epoch]. by rewrite vsize_insert. Qed.
Lemma set_counter_ok c n : cache_ok c -> cache_ok (set_counter c n).
Proof. by intros [H1 H2 H3 H4 H5]. Qed.
Lemma allow_erase_ok c n : 0 <= n < size c -> cache_ok c -> cache_ok (allow_erase c n).
Proof.
  intros Hn [H1 H2 H3 H4 H5]. split; try done; cbn [collection_flags allow_erase set_collection].
  - unfold bit_set. by rewrite vsize_alter.
  - intros m Hm. cbn [size allow_erase set_collection] in Hm. rewrite bit_is_set_set by lia. intros [_ Hb]%orb_false_iff. by apply H5.
Qed.
Lemma please_keep_ok c n : 0 <= n < size c -> n ∈ compute_hashes (size c) (at_loc c n) -> cache_ok c -> cache_ok (please_keep c n).
Proof.
  intros Hn Hl [H1 H2 H3 H4 H5]. split; try done; cbn [collection_flags please_keep set_collection].
  - unfold bit_unset. by rewrite vsize_alter.
  - intros m Hm. cbn [size please_keep set_collection] in Hm. rewrite bit_is_set_unset by lia. destruct (Z.eqb_spec m n) as [-> | Hne]; [done | ].
    cbn [negb andb]. by apply H5.
Qed.
Lemma set_table_ok c n e : 0 <= n < size c -> n ∈ compute_hashes (size c) e -> cache_ok c -> cache_ok (set_table c n e).
Proof.
  intros Hn Hl [H1 H2 H3 H4 H5]. split; try done; [cbn [table set_table]; by rewrite vsize_insert | ].
  cbn [collection_flags size set_table]. intros m Hm Hb. rewrite at_loc_set by (done || lia). destruct (decide (m = n)) as [-> | ]; [done | by apply H5].
Qed.

Lemma allow_erase_contents c n : table (allow_erase c n) = table c /\ size (allow_erase c n) = size c.
Proof. done. Qed.

(** *** Epochs *)

Lemma foldl_age_ok l c : Forall (fun i => 0 <= i < size c) l -> cache_ok c ->
  cache_ok (foldl age c l) /\ table (foldl age c l) = table c /\ size (foldl age c l) = size c.
Proof.
  revert c. induction l as [ | i l IH]; intros c Hl Hc; [done | ]. apply Forall_cons in Hl as [Hi Hl]. cbn [foldl].
  assert (cache_ok (age c i) /\ table (age c i) = table c /\ size (age c i) = size c) as (H1 & H2 & H3).
  { unfold age. destruct (epoch_at c i); [split; [by apply set_epoch_ok | done] | split; [by apply allow_erase_ok | done]]. }
  destruct (IH (age c i)) as (I1 & I2 & I3); [by rewrite H3 | done | ]. rewrite I2, I3. done.
Qed.

Lemma indices_range c : Forall (fun i => 0 <= i < size c) (indices c).
Proof.
  apply Forall_fmap, Forall_forall. intros n Hn%elem_of_seq. cbn. lia.
Qed.

Lemma epoch_check_ok c : cache_ok c -> cache_ok (epoch_check c) /\ table (epoch_check c) = table c /\ size (epoch_check c) = size c.
Proof.
  intros Hc. unfold epoch_check. destruct (negb _); [split; [by apply set_counter_ok | done] | ]. destruct (_ <=? _).
  - destruct (foldl_age_ok (indices c) c (indices_range c) Hc) as (H1 & H2 & H3). split; [by apply set_counter_ok | done].
  - split; [by apply set_counter_ok | done].
Qed.

Lemma epoch_at_set c n b m : 0 <= n -> 0 <= m -> epoch_at (set_epoch c n b) m = if decide (m = n /\ n < vsize (epoch_flags c)) then b else epoch_at c m.
Proof.
  intros Hn Hm. unfold epoch_at, set_epoch, vsize. cbn [epoch_flags]. destruct (decide _) as [[-> Hl] | Hne].
  - by rewrite list_lookup_insert_eq by lia.
  - destruct (decide (m = n)) as [-> | Hmn]; [ | by rewrite list_lookup_insert_ne by lia]. rewrite list_insert_ge by lia. done.
Qed.

(** Ageing frees the places of the older epoch only. *)
Lemma foldl_age_keeps n l c : 0 <= n < size c -> Forall (fun i => 0 <= i < size c) l -> NoDup l -> cache_ok c ->
  bit_is_set (collection_flags c) n = false -> (n ∈ l -> epoch_at c n = true) -> bit_is_set (collection_flags (foldl age c l)) n = false.
Proof.
  revert c. induction l as [ | i l IH]; intros c Hn Hl Hnd Hc Hb He; [done | ]. apply Forall_cons in Hl as [Hi Hl]. apply NoDup_cons in Hnd as [Hil Hnd]. cbn [foldl].
  change (age c i) with (if epoch_at c i then set_epoch c i false else allow_erase c i). destruct (epoch_at c i) eqn:Ei.
  - apply IH; [done | done | done | by apply set_epoch_ok | done | ]. intros Hnl. rewrite epoch_at_set by lia.
    rewrite decide_False; [apply He; by right | ]. intros [-> _]. done.
  - assert (n <> i) by (intros ->; rewrite He in Ei; [done | by left]). apply IH; [done | done | done | by apply allow_erase_ok | | ].
    + cbn [collection_flags allow_erase set_collection]. pose proof (ok_flags c Hc). rewrite bit_is_set_set by lia. destruct (Z.eqb_spec n i); done.
    + intros Hnl. apply He. by right.
Qed.

Lemma epoch_check_recent c x : cache_ok c -> recent c x -> kept (epoch_check c) x.
Proof.
  intros Hc (n & Hn & Hb & He & Hx). destruct (epoch_check_ok c Hc) as (_ & H2 & H3). exists n. unfold at_loc. rewrite H2, H3. split; [done | ]. split; [ | done].
  unfold epoch_check. destruct (negb _); [done | ]. destruct (_ <=? _); [ | done]. cbn [collection_flags set_counter].
  apply foldl_age_keeps; try done; [apply indices_range | ]. apply NoDup_fmap_2; [apply Nat2Z.inj' | apply NoDup_seq].
Qed.

Lemma foldl_age_depth l c : depth_limit (foldl age c l) = depth_limit c.
Proof. revert c. induction l as [ | i l IH]; intros c; [done | ]. cbn [foldl]. rewrite IH. unfold age. by destruct (epoch_at c i). Qed.
Lemma epoch_check_depth c : depth_limit (epoch_check c) = depth_limit c.
Proof. unfold epoch_check. destruct (negb _); [done | ]. destruct (_ <=? _); [apply foldl_age_depth | done]. Qed.
Lemma insert_loop_depth depth : forall c last b e, depth_limit (cuckoo_insert_loop depth c last b e) = depth_limit c.
Proof. induction depth as [ | depth IH]; intros c last b e; cbn [cuckoo_insert_loop]; [done | ]. destruct (find_free c e); [done | ]. by rewrite IH. Qed.

(** *** Insertion *)

(** What happens to keys: those to be kept, and the new one, stay but for one; none appears. *)
Definition inserted (c : cuckoo_cache) (e : uint256) (c' : cuckoo_cache) : Prop :=
  cache_ok c' /\ size c' = size c /\ (exists y, forall x, x = e \/ kept c x -> x <> y -> kept c' x) /\ (forall x, stored c' x -> stored c x \/ x = e).

Lemma stored_set c n e x : 0 <= n < size c -> vsize (table c) = size c -> stored (set_table c n e) x -> stored c x \/ x = e.
Proof.
  intros Hn Ht (m & Hm & E). cbn [size set_table] in Hm. rewrite at_loc_set in E by (done || lia). destruct (decide (m = n)); [by right | left; by exists m].
Qed.

(** A key in its place, marked to be kept and as recent *)
Lemma marked_recent c n : cache_ok c -> 0 <= n < size c -> recent (set_epoch (please_keep c n) n true) (at_loc c n).
Proof.
  intros Hc Hn. pose proof (ok_flags c Hc). pose proof (ok_epochs c Hc) as He. exists n. split; [done | ]. split; [ | split; [ | done]].
  - change (bit_is_set (bit_unset (collection_flags c) n) n = false). rewrite bit_is_set_unset by lia. by rewrite Z.eqb_refl.
  - rewrite epoch_at_set by lia. apply decide_True. split; [done | ]. cbn [epoch_flags please_keep set_collection]. lia.
Qed.

Lemma put_inserted c n e b : cache_ok c -> n ∈ compute_hashes (size c) e -> bit_is_set (collection_flags c) n = true ->
  let c' := set_epoch (please_keep (set_table c n e) n) n b in inserted c e c' /\ forall x, x = e \/ kept c x -> kept c' x.
Proof.
  intros Hc Hl Hb. pose proof (ok_size c Hc). pose proof (ok_table c Hc) as Ht. pose proof (locs_range (size c) e n ltac:(lia) Hl) as Hn.
  pose proof (set_table_ok c n e Hn Hl Hc) as Hc1. assert (at_loc (set_table c n e) n = e) as En by (rewrite at_loc_set by (done || lia); by rewrite decide_True).
  assert (cache_ok (set_epoch (please_keep (set_table c n e) n) n b)) as Hc2.
  { apply set_epoch_ok, please_keep_ok; [done | by rewrite En | done]. }
  cbv zeta. enough (forall x, x = e \/ kept c x -> kept (set_epoch (please_keep (set_table c n e) n) n b) x) as Hk.
  { split; [ | done]. split_and!; [done | done | exists uint256_SetNull; auto | ]. intros x Hx. apply (stored_set c n); [done | done | exact Hx]. }
  - intros x Hx.
    assert (forall m, 0 <= m < size c -> bit_is_set (collection_flags (set_epoch (please_keep (set_table c n e) n) n b)) m = negb (m =? n) && bit_is_set (collection_flags c) m) as Hf.
    { intros m Hm. apply bit_is_set_unset; [ | lia]. pose proof (ok_flags c Hc). cbn [collection_flags set_table]. lia. }
    destruct Hx as [-> | (m & Hm & Hmb & <-)].
    + exists n. split; [done | ]. split; [by rewrite Hf, Z.eqb_refl | done].
    + exists m. split; [done | ]. rewrite Hf by done. assert (m <> n) by congruence. destruct (Z.eqb_spec m n); [done | ].
      split; [done | ]. change (at_loc (set_table c n e) m = at_loc c m). rewrite at_loc_set by (done || lia). by rewrite decide_False.
Qed.

Lemma insert_loop_ok depth : forall c last last_epoch e, cache_ok c -> inserted c e (cuckoo_insert_loop depth c last last_epoch e).
Proof.
  induction depth as [ | depth IH]; intros c last last_epoch e Hc; cbn [cuckoo_insert_loop].
  { split_and!; [done | done | by exists e; intros x [-> | ?] ? | by left]. }
  pose proof (find_free_spec c e) as Hf. destruct (find_free c e) as [n | ]; [destruct Hf; by apply put_inserted | ].
  set (n := next_loc _ _) in *. assert (n ∈ compute_hashes (size c) e) as Hl by apply next_loc_in.
  pose proof (ok_size c Hc). pose proof (ok_table c Hc) as Ht. pose proof (locs_range (size c) e n ltac:(lia) Hl) as Hn.
  set (c1 := set_epoch (set_table c n e) n last_epoch). assert (cache_ok c1) as Hc1 by (by apply set_epoch_ok, set_table_ok).
  assert (forall m, 0 <= m -> at_loc c1 m = if decide (m = n) then e else at_loc c m) as Hat by (intros m Hm; by apply at_loc_set).
  destruct (IH c1 n (epoch_at c n) (at_loc c n) Hc1) as (I1 & I2 & (y & I3) & I4). split_and!; [done | done | | ].
  - exists y. intros x Hx Hy. apply I3; [ | done]. destruct Hx as [-> | (m & Hm & Hmb & <-)].
    + right. exists n. split; [done | ]. split; [by apply Hf | rewrite Hat by lia; by rewrite decide_True].
    + destruct (decide (m = n)) as [-> | Hne]; [by left | right]. exists m. split; [done | ]. split; [done | rewrite Hat by lia; by rewrite decide_False].
  - intros x [Hx | ->]%I4; [by apply (stored_set c n) in Hx | left]. by exists n.
Qed.

(** A key that is there already is kept from now on. *)
Lemma refreshed_inserted c n e : cache_ok c -> n ∈ compute_hashes (size c) e -> at_loc c n = e ->
  let c' := set_epoch (please_keep c n) n true in inserted c e c' /\ forall x, x = e \/ kept c x -> kept c' x.
Proof.
  intros Hc Hl He. pose proof (ok_size c Hc). pose proof (locs_range (size c) e n ltac:(lia) Hl) as Hn. cbv zeta.
  enough (forall x, x = e \/ kept c x -> kept (set_epoch (please_keep c n) n true) x) as Hk.
  { split; [ | done]. split_and!; [ | done | exists uint256_SetNull; auto | by left]. apply set_epoch_ok, please_keep_ok; [done | by rewrite He | done]. }
  intros x Hx. pose proof (ok_flags c Hc) as Hfl.
  assert (forall m, 0 <= m < size c -> bit_is_set (collection_flags (set_epoch (please_keep c n) n true)) m = negb (m =? n) && bit_is_set (collection_flags c) m) as Hb.
  { intros m Hm. apply bit_is_set_unset; lia. }
  destruct Hx as [-> | (m & Hm & Hmb & <-)].
  + exists n. split; [done | ]. by rewrite Hb, Z.eqb_refl.
  + exists m. split; [done | ]. by rewrite Hb, Hmb, andb_false_r.
Qed.

(** With room for it, the new key becomes a recent one and nothing to be kept is lost. *)
Lemma insert_room c e : cache_ok c -> room (epoch_check c) e -> 1 <= depth_limit c ->
  recent (cache_insert c e) e /\ forall x, kept (epoch_check c) x -> kept (cache_insert c e) x.
Proof.
  intros Hc Hr Hd. destruct (epoch_check_ok c Hc) as (H1 & _). rewrite <- (epoch_check_depth c) in Hd. unfold cache_insert.
  set (c1 := epoch_check c) in *. pose proof (ok_size c1 H1). pose proof (find_key_spec c1 e) as Hf. destruct (find_key c1 e) as [n | ].
  { destruct Hf as [Hl He]. split; [ | intros x Hx; apply (refreshed_inserted c1 n e); auto]. rewrite <- He. apply marked_recent; [done | ].
    apply (locs_range _ e); [lia | done]. }
  destruct Hr as [Hr | (n & Hl & Hb)]; [done | ]. destruct (Z.to_nat (depth_limit c1)) as [ | depth] eqn:Ed; [lia | ]. cbn [cuckoo_insert_loop].
  pose proof (find_free_spec c1 e) as Hs. destruct (find_free c1 e) as [k | ]; [ | rewrite Hs in Hb; done]. destruct Hs as [Hk Hkb].
  pose proof (locs_range (size c1) e k ltac:(lia) Hk) as Hkr. pose proof (ok_table c1 H1) as Ht. split; [ | intros x Hx; apply (put_inserted c1 k e true); auto].
  pose proof (marked_recent (set_table c1 k e) k (set_table_ok c1 k e Hkr Hk H1) Hkr) as Hm. rewrite at_loc_set in Hm by (done || lia). by rewrite decide_True in Hm.
Qed.

(** An insertion ages the keys first. *)
Lemma insert_ok c e : cache_ok c -> inserted (epoch_check c) e (cache_insert c e) /\
  (forall x, stored (epoch_check c) x <-> stored c x) /\ (forall x, found (epoch_check c) x <-> found c x).
Proof.
  intros Hc. destruct (epoch_check_ok c Hc) as (H1 & H2 & H3). split; [ | unfold stored, found, at_loc; by rewrite H2, H3].
  unfold cache_insert. pose proof (find_key_spec (epoch_check c) e) as Hf. set (c1 := epoch_check c) in *.
  destruct (find_key c1 e) as [n | ]; [ | by apply insert_loop_ok]. destruct Hf as [Hl He]. by apply refreshed_inserted.
Qed.

(** *** Histories *)

Inductive cache_op : Type := OpInsert (e : uint256) | OpContains (e : uint256) (erase : bool).
Definition cache_apply (c : cuckoo_cache) (op : cache_op) : cuckoo_cache :=
  match op with OpInsert e => cache_insert c e | OpContains e erase => snd (cache_contains c e erase) end.

Lemma contains_ok c e erase : cache_ok c -> cache_ok (snd (cache_contains c e erase)) /\
  table (snd (cache_contains c e erase)) = table c /\ size (snd (cache_contains c e erase)) = size c.
Proof.
  intros Hc. pose proof (find_key_spec c e) as Hs. pose proof (ok_size c Hc). unfold cache_contains. destruct (find_key c e) as [n | ]; [ | done]. destruct erase; [ | done]. cbn [snd].
  split; [ | done]. apply allow_erase_ok; [ | done]. apply (locs_range _ e); [lia | apply Hs].
Qed.

Lemma setup_ok float_log2 n : 0 <= n < 2 ^ 32 - 7 -> cache_ok (setup float_log2 cache_empty n) /\
  forall x, stored (setup float_log2 cache_empty n) x -> x = uint256_SetNull.
Proof.
  intros Hn. unfold setup. assert (2 <= Z.max 2 n < 2 ^ 32 - 7) as Hm by lia. set (k := Z.max 2 n) in *. clearbody k. cbn [table cache_empty epoch_flags].
  rewrite !resize_nil. split.
  - split; cbn [size table epoch_flags collection_flags]; unfold vsize; rewrite ?length_replicate; [lia | lia | lia | | ].
    + unfold flags_new, u32. rewrite length_replicate, Z.mod_small by lia. pose proof (Z.div_mod (k + 7) 8 ltac:(lia)). pose proof (Z.mod_pos_bound (k + 7) 8 ltac:(lia)).
      rewrite Z2Nat.id by lia. lia.
    + intros m Hmk. rewrite bit_is_set_spec by lia. unfold flags_new, u32. rewrite Z.mod_small by lia.
      assert (m / 8 < (k + 7) / 8) by (apply Z.div_lt_upper_bound; [lia | ]; pose proof (Z.div_mod (k + 7) 8 ltac:(lia)); pose proof (Z.mod_pos_bound (k + 7) 8 ltac:(lia)); lia).
      assert (0 <= m / 8) by (apply Z.div_pos; lia). rewrite lookup_replicate_2 by lia. cbn [default from_option id].
      pose proof (Z.mod_pos_bound m 8 ltac:(lia)). change 255 with (Z.ones 8). by rewrite Z.ones_spec_low by lia.
  - intros x (m & _ & <-). unfold at_loc. cbn [table]. destruct (replicate _ _ !! _) as [y | ] eqn:E; [by apply lookup_replicate in E as [-> _] | done].
Qed.

Lemma run_stored ops : forall c, cache_ok c -> cache_ok (foldl cache_apply c ops) /\
  forall x, stored (foldl cache_apply c ops) x -> stored c x \/ OpInsert x ∈ ops.
Proof.
  induction ops as [ | op ops IH]; intros c Hc; cbn [foldl]; [split; [done | by left] | ].
  assert (cache_ok (cache_apply c op) /\ forall x, stored (cache_apply c op) x -> stored c x \/ op = OpInsert x) as [H1 H2].
  { destruct op as [e | e erase]; cbn [cache_apply].
    - destruct (insert_ok c e Hc) as ((I1 & _ & _ & I4) & I5 & _). split; [done | ]. intros x [Hx | ->]%I4; [left; by apply I5 | by right].
    - destruct (contains_ok c e erase Hc) as (I1 & I2 & I3). split; [done | ]. intros x. unfold stored, at_loc. rewrite I2, I3. by left. }
  destruct (IH _ H1) as [I1 I2]. split; [done | ]. intros x [[Hx | ->]%H2 | Hx]%I2; [by left | right; by left | right; by right].
Qed.

Lemma run_depth ops : forall c, depth_limit (foldl cache_apply c ops) = depth_limit c.
Proof.
  induction ops as [ | [e | e erase] ops IH]; intros c; cbn [foldl]; [done | ..]; rewrite IH; cbn [cache_apply]; unfold cache_insert, cache_contains.
  - rewrite <- (epoch_check_depth c). destruct (find_key _ _); [done | apply insert_loop_depth].
  - destruct (find_key c e); [by destruct erase | done].
Qed.

(** (C40) A cuckoo cache.  Whatever is inserted, looked up and erased, in any order, in a cache that
    was set up with fewer than 2^32 - 7 places: it finds only keys that were inserted, or the null key
    of places never used; looking a key up, also to erase it, changes no answer, so an erased key is
    still found until its place is needed.  An insertion first ages the keys, which keeps those of
    the present epoch.  If the new key is there already or one of its eight places is free (and the
    limit of moves is not zero), it is then found and of the present epoch, and every key that was to
    be kept is kept.  If all its places are taken, keys are moved, and of the new key and those that
    were to be kept all but one at most are found. *)
Theorem cuckoo_cache_answers float_log2 n ops : 0 <= n < 2 ^ 32 - 7 ->
  let c := foldl cache_apply (setup float_log2 cache_empty n) ops in
  (forall e erase, fst (cache_contains c e erase) = true -> OpInsert e ∈ ops \/ e = uint256_SetNull) /\
  (forall e erase x erase', fst (cache_contains (snd (cache_contains c e erase)) x erase') = fst (cache_contains c x erase')) /\
  (forall x, recent c x -> kept (epoch_check c) x) /\
  (forall e, room (epoch_check c) e -> 1 <= u8 (float_log2 (Z.max 2 n)) ->
     recent (cache_insert c e) e /\ forall x, x = e \/ kept (epoch_check c) x -> fst (cache_contains (cache_insert c e) x false) = true) /\
  (forall e, exists y, forall x, x = e \/ kept (epoch_check c) x -> x <> y -> fst (cache_contains (cache_insert c e) x false) = true).
Proof.
  intros Hn c. destruct (setup_ok float_log2 n Hn) as [Hok Hnull]. destruct (run_stored ops _ Hok) as [Hc Hs]. fold c in Hc, Hs. split_and!.
  - intros e erase He. apply contains_found, found_stored in He; [ | done]. destruct (Hs e He) as [?%Hnull | ?]; auto.
  - intros e erase x erase'. destruct (contains_ok c e erase Hc) as (_ & E1 & E2). apply eq_true_iff_eq. rewrite !contains_found.
    unfold found, at_loc. by rewrite E1, E2.
  - intros x. by apply epoch_check_recent.
  - intros e Hr Hd. assert (1 <= depth_limit c) as Hd' by (unfold c; by rewrite run_depth). destruct (insert_room c e Hc Hr Hd') as [H1 H2].
    destruct (insert_ok c e Hc) as ((I1 & _) & _). split; [done | ]. intros x Hx. apply contains_found, kept_found; [done | ].
    destruct Hx as [-> | Hx]; [ | by apply H2]. destruct H1 as (k & Hk & Hb & _ & Ek). by exists k.
  - intros e. destruct (insert_ok c e Hc) as ((I1 & _ & (y & I3) & _) & _). exists y. intros x Hx Hy. apply contains_found, kept_found; auto.
Qed.

(** Two places, three keys: an erased key makes room; when both places are taken, one key is lost. *)
Lemma cuckoo_cache_answers_witness :
  let ops := [OpInsert (repeat 1 32); OpInsert (repeat 200 32)] in
  let c := foldl cache_apply (setup (fun _ => 1) cache_empty 2) ops in
  let c' := foldl cache_apply (setup (fun _ => 1) cache_empty 2) (ops ++ [OpContains (repeat 1 32) true]) in
  fst (cache_contains c' (repeat 1 32) false) = true /\ fst (cache_contains c (repeat 9 32) false) = false /\
  recent (cache_insert c' (repeat 9 32)) (repeat 9 32) /\
  exists y, forall x, x = repeat 9 32 \/ kept (epoch_check c) x -> x <> y -> fst (cache_contains (cache_insert c (repeat 9 32)) x false) = true.
Proof.
  split; [vm_compute; reflexivity | ]. split; [vm_compute; reflexivity | ]. split.
  - apply (cuckoo_cache_answers (fun _ => 1) 2 [OpInsert (repeat 1 32); OpInsert (repeat 200 32); OpContains (repeat 1 32) true]); [lia | right | vm_compute; discriminate].
    exists 0. split; [left | vm_compute; reflexivity].
  - apply (cuckoo_cache_answers (fun _ => 1) 2 [OpInsert (repeat 1 32); OpInsert (repeat 200 32)]). lia.
Defined.
End Cuckoo.
