(* ===== verification/ScriptChecks.v ===== *)
(** * Script checks of a transaction ([CheckInputs] and [GetBlockScriptFlags] of
      [src/validation.cpp], [src/script/sigcache.cpp], [src/script/script_error.cpp]) and proof of
      stake ([CheckProofOfStake] of [src/pos.cpp], [UpdateHashProof] of [src/validation.cpp])

    The scripts of all inputs are run at once or collected for the threads that run them later,
    with a cache of signatures that verified and one of transactions whose scripts did, both cuckoo
    caches of salted hashes.  A script is run with the answers of the signature cache as it was
    before the run: the interpreter asks a checker without state.  What a single question does to
    the cache is modelled in full.

    Theorems: when the keys in the caches were made from signatures and scripts that verified,
    [CheckInputs] accepts exactly when all the scripts verify without any cache, at once or
    deferred, unless keys of different things coincide, and the caches stay such; a proof of stake is accepted exactly for a mature unspent output whose key signed
    and whose kernel meets the target. *)

From Stdlib Require Import String FunctionalExtensionality.
From stdpp Require Import gmap.
From S2P Require Import Prelude Serialize ArithUint256 ScriptNum Script SigEncoding Interpreter VerifyScript Standard Transaction Block Merkle Chain MedianTime Coins Pow VersionBits Undo TxVerify SigHash CheckBlock CuckooCache.
Open Scope Z_scope.

Abbreviation length := Datatypes.length (only parsing).

(** ** Definitions *)

Definition ScriptErrorString (serror : ScriptError) : string :=
  match serror with
  | SCRIPT_ERR_OK => "No error"
  | SCRIPT_ERR_EVAL_FALSE => "Script evaluated without error but finished with a false/empty top stack element"
  | SCRIPT_ERR_VERIFY => "Script failed an OP_VERIFY operation"
  | SCRIPT_ERR_EQUALVERIFY => "Script failed an OP_EQUALVERIFY operation"
  | SCRIPT_ERR_CHECKMULTISIGVERIFY => "Script failed an OP_CHECKMULTISIGVERIFY operation"
  | SCRIPT_ERR_CHECKSIGVERIFY => "Script failed an OP_CHECKSIGVERIFY operation"
  | SCRIPT_ERR_NUMEQUALVERIFY => "Script failed an OP_NUMEQUALVERIFY operation"
  | SCRIPT_ERR_SCRIPT_SIZE => "Script is too big"
  | SCRIPT_ERR_PUSH_SIZE => "Push value size limit exceeded"
  | SCRIPT_ERR_OP_COUNT => "Operation limit exceeded"
  | SCRIPT_ERR_STACK_SIZE => "Stack size limit exceeded"
  | SCRIPT_ERR_SIG_COUNT => "Signature count negative or greater than pubkey count"
  | SCRIPT_ERR_PUBKEY_COUNT => "Pubkey count negative or limit exceeded"
  | SCRIPT_ERR_BAD_OPCODE => "Opcode missing or not understood"
  | SCRIPT_ERR_DISABLED_OPCODE => "Attempted to use a disabled opcode"
  | SCRIPT_ERR_INVALID_STACK_OPERATION => "Operation not valid with the current stack size"
  | SCRIPT_ERR_INVALID_ALTSTACK_OPERATION => "Operation not valid with the current altstack size"
  | SCRIPT_ERR_OP_RETURN => "OP_RETURN was encountered"
  | SCRIPT_ERR_UNBALANCED_CONDITIONAL => "Invalid OP_IF construction"
  | SCRIPT_ERR_NEGATIVE_LOCKTIME => "Negative locktime"
  | SCRIPT_ERR_UNSATISFIED_LOCKTIME => "Locktime requirement not satisfied"
  | SCRIPT_ERR_SIG_HASHTYPE => "Signature hash type missing or not understood"
  | SCRIPT_ERR_SIG_DER => "Non-canonical DER signature"
  | SCRIPT_ERR_MINIMALDATA => "Data push larger than necessary"
  | SCRIPT_ERR_SIG_PUSHONLY => "Only non-push operators allowed in signatures"
  | SCRIPT_ERR_SIG_HIGH_S => "Non-canonical signature: S value is unnecessarily high"
  | SCRIPT_ERR_SIG_NULLDUMMY => "Dummy CHECKMULTISIG argument must be zero"
  | SCRIPT_ERR_MINIMALIF => "OP_IF/NOTIF argument must be minimal"
  | SCRIPT_ERR_SIG_NULLFAIL => "Signature must be zero for failed CHECK(MULTI)SIG operation"
  | SCRIPT_ERR_DISCOURAGE_UPGRADABLE_NOPS => "NOPx reserved for soft-fork upgrades"
  | SCRIPT_ERR_DISCOURAGE_UPGRADABLE_WITNESS_PROGRAM => "Witness version reserved for soft-fork upgrades"
  | SCRIPT_ERR_PUBKEYTYPE => "Public key is neither compressed or uncompressed"
  | SCRIPT_ERR_CLEANSTACK => "Extra items left on stack after execution"
  | SCRIPT_ERR_WITNESS_PROGRAM_WRONG_LENGTH => "Witness program has incorrect length"
  | SCRIPT_ERR_WITNESS_PROGRAM_WITNESS_EMPTY => "Witness program was passed an empty witness"
  | SCRIPT_ERR_WITNESS_PROGRAM_MISMATCH => "Witness program hash mismatch"
  | SCRIPT_ERR_WITNESS_MALLEATED => "Witness requires empty scriptSig"
  | SCRIPT_ERR_WITNESS_MALLEATED_P2SH => "Witness requires only-redeemscript scriptSig"
  | SCRIPT_ERR_WITNESS_UNEXPECTED => "Witness provided for non-witness script"
  | SCRIPT_ERR_WITNESS_PUBKEYTYPE => "Using non-compressed keys in segwit"
  | SCRIPT_ERR_OP_CODESEPARATOR => "Using OP_CODESEPARATOR in non-witness script"
  | SCRIPT_ERR_SIG_FINDANDDELETE => "Signature is found in scriptCode"
  | SCRIPT_ERR_UNKNOWN_ERROR | SCRIPT_ERR_ERROR_COUNT => "unknown error"
  end%string.

Definition REJECT_NONSTANDARD : Z := 0x40.
Definition MANDATORY_SCRIPT_VERIFY_FLAGS : Z := SCRIPT_VERIFY_P2SH.
Definition STANDARD_SCRIPT_VERIFY_FLAGS : Z :=
  foldl Z.lor MANDATORY_SCRIPT_VERIFY_FLAGS
    [SCRIPT_VERIFY_DERSIG; SCRIPT_VERIFY_STRICTENC; SCRIPT_VERIFY_MINIMALDATA; SCRIPT_VERIFY_NULLDUMMY;
     SCRIPT_VERIFY_DISCOURAGE_UPGRADABLE_NOPS; SCRIPT_VERIFY_CLEANSTACK; SCRIPT_VERIFY_MINIMALIF; SCRIPT_VERIFY_NULLFAIL;
     SCRIPT_VERIFY_CHECKLOCKTIMEVERIFY; SCRIPT_VERIFY_CHECKSEQUENCEVERIFY; SCRIPT_VERIFY_LOW_S; SCRIPT_VERIFY_WITNESS;
     SCRIPT_VERIFY_DISCOURAGE_UPGRADABLE_WITNESS_PROGRAM; SCRIPT_VERIFY_WITNESS_PUBKEYTYPE; SCRIPT_VERIFY_CONST_SCRIPTCODE].
Definition STANDARD_NOT_MANDATORY_VERIFY_FLAGS : Z := Z.land STANDARD_SCRIPT_VERIFY_FLAGS (u32 (Z.lnot MANDATORY_SCRIPT_VERIFY_FLAGS)).

(** *** The flags of a block *)

Section Flags.
Context (m : BlockMap) (params : Params).

Definition IsScriptWitnessEnabled : bool := negb (nTimeout (vDeployments params DEPLOYMENT_SEGWIT) =? 0).

Definition IsNullDummyEnabled (pindexPrev : option ptr) (cache : VersionBitsCache) : option (bool * VersionBitsCache) :=
  '(s, cache) ← VersionBitsState m pindexPrev params DEPLOYMENT_SEGWIT cache;
  Some (bool_decide (s = ACTIVE), cache).

Definition GetBlockScriptFlags (pindex : CBlockIndex) (cache : VersionBitsCache) : option (Z * VersionBitsCache) :=
  let flags := 0 in
  let flags :=
    if base_blob_IsNull (BIP16Exception params) ||
       match phashBlock pindex with None => true | Some hash => negb (base_blob_eq hash (BIP16Exception params)) end
    then Z.lor flags SCRIPT_VERIFY_P2SH else flags in
  let flags := if has flags SCRIPT_VERIFY_P2SH && IsScriptWitnessEnabled then Z.lor flags SCRIPT_VERIFY_WITNESS else flags in
  let flags := if BIP66Height params <=? nHeight pindex then Z.lor flags SCRIPT_VERIFY_DERSIG else flags in
  let flags := if BIP65Height params <=? nHeight pindex then Z.lor flags SCRIPT_VERIFY_CHECKLOCKTIMEVERIFY else flags in
  '(csv, cache) ← VersionBitsState m (pprev pindex) params DEPLOYMENT_CSV cache;
  let flags := if bool_decide (csv = ACTIVE) then Z.lor flags SCRIPT_VERIFY_CHECKSEQUENCEVERIFY else flags in
  '(nulldummy, cache) ← IsNullDummyEnabled (pprev pindex) cache;
  Some (if (nulldummy : bool) then Z.lor flags SCRIPT_VERIFY_NULLDUMMY else flags, cache).
End Flags.

(** *** The caches *)

(** A cuckoo cache, and the nonce its keys are salted with: [CSignatureCache], and
    [scriptExecutionCache] with [scriptExecutionCacheNonce] *)
Record SaltedCache : Type := mk_SaltedCache { nonce : bytes; setValid : Cuckoo.cuckoo_cache }.
Definition Get_entry (c : SaltedCache) (entry : uint256) (erase : bool) : bool * SaltedCache :=
  let '(hit, s) := Cuckoo.cache_contains (setValid c) entry erase in (hit, mk_SaltedCache (nonce c) s).
Definition insert_entry (c : SaltedCache) (entry : uint256) : SaltedCache := mk_SaltedCache (nonce c) (Cuckoo.cache_insert (setValid c) entry).

Section Scripts.
Context (C : Crypto).
(** [CPubKey::Verify(hash, sig)], on the bytes of a key *)
Context (Verify : bytes -> uint256 -> bytes -> bool).

Definition ComputeEntry (c : SaltedCache) (hash : uint256) (vchSig pubkey : bytes) : uint256 :=
  SHA256 C (nonce c ++ hash ++ pubkey ++ vchSig).

(** The answer, and the cache afterwards *)
Definition CachingVerifySignature (store : bool) (c : SaltedCache) (pubkey : bytes) (sighash : uint256) (vchSig : bytes) : bool * SaltedCache :=
  let entry := ComputeEntry c sighash vchSig pubkey in
  let '(hit, c) := Get_entry c entry (negb store) in
  if (hit : bool) then (true, c)
  else if negb (Verify pubkey sighash vchSig) then (false, c)
  else (true, if store then insert_entry c entry else c).

(** The checker that asks a given signature cache; what a run of a script adds to the cache is
    not seen by the same run. *)
Definition CachingTransactionSignatureChecker (c : SaltedCache) (store : bool) (txTo : CMutableTransaction) (nIn amount : Z)
  (txdata : PrecomputedTransactionData) : BaseSignatureChecker :=
  TransactionSignatureChecker C (fun key hash sig => fst (CachingVerifySignature store c key hash sig)) txTo nIn amount (Some txdata).

Record CScriptCheck : Type := mk_CScriptCheck {
  m_tx_out : CTxOut; ptxTo : CTransaction; sc_nIn : Z; nFlags : Z; cacheStore : bool; sc_txdata : PrecomputedTransactionData }.

(** [operator()]; there is an input at [nIn]. *)
Definition run_check (c : SaltedCache) (k : CScriptCheck) : verify unit :=
  match vin (ptxTo k) !! Z.to_nat (sc_nIn k) with
  | None => Err VAbort
  | Some txin =>
      VerifyScript C (CachingTransactionSignatureChecker c (cacheStore k) (ptxTo k) (sc_nIn k) (nValue (m_tx_out k)) (sc_txdata k))
        (scriptSig txin) (scriptPubKey (m_tx_out k)) (scriptWitness txin) (nFlags k)
  end.

(** The key of a transaction in [scriptExecutionCache]: only nineteen bytes of the nonce are used. *)
Definition hashCacheEntry (c : SaltedCache) (tx : CTransaction) (flags : Z) : uint256 :=
  SHA256 C (take (55 - 4 - 32) (nonce c) ++ GetWitnessHash tx ++ ser_writedata32 flags).

(** *** [CheckInputs] *)

Section CheckInputs.
Context {B : Type} `{CoinsView B} (usage : Coin -> Z).
Abbreviation cache := (CCoinsViewCache B).

(** The loop over the inputs from the [i]-th on: the checks that were deferred *)
Fixpoint check_scripts (sigs : SaltedCache) (tx : CTransaction) (flags : Z) (cacheSigStore : bool) (txdata : PrecomputedTransactionData) (defer : bool)
  (inputs : cache) (vin : list CTxIn) (i : Z) : bchecks (list CScriptCheck) * cache :=
  match vin with
  | [] => (Ok [], inputs)
  | txin :: vin =>
      let '(coin, inputs) := AccessCoin usage inputs (prevout txin) in
      if IsSpent coin then (Err BlockAbort, inputs)
      else
        let check := mk_CScriptCheck (out coin) tx i flags cacheSigStore txdata in
        if defer then
          let '(r, inputs) := check_scripts sigs tx flags cacheSigStore txdata defer inputs vin (i + 1) in
          (l ← r; Ok (check :: l), inputs)
        else
          match run_check sigs check with
          | Ok _ => check_scripts sigs tx flags cacheSigStore txdata defer inputs vin (i + 1)
          | Err VAbort => (Err BlockAbort, inputs)
          | Err (VFail e) =>
              let check2 := mk_CScriptCheck (out coin) tx i (Z.land flags (u32 (Z.lnot STANDARD_NOT_MANDATORY_VERIFY_FLAGS))) cacheSigStore txdata in
              let mandatory := BlockReject 100 REJECT_INVALID ("mandatory-script-verify-flag-failed (" ++ ScriptErrorString e ++ ")")%string false in
              (Err (if has flags STANDARD_NOT_MANDATORY_VERIFY_FLAGS then
                      match run_check sigs check2 with
                      | Ok _ => BlockReject 0 REJECT_NONSTANDARD ("non-mandatory-script-verify-flag (" ++ ScriptErrorString e ++ ")")%string false
                      | Err VAbort => BlockAbort
                      | Err (VFail _) => mandatory
                      end
                    else mandatory), inputs)
          end
  end.

(** The checks left to run, the coins and [scriptExecutionCache]; [defer]: [pvChecks] is given. *)
Definition CheckInputs (sigs execs : SaltedCache) (tx : CTransaction) (inputs : cache) (fScriptChecks : bool) (flags : Z)
  (cacheSigStore cacheFullScriptStore : bool) (txdata : PrecomputedTransactionData) (defer : bool)
  : bchecks (list CScriptCheck) * cache * SaltedCache :=
  if IsCoinBase tx || negb fScriptChecks then (Ok [], inputs, execs)
  else
    let entry := hashCacheEntry execs tx flags in
    let '(hit, execs) := Get_entry execs entry (negb cacheFullScriptStore) in
    if (hit : bool) then (Ok [], inputs, execs)
    else
      let '(r, inputs) := check_scripts sigs tx flags cacheSigStore txdata defer inputs (vin tx) 0 in
      (r, inputs, if is_ok r && cacheFullScriptStore && negb defer then insert_entry execs entry else execs).

(** *** Proof of stake *)

(** [script/sign.cpp] *)
Definition VerifySignature (coin : Coin) (txFromHash : uint256) (txTo : CTransaction) (nIn flags : Z) : verify bool :=
  match vin txTo !! Z.to_nat nIn with
  | None => Err VAbort
  | Some txin =>
      if negb (base_blob_eq (outpoint_hash (prevout txin)) txFromHash) then Ok false
      else match VerifyScript C (TransactionSignatureChecker C Verify txTo nIn 0 None) (scriptSig txin) (scriptPubKey (out coin)) [] flags with
      | Ok _ => Ok true
      | Err (VFail _) => Ok false
      | Err VAbort => Err VAbort
      end
  end.

Context (m : BlockMap).

(** [state.DoS(level, error(...))] with the code and the reason left out *)
Definition unexplained (level : Z) : block_failure := BlockReject level 0 String.EmptyString false.

(** [hashProofOfStake] *)
Definition CheckProofOfStake (pindexPrev : ptr) (tx : CTransaction) (nBits nTimeBlock : Z) (view : cache) : bchecks uint256 * cache :=
  if negb (IsCoinStake tx) then (Err PlainError, view)
  else match vin tx, m !! pindexPrev, kernel_source usage m pindexPrev (default COutPoint_SetNull (prevout <$> head (vin tx))) view with
  | txin :: _, Some bprev, Some (Some (coinPrev, blockFrom), view) =>
      (match VerifySignature coinPrev (outpoint_hash (prevout txin)) tx 0 0 with
       | Err _ => Err BlockAbort
       | Ok false => Err (unexplained 100)
       | Ok true =>
           let '(ok, hashProofOfStake, _) :=
             CheckStakeKernelHash C bprev nBits (bi_nTime blockFrom) (nValue (out coinPrev)) (prevout txin) nTimeBlock uint256_SetNull uint256_SetNull in
           if (ok : bool) then Ok hashProofOfStake else Err (unexplained 1)
       end, view)
  | _ :: _, Some _, Some (None, view) => (Err (unexplained 100), view)
  | _, _, _ => (Err BlockAbort, view)
  end.

Context (params : Params).

(** The hash recorded in the entry of the block *)
Definition UpdateHashProof (block : CBlock) (pindex : CBlockIndex) (view : cache) : bchecks uint256 * cache :=
  if header_IsProofOfWork block && (nLastPOWBlock params <? nHeight pindex) then (Err (unexplained 100), view)
  else if header_IsProofOfStake block && negb (CheckCoinStakeTimestamp (u32 (header_GetBlockTime block))) then (Err (unexplained 50), view)
  else match GetNextWorkRequired m (pprev pindex) block params (header_IsProofOfStake block) with
  | None => (Err BlockAbort, view)
  | Some required =>
      if negb (nBits block =? required) then (Err (unexplained 100), view)
      else if header_IsProofOfStake block then
        match pprev pindex, vtx block !! 1%nat with
        | Some prev, Some tx => CheckProofOfStake prev tx (nBits block) (nTime block) view
        | _, _ => (Err BlockAbort, view)
        end
      else (Ok (Block_GetHash C block), view)
  end.
End CheckInputs.
End Scripts.

(** ** Theorems *)

(** *** What the caches may hold *)

(** A key as a [CPubKey] holds it: not empty, and of the size its first byte tells *)
Definition valid_key (key : bytes) : Prop := key <> [] /\ CPubKey_Set key = key.

Lemma CPubKey_Set_valid v : CPubKey_IsValid (CPubKey_Set v) = true -> valid_key (CPubKey_Set v).
Proof.
  intros Hv. assert (CPubKey_Set v = v \/ CPubKey_Set v = []) as [E | E] by (unfold CPubKey_Set; destruct (negb _ && _); auto).
  - rewrite E in *. split; [ | done]. by intros ->.
  - by rewrite E in Hv.
Qed.

Section Sound.
Context (C : Crypto) (HC : forall b, length (SHA256 C b) = 32%nat) (Verify : bytes -> uint256 -> bytes -> bool).
(** What every outpoint refers to: an outpoint names a transaction by its hash. *)
Context (ledger : COutPoint -> CTxOut).

Definition plain_checker (tx : CTransaction) (i : Z) (amount : Z) : BaseSignatureChecker :=
  TransactionSignatureChecker C Verify tx i amount (Some (PrecomputedTransactionData_new C tx)).

(** The script of an input, and those of all inputs, verify with nothing cached. *)
Definition script_verifies (tx : CTransaction) (flags : Z) (o : CTxOut) (i : Z) (txin : CTxIn) : Prop :=
  VerifyScript C (plain_checker tx i (nValue o)) (scriptSig txin) (scriptPubKey o) (scriptWitness txin) flags = Ok tt.
Definition scripts_verify (tx : CTransaction) (flags : Z) : Prop :=
  forall i txin, vin tx !! i = Some txin -> script_verifies tx flags (ledger (prevout txin)) (Z.of_nat i) txin.

(** Every hit is right: a signature that is found verifies, and so do the scripts of a transaction
    that is found. *)
Definition hit (c : SaltedCache) (entry : uint256) : Prop := Cuckoo.found (setValid c) entry.
Definition sigs_right (c : SaltedCache) : Prop :=
  forall key hash sig, valid_key key -> length hash = 32%nat -> hit c (ComputeEntry C c hash sig key) -> Verify key hash sig = true.
Definition execs_right (c : SaltedCache) (tx : CTransaction) (flags : Z) : Prop :=
  hit c (hashCacheEntry C c tx flags) -> scripts_verify tx flags.

(** The same keys, though perhaps other places that may be overwritten *)
Definition same_entries (c c' : SaltedCache) : Prop :=
  nonce c' = nonce c /\ Cuckoo.table (setValid c') = Cuckoo.table (setValid c) /\ Cuckoo.size (setValid c') = Cuckoo.size (setValid c).

Lemma same_entries_refl c : same_entries c c.
Proof. done. Qed.
Lemma same_entries_trans c1 c2 c3 : same_entries c1 c2 -> same_entries c2 c3 -> same_entries c1 c3.
Proof. intros (A1 & A2 & A3) (B1 & B2 & B3). red. by rewrite B1, B2, B3. Qed.
Lemma same_entries_hit c c' e : same_entries c c' -> hit c' e <-> hit c e.
Proof. intros (_ & E1 & E2). unfold hit, Cuckoo.found, Cuckoo.at_loc. by rewrite E1, E2. Qed.
Lemma same_entries_execs c c' tx flags : same_entries c c' -> execs_right c tx flags -> execs_right c' tx flags.
Proof. intros Hs He. unfold execs_right, hashCacheEntry. rewrite (same_entries_hit c c' _ Hs), (proj1 Hs). exact He. Qed.

Lemma Get_entry_spec c entry erase : (fst (Get_entry c entry erase) = true <-> hit c entry) /\ same_entries c (snd (Get_entry c entry erase)).
Proof.
  unfold Get_entry. pose proof (Cuckoo.contains_found (setValid c) entry erase) as Hf. unfold Cuckoo.cache_contains in *.
  destruct (Cuckoo.find_key _ _); [destruct erase | ]; done.
Qed.

Lemma Get_entry_keep c entry : Get_entry c entry false = (fst (Get_entry c entry false), c).
Proof. unfold Get_entry, Cuckoo.cache_contains. by destruct (Cuckoo.find_key _ _), c. Qed.

Lemma CachingVerifySignature_spec store c key hash sig : sigs_right c -> valid_key key -> length hash = 32%nat ->
  fst (CachingVerifySignature C Verify store c key hash sig) = Verify key hash sig /\
  let c1 := snd (Get_entry c (ComputeEntry C c hash sig key) (negb store)) in
  same_entries c c1 /\
  (snd (CachingVerifySignature C Verify store c key hash sig) = c1 \/
   Verify key hash sig = true /\ snd (CachingVerifySignature C Verify store c key hash sig) = insert_entry c1 (ComputeEntry C c hash sig key)).
Proof.
  intros Hc Hk Hh. unfold CachingVerifySignature. destruct (Get_entry_spec c (ComputeEntry C c hash sig key) (negb store)) as [H1 H2].
  destruct (Get_entry c _ _) as [found_ c1]. cbn [fst snd] in *. destruct found_.
  { split; [symmetry; eapply Hc; [done | done | by apply H1] | split; [done | by left]]. }
  destruct (Verify key hash sig) eqn:Ev; cbn [negb fst snd]; [ | auto]. split; [done | ]. split; [done | ]. destruct store; auto.
Qed.

Lemma SignatureHash_length code tx i t a v d h : SignatureHash C code tx i t a v d = Some h -> length h = 32%nat.
Proof.
  unfold SignatureHash, Hash256. destruct (vin tx !! _); [ | done]. cbn [mbind option_bind]. destruct v.
  - destruct (_ && _); [by intros [= <-] | ]. destruct (SignatureSerializer_Serialize _ _ _ _); [ | done]. intros [= <-]. apply HC.
  - intros [= <-]. apply HC.
Qed.

Lemma caching_checker sigs store (tx : CTransaction) i amount : sigs_right sigs ->
  CachingTransactionSignatureChecker C Verify sigs store tx i amount (PrecomputedTransactionData_new C tx) = plain_checker tx i amount.
Proof.
  intros Hs. unfold CachingTransactionSignatureChecker, plain_checker, TransactionSignatureChecker. f_equal.
  extensionality s. extensionality k. extensionality code. extensionality v. unfold TransactionSignatureChecker_CheckSig.
  destruct (CPubKey_IsValid _) eqn:Ek; [ | done]. cbn [negb]. destruct (rev s) as [ | ht r]; [done | ].
  destruct (SignatureHash _ _ _ _ _ _ _ _) as [h | ] eqn:Eh; [ | done].
  apply CachingVerifySignature_spec; [done | by apply CPubKey_Set_valid | by eapply SignatureHash_length].
Qed.

Lemma run_check_verifies sigs (tx : CTransaction) o i flags store txin : sigs_right sigs -> vin tx !! Z.to_nat i = Some txin ->
  run_check C Verify sigs (mk_CScriptCheck o tx i flags store (PrecomputedTransactionData_new C tx)) = Ok tt <-> script_verifies tx flags o i txin.
Proof. intros Hs Hi. unfold run_check. cbn [ptxTo sc_nIn m_tx_out nFlags cacheStore sc_txdata]. by rewrite Hi, caching_checker. Qed.

(** *** [CheckInputs] *)

Section Inputs.
Context {B : Type} `{HB : CoinsViewLaws B} (usage : Coin -> Z).

(** The checks that were deferred all pass; there are none when the scripts were run at once. *)
Definition accepts (sigs : SaltedCache) (r : bchecks (list CScriptCheck)) : Prop :=
  exists l, r = Ok l /\ Forall (fun k => run_check C Verify sigs k = Ok tt) l.

Lemma check_scripts_spec sigs (tx : CTransaction) flags store defer (c : CCoinsViewCache B) l ks pre : sigs_right sigs -> valid_cache c ->
  vin tx = pre ++ l -> spends (contents_cache c) l ks -> 
  let r := check_scripts C Verify usage sigs tx flags store (PrecomputedTransactionData_new C tx) defer c l (vsize pre) in
  same_view c (snd r) /\
  (accepts sigs (fst r) <-> forall j txin k, l !! j = Some txin -> ks !! j = Some k -> script_verifies tx flags (out k) (vsize pre + Z.of_nat j) txin) /\
  (defer = true \/ fst r = Ok [] \/ exists e, fst r = Err e).
Proof.
  intros Hs. revert c ks pre. induction l as [ | i l IH]; intros c ks pre Hv E Hl; cbn [check_scripts].
  { cbn [fst snd]. split; [by split | ]. split; [ | by auto]. split; [done | ]. intros _. by exists []. }
  inv Hl. rename y into k, l' into ks.
  match goal with H : contents_cache c _ = Some k |- _ => rename H into Hk end.
  match goal with H : Forall2 _ l ks |- _ => rename H into Hl end.
  pose proof (AccessCoin_spec usage c (prevout i) Hv) as [Hu Hsv]. destruct (AccessCoin usage c (prevout i)) as [k' c1]. cbn [fst snd] in *.
  rewrite Hk in Hu. unfold unspent in Hu. destruct (IsSpent k') eqn:Esp; [done | ]. injection Hu as ->.
  assert (vin tx !! Z.to_nat (vsize pre) = Some i) as Hi.
  { rewrite E. unfold vsize. rewrite Nat2Z.id, lookup_app_r, Nat.sub_diag by lia. done. }
  pose proof (run_check_verifies sigs tx (out k) (vsize pre) flags store i Hs Hi) as Hrun.
  destruct (IH c1 ks (pre ++ [i])) as (Hs' & Hiff & Hnil); [apply Hsv | by rewrite <- app_assoc | by apply (spends_same_view c c1) | ].
  assert (vsize (pre ++ [i]) = vsize pre + 1) as Evs by (rewrite vsize_app; done). rewrite Evs in *.
  assert (Hsplit : (forall j txin k0, (i :: l) !! j = Some txin -> (k :: ks) !! j = Some k0 -> script_verifies tx flags (out k0) (vsize pre + Z.of_nat j) txin) <->
    script_verifies tx flags (out k) (vsize pre) i /\
    forall j txin k0, l !! j = Some txin -> ks !! j = Some k0 -> script_verifies tx flags (out k0) (vsize pre + 1 + Z.of_nat j) txin).
  { split.
    - intros Hx. split; [specialize (Hx 0%nat i k eq_refl eq_refl); by rewrite Z.add_0_r in Hx | ].
      intros j txin k0 Hj Hj'. specialize (Hx (S j) txin k0 Hj Hj'). replace (vsize pre + Z.of_nat (S j)) with (vsize pre + 1 + Z.of_nat j) in Hx by lia. done.
    - intros [H0 Hx] [ | j] txin k0 Hj Hj'; cbn [lookup list_lookup] in *.
      + injection Hj as <-. injection Hj' as <-. by rewrite Z.add_0_r.
      + replace (vsize pre + Z.of_nat (S j)) with (vsize pre + 1 + Z.of_nat j) by lia. by apply Hx. }
  rewrite Hsplit. destruct defer.
  - destruct (check_scripts _ _ _ _ _ _ _ _ _ _ l _) as [r c2]. cbn [fst snd] in *. split; [by eapply same_view_trans | ]. split; [ | by auto].
    rewrite <- Hrun, <- Hiff. destruct r as [l0 | e]; cbn [mbind result_bind]; unfold accepts.
    + split.
      * intros (l1 & [= <-] & [Ha Hb]%Forall_cons). eauto.
      * intros [Ha (l1 & [= <-] & Hb)]. eexists. split; [done | ]. by constructor.
    + split; [by intros (? & ? & _) | by intros [_ (? & ? & _)]].
  - destruct (run_check _ _ _ _) as [[] | e] eqn:Er.
    + rewrite <- Hrun, <- Hiff. split; [by eapply same_view_trans | ]. split; [ | done]. split; [by split | by intros [_ ?]].
    + assert (~ script_verifies tx flags (out k) (vsize pre) i) as Hno by (intros ?%Hrun; congruence).
      assert (forall e', ~ accepts sigs (Err e')) as Hna by (intros e' (? & ? & _); done).
      destruct e as [e | ]; cbn [fst snd]; (split; [done | ]); (split; [ | by eauto]); (split; [by intros ?%Hna | by intros [? _]]).
Qed.

Lemma CheckInputs_spec sigs execs (tx : CTransaction) (c : CCoinsViewCache B) ks fScriptChecks flags sigStore fullStore defer :
  sigs_right sigs -> execs_right execs tx flags -> valid_cache c -> IsCoinBase tx = false ->
  spends (contents_cache c) (vin tx) ks -> Forall2 (fun i k => out k = ledger (prevout i)) (vin tx) ks ->
  exists r c' execs', CheckInputs C Verify usage sigs execs tx c fScriptChecks flags sigStore fullStore (PrecomputedTransactionData_new C tx) defer =
      (r, c', execs') /\ same_view c c' /\
    (accepts sigs r <-> (fScriptChecks = true -> scripts_verify tx flags)) /\
    (defer = false -> accepts sigs r -> r = Ok []) /\
    (execs' = execs \/ execs' = snd (Get_entry execs (hashCacheEntry C execs tx flags) (negb fullStore)) \/
     fullStore = true /\ scripts_verify tx flags /\ execs' = insert_entry execs (hashCacheEntry C execs tx flags)).
Proof.
  intros Hsig Hex Hv Hcb Hks Hl. unfold CheckInputs. rewrite Hcb. cbn [orb].
  assert (accepts sigs (Ok [])) as Hnil by (by exists []).
  destruct fScriptChecks; cbn [negb].
  2: { eexists _, _, _. split; [reflexivity | ]. split; [by split | ]. split; [done | ]. split; [done | by left]. }
  destruct (Get_entry_spec execs (hashCacheEntry C execs tx flags) (negb fullStore)) as [Eh Hse].
  destruct (Get_entry execs _ _) as [found_ execs1] eqn:Eg. cbn [fst snd] in *. destruct found_.
  { eexists _, _, _. split; [reflexivity | ]. split; [by split | ]. split; [split; [ | done] | split; [done | by auto]]. intros _ _. by apply Hex, Eh. }
  destruct (check_scripts_spec sigs tx flags sigStore defer c (vin tx) ks [] Hsig Hv eq_refl Hks) as (Hs & Hiff & Hr).
  change (vsize (@nil CTxIn)) with 0 in *. destruct (check_scripts _ _ _ _ _ _ _ _ _ _ _ _) as [r c']. cbn [fst snd] in *.
  assert (accepts sigs r <-> scripts_verify tx flags) as Ha.
  { rewrite Hiff. unfold scripts_verify. split.
    - intros Hx j txin Hj. destruct (Forall2_lookup_l _ _ _ _ _ Hl Hj) as (k & Hk & E). rewrite <- E. apply (Hx j txin k Hj Hk).
    - intros Hx j txin k Hj Hk. rewrite (Forall2_lookup_lr _ _ _ _ _ _ Hl Hj Hk). by apply Hx. }
  eexists _, _, _. split; [reflexivity | ]. split; [done | ]. split; [rewrite Ha; by split; [ | intros Hx; apply Hx] | ]. split.
  - intros -> Hacc. destruct Hr as [? | [? | [e ->]]]; [done | done | by destruct Hacc as (? & ? & _)].
  - destruct (is_ok r && fullStore && negb defer) eqn:E; [do 2 right | by auto].
    apply andb_true_iff in E as [[Er Ef]%andb_true_iff Ed]. rewrite Ef in Eg. cbn [negb] in Eg. split; [done | ].
    rewrite Get_entry_keep in Eg. injection Eg as _ <-. split; [ | done]. destruct Hr as [-> | [-> | [e ->]]]; [done | by apply Ha | done].
Qed.
End Inputs.
End Sound.

(** *** Where the keys in the caches come from *)

Section Origin.
Context (C : Crypto) (Verify : bytes -> uint256 -> bytes -> bool) (ledger : COutPoint -> CTxOut).

(** What is hashed for a key of the two caches *)
Definition sig_string (c : SaltedCache) (t : bytes * uint256 * bytes) : bytes := let '(key, hash, sig) := t in nonce c ++ hash ++ key ++ sig.
Definition exec_string (c : SaltedCache) (tx : CTransaction) (flags : Z) : bytes := take 19 (nonce c) ++ GetWitnessHash tx ++ ser_writedata32 flags.

(** The keys in the cache are those of signatures among [L], which verified, and of transactions
    among [L] with flags, whose scripts did; or the null key of places never used. *)
Definition sig_verified (t : bytes * uint256 * bytes) : Prop := let '(key, hash, sig) := t in valid_key key /\ length hash = 32%nat /\ Verify key hash sig = true.
Definition sigs_from (L : list (bytes * uint256 * bytes)) (c : SaltedCache) : Prop :=
  Cuckoo.cache_ok (setValid c) /\
  forall e, Cuckoo.stored (setValid c) e -> e = uint256_SetNull \/ exists t, t ∈ L /\ sig_verified t /\ e = SHA256 C (sig_string c t).
Definition exec_verified (t : CTransaction * Z) : Prop := block_tx_ok C (fst t) /\ in_u 32 (snd t) /\ scripts_verify C Verify ledger (fst t) (snd t).
Definition execs_from (L : list (CTransaction * Z)) (c : SaltedCache) : Prop :=
  Cuckoo.cache_ok (setValid c) /\
  forall e, Cuckoo.stored (setValid c) e -> e = uint256_SetNull \/ exists t, t ∈ L /\ exec_verified t /\ e = SHA256 C (exec_string c (fst t) (snd t)).

(** A signature that does not verify has the key of one in [L], or the null key. *)
Definition sig_clash (L : list (bytes * uint256 * bytes)) (c : SaltedCache) : Prop :=
  exists key hash sig, valid_key key /\ length hash = 32%nat /\ Verify key hash sig = false /\
    (SHA256 C (sig_string c (key, hash, sig)) = uint256_SetNull \/
     exists t, t ∈ L /\ sig_string c t <> sig_string c (key, hash, sig) /\ SHA256 C (sig_string c t) = SHA256 C (sig_string c (key, hash, sig))).
(** What is hashed for the transaction has the hash of what was hashed for one in [L], or the null key. *)
Definition exec_clash (L : list (CTransaction * Z)) (c : SaltedCache) (tx : CTransaction) (flags : Z) : Prop :=
  SHA256 C (exec_string c tx flags) = uint256_SetNull \/
  exists t, t ∈ L /\
    (collision (SHA256 C) [exec_string c tx flags; exec_string c (fst t) (snd t)] \/ collision (Hash256 C) [wtxid_string tx; wtxid_string (fst t)]).

Lemma valid_key_prefix key key' sig sig' : valid_key key -> valid_key key' -> key ++ sig = key' ++ sig' -> key = key' /\ sig = sig'.
Proof.
  intros [Hn Hk] [Hn' Hk'] E. apply app_inj_1 in E; [done | ].
  assert (forall k, k <> [] -> CPubKey_Set k = k -> vsize k = GetLen (byte_at k 0)) as Hlen.
  { intros k Hne Hs. unfold CPubKey_Set in Hs. rewrite bool_decide_false in Hs by done. destruct (negb _ && _) eqn:Eb; [ | by rewrite <- Hs in Hne].
    apply andb_true_iff in Eb as [_ Eb%Z.eqb_eq]. done. }
  pose proof (Hlen key Hn Hk) as L1. pose proof (Hlen key' Hn' Hk') as L2.
  assert (byte_at key 0 = byte_at key' 0) as Eb by (destruct key, key'; try done; by injection E). rewrite Eb in L1. unfold vsize in *. lia.
Qed.

Lemma sigs_from_right L c : sigs_from L c -> ~ sig_clash L c -> sigs_right C Verify c.
Proof.
  intros [Hok Ho] Hno key hash sig Hk Hh Hhit. destruct (Verify key hash sig) eqn:Ev; [done | exfalso]. apply Hno. exists key, hash, sig. split_and!; try done.
  apply Cuckoo.found_stored, Ho in Hhit as [E | ([[key' hash'] sig'] & Ht & (Hk' & Hh' & Ev') & E)]; [by left | | done]. right.
  exists (key', hash', sig'). split; [done | ]. split; [ | done]. cbn [sig_string]. intros Es. apply app_inj_1 in Es as [_ Es]; [ | done].
  apply app_inj_1 in Es as [-> Es]; [ | congruence]. apply valid_key_prefix in Es as [-> ->]; [congruence | done | done].
Qed.

Lemma same_wtxid (tx tx' : CTransaction) : block_tx_ok C tx -> block_tx_ok C tx' -> GetWitnessHash tx = GetWitnessHash tx' ->
  tx = tx' \/ collision (Hash256 C) [wtxid_string tx; wtxid_string tx'].
Proof.
  intros (Hok & Hne & Etx) (Hok' & Hne' & Etx') E. rewrite Etx, Etx' in E. cbn [MakeTransaction GetWitnessHash] in E.
  destruct (tx_wtxid_binds C tx tx' Hok Hok' Hne Hne' E) as [E' | ?]; [left | by right]. by rewrite Etx, Etx', E'.
Qed.

Lemma execs_from_right L c (tx : CTransaction) flags : (forall b, length (SHA256 C b) = 32%nat) -> execs_from L c -> block_tx_ok C tx -> in_u 32 flags -> ~ exec_clash L c tx flags ->
  execs_right C Verify ledger c tx flags.
Proof.
  intros HC [Hok Ho] Htx Hf Hno Hhit. apply Cuckoo.found_stored, Ho in Hhit as [E | ([tx' flags'] & Ht & (Htx' & Hf' & Hv) & E)]; [by exfalso; apply Hno; left | | done].
  cbn [fst snd] in *. apply hash_eq_or_collision in E as [E | Hc]; [ | exfalso; apply Hno; right; exists (tx', flags'); by auto].
  assert (forall t : CTransaction, block_tx_ok C t -> length (GetWitnessHash t) = 32%nat) as Hw.
  { intros t (_ & _ & ->). cbn [MakeTransaction GetWitnessHash]. rewrite ComputeWitnessHash_eq. apply HC. }
  apply app_inj_1 in E as [_ E]; [ | done]. apply app_inj_1 in E as [Ew Ef]; [ | by rewrite !Hw].
  apply (RoundTrip_inj (fun x => in_u 32 x) ser_writedata32 ser_readdata32) in Ef; [ | done | done]. subst flags'.
  destruct (same_wtxid tx tx' Htx Htx' Ew) as [-> | Hc]; [done | ]. exfalso. apply Hno. right. exists (tx', flags). by auto.
Qed.

(** *** The caches stay such *)

Lemma sigs_from_mono L L' c c' : same_entries c c' -> Cuckoo.cache_ok (setValid c') -> L ⊆ L' -> sigs_from L c -> sigs_from L' c'.
Proof.
  intros (E1 & E2 & E3) Hok HL [_ Ho]. split; [done | ]. intros e He. assert (Cuckoo.stored (setValid c) e) as He'.
  { revert He. unfold Cuckoo.stored, Cuckoo.at_loc. by rewrite E2, E3. }
  destruct (Ho e He') as [? | ([[key hash] sig] & Ht & Hv & E)]; [by left | right]. exists (key, hash, sig). split; [by apply HL | ]. split; [done | ]. cbn [sig_string] in *. by rewrite E1.
Qed.
Lemma execs_from_mono L L' c c' : same_entries c c' -> Cuckoo.cache_ok (setValid c') -> L ⊆ L' -> execs_from L c -> execs_from L' c'.
Proof.
  intros (E1 & E2 & E3) Hok HL [_ Ho]. split; [done | ]. intros e He. assert (Cuckoo.stored (setValid c) e) as He'.
  { revert He. unfold Cuckoo.stored, Cuckoo.at_loc. by rewrite E2, E3. }
  destruct (Ho e He') as [? | (t & Ht & Hv & E)]; [by left | right]. exists t. split; [by apply HL | ]. split; [done | ]. unfold exec_string in *. by rewrite E1.
Qed.

Lemma insert_entry_ok c entry : Cuckoo.cache_ok (setValid c) -> Cuckoo.cache_ok (setValid (insert_entry c entry)) /\
  forall e, Cuckoo.stored (setValid (insert_entry c entry)) e -> Cuckoo.stored (setValid c) e \/ e = entry.
Proof.
  intros Hok. destruct (Cuckoo.insert_ok (setValid c) entry Hok) as ((I1 & _ & _ & I2) & I3 & _). split; [done | ].
  intros e [He | He]%I2; [left; by apply I3 | by right].
Qed.
Lemma Get_entry_ok c entry erase : Cuckoo.cache_ok (setValid c) -> Cuckoo.cache_ok (setValid (snd (Get_entry c entry erase))).
Proof.
  intros Hok. destruct (Cuckoo.contains_ok (setValid c) entry erase Hok) as [H1 _]. unfold Get_entry. by destruct (Cuckoo.cache_contains _ _ _).
Qed.

Lemma sigs_from_insert L c t : sigs_from L c -> sig_verified t -> sigs_from (t :: L) (insert_entry c (SHA256 C (sig_string c t))).
Proof.
  intros [Hok Ho] Hv. destruct (insert_entry_ok c (SHA256 C (sig_string c t)) Hok) as [H1 H2]. split; [done | ]. intros e [He | ->]%H2.
  - destruct (Ho e He) as [? | (t' & Ht & Hv' & E)]; [by left | right]. exists t'. split; [by right | done].
  - right. exists t. split; [by left | done].
Qed.
Lemma execs_from_insert L c t : execs_from L c -> exec_verified t -> execs_from (t :: L) (insert_entry c (SHA256 C (exec_string c (fst t) (snd t)))).
Proof.
  intros [Hok Ho] Hv. destruct (insert_entry_ok c (SHA256 C (exec_string c (fst t) (snd t))) Hok) as [H1 H2]. split; [done | ]. intros e [He | ->]%H2.
  - destruct (Ho e He) as [? | (t' & Ht & Hv' & E)]; [by left | right]. exists t'. split; [by right | done].
  - right. exists t. split; [by left | done].
Qed.
End Origin.

(** (C39) The caches of scripts are transparent.  Let the keys in the signature cache have been made
    from signatures that verified, and those in the script cache from transactions, with flags,
    whose scripts verified.  Unless keys of different things coincide, [CheckInputs] accepts the
    transaction (run at once, or deferred and then run) exactly when the script of every input
    verifies, under these very flags, against the output it spends with no cache at all, or scripts
    are not checked; it leaves the unspent outputs as they were, and the script cache again holds
    only keys of transactions whose scripts verified, whether the transaction was found, found and
    erased, added or neither.  Likewise a cached signature check answers what the curve library
    answers, and the signature cache again holds only keys of signatures that verified. *)
Theorem script_caches_transparent {B} `{HB : CoinsViewLaws B} C Verify ledger usage S L sigs execs (tx : CTransaction) (c : CCoinsViewCache B) ks
    fScriptChecks flags sigStore fullStore defer :
  (forall b, length (SHA256 C b) = 32%nat) -> sigs_from C Verify S sigs -> execs_from C Verify ledger L execs ->
  ~ sig_clash C Verify S sigs -> ~ exec_clash C L execs tx flags ->
  valid_cache c -> IsCoinBase tx = false -> block_tx_ok C tx -> in_u 32 flags ->
  spends (contents_cache c) (vin tx) ks -> Forall2 (fun i k => out k = ledger (prevout i)) (vin tx) ks ->
  (exists r c' execs', CheckInputs C Verify usage sigs execs tx c fScriptChecks flags sigStore fullStore (PrecomputedTransactionData_new C tx) defer =
      (r, c', execs') /\ same_view c c' /\
    (accepts C Verify sigs r <-> (fScriptChecks = true -> scripts_verify C Verify ledger tx flags)) /\
    (defer = false -> accepts C Verify sigs r -> r = Ok []) /\
    execs_from C Verify ledger ((tx, flags) :: L) execs') /\
  (forall store key hash sig, valid_key key -> length hash = 32%nat ->
     fst (CachingVerifySignature C Verify store sigs key hash sig) = Verify key hash sig /\
     sigs_from C Verify ((key, hash, sig) :: S) (snd (CachingVerifySignature C Verify store sigs key hash sig))).
Proof.
  intros HC Hs He Hns Hne Hv Hcb Htx Hf Hks Hl. pose proof (sigs_from_right _ _ _ _ Hs Hns) as Hsr. split.
  - destruct (CheckInputs_spec C HC Verify ledger usage sigs execs tx c ks fScriptChecks flags sigStore fullStore defer Hsr
      (execs_from_right _ _ _ _ _ _ _ HC He Htx Hf Hne) Hv Hcb Hks Hl) as (r & c' & execs' & E & H1 & H2 & H3 & H4).
    exists r, c', execs'. split_and!; [done | done | done.. | ]. assert (L ⊆ (tx, flags) :: L) as HL by (intros x Hx; by right).
    destruct H4 as [-> | [-> | (_ & Hvs & ->)]].
    + by apply (execs_from_mono _ _ _ L _ execs execs (same_entries_refl execs) (proj1 He) HL).
    + apply (execs_from_mono _ _ _ L _ execs); [apply Get_entry_spec | apply Get_entry_ok, He | done | done].
    + by apply (execs_from_insert C Verify ledger L execs (tx, flags) He).
  - intros store key hash sig Hk Hh. destruct (CachingVerifySignature_spec C Verify store sigs key hash sig Hsr Hk Hh) as [H1 [H2 H3]]. split; [done | ].
    pose proof (Get_entry_ok sigs (ComputeEntry C sigs hash sig key) (negb store) (proj1 Hs)) as Hok.
    assert (S ⊆ (key, hash, sig) :: S) as HL by (intros x Hx; by right).
    destruct H3 as [-> | [Ev ->]]; [by apply (sigs_from_mono _ _ S _ sigs) | ].
    set (c1 := snd (Get_entry sigs _ _)) in *. assert (ComputeEntry C sigs hash sig key = SHA256 C (sig_string c1 (key, hash, sig))) as ->
      by (unfold ComputeEntry; cbn [sig_string]; by rewrite (proj1 H2)).
    apply sigs_from_insert; [by apply (sigs_from_mono _ _ S _ sigs) | done].
Qed.

Definition no_cache : SaltedCache := mk_SaltedCache (repeat 7 32) (Cuckoo.setup (fun _ => 1) Cuckoo.cache_empty 2).
Definition sample_curve (key : bytes) (_ : uint256) (sig : bytes) : bool := bool_decide (sig = key).

Lemma no_cache_stored e : Cuckoo.stored (setValid no_cache) e -> e = uint256_SetNull.
Proof. apply (Cuckoo.setup_ok (fun _ => 1) 2). lia. Qed.
Lemma no_cache_ok : Cuckoo.cache_ok (setValid no_cache).
Proof. apply (Cuckoo.setup_ok (fun _ => 1) 2). lia. Qed.

(** The keys of this hash function begin with the nonce. *)
Lemma toy_key_not_null x : SHA256 toy_crypto (repeat 7 19 ++ x) <> uint256_SetNull.
Proof. intros E. apply (f_equal (fun l => hd 0 l)) in E. vm_compute in E. discriminate. Qed.

Lemma no_cache_sigs Verify : sigs_right toy_crypto Verify no_cache.
Proof.
  intros key hash sig _ _ Hhit. apply Cuckoo.found_stored, no_cache_stored in Hhit; [ | exact no_cache_ok].
  destruct (toy_key_not_null (repeat 7 13 ++ hash ++ key ++ sig) Hhit).
Qed.
Lemma no_cache_execs Verify ledger (tx : CTransaction) flags : execs_right toy_crypto Verify ledger no_cache tx flags.
Proof.
  intros Hhit. apply Cuckoo.found_stored, no_cache_stored in Hhit; [ | exact no_cache_ok]. destruct (toy_key_not_null _ Hhit).
Qed.

Lemma sample_spend_ok : block_tx_ok toy_crypto sample_spend.
Proof.
  split; [ | split; [discriminate | reflexivity]].
  unfold tx_ok, vector_ok, input_ok, bare_input_ok, outpoint_ok, uint256_ok, output_ok, witness_ok, vector_ok, blob_ok, is_byte; simpl.
  repeat (split || constructor); unfold is_byte; lia || discriminate || done.
Qed.

Lemma script_caches_transparent_witness : exists c' execs',
  CheckInputs toy_crypto sample_curve no_usage no_cache no_cache sample_spend (cache_new sample_db) true SCRIPT_VERIFY_P2SH true true
    (PrecomputedTransactionData_new toy_crypto sample_spend) false = (Ok [], c', execs') /\
  execs_from toy_crypto sample_curve (fun _ => mk_CTxOut (5 * COIN) [OP_TRUE]) [(sample_spend, SCRIPT_VERIFY_P2SH)] execs'.
Proof.
  destruct (script_caches_transparent toy_crypto sample_curve (fun _ => mk_CTxOut (5 * COIN) [OP_TRUE]) no_usage [] [] no_cache no_cache sample_spend
    (cache_new sample_db) [sample_coin] true SCRIPT_VERIFY_P2SH true true false) as [(r & c' & execs' & E & _ & Ha & Hr & He) _].
  - intros b. cbn [SHA256 toy_crypto]. rewrite length_take, length_app, length_replicate. lia.
  - split; [exact no_cache_ok | ]. intros e He. left. exact (no_cache_stored e He).
  - split; [exact no_cache_ok | ]. intros e He. left. exact (no_cache_stored e He).
  - intros (key & hash & sig & _ & _ & _ & [H | (t & Ht & _)]); [ | by apply not_elem_of_nil in Ht].
    exact (toy_key_not_null (repeat 7 13 ++ hash ++ key ++ sig) H).
  - intros [H | (t & Ht & _)]; [ | by apply not_elem_of_nil in Ht]. exact (toy_key_not_null _ H).
  - split; [exact sample_db_valid | apply map_Forall_empty].
  - reflexivity.
  - exact sample_spend_ok.
  - vm_compute. split; [discriminate | reflexivity].
  - constructor; [reflexivity | constructor].
  - constructor; [reflexivity | constructor].
  - exists c', execs'. rewrite E. assert (accepts toy_crypto sample_curve no_cache r) as Hacc.
    { apply Ha. intros _ [ | i] txin Hi; [ | done]. injection Hi as <-. vm_compute. reflexivity. }
    rewrite (Hr eq_refl Hacc) in *. split; [reflexivity | exact He].
Defined.

(** *** Proof of stake *)

Section Stake.
Context (C : Crypto) (Verify : bytes -> uint256 -> bytes -> bool) {B : Type} `{HB : CoinsViewLaws B} (usage : Coin -> Z) (m : BlockMap).
Context (Hm : index_ok m) (prev : ptr) (b : CBlockIndex) (Hprev : m !! prev = Some b) (Hroom : nHeight b + 1 < 2 ^ 31).

(** The coinstake [tx] stakes an output that is unspent, mature and on this chain, is signed for
    it, and its kernel meets the target: [h] is the kernel hash. *)
Definition stake_proven (u : COutPoint -> option Coin) (tx : CTransaction) (nBits nTimeBlock : Z) (h : uint256) : Prop :=
  exists txin rest k e target, IsCoinStake tx = true /\ vin tx = txin :: rest /\ source_spec m prev b u (prevout txin) = Some (k, e) /\
    VerifySignature C Verify k (outpoint_hash (prevout txin)) tx 0 0 = Ok true /\
    CheckStakeKernelHash C b nBits (bi_nTime e) (nValue (out k)) (prevout txin) nTimeBlock uint256_SetNull uint256_SetNull = (true, h, target).

Lemma CheckProofOfStake_spec (tx : CTransaction) nBits nTimeBlock (c : CCoinsViewCache B) : valid_cache c ->
  same_view c (snd (CheckProofOfStake C Verify usage m prev tx nBits nTimeBlock c)) /\
  forall h, fst (CheckProofOfStake C Verify usage m prev tx nBits nTimeBlock c) = Ok h <-> stake_proven (contents_cache c) tx nBits nTimeBlock h.
Proof.
  intros Hv. unfold CheckProofOfStake, stake_proven. destruct (IsCoinStake tx); cbn [negb].
  2: { split; [by split | ]. intros h. split; [done | by intros (? & ? & ? & ? & ? & ? & _)]. }
  destruct (vin tx) as [ | txin rest].
  { split; [by split | ]. intros h. split; [done | by intros (? & ? & ? & ? & ? & _ & ? & _)]. }
  rewrite Hprev. cbn [head fmap option_fmap option_map default from_option id].
  destruct (kernel_source_spec usage m Hm prev b Hprev Hroom c (prevout txin) Hv) as (c' & -> & Hs).
  destruct (source_spec m prev b (contents_cache c) (prevout txin)) as [[k e] | ] eqn:Es.
  2: { split; [done | ]. intros h. split; [done | ]. intros (txin' & rest' & k & e & t & _ & [= <- <-] & Hx & _). congruence. }
  cbn [fst snd]. split; [done | ]. intros h. split.
  - intros Hr. exists txin, rest, k, e. destruct (VerifySignature _ _ _ _ _ _ _) as [[ | ] | ] eqn:Ev; try done.
    destruct (CheckStakeKernelHash _ _ _ _ _ _ _ _ _) as [[[ | ] h'] t] eqn:Ek; [ | done]. injection Hr as ->. exists t. by split_and!.
  - intros (txin' & rest' & k' & e' & t & _ & [= <- <-] & Hx & Ev & Ek). rewrite Es in Hx. injection Hx as <- <-. by rewrite Ev, Ek.
Qed.
End Stake.
