(* ===== verification/Reward.v ===== *)
(** * Block rewards ([GetBlockSubsidy] and [CheckReward] of [src/validation.cpp], the recipients of
      split rewards in [src/wallet/wallet.cpp], the index of stakers in [src/txdb.cpp])

    How much a block may create, who has to be paid from it, and the cache in front of the index of
    past stakers that says whom.

    Theorems: subsidies halve as scheduled and their sum stays below [MAX_MONEY]; the cache of
    recipients never changes an answer, also after a reorganisation; [CheckReward] accepts exactly
    the rewards within the limit that pay every refund and every recipient. *)

From Stdlib Require Import String.
From stdpp Require Import gmap.
From S2P Require Import Prelude Serialize Script SigEncoding Interpreter VerifyScript Standard Transaction Block Merkle Chain MedianTime Coins Pow VersionBits Undo TxVerify CheckBlock.
Open Scope Z_scope.

Abbreviation length := Datatypes.length (only parsing).

(** ** Definitions *)

(** *** Subsidies *)

Definition GetBlockSubsidy (nHeight : Z) (params : Params) : CAmount :=
  if nHeight <=? nLastPOWBlock params then 1800 * COIN
  else
    let halvings := Z.quot (nHeight - nLastPOWBlock params - 1) (nSubsidyHalvingInterval params) in
    if 7 <=? halvings then 0 else Z.shiftr (4 * COIN) halvings.

(** *** The index of stakers

    The records of the block database under the prefix [DB_STAKEINDEX], by height; their keys are
    ordered by the four bytes of the height as written, the lowest byte first. *)

Abbreviation uint160 := (list Z) (only parsing).
Definition uint160_SetNull : uint160 := repeat 0 20.
Definition DB_HEIGHTINDEX : Z := 104.   (* 'h' *)
Definition DB_STAKEINDEX : Z := 115.    (* 's' *)

Abbreviation stake_index := (gmap Z (list Z)).
Definition stake_key (height : Z) : bytes := ser_writedata32 height.

Definition WriteStakeIndex (db : stake_index) (height : Z) (address : uint160) : stake_index := <[u32 height := address]> db.

(** [Seek]: the first record whose key is not below that of [height] *)
Definition seek_step (height : Z) (kv : Z * uint160) (best : option (Z * uint160)) : option (Z * uint160) :=
  if memcmp (stake_key (fst kv)) (stake_key height) <? 0 then best
  else match best with
  | None => Some kv
  | Some b => if memcmp (stake_key (fst kv)) (stake_key (fst b)) <? 0 then Some kv else best
  end.
Definition Seek (db : stake_index) (height : Z) : option (Z * uint160) := foldr (seek_step (u32 height)) None (map_to_list db).

(** The address of the record found, whatever its height; [None]: false *)
Definition ReadStakeIndex (db : stake_index) (height : Z) : option uint160 := snd <$> Seek db height.

(** The record found is erased when its prefix is [DB_HEIGHTINDEX], which none has at this place. *)
Definition EraseStakeIndex (db : stake_index) (height : Z) : stake_index :=
  match Seek db height with
  | Some (h, _) => if (DB_STAKEINDEX =? DB_HEIGHTINDEX) && (h =? height) then delete h db else db
  | None => db
  end.

(** What [ConnectBlock] records for a block; [None]: an access out of range *)
Definition block_staker (C : Crypto) (block : CBlock) : option uint160 :=
  if header_IsProofOfStake block then
    key ← GetBlockPublicKey block;
    Some (match key with Some vchPubKey => GetID C (CPubKey_Set vchPubKey) | None => uint160_SetNull end)
  else Some uint160_SetNull.

(** *** The recipients of a split reward *)

Record ScriptsElement : Type := mk_ScriptsElement { se_script : CScript; se_hash : uint256 }.
Abbreviation CChain := (list (option (list Z))) (only parsing).
Abbreviation script_cache := (gmap Z ScriptsElement).

Section Recipients.
Context (m : BlockMap) (chainActive : CChain) (params : Params).

Definition block_hash_at (h : Z) : option uint256 :=
  p ← chain_at chainActive h; b ← m !! p; phashBlock b.

Definition NeedToEraseScriptFromCache (nBlockHeight nCacheScripts nScriptHeight : Z) (scriptElement : ScriptsElement) : bool :=
  if (nScriptHeight <? nBlockHeight - nCacheScripts) || (nBlockHeight + nCacheScripts <? nScriptHeight) then true
  else match block_hash_at nScriptHeight with
  | Some hash => negb (base_blob_eq hash (se_hash scriptElement))
  | None => false
  end.

Definition CleanScriptCache (scriptsMap : script_cache) (nHeight : Z) : script_cache :=
  let nCacheScripts := Z.quot (nMPoSRewardRecipients params * 3) 2 in
  filter (fun kv => NeedToEraseScriptFromCache nHeight nCacheScripts (fst kv) (snd kv) = false) scriptsMap.

Definition ReadFromScriptCache (scriptsMap : script_cache) (hash : uint256) (nHeight : Z) : option CScript * script_cache :=
  let scriptsMap := CleanScriptCache scriptsMap nHeight in
  (match scriptsMap !! nHeight with
   | Some e => if base_blob_eq (se_hash e) hash then Some (se_script e) else None
   | None => None
   end, scriptsMap).

(** [insert] keeps an element that is already there. *)
Definition AddToScriptCache (scriptsMap : script_cache) (script : CScript) (hash : uint256) (nHeight : Z) : script_cache :=
  let scriptsMap := CleanScriptCache scriptsMap nHeight in
  match scriptsMap !! nHeight with
  | Some _ => scriptsMap
  | None => <[nHeight := mk_ScriptsElement script hash]> scriptsMap
  end.

Definition burn_script : CScript := [OP_RETURN].
Definition staker_script (stakeAddress : uint160) : CScript :=
  if base_blob_eq stakeAddress uint160_SetNull then burn_script
  else [OP_DUP; OP_HASH160] ++ push_data stakeAddress ++ [OP_EQUALVERIFY; OP_CHECKSIG].

(** The script added to the list and the cache; the outer [None]: a bad pointer, the inner: false *)
Definition AddMPoSScript (db : stake_index) (scriptsMap : script_cache) (nHeight : Z) : option (option CScript * script_cache) :=
  match chain_at chainActive nHeight with
  | None => Some (None, scriptsMap)
  | Some pblockindex =>
      b ← m !! pblockindex; hash ← phashBlock b;
      let '(found, scriptsMap) := ReadFromScriptCache scriptsMap hash nHeight in
      match found with
      | Some script => Some (Some script, scriptsMap)
      | None =>
          match ReadStakeIndex db nHeight with
          | None => Some (None, scriptsMap)
          | Some stakeAddress =>
              if IsProofOfStake b then
                let script := staker_script stakeAddress in
                Some (Some script, AddToScriptCache scriptsMap script hash nHeight)
              else if fPoSNoRetargeting params then Some (Some burn_script, scriptsMap)
              else Some (None, scriptsMap)
          end
      end
  end.

(** The loop, from [nHeight] down, for [n] recipients *)
Fixpoint mpos_loop (db : stake_index) (scriptsMap : script_cache) (n : nat) (nHeight : Z) (mposScriptList : list CScript)
  : option (option (list CScript) * script_cache) :=
  match n with
  | O => Some (Some mposScriptList, scriptsMap)
  | S n =>
      '(script, scriptsMap) ← AddMPoSScript db scriptsMap nHeight;
      match script with
      | Some script => mpos_loop db scriptsMap n (nHeight - 1) (mposScriptList ++ [script])
      | None => Some (None, scriptsMap)
      end
  end.
Definition GetMPoSOutputScripts (db : stake_index) (scriptsMap : script_cache) (nHeight : Z) : option (option (list CScript) * script_cache) :=
  mpos_loop db scriptsMap (Z.to_nat (nMPoSRewardRecipients params - 1)) (nHeight - COINBASE_MATURITY) [].

(** [CreateMPoSOutputs]: the transaction and the cache *)
Definition CreateMPoSOutputs (db : stake_index) (scriptsMap : script_cache) (txNew : CMutableTransaction) (nRewardPiece nHeight : Z)
  : option (option CMutableTransaction * script_cache) :=
  '(scripts, scriptsMap) ← GetMPoSOutputScripts db scriptsMap nHeight;
  match scripts with
  | None => Some (None, scriptsMap)
  | Some l => Some (Some (mk_tx (vin txNew) (vout txNew ++ map (mk_CTxOut nRewardPiece) l) (tx_nVersion txNew) (nLockTime txNew)), scriptsMap)
  end.

(** *** The check of the reward *)

(** [std::find] and [erase] of every element in turn; [None]: one is missing *)
Fixpoint erase_first (o : CTxOut) (l : list CTxOut) : option (list CTxOut) :=
  match l with
  | [] => None
  | x :: l => if bool_decide (x = o) then Some l else l ← erase_first o l; Some (x :: l)
  end.
Fixpoint erase_all (vouts : list CTxOut) (l : list CTxOut) : option (list CTxOut) :=
  match vouts with
  | [] => Some l
  | o :: vouts => l ← erase_first o l; erase_all vouts l
  end.

(** [state.DoS(100, error(...))] with the code and the reason left out *)
Definition missing_refund : block_failure := BlockReject 100 0 String.EmptyString false.

(** The part for proof of stake, after the refunds; with the cache of recipients *)
Definition check_stake_reward (db : stake_index) (scriptsMap : script_cache) (nHeight : Z) (nFees gasRefunds nActualStakeReward : CAmount)
  (vTempVouts : list CTxOut) : bchecks unit * script_cache :=
  let blockReward := i64 (nFees + GetBlockSubsidy nHeight params) in
  if blockReward <? nActualStakeReward then (Err (BlockReject 100 REJECT_INVALID "bad-cs-amount"%string false), scriptsMap)
  else
    let nPrevHeight := nHeight - 1 in
    let rewardRecipients := if nFirstMPoSBlock params <=? nPrevHeight then nMPoSRewardRecipients params else 1 in
    if rewardRecipients <? 1 then (Err PlainError, scriptsMap)
    else if rewardRecipients =? 1 then (Ok tt, scriptsMap)
    else if blockReward <? gasRefunds then (Err (BlockReject 100 REJECT_INVALID "bad-cs-gas-greater-than-reward"%string false), scriptsMap)
    else
      let splitReward := Z.quot (blockReward - gasRefunds) rewardRecipients in
      match GetMPoSOutputScripts db scriptsMap nPrevHeight with
      | None => (Err BlockAbort, scriptsMap)
      | Some (None, scriptsMap) => (Err PlainError, scriptsMap)
      | Some (Some mposScriptList, scriptsMap) =>
          (match erase_all (map (mk_CTxOut splitReward) mposScriptList) vTempVouts with
           | None => Err (BlockReject 100 REJECT_INVALID "bad-cs-mpos-missing"%string false)
           | Some _ => Ok tt
           end, scriptsMap)
      end.

Definition check_reward (db : stake_index) (scriptsMap : script_cache) (block : CBlock) (nHeight : Z)
  (nFees gasRefunds nActualStakeReward : CAmount) (vouts : list CTxOut) : bchecks unit * script_cache :=
  let offset := if header_IsProofOfStake block then 1%nat else 0%nat in
  match tx_fields <$> (vtx block !! offset) with
  | None => (Err BlockAbort, scriptsMap)
  | Some tx =>
      match erase_all vouts (vout tx) with
      | None => (Err missing_refund, scriptsMap)
      | Some vTempVouts =>
          if header_IsProofOfWork block then
            let blockReward := i64 (nFees + GetBlockSubsidy nHeight params) in
            (match GetValueOut tx with
             | None => Err BlockAbort
             | Some v => reject_if (blockReward <? v) 100 "bad-cb-amount"%string false
             end, scriptsMap)
          else check_stake_reward db scriptsMap nHeight nFees gasRefunds nActualStakeReward vTempVouts
      end
  end.

(** The value returned with the state, and the cache of recipients *)
Definition CheckReward (db : stake_index) (scriptsMap : script_cache) (block : CBlock) (state : CValidationState) (nHeight : Z)
  (nFees gasRefunds nActualStakeReward : CAmount) (vouts : list CTxOut) : option (bool * CValidationState) * script_cache :=
  let '(r, scriptsMap) := check_reward db scriptsMap block nHeight nFees gasRefunds nActualStakeReward vouts in
  (block_report state r, scriptsMap).
End Recipients.

(** ** Theorems *)

(** *** The schedule of subsidies *)

Lemma halvings_exact x i k : 0 < i -> k * i <= x < (k + 1) * i -> 0 <= k -> Z.quot x i = k.
Proof.
  intros Hi Hx Hk. rewrite Z.quot_div_nonneg by nia. symmetry. apply (Z.div_unique x i k (x - k * i)); lia.
Qed.

Lemma subsidy_era params h k : 0 < nSubsidyHalvingInterval params -> 0 <= k ->
  nLastPOWBlock params + k * nSubsidyHalvingInterval params < h <= nLastPOWBlock params + (k + 1) * nSubsidyHalvingInterval params ->
  GetBlockSubsidy h params = if k <? 7 then 4 * COIN / 2 ^ k else 0.
Proof.
  intros Hi Hk Hh. unfold GetBlockSubsidy. destruct (Z.leb_spec h (nLastPOWBlock params)); [nia | ].
  rewrite (halvings_exact _ _ k) by lia. destruct (Z.leb_spec 7 k), (Z.ltb_spec k 7); try lia. by rewrite Z.shiftr_div_pow2.
Qed.

(** The coins created up to a height *)
Fixpoint total_subsidy (params : Params) (n : nat) : Z :=
  match n with
  | O => 0
  | S n' => total_subsidy params n' + GetBlockSubsidy (Z.of_nat n) params
  end.

(** The blocks of an era up to a height *)
Definition in_era (params : Params) (n k : Z) : Z :=
  Z.max 0 (Z.min (nSubsidyHalvingInterval params) (n - nLastPOWBlock params - k * nSubsidyHalvingInterval params)).
Definition subsidy_sum (params : Params) (n : Z) : Z :=
  1800 * COIN * Z.min n (nLastPOWBlock params) +
  4 * COIN * in_era params n 0 + 2 * COIN * in_era params n 1 + COIN * in_era params n 2 + 50000000 * in_era params n 3 +
  25000000 * in_era params n 4 + 12500000 * in_era params n 5 + 6250000 * in_era params n 6.

Lemma in_era_range params n k : 0 < nSubsidyHalvingInterval params -> 0 <= in_era params n k <= nSubsidyHalvingInterval params.
Proof. unfold in_era. lia. Qed.

Lemma in_era_before params n k : 0 < nSubsidyHalvingInterval params -> 0 <= k -> n <= nLastPOWBlock params -> in_era params n k = 0.
Proof. unfold in_era. intros Hi Hk Hn. nia. Qed.

Lemma in_era_over params n k : 0 < nSubsidyHalvingInterval params ->
  nLastPOWBlock params + (k + 1) * nSubsidyHalvingInterval params <= n -> in_era params n k = nSubsidyHalvingInterval params.
Proof. unfold in_era. intros Hi Hn. lia. Qed.

Lemma in_era_step params n k j : 0 < nSubsidyHalvingInterval params -> 0 <= k -> 0 <= j ->
  nLastPOWBlock params + k * nSubsidyHalvingInterval params < n <= nLastPOWBlock params + (k + 1) * nSubsidyHalvingInterval params ->
  in_era params n j = in_era params (n - 1) j + (if j =? k then 1 else 0).
Proof.
  unfold in_era. set (i := nSubsidyHalvingInterval params). set (l := nLastPOWBlock params). intros Hi Hk Hj Hn.
  destruct (Z.eqb_spec j k) as [-> | Hne]; [lia | ]. destruct (Z.lt_trichotomy j k) as [H | [H | H]]; [ | done | ].
  - assert ((j + 1) * i <= k * i) by (apply Z.mul_le_mono_nonneg_r; lia). lia.
  - assert ((k + 1) * i <= j * i) by (apply Z.mul_le_mono_nonneg_r; lia). lia.
Qed.

Lemma subsidy_sum_step params n : 0 < nSubsidyHalvingInterval params -> 0 <= nLastPOWBlock params -> 0 < n ->
  subsidy_sum params n = subsidy_sum params (n - 1) + GetBlockSubsidy n params.
Proof.
  intros Hi Hl Hn. destruct (Z.le_gt_cases n (nLastPOWBlock params)) as [Hp | Hp].
  { unfold GetBlockSubsidy. rewrite (proj2 (Z.leb_le _ _) Hp). unfold subsidy_sum. rewrite !in_era_before by lia. unfold COIN. lia. }
  assert (exists k, 0 <= k /\ nLastPOWBlock params + k * nSubsidyHalvingInterval params < n <= nLastPOWBlock params + (k + 1) * nSubsidyHalvingInterval params)
    as (k & Hk & Hr).
  { set (i := nSubsidyHalvingInterval params) in *. set (l := nLastPOWBlock params) in *.
    exists ((n - l - 1) / i). pose proof (Z.div_mod (n - l - 1) i ltac:(lia)). pose proof (Z.mod_pos_bound (n - l - 1) i Hi).
    split; [apply Z.div_pos; lia | lia]. }
  rewrite (subsidy_era params n k Hi Hk Hr). unfold subsidy_sum.
  rewrite !(in_era_step params n k) by lia. rewrite !Z.min_r by lia. destruct (Z.ltb_spec k 7) as [H7 | H7].
  - assert (k = 0 \/ k = 1 \/ k = 2 \/ k = 3 \/ k = 4 \/ k = 5 \/ k = 6) as Hc by lia.
    destruct Hc as [-> | [-> | [-> | [-> | [-> | [-> | ->]]]]]]; cbn [Z.eqb Pos.eqb];
      match goal with |- context [4 * COIN / ?e] => let v := eval vm_compute in (4 * COIN / e) in change (4 * COIN / e) with v end;
      unfold COIN; lia.
  - repeat (match goal with |- context [?j =? k] => rewrite (proj2 (Z.eqb_neq j k)) by lia end). lia.
Qed.

Lemma total_subsidy_sum params n : 0 < nSubsidyHalvingInterval params -> 0 <= nLastPOWBlock params ->
  total_subsidy params n = subsidy_sum params (Z.of_nat n).
Proof.
  intros Hi Hl. induction n as [ | n IH]; cbn [total_subsidy].
  - unfold subsidy_sum. rewrite !in_era_before by lia. rewrite Z.min_l by lia. done.
  - rewrite IH, (subsidy_sum_step params (Z.of_nat (S n))) by lia. do 2 f_equal. lia.
Qed.

(** The schedule of subsidies, for any halving interval: 1800 coins up to the last proof-of-work
    block, then in the [k]-th interval after it 4 coins halved [k] times, and nothing after seven
    intervals.  On the main network the blocks up to any height have created at most
    17722406.25 coins, exactly that once the subsidy is over, which is within [MAX_MONEY]; no
    subsidy is negative or grows with the height. *)
Theorem subsidy_schedule params :
  0 < nSubsidyHalvingInterval params -> 0 <= nLastPOWBlock params ->
  (forall h, h <= nLastPOWBlock params -> GetBlockSubsidy h params = 1800 * COIN) /\
  (forall k h, 0 <= k ->
     nLastPOWBlock params + k * nSubsidyHalvingInterval params < h <= nLastPOWBlock params + (k + 1) * nSubsidyHalvingInterval params ->
     GetBlockSubsidy h params = if k <? 7 then 4 * COIN / 2 ^ k else 0) /\
  (forall h, 0 <= GetBlockSubsidy (h + 1) params <= GetBlockSubsidy h params) /\
  (forall n, total_subsidy CMainParams n <= 1772240625000000 <= MAX_MONEY) /\
  (forall n, 5500 + 7 * 985500 <= Z.of_nat n -> total_subsidy CMainParams n = 1772240625000000).
Proof.
  intros Hi Hl. split_and!.
  - intros h Hh. unfold GetBlockSubsidy. by rewrite (proj2 (Z.leb_le _ _) Hh).
  - intros k h Hk Hh. by apply subsidy_era.
  - intros h. set (i := nSubsidyHalvingInterval params) in *. set (l := nLastPOWBlock params) in *.
    unfold GetBlockSubsidy, COIN. fold i l. destruct (Z.leb_spec (h + 1) l), (Z.leb_spec h l); try lia.
    + replace (h + 1 - l - 1) with 0 by lia. rewrite Z.quot_0_l by lia. vm_compute; split; discriminate.
    + rewrite !Z.quot_div_nonneg by lia.
      assert (0 <= (h - l - 1) / i <= (h + 1 - l - 1) / i) as Hq by (split; [apply Z.div_pos; lia | apply Z.div_le_mono; lia]).
      destruct (Z.leb_spec 7 ((h + 1 - l - 1) / i)), (Z.leb_spec 7 ((h - l - 1) / i)); try lia.
      * split; [lia | apply Z.shiftr_nonneg; lia].
      * rewrite !Z.shiftr_div_pow2 by lia. split; [apply Z.div_pos; lia | ]. apply Z.div_le_compat_l; [lia | ].
        split; [apply Z.pow_pos_nonneg; lia | apply Z.pow_le_mono_r; lia].
  - intros n. rewrite total_subsidy_sum by (cbn; lia). unfold subsidy_sum. pose proof (in_era_range CMainParams (Z.of_nat n)) as Hr.
    cbn [nSubsidyHalvingInterval nLastPOWBlock CMainParams] in *. pose proof (Hr 0 eq_refl). pose proof (Hr 1 eq_refl). pose proof (Hr 2 eq_refl).
    pose proof (Hr 3 eq_refl). pose proof (Hr 4 eq_refl). pose proof (Hr 5 eq_refl). pose proof (Hr 6 eq_refl). unfold MAX_MONEY, CENT, COIN. lia.
  - intros n Hn. rewrite total_subsidy_sum by (cbn; lia). unfold subsidy_sum. rewrite !in_era_over by (cbn; lia).
    cbn [nSubsidyHalvingInterval nLastPOWBlock CMainParams]. unfold COIN. lia.
Qed.

Lemma subsidy_schedule_witness : GetBlockSubsidy 1000000 CMainParams = 2 * COIN /\ GetBlockSubsidy 7000000 CMainParams = 0.
Proof.
  destruct (subsidy_schedule CMainParams) as (_ & H & _); [reflexivity | discriminate | ].
  split; [rewrite (H 1) | rewrite (H 7)]; vm_compute; (reflexivity || discriminate || (split; [reflexivity | discriminate])).
Defined.

(** *** The check of the reward *)

Lemma erase_first_spec o l : match erase_first o l with Some r => l ≡ₚ o :: r | None => o ∉ l end.
Proof.
  induction l as [ | x l IH]; cbn [erase_first]; [by apply not_elem_of_nil | ].
  case_bool_decide as E; [by rewrite E | ]. destruct (erase_first o l) as [r | ]; cbn [mbind option_bind].
  - rewrite IH. apply Permutation_swap.
  - rewrite not_elem_of_cons. auto.
Qed.

(** Removing outputs one by one succeeds exactly when they are all there, as often as asked. *)
Lemma erase_all_spec vs l : match erase_all vs l with Some r => l ≡ₚ vs ++ r | None => ~ vs ⊆+ l end.
Proof.
  revert l. induction vs as [ | o vs IH]; intros l; cbn [erase_all]; [done | ].
  pose proof (erase_first_spec o l) as Hf. destruct (erase_first o l) as [l' | ]; cbn [mbind option_bind].
  - specialize (IH l'). destruct (erase_all vs l') as [r | ]; [by rewrite Hf, IH | ].
    rewrite Hf. intros Hs. apply IH. by apply (submseteq_app_inv_l _ _ [o]).
  - intros Hs. apply Hf. eapply elem_of_submseteq; [ | exact Hs]. apply list_elem_of_here.
Qed.

Lemma erase_all_ok vs l : (exists r, erase_all vs l = Some r) <-> vs ⊆+ l.
Proof.
  pose proof (erase_all_spec vs l) as H. destruct (erase_all vs l) as [r | ].
  - split; [intros _ | eauto]. rewrite H. apply submseteq_inserts_r. done.
  - split; [by intros (r & ?) | done].
Qed.

Lemma erase_all_app vs ws l r : erase_all vs l = Some r -> (exists r', erase_all ws r = Some r') <-> vs ++ ws ⊆+ l.
Proof.
  intros E. pose proof (erase_all_spec vs l) as H. rewrite E in H. rewrite erase_all_ok, H. split.
  - intros Hw. by apply submseteq_app.
  - apply submseteq_app_inv_l.
Qed.

Section CheckReward.
Context (m : BlockMap) (chainActive : CChain) (params : Params) (db : stake_index) (c : script_cache).
Context (block : CBlock) (state : CValidationState) (nHeight : Z) (nFees gasRefunds nActualStakeReward : CAmount) (vouts : list CTxOut).

(** The transaction that is paid the reward: the coinbase, or the coinstake *)
Definition reward_tx : option CTransaction := vtx block !! (if header_IsProofOfStake block then 1%nat else 0%nat).
Definition block_reward : Z := nFees + GetBlockSubsidy nHeight params.
Definition recipients : Z := if nFirstMPoSBlock params <=? nHeight - 1 then nMPoSRewardRecipients params else 1.
Definition reward_piece : Z := (block_reward - gasRefunds) / recipients.

(** The outputs the reward transaction must have, when there is no reason to reject *)
Definition reward_fine (tx : CTransaction) (scripts : option (list CScript)) : Prop :=
  if header_IsProofOfWork block then vouts ⊆+ vout tx /\ total_out (vout tx) <= block_reward
  else nActualStakeReward <= block_reward /\
    ((recipients = 1 /\ vouts ⊆+ vout tx) \/
     (recipients <> 1 /\ gasRefunds <= block_reward /\
      exists l, scripts = Some l /\ vouts ++ map (mk_CTxOut reward_piece) l ⊆+ vout tx)).
End CheckReward.

Lemma subsidy_range h params : 0 < nSubsidyHalvingInterval params -> 0 <= GetBlockSubsidy h params <= 1800 * COIN.
Proof.
  intros Hi. unfold GetBlockSubsidy, COIN. zcases. rewrite Z.shiftr_div_pow2 by (apply Z.quot_pos; lia).
  set (q := Z.quot _ _) in *. assert (0 <= q) by (apply Z.quot_pos; lia). assert (0 < 2 ^ q) by (apply Z.pow_pos_nonneg; lia).
  split; [apply Z.div_pos; lia | ]. apply Z.div_le_upper_bound; nia.
Qed.

(** (C31) [CheckReward] is exact: given the scripts of the recipients it always answers, and accepts a
    reward exactly when it is within fees plus subsidy and the outputs contain, counted with
    multiplicity, every gas refund and, once rewards are split, one equal piece for every
    recipient; the pieces and the refunds together never exceed the reward.  An accepted block
    leaves the state as it was. *)
Theorem CheckReward_exact m chainActive params db c block state nHeight nFees gasRefunds nActualStakeReward vouts (tx : CTransaction) scripts c' :
  0 < nSubsidyHalvingInterval params -> 1 <= nMPoSRewardRecipients params -> MoneyRange nFees = true ->
  reward_tx block = Some tx -> GetValueOut tx = Some (total_out (vout tx)) ->
  GetMPoSOutputScripts m chainActive params db c (nHeight - 1) = Some (scripts, c') ->
  exists ok st' c'',
    CheckReward m chainActive params db c block state nHeight nFees gasRefunds nActualStakeReward vouts = (Some (ok, st'), c'') /\
    (ok = true <-> reward_fine params block nHeight nFees gasRefunds nActualStakeReward vouts tx scripts) /\
    (ok = true -> st' = state) /\ (c'' = c \/ c'' = c') /\
    (gasRefunds <= block_reward params nHeight nFees ->
     gasRefunds + recipients params nHeight * reward_piece params nHeight nFees gasRefunds <= block_reward params nHeight nFees).
Proof.
  intros Hi Hn Hf Htx Hvo Hs. unfold CheckReward, check_reward, reward_fine. unfold reward_tx in Htx.
  apply MoneyRange_spec in Hf. pose proof (subsidy_range nHeight params Hi) as Hsub. unfold header_IsProofOfWork.
  assert (1 <= recipients params nHeight) as Hr by (unfold recipients; zcases).
  assert (gasRefunds <= block_reward params nHeight nFees ->
     gasRefunds + recipients params nHeight * reward_piece params nHeight nFees gasRefunds <= block_reward params nHeight nFees) as Hp.
  { intros _. unfold reward_piece. pose proof (Z.mul_div_le (block_reward params nHeight nFees - gasRefunds) (recipients params nHeight)). lia. }
  assert (i64 (nFees + GetBlockSubsidy nHeight params) = block_reward params nHeight nFees) as Hi64.
  { unfold block_reward. rewrite i64_id; [done | ]. unfold MAX_MONEY, COIN, CENT in *. clear -Hf Hsub. lia. }
  unfold check_stake_reward. rewrite !Hi64. cbn zeta.
  change (if nFirstMPoSBlock params <=? nHeight - 1 then nMPoSRewardRecipients params else 1) with (recipients params nHeight).
  destruct (header_IsProofOfStake block); rewrite Htx; cbn [fmap option_fmap option_map negb].
  - pose proof (erase_all_ok vouts (vout tx)) as He. destruct (erase_all vouts (vout tx)) as [r | ] eqn:Er.
    2: { eexists false, _, c. split; [reflexivity | ]. split; [split; [done | ] | split; [done | by auto]].
         assert (~ vouts ⊆+ vout tx) as Hno by (rewrite <- He; by intros (? & ?)).
         intros [_ [[_ H] | (_ & _ & l & _ & H)]]; [done | ]. destruct Hno. etrans; [ | exact H]. by apply submseteq_inserts_r. }
    assert (vouts ⊆+ vout tx) as Hv by (apply He; eauto).
    destruct (Z.ltb_spec (block_reward params nHeight nFees) nActualStakeReward).
    { eexists false, _, c. split; [reflexivity | ]. split; [split; [done | intros [? _]; lia] | split; [done | by auto]]. }
    destruct (Z.ltb_spec (recipients params nHeight) 1); [lia | ]. destruct (Z.eqb_spec (recipients params nHeight) 1) as [E1 | E1].
    { exists true, state, c. split; [reflexivity | ]. split; [split; [auto | done] | split; [done | by auto]]. }
    destruct (Z.ltb_spec (block_reward params nHeight nFees) gasRefunds).
    { eexists false, _, c. split; [reflexivity | ]. split; [split; [done | intros [_ [[? _] | (_ & ? & _)]]; lia] | split; [done | by auto]]. }
    rewrite Hs. destruct scripts as [l | ].
    2: { eexists false, _, c'. split; [reflexivity | ]. split; [split; [done | intros [_ [[? _] | (_ & _ & ? & ? & _)]]; done] | split; [done | by auto]]. }
    rewrite Z.quot_div_nonneg by lia. fold (reward_piece params nHeight nFees gasRefunds).
    pose proof (erase_all_app vouts (map (mk_CTxOut (reward_piece params nHeight nFees gasRefunds)) l) _ r Er) as Ha.
    destruct (erase_all (map _ l) r) as [r' | ].
    + exists true, state, c'. split; [reflexivity | ]. split; [split; [intros _ | done] | split; [done | by auto]]. split; [lia | ]. right.
      split_and!; try done. exists l. split; [done | ]. apply Ha. eauto.
    + eexists false, _, c'. split; [reflexivity | ]. split; [split; [done | ] | split; [done | by auto]].
      intros [_ [[? _] | (_ & _ & l' & [= <-] & H')]]; [done | ]. apply Ha in H' as (? & ?). done.
  - pose proof (erase_all_ok vouts (vout tx)) as He. destruct (erase_all vouts (vout tx)) as [r | ] eqn:Er.
    2: { eexists false, _, c. split; [reflexivity | ]. split; [split; [done | ] | split; [done | by auto]].
         intros [H _]. apply He in H as (? & ?). done. }
    assert (vouts ⊆+ vout tx) as Hv by (apply He; eauto). rewrite Hvo. unfold reject_if.
    destruct (Z.ltb_spec (block_reward params nHeight nFees) (total_out (vout tx))).
    + eexists false, _, c. split; [reflexivity | ]. split; [split; [done | intros [_ ?]; lia] | split; [done | by auto]].
    + exists true, state, c. split; [reflexivity | ]. split; [split; [auto | done] | split; [done | by auto]].
Qed.

Lemma CheckReward_exact_witness : exists c'',
  CheckReward ∅ [] CMainParams ∅ ∅ stake_block CValidationState_new 6000 (2 * COIN) 0 (6 * COIN) [] = (Some (true, CValidationState_new), c'').
Proof.
  destruct (CheckReward_exact ∅ [] CMainParams ∅ ∅ stake_block CValidationState_new 6000 (2 * COIN) 0 (6 * COIN) []
    (MakeTransaction toy_crypto sample_coinstake) None ∅) as (ok & st' & c'' & E & Hok & Hst & _).
  - reflexivity.
  - discriminate.
  - reflexivity.
  - reflexivity.
  - reflexivity.
  - vm_compute. reflexivity.
  - exists c''. rewrite E. assert (ok = true) as ->.
    { apply Hok. split; [vm_compute; discriminate | ]. left. split; [vm_compute; reflexivity | apply submseteq_nil_l]. }
    by rewrite Hst.
Defined.

(** *** The recipients, whatever was connected and disconnected before *)

Section History.
Context (m : BlockMap) (params : Params).
(** The address recorded for each block when it is connected *)
Context (staker : uint256 -> uint160).
(** Entries know their hashes. *)
Context (Hm : forall p b, m !! p = Some b -> phashBlock b = Some p /\ length p = 32%nat).

Record mpos_state : Type := mk_mpos { ms_chain : CChain; ms_db : stake_index; ms_cache : script_cache }.
Definition mpos_start : mpos_state := mk_mpos [] ∅ ∅.

Inductive mpos_op : Type :=
| Connect (p : ptr)       (* a block becomes the tip *)
| Disconnect              (* the tip is taken back *)
| Recipients (nHeight : Z).

(** A step, with the answer to a query; [None]: a bad pointer *)
Definition mpos_step (s : mpos_state) (op : mpos_op) : option (option (list CScript) * mpos_state) :=
  let h := vsize (ms_chain s) in
  match op with
  | Connect p => Some (None, mk_mpos (ms_chain s ++ [Some p]) (WriteStakeIndex (ms_db s) h (staker p)) (ms_cache s))
  | Disconnect => Some (None, mk_mpos (removelast (ms_chain s)) (EraseStakeIndex (ms_db s) (h - 1)) (ms_cache s))
  | Recipients nHeight =>
      '(scripts, c) ← GetMPoSOutputScripts m (ms_chain s) params (ms_db s) (ms_cache s) nHeight;
      Some (scripts, mk_mpos (ms_chain s) (ms_db s) c)
  end.
Fixpoint mpos_run (s : mpos_state) (ops : list mpos_op) : option (list (option (list CScript))) :=
  match ops with
  | [] => Some []
  | op :: ops => '(a, s) ← mpos_step s op; l ← mpos_run s ops; Some (a :: l)
  end.

(** The same from the active chain alone: no cache and no database *)
Definition recipient (chain : CChain) (h : Z) : option CScript :=
  match chain_at chain h with
  | None => None
  | Some p =>
      b ← m !! p;
      if IsProofOfStake b then Some (staker_script (staker p)) else if fPoSNoRetargeting params then Some burn_script else None
  end.
Definition recipient_scripts (chain : CChain) (nHeight : Z) : option (list CScript) :=
  mapM (fun i => recipient chain (nHeight - COINBASE_MATURITY - Z.of_nat i)) (seq 0 (Z.to_nat (nMPoSRewardRecipients params - 1))).
Fixpoint spec_run (chain : CChain) (ops : list mpos_op) : list (option (list CScript)) :=
  match ops with
  | [] => []
  | Connect p :: ops => None :: spec_run (chain ++ [Some p]) ops
  | Disconnect :: ops => None :: spec_run (removelast chain) ops
  | Recipients nHeight :: ops => recipient_scripts chain nHeight :: spec_run chain ops
  end.

(** Every element of the cache is right for the block it was made for, on the active chain or not. *)
Definition cache_ok (c : script_cache) : Prop :=
  forall h e, c !! h = Some e -> length (se_hash e) = 32%nat /\ se_script e = staker_script (staker (se_hash e)) /\
    forall b, m !! se_hash e = Some b -> IsProofOfStake b = true.
(** Every block of the active chain is recorded. *)
Definition index_ok (chain : CChain) (db : stake_index) : Prop :=
  (forall h p, chain_at chain h = Some p -> is_Some (m !! p) /\ db !! h = Some (staker p)) /\
  (forall h a, db !! h = Some a -> 0 <= h < 2 ^ 32).

Lemma stake_key_inj h h' : 0 <= h < 2 ^ 32 -> 0 <= h' < 2 ^ 32 -> stake_key h = stake_key h' -> h = h'.
Proof.
  unfold stake_key, ser_writedata32. intros H H' E. apply (f_equal le_decode) in E. rewrite !le_decode_encode in E.
  change (2 ^ (8 * Z.of_nat 4)) with (2 ^ 32) in E. rewrite !u32_id, !Z.mod_small in E by (try rewrite u32_id by done; done). done.
Qed.

(** The record of the height itself comes first. *)
Lemma seek_found h a (l : list (Z * uint160)) : (forall kv, kv ∈ l -> 0 <= fst kv < 2 ^ 32) -> 0 <= h < 2 ^ 32 ->
  NoDup (fst <$> l) -> (h, a) ∈ l -> foldr (seek_step h) None l = Some (h, a).
Proof.
  intros Hr Hh Hd Hin.
  assert (forall l' kv, foldr (seek_step h) None l' = Some kv -> kv ∈ l' /\ ~ memcmp (stake_key (fst kv)) (stake_key h) < 0) as Hres.
  { induction l' as [ | x l' IH]; intros kv; cbn [foldr]; [done | ]. unfold seek_step at 1.
    destruct (Z.ltb_spec (memcmp (stake_key (fst x)) (stake_key h)) 0).
    { intros E. apply IH in E as [? ?]. split; [by apply list_elem_of_further | done]. }
    destruct (foldr _ None l') as [b | ].
    - destruct (Z.ltb_spec (memcmp (stake_key (fst x)) (stake_key (fst b))) 0).
      + intros [= <-]. split; [apply list_elem_of_here | lia].
      + intros [= <-]. destruct (IH b eq_refl). split; [by apply list_elem_of_further | done].
    - intros [= <-]. split; [apply list_elem_of_here | lia]. }
  induction l as [ | x l IH]; [by apply elem_of_nil in Hin | ]. cbn [foldr]. unfold seek_step at 1.
  cbn [fmap list_fmap] in Hd. apply NoDup_cons in Hd as [Hnx Hd]. apply elem_of_cons in Hin as [<- | Hin].
  - cbn [fst]. rewrite memcmp_refl. cbn [Z.ltb Z.compare]. destruct (foldr (seek_step h) None l) as [b | ] eqn:E; [ | done].
    apply Hres in E as [Hb Hnb]. destruct (Z.ltb_spec (memcmp (stake_key h) (stake_key (fst b))) 0); [done | ]. destruct Hnx. cbn [fst].
    assert (h = fst b) as ->; [ | by apply list_elem_of_fmap_2].
    apply stake_key_inj; [done | apply Hr; by apply list_elem_of_further | ].
    destruct (memcmp_anti (stake_key h) (stake_key (fst b))) as [? | [? | ?]]; [unfold stake_key, ser_writedata32; by rewrite !le_encode_length | lia | lia | done].
  - rewrite IH; [ | intros kv Hkv; apply Hr; by apply list_elem_of_further | done | done]. cbn [fst].
    destruct (Z.ltb_spec (memcmp (stake_key (fst x)) (stake_key h)) 0); done.
Qed.

Lemma ReadStakeIndex_found (db : stake_index) h a : (forall h a, db !! h = Some a -> 0 <= h < 2 ^ 32) -> db !! h = Some a -> ReadStakeIndex db h = Some a.
Proof.
  intros Hr E. unfold ReadStakeIndex, Seek. rewrite u32_id by (by apply (Hr h a)). erewrite (seek_found h a); [done | | by apply (Hr h a) | apply NoDup_fst_map_to_list | by apply elem_of_map_to_list].
  intros [h' a'] Hin%elem_of_map_to_list. by apply (Hr h' a').
Qed.

Lemma CleanScriptCache_ok chain c h : cache_ok c -> cache_ok (CleanScriptCache m chain params c h).
Proof. intros Hc h' e He. apply map_lookup_filter_Some in He as [He _]. by apply (Hc h'). Qed.

Lemma AddToScriptCache_ok chain c p b h : cache_ok c -> m !! p = Some b -> IsProofOfStake b = true ->
  cache_ok (AddToScriptCache m chain params c (staker_script (staker p)) p h).
Proof.
  intros Hc Hb Hp. unfold AddToScriptCache. pose proof (CleanScriptCache_ok chain c h Hc) as Hc'. destruct (CleanScriptCache m chain params c h !! h); [done | ].
  intros h' e. destruct (decide (h' = h)) as [-> | ].
  - rewrite lookup_insert_eq. intros [= <-]. cbn [se_hash se_script]. split; [by apply (Hm p b) | ]. split; [done | ]. intros b' Hb'. congruence.
  - rewrite lookup_insert_ne by done. apply Hc'.
Qed.

Lemma AddMPoSScript_spec chain db c h : index_ok chain db -> cache_ok c ->
  exists c', AddMPoSScript m chain params db c h = Some (recipient chain h, c') /\ cache_ok c'.
Proof.
  intros [Hi Hr] Hc. unfold AddMPoSScript, recipient. destruct (chain_at chain h) as [p | ] eqn:Ep; [ | by eauto].
  destruct (Hi h p Ep) as [[b Hb] Hdb]. destruct (Hm p b Hb) as [Hp Hl]. rewrite Hb. cbn [mbind option_bind]. rewrite Hp. cbn [mbind option_bind].
  unfold ReadFromScriptCache. set (c1 := CleanScriptCache m chain params c h). assert (cache_ok c1) as Hc1 by (by apply CleanScriptCache_ok).
  assert (exists c', (match ReadStakeIndex db h with
          | None => Some (None, c1)
          | Some stakeAddress =>
              if IsProofOfStake b then
                let script := staker_script stakeAddress in
                Some (Some script, AddToScriptCache m chain params c1 script p h)
              else if fPoSNoRetargeting params then Some (Some burn_script, c1)
              else Some (None, c1)
          end) = Some (if IsProofOfStake b then Some (staker_script (staker p)) else if fPoSNoRetargeting params then Some burn_script else None, c') /\ cache_ok c') as Hread.
  { rewrite (ReadStakeIndex_found db h (staker p) Hr Hdb). destruct (IsProofOfStake b) eqn:Es.
    - eexists. split; [reflexivity | ]. by apply (AddToScriptCache_ok chain c1 p b).
    - destruct (fPoSNoRetargeting params); eauto. }
  destruct (c1 !! h) as [e | ] eqn:Ee; [ | exact Hread]. destruct (Hc1 h e Ee) as (Hle & Hs & Hst).
  rewrite base_blob_eq_spec by congruence. case_bool_decide as E; [ | exact Hread]. exists c1. split; [ | done].
  rewrite Hs. rewrite <- E in Hb. rewrite (Hst b Hb), E. done.
Qed.

Lemma mpos_loop_spec chain db n h acc c : index_ok chain db -> cache_ok c ->
  exists c', mpos_loop m chain params db c n h acc =
    Some ((fun l => acc ++ l) <$> mapM (fun i => recipient chain (h - Z.of_nat i)) (seq 0 n), c') /\ cache_ok c'.
Proof.
  intros Hi. revert h acc c. induction n as [ | n IH]; intros h acc c Hc; cbn [mpos_loop].
  { exists c. cbn [seq mapM fmap option_fmap option_map mret option_ret]. by rewrite app_nil_r. }
  destruct (AddMPoSScript_spec chain db c h Hi Hc) as (c1 & -> & Hc1). cbn [mbind option_bind seq mapM].
  rewrite Z.sub_0_r. destruct (recipient chain h) as [s | ]; cbn [mbind option_bind]; [ | by eauto].
  destruct (IH (h - 1) (acc ++ [s]) c1 Hc1) as (c2 & -> & Hc2). exists c2. split; [ | done]. do 2 f_equal.
  rewrite <- seq_shift. assert (forall l, mapM (fun i => recipient chain (h - Z.of_nat i)) (S <$> l) = mapM (fun i => recipient chain (h - 1 - Z.of_nat i)) l) as E.
  { induction l as [ | i l IHl]; [done | ]. cbn [fmap list_fmap mapM]. rewrite IHl. by replace (h - Z.of_nat (S i)) with (h - 1 - Z.of_nat i) by lia. }
  change (map S (seq 0 n)) with (S <$> seq 0 n). rewrite E. destruct (mapM _ (seq 0 n)) as [l | ]; [ | done]. cbn [fmap option_fmap option_map mbind option_bind mret option_ret].
  by rewrite <- app_assoc.
Qed.

Lemma GetMPoSOutputScripts_spec chain db c h : index_ok chain db -> cache_ok c ->
  exists c', GetMPoSOutputScripts m chain params db c h = Some (recipient_scripts chain h, c') /\ cache_ok c'.
Proof.
  intros Hi Hc. unfold GetMPoSOutputScripts, recipient_scripts.
  destruct (mpos_loop_spec chain db (Z.to_nat (nMPoSRewardRecipients params - 1)) (h - COINBASE_MATURITY) [] c Hi Hc) as (c' & -> & Hc').
  exists c'. split; [ | done]. do 2 f_equal. by destruct (mapM _ _).
Qed.

Lemma chain_at_some chain h p : chain_at chain h = Some p <-> 0 <= h /\ chain !! Z.to_nat h = Some (Some p).
Proof.
  unfold chain_at, vsize. destruct (Z.ltb_spec h 0), (Z.leb_spec (Z.of_nat (length chain)) h); cbn [orb]; try (split; [done | lia]).
  - split; [done | ]. intros [_ E]. apply lookup_lt_Some in E. lia.
  - destruct (chain !! Z.to_nat h) as [x | ]; split; [by intros -> | by intros [_ [= ->]] | done | by intros [_ ?]].
Qed.

Lemma Connect_index_ok chain db p : vsize chain < 2 ^ 32 -> index_ok chain db -> is_Some (m !! p) ->
  index_ok (chain ++ [Some p]) (WriteStakeIndex db (vsize chain) (staker p)).
Proof.
  intros Hs [H1 H2] Hp. unfold WriteStakeIndex. pose proof (vsize_nonneg chain). rewrite u32_id by lia. split.
  - intros h p' [Hh E]%chain_at_some. apply lookup_app_Some in E as [E | [Hl E]].
    + pose proof (lookup_lt_Some _ _ _ E). rewrite lookup_insert_ne by (unfold vsize; lia). apply H1, chain_at_some. done.
    + apply list_lookup_singleton_Some in E as [E [= <-]]. replace h with (vsize chain) by (unfold vsize; lia). by rewrite lookup_insert_eq.
  - intros h a. destruct (decide (h = vsize chain)) as [-> | ]; [lia | ]. rewrite lookup_insert_ne by done. apply H2.
Qed.

Lemma removelast_lookup {A} (l : list A) i x : removelast l !! i = Some x -> l !! i = Some x.
Proof. revert i. induction l as [ | y [ | z l] IH]; intros [ | i]; simpl; try done. apply IH. Qed.

Lemma Disconnect_index_ok chain db h : index_ok chain db -> index_ok (removelast chain) (EraseStakeIndex db h).
Proof.
  intros [H1 H2]. assert (EraseStakeIndex db h = db) as -> by (unfold EraseStakeIndex; by destruct (Seek db h) as [[? ?] | ]).
  split; [ | done]. intros h' p [Hh E]%chain_at_some. apply H1, chain_at_some. split; [done | by apply removelast_lookup].
Qed.

Lemma mpos_run_spec ops s : Forall (fun op => match op with Connect p => is_Some (m !! p) | _ => True end) ops ->
  vsize (ms_chain s) + vsize ops < 2 ^ 32 -> index_ok (ms_chain s) (ms_db s) -> cache_ok (ms_cache s) ->
  mpos_run s ops = Some (spec_run (ms_chain s) ops).
Proof.
  intros Hops. revert s. induction Hops as [ | op ops Hop _ IH]; intros [chain db c] Hs Hi Hc; [done | ]. cbn [ms_chain ms_db ms_cache] in *.
  rewrite vsize_cons in Hs. pose proof (vsize_nonneg ops). destruct op as [p | | h]; cbn [mpos_run mpos_step ms_chain ms_db ms_cache mbind option_bind spec_run].
  - rewrite IH; [done | | | done]; cbn [ms_chain ms_db]; [rewrite vsize_app, vsize_cons, vsize_nil; lia | apply Connect_index_ok; [lia | done..]].
  - rewrite IH; [done | | | done]; cbn [ms_chain ms_db]; [ | by apply Disconnect_index_ok].
    assert (vsize (removelast chain) <= vsize chain); [ | lia]. unfold vsize. clear. induction chain as [ | x [ | y l] IH]; simpl in *; lia.
  - destruct (GetMPoSOutputScripts_spec chain db c h Hi Hc) as (c' & -> & Hc'). cbn [mbind option_bind]. rewrite IH; [done | cbn [ms_chain]; lia | done | done].
Qed.
End History.

(** (C30) The recipients of a split reward depend on the active chain alone.  Over any sequence of
    blocks connected, blocks disconnected and lists of recipients asked for, every list that
    [GetMPoSOutputScripts] returns, with its cache of scripts and its index of stakers (whose
    records of disconnected blocks stay behind), is the one computed from the blocks then on the
    active chain and the addresses they were staked from. *)
Theorem mpos_recipients_refine m params staker ops :
  (forall p b, m !! p = Some b -> phashBlock b = Some p /\ length p = 32%nat) ->
  Forall (fun op => match op with Connect p => is_Some (m !! p) | _ => True end) ops -> vsize ops < 2 ^ 32 ->
  mpos_run m params staker mpos_start ops = Some (spec_run m params staker [] ops).
Proof.
  intros Hm Hops Hs. apply (mpos_run_spec m params staker Hm ops mpos_start Hops); [done | | ].
  - split; [ | done]. intros h p [_ E]%chain_at_some. done.
  - intros h e E. done.
Qed.

(** One staked block; the recipients of the reward 500 blocks later *)
Definition staked_hash : ptr := repeat 3 32.
Definition staked_map : BlockMap := {[ staked_hash := set_phashBlock (CBlockIndex_of_header stake_block) (Some staked_hash) ]}.
Definition two_recipients : Params :=
  let 'mk_Params a b c d e f g h i j k l m n o p q r s t u v w := CMainParams in mk_Params a b c d e f g h i j k l m n o p q r s t u 2 w.

Lemma mpos_recipients_refine_witness :
  mpos_run staked_map two_recipients (fun _ => repeat 9 20) mpos_start
    [Connect staked_hash; Recipients 500; Recipients 500; Disconnect; Recipients 500] =
  Some [None; Some [staker_script (repeat 9 20)]; Some [staker_script (repeat 9 20)]; None; None].
Proof.
  rewrite (mpos_recipients_refine staked_map two_recipients (fun _ => repeat 9 20)).
  - vm_compute. reflexivity.
  - intros p b. unfold staked_map. intros [<- <-]%lookup_singleton_Some. split; reflexivity.
  - repeat constructor. unfold staked_map. rewrite lookup_singleton_eq. by eexists.
  - reflexivity.
Defined.
