(* ===== verification/Connect.v ===== *)
(** * Connecting a block ([CChainState::ConnectBlock] of [src/validation.cpp])

    The limits in force, the checks of [CheckBlock] once more, the proof of stake, whether scripts
    have to be checked, duplicate transactions, then transaction by transaction the inputs, fees,
    locks, signature operations, scripts, contracts and coins, and at the end the reward, the
    checks left to the threads, the block the contracts imply and the money supply.

    The governance values, the virtual machine with its accounts and the roots of its tries, the
    database of stakers, and the outcome of writing undo data are parameters; the receipts and the
    index of events ([fLogEvents]) and the log of the virtual machine are left out.

    Theorem: a block that is connected spends only mature unspent outputs with scripts that
    verify, leaves exactly the unspent outputs its transactions imply, moves the money supply by
    what they create and destroy, and creates no more than the subsidy if it is a proof of
    stake or has no coinstake. *)

From Stdlib Require Import String FunctionalExtensionality.
From stdpp Require Import gmap.
From S2P Require Import Prelude Serialize ArithUint256 Script SigEncoding Interpreter VerifyScript Standard Transaction Block Merkle Chain MedianTime Coins Pow VersionBits Undo TxVerify SigHash Condensing Contract CheckBlock ScriptChecks Reward.
Open Scope Z_scope.

Abbreviation length := Datatypes.length (only parsing).

(** ** Definitions *)

(** How [ConnectBlock] ends otherwise than by connecting the block: after a check reported
    [e], or after [CheckReward] did and the caller reported once more, or as [AbortNode] after
    [CheckBlock] reported [e]. *)
Inductive connect_failure : Type :=
| Failed (e : block_failure)
| RewardFailed (e : block_failure)
| CorruptBlock (e : block_failure).

Definition connect_report {A} (st : CValidationState) (r : result connect_failure A) : option (bool * CValidationState) :=
  match r with
  | Ok _ => Some (true, st)
  | Err (Failed e) => block_report st (A := unit) (Err e)
  | Err (RewardFailed e) => '(_, st) ← block_report st (A := unit) (Err e); Some (false, DoS st 100 0 String.EmptyString false)
  | Err (CorruptBlock e) =>
      '(_, st) ← block_report st (A := unit) (Err e);
      Some (false, Error st "Corrupt block found indicating potential hardware failure; shutting down"%string)
  end.

Definition lift {A} (r : bchecks A) : result connect_failure A :=
  match r with Ok a => Ok a | Err e => Err (Failed e) end.
(** A call that fails only by aborting, and a check of a transaction *)
Definition total {A} (r : option A) : bchecks A := match r with Some a => Ok a | None => Err BlockAbort end.
Definition checked {A} (r : checks A) : bchecks A :=
  match r with
  | Ok a => Ok a
  | Err (Reject level reason) => Err (BlockReject level REJECT_INVALID reason false)
  | Err Abort => Err BlockAbort
  end.

(** *** What is decided before the transactions *)

Definition GetBlockWeight (block : CBlock) : Z :=
  vsize (CBlock_Serialize SER_NETWORK NO_WITNESS_VERSION block) * (WITNESS_SCALE_FACTOR - 1) +
  vsize (CBlock_Serialize SER_NETWORK PROTOCOL_VERSION block).

(** [chain.cpp]; [None] is the division by zero. *)
Definition GetBlockProofEquivalentTime (to from tip : CBlockIndex) (params : Params) : option Z :=
  let '(r, sign) :=
    if ltb (nChainWork from) (nChainWork to) then (sub (nChainWork to) (nChainWork from), 1)
    else (sub (nChainWork from) (nChainWork to), -1) in
  match (p ← GetBlockProof tip; udiv (mul r (of_u64 (u64 (nPowTargetSpacing params)))) p) with
  | Err _ => None
  | Ok r => Some (if 63 <? bits r then sign * INT64_MAX else i64 (u64 (sign * GetLow64 r)))
  end.

(** [fScriptChecks]: false only for an ancestor of the block assumed valid that is also one of the
    best header and deep below it *)
Definition needs_script_checks (m : BlockMap) (params : Params) (hashAssumeValid : uint256) (best : ptr) (minimumWork : base_uint)
  (pindex : ptr) : option bool :=
  if base_blob_IsNull hashAssumeValid then Some true
  else match m !! hashAssumeValid with
  | None => Some true
  | Some _ =>
      b ← m !! pindex;
      a ← GetAncestor m hashAssumeValid (nHeight b);
      if negb (bool_decide (a = Some pindex)) then Some true
      else
        h ← GetAncestor m best (nHeight b);
        if negb (bool_decide (h = Some pindex)) then Some true
        else
          bbest ← m !! best;
          if ltb (nChainWork bbest) minimumWork then Some true
          else t ← GetBlockProofEquivalentTime bbest b bbest params; Some (t <=? 60 * 60 * 24 * 7 * 2)
  end.

Definition BIP34_IMPLIES_BIP30_LIMIT : Z := 1983702.

(** What is assigned to the entry of the block *)
Definition set_hashProof (b : CBlockIndex) (v : uint256) : CBlockIndex :=
  let 'mk_CBlockIndex a1 a2 a3 a4 a5 a6 a7 a8 a9 a10 a11 a12 a13 a14 a15 a16 a17 a18 a19 a20 a21 a22 _ a24 a25 a26 := b in
  mk_CBlockIndex a1 a2 a3 a4 a5 a6 a7 a8 a9 a10 a11 a12 a13 a14 a15 a16 a17 a18 a19 a20 a21 a22 v a24 a25 a26.
Definition set_nMoneySupply (b : CBlockIndex) (v : Z) : CBlockIndex :=
  let 'mk_CBlockIndex a1 a2 a3 a4 a5 a6 a7 a8 a9 a10 a11 a12 a13 a14 a15 a16 a17 a18 a19 a20 a21 a22 a23 _ a25 a26 := b in
  mk_CBlockIndex a1 a2 a3 a4 a5 a6 a7 a8 a9 a10 a11 a12 a13 a14 a15 a16 a17 a18 a19 a20 a21 a22 a23 v a25 a26.
Definition set_undo (b : CBlockIndex) (pos : Z) : CBlockIndex :=
  let 'mk_CBlockIndex a1 a2 a3 a4 a5 a6 a7 _ a9 a10 a11 a12 a13 a14 a15 a16 a17 a18 a19 a20 a21 a22 a23 a24 a25 a26 := b in
  mk_CBlockIndex a1 a2 a3 a4 a5 a6 a7 pos a9 a10 a11 (Z.lor a12 BLOCK_HAVE_UNDO) a13 a14 a15 a16 a17 a18 a19 a20 a21 a22 a23 a24 a25 a26.

(** With the position the data is written at when there is none yet *)
Definition WriteUndoDataForBlock (written : bchecks Z) (pindex : CBlockIndex) : bchecks CBlockIndex :=
  if fst (GetUndoPos pindex) =? -1 then pos ← written; Ok (set_undo pindex pos) else Ok pindex.

Definition raise_validity (pindex : CBlockIndex) : option CBlockIndex :=
  v ← IsValid pindex BLOCK_VALID_SCRIPTS;
  if negb v then '(pindex, _) ← RaiseValidity pindex BLOCK_VALID_SCRIPTS; Some pindex else Some pindex.

(** The most there may be at a height *)
Definition expected_supply (nHeight : Z) : Z := u64 (u64 (100000000 + (nHeight - 5000) * 4) * COIN).
Definition update_supply (params : Params) (pindex : CBlockIndex) (prevSupply nValueOut nValueIn : Z) : bchecks CBlockIndex :=
  let supply := u64 (prevSupply + nValueOut - nValueIn) in
  _ ← reject_if ((5000 <? nHeight pindex) && negb (fPoSNoRetargeting params) && (expected_supply (nHeight pindex) <? supply))
        100 "incorrect-money-supply"%string false;
  Ok (set_nMoneySupply pindex supply).

Section Connect.
Context (C : Crypto) (Verify : bytes -> uint256 -> bytes -> bool).
Context {B : Type} `{CoinsView B} (usage : Coin -> Z).
Context (m : BlockMap) (chainActive : CChain) (params : Params).
(** The virtual machine, its accounts and the roots of the tries *)
Context {A : Type} (ops : AccountOps A) (prepare : ArtaxTransaction -> A -> A).
Context (executive : EnvInfo -> ArtaxTransaction -> A -> list Address -> vm_run A) (create_with_value : Z) (removeEmptyAccounts : EnvInfo -> bool).
Context (rootHash : A -> uint256) (rootHashUTXO : UTXOState -> uint256).
Abbreviation cache := (CCoinsViewCache B).
Abbreviation contracts := (@exec_state A).

(** Whether some output of a transaction is already there *)
Fixpoint have_outputs (view : cache) (hash : uint256) (vout : list CTxOut) (o : Z) : bool * cache :=
  match vout with
  | [] => (false, view)
  | _ :: vout =>
      let '(have, view) := HaveCoin usage view (mk_COutPoint hash (u32 o)) in
      if (have : bool) then (true, view) else have_outputs view hash vout (o + 1)
  end.
Fixpoint have_transactions (view : cache) (vtx : list CTransaction) : bool * cache :=
  match vtx with
  | [] => (false, view)
  | tx :: vtx =>
      let '(have, view) := have_outputs view (GetHash tx) (vout tx) 0 in
      if (have : bool) then (true, view) else have_transactions view vtx
  end.

Definition check_overwrites (view : cache) (pindex : CBlockIndex) (block : CBlock) : bchecks unit * cache :=
  match (prev ← pprev pindex; a ← GetAncestor m prev (BIP34Height params);
         match a with None => Some None | Some p => b ← m !! p; hash ← phashBlock b; Some (Some hash) end) with
  | None => (Err BlockAbort, view)
  | Some hash34 =>
      let fEnforceBIP30 := bool_decide (phashBlock pindex = None) in
      let fEnforceBIP30 := fEnforceBIP30 && match hash34 with None => true | Some hash => negb (base_blob_eq hash (BIP34Hash params)) end in
      if fEnforceBIP30 || (BIP34_IMPLIES_BIP30_LIMIT <=? nHeight pindex) then
        let '(have, view) := have_transactions view (vtx block) in
        (reject_if have 100 "bad-txns-BIP30"%string false, view)
      else (Ok tt, view)
  end.

(** *** One transaction *)

(** The variables of the loop *)
Record progress : Type := mk_progress {
  pg_view : cache;
  nFees : CAmount;
  nActualStakeReward : CAmount;
  nSigOpsCost : Z;
  control : list CScriptCheck;
  scriptExecutionCache : SaltedCache;
  nValueOut : Z;
  nValueIn : Z;
  checkBlock_vtx : list CTransaction;
  globalState : contracts;
  blockGasUsed : Z;
  gasRefunds : CAmount;
  checkVouts : list CTxOut;
  vtxundo : CBlockUndo }.

Fixpoint prev_heights (view : cache) (vin : list CTxIn) : list Z * cache :=
  match vin with
  | [] => ([], view)
  | j :: vin =>
      let '(coin, view) := AccessCoin usage view (prevout j) in
      let '(l, view) := prev_heights view vin in
      (coin_nHeight coin :: l, view)
  end.

(** The inputs of a transaction that is not the coinbase, its fee and its relative locks *)
Definition check_spending (pindex : ptr) (nHeight nLockTimeFlags : Z) (tx : CTransaction) (view : cache) (nFees : CAmount) : bchecks (CAmount * cache) :=
  let '(r, view) := check_tx_inputs usage tx view nHeight in
  txfee ← checked r;
  let nFees := i64 (nFees + default 0 txfee) in
  _ ← reject_if (negb (MoneyRange nFees)) 100 "bad-txns-accumulated-fee-outofrange"%string false;
  let '(prevheights, view) := prev_heights view (vin tx) in
  '(ok, _) ← total (SequenceLocks m tx nLockTimeFlags prevheights pindex);
  _ ← reject_if (negb ok) 100 "bad-txns-nonfinal"%string false;
  Ok (nFees, view).

(** An input without [OP_SPEND] does not spend the output of a contract. *)
Fixpoint check_contract_spends (view : cache) (vin : list CTxIn) : bchecks cache :=
  match vin with
  | [] => Ok view
  | j :: vin =>
      if negb (HasOpSpend (scriptSig j)) then
        let '(coin, view) := AccessCoin usage view (prevout j) in
        _ ← reject_if (HasOpCreate (scriptPubKey (out coin)) || HasOpCall (scriptPubKey (out coin))) 100 "bad-txns-invalid-contract-spend"%string false;
        check_contract_spends view vin
      else check_contract_spends view vin
  end.

(** The value of the coinstake's reward, the scripts: what is added to the queue, the view and the
    cache of scripts *)
Definition check_scripts_of (sigs execs : SaltedCache) (fScriptChecks threads fJustCheck : bool) (flags : Z) (tx : CTransaction) (view : cache)
  (nActualStakeReward : CAmount) : bchecks (CAmount * list CScriptCheck * SaltedCache * cache) :=
  '(reward, view) ←
    (if IsCoinStake tx then
       vo ← total (GetValueOut tx);
       let '(vi, view) := GetValueIn usage view tx in Ok (i64 (vo - vi), view)
     else Ok (nActualStakeReward, view));
  let defer := if tx_HasOpSpend tx || tx_HasCreateOrCall tx then false else threads in
  let '(r, view, execs) := CheckInputs C Verify usage sigs execs tx view fScriptChecks flags fJustCheck fJustCheck (PrecomputedTransactionData_new C tx) defer in
  vChecks ← r;
  view ← check_contract_spends view (vin tx);
  Ok (reward, vChecks, execs, view).

(** The contracts a transaction creates or calls: the view, their state, the gas and what they
    are owed.  [tip] is the tip of the active chain. *)
Definition run_contracts (block : CBlock) (tip : ptr) (minGasPrice blockGasLimit : Z) (tx : CTransaction) (p : progress) : bchecks progress :=
  '(ok, view) ← total (CheckSenderScript usage (pg_view p) tx);
  _ ← reject_if (negb ok) 100 "bad-txns-invalid-sender-script"%string false;
  '(converted, view) ← total (extractionArtaxTransactions C usage tx view (vtx block));
  match converted with
  | None => Err (BlockReject 100 REJECT_INVALID "bad-tx-bad-contract-format"%string false)
  | Some pairs =>
      let txs := fst <$> pairs in
      _ ← reject_if (negb (CheckMinGasPrice (snd <$> pairs) minGasPrice)) 100 "bad-tx-low-gas-price"%string false;
      let '(vi, view) := GetValueIn usage view tx in
      vo ← total (GetValueOut tx);
      nonZeroVersion ← checked (check_gas txs (i64 (vi - vo)) blockGasLimit minGasPrice 0 0 false);
      _ ← reject_if (negb nonZeroVersion && negb (tx_HasOpSpend tx)) 100 "bad-tx-improper-version-0"%string false;
      '(ok, resultExec, state) ←
        total (performByteCode C ops prepare executive create_with_value (nFixUTXOCacheHFHeight params) removeEmptyAccounts m tip block blockGasLimit true txs (globalState p));
      _ ← reject_if (negb ok) 100 "bad-tx-unknown-error"%string false;
      match processingResults C txs resultExec ByteCodeExecResult_new with
      | None => Err (BlockReject 100 REJECT_INVALID "bad-vm-exec-processing"%string false)
      | Some bcer =>
          let blockGasUsed := u64 (blockGasUsed p + usedGas bcer) in
          _ ← reject_if (blockGasLimit <? blockGasUsed) 1000 "bad-blk-gaslimit"%string false;
          Ok (mk_progress view (nFees p) (nActualStakeReward p) (nSigOpsCost p) (control p) (scriptExecutionCache p) (nValueOut p) (nValueIn p)
                (checkBlock_vtx p ++ valueTransfers bcer) state blockGasUsed
                (foldl (fun s o => i64 (s + nValue o)) (gasRefunds p) (refundOutputs bcer)) (checkVouts p ++ refundOutputs bcer) (vtxundo p))
      end
  end.

Definition add_values (tx : CTransaction) (view : cache) (nValueOut nValueIn : Z) : bchecks (Z * Z * cache) :=
  if IsCoinBase tx then vo ← total (GetValueOut tx); Ok (u64 (nValueOut + vo), nValueIn, view)
  else
    let '(vi, view) := GetValueIn usage view tx in
    vo ← total (GetValueOut tx);
    Ok (u64 (nValueOut + vo), u64 (nValueIn + vi), view).

(** What stays the same from transaction to transaction *)
Record setting : Type := mk_setting {
  the_block : CBlock;
  the_index : ptr;
  the_height : Z;
  the_tip : option ptr;
  limits : BlockSizeParams;
  minGasPrice : Z;
  blockGasLimit : Z;
  nLockTimeFlags : Z;
  script_flags : Z;
  fScriptChecks : bool;
  nScriptCheckThreads : bool;
  fJustCheck : bool;
  signatureCache : SaltedCache }.

Definition connect_tx (e : setting) (first : bool) (tx : CTransaction) (p : progress) : bchecks progress :=
  '(fees, view) ←
    (if negb (IsCoinBase tx) then check_spending (the_index e) (the_height e) (nLockTimeFlags e) tx (pg_view p) (nFees p)
     else Ok (nFees p, pg_view p));
  '(cost, view) ← total (GetTransactionSigOpCost usage tx view (script_flags e));
  let sigops := i64 (nSigOpsCost p + cost) in
  _ ← reject_if (dgpMaxBlockSigOps (limits e) <? sigops) 100 "bad-blk-sigops"%string false;
  '(reward, vChecks, execs, view) ←
    (if negb (IsCoinBase tx) then
       check_scripts_of (signatureCache e) (scriptExecutionCache p) (fScriptChecks e) (nScriptCheckThreads e) (fJustCheck e) (script_flags e) tx view
         (nActualStakeReward p)
     else Ok (nActualStakeReward p, [], scriptExecutionCache p, view));
  '(valueOut, valueIn, view) ← add_values tx view (nValueOut p) (nValueIn p);
  let p := mk_progress view fees reward sigops (control p ++ vChecks) execs valueOut valueIn
             (if negb (tx_HasOpSpend tx) then checkBlock_vtx p ++ [tx] else checkBlock_vtx p)
             (globalState p) (blockGasUsed p) (gasRefunds p) (checkVouts p) (vtxundo p) in
  p ← (if tx_HasCreateOrCall tx && negb (tx_HasOpSpend tx)
       then tip ← total (the_tip e); run_contracts (the_block e) tip (minGasPrice e) (blockGasLimit e) tx p else Ok p);
  '(view, undo) ← total (UpdateCoins usage tx (pg_view p) [] (the_height e));
  Ok (mk_progress view (nFees p) (nActualStakeReward p) (nSigOpsCost p) (control p) (scriptExecutionCache p) (nValueOut p) (nValueIn p)
        (checkBlock_vtx p) (globalState p) (blockGasUsed p) (gasRefunds p) (checkVouts p) (if first then vtxundo p else vtxundo p ++ [undo])).

Fixpoint connect_loop (e : setting) (first : bool) (vtx : list CTransaction) (p : progress) : bchecks progress :=
  match vtx with
  | [] => Ok p
  | tx :: vtx => p ← connect_tx e first tx p; connect_loop e false vtx p
  end.

(** [control.Wait()]: whether all checks pass *)
Fixpoint Wait (sigs : SaltedCache) (l : list CScriptCheck) : bchecks bool :=
  match l with
  | [] => Ok true
  | k :: l =>
      match run_check C Verify sigs k with
      | Err VAbort => Err BlockAbort
      | r => ok ← Wait sigs l; Ok (is_ok r && ok)
      end
  end.

(** The header with what the transactions imply *)
Definition expected_header (block : CBlock) (vtx : list CTransaction) (s : contracts) : CBlockHeader :=
  mk_CBlockHeader (hdr_nVersion block) (hashPrevBlock block) (fst (BlockMerkleRoot C (mk_CBlock (GetBlockHeader block) vtx false)))
    (nTime block) (nBits block) (nNonce block) (rootHash (es_accounts s)) (rootHashUTXO (es_utxo s)) (prevoutStake block) (vchBlockSig block).

(** *** The block *)

(** The globals that are read, the governance values for the next height and the outcome of writing
    the undo data *)
Record node : Type := mk_node {
  nd_limits : Z;                  (* dgpMaxBlockSize *)
  sizeBlockDGP : Z;
  minGasPriceDGP : Z;
  blockGasLimitDGP : Z;
  nAdjustedTime : Z;
  hashAssumeValid : uint256;
  pindexBest : ptr;
  minimumChainWork : base_uint;
  threads : bool;
  nd_signatureCache : SaltedCache;
  undo_written : bchecks Z }.

(** What connecting a block changes *)
Record connected : Type := mk_connected {
  cd_view : cache;
  cd_index : CBlockIndex;
  cd_undo : CBlockUndo;
  cd_stakes : stake_index;
  cd_recipients : script_cache;
  cd_state : contracts;
  cd_versionbits : VersionBitsCache;
  cd_execs : SaltedCache }.

Context (setRoot : uint256 -> uint256 -> contracts -> contracts) (emptyTrie : uint256).

(** The roots [fJustCheck] sets back *)
Definition restore_roots (prev : CBlockIndex) (s : contracts) : contracts :=
  if negb (base_blob_IsNull (bi_hashStateRoot prev)) && negb (base_blob_IsNull (bi_hashUTXORoot prev))
  then setRoot (bi_hashStateRoot prev) (bi_hashUTXORoot prev) s else setRoot emptyTrie emptyTrie s.

(** After the transactions *)
Definition finish_block (nd : node) (e : setting) (prev : CBlockIndex) (pindex : CBlockIndex) (db : stake_index) (recipients_ : script_cache)
  (bits_ : VersionBitsCache) (p : progress) : result connect_failure connected :=
  _ ← lift (reject_if (nFees p <? gasRefunds p) 1000 "bad-blk-fees-greater-gasrefund"%string false);
  let '(r, recipients_) := check_reward m chainActive params db recipients_ (the_block e) (the_height e) (nFees p) (gasRefunds p) (nActualStakeReward p) (checkVouts p) in
  _ ← match r with Ok _ => Ok tt | Err e => Err (RewardFailed e) end;
  ok ← lift (Wait (signatureCache e) (control p));
  _ ← lift (reject_if (negb ok) 100 "block-validation-failed"%string false);
  let header := expected_header (the_block e) (checkBlock_vtx p) (globalState p) in
  _ ← lift (reject_if (negb (base_blob_eq (Block_GetHash C header) (Block_GetHash C (the_block e))) && negb (fJustCheck e))
              100 "incorrect-transactions-or-hashes-block"%string false);
  if fJustCheck e then
    Ok (mk_connected (pg_view p) pindex (vtxundo p) db recipients_ (restore_roots prev (globalState p)) bits_ (scriptExecutionCache p))
  else
    pindex ← lift (update_supply params pindex (nMoneySupply prev) (nValueOut p) (nValueIn p));
    pindex ← lift (WriteUndoDataForBlock (undo_written nd) pindex);
    pindex ← lift (total (raise_validity pindex));
    staker ← lift (total (block_staker C (the_block e)));
    hash ← lift (total (phashBlock pindex));
    Ok (mk_connected (SetBestBlock (pg_view p) hash) pindex (vtxundo p) (WriteStakeIndex db (the_height e) staker) recipients_ (globalState p) bits_
          (scriptExecutionCache p)).

(** The sizes, which depend on the governance, and [CheckBlock] *)
Definition check_again (nd : node) (fJustCheck_ : bool) (maxSize : Z) (limits_ : BlockSizeParams) (block : CBlock) : result connect_failure unit :=
  _ ← lift (reject_if (bool_decide (vtx block = []) || (maxSize <? vsize (vtx block)) ||
              (maxSize <? vsize (CBlock_Serialize SER_NETWORK NO_WITNESS_VERSION block))) 100 "bad-blk-length"%string false);
  _ ← lift (reject_if (dgpMaxBlockWeight limits_ <? GetBlockWeight block) 100 "bad-blk-weight"%string false);
  if fChecked block then Ok tt
  else match check_block C Verify params limits_ (nAdjustedTime nd) block (negb fJustCheck_) (negb fJustCheck_) true with
  | Ok _ => Ok tt
  | Err (BlockReject level code reason true) => Err (CorruptBlock (BlockReject level code reason true))
  | Err e => Err (Failed e)
  end.

Definition ConnectBlock (nd : node) (block : CBlock) (pindex : ptr) (view : cache) (fJustCheck_ : bool)
  (db : stake_index) (recipients_ : script_cache) (state : contracts) (bits_ : VersionBitsCache) (execs : SaltedCache)
  : result connect_failure connected :=
  b ← lift (total (m !! pindex));
  hash ← lift (total (phashBlock b));
  _ ← lift (if base_blob_eq hash (Block_GetHash C block) then Ok tt else Err BlockAbort);
  let maxSize := if negb (sizeBlockDGP nd =? 0) then sizeBlockDGP nd else nd_limits nd in
  let limits_ := updateBlockSizeParams maxSize in
  _ ← check_again nd fJustCheck_ maxSize limits_ block;
  prevHash ← lift (total match pprev b with None => Some uint256_SetNull | Some p => bp ← m !! p; phashBlock bp end);
  let '(best, view) := GetBestBlock view in
  _ ← lift (if base_blob_eq prevHash best then Ok tt else Err BlockAbort);
  if base_blob_eq (Block_GetHash C block) (hashGenesisBlock params) then
    Ok (mk_connected (if fJustCheck_ then view else SetBestBlock view hash) b [] db recipients_ state bits_ execs)
  else
    let '(r, view) := UpdateHashProof C Verify usage m params block b view in
    proof ← lift r;
    let b := set_hashProof b proof in
    scriptChecks ← lift (total (needs_script_checks m params (hashAssumeValid nd) (pindexBest nd) (minimumChainWork nd) pindex));
    let '(r, view) := check_overwrites view b block in
    _ ← lift r;
    '(csv, bits_) ← lift (total (VersionBitsState m (pprev b) params DEPLOYMENT_CSV bits_));
    let lockFlags := if bool_decide (csv = ACTIVE) then LOCKTIME_VERIFY_SEQUENCE else 0 in
    '(flags, bits_) ← lift (total (GetBlockScriptFlags m params b bits_));
    prev ← lift (total (pprev b ≫= fun p => m !! p));
    let e := mk_setting block pindex (nHeight b) (Tip chainActive) limits_ (minGasPriceDGP nd) (blockGasLimitDGP nd) lockFlags flags scriptChecks (threads nd) fJustCheck_
               (nd_signatureCache nd) in
    p ← lift (connect_loop e true (vtx block) (mk_progress view 0 0 0 [] execs 0 0 [] state 0 0 [] []));
    finish_block nd e prev b db recipients_ bits_ p.
End Connect.

(** ** Theorems *)

(** *** Checks that were passed *)

Lemma bind_ok {E X Y} (r : result E X) (f : X -> result E Y) y : r ≫= f = Ok y -> exists x, r = Ok x /\ f x = Ok y.
Proof. destruct r as [x | e]; [eauto | done]. Qed.
Lemma total_ok {X} (r : option X) x : total r = Ok x -> r = Some x.
Proof. by destruct r as [y | ]; [intros [= ->] | ]. Qed.
Lemma reject_if_ok b level reason corruption x : reject_if b level reason corruption = Ok x -> b = false.
Proof. by destruct b. Qed.
Lemma checked_ok {X} (r : checks X) x : checked r = Ok x -> r = Ok x.
Proof. destruct r as [ | []]; [by intros [= ->] | done | done]. Qed.
Lemma lift_ok {X} (r : bchecks X) x : lift r = Ok x -> r = Ok x.
Proof. by destruct r; [intros [= ->] | ]. Qed.

(** Takes apart [H : _ = Ok _], a sequence of checks. *)
Ltac split_pair r :=
  match type of r with
  | (_ * _)%type => let r1 := fresh "r" in let r2 := fresh "r" in destruct r as [r1 r2]; split_pair r1
  | unit => destruct r
  | _ => idtac
  end.
Ltac go H :=
  let r := fresh "r" in let E := fresh "E" in
  apply bind_ok in H; destruct H as (r & E & H);
  try apply lift_ok in E; try apply total_ok in E; try apply checked_ok in E; try apply reject_if_ok in E;
  split_pair r; cbn beta iota in H.

(** *** The unspent outputs do not change while they are looked at *)

Section Views.
Context (C : Crypto) (Verify : bytes -> uint256 -> bytes -> bool) {B : Type} `{HB : CoinsViewLaws B} (usage : Coin -> Z) (m : BlockMap).
Implicit Types c : CCoinsViewCache B.

Lemma same_view_refl c : valid_cache c -> same_view c c.
Proof. by split. Qed.

Lemma AccessCoin_same c o k c' : valid_cache c -> AccessCoin usage c o = (k, c') -> same_view c c' /\ unspent k = contents_cache c o.
Proof. intros Hv E. pose proof (AccessCoin_spec usage c o Hv) as Hs. rewrite E in Hs. tauto. Qed.

Lemma prev_heights_same l c : valid_cache c -> same_view c (snd (prev_heights usage c l)).
Proof.
  revert c. induction l as [ | i l IH]; intros c Hv; cbn [prev_heights]; [by apply same_view_refl | ].
  destruct (AccessCoin usage c (prevout i)) as [k c1] eqn:E. destruct (AccessCoin_same _ _ _ _ Hv E) as [Hs _].
  specialize (IH c1 (proj1 Hs)). destruct (prev_heights usage c1 l) as [hs c2]. by eapply same_view_trans.
Qed.

Lemma P2SHSigOps_same l c n n' c' : valid_cache c -> P2SHSigOps_loop usage c l n = Some (n', c') -> same_view c c'.
Proof.
  revert c n. induction l as [ | i l IH]; intros c n Hv; cbn [P2SHSigOps_loop]; [intros [= <- <-]; by apply same_view_refl | ].
  destruct (AccessCoin usage c (prevout i)) as [k c1] eqn:E. destruct (AccessCoin_same _ _ _ _ Hv E) as [Hs _].
  destruct (IsSpent k); [done | ]. intros H'%IH; [ | apply Hs]. by eapply same_view_trans.
Qed.
Lemma WitnessSigOps_same l c flags n n' c' : valid_cache c -> WitnessSigOps_loop usage c l flags n = Some (n', c') -> same_view c c'.
Proof.
  revert c n. induction l as [ | i l IH]; intros c n Hv; cbn [WitnessSigOps_loop]; [intros [= <- <-]; by apply same_view_refl | ].
  destruct (AccessCoin usage c (prevout i)) as [k c1] eqn:E. destruct (AccessCoin_same _ _ _ _ Hv E) as [Hs _].
  destruct (IsSpent k); [done | ]. destruct (CountWitnessSigOps _ _ _ _); [ | done]. cbn [mbind option_bind].
  intros H'%IH; [ | apply Hs]. by eapply same_view_trans.
Qed.
Lemma SigOpCost_same (tx : CTransaction) c flags n c' : valid_cache c -> GetTransactionSigOpCost usage tx c flags = Some (n, c') -> same_view c c'.
Proof.
  intros Hv. unfold GetTransactionSigOpCost, GetP2SHSigOpCount. destruct (IsCoinBase tx); [intros [= <- <-]; by apply same_view_refl | ].
  destruct (has _ _); cbn [mbind option_bind].
  - destruct (P2SHSigOps_loop usage c (vin tx) 0) as [[n1 c1] | ] eqn:E; [ | done]. cbn [mbind option_bind].
    apply P2SHSigOps_same in E; [ | done]. intros H'%WitnessSigOps_same; [ | apply E]. by eapply same_view_trans.
  - by intros H'%WitnessSigOps_same.
Qed.

Lemma GetValueIn_same (tx : CTransaction) c : valid_cache c -> same_view c (snd (GetValueIn usage c tx)).
Proof.
  unfold GetValueIn. destruct (IsCoinBase tx); [apply same_view_refl | ]. generalize 0 as n. generalize (vin tx) as l. clear tx.
  intros l. revert c. induction l as [ | i l IH]; intros c n Hv; cbn [GetValueIn_loop]; [by apply same_view_refl | ].
  destruct (AccessCoin usage c (prevout i)) as [k c1] eqn:E. destruct (AccessCoin_same _ _ _ _ Hv E) as [Hs _].
  eapply same_view_trans; [exact Hs | ]. apply IH, Hs.
Qed.
Lemma GetValueIn_value h (tx : CTransaction) c ks : valid_cache c -> IsCoinBase tx = false -> spends (contents_cache c) (vin tx) ks ->
  Forall (coin_fine h) ks -> total_in ks <= MAX_MONEY -> fst (GetValueIn usage c tx) = total_in ks.
Proof.
  intros Hv Hcb Hs Hk Ht. unfold GetValueIn. rewrite Hcb. rewrite <- (Z.add_0_l (total_in ks)) in Ht |- *.
  assert (0 <= 0) as Hn by lia. revert Hn Ht. generalize 0 at 2 3 4 5 as n. revert c ks Hv Hs Hk. generalize (vin tx) as l. clear tx Hcb.
  induction l as [ | i l IH]; intros c ks Hv Hs Hk n Hn Ht; inv Hs; cbn [GetValueIn_loop total_in foldr]; [cbn; lia | ].
  apply Forall_cons in Hk as [[_ Hv0] Hk]. pose proof (total_in_nonneg _ _ Hk) as Hnn. fold (total_in l') in *. cbn [total_in foldr] in Ht. fold (total_in l') in Ht.
  destruct (AccessCoin usage c (prevout i)) as [k c1] eqn:E. destruct (AccessCoin_same _ _ _ _ Hv E) as [Hsv Hu].
  match goal with H : contents_cache c _ = Some y |- _ => rewrite H in Hu end. unfold unspent in Hu. destruct (IsSpent k); [done | ]. injection Hu as ->.
  assert (HM : MAX_MONEY < 2 ^ 63) by done. rewrite i64_id by (change (64 - 1) with 63; lia).
  rewrite (IH c1 l'); [lia | apply Hsv | by apply (spends_same_view c c1) | done | lia | lia].
Qed.

Lemma check_contract_spends_same l c c' : valid_cache c -> check_contract_spends usage c l = Ok c' -> same_view c c'.
Proof.
  revert c. induction l as [ | i l IH]; intros c Hv; cbn [check_contract_spends]; [intros [= <-]; by apply same_view_refl | ].
  destruct (negb _); [ | by apply IH].
  destruct (AccessCoin usage c (prevout i)) as [k c1] eqn:E. destruct (AccessCoin_same _ _ _ _ Hv E) as [Hs _].
  intros Hx. go Hx. apply IH in Hx; [ | apply Hs]. by eapply same_view_trans.
Qed.

Lemma CheckSenderScript_same (tx : CTransaction) c b c' : valid_cache c -> CheckSenderScript usage c tx = Some (b, c') -> same_view c c'.
Proof.
  intros Hv. unfold CheckSenderScript. destruct (vin tx !! 0%nat) as [i | ]; [ | done]. cbn [mbind option_bind].
  destruct (AccessCoin usage c (prevout i)) as [k c1] eqn:E. destruct (AccessCoin_same _ _ _ _ Hv E) as [Hs _]. by intros [= <- <-].
Qed.

Lemma createEthTX_same (tx : CTransaction) c txs op params n value t c' : valid_cache c ->
  createEthTX C usage tx c txs op params n value = Some (t, c') -> same_view c c'.
Proof.
  intros Hv. unfold createEthTX, GetSenderAddress. destruct (vin tx !! 0%nat) as [i | ]; [ | done]. cbn [mbind option_bind].
  destruct (list_find _ txs) as [[j btx] | ].
  - destruct (vout btx !! _); [ | done]. cbn [mbind option_bind]. destruct (key_destination C _); [ | done]. intros [= <- <-]. by apply same_view_refl.
  - destruct (AccessCoin usage c (prevout i)) as [k c1] eqn:E. destruct (AccessCoin_same _ _ _ _ Hv E) as [Hs _]. cbn [mbind option_bind].
    destruct (key_destination C _); [ | done]. by intros [= <- <-].
Qed.
Lemma extraction_same (tx : CTransaction) txs l i st c r c' : valid_cache c -> extraction C usage tx txs l i st c = Some (r, c') -> same_view c c'.
Proof.
  revert i st c r. induction l as [ | o l IH]; intros i st c r Hv; cbn [extraction]; [intros [= <- <-]; by apply same_view_refl | ].
  destruct (_ || _); [ | by apply IH].
  destruct (receiveStack C st _) as [[[ok op] st'] | ]; [ | done]. cbn [mbind option_bind].
  destruct (negb ok); [intros [= <- <-]; by apply same_view_refl | ].
  destruct (parseEthTXParams op st') as [[params st''] | ]; [ | intros [= <- <-]; by apply same_view_refl].
  destruct (createEthTX _ _ _ _ _ _ _ _ _) as [[t c1] | ] eqn:E1; [ | done]. cbn [mbind option_bind]. apply createEthTX_same in E1; [ | done].
  destruct (extraction _ _ _ _ l _ _ _) as [[r2 c2] | ] eqn:E2; [ | done]. cbn [mbind option_bind]. intros [= <- <-].
  apply IH in E2; [ | apply E1]. by eapply same_view_trans.
Qed.
End Views.

(** *** What a transaction that is connected satisfies *)

(** Every output that is kept can be spent and was made above height 0, and is the output its
    outpoint refers to. *)
Definition kept (ledger : COutPoint -> CTxOut) (u : COutPoint -> option Coin) : Prop :=
  forall o k, u o = Some k -> coin_nHeight k <> 0 /\ IsUnspendable (scriptPubKey (out k)) = false /\ out k = ledger o.

Definition value_in (u : COutPoint -> option Coin) (tx : CTransaction) : Z :=
  if IsCoinBase tx then 0 else foldr (fun i s => from_option (fun k => nValue (out k)) 0 (u (prevout i)) + s) 0 (vin tx).

(** A coinbase, or a transaction whose inputs are unspent, mature and worth what it pays *)
Definition tx_valid (h : Z) (u : COutPoint -> option Coin) (tx : CTransaction) : Prop :=
  IsCoinBase tx = true \/ exists ks, spends u (vin tx) ks /\ Forall (coin_fine h) ks /\ (IsCoinStake tx = false -> total_out (vout tx) <= value_in u tx).

Definition tx_fee (u : COutPoint -> option Coin) (tx : CTransaction) : Z :=
  if IsCoinBase tx || IsCoinStake tx then 0 else value_in u tx - total_out (vout tx).

Lemma value_in_spends u (tx : CTransaction) ks : IsCoinBase tx = false -> spends u (vin tx) ks -> value_in u tx = total_in ks.
Proof. intros Hcb Hs. unfold value_in. rewrite Hcb. clear Hcb. induction Hs as [ | i k l ks Hk Hs IH]; [done | ]. cbn [foldr total_in]. by rewrite Hk, IH. Qed.

(** The outputs of the transaction are what the outpoints with its id refer to. *)
Definition recorded (ledger : COutPoint -> CTxOut) (tx : CTransaction) : Prop :=
  forall n o, vout tx !! n = Some o -> ledger (mk_COutPoint (GetHash tx) (Z.of_nat n)) = o.

Lemma kept_apply ledger u (tx : CTransaction) h : kept ledger u -> recorded ledger tx -> 0 < h < 2 ^ 30 -> kept ledger (apply_tx tx h u).
Proof.
  intros Hk Hr Hh o k. unfold apply_tx. destruct (tx_outputs tx h o) as [k' | ] eqn:E.
  - intros [= <-]. unfold tx_outputs, new_coin in E. destruct (bool_decide_reflect (outpoint_hash o = GetHash tx /\ 0 <= outpoint_n o)) as [[Eh Hn] | ]; [ | done].
    destruct (vout tx !! _) as [t | ] eqn:Et; [ | done]. cbn [mbind option_bind] in E. destruct (IsUnspendable _) eqn:Eu; [done | ]. injection E as <-.
    unfold Coin_new. cbn [coin_nHeight out]. split; [rewrite Z.mod_small; lia | ]. split; [done | ]. rewrite Z.sub_0_r in Et. rewrite <- (Hr _ _ Et). rewrite Z2Nat.id by done.
    rewrite <- Eh. by destruct o.
  - destruct (decide _); [done | apply Hk].
Qed.

Lemma tx_fine_value w d (tx : CTransaction) : tx_fine w d tx -> GetValueOut tx = Some (total_out (vout tx)).
Proof.
  intros (_ & _ & _ & _ & Ho & Ht & _). apply GetValueOut_loop_spec; [unfold MAX_MONEY, COIN, CENT; lia | ]. split; [ | lia].
  eapply Forall_impl; [exact Ho | ]. intros o [Hv _]. by apply MoneyRange_spec.
Qed.

(** A sum over transactions, each with the outputs that are unspent when its turn comes; and the
    same for the condition on each *)
Fixpoint over (f : (COutPoint -> option Coin) -> CTransaction -> Z) (h : Z) (u : COutPoint -> option Coin) (txs : list CTransaction) : Z :=
  match txs with [] => 0 | tx :: txs => f u tx + over f h (apply_tx tx h u) txs end.
Fixpoint all_valid (h : Z) (u : COutPoint -> option Coin) (txs : list CTransaction) : Prop :=
  match txs with [] => True | tx :: txs => tx_valid h u tx /\ all_valid h (apply_tx tx h u) txs end.
(** The ids of the transactions are new. *)
Fixpoint ids_new (h : Z) (u : COutPoint -> option Coin) (txs : list CTransaction) : Prop :=
  match txs with [] => True | tx :: txs => (forall n, u (mk_COutPoint (GetHash tx) n) = None) /\ ids_new h (apply_tx tx h u) txs end.
(** What the last coinstake adds *)
Fixpoint last_stake (acc : Z) (h : Z) (u : COutPoint -> option Coin) (txs : list CTransaction) : Z :=
  match txs with
  | [] => acc
  | tx :: txs => last_stake (if negb (IsCoinBase tx) && IsCoinStake tx then total_out (vout tx) - value_in u tx else acc) h (apply_tx tx h u) txs
  end.
Definition outs (u : COutPoint -> option Coin) (tx : CTransaction) : Z := total_out (vout tx).

Section One.
Context (C : Crypto) (HC : forall b, length (SHA256 C b) = 32%nat) (Verify : bytes -> uint256 -> bytes -> bool).
Context {B : Type} `{HB : CoinsViewLaws B} (usage : Coin -> Z) (m : BlockMap) (params : Params).
Context {A : Type} (ops : AccountOps A) (prepare : ArtaxTransaction -> A -> A).
Context (executive : EnvInfo -> ArtaxTransaction -> A -> list Address -> vm_run A) (create_with_value : Z) (removeEmptyAccounts : EnvInfo -> bool).
Context (ledger : COutPoint -> CTxOut) (e : setting) (HJ : fJustCheck e = false) (Hsigs : sigs_right C Verify (signatureCache e)).
Implicit Types (c : CCoinsViewCache B) (p : progress (B := B) (A := A)).
Let h := the_height e.

Lemma connectable_of c (tx : CTransaction) w : kept ledger (contents_cache c) -> tx_fine w true tx -> tx_ok tx -> tx_valid h (contents_cache c) tx ->
  (forall n, contents_cache c (mk_COutPoint (GetHash tx) n) = None) -> connectable (contents_cache c) tx.
Proof.
  intros Hk (_ & _ & _ & _ & Ho & _ & Hd & _) Hok Hval Hnew. split.
  - eapply Forall_impl; [exact Ho | ]. intros o [Hv _]. unfold CTxOut_IsNull. apply Z.eqb_neq. lia.
  - pose proof (tx_outputs_fit tx Hok). lia.
  - done.
  - unfold prevouts. destruct (IsCoinBase tx); [constructor | by apply Hd].
  - unfold prevouts. destruct Hval as [-> | (ks & Hs & _)]; [constructor | ]. destruct (IsCoinBase tx); [constructor | ].
    apply Forall_fmap. clear -Hk Hs. induction Hs as [ | i k l ks Hi Hs IH]; [constructor | ]. constructor; [ | done].
    cbn. exists k. destruct (Hk _ _ Hi) as (? & ? & _). done.
Qed.

Lemma check_spending_ok c (tx : CTransaction) w flags fees r c' : valid_cache c -> IsCoinBase tx = false -> tx_fine w true tx -> 0 <= fees <= MAX_MONEY ->
  check_spending usage m (the_index e) h flags tx c fees = Ok (r, c') ->
  same_view c c' /\ r = fees + tx_fee (contents_cache c) tx /\ 0 <= r <= MAX_MONEY /\
  exists ks, spends (contents_cache c) (vin tx) ks /\ Forall (coin_fine h) ks /\ total_in ks <= MAX_MONEY /\
    (IsCoinStake tx = false -> total_out (vout tx) <= value_in (contents_cache c) tx).
Proof.
  intros Hv Hcb Hf Hfees. unfold check_spending.
  destruct (check_tx_inputs_spec usage tx c h _ Hv Hcb (tx_fine_value _ _ _ Hf)) as [Hs Hr].
  destruct (check_tx_inputs usage tx c h) as [r1 c1]. cbn [fst snd] in *. intros Hx. apply bind_ok in Hx as (fee & ->%checked_ok & Hx). go Hx.
  pose proof (prev_heights_same usage (vin tx) c1 (proj1 Hs)) as Hs2. destruct (prev_heights usage c1 (vin tx)) as [hs c2]. cbn [snd] in Hs2.
  go Hx. go Hx. injection Hx as <- <-. split; [by eapply same_view_trans | ].
  destruct Hr as [(ks & fee' & [= <-] & Hks & Hfine & Htot & Hfee) | (? & ? & ? & _)]; [ | done].
  apply negb_false_iff, MoneyRange_spec in E. unfold tx_fee. rewrite Hcb. cbn [orb].
  assert (HM : MAX_MONEY + MAX_MONEY < 2 ^ 63) by done. rewrite (value_in_spends _ _ _ Hcb Hks).
  destruct Hf as (_ & _ & _ & _ & _ & Hto & _).
  destruct Hfee as [[Ec ->] | (Ec & Hle & ->)]; rewrite Ec in *; cbn [default from_option id] in *.
  - rewrite i64_id in * by (change (64 - 1) with 63; lia). split; [lia | ]. split; [lia | ]. exists ks. split_and!; [done | done | lia | done].
  - rewrite i64_id in * by (change (64 - 1) with 63; lia). split; [lia | ]. split; [lia | ]. exists ks. split_and!; [done | done | lia | done].
Qed.

Lemma run_contracts_ok block tip minPrice gasLimit (tx : CTransaction) p p' : valid_cache (pg_view p) ->
  run_contracts C usage m params ops prepare executive create_with_value removeEmptyAccounts block tip minPrice gasLimit tx p = Ok p' ->
  same_view (pg_view p) (pg_view p') /\ nFees p' = nFees p /\ nActualStakeReward p' = nActualStakeReward p /\ control p' = control p /\
  scriptExecutionCache p' = scriptExecutionCache p /\ nValueOut p' = nValueOut p /\ nValueIn p' = nValueIn p /\ vtxundo p' = vtxundo p.
Proof.
  intros Hv. unfold run_contracts. intros Hx. go Hx. pose proof (CheckSenderScript_same usage tx _ _ _ Hv E) as Hs0. go Hx. go Hx.
  unfold extractionArtaxTransactions in E1. pose proof (extraction_same C usage tx _ _ _ _ _ _ _ (proj1 Hs0) E1) as Hs1.
  match type of Hx with match ?o with _ => _ end = _ => destruct o as [pairs | ]; [ | done] end. go Hx.
  match type of Hx with context [GetValueIn usage ?c tx] => pose proof (GetValueIn_same usage tx c (proj1 Hs1)) as Hs2; destruct (GetValueIn usage c tx) as [vi c1] end.
  cbn [snd] in Hs2. go Hx. go Hx. go Hx. go Hx. go Hx.
  destruct (processingResults _ _ _ _) as [bcer | ]; [ | done]. go Hx. injection Hx as <-.
  split; [eapply same_view_trans; [exact Hs0 | by eapply same_view_trans] | done].
Qed.

Lemma check_scripts_of_ok (tx : CTransaction) c ks w execs reward r cs execs' c' : valid_cache c -> IsCoinBase tx = false -> tx_fine w true tx ->
  kept ledger (contents_cache c) -> spends (contents_cache c) (vin tx) ks -> Forall (coin_fine h) ks -> total_in ks <= MAX_MONEY ->
  execs_right C Verify ledger execs tx (script_flags e) ->
  check_scripts_of C Verify usage (signatureCache e) execs (fScriptChecks e) (nScriptCheckThreads e) (fJustCheck e) (script_flags e) tx c reward =
    Ok (r, cs, execs', c') ->
  same_view c c' /\ r = (if IsCoinStake tx then total_out (vout tx) - total_in ks else reward) /\ same_entries execs execs' /\
  (Forall (fun k => run_check C Verify (signatureCache e) k = Ok tt) cs -> fScriptChecks e = true -> scripts_verify C Verify ledger tx (script_flags e)).
Proof.
  intros Hv Hcb Hf Hk Hs Hfine Ht He Hx. unfold check_scripts_of in Hx. rewrite HJ in Hx. go Hx.
  match type of E with _ = Ok (?a, ?b) => rename a into rw; rename b into c1 end.
  assert (same_view c c1 /\ rw = (if IsCoinStake tx then total_out (vout tx) - total_in ks else reward)) as [Hs1 ->].
  { destruct (IsCoinStake tx); [ | injection E as <- <-; by split; [apply same_view_refl | ]].
    rewrite (tx_fine_value _ _ _ Hf) in E. cbn [total mbind result_bind] in E.
    pose proof (GetValueIn_same usage tx c Hv) as Hs1. pose proof (GetValueIn_value usage h tx c ks Hv Hcb Hs Hfine Ht) as Hvi.
    destruct (GetValueIn usage c tx) as [vi c2]. cbn [fst snd] in *. injection E as <- <-. split; [done | ]. subst vi.
    assert (HM : MAX_MONEY + MAX_MONEY < 2 ^ 63) by done. pose proof (total_in_nonneg _ _ Hfine). destruct Hf as (_ & _ & _ & _ & _ & Hto & _).
    apply i64_id. change (64 - 1) with 63. lia. }
  match type of Hx with context [CheckInputs _ _ _ _ _ _ _ _ _ _ _ _ ?d] => set (defer := d) in * end.
  destruct (CheckInputs_spec C HC Verify ledger usage (signatureCache e) execs tx c1 ks (fScriptChecks e) (script_flags e) false false defer Hsigs He (proj1 Hs1) Hcb)
    as (r1 & c2 & execs1 & E1 & Hs2 & Hacc & Hnil & Hex).
  { by apply (spends_same_view c c1). }
  { clear -Hs Hk. induction Hs as [ | i k l ks Hi Hs IH]; constructor; [by apply Hk | done]. }
  rewrite E1 in Hx. go Hx. go Hx. injection Hx as <- <- <- <-. subst r1.
  match goal with E' : check_contract_spends usage c2 _ = Ok ?c3 |- _ => pose proof (check_contract_spends_same usage _ _ _ (proj1 Hs2) E') as Hs3 end.
  split; [eapply same_view_trans; [exact Hs1 | by eapply same_view_trans] | ]. split; [done | ]. split.
  - destruct Hex as [-> | [-> | (? & _)]]; [apply same_entries_refl | apply Get_entry_spec | done].
  - intros Hall. apply Hacc. eexists. split; [reflexivity | done].
Qed.

(** *** The loop *)

(** What one turn of the loop does *)
Lemma connect_tx_ok first (tx : CTransaction) p p' w : valid_cache (pg_view p) -> let u := contents_cache (pg_view p) in
  kept ledger u -> tx_fine w true tx -> tx_ok tx -> (forall n, u (mk_COutPoint (GetHash tx) n) = None) ->
  execs_right C Verify ledger (scriptExecutionCache p) tx (script_flags e) -> 0 <= nFees p <= MAX_MONEY -> 0 <= nValueIn p < 2 ^ 64 ->
  connect_tx C Verify usage m params ops prepare executive create_with_value removeEmptyAccounts e first tx p = Ok p' ->
  becomes (pg_view p) (pg_view p') (apply_tx tx h u) /\ connectable u tx /\ tx_valid h u tx /\
  nFees p' = nFees p + tx_fee u tx /\ 0 <= nFees p' <= MAX_MONEY /\
  nActualStakeReward p' = (if negb (IsCoinBase tx) && IsCoinStake tx then total_out (vout tx) - value_in u tx else nActualStakeReward p) /\
  nValueOut p' = u64 (nValueOut p + total_out (vout tx)) /\ nValueIn p' = u64 (nValueIn p + value_in u tx) /\
  same_entries (scriptExecutionCache p) (scriptExecutionCache p') /\
  (exists cs, control p' = control p ++ cs /\
    (Forall (fun k => run_check C Verify (signatureCache e) k = Ok tt) cs -> IsCoinBase tx = false -> fScriptChecks e = true ->
     scripts_verify C Verify ledger tx (script_flags e))) /\
  (exists undo, vtxundo p' = (if first then vtxundo p else vtxundo p ++ [undo]) /\ (IsCoinBase tx = false -> spends u (vin tx) undo)).
Proof.
  intros Hv u Hk Hf Hok Hnew He Hfees Hin Hx. unfold connect_tx in Hx. go Hx.
  match type of E with _ = Ok (?a, ?b) => rename a into fees; rename b into c1 end.
  assert (same_view (pg_view p) c1 /\ fees = nFees p + tx_fee u tx /\ 0 <= fees <= MAX_MONEY /\
    (IsCoinBase tx = true \/ exists ks, spends u (vin tx) ks /\ Forall (coin_fine h) ks /\ total_in ks <= MAX_MONEY /\
       (IsCoinStake tx = false -> total_out (vout tx) <= value_in u tx))) as (Hs1 & Hfee & Hfees' & Hval).
  { destruct (IsCoinBase tx) eqn:Ecb; cbn [negb] in E.
    - injection E as <- <-. split; [by apply same_view_refl | ]. unfold tx_fee. rewrite Ecb. cbn [orb]. split; [lia | ]. split; [lia | by left].
    - destruct (check_spending_ok _ _ _ _ _ _ _ Hv Ecb Hf Hfees E) as (? & ? & ? & ?). split_and!; [done | done | lia | lia | by right]. }
  go Hx. match goal with E' : GetTransactionSigOpCost _ _ c1 _ = Some (_, ?c) |- _ => rename c into c2; pose proof (SigOpCost_same usage tx _ _ _ _ (proj1 Hs1) E') as Hs2 end.
  assert (same_view (pg_view p) c2) as Hs12 by (by eapply same_view_trans). go Hx. go Hx.
  match goal with E' : _ = Ok (?a, ?b, ?x, ?c) |- _ => rename a into reward; rename b into cs; rename x into execs; rename c into c3; rename E' into Esc end.
  assert (forall o, contents_cache c2 o = u o) as Hc2 by apply Hs12.
  assert (same_view c2 c3 /\ reward = (if negb (IsCoinBase tx) && IsCoinStake tx then total_out (vout tx) - value_in u tx else nActualStakeReward p) /\
    same_entries (scriptExecutionCache p) execs /\
    (Forall (fun k => run_check C Verify (signatureCache e) k = Ok tt) cs -> IsCoinBase tx = false -> fScriptChecks e = true ->
     scripts_verify C Verify ledger tx (script_flags e))) as (Hs3 & -> & Hse & Hscr).
  { destruct Hval as [Ecb | (ks & Hks & Hfine & Htot & _)].
    - rewrite Ecb in *. cbn [negb andb] in *. injection Esc as <- <- <- <-. split; [by apply same_view_refl, Hs12 | done].
    - destruct (IsCoinBase tx) eqn:Ecb; cbn [negb andb] in *; [injection Esc as <- <- <- <-; split; [by apply same_view_refl, Hs12 | done] | ].
      assert (kept ledger (contents_cache c2)) as Hk2 by (intros o k Ho; rewrite Hc2 in Ho; by apply Hk).
      destruct (check_scripts_of_ok tx c2 ks w _ _ _ _ _ _ (proj1 Hs12) Ecb Hf Hk2 (proj1 (spends_same_view _ _ _ _ Hs12) Hks) Hfine Htot He Esc)
        as (Hs3 & -> & Hse & Hscr).
      rewrite (value_in_spends u tx ks) by done. split_and!; try done. intros Hc _. by apply Hscr. }
  assert (same_view (pg_view p) c3) as Hs13 by (by eapply same_view_trans).
  go Hx. match goal with E' : add_values _ _ _ _ _ = Ok (?a, ?b, ?c) |- _ => rename a into vo; rename b into vi; rename c into c4; rename E' into Eval end.
  assert (same_view c3 c4 /\ vo = u64 (nValueOut p + total_out (vout tx)) /\ vi = u64 (nValueIn p + value_in u tx)) as (Hs4 & -> & ->).
  { unfold add_values in Eval. rewrite (tx_fine_value _ _ _ Hf) in Eval. destruct (IsCoinBase tx) eqn:Ecb.
    - cbn [total mbind result_bind] in Eval. injection Eval as <- <- <-. split; [by apply same_view_refl, Hs13 | ]. split; [done | ].
      unfold value_in. rewrite Ecb, Z.add_0_r. by rewrite u64_id.
    - destruct Hval as [? | (ks & Hks & Hfine & Htot & _)]; [done | ].
      pose proof (GetValueIn_same usage tx c3 (proj1 Hs13)) as Hs4.
      pose proof (GetValueIn_value usage h tx c3 ks (proj1 Hs13) Ecb (proj1 (spends_same_view _ _ _ _ Hs13) Hks) Hfine Htot) as Hvi.
      destruct (GetValueIn usage c3 tx) as [vi0 c5]. cbn [fst snd total mbind result_bind] in *. injection Eval as <- <- <-. subst vi0.
      by rewrite (value_in_spends u tx ks). }
  assert (same_view (pg_view p) c4) as Hs14 by (by eapply same_view_trans).
  apply bind_ok in Hx as (q0 & Econ & Hx).
  match type of Econ with (if _ then _ else Ok ?p1) = _ => set (p1' := p1) in * end.
  assert (same_view (pg_view p1') (pg_view q0) /\ nFees q0 = nFees p1' /\ nActualStakeReward q0 = nActualStakeReward p1' /\ control q0 = control p1' /\
    scriptExecutionCache q0 = scriptExecutionCache p1' /\ nValueOut q0 = nValueOut p1' /\ nValueIn q0 = nValueIn p1' /\ vtxundo q0 = vtxundo p1')
    as (Hs5 & F1 & F2 & F3 & F4 & F5 & F6 & F7).
  { destruct (tx_HasCreateOrCall tx && negb (tx_HasOpSpend tx)); [ | injection Econ as <-; by split; [apply same_view_refl, Hs14 | ]]. go Econ. eapply run_contracts_ok; [apply Hs14 | exact Econ]. }
  assert (same_view (pg_view p) (pg_view q0)) as Hs15 by (by eapply same_view_trans).
  assert (tx_valid h u tx) as Htv by (destruct Hval as [? | (ks & ? & ? & _ & ?)]; [by left | right; eauto]).
  assert (forall o, contents_cache (pg_view q0) o = u o) as Hcq by apply Hs15.
  assert (connectable u tx) as Hcn by (eapply connectable_of; eauto).
  destruct (UpdateCoins_spec usage tx (pg_view q0) h (proj1 Hs15)) as (c6 & undo & Eup & (Hv6 & Hb6 & Hc6) & Hund).
  { eapply connectable_proper; [ | reflexivity | exact Hcn]. done. }
  unfold h in Eup; rewrite Eup in Hx. cbn [total mbind result_bind] in Hx. injection Hx as <-. cbn [pg_view nFees nActualStakeReward nValueOut nValueIn scriptExecutionCache control vtxundo].
  rewrite F1, F2, F3, F4, F5, F6, F7. subst p1'. cbn [pg_view nFees nActualStakeReward nValueOut nValueIn scriptExecutionCache control vtxundo].
  split_and!; try done.
  - split; [done | ]. split; [rewrite Hb6; apply Hs15 | ]. intros o. rewrite Hc6. by apply apply_tx_proper.
  - lia.
  - lia.
  - by exists cs.
  - exists undo. split; [done | ]. intros Hcb. specialize (Hund Hcb). eapply Forall2_impl; [exact Hund | ]. intros i k. cbn. by rewrite Hcq.
Qed.

(** What the loop does from the second transaction on *)
Lemma connect_loop_ok w txs p p' : valid_cache (pg_view p) -> let u := contents_cache (pg_view p) in 0 < h < 2 ^ 30 ->
  kept ledger u -> Forall (fun tx : CTransaction => tx_fine w true tx /\ tx_ok tx /\ recorded ledger tx /\ IsCoinBase tx = false) txs -> ids_new h u txs ->
  Forall (fun tx => execs_right C Verify ledger (scriptExecutionCache p) tx (script_flags e)) txs ->
  0 <= nFees p <= MAX_MONEY -> 0 <= nValueOut p < 2 ^ 64 -> 0 <= nValueIn p < 2 ^ 64 ->
  connect_loop C Verify usage m params ops prepare executive create_with_value removeEmptyAccounts e false txs p = Ok p' ->
  becomes (pg_view p) (pg_view p') (apply_txs h u txs) /\ all_connectable u h txs /\ all_valid h u txs /\
  nFees p' = nFees p + over tx_fee h u txs /\ 0 <= nFees p' <= MAX_MONEY /\
  nActualStakeReward p' = last_stake (nActualStakeReward p) h u txs /\
  nValueOut p' = u64 (nValueOut p + over outs h u txs) /\ nValueIn p' = u64 (nValueIn p + over value_in h u txs) /\
  (exists cs, control p' = control p ++ cs /\
    (Forall (fun k => run_check C Verify (signatureCache e) k = Ok tt) cs -> fScriptChecks e = true ->
     Forall (fun tx => scripts_verify C Verify ledger tx (script_flags e)) txs)) /\
  (exists undos, vtxundo p' = vtxundo p ++ undos /\ undo_ok h u txs undos).
Proof.
  revert p. induction txs as [ | tx txs IH]; intros p Hv u Hh Hk Hall Hids Hex Hfees Hout Hin; cbn [connect_loop].
  { intros [= <-]. cbn [over last_stake]. rewrite !Z.add_0_r, !u64_id by lia. split; [by split | ]. split_and!; try done; try lia.
    - exists []. by rewrite app_nil_r.
    - exists []. by rewrite app_nil_r. }
  intros Hx. apply bind_ok in Hx as (p1 & E1 & Hx). apply Forall_cons in Hall as [(Hf & Hok & Hrec & Hcb) Hall]. apply Forall_cons in Hex as [He Hex].
  destruct Hids as [Hnew Hids].
  destruct (connect_tx_ok false tx p p1 w Hv Hk Hf Hok Hnew He Hfees Hin E1)
    as ((Hv1 & Hb1 & Hc1) & Hcn & Htv & Hfee & Hfees1 & Hstake & Hvo & Hvi & Hexe & (cs1 & Hcs1 & Hscr1) & (undo & Hu1 & Hsp)).
  apply functional_extensionality in Hc1. fold u in Hc1.
  assert (Forall (fun tx => execs_right C Verify ledger (scriptExecutionCache p1) tx (script_flags e)) txs) as Hex1
    by (eapply Forall_impl; [exact Hex | intros; by eapply same_entries_execs]).
  destruct (IH p1 Hv1 Hh) as ((Hv' & Hb' & Hc') & Hcn' & Htv' & Hfee' & Hfees' & Hstake' & Hvo' & Hvi' & (cs & Hcs & Hscr) & (undos & Hu & Hundo)); try done.
  { rewrite Hc1. by apply kept_apply. } { by rewrite Hc1. } { rewrite Hvo. apply u64_range. } { rewrite Hvi. apply u64_range. }
  rewrite Hc1 in *. cbn [over last_stake all_connectable all_valid]. subst u.
  split; [split; [done | ]; split; [congruence | done] | ]. split; [done | ]. split; [done | ]. split; [lia | ]. split; [lia | ].
  split; [by rewrite Hstake', Hstake | ].
  split; [rewrite Hvo', Hvo; unfold u64; rewrite Zplus_mod_idemp_l; f_equal; unfold outs at 2; lia | ].
  split; [rewrite Hvi', Hvi; unfold u64; rewrite Zplus_mod_idemp_l; f_equal; lia | ]. split.
  - exists (cs1 ++ cs). rewrite Hcs, Hcs1, <- app_assoc. split; [done | ]. intros [Ha Hb]%Forall_app Hsc. constructor; [by apply Hscr1 | by apply Hscr].
  - exists (undo :: undos). rewrite Hu, Hu1, <- app_assoc. split; [done | ]. split; [by apply Hsp | done].
Qed.

(** The whole loop *)
Lemma connect_block_ok w (cb : CTransaction) rest c execs state p : valid_cache c -> let u := contents_cache c in let u1 := apply_tx cb h u in
  0 < h < 2 ^ 30 -> kept ledger u -> IsCoinBase cb = true -> Forall (fun tx : CTransaction => IsCoinBase tx = false) rest ->
  Forall (fun tx : CTransaction => tx_fine w true tx /\ tx_ok tx /\ recorded ledger tx) (cb :: rest) -> ids_new h u (cb :: rest) ->
  Forall (fun tx => execs_right C Verify ledger execs tx (script_flags e)) (cb :: rest) ->
  connect_loop C Verify usage m params ops prepare executive create_with_value removeEmptyAccounts e true (cb :: rest)
    (mk_progress c 0 0 0 [] execs 0 0 [] state 0 0 [] []) = Ok p ->
  becomes c (pg_view p) (apply_txs h u (cb :: rest)) /\ connectable u cb /\ all_connectable u1 h rest /\ all_valid h u (cb :: rest) /\
  nFees p = over tx_fee h u1 rest /\ 0 <= nFees p <= MAX_MONEY /\ nActualStakeReward p = last_stake 0 h u1 rest /\
  nValueOut p = u64 (over outs h u (cb :: rest)) /\ nValueIn p = u64 (over value_in h u (cb :: rest)) /\
  (Forall (fun k => run_check C Verify (signatureCache e) k = Ok tt) (control p) -> fScriptChecks e = true ->
   Forall (fun tx => scripts_verify C Verify ledger tx (script_flags e)) rest) /\
  undo_ok h u1 rest (vtxundo p).
Proof.
  intros Hv u u1 Hh Hk Hcb Hncb Hall [Hnew Hids] Hex Hx. apply Forall_cons in Hall as [(Hf & Hok & Hrec) Hall]. apply Forall_cons in Hex as [He Hex].
  cbn [connect_loop] in Hx. apply bind_ok in Hx as (p1 & E1 & Hx). set (p0 := mk_progress c _ _ _ _ _ _ _ _ _ _ _ _ _) in E1.
  destruct (connect_tx_ok true cb p0 p1 w Hv Hk Hf Hok Hnew He)
    as ((Hv1 & Hb1 & Hc1) & Hcn & Htv & Hfee & Hfees1 & Hstake & Hvo & Hvi & Hexe & (cs1 & Hcs1 & _) & (undo & Hu1 & _)); [done | cbn; lia | done | ].
  apply functional_extensionality in Hc1. change (contents_cache (pg_view p1) = u1) in Hc1.
  cbn [p0 pg_view nFees nActualStakeReward nValueOut nValueIn scriptExecutionCache control vtxundo app] in *.
  assert (Forall (fun tx => execs_right C Verify ledger (scriptExecutionCache p1) tx (script_flags e)) rest) as Hex1
    by (eapply Forall_impl; [exact Hex | intros; by eapply same_entries_execs]).
  assert (tx_fee (contents_cache c) cb = 0) as Hf0 by (unfold tx_fee; by rewrite Hcb). rewrite Hcb in Hstake. cbn [negb andb] in Hstake.
  assert (Forall (fun tx : CTransaction => tx_fine w true tx /\ tx_ok tx /\ recorded ledger tx /\ IsCoinBase tx = false) rest) as Hall'.
  { rewrite Forall_forall in Hall, Hncb |- *. intros tx Htx. destruct (Hall tx Htx) as (? & ? & ?). split_and!; [done | done | done | by apply Hncb]. }
  destruct (connect_loop_ok w rest p1 p Hv1)
    as ((Hv' & Hb' & Hc') & Hcn' & Htv' & Hfee' & Hfees' & Hstake' & Hvo' & Hvi' & (cs & Hcs & Hscr) & (undos & Hu & Hundo)); try done.
  { rewrite Hc1. by apply kept_apply. } { by rewrite Hc1. } { rewrite Hvo. apply u64_range. } { rewrite Hvi. apply u64_range. }
  rewrite Hc1 in *. rewrite Hf0 in Hfee. split; [split; [done | ]; split; [congruence | exact Hc'] | ].
  cbn [over all_valid]. fold u1. split_and!; try done.
  - lia.
  - lia.
  - lia.
  - by rewrite Hstake', Hstake.
  - rewrite Hvo', Hvo, Z.add_0_l. unfold u64. by rewrite Zplus_mod_idemp_l.
  - rewrite Hvi', Hvi, Z.add_0_l. unfold u64. by rewrite Zplus_mod_idemp_l.
  - rewrite Hcs. intros [_ Hb]%Forall_app. by apply Hscr.
  - by rewrite Hu, Hu1.
Qed.
End One.

(** *** What the block creates *)

Lemma supply_wrap s a b : u64 (s + u64 a - u64 b) = u64 (s + (a - b)).
Proof.
  unfold u64. rewrite Zminus_mod_idemp_r. replace (s + a mod 2 ^ 64 - b) with (s - b + a mod 2 ^ 64) by lia.
  rewrite Zplus_mod_idemp_r. f_equal. lia.
Qed.

Definition created (h : Z) (u : COutPoint -> option Coin) (txs : list CTransaction) : Z := over outs h u txs - over value_in h u txs.

Lemma created_by_normal_txs h u (txs : list CTransaction) : Forall (fun tx : CTransaction => IsCoinBase tx = false) txs ->
  Forall (fun tx : CTransaction => IsCoinStake tx = false) txs ->
  created h u txs = - over tx_fee h u txs /\ forall acc, last_stake acc h u txs = acc.
Proof.
  intros Hcb Hcs. revert u. induction Hcb as [ | tx txs Htx Hcb IH]; intros u; [done | ].
  apply Forall_cons in Hcs as [Hs Hcs]. destruct (IH Hcs (apply_tx tx h u)) as [IH1 IH2]. unfold created in *. cbn [over last_stake].
  rewrite Hs, andb_false_r. split; [ | done]. unfold tx_fee at 1. rewrite Htx, Hs. cbn [orb]. unfold outs at 1. lia.
Qed.

(** A coinbase, and perhaps a coinstake after it *)
Lemma created_by_block h u (cb : CTransaction) rest reward stake : IsCoinBase cb = true -> Forall (fun tx : CTransaction => IsCoinBase tx = false) rest ->
  let u1 := apply_tx cb h u in
  (Forall (fun tx : CTransaction => IsCoinStake tx = false) rest /\ total_out (vout cb) <= over tx_fee h u1 rest + reward) \/
  (exists cs rest', rest = cs :: rest' /\ IsCoinStake cs = true /\ Forall (fun tx : CTransaction => IsCoinStake tx = false) rest' /\
     total_out (vout cb) = 0 /\ last_stake stake h u1 rest <= over tx_fee h u1 rest + reward) ->
  created h u (cb :: rest) <= reward.
Proof.
  intros Hcb Hncb u1 [[Hcs Hle] | (cs & rest' & -> & Hs & Hcs & H0 & Hle)].
  - destruct (created_by_normal_txs h u1 rest Hncb Hcs) as [Hc _]. unfold created in *. cbn [over]. fold u1.
    assert (value_in u cb = 0) as -> by (unfold value_in; by rewrite Hcb). unfold outs at 1. lia.
  - apply Forall_cons in Hncb as [Hn Hncb]. destruct (created_by_normal_txs h (apply_tx cs h u1) rest' Hncb Hcs) as [Hc Hl].
    unfold created in *. cbn [over last_stake] in *. fold u1. rewrite Hn, Hs in Hle. cbn [negb andb] in Hle. rewrite Hl in Hle.
    assert (tx_fee u1 cs = 0) as Hf by (unfold tx_fee; by rewrite Hs, orb_true_r).
    assert (value_in u cb = 0) as -> by (unfold value_in; by rewrite Hcb). unfold outs at 1 2. lia.
Qed.

Lemma pays_nothing_total (cb : CTransaction) : pays_nothing cb -> total_out (vout cb) = 0.
Proof.
  intros [(o & -> & He) | (o & o' & -> & He & _ & Hz)]; unfold CTxOut_IsEmpty in He; apply andb_true_iff in He as [He _]; apply Z.eqb_eq in He; cbn; lia.
Qed.

Lemma check_reward_ok m chainActive params db rs block h fees refunds stake vouts x : 0 < nSubsidyHalvingInterval params -> 0 <= fees <= MAX_MONEY ->
  fst (check_reward m chainActive params db rs block h fees refunds stake vouts) = Ok x ->
  exists tx : CTransaction, vtx block !! (if header_IsProofOfStake block then 1%nat else 0%nat) = Some tx /\
    if header_IsProofOfStake block then stake <= fees + GetBlockSubsidy h params
    else forall v, GetValueOut tx = Some v -> v <= fees + GetBlockSubsidy h params.
Proof.
  intros Hi Hf. unfold check_reward, check_stake_reward, header_IsProofOfWork. pose proof (subsidy_range h params Hi) as Hs.
  rewrite i64_id by (change (64 - 1) with 63; unfold MAX_MONEY, COIN, CENT in *; lia).
  destruct (vtx block !! _) as [tx | ] eqn:Et; [ | done]. cbn [fmap option_fmap option_map].
  destruct (erase_all vouts (vout tx)) as [vs | ]; [ | done]. destruct (header_IsProofOfStake block); cbn [negb].
  - destruct (Z.ltb_spec (fees + GetBlockSubsidy h params) stake); [done | ]. intros _. by exists tx.
  - intros E. exists tx. split; [done | ]. intros v Hv. rewrite Hv in E. cbn [fst] in E. apply reject_if_ok in E. lia.
Qed.

Lemma Wait_ok C Verify sigs l : Wait C Verify sigs l = Ok true -> Forall (fun k => run_check C Verify sigs k = Ok tt) l.
Proof.
  induction l as [ | k l IH]; [constructor | ]. cbn [Wait]. destruct (run_check C Verify sigs k) as [[] | [e | ]] eqn:E.
  - intros Hx. apply bind_ok in Hx as (ok & Hw & [= Hx]). cbn [is_ok andb] in Hx. subst ok. constructor; [done | by apply IH].
  - intros Hx. by apply bind_ok in Hx as (ok & _ & [= Hx]).
  - done.
Qed.

(** *** The block *)

(** The fields of an entry that connecting its block leaves alone *)
Definition same_entry (b b' : CBlockIndex) : Prop :=
  phashBlock b' = phashBlock b /\ pprev b' = pprev b /\ nHeight b' = nHeight b.

Lemma raise_validity_ok b b' : raise_validity b = Some b' -> same_entry b b' /\ hashProof b' = hashProof b /\ nMoneySupply b' = nMoneySupply b.
Proof.
  unfold raise_validity. destruct (IsValid b BLOCK_VALID_SCRIPTS) as [v | ]; [ | done]. cbn [mbind option_bind].
  destruct v; cbn [negb]; [by intros [= <-] | ]. unfold RaiseValidity. destruct (negb _); [done | ]. destruct (negb _); [by intros [= <-] | ].
  destruct (_ <? _); intros [= <-]; [ | done]. by destruct b.
Qed.

Lemma WriteUndo_ok w b b' : WriteUndoDataForBlock w b = Ok b' -> same_entry b b' /\ hashProof b' = hashProof b /\ nMoneySupply b' = nMoneySupply b.
Proof.
  unfold WriteUndoDataForBlock. destruct (_ =? _); [ | by intros [= <-]]. intros Hx. apply bind_ok in Hx as (pos & _ & [= <-]). by destruct b.
Qed.

Lemma update_supply_ok params b s o i b' : update_supply params b s o i = Ok b' -> same_entry b b' /\ hashProof b' = hashProof b /\ nMoneySupply b' = u64 (s + o - i).
Proof. unfold update_supply. intros Hx. apply bind_ok in Hx as (? & _ & [= <-]). by destruct b. Qed.

Lemma same_entry_flags m params b proof bits_ : GetBlockScriptFlags m params (set_hashProof b proof) bits_ = GetBlockScriptFlags m params b bits_.
Proof. by destruct b. Qed.

Section Block.
Context (C : Crypto) (HC : forall b, length (SHA256 C b) = 32%nat) (Verify : bytes -> uint256 -> bytes -> bool).
Context {B : Type} `{HB : CoinsViewLaws B} (usage : Coin -> Z).
Context (m : BlockMap) (chainActive : CChain) (params : Params).
Context {A : Type} (ops : AccountOps A) (prepare : ArtaxTransaction -> A -> A).
Context (executive : EnvInfo -> ArtaxTransaction -> A -> list Address -> vm_run A) (create_with_value : Z) (removeEmptyAccounts : EnvInfo -> bool).
Context (rootHash : A -> uint256) (rootHashUTXO : UTXOState -> uint256) (setRoot : uint256 -> uint256 -> @exec_state A -> @exec_state A) (emptyTrie : uint256).
Implicit Types c : CCoinsViewCache B.

Lemma finish_block_ok nd e prev b db rs bits_ (p : progress (B := B) (A := A)) cd : fJustCheck e = false -> 0 < nSubsidyHalvingInterval params -> 0 <= nFees p <= MAX_MONEY ->
  finish_block C Verify m chainActive params rootHash rootHashUTXO setRoot emptyTrie nd e prev b db rs bits_ p = Ok cd ->
  Forall (fun k => run_check C Verify (signatureCache e) k = Ok tt) (control p) /\
  (exists tx : CTransaction, vtx (the_block e) !! (if header_IsProofOfStake (the_block e) then 1%nat else 0%nat) = Some tx /\
     if header_IsProofOfStake (the_block e) then nActualStakeReward p <= nFees p + GetBlockSubsidy (the_height e) params
     else forall v, GetValueOut tx = Some v -> v <= nFees p + GetBlockSubsidy (the_height e) params) /\
  (exists hash, phashBlock b = Some hash /\ cd_view cd = SetBestBlock (pg_view p) hash) /\
  cd_undo cd = vtxundo p /\ same_entry b (cd_index cd) /\ hashProof (cd_index cd) = hashProof b /\
  nMoneySupply (cd_index cd) = u64 (nMoneySupply prev + nValueOut p - nValueIn p).
Proof.
  intros HJ Hi Hf Hx. unfold finish_block in Hx. apply bind_ok in Hx as (? & _ & Hx).
  destruct (check_reward _ _ _ _ _ _ _ _ _ _ _) as [r rs'] eqn:Er. apply bind_ok in Hx as (? & Hr & Hx).
  apply bind_ok in Hx as (ok & Hw%lift_ok & Hx). apply bind_ok in Hx as (? & Hok%lift_ok%reject_if_ok & Hx). apply negb_false_iff in Hok as ->.
  apply bind_ok in Hx as (? & _ & Hx). rewrite HJ in Hx.
  apply bind_ok in Hx as (b1 & ((E1a & E1b & E1c) & F1 & G1)%lift_ok%update_supply_ok & Hx).
  apply bind_ok in Hx as (b2 & ((E2a & E2b & E2c) & F2 & G2)%lift_ok%WriteUndo_ok & Hx).
  apply bind_ok in Hx as (b3 & ((E3a & E3b & E3c) & F3 & G3)%lift_ok%total_ok%raise_validity_ok & Hx).
  apply bind_ok in Hx as (staker & _ & Hx). apply bind_ok in Hx as (hash & Hh%lift_ok%total_ok & Hx).
  injection Hx as <-. cbn [cd_view cd_undo cd_index]. split; [by apply Wait_ok | ]. split.
  { destruct r as [v | ]; [ | by discriminate Hr]. eapply (check_reward_ok _ _ _ _ _ _ _ _ _ _ _ v); [done | done | by rewrite Er]. }
  split; [exists hash; split; congruence | ]. split; [done | ]. unfold same_entry. split_and!; congruence.
Qed.

(** What is known before the loop over the transactions *)
Lemma check_again_ok nd maxSize limits_ block : txs_ok block -> scripts_fit block ->
  (fChecked block = true -> exists l t f1 f2 f3, block_fine C Verify params l t f1 f2 f3 block) ->
  check_again C Verify params nd false maxSize limits_ block = Ok tt -> exists l t f1 f2 f3, block_fine C Verify params l t f1 f2 f3 block.
Proof.
  intros Hok Hfit Hch Hx. unfold check_again in Hx. apply bind_ok in Hx as (? & _ & Hx). apply bind_ok in Hx as (? & _ & Hx).
  destruct (fChecked block); [by apply Hch | ].
  pose proof (check_block_guards C Verify params limits_ (nAdjustedTime nd) (negb false) (negb false) true block Hok Hfit) as Hg.
  destruct (check_block _ _ _ _ _ _ _ _ _) as [v | [ | | | ]]; [ | by destruct corruption | done | done | done].
  exists limits_, (nAdjustedTime nd), (negb false), (negb false), true. exact Hg.
Qed.

Lemma have_outputs_same c hash l o : valid_cache c -> same_view c (snd (have_outputs usage c hash l o)).
Proof.
  revert c o. induction l as [ | t l IH]; intros c o Hv; cbn [have_outputs]; [by apply same_view_refl | ].
  pose proof (HaveCoin_spec usage c (mk_COutPoint hash (u32 o)) Hv) as [_ Hs]. destruct (HaveCoin usage c _) as [b c1]. cbn [snd] in Hs.
  destruct b; [done | ]. eapply same_view_trans; [exact Hs | apply IH, Hs].
Qed.
Lemma check_overwrites_same c b block : valid_cache c -> same_view c (snd (check_overwrites usage m params c b block)).
Proof.
  intros Hv. unfold check_overwrites. destruct (_ ≫= _) as [h34 | ]; [ | by apply same_view_refl]. destruct (_ || _); [ | by apply same_view_refl].
  assert (same_view c (snd (have_transactions usage c (vtx block)))) as Hs.
  { generalize (vtx block) as l. intros l. revert c Hv. induction l as [ | tx l IH]; intros c Hv; cbn [have_transactions]; [by apply same_view_refl | ].
    pose proof (have_outputs_same c (GetHash tx) (vout tx) 0 Hv) as Hs. destruct (have_outputs _ _ _ _ _) as [h c1]. cbn [snd] in Hs.
    destruct h; [done | ]. eapply same_view_trans; [exact Hs | apply IH, Hs]. }
  by destruct (have_transactions usage c (vtx block)).
Qed.

Lemma UpdateHashProof_ok block b prev bp c r : Chain.index_ok m -> pprev b = Some prev -> m !! prev = Some bp -> nHeight bp + 1 < 2 ^ 31 -> valid_cache c ->
  same_view c (snd (UpdateHashProof C Verify usage m params block b c)) /\
  (fst (UpdateHashProof C Verify usage m params block b c) = Ok r -> header_IsProofOfStake block = true ->
   exists cs, vtx block !! 1%nat = Some cs /\ stake_proven C Verify m prev bp (contents_cache c) cs (nBits block) (nTime block) r).
Proof.
  intros Hm Hp Hbp Hr Hv. unfold UpdateHashProof, header_IsProofOfWork. pose proof (same_view_refl c Hv) as Hrefl.
  destruct (header_IsProofOfStake block); cbn [negb andb].
  - destruct (negb _); [done | ]. destruct (GetNextWorkRequired _ _ _ _ _); [ | done]. destruct (negb _); [done | ]. rewrite Hp.
    destruct (vtx block !! 1%nat) as [cs | ]; [ | done].
    destruct (CheckProofOfStake_spec C Verify usage m Hm prev bp Hbp Hr cs (nBits block) (nTime block) c Hv) as [Hs Hiff].
    split; [done | ]. intros E%Hiff _. by exists cs.
  - destruct (_ <? _); [done | ]. destruct (GetNextWorkRequired _ _ _ _ _); [ | done]. destruct (negb _); done.
Qed.

(** What has happened when [ConnectBlock] succeeds: the facts before the loop, the loop, and what
    comes after it *)
Lemma ConnectBlock_inv nd (block : CBlock) pindex (view : CCoinsViewCache B) db rs state bits_ execs cd b prev bp :
  Chain.index_ok m -> map_Forall (fun p _ => length p = 32%nat) m -> m !! pindex = Some b -> pprev b = Some prev -> m !! prev = Some bp -> nHeight b < 2 ^ 30 ->
  base_blob_eq (Block_GetHash C block) (hashGenesisBlock params) = false -> valid_cache view -> length (best_cache view) = 32%nat ->
  ConnectBlock C Verify usage m chainActive params ops prepare executive create_with_value removeEmptyAccounts rootHash rootHashUTXO setRoot emptyTrie
    nd block pindex view false db rs state bits_ execs = Ok cd ->
  pindex = Block_GetHash C block /\ prev = best_cache view /\
  (exists maxSize limits_, check_again C Verify params nd false maxSize limits_ block = Ok tt) /\
  exists v sc flags proof e p bits1 bits2, same_view view v /\
    needs_script_checks m params (hashAssumeValid nd) (pindexBest nd) (minimumChainWork nd) pindex = Some sc /\
    GetBlockScriptFlags m params b bits1 = Some (flags, bits2) /\
    (header_IsProofOfStake block = true ->
     exists cs, vtx block !! 1%nat = Some cs /\ stake_proven C Verify m prev bp (contents_cache view) cs (nBits block) (nTime block) proof) /\
    the_block e = block /\ the_height e = nHeight b /\ script_flags e = flags /\ fScriptChecks e = sc /\ fJustCheck e = false /\
    signatureCache e = nd_signatureCache nd /\
    connect_loop C Verify usage m params ops prepare executive create_with_value removeEmptyAccounts e true (vtx block)
      (mk_progress v 0 0 0 [] execs 0 0 [] state 0 0 [] []) = Ok p /\
    finish_block C Verify m chainActive params rootHash rootHashUTXO setRoot emptyTrie nd e bp (set_hashProof b proof) db rs bits2 p = Ok cd.
Proof.
  intros Hm H32 Hb Hp Hbp Hh Hgen Hv Hbl Hx. unfold ConnectBlock in Hx. rewrite Hb in Hx. cbn [total lift mbind result_bind] in Hx.
  destruct (Hm _ _ Hb) as [Hhash _], (Hm _ _ Hbp) as [Hhp _]. rewrite Hhash in Hx. cbn [total lift mbind result_bind] in Hx.
  apply bind_ok in Hx as (? & Eh%lift_ok & Hx). pose proof (H32 _ _ Hb) as L1. cbn in L1.
  rewrite base_blob_eq_spec in Eh by (rewrite L1; symmetry; apply HC).
  destruct (bool_decide_reflect (pindex = Block_GetHash C block)) as [Epi | ]; [clear Eh | done].
  apply bind_ok in Hx as ([] & Hag & Hx).
  apply bind_ok in Hx as (ph & Eph%lift_ok%total_ok & Hx). rewrite Hp in Eph. rewrite Hbp in Eph. cbn [mbind option_bind] in Eph.
  rewrite Hhp in Eph. injection Eph as <-.
  destruct (GetBestBlock_spec view Hv) as [Hbest Hs0]. destruct (GetBestBlock view) as [best v0]. cbn [fst snd] in *. subst best.
  apply bind_ok in Hx as (? & Ebest%lift_ok & Hx). pose proof (H32 _ _ Hbp) as L2. cbn in L2.
  rewrite base_blob_eq_spec in Ebest by congruence. destruct (bool_decide_reflect (prev = best_cache view)) as [Epr | ]; [clear Ebest | done].
  rewrite Hgen in Hx.
  destruct (prev_entry m Hm _ _ _ Hb Hp) as (bp' & Hbp' & Hheight). rewrite Hbp in Hbp'. injection Hbp' as <-.
  pose proof (fun r => UpdateHashProof_ok block b prev bp v0 r Hm Hp Hbp ltac:(lia) (proj1 Hs0)) as Hproof.
  destruct (UpdateHashProof _ _ _ _ _ _ _ _) as [r v1]. cbn [fst snd] in Hproof.
  apply bind_ok in Hx as (proof & ->%lift_ok & Hx). destruct (Hproof proof) as [Hs1 Hpos]. clear Hproof.
  apply bind_ok in Hx as (sc & Hsc%lift_ok%total_ok & Hx).
  pose proof (check_overwrites_same v1 (set_hashProof b proof) block (proj1 Hs1)) as Hs2.
  destruct (check_overwrites _ _ _ _ _ _) as [r v2]. cbn [snd] in Hs2. apply bind_ok in Hx as (? & _ & Hx).
  apply bind_ok in Hx as ([csv bits1] & _ & Hx). apply bind_ok in Hx as ([flags bits2] & Hflags%lift_ok%total_ok & Hx).
  rewrite same_entry_flags in Hflags. assert (pprev (set_hashProof b proof) = Some prev) as Hp' by (by destruct b).
  rewrite Hp' in Hx. cbn [mbind option_bind] in Hx. rewrite Hbp in Hx. cbn [total lift mbind result_bind] in Hx.
  assert (nHeight (set_hashProof b proof) = nHeight b) as Eh by (by destruct b). rewrite Eh in Hx.
  apply bind_ok in Hx as (p & Hloop%lift_ok & Hx).
  split; [done | ]. split; [done | ]. split; [by eauto | ].
  eexists v2, sc, flags, proof, _, p, _, bits2. split; [eapply same_view_trans; [exact Hs0 | by eapply same_view_trans] | ].
  split; [done | ]. split; [exact Hflags | ]. split.
  { intros E. destruct (Hpos eq_refl E) as (cs & Hcs & Hst). exists cs. split; [done | ].
    assert (contents_cache v0 = contents_cache view) as <-; [apply functional_extensionality, Hs0 | done]. }
  split_and!; [ | | | | | | exact Hloop | exact Hx]; reflexivity.
Qed.
End Block.

(** (C4) A block that [ConnectBlock] connects is valid.  On any valid coin cache and tree, for a block of
    well-formed transactions with new ids that is not the genesis block, and with caches of
    scripts whose hits are right, when [ConnectBlock] succeeds (and was not asked only to check): the first transaction is
    the only coinbase, and every other one spends unspent and mature outputs that are worth what it
    pays (a coinstake excepted); unless the block is below the one assumed valid, every script
    verifies under the flags of the block; the unspent outputs are exactly those of before changed
    by each transaction in turn; the money supply changes by what the block creates, which is at
    most the subsidy if the block is a proof of stake or has no transaction of the form of a
    coinstake (a proof of work with one can create more: [proof_of_work_may_mint]); a proof of stake has
    a kernel that meets the target; and disconnecting the block with the undo data that was left
    gives back the unspent outputs of before. *)
Theorem connected_blocks_are_valid C Verify {B} `{HB : CoinsViewLaws B} usage m chainActive params {A} (ops : AccountOps A) prepare executive
    create_with_value removeEmptyAccounts rootHash rootHashUTXO setRoot emptyTrie ledger nd (block : CBlock) pindex (view : CCoinsViewCache B) db recipients_ state bits_ execs
    cd b prev bp :
  (forall x, length (SHA256 C x) = 32%nat) -> 0 < nSubsidyHalvingInterval params ->
  Chain.index_ok m -> map_Forall (fun p _ => length p = 32%nat /\ base_blob_IsNull p = false) m ->
  m !! pindex = Some b -> pprev b = Some prev -> m !! prev = Some bp -> 0 < nHeight b < 2 ^ 30 ->
  base_blob_eq (Block_GetHash C block) (hashGenesisBlock params) = false ->
  valid_cache view -> length (best_cache view) = 32%nat -> kept ledger (contents_cache view) ->
  txs_ok block -> scripts_fit block -> Forall (recorded ledger) (vtx block) -> ids_new (nHeight b) (contents_cache view) (vtx block) ->
  (fChecked block = true -> exists l t f1 f2 f3, block_fine C Verify params l t f1 f2 f3 block) ->
  sigs_right C Verify (nd_signatureCache nd) -> (forall tx flags, tx ∈ vtx block -> execs_right C Verify ledger execs tx flags) ->
  ConnectBlock C Verify usage m chainActive params ops prepare executive create_with_value removeEmptyAccounts rootHash rootHashUTXO setRoot emptyTrie
    nd block pindex view false db recipients_ state bits_ execs = Ok cd ->
  let h := nHeight b in let u := contents_cache view in
  exists (cb : CTransaction) rest fScriptChecks flags,
    vtx block = cb :: rest /\ IsCoinBase cb = true /\ Forall (fun tx : CTransaction => IsCoinBase tx = false) rest /\ all_valid h u (vtx block) /\
    needs_script_checks m params (hashAssumeValid nd) (pindexBest nd) (minimumChainWork nd) pindex = Some fScriptChecks /\
    (exists bits1 bits2, GetBlockScriptFlags m params b bits1 = Some (flags, bits2)) /\
    (fScriptChecks = true -> Forall (fun tx => scripts_verify C Verify ledger tx flags) rest) /\
    (forall o, contents_cache (cd_view cd) o = apply_txs h u (vtx block) o) /\ best_cache (cd_view cd) = Block_GetHash C block /\
    nMoneySupply (cd_index cd) = u64 (nMoneySupply bp + created h u (vtx block)) /\
    (header_IsProofOfStake block = true \/ Forall (fun tx : CTransaction => IsCoinStake tx = false) rest ->
     created h u (vtx block) <= GetBlockSubsidy h params) /\
    (header_IsProofOfStake block = true ->
     exists cs, vtx block !! 1%nat = Some cs /\ stake_proven C Verify m prev bp u cs (nBits block) (nTime block) (hashProof (cd_index cd))) /\
    (forall dgp, exists view', DisconnectBlock usage dgp m block (cd_index cd) (cd_view cd) (Some (cd_undo cd)) =
       Some (DISCONNECT_OK, view', Some (bi_hashStateRoot bp, bi_hashUTXORoot bp)) /\ same_view view view').
Proof.
  intros HC Hi Hm H32 Hb Hp Hbp Hh Hgen Hv Hbl Hk Hok Hfit Hrec Hids Hch Hsig Hex Hx h u. subst h.
  destruct (ConnectBlock_inv C HC Verify usage m chainActive params ops prepare executive create_with_value removeEmptyAccounts rootHash rootHashUTXO setRoot emptyTrie
    nd block pindex view db recipients_ state bits_ execs cd b prev bp Hm) as (Epi & Epr & (maxSize & limits_ & Hag) &
      (v & sc & flags & proof & e & p & bits1 & bits2 & Hs & Hsc & Hflags & Hpos & Ebl & Eh & Efl & Esc & HJ & Esig & Hloop & Hfin)); try done.
  { eapply map_Forall_impl; [exact H32 | ]. by intros ? ? [? _]. } { lia. }
  destruct (check_again_ok C Verify params _ _ _ _ Hok Hfit Hch Hag) as (l & t & f1 & f2 & f3 & _ & _ & _ & (cb & rest & Evtx & Hcb & _ & Hcbs) & Hcs & _ & Hfine & _).
  assert (Forall (fun tx : CTransaction => IsCoinBase tx = false) rest) as Hncb.
  { apply Forall_lookup_2. intros i tx Hi'. apply (Hcbs (S i)); [lia | by rewrite Evtx]. }
  assert (contents_cache v = u) as Hu by (apply functional_extensionality; apply Hs).
  destruct (connect_block_ok C HC Verify usage m params ops prepare executive create_with_value removeEmptyAccounts ledger e HJ ltac:(by rewrite Esig)
    (dgpMaxBlockWeight l) cb rest v execs state p (proj1 Hs)) as ((Hv' & Hb' & Hc') & Hcn & Hcns & Hval & Hfees & Hfr & Hstake & Hvo & Hvi & Hscr & Hundo);
    rewrite ?Eh, ?Hu, <- ?Evtx; try done.
  { rewrite Forall_forall in Hfine, Hrec |- *. unfold txs_ok in Hok. rewrite Forall_forall in Hok. intros tx Htx. split_and!; auto. }
  { apply Forall_forall. intros tx Htx. by apply Hex. }
  rewrite Eh, Hu in *. apply finish_block_ok in Hfin as (Hwait & (rtx & Hrtx & Hrew) & (hash & Hhash & Hview) & Hund & (F1 & F2 & F3) & F4 & F5); [ | done | done | done].
  destruct (Hm _ _ Hb) as [Hbh _]. assert (phashBlock (set_hashProof b proof) = phashBlock b) as Ehash by (by destruct b).
  assert (hash = Block_GetHash C block) as -> by congruence. destruct (H32 _ _ Hb) as [_ Hnn], (H32 _ _ Hbp) as [_ Hpn]. rewrite Epi in Hnn.
  assert (best_cache (cd_view cd) = Block_GetHash C block) as Hbest by (rewrite Hview; unfold best_cache; cbn [SetBestBlock hashBlock]; by rewrite Hnn).
  assert (forall o, contents_cache (cd_view cd) o = apply_txs (nHeight b) u (vtx block) o) as Hcd by (rewrite Hview, Evtx; exact Hc').
  exists cb, rest, sc, flags. split; [done | ]. split; [done | ]. split; [done | ]. split; [by rewrite Evtx | ]. split; [done | ]. split; [eauto | ].
  split; [intros Hsct; rewrite <- Efl; apply Hscr; [done | congruence] | ]. split; [done | ]. split; [done | ].
  split; [by rewrite F5, Hvo, Hvi, Evtx, supply_wrap | ]. split.
  { rewrite Evtx. intros Hor. apply (created_by_block _ _ cb rest _ 0 Hcb Hncb). rewrite Ebl, Eh in *. destruct (header_IsProofOfStake block).
    - right. destruct (Hcs eq_refl) as (cb' & cs & ci & rest' & Evtx' & Hpn' & Hcs1 & _ & _ & _ & Hcsn). rewrite Evtx in Evtx'. injection Evtx' as <- ->.
      exists cs, rest'. split; [done | ]. split; [done | ]. split.
      { apply Forall_lookup_2. intros i tx Hi'. apply (Hcsn (S (S i))); [lia | by rewrite Evtx]. }
      split; [by apply pays_nothing_total | ]. rewrite <- Hstake, <- Hfees. exact Hrew.
    - left. destruct Hor as [? | Hns]; [done | ]. split; [done | ]. rewrite <- Hfees. apply Hrew. rewrite Evtx in Hrtx. injection Hrtx as <-.
      rewrite Evtx in Hfine. apply Forall_inv in Hfine. by eapply tx_fine_value. }
  split.
  { intros Hst. destruct (Hpos Hst) as (cs & Hcs1 & Hsp). exists cs. split; [done | ]. rewrite F4. by destruct b. }
  intros dgp. assert (nHeight (cd_index cd) = nHeight b) as Ehc by (rewrite F3; by destruct b).
  assert (pprev (set_hashProof b proof) = pprev b) as Epv by (by destruct b).
  destruct (DisconnectBlock_ok usage dgp m block (cd_index cd) prev bp (Block_GetHash C block) prev (cd_view cd) u cb rest (cd_undo cd))
    as (view' & E' & Hv2 & Hc2 & Hb2); rewrite ?Ehc; try done.
  - rewrite Hview. exact Hv'.
  - lia.
  - by rewrite Hund.
  - intros o k. by apply contents_cache_unspent.
  - congruence.
  - congruence.
  - apply (Hm _ _ Hbp).
  - exists view'. split; [done | ]. split; [done | ]. split; [done | congruence].
Qed.

(** A block at height 2 of the sample chain, with a transaction that spends a coin *)
Definition connect_map : BlockMap := mapBlockIndex (sample_state 3).
Definition connect_index : ptr := Block_GetHash toy_crypto (sample_header 2).
Definition connect_prev : ptr := Block_GetHash toy_crypto (sample_header 1).
Definition connect_txs_sample : list CTransaction := [Undo.sample_coinbase; sample_spend].
Definition block_of (txs : list CTransaction) : CBlock :=
  mk_CBlock (mk_CBlockHeader (hdr_nVersion (sample_header 2)) connect_prev (fst (ComputeMerkleRoot toy_crypto (map GetHash txs))) 1020
               (default 0 (GetCompact (GetLimit CMainParams false) false)) 0 uint256_SetNull uint256_SetNull COutPoint_SetNull []) txs false.
Definition connect_block : CBlock := block_of connect_txs_sample.
Definition connect_coin : Coin := Coin_new (mk_CTxOut (5 * COIN) [OP_TRUE]) 1 false false.
Definition connect_db : DBView := mk_DBView (mk_db {[sample_outpoint 0 := connect_coin]} (Some connect_prev) None) (fun batch => 1 <? vsize batch).
Definition connect_node : node := mk_node 2000000 0 40 40000000 2000 uint256_SetNull connect_index (of_u64 0) true no_cache (Ok 8).
Definition connect_ledger (o : COutPoint) : CTxOut :=
  match list_find (fun tx => GetHash tx = outpoint_hash o) connect_txs_sample with
  | Some (_, tx) => default CTxOut_SetNull (vout (tx_fields tx) !! Z.to_nat (outpoint_n o))
  | None => mk_CTxOut (5 * COIN) [OP_TRUE]
  end.
Definition connect_result (block : CBlock) :=
  ConnectBlock toy_crypto sample_curve no_usage connect_map [Some connect_prev] CMainParams list_accounts (fun _ a => a)
    (fun _ _ a d => mk_vm_run a d (Threw 0)) 0 (fun _ => false) (fun _ => uint256_SetNull) (fun _ => uint256_SetNull) (fun _ _ s => s) uint256_SetNull
    connect_node block connect_index (cache_new connect_db) false ∅ ∅ (mk_exec_state (mk_UTXOState ∅ ∅) [] []) VersionBitsCache_Clear no_cache.

Lemma connect_contents o : o <> sample_outpoint 0 -> contents_cache (cache_new connect_db) o = None.
Proof. intros Ho. unfold contents_cache. simpl. rewrite lookup_empty. by rewrite lookup_singleton_ne. Qed.

Lemma connect_ids_new : ids_new 2 (contents_cache (cache_new connect_db)) connect_txs_sample.
Proof.
  split; [intros n; apply connect_contents; vm_compute; discriminate | ]. split; [ | done].
  intros n. rewrite apply_tx_other; [apply connect_contents; vm_compute; discriminate | vm_compute; discriminate | ].
  intros Hin. by apply elem_of_nil in Hin.
Qed.

Lemma connect_txs_ok : txs_ok connect_block.
Proof.
  unfold txs_ok, connect_block, block_of, connect_txs_sample, tx_ok, vector_ok, input_ok, bare_input_ok, outpoint_ok, uint256_ok, output_ok, witness_ok, vector_ok, blob_ok.
  cbn [vtx]. repeat constructor; simpl; unfold is_byte; lia || done || decided.
Qed.

Lemma connect_recorded : Forall (recorded connect_ledger) (vtx connect_block).
Proof.
  cbn [vtx connect_block block_of connect_txs_sample]. constructor; [ | constructor; [ | constructor]]; intros n o Hn.
  - destruct n as [ | n]; cbn in Hn; [ | by destruct n]. injection Hn as <-. vm_compute. reflexivity.
  - destruct n as [ | [ | n]]; cbn in Hn; [ | | by destruct n]; injection Hn as <-; vm_compute; reflexivity.
Qed.

Lemma connected_blocks_are_valid_witness : exists cd,
  connect_result connect_block = Ok cd /\ nMoneySupply (cd_index cd) = 2 * COIN /\ contents_cache (cd_view cd) (sample_outpoint 0) = None.
Proof.
  destruct (connect_result connect_block) as [cd | f] eqn:E; [ | vm_compute in E; discriminate E]. exists cd. split; [reflexivity | ].
  destruct (connect_map !! connect_index) as [b | ] eqn:Eb; [ | vm_compute in Eb; discriminate Eb].
  destruct (connect_map !! connect_prev) as [bp | ] eqn:Ebp; [ | vm_compute in Ebp; discriminate Ebp].
  assert (nHeight b = 2 /\ pprev b = Some connect_prev) as [Hh Hp] by (vm_compute in Eb; injection Eb as <-; split; reflexivity).
  assert (nMoneySupply bp = 0) as Hs by (vm_compute in Ebp; injection Ebp as <-; reflexivity).
  destruct (connected_blocks_are_valid toy_crypto sample_curve no_usage connect_map [Some connect_prev] CMainParams list_accounts (fun _ a => a)
    (fun _ _ a d => mk_vm_run a d (Threw 0)) 0 (fun _ => false) (fun _ => uint256_SetNull) (fun _ => uint256_SetNull) (fun _ _ s => s) uint256_SetNull
    connect_ledger connect_node connect_block connect_index (cache_new connect_db) ∅ ∅ (mk_exec_state (mk_UTXOState ∅ ∅) [] []) VersionBitsCache_Clear no_cache
    cd b connect_prev bp) as (cb & rest & sc & flags & _ & _ & _ & _ & _ & _ & _ & Hc & _ & Hm & _).
  - intros x. cbn [SHA256 toy_crypto]. rewrite length_take, length_app, length_replicate. lia.
  - reflexivity.
  - exact (proj1 (reachable_ok _ _ (sample_reachable 3 ltac:(lia)))).
  - apply map_Forall_to_list. vm_compute. repeat constructor.
  - exact Eb.
  - exact Hp.
  - exact Ebp.
  - rewrite Hh. split; reflexivity.
  - vm_compute. reflexivity.
  - split; [ | apply map_Forall_empty]. split; [done | by apply map_Forall_singleton].
  - reflexivity.
  - intros o k Ho. destruct (decide (o = sample_outpoint 0)) as [-> | Hne]; [ | rewrite connect_contents in Ho by done; discriminate].
    injection Ho as <-. split; [discriminate | ]. split; vm_compute; reflexivity.
  - exact connect_txs_ok.
  - decided.
  - exact connect_recorded.
  - rewrite Hh. exact connect_ids_new.
  - discriminate.
  - exact (no_cache_sigs _).
  - intros tx f _. exact (no_cache_execs _ _ tx f).
  - exact E.
  - rewrite Hc, Hm, Hh, Hs. split; vm_compute; reflexivity.
Defined.

(** A proof of work with a second transaction that has the form of a coinstake *)
Definition minting_tx : CTransaction :=
  MakeTransaction toy_crypto (mk_tx [mk_CTxIn (sample_outpoint 0) [] SEQUENCE_FINAL []] [mk_CTxOut 0 []; mk_CTxOut (9000000 * COIN) [OP_TRUE]] 1 0).

(** The height and the money supply when the block is connected *)
Definition outcome_of {B A} (r : result connect_failure (@connected B A)) : option (Z * Z) :=
  match r with Ok cd => Some (nHeight (cd_index cd), nMoneySupply (cd_index cd)) | Err _ => None end.

(** A proof of work can create money out of nothing.  On the main network's parameters
    [ConnectBlock] connects, at a height where proofs of work are allowed, a proof-of-work block
    whose second transaction is a coinstake in form and pays nine million coins from an input of
    five: the rules that make up for the value check that coinstakes are exempt from (one
    coinstake, a reward within fees and subsidy) are only applied to proofs of stake, and the
    bound on the money supply is not reached. *)
Theorem proof_of_work_may_mint : let block := block_of [Undo.sample_coinbase; minting_tx] in
  header_IsProofOfWork block = true /\ IsCoinStake minting_tx = true /\
  outcome_of (connect_result block) = Some (2, 8999999 * COIN) /\ 2 <= nLastPOWBlock CMainParams /\ GetBlockSubsidy 2 CMainParams <= 1800 * COIN.
Proof. vm_compute. repeat split; discriminate. Qed.
