(* ===== verification/NodeOps.v ===== *)
(** * The steps of the chain with the blocks connected and disconnected ([CChainState::ConnectTip]
      and [CChainState::DisconnectTip] of [src/validation.cpp])

    [Activation.v] chooses and activates chains for any operations that connect and disconnect
    blocks.  Here are the operations of the node: they read the block, run [ConnectBlock] of
    [Connect.v] or [DisconnectBlock] of [Undo.v] on a cache over the coins of the tip, and flush that
    cache.  They satisfy what [Activation.v] relies on: the entry of a block keeps its place, its data
    and its marks and is marked as checked when the block is connected, and a block is only called
    invalid when it cannot just be corrupted.

    Reading blocks, the globals and governance values that [ConnectBlock] reads and
    [FlushStateToDisk] are parameters.  An assertion that fails ends the process, and so is a
    failure; this includes [InvalidChainFound] when the genesis block is refused, and a block with
    the hash of the genesis block that has a predecessor, a collision of hashes, is taken as one too.
    What a [ConnectBlock] that fails leaves in [hashProof] of the entry and in the caches is left
    out: they are computed again. *)

From Stdlib Require Import String.
From stdpp Require Import gmap.
From S2P Require Import Prelude Serialize ArithUint256 Script SigEncoding Interpreter VerifyScript Standard Transaction Block Merkle Chain MedianTime Coins Pow VersionBits Undo TxVerify SigHash Condensing Contract CheckBlock CuckooCache ScriptChecks Reward Connect Activation ChainInvariant.
Open Scope Z_scope.

(** ** Definitions *)

Section NodeOps.
Context (C : Crypto) (Verify : bytes -> uint256 -> bytes -> bool).
Context {B : Type} `{CoinsView B} (usage : Coin -> Z) (params : Params).
Context {A : Type} (ops : AccountOps A) (prepare : ArtaxTransaction -> A -> A).
Context (executive : EnvInfo -> ArtaxTransaction -> A -> list Address -> vm_run A) (create_with_value : Z) (removeEmptyAccounts : EnvInfo -> bool).
Context (rootHash : A -> uint256) (rootHashUTXO : UTXOState -> uint256).
Context (setRoot : uint256 -> uint256 -> @exec_state A -> @exec_state A) (emptyTrie : uint256).

(** What connecting and disconnecting change: the coins of the tip, the index of stakers and the
    cache over it, the contract state, the caches of version bits and scripts, and the undo data *)
Record World : Type := mk_World {
  pcoinsTip : CCoinsViewCache B;
  w_stakes : stake_index;
  w_recipients : script_cache;
  w_contracts : @exec_state A;
  w_versionbits : VersionBitsCache;
  w_execs : SaltedCache;
  w_undo : gmap (list Z) CBlockUndo }.

(** [ReadBlockFromDisk]; what [ConnectBlock] reads of the globals; [dgpMaxBlockWeight] when a block
    is disconnected; [FlushStateToDisk] *)
Context (ReadBlockFromDisk : ptr -> option CBlock) (globals : BlockMap -> CChain -> World -> node) (dgpMaxBlockWeight : Z).
Context (FlushStateToDisk : FlushStateMode -> World -> option World).

#[local] Instance tip_view : CoinsView (CCoinsViewCache B) := cache_view usage.

(** [ConnectTip] up to the flush of the view *)
Definition connect_tip_block (m : BlockMap) (v : CChain) (pindexNew : ptr) (pblock : option CBlock) (s : World) : connect_outcome World :=
  match m !! pindexNew with
  | None => ConnectFailed s (CBlockIndex_of_header CBlockHeader_SetNull)
  | Some b =>
      match (match pblock with Some block => Some block | None => ReadBlockFromDisk pindexNew end) with
      | None => ConnectFailed s b
      | Some block =>
          match ConnectBlock C Verify usage m v params ops prepare executive create_with_value removeEmptyAccounts rootHash rootHashUTXO setRoot emptyTrie
                  (globals m v s) block pindexNew (cache_new (pcoinsTip s)) false (w_stakes s) (w_recipients s) (w_contracts s) (w_versionbits s) (w_execs s) with
          | Ok cd =>
              if base_blob_eq (Block_GetHash C block) (hashGenesisBlock params) && negb (nHeight b =? 0) then ConnectFailed s b
              else match Flush (cd_view cd) with
              | Some (true, view) =>
                  BlockConnected (mk_World (base view) (cd_stakes cd) (cd_recipients cd) (cd_state cd) (cd_versionbits cd) (cd_execs cd)
                    (if (fst (GetUndoPos b) =? -1) && negb (fst (GetUndoPos (cd_index cd)) =? -1) then <[pindexNew := cd_undo cd]> (w_undo s) else w_undo s)) (cd_index cd)
              | _ => ConnectFailed s b
              end
          | Err e =>
              match connect_report CValidationState_new (A := unit) (Err e) with
              | None => ConnectFailed s b
              | Some (_, state) =>
                  if bool_decide (is_Some (state_IsInvalid state)) && negb (nHeight b =? 0) then BlockInvalid s b (corruptionPossible state) else ConnectFailed s b
              end
          end
      end
  end.

(** [DisconnectTip] up to the flush of the view *)
Definition disconnect_tip_block (m : BlockMap) (v : CChain) (pindexDelete : ptr) (s : World) : bool * World :=
  match (b ← m !! pindexDelete; block ← ReadBlockFromDisk pindexDelete;
         r ← DisconnectBlock usage dgpMaxBlockWeight m block b (cache_new (pcoinsTip s)) (w_undo s !! pindexDelete); Some (b, r)) with
  | None => (false, s)
  | Some (b, (res, view, roots)) =>
      let s := match roots with
               | None => s
               | Some (state, utxo) =>
                   mk_World (pcoinsTip s) (EraseStakeIndex (w_stakes s) (nHeight b)) (w_recipients s) (setRoot state utxo (w_contracts s))
                     (w_versionbits s) (w_execs s) (w_undo s)
               end in
      match res with
      | DISCONNECT_OK =>
          match Flush view with
          | Some (true, view) =>
              (true, mk_World (base view) (w_stakes s) (w_recipients s) (w_contracts s) (w_versionbits s) (w_execs s) (w_undo s))
          | _ => (false, s)
          end
      | _ => (false, s)
      end
  end.

Definition node_ops : BlockOps World := mk_BlockOps World connect_tip_block disconnect_tip_block FlushStateToDisk.
End NodeOps.

(** ** Theorems *)

(** *** Blocks that could just be corrupted *)

(** A check that does not blame corruption *)
Definition fair {X} (r : bchecks X) : Prop := forall level code reason, r <> Err (BlockReject level code reason true).

Lemma fair_ok {X} (x : X) : fair (Ok x).
Proof. done. Qed.
Lemma fair_abort {X} : fair (X := X) (Err BlockAbort).
Proof. done. Qed.
Lemma fair_bind {X Y} (r : bchecks X) (f : X -> bchecks Y) : fair r -> (forall x, r = Ok x -> fair (f x)) -> fair (r ≫= f).
Proof. intros Hr Hf. destruct r as [x|e]; [by apply Hf|]. intros level code reason [= ->]. by apply (Hr level code reason). Qed.
Lemma fair_reject b level reason : fair (reject_if b level reason false).
Proof. by destruct b. Qed.
Lemma fair_total {X} (o : option X) : fair (total o).
Proof. by destruct o. Qed.
Lemma fair_checked {X} (r : checks X) : fair (checked r).
Proof. by destruct r as [|[]]. Qed.

Create HintDb fair.
#[export] Hint Resolve fair_ok fair_abort fair_reject fair_total fair_checked : fair.

(** Goes through a sequence of checks. *)
Ltac fair_step :=
  match goal with
  | |- fair (_ ≫= _) => apply fair_bind; [|intros ? _]
  | |- fair (if ?b then _ else _) => destruct b
  | |- fair (match ?x with _ => _ end) => destruct x
  | |- fair (let '(_, _) := ?x in _) => destruct x
  | |- fair _ => first [solve [eauto with fair] | progress cbv zeta | done]
  end.
Ltac fair := repeat fair_step.

Section Blame.
Context (C : Crypto) (Verify : bytes -> uint256 -> bytes -> bool) {B : Type} `{CoinsView B} (usage : Coin -> Z) (m : BlockMap) (params : Params).
Implicit Types c : CCoinsViewCache B.

Lemma check_scripts_fair sigs tx flags store txdata defer l : forall c i, fair (fst (check_scripts C Verify usage sigs tx flags store txdata defer c l i)).
Proof.
  induction l as [|txin l IH]; intros c i; cbn [check_scripts]; [done|]. destruct (AccessCoin usage c (prevout txin)) as [coin c1]. destruct (IsSpent coin); [done|].
  destruct defer.
  - specialize (IH c1 (i + 1)). destruct (check_scripts _ _ _ _ _ _ _ _ _ _ _ _) as [r c2]. cbn [fst] in *. apply fair_bind; [done|]. intros ? _. done.
  - destruct (run_check C Verify sigs _) as [u|[e|]]; [apply IH | | done]. cbn [fst]. destruct (SigEncoding.has _ _); [|done]. by destruct (run_check C Verify sigs _) as [|[]].
Qed.
Lemma CheckInputs_fair sigs execs tx c checks flags s1 s2 txdata defer : fair (fst (fst (CheckInputs C Verify usage sigs execs tx c checks flags s1 s2 txdata defer))).
Proof.
  unfold CheckInputs. destruct (_ || _); [done|]. destruct (Get_entry _ _ _) as [[] execs1]; [done|].
  pose proof (check_scripts_fair sigs tx flags s1 txdata defer (vin tx) c 0) as Hx. by destruct (check_scripts _ _ _ _ _ _ _ _ _ _ _ _).
Qed.
Lemma UpdateHashProof_fair block b c : fair (fst (UpdateHashProof C Verify usage m params block b c)).
Proof.
  unfold UpdateHashProof, CheckProofOfStake. repeat (match goal with |- fair (fst (match ?x with _ => _ end)) => destruct x end; try done). cbn [fst].
  destruct (VerifySignature _ _ _ _ _ _ _) as [[]|]; [|done..].
  by destruct (CheckStakeKernelHash _ _ _ _ _ _ _ _ _) as [[[] ?] ?].
Qed.

Context (chainActive : CChain) {A : Type} (ops : AccountOps A) (prepare : ArtaxTransaction -> A -> A).
Context (executive : EnvInfo -> ArtaxTransaction -> A -> list Address -> vm_run A) (create_with_value : Z) (removeEmptyAccounts : EnvInfo -> bool).
Context (rootHash : A -> uint256) (rootHashUTXO : UTXOState -> uint256) (setRoot : uint256 -> uint256 -> @exec_state A -> @exec_state A) (emptyTrie : uint256).

Lemma check_contract_spends_fair l : forall c, fair (check_contract_spends usage c l).
Proof. induction l as [|j l IH]; intros c; cbn [check_contract_spends]; [done|]. destruct (negb _); [|done]. destruct (AccessCoin usage c (prevout j)). fair. Qed.

Lemma check_scripts_of_fair sigs execs checks threads just flags tx c reward : fair (check_scripts_of C Verify usage sigs execs checks threads just flags tx c reward).
Proof.
  unfold check_scripts_of. apply fair_bind; [fair|]. intros [r1 c1] _. cbv zeta. set (defer := if _ || _ then _ else _).
  pose proof (CheckInputs_fair sigs execs tx c1 checks flags just just (PrecomputedTransactionData_new C tx) defer) as Hx.
  destruct (CheckInputs _ _ _ _ _ _ _ _ _ _ _ _ _) as [[r c2] execs2]. apply fair_bind; [done|]. intros l _. apply fair_bind; [apply check_contract_spends_fair | done].
Qed.

Lemma connect_tx_fair e first tx (p : progress (B := B) (A := A)) :
  fair (connect_tx C Verify usage m params ops prepare executive create_with_value removeEmptyAccounts e first tx p).
Proof.
  unfold connect_tx, check_spending, add_values, run_contracts. pose proof check_scripts_of_fair as Hs. fair.
Qed.
Lemma connect_loop_fair e txs : forall first (p : progress (B := B) (A := A)),
  fair (connect_loop C Verify usage m params ops prepare executive create_with_value removeEmptyAccounts e first txs p).
Proof. induction txs as [|tx txs IH]; intros first p; cbn [connect_loop]; [done|]. apply fair_bind; [apply connect_tx_fair | intros; apply IH]. Qed.
Lemma Wait_fair sigs l : fair (Wait C Verify sigs l).
Proof. induction l as [|k l IH]; cbn [Wait]; [done|]. destruct (run_check C Verify sigs k) as [u|[]]; [| |done]; (apply fair_bind; [apply IH | done]). Qed.
Lemma check_overwrites_fair c b block : fair (fst (check_overwrites usage m params c b block)).
Proof. unfold check_overwrites. destruct (_ ≫= _); [|done]. cbv zeta. destruct (_ || _); [|done]. destruct (have_transactions _ _ _) as [have c1]. apply fair_reject. Qed.

(** How [ConnectBlock] fails: with a check that does not blame corruption, or by aborting *)
Definition fair_end {X} (r : result connect_failure X) : Prop :=
  match r with Err (Failed e) => forall level code reason, e <> BlockReject level code reason true | _ => True end.
Lemma fair_end_bind {X Y} (r : result connect_failure X) (f : X -> result connect_failure Y) : fair_end r -> (forall x, fair_end (f x)) -> fair_end (r ≫= f).
Proof. destruct r; [intros _ Hf; apply Hf | done]. Qed.
Lemma fair_lift {X} (r : bchecks X) : fair r -> fair_end (lift r).
Proof. intros Hr. destruct r as [|e]; [done|]. intros level code reason ->. by apply (Hr level code reason). Qed.

Lemma check_again_fair nd just maxSize limits_ block : fair_end (check_again C Verify params nd just maxSize limits_ block).
Proof.
  unfold check_again. apply fair_end_bind; [apply fair_lift, fair_reject | intros _]. apply fair_end_bind; [apply fair_lift, fair_reject | intros _].
  destruct (fChecked block); [done|]. destruct (check_block _ _ _ _ _ _ _ _ _) as [u|[level code reason []| | |]]; done.
Qed.

Lemma finish_block_fair nd e prev b db rs bits_ (p : progress (B := B) (A := A)) : fair (undo_written nd) ->
  fair_end (finish_block C Verify m chainActive params rootHash rootHashUTXO setRoot emptyTrie nd e prev b db rs bits_ p).
Proof.
  intros Hw. unfold finish_block. apply fair_end_bind; [apply fair_lift, fair_reject | intros _]. destruct (check_reward _ _ _ _ _ _ _ _ _ _ _) as [r rs1].
  apply fair_end_bind; [by destruct r | intros _]. apply fair_end_bind; [apply fair_lift, Wait_fair | intros ok]. apply fair_end_bind; [apply fair_lift, fair_reject | intros _].
  cbv zeta. apply fair_end_bind; [apply fair_lift, fair_reject | intros _]. destruct (fJustCheck e); [done|].
  apply fair_end_bind; [apply fair_lift; unfold update_supply; fair | intros b1]. apply fair_end_bind; [|intros b2].
  { apply fair_lift. unfold WriteUndoDataForBlock. destruct (_ =? _); [|done]. by apply fair_bind. }
  repeat (apply fair_end_bind; [apply fair_lift, fair_total | intros ?]). done.
Qed.

Lemma ConnectBlock_fair nd block pindex c db rs state bits_ execs : fair (undo_written nd) ->
  fair_end (ConnectBlock C Verify usage m chainActive params ops prepare executive create_with_value removeEmptyAccounts rootHash rootHashUTXO setRoot emptyTrie
    nd block pindex c false db rs state bits_ execs).
Proof.
  intros Hw. unfold ConnectBlock. apply fair_end_bind; [apply fair_lift, fair_total | intros b]. apply fair_end_bind; [apply fair_lift, fair_total | intros hash].
  apply fair_end_bind; [apply fair_lift; fair | intros _]. cbv zeta. apply fair_end_bind; [apply check_again_fair | intros _].
  apply fair_end_bind; [apply fair_lift, fair_total | intros prevHash]. destruct (GetBestBlock c) as [best c1].
  apply fair_end_bind; [apply fair_lift; fair | intros _]. destruct (base_blob_eq _ _); [done|].
  pose proof (UpdateHashProof_fair block b c1) as Hu. destruct (UpdateHashProof _ _ _ _ _ _ _ _) as [r c2]. apply fair_end_bind; [by apply fair_lift | intros proof].
  apply fair_end_bind; [apply fair_lift, fair_total | intros checks].
  pose proof (check_overwrites_fair c2 (set_hashProof b proof) block) as Ho. destruct (check_overwrites _ _ _ _ _ _) as [r3 c3]. apply fair_end_bind; [by apply fair_lift | intros _].
  apply fair_end_bind; [apply fair_lift, fair_total | intros [csv bits1]]. apply fair_end_bind; [apply fair_lift, fair_total | intros [flags bits2]].
  apply fair_end_bind; [apply fair_lift, fair_total | intros prev]. apply fair_end_bind; [apply fair_lift, connect_loop_fair | intros p]. by apply finish_block_fair.
Qed.
End Blame.

(** *** The entry of a block that is connected *)

Lemma set_hashProof_evolves b h : entry_evolves b (set_hashProof b h) /\ failed (set_hashProof b h) = failed b.
Proof. unfold entry_evolves, scripts_ok, has. destruct b; cbn. by split_and!. Qed.
Lemma set_nMoneySupply_evolves b v : entry_evolves b (set_nMoneySupply b v) /\ failed (set_nMoneySupply b v) = failed b.
Proof. unfold entry_evolves, scripts_ok, has. destruct b; cbn. by split_and!. Qed.
Lemma set_undo_evolves b pos : entry_evolves b (set_undo b pos) /\ failed (set_undo b pos) = failed b.
Proof.
  assert (forall f, Z.land BLOCK_HAVE_UNDO f = 0 -> has (set_undo b pos) f = has b f) as Hh.
  { intros f Hf. unfold has. destruct b; cbn. by rewrite Z.land_lor_distr_l, Hf, Z.lor_0_r. }
  split; [|by apply Hh]. split; [by destruct b|]. split; [by destruct b|]. split; [by destruct b|]. split; [by destruct b|]. split; [by apply Hh|].
  split; [intros f [-> | ->]; by rewrite Hh|].
  assert (Z.land (nStatus (set_undo b pos)) BLOCK_VALID_MASK = Z.land (nStatus b) BLOCK_VALID_MASK) as Ev by (destruct b; cbn; by rewrite Z.land_lor_distr_l, Z.lor_0_r).
  split; [unfold scripts_ok; rewrite Ev; by destruct b|]. split; [by rewrite Ev | by destruct b].
Qed.

Lemma raise_validity_evolves b b' : failed b = false -> raise_validity b = Some b' -> entry_evolves b b' /\ failed b' = false /\ scripts_ok b'.
Proof.
  intros Hf. unfold raise_validity, IsValid. change (negb (Z.land BLOCK_VALID_SCRIPTS (u32 (Z.lnot BLOCK_VALID_MASK)) =? 0)) with false. cbv iota.
  change (negb (Z.land (nStatus b) BLOCK_FAILED_MASK =? 0)) with (failed b). rewrite Hf. cbn [mbind option_bind].
  destruct (Z.leb_spec BLOCK_VALID_SCRIPTS (Z.land (nStatus b) BLOCK_VALID_MASK)) as [Hge|Hlt]; cbn [negb].
  { intros [= <-]. split; [apply entry_evolves_refl|]. split; [done | by right]. }
  unfold RaiseValidity. change (negb (Z.land BLOCK_VALID_SCRIPTS (u32 (Z.lnot BLOCK_VALID_MASK)) =? 0)) with false. cbv iota.
  change (negb (Z.land (nStatus b) BLOCK_FAILED_MASK =? 0)) with (failed b). rewrite Hf. apply Z.ltb_lt in Hlt as Hltb. rewrite Hltb. cbn [mbind option_bind]. intros [= <-].
  set (b1 := set_nStatus b _). assert (Z.land (nStatus b1) BLOCK_VALID_MASK = BLOCK_VALID_SCRIPTS) as Ev.
  { unfold b1. assert (forall z, nStatus (set_nStatus b z) = z) as -> by (by destruct b).
    rewrite Z.land_lor_distr_l, <- Z.land_assoc. change (Z.land (u32 (Z.lnot BLOCK_VALID_MASK)) BLOCK_VALID_MASK) with 0. by rewrite Z.land_0_r, Z.lor_0_l. }
  assert (scripts_ok b1) as Hs by (right; by rewrite Ev). assert (forall f, Z.land (u32 (Z.lnot BLOCK_VALID_MASK)) f = f -> Z.land BLOCK_VALID_SCRIPTS f = 0 -> has b1 f = has b f) as Hh
    by (intros f H1 H2; by apply has_raised).
  split; [|split; [by rewrite Hh | done]]. split; [apply skel_set_nStatus|]. split; [by destruct b|]. split; [by destruct b|]. split; [by destruct b|]. split; [by apply Hh|].
  split; [intros f [-> | ->]; by rewrite Hh|]. split; [done|]. split; [rewrite Ev; lia | by destruct b].
Qed.

Section Connected.
Context (C : Crypto) (Verify : bytes -> uint256 -> bytes -> bool) {B : Type} `{CoinsView B} (usage : Coin -> Z) (m : BlockMap) (params : Params).
Context (chainActive : CChain) {A : Type} (ops : AccountOps A) (prepare : ArtaxTransaction -> A -> A).
Context (executive : EnvInfo -> ArtaxTransaction -> A -> list Address -> vm_run A) (create_with_value : Z) (removeEmptyAccounts : EnvInfo -> bool).
Context (rootHash : A -> uint256) (rootHashUTXO : UTXOState -> uint256) (setRoot : uint256 -> uint256 -> @exec_state A -> @exec_state A) (emptyTrie : uint256).

Lemma finish_block_entry nd e prev b db rs bits_ (p : progress (B := B) (A := A)) cd : fJustCheck e = false -> failed b = false ->
  finish_block C Verify m chainActive params rootHash rootHashUTXO setRoot emptyTrie nd e prev b db rs bits_ p = Ok cd ->
  entry_evolves b (cd_index cd) /\ failed (cd_index cd) = false /\ scripts_ok (cd_index cd).
Proof.
  intros HJ Hf. unfold finish_block. intros Hx. go Hx. destruct (check_reward _ _ _ _ _ _ _ _ _ _ _) as [r' rs1]. go Hx. go Hx. go Hx. cbv zeta in Hx. go Hx. rewrite HJ in Hx.
  apply bind_ok in Hx as (b1 & Hb1%lift_ok & Hx). apply bind_ok in Hx as (b2 & Hb2%lift_ok & Hx). apply bind_ok in Hx as (b3 & Hb3%lift_ok%total_ok & Hx). go Hx. go Hx.
  injection Hx as <-. cbn [cd_index].
  assert (entry_evolves b b1 /\ failed b1 = failed b) as [V1 F1].
  { unfold update_supply in Hb1. apply bind_ok in Hb1 as (? & _ & [= <-]). apply set_nMoneySupply_evolves. }
  assert (entry_evolves b1 b2 /\ failed b2 = failed b1) as [V2 F2].
  { unfold WriteUndoDataForBlock in Hb2. destruct (_ =? _); [|injection Hb2 as <-; split; [apply entry_evolves_refl | done]]. apply bind_ok in Hb2 as (? & _ & [= <-]). apply set_undo_evolves. }
  destruct (raise_validity_evolves b2 b3) as (V3 & F3 & S3); [congruence | done|]. split; [|done]. by eapply entry_evolves_trans, V3; eapply entry_evolves_trans.
Qed.

Lemma ConnectBlock_entry nd block pindex c db rs state bits_ execs cd b : m !! pindex = Some b -> failed b = false ->
  ConnectBlock C Verify usage m chainActive params ops prepare executive create_with_value removeEmptyAccounts rootHash rootHashUTXO setRoot emptyTrie
    nd block pindex c false db rs state bits_ execs = Ok cd ->
  entry_evolves b (cd_index cd) /\ failed (cd_index cd) = false /\
  (base_blob_eq (Block_GetHash C block) (hashGenesisBlock params) = true \/ scripts_ok (cd_index cd)).
Proof.
  intros Hb Hf. unfold ConnectBlock. rewrite Hb. cbn [total lift mbind result_bind]. intros Hx. go Hx. go Hx. go Hx. go Hx. destruct (GetBestBlock c) as [best c1]. go Hx.
  destruct (base_blob_eq (Block_GetHash C block) _); [injection Hx as <-; cbn [cd_index]; split; [apply entry_evolves_refl|]; split; [done | by left]|].
  destruct (UpdateHashProof _ _ _ _ _ _ _ _) as [r' c2]. go Hx. go Hx. destruct (check_overwrites _ _ _ _ _ _) as [r'' c3]. go Hx. go Hx. go Hx. go Hx. cbv zeta in Hx.
  apply bind_ok in Hx as (p & _ & Hx). destruct (set_hashProof_evolves b r1) as [V F].
  apply finish_block_entry in Hx as (V1 & F1 & S1); [|done | congruence]. split; [by eapply entry_evolves_trans | auto].
Qed.
End Connected.

(** *** The operations of the node *)

(** A block is called invalid only when no corruption is possible. *)
Lemma invalid_fair {X} (r : result connect_failure X) e ok state : r = Err e -> fair_end r -> connect_report CValidationState_new (A := unit) (Err e) = Some (ok, state) ->
  is_Some (state_IsInvalid state) -> corruptionPossible state = false.
Proof.
  intros -> Hf. destruct e as [e|e|e]; cbn.
  - destruct e as [level code reason c|level reason| |]; cbn; [intros [= <- <-] _; cbn; destruct c; [by destruct (Hf level code reason) | done] | by intros [= <- <-] _ | |done].
    intros [= <- <-] [? [=]].
  - destruct e; cbn; try done; by intros [= <- <-] _.
  - destruct e; cbn; try done; intros [= <- <-] [? [=]].
Qed.

Section Interface.
Context (C : Crypto) (Verify : bytes -> uint256 -> bytes -> bool) {B : Type} `{CoinsView B} (usage : Coin -> Z) (params : Params).
Context {A : Type} (ops : AccountOps A) (prepare : ArtaxTransaction -> A -> A).
Context (executive : EnvInfo -> ArtaxTransaction -> A -> list Address -> vm_run A) (create_with_value : Z) (removeEmptyAccounts : EnvInfo -> bool).
Context (rootHash : A -> uint256) (rootHashUTXO : UTXOState -> uint256) (setRoot : uint256 -> uint256 -> @exec_state A -> @exec_state A) (emptyTrie : uint256).
Abbreviation world := (World (B := B) (A := A)).
Context (ReadBlockFromDisk : ptr -> option CBlock) (globals : BlockMap -> CChain -> world -> node) (dgpMaxBlockWeight : Z) (FlushStateToDisk : FlushStateMode -> world -> option world).

(** The node connects and disconnects blocks the way chains are activated with: what [ops_ok] asks
    for holds of [ConnectBlock], if writing undo data does not fail by blaming a corrupted block. *)
Theorem node_ops_ok : (forall m v s, fair (undo_written (globals m v s))) ->
  ops_ok (node_ops C Verify usage params ops prepare executive create_with_value removeEmptyAccounts rootHash rootHashUTXO setRoot emptyTrie
    ReadBlockFromDisk globals dgpMaxBlockWeight FlushStateToDisk).
Proof.
  intros Hw. assert (forall b, entry_evolves b b /\ failed b = failed b) as Hsame by (intros b; split; [apply entry_evolves_refl | done]).
  split; cbn [op_connect node_ops]; unfold connect_tip_block; intros m v p blk s s' b b'.
  - intros Hb Hf. rewrite Hb. destruct (match blk with Some _ => _ | None => _ end) as [block|]; [|done].
    destruct (ConnectBlock _ _ _ _ _ _ _ _ _ _ _ _ _ _ _ _ _ _ _ _ _ _ _ _) as [cd|e] eqn:Ec.
    2: { destruct (connect_report _ _) as [[ok state]|]; [|done]. by destruct (_ && _). }
    destruct (_ && _) eqn:Eg; [done|]. destruct (Flush _) as [[[] view]|]; [|done..]. intros [= <- <-].
    pose proof Ec as Hent. eapply ConnectBlock_entry in Hent as (V & F & S); [|exact Hb | exact Hf]. split; [done|]. split; [congruence|].
    destruct S as [S|S]; [|done]. rewrite S in Eg. cbn [andb] in Eg. apply negb_false_iff, Z.eqb_eq in Eg. left. destruct V as ((_ & _ & _ & E & _) & _). congruence.
  - intros c Hb. rewrite Hb. destruct (match blk with Some _ => _ | None => _ end) as [block|]; [|done].
    destruct (ConnectBlock _ _ _ _ _ _ _ _ _ _ _ _ _ _ _ _ _ _ _ _ _ _ _ _) as [cd|e] eqn:Ec.
    { destruct (_ && _); [done|]. by destruct (Flush _) as [[[] view]|]. }
    destruct (connect_report _ _) as [[ok state]|] eqn:Er; [|done]. destruct (_ && _) eqn:Ei; [|done]. intros [= <- <- <-].
    apply andb_true_iff in Ei as [Hi%bool_decide_eq_true Hh%negb_true_iff%Z.eqb_neq]. destruct (Hsame b). split; [done|]. split; [done|]. split; [done|].
    apply (invalid_fair _ e ok state Ec); [|done | done]. apply ConnectBlock_fair, Hw.
  - intros Hb. rewrite Hb. destruct (match blk with Some _ => _ | None => _ end) as [block|]; [|by intros [= <- <-]].
    destruct (ConnectBlock _ _ _ _ _ _ _ _ _ _ _ _ _ _ _ _ _ _ _ _ _ _ _ _) as [cd|e].
    + destruct (_ && _); [by intros [= <- <-]|]. destruct (Flush _) as [[[] view]|]; try done; by intros [= <- <-].
    + destruct (connect_report _ _) as [[ok state]|]; [|by intros [= <- <-]]. destruct (_ && _); [done | by intros [= <- <-]].
Qed.
End Interface.

(** *** A block that the node connects and disconnects *)

Definition sample_world : World (B := DBView) (A := list Address) :=
  mk_World (cache_new connect_db) ∅ ∅ (mk_exec_state (mk_UTXOState ∅ ∅) [] []) VersionBitsCache_Clear no_cache ∅.
Definition sample_node_ops : BlockOps World :=
  node_ops toy_crypto sample_curve no_usage CMainParams list_accounts (fun _ a => a)
    (fun _ _ a d => mk_vm_run a d (Threw 0)) 0 (fun _ => false) (fun _ => uint256_SetNull) (fun _ => uint256_SetNull) (fun _ _ s => s) uint256_SetNull
    (fun p => if decide (p = connect_index) then Some connect_block else None) (fun _ _ _ => connect_node) 8000000 (fun _ s => Some s).

Example sample_node_ops_ok : ops_ok sample_node_ops.
Proof. apply node_ops_ok. intros m v s. done. Qed.

(** The coin that the block spends is gone and then there again. *)
Example sample_block_connected :
  match op_connect sample_node_ops connect_map [Some connect_prev] connect_index None sample_world with
  | BlockConnected s b =>
      let '(ok, s') := op_disconnect sample_node_ops (<[connect_index := b]> connect_map) [Some connect_prev; Some connect_index] connect_index s in
      (BLOCK_VALID_SCRIPTS <=? Z.land (nStatus b) BLOCK_VALID_MASK) && negb (fst (HaveCoin no_usage (pcoinsTip s) (sample_outpoint 0))) && ok &&
      fst (HaveCoin no_usage (pcoinsTip s') (sample_outpoint 0))
  | _ => false
  end = true.
Proof. vm_compute. reflexivity. Qed.
