(* ===== verification/Accept.v ===== *)
(** * Accepting headers and blocks ([AcceptBlockHeader], [AcceptBlock], [ProcessNewBlock] and what
    they call in [src/validation.cpp]; [src/checkpoints.cpp])

    What the node does with a header or a block it is given: the rules a header has to obey where it
    is in the tree, checkpoints, the marks on descendants of failed blocks, the choice of which
    blocks are worth storing, the checks of the block, its place on disk, and activating the best
    chain.  It puts together the tree, the files, the checks and the activation of the other files.

    Parameters: the time, whether checkpoints are enabled and which there are, the least work of a
    chain, the sizes in force, and whether writing a block works.  Not modelled: notifications, and
    [CheckBlockIndex], a self-test that is off by default.

    Theorems: a new header is accepted exactly when it obeys the rules; accepting headers and blocks
    always answers and keeps the invariants of the tree, the chain and the files; and after a
    block has been processed the best chain is active. *)

From Stdlib Require Import String.
From stdpp Require Import gmap sorting.
From S2P Require Import Prelude Serialize ArithUint256 Script SigEncoding Interpreter Transaction Block Merkle Chain MedianTime Coins Pow VersionBits TxVerify CheckBlock ScriptChecks Connect Activation ChainInvariant ChainSteps BlockFiles.
Open Scope Z_scope.

Abbreviation length := Datatypes.length (only parsing).

(** ** Definitions *)

Definition REJECT_OBSOLETE : Z := 0x11.
Definition REJECT_CHECKPOINT : Z := 0x43.

(** [strprintf("%08x", n)] of a 32-bit integer *)
Definition hex_digit (d : Z) : Ascii.ascii := Ascii.ascii_of_nat (Z.to_nat (if d <? 10 then 48 + d else 87 + d)).
Fixpoint hex_digits (k : nat) (n : Z) : string :=
  match k with O => String.EmptyString | S k => String.String (hex_digit (Z.land (Z.shiftr n (4 * Z.of_nat k)) 15)) (hex_digits k n) end.
Definition hex8 (n : Z) : string := hex_digits 8 (u32 n).

(** *** Checkpoints ([checkpoints.cpp]) *)

Definition nCheckpointSpan : Z := 500.

(** The first of the hashes that is in the index *)
Fixpoint first_known (m : BlockMap) (l : list (Z * uint256)) : option ptr :=
  match l with [] => None | (_, hash) :: l => if decide (is_Some (m !! hash)) then Some hash else first_known m l end.
(** The map of checkpoints is a list in the order of the heights. *)
Definition GetLastCheckpoint (m : BlockMap) (mapCheckpoints : list (Z * uint256)) : option ptr := first_known m (rev mapCheckpoints).

Fixpoint sync_walk (fuel : nat) (m : BlockMap) (pindex : ptr) (best : Z) : option ptr :=
  b ← m !! pindex;
  match pprev b with
  | Some q => if best <? i32 (nHeight b + nCheckpointSpan) then match fuel with O => None | S fuel => sync_walk fuel m q best end else Some pindex
  | None => Some pindex
  end.
(** [None]: there is no tip *)
Definition AutoSelectSyncCheckpoint (st : CChainState) : option ptr :=
  t ← Tip (chainActive st); b ← cs_map st !! t; sync_walk (path_fuel (cs_map st) t) (cs_map st) t (nHeight b).

Definition CheckSync (st : CChainState) (height : Z) : option bool :=
  if height =? 0 then Some true
  else p ← AutoSelectSyncCheckpoint st; b ← cs_map st !! p; Some (negb (height <=? nHeight b)).

(** *** State *)

Record NodeState : Type := mk_NodeState {
  ns_chain : CChainState;
  ns_files : FileState;
  ns_bits : VersionBitsCache }.

Definition set_chain (n : NodeState) (st : CChainState) : NodeState := mk_NodeState st (ns_files n) (ns_bits n).
Definition set_checked (block : CBlock) (f : bool) : CBlock := mk_CBlock (block_header block) (vtx block) f.

Section Accept.
Context (C : Crypto).
Context (Verify : bytes -> uint256 -> bytes -> bool) (params : Params).
Context (fCheckpointsEnabled : bool) (mapCheckpoints : list (Z * uint256)).
(** [GetAdjustedTime()] *)
Context (nAdjustedTime : Z).
Context (addr : ptr -> Z).

(** *** Headers *)

Definition IsCanonicalBlockSignature (block : CBlockHeader) (checkLowS : bool) : bool :=
  if header_IsProofOfWork block then bool_decide (vchBlockSig block = [])
  else is_ok (if checkLowS then IsLowDERSignature (CheckLowS C) (vchBlockSig block) false else IsDERSignature (vchBlockSig block) false).
Definition CheckCanonicalBlockSignature (block : CBlockHeader) : bool :=
  let ret := IsCanonicalBlockSignature block false in
  if ret then IsCanonicalBlockSignature block true else ret.

Definition old_version (block : CBlockHeader) (height : Z) : bool :=
  ((hdr_nVersion block <? 2) && (BIP34Height params <=? height)) ||
  ((hdr_nVersion block <? 3) && (BIP66Height params <=? height)) ||
  ((hdr_nVersion block <? 4) && (BIP65Height params <=? height)).

Definition ContextualCheckBlockHeader (st : CChainState) (block : CBlockHeader) (pindexPrev : ptr) : bchecks unit :=
  let m := cs_map st in
  b ← total (m !! pindexPrev);
  let height := i32 (nHeight b + 1) in
  required ← total (GetNextWorkRequired m (Some pindexPrev) block params (header_IsProofOfStake block));
  _ ← reject_if (negb (nBits block =? required)) 100 "bad-diffbits"%string false;
  _ ← (if fCheckpointsEnabled then
         match GetLastCheckpoint m mapCheckpoints with
         | None => Ok tt
         | Some pcheckpoint =>
             c ← total (m !! pcheckpoint);
             if height <? nHeight c then Err (BlockReject 100 REJECT_CHECKPOINT "bad-fork-prior-to-checkpoint"%string false) else Ok tt
         end
       else Ok tt);
  sync ← total (CheckSync st height);
  _ ← (if negb sync then Err (BlockReject 1 REJECT_CHECKPOINT "bad-fork-prior-to-synch-checkpoint"%string false) else Ok tt);
  old ← (if header_IsProofOfStake block then t ← total (GetMedianTimePast m pindexPrev); Ok (header_GetBlockTime block <=? t) else Ok false);
  _ ← reject_if old 0 "time-too-old"%string false;
  _ ← reject_if (header_IsProofOfStake block && (FutureDrift nAdjustedTime <? header_GetBlockTime block)) 0 "time-too-new"%string false;
  if old_version block height
  then Err (BlockReject 0 REJECT_OBSOLETE (String.append "bad-version(0x" (String.append (hex8 (hdr_nVersion block)) ")"))%string false)
  else Ok tt.

(** The checks up to the walk over failed blocks; the key of the predecessor *)
Definition check_header (st : CChainState) (block : CBlockHeader) : bchecks ptr :=
  _ ← match Tip (chainActive st) with
      | None => Ok tt
      | Some t =>
          if bool_decide (hashPrevBlock block = t) then Ok tt
          else
            pcheckpoint ← total (AutoSelectSyncCheckpoint st);
            c ← total (cs_map st !! pcheckpoint);
            reject_if (header_GetBlockTime block - bi_nTime c <? 0) 1 "older-than-checkpoint"%string false
      end;
  _ ← reject_if (negb (CheckCanonicalBlockSignature block)) 100 "bad-signature-encoding"%string false;
  match cs_map st !! hashPrevBlock block with
  | None => Err (BlockReject 10 0 "prev-blk-not-found"%string false)
  | Some b =>
      _ ← reject_if (has b BLOCK_FAILED_MASK) 100 "bad-prevblk"%string false;
      _ ← ContextualCheckBlockHeader st block (hashPrevBlock block);
      Ok (hashPrevBlock block)
  end.

(** [m_failed_blocks] is ordered by address. *)
Definition addr_le (p q : ptr) : Prop := addr p <= addr q.
#[local] Instance addr_le_dec : RelDecision addr_le := fun p q => Z_le_dec (addr p) (addr q).
Definition by_address (s : gset (list Z)) : list ptr := merge_sort addr_le (elements s).

(** The first of the failed blocks that is an ancestor of [pindexPrev]; [None]: the assertion fails *)
Fixpoint find_failed (m : BlockMap) (pindexPrev : ptr) (l : list ptr) : option (option ptr) :=
  match l with
  | [] => Some None
  | failedit :: l =>
      b ← m !! failedit;
      a ← GetAncestor m pindexPrev (nHeight b);
      if bool_decide (a = Some failedit) then (if has b BLOCK_FAILED_VALID then Some (Some failedit) else None)
      else find_failed m pindexPrev l
  end.

Fixpoint mark_walk (fuel : nat) (st : CChainState) (invalid_walk failedit : ptr) : option CChainState :=
  if bool_decide (invalid_walk = failedit) then Some st
  else match fuel with
  | O => None
  | S fuel =>
      b ← cs_map st !! invalid_walk;
      st ← add_status st invalid_walk BLOCK_FAILED_CHILD;
      q ← pprev b;
      mark_walk fuel (set_dirty st invalid_walk) q failedit
  end.

(** [Some]: a block above [pindexPrev] has failed, and those in between have been marked. *)
Definition mark_failed (st : CChainState) (pindexPrev : ptr) : option (option CChainState) :=
  b ← cs_map st !! pindexPrev;
  v ← IsValid b BLOCK_VALID_SCRIPTS;
  if (v : bool) then Some None
  else
    f ← find_failed (cs_map st) pindexPrev (by_address (m_failed_blocks st));
    match f with
    | None => Some None
    | Some failedit => st ← mark_walk (path_fuel (cs_map st) pindexPrev) st pindexPrev failedit; Some (Some st)
    end.

(** The checks after it *)
Definition check_proof (m : BlockMap) (block : CBlockHeader) (pindexPrev : ptr) : bchecks unit :=
  b ← total (m !! pindexPrev);
  let height := i32 (nHeight b + 1) in
  _ ← reject_if (header_IsProofOfWork block && (nLastPOWBlock params <? height)) 100 "reject-pow"%string false;
  _ ← (if header_IsProofOfStake block then
         _ ← reject_if (height <? COINBASE_MATURITY) 100 "reject-pos"%string false;
         reject_if (negb (CheckCoinStakeTimestamp (nTime block))) 100 "timestamp-invalid"%string false
       else Ok tt);
  CheckBlockHeader C params block true.

Definition add_header (st : CChainState) (block : CBlockHeader) : bchecks ptr * CChainState :=
  match AddToBlockIndex C (cs_index st) block with
  | Some (i, p) => (Ok p, set_index st i)
  | None => (Err BlockAbort, st)
  end.

Definition AcceptBlockHeader (st : CChainState) (block : CBlockHeader) : bchecks ptr * CChainState :=
  let hash := Block_GetHash C block in
  if bool_decide (hash = hashGenesisBlock params) then add_header st block
  else
    match cs_map st !! hash with
    | Some b => (if has b BLOCK_FAILED_MASK then Err (BlockReject 0 0 "duplicate"%string false) else Ok hash, st)
    | None =>
        match check_header st block with
        | Err e => (Err e, st)
        | Ok pindexPrev =>
            match mark_failed st pindexPrev with
            | None => (Err BlockAbort, st)
            | Some (Some st) => (Err (BlockReject 100 REJECT_INVALID "bad-prevblk"%string false), st)
            | Some None =>
                match check_proof (cs_map st) block pindexPrev with
                | Err e => (Err e, st)
                | Ok _ => add_header st block
                end
            end
        end
    end.

(** The outcome with the state, the header that was not accepted, and the last and first entries *)
Fixpoint process_headers (st : CChainState) (state : CValidationState) (headers : list CBlockHeader) (last first : option ptr)
  : option (bool * CValidationState * CChainState * option CBlockHeader * option ptr * option ptr) :=
  match headers with
  | [] => Some (true, state, st, None, last, first)
  | header :: headers =>
      let '(r, st) := AcceptBlockHeader st header in
      '(ok, state) ← block_report state r;
      match r with
      | Ok p => process_headers st state headers (Some p) (match first with None => Some p | _ => first end)
      | Err _ => Some (ok, state, st, Some header, last, first)
      end
  end.
Definition ProcessNewBlockHeaders (st : CChainState) (state : CValidationState) (headers : list CBlockHeader) := process_headers st state headers None None.

(** *** Proofs of headers *)

Section Coins.
Context {B : Type} `{CoinsView B} (usage : Coin -> Z).

(** With the view of the coins of the tip *)
Definition CheckHeaderPoS (m : BlockMap) (block : CBlockHeader) (view : CCoinsViewCache B) : option (bool * CCoinsViewCache B) :=
  match m !! hashPrevBlock block with
  | None => Some (false, view)
  | Some _ => CheckKernel C usage m (hashPrevBlock block) (nBits block) (StakeTime block) (prevoutStake block) view
  end.
Definition CheckHeaderProof (m : BlockMap) (block : CBlockHeader) (view : CCoinsViewCache B) : option (bool * CCoinsViewCache B) :=
  if header_IsProofOfWork block then Some (CheckHeaderPoW C params block, view)
  else if header_IsProofOfStake block then CheckHeaderPoS m block view
  else Some (false, view).

Definition CheckIndexProof (b : CBlockIndex) : option bool :=
  if IsProofOfStake b then Some true
  else hash ← phashBlock b; Some (CheckProofOfWork hash (bi_nBits b) params false).

(** Whether the proof of stake of a header could be checked; [None]: a null pointer is followed *)
Fixpoint tip_within (n : nat) (m : BlockMap) (tip prev : option ptr) : option bool :=
  match n with
  | O => Some false
  | S n => if bool_decide (prev = tip) then Some true else p ← prev; b ← m !! p; tip_within n m tip (pprev b)
  end.
Definition CheckPOS (st : CChainState) (IsInitialBlockDownload : bool) (block : CBlockHeader) (pindexPrev : ptr) : option bool :=
  b ← cs_map st !! pindexPrev;
  let diff := i32 (nHeight b + 1 - Height (chainActive st)) in
  if header_IsProofOfStake block && negb IsInitialBlockDownload && (diff <? COINBASE_MATURITY) then
    if diff <? - COINBASE_MATURITY then Some true
    else tip_within (Z.to_nat COINBASE_MATURITY) (cs_map st) (Tip (chainActive st)) (Some pindexPrev)
  else Some false.

(** *** Blocks *)

(** [UpdateHashProof] in [AcceptBlock]; the coins are not looked at for a proof of work. *)
Definition record_proof (st : CChainState) (block : CBlock) (pindex : ptr) (view : CCoinsViewCache B) : bchecks CChainState :=
  if header_IsProofOfWork block then
    b ← total (cs_map st !! pindex);
    hash ← fst (UpdateHashProof C Verify usage (cs_map st) params block b view);
    Ok (set_entry st pindex (set_hashProof b hash))
  else Ok st.

Definition height_in_coinbase (block : CBlock) (height : Z) : bchecks unit :=
  if BIP34Height params <=? height then
    match first_tx block with
    | None => Err BlockAbort
    | Some cb =>
        match vin cb with
        | [] => Err BlockAbort
        | i :: _ => if bool_decide (push_int64 height `prefix_of` scriptSig i) then Ok tt else Err (unexplained 100)
        end
    end
  else Ok tt.

(** The checks between the header and the choice whether to go on *)
Definition check_position (st : CChainState) (block : CBlock) (b : CBlockIndex) : bchecks unit :=
  let m := cs_map st in
  prev ← (if 0 <? nHeight b then match m !! hashPrevBlock block with None => Err (unexplained 10) | Some c => Ok (Some c) end else Ok None);
  _ ← (if header_IsProofOfWork block && (nLastPOWBlock params <? nHeight b) then Err (unexplained 100) else Ok tt);
  sync ← total (CheckSync st (nHeight b));
  _ ← (if negb sync then Err PlainError else Ok tt);
  _ ← match prev with
      | None => Ok tt
      | Some c =>
          if header_IsProofOfStake block && ((header_GetBlockTime block <=? GetBlockTime c) || (FutureDrift (header_GetBlockTime block) <? GetBlockTime c))
          then Err PlainError else Ok tt
      end;
  _ ← (if header_IsProofOfStake block && (FutureDrift nAdjustedTime <? header_GetBlockTime block) then Err PlainError else Ok tt);
  height_in_coinbase block (nHeight b).

(** Whether the block is to be processed *)
Definition wanted (nMinimumChainWork : base_uint) (st : CChainState) (b : CBlockIndex) (fRequested : bool) : option bool :=
  fHasMoreWork ← match Tip (chainActive st) with None => Some true | Some t => bt ← cs_map st !! t; Some (ltb (nChainWork bt) (nChainWork b)) end;
  let fTooFarAhead := i32 (u32 (Height (chainActive st) + MIN_BLOCKS_TO_KEEP)) <? nHeight b in
  Some (negb (has b BLOCK_HAVE_DATA) &&
        (fRequested || ((nTx b =? 0) && fHasMoreWork && negb fTooFarAhead && negb (ltb (nChainWork b) nMinimumChainWork)))).
End Coins.

(** *** Storing and activating *)

Definition CLIENT_VERSION : Z := 1000000 * 1 + 10000 * 1 + 100 * 0 + 1 * 0.

Context (fPruneMode : bool) (CheckDiskSpace : Z -> bool).
(** Whether [WriteBlockToDisk] works; the block comes after the network's magic number and its size. *)
Context (write_block : CBlock -> CDiskBlockPos -> bool).

Definition SaveBlockToDisk (files : FileState) (block : CBlock) (height : Z) (dbp : option CDiskBlockPos) : option (CDiskBlockPos * FileState) :=
  let nBlockSize := u32 (vsize (CBlock_Serialize SER_DISK CLIENT_VERSION block)) in
  let known := bool_decide (is_Some dbp) in
  '(ok, blockPos, files) ← FindBlockPos fPruneMode CheckDiskSpace files (default CDiskBlockPos_SetNull dbp) (u32 (nBlockSize + 8)) height (header_GetBlockTime block) known;
  if negb ok then Some (CDiskBlockPos_SetNull, files)
  else if known then Some (blockPos, files)
  else if write_block block blockPos then Some ((fst blockPos, u32 (snd blockPos + 8)), files)
  else Some (CDiskBlockPos_SetNull, files).

Context {B : Type} `{CoinsView B} (usage : Coin -> Z).
Context {W : Type} (ops : BlockOps W) (ShutdownRequested : nat -> bool).
Context (limits : BlockSizeParams) (nMinimumChainWork : base_uint).

(** What [AcceptBlock] leaves: the value returned, [state], [*fNewBlock], the block with its flag
    [fChecked], and the state of the node and of coins and files *)
Record accepted : Type := mk_accepted {
  ac_ok : bool;
  ac_state : CValidationState;
  ac_new : bool;
  ac_block : CBlock;
  ac_node : NodeState;
  ac_world : W }.

Definition refused (n : NodeState) (block : CBlock) (state : CValidationState) (s : W) (e : block_failure) : option accepted :=
  '(ok, state) ← block_report (A := unit) state (Err e); Some (mk_accepted ok state false block n s).

(** [CheckBlock] and then [ContextualCheckBlock] *)
Definition check_contents (n : NodeState) (block : CBlock) (state : CValidationState) (b : CBlockIndex)
  : option (bool * CValidationState * CBlock * VersionBitsCache) :=
  let '(r, checked) := CheckBlock C Verify params limits nAdjustedTime block state true true true in
  let block := set_checked block checked in
  '(ok, state) ← r;
  if (ok : bool) then
    '(ok, state, bits) ← ContextualCheckBlock C params (cs_map (ns_chain n)) block state (pprev b) (ns_bits n);
    Some (ok, state, block, bits)
  else Some (false, state, block, ns_bits n).

(** After a check failed: the block itself is to blame unless it could just be corrupted. *)
Definition blame (st : CChainState) (p : ptr) (state : CValidationState) : option CChainState :=
  if bool_decide (is_Some (state_IsInvalid state)) && negb (corruptionPossible state)
  then st ← add_status st p BLOCK_FAILED_VALID; Some (set_dirty st p)
  else Some st.

(** The block is stored and its transactions are received. *)
Definition store_block (n : NodeState) (block : CBlock) (p : ptr) (b : CBlockIndex) (dbp : option CDiskBlockPos) : option (option NodeState * FileState) :=
  '(blockPos, files) ← SaveBlockToDisk (ns_files n) block (nHeight b) dbp;
  if fst blockPos =? -1 then Some (None, files)
  else
    '(enabled, bits) ← IsWitnessEnabled params (cs_map (ns_chain n)) (pprev b) (ns_bits n);
    st ← ReceivedBlockTransactions addr enabled (ns_chain n) block p blockPos;
    Some (Some (mk_NodeState st files bits), files).

Definition AcceptBlock (n : NodeState) (block : CBlock) (state : CValidationState) (fRequested : bool) (dbp : option CDiskBlockPos)
  (view : CCoinsViewCache B) (s : W) : option accepted :=
  let '(r, st) := AcceptBlockHeader (ns_chain n) block in
  let n := set_chain n st in
  match (pindex ← r; st ← record_proof usage st block pindex view; b ← total (cs_map st !! pindex); Ok (pindex, st, b)) with
  | Err e => refused n block state s e
  | Ok (pindex, st, b) =>
      let n := set_chain n st in
      match check_position st block b with
      | Err e => refused n block state s e
      | Ok _ =>
          process ← wanted nMinimumChainWork st b fRequested;
          if negb process then Some (mk_accepted true state false block n s)
          else
            '(ok, state, block, bits) ← check_contents n block state b;
            let n := mk_NodeState st (ns_files n) bits in
            if negb ok then st ← blame st pindex state; Some (mk_accepted false state false block (set_chain n st) s)
            else
              '(stored, files) ← store_block n block pindex b dbp;
              match stored with
              | None => Some (mk_accepted false (Error state "AcceptBlock: Failed to find position to write new block to disk"%string) true block
                                (mk_NodeState st files bits) s)
              | Some n => Some (mk_accepted true state true block n (default s (op_flush ops FLUSH_NONE s)))
              end
      end
  end.

(** The value returned, [*fNewBlock], and what is left; the state that [ActivateBestChain] reports
    in is ignored. *)
Definition ProcessNewBlock (n : NodeState) (block : CBlock) (fForceProcessing : bool) (view : CCoinsViewCache B) (s : W)
  : option (bool * bool * NodeState * W) :=
  let '(r, checked) := CheckBlock C Verify params limits nAdjustedTime block CValidationState_new true true true in
  let block := set_checked block checked in
  '(ok, state) ← r;
  if negb ok then Some (false, false, n, s)
  else
    a ← AcceptBlock n block state fForceProcessing None view s;
    if negb (ac_ok a) then Some (false, ac_new a, ac_node a, ac_world a)
    else
      '(ok, st, s) ← ActivateBestChain C addr ops ShutdownRequested (ns_chain (ac_node a)) (Some (ac_block a)) (ac_world a);
      Some (ok, ac_new a, set_chain (ac_node a) st, s).

(** [chainparams.GenesisBlock()] is the argument [block]. *)
Definition LoadGenesisBlock (n : NodeState) (block : CBlock) : option (bool * NodeState) :=
  let st := ns_chain n in
  if decide (is_Some (cs_map st !! Block_GetHash C block)) then Some (true, n)
  else
    '(blockPos, files) ← SaveBlockToDisk (ns_files n) block 0 None;
    if fst blockPos =? -1 then Some (false, mk_NodeState st files (ns_bits n))
    else
      '(i, p) ← AddToBlockIndex C (cs_index st) block;
      let st := set_index st i in
      b ← cs_map st !! p;
      let st := set_entry st p (set_hashProof b (hashGenesisBlock params)) in
      '(enabled, bits) ← IsWitnessEnabled params (cs_map st) (pprev b) (ns_bits n);
      st ← ReceivedBlockTransactions addr enabled st block p blockPos;
      Some (true, mk_NodeState st files bits).
End Accept.

(** ** Theorems *)

(** *** Sequences of checks *)

(** The checks do not abort, and let exactly what satisfies [P] pass. *)
Definition decides {A} (r : bchecks A) (P : Prop) : Prop := r <> Err BlockAbort /\ ((exists a, r = Ok a) <-> P).

Lemma decides_ok {A} (a : A) : decides (Ok a) True.
Proof. split; [done|]. by split; [|exists a]. Qed.
Lemma decides_err {A} e (P : Prop) : e <> BlockAbort -> ~ P -> decides (A := A) (Err e) P.
Proof. intros He Hp. split; [congruence|]. split; [by intros [a [=]] | done]. Qed.
#[export] Instance decides_proper {A} (r : bchecks A) : Proper (iff ==> iff) (decides r).
Proof. intros P Q E. unfold decides. by rewrite E. Qed.
Lemma decides_iff {A} (r : bchecks A) (P Q : Prop) : (P <-> Q) -> decides r P -> decides r Q.
Proof. by intros <-. Qed.
Lemma decides_bind {A D} (r : bchecks A) (f : A -> bchecks D) (P Q : Prop) :
  decides r P -> (forall a, r = Ok a -> P -> decides (f a) Q) -> decides (r ≫= f) (P /\ Q).
Proof.
  intros [H1 H2] Hf. destruct r as [a|e]; cbn [mbind result_bind].
  - assert P as Hp by (apply H2; by exists a). destruct (Hf a eq_refl Hp) as [F1 F2]. split; [done|]. rewrite F2. tauto.
  - split; [congruence|]. split; [by intros [a [=]]|]. intros [Hp _]. apply H2 in Hp as [a [=]].
Qed.
Lemma decides_total {A D} (o : option A) (f : A -> bchecks D) a (Q : Prop) : o = Some a -> decides (f a) Q -> decides (total o ≫= f) Q.
Proof. by intros ->. Qed.
Lemma decides_reject b level reason c (P : Prop) : (b = false <-> P) -> decides (reject_if b level reason c) P.
Proof.
  intros <-. destruct b; cbn; [apply decides_err; [done | by intros [=]]|]. apply (decides_iff _ True); [by split | apply decides_ok].
Qed.
Lemma decides_guard b e (P : Prop) : e <> BlockAbort -> (b = false <-> P) -> decides (A := unit) (if b then Err e else Ok tt) P.
Proof. intros He <-. destruct b; [by apply decides_err|]. apply (decides_iff _ True); [by split | apply decides_ok]. Qed.

(** *** The synchronised checkpoint *)

(** Its height *)
Definition sync_height (h : Z) : Z := Z.max 0 (h - nCheckpointSpan).

Lemma sync_walk_spec m best fuel : index_ok m -> 0 <= best -> (forall q c, m !! q = Some c -> nHeight c + nCheckpointSpan < 2 ^ 31) ->
  forall p b, m !! p = Some b -> sync_height best <= nHeight b -> nHeight b <= Z.of_nat fuel ->
  exists q, sync_walk fuel m p best = Some q /\ ancestor m p (sync_height best) = Some q.
Proof.
  intros Hm Hbest Hr. unfold sync_height, nCheckpointSpan in *. induction fuel as [|fuel IH]; intros p b Hp Hh Hf; cbn [sync_walk]; rewrite Hp; cbn [mbind option_bind];
    pose proof (height_range m Hm p b Hp); pose proof (Hr p b Hp); unfold nCheckpointSpan; rewrite i32_id by lia; destruct (pprev b) as [q|] eqn:Eq.
  - destruct (prev_entry m Hm p b q Hp Eq) as (c & Hc & Ec). pose proof (height_range m Hm q c Hc). lia.
  - exists p. split; [done|]. replace (Z.max 0 (best - 500)) with (nHeight b) by lia. by apply ancestor_self with (b := b).
  - destruct (prev_entry m Hm p b q Hp Eq) as (c & Hc & Ec). pose proof (height_range m Hm q c Hc). destruct (Z.ltb_spec best (nHeight b + 500)).
    + destruct (IH q c Hc) as (r & Er & Ha); [lia | lia|]. exists r. split; [done|]. rewrite <- Ha. symmetry.
      apply (ancestor_trans m Hm p b q (nHeight c)); [done | | lia]. rewrite (ancestor_at m p b) by (done || lia).
      replace (Z.to_nat (nHeight b - nHeight c)) with 1%nat by lia. by rewrite (up_pprev m 0 p b q).
    + exists p. split; [done|]. replace (Z.max 0 (best - 500)) with (nHeight b) by lia. by apply ancestor_self with (b := b).
  - exists p. split; [done|]. destruct (Z.eq_dec (nHeight b) 0) as [E|Hn].
    + replace (Z.max 0 (best - 500)) with (nHeight b) by lia. by apply ancestor_self with (b := b).
    + destruct (has_prev m Hm p b Hp ltac:(lia)) as [x Hx]. congruence.
Qed.

Section SyncCheckpoint.
Context (st : CChainState) (t : ptr) (bt : CBlockIndex) (R : ready st) (Ht : Tip (chainActive st) = Some t) (Hbt : cs_map st !! t = Some bt).
Context (Hroom : forall q c, cs_map st !! q = Some c -> nHeight c + nCheckpointSpan < 2 ^ 31).

Lemma AutoSelectSyncCheckpoint_spec : exists q c, AutoSelectSyncCheckpoint st = Some q /\ cs_map st !! q = Some c /\ nHeight c = sync_height (nHeight bt) /\
  chain_at (chainActive st) (sync_height (nHeight bt)) = Some q.
Proof.
  pose proof (r_index st R) as Hm. pose proof (height_range _ Hm t bt Hbt) as Hh. unfold AutoSelectSyncCheckpoint. rewrite Ht. cbn [mbind option_bind]. rewrite Hbt.
  cbn [mbind option_bind]. assert (sync_height (nHeight bt) <= nHeight bt) as Hs by (unfold sync_height, nCheckpointSpan; lia).
  destruct (sync_walk_spec (cs_map st) (nHeight bt) (path_fuel (cs_map st) t) Hm ltac:(lia) Hroom t bt Hbt Hs) as (q & E & Ha); [unfold path_fuel; rewrite Hbt; lia|].
  destruct (ancestor_inv _ Hm t bt _ q Hbt Ha) as (_ & c & Hc & Ec). exists q, c. split; [done|]. split; [done|]. split; [done|].
  destruct (tip_chain st t R Ht) as (b' & Hb' & Hv & Hat). assert (b' = bt) as -> by congruence. rewrite Hat; [done|]. unfold sync_height, nCheckpointSpan in *. lia.
Qed.

Lemma CheckSync_spec h : 0 < h -> CheckSync st h = Some (sync_height (nHeight bt) <? h).
Proof.
  intros Hh. unfold CheckSync. destruct (Z.eqb_spec h 0); [lia|]. destruct AutoSelectSyncCheckpoint_spec as (q & c & -> & Hc & Ec & _). cbn [mbind option_bind].
  rewrite Hc. cbn [mbind option_bind]. rewrite Ec. f_equal. destruct (Z.leb_spec h (sync_height (nHeight bt))), (Z.ltb_spec (sync_height (nHeight bt)) h); done || lia.
Qed.
End SyncCheckpoint.

(** *** The rules for headers *)

(** What is relied on of the tree when a header comes *)
Record tree_ok (params : Params) (addr : ptr -> Z) (st : CChainState) : Prop := {
  to_state : chain_state_ok addr st;
  to_targets : forall f, targets_ok params f (cs_map st);
  to_root : forall p b, cs_map st !! p = Some b -> pprev b = None -> p = hashGenesisBlock params;
  to_tip : Tip (chainActive st) <> None }.

(** Parameters of a network whose targets are bounded and in which every block has the target
    computed for it *)
Definition network_ok (params : Params) : Prop := (forall f, params_ok params f) /\ fPowAllowMinDifficultyBlocks params = false.

Definition header_fits (block : CBlockHeader) : Prop := in_u 32 (nTime block) /\ in_u 32 (nBits block).

(** Heights and work stay within their types. *)
Definition header_room (st : CChainState) (block : CBlockHeader) : Prop :=
  (forall p b, cs_map st !! p = Some b -> nHeight b + nCheckpointSpan < 2 ^ 31) /\
  (forall c, cs_map st !! hashPrevBlock block = Some c -> val (nChainWork c) + 2 ^ 256 / (compact_value (nBits block) + 1) < 2 ^ 256).

Section Headers.
Context (C : Crypto) (params : Params) (Hnet : network_ok params).
Context (fCheckpointsEnabled : bool) (mapCheckpoints : list (Z * uint256)) (nAdjustedTime : Z) (addr : ptr -> Z).

(** What the header says of itself, [height] blocks above the genesis block *)
Definition proof_rules (block : CBlockHeader) (height : Z) : Prop :=
  if header_IsProofOfStake block then COINBASE_MATURITY <= height /\ CheckCoinStakeTimestamp (nTime block) = true
  else height <= nLastPOWBlock params /\ CheckHeaderPoW C params block = true.

(** What it has to do with its predecessor and the active chain, whose tip is [bt] *)
Definition context_rules (st : CChainState) (bt : CBlockIndex) (block : CBlockHeader) (height : Z) : Prop :=
  GetNextWorkRequired (cs_map st) (Some (hashPrevBlock block)) block params (header_IsProofOfStake block) = Some (nBits block) /\
  (fCheckpointsEnabled = true -> forall p b, GetLastCheckpoint (cs_map st) mapCheckpoints = Some p -> cs_map st !! p = Some b -> nHeight b <= height) /\
  sync_height (nHeight bt) < height /\
  (header_IsProofOfStake block = true -> exists t, GetMedianTimePast (cs_map st) (hashPrevBlock block) = Some t /\
     t < header_GetBlockTime block <= FutureDrift nAdjustedTime) /\
  old_version params block height = false.

(** The rules for the header of a block that is not known yet *)
Definition header_rules (st : CChainState) (block : CBlockHeader) : Prop :=
  exists t bt b, Tip (chainActive st) = Some t /\ cs_map st !! t = Some bt /\ cs_map st !! hashPrevBlock block = Some b /\
    (hashPrevBlock block = t \/ exists q c, chain_at (chainActive st) (sync_height (nHeight bt)) = Some q /\ cs_map st !! q = Some c /\ bi_nTime c <= nTime block) /\
    CheckCanonicalBlockSignature C block = true /\ failed b = false /\
    context_rules st bt block (nHeight b + 1) /\
    (BLOCK_VALID_SCRIPTS <= Z.land (nStatus b) BLOCK_VALID_MASK \/ forall f, f ∈ m_failed_blocks st -> ~ descends (cs_map st) (hashPrevBlock block) f) /\
    proof_rules block (nHeight b + 1).

Section Context_.
Context (st : CChainState) (block : CBlockHeader) (K : tree_ok params addr st) (Hfits : header_fits block) (Hroom : header_room st block).
Context (t : ptr) (bt b : CBlockIndex).
Context (Ht : Tip (chainActive st) = Some t) (Hbt : cs_map st !! t = Some bt) (Hprev : cs_map st !! hashPrevBlock block = Some b).
Let R : ready st := ok_ready addr st (to_state _ _ _ K).
Let Hm : index_ok (cs_map st) := r_index st R.

Lemma next_height : i32 (nHeight b + 1) = nHeight b + 1 /\ 0 < nHeight b + 1.
Proof. pose proof (height_range _ Hm _ _ Hprev). pose proof (proj1 Hroom _ _ Hprev). unfold nCheckpointSpan in *. rewrite i32_id; lia. Qed.

Lemma time_exact : header_GetBlockTime block = nTime block.
Proof. destruct Hfits. unfold header_GetBlockTime. rewrite i64_id; lia. Qed.

Lemma ContextualCheckBlockHeader_spec :
  decides (ContextualCheckBlockHeader params fCheckpointsEnabled mapCheckpoints nAdjustedTime st block (hashPrevBlock block))
    (context_rules st bt block (nHeight b + 1)).
Proof.
  destruct next_height as [Eh Hh]. unfold ContextualCheckBlockHeader, context_rules. apply (decides_total _ _ b); [done|]. rewrite Eh.
  destruct (GetNextWorkRequired_spec (cs_map st) params (header_IsProofOfStake block) (hashPrevBlock block) b block Hm (proj1 Hnet _)
    (to_targets _ _ _ K _) Hprev) as (req & Er & _). apply (decides_total _ _ req); [done|]. rewrite Er.
  apply decides_bind; [apply decides_reject; rewrite negb_false_iff, Z.eqb_eq; split; congruence|intros _ _ _].
  apply decides_bind; [|intros _ _ _].
  { destruct fCheckpointsEnabled; [|apply (decides_iff _ True); [by split | apply decides_ok]].
    destruct (GetLastCheckpoint (cs_map st) mapCheckpoints) as [p|] eqn:Ep; [|apply (decides_iff _ True); [by split | apply decides_ok]].
    assert (is_Some (cs_map st !! p)) as [c Hc].
    { unfold GetLastCheckpoint in Ep. revert Ep. generalize (rev mapCheckpoints). induction l as [|[k h] l IH]; cbn; [done|]. destruct (decide _); [congruence | done]. }
    apply (decides_total _ _ c); [done|]. apply decides_guard; [done|]. rewrite Z.ltb_ge. split; [intros H _ p' b' [= <-] Hb'; congruence | intros H; by apply (H eq_refl p)]. }
  apply (decides_total _ _ (sync_height (nHeight bt) <? nHeight b + 1)); [apply (CheckSync_spec st t); [done | done | done | apply Hroom | done]|].
  apply decides_bind; [apply decides_guard; [done|]; by rewrite negb_false_iff, Z.ltb_lt|intros _ _ _].
  destruct (mtp_total _ Hm _ b Hprev) as (mt & Hmt & _). unfold mtp in Hmt. destruct (header_IsProofOfStake block) eqn:Es; cbn [andb].
  - apply (decides_iff _ (mt < header_GetBlockTime block /\ header_GetBlockTime block <= FutureDrift nAdjustedTime /\ old_version params block (nHeight b + 1) = false)).
    { split; [intros (H1 & H2 & H3); split; [intros _; by exists mt | done]|]. intros [H1 H2]. destruct (H1 eq_refl) as (t' & Et' & Hx & Hy). rewrite Hmt in Et'. by injection Et' as <-. }
    rewrite Hmt. cbn [total mbind result_bind]. apply decides_bind; [apply decides_reject; by rewrite Z.leb_gt|intros _ _ _].
    apply decides_bind; [apply decides_reject; by rewrite Z.ltb_ge|intros _ _ _]. by apply decides_guard.
  - cbn [total mbind result_bind reject_if]. apply (decides_iff _ (old_version params block (nHeight b + 1) = false)); [split; [by split | by intros [_ ?]]|]. by apply decides_guard.
Qed.

Lemma check_header_spec : decides (check_header C params fCheckpointsEnabled mapCheckpoints nAdjustedTime st block)
  ((hashPrevBlock block = t \/ exists q c, chain_at (chainActive st) (sync_height (nHeight bt)) = Some q /\ cs_map st !! q = Some c /\ bi_nTime c <= nTime block) /\
   CheckCanonicalBlockSignature C block = true /\ failed b = false /\ context_rules st bt block (nHeight b + 1)).
Proof.
  unfold check_header. rewrite Ht, Hprev. apply decides_bind; [|intros _ _ _].
  { case_bool_decide; [apply (decides_iff _ True); [split; [by left | done] | apply decides_ok]|].
    destruct (AutoSelectSyncCheckpoint_spec st t bt R Ht Hbt (proj1 Hroom)) as (q & c & Eq & Hc & _ & Hat). apply (decides_total _ _ q); [done|].
    apply (decides_total _ _ c); [done|]. apply decides_reject. rewrite time_exact, Z.ltb_ge. split; [intros Hx; right; exists q, c; split; [done|]; split; [done | lia]|].
    intros [?|(q' & c' & Hq' & Hc' & Hx)]; [done|]. assert (c' = c) as -> by congruence. lia. }
  apply decides_bind; [apply decides_reject; by rewrite negb_false_iff|intros _ _ _].
  apply decides_bind; [by apply decides_reject|intros _ _ _].
  apply (decides_iff _ (context_rules st bt block (nHeight b + 1) /\ True)); [tauto|].
  apply decides_bind; [apply ContextualCheckBlockHeader_spec|intros _ _ _; apply decides_ok].
Qed.

Lemma check_proof_spec : decides (check_proof C params (cs_map st) block (hashPrevBlock block)) (proof_rules block (nHeight b + 1)).
Proof.
  destruct next_height as [Eh Hh]. unfold check_proof, proof_rules, CheckBlockHeader, header_IsProofOfWork. apply (decides_total _ _ b); [done|]. rewrite Eh.
  destruct (header_IsProofOfStake block); cbn [negb andb].
  - cbn [reject_if mbind result_bind]. apply (decides_iff _ ((COINBASE_MATURITY <= nHeight b + 1 /\ CheckCoinStakeTimestamp (nTime block) = true) /\ True)); [tauto|].
    apply decides_bind; [|intros _ _ _; apply decides_ok].
    apply decides_bind; [apply decides_reject; by rewrite Z.ltb_ge|intros _ _ _]. apply decides_reject. by rewrite negb_false_iff.
  - apply decides_bind; [apply decides_reject; by rewrite Z.ltb_ge|intros _ _ _]. cbn [mbind result_bind]. apply decides_reject. by rewrite negb_false_iff.
Qed.
End Context_.

(** *** Failed ancestors *)

Lemma ancestor_descends m p b f c : index_ok m -> m !! p = Some b -> m !! f = Some c -> ancestor m p (nHeight c) = Some f <-> descends m p f.
Proof.
  intros Hm Hp Hf. split.
  - intros Ha. destruct (ancestor_inv m Hm p b _ f Hp Ha) as (Hh & _). rewrite (ancestor_at m p b) in Ha by done. by eexists.
  - intros [n Hn]. destruct (up_height m Hm n p b f Hp Hn) as (c' & Hc' & Eh). assert (c' = c) as -> by congruence. pose proof (height_range m Hm f c Hf).
    rewrite (ancestor_at m p b) by (done || lia). by replace (Z.to_nat (nHeight b - nHeight c)) with n by lia.
Qed.

Lemma find_failed_spec m p b l : index_ok m -> m !! p = Some b -> (forall f, f ∈ l -> exists c, m !! f = Some c /\ has c BLOCK_FAILED_VALID = true) ->
  exists r, find_failed m p l = Some r /\ match r with Some f => f ∈ l /\ descends m p f | None => forall f, f ∈ l -> ~ descends m p f end.
Proof.
  intros Hm Hp. induction l as [|f l IH]; intros Hl; cbn [find_failed].
  - exists None. split; [done|]. intros f Hf. by apply elem_of_nil in Hf.
  - destruct (Hl f) as (c & Hc & Hv); [by left|]. rewrite Hc. cbn [mbind option_bind]. rewrite (GetAncestor_spec m Hm p b) by done. cbn [mbind option_bind].
    case_bool_decide as Ha; rewrite (ancestor_descends m p b f c Hm Hp Hc) in Ha.
    + rewrite Hv. exists (Some f). split; [done|]. split; [by left | done].
    + destruct IH as (r & -> & Hr); [intros x Hx; apply Hl; by right|]. exists r. split; [done|]. destruct r as [x|]; [split; [right|]; by destruct Hr|].
      intros x [->|Hx]%elem_of_cons; [done | by apply Hr].
Qed.

(** Marks on descendants of a failed block take nothing away that is usable. *)
Lemma mark_walk_ok f fuel : forall st n w c, up (cs_map st) n w = Some f -> cs_map st !! f = Some c -> failed c = true -> (n <= fuel)%nat ->
  exists st', mark_walk fuel st w f = Some st' /\ marked st st'.
Proof.
  induction fuel as [|fuel IH]; intros st n w c Hu Hc Hf Hn; cbn [mark_walk]; (case_bool_decide as E; [subst w; exists st; split; [done | apply marked_refl]|]);
    (destruct n as [|n]; [cbn in Hu; congruence|]); [lia|].
  pose proof Hu as Hd. cbn [up] in Hu. destruct (cs_map st !! w) as [b|] eqn:Hw; [|done]. cbn [mbind option_bind] in Hu |- *.
  destruct (pprev b) as [q|] eqn:Eq; [|done]. cbn [mbind option_bind] in Hu. unfold add_status. rewrite Hw. cbn [mbind option_bind].
  set (b' := set_nStatus b _). pose proof (mark_evolves b BLOCK_FAILED_CHILD (or_introl eq_refl)) as He. fold b' in He.
  set (st1 := set_dirty (set_entry st w b') w). assert (marked st st1) as M.
  { split; try done; [by apply evolves_insert with b | | by left]. intros x Hx. apply (clean_mark _ x w b b' Hw (proj1 He)); [|done].
    intros Hcl. specialize (Hcl (S n) f c Hd Hc). congruence. }
  assert (cs_map st1 !! f = Some c) as Hc1 by (change (cs_map st1) with (<[w := b']> (cs_map st)); by rewrite lookup_insert_ne).
  destruct (IH st1 n q c) as (st' & E' & M'); [by rewrite (same_up _ _ (evolves_tree _ _ (mk_evolves _ _ M))) | done | done | lia|].
  exists st'. split; [done | by eapply marked_trans].
Qed.

Lemma by_address_elem s f : f ∈ by_address addr s <-> f ∈ s.
Proof. unfold by_address. rewrite merge_sort_Permutation. apply elem_of_elements. Qed.

Lemma mark_failed_spec st p b : ready st -> cs_map st !! p = Some b -> failed b = false ->
  exists r, mark_failed addr st p = Some r /\
    match r with
    | None => BLOCK_VALID_SCRIPTS <= Z.land (nStatus b) BLOCK_VALID_MASK \/ forall f, f ∈ m_failed_blocks st -> ~ descends (cs_map st) p f
    | Some st' => marked st st' /\ ~ (BLOCK_VALID_SCRIPTS <= Z.land (nStatus b) BLOCK_VALID_MASK \/ forall f, f ∈ m_failed_blocks st -> ~ descends (cs_map st) p f)
    end.
Proof.
  intros R Hp Hf. pose proof (r_index st R) as Hm. unfold mark_failed, IsValid. rewrite Hp. cbn [mbind option_bind].
  change (negb (Z.land BLOCK_VALID_SCRIPTS (u32 (Z.lnot BLOCK_VALID_MASK)) =? 0)) with false. cbv iota.
  change (negb (Z.land (nStatus b) BLOCK_FAILED_MASK =? 0)) with (failed b). rewrite Hf. cbn [mbind option_bind].
  destruct (Z.leb_spec BLOCK_VALID_SCRIPTS (Z.land (nStatus b) BLOCK_VALID_MASK)) as [Hv|Hv]; [exists None; split; [done | by left]|].
  destruct (find_failed_spec (cs_map st) p b (by_address addr (m_failed_blocks st)) Hm Hp) as (r & -> & Hr).
  { intros f Hin%by_address_elem. by apply (r_failed st R). }
  cbn [mbind option_bind]. destruct r as [f|].
  - destruct Hr as [Hin%by_address_elem [n Hn]]. destruct (r_failed st R f Hin) as (c & Hc & Hv').
    destruct (up_height _ Hm n p b f Hp Hn) as (c' & Hc' & Eh). pose proof (height_range _ Hm f c' Hc').
    destruct (mark_walk_ok f (path_fuel (cs_map st) p) st n p c Hn Hc (has_failed_valid c Hv')) as (st' & -> & M); [unfold path_fuel; rewrite Hp; lia|].
    cbn [mbind option_bind]. exists (Some st'). split; [done|]. split; [done|]. intros [?|Hx]; [lia|]. apply (Hx f Hin). by exists n.
  - exists None. split; [done|]. right. intros f Hin. apply Hr. by apply by_address_elem.
Qed.

(** *** New entries *)

Lemma marked_state st st' : chain_state_ok addr st -> marked st st' -> chain_state_ok addr st'.
Proof.
  intros [R Lk Hc] M. split; [by apply (ready_marked st) | |].
  - apply (linked_evolves st); [done | done | apply M | apply M].
  - rewrite (mk_active _ _ M). by apply (complete_marked addr st).
Qed.

Lemma same_targets f m m' : same_tree m m' -> targets_ok params f m -> targets_ok params f m'.
Proof.
  intros Ht Hok p b' Hp. destruct (same_lookup_rev _ _ Ht p b' Hp) as (b & Hb & (_ & _ & _ & _ & _ & _ & E1 & E2 & E3)). specialize (Hok p b Hb). cbn in Hok.
  unfold IsProofOfStake in *. by rewrite E1, E2, E3.
Qed.

(** The tree, given what has happened to its entries *)
Lemma tree_evolves st st' : tree_ok params addr st -> same_tree (cs_map st) (cs_map st') -> chain_state_ok addr st' -> Tip (chainActive st') <> None -> tree_ok params addr st'.
Proof.
  intros [_ K2 K3 _] Ht Hs Htip. split; [done | | | done].
  - intros f. by apply (same_targets f (cs_map st)).
  - intros p b' Hp Hn. destruct (same_lookup_rev _ _ Ht p b' Hp) as (b & Hb & (_ & E & _)). apply (K3 p b Hb). congruence.
Qed.

Lemma tree_marked st st' : tree_ok params addr st -> marked st st' -> tree_ok params addr st'.
Proof.
  intros K M. apply (tree_evolves st); [done | apply evolves_tree, M | by apply (marked_state st); [apply K|] | rewrite (mk_active _ _ M); apply K].
Qed.


(** The work of a block with a usable target *)
Lemma proof_positive b : in_u 32 (bi_nBits b) -> usable_target (bi_nBits b) = true ->
  exists w, GetBlockProof b = Ok w /\ val w = 2 ^ 256 / (compact_value (bi_nBits b) + 1) /\ 0 < val w.
Proof.
  intros Hb Hu. destruct (GetBlockProof_spec b Hb) as (w & E & _ & V). rewrite Hu in V. exists w. split; [done|]. split; [done|]. rewrite V.
  apply usable_iff in Hu as [Hr _]; [|done]. apply Z.div_str_pos. lia.
Qed.

Lemma new_targets m h e f : m !! h = None -> targets_ok params f m -> in_u 32 (bi_nTime e) -> acceptable params (IsProofOfStake e) (bi_nBits e) ->
  targets_ok params f (<[h := e]> m).
Proof.
  intros Hh Ht Htime Hacc. apply map_Forall_insert; [done|]. split; [|done]. split; [done|]. intros [<-|Hx]; [done|]. by rewrite (proj2 Hnet) in Hx.
Qed.

(** A header whose target is the one computed for it enters the tree. *)
Lemma add_header_ok st block b : tree_ok params addr st -> header_fits block -> header_room st block -> cs_map st !! Block_GetHash C block = None ->
  cs_map st !! hashPrevBlock block = Some b ->
  GetNextWorkRequired (cs_map st) (Some (hashPrevBlock block)) block params (header_IsProofOfStake block) = Some (nBits block) ->
  exists st' e, add_header C st block = (Ok (Block_GetHash C block), st') /\ tree_ok params addr st' /\ chainActive st' = chainActive st /\
    cs_map st' = <[Block_GetHash C block := e]> (cs_map st) /\ entry_of block e /\ nStatus e = BLOCK_VALID_TREE /\ pprev e = Some (hashPrevBlock block) /\
    nHeight e = nHeight b + 1 /\ m_failed_blocks st' = m_failed_blocks st.
Proof.
  intros K [Htime Hbits] [Hh Hw] Hnone Hprev Hreq. destruct (K) as [Ks Kt Kr Ktip]. pose proof (ok_ready _ _ Ks) as R. pose proof (r_index st R) as Hm.
  assert (addable C (cs_map st) block) as Hadd.
  { split; [congruence|]. split; [done|]. intros c Hc. specialize (Hh _ _ Hc). unfold nCheckpointSpan in Hh. lia. }
  destruct (AddToBlockIndex_ok C (cs_index st) block (conj Hm (r_header st R)) Hadd) as (i & e0 & E & _ & He0 & _).
  destruct (AddToBlockIndex_new C (cs_index st) block i _ Hm Hadd E) as [_ [->|(_ & e & Hi & Hok & Hof & Hst & Hpe)]]; [unfold cs_map in Hnone; congruence|].
  destruct (GetNextWorkRequired_spec (cs_map st) params (header_IsProofOfStake block) _ b block Hm (proj1 Hnet _) (Kt _) Hprev) as (c & Ec & Hacc & _).
  rewrite Hreq in Ec. injection Ec as <-. fold (cs_map st) in *. rewrite Hprev in Hpe. cbn in Hpe. destruct (Hof) as (O1 & O2 & O3 & O4 & O5).
  assert (nHeight e = nHeight b + 1 /\ val (nChainWork b) < val (nChainWork e)) as [Eh Hwork].
  { destruct Hok as (_ & _ & Hwf & Hx). rewrite Hpe in Hx. destruct Hx as (b' & Hb' & E1 & _ & _ & w & Ew & Vw).
    rewrite lookup_insert_ne in Hb' by congruence. assert (b' = b) as -> by congruence. split; [done|].
    destruct (proof_positive e) as (w' & Ew' & Vw' & Hpos); [by rewrite O4 | rewrite O4; apply Hacc|]. rewrite Ew in Ew'. injection Ew' as <-.
    specialize (Hw b Hprev). rewrite O4 in Vw'. destruct (Hm _ _ Hprev) as (_ & _ & Hwb & _). pose proof (val_range256 _ Hwb).
    rewrite Z.mod_small in Vw by lia. lia. }
  exists (set_index st i), e. unfold add_header. rewrite E. split; [done|]. split; [|by split_and!].
  assert (IsProofOfStake e = header_IsProofOfStake block) as Ek by (unfold IsProofOfStake, header_IsProofOfStake; by rewrite O5).
  assert (cs_map (set_index st i) = <[Block_GetHash C block := e]> (cs_map st)) as Emap by exact Hi. split.
  - apply (header_ok C addr st block i _ Ks Hadd E). intros e' q c' He' Hq Hc'. rewrite Hi, lookup_insert_eq in He'. injection He' as <-.
    rewrite Hpe in Hq. injection Hq as <-. by assert (c' = b) as -> by congruence.
  - intros f. rewrite Emap. apply new_targets; [done | done | by rewrite O3 | by rewrite Ek, O4].
  - intros p x Hp Hn. rewrite Emap in Hp. destruct (decide (p = Block_GetHash C block)) as [->|Hne].
    + rewrite lookup_insert_eq in Hp. congruence.
    + rewrite lookup_insert_ne in Hp by done. by apply (Kr p x).
  - done.
Qed.

(** The genesis block is at the bottom of the active chain. *)
Lemma genesis_active st : tree_ok params addr st -> chain_at (chainActive st) 0 = Some (hashGenesisBlock params) /\
  exists b, cs_map st !! hashGenesisBlock params = Some b /\ failed b = false /\ nTx b <> 0 /\ nChainTx b <> 0 /\ nHeight b = 0.
Proof.
  intros [Ks _ Kr Ktip]. pose proof (ok_ready _ _ Ks) as R. pose proof (r_index st R) as Hm. destruct (Tip (chainActive st)) as [t|] eqn:Et; [|done].
  destruct (tip_chain st t R Et) as (b & Hb & Hsz & Hat). pose proof (height_range _ Hm t b Hb). destruct (ancestor_total _ Hm t b 0 Hb) as (q & c & Ha & Hc & Eh); [lia|].
  assert (pprev c = None) as Hn.
  { destruct (pprev c) as [x|] eqn:Ex; [|done]. destruct (prev_entry _ Hm q c x Hc Ex) as (d & Hd & Ed). pose proof (height_range _ Hm x d Hd). lia. }
  pose proof (Kr q c Hc Hn) as ->. assert (chain_at (chainActive st) 0 = Some (hashGenesisBlock params)) as H0 by (rewrite Hat; [done | lia]). split; [done|].
  exists c. destruct (r_active st R 0 _ c H0 Hc) as (A1 & A2 & _). destruct (r_linked st R _ c Hc A1) as [A3 _]. by split_and!.
Qed.

(** What acceptance makes of a header, given that it is known or not *)
Record header_outcome (st : CChainState) (block : CBlockHeader) (r : bchecks ptr) (st' : CChainState) : Prop := {
  ho_answer : r <> Err BlockAbort;
  ho_tree : tree_ok params addr st';
  ho_active : chainActive st' = chainActive st;
  ho_known : forall b, cs_map st !! Block_GetHash C block = Some b -> st' = st /\ ((exists p, r = Ok p) <-> failed b = false);
  ho_new : cs_map st !! Block_GetHash C block = None -> (exists p, r = Ok p) <-> header_rules st block;
  ho_ok : forall p, r = Ok p -> p = Block_GetHash C block /\ (exists e, cs_map st' !! p = Some e /\ failed e = false) /\
    (cs_map st !! p = None -> exists e, cs_map st' = <[p := e]> (cs_map st) /\ entry_of block e /\ pprev e = Some (hashPrevBlock block));
  ho_err : (forall p, r <> Ok p) -> marked st st' /\ (st' = st \/ exists level code reason, r = Err (BlockReject level code reason false)) }.

Lemma failed_tree e : nStatus e = BLOCK_VALID_TREE -> failed e = false.
Proof. intros E. unfold has. by rewrite E. Qed.

Abbreviation accept_header := (AcceptBlockHeader C params fCheckpointsEnabled mapCheckpoints nAdjustedTime addr).

(** A header that is not known *)
Lemma new_header_ok st block : tree_ok params addr st -> header_fits block -> header_room st block -> cs_map st !! Block_GetHash C block = None ->
  exists r st', accept_header st block = (r, st') /\ header_outcome st block r st'.
Proof.
  intros K Hfits Hroom Hnone. pose proof (ok_ready _ _ (to_state _ _ _ K)) as R. destruct (genesis_active st K) as [_ (g & Hg & _)].
  assert (forall r, r <> Err BlockAbort -> (forall p, r <> Ok p) -> ~ header_rules st block -> forall st', marked st st' ->
    (st' = st \/ exists level code reason, r = Err (BlockReject level code reason false)) -> header_outcome st block r st') as Herr.
  { intros r H1 H2 H3 st' M Hc. split; try done; [by apply (tree_marked st) | apply M | intros b Hb; congruence | |].
    - intros _. split; [intros [p Hp]; by destruct (H2 p) | done].
    - intros p Hp. by destruct (H2 p). }
  unfold AcceptBlockHeader. rewrite bool_decide_eq_false_2 by congruence. rewrite Hnone.
  destruct (Tip (chainActive st)) as [t|] eqn:Et; [|by destruct (to_tip _ _ _ K)]. destruct (tip_entry st t R Et) as [bt Hbt].
  destruct (cs_map st !! hashPrevBlock block) as [b|] eqn:Hprev.
  2: { destruct (check_header _ _ _ _ _ _ _) as [x|e] eqn:Ec.
       - exfalso. revert Ec. unfold check_header. rewrite Hprev. by intros (_ & _ & (_ & _ & [=])%bind_ok)%bind_ok.
       - exists (Err e), st. split; [done|]. apply Herr; [| done | | apply marked_refl | by left].
         + intros [= ->]. revert Ec. unfold check_header. rewrite Et, Hprev. case_bool_decide; cbn [mbind result_bind].
           * unfold reject_if. by destruct (negb _).
           * destruct (AutoSelectSyncCheckpoint_spec st t bt R Et Hbt (proj1 Hroom)) as (q & c & -> & Hc & _). cbn [total mbind result_bind]. rewrite Hc. cbn [total mbind result_bind].
             unfold reject_if. destruct (_ <? 0); [done|]. cbn [mbind result_bind]. by destruct (negb _).
         + intros (t' & bt' & b' & _ & _ & Hb' & _). congruence. }
  destruct (check_header_spec st block K Hfits Hroom t bt b Et Hbt Hprev) as [Hna Hiff].
  assert (forall x, check_header C params fCheckpointsEnabled mapCheckpoints nAdjustedTime st block = Ok x -> x = hashPrevBlock block) as Hx.
  { intros x. unfold check_header. rewrite Hprev. intros (_ & _ & (_ & _ & (_ & _ & (_ & _ & [= <-])%bind_ok)%bind_ok)%bind_ok)%bind_ok. done. }
  assert (forall P : Prop, (header_rules st block -> P) -> ~ P -> ~ header_rules st block) as Hcontra by tauto.
  assert (header_rules st block -> exists x, check_header C params fCheckpointsEnabled mapCheckpoints nAdjustedTime st block = Ok x) as Hr1.
  { intros (t' & bt' & b' & Et' & Hbt' & Hb' & H1 & H2 & H3 & H4 & _). apply Hiff. simplify_eq. by split_and!. }
  destruct (check_header _ _ _ _ _ _ _) as [x|e] eqn:Ec.
  2: { exists (Err e), st. split; [done|]. apply Herr; [congruence | done | | apply marked_refl | by left]. intros [x [=]]%Hr1. }
  specialize (Hx x eq_refl). subst x. destruct Hiff as [Hiff _]. destruct (Hiff (ex_intro _ _ eq_refl)) as (C1 & C2 & C3 & C4).
  destruct (mark_failed_spec st (hashPrevBlock block) b R Hprev C3) as (r & -> & Hr). destruct r as [st'|].
  { exists (Err (BlockReject 100 REJECT_INVALID "bad-prevblk"%string false)), st'. split; [done|]. destruct Hr as [M Hn]. apply Herr; [done | done | | done | right; by eexists _, _, _].
    intros (t' & bt' & b' & _ & _ & Hb' & _ & _ & _ & _ & H5 & _). by simplify_eq. }
  destruct (check_proof_spec st block K Hroom b Hprev) as [Hpa Hpiff]. destruct (check_proof _ _ _ _ _) as [[]|e] eqn:Ep.
  2: { exists (Err e), st. split; [done|]. apply Herr; [congruence | done | | apply marked_refl | by left].
       intros (t' & bt' & b' & _ & _ & Hb' & _ & _ & _ & _ & _ & H6). simplify_eq. apply Hpiff in H6 as [x [=]]. }
  destruct (add_header_ok st block b K Hfits Hroom Hnone Hprev (proj1 C4)) as (st' & e & -> & K' & Ha & Em & Hof & Hst & Hpe & Eh & _).
  exists (Ok (Block_GetHash C block)), st'. split; [done|]. split; try done; [intros b' Hb'; congruence | | | by intros Hn; destruct (Hn (Block_GetHash C block))].
  - intros _. split; [intros _|by eexists]. exists t, bt, b. split_and!; try done. apply Hpiff. by eexists.
  - intros p [= <-]. split; [done|]. split; [exists e; rewrite Em, lookup_insert_eq; split; [done | by apply failed_tree]|]. intros _. by exists e.
Qed.

Lemma AcceptBlockHeader_ok st block : tree_ok params addr st -> header_fits block -> header_room st block ->
  exists r st', accept_header st block = (r, st') /\ header_outcome st block r st'.
Proof.
  intros K Hfits Hroom. destruct (cs_map st !! Block_GetHash C block) as [b|] eqn:Hb; [|by apply new_header_ok].
  assert (forall r, (r = Ok (Block_GetHash C block) /\ failed b = false \/ (exists e, r = Err e /\ e <> BlockAbort) /\ failed b = true) -> header_outcome st block r st) as Hout.
  { intros r Hr. split; try done.
    - destruct Hr as [[-> _]|[(e & -> & He) _]]; congruence.
    - intros b' Hb'. assert (b' = b) as -> by congruence. split; [done|]. destruct Hr as [[-> ->]|[(e & -> & He) ->]]; split; try done; [by eexists | by intros [p [=]]].
    - congruence.
    - intros p Hp. destruct Hr as [[-> Hf]|[(e & -> & He) _]]; [|done]. injection Hp as <-. split; [done|]. split; [by exists b | congruence].
    - intros _. split; [apply marked_refl | by left]. }
  unfold AcceptBlockHeader. case_bool_decide as Eg.
  - destruct (genesis_active st K) as [_ (g & Hg & Hf & _)]. unfold add_header, AddToBlockIndex. unfold cs_map in Hb. rewrite Hb. eexists _, _. split; [done|].
    assert (set_index st (cs_index st) = st) as -> by (by destruct st). apply Hout. left. split; [done|]. rewrite Eg in Hb. unfold cs_map in Hg. congruence.
  - rewrite Hb. eexists _, _. split; [done|]. apply Hout. destruct (failed b); [right; split; [by eexists | done] | by left].
Qed.

End Headers.
