(* ===== verification/ProcessBlock.v ===== *)
(** * Processing blocks: the invariants of the node ([AcceptBlock], [ProcessNewBlock],
    [ProcessNewBlockHeaders] and [LoadGenesisBlock] of [src/validation.cpp], modelled in [Accept.v])

    Every block and header that comes in is answered, whatever it holds; the tree, the chain and
    the block files keep their invariants; a block is stored only when it passes the checks of
    [CheckBlock] and of its place, with the limits and the time of the call; a corrupted copy of a
    block marks nothing as failed; and when a block has been processed with success the best chain
    is active.  The states are those of [node_reachable]: [node_well_formed] says what it leaves
    out. *)

From Stdlib Require Import String.
From stdpp Require Import gmap sorting.
From S2P Require Import Prelude Serialize ArithUint256 Script SigEncoding Interpreter Standard Transaction Block Merkle Chain MedianTime Coins Pow VersionBits TxVerify CheckBlock ScriptChecks Connect NodeOps Activation ChainInvariant ChainSteps BlockFiles Accept.
Open Scope Z_scope.

Abbreviation length := Datatypes.length (only parsing).

(** ** The data of a block and the tree *)

(** The entries keep their places in the tree and on disk, transactions and marks. *)
Definition same_content (b b' : CBlockIndex) : Prop := skel b b' /\ nTx b' = nTx b /\ nStatus b' = nStatus b /\ nFile b' = nFile b /\ nDataPos b' = nDataPos b.
Definition same_data (m m' : BlockMap) : Prop := forall p, option_Forall2 same_content (m !! p) (m' !! p).

Lemma same_data_refl m : same_data m m.
Proof. intros p. destruct (m !! p); constructor. by split; [apply skel_refl|]. Qed.
Lemma same_data_trans m1 m2 m3 : same_data m1 m2 -> same_data m2 m3 -> same_data m1 m3.
Proof.
  intros H12 H23 p. specialize (H12 p). specialize (H23 p). destruct (m1 !! p), (m2 !! p), (m3 !! p); inversion H12 as [? ? H1|]; inversion H23 as [? ? H2|]; constructor.
  destruct H1 as (S1 & T1 & U1 & V1 & W1), H2 as (S2 & T2 & U2 & V2 & W2). split; [by eapply skel_trans|]. split_and!; congruence.
Qed.
Lemma same_data_insert m p b b' : m !! p = Some b -> same_content b b' -> same_data m (<[p := b']> m).
Proof.
  intros Hp Hs q. destruct (decide (q = p)) as [->|Hne]; [rewrite Hp, lookup_insert_eq; by constructor|]. rewrite lookup_insert_ne by done.
  destruct (m !! q); constructor. by split; [apply skel_refl|].
Qed.
Lemma same_data_tree m m' : same_data m m' -> same_tree m m'.
Proof. intros H p. destruct (H p) as [b b' (S & _)|]; by constructor. Qed.
Lemma same_data_lookup m m' p b : same_data m m' -> m !! p = Some b -> exists b', m' !! p = Some b' /\ same_content b b'.
Proof. intros H Hp. specialize (H p). rewrite Hp in H. inversion H as [? b' Hs|]. by exists b'. Qed.
Lemma same_data_rev m m' p b' : same_data m m' -> m' !! p = Some b' -> exists b, m !! p = Some b /\ same_content b b'.
Proof. intros H Hp. specialize (H p). rewrite Hp in H. inversion H as [b ? Hs|]. by exists b. Qed.

Lemma link_block_same addr st p st' : link_block addr st p = Some st' -> same_data (cs_map st) (cs_map st') /\ chainActive st' = chainActive st.
Proof.
  unfold link_block. destruct (cs_map st !! p) as [b|] eqn:Hp; [|done]. cbn [mbind option_bind].
  destruct (match pprev b with None => _ | Some q => _ end) as [ptx|]; [|done]. cbn [mbind option_bind].
  destruct (match Tip _ with None => _ | Some t => _ end) as [ins|]; [|done]. cbn [mbind option_bind]. intros [= <-].
  split; [|by destruct ins]. set (b' := set_nSequenceId _ _).
  assert (same_data (cs_map st) (<[p := b']> (cs_map st))) as Hs; [|by destruct ins].
  apply (same_data_insert _ p b); [done|]. split; [eapply skel_trans; [apply skel_set_nChainTx | apply skel_set_nSequenceId] | by destruct b].
Qed.

Lemma link_loop_same addr fuel : forall st queue st', link_loop addr fuel st queue = Some st' -> same_data (cs_map st) (cs_map st') /\ chainActive st' = chainActive st.
Proof.
  induction fuel as [|fuel IH]; intros st [|p queue] st'; cbn [link_loop]; try done; [intros [= <-]; by split; [apply same_data_refl|]..|].
  destruct (link_block addr st p) as [st1|] eqn:E; [|done]. cbn [mbind option_bind]. destruct (link_block_same _ _ _ _ E) as [A1 A2].
  intros [B1 B2]%IH. split; [by eapply same_data_trans | congruence].
Qed.

Lemma received_same addr we st block p b pos st' : ReceivedBlockTransactions addr we st block p pos = Some st' -> cs_map st !! p = Some b -> failed b = false ->
  exists b1, same_data (<[p := b1]> (cs_map st)) (cs_map st') /\ chainActive st' = chainActive st /\ skel b b1 /\ nTx b1 = u32 (vsize (vtx block)) /\ failed b1 = false /\
    has b1 BLOCK_HAVE_DATA = true /\ nFile b1 = fst pos /\ nDataPos b1 = snd pos.
Proof.
  intros E Hp Hf. unfold ReceivedBlockTransactions in E. rewrite Hp in E. cbn [mbind option_bind] in E.
  destruct (data_entry b (u32 (vsize (vtx block))) (fst pos) (snd pos) we Hf) as (S2 & T2 & _ & _ & F2 & D2 & _ & G2 & H2). cbv zeta in S2, T2, F2, D2, G2, H2.
  set (b2 := if we then _ else _) in *. destruct (raise_received b2 F2) as (b1 & f & Er & S1 & T1 & _ & _ & F1 & D1 & _ & _ & G1 & H1). rewrite Er in E. cbn [mbind option_bind] in E.
  set (st1 := set_dirty (set_entry st p b1) p) in E. exists b1.
  enough (same_data (cs_map st1) (cs_map st') /\ chainActive st' = chainActive st) as [A1 A2].
  { split; [done|]. split; [done|]. split; [by eapply skel_trans|]. split; [congruence|]. split; [done|]. split_and!; congruence. }
  assert (forall q, link_loop addr (size (cs_map st1)) st1 q = Some st' -> same_data (cs_map st1) (cs_map st') /\ chainActive st' = chainActive st) as Hl
    by (by intros q [A1 A2]%link_loop_same).
  destruct (match pprev b1 with None => _ | Some q => _ end) as [[[q c]|]|]; [|by cbn [mbind option_bind] in E; apply Hl in E | done]. cbn [mbind option_bind] in E.
  destruct (negb _); [by apply Hl in E|]. destruct (IsValid c BLOCK_VALID_TREE) as [v|]; [|done]. cbn [mbind option_bind] in E. injection E as <-.
  split; [|by destruct v]. destruct v; apply same_data_refl.
Qed.

(** ** Checks of the contents *)

Section Contents.
Context (C : Crypto) (Verify : bytes -> uint256 -> bytes -> bool) (params : Params) (block : CBlock).

(** What the flag [fChecked] of a block says *)
Definition flag_ok : Prop := fChecked block = true -> exists limits t, block_fine C Verify params limits t true true true block.

(** What a block that [CheckBlock] lets pass satisfies: the rules with the limits and the time of the
    call, unless its flag says that it has been checked before *)
Definition passed (limits : BlockSizeParams) (t : Z) : Prop :=
  if fChecked block then exists limits' t', block_fine C Verify params limits' t' true true true block else block_fine C Verify params limits t true true true block.
Lemma passed_fine limits t : passed limits t -> exists limits' t', block_fine C Verify params limits' t' true true true block.
Proof. unfold passed. destruct (fChecked block); eauto. Qed.

(** Witnesses are committed to, or absent. *)
Definition witness_rule (segwit : ThresholdState) : Prop :=
  if bool_decide (segwit = ACTIVE) && negb (GetWitnessCommitmentIndex block =? -1) then
    exists cb rest i vi o nonce root mutated, vtx block = cb :: rest /\ vin cb = i :: vi /\ vout cb !! Z.to_nat (GetWitnessCommitmentIndex block) = Some o /\
      scriptWitness i = [nonce] /\ vsize nonce = 32 /\ BlockWitnessMerkleRoot C block None = Some (root, mutated) /\
      base_blob_eq (Hash256 C (root ++ nonce)) (take 32 (drop 6 (scriptPubKey o))) = true
  else Forall (fun tx : CTransaction => HasWitness tx = false) (vtx block).

(** The rules for a block above [prev], with the version-bits cache [bits]: the transactions are
    final at the block's height and time (or the median time past), the coinbase starts with the
    height, and the witnesses are committed to. *)
Definition context_rules (m : BlockMap) (prev : ptr) (bits : VersionBitsCache) : Prop :=
  exists bp mt csv segwit bits1 bits2, m !! prev = Some bp /\ GetMedianTimePast m prev = Some mt /\
    VersionBitsState m (Some prev) params DEPLOYMENT_CSV bits = Some (csv, bits1) /\ VersionBitsState m (Some prev) params DEPLOYMENT_SEGWIT bits1 = Some (segwit, bits2) /\
    Forall (fun tx : CTransaction => IsFinalTx tx (nHeight bp + 1) (if bool_decide (csv = ACTIVE) then mt else header_GetBlockTime block) = true) (vtx block) /\
    (BIP34Height params <= nHeight bp + 1 -> exists cb i vi, first_tx block = Some cb /\ vin cb = i :: vi /\ push_int64 (nHeight bp + 1) `prefix_of` scriptSig i) /\
    witness_rule segwit.

(** The rules for the place of a block: proofs of work end at [nLastPOWBlock], the synchronised
    checkpoint is below the block, and the time of a proof of stake is after its predecessor's and
    not in the future. *)
Definition position_rules (t : Z) (st : CChainState) (b : CBlockIndex) : Prop :=
  (header_IsProofOfWork block = true -> nHeight b <= nLastPOWBlock params) /\ CheckSync st (nHeight b) = Some true /\
  (header_IsProofOfStake block = true -> header_GetBlockTime block <= FutureDrift t /\
    forall c, 0 < nHeight b -> cs_map st !! hashPrevBlock block = Some c -> GetBlockTime c < header_GetBlockTime block /\ GetBlockTime c <= FutureDrift (header_GetBlockTime block)).

Lemma coinbase_inputs : coinbase_fine block -> exists cb i vi, first_tx block = Some cb /\ vin cb = i :: vi.
Proof.
  intros (cb & rest & Ev & Hcb & _). unfold first_tx. rewrite Ev. unfold IsCoinBase in Hcb. destruct (vin cb) as [|i vi] eqn:Ei; [done|].
  exists (tx_fields cb), i, vi. by split.
Qed.

Lemma CheckBlock_total limits t state : txs_ok block -> scripts_fit block -> flag_ok ->
  exists ok state', CheckBlock C Verify params limits t block state true true true = (Some (ok, state'), ok) /\
    (ok = true -> state' = state /\ passed limits t) /\
    (ok = false -> exists e, e <> BlockAbort /\ block_report (A := unit) state (Err e) = Some (false, state')).
Proof.
  intros Hok Hfit Hflag. unfold CheckBlock, passed. unfold flag_ok in Hflag. destruct (fChecked block) eqn:Ef.
  { exists true, state. split; [done|]. split; [|done]. intros _. split; [done | by apply Hflag]. }
  pose proof (check_block_guards C Verify params limits t true true true block Hok Hfit) as Hg. destruct (check_block _ _ _ _ _ _ _ _ _) as [u|e].
  - exists true, state. split; [done|]. split; [|done]. by intros _.
  - assert (e <> BlockAbort) as He by (intros ->; inversion Hg).
    assert (exists state', block_report (A := unit) state (Err e) = Some (false, state')) as [state' E] by (destruct e; [by eexists.. | done]).
    exists false, state'. split; [unfold block_report in *; by rewrite E|]. split; [done|]. intros _. by exists e.
Qed.

Context (m : BlockMap) (Hm : index_ok m) (prev : ptr) (bp : CBlockIndex) (Hprev : m !! prev = Some bp) (Hroom : nHeight bp + 1 < 2 ^ 31).
Context (Hwin : 0 < nMinerConfirmationWindow params < 2 ^ 31).

Lemma VersionBitsState_total d cache : exists s cache', VersionBitsState m (Some prev) params d cache = Some (s, cache').
Proof.
  assert (0 < Period (VersionBitsConditionChecker params d) < 2 ^ 31) as Hper by (cbn [Period VersionBitsConditionChecker]; rewrite i32_id; lia).
  destruct (GetStateFor_total m Hm (VersionBitsConditionChecker params d) Hper (Some prev) (cache d)) as [[s c] E].
  { intros q [= <-]. by exists bp. }
  unfold VersionBitsState. rewrite E. by eexists _, _.
Qed.

Lemma check_commitment_total limits t enabled : txs_ok block -> block_fine C Verify params limits t true true true block -> check_commitment C block enabled <> Err BlockAbort.
Proof.
  intros Hok (_ & _ & _ & Hcb & Hcs & _). unfold check_commitment. destruct (negb enabled || _) eqn:Ee; [done|]. apply orb_false_iff in Ee as [_ Ee%Z.eqb_neq].
  destruct (Hcb) as (cb & rest & Ev & Hc & _). unfold IsCoinBase in Hc.
  assert (exists root, BlockWitnessMerkleRoot C block None = Some root) as [[root mut] Er].
  { unfold BlockWitnessMerkleRoot. cbn [default]. destruct (header_IsProofOfStake block) eqn:Es; [|rewrite Ev; by eexists].
    destruct (Hcs eq_refl) as (cb' & cs & i & r & Ev' & _). rewrite Ev'. by eexists. }
  rewrite Er, Ev. destruct (vin cb) as [|i vi] eqn:Ei; [done|].
  assert (is_Some (vout cb !! Z.to_nat (GetWitnessCommitmentIndex block))) as [o Ho].
  { unfold GetWitnessCommitmentIndex in *. rewrite Ev in *. unfold txs_ok in Hok. rewrite Ev in Hok. apply Forall_cons in Hok as [Hf _]. apply tx_outputs_fit in Hf.
    destruct (commitment_index_spec 0 (vout cb) (-1)) as [[E _]|(pre & x & post & Eo & _ & _ & E)]; [done | lia | congruence|]. rewrite E, Z.add_0_l, Eo. unfold vsize.
    rewrite Nat2Z.id, lookup_app_r, Nat.sub_diag by done. by eexists. }
  rewrite Ho. destruct (scriptWitness i) as [|nonce [|? ?]]; try done. unfold reject_if.
  destruct (negb (_ =? _)); cbn [mbind result_bind]; [done|]. destruct (negb _); cbn [mbind result_bind]; done.
Qed.

Lemma check_witnesses_rule segwit : check_witnesses C block segwit = Ok tt -> witness_rule segwit.
Proof.
  unfold check_witnesses, check_commitment, witness_rule. destruct (bool_decide (segwit = ACTIVE)); cbn [negb orb andb].
  2: { cbn [mbind result_bind negb]. intros He%reject_if_ok. apply Forall_forall. intros tx Htx. apply not_true_iff_false. intros Hw.
       enough (existsb (fun tx : CTransaction => HasWitness tx) (vtx block) = true) by congruence. apply existsb_exists. exists tx. by rewrite <- list_elem_of_In. }
  destruct (_ =? -1) eqn:Ei; cbn [negb].
  { cbn [mbind result_bind negb]. intros He%reject_if_ok. apply Forall_forall. intros tx Htx. apply not_true_iff_false. intros Hw.
    enough (existsb (fun tx : CTransaction => HasWitness tx) (vtx block) = true) by congruence. apply existsb_exists. exists tx. by rewrite <- list_elem_of_In. }
  destruct (BlockWitnessMerkleRoot C block None) as [[root mut]|]; [|done]. destruct (vtx block) as [|cb rest] eqn:Ev; [done|]. destruct (vin cb) as [|i vi] eqn:Evi; [done|].
  destruct (vout cb !! _) as [o|] eqn:Eo; [|done]. destruct (scriptWitness i) as [|nonce [|? ?]] eqn:Es; [done | | done].
  intros Hx. apply bind_ok in Hx as (h & Hx & _). apply bind_ok in Hx as ([] & H1%reject_if_ok & Hx). apply bind_ok in Hx as ([] & H2%reject_if_ok & _).
  apply negb_false_iff in H1, H2. apply Z.eqb_eq in H1. exists cb, rest, i, vi, o, nonce, root, mut. by split_and!.
Qed.

Lemma check_final_rule csv mt : check_final_and_height params block (nHeight bp + 1) csv (Some mt) = Ok tt ->
  Forall (fun tx : CTransaction => IsFinalTx tx (nHeight bp + 1) (if bool_decide (csv = ACTIVE) then mt else header_GetBlockTime block) = true) (vtx block) /\
  (BIP34Height params <= nHeight bp + 1 -> exists cb i vi, first_tx block = Some cb /\ vin cb = i :: vi /\ push_int64 (nHeight bp + 1) `prefix_of` scriptSig i).
Proof.
  unfold check_final_and_height. destruct (if SigEncoding.has _ _ then Some mt else _) as [cut|] eqn:Ec; [|done]. intros Hx.
  apply bind_ok in Hx as ([] & H1%reject_if_ok & Hx). split.
  - assert (cut = if bool_decide (csv = ACTIVE) then mt else header_GetBlockTime block) as <- by (destruct (bool_decide (csv = ACTIVE)); cbn in Ec; by injection Ec as <-).
    apply Forall_forall. intros tx Htx. apply not_false_iff_true. intros Hf. enough (existsb (fun tx : CTransaction => negb (IsFinalTx tx (nHeight bp + 1) cut)) (vtx block) = true) by congruence.
    apply existsb_exists. exists tx. rewrite <- list_elem_of_In, Hf. by split.
  - intros Hh. apply Z.leb_le in Hh. rewrite Hh in Hx. destruct (first_tx block) as [cb|]; [|done]. destruct (vin cb) as [|i vi] eqn:Evi; [done|].
    apply reject_if_ok, negb_false_iff, bool_decide_eq_true in Hx. by exists cb, i, vi.
Qed.

Lemma ContextualCheckBlock_total limits t state cache : txs_ok block -> block_fine C Verify params limits t true true true block ->
  exists ok state' cache', ContextualCheckBlock C params m block state (Some prev) cache = Some (ok, state', cache') /\
    (ok = true -> state' = state /\ context_rules m prev cache) /\ (ok = false -> exists e, e <> BlockAbort /\ block_report (A := unit) state (Err e) = Some (false, state')).
Proof.
  intros Hok Hfine. unfold ContextualCheckBlock. rewrite Hprev. cbn [mbind option_bind].
  destruct (VersionBitsState_total DEPLOYMENT_CSV cache) as (csv & cache1 & Ecsv). rewrite Ecsv. cbn [mbind option_bind].
  destruct (mtp_total m Hm prev bp Hprev) as (mt & Hmt & _). unfold mtp in Hmt. rewrite Hmt.
  assert (forall e, e <> BlockAbort -> exists state', block_report (A := unit) state (Err e) = Some (false, state')) as Hrep by (intros []; try done; by eexists).
  assert (check_final_and_height params block (nHeight bp + 1) csv (Some mt) <> Err BlockAbort) as Hna.
  { unfold check_final_and_height. destruct (if SigEncoding.has _ _ then _ else _) as [cut|] eqn:Ec; [|by destruct (SigEncoding.has _ _)].
    unfold reject_if at 1. destruct (existsb _ _); cbn [mbind result_bind]; [done|]. destruct (_ <=? _); [|done].
    destruct (coinbase_inputs (proj1 (proj2 (proj2 (proj2 Hfine))))) as (cb & i & vi & -> & ->). unfold reject_if. by destruct (negb _). }
  destruct (check_final_and_height _ _ _ _ _) as [[]|e] eqn:Efin.
  2: { destruct (Hrep e) as [s' E]; [congruence|]. rewrite E. cbn [mbind option_bind]. exists false, s', cache1. split; [done|]. split; [done|]. intros _. exists e. split; [congruence | done]. }
  destruct (VersionBitsState_total DEPLOYMENT_SEGWIT cache1) as (sw & cache2 & Esw). rewrite Esw. cbn [mbind option_bind].
  assert (check_witnesses C block sw <> Err BlockAbort) as Hnw.
  { unfold check_witnesses. pose proof (check_commitment_total limits t (bool_decide (sw = ACTIVE)) Hok Hfine) as Hx. destruct (check_commitment _ _ _) as [h|e]; cbn [mbind result_bind]; [|congruence].
    destruct (negb h); [|done]. unfold reject_if. by destruct (existsb _ _). }
  destruct (check_witnesses _ _ _) as [[]|e] eqn:Ewit.
  - cbn [block_report mbind option_bind]. exists true, state, cache2. split; [done|]. split; [|done]. intros _. split; [done|].
    destruct (check_final_rule csv mt Efin) as [F1 F2]. exists bp, mt, csv, sw, cache1, cache2. split_and!; try done. by apply check_witnesses_rule.
  - destruct (Hrep e) as [s' E]; [congruence|]. unfold block_report in E |- *. rewrite E. cbn [mbind option_bind]. exists false, s', cache2. split; [done|]. split; [done|].
    intros _. exists e. split; [congruence | done].
Qed.
End Contents.

(** ** Accepting a block *)

(** Nothing usable is marked, and no block gets data or has it moved. *)
Definition unharmed (m m' : BlockMap) : Prop := forall q c, m !! q = Some c -> failed c = false -> exists c', m' !! q = Some c' /\ failed c' = false.
Definition no_new_data (m m' : BlockMap) : Prop := forall q c', m' !! q = Some c' -> nTx c' <> 0 -> exists c, m !! q = Some c /\ nTx c = nTx c' /\ nFile c = nFile c' /\ nDataPos c = nDataPos c'.

Lemma unharmed_trans m1 m2 m3 : unharmed m1 m2 -> unharmed m2 m3 -> unharmed m1 m3.
Proof. intros H1 H2 q c Hc Hf. destruct (H1 q c Hc Hf) as (c' & Hc' & Hf'). eauto. Qed.
Lemma no_new_data_trans m1 m2 m3 : no_new_data m1 m2 -> no_new_data m2 m3 -> no_new_data m1 m3.
Proof. intros H1 H2 q c Hc Hn. destruct (H2 q c Hc Hn) as (c' & Hc' & E & ? & ?). destruct (H1 q c' Hc') as (c0 & Hc0 & E0 & ? & ?); [congruence|]. exists c0. split_and!; congruence. Qed.
Lemma evolves_no_data m m' : evolves m m' -> no_new_data m m'.
Proof. intros He q c' Hc' _. destruct (evolved_lookup_rev _ _ He q c' Hc') as (c & Hc & (_ & E & _ & _ & _ & _ & _ & _ & E1 & E2)). by exists c. Qed.
Lemma insert_unharmed m h e : m !! h = None -> unharmed m (<[h := e]> m).
Proof. intros Hh q c Hc Hf. exists c. by rewrite lookup_insert_ne by congruence. Qed.
Lemma insert_no_data m h e : nTx e = 0 -> no_new_data m (<[h := e]> m).
Proof.
  intros Hz q c' Hc' Hn. destruct (decide (q = h)) as [->|Hne]; [rewrite lookup_insert_eq in Hc'; congruence|]. rewrite lookup_insert_ne in Hc' by done. by exists c'.
Qed.

Lemma insert_marks m h e : m !! h = None -> keeps_marks m (<[h := e]> m).
Proof. intros Hh q c Hc Hf. exists c. by rewrite lookup_insert_ne by congruence. Qed.

(** *** Where the data is *)

(** The part of a block file with the block and the eight bytes before it *)
Definition place (b : CBlockIndex) (block : CBlock) : extent := (nFile b, nDataPos b - 8, vsize (CBlock_Serialize SER_DISK CLIENT_VERSION block) + 8).

(** The places of the blocks whose transactions were received are among [l] and apart; [blk] gives
    the blocks. *)
Definition placed (C : Crypto) (m : BlockMap) (l : list extent) : Prop := exists blk : ptr -> CBlock,
  (forall p b, m !! p = Some b -> nTx b <> 0 -> Block_GetHash C (blk p) = p /\ place b (blk p) ∈ l) /\
  (forall p q b c, p <> q -> m !! p = Some b -> m !! q = Some c -> nTx b <> 0 -> nTx c <> 0 -> apart (place b (blk p)) (place c (blk q))).

Lemma placed_kept C m m' l : placed C m l -> no_new_data m m' -> placed C m' l.
Proof.
  intros (blk & H1 & H2) Hn. assert (forall p b, m' !! p = Some b -> nTx b <> 0 -> exists c, m !! p = Some c /\ nTx c <> 0 /\ forall k, place b k = place c k) as Hb.
  { intros p b Hp Hb. destruct (Hn p b Hp Hb) as (c & Hc & E1 & E2 & E3). exists c. split; [done|]. split; [congruence|]. intros k. unfold place. by rewrite E2, E3. }
  exists blk. split.
  - intros p b Hp Htx. destruct (Hb p b Hp Htx) as (c & Hc & Hcx & ->). by apply H1.
  - intros p q b c Hne Hp Hq Htb Htc. destruct (Hb p b Hp Htb) as (b0 & Hb0 & Hx & ->), (Hb q c Hq Htc) as (c0 & Hc0 & Hy & ->). by apply H2.
Qed.
Lemma placed_more C m x l : placed C m l -> placed C m (x :: l).
Proof. intros (blk & H1 & H2). exists blk. split; [|done]. intros p b Hp Hb. destruct (H1 p b Hp Hb). split; [done | by right]. Qed.

Lemma apart_comm x y : apart x y -> apart y x.
Proof. destruct x as [[f p] s], y as [[f' p'] s']. cbn. intros [H|[H|H]]; [left; congruence | right; by right | right; by left]. Qed.

(** The data of [p] arrives. *)
Lemma placed_new C m m' p b1 (block : CBlock) l : placed C m l -> same_data (<[p := b1]> m) m' -> Block_GetHash C block = p ->
  Forall (apart (place b1 block)) l -> placed C m' (place b1 block :: l).
Proof.
  intros (blk & H1 & H2) Hs Hh Ha. assert (forall q b, m' !! q = Some b -> nTx b <> 0 -> q = p /\ (forall k, place b k = place b1 k) \/
    q <> p /\ exists c, m !! q = Some c /\ nTx c <> 0 /\ forall k, place b k = place c k) as Hb.
  { intros q b Hq Hn. destruct (same_data_rev _ _ q b Hs Hq) as (c & Hc & (_ & T & _ & E1 & E2)). destruct (decide (q = p)) as [->|Hne].
    - left. rewrite lookup_insert_eq in Hc. injection Hc as <-. split; [done|]. intros k. unfold place. by rewrite E1, E2.
    - right. rewrite lookup_insert_ne in Hc by done. split; [done|]. exists c. split; [done|]. split; [congruence|]. intros k. unfold place. by rewrite E1, E2. }
  exists (fun q => if decide (q = p) then block else blk q). split.
  - intros q b Hq Hn. destruct (Hb q b Hq Hn) as [[-> ->]|(Hne & c & Hc & Hcn & ->)].
    + rewrite decide_True by done. split; [done | by left].
    + rewrite decide_False by done. destruct (H1 q c Hc Hcn). split; [done | by right].
  - intros q r b c Hne Hq Hr Hbn Hcn. destruct (Hb q b Hq Hbn) as [[-> ->]|(Hqp & b0 & Hb0 & Hbn0 & ->)], (Hb r c Hr Hcn) as [[-> ->]|(Hrp & c0 & Hc0 & Hcn0 & ->)]; [done | | |].
    + rewrite decide_True, decide_False by done. destruct (H1 r c0 Hc0 Hcn0) as [_ Hin]. by apply (proj1 (Forall_forall _ _) Ha).
    + rewrite decide_False, decide_True by done. destruct (H1 q b0 Hb0 Hbn0) as [_ Hin]. apply apart_comm. by apply (proj1 (Forall_forall _ _) Ha).
    + rewrite !decide_False by done. by apply H2.
Qed.

(** The block files and the places of the blocks of the index *)
Definition storage_ok (C : Crypto) (n : NodeState) : Prop := exists l, files_ok (ns_files n) l /\ placed C (cs_map (ns_chain n)) l.

Lemma storage_kept C n n' : storage_ok C n -> ns_files n' = ns_files n -> no_new_data (cs_map (ns_chain n)) (cs_map (ns_chain n')) -> storage_ok C n'.
Proof. intros (l & Hf & Hp) E Hn. exists l. rewrite E. split; [done | by apply (placed_kept C (cs_map (ns_chain n)))]. Qed.

(** A block that can be handled: fields and sizes are within their types *)
Record block_fits (block : CBlock) : Prop := {
  bf_header : header_fits block;
  bf_txs : txs_ok block;
  bf_scripts : scripts_fit block;
  bf_size : vsize (CBlock_Serialize SER_DISK CLIENT_VERSION block) + 8 < MAX_BLOCKFILE_SIZE }.

(** Room for the block in the tree *)
Definition tree_room (st : CChainState) (n : Z) : Prop :=
  (forall p b, cs_map st !! p = Some b -> nHeight b + nCheckpointSpan < 2 ^ 31) /\ forall q, txs (cs_map st) q + n < 2 ^ 32.
Definition block_room (st : CChainState) (block : CBlock) : Prop :=
  (forall p b, cs_map st !! p = Some b -> nHeight b + 1 + nCheckpointSpan < 2 ^ 31) /\
  (forall c, cs_map st !! hashPrevBlock block = Some c -> val (nChainWork c) + 2 ^ 256 / (compact_value (nBits block) + 1) < 2 ^ 256) /\
  (forall q, txs (cs_map st) q + vsize (vtx block) < 2 ^ 32).

Lemma block_header_room st block : block_room st block -> header_room st block.
Proof. intros (H1 & H2 & _). split; [|done]. intros p b Hp. specialize (H1 p b Hp). lia. Qed.

Section Accept.
Context (C : Crypto) (Verify : bytes -> uint256 -> bytes -> bool) (params : Params) (Hnet : network_ok params) (Hwin : 0 < nMinerConfirmationWindow params < 2 ^ 31).
Context (fCheckpointsEnabled : bool) (mapCheckpoints : list (Z * uint256)) (nAdjustedTime : Z) (addr : ptr -> Z).
Context (fPruneMode : bool) (CheckDiskSpace : Z -> bool) (write_block : CBlock -> CDiskBlockPos -> bool).
Context {B : Type} `{CoinsView B} (usage : Coin -> Z) {W : Type} (ops : BlockOps W).
Context (limits : BlockSizeParams) (nMinimumChainWork : base_uint).

Abbreviation accept_header := (AcceptBlockHeader C params fCheckpointsEnabled mapCheckpoints nAdjustedTime addr).
Abbreviation accept_block := (AcceptBlock C Verify params fCheckpointsEnabled mapCheckpoints nAdjustedTime addr fPruneMode CheckDiskSpace write_block usage ops limits nMinimumChainWork).

(** The entry keeps what matters when the hash of its proof is recorded. *)
Lemma record_proof_ok st block p b view : tree_ok params addr st -> cs_map st !! p = Some b ->
  record_proof C Verify params usage st block p view <> Err BlockAbort /\
  forall st', record_proof C Verify params usage st block p view = Ok st' -> tree_ok params addr st' /\ marked st st' /\
    (exists b', cs_map st' !! p = Some b' /\ failed b' = failed b /\ entry_evolves b b') /\ (forall q, q <> p -> cs_map st' !! q = cs_map st !! q).
Proof.
  intros K Hp. pose proof (ok_ready _ _ (to_state _ _ _ K)) as R. pose proof (r_index st R) as Hm. unfold record_proof. destruct (header_IsProofOfWork block) eqn:Ew.
  2: { split; [done|]. intros st' [= <-]. split; [done|]. split; [apply marked_refl|]. split; [|done]. exists b. split; [done|]. split; [done | apply entry_evolves_refl]. }
  rewrite Hp. cbn [total mbind result_bind]. assert (exists c, GetNextWorkRequired (cs_map st) (pprev b) block params (header_IsProofOfStake block) = Some c) as [c Hc].
  { destruct (pprev b) as [q|] eqn:Eq.
    - destruct (prev_entry _ Hm p b q Hp Eq) as (d & Hd & _).
      destruct (GetNextWorkRequired_spec (cs_map st) params (header_IsProofOfStake block) q d block Hm (proj1 Hnet _) (to_targets _ _ _ K _) Hd) as (c & Ec & _). eauto.
    - destruct (proj1 Hnet (header_IsProofOfStake block)) as [Hl Hlim _ _ _]. destruct (GetLimit_spec params (header_IsProofOfStake block) Hl) as [Hw Vw].
      destruct (GetCompact_acceptable params (header_IsProofOfStake block) (GetLimit params (header_IsProofOfStake block)) Hw ltac:(lia)) as (c & Ec & _).
      exists c. unfold GetNextWorkRequired. by rewrite Ec. }
  unfold UpdateHashProof. rewrite Hc. unfold header_IsProofOfWork in Ew. apply negb_true_iff in Ew. rewrite Ew. unfold header_IsProofOfWork. rewrite Ew. cbn [negb andb].
  destruct (_ <? _); cbn [fst mbind result_bind]; [by split|]. destruct (negb _); cbn [fst mbind result_bind]; [by split|].
  split; [done|]. intros st' [= <-]. destruct (set_hashProof_evolves b (Block_GetHash C block)) as [He Hf]. set (b' := set_hashProof b _) in *.
  pose proof (entry_later st p b b' R Hp He Hf) as M. split; [by apply (tree_marked params addr st)|]. split; [done|]. split.
  - exists b'. split; [apply lookup_insert_eq | by split].
  - intros q Hq. by apply lookup_insert_ne.
Qed.

(** The rules between the header and the contents *)
Lemma check_position_ok st (block : CBlock) b p : tree_ok params addr st -> (forall q c, cs_map st !! q = Some c -> nHeight c + nCheckpointSpan < 2 ^ 31) -> cs_map st !! p = Some b ->
  (exists cb i vi, first_tx block = Some cb /\ vin cb = i :: vi) -> check_position params nAdjustedTime st block b <> Err BlockAbort.
Proof.
  intros K Hroom Hp (cb & i & vi & Hcb & Hi). pose proof (ok_ready _ _ (to_state _ _ _ K)) as R. pose proof (height_range _ (r_index st R) p b Hp) as Hh.
  destruct (Tip (chainActive st)) as [t|] eqn:Et; [|by destruct (to_tip _ _ _ K)]. destruct (tip_entry st t R Et) as [bt Hbt].
  assert (exists s, CheckSync st (nHeight b) = Some s) as [s Es].
  { destruct (Z.eq_dec (nHeight b) 0) as [->|]; [by eexists|]. eexists. apply (CheckSync_spec st t bt R Et Hbt); [done | lia]. }
  unfold check_position. destruct (if 0 <? nHeight b then _ else _) as [prev|e] eqn:Ep; cbn [mbind result_bind].
  2: { destruct (0 <? nHeight b); [|done]. destruct (cs_map st !! hashPrevBlock block); [done|]. by injection Ep as <-. }
  destruct (header_IsProofOfWork block && _); cbn [mbind result_bind]; [done|]. rewrite Es. cbn [total mbind result_bind].
  destruct (negb s); cbn [mbind result_bind]; [done|].
  destruct (match prev with None => _ | Some c => _ end) as [[]|e] eqn:Eo; cbn [mbind result_bind].
  2: { destruct prev; [|done]. destruct (header_IsProofOfStake block && _); [by injection Eo as <- | done]. }
  destruct (header_IsProofOfStake block && _); cbn [mbind result_bind]; [done|].
  unfold height_in_coinbase. destruct (_ <=? _); [|done]. rewrite Hcb, Hi. by case_bool_decide.
Qed.

Lemma check_position_rule st (block : CBlock) b : check_position params nAdjustedTime st block b = Ok tt -> position_rules params block nAdjustedTime st b.
Proof.
  unfold check_position. intros Hx. apply bind_ok in Hx as (prev & E1 & Hx). apply bind_ok in Hx as ([] & E2 & Hx). apply bind_ok in Hx as (sync & E3%total_ok & Hx).
  apply bind_ok in Hx as ([] & E4 & Hx). apply bind_ok in Hx as ([] & E5 & Hx). apply bind_ok in Hx as ([] & E6 & _). split; [|split].
  - intros Hw. rewrite Hw in E2. cbn [andb] in E2. destruct (Z.ltb_spec (nLastPOWBlock params) (nHeight b)); [done | lia].
  - destruct sync; [done | by cbn in E4].
  - intros Hst. rewrite Hst in *. cbn [andb] in *. split; [destruct (Z.ltb_spec (FutureDrift nAdjustedTime) (header_GetBlockTime block)); [done | lia]|].
    intros c Hh Hc. apply Z.ltb_lt in Hh. rewrite Hh, Hc in E1. injection E1 as <-. destruct (_ || _) eqn:Eo; [done|]. apply orb_false_iff in Eo as [?%Z.leb_gt ?%Z.ltb_ge]. lia.
Qed.

(** A block that has failed has no data, so it is not active and was not a candidate. *)
Lemma blame_ok st p b state : tree_ok params addr st -> cs_map st !! p = Some b -> nTx b = 0 ->
  exists st', blame st p state = Some st' /\ tree_ok params addr st' /\ (corruptionPossible state = true -> st' = st) /\
    chainActive st' = chainActive st /\ no_new_data (cs_map st) (cs_map st') /\ keeps_marks (cs_map st) (cs_map st').
Proof.
  intros K Hp Hz. pose proof (to_state _ _ _ K) as Ks. pose proof (ok_ready _ _ Ks) as R. unfold blame.
  destruct (bool_decide _ && _) eqn:Eb.
  2: { exists st. split; [done|]. split; [done|]. split; [done|]. split; [done|]. split; [intros q c Hc _; by exists c | intros q c Hc Hx; by exists c]. }
  apply andb_true_iff in Eb as [_ Hnc%negb_true_iff].
  destruct (mark_dropped p p b BLOCK_FAILED_VALID st (or_intror eq_refl) Hp (ex_intro _ 0%nat eq_refl)) as (st1 & E1 & D & _). unfold add_status in E1 |- *.
  rewrite Hp in E1 |- *. cbn [mbind option_bind] in E1 |- *. injection E1 as <-. set (b' := set_nStatus b _) in *. set (st' := set_dirty (set_entry st p b') p) in *.
  assert (p ∉ setBlockIndexCandidates st) as Hnp.
  { intros Hin. destruct (r_cand st R p Hin) as (c & Hc & Hn). assert (c = b) as -> by congruence. by destruct (r_linked st R p b Hp Hn). }
  assert (erase_candidate st' p = st') as Ee.
  { unfold erase_candidate, set_candidates. assert (setBlockIndexCandidates st' ∖ {[p]} = setBlockIndexCandidates st') as -> by (clear -Hnp; set_solver). by destruct st'. }
  rewrite Ee in D. exists st'. split; [done|].
  assert (forall i q, chain_at (chainActive st) i = Some q -> ~ descends (cs_map st) q p) as Hact.
  { intros i q. apply (not_in_chain st p b i q R Hp). intros Hin. destruct (r_active st R _ p b Hin Hp) as (Hx & _). by destruct (r_linked st R p b Hp Hx). }
  assert (chain_state_ok addr st') as Ks'.
  { split; [by apply (ready_dropped p st) | apply (linked_evolves st); [done | apply Ks | apply D | apply D]|].
    intros q Hq. change (chainActive st') with (chainActive st). destruct (ok_complete _ _ Ks q (eligible_before _ _ q (dr_evolves _ _ _ D) Hq)) as [Hc|Hc]; [by left|right].
    by apply (wlt_opt_evolves addr _ _ q _ (dr_evolves _ _ _ D)). }
  split; [by apply (tree_evolves params addr st); [|apply evolves_tree, D | | apply K]|]. split; [congruence|]. split; [done|]. split; [apply evolves_no_data, D | apply evolves_marks, D].
Qed.

Lemma SaveBlockToDisk_ok files l block h : files_ok files l -> block_fits block ->
  exists pos files' x, SaveBlockToDisk fPruneMode CheckDiskSpace write_block files block h None = Some (pos, files') /\ files_ok files' (x :: l) /\
    (fst pos <> -1 -> x = (fst pos, snd pos - 8, vsize (CBlock_Serialize SER_DISK CLIENT_VERSION block) + 8)).
Proof.
  intros Hf Hb. pose proof (bf_size _ Hb) as Hs. unfold SaveBlockToDisk. rewrite bool_decide_eq_false_2 by (by intros [? [=]]). pose proof (vsize_nonneg (CBlock_Serialize SER_DISK CLIENT_VERSION block)).
  rewrite (u32_id (vsize _)), u32_id by (unfold MAX_BLOCKFILE_SIZE in Hs; lia).
  destruct (FindBlockPos_ok fPruneMode CheckDiskSpace files l (default CDiskBlockPos_SetNull None) (vsize (CBlock_Serialize SER_DISK CLIENT_VERSION block) + 8) h (header_GetBlockTime block) Hf)
    as (ok & pos & files' & -> & Hf' & H1 & H2 & H3); [lia|]. cbn [mbind option_bind]. destruct ok; cbn [negb]; [|by eexists _, _, _].
  destruct (write_block _ _); [|by eexists _, _, _]. eexists _, _, _. split; [done|]. split; [done|]. intros _. cbn [fst snd].
  rewrite u32_id by (unfold MAX_BLOCKFILE_SIZE in H3; lia). do 2 f_equal. lia.
Qed.

Lemma store_block_ok n block p b prev : tree_ok params addr (ns_chain n) -> storage_ok C n -> block_fits block -> tree_room (ns_chain n) (vsize (vtx block)) ->
  p = Block_GetHash C block -> cs_map (ns_chain n) !! p = Some b -> failed b = false -> nTx b = 0 -> pprev b = Some prev -> vtx block <> [] ->
  exists stored files', store_block params addr fPruneMode CheckDiskSpace write_block n block p b None = Some (stored, files') /\
    match stored with
    | None => forall bits, storage_ok C (mk_NodeState (ns_chain n) files' bits)
    | Some n' => tree_ok params addr (ns_chain n') /\ storage_ok C n' /\ chainActive (ns_chain n') = chainActive (ns_chain n) /\
        keeps_marks (cs_map (ns_chain n)) (cs_map (ns_chain n')) /\
        exists b1, cs_map (ns_chain n') !! p = Some b1 /\ nTx b1 = vsize (vtx block) /\ failed b1 = false /\ has b1 BLOCK_HAVE_DATA = true
    end.
Proof.
  intros K (l & Hf & Hpl) Hb [Hh Hroom] Hph Hp Hfl Hz Hprev Hne. unfold store_block. destruct (SaveBlockToDisk_ok (ns_files n) l block (nHeight b) Hf Hb) as (pos & files' & x & -> & Hf' & Hx).
  cbn [mbind option_bind]. destruct (Z.eqb_spec (fst pos) (-1)) as [|Hpos].
  { exists None, files'. split; [done|]. intros bits. exists (x :: l). split; [done | by apply placed_more]. }
  specialize (Hx Hpos). pose proof (ok_ready _ _ (to_state _ _ _ K)) as R. pose proof (r_index _ R) as Hm.
  rewrite Hprev. destruct (prev_entry _ Hm p b prev Hp Hprev) as (bp & Hbp & _). pose proof (Hh _ _ Hbp) as Hbh. unfold nCheckpointSpan in Hbh. unfold IsWitnessEnabled.
  destruct (VersionBitsState_total params _ Hm prev bp Hbp ltac:(lia) Hwin DEPLOYMENT_SEGWIT (ns_bits n)) as (sw & bits & ->). cbn [mbind option_bind].
  assert (0 < vsize (vtx block)) as Hlen by (destruct (vtx block) as [|tx0 txs0]; [done | rewrite vsize_cons; pose proof (vsize_nonneg txs0); lia]).
  destruct (ReceivedBlockTransactions_ok addr (ns_chain n) (bool_decide (sw = ACTIVE)) block p b pos (to_state _ _ _ K) Hp Hfl Hz Hlen Hroom) as (st' & E & Ks').
  rewrite E. cbn [mbind option_bind]. eexists (Some _), files'. split; [done|].
  destruct (received_same _ _ _ _ _ _ _ _ E Hp Hfl) as (b1 & Hs & Ha & Hsk & Ht & Hf1 & Hd & Hfile & Hdata).
  assert (same_tree (cs_map (ns_chain n)) (cs_map st')) as Htree by (eapply same_tree_trans; [by apply (same_tree_insert _ p b b1) | by apply same_data_tree]).
  split; [apply (tree_evolves params addr (ns_chain n)); [done | done | done | cbn [ns_chain]; rewrite Ha; apply K]|].
  assert (x = place b1 block) as -> by (rewrite Hx; unfold place; by rewrite Hfile, Hdata).
  split. { exists (place b1 block :: l). split; [done|]. apply (placed_new C (cs_map (ns_chain n)) _ p); [done | done | done|]. by destruct Hf' as [_ _ _ Hap]; inversion Hap. }
  split; [done|]. destruct (same_data_lookup _ _ p b1 Hs (lookup_insert_eq _ _ _)) as (b2 & Hb2 & (_ & T & U & _)). split; [|exists b2; split; [done|]; split].
  - intros q c Hq Hc. destruct (decide (q = p)) as [->|Hqp]; [assert (c = b) as -> by congruence; by rewrite (has_failed_valid b Hc) in Hfl|].
    destruct (same_data_lookup _ _ q c Hs) as (c' & Hc' & (_ & _ & Uc & _)); [by rewrite lookup_insert_ne|]. exists c'. split; [done|]. unfold has in *. by rewrite Uc.
  - rewrite T, Ht, u32_id; [done|]. split; [lia|]. pose proof (txs_nonneg _ p Hm (lk_tx _ _ (ok_linked _ _ (to_state _ _ _ K)))). specialize (Hroom p). lia.
  - unfold has in *. by rewrite U.
Qed.

(** After the header there is still room. *)
Lemma room_after st block r st' p : tree_ok params addr st -> block_room st block -> header_outcome C params fCheckpointsEnabled mapCheckpoints nAdjustedTime addr st block r st' -> r = Ok p ->
  tree_room st' (vsize (vtx block)).
Proof.
  intros K (Hh & _ & Htx) Ho Hr. destruct (ho_ok _ _ _ _ _ _ _ _ _ _ Ho p Hr) as (-> & _ & Hnew). pose proof (r_index _ (ok_ready _ _ (to_state _ _ _ K))) as Hm.
  destruct (cs_map st !! Block_GetHash C block) as [b|] eqn:Hb.
  { destruct (ho_known _ _ _ _ _ _ _ _ _ _ Ho b Hb) as [-> _]. split; [|done]. intros q c Hc. specialize (Hh q c Hc). lia. }
  destruct (Hnew eq_refl) as (e & Em & (Hz & _) & Hpe). pose proof (r_index _ (ok_ready _ _ (to_state _ _ _ (ho_tree _ _ _ _ _ _ _ _ _ _ Ho)))) as Hm'. rewrite Em in Hm'.
  assert (exists bp, cs_map st !! hashPrevBlock block = Some bp /\ nHeight e = nHeight bp + 1) as (bp & Hbp & Eh).
  { destruct (prev_entry _ Hm' _ e _ (lookup_insert_eq _ _ _) Hpe) as (bp & Hbp & Eh). destruct (decide (hashPrevBlock block = Block_GetHash C block)) as [E|Hne].
    - rewrite E, lookup_insert_eq in Hbp. injection Hbp as <-. lia.
    - rewrite lookup_insert_ne in Hbp by done. by exists bp. }
  unfold tree_room. rewrite Em. split.
  - intros q c Hc. destruct (new_lookup_rev _ _ e q c Hc) as [[-> ->]|[_ Hc0]]; [specialize (Hh _ _ Hbp) | specialize (Hh q c Hc0)]; lia.
  - intros q. destruct (cs_map st !! q) as [c|] eqn:Hc; [by rewrite (new_txs _ Hm _ e Hb q c)|]. destruct (decide (q = Block_GetHash C block)) as [->|Hne].
    + rewrite (txs_prev _ _ e (hashPrevBlock block) Hm') by (done || apply lookup_insert_eq). rewrite (new_txs _ Hm _ e Hb _ bp) by done. rewrite Hz. specialize (Htx (hashPrevBlock block)). lia.
    + unfold txs. rewrite lookup_insert_ne, Hc by done. specialize (Htx q). unfold txs in Htx. by rewrite Hc in Htx.
Qed.

(** A state with the contents as they were, apart from the header *)
Record header_kept (st st' : CChainState) : Prop := {
  hk_tree : tree_ok params addr st';
  hk_active : chainActive st' = chainActive st;
  hk_data : no_new_data (cs_map st) (cs_map st');
  hk_unharmed : unharmed (cs_map st) (cs_map st');
  hk_marks : keeps_marks (cs_map st) (cs_map st') }.

(** The rules a block obeys that is accepted as new, in the state with its header: it passes
    [CheckBlock], its place is right and it passes [ContextualCheckBlock]. *)
Definition accept_rules (n : NodeState) (block : CBlock) : Prop :=
  passed C Verify params block limits nAdjustedTime /\
  exists st1 b prev, header_kept (ns_chain n) st1 /\ cs_map st1 !! Block_GetHash C block = Some b /\ pprev b = Some prev /\
    position_rules params block nAdjustedTime st1 b /\ context_rules C params block (cs_map st1) prev (ns_bits n).

(** What acceptance of a block leaves *)
Record accept_outcome (n : NodeState) (block : CBlock) (a : accepted (W := W)) : Prop := {
  ao_tree : tree_ok params addr (ns_chain (ac_node a));
  ao_active : chainActive (ns_chain (ac_node a)) = chainActive (ns_chain n);
  ao_files : storage_ok C (ac_node a);
  ao_marks : keeps_marks (cs_map (ns_chain n)) (cs_map (ns_chain (ac_node a)));
  ao_stored : ac_ok a = true -> ac_new a = true -> accept_rules n block /\
    exists b, cs_map (ns_chain (ac_node a)) !! Block_GetHash C block = Some b /\ nTx b = vsize (vtx block) /\ failed b = false /\ has b BLOCK_HAVE_DATA = true;
  ao_refused : ac_ok a = false \/ ac_new a = false -> no_new_data (cs_map (ns_chain n)) (cs_map (ns_chain (ac_node a)));
  ao_corrupt : corruptionPossible (ac_state a) = true -> unharmed (cs_map (ns_chain n)) (cs_map (ns_chain (ac_node a))) }.

Lemma kept_outcome n block st' a : header_kept (ns_chain n) st' -> storage_ok C n -> ns_chain (ac_node a) = st' -> ns_files (ac_node a) = ns_files n ->
  ac_new a = false -> accept_outcome n block a.
Proof. intros [K1 K2 K3 K4 K5] Hf E1 E2 E3. split; rewrite ?E1, ?E3; try done. apply (storage_kept C n); [done | done | by rewrite E1]. Qed.

Lemma refused_ok n block state s e : e <> BlockAbort -> exists a : accepted (W := W), refused n block state s e = Some a /\ ac_new a = false /\ ac_ok a = false /\ ac_node a = n /\
  (corruptionPossible state = false -> (forall level code reason, e <> BlockReject level code reason true) -> corruptionPossible (ac_state a) = false).
Proof.
  intros He. unfold refused. destruct e as [level code reason c|level reason| |]; [..|done]; cbn [block_report mbind option_bind]; eexists; (split; [done|]); (split; [done|]);
    (split; [done|]); (split; [done|]); intros Hs Hn; cbn [ac_state]; try done.
  - unfold DoS. destruct c; [by destruct (Hn level code reason)|]. by case_bool_decide.
  - unfold Invalid, DoS. by repeat case_bool_decide.
Qed.

Lemma header_is_kept st block r st' p : header_outcome C params fCheckpointsEnabled mapCheckpoints nAdjustedTime addr st block r st' -> r = Ok p -> header_kept st st'.
Proof.
  intros Ho Hr. destruct (ho_ok _ _ _ _ _ _ _ _ _ _ Ho p Hr) as (-> & _ & Hnew). split; [apply Ho | apply Ho | | |]; destruct (cs_map st !! Block_GetHash C block) as [b|] eqn:Hb.
  - destruct (ho_known _ _ _ _ _ _ _ _ _ _ Ho b Hb) as [-> _]. intros q c Hc _. by exists c.
  - destruct (Hnew eq_refl) as (e & -> & (Hz & _) & _). by apply insert_no_data.
  - destruct (ho_known _ _ _ _ _ _ _ _ _ _ Ho b Hb) as [-> _]. intros q c Hc Hf. by exists c.
  - destruct (Hnew eq_refl) as (e & -> & _). by apply insert_unharmed.
  - destruct (ho_known _ _ _ _ _ _ _ _ _ _ Ho b Hb) as [-> _]. intros q c Hc Hf. by exists c.
  - destruct (Hnew eq_refl) as (e & -> & _). by apply insert_marks.
Qed.

Lemma check_contents_ok n block state b p prev : tree_ok params addr (ns_chain n) -> block_fits block -> flag_ok C Verify params block ->
  cs_map (ns_chain n) !! p = Some b -> pprev b = Some prev -> (forall q c, cs_map (ns_chain n) !! q = Some c -> nHeight c + nCheckpointSpan < 2 ^ 31) ->
  exists ok state' f bits, check_contents C Verify params nAdjustedTime limits n block state b = Some (ok, state', set_checked block f, bits) /\
    (ok = true -> state' = state /\ passed C Verify params block limits nAdjustedTime /\ context_rules C params block (cs_map (ns_chain n)) prev (ns_bits n)).
Proof.
  intros K Hb Hflag Hp Hprev Hroom. pose proof (r_index _ (ok_ready _ _ (to_state _ _ _ K))) as Hm. unfold check_contents.
  destruct (CheckBlock_total C Verify params block limits nAdjustedTime state (bf_txs _ Hb) (bf_scripts _ Hb) Hflag) as (ok & state' & -> & Hok & _).
  cbn [mbind option_bind]. destruct ok; [|by exists false, state', false, (ns_bits n)]. destruct (Hok eq_refl) as (-> & Hpass). destruct (passed_fine _ _ _ _ _ _ Hpass) as (limits' & t' & Hfine).
  rewrite Hprev. destruct (prev_entry _ Hm p b prev Hp Hprev) as (bp & Hbp & _). pose proof (Hroom _ _ Hbp) as Hh. unfold nCheckpointSpan in Hh.
  destruct (ContextualCheckBlock_total C Verify params (set_checked block true) _ Hm prev bp Hbp ltac:(lia) Hwin limits' t' state (ns_bits n) (bf_txs _ Hb) Hfine)
    as (ok & state' & bits & -> & Hok' & _). cbn [mbind option_bind]. exists ok, state', true, bits. split; [done|]. intros ->. destruct (Hok' eq_refl). by split_and!.
Qed.

Lemma wanted_total st b fRequested : ready st -> exists w, wanted nMinimumChainWork st b fRequested = Some w /\ (w = true -> has b BLOCK_HAVE_DATA = false).
Proof.
  intros R. unfold wanted. destruct (Tip (chainActive st)) as [t|] eqn:Et.
  - destruct (tip_entry st t R Et) as [bt ->]. cbn [mbind option_bind]. eexists. split; [done|]. by intros [?%negb_true_iff _]%andb_true_iff.
  - cbn [mbind option_bind]. eexists. split; [done|]. by intros [?%negb_true_iff _]%andb_true_iff.
Qed.

(** From the contents on: the entry is there, without data *)
Lemma contents_stage n0 n block state b p prev s : header_kept (ns_chain n0) (ns_chain n) -> ns_files n = ns_files n0 -> ns_bits n = ns_bits n0 -> storage_ok C n0 -> block_fits block ->
  flag_ok C Verify params block -> tree_room (ns_chain n) (vsize (vtx block)) -> p = Block_GetHash C block -> cs_map (ns_chain n) !! p = Some b -> failed b = false -> nTx b = 0 ->
  pprev b = Some prev -> position_rules params block nAdjustedTime (ns_chain n) b ->
  exists a : accepted (W := W), ('(ok, state, block, bits) ← check_contents C Verify params nAdjustedTime limits n block state b;
      let n := mk_NodeState (ns_chain n) (ns_files n) bits in
      if negb ok then st ← blame (ns_chain n) p state; Some (mk_accepted false state false block (set_chain n st) s)
      else
        '(stored, files) ← store_block params addr fPruneMode CheckDiskSpace write_block n block p b None;
        match stored with
        | None => Some (mk_accepted false (Error state "AcceptBlock: Failed to find position to write new block to disk"%string) true block
                          (mk_NodeState (ns_chain n) files bits) s)
        | Some n => Some (mk_accepted true state true block n (default s (op_flush ops FLUSH_NONE s)))
        end) = Some a /\ (corruptionPossible state = false -> accept_outcome n0 block a).
Proof.
  intros Hk Ef0 Eb0 Hf0 Hb Hflag Hroom -> Hp Hfl Hz Hprev Hpos. pose proof Hk as [K1 K2 K3 K4 K5]. assert (storage_ok C n) as Hf by (by apply (storage_kept C n0)).
  destruct (check_contents_ok n block state b _ prev K1 Hb Hflag Hp Hprev (proj1 Hroom)) as (ok & state' & f & bits & -> & Hok). cbn [mbind option_bind].
  destruct ok; cbn [negb].
  - destruct (Hok eq_refl) as (-> & Hpass & Hctx). destruct (passed_fine _ _ _ _ _ _ Hpass) as (limits' & t' & Hfine).
    assert (vtx block <> []) as Hne by (destruct (proj1 (proj2 (proj2 (proj2 Hfine)))) as (? & ? & -> & _); done).
    assert (accept_rules n0 block) as Hrules by (split; [done|]; exists (ns_chain n), b, prev; rewrite <- Eb0; by split_and!).
    assert (block_fits (set_checked block f)) as Hb' by (by destruct Hb; split).
    destruct (store_block_ok (mk_NodeState (ns_chain n) (ns_files n) bits) (set_checked block f) (Block_GetHash C block) b prev K1 Hf Hb' Hroom eq_refl Hp Hfl Hz Hprev Hne)
      as (stored & files & -> & Hst). cbn [mbind option_bind]. destruct stored as [n'|]; (eexists; split; [done|]); intros Hc.
    + destruct Hst as (S1 & S2 & S3 & S4 & b1 & S5). split; cbn [ac_node ac_ok ac_new ac_state].
      * done.
      * by rewrite S3.
      * done.
      * by eapply keeps_marks_trans.
      * intros _ _. split; [done|]. by exists b1.
      * by intros [?|?].
      * congruence.
    + split; cbn [ac_node ac_ok ac_new ac_state ns_chain ns_files]; done.
  - cbn [ns_chain ns_files set_chain]. destruct (blame_ok (ns_chain n) _ b state' K1 Hp Hz) as (st' & -> & B1 & B2 & B3 & B4 & B5). cbn [mbind option_bind]. eexists. split; [done|].
    intros Hc. split; cbn [ac_node ac_ok ac_new ac_state ns_chain ns_files set_chain]; try done.
    + by rewrite B3.
    + by apply (storage_kept C n).
    + by eapply keeps_marks_trans.
    + intros _. by eapply no_new_data_trans.
    + intros Hx. by rewrite (B2 Hx).
Qed.

Lemma AcceptBlock_ok n block state fRequested view s : tree_ok params addr (ns_chain n) -> storage_ok C n -> block_fits block -> block_room (ns_chain n) block ->
  flag_ok C Verify params block -> (exists cb i vi, first_tx block = Some cb /\ vin cb = i :: vi) ->
  exists a, accept_block n block state fRequested None view s = Some a /\ (corruptionPossible state = false -> accept_outcome n block a).
Proof.
  intros K Hf Hb Hroom Hflag Hcb. unfold AcceptBlock.
  destruct (AcceptBlockHeader_ok C params Hnet fCheckpointsEnabled mapCheckpoints nAdjustedTime addr (ns_chain n) block K (bf_header _ Hb) (block_header_room _ _ Hroom)) as (r & st1 & -> & Ho).
  destruct r as [p|e]; cbn [mbind result_bind].
  2: { destruct (refused_ok (set_chain n st1) block state s e) as (a & Ea & A1 & A2 & A3 & A4); [intros ->; by apply (ho_answer _ _ _ _ _ _ _ _ _ _ Ho)|]. exists a. split; [done|]. intros Hc.
       destruct (ho_err _ _ _ _ _ _ _ _ _ _ Ho) as [M Hcase]; [done|]. pose proof (evolves_no_data _ _ (mk_evolves _ _ M)) as Hnd.
       split; rewrite ?A3; cbn [ns_chain ns_files set_chain]; rewrite ?A1, ?A2; try done; [apply Ho | apply M | by apply (storage_kept C n) | apply evolves_marks, M|].
       destruct Hcase as [->|(level & code & reason & [= ->])]; [intros _ q c Hq Hn; by exists c|]. rewrite A4; done. }
  destruct (ho_ok _ _ _ _ _ _ _ _ _ _ Ho p eq_refl) as (-> & (e1 & He1 & Hf1) & _). pose proof (header_is_kept _ _ _ _ _ Ho eq_refl) as Hk1.
  pose proof (room_after _ _ _ _ _ K Hroom Ho eq_refl) as Hr1. destruct (record_proof_ok st1 block _ e1 view (hk_tree _ _ Hk1) He1) as [Hna Hrec].
  assert (forall st' e, header_kept (ns_chain n) st' -> e <> BlockAbort -> exists a, refused (set_chain n st') block state s e = Some a /\ (corruptionPossible state = false -> accept_outcome n block a)) as Hrefuse.
  { intros st' e Hk He. destruct (refused_ok (set_chain n st') block state s e He) as (a & Ea & A1 & A2 & A3 & _). exists a. split; [done|]. intros _. by apply (kept_outcome n block st'); rewrite ?A3. }
  destruct (record_proof C Verify params usage st1 block _ view) as [st2|e]; cbn [mbind result_bind]; [|by apply Hrefuse; [|congruence]].
  destruct (Hrec st2 eq_refl) as (K2 & M2 & (b & Hp & Hfl & He) & Hoth). rewrite Hp. cbn [total mbind result_bind].
  assert (header_kept (ns_chain n) st2) as Hk2.
  { split; [done | by rewrite (mk_active _ _ M2); apply Hk1 | eapply no_new_data_trans; [apply Hk1 | apply evolves_no_data, M2]| |].
    - apply (unharmed_trans _ (cs_map st1)); [apply Hk1|]. intros q c Hq Hn. destruct (decide (q = Block_GetHash C block)) as [->|Hne]; [exists b; split; [done | congruence]|]. exists c. by rewrite Hoth.
    - eapply keeps_marks_trans; [apply Hk1 | apply evolves_marks, M2]. }
  assert (tree_room st2 (vsize (vtx block))) as Hr2.
  { pose proof (evolves_tree _ _ (mk_evolves _ _ M2)) as Ht. split.
    - intros q c Hc. destruct (same_lookup_rev _ _ Ht q c Hc) as (c0 & Hc0 & (_ & _ & _ & -> & _)). by apply (proj1 Hr1 q).
    - intros q. destruct (cs_map st1 !! q) as [c|] eqn:Hc.
      + rewrite (txs_same _ (cs_map st2) q c (r_index _ (ok_ready _ _ (to_state _ _ _ (hk_tree _ _ Hk1)))) Ht Hc); [by apply Hr1|].
        intros k x y y' _ Hy Hy'. destruct (evolved_lookup _ _ (mk_evolves _ _ M2) x y Hy) as (y0 & Hy0 & (_ & E & _)). congruence.
      + pose proof (proj2 Hr1 q) as Hq. unfold txs in Hq |- *. rewrite Hc in Hq. by rewrite (same_none _ _ Ht q Hc). }
  pose proof (check_position_ok st2 block b _ K2 (proj1 Hr2) Hp Hcb) as Hpos.
  destruct (check_position params nAdjustedTime st2 block b) as [[]|e] eqn:Eposn; [|by apply Hrefuse; [|congruence]]. clear Hpos. apply check_position_rule in Eposn.
  pose proof (ok_ready _ _ (to_state _ _ _ K2)) as R2. destruct (wanted_total st2 b fRequested R2) as (w & -> & Hw). cbn [mbind option_bind].
  destruct w; cbn [negb]; [|eexists; split; [done|]; intros _; by apply (kept_outcome n block st2)].
  assert (nTx b = 0) as Hz.
  { destruct (Z.eq_dec (nTx b) 0); [done|]. pose proof (r_data st2 R2 _ b Hp n0). rewrite Hw in *; done. }
  assert (exists prev, pprev b = Some prev) as [prev Hprev].
  { destruct (pprev b) as [q|] eqn:Eq; [eauto|]. pose proof (to_root _ _ _ K2 _ b Hp Eq) as Eg. destruct (genesis_active params addr st2 K2) as [_ (g & Hg & _ & Hn & _)]. rewrite Eg in Hp. congruence. }
  apply (contents_stage n (set_chain n st2) block state b _ prev s); try done. congruence.
Qed.
End Accept.

(** ** Activation *)

(** A tree whose genesis block can be the tip *)
Record rooted (params : Params) (addr : ptr -> Z) (st : CChainState) : Prop := {
  rt_state : chain_state_ok addr st;
  rt_targets : forall f, targets_ok params f (cs_map st);
  rt_root : forall p b, cs_map st !! p = Some b -> pprev b = None -> p = hashGenesisBlock params;
  rt_genesis : is_Some (cs_map st !! hashGenesisBlock params) /\ sound_chain (cs_map st) (hashGenesisBlock params) }.

Lemma tree_rooted params addr st : tree_ok params addr st -> rooted params addr st.
Proof.
  intros K. destruct (genesis_active params addr st K) as [H0 (g & Hg & _)]. destruct (K) as [K1 K2 K3 K4]. split; try done. split; [eauto|].
  pose proof (ok_ready _ _ K1) as R. destruct (Tip (chainActive st)) as [t|] eqn:Et; [|done].
  destruct (chain_member _ _ t 0 _ (r_index st R) (tip_chain st t R Et) H0) as [k Hk]. by apply (sound_up _ t k); [apply tip_sound|].
Qed.

(** The tip is usable and nothing usable is better. *)
Definition best_active (addr : ptr -> Z) (st : CChainState) : Prop :=
  exists t, Tip (chainActive st) = Some t /\ available (cs_map st) t /\ forall q, available (cs_map st) q -> worse addr (cs_map st) t (Some q) = Some false.

Lemma activated_tree params C addr {W} (ops : BlockOps W) shutdown pblock st s : (forall p q, addr p = addr q -> p = q) -> ops_ok ops -> rooted params addr st ->
  exists ok st' s', ActivateBestChain C addr ops shutdown st pblock s = Some (ok, st', s') /\ ready st' /\ linked_ok st' /\ evolves (cs_map st) (cs_map st') /\
    (ok = true -> (forall k, shutdown k = false) -> reneged (cs_map st) (cs_map st') \/ tree_ok params addr st' /\ best_active addr st').
Proof.
  intros Haddr Hops [[R Lk Hc] Ht Hr [Hg Hs]]. destruct (ActivateBestChain_ok C addr Haddr ops Hops shutdown pblock st s R Hc) as (ok & st' & s' & E & R' & L & Hok).
  pose proof (linked_evolves st st' R Lk (lt_evolves _ _ L) (lt_unlinked _ _ L)) as Lk'. exists ok, st', s'. split; [done|]. split; [done|]. split; [done|]. split; [apply L|].
  intros -> Hsd. destruct (Hok eq_refl) as [?|[Hc' Hb]]; [by left|]. specialize (Hb Hsd). unfold best_tip in Hb. destruct (lt_sound _ _ L) as [?|Hsound]; [by left | right].
  pose proof (evolves_tree _ _ (lt_evolves _ _ L)) as Htree. destruct Hg as [g Hg]. destruct (same_lookup _ _ Htree _ g Hg) as (g' & Hg' & _).
  assert (eligible (cs_map st') (hashGenesisBlock params)) as Heg by (apply sound_eligible; [eauto | by apply Hsound]).
  destruct (Tip (chainActive st')) as [t|] eqn:Et; [|by destruct (Hb _ Heg)]. split.
  - split; [split; [done | done | by rewrite Et] | intros f; by apply (same_targets params f (cs_map st)) | | congruence]. intros p b' Hp Hn.
    destruct (same_lookup_rev _ _ Htree p b' Hp) as (b & Hb' & (_ & E' & _)). apply (Hr p b Hb'). congruence.
  - destruct (tip_entry st' t R' Et) as [bt Hbt]. exists t. split; [done|]. split; [apply available_eligible; [done..|]; apply sound_eligible; [eauto | by apply tip_sound]|].
    intros q Hq. apply available_eligible in Hq; [|done..]. destruct (Hq) as [(c & Hcq & _) _].
    destruct (worse_spec addr _ t q bt c (r_index st' R') Hbt Hcq) as (w & -> & Hw). destruct w; [|done]. destruct (Hb q Hq). by apply Hw.
Qed.

(** ** The node *)

Section Node.
Context (C : Crypto) (Verify : bytes -> uint256 -> bytes -> bool) (params : Params) (Hnet : network_ok params) (Hwin : 0 < nMinerConfirmationWindow params < 2 ^ 31).
Context (fCheckpointsEnabled : bool) (mapCheckpoints : list (Z * uint256)) (addr : ptr -> Z) (Haddr : forall p q, addr p = addr q -> p = q).
Context (fPruneMode : bool) (CheckDiskSpace : Z -> bool) (write_block : CBlock -> CDiskBlockPos -> bool).
Context {B : Type} `{CoinsView B} (usage : Coin -> Z) {W : Type} (ops : BlockOps W) (Hops : ops_ok ops) (ShutdownRequested : nat -> bool).
Context (limits : BlockSizeParams) (nMinimumChainWork : base_uint).

(** [GetAdjustedTime()] is the first argument. *)
Abbreviation accept_header t := (AcceptBlockHeader C params fCheckpointsEnabled mapCheckpoints t addr).
Abbreviation accept_block t := (AcceptBlock C Verify params fCheckpointsEnabled mapCheckpoints t addr fPruneMode CheckDiskSpace write_block usage ops limits nMinimumChainWork).
Abbreviation process_block t := (ProcessNewBlock C Verify params fCheckpointsEnabled mapCheckpoints t addr fPruneMode CheckDiskSpace write_block usage ops ShutdownRequested limits nMinimumChainWork).
Abbreviation load_genesis := (LoadGenesisBlock C params addr fPruneMode CheckDiskSpace write_block).
Abbreviation activate := (ActivateBestChain C addr ops ShutdownRequested).

Definition node_ok (n : NodeState) : Prop := tree_ok params addr (ns_chain n) /\ storage_ok C n.

Abbreviation rules t := (accept_rules C Verify params t addr limits).

(** Whether [ProcessNewBlock] stops before it activates a chain: [CheckBlock] or [AcceptBlock] fails. *)
Definition not_activated t n block fForceProcessing view s : Prop :=
  forall a, accept_block t n (set_checked block true) CValidationState_new fForceProcessing None view s = Some a -> ac_ok a = false.

Lemma ProcessNewBlock_ok t n block fForceProcessing view s : node_ok n -> block_fits block -> block_room (ns_chain n) block -> flag_ok C Verify params block ->
  exists ok new n' s', process_block t n block fForceProcessing view s = Some (ok, new, n', s') /\ storage_ok C n' /\
    (ok = true -> (forall k, ShutdownRequested k = false) -> reneged (cs_map (ns_chain n)) (cs_map (ns_chain n')) \/ tree_ok params addr (ns_chain n') /\ best_active addr (ns_chain n')) /\
    (ok = false -> not_activated t n block fForceProcessing view s -> tree_ok params addr (ns_chain n')) /\
    (ok = true -> new = true -> rules t n block /\
       exists b, cs_map (ns_chain n') !! Block_GetHash C block = Some b /\ nTx b = vsize (vtx block) /\ has b BLOCK_HAVE_DATA = true).
Proof.
  intros [K Hf] Hb Hroom Hflag. unfold ProcessNewBlock.
  destruct (CheckBlock_total C Verify params block limits t CValidationState_new (bf_txs _ Hb) (bf_scripts _ Hb) Hflag) as (ok & state & -> & Hok & _).
  cbn [mbind option_bind]. destruct ok; cbn [negb]; [|by exists false, false, n, s].
  destruct (Hok eq_refl) as (-> & Hpass). destruct (passed_fine _ _ _ _ _ _ Hpass) as (limits' & t' & Hfine). set (block1 := set_checked block true).
  assert (block_fits block1) as Hb1 by (by destruct Hb; split). assert (flag_ok C Verify params block1) as Hflag1 by (intros _; by exists limits', t').
  destruct (AcceptBlock_ok C Verify params Hnet Hwin fCheckpointsEnabled mapCheckpoints t addr fPruneMode CheckDiskSpace write_block usage ops limits nMinimumChainWork
    n block1 CValidationState_new fForceProcessing view s K Hf Hb1 Hroom Hflag1 (coinbase_inputs block (proj1 (proj2 (proj2 (proj2 Hfine)))))) as (a & Ea & Ha).
  rewrite Ea. cbn [mbind option_bind]. destruct (Ha eq_refl) as [A1 A2 A3 A4 A5 _ _]. destruct (ac_ok a) eqn:Eok; cbn [negb].
  2: { eexists false, (ac_new a), (ac_node a), _. split; [done|]. by split_and!. }
  destruct (activated_tree params C addr ops ShutdownRequested (Some (ac_block a)) (ns_chain (ac_node a)) (ac_world a) Haddr Hops (tree_rooted _ _ _ A1))
    as (ok & st' & s' & -> & R' & Lk' & Hev & Hbest). cbn [mbind option_bind]. exists ok, (ac_new a), (set_chain (ac_node a) st'), s'. split; [done|].
  split; [by apply (storage_kept C (ac_node a)), evolves_no_data|]. split; [|split].
  - intros Ho Hsd. destruct (Hbest Ho Hsd) as [Hr|]; [left; by apply (reneged_r _ (cs_map (ns_chain (ac_node a)))) | by right].
  - intros _ Hna. specialize (Hna a Ea). congruence.
  - intros -> Hnew. destruct (A5 eq_refl Hnew) as [Hr (b & Hbk & Htx & _ & Hd)]. split; [split; [done | apply (proj2 Hr)]|].
    destruct (evolved_lookup _ _ Hev _ b Hbk) as (b' & Hb' & (_ & E1 & _ & _ & E2 & _)). exists b'. split; [done|]. rewrite E1, E2. by split.
Qed.

(** *** Headers in a row *)

Fixpoint headers_fit (t : Z) (st : CChainState) (headers : list CBlockHeader) : Prop :=
  match headers with
  | [] => True
  | header :: headers => header_fits header /\ header_room st header /\ headers_fit t (snd (accept_header t st header)) headers
  end.

(** The headers are taken in order up to the first that is not accepted. *)
Lemma process_headers_ok t headers : forall st state last first, tree_ok params addr st -> headers_fit t st headers ->
  exists ok state' st' bad last' first', process_headers C params fCheckpointsEnabled mapCheckpoints t addr st state headers last first = Some (ok, state', st', bad, last', first') /\
    tree_ok params addr st' /\ (forall p, is_Some (cs_map st !! p) -> is_Some (cs_map st' !! p)) /\
    match bad with
    | None => ok = true /\ Forall (fun h => is_Some (cs_map st' !! Block_GetHash C h)) headers
    | Some h => ok = false /\ h ∈ headers
    end.
Proof.
  induction headers as [|h headers IH]; intros st state last first K Hfit; cbn [process_headers].
  { eexists _, _, _, None, _, _. split; [done|]. by split_and!. }
  destruct Hfit as (H1 & H2 & H3). destruct (AcceptBlockHeader_ok C params Hnet fCheckpointsEnabled mapCheckpoints t addr st h K H1 H2) as (r & st1 & E & Ho). rewrite E in H3 |- *. cbn [snd] in H3.
  destruct Ho as [O1 O2 _ O4 _ O6 O7]. destruct r as [p|e].
  - cbn [block_report mbind option_bind]. destruct (IH st1 state (Some p) (match first with None => Some p | _ => first end) O2 H3) as (ok & state' & st' & bad & last' & first' & -> & K' & Hkeep & Hb).
    destruct (O6 p eq_refl) as (-> & (e1 & He1 & _) & Hnew). assert (forall q, is_Some (cs_map st !! q) -> is_Some (cs_map st1 !! q)) as Hk1.
    { intros q [c Hq]. destruct (cs_map st !! Block_GetHash C h) as [b|] eqn:Hh; [destruct (O4 b eq_refl) as [-> _]; eauto|]. destruct (Hnew eq_refl) as (e2 & -> & _).
      destruct (decide (q = Block_GetHash C h)) as [->|]; [rewrite lookup_insert_eq | rewrite lookup_insert_ne]; eauto. }
    eexists ok, state', st', bad, last', first'. split; [done|]. split; [done|]. split; [auto|].
    destruct bad as [x|]; [destruct Hb; split; [done | by right]|]. destruct Hb as [-> Hall]. split; [done|]. constructor; [|done]. apply Hkeep. eauto.
  - assert (exists state', block_report (A := ptr) state (Err e) = Some (false, state')) as [state' Er] by (destruct e; [by eexists.. | done]). rewrite Er. cbn [mbind option_bind].
    eexists false, state', st1, (Some h), last, first. split; [done|]. split; [done|]. split; [|split; [done | by left]]. intros q [c Hq]. destruct O7 as [M _]; [done|].
    destruct (evolved_lookup _ _ (mk_evolves _ _ M) q c Hq) as (c' & Hc' & _). eauto.
Qed.

(** *** The genesis block *)

Definition start_node : NodeState := mk_NodeState empty_chain_state (mk_FileState [] 0 ∅ false) VersionBitsCache_Clear.

(** A genesis block the node can start from *)
Record genesis_ok (block : CBlock) : Prop := {
  ge_fits : block_fits block;
  ge_hash : Block_GetHash C block = hashGenesisBlock params;
  ge_prev : hashPrevBlock block <> Block_GetHash C block;
  ge_bits : acceptable params (header_IsProofOfStake block) (nBits block);
  ge_txs : 0 < vsize (vtx block) < 2 ^ 32 }.

Lemma LoadGenesisBlock_ok block : genesis_ok block -> exists ok n, load_genesis start_node block = Some (ok, n) /\
  (ok = true -> rooted params addr (ns_chain n) /\ storage_ok C n).
Proof.
  intros [Hb Hh Hp Hbits Htx]. unfold LoadGenesisBlock. rewrite decide_False by (cbn; rewrite lookup_empty; by intros [? [=]]).
  assert (files_ok (ns_files start_node) []) as Hf0 by (apply (files_reachable_ok fPruneMode CheckDiskSpace); constructor).
  destruct (SaveBlockToDisk_ok fPruneMode CheckDiskSpace write_block (ns_files start_node) [] block 0 Hf0 Hb) as (pos & files & x & -> & Hf & Hplace).
  cbn [mbind option_bind]. destruct (Z.eqb_spec (fst pos) (-1)) as [|Hpos]; [by eexists false, _|]. specialize (Hplace Hpos).
  pose proof (empty_ok addr) as K0. set (st0 := ns_chain start_node) in *. change (chain_state_ok addr st0) in K0.
  assert (addable C (cs_map st0) block) as Hadd by (split; [done|]; split; [apply (bf_header _ Hb) | by intros c; cbn; rewrite lookup_empty]).
  destruct (AddToBlockIndex_ok C (cs_index st0) block (conj (r_index _ (ok_ready _ _ K0)) (r_header _ (ok_ready _ _ K0))) Hadd) as (i & e0 & E & _).
  destruct (AddToBlockIndex_new C (cs_index st0) block i _ (r_index _ (ok_ready _ _ K0)) Hadd E) as [_ [->|(_ & e & Hi & Hok & (O1 & O2 & O3 & O4 & O5) & Hst & Hpe)]].
  { exfalso. destruct (AddToBlockIndex_ok C (cs_index st0) block (conj (r_index _ (ok_ready _ _ K0)) (r_header _ (ok_ready _ _ K0))) Hadd) as (i' & e' & E' & _ & He' & _).
    rewrite E in E'. injection E' as <-. cbn in He'. by rewrite lookup_empty in He'. }
  rewrite E. cbn [mbind option_bind]. change (mapBlockIndex (cs_index st0)) with (∅ : BlockMap) in Hpe, Hi. rewrite lookup_empty in Hpe. cbn in Hpe.
  assert (chain_state_ok addr (set_index st0 i)) as K1.
  { apply (header_ok C addr st0 block i _ K0 Hadd E). intros e' q c _ _. cbn. by rewrite lookup_empty. }
  set (st1 := set_index st0 i) in *. assert (cs_map st1 = {[Block_GetHash C block := e]}) as Em1 by exact Hi.
  assert (cs_map st1 !! Block_GetHash C block = Some e) as He by (by rewrite Em1, lookup_singleton_eq). rewrite He. cbn [mbind option_bind].
  destruct (set_hashProof_evolves e (hashGenesisBlock params)) as [Hev Hfl]. set (e2 := set_hashProof e _) in *.
  pose proof (marked_state addr _ _ K1 (entry_later st1 _ e e2 (ok_ready _ _ K1) He Hev Hfl)) as K2. set (st2 := set_entry st1 _ e2) in *.
  assert (cs_map st2 = {[Block_GetHash C block := e2]}) as Em2 by (change (cs_map st2) with (<[Block_GetHash C block := e2]> (cs_map st1)); rewrite Em1; apply insert_singleton_eq).
  rewrite Hpe. assert (exists sw bits, VersionBitsState (cs_map st2) None params DEPLOYMENT_SEGWIT (ns_bits start_node) = Some (sw, bits)) as (sw & bits & Ev).
  { assert (0 < Period (VersionBitsConditionChecker params DEPLOYMENT_SEGWIT) < 2 ^ 31) as Hper by (cbn [Period VersionBitsConditionChecker]; rewrite i32_id; lia).
    destruct (GetStateFor_total (cs_map st2) (r_index _ (ok_ready _ _ K2)) _ Hper None (ns_bits start_node DEPLOYMENT_SEGWIT)) as [[sw c] Es]; [by intros p [=]|].
    unfold VersionBitsState. rewrite Es. by eexists _, _. }
  unfold IsWitnessEnabled. rewrite Ev. cbn [mbind option_bind].
  assert (cs_map st2 !! Block_GetHash C block = Some e2) as He2 by (by rewrite Em2, lookup_singleton_eq). assert (nTx e2 = 0 /\ pprev e2 = None) as [Z2 P2] by (by destruct e).
  destruct (ReceivedBlockTransactions_ok addr st2 (bool_decide (sw = ACTIVE)) block _ e2 pos K2 He2) as (st3 & E3 & K3); [by rewrite Hfl; apply failed_tree | done | lia | |].
  { intros q. destruct (cs_map st2 !! q) as [c|] eqn:Hq; [|unfold txs; rewrite Hq; lia]. rewrite Em2 in Hq. apply lookup_singleton_Some in Hq as [<- <-].
    rewrite (txs_first _ _ e2) by done. lia. }
  rewrite E3. cbn [mbind option_bind]. eexists true, _. split; [done|]. intros _. cbn [ns_chain].
  destruct (received_same _ _ _ _ _ _ _ _ E3 He2) as (b1 & Hs & _ & Hsk & T1 & F1 & _ & Hfile & Hdata); [by rewrite Hfl; apply failed_tree|]. rewrite u32_id in T1 by lia.
  assert (x = place b1 block) as -> by (rewrite Hplace; unfold place; by rewrite Hfile, Hdata).
  assert (placed C (cs_map st3) [place b1 block]) as Hpl.
  { apply (placed_new C (cs_map st2) _ (Block_GetHash C block)); [|done | done | by constructor]. exists (fun _ => block). rewrite Em2. split.
    - intros q c [<- <-]%lookup_singleton_Some Hn. lia.
    - intros q r c d _ [<- <-]%lookup_singleton_Some _ Hn. lia. }
  split; [|by exists [place b1 block]].
  rewrite Em2, insert_singleton_eq in Hs.
  destruct (same_data_lookup _ _ _ b1 Hs (lookup_singleton_eq _ _)) as (b & Hbk & (_ & T & U & _)).
  assert (forall p c, cs_map st3 !! p = Some c -> p = Block_GetHash C block) as Honly.
  { intros p c Hc. destruct (same_lookup_rev _ _ (same_data_tree _ _ Hs) p c Hc) as (c0 & Hc0 & _). by apply lookup_singleton_Some in Hc0 as [<- _]. }
  assert (same_tree {[Block_GetHash C block := e]} (cs_map st3)) as Ht.
  { apply (same_tree_trans _ {[Block_GetHash C block := b1]}); [|by apply same_data_tree].
    pose proof (same_tree_insert {[Block_GetHash C block := e]} _ e b1 (lookup_singleton_eq _ _) (skel_trans _ _ _ (proj1 Hev) Hsk)) as Hx. by rewrite insert_singleton_eq in Hx. }
  destruct (same_lookup _ _ Ht _ e (lookup_singleton_eq _ _)) as (b' & Hb' & (_ & E5 & _)). assert (b' = b) as -> by congruence. rewrite Hpe in E5.
  assert (failed b = false) as Fb by (unfold has in *; by rewrite U).
  assert (nHeight b = 0) as Hz by (destruct (r_index _ (ok_ready _ _ K3) _ b Hbk) as (_ & _ & _ & Hx); rewrite E5 in Hx; by destruct Hx).
  split; [done | | intros p c Hc _; by rewrite (Honly p c Hc) | rewrite <- Hh; split; [eauto|]].
  - intros f. apply (same_targets params f _ _ Ht). rewrite <- insert_empty. apply new_targets; [done | apply lookup_empty | apply map_Forall_empty | |].
    + rewrite O3. apply (bf_header _ Hb).
    + unfold IsProofOfStake. by rewrite O4, O5.
  - intros [|k] q c Hu Hc; cbn [up] in Hu.
    + injection Hu as <-. assert (c = b) as -> by congruence. split; [|split; [done | by left]].
      destruct (lk_complete _ _ (ok_linked _ _ K3) _ b Hbk) as [Hn|Hn]; [|lia | by rewrite E5 | done | by apply elem_of_nil in Hn].
      apply (clean_intro _ _ b Hbk Fb). by rewrite E5.
    + rewrite Hbk in Hu. cbn [mbind option_bind] in Hu. by rewrite E5 in Hu.
Qed.

(** *** The states of a node *)

(** The node starts from its genesis block, is given headers and blocks, which it accepts or not,
    and obeys its operator: [node_refused] is [ProcessNewBlock] on a block that [CheckBlock] or
    [AcceptBlock] refuses.  Activating a chain has to succeed without refusing a block that was
    connected before, and [PreciousBlock] not to give the tip a higher sequence number. *)
Inductive node_reachable : NodeState -> Prop :=
| node_start block n s st' s' : genesis_ok block -> load_genesis start_node block = Some (true, n) ->
    activate (ns_chain n) None s = Some (true, st', s') -> ~ reneged (cs_map (ns_chain n)) (cs_map st') -> node_reachable (set_chain n st')
| node_header t n block : node_reachable n -> header_fits block -> header_room (ns_chain n) block -> node_reachable (set_chain n (snd (accept_header t (ns_chain n) block)))
| node_accept t n block state fRequested view s a : node_reachable n -> block_fits block -> block_room (ns_chain n) block -> flag_ok C Verify params block ->
    (exists cb i vi, first_tx block = Some cb /\ vin cb = i :: vi) -> corruptionPossible state = false ->
    accept_block t n block state fRequested None view s = Some a -> node_reachable (ac_node a)
| node_process t n block fForceProcessing view s new n' s' : node_reachable n -> block_fits block -> block_room (ns_chain n) block -> flag_ok C Verify params block ->
    process_block t n block fForceProcessing view s = Some (true, new, n', s') -> ~ reneged (cs_map (ns_chain n)) (cs_map (ns_chain n')) -> node_reachable n'
| node_refused t n block fForceProcessing view s new n' s' : node_reachable n -> block_fits block -> block_room (ns_chain n) block -> flag_ok C Verify params block ->
    process_block t n block fForceProcessing view s = Some (false, new, n', s') -> not_activated t n block fForceProcessing view s -> node_reachable n'
| node_activate n pblock s st' s' : node_reachable n -> activate (ns_chain n) pblock s = Some (true, st', s') -> ~ reneged (cs_map (ns_chain n)) (cs_map st') ->
    node_reachable (set_chain n st')
| node_invalidate n p b s st' s' : node_reachable n -> cs_map (ns_chain n) !! p = Some b -> pprev b <> None -> InvalidateBlock addr ops (ns_chain n) p s = Some (true, st', s') ->
    node_reachable (set_chain n st')
| node_precious n p b s st' s' : node_reachable n -> cs_map (ns_chain n) !! p = Some b -> precious_ok (ns_chain n) p ->
    PreciousBlock C addr ops ShutdownRequested (ns_chain n) p s = Some (true, st', s') -> ~ reneged (cs_map (ns_chain n)) (cs_map st') -> node_reachable (set_chain n st').

Context (Hsd : forall k, ShutdownRequested k = false).

Lemma activated_node n st pblock s st' s' : rooted params addr st -> storage_ok C (set_chain n st) -> activate st pblock s = Some (true, st', s') -> ~ reneged (cs_map st) (cs_map st') ->
  node_ok (set_chain n st').
Proof.
  intros Hrt Hf Ha Hr. destruct (activated_tree params C addr ops ShutdownRequested pblock st s Haddr Hops Hrt) as (ok & st1 & s1 & E & _ & _ & Hev & Hok).
  rewrite Ha in E. injection E as <- <- <-. destruct (Hok eq_refl Hsd) as [?|[K _]]; [done|]. split; [done|]. by apply (storage_kept C (set_chain n st)), evolves_no_data.
Qed.

Lemma precious_node n p b s st' s' : node_ok n -> cs_map (ns_chain n) !! p = Some b -> precious_ok (ns_chain n) p ->
  PreciousBlock C addr ops ShutdownRequested (ns_chain n) p s = Some (true, st', s') -> ~ reneged (cs_map (ns_chain n)) (cs_map st') -> node_ok (set_chain n st').
Proof.
  intros [K Hf] Hp Hpr. pose proof (to_state _ _ _ K) as Ks. unfold PreciousBlock. destruct (Tip (chainActive (ns_chain n))) as [t|] eqn:Ht; [|done]. cbn [mbind option_bind].
  rewrite Hp. cbn [mbind option_bind]. destruct (tip_entry _ t (ok_ready _ _ Ks) Ht) as [c Hc]. rewrite Hc. cbn [mbind option_bind].
  destruct (ltb (nChainWork b) (nChainWork c)); [intros [= <- <-] _; by destruct n|]. fold (precious_sequence (ns_chain n) c). set (st1 := set_sequence _ _ _ _).
  destruct (preferred_ok addr (ns_chain n) p t b c Ks Ht Hp Hc Hpr st1) as (v & st2 & -> & E & K2 & M2 & A2); try done. cbn [mbind option_bind]. rewrite E. cbn [mbind option_bind].
  assert (cs_map st2 = <[p := set_nSequenceId b (precious_sequence (ns_chain n) c)]> (cs_map (ns_chain n))) as M by exact M2.
  assert (same_data (cs_map (ns_chain n)) (cs_map st2)) as Hs by (rewrite M; apply (same_data_insert _ p b _ Hp); split; [apply skel_set_nSequenceId | by destruct b]).
  intros Ha Hnr. apply (activated_node n st2 None s st' s'); [ | | done | intros Hr; apply Hnr; rewrite M in Hr; by apply (reneged_resequence _ _ p b (precious_sequence (ns_chain n) c) Hp)].
  - apply tree_rooted, (tree_evolves params addr (ns_chain n)); [done | by apply same_data_tree | done|]. rewrite A2. change (Tip (chainActive (ns_chain n)) <> None). by rewrite Ht.
  - apply (storage_kept C n); [done | done|]. intros q d Hq Hn. destruct (same_data_rev _ _ q d Hs Hq) as (d0 & Hd0 & (_ & T & _ & F & D)). by exists d0.
Qed.

Lemma node_reachable_ok n : node_reachable n -> node_ok n.
Proof.
  induction 1 as [block n s st' s' Hg Hl Ha Hnr|t n block _ [K Hf] Hb Hr|t n block state fReq view s a _ [K Hf] Hb Hr Hfl Hcb Hst Ha|t n block force view s new n' s' _ HK Hb Hr Hfl Hp Hnr|
    t n block force view s new n' s' _ HK Hb Hr Hfl Hp Hna|n pblock s st' s' _ [K Hf] Ha Hnr|n p b s st' s' _ [K Hf] Hp Hg Hi|n p b s st' s' _ HK Hp Hpr Ha Hnr].
  - destruct (LoadGenesisBlock_ok block Hg) as (ok & n1 & E & Hok). rewrite Hl in E. injection E as <- <-. destruct (Hok eq_refl) as [Hrt Hf].
    apply (activated_node n (ns_chain n) None s st' s'); [done | by destruct n | done | done].
  - destruct (AcceptBlockHeader_ok C params Hnet fCheckpointsEnabled mapCheckpoints t addr (ns_chain n) block K Hb Hr) as (r & st' & -> & Ho). split; [apply Ho|].
    apply (storage_kept C n); [done | done|]. cbn [ns_chain set_chain snd]. destruct r as [p|e]; [apply (header_is_kept C params fCheckpointsEnabled mapCheckpoints t addr _ _ _ _ p Ho eq_refl)|].
    destruct (ho_err _ _ _ _ _ _ _ _ _ _ Ho) as [M _]; [done|]. apply evolves_no_data, M.
  - destruct (AcceptBlock_ok C Verify params Hnet Hwin fCheckpointsEnabled mapCheckpoints t addr fPruneMode CheckDiskSpace write_block usage ops limits nMinimumChainWork
      n block state fReq view s K Hf Hb Hr Hfl Hcb) as (a' & E & Ho). rewrite Ha in E. injection E as <-. destruct (Ho Hst) as [A1 _ A3 _ _ _ _]. by split.
  - destruct (ProcessNewBlock_ok t n block force view s HK Hb Hr Hfl) as (ok & new1 & n1 & s1 & E & Hf & Hbest & _). rewrite Hp in E. injection E as <- <- <- <-.
    destruct (Hbest eq_refl Hsd) as [?|[K _]]; [done | by split].
  - destruct (ProcessNewBlock_ok t n block force view s HK Hb Hr Hfl) as (ok & new1 & n1 & s1 & E & Hf & _ & Hbad & _). rewrite Hp in E. injection E as <- <- <- <-. split; [by apply Hbad | done].
  - apply (activated_node n (ns_chain n) pblock s st' s'); [by apply tree_rooted | by destruct n | done | done].
  - destruct (invalidated_ok addr ops (ns_chain n) p b s (to_state _ _ _ K) Hp Hg (to_tip _ _ _ K)) as (ok & st1 & s1 & E & _ & Hok). rewrite Hi in E. injection E as <- <- <-.
    destruct (Hok eq_refl) as (K' & _ & _ & Hev & Htip). split; [by apply (tree_evolves params addr (ns_chain n)), Htip; [ | apply evolves_tree |] | by apply (storage_kept C n), evolves_no_data].
  - by apply (precious_node n p b s st' s').
Qed.

(** *** The claims *)

(** (C5) Headers.  In every state of the node, [AcceptBlockHeader] answers: no walk fails, no
    assertion fails and no null pointer is followed.  A header that is known is accepted unless
    its block is marked as failed.  A new header is accepted exactly when it obeys the rules: its
    predecessor is known, not failed and (unless its scripts have been checked) not above a
    failed block, it is not more than 500 blocks below the tip nor below the last checkpoint, and
    its target, times, version, signature encoding and proof are as they should be; it is then in the
    tree above its predecessor.  A header that is refused adds nothing to the tree. *)
Theorem header_acceptance t n block : node_reachable n -> header_fits block -> header_room (ns_chain n) block ->
  exists r st', accept_header t (ns_chain n) block = (r, st') /\ r <> Err BlockAbort /\
    (forall b, cs_map (ns_chain n) !! Block_GetHash C block = Some b -> (exists p, r = Ok p) <-> failed b = false) /\
    (cs_map (ns_chain n) !! Block_GetHash C block = None ->
       (exists p, r = Ok p) <-> header_rules C params fCheckpointsEnabled mapCheckpoints t (ns_chain n) block) /\
    (forall p, r = Ok p -> p = Block_GetHash C block /\ (exists e, cs_map st' !! p = Some e /\ failed e = false) /\
       (cs_map (ns_chain n) !! p = None -> exists e, cs_map st' = <[p := e]> (cs_map (ns_chain n)) /\ entry_of block e /\ pprev e = Some (hashPrevBlock block))) /\
    ((forall p, r <> Ok p) -> dom (cs_map st') = dom (cs_map (ns_chain n))) /\ node_reachable (set_chain n st').
Proof.
  intros Hn Hb Hr. destruct (node_reachable_ok n Hn) as [K _].
  destruct (AcceptBlockHeader_ok C params Hnet fCheckpointsEnabled mapCheckpoints t addr (ns_chain n) block K Hb Hr) as (r & st' & E & [H1 _ _ H4 H5 H6 H7]). exists r, st'.
  split; [done|]. split; [done|]. split; [intros b Hbk; by apply H4|]. split; [done|]. split; [done|].
  split; [intros Hx; destruct (H7 Hx) as [M _]; apply dom_evolves, M|]. pose proof (node_header t n block Hn Hb Hr) as Hx. by rewrite E in Hx.
Qed.



End Node.

(** ** A concrete node *)

(** The main network's parameters with the genesis block of the samples *)
Definition node_params : Params :=
  let p := CMainParams in
  mk_Params (sample_hash 0) (nSubsidyHalvingInterval p) (BIP16Exception p) (BIP34Height p) (BIP34Hash p)
    (BIP65Height p) (BIP66Height p) (nRuleChangeActivationThreshold p) (nMinerConfirmationWindow p)
    (vDeployments p) (powLimit p) (posLimit p) false true false (nPowTargetSpacing p)
    (nPowTargetTimespan p) (nMinimumChainWork p) (defaultAssumeValid p) (nLastPOWBlock p)
    (nFirstMPoSBlock p) (nMPoSRewardRecipients p) (nFixUTXOCacheHFHeight p).

Lemma node_network_ok : network_ok node_params.
Proof.
  split; [|done]. intros f. split; [exact main_limits_ok | destruct f; reflexivity | split; [reflexivity | discriminate] | reflexivity|].
  intros _. destruct f; vm_compute; reflexivity.
Qed.

(** A block on top of it *)
Definition next_txs : list CTransaction := [MakeTransaction toy_crypto (mk_tx [mk_CTxIn COutPoint_SetNull [OP_1; 7] SEQUENCE_FINAL []] [mk_CTxOut 0 [OP_TRUE]] 2 0)].
Definition next_header : CBlockHeader :=
  mk_CBlockHeader 5 (sample_hash 0) (fst (ComputeMerkleRoot toy_crypto (map GetHash next_txs))) 1010 0x1f00ffff 0 uint256_SetNull uint256_SetNull COutPoint_SetNull [].
Definition next_block : CBlock := mk_CBlock next_header next_txs false.

Definition node_view : CCoinsViewCache DBView := cache_new sample_db.
Definition node_load : option (bool * NodeState) :=
  LoadGenesisBlock toy_crypto node_params sample_addr false (fun _ => true) (fun _ _ => true) start_node (sample_block 0).
Definition node_activated : option NodeState :=
  '(loaded, n) ← node_load; '(ok, st, _) ← ActivateBestChain toy_crypto sample_addr sample_ops (fun _ => false) (ns_chain n) None tt;
  if (loaded : bool) && (ok : bool) && negb (renegedb (cs_map (ns_chain n)) (cs_map st)) then Some (set_chain n st) else None.
Definition sample_node : NodeState := default start_node node_activated.

Abbreviation sample_reach := (node_reachable toy_crypto sample_verify node_params true [] sample_addr false (fun _ => true) (fun _ _ => true) no_usage sample_ops (fun _ => false) default_params (of_u64 0)).

Lemma sample_block_fits : block_fits (sample_block 0).
Proof. split; [by split | constructor; [exact sample_tx_ok | constructor] | decided | vm_compute; reflexivity]. Qed.
Lemma sample_genesis_ok : genesis_ok toy_crypto node_params (sample_block 0).
Proof.
  split; [exact sample_block_fits | reflexivity | by vm_compute | | by vm_compute]. unfold acceptable. apply (bool_decide_unpack _). vm_compute. exact I.
Qed.

Lemma node_activates : match node_activated with Some _ => true | None => false end = true.
Proof. vm_compute. reflexivity. Qed.
Lemma sample_node_reachable : sample_reach sample_node.
Proof.
  unfold sample_node. destruct node_activated as [n|] eqn:E; [|pose proof node_activates as Hn; by rewrite E in Hn]. revert E. unfold node_activated.
  destruct node_load as [[loaded n0]|] eqn:El; [|done]. cbn [mbind option_bind].
  destruct (ActivateBestChain _ _ _ _ _ _ _) as [[[ok st] []]|] eqn:Ea; [|done]. cbn [mbind option_bind]. destruct loaded, ok; cbn [andb]; [|discriminate..].
  destruct (renegedb _ _) eqn:Er; [discriminate|]. intros [= <-].
  eapply node_start; [exact sample_genesis_ok | exact El | exact Ea | rewrite <- renegedb_spec; congruence].
Qed.

(** Room, as a test *)
Definition room_test (st : CChainState) (block : CBlock) : bool :=
  forallb (fun x => (nHeight (snd x) + 1 + nCheckpointSpan <? 2 ^ 31) && (txs (cs_map st) (fst x) + vsize (vtx block) <? 2 ^ 32)) (entries st) &&
  match cs_map st !! hashPrevBlock block with Some c => val (nChainWork c) + 2 ^ 256 / (compact_value (nBits block) + 1) <? 2 ^ 256 | None => true end &&
  (vsize (vtx block) <? 2 ^ 32).
Lemma room_test_ok st block : room_test st block = true -> block_room st block.
Proof.
  unfold room_test. rewrite !andb_true_iff, forallb_forall. intros [[H1 H2] H3].
  assert (forall p b, cs_map st !! p = Some b -> nHeight b + 1 + nCheckpointSpan < 2 ^ 31 /\ txs (cs_map st) p + vsize (vtx block) < 2 ^ 32) as Hall.
  { intros p b Hp. specialize (H1 (p, b)). cbn [fst snd] in H1. rewrite andb_true_iff, !Z.ltb_lt in H1. apply H1. by apply list_elem_of_In, elem_of_map_to_list. }
  split; [intros p b Hp; by apply (Hall p)|]. split; [intros c Hc; rewrite Hc in H2; by apply Z.ltb_lt|]. intros q.
  destruct (cs_map st !! q) as [b|] eqn:Hq; [by apply (Hall q b)|]. unfold txs. rewrite Hq. apply Z.ltb_lt in H3. lia.
Qed.

Lemma next_room : block_room (ns_chain sample_node) next_block.
Proof. apply room_test_ok. vm_compute. reflexivity. Qed.
Lemma next_fits : block_fits next_block.
Proof.
  split; [by split | | decided | vm_compute; reflexivity].
  unfold txs_ok, next_block, next_txs, tx_ok, vector_ok, input_ok, bare_input_ok, outpoint_ok, uint256_ok, output_ok, witness_ok, vector_ok, blob_ok.
  cbn [vtx]. repeat constructor; simpl; unfold is_byte; lia || done || decided.
Qed.
Lemma next_flag : flag_ok toy_crypto sample_verify node_params next_block.
Proof. intros Hx. discriminate Hx. Qed.

Example next_block_stored :
  match ProcessNewBlock toy_crypto sample_verify node_params true [] 2000 sample_addr false (fun _ => true) (fun _ _ => true) no_usage sample_ops (fun _ => false) default_params (of_u64 0)
    sample_node next_block false node_view tt with
  | Some (ok, new, n, _) => ok && new && bool_decide (Tip (chainActive (ns_chain n)) = Some (Block_GetHash toy_crypto next_block))
  | None => false
  end = true.
Proof. vm_compute. reflexivity. Qed.

Lemma header_acceptance_witness :
  exists r st', AcceptBlockHeader toy_crypto node_params true [] 2000 sample_addr (ns_chain sample_node) next_header = (r, st') /\ r <> Err BlockAbort /\
    sample_reach (set_chain sample_node st').
Proof.
  destruct (header_acceptance toy_crypto sample_verify node_params node_network_ok ltac:(split; reflexivity) true [] sample_addr sample_addr_inj false (fun _ => true) (fun _ _ => true)
    no_usage sample_ops sample_ops_ok (fun _ => false) default_params (of_u64 0) (fun _ => eq_refl) 2000 sample_node next_header sample_node_reachable (bf_header _ next_fits)
    (block_header_room _ _ next_room)) as (r & st' & E & H1 & _ & _ & _ & _ & H2).
  exists r, st'. split; [exact E|]. split; [exact H1 | exact H2].
Defined.




(** [AcceptBlock] reads the first transaction before [CheckBlock] has made sure that there is one. *)
Example empty_block_read : AcceptBlock toy_crypto sample_verify node_params true [] 2000 sample_addr false (fun _ => true) (fun _ _ => true) no_usage sample_ops default_params (of_u64 0)
    sample_node (mk_CBlock next_header [] false) CValidationState_new false None node_view tt = None.
Proof. vm_compute. reflexivity. Qed.

(** [CheckPOS] walks below the genesis block when the header is not on top of the tip. *)
Example CheckPOS_below_genesis :
  match ProcessNewBlock toy_crypto sample_verify node_params true [] 2000 sample_addr false (fun _ => true) (fun _ _ => true) no_usage sample_ops (fun _ => false) default_params (of_u64 0)
    sample_node next_block false node_view tt with
  | Some (_, _, n, _) => bool_decide (CheckPOS (ns_chain n) false stake_block (sample_hash 0) = None)
  | None => false
  end = true.
Proof. vm_compute. reflexivity. Qed.
