(* ===== verification/Compressor.v ===== *)
(** * Compressed outputs, coins and undo data ([src/compressor.h], [src/compressor.cpp], the
      serialization of [src/coins.h] and [src/undo.h])

    The compact forms in which outputs are kept in the coin database and in undo files: amounts with
    their trailing zeros factored out, the usual scripts reduced to their hash or key.

    Public keys are the business of libsecp256k1, which is a parameter: whether an uncompressed
    key is a point of the curve, and the point with a given abscissa and parity.  Theorems: the
    compression of amounts is one-to-one; scripts, coins and the undo data of a block are read back
    as they were written. *)

From stdpp Require Import gmap.
From S2P Require Import Prelude Serialize ScriptNum Script Interpreter Transaction Block Chain Coins Undo.
Open Scope Z_scope.

(** ** Definitions *)

(** *** Amounts *)

(** [while (((n % 10) == 0) && e < 9)] *)
Fixpoint strip_zeros (fuel : nat) (n e : Z) : Z * Z :=
  match fuel with
  | O => (n, e)
  | S fuel => if (n mod 10 =? 0) && (e <? 9) then strip_zeros fuel (n / 10) (e + 1) else (n, e)
  end.

(** [None] is the failed assertion on the last digit. *)
Definition CompressAmount (n : Z) : option Z :=
  if n =? 0 then Some 0
  else
    let '(n, e) := strip_zeros 9 n 0 in
    if e <? 9 then
      let d := n mod 10 in
      if negb ((1 <=? d) && (d <=? 9)) then None
      else
        let n := n / 10 in
        Some (u64 (1 + (n * 9 + d - 1) * 10 + e))
    else Some (u64 (1 + (n - 1) * 10 + 9)).

(** [while (e) { n *= 10; e--; }] *)
Fixpoint times_ten (e : nat) (n : Z) : Z :=
  match e with
  | O => n
  | S e => times_ten e (u64 (n * 10))
  end.

Definition DecompressAmount (x : Z) : Z :=
  if x =? 0 then 0
  else
    let x := x - 1 in
    let e := x mod 10 in
    let x := x / 10 in
    let n :=
      if e <? 9 then
        let d := x mod 9 + 1 in
        let x := x / 9 in
        u64 (x * 10 + d)
      else u64 (x + 1) in
    times_ten (Z.to_nat e) n.

(** *** Scripts *)

(** What is used of [CPubKey] over libsecp256k1 *)
Record Secp : Type := mk_Secp {
  IsFullyValid : bytes -> bool;
  Decompress : bytes -> option bytes }.

(** The bytes [from .. from + n - 1] *)
Definition sub_bytes (s : bytes) (from n : nat) : bytes := take n (drop from s).

Definition IsToKeyID (script : CScript) : option bytes :=
  if (vsize script =? 25) && (sbyte script 0 =? OP_DUP) && (sbyte script 1 =? OP_HASH160) &&
     (sbyte script 2 =? 20) && (sbyte script 23 =? OP_EQUALVERIFY) && (sbyte script 24 =? OP_CHECKSIG)
  then Some (sub_bytes script 3 20) else None.

Definition IsToScriptID (script : CScript) : option bytes :=
  if (vsize script =? 23) && (sbyte script 0 =? OP_HASH160) && (sbyte script 1 =? 20) &&
     (sbyte script 22 =? OP_EQUAL)
  then Some (sub_bytes script 2 20) else None.

Section Compress.
Context (Sc : Secp).

Definition IsToPubKey (script : CScript) : option bytes :=
  if (vsize script =? 35) && (sbyte script 0 =? 33) && (sbyte script 34 =? OP_CHECKSIG) &&
     ((sbyte script 1 =? 0x02) || (sbyte script 1 =? 0x03))
  then Some (sub_bytes script 1 33)
  else if (vsize script =? 67) && (sbyte script 0 =? 65) && (sbyte script 66 =? OP_CHECKSIG) &&
          (sbyte script 1 =? 0x04)
  then let pubkey := sub_bytes script 1 65 in if IsFullyValid Sc pubkey then Some pubkey else None
  else None.

Definition CompressScript (script : CScript) : option bytes :=
  match IsToKeyID script with
  | Some keyID => Some (0x00 :: keyID)
  | None =>
      match IsToScriptID script with
      | Some scriptID => Some (0x01 :: scriptID)
      | None =>
          match IsToPubKey script with
          | Some pubkey =>
              let x := sub_bytes pubkey 1 32 in
              if (byte_at pubkey 0 =? 0x02) || (byte_at pubkey 0 =? 0x03) then Some (byte_at pubkey 0 :: x)
              else if byte_at pubkey 0 =? 0x04
              then Some (Z.lor 0x04 (Z.land (byte_at pubkey 64) 0x01) :: x)
              else None
          | None => None
          end
      end
  end.

Definition GetSpecialScriptSize (nSize : Z) : Z :=
  if (nSize =? 0) || (nSize =? 1) then 20
  else if (nSize =? 2) || (nSize =? 3) || (nSize =? 4) || (nSize =? 5) then 32
  else 0.

(** [DecompressScript]: the new script, [None] when it returns false and leaves the script alone *)
Definition DecompressScript (nSize : Z) (in_ : bytes) : option CScript :=
  if nSize =? 0x00 then Some ([OP_DUP; OP_HASH160; 20] ++ take 20 in_ ++ [OP_EQUALVERIFY; OP_CHECKSIG])
  else if nSize =? 0x01 then Some ([OP_HASH160; 20] ++ take 20 in_ ++ [OP_EQUAL])
  else if (nSize =? 0x02) || (nSize =? 0x03) then Some ([33; nSize] ++ take 32 in_ ++ [OP_CHECKSIG])
  else if (nSize =? 0x04) || (nSize =? 0x05) then
    match Decompress Sc ((nSize - 2) :: take 32 in_) with
    | None => None
    | Some pubkey => Some ([65] ++ pubkey ++ [OP_CHECKSIG])
    end
  else None.

Definition nSpecialScripts : Z := 6.

Definition CScriptCompressor_Serialize (script : CScript) : bytes :=
  match CompressScript script with
  | Some compr => compr
  | None => WriteVarInt 32 (u32 (vsize script + nSpecialScripts)) ++ script
  end.

(** [script] is what the object held before it is read into: an invalid key leaves it, an overlong
    script is replaced by appending [OP_RETURN]. *)
Definition CScriptCompressor_Unserialize (script : CScript) : reader CScript :=
  nSize ← ReadVarInt 32;
  if nSize <? nSpecialScripts then
    vch ← stream_read (GetSpecialScriptSize nSize);
    mret (default script (DecompressScript nSize vch))
  else
    let nSize := nSize - nSpecialScripts in
    if MAX_SCRIPT_SIZE <? nSize then
      _ ← stream_read nSize;
      mret (script ++ [OP_RETURN])
    else stream_read nSize.

(** *** Outputs, coins and undo records *)

(** [None]: the assertion of [CompressAmount]; the amount is converted to [uint64_t]. *)
Definition CTxOutCompressor_Serialize (o : CTxOut) : option bytes :=
  nVal ← CompressAmount (u64 (nValue o));
  Some (WriteVarInt 64 nVal ++ CScriptCompressor_Serialize (scriptPubKey o)).
Definition CTxOutCompressor_Unserialize (o : CTxOut) : reader CTxOut :=
  nVal ← ReadVarInt 64;
  script ← CScriptCompressor_Unserialize (scriptPubKey o);
  mret (mk_CTxOut (i64 (DecompressAmount nVal)) script).

(** [None] is the assertion that the coin is not spent. *)
Definition Coin_Serialize (c : Coin) : option bytes :=
  if IsSpent c then None
  else
    let code := u32 (i32 (Z.shiftl (coin_nHeight c) 2) + (if fCoinBase c then 1 else 0) + (if fCoinStake c then 2 else 0)) in
    o ← CTxOutCompressor_Serialize (out c);
    Some (WriteVarInt 32 code ++ o).
Definition Coin_Unserialize : reader Coin :=
  code ← ReadVarInt 32;
  o ← CTxOutCompressor_Unserialize CTxOut_SetNull;
  mret (mk_Coin o (negb (Z.land code 1 =? 0)) (negb (Z.land (Z.shiftr code 1) 1 =? 0)) (Z.shiftr code 2 mod 2 ^ 30)).

Definition TxInUndo_Serialize (c : Coin) : option bytes :=
  let code := u32 (i32 (Z.shiftl (coin_nHeight c) 2) + (if fCoinStake c then 2 else 0) + (if fCoinBase c then 1 else 0)) in
  o ← CTxOutCompressor_Serialize (out c);
  Some (WriteVarInt 32 code ++ (if 0 <? coin_nHeight c then ser_writedata8 0 else []) ++ o).
Definition TxInUndo_Unserialize : reader Coin :=
  nCode ← ReadVarInt 32;
  let nHeight := Z.shiftr nCode 2 mod 2 ^ 30 in
  _ ← (if 0 <? nHeight then ReadVarInt 32 else mret 0);
  o ← CTxOutCompressor_Unserialize CTxOut_SetNull;
  mret (mk_Coin o (negb (Z.land nCode 1 =? 0)) (negb (Z.land (Z.shiftr nCode 1) 1 =? 0)) nHeight).

(** [MAX_INPUTS_PER_BLOCK] for the weight the program started with: an empty input takes 41 bytes *)
Definition MIN_TRANSACTION_INPUT_WEIGHT : Z := 4 * 41.
Definition MAX_INPUTS_PER_BLOCK (dgpMaxBlockWeight : Z) : Z := dgpMaxBlockWeight / MIN_TRANSACTION_INPUT_WEIGHT.

Fixpoint write_all {A} (w : A -> option bytes) (l : list A) : option bytes :=
  match l with
  | [] => Some []
  | a :: l => b ← w a; bs ← write_all w l; Some (b ++ bs)
  end.

Definition CTxUndo_Serialize (u : CTxUndo) : option bytes :=
  b ← write_all TxInUndo_Serialize u;
  Some (WriteCompactSize (vsize u) ++ b).
Definition CTxUndo_Unserialize (dgpMaxBlockWeight : Z) : reader CTxUndo :=
  count ← ReadCompactSize;
  if MAX_INPUTS_PER_BLOCK dgpMaxBlockWeight <? count then reader_throw TooManyUndoRecords
  else read_elems TxInUndo_Unserialize (Z.to_nat count).

Definition CBlockUndo_Serialize (u : CBlockUndo) : option bytes :=
  b ← write_all CTxUndo_Serialize u;
  Some (WriteCompactSize (vsize u) ++ b).
Definition CBlockUndo_Unserialize (dgpMaxBlockWeight : Z) : reader CBlockUndo :=
  Unserialize_vector (CTxUndo_Unserialize dgpMaxBlockWeight).
End Compress.

(** ** Theorems *)

(** *** Amounts *)

(** The digit and the exponent that are split off: either nine zeros were, or the last digit is not one. *)
Definition normal (n e : Z) : Prop := 0 < n /\ 0 <= e <= 9 /\ (e = 9 \/ n mod 10 <> 0).

Lemma strip_zeros_spec fuel n k e : (Z.of_nat k <= Z.of_nat fuel) -> e + Z.of_nat fuel = 9 -> 0 <= e ->
  normal n (e + Z.of_nat k) -> strip_zeros fuel (n * 10 ^ Z.of_nat k) e = (n, e + Z.of_nat k).
Proof.
  revert n k e. induction fuel as [ | fuel IH]; intros n k e Hk He He0 (Hn & Hr & Hd).
  - assert (k = 0%nat) as -> by lia. simpl. f_equal; lia.
  - cbn [strip_zeros]. destruct k as [ | k].
    + change (10 ^ Z.of_nat 0) with 1. rewrite Z.mul_1_r, Z.add_0_r in *.
      destruct Hd as [ | Hd]; [lia | ]. destruct (Z.eqb_spec (n mod 10) 0); [done | ]. done.
    + rewrite Nat2Z.inj_succ, Z.pow_succ_r, Z.mul_assoc, (Z.mul_comm n 10), <- Z.mul_assoc by lia.
      rewrite Z.mul_comm, Z.mod_mul by lia. simpl (0 =? 0). destruct (Z.ltb_spec e 9); [ | lia]. cbn [andb].
      rewrite Z.div_mul by lia. rewrite IH; [f_equal; lia | lia | lia | lia | ].
      by replace (e + 1 + Z.of_nat k) with (e + Z.of_nat (S k)) by lia.
Qed.

(** Every positive amount is a normal number times a power of ten. *)
Lemma normal_exists fuel n : 0 < n -> exists m k, n = m * 10 ^ Z.of_nat k /\ (k <= fuel)%nat /\ 0 < m /\
  (k = fuel \/ m mod 10 <> 0).
Proof.
  revert n. induction fuel as [ | fuel IH]; intros n Hn.
  - exists n, 0%nat. change (10 ^ Z.of_nat 0) with 1. rewrite Z.mul_1_r. split_and!; [done | done | done | by left].
  - destruct (decide (n mod 10 = 0)) as [Hz | Hz].
    + pose proof (Z.div_mod n 10). destruct (IH (n / 10)) as (m & k & E & Hk & Hm & Hd).
      { apply Z.div_str_pos. split; [done | ]. lia. }
      exists m, (S k). split_and!; [ | lia | done | destruct Hd; [left; lia | by right]].
      rewrite Nat2Z.inj_succ, Z.pow_succ_r by lia. lia.
    + exists n, 0%nat. change (10 ^ Z.of_nat 0) with 1. rewrite Z.mul_1_r. split_and!; [done | lia | done | by right].
Qed.

(** The code of a normal number, and what the decoder makes of a code *)
Definition code_of (n e : Z) : Z := if e <? 9 then 1 + (n / 10 * 9 + n mod 10 - 1) * 10 + e else 1 + (n - 1) * 10 + 9.
Definition digits_of (x : Z) : Z * Z :=
  let e := (x - 1) mod 10 in
  let q := (x - 1) / 10 in
  (if e <? 9 then q / 9 * 10 + (q mod 9 + 1) else q + 1, e).

Lemma digits_code n e : normal n e -> 0 < code_of n e /\ digits_of (code_of n e) = (n, e).
Proof.
  intros (Hn & He & Hd). unfold code_of, digits_of. destruct (Z.ltb_spec e 9).
  - destruct Hd as [ | Hd]; [lia | ]. pose proof (Z.div_mod n 10). pose proof (Z.mod_pos_bound n 10).
    assert (0 <= n / 10) by (apply Z.div_pos; lia).
    set (q := n / 10 * 9 + n mod 10 - 1). assert (0 <= q) by (unfold q; lia).
    replace (1 + q * 10 + e - 1) with (e + q * 10) by lia.
    rewrite Z.mod_add, Z.div_add, (Z.mod_small e), (Z.div_small e), Z.add_0_l by lia.
    destruct (Z.ltb_spec e 9); [ | lia]. split; [lia | ]. f_equal.
    replace q with ((n mod 10 - 1) + n / 10 * 9) by (unfold q; lia).
    rewrite Z.mod_add, Z.div_add, (Z.mod_small (n mod 10 - 1)), (Z.div_small (n mod 10 - 1)) by lia. lia.
  - assert (e = 9) as -> by lia. replace (1 + (n - 1) * 10 + 9 - 1) with (9 + (n - 1) * 10) by lia.
    rewrite Z.mod_add, Z.div_add by lia. change (9 mod 10) with 9. change (9 / 10) with 0.
    split; [lia | ]. simpl. f_equal. lia.
Qed.

Lemma code_digits x : 0 < x -> let '(n, e) := digits_of x in normal n e /\ code_of n e = x.
Proof.
  intros Hx. unfold digits_of, code_of. pose proof (Z.div_mod (x - 1) 10). pose proof (Z.mod_pos_bound (x - 1) 10).
  set (e := (x - 1) mod 10) in *. set (q := (x - 1) / 10) in *. assert (0 <= q) by (apply Z.div_pos; lia).
  destruct (Z.ltb_spec e 9).
  - pose proof (Z.div_mod q 9). pose proof (Z.mod_pos_bound q 9). assert (0 <= q / 9) by (apply Z.div_pos; lia).
    assert (Em : (q / 9 * 10 + (q mod 9 + 1)) mod 10 = q mod 9 + 1)
      by (rewrite Z.add_comm, Z.mod_add, Z.mod_small; lia).
    assert (Ed : (q / 9 * 10 + (q mod 9 + 1)) / 10 = q / 9)
      by (rewrite Z.add_comm, Z.div_add, Z.div_small; lia).
    rewrite Em, Ed. split; [ | lia]. split; [lia | ]. split; [lia | right; lia].
  - split; [ | lia]. split; [lia | ]. split; [lia | left; lia].
Qed.

Lemma times_ten_spec e n : 0 <= n -> n * 10 ^ Z.of_nat e < 2 ^ 64 -> times_ten e n = n * 10 ^ Z.of_nat e.
Proof.
  revert n. induction e as [ | e IH]; intros n Hn Hlt; [change (10 ^ Z.of_nat 0) with 1; simpl; lia | ].
  rewrite Nat2Z.inj_succ, Z.pow_succ_r in * by lia. assert (0 < 10 ^ Z.of_nat e) by (apply Z.pow_pos_nonneg; lia).
  cbn [times_ten]. rewrite u64_id by nia. rewrite IH by nia. lia.
Qed.

(** The exact amount a code stands for *)
Definition amount_of (x : Z) : Z := if x =? 0 then 0 else let '(n, e) := digits_of x in n * 10 ^ e.

Lemma DecompressAmount_spec x : 0 <= x -> amount_of x < 2 ^ 64 -> DecompressAmount x = amount_of x.
Proof.
  intros Hx. unfold DecompressAmount, amount_of. destruct (Z.eqb_spec x 0) as [ | Hx0]; [done | ].
  pose proof (code_digits x ltac:(lia)) as Hc. destruct (digits_of x) as [n e] eqn:Ed. destruct Hc as [(Hn & He & _) _].
  unfold digits_of in Ed. injection Ed as En Ee. intros Hlt. rewrite Ee.
  assert (0 < 10 ^ e) by (apply Z.pow_pos_nonneg; lia). rewrite Ee in En.
  assert ((if e <? 9 then u64 ((x - 1) / 10 / 9 * 10 + ((x - 1) / 10 mod 9 + 1)) else u64 ((x - 1) / 10 + 1)) = n) as ->
    by (destruct (e <? 9); rewrite En; apply u64_id; nia).
  rewrite times_ten_spec; rewrite ?Z2Nat.id; lia.
Qed.

Lemma CompressAmount_spec n e : normal n e -> code_of n e < 2 ^ 64 -> CompressAmount (n * 10 ^ e) = Some (code_of n e).
Proof.
  intros Hn Hlt. destruct (digits_code n e Hn) as [Hpos _]. destruct (Hn) as (H0 & He & Hd). unfold CompressAmount.
  assert (0 < 10 ^ e) by (apply Z.pow_pos_nonneg; lia). destruct (Z.eqb_spec (n * 10 ^ e) 0); [nia | ].
  pose proof (strip_zeros_spec 9 n (Z.to_nat e) 0) as Hs. rewrite Z2Nat.id in Hs by lia.
  rewrite Hs by (done || lia). rewrite Z.add_0_l. unfold code_of in *. destruct (Z.ltb_spec e 9).
  - destruct Hd as [ | Hd]; [lia | ]. pose proof (Z.mod_pos_bound n 10). 
    destruct (Z.leb_spec 1 (n mod 10)); [ | lia]. destruct (Z.leb_spec (n mod 10) 9); [ | lia]. cbn [andb negb].
    by rewrite u64_id by lia.
  - by rewrite u64_id by lia.
Qed.

Lemma compress_total n : 0 <= n < 2 ^ 60 -> exists x, CompressAmount n = Some x /\ 0 <= x < 2 ^ 64 /\ amount_of x = n.
Proof.
  intros Hn. destruct (decide (n = 0)) as [-> | Hne]; [by exists 0 | ].
  destruct (normal_exists 9 n ltac:(lia)) as (m & k & E & Hk & Hm & Hd).
  assert (Hnm : normal m (Z.of_nat k)) by (split; [done | ]; split; [lia | ]; destruct Hd; [left; lia | by right]).
  destruct (digits_code m (Z.of_nat k) Hnm) as [Hpos Hdig].
  assert (0 < 10 ^ Z.of_nat k) by (apply Z.pow_pos_nonneg; lia). assert (m <= n) by nia.
  assert (Hlt : code_of m (Z.of_nat k) < 2 ^ 64).
  { unfold code_of. pose proof (Z.div_mod m 10). pose proof (Z.mod_pos_bound m 10).
    destruct (Z.ltb_spec (Z.of_nat k) 9); lia. }
  exists (code_of m (Z.of_nat k)). rewrite E. split; [by apply CompressAmount_spec | ]. split; [lia | ].
  unfold amount_of. destruct (Z.eqb_spec (code_of m (Z.of_nat k)) 0); [lia | ]. by rewrite Hdig.
Qed.

(** Amounts are compressed one-to-one: the assertion on the last digit never fails; every amount
    below [2^60] (every amount of money among them) is given back by decompression; and every
    code whose amount fits 64 bits is given back by compressing its amount again. *)
Theorem amount_compression_one_to_one n x :
  (0 <= n < 2 ^ 60 -> exists y, CompressAmount n = Some y /\ 0 <= y < 2 ^ 64 /\ DecompressAmount y = n) /\
  (0 <= x < 2 ^ 64 -> amount_of x < 2 ^ 64 ->
     DecompressAmount x = amount_of x /\ CompressAmount (DecompressAmount x) = Some x).
Proof.
  split.
  - intros Hn. destruct (compress_total n Hn) as (y & E & Hy & Ea). exists y. split; [done | ]. split; [done | ].
    rewrite DecompressAmount_spec by lia. done.
  - intros Hx Ha. rewrite DecompressAmount_spec by lia. split; [done | ]. unfold amount_of in *.
    destruct (Z.eqb_spec x 0) as [-> | ]; [done | ]. pose proof (code_digits x ltac:(lia)) as Hc.
    destruct (digits_of x) as [m e]. destruct Hc as [Hn <-]. apply CompressAmount_spec; [done | lia].
Qed.

Lemma amount_compression_one_to_one_witness : exists y, CompressAmount (5 * COIN) = Some y /\ DecompressAmount y = 5 * COIN /\
  CompressAmount (DecompressAmount 1234567) = Some 1234567.
Proof.
  destruct (amount_compression_one_to_one (5 * COIN) 1234567) as [H1 H2].
  destruct H1 as (y & E & _ & D); [split; [discriminate | reflexivity] | ].
  destruct H2 as [_ H2]; [split; [discriminate | reflexivity] | vm_compute; reflexivity | ].
  exists y. split; [exact E | ]. split; [exact D | exact H2].
Defined.

(** *** Scripts *)

(** What libsecp256k1 promises: a point of the curve is the one with its abscissa and its parity. *)
Definition secp_ok (Sc : Secp) : Prop :=
  forall pk, length pk = 65%nat -> are_bytes pk -> byte_at pk 0 = 0x04 -> IsFullyValid Sc pk = true ->
    Decompress Sc ((2 + byte_at pk 64 mod 2) :: sub_bytes pk 1 32) = Some pk.

Lemma IsToKeyID_spec s h : IsToKeyID s = Some h ->
  length h = 20%nat /\ s = [OP_DUP; OP_HASH160; 20] ++ h ++ [OP_EQUALVERIFY; OP_CHECKSIG].
Proof.
  unfold IsToKeyID. destruct (_ && _) eqn:E; [ | done]. intros [= <-]. change (IsPayToPubkeyHash s = true) in E.
  apply IsPayToPubkeyHash_iff in E as (h & Hh & ->). unfold sub_bytes. cbn [app drop].
  rewrite drop_0, take_app_le, take_ge by lia. done.
Qed.

Lemma IsToScriptID_spec s h : IsToScriptID s = Some h ->
  length h = 20%nat /\ s = [OP_HASH160; 20] ++ h ++ [OP_EQUAL].
Proof.
  unfold IsToScriptID. destruct (_ && _) eqn:E; [ | done]. intros [= <-]. change (IsPayToScriptHash s = true) in E.
  apply IsPayToScriptHash_iff in E as (h & Hh & ->). unfold sub_bytes. cbn [app drop].
  rewrite drop_0, take_app_le, take_ge by lia. done.
Qed.

(** A one-byte push of a key and [OP_CHECKSIG] *)
Lemma to_pubkey_shape s n : (vsize s =? Z.of_nat n + 2) && (sbyte s 0 =? Z.of_nat n) &&
  (sbyte s (Z.of_nat n + 1) =? OP_CHECKSIG) = true ->
  s = [Z.of_nat n] ++ sub_bytes s 1 n ++ [OP_CHECKSIG] /\ length (sub_bytes s 1 n) = n.
Proof.
  intros H. zbool. unfold vsize in H. destruct s as [ | b s]; [simpl in H; lia | ].
  rewrite sbyte_0 in *. rewrite sbyte_cons in * by lia. unfold sub_bytes. cbn [drop app length] in *. rewrite drop_0.
  destruct (split_len s n 1 ltac:(lia)) as (p & q & -> & Hp & Hq).
  destruct q as [ | c [ | ? ?]]; try done. rewrite take_app_le, take_ge by lia. split; [ | done].
  rewrite sbyte_app in * by (unfold vsize; lia). unfold vsize in *.
  replace (Z.of_nat n + 1 - 1 - Z.of_nat (length p)) with 0 in * by lia. rewrite sbyte_0 in *. by subst.
Qed.

Lemma CompressScript_spec Sc s compr : secp_ok Sc -> are_bytes s -> CompressScript Sc s = Some compr ->
  exists nSize x, compr = nSize :: x /\ 0 <= nSize < nSpecialScripts /\ vsize x = GetSpecialScriptSize nSize /\
    DecompressScript Sc nSize x = Some s.
Proof.
  intros HS Hs. unfold CompressScript. destruct (IsToKeyID s) as [h | ] eqn:E1.
  { apply IsToKeyID_spec in E1 as [Hh ->]. intros [= <-]. exists 0, h. unfold vsize. rewrite Hh.
    split_and!; try done. unfold DecompressScript. simpl. rewrite take_ge by lia. done. }
  clear E1. destruct (IsToScriptID s) as [h | ] eqn:E1.
  { apply IsToScriptID_spec in E1 as [Hh ->]. intros [= <-]. exists 1, h. unfold vsize. rewrite Hh.
    split_and!; try done. unfold DecompressScript. simpl. rewrite take_ge by lia. done. }
  clear E1. unfold IsToPubKey. destruct (_ && _ && _ && (_ || _)) eqn:E2.
  - apply andb_true_iff in E2 as [E2 Eb]. destruct (to_pubkey_shape s 33 E2) as [Es Hl].
    set (pk := sub_bytes s 1 33) in *. destruct pk as [ | b x]; [done | ].
    assert (Hb : sbyte s 1 = b) by (rewrite Es; done). rewrite Hb in Eb.
    change (byte_at (b :: x) 0) with b. rewrite Eb. intros [= <-]. simpl in Hl.
    exists b, x. apply orb_true_iff in Eb. unfold vsize.
    assert (b = 2 \/ b = 3) as Hb2 by lia.
    unfold sub_bytes. cbn [drop]. rewrite drop_0, take_ge by lia.
    split_and!; [done | destruct Hb2; subst; done | destruct Hb2; subst; done | | ].
    + destruct Hb2; subst; unfold GetSpecialScriptSize; simpl; lia.
    + rewrite Es. destruct Hb2; subst; unfold DecompressScript; simpl; rewrite take_ge by lia; done.
  - clear E2. destruct (_ && _ && _ && _) eqn:E2; [ | done].
    apply andb_true_iff in E2 as [E2 Eb]. destruct (to_pubkey_shape s 65 E2) as [Es Hl].
    set (pk := sub_bytes s 1 65) in *. destruct (IsFullyValid Sc pk) eqn:Ev; [ | done].
    assert (Hb : byte_at pk 0 = 4) by (rewrite Es in Eb; destruct pk; [done | ]; apply Z.eqb_eq in Eb; exact Eb).
    rewrite Hb. cbn [Z.eqb orb]. intros [= <-].
    assert (Hpk : are_bytes pk) by (by apply Forall_take, Forall_drop).
    assert (Hbit : Z.lor 4 (Z.land (byte_at pk 64) 1) = 4 + byte_at pk 64 mod 2).
    { change 1 with (Z.ones 1). rewrite Z.land_ones by lia. change (2 ^ 1) with 2.
      assert (0 <= byte_at pk 64 mod 2 < 2) by (apply Z.mod_pos_bound; lia).
      assert (byte_at pk 64 mod 2 = 0 \/ byte_at pk 64 mod 2 = 1) as [-> | ->] by lia; done. }
    rewrite Hbit. assert (0 <= byte_at pk 64 mod 2 < 2) by (apply Z.mod_pos_bound; lia).
    exists (4 + byte_at pk 64 mod 2), (sub_bytes pk 1 32).
    assert (Hl32 : length (sub_bytes pk 1 32) = 32%nat) by (unfold sub_bytes; rewrite length_take, length_drop; lia).
    specialize (HS pk Hl Hpk Hb Ev). unfold nSpecialScripts.
    split_and!; [done | lia | lia | | ].
    + unfold vsize. rewrite Hl32. assert (byte_at pk 64 mod 2 = 0 \/ byte_at pk 64 mod 2 = 1) as [-> | ->] by lia; done.
    + unfold DecompressScript. rewrite (take_ge (sub_bytes pk 1 32) 32) by (rewrite Hl32; lia).
      assert (byte_at pk 64 mod 2 = 0 \/ byte_at pk 64 mod 2 = 1) as [E | E] by lia; rewrite E in HS |- *.
      * change (4 + 0 - 2) with (2 + 0). rewrite HS. by rewrite Es.
      * change (4 + 1 - 2) with (2 + 1). rewrite HS. by rewrite Es.
Qed.

Lemma ReadVarInt_special n rest : 0 <= n < nSpecialScripts -> ReadVarInt 32 (n :: rest) = Ok (n, rest).
Proof.
  unfold nSpecialScripts. intros Hn.
  assert (n = 0 \/ n = 1 \/ n = 2 \/ n = 3 \/ n = 4 \/ n = 5) as [-> | [-> | [-> | [-> | [-> | ->]]]]] by lia; reflexivity.
Qed.

(** A script the coin database may hold *)
Definition script_ok (s : CScript) : Prop := are_bytes s /\ vsize s <= MAX_SCRIPT_SIZE.

Lemma script_round_trip Sc s s0 rest : secp_ok Sc -> script_ok s ->
  CScriptCompressor_Unserialize Sc s0 (CScriptCompressor_Serialize Sc s ++ rest) = Ok (s, rest).
Proof.
  intros HS [Hb Hl]. unfold CScriptCompressor_Unserialize, CScriptCompressor_Serialize.
  destruct (CompressScript Sc s) as [compr | ] eqn:E.
  - destruct (CompressScript_spec Sc s compr HS Hb E) as (n & x & -> & Hn & Hx & Hd).
    unfold mbind, reader_bind. cbn [app]. rewrite ReadVarInt_special by done.
    destruct (Z.ltb_spec n nSpecialScripts); [ | lia]. rewrite (stream_read_app x rest) by done. by rewrite Hd.
  - unfold MAX_SCRIPT_SIZE in *. pose proof (vsize_nonneg s). unfold nSpecialScripts in *.
    rewrite u32_id, <- app_assoc by lia. unfold mbind, reader_bind.
    rewrite (VarInt_round 32 ltac:(lia) (vsize s + 6)) by lia.
    destruct (Z.ltb_spec (vsize s + 6) 6); [lia | ]. replace (vsize s + 6 - 6) with (vsize s) by lia.
    destruct (Z.ltb_spec 129000 (vsize s)); [lia | ]. by apply stream_read_app.
Qed.

(** *** Coins and undo data *)

(** An output, a coin, and undo data that the databases may hold *)
Definition output_ok (o : CTxOut) : Prop := 0 <= nValue o < 2 ^ 60 /\ script_ok (scriptPubKey o).
Definition coin_ok (c : Coin) : Prop := output_ok (out c) /\ 0 <= coin_nHeight c < 2 ^ 30.
Definition txundo_ok (dgp : Z) (u : CTxUndo) : Prop :=
  vsize u <= MAX_SIZE /\ vsize u <= MAX_INPUTS_PER_BLOCK dgp /\ Forall coin_ok u.
Definition blockundo_ok (dgp : Z) (u : CBlockUndo) : Prop := vsize u <= MAX_SIZE /\ Forall (txundo_ok dgp) u.

(** A partial writer and a reader fit together on [P]. *)
Definition fits {A} (P : A -> Prop) (w : A -> option bytes) (r : reader A) : Prop :=
  forall a, P a -> exists b, w a = Some b /\ forall rest, r (b ++ rest) = Ok (a, rest).

Lemma fits_list {A} (P : A -> Prop) w (r : reader A) l : fits P w r -> Forall P l ->
  exists b, write_all w l = Some b /\ forall rest, read_elems r (length l) (b ++ rest) = Ok (l, rest).
Proof.
  intros Hf Hl. induction Hl as [ | a l Ha Hl IH]; [by exists [] | ].
  destruct (Hf a Ha) as (b & Eb & Hb). destruct IH as (bs & Es & Hs). cbn [write_all length read_elems].
  rewrite Eb. cbn [mbind option_bind]. rewrite Es. exists (b ++ bs). split; [done | ]. intros rest.
  rewrite <- app_assoc. unfold mbind, reader_bind. by rewrite Hb, Hs.
Qed.

(** The code of a height and two flags *)
Lemma code_spec h (cb cs : bool) : 0 <= h < 2 ^ 30 ->
  let code := 4 * h + (if cb then 1 else 0) + (if cs then 2 else 0) in
  0 <= code < 2 ^ 32 /\ u32 (i32 (Z.shiftl h 2) + (if cb then 1 else 0) + (if cs then 2 else 0)) = code /\
  u32 (i32 (Z.shiftl h 2) + (if cs then 2 else 0) + (if cb then 1 else 0)) = code /\
  negb (Z.land code 1 =? 0) = cb /\ negb (Z.land (Z.shiftr code 1) 1 =? 0) = cs /\ Z.shiftr code 2 mod 2 ^ 30 = h.
Proof.
  intros Hh code. assert (Hc : 0 <= code < 2 ^ 32) by (unfold code; destruct cb, cs; lia).
  assert (Hw : forall f, u32 (i32 (Z.shiftl h 2) + f) = u32 (4 * h + f)).
  { intros f. rewrite Z.shiftl_mul_pow2 by lia. unfold u32, i32, signed. rewrite (Z.mul_comm h). change (2 ^ 2) with 4.
    rewrite <- Z.add_sub_swap, <- Zminus_mod_idemp_l, <- Zplus_mod_idemp_l, Z.mod_mod by lia.
    rewrite Zplus_mod_idemp_l, Zminus_mod_idemp_l. f_equal. lia. }
  split; [done | ]. split; [rewrite <- Z.add_assoc, Hw, Z.add_assoc; by apply u32_id | ].
  split; [rewrite <- Z.add_assoc, Hw, (Z.add_comm (if cs then _ else _)), Z.add_assoc; by apply u32_id | ].
  assert (forall z, Z.land z 1 = z mod 2) as Hl by (intros; apply (Z.land_ones _ 1); lia).
  rewrite !Hl, !Z.shiftr_div_pow2 by lia. unfold code.
  change (2 ^ 1) with 2. change (2 ^ 2) with 4. change (2 ^ 30) with 1073741824 in *.
  split_and!; destruct cb, cs; try destruct (Z.eqb_spec (_ mod 2) 0); try done; Z.to_euclidean_division_equations; lia.
Qed.

Section Databases.
Context (Sc : Secp) (HS : secp_ok Sc).

Lemma output_fits o0 : fits output_ok (CTxOutCompressor_Serialize Sc) (CTxOutCompressor_Unserialize Sc o0).
Proof.
  intros o [Hv Hs]. unfold CTxOutCompressor_Serialize. rewrite u64_id by lia.
  destruct (compress_total (nValue o) Hv) as (x & -> & Hx & Ha). cbn [mbind option_bind].
  eexists. split; [reflexivity | ]. intros rest. unfold CTxOutCompressor_Unserialize, mbind, reader_bind.
  rewrite <- app_assoc. rewrite (VarInt_round 64 ltac:(lia) x) by done.
  rewrite script_round_trip by done. unfold mret, reader_ret.
  rewrite DecompressAmount_spec, Ha, i64_id by lia. by destruct o.
Qed.

Lemma coin_fits : fits (fun c => coin_ok c /\ IsSpent c = false) (Coin_Serialize Sc) (Coin_Unserialize Sc).
Proof.
  intros c [[Ho Hh] Hs]. unfold Coin_Serialize. rewrite Hs.
  destruct (code_spec (coin_nHeight c) (fCoinBase c) (fCoinStake c) Hh) as (Hc & -> & _ & E1 & E2 & E3).
  destruct (output_fits CTxOut_SetNull (out c) Ho) as (b & -> & Hb). cbn [mbind option_bind].
  eexists. split; [reflexivity | ]. intros rest. unfold Coin_Unserialize, mbind, reader_bind.
  rewrite <- app_assoc. rewrite (VarInt_round 32 ltac:(lia)) by done. rewrite Hb.
  unfold mret, reader_ret. rewrite E1, E2, E3. by destruct c.
Qed.

Lemma undo_fits : fits coin_ok (TxInUndo_Serialize Sc) (TxInUndo_Unserialize Sc).
Proof.
  intros c [Ho Hh]. unfold TxInUndo_Serialize.
  destruct (code_spec (coin_nHeight c) (fCoinBase c) (fCoinStake c) Hh) as (Hc & _ & -> & E1 & E2 & E3).
  destruct (output_fits CTxOut_SetNull (out c) Ho) as (b & -> & Hb). cbn [mbind option_bind].
  eexists. split; [reflexivity | ]. intros rest. unfold TxInUndo_Unserialize, mbind, reader_bind.
  rewrite <- app_assoc. rewrite (VarInt_round 32 ltac:(lia)) by done. rewrite E1, E2, E3.
  destruct (0 <? coin_nHeight c); rewrite <- app_assoc.
  - change (ser_writedata8 0 ++ b ++ rest) with (0 :: b ++ rest). rewrite ReadVarInt_special by done.
    rewrite Hb. unfold mret, reader_ret. by destruct c.
  - unfold mret, reader_ret. cbn [app]. rewrite Hb. by destruct c.
Qed.

Lemma txundo_fits dgp : fits (txundo_ok dgp) (CTxUndo_Serialize Sc) (CTxUndo_Unserialize Sc dgp).
Proof.
  intros u (Hn & Hm & Hu). unfold CTxUndo_Serialize. destruct (fits_list _ _ _ u undo_fits Hu) as (b & -> & Hb).
  cbn [mbind option_bind]. eexists. split; [reflexivity | ]. intros rest.
  unfold CTxUndo_Unserialize, mbind, reader_bind. rewrite <- app_assoc. pose proof (vsize_nonneg u).
  rewrite (CompactSize_roundtrip (vsize u)) by lia.
  destruct (Z.ltb_spec (MAX_INPUTS_PER_BLOCK dgp) (vsize u)); [lia | ]. unfold vsize. by rewrite Nat2Z.id.
Qed.

Lemma blockundo_fits dgp : fits (blockundo_ok dgp) (CBlockUndo_Serialize Sc) (CBlockUndo_Unserialize Sc dgp).
Proof.
  intros u (Hn & Hu). unfold CBlockUndo_Serialize. destruct (fits_list _ _ _ u (txundo_fits dgp) Hu) as (b & -> & Hb).
  cbn [mbind option_bind]. eexists. split; [reflexivity | ]. intros rest.
  unfold CBlockUndo_Unserialize, Unserialize_vector, mbind, reader_bind. rewrite <- app_assoc. pose proof (vsize_nonneg u).
  rewrite (CompactSize_roundtrip (vsize u)) by lia. unfold vsize. by rewrite Nat2Z.id.
Qed.
End Databases.

(** (C27) The databases give back what they are given: for every coin with an amount of money, a
    height of thirty bits and a script within the limit, its database record is read back as the
    same coin; the undo data of a block of such coins is read back as the same undo data; both
    leave what follows in the stream. *)
Theorem coin_and_undo_records_round_trip Sc dgp :
  secp_ok Sc ->
  (forall c, coin_ok c -> IsSpent c = false -> exists b, Coin_Serialize Sc c = Some b /\
     forall rest, Coin_Unserialize Sc (b ++ rest) = Ok (c, rest)) /\
  (forall u, blockundo_ok dgp u -> exists b, CBlockUndo_Serialize Sc u = Some b /\
     forall rest, CBlockUndo_Unserialize Sc dgp (b ++ rest) = Ok (u, rest)).
Proof.
  intros HS. split.
  - intros c Hc Hs. by apply coin_fits.
  - intros u Hu. by apply blockundo_fits.
Qed.

(** A stand-in curve on which every uncompressed key is the compressed one followed by its parity *)
Definition toy_secp : Secp := {|
  IsFullyValid := fun pk => bool_decide (sub_bytes pk 33 32 = replicate 31 0 ++ [byte_at pk 64 mod 2]);
  Decompress := fun k => Some (0x04 :: drop 1 k ++ replicate 31 0 ++ [byte_at k 0 - 2]) |}.

Lemma toy_secp_ok : secp_ok toy_secp.
Proof.
  intros pk Hl Hb H0 Hv. simpl in Hv. apply bool_decide_eq_true in Hv. simpl. f_equal.
  destruct pk as [ | p0 pk]; [done | ]. change (byte_at (p0 :: pk) 0) with p0 in H0. subst p0. f_equal.
  unfold sub_bytes in *. cbn [drop] in *. rewrite !drop_0 in *. simpl in Hl. injection Hl as Hl.
  change (byte_at (2 + byte_at (4 :: pk) 64 mod 2 :: take 32 pk) 0) with (2 + byte_at (4 :: pk) 64 mod 2).
  replace (2 + byte_at (4 :: pk) 64 mod 2 - 2) with (byte_at (4 :: pk) 64 mod 2) by lia.
  rewrite (take_ge (drop 32 pk)) in Hv by (rewrite length_drop; lia). rewrite <- Hv. apply take_drop.
Qed.

Lemma coin_and_undo_records_round_trip_witness :
  exists b, CBlockUndo_Serialize toy_secp [[sample_coin]; []] = Some b /\
    forall rest, CBlockUndo_Unserialize toy_secp 8000000 (b ++ rest) = Ok ([[sample_coin]; []], rest).
Proof.
  destruct (coin_and_undo_records_round_trip toy_secp 8000000 toy_secp_ok) as [_ H]. apply H.
  assert (coin_ok sample_coin).
  { split; [split; [split; [discriminate | reflexivity] | split; [ | discriminate]] | split; [discriminate | reflexivity]].
    constructor; [split; [discriminate | reflexivity] | constructor]. }
  split; [discriminate | ]. constructor; [ | constructor; [ | constructor]].
  - split; [discriminate | ]. split; [discriminate | ]. constructor; [assumption | constructor].
  - split; [discriminate | ]. split; [discriminate | constructor].
Defined.
