(* ===== verification/Text.v ===== *)
(** * Text encodings ([src/utilstrencodings.h], [src/utilstrencodings.cpp])

    The regrouping of bits that all the power-of-two encodings use ([ConvertBits]), the encodings in
    base 64, base 32 and base 16, and the lists of digits that stand for a number in some base.
    Characters are bytes; a [std::string] is a list of them, and a C string ends at its first zero.

    Theorems: what [ConvertBits] computes is the number its input stands for, in the other base and
    padded; converting with padding and back without is the identity, and what is converted back
    without padding is the padded form of its result.  Base 64, base 32 and base 16 text is read
    back as the bytes it was made from. *)

From Stdlib Require Import String Ascii.
From stdpp Require Import list.
From S2P Require Import Prelude.
Open Scope Z_scope.
Abbreviation length := Datatypes.length (only parsing).

(** ** Definitions *)

(** *** Characters *)

Definition chars (s : string) : bytes := (fun c => Z.of_N (N_of_ascii c)) <$> list_ascii_of_string s.

(** The character of a literal of one character *)
Definition char (s : string) : Z := default 0 (head (chars s)).

(** [isspace] in the C locale *)
Definition isspace (c : Z) : bool := (c =? 32) || ((9 <=? c) && (c <=? 13)).

(** What a function that is given [str.c_str()] sees *)
Fixpoint c_str (s : bytes) : bytes :=
  match s with
  | [] => []
  | c :: s => if c =? 0 then [] else c :: c_str s
  end.

(** Skips the characters that satisfy [p]; the zero that ends a C string does not. *)
Fixpoint skip_while (p : Z -> bool) (s : bytes) : bytes :=
  match s with
  | [] => []
  | c :: s' => if p c then skip_while p s' else s
  end.

(** *** Numbers in a base, most significant digit first *)

Definition value (base : Z) (l : list Z) : Z := fold_left (fun v d => v * base + d) l 0.

(** *** [ConvertBits] *)

Section ConvertBits.
Context (frombits tobits : Z) (pad : bool).

Definition maxv : Z := Z.shiftl 1 tobits - 1.
Definition max_acc : Z := Z.shiftl 1 (frombits + tobits - 1) - 1.

(** [while (bits >= tobits)]: what is given to [outfn], and [bits] after it *)
Fixpoint emit (fuel : nat) (acc bits : Z) : list Z * Z :=
  match fuel with
  | O => ([], bits)
  | S fuel =>
      if tobits <=? bits then
        let bits := bits - tobits in
        let '(out, b) := emit fuel acc bits in (Z.land (Z.shiftr acc bits) maxv :: out, b)
      else ([], bits)
  end.

(** [while (it != end)] *)
Fixpoint convert_loop (input : list Z) (acc bits : Z) : list Z * Z * Z :=
  match input with
  | [] => ([], acc, bits)
  | v :: input =>
      let acc := Z.land (Z.lor (u64 (Z.shiftl acc frombits)) v) max_acc in
      let bits := bits + frombits in
      let '(out, bits) := emit (Z.to_nat bits) acc bits in
      let '(out', acc, bits) := convert_loop input acc bits in
      (out ++ out', acc, bits)
  end.

(** What was given to [outfn] and what is returned *)
Definition ConvertBits (input : list Z) : list Z * bool :=
  let '(out, acc, bits) := convert_loop input 0 0 in
  let last := Z.land (u64 (Z.shiftl acc (tobits - bits))) maxv in
  if pad then (if bits =? 0 then out else out ++ [last], true)
  else if (frombits <=? bits) || negb (last =? 0) then (out, false)
  else (out, true).
End ConvertBits.

(** *** Base 64 and base 32 *)

Definition pbase64 : bytes := chars "ABCDEFGHIJKLMNOPQRSTUVWXYZabcdefghijklmnopqrstuvwxyz0123456789+/".
Definition pbase32 : bytes := chars "abcdefghijklmnopqrstuvwxyz234567".

(** [while (str.size() % n) str += '='] *)
Fixpoint fill_equals (fuel : nat) (n : Z) (str : bytes) : bytes :=
  match fuel with
  | O => str
  | S fuel => if vsize str mod n =? 0 then str else fill_equals fuel n (str ++ [char "="])
  end.

Definition encode_with (alphabet : bytes) (tobits group : Z) (data : bytes) : bytes :=
  fill_equals (Z.to_nat group) group ((fun v => nth (Z.to_nat v) alphabet 0) <$> fst (ConvertBits 8 tobits true data)).

Definition EncodeBase64 (data : bytes) : bytes := encode_with pbase64 6 4 data.
Definition EncodeBase32 (data : bytes) : bytes := encode_with pbase32 5 8 data.

Definition decode64_table : list Z :=
  [-1;-1;-1;-1;-1;-1;-1;-1;-1;-1;-1;-1;-1;-1;-1;-1;-1;-1;-1;-1;
   -1;-1;-1;-1;-1;-1;-1;-1;-1;-1;-1;-1;-1;-1;-1;-1;-1;-1;-1;-1;
   -1;-1;-1;62;-1;-1;-1;63;52;53;54;55;56;57;58;59;60;61;-1;-1;
   -1;-1;-1;-1;-1; 0; 1; 2; 3; 4; 5; 6; 7; 8; 9;10;11;12;13;14;
   15;16;17;18;19;20;21;22;23;24;25;-1;-1;-1;-1;-1;-1;26;27;28;
   29;30;31;32;33;34;35;36;37;38;39;40;41;42;43;44;45;46;47;48;
   49;50;51;-1;-1;-1;-1;-1] ++ replicate 128 (-1).

Definition decode32_table : list Z :=
  [-1;-1;-1;-1;-1;-1;-1;-1;-1;-1;-1;-1;-1;-1;-1;-1;-1;-1;-1;-1;
   -1;-1;-1;-1;-1;-1;-1;-1;-1;-1;-1;-1;-1;-1;-1;-1;-1;-1;-1;-1;
   -1;-1;-1;-1;-1;-1;-1;-1;-1;-1;26;27;28;29;30;31;-1;-1;-1;-1;
   -1;-1;-1;-1;-1; 0; 1; 2; 3; 4; 5; 6; 7; 8; 9;10;11;12;13;14;
   15;16;17;18;19;20;21;22;23;24;25;-1;-1;-1;-1;-1;-1; 0; 1; 2;
    3; 4; 5; 6; 7; 8; 9;10;11;12;13;14;15;16;17;18;19;20;21;22;
   23;24;25;-1;-1;-1;-1;-1] ++ replicate 128 (-1).

(** An entry of a table indexed by an [unsigned char] *)
Definition entry (table : list Z) (c : Z) : Z := nth (Z.to_nat c) table (-1).

(** The loop over the characters of the alphabet: the values and where it stops *)
Fixpoint read_values (table : list Z) (p : bytes) : list Z * bytes :=
  match p with
  | [] => ([], [])
  | c :: p' =>
      let x := entry table c in
      if x =? -1 then ([], p) else let '(val, rest) := read_values table p' in (x :: val, rest)
  end.

(** [while (valid && *p != 0)]: [valid] after it and how far [p] has gone *)
Fixpoint read_equals (p : bytes) : bool * Z :=
  match p with
  | [] => (true, 0)
  | c :: p => if negb (c =? char "=") then (false, 0) else let '(valid, n) := read_equals p in (valid, 1 + n)
  end.

(** The bytes and [!*pfInvalid] *)
Definition decode_with (table : list Z) (frombits group : Z) (p : bytes) : bytes * bool :=
  let '(val, q) := read_values table p in
  let '(ret, valid) := ConvertBits frombits 8 false val in
  let '(valid, n) := if valid then read_equals q else (false, 0) in
  (ret, valid && ((vsize val + n) mod group =? 0) && (n <? group)).

Definition DecodeBase64 (str : bytes) : bytes * bool := decode_with decode64_table 6 4 (c_str str).
Definition DecodeBase32 (str : bytes) : bytes * bool := decode_with decode32_table 5 8 (c_str str).

(** *** Base 16 *)

Definition p_util_hexdigit : list Z :=
  [-1;-1;-1;-1;-1;-1;-1;-1;-1;-1;-1;-1;-1;-1;-1;-1;
   -1;-1;-1;-1;-1;-1;-1;-1;-1;-1;-1;-1;-1;-1;-1;-1;
   -1;-1;-1;-1;-1;-1;-1;-1;-1;-1;-1;-1;-1;-1;-1;-1;
    0; 1; 2; 3; 4; 5; 6; 7; 8; 9;-1;-1;-1;-1;-1;-1;
   -1;10;11;12;13;14;15;-1;-1;-1;-1;-1;-1;-1;-1;-1;
   -1;-1;-1;-1;-1;-1;-1;-1;-1;-1;-1;-1;-1;-1;-1;-1;
   -1;10;11;12;13;14;15;-1;-1;-1;-1;-1;-1;-1;-1;-1;
   -1;-1;-1;-1;-1;-1;-1;-1;-1;-1;-1;-1;-1;-1;-1;-1] ++ replicate 128 (-1).

Definition HexDigit (c : Z) : Z := entry p_util_hexdigit c.

Definition IsHex (str : bytes) : bool :=
  forallb (fun c => 0 <=? HexDigit c) str && (0 <? vsize str) && (vsize str mod 2 =? 0).

Definition IsHexNumber (str : bytes) : bool :=
  let starting_location := if (2 <? vsize str) && bool_decide (take 2 str = chars "0x") then 2 else 0 in
  forallb (fun c => 0 <=? HexDigit c) (drop (Z.to_nat starting_location) str) && (starting_location <? vsize str).

(** The loop of [ParseHex] on a C string; the terminating zero is not a digit. *)
Fixpoint parse_hex_loop (fuel : nat) (psz : bytes) : bytes :=
  match fuel with
  | O => []
  | S fuel =>
      match skip_while isspace psz with
      | [] => []
      | c :: psz =>
          if HexDigit c =? -1 then []
          else
            match psz with
            | [] => []
            | d :: psz =>
                if HexDigit d =? -1 then []
                else Z.lor (u8 (Z.shiftl (HexDigit c) 4)) (HexDigit d) :: parse_hex_loop fuel psz
            end
      end
  end.

Definition ParseHex (str : bytes) : bytes := parse_hex_loop (length (c_str str)) (c_str str).

Definition hexmap : bytes := chars "0123456789abcdef".

Fixpoint hex_str_loop (fSpaces first : bool) (data : bytes) : bytes :=
  match data with
  | [] => []
  | val :: data =>
      (if fSpaces && negb first then [32] else []) ++
      [nth (Z.to_nat (Z.shiftr val 4)) hexmap 0; nth (Z.to_nat (Z.land val 15)) hexmap 0] ++
      hex_str_loop fSpaces false data
  end.

Definition HexStr (data : bytes) (fSpaces : bool) : bytes := hex_str_loop fSpaces true data.

(** ** Theorems *)

(** *** Numbers in a base *)

Definition digits (base : Z) (l : list Z) : Prop := Forall (fun d => 0 <= d < base) l.

Lemma value_from base l v : fold_left (fun v d => v * base + d) l v = v * base ^ vsize l + value base l.
Proof.
  unfold value. revert v. induction l as [ | d l IH]; intros v; [rewrite vsize_nil; simpl; lia | ].
  cbn [fold_left]. rewrite IH, (IH (0 * base + d)), vsize_cons, Z.pow_add_r by (try done; apply vsize_nonneg).
  unfold value. nia.
Qed.

Ltac nils := change (@vsize Z []) with 0; repeat change (value ?b []) with 0.

Lemma value_cons base d l : value base (d :: l) = d * base ^ vsize l + value base l.
Proof. unfold value at 1. cbn [fold_left]. rewrite value_from. f_equal. Qed.

Lemma value_app base a b : value base (a ++ b) = value base a * base ^ vsize b + value base b.
Proof. unfold value at 1. rewrite fold_left_app. apply value_from. Qed.

Lemma value_snoc base l d : value base (l ++ [d]) = value base l * base + d.
Proof. rewrite value_app, value_cons, vsize_cons. change (vsize []) with 0. change (value base []) with 0. change (1 + 0) with 1. rewrite Z.pow_1_r. simpl. lia. Qed.

Lemma value_bound base l : 0 < base -> digits base l -> 0 <= value base l < base ^ vsize l.
Proof.
  intros Hb. induction 1 as [ | d l Hd _ IH]; [change (0 <= 0 < 1); lia | ].
  rewrite value_cons, vsize_cons, Z.pow_add_r, Z.pow_1_r by (try done; apply vsize_nonneg). nia.
Qed.

(** Lists of digits of the same length that stand for the same number are the same. *)
Lemma value_inj base a b : 0 < base -> digits base a -> digits base b -> length a = length b ->
  value base a = value base b -> a = b.
Proof.
  intros Hbase Ha. revert b. induction Ha as [ | x a Hx Ha IH]; intros [ | y b] Hb Hl Hv; try done.
  apply Forall_cons in Hb as [Hy Hb]. rewrite !value_cons in Hv. injection Hl as Hl.
  pose proof (value_bound base a Hbase Ha) as Va. pose proof (value_bound base b Hbase Hb) as Vb.
  assert (Hs : vsize a = vsize b) by (unfold vsize; lia). rewrite Hs in *.
  assert (x = y) as -> by nia. f_equal. apply IH; [done.. | lia].
Qed.

(** The same for lists without leading zeros, whatever their lengths *)
Definition normal (l : list Z) : Prop := head l <> Some 0.

Lemma normal_value base l : 0 < base -> digits base l -> normal l -> l <> [] -> base ^ (vsize l - 1) <= value base l.
Proof.
  intros Hbase Hl Nl Hn. destruct l as [ | d l]; [done | ]. apply Forall_cons in Hl as [Hd Hl]. rewrite value_cons, vsize_cons.
  replace (1 + vsize l - 1) with (vsize l) by lia. pose proof (value_bound base l Hbase Hl).
  assert (d <> 0) by (intros ->; by apply Nl). pose proof (Z.pow_pos_nonneg base (vsize l) Hbase (vsize_nonneg l)). nia.
Qed.

Lemma normal_length base l k : 1 < base -> digits base l -> normal l -> 0 <= k -> value base l < base ^ k -> vsize l <= k.
Proof.
  intros Hbase Hl Nl Hk Hv. destruct (decide (l = [])) as [-> | Hn]; [by change (vsize []) with 0 | ].
  pose proof (normal_value base l ltac:(lia) Hl Nl Hn). assert (base ^ (vsize l - 1) < base ^ k) as Hlt by lia.
  apply Z.pow_lt_mono_r_iff in Hlt; lia.
Qed.

Lemma normal_inj base a b : 1 < base -> digits base a -> digits base b -> normal a -> normal b ->
  value base a = value base b -> a = b.
Proof.
  intros Hbase Ha Hb Na Nb Hv. apply (value_inj base); [lia | done.. | | done].
  pose proof (value_bound base a ltac:(lia) Ha). pose proof (value_bound base b ltac:(lia) Hb).
  pose proof (normal_length base a (vsize b) Hbase Ha Na (vsize_nonneg b) ltac:(lia)).
  pose proof (normal_length base b (vsize a) Hbase Hb Nb (vsize_nonneg a) ltac:(lia)). unfold vsize in *. lia.
Qed.

(** *** [ConvertBits] *)

Section Convert.
Context (frombits tobits : Z).
Hypothesis from_range : 0 < frombits <= 8.
Hypothesis to_range : 0 < tobits <= 8.

Lemma land_mask a k : 0 <= k -> Z.land a (Z.shiftl 1 k - 1) = a mod 2 ^ k.
Proof. intros Hk. by rewrite Z.shiftl_1_l, <- Z.land_ones, Z.ones_equiv by done. Qed.

Lemma emit_spec fuel acc bits out b : 0 <= acc -> 0 <= bits -> (Z.to_nat bits <= fuel)%nat ->
  emit tobits fuel acc bits = (out, b) ->
  0 <= b < tobits /\ digits (2 ^ tobits) out /\ vsize out * tobits + b = bits /\
  value (2 ^ tobits) out * 2 ^ b + acc mod 2 ^ b = acc mod 2 ^ bits.
Proof.
  intros Ha. revert bits out b. induction fuel as [ | fuel IH]; intros bits out b Hb Hf E; cbn [emit] in E.
  { injection E as <- <-. assert (bits = 0) as -> by lia. nils. (split; [lia | ]); (try (split; [lia | ])); (split; [constructor | lia]). }
  destruct (Z.leb_spec tobits bits) as [Hle | Hlt].
  2: { injection E as <- <-. nils. (split; [lia | ]); (try (split; [lia | ])); (split; [constructor | lia]). }
  destruct (emit tobits fuel acc (bits - tobits)) as [out' b'] eqn:E'. injection E as <- <-.
  apply IH in E' as (Hr & Hd & Hl & Hv); [ | lia..]. unfold maxv. rewrite land_mask, Z.shiftr_div_pow2 by lia.
  assert (H2 : 0 < 2 ^ tobits) by (apply Z.pow_pos_nonneg; lia).
  split; [done | ]. split; [constructor; [by apply Z.mod_pos_bound | done] | ]. rewrite vsize_cons. split; [lia | ].
  rewrite value_cons, <- Z.pow_mul_r by (try apply vsize_nonneg; lia).
  assert (E : 2 ^ bits = 2 ^ (bits - tobits) * 2 ^ tobits) by (rewrite <- Z.pow_add_r by lia; f_equal; lia).
  rewrite E, Z.rem_mul_r by (try apply Z.pow_nonzero; lia).
  assert (E2 : 2 ^ (bits - tobits) = 2 ^ (tobits * vsize out') * 2 ^ b')
    by (rewrite <- Z.pow_add_r by (pose proof (vsize_nonneg out'); nia); f_equal; lia).
  rewrite E2 in *. nia.
Qed.

Lemma feed_acc acc v bits : 0 <= acc < 2 ^ (frombits + tobits - 1) -> 0 <= v < 2 ^ frombits -> 0 <= bits < tobits ->
  let acc' := Z.land (Z.lor (u64 (Z.shiftl acc frombits)) v) (max_acc frombits tobits) in
  0 <= acc' < 2 ^ (frombits + tobits - 1) /\ acc' mod 2 ^ (bits + frombits) = (acc mod 2 ^ bits) * 2 ^ frombits + v.
Proof.
  intros Ha Hv Hb. unfold max_acc. rewrite land_mask by lia.
  assert (Hu : u64 (Z.shiftl acc frombits) = Z.shiftl acc frombits).
  { apply u64_id. rewrite Z.shiftl_mul_pow2 by lia. split; [apply Z.mul_nonneg_nonneg; [lia | apply Z.pow_nonneg; lia] | ].
    apply Z.lt_le_trans with (2 ^ (frombits + tobits - 1) * 2 ^ frombits);
      [apply Z.mul_lt_mono_pos_r; [apply Z.pow_pos_nonneg; lia | lia] | ].
    rewrite <- Z.pow_add_r by lia. apply Z.pow_le_mono_r; lia. }
  rewrite Hu, Z.lor_comm, lor_shiftl_add by lia.
  split; [apply Z.mod_pos_bound, Z.pow_pos_nonneg; lia | ].
  replace (2 ^ (frombits + tobits - 1)) with (2 ^ (bits + frombits) * 2 ^ (tobits - 1 - bits))
    by (rewrite <- Z.pow_add_r by lia; f_equal; lia).
  rewrite Z.rem_mul_r by (try apply Z.pow_nonzero; try apply Z.pow_pos_nonneg; lia).
  rewrite (Z.mul_comm (2 ^ (bits + frombits)) (_ mod _)), Z.mod_add, Z.mod_mod by (apply Z.pow_nonzero; lia).
  rewrite (Z.add_comm bits), Z.pow_add_r, Z.rem_mul_r by (try apply Z.pow_nonzero; try apply Z.pow_pos_nonneg; lia).
  assert (0 < 2 ^ frombits) by (apply Z.pow_pos_nonneg; lia).
  rewrite Z.mod_add, (Z.mod_small v), Z.div_add, (Z.div_small v), Z.add_0_l by lia. lia.
Qed.

Lemma convert_loop_spec input : digits (2 ^ frombits) input -> forall acc bits out acc' bits',
  0 <= acc < 2 ^ (frombits + tobits - 1) -> 0 <= bits < tobits ->
  convert_loop frombits tobits input acc bits = (out, acc', bits') ->
  0 <= bits' < tobits /\ 0 <= acc' < 2 ^ (frombits + tobits - 1) /\ digits (2 ^ tobits) out /\
  vsize out * tobits + bits' = bits + vsize input * frombits /\
  value (2 ^ tobits) out * 2 ^ bits' + acc' mod 2 ^ bits' =
    (acc mod 2 ^ bits) * 2 ^ (frombits * vsize input) + value (2 ^ frombits) input.
Proof.
  induction 1 as [ | v input Hv Hin IH]; intros acc bits out acc' bits' Ha Hb E; cbn [convert_loop] in E.
  { injection E as <- <- <-. nils; rewrite Z.mul_0_r, Z.pow_0_r.
    (split; [lia | ]); (try (split; [lia | ])); (split; [constructor | lia]). }
  destruct (feed_acc acc v bits Ha Hv Hb) as [Ha1 Hm1]. cbv zeta in E, Hm1.
  set (acc1 := Z.land _ _) in *.
  destruct (emit tobits (Z.to_nat (bits + frombits)) acc1 (bits + frombits)) as [out1 b1] eqn:E1.
  apply emit_spec in E1 as (Hb1 & Hd1 & Hl1 & Hv1); [ | lia..].
  destruct (convert_loop frombits tobits input acc1 b1) as [[out2 acc2] b2] eqn:E2. injection E as <- <- <-.
  apply IH in E2 as (Hb2 & Ha2 & Hd2 & Hl2 & Hv2); [ | done..].
  split; [done | ]. split; [done | ]. split; [by apply Forall_app | ]. rewrite vsize_app, vsize_cons. split; [lia | ].
  pose proof (vsize_nonneg input) as Hn. pose proof (vsize_nonneg out2) as Hn2.
  rewrite value_app, value_cons, <- !Z.pow_mul_r by lia. rewrite Hm1 in Hv1.
  replace (frombits * (1 + vsize input)) with (frombits + frombits * vsize input) by lia. rewrite Z.pow_add_r by nia.
  rewrite Z.mul_add_distr_r, <- Z.add_assoc, Hv2, <- Z.mul_assoc, <- Z.pow_add_r by nia.
  replace (tobits * vsize out2 + b2) with (b1 + frombits * vsize input) by lia. rewrite Z.pow_add_r by nia. nia.
Qed.

(** The bits that are left over, moved to the top of a group *)
Lemma leftover_spec acc bits : 0 <= acc < 2 ^ (frombits + tobits - 1) -> 0 <= bits < tobits ->
  Z.land (u64 (Z.shiftl acc (tobits - bits))) (maxv tobits) = (acc mod 2 ^ bits) * 2 ^ (tobits - bits).
Proof.
  intros Ha Hb. unfold maxv. rewrite land_mask by lia.
  assert (Hu : u64 (Z.shiftl acc (tobits - bits)) = acc * 2 ^ (tobits - bits)).
  { rewrite Z.shiftl_mul_pow2 by lia. apply u64_id. split; [apply Z.mul_nonneg_nonneg; [lia | apply Z.pow_nonneg; lia] | ].
    apply Z.lt_le_trans with (2 ^ (frombits + tobits - 1) * 2 ^ (tobits - bits));
      [apply Z.mul_lt_mono_pos_r; [apply Z.pow_pos_nonneg; lia | lia] | ].
    rewrite <- Z.pow_add_r by lia. apply Z.pow_le_mono_r; lia. }
  rewrite Hu. replace (2 ^ tobits) with (2 ^ bits * 2 ^ (tobits - bits)) by (rewrite <- Z.pow_add_r by lia; f_equal; lia).
  apply Z.mul_mod_distr_r; apply Z.pow_nonzero; lia.
Qed.

Lemma ConvertBits_pad input out r : digits (2 ^ frombits) input -> ConvertBits frombits tobits true input = (out, r) ->
  r = true /\ digits (2 ^ tobits) out /\ exists k, 0 <= k < tobits /\
  vsize out * tobits = vsize input * frombits + k /\ value (2 ^ tobits) out = value (2 ^ frombits) input * 2 ^ k.
Proof.
  intros Hin E. unfold ConvertBits in E. destruct (convert_loop frombits tobits input 0 0) as [[o acc] bits] eqn:El.
  apply convert_loop_spec in El as (Hb & Ha & Hd & Hl & Hv); [ | done | split; [lia | apply Z.pow_pos_nonneg; lia] | lia].
  rewrite Z.mod_0_l, Z.mul_0_l, !Z.add_0_l in * by (apply Z.pow_nonzero; lia). rewrite leftover_spec in E by done.
  assert (Hp : forall k, 0 <= k -> 0 < 2 ^ k) by (intros; apply Z.pow_pos_nonneg; lia).
  pose proof (Z.mod_pos_bound acc (2 ^ bits) (Hp bits ltac:(lia))) as Hm.
  destruct (Z.eqb_spec bits 0) as [-> | Hn]; injection E as <- <-; (split; [done | ]).
  - split; [done | ]. exists 0. rewrite Z.pow_0_r, Z.mod_1_r in Hv. rewrite Z.pow_0_r. lia.
  - assert (Ep : 2 ^ tobits = 2 ^ bits * 2 ^ (tobits - bits)) by (rewrite <- Z.pow_add_r by lia; f_equal; lia).
    pose proof (Hp (tobits - bits) ltac:(lia)). split.
    { apply Forall_app. split; [done | ]. constructor; [rewrite Ep; nia | constructor]. }
    exists (tobits - bits). rewrite vsize_app. change (vsize [_]) with 1. split; [lia | ]. split; [lia | ].
    by rewrite value_snoc, <- Hv, Z.mul_add_distr_r, <- Z.mul_assoc, <- Ep.
Qed.

Lemma ConvertBits_strict input out r : digits (2 ^ frombits) input -> ConvertBits frombits tobits false input = (out, r) ->
  digits (2 ^ tobits) out /\ exists b m, 0 <= b < tobits /\ 0 <= m < 2 ^ b /\
  vsize out * tobits + b = vsize input * frombits /\
  value (2 ^ frombits) input = value (2 ^ tobits) out * 2 ^ b + m /\ (r = true <-> b < frombits /\ m = 0).
Proof.
  intros Hin E. unfold ConvertBits in E. destruct (convert_loop frombits tobits input 0 0) as [[o acc] bits] eqn:El.
  apply convert_loop_spec in El as (Hb & Ha & Hd & Hl & Hv); [ | done | split; [lia | apply Z.pow_pos_nonneg; lia] | lia].
  rewrite Z.mod_0_l, Z.mul_0_l, !Z.add_0_l in * by (apply Z.pow_nonzero; lia). rewrite leftover_spec in E by done.
  assert (Hp : forall k, 0 <= k -> 0 < 2 ^ k) by (intros; apply Z.pow_pos_nonneg; lia).
  pose proof (Z.mod_pos_bound acc (2 ^ bits) (Hp bits ltac:(lia))) as Hm. pose proof (Hp (tobits - bits) ltac:(lia)).
  assert (out = o) as -> by (destruct ((frombits <=? bits) || _); by injection E).
  split; [done | ]. exists bits, (acc mod 2 ^ bits). split; [done | ]. split; [done | ]. split; [done | ]. split; [done | ].
  destruct (Z.leb_spec frombits bits); cbn [orb] in E; [injection E as <-; split; [done | lia] | ].
  destruct (Z.eqb_spec (acc mod 2 ^ bits * 2 ^ (tobits - bits)) 0); cbn [negb] in E; injection E as <-; split; [nia | done | done | nia].
Qed.
End Convert.

(** Bytes regrouped with padding are given back by the strict conversion... *)
Lemma ConvertBits_round w data : 0 < w <= 8 -> are_bytes data ->
  ConvertBits w 8 false (fst (ConvertBits 8 w true data)) = (data, true).
Proof.
  intros Hw Hd. destruct (ConvertBits 8 w true data) as [out r] eqn:E. cbn [fst].
  apply ConvertBits_pad in E as (_ & Ho & k & Hk & Hl & Hv); [ | lia.. | done].
  destruct (ConvertBits w 8 false out) as [d r'] eqn:E'.
  apply ConvertBits_strict in E' as (Hd' & b & m & Hb & Hm & Hl' & Hv' & Hr); [ | lia.. | done].
  assert (b = k) as -> by lia. rewrite Hv in Hv'. pose proof (Z.pow_pos_nonneg 2 k ltac:(lia) ltac:(lia)).
  assert (value (2 ^ 8) d = value (2 ^ 8) data /\ m = 0) as [Ev Em] by (apply (Z.div_mod_unique (2 ^ k)); lia).
  f_equal; [ | apply Hr; lia]. apply (value_inj (2 ^ 8)); [done.. | unfold vsize in *; lia | done].
Qed.

(** ...and what the strict conversion accepts is the padded form of its result. *)
Lemma ConvertBits_canonical w input data : 0 < w <= 8 -> digits (2 ^ w) input ->
  ConvertBits w 8 false input = (data, true) -> are_bytes data /\ fst (ConvertBits 8 w true data) = input.
Proof.
  intros Hw Hi E. apply ConvertBits_strict in E as (Hd & b & m & Hb & Hm & Hl & Hv & Hr); [ | lia.. | done].
  split; [done | ]. destruct (proj1 Hr eq_refl) as [Hb' ->]. destruct (ConvertBits 8 w true data) as [out r'] eqn:E'. cbn [fst].
  apply ConvertBits_pad in E' as (_ & Ho & k & Hk & Hl' & Hv'); [ | lia.. | done].
  assert (vsize out = vsize input) by nia. assert (k = b) as -> by nia.
  apply (value_inj (2 ^ w)); [apply Z.pow_pos_nonneg; lia | done.. | unfold vsize in *; lia | lia].
Qed.

Lemma ConvertBits_size w data : 0 < w <= 8 -> are_bytes data ->
  vsize (fst (ConvertBits 8 w true data)) = (8 * vsize data + w - 1) / w /\ digits (2 ^ w) (fst (ConvertBits 8 w true data)).
Proof.
  intros Hw Hd. destruct (ConvertBits 8 w true data) as [out r] eqn:E. cbn [fst].
  apply ConvertBits_pad in E as (_ & Ho & k & Hk & Hl & _); [ | lia.. | done]. split; [ | done].
  apply Z.div_unique with (w - 1 - k); lia.
Qed.

(** *** Alphabets *)

(** The table undoes the alphabet, and knows neither the padding character nor the terminating zero. *)
Definition alphabet_ok (alphabet table : list Z) (w : Z) : bool :=
  forallb (fun v => (entry table (nth v alphabet 0) =? Z.of_nat v) && negb (nth v alphabet 0 =? 0)) (seq 0 (Z.to_nat (2 ^ w))) &&
  (entry table (char "=") =? -1).

Lemma alphabet_entry alphabet table w v : 0 <= w -> alphabet_ok alphabet table w = true -> 0 <= v < 2 ^ w ->
  entry table (nth (Z.to_nat v) alphabet 0) = v /\ nth (Z.to_nat v) alphabet 0 <> 0.
Proof.
  intros Hw H Hv. apply andb_true_iff in H as [H _]. rewrite forallb_forall in H.
  specialize (H (Z.to_nat v)). rewrite in_seq in H. specialize (H ltac:(lia)). apply andb_true_iff in H as [H1 H2].
  rewrite Z2Nat.id in H1 by lia. split; [by apply Z.eqb_eq | ]. by apply negb_true_iff, Z.eqb_neq in H2.
Qed.

Lemma c_str_id s : Forall (fun c => c <> 0) s -> c_str s = s.
Proof. induction 1 as [ | c s Hc _ IH]; [done | ]. cbn [c_str]. by rewrite (proj2 (Z.eqb_neq c 0) Hc), IH. Qed.

Lemma c_str_nonzero s : Forall (fun c => c <> 0) (c_str s).
Proof. induction s as [ | c s IH]; [constructor | ]. cbn [c_str]. destruct (Z.eqb_spec c 0); by constructor. Qed.

Lemma fill_equals_spec fuel n str : 0 < n -> (n - 1 - (vsize str - 1) mod n <= Z.of_nat fuel) ->
  fill_equals fuel n str = str ++ replicate (Z.to_nat ((- vsize str) mod n)) (char "=").
Proof.
  intros Hn. revert str. induction fuel as [ | fuel IH]; intros str Hf.
  - assert (E : vsize str mod n = 0).
    { pose proof (Z.mod_pos_bound (vsize str - 1) n Hn). assert ((vsize str - 1) mod n = n - 1) as E by lia.
      rewrite Z.mod_eq in E |- * by lia.
      replace (vsize str) with (n * ((vsize str - 1) / n + 1)) by lia. rewrite Z.mul_comm, Z.div_mul by lia. lia. }
    rewrite Z.mod_opp_l_z by lia. by rewrite app_nil_r.
  - cbn [fill_equals]. destruct (Z.eqb_spec (vsize str mod n) 0) as [E | E].
    { rewrite Z.mod_opp_l_z by lia. by rewrite app_nil_r. }
    pose proof (Z.mod_pos_bound (vsize str) n Hn).
    assert (E1 : (vsize str - 1) mod n = vsize str mod n - 1)
      by (symmetry; apply Z.mod_unique with (vsize str / n); [lia | rewrite (Z.mod_eq (vsize str)) by lia; lia]).
    rewrite IH by (rewrite vsize_app; change (vsize [char "="]) with 1; replace (vsize str + 1 - 1) with (vsize str) by lia; lia).
    rewrite <- app_assoc, vsize_app. change (vsize [char "="]) with 1. f_equal.
    change ([char "="] ++ replicate ?k (char "=")) with (replicate (S k) (char "=")). f_equal.
    rewrite (Z.mod_opp_l_nz (vsize str)) by lia.
    assert ((- (vsize str + 1)) mod n = n - 1 - vsize str mod n) as ->; [ | lia].
    symmetry. apply Z.mod_unique with (- (vsize str / n) - 1); [lia | rewrite (Z.mod_eq (vsize str)) by lia; lia].
Qed.

Lemma read_values_map alphabet table w vs n : 0 <= w -> alphabet_ok alphabet table w = true -> digits (2 ^ w) vs ->
  read_values table (((fun v => nth (Z.to_nat v) alphabet 0) <$> vs) ++ replicate n (char "=")) = (vs, replicate n (char "=")).
Proof.
  intros Hw Hok. induction 1 as [ | v vs Hv _ IH].
  - cbn [fmap list_fmap app]. apply andb_true_iff in Hok as [_ H]. destruct n as [ | n]; [done | ].
    cbn [replicate read_values]. by rewrite H.
  - cbn [fmap list_fmap app read_values]. destruct (alphabet_entry alphabet table w v Hw Hok Hv) as [-> _].
    fold (list_fmap Z Z). rewrite (proj2 (Z.eqb_neq v (-1))) by lia.
    change (list_fmap _ _ ?f ?l) with (f <$> l). by rewrite IH.
Qed.

Lemma read_equals_all n : read_equals (replicate n (char "=")) = (true, Z.of_nat n).
Proof. induction n as [ | n IH]; [done | ]. cbn [replicate read_equals]. rewrite IH. simpl negb. cbv iota. f_equal. lia. Qed.

Lemma decode_encode_with alphabet table w group data : 0 < w <= 8 -> 0 < group ->
  alphabet_ok alphabet table w = true -> are_bytes data ->
  decode_with table w group (c_str (encode_with alphabet w group data)) = (data, true).
Proof.
  intros Hw Hg Hok Hd. unfold encode_with. destruct (ConvertBits_size w data Hw Hd) as [_ Hv].
  pose proof (ConvertBits_round w data Hw Hd) as Hr. set (vs := fst (ConvertBits 8 w true data)) in *.
  rewrite fill_equals_spec; [ | done | pose proof (Z.mod_pos_bound (vsize ((fun v => nth (Z.to_nat v) alphabet 0) <$> vs) - 1) group Hg); lia].
  rewrite c_str_id.
  2: { apply Forall_app. split.
       - apply Forall_fmap. eapply Forall_impl; [exact Hv | ]. intros v Hvv. by apply (alphabet_entry alphabet table w v ltac:(lia) Hok Hvv).
       - by apply Forall_replicate. }
  unfold decode_with. rewrite (read_values_map alphabet table w) by (done || lia). rewrite Hr, read_equals_all.
  assert (El : vsize ((fun v => nth (Z.to_nat v) alphabet 0) <$> vs) = vsize vs) by (unfold vsize; by rewrite length_fmap).
  rewrite El. pose proof (Z.mod_pos_bound (- vsize vs) group Hg) as Hm. rewrite Z2Nat.id by lia.
  rewrite Z.add_mod_idemp_r, Z.add_opp_diag_r, Z.mod_0_l by lia. rewrite (proj2 (Z.ltb_lt _ _)) by lia. done.
Qed.

Theorem base64_round_trip data : are_bytes data -> DecodeBase64 (EncodeBase64 data) = (data, true).
Proof. intros Hd. apply decode_encode_with; [lia.. | by vm_compute | done]. Qed.

Theorem base32_round_trip data : are_bytes data -> DecodeBase32 (EncodeBase32 data) = (data, true).
Proof. intros Hd. apply decode_encode_with; [lia.. | by vm_compute | done]. Qed.

(** *** Base 16 *)

Lemma hexmap_digit v : 0 <= v < 16 -> HexDigit (nth (Z.to_nat v) hexmap 0) = v /\ isspace (nth (Z.to_nat v) hexmap 0) = false /\
  nth (Z.to_nat v) hexmap 0 <> 0.
Proof.
  intros Hv. assert (H : forallb (fun n => let c := nth n hexmap 0 in
    (HexDigit c =? Z.of_nat n) && negb (isspace c) && negb (c =? 0)) (seq 0 16) = true) by by vm_compute.
  rewrite forallb_forall in H. specialize (H (Z.to_nat v)). rewrite in_seq in H. specialize (H ltac:(lia)). cbv zeta in H.
  rewrite !andb_true_iff, !negb_true_iff, Z2Nat.id, Z.eqb_eq, Z.eqb_neq in H by lia. tauto.
Qed.

Lemma nibbles b : is_byte b -> 0 <= Z.shiftr b 4 < 16 /\ 0 <= Z.land b 15 < 16 /\ Z.lor (u8 (Z.shiftl (Z.shiftr b 4) 4)) (Z.land b 15) = b.
Proof.
  unfold is_byte, u8. intros Hb. rewrite (Z.shiftr_div_pow2 b 4) by lia. change (2 ^ 4) with 16.
  assert (E : Z.land b 15 = b mod 16) by (apply (Z.land_ones b 4); lia). rewrite E.
  rewrite Z.shiftl_mul_pow2 by lia. change (2 ^ 4) with 16; change (2 ^ 8) with 256.
  pose proof (Z.mod_pos_bound b 16 eq_refl). pose proof (Z.div_mod b 16 ltac:(done)).
  rewrite (Z.mod_small (b / 16 * 16)) by lia. split; [lia | ]. split; [lia | ].
  rewrite Z.lor_comm. change 16 with (2 ^ 4) at 3. rewrite <- Z.shiftl_mul_pow2, lor_shiftl_add by lia. lia.
Qed.

Lemma hex_str_nonzero sp first data : are_bytes data -> Forall (fun c => c <> 0) (hex_str_loop sp first data).
Proof.
  intros H. revert first. induction H as [ | b data Hb _ IH]; intros first; [constructor | ]. cbn [hex_str_loop].
  destruct (nibbles b Hb) as (H1 & H2 & _). apply Forall_app. split; [destruct sp, first; repeat constructor; done | ].
  apply Forall_app. split; [ | apply IH]. constructor; [by apply hexmap_digit | ]. constructor; [by apply hexmap_digit | constructor].
Qed.

Lemma parse_hex_str sp data : are_bytes data -> forall fuel first, (length data < fuel)%nat ->
  parse_hex_loop fuel (hex_str_loop sp first data) = data.
Proof.
  induction 1 as [ | b data Hb _ IH]; intros fuel first Hf; (destruct fuel as [ | fuel]; [simpl in Hf; lia | ]); [done | ].
  destruct (nibbles b Hb) as (H1 & H2 & E). destruct (hexmap_digit _ H1) as (D1 & S1 & _). destruct (hexmap_digit _ H2) as (D2 & S2 & _).
  cbn [hex_str_loop parse_hex_loop]. set (c := nth (Z.to_nat (Z.shiftr b 4)) hexmap 0) in *. set (d := nth (Z.to_nat (Z.land b 15)) hexmap 0) in *.
  assert (Es : skip_while isspace ((if sp && negb first then [32] else []) ++ [c; d] ++ hex_str_loop sp false data) = c :: d :: hex_str_loop sp false data).
  { destruct (sp && negb first); cbn [app skip_while]; [change (isspace 32) with true; cbv iota | ]; by rewrite S1. }
  rewrite Es. cbv iota. rewrite D1, D2, E. rewrite !(proj2 (Z.eqb_neq _ (-1))) by lia. f_equal. apply IH. simpl in Hf. lia.
Qed.

Lemma hex_str_length sp first data : (2 * length data <= length (hex_str_loop sp first data))%nat.
Proof.
  revert first. induction data as [ | b data IH]; intros first; [simpl; lia | ].
  cbn [hex_str_loop]. rewrite !length_app. specialize (IH false). cbn [length]. lia.
Qed.

(** Hexadecimal text, with or without spaces, is read back as the bytes it was made from. *)
Theorem hex_round_trip data sp : are_bytes data -> ParseHex (HexStr data sp) = data.
Proof.
  intros Hd. unfold ParseHex, HexStr. rewrite c_str_id by by apply hex_str_nonzero.
  destruct data as [ | b data]; [done | ]. apply parse_hex_str; [done | ].
  pose proof (hex_str_length sp true (b :: data)). simpl length in *. lia.
Qed.

Lemma IsHex_HexStr data : are_bytes data -> data <> [] -> IsHex (HexStr data false) = true.
Proof.
  intros Hd Hn. unfold IsHex, HexStr.
  assert (H : forall first, forallb (fun c => 0 <=? HexDigit c) (hex_str_loop false first data) = true /\
    vsize (hex_str_loop false first data) = 2 * vsize data).
  { induction Hd as [ | b data Hb Hd IH]; intros first; [done | ]. cbn [hex_str_loop andb app]. rewrite !vsize_cons.
    destruct (nibbles b Hb) as (H1 & H2 & _). destruct (hexmap_digit _ H1) as (D1 & _). destruct (hexmap_digit _ H2) as (D2 & _).
    cbn [forallb]. rewrite D1, D2. destruct (decide (data = [])) as [-> | Hne].
    - split; [ | done]. rewrite !(proj2 (Z.leb_le _ _)) by lia. done.
    - destruct (IH Hne false) as [-> ->]. split; [ | lia]. rewrite !(proj2 (Z.leb_le _ _)) by lia. done. }
  destruct (H true) as [-> ->]. pose proof (vsize_pos data Hn). rewrite (proj2 (Z.ltb_lt _ _)) by lia.
  rewrite Z.mul_comm, Z.mod_mul by lia. done.
Qed.
