(* ===== verification/Bech32.v ===== *)
(** * Bech32 ([src/bech32.cpp])

    The text form of witness programs: a human readable part, a separator, groups of five bits in an
    alphabet of 32 characters, and a checksum of six of them computed by the division of polynomials
    over a field of 32 elements that [PolyMod] does on packed integers.

    Theorems: decoding gives back what was encoded, and a text that decodes is, in lower case, the
    encoding of its result; a text in which up to three of the characters after the separator were
    replaced does not decode. *)

From Stdlib Require Import String Btauto.
From stdpp Require Import list pmap.
From S2P Require Import Prelude Text.
Open Scope Z_scope.
Abbreviation length := Datatypes.length (only parsing).

(** ** Definitions *)

Definition CHARSET : bytes := chars "qpzry9x8gf2tvdw0s3jn54khce6mua7l".

Definition CHARSET_REV : list Z :=
  [-1;-1;-1;-1;-1;-1;-1;-1;-1;-1;-1;-1;-1;-1;-1;-1;
   -1;-1;-1;-1;-1;-1;-1;-1;-1;-1;-1;-1;-1;-1;-1;-1;
   -1;-1;-1;-1;-1;-1;-1;-1;-1;-1;-1;-1;-1;-1;-1;-1;
   15;-1;10;17;21;20;26;30; 7; 5;-1;-1;-1;-1;-1;-1;
   -1;29;-1;24;13;25; 9; 8;23;-1;18;22;31;27;19;-1;
    1; 0; 3;16;11;28;12;14; 6; 4; 2;-1;-1;-1;-1;-1;
   -1;29;-1;24;13;25; 9; 8;23;-1;18;22;31;27;19;-1;
    1; 0; 3;16;11;28;12;14; 6; 4; 2;-1;-1;-1;-1;-1].

Definition xor_if (b : bool) (c k : Z) : Z := if b then Z.lxor c k else c.

(** One turn of the loop of [PolyMod] *)
Definition polymod_step (c v_i : Z) : Z :=
  let c0 := u8 (Z.shiftr c 25) in
  let c := Z.lxor (Z.shiftl (Z.land c 0x1ffffff) 5) v_i in
  let c := xor_if (negb (Z.land c0 1 =? 0)) c 0x3b6a57b2 in
  let c := xor_if (negb (Z.land c0 2 =? 0)) c 0x26508e6d in
  let c := xor_if (negb (Z.land c0 4 =? 0)) c 0x1ea119fa in
  let c := xor_if (negb (Z.land c0 8 =? 0)) c 0x3d4233dd in
  xor_if (negb (Z.land c0 16 =? 0)) c 0x2a1462b3.

Definition PolyMod (v : list Z) : Z := fold_left polymod_step v 1.

Definition LowerCase (c : Z) : Z :=
  if (char "A" <=? c) && (c <=? char "Z") then (c - char "A") + char "a" else c.

Definition ExpandHRP (hrp : bytes) : list Z :=
  ((fun c => Z.shiftr c 5) <$> hrp) ++ [0] ++ ((fun c => Z.land c 0x1f) <$> hrp).

Definition VerifyChecksum (hrp : bytes) (values : list Z) : bool := PolyMod (ExpandHRP hrp ++ values) =? 1.

Definition CreateChecksum (hrp : bytes) (values : list Z) : list Z :=
  let enc := (ExpandHRP hrp ++ values) ++ replicate 6 0 in
  let mod_ := Z.lxor (PolyMod enc) 1 in
  (fun i => Z.land (Z.shiftr mod_ (5 * (5 - Z.of_nat i))) 31) <$> seq 0 6.

Definition Encode (hrp : bytes) (values : list Z) : bytes :=
  let combined := values ++ CreateChecksum hrp values in
  hrp ++ [char "1"] ++ ((fun c => nth (Z.to_nat c) CHARSET 0) <$> combined).

(** The loop over the characters: [lower] and [upper], or a character out of range *)
Fixpoint scan_case (str : bytes) (lower upper : bool) : option (bool * bool) :=
  match str with
  | [] => Some (lower, upper)
  | c :: str =>
      if (char "a" <=? c) && (c <=? char "z") then scan_case str true upper
      else if (char "A" <=? c) && (c <=? char "Z") then scan_case str lower true
      else if (c <? 33) || (126 <? c) then None
      else scan_case str lower upper
  end.

(** [str.rfind(c)] *)
Fixpoint rfind (c : Z) (str : bytes) : option nat :=
  match str with
  | [] => None
  | d :: str =>
      match rfind c str with
      | Some pos => Some (S pos)
      | None => if d =? c then Some O else None
      end
  end.

(** The loop that fills [values]; [None] is a character that is not of the alphabet *)
Fixpoint rev_values (str : bytes) : option (list Z) :=
  match str with
  | [] => Some []
  | c :: str =>
      let rev := entry CHARSET_REV c in
      if rev =? -1 then None else vs ← rev_values str; Some (rev :: vs)
  end.

(** [return {}] is a pair of empty sequences. *)
Definition Decode (str : bytes) : bytes * list Z :=
  match scan_case str false false with
  | None => ([], [])
  | Some (lower, upper) =>
      if lower && upper then ([], [])
      else
        match rfind (char "1") str with
        | None => ([], [])
        | Some pos =>
            if (90 <? vsize str) || (Z.of_nat pos =? 0) || (vsize str <? Z.of_nat pos + 7) then ([], [])
            else
              match rev_values (drop (pos + 1) str) with
              | None => ([], [])
              | Some values =>
                  let hrp := LowerCase <$> take pos str in
                  if negb (VerifyChecksum hrp values) then ([], [])
                  else (hrp, take (length values - 6) values)
              end
        end
  end.

(** ** Theorems *)

(** *** [PolyMod] *)

(** The next remainder is a linear function of the remainder and the value. *)
Lemma testbit_byte c k i : 0 <= i < 8 -> 0 <= k -> negb (Z.land (u8 (Z.shiftr c k)) (2 ^ i) =? 0) = Z.testbit c (k + i).
Proof.
  intros Hi Hk. assert (E : Z.land (u8 (Z.shiftr c k)) (2 ^ i) = if Z.testbit c (k + i) then 2 ^ i else 0).
  { apply Z.bits_inj'. intros n Hn. unfold u8. rewrite Z.land_spec, Z.pow2_bits_eqb by lia.
    destruct (Z.eqb_spec i n) as [<- | Hne].
    - rewrite Z.mod_pow2_bits_low, Z.shiftr_spec, Z.add_comm by lia. destruct (Z.testbit c (k + i)); [by rewrite Z.pow2_bits_true | by rewrite Z.bits_0].
    - rewrite andb_false_r. destruct (Z.testbit c (k + i)); [by rewrite Z.pow2_bits_false by lia | by rewrite Z.bits_0]. }
  rewrite E. destruct (Z.testbit c (k + i)); [ | done]. apply negb_true_iff, Z.eqb_neq. apply Z.pow_nonzero; lia.
Qed.

Definition term (c i k : Z) : Z := if Z.testbit c i then k else 0.

Lemma polymod_step_eq c v : polymod_step c v =
  Z.lxor (Z.lxor (Z.shiftl (Z.land c 0x1ffffff) 5) v)
    (Z.lxor (term c 25 0x3b6a57b2) (Z.lxor (term c 26 0x26508e6d) (Z.lxor (term c 27 0x1ea119fa)
      (Z.lxor (term c 28 0x3d4233dd) (term c 29 0x2a1462b3))))).
Proof.
  unfold polymod_step, xor_if, term. cbv zeta.
  assert (H : forall i m n, 0 <= i < 8 -> 2 ^ i = m -> 25 + i = n -> negb (Z.land (u8 (Z.shiftr c 25)) m =? 0) = Z.testbit c n)
    by (intros i m n Hi <- <-; apply testbit_byte; lia).
  rewrite (H 0 1 25), (H 1 2 26), (H 2 4 27), (H 3 8 28), (H 4 16 29) by (done || lia).
  destruct (Z.testbit c 25), (Z.testbit c 26), (Z.testbit c 27), (Z.testbit c 28), (Z.testbit c 29);
    rewrite ?Z.lxor_0_r, ?Z.lxor_0_l, ?Z.lxor_assoc; done.
Qed.

Lemma term_lxor a b i k : term (Z.lxor a b) i k = Z.lxor (term a i k) (term b i k).
Proof. unfold term. rewrite Z.lxor_spec. destruct (Z.testbit a i), (Z.testbit b i); cbn [xorb]; by rewrite ?Z.lxor_0_r, ?Z.lxor_nilpotent. Qed.

Lemma polymod_step_lxor a b u v : polymod_step (Z.lxor a b) (Z.lxor u v) = Z.lxor (polymod_step a u) (polymod_step b v).
Proof.
  rewrite !polymod_step_eq, !term_lxor.
  assert (E : forall x y, Z.land (Z.lxor x y) 0x1ffffff = Z.lxor (Z.land x 0x1ffffff) (Z.land y 0x1ffffff))
    by (intros x y; apply Z.bits_inj'; intros n _; rewrite !Z.land_spec, !Z.lxor_spec, !Z.land_spec; btauto).
  rewrite E, Z.shiftl_lxor. apply Z.bits_inj'. intros n _. rewrite !Z.lxor_spec. btauto.
Qed.

Lemma term_bound c i k : 0 <= k < 2 ^ 30 -> 0 <= term c i k < 2 ^ 30.
Proof. unfold term. destruct (Z.testbit c i); lia. Qed.

Lemma polymod_step_bound c v : 0 <= v < 32 -> 0 <= polymod_step c v < 2 ^ 30.
Proof.
  intros Hv. rewrite polymod_step_eq. apply lxor_bound; [done | | repeat (apply lxor_bound; [done | by apply term_bound | ]); by apply term_bound].
  apply lxor_bound; [done | | lia]. rewrite Z.shiftl_mul_pow2 by lia.
  assert (E : Z.land c 0x1ffffff = c mod 2 ^ 25) by (apply (Z.land_ones c 25); lia). rewrite E.
  pose proof (Z.mod_pos_bound c (2 ^ 25) ltac:(lia)). lia.
Qed.

Lemma polymod_step_small c v : 0 <= c < 2 ^ 25 -> 0 <= v < 32 -> polymod_step c v = c * 32 + v.
Proof.
  intros Hc Hv. rewrite polymod_step_eq.
  assert (Ht : forall i k, 25 <= i -> term c i k = 0).
  { intros i k Hi. unfold term. by rewrite <- (Z.mod_small c (2 ^ 25)), Z.mod_pow2_bits_high by lia. }
  rewrite !Ht by lia. rewrite !Z.lxor_0_r.
  assert (E : Z.land c 0x1ffffff = c mod 2 ^ 25) by (apply (Z.land_ones c 25); lia). rewrite E, Z.mod_small by lia.
  rewrite Z.lxor_lor; [rewrite Z.lor_comm, lor_shiftl_add; lia | ].
  apply Z.bits_inj'. intros i Hi. rewrite Z.land_spec, Z.bits_0, Z.shiftl_spec by lia.
  destruct (decide (i < 5)); [by rewrite Z.testbit_neg_r by lia | ].
  rewrite <- (Z.mod_small v (2 ^ 5)), (Z.mod_pow2_bits_high v) by lia. apply andb_false_r.
Qed.

(** The loop from any remainder *)
Definition pm (c : Z) (l : list Z) : Z := fold_left polymod_step l c.

Lemma pm_app c a b : pm c (a ++ b) = pm (pm c a) b.
Proof. apply fold_left_app. Qed.

Lemma pm_lxor a b l m : length l = length m -> pm (Z.lxor a b) (zip_with Z.lxor l m) = Z.lxor (pm a l) (pm b m).
Proof.
  revert a b m. induction l as [ | u l IH]; intros a b [ | v m] H; try done. injection H as H.
  unfold pm. cbn [zip_with fold_left]. rewrite polymod_step_lxor. by apply IH.
Qed.

Lemma pm_bound c l : 0 <= c < 2 ^ 30 -> digits 32 l -> 0 <= pm c l < 2 ^ 30.
Proof.
  intros Hc Hl. revert c Hc. induction Hl as [ | v l Hv _ IH]; intros c Hc; [done | ].
  unfold pm. cbn [fold_left]. apply IH, polymod_step_bound, Hv.
Qed.

Lemma pm_small l : digits 32 l -> (length l <= 6)%nat -> pm 0 l = value 32 l.
Proof.
  induction l as [ | v l IH] using rev_ind; intros Hd Hl; [done | ]. apply Forall_app in Hd as [Hd Hv].
  apply Forall_cons in Hv as [Hv _]. rewrite length_app in Hl. cbn [length] in Hl.
  rewrite pm_app, value_snoc, IH by (done || lia). pose proof (value_bound 32 l ltac:(lia) Hd) as Hb.
  assert (32 ^ vsize l <= 32 ^ 5) by (apply Z.pow_le_mono_r; unfold vsize; lia).
  apply polymod_step_small; lia.
Qed.

Lemma zip_with_zeros l : zip_with Z.lxor (replicate (length l) 0) l = l.
Proof. induction l as [ | v l IH]; [done | ]. cbn [length replicate zip_with]. by rewrite IH, Z.lxor_0_l. Qed.

Lemma pm_checksum c chk : digits 32 chk -> length chk = 6%nat -> pm c chk = Z.lxor (pm c (replicate 6 0)) (value 32 chk).
Proof.
  intros Hd Hl. rewrite <- pm_small by (done || lia). rewrite <- pm_lxor by (by rewrite Hl).
  rewrite Z.lxor_0_r. f_equal. rewrite <- (zip_with_zeros chk) at 1. by rewrite Hl.
Qed.

Definition groups (m : Z) : list Z := (fun i => Z.land (Z.shiftr m (5 * (5 - Z.of_nat i))) 31) <$> seq 0 6.

Lemma groups_spec m : 0 <= m < 2 ^ 30 -> digits 32 (groups m) /\ length (groups m) = 6%nat /\ value 32 (groups m) = m.
Proof.
  intros Hm. assert (E : forall a, Z.land a 31 = a mod 32) by (intros a; apply (Z.land_ones a 5); lia).
  split; [ | split; [done | ]].
  - apply Forall_fmap, Forall_forall. intros i _. cbn. rewrite E. apply Z.mod_pos_bound. lia.
  - unfold groups, value. cbn [fmap list_fmap seq fold_left]. rewrite !E, !Z.shiftr_div_pow2 by lia.
    repeat match goal with |- context [?a / 2 ^ (5 * (5 - Z.of_nat ?i))] =>
      let k := eval vm_compute in (2 ^ (5 * (5 - Z.of_nat i))) in change (2 ^ (5 * (5 - Z.of_nat i))) with k end.
    Z.to_euclidean_division_equations. lia.
Qed.

(** The checksum that is created is the one and only that is verified. *)
Lemma VerifyChecksum_iff hrp values chk : digits 32 (ExpandHRP hrp) -> digits 32 values -> digits 32 chk -> length chk = 6%nat ->
  (VerifyChecksum hrp (values ++ chk) = true <-> chk = CreateChecksum hrp values).
Proof.
  intros He Hv Hc Hl. unfold VerifyChecksum, CreateChecksum, PolyMod. cbv zeta. rewrite app_assoc.
  change (fold_left polymod_step ?l 1) with (pm 1 l). rewrite (pm_app 1 (_ ++ _) chk), (pm_app 1 (_ ++ _) (replicate 6 0)).
  set (c := pm 1 (ExpandHRP hrp ++ values)). rewrite pm_checksum by done. set (m := pm c (replicate 6 0)).
  assert (Hm : 0 <= Z.lxor m 1 < 2 ^ 30).
  { apply lxor_bound; [done | | lia]. apply pm_bound; [ | by repeat constructor]. apply pm_bound; [lia | ]. by apply Forall_app. }
  fold (groups (Z.lxor m 1)). destruct (groups_spec _ Hm) as (Gd & Gl & Gv). rewrite Z.eqb_eq. split.
  - intros E. apply (value_inj 32); [lia | done.. | by rewrite Hl, Gl | ]. rewrite Gv, <- E, <- Z.lxor_assoc, Z.lxor_nilpotent. by rewrite Z.lxor_0_l.
  - intros ->. rewrite Gv, <- Z.lxor_assoc, Z.lxor_nilpotent. apply Z.lxor_0_l.
Qed.

(** *** Texts *)

Definition printable (c : Z) : Prop := 33 <= c <= 126.
Definition not_upper (c : Z) : Prop := ~ (char "A" <= c <= char "Z").

(** The human readable parts the encoding is meant for *)
Definition hrp_ok (hrp : bytes) : Prop := hrp <> [] /\ Forall (fun c => printable c /\ not_upper c) hrp.

Lemma LowerCase_id c : not_upper c -> LowerCase c = c.
Proof. unfold LowerCase, not_upper. intros H. destruct ((char "A" <=? c) && (c <=? char "Z")) eqn:E; [ | done]. zbool. tauto. Qed.

Lemma LowerCase_ok c : printable c -> printable (LowerCase c) /\ not_upper (LowerCase c).
Proof.
  unfold LowerCase, printable, not_upper. change (char "A") with 65. change (char "Z") with 90. change (char "a") with 97. intros H.
  destruct ((65 <=? c) && (c <=? 90)) eqn:E; zbool; lia.
Qed.

Lemma ExpandHRP_digits hrp : Forall printable hrp -> digits 32 (ExpandHRP hrp).
Proof.
  intros H. unfold ExpandHRP. apply Forall_app. split; [ | apply Forall_cons; split; [lia | ]].
  - apply Forall_fmap. eapply Forall_impl; [exact H | ]. intros c [H1 H2]. cbn. rewrite Z.shiftr_div_pow2 by lia. Z.to_euclidean_division_equations. lia.
  - apply Forall_fmap. eapply Forall_impl; [exact H | ]. intros c [H1 H2]. cbn.
    assert (E : Z.land c 31 = c mod 32) by (apply (Z.land_ones c 5); lia). rewrite E. apply Z.mod_pos_bound. lia.
Qed.

Lemma charset_entry v : 0 <= v < 32 -> let c := nth (Z.to_nat v) CHARSET 0 in
  entry CHARSET_REV c = v /\ printable c /\ not_upper c /\ c <> char "1".
Proof.
  intros Hv. assert (H : forallb (fun n => let c := nth n CHARSET 0 in
    (entry CHARSET_REV c =? Z.of_nat n) && (33 <=? c) && (c <=? 126) && negb ((char "A" <=? c) && (c <=? char "Z")) && negb (c =? char "1")) (seq 0 32) = true)
    by by vm_compute.
  rewrite forallb_forall in H. specialize (H (Z.to_nat v)). rewrite in_seq in H. specialize (H ltac:(lia)). cbv zeta in *.
  unfold printable, not_upper. zbool. rewrite Z2Nat.id in * by lia. lia.
Qed.

Lemma charset_rev c : printable c -> entry CHARSET_REV c <> -1 ->
  0 <= entry CHARSET_REV c < 32 /\ nth (Z.to_nat (entry CHARSET_REV c)) CHARSET 0 = LowerCase c.
Proof.
  intros Hc. unfold printable in Hc. assert (H : forallb (fun n => let c := Z.of_nat n in let e := entry CHARSET_REV c in
    (e =? -1) || ((0 <=? e) && (e <? 32) && (nth (Z.to_nat e) CHARSET 0 =? LowerCase c))) (seq 0 127) = true) by by vm_compute.
  rewrite forallb_forall in H. specialize (H (Z.to_nat c)). rewrite in_seq in H. specialize (H ltac:(lia)). cbv zeta in H.
  rewrite Z2Nat.id in H by lia. intros Hn. apply orb_true_iff in H as [H | H]; [by apply Z.eqb_eq in H | ]. zbool. lia.
Qed.

Lemma scan_case_lower str lower upper : Forall (fun c => printable c /\ not_upper c) str ->
  exists l, scan_case str lower upper = Some (l, upper).
Proof.
  intros H. revert lower. induction H as [ | c str [Hp Hu] _ IH]; intros lower; [by exists lower | ]. cbn [scan_case].
  unfold printable, not_upper in *. destruct ((char "a" <=? c) && (c <=? char "z")); [apply IH | ].
  destruct ((char "A" <=? c) && (c <=? char "Z")) eqn:E; [zbool; tauto | ].
  destruct ((c <? 33) || (126 <? c)) eqn:E'; [zbool; lia | apply IH].
Qed.

Lemma scan_case_printable str lower upper r : scan_case str lower upper = Some r -> Forall printable str.
Proof.
  revert lower upper. unfold printable. induction str as [ | c str IH]; intros lower upper E; [constructor | ]. cbn [scan_case] in E.
  change (char "a") with 97 in *. change (char "z") with 122 in *. change (char "A") with 65 in *. change (char "Z") with 90 in *.
  destruct ((97 <=? c) && (c <=? 122)) eqn:E1; [constructor; [zbool; lia | eauto] | ].
  destruct ((65 <=? c) && (c <=? 90)) eqn:E2; [constructor; [zbool; lia | eauto] | ].
  destruct ((c <? 33) || (126 <? c)) eqn:E3; [done | ]. constructor; [zbool; lia | eauto].
Qed.

Lemma rfind_app c a b : ~ In c b -> rfind c (a ++ c :: b) = Some (length a).
Proof.
  intros Hb. induction a as [ | d a IH]; cbn [app rfind length]; [ | by rewrite IH].
  assert (rfind c b = None) as ->; [ | by rewrite Z.eqb_refl]. clear - Hb. induction b as [ | d b IH]; [done | ].
  cbn [rfind]. rewrite IH by (intros H; apply Hb; by right). destruct (Z.eqb_spec d c); [ | done]. exfalso. apply Hb. by left.
Qed.

Lemma rfind_split c str pos : rfind c str = Some pos -> exists a b, str = a ++ c :: b /\ length a = pos.
Proof.
  revert pos. induction str as [ | d str IH]; intros pos E; [done | ]. cbn [rfind] in E. destruct (rfind c str) as [p | ].
  - injection E as <-. destruct (IH p eq_refl) as (a & b & -> & <-). by exists (d :: a), b.
  - destruct (Z.eqb_spec d c); [ | done]. injection E as <-. subst d. by exists [], str.
Qed.

Lemma rev_values_charset vs : digits 32 vs -> rev_values ((fun c => nth (Z.to_nat c) CHARSET 0) <$> vs) = Some vs.
Proof.
  induction 1 as [ | v vs Hv _ IH]; [done | ]. rewrite fmap_cons. cbn [rev_values].
  destruct (charset_entry v Hv) as (-> & _). rewrite (proj2 (Z.eqb_neq v (-1))), IH by lia. done.
Qed.

Lemma rev_values_inv str vs : Forall printable str -> rev_values str = Some vs ->
  digits 32 vs /\ length vs = length str /\ ((fun c => nth (Z.to_nat c) CHARSET 0) <$> vs) = LowerCase <$> str.
Proof.
  intros H. revert vs. induction H as [ | c str Hc _ IH]; intros vs E; cbn [rev_values] in E.
  { injection E as <-. split; [constructor | done]. }
  destruct (Z.eqb_spec (entry CHARSET_REV c) (-1)) as [ | Hn]; [done | ].
  destruct (rev_values str) as [vs' | ]; [ | done]. injection E as <-. destruct (IH vs' eq_refl) as (Hd & Hl & Hm).
  destruct (charset_rev c Hc Hn) as [Hr Hx]. rewrite !fmap_cons, Hx, Hm. split; [by constructor | ]. cbn [length]. by rewrite Hl.
Qed.

Lemma CreateChecksum_ok hrp values : Forall printable hrp -> digits 32 values ->
  digits 32 (CreateChecksum hrp values) /\ length (CreateChecksum hrp values) = 6%nat.
Proof.
  intros Hh Hv. split; [ | done]. apply Forall_fmap, Forall_forall. intros i _. cbn.
  assert (E : forall a, Z.land a 31 = a mod 32) by (intros a; apply (Z.land_ones a 5); lia). rewrite E. apply Z.mod_pos_bound. lia.
Qed.

(** What is encoded is decoded to the same human readable part and values. *)
Lemma Decode_Encode hrp values : hrp_ok hrp -> digits 32 values -> vsize hrp + vsize values <= 83 ->
  Decode (Encode hrp values) = (hrp, values).
Proof.
  intros [Hn Hh] Hv Hl.
  assert (Hp : Forall printable hrp) by (eapply Forall_impl; [exact Hh | by intros c [? _]]).
  destruct (CreateChecksum_ok hrp values Hp Hv) as [Cd Cl]. set (chk := CreateChecksum hrp values) in *.
  assert (Hall : digits 32 (values ++ chk)) by by apply Forall_app.
  unfold Encode. cbv zeta. fold chk. set (tail := (fun c => nth (Z.to_nat c) CHARSET 0) <$> (values ++ chk)).
  assert (Ht : Forall (fun c => printable c /\ not_upper c /\ c <> char "1") tail).
  { apply Forall_fmap. eapply Forall_impl; [exact Hall | ]. intros v Hvv. apply (charset_entry v Hvv). }
  unfold Decode. destruct (scan_case_lower (hrp ++ [char "1"] ++ tail) false false) as [l ->].
  { apply Forall_app. split; [done | ]. constructor; [ | eapply Forall_impl; [exact Ht | intros c (? & ? & ?); done]].
    unfold printable, not_upper. change (char "1") with 49. change (char "A") with 65. lia. }
  rewrite andb_false_r. change ([char "1"] ++ tail) with (char "1" :: tail).
  rewrite rfind_app by (intros Hi; rewrite Forall_forall in Ht; apply list_elem_of_In in Hi; by apply (Ht (char "1"))).
  assert (Es : vsize (hrp ++ char "1" :: tail) = vsize hrp + 1 + vsize values + 6).
  { rewrite vsize_app, vsize_cons. subst tail. unfold vsize. rewrite length_fmap, length_app, Cl. lia. }
  rewrite Es. fold (vsize hrp). pose proof (vsize_pos hrp Hn). pose proof (vsize_nonneg values).
  destruct ((90 <? _) || (vsize hrp =? 0) || _) eqn:E; [zbool; lia | clear E].
  rewrite drop_app_add', take_app_length by done. cbn [drop]. rewrite drop_0.
  subst tail. rewrite rev_values_charset by done. cbv zeta.
  assert (Eh : LowerCase <$> hrp = hrp).
  { clear - Hh. induction Hh as [ | c hrp [_ Hu] _ IH]; [done | ]. by rewrite fmap_cons, LowerCase_id, IH. }
  rewrite Eh. rewrite (proj2 (VerifyChecksum_iff hrp values chk (ExpandHRP_digits hrp Hp) Hv Cd Cl) eq_refl). cbn [negb]. f_equal.
  rewrite length_app, Cl. replace (length values + 6 - 6)%nat with (length values) by lia. by rewrite take_app_length.
Qed.

(** A text that decodes is, in lower case, the encoding of its result. *)
Lemma Encode_Decode str hrp values : Decode str = (hrp, values) -> hrp <> [] ->
  hrp_ok hrp /\ digits 32 values /\ vsize str = vsize hrp + vsize values + 7 /\ vsize str <= 90 /\ Encode hrp values = LowerCase <$> str.
Proof.
  unfold Decode. intros E Hn. destruct (scan_case str false false) as [[lower upper] | ] eqn:Es; [ | by injection E as <-].
  apply scan_case_printable in Es. destruct (lower && upper); [by injection E as <-| ].
  destruct (rfind (char "1") str) as [pos | ] eqn:Er; [ | by injection E as <-].
  destruct ((90 <? vsize str) || (Z.of_nat pos =? 0) || (vsize str <? Z.of_nat pos + 7)) eqn:Eb; [by injection E as <- | zbool].
  apply rfind_split in Er as (a & b & -> & <-). apply Forall_app in Es as [Ha Hb]. apply Forall_cons in Hb as [_ Hb].
  rewrite drop_app_add', take_app_length in E by done. cbn [drop] in E. rewrite drop_0 in E.
  destruct (rev_values b) as [vs | ] eqn:Ev; [ | by injection E as <-]. apply rev_values_inv in Ev as (Hd & Hl & Hm); [ | done].
  set (h := LowerCase <$> a) in *. destruct (VerifyChecksum h vs) eqn:Ec; cbn [negb] in E; injection E as <- <-; [ | done].
  rewrite vsize_app, vsize_cons in *. unfold vsize in * |-. assert (Hlen : (6 <= length vs)%nat) by lia.
  assert (Hh : Forall (fun c => printable c /\ not_upper c) h).
  { apply Forall_fmap. eapply Forall_impl; [exact Ha | ]. intros c Hc. by apply LowerCase_ok. }
  assert (Hp : Forall printable h) by (eapply Forall_impl; [exact Hh | by intros c [? _]]).
  rewrite <- (take_drop (length vs - 6) vs) in Ec, Hd. apply Forall_app in Hd as [Hd1 Hd2].
  apply VerifyChecksum_iff in Ec; [ | by apply ExpandHRP_digits | done.. | rewrite length_drop; lia].
  split; [done | ]. split; [done | ]. unfold vsize. rewrite length_take. unfold h. rewrite length_fmap. split; [lia | ]. split; [lia | ].
  unfold Encode. cbv zeta. fold h. rewrite <- Ec, take_drop, Hm, fmap_app, fmap_cons. done.
Qed.

(** *** Detection of errors *)

(** The remainder of [a] followed by [i] zeros *)
Definition syndrome (i : nat) (a : Z) : Z := pm a (replicate i 0).

Lemma pm_zero l : pm 0 (replicate l 0) = 0.
Proof. induction l as [ | l IH]; [done | ]. exact IH. Qed.

Lemma syndrome_step i a : polymod_step (syndrome i a) 0 = syndrome (S i) a.
Proof. unfold syndrome. rewrite replicate_S_end. by rewrite pm_app. Qed.

Lemma syndrome_bound i a : 0 <= a < 32 -> 0 <= syndrome i a < 2 ^ 30.
Proof. intros Ha. apply pm_bound; [lia | ]. apply Forall_replicate. lia. Qed.

Lemma pm_cons v l : 0 <= v < 32 -> pm 0 (v :: l) = Z.lxor (syndrome (length l) v) (pm 0 l).
Proof.
  intros Hv. unfold syndrome. rewrite <- pm_lxor by by rewrite length_replicate. rewrite zip_with_zeros, Z.lxor_0_r.
  unfold pm. cbn [fold_left]. by rewrite polymod_step_small by lia.
Qed.

(** A remainder does not vanish when a zero follows. *)
Lemma polymod_step_zero c : 0 <= c < 2 ^ 30 -> polymod_step c 0 = 0 -> c = 0.
Proof.
  intros Hc E. set (h := c / 2 ^ 25). set (lo := c mod 2 ^ 25).
  assert (Hh : 0 <= h < 32) by (subst h; Z.to_euclidean_division_equations; lia).
  assert (Hlo : 0 <= lo < 2 ^ 25) by (apply Z.mod_pos_bound; lia).
  assert (Ec : c = Z.lxor (h * 2 ^ 25) lo).
  { rewrite <- Z.shiftl_mul_pow2 by lia. rewrite Z.lxor_lor.
    - rewrite Z.lor_comm, lor_shiftl_add by lia. subst h lo. rewrite Z.add_comm, Z.mul_comm. apply Z.div_mod. lia.
    - apply Z.bits_inj'. intros i Hi. rewrite Z.land_spec, Z.bits_0, Z.shiftl_spec by lia. subst lo.
      destruct (decide (i < 25)); [by rewrite Z.testbit_neg_r by lia | by rewrite Z.mod_pow2_bits_high, andb_false_r by lia]. }
  rewrite Ec in E. change 0 with (Z.lxor 0 0) in E at 1. rewrite polymod_step_lxor, (polymod_step_small lo) in E by lia.
  apply Z.lxor_eq in E. rewrite Z.add_0_r in E.
  assert (Hx : forallb (fun n => (n =? 0)%nat || negb (polymod_step (Z.of_nat n * 2 ^ 25) 0 mod 32 =? 0)) (seq 0 32) = true) by by vm_compute.
  rewrite forallb_forall in Hx. specialize (Hx (Z.to_nat h)). rewrite in_seq, Z2Nat.id in Hx by lia. specialize (Hx ltac:(lia)).
  rewrite E, Z.mod_mul, orb_false_r in Hx by lia. apply Nat.eqb_eq in Hx. assert (h = 0) as E0 by lia. rewrite E0 in *.
  change (polymod_step (0 * 2 ^ 25) 0) with 0 in E. rewrite Ec. simpl Z.mul. rewrite Z.lxor_0_l. lia.
Qed.

(** The upper 25 bits of the syndromes of single errors within 89 characters are not zero and are distinct. *)
Fixpoint fresh_all (seen : Pmap unit) (l : list Z) : bool :=
  match l with
  | [] => true
  | Zpos p :: l => match seen !! p with Some _ => false | None => fresh_all (<[p := tt]> seen) l end
  | _ => false
  end.

Lemma fresh_all_spec l seen : fresh_all seen l = true -> NoDup l /\ Forall (fun z => exists p, z = Zpos p /\ seen !! p = None) l.
Proof.
  revert seen. induction l as [ | z l IH]; intros seen H; [split; constructor | ]. cbn [fresh_all] in H.
  destruct z as [ | p | p]; try done. destruct (seen !! p) eqn:E; [done | ]. apply IH in H as [Hn Hf]. rewrite Forall_forall in Hf. split.
  - constructor; [ | done]. intros Hi. destruct (Hf _ Hi) as (q & Eq & Hq). injection Eq as <-. by rewrite lookup_insert_eq in Hq.
  - constructor; [eauto | ]. apply Forall_forall. intros z Hz. destruct (Hf z Hz) as (q & -> & Hq). exists q. split; [done | ].
    by apply lookup_insert_None in Hq as [? _].
Qed.

Lemma NoDup_fmap_inj {A B} (f : A -> B) l x y : NoDup (f <$> l) -> x ∈ l -> y ∈ l -> f x = f y -> x = y.
Proof.
  induction l as [ | z l IH]; intros Hn Hx Hy E; [by apply elem_of_nil in Hx | ]. rewrite fmap_cons in Hn. apply NoDup_cons in Hn as [Hz Hn].
  apply elem_of_cons in Hx as [-> | Hx]; apply elem_of_cons in Hy as [-> | Hy]; [done | | | by apply IH].
  - exfalso. apply Hz. rewrite E. by apply list_elem_of_fmap_2.
  - exfalso. apply Hz. rewrite <- E. by apply list_elem_of_fmap_2.
Qed.

Definition key (p : nat * nat) : Z := Z.shiftr (syndrome (fst p) (Z.of_nat (snd p))) 5.

Lemma keys_fresh : fresh_all ∅ (key <$> list_prod (seq 1 88) (seq 1 31)) = true.
Proof. vm_compute. reflexivity. Qed.

Lemma key_positive i a : (1 <= i <= 88)%nat -> 1 <= a < 32 -> Z.shiftr (syndrome i a) 5 <> 0.
Proof.
  intros Hi Ha. destruct (fresh_all_spec _ _ keys_fresh) as [_ Hf]. rewrite Forall_forall in Hf.
  destruct (Hf (key (i, Z.to_nat a))) as (p & E & _).
  { apply list_elem_of_fmap_2. apply list_elem_of_In, in_prod_iff. rewrite !in_seq. lia. }
  unfold key in E. cbn [fst snd] in E. rewrite Z2Nat.id in E by lia. by rewrite E.
Qed.

Lemma key_inj i a j b : (1 <= i <= 88)%nat -> (1 <= j <= 88)%nat -> 1 <= a < 32 -> 1 <= b < 32 ->
  Z.shiftr (syndrome i a) 5 = Z.shiftr (syndrome j b) 5 -> i = j.
Proof.
  intros Hi Hj Ha Hb E. destruct (fresh_all_spec _ _ keys_fresh) as [Hn _].
  assert ((i, Z.to_nat a) = (j, Z.to_nat b)) as [= -> _]; [ | done].
  apply (NoDup_fmap_inj key _ _ _ Hn).
  - apply list_elem_of_In, in_prod_iff. rewrite !in_seq. lia.
  - apply list_elem_of_In, in_prod_iff. rewrite !in_seq. lia.
  - unfold key. cbn [fst snd]. by rewrite !Z2Nat.id by lia.
Qed.

Definition weight (l : list Z) : nat := length (filter (fun v => v <> 0) l).

Lemma weight_cons v l : weight (v :: l) = ((if decide (v = 0%Z) then 0 else 1) + weight l)%nat.
Proof. unfold weight. rewrite filter_cons. by destruct (decide (v = 0)), (decide (v <> 0)). Qed.

Lemma pm_weight_0 l : weight l = 0%nat -> pm 0 l = 0.
Proof.
  induction l as [ | v l IH]; intros H; [done | ]. rewrite weight_cons in H. destruct (decide (v = 0)) as [-> | ]; [ | lia]. by apply IH.
Qed.

Lemma pm_weight_1 l : digits 32 l -> weight l = 1%nat -> exists a i, 1 <= a < 32 /\ (i < length l)%nat /\ pm 0 l = syndrome i a.
Proof.
  induction 1 as [ | v l Hv Hl IH]; intros H; [done | ]. rewrite weight_cons in H. destruct (decide (v = 0)) as [-> | Hn].
  - destruct (IH H) as (a & i & Ha & Hi & E). exists a, i. split; [done | ]. split; [cbn [length]; lia | exact E].
  - exists v, (length l). split; [lia | ]. split; [cbn [length]; lia | ]. rewrite pm_cons, pm_weight_0 by (done || lia). apply Z.lxor_0_r.
Qed.

Lemma pm_weight_2 l : digits 32 l -> weight l = 2%nat ->
  exists a b i j, 1 <= a < 32 /\ 1 <= b < 32 /\ (j < i < length l)%nat /\ pm 0 l = Z.lxor (syndrome i a) (syndrome j b).
Proof.
  induction 1 as [ | v l Hv Hl IH]; intros H; [done | ]. rewrite weight_cons in H. destruct (decide (v = 0)) as [-> | Hn].
  - destruct (IH H) as (a & b & i & j & Ha & Hb & Hij & E). exists a, b, i, j. split; [done | ]. split; [done | ]. split; [cbn [length]; lia | exact E].
  - destruct (pm_weight_1 l Hl) as (b & j & Hb & Hj & E); [lia | ]. exists v, b, (length l), j.
    split; [lia | ]. split; [done | ]. split; [cbn [length]; lia | ]. by rewrite pm_cons, E.
Qed.

(** One or two errors, followed by at least one more character, do not leave a remainder below 32. *)
Lemma remainder_not_small l : digits 32 l -> (length l <= 88)%nat -> (weight l <= 2)%nat ->
  Z.shiftr (polymod_step (pm 0 l) 0) 5 = 0 -> weight l = 0%nat.
Proof.
  intros Hd Hl Hw E. assert (weight l = 0 \/ weight l = 1 \/ weight l = 2)%nat as [Hw' | [Hw' | Hw']] by lia; [done | exfalso..].
  - destruct (pm_weight_1 l Hd Hw') as (a & i & Ha & Hi & Ep). rewrite Ep, syndrome_step in E. revert E. apply key_positive; lia.
  - destruct (pm_weight_2 l Hd Hw') as (a & b & i & j & Ha & Hb & Hij & Ep).
    rewrite Ep, (polymod_step_lxor _ _ 0 0 : polymod_step _ 0 = _), !syndrome_step, Z.shiftr_lxor in E. apply Z.lxor_eq, key_inj in E; lia.
Qed.

Lemma weight_snoc l v : weight (l ++ [v]) = (weight l + (if decide (v = 0%Z) then 0 else 1))%nat.
Proof. induction l as [ | u l IH]; cbn [app]; rewrite weight_cons; [ | rewrite IH, weight_cons; lia]. unfold weight. simpl. lia. Qed.

(** No list of one to three errors within 89 characters leaves the remainder zero. *)
Lemma errors_detected l : digits 32 l -> (length l <= 89)%nat -> (weight l <= 3)%nat -> pm 0 l = 0 -> weight l = 0%nat.
Proof.
  induction l as [ | v l IH] using rev_ind; intros Hd Hl Hw E; [done | ]. apply Forall_app in Hd as [Hd Hv]. apply Forall_cons in Hv as [Hv _].
  rewrite weight_snoc in *. rewrite length_app in Hl. cbn [length] in Hl. rewrite pm_app in E. unfold pm at 1 in E. cbn [fold_left] in E.
  assert (Hb : 0 <= pm 0 l < 2 ^ 30) by (apply pm_bound; [lia | done]).
  destruct (decide (v = 0)) as [-> | Hn].
  - rewrite IH; [done | done | lia | lia | by apply polymod_step_zero].
  - exfalso. rewrite <- (Z.lxor_0_r (pm 0 l)), <- (Z.lxor_0_l v), polymod_step_lxor in E.
    apply Z.lxor_eq in E. rewrite (polymod_step_small 0 v), Z.mul_0_l, Z.add_0_l in E by lia.
    assert (weight l = 0%nat) as H0.
    { apply remainder_not_small; [done | lia | lia | ]. rewrite E, Z.shiftr_div_pow2 by lia. apply Z.div_small. lia. }
    rewrite (pm_weight_0 l H0) in E. change (polymod_step 0 0) with 0 in E. congruence.
Qed.

(** The number of places in which two lists differ *)
Definition differences (a b : list Z) : nat := length (filter (fun p => fst p <> snd p) (zip a b)).

Lemma differences_cons x y a b : differences (x :: a) (y :: b) = ((if decide (x = y) then 0 else 1) + differences a b)%nat.
Proof.
  unfold differences. change (zip (x :: a) (y :: b)) with ((x, y) :: zip a b). rewrite filter_cons. cbn [fst snd].
  by destruct (decide (x <> y)), (decide (x = y)).
Qed.

Lemma differences_weight a b : length a = length b -> differences a b = weight (zip_with Z.lxor a b).
Proof.
  revert b. induction a as [ | x a IH]; intros [ | y b] H; try done. injection H as H. cbn [zip_with].
  rewrite weight_cons, differences_cons, IH by done. destruct (decide (x = y)) as [-> | Hn], (decide (Z.lxor _ _ = 0)) as [E | E]; try done.
  - by rewrite Z.lxor_nilpotent in E.
  - by apply Z.lxor_eq in E.
Qed.

Lemma differences_0 a b : length a = length b -> differences a b = 0%nat -> a = b.
Proof.
  revert b. induction a as [ | x a IH]; intros [ | y b] H Hd; try done. injection H as H. rewrite differences_cons in Hd.
  destruct (decide (x = y)) as [-> | ]; [ | done]. f_equal. by apply IH.
Qed.

Lemma differences_fmap (f : Z -> Z) a b : (differences (f <$> a) (f <$> b) <= differences a b)%nat.
Proof.
  revert b. induction a as [ | x a IH]; intros [ | y b]; [done.. | ]. specialize (IH b). rewrite !fmap_cons, !differences_cons.
  destruct (decide (f x = f y)) as [ | Hn], (decide (x = y)) as [-> | ]; [lia.. | by exfalso; apply Hn | lia].
Qed.

Lemma checksum_detects hrp vs ws : digits 32 vs -> digits 32 ws -> length vs = length ws -> (length vs <= 89)%nat ->
  VerifyChecksum hrp vs = true -> VerifyChecksum hrp ws = true -> (differences vs ws <= 3)%nat -> vs = ws.
Proof.
  intros Hv Hw Hl Hlen Ev Ew Hd. apply differences_0; [done | ]. rewrite differences_weight in * by done.
  unfold VerifyChecksum, PolyMod in *. apply Z.eqb_eq in Ev, Ew. change (fold_left polymod_step ?l 1) with (pm 1 l) in *.
  rewrite pm_app in Ev, Ew. apply errors_detected; [ | rewrite length_zip_with; lia | done | ].
  - clear - Hv Hw. revert ws Hw. induction Hv as [ | v vs Hv _ IH]; intros ws Hw; [constructor | ].
    destruct Hw as [ | w ws Hw' Hw]; [constructor | ]. cbn [zip_with]. constructor; [ | by apply IH]. by apply (lxor_bound v w 5).
  - rewrite <- (Z.lxor_nilpotent (pm 1 (ExpandHRP hrp))) at 1. rewrite pm_lxor, Ev, Ew by done. apply Z.lxor_nilpotent.
Qed.

Lemma Decode_fail str : fst (Decode str) = [] -> Decode str = ([], []).
Proof.
  intros H. destruct (Decode str) as [hrp values] eqn:E. cbn [fst] in H. subst hrp. unfold Decode in E.
  destruct (scan_case str false false) as [[lower upper] | ]; [ | done]. destruct (lower && upper); [done | ].
  destruct (rfind (char "1") str) as [pos | ] eqn:Er; [ | done].
  destruct ((90 <? vsize str) || (Z.of_nat pos =? 0) || (vsize str <? Z.of_nat pos + 7)) eqn:Eb; [done | zbool].
  destruct (rev_values (drop (pos + 1) str)) as [vs | ]; [ | done]. cbv zeta in E. destruct (negb _); [done | ].
  injection E as E _. apply (f_equal length) in E. rewrite length_fmap, length_take in E. cbn [length] in E. unfold vsize in *. lia.
Qed.

(** What it takes for a text with a given last separator to decode *)
Lemma Decode_parts prefix data : ~ In (char "1") data -> fst (Decode (prefix ++ [char "1"] ++ data)) <> [] ->
  Forall printable data /\ (length data <= 89)%nat /\
  exists vs, rev_values data = Some vs /\ VerifyChecksum (LowerCase <$> prefix) vs = true.
Proof.
  intros Hi Hn. unfold Decode in Hn. change ([char "1"] ++ data) with (char "1" :: data) in Hn.
  destruct (scan_case (prefix ++ char "1" :: data) false false) as [[lower upper] | ] eqn:Es; [ | done].
  apply scan_case_printable, Forall_app in Es as [_ Hp]. apply Forall_cons in Hp as [_ Hp].
  destruct (lower && upper); [done | ]. rewrite rfind_app in Hn by done.
  destruct ((90 <? vsize _) || (Z.of_nat (length prefix) =? 0) || _) eqn:Eb; [done | zbool].
  rewrite drop_app_add', take_app_length in Hn by done. cbn [drop] in Hn. rewrite drop_0 in Hn.
  destruct (rev_values data) as [vs | ]; [ | done]. cbv zeta in Hn. destruct (VerifyChecksum (LowerCase <$> prefix) vs) eqn:Ev; [ | done].
  split; [done | ]. rewrite vsize_app, vsize_cons in *. unfold vsize in *. split; [lia | eauto].
Qed.

Lemma rev_values_entries str vs : rev_values str = Some vs -> vs = entry CHARSET_REV <$> str.
Proof.
  revert vs. induction str as [ | c str IH]; intros vs E; cbn [rev_values] in E; [by injection E as <- | ].
  destruct (entry CHARSET_REV c =? -1); [done | ]. destruct (rev_values str) as [ws | ]; [ | done]. injection E as <-.
  by rewrite fmap_cons, <- (IH ws eq_refl).
Qed.

(** (C37) Bech32 texts.  Decoding gives back the human readable part and the values that were
    encoded.  A text that decodes is, in lower case, the encoding of its result, so that no two texts
    that differ in more than case stand for the same.  And when up to three of the characters after
    the separator of a text that decodes are replaced by others (none of them a separator), the
    result does not decode, unless it only differs in case. *)
Theorem bech32_texts :
  (forall hrp values, hrp_ok hrp -> digits 32 values -> vsize hrp + vsize values <= 83 ->
    Decode (Encode hrp values) = (hrp, values)) /\
  (forall str hrp values, Decode str = (hrp, values) -> hrp <> [] -> Encode hrp values = LowerCase <$> str) /\
  (forall prefix data data', let text d := prefix ++ [char "1"] ++ d in
    fst (Decode (text data)) <> [] -> ~ In (char "1") data -> ~ In (char "1") data' ->
    length data' = length data -> (differences data data' <= 3)%nat ->
    Decode (text data') = ([], []) \/ LowerCase <$> data' = LowerCase <$> data).
Proof.
  split; [exact Decode_Encode | ]. split; [intros str hrp values E Hn; by apply Encode_Decode in E as (_ & _ & _ & _ & ?) | ].
  intros prefix data data' text Hn Hd Hd' Hl Hdiff. destruct (decide (fst (Decode (text data')) = [])) as [E | Hn'].
  { left. by apply Decode_fail. }
  right. destruct (Decode_parts prefix data Hd Hn) as (Hp & Hlen & vs & Ev & Cv).
  destruct (Decode_parts prefix data' Hd' Hn') as (Hp' & _ & ws & Ew & Cw).
  pose proof (rev_values_entries _ _ Ev) as Fv. pose proof (rev_values_entries _ _ Ew) as Fw.
  apply rev_values_inv in Ev as (Dv & Lv & Mv), Ew as (Dw & Lw & Mw); [ | done..]. rewrite <- Mv, <- Mw. f_equal.
  symmetry. apply (checksum_detects (LowerCase <$> prefix)); [done | done | lia | lia | done | done | ].
  rewrite Fv, Fw. pose proof (differences_fmap (entry CHARSET_REV) data data'). lia.
Qed.

Lemma bech32_texts_witness :
  Decode (Encode (chars "qc") [0; 14; 20; 15; 7]) = (chars "qc", [0; 14; 20; 15; 7]) /\
  Encode (chars "a") [] = LowerCase <$> chars "A12UEL5L" /\
  (Decode (chars "qc" ++ [char "1"] ++ chars "qw5o82vq0ym") = ([], []) \/
   LowerCase <$> chars "qw5o82vq0ym" = LowerCase <$> chars "qw5082vq0yl").
Proof.
  destruct bech32_texts as (H1 & H2 & H3). split; [ | split].
  - apply H1; [split; [discriminate | ] | | ]; [ | | by vm_compute].
    + repeat constructor; vm_compute; intuition discriminate.
    + repeat constructor; vm_compute; intuition discriminate.
  - apply H2; [by vm_compute | discriminate].
  - apply H3; [by vm_compute | | | reflexivity | ].
    + intros H. vm_compute in H. intuition discriminate.
    + intros H. vm_compute in H. intuition discriminate.
    + vm_compute. lia.
Defined.
