(* ===== verification/Base58.v ===== *)
(** * Base 58 ([src/base58.cpp])

    The text form of addresses and keys: the bytes as one number in base 58, leading zeros as leading
    ones, in the checked form with the first four bytes of the double hash of the data at the end.
    The numbers are kept in vectors of digits that are sized by a rational bound of the logarithms
    and updated by a loop that multiplies and adds from the end; [assert]s check that no carry is lost.

    Theorems: no assertion fails; decoding gives back the bytes that were encoded; and a text that
    decodes is the encoding of its result, up to white space around it. *)

From Stdlib Require Import String.
From stdpp Require Import list.
From S2P Require Import Prelude Interpreter Text.
Open Scope Z_scope.
Abbreviation length := Datatypes.length (only parsing).

(** ** Definitions *)

Definition pszBase58 : bytes := chars "123456789ABCDEFGHJKLMNPQRSTUVWXYZabcdefghijkmnopqrstuvwxyz".

Definition mapBase58 : list Z :=
  [-1;-1;-1;-1;-1;-1;-1;-1; -1;-1;-1;-1;-1;-1;-1;-1;
   -1;-1;-1;-1;-1;-1;-1;-1; -1;-1;-1;-1;-1;-1;-1;-1;
   -1;-1;-1;-1;-1;-1;-1;-1; -1;-1;-1;-1;-1;-1;-1;-1;
   -1; 0; 1; 2; 3; 4; 5; 6;  7; 8;-1;-1;-1;-1;-1;-1;
   -1; 9;10;11;12;13;14;15; 16;-1;17;18;19;20;21;-1;
   22;23;24;25;26;27;28;29; 30;31;32;-1;-1;-1;-1;-1;
   -1;33;34;35;36;37;38;39; 40;41;42;43;-1;44;45;46;
   47;48;49;50;51;52;53;54; 55;56;57;-1;-1;-1;-1;-1] ++ replicate 128 (-1).

(** The inner loop, which goes over the vector from its end: here the vector is listed from its end.
    The new vector, the carry and [i] after the loop. *)
Fixpoint mul_add (mul base carry i length : Z) (v : list Z) : list Z * Z * Z :=
  match v with
  | [] => ([], carry, i)
  | d :: v' =>
      if negb (carry =? 0) || (i <? length) then
        let carry := carry + mul * d in
        let '(r, c, n) := mul_add mul base (carry / base) (i + 1) length v' in
        (carry mod base :: r, c, n)
      else (v, carry, i)
  end.

(** How many times a loop skips the character, and what is left *)
Fixpoint count_leading (c : Z) (s : list Z) : nat * list Z :=
  match s with
  | [] => (O, [])
  | d :: s' => if d =? c then let '(n, r) := count_leading c s' in (S n, r) else (O, s)
  end.

(** The loop of [DecodeBase58] over the characters.  [None] is a failed assertion, [Some None] a
    character that is not of the alphabet; otherwise the vector, from its end, [length], and what is left. *)
Fixpoint decode_loop (psz : bytes) (v : list Z) (length : Z) : option (option (list Z * Z * bytes)) :=
  match psz with
  | [] => Some (Some (v, length, []))
  | c :: psz' =>
      if isspace c then Some (Some (v, length, psz))
      else
        let carry := entry mapBase58 c in
        if carry =? -1 then Some None
        else
          let '(v, carry, i) := mul_add 58 256 carry 0 length v in
          if negb (carry =? 0) then None else decode_loop psz' v i
  end.

(** From [begin() + (size - length)] on, without the zeros at the beginning *)
Definition significant (v : list Z) (size length : Z) : list Z :=
  skip_while (fun d => d =? 0) (drop (Z.to_nat (size - length)) (rev v)).

(** On a C string.  [None] is a failed assertion, or the exception for a vector of negative size;
    [Some None] is when false is returned. *)
Definition DecodeBase58_psz (psz : bytes) : option (option bytes) :=
  let psz := skip_while isspace psz in
  let '(zeroes, psz) := count_leading (char "1") psz in
  let size := i32 (u64 (vsize psz * 733) / 1000 + 1) in
  if size <? 0 then None
  else
    r ← decode_loop psz (replicate (Z.to_nat size) 0) 0;
    match r with
    | None => Some None
    | Some (v, length, psz) =>
        match skip_while isspace psz with
        | _ :: _ => Some None
        | [] => Some (Some (replicate zeroes 0 ++ significant v size length))
        end
    end.

(** The loop of [EncodeBase58] over the bytes; [None] is a failed assertion *)
Fixpoint encode_loop (data : bytes) (v : list Z) (length : Z) : option (list Z * Z) :=
  match data with
  | [] => Some (v, length)
  | b :: data =>
      let '(v, carry, i) := mul_add 256 58 b 0 length v in
      if negb (carry =? 0) then None else encode_loop data v i
  end.

Definition EncodeBase58 (vch : bytes) : option bytes :=
  let '(zeroes, data) := count_leading 0 vch in
  let size := i32 (vsize data * 138 / 100 + 1) in
  if size <? 0 then None
  else
    '(v, length) ← encode_loop data (replicate (Z.to_nat size) 0) 0;
    Some (replicate zeroes (char "1") ++ ((fun d => nth (Z.to_nat d) pszBase58 0) <$> significant v size length)).

Definition DecodeBase58 (str : bytes) : option (option bytes) := DecodeBase58_psz (c_str str).

Section Check.
Context (C : Crypto).

Definition EncodeBase58Check (vchIn : bytes) : option bytes :=
  EncodeBase58 (vchIn ++ take 4 (Hash256 C vchIn)).

(** [vchRet] when true is returned; it is cleared otherwise *)
Definition DecodeBase58Check_psz (psz : bytes) : option (option bytes) :=
  r ← DecodeBase58_psz psz;
  match r with
  | None => Some None
  | Some vch =>
      if vsize vch <? 4 then Some None
      else
        let data := take (length vch - 4) vch in
        if bool_decide (take 4 (Hash256 C data) = drop (length vch - 4) vch) then Some (Some data) else Some None
  end.

Definition DecodeBase58Check (str : bytes) : option (option bytes) := DecodeBase58Check_psz (c_str str).
End Check.

(** ** Theorems *)

(** *** The loops on digits *)

(** The number a vector listed from its end stands for *)
Definition lev (base : Z) (v : list Z) : Z := value base (rev v).

Lemma lev_cons base d v : lev base (d :: v) = lev base v * base + d.
Proof. unfold lev. cbn [rev]. apply value_snoc. Qed.

Lemma lev_zeros base v : Forall (eq 0) v -> lev base v = 0.
Proof. induction 1 as [ | d v <- _ IH]; [done | ]. rewrite lev_cons, IH. lia. Qed.

Lemma mul_add_spec mul base v : 0 < base -> 0 <= mul -> digits base v ->
  forall carry i length r c n, 0 <= carry -> Forall (eq 0) (drop (Z.to_nat (length - i)) v) ->
  mul_add mul base carry i length v = (r, c, n) ->
  digits base r /\ vsize r = vsize v /\ 0 <= c /\ i <= n <= i + vsize v /\ Forall (eq 0) (drop (Z.to_nat (n - i)) r) /\
  lev base r + c * base ^ vsize v = lev base v * mul + carry.
Proof.
  intros Hb Hm. induction 1 as [ | d v Hd Hv IH]; intros carry i length r c n Hc Hz E; cbn [mul_add] in E.
  { injection E as <- <- <-. change (vsize []) with 0. unfold lev. cbn [rev]. nils. rewrite Z.pow_0_r.
    split; [constructor | ]. split; [done | ]. split; [lia | ]. split; [lia | ]. split; [ | lia]. by rewrite drop_nil. }
  destruct (negb (carry =? 0) || (i <? length)) eqn:Et.
  - destruct (mul_add mul base ((carry + mul * d) / base) (i + 1) length v) as [[r' c'] n'] eqn:E'. injection E as <- <- <-.
    apply IH in E' as (Rd & Rl & Rc & Rn & Rz & Rv).
    2: { apply Z.div_pos; nia. }
    2: { destruct (Z.ltb_spec i length).
         - replace (Z.to_nat (length - i)) with (S (Z.to_nat (length - (i + 1)))) in Hz by lia. exact Hz.
         - replace (Z.to_nat (length - i)) with O in Hz by lia. replace (Z.to_nat (length - (i + 1))) with O by lia.
           rewrite drop_0 in *. by apply Forall_cons in Hz as [_ ?]. }
    rewrite !vsize_cons, !lev_cons. split; [constructor; [by apply Z.mod_pos_bound | done] | ]. split; [lia | ]. split; [done | ]. split; [lia | ].
    split; [by replace (Z.to_nat (n' - i)) with (S (Z.to_nat (n' - (i + 1)))) by lia | ].
    rewrite Z.pow_add_r, Z.pow_1_r by (try done; apply vsize_nonneg). pose proof (Z.div_mod (carry + mul * d) base ltac:(lia)). nia.
  - injection E as <- <- <-. zbool. subst carry. replace (Z.to_nat (length - i)) with O in Hz by lia. rewrite Z.sub_diag in *. rewrite drop_0 in *.
    split; [by constructor | ]. split; [done | ]. split; [lia | ]. split; [pose proof (vsize_nonneg (d :: v)); lia | ]. split; [done | ].
    rewrite (lev_zeros base (d :: v)) by done. lia.
Qed.

(** A turn of an outer loop: when the result fits the vector nothing is carried out of it. *)
Lemma mul_add_fits mul base v carry length r c n : 0 < base -> 0 <= mul -> digits base v -> 0 <= carry -> 0 <= length ->
  Forall (eq 0) (drop (Z.to_nat length) v) -> lev base v * mul + carry < base ^ vsize v ->
  mul_add mul base carry 0 length v = (r, c, n) ->
  c = 0 /\ digits base r /\ vsize r = vsize v /\ 0 <= n <= vsize v /\ Forall (eq 0) (drop (Z.to_nat n) r) /\ lev base r = lev base v * mul + carry.
Proof.
  intros Hb Hm Hd Hc Hl Hz Hv E. apply mul_add_spec in E as (Rd & Rl & Rc & Rn & Rz & Rv); try done; [ | by rewrite Z.sub_0_r].
  rewrite Z.sub_0_r in Rz. assert (0 <= lev base r) by (apply (value_bound base (rev r)); [done | by apply Forall_rev]).
  assert (c = 0) as -> by nia. split; [done | ]. split; [done | ]. split; [done | ]. split; [lia | ]. split; [done | lia].
Qed.

(** *** The significant digits *)

Lemma skip_zeros l : exists k, l = replicate k 0 ++ skip_while (fun d => d =? 0) l /\ normal (skip_while (fun d => d =? 0) l).
Proof.
  induction l as [ | d l (k & E & Hn)]; [by exists O | ]. cbn [skip_while]. destruct (Z.eqb_spec d 0) as [-> | Hd].
  - exists (S k). split; [ | done]. cbn [replicate app]. by rewrite <- E.
  - exists O. split; [done | ]. unfold normal. cbn. congruence.
Qed.

Lemma value_zeros base k l : value base (replicate k 0 ++ l) = value base l.
Proof. induction k as [ | k IH]; [done | ]. cbn [replicate app]. rewrite value_cons, IH. lia. Qed.

Lemma skip_while_zeros k l : skip_while (fun d => d =? 0) (replicate k 0 ++ l) = skip_while (fun d => d =? 0) l.
Proof. by induction k. Qed.

Lemma zeros_replicate l : Forall (eq 0) l -> l = replicate (length l) 0.
Proof. induction 1 as [ | d l <- _ IH]; [done | ]. cbn [length replicate]. by rewrite <- IH. Qed.

Lemma significant_spec base v size n : digits base v -> vsize v = size -> 0 <= n <= size -> Forall (eq 0) (drop (Z.to_nat n) v) ->
  digits base (significant v size n) /\ normal (significant v size n) /\ value base (significant v size n) = lev base v.
Proof.
  intros Hd Hs Hn Hz. unfold significant.
  assert (E : skip_while (fun d => d =? 0) (drop (Z.to_nat (size - n)) (rev v)) = skip_while (fun d => d =? 0) (rev v)).
  { rewrite <- (take_drop (Z.to_nat n) v) at 2. rewrite rev_app_distr.
    assert (rev (drop (Z.to_nat n) v) = replicate (Z.to_nat (size - n)) 0) as ->.
    { rewrite (zeros_replicate (rev (drop (Z.to_nat n) v))) by by apply Forall_rev. f_equal. rewrite length_rev, length_drop. unfold vsize in Hs. lia. }
    rewrite skip_while_zeros. f_equal. rewrite <- (take_drop (Z.to_nat n) v) at 1. rewrite rev_app_distr. apply drop_app_length'.
    rewrite length_rev, length_drop. unfold vsize in Hs. lia. }
  rewrite E. destruct (skip_zeros (rev v)) as (k & Ek & Hnorm). split; [ | split; [done | ]].
  - apply Forall_rev in Hd. rewrite Ek in Hd. by apply Forall_app in Hd as [_ ?].
  - unfold lev. by rewrite Ek at 2; rewrite value_zeros.
Qed.

Lemma count_leading_spec c s n r : count_leading c s = (n, r) -> s = replicate n c ++ r /\ head r <> Some c.
Proof.
  revert n r. induction s as [ | d s IH]; intros n r E; cbn [count_leading] in E; [by injection E as <- <- | ].
  destruct (Z.eqb_spec d c) as [-> | Hn]; [ | injection E as <- <-; split; [done | by intros [= ->]]].
  destruct (count_leading c s) as [k t]. injection E as <- <-. destruct (IH k t eq_refl) as [-> ?]. done.
Qed.

Lemma count_leading_app c n r : head r <> Some c -> count_leading c (replicate n c ++ r) = (n, r).
Proof.
  intros H. induction n as [ | n IH]; cbn [replicate app count_leading].
  - destruct r as [ | d r]; [done | ]. cbn [count_leading]. destruct (Z.eqb_spec d c) as [-> | ]; [by destruct H | done].
  - by rewrite Z.eqb_refl, IH.
Qed.

(** *** Sizes *)

Lemma pow_le_root a b n : 0 <= a -> 0 <= b -> 0 < n -> a ^ n <= b ^ n -> a <= b.
Proof. intros Ha Hb Hn H. destruct (Z.le_gt_cases a b); [done | ]. pose proof (Z.pow_lt_mono_l b a n Hn ltac:(lia)). lia. Qed.

Lemma decode_size_enough n : 0 <= n -> 58 ^ n <= 256 ^ (n * 733 / 1000 + 1).
Proof.
  intros Hn. apply (pow_le_root _ _ 1000); [apply Z.pow_nonneg; lia.. | lia | ].
  assert (Hd : 0 <= n * 733 / 1000) by (apply Z.div_pos; lia).
  assert (Hm : n * 733 <= (n * 733 / 1000 + 1) * 1000) by (pose proof (Z.mul_succ_div_gt (n * 733) 1000 ltac:(lia)); lia).
  rewrite <- !Z.pow_mul_r by lia. apply Z.le_trans with (256 ^ (733 * n)); [ | apply Z.pow_le_mono_r; lia].
  rewrite (Z.mul_comm n), !Z.pow_mul_r by lia. apply Z.pow_le_mono_l. split; [apply Z.pow_nonneg; lia | ].
  apply Z.leb_le. by vm_compute.
Qed.

Lemma encode_size_enough n : 0 <= n -> 256 ^ n <= 58 ^ (n * 138 / 100 + 1).
Proof.
  intros Hn. apply (pow_le_root _ _ 100); [apply Z.pow_nonneg; lia.. | lia | ].
  assert (Hd : 0 <= n * 138 / 100) by (apply Z.div_pos; lia).
  assert (Hm : n * 138 <= (n * 138 / 100 + 1) * 100) by (pose proof (Z.mul_succ_div_gt (n * 138) 100 ltac:(lia)); lia).
  rewrite <- !Z.pow_mul_r by lia. apply Z.le_trans with (58 ^ (138 * n)); [ | apply Z.pow_le_mono_r; lia].
  rewrite (Z.mul_comm n), !Z.pow_mul_r by lia. apply Z.pow_le_mono_l. split; [apply Z.pow_nonneg; lia | ].
  apply Z.leb_le. by vm_compute.
Qed.

(** *** Encoding *)

(** The vector in the middle of an outer loop *)
Definition vector_ok (base : Z) (v : list Z) (n size : Z) : Prop :=
  digits base v /\ vsize v = size /\ 0 <= n <= size /\ Forall (eq 0) (drop (Z.to_nat n) v).

Lemma vector_new base size : 0 < base -> 0 <= size -> vector_ok base (replicate (Z.to_nat size) 0) 0 size.
Proof.
  intros Hb Hs. split; [apply Forall_replicate; lia | ]. split; [unfold vsize; rewrite length_replicate; lia | ].
  split; [lia | ]. apply Forall_drop. by apply Forall_replicate.
Qed.

Lemma lev_replicate base n : lev base (replicate n 0) = 0.
Proof. apply lev_zeros. by apply Forall_replicate. Qed.

Lemma encode_loop_spec data : are_bytes data -> forall v n size, vector_ok 58 v n size ->
  lev 58 v * 256 ^ vsize data + value 256 data < 58 ^ size ->
  exists v' n', encode_loop data v n = Some (v', n') /\ vector_ok 58 v' n' size /\
    lev 58 v' = lev 58 v * 256 ^ vsize data + value 256 data.
Proof.
  induction 1 as [ | b data Hb Hd IH]; intros v n size (Vd & Vs & Vn & Vz) Hlt.
  { exists v, n. split; [done | ]. split; [done | ]. nils. lia. }
  cbn [encode_loop]. destruct (mul_add 256 58 b 0 n v) as [[r c] i] eqn:E. unfold is_byte in Hb.
  rewrite vsize_cons, value_cons, Z.pow_add_r, Z.pow_1_r in Hlt by (try done; apply vsize_nonneg).
  pose proof (value_bound 256 data ltac:(lia) Hd). pose proof (Z.pow_pos_nonneg 256 (vsize data) ltac:(lia) (vsize_nonneg data)).
  assert (0 <= lev 58 v) by (apply (value_bound 58 (rev v)); [done | by apply Forall_rev]).
  apply mul_add_fits in E as (-> & Rd & Rl & Rn & Rz & Rv); [ | done | done | done | lia | lia | done | rewrite Vs; nia].
  cbn [Z.eqb negb]. destruct (IH r i size) as (v' & n' & E' & Ok & Ev).
  { split; [done | ]. split; [lia | ]. split; [lia | done]. }
  { rewrite Rv. nia. }
  exists v', n'. split; [done | ]. split; [done | ]. rewrite Ev, Rv, value_cons, vsize_cons, Z.pow_add_r, Z.pow_1_r by (try done; apply vsize_nonneg). nia.
Qed.

(** What [EncodeBase58] computes *)
Lemma EncodeBase58_spec z t : are_bytes t -> normal t -> vsize t < 2 ^ 30 ->
  exists ds, EncodeBase58 (replicate z 0 ++ t) = Some (replicate z (char "1") ++ ((fun d => nth (Z.to_nat d) pszBase58 0) <$> ds)) /\
    digits 58 ds /\ normal ds /\ value 58 ds = value 256 t.
Proof.
  intros Ht Hn Hs. unfold EncodeBase58. rewrite count_leading_app by done. pose proof (vsize_nonneg t).
  assert (Hsz : 0 <= vsize t * 138 / 100 + 1 < 2 ^ 31) by (Z.to_euclidean_division_equations; lia).
  rewrite i32_id by lia. set (size := vsize t * 138 / 100 + 1) in *. rewrite (proj2 (Z.ltb_ge _ _)) by lia.
  destruct (encode_loop_spec t Ht (replicate (Z.to_nat size) 0) 0 size) as (v & n & -> & (Vd & Vs & Vn & Vz) & Ev).
  { apply vector_new; lia. }
  { rewrite lev_replicate, Z.mul_0_l, Z.add_0_l. pose proof (value_bound 256 t ltac:(lia) Ht). assert (256 ^ vsize t <= 58 ^ size) by (apply encode_size_enough; lia). lia. }
  cbn [mbind option_bind]. rewrite lev_replicate, Z.mul_0_l, Z.add_0_l in Ev.
  destruct (significant_spec 58 v size n Vd Vs Vn Vz) as (Sd & Sn & Sv). eexists. split; [reflexivity | ]. split; [done | ]. split; [done | congruence].
Qed.

(** *** Decoding *)

Lemma base58_char d : 0 <= d < 58 -> let c := nth (Z.to_nat d) pszBase58 0 in
  entry mapBase58 c = d /\ isspace c = false /\ c <> 0 /\ (c = char "1" -> d = 0).
Proof.
  intros Hd. assert (H : forallb (fun n => let c := nth n pszBase58 0 in
    (entry mapBase58 c =? Z.of_nat n) && negb (isspace c) && negb (c =? 0) && (negb (c =? char "1") || (n =? 0)%nat)) (seq 0 58) = true) by by vm_compute.
  rewrite forallb_forall in H. specialize (H (Z.to_nat d)). rewrite in_seq in H. specialize (H ltac:(lia)). cbv zeta in *.
  rewrite !andb_true_iff, !negb_true_iff, orb_true_iff, negb_true_iff, Z2Nat.id, Z.eqb_eq, !Z.eqb_neq, Nat.eqb_eq in H by lia.
  destruct H as [[[H1 H2] H3] H4]. split; [done | ]. split; [done | ]. split; [done | ]. intros E. destruct H4; [done | lia].
Qed.

Lemma base58_entry c : entry mapBase58 c <> -1 ->
  0 <= entry mapBase58 c < 58 /\ nth (Z.to_nat (entry mapBase58 c)) pszBase58 0 = c /\ isspace c = false.
Proof.
  intros Hn. assert (Hc : 0 <= c < 256).
  { destruct (decide (0 <= c)) as [H0 | H0]; [ | exfalso; apply Hn; unfold entry; by replace (Z.to_nat c) with O by lia].
    destruct (decide (c < 256)); [lia | ]. exfalso. apply Hn. unfold entry. apply nth_overflow. change (length mapBase58) with 256%nat. lia. }
  assert (H : forallb (fun n => let c := Z.of_nat n in let e := entry mapBase58 c in
    (e =? -1) || ((0 <=? e) && (e <? 58) && (nth (Z.to_nat e) pszBase58 0 =? c) && negb (isspace c))) (seq 0 256) = true) by by vm_compute.
  rewrite forallb_forall in H. specialize (H (Z.to_nat c)). rewrite in_seq in H. specialize (H ltac:(lia)). cbv zeta in H.
  rewrite Z2Nat.id in H by lia. apply orb_true_iff in H as [H | H]; [by apply Z.eqb_eq in H | ].
  rewrite !andb_true_iff, negb_true_iff, Z.leb_le, Z.ltb_lt, Z.eqb_eq in H. tauto.
Qed.

Definition base58_text (t : bytes) : Prop := Forall (fun c => entry mapBase58 c <> -1) t.
Definition spaces (s : bytes) : Prop := Forall (fun c => isspace c = true) s.

Lemma base58_digits t : base58_text t -> digits 58 (entry mapBase58 <$> t).
Proof. intros H. apply Forall_fmap. eapply Forall_impl; [exact H | ]. intros c Hc. by apply base58_entry. Qed.

Lemma base58_text_of ds : digits 58 ds -> let t := (fun d => nth (Z.to_nat d) pszBase58 0) <$> ds in
  base58_text t /\ entry mapBase58 <$> t = ds /\ Forall (fun c => c <> 0) t.
Proof.
  cbv zeta. induction 1 as [ | d ds Hd _ IH]; [split; [constructor | done] | ]. rewrite !fmap_cons. destruct IH as (I1 & I2 & I3).
  destruct (base58_char d Hd) as (E & _ & Hz & _). split; [constructor; [by rewrite E; lia | done] | ]. split; [by rewrite E, I2 | by constructor].
Qed.

Lemma base58_text_digits t : base58_text t -> ((fun d => nth (Z.to_nat d) pszBase58 0) <$> (entry mapBase58 <$> t)) = t.
Proof. induction 1 as [ | c t Hc _ IH]; [done | ]. rewrite !fmap_cons, IH. by destruct (base58_entry c Hc) as (_ & -> & _). Qed.

Lemma decode_loop_spec psz : forall v n size, vector_ok 256 v n size -> (lev 256 v + 1) * 58 ^ vsize psz <= 256 ^ size ->
  exists r, decode_loop psz v n = Some r /\
  match r with
  | None => ~ base58_text psz
  | Some (v', n', rest) => vector_ok 256 v' n' size /\ exists t, psz = t ++ rest /\ base58_text t /\
      (forall c, head rest = Some c -> isspace c = true) /\
      lev 256 v' = lev 256 v * 58 ^ vsize t + value 58 (entry mapBase58 <$> t)
  end.
Proof.
  induction psz as [ | c psz IH]; intros v n size Hok Hlt; cbn [decode_loop].
  { eexists. split; [reflexivity | ]. cbv iota beta. split; [done | ]. exists []. split; [done | ]. split; [constructor | ]. split; [done | ].
    change (vsize []) with 0. change (value 58 (entry mapBase58 <$> [])) with 0. lia. }
  destruct (isspace c) eqn:Es.
  { eexists. split; [reflexivity | ]. cbv iota beta. split; [done | ]. exists []. split; [done | ]. split; [constructor | ]. split; [by intros d [= <-] | ].
    change (vsize []) with 0. change (value 58 (entry mapBase58 <$> [])) with 0. lia. }
  destruct (Z.eqb_spec (entry mapBase58 c) (-1)) as [E | E].
  { eexists. split; [reflexivity | ]. cbv iota beta. intros H. by apply Forall_cons in H as [? _]. }
  destruct (base58_entry c E) as (Hr & _). destruct Hok as (Vd & Vs & Vn & Vz).
  destruct (mul_add 58 256 (entry mapBase58 c) 0 n v) as [[r ca] i] eqn:Em.
  rewrite vsize_cons, Z.pow_add_r, Z.pow_1_r in Hlt by (try done; apply vsize_nonneg).
  assert (0 <= lev 256 v) by (apply (value_bound 256 (rev v)); [done | by apply Forall_rev]).
  pose proof (Z.pow_pos_nonneg 58 (vsize psz) ltac:(lia) (vsize_nonneg psz)).
  apply mul_add_fits in Em as (-> & Rd & Rl & Rn & Rz & Rv); [ | done | done | done | lia | lia | done | rewrite Vs; nia].
  cbn [Z.eqb negb]. destruct (IH r i size) as (res & -> & Hres).
  { split; [done | ]. split; [lia | ]. split; [lia | done]. }
  { rewrite Rv. nia. }
  exists res. split; [done | ]. destruct res as [[[v' n'] rest] | ].
  - destruct Hres as (Hok & t & -> & Ht & Hh & Ev). split; [done | ]. exists (c :: t). split; [done | ]. split; [by constructor | ]. split; [done | ].
    rewrite Ev, Rv, fmap_cons, value_cons, vsize_cons, Z.pow_add_r, Z.pow_1_r by (try done; apply vsize_nonneg).
    unfold vsize. rewrite length_fmap. lia.
  - intros H'. apply Forall_cons in H' as [_ H']. by apply Hres.
Qed.

Lemma skip_spaces s : exists sp, s = sp ++ skip_while isspace s /\ spaces sp /\ (forall c, head (skip_while isspace s) = Some c -> isspace c = false).
Proof.
  induction s as [ | c s (sp & E & Hs & Hh)]; [exists []; split; [done | split; [constructor | done]] | ]. cbn [skip_while]. destruct (isspace c) eqn:Ec.
  - exists (c :: sp). split; [by rewrite E at 1 | ]. split; [by constructor | done].
  - exists []. split; [done | ]. split; [constructor | by intros d [= <-]].
Qed.

(** The decoding never fails an assertion; what it accepts and what it rejects *)
Lemma DecodeBase58_spec psz : vsize psz < 2 ^ 30 -> exists r, DecodeBase58_psz psz = Some r /\
  forall b, r = Some b -> exists sp z t sp' ds, psz = sp ++ replicate z (char "1") ++ t ++ sp' /\ spaces sp /\ spaces sp' /\ base58_text t /\
    head t <> Some (char "1") /\ b = replicate z 0 ++ ds /\ are_bytes ds /\ normal ds /\ value 256 ds = value 58 (entry mapBase58 <$> t).
Proof.
  intros Hs. unfold DecodeBase58_psz. destruct (skip_spaces psz) as (sp & Ep & Hsp & _). set (s1 := skip_while isspace psz) in *.
  destruct (count_leading (char "1") s1) as [z s2] eqn:Ec. apply count_leading_spec in Ec as [Ec Hh].
  assert (Hl : 0 <= vsize s2 < 2 ^ 30).
  { split; [apply vsize_nonneg | ]. rewrite Ep, Ec, !vsize_app in Hs. pose proof (vsize_nonneg sp). pose proof (vsize_nonneg (replicate z (char "1"))). lia. }
  rewrite u64_id by lia. assert (Hsz : 0 <= vsize s2 * 733 / 1000 + 1 < 2 ^ 31) by (Z.to_euclidean_division_equations; lia).
  rewrite i32_id by lia. set (size := vsize s2 * 733 / 1000 + 1) in *. rewrite (proj2 (Z.ltb_ge _ _)) by lia.
  destruct (decode_loop_spec s2 (replicate (Z.to_nat size) 0) 0 size) as (r & -> & Hr).
  { apply vector_new; lia. }
  { rewrite lev_replicate. assert (58 ^ vsize s2 <= 256 ^ size) by (apply decode_size_enough; lia). lia. }
  cbn [mbind option_bind]. destruct r as [[[v n] rest] | ]; [ | by exists None].
  destruct Hr as ((Vd & Vs & Vn & Vz) & t & Et & Ht & _ & Ev). destruct (skip_spaces rest) as (sp' & Er & Hsp' & _).
  destruct (skip_while isspace rest) as [ | c rest']; [ | by exists None]. eexists. split; [reflexivity | ]. intros b [= <-].
  destruct (significant_spec 256 v size n Vd Vs Vn Vz) as (Sd & Sn & Sv).
  exists sp, z, t, sp', (significant v size n). rewrite app_nil_r in Er. split; [congruence | ]. split; [done | ]. split; [done | ]. split; [done | ].
  split; [rewrite Et in Hh; by destruct t | ]. split; [done | ]. split; [done | ]. split; [done | ]. rewrite Sv, Ev, lev_replicate. lia.
Qed.

Lemma DecodeBase58_text z t : base58_text t -> head t <> Some (char "1") -> Z.of_nat z + vsize t < 2 ^ 30 ->
  exists ds, DecodeBase58_psz (replicate z (char "1") ++ t) = Some (Some (replicate z 0 ++ ds)) /\
    are_bytes ds /\ normal ds /\ value 256 ds = value 58 (entry mapBase58 <$> t).
Proof.
  intros Ht Hh Hs. unfold DecodeBase58_psz.
  assert (Es : skip_while isspace (replicate z (char "1") ++ t) = replicate z (char "1") ++ t).
  { destruct z as [ | z]; [ | done]. cbn [replicate app]. destruct Ht as [ | c t Hc Ht]; [done | ]. cbn [skip_while].
    by destruct (base58_entry c Hc) as (_ & _ & ->). }
  rewrite Es, count_leading_app by done. pose proof (vsize_nonneg t).
  rewrite u64_id by lia. assert (Hsz : 0 <= vsize t * 733 / 1000 + 1 < 2 ^ 31) by (Z.to_euclidean_division_equations; lia).
  rewrite i32_id by lia. set (size := vsize t * 733 / 1000 + 1) in *. rewrite (proj2 (Z.ltb_ge _ _)) by lia.
  destruct (decode_loop_spec t (replicate (Z.to_nat size) 0) 0 size) as (r & -> & Hr).
  { apply vector_new; lia. }
  { rewrite lev_replicate. assert (58 ^ vsize t <= 256 ^ size) by (apply decode_size_enough; lia). lia. }
  cbn [mbind option_bind]. destruct r as [[[v n] rest] | ]; [ | done].
  destruct Hr as ((Vd & Vs & Vn & Vz) & t' & Et & Ht' & Hsp & Ev).
  assert (rest = []) as ->.
  { destruct rest as [ | c rest]; [done | ]. exfalso. rewrite Et in Ht. apply Forall_app in Ht as [_ Ht]. apply Forall_cons in Ht as [Hc _].
    destruct (base58_entry c Hc) as (_ & _ & E). by rewrite (Hsp c eq_refl) in E. }
  rewrite app_nil_r in Et. subst t'. cbn [skip_while]. destruct (significant_spec 256 v size n Vd Vs Vn Vz) as (Sd & Sn & Sv).
  eexists. split; [reflexivity | ]. split; [done | ]. split; [done | ]. rewrite Sv, Ev, lev_replicate. lia.
Qed.

(** *** Round trips *)

Lemma base58_head ds : digits 58 ds -> normal ds -> head ((fun d => nth (Z.to_nat d) pszBase58 0) <$> ds) <> Some (char "1").
Proof.
  intros Hd Hn. destruct Hd as [ | d ds Hd _]; [done | ]. rewrite fmap_cons. cbn [head]. intros [= E]. apply Hn. cbn [head].
  f_equal. by apply (base58_char d Hd).
Qed.

Lemma head_digits t : base58_text t -> head t <> Some (char "1") -> normal (entry mapBase58 <$> t).
Proof.
  intros Ht Hh. destruct Ht as [ | c t Hc _]; [done | ]. unfold normal. rewrite fmap_cons. cbn [head]. intros [= E]. apply Hh. cbn [head]. f_equal.
  destruct (base58_entry c Hc) as (_ & <- & _). by rewrite E.
Qed.

(** The split of a vector into leading zeros and the rest *)
Lemma leading_zeros b : are_bytes b -> exists z t, b = replicate z 0 ++ t /\ are_bytes t /\ normal t /\ vsize b = Z.of_nat z + vsize t.
Proof.
  intros Hb. destruct (skip_zeros b) as (z & E & Hn). exists z, (skip_while (fun d => d =? 0) b). split; [done | ].
  split; [rewrite E in Hb; by apply Forall_app in Hb as [_ ?] | ]. split; [done | ]. rewrite E at 1. rewrite vsize_app. unfold vsize at 1. by rewrite length_replicate.
Qed.

Lemma DecodeBase58_Encode b : are_bytes b -> vsize b < 2 ^ 29 ->
  exists s, EncodeBase58 b = Some s /\ base58_text s /\ DecodeBase58 s = Some (Some b) /\ vsize s <= vsize b * 138 / 100 + 1.
Proof.
  intros Hb Hs. destruct (leading_zeros b Hb) as (z & t & E & Ht & Hn & Hz). pose proof (vsize_nonneg t).
  destruct (EncodeBase58_spec z t Ht Hn ltac:(lia)) as (ds & Ee & Dd & Dn & Dv). rewrite <- E in Ee.
  destruct (base58_text_of ds Dd) as (Bt & Be & Bz). set (txt := (fun d => nth (Z.to_nat d) pszBase58 0) <$> ds) in *.
  assert (Hl : vsize txt = vsize ds) by (unfold vsize, txt; by rewrite length_fmap).
  assert (vsize ds <= vsize t * 138 / 100 + 1).
  { apply (normal_length 58); [lia | done | done | | ]; [Z.to_euclidean_division_equations; lia | ].
    rewrite Dv. pose proof (value_bound 256 t ltac:(lia) Ht). pose proof (encode_size_enough (vsize t) ltac:(lia)). lia. }
  assert (Hone : base58_text (replicate z (char "1"))) by by apply Forall_replicate.
  eexists. split; [exact Ee | ]. split; [by apply Forall_app | ]. split.
  - unfold DecodeBase58. rewrite c_str_id by (apply Forall_app; split; [by apply Forall_replicate | done]).
    destruct (DecodeBase58_text z txt Bt) as (ds' & -> & Bb & Bn & Bv); [by apply base58_head | | ].
    { rewrite Hl. Z.to_euclidean_division_equations. lia. }
    rewrite Be, Dv in Bv. rewrite E. do 3 f_equal. by apply (normal_inj 256).
  - rewrite vsize_app, Hl, Hz. unfold vsize at 1. rewrite length_replicate. Z.to_euclidean_division_equations. lia.
Qed.

Lemma EncodeBase58_Decode psz b : vsize psz < 2 ^ 29 -> DecodeBase58_psz psz = Some (Some b) ->
  are_bytes b /\ exists sp s sp', EncodeBase58 b = Some s /\ psz = sp ++ s ++ sp' /\ spaces sp /\ spaces sp'.
Proof.
  intros Hs E. destruct (DecodeBase58_spec psz ltac:(lia)) as (r & E' & Hr). rewrite E in E'. injection E' as <-.
  destruct (Hr b eq_refl) as (sp & z & t & sp' & ds & -> & Hsp & Hsp' & Ht & Hh & -> & Hd & Hn & Hv).
  split; [apply Forall_app; split; [by apply Forall_replicate | done] | ].
  assert (Hlt : vsize t < 2 ^ 29) by (rewrite !vsize_app in Hs; pose proof (vsize_nonneg sp); pose proof (vsize_nonneg sp'); pose proof (vsize_nonneg (replicate z (char "1"))); lia).
  pose proof (base58_digits t Ht) as Hdt. pose proof (vsize_nonneg t).
  assert (vsize ds <= vsize t).
  { apply (normal_length 256); [lia | done | done | done | ]. rewrite Hv. pose proof (value_bound 58 _ ltac:(lia) Hdt) as [_ Hb].
    assert (vsize (entry mapBase58 <$> t) = vsize t) as Ev by (unfold vsize; by rewrite length_fmap). rewrite Ev in Hb.
    apply Z.lt_le_trans with (58 ^ vsize t); [done | ]. apply Z.pow_le_mono_l. lia. }
  destruct (EncodeBase58_spec z ds Hd Hn ltac:(lia)) as (es & Ee & Ed & En & Ev).
  exists sp, (replicate z (char "1") ++ t), sp'. split; [ | split; [by rewrite <- app_assoc | done]].
  rewrite Ee. do 2 f_equal. rewrite <- (base58_text_digits t Ht). f_equal. apply (normal_inj 58); [lia | done | done | done | | congruence].
  by apply head_digits.
Qed.

Lemma DecodeBase58_total psz : vsize psz < 2 ^ 30 -> exists r, DecodeBase58_psz psz = Some r.
Proof. intros H. destruct (DecodeBase58_spec psz H) as (r & E & _). eauto. Qed.

(** *** With a checksum *)

(** What the double hash is known to return *)
Definition hash_returns_bytes (C : Crypto) : Prop :=
  forall b, are_bytes b -> length (Hash256 C b) = 32%nat /\ are_bytes (Hash256 C b).

Section Checked.
Context (C : Crypto) (HC : hash_returns_bytes C).

Lemma DecodeBase58Check_Encode d : are_bytes d -> vsize d < 2 ^ 28 ->
  exists s, EncodeBase58Check C d = Some s /\ base58_text s /\ DecodeBase58Check C s = Some (Some d) /\ vsize s <= (vsize d + 4) * 138 / 100 + 1.
Proof.
  intros Hd Hs. destruct (HC d Hd) as [Hl Hh]. assert (Ht : length (take 4 (Hash256 C d)) = 4%nat) by (rewrite length_take; lia).
  assert (Hv : vsize (d ++ take 4 (Hash256 C d)) = vsize d + 4) by (rewrite vsize_app; unfold vsize at 2; by rewrite Ht).
  destruct (DecodeBase58_Encode (d ++ take 4 (Hash256 C d))) as (s & E & Hb & Ed & Hsz); [apply Forall_app; split; [done | by apply Forall_take] | lia | ].
  exists s. split; [done | ]. split; [done | ]. rewrite Hv in Hsz. split; [ | done]. unfold DecodeBase58Check, DecodeBase58Check_psz. unfold DecodeBase58 in Ed. rewrite Ed.
  cbn [mbind option_bind]. rewrite Hv. pose proof (vsize_nonneg d). rewrite (proj2 (Z.ltb_ge _ _)) by lia. cbv zeta.
  rewrite length_app, Ht. replace (length d + 4 - 4)%nat with (length d) by lia. rewrite take_app_length, drop_app_length. by rewrite bool_decide_true.
Qed.

Lemma EncodeBase58Check_Decode psz d : vsize psz < 2 ^ 29 -> DecodeBase58Check_psz C psz = Some (Some d) ->
  are_bytes d /\ exists sp s sp', EncodeBase58Check C d = Some s /\ psz = sp ++ s ++ sp' /\ spaces sp /\ spaces sp'.
Proof.
  intros Hs E. unfold DecodeBase58Check_psz in E. destruct (DecodeBase58_psz psz) as [[b | ] | ] eqn:Ed; [ | done..]. cbn [mbind option_bind] in E.
  destruct (vsize b <? 4); [done | ]. cbv zeta in E. case_bool_decide as Hc; [ | done]. injection E as <-.
  apply EncodeBase58_Decode in Ed as (Hb & sp & s & sp' & Es & -> & Hsp & Hsp'); [ | done]. split; [by apply Forall_take | ].
  exists sp, s, sp'. split; [ | done]. unfold EncodeBase58Check. by rewrite Hc, take_drop.
Qed.

Lemma DecodeBase58Check_total psz : vsize psz < 2 ^ 30 -> exists r, DecodeBase58Check_psz C psz = Some r.
Proof.
  intros Hs. unfold DecodeBase58Check_psz. destruct (DecodeBase58_total psz Hs) as (r & ->). cbn [mbind option_bind].
  destruct r as [b | ]; [ | eauto]. destruct (vsize b <? 4); [eauto | ]. cbv zeta. case_bool_decide; eauto.
Qed.
End Checked.

(** Whatever follows a zero byte in a text is ignored. *)
Lemma text_after_zero_ignored s junk : DecodeBase58 (s ++ [0] ++ junk) = DecodeBase58 s.
Proof.
  unfold DecodeBase58. f_equal. induction s as [ | c s IH]; [done | ].
  cbn [app c_str]. destruct (c =? 0); [done | ]. f_equal. exact IH.
Qed.
