(* ===== verification/KeyIO.v ===== *)
(** * Addresses and keys as text ([src/key_io.cpp], with the keys of [src/key.h], [src/key.cpp],
      [src/pubkey.h], [src/pubkey.cpp] and the prefixes of [src/chainparams.cpp])

    Destinations are written in base 58 with a checksum (key and script hashes) or in Bech32 (witness
    programs); private keys and extended keys in base 58 with a checksum.  Which private keys are
    valid is the business of libsecp256k1: [Check] is a parameter.

    Theorems: an address is read back as the destination it was made from, and a text that is read
    as a destination is that destination's address, up to the white space around it or its case;
    the texts of private keys and of extended keys are read back as the keys. *)

From Stdlib Require Import String.
From stdpp Require Import list.
From S2P Require Import Prelude Script Interpreter Standard Text Bech32 Base58.
Open Scope Z_scope.
Abbreviation length := Datatypes.length (only parsing).

(** ** Definitions *)

(** [base58Prefixes] and [bech32_hrp] of [CChainParams] *)
Record Prefixes : Type := mk_prefixes {
  PUBKEY_ADDRESS : bytes;
  SCRIPT_ADDRESS : bytes;
  SECRET_KEY : bytes;
  EXT_PUBLIC_KEY : bytes;
  EXT_SECRET_KEY : bytes;
  Bech32HRP : bytes }.

Definition main_prefixes : Prefixes :=
  mk_prefixes [23] [18] [151] [0x04; 0x88; 0xB2; 0x1E] [0x04; 0x88; 0xAD; 0xE4] (chars "qc").
Definition test_prefixes : Prefixes :=
  mk_prefixes [120] [110] [239] [0x04; 0x35; 0x87; 0xCF] [0x04; 0x35; 0x83; 0x94] (chars "tq").
Definition regtest_prefixes : Prefixes :=
  mk_prefixes [120] [110] [239] [0x04; 0x35; 0x87; 0xCF] [0x04; 0x35; 0x83; 0x94] (chars "qcrt").

(** [class CKey] *)
Record CKey : Type := mk_CKey { fValid : bool; fCompressed : bool; keydata : bytes }.

Definition CKey_new : CKey := mk_CKey false false (replicate 32 0).
Definition CKey_size (k : CKey) : Z := if fValid k then vsize (keydata k) else 0.

(** [struct CExtPubKey] and [struct CExtKey]; a public key is its bytes, none when it is invalid *)
Record CExtPubKey : Type := mk_CExtPubKey {
  xp_nDepth : Z; xp_vchFingerprint : bytes; xp_nChild : Z; xp_chaincode : bytes; xp_pubkey : bytes }.
Record CExtKey : Type := mk_CExtKey {
  xk_nDepth : Z; xk_vchFingerprint : bytes; xk_nChild : Z; xk_chaincode : bytes; xk_key : CKey }.

Definition BIP32_EXTKEY_SIZE : Z := 74.

(** The child number, most significant byte first *)
Definition child_bytes (nChild : Z) : bytes :=
  [Z.land (Z.shiftr nChild 24) 0xFF; Z.land (Z.shiftr nChild 16) 0xFF;
   Z.land (Z.shiftr nChild 8) 0xFF; Z.land (Z.shiftr nChild 0) 0xFF].
Definition child_number (b5 b6 b7 b8 : Z) : Z :=
  u32 (Z.lor (Z.lor (Z.lor (Z.shiftl b5 24) (Z.shiftl b6 16)) (Z.shiftl b7 8)) b8).

(** [code[i]] *)
Definition at_ (code : bytes) (i : nat) : Z := nth i code 0.

(** [None] is a failed assertion. *)
Definition CExtPubKey_Encode (k : CExtPubKey) : option bytes :=
  if negb (vsize (xp_pubkey k) =? 33) then None
  else Some ([xp_nDepth k] ++ xp_vchFingerprint k ++ child_bytes (xp_nChild k) ++ xp_chaincode k ++ xp_pubkey k).

Definition CExtPubKey_Decode (code : bytes) : CExtPubKey :=
  mk_CExtPubKey (at_ code 0) (take 4 (drop 1 code)) (child_number (at_ code 5) (at_ code 6) (at_ code 7) (at_ code 8))
    (take 32 (drop 9 code)) (CPubKey_Set (drop 41 code)).

Section Keys.
(** [secp256k1_ec_seckey_verify] *)
Context (Check : bytes -> bool).

Definition CKey_Set (k : CKey) (data : bytes) (fCompressedIn : bool) : CKey :=
  if negb (vsize data =? vsize (keydata k)) then mk_CKey false (fCompressed k) (keydata k)
  else if Check data then mk_CKey true fCompressedIn data
  else mk_CKey false (fCompressed k) (keydata k).

Definition CExtKey_Encode (k : CExtKey) : option bytes :=
  if negb (CKey_size (xk_key k) =? 32) then None
  else Some ([xk_nDepth k] ++ xk_vchFingerprint k ++ child_bytes (xk_nChild k) ++ xk_chaincode k ++ [0] ++ keydata (xk_key k)).

Definition CExtKey_Decode (code : bytes) : CExtKey :=
  mk_CExtKey (at_ code 0) (take 4 (drop 1 code)) (child_number (at_ code 5) (at_ code 6) (at_ code 7) (at_ code 8))
    (take 32 (drop 9 code)) (CKey_Set CKey_new (drop 42 code) true).

Context (C : Crypto) (params : Prefixes).

(** *** Destinations *)

(** [DestinationEncoder]; [None] is a failed assertion *)
Definition EncodeDestination (dest : CTxDestination) : option bytes :=
  match dest with
  | DestKeyID id => EncodeBase58Check C (PUBKEY_ADDRESS params ++ id)
  | DestScriptID id => EncodeBase58Check C (SCRIPT_ADDRESS params ++ id)
  | WitnessV0KeyHash id | WitnessV0ScriptHash id => Some (Encode (Bech32HRP params) ([0] ++ fst (ConvertBits 8 5 true id)))
  | WitnessUnknown version program =>
      if (version <? 1) || (16 <? version) || (vsize program <? 2) || (40 <? vsize program) then Some []
      else Some (Encode (Bech32HRP params) ([u8 version] ++ fst (ConvertBits 8 5 true program)))
  | CNoDestination => Some []
  end.

(** [data.size() == n + prefix.size() && std::equal(prefix.begin(), prefix.end(), data.begin())] *)
Definition has_prefix (prefix : bytes) (n : Z) (data : bytes) : bool :=
  (vsize data =? n + vsize prefix) && bool_decide (take (length prefix) data = prefix).

(** The part of [DecodeDestination] after the attempt in base 58 *)
Definition DecodeWitness (str : bytes) : CTxDestination :=
  let bech := Decode str in
  match snd bech with
  | [] => CNoDestination
  | version :: symbols =>
      if bool_decide (fst bech = Bech32HRP params) then
        match ConvertBits 5 8 false symbols with
        | (data, true) =>
            if version =? 0 then
              if vsize data =? 20 then WitnessV0KeyHash data
              else if vsize data =? 32 then WitnessV0ScriptHash data
              else CNoDestination
            else if (16 <? version) || (vsize data <? 2) || (40 <? vsize data) then CNoDestination
            else WitnessUnknown version data
        | (_, false) => CNoDestination
        end
      else CNoDestination
  end.

Definition DecodeDestination (str : bytes) : option CTxDestination :=
  r ← DecodeBase58Check C str;
  match r with
  | Some data =>
      if has_prefix (PUBKEY_ADDRESS params) 20 data then Some (DestKeyID (drop (length (PUBKEY_ADDRESS params)) data))
      else if has_prefix (SCRIPT_ADDRESS params) 20 data then Some (DestScriptID (drop (length (SCRIPT_ADDRESS params)) data))
      else Some (DecodeWitness str)
  | None => Some (DecodeWitness str)
  end.

Definition IsValidDestinationString (str : bytes) : option bool :=
  d ← DecodeDestination str; Some (IsValidDestination d).
Definition IsValidContractSenderAddressString (str : bytes) : option bool :=
  d ← DecodeDestination str; Some (IsValidContractSenderAddress d).

(** *** Keys *)

Definition DecodeSecret (str : bytes) : option CKey :=
  r ← DecodeBase58Check C str;
  match r with
  | Some data =>
      let p := vsize (SECRET_KEY params) in
      if ((vsize data =? 32 + p) || ((vsize data =? 33 + p) && bool_decide (last data = Some 1))) &&
         bool_decide (take (length (SECRET_KEY params)) data = SECRET_KEY params)
      then Some (CKey_Set CKey_new (take 32 (drop (length (SECRET_KEY params)) data)) (vsize data =? 33 + p))
      else Some CKey_new
  | None => Some CKey_new
  end.

(** [None] is a failed assertion. *)
Definition EncodeSecret (key : CKey) : option bytes :=
  if negb (fValid key) then None
  else EncodeBase58Check C (SECRET_KEY params ++ keydata key ++ (if fCompressed key then [1] else [])).

(** [Some None]: the key is as it was constructed *)
Definition DecodeExtPubKey (str : bytes) : option (option CExtPubKey) :=
  r ← DecodeBase58Check C str;
  match r with
  | Some data =>
      if has_prefix (EXT_PUBLIC_KEY params) BIP32_EXTKEY_SIZE data
      then Some (Some (CExtPubKey_Decode (drop (length (EXT_PUBLIC_KEY params)) data))) else Some None
  | None => Some None
  end.

Definition EncodeExtPubKey (key : CExtPubKey) : option bytes :=
  code ← CExtPubKey_Encode key; EncodeBase58Check C (EXT_PUBLIC_KEY params ++ code).

Definition DecodeExtKey (str : bytes) : option (option CExtKey) :=
  r ← DecodeBase58Check C str;
  match r with
  | Some data =>
      if has_prefix (EXT_SECRET_KEY params) BIP32_EXTKEY_SIZE data
      then Some (Some (CExtKey_Decode (drop (length (EXT_SECRET_KEY params)) data))) else Some None
  | None => Some None
  end.

Definition EncodeExtKey (key : CExtKey) : option bytes :=
  code ← CExtKey_Encode key; EncodeBase58Check C (EXT_SECRET_KEY params ++ code).
End Keys.

(** ** Theorems *)

(** What the prefixes of a chain are like *)
Definition prefixes_ok (p : Prefixes) : Prop :=
  length (PUBKEY_ADDRESS p) = 1%nat /\ length (SCRIPT_ADDRESS p) = 1%nat /\ PUBKEY_ADDRESS p <> SCRIPT_ADDRESS p /\
  are_bytes (PUBKEY_ADDRESS p) /\ are_bytes (SCRIPT_ADDRESS p) /\ hrp_ok (Bech32HRP p) /\ vsize (Bech32HRP p) <= 18 /\
  are_bytes (SECRET_KEY p) /\ are_bytes (EXT_PUBLIC_KEY p) /\ are_bytes (EXT_SECRET_KEY p) /\
  vsize (SECRET_KEY p) <= 4 /\ vsize (EXT_PUBLIC_KEY p) <= 4 /\ vsize (EXT_SECRET_KEY p) <= 4.

Lemma chain_prefixes_ok : prefixes_ok main_prefixes /\ prefixes_ok test_prefixes /\ prefixes_ok regtest_prefixes.
Proof.
  assert (H : forall s, chars s <> [] ->
    forallb (fun c => (33 <=? c) && (c <=? 126) && negb ((char "A" <=? c) && (c <=? char "Z"))) (chars s) = true -> hrp_ok (chars s)).
  { intros s Hn H. split; [done | ]. apply Forall_forall. intros c Hc. rewrite forallb_forall in H. apply list_elem_of_In, H in Hc.
    unfold printable, not_upper. zbool. lia. }
  assert (H1 : hrp_ok (chars "qc")) by by apply H. assert (H2 : hrp_ok (chars "tq")) by by apply H.
  assert (H3 : hrp_ok (chars "qcrt")) by by apply H. split; [ | split].
  all: unfold prefixes_ok; cbn [PUBKEY_ADDRESS SCRIPT_ADDRESS SECRET_KEY EXT_PUBLIC_KEY EXT_SECRET_KEY Bech32HRP main_prefixes test_prefixes regtest_prefixes].
  all: split_and!; first [assumption | reflexivity | discriminate | by repeat constructor].
Qed.

Lemma has_prefix_app p n d : vsize d = n -> has_prefix p n (p ++ d) = true /\ drop (length p) (p ++ d) = d.
Proof.
  intros Hd. unfold has_prefix. rewrite vsize_app, take_app_length, drop_app_length, bool_decide_true by done. split; [ | done].
  apply andb_true_iff. split; [ | done]. apply Z.eqb_eq. lia.
Qed.

Lemma has_prefix_inv p n d : has_prefix p n d = true -> d = p ++ drop (length p) d /\ vsize (drop (length p) d) = n.
Proof.
  unfold has_prefix. intros H. apply andb_true_iff in H as [H1 H2]. apply Z.eqb_eq in H1. apply bool_decide_eq_true in H2.
  assert (E : d = p ++ drop (length p) d) by (rewrite <- H2 at 1; by rewrite take_drop). split; [done | ].
  rewrite E in H1 at 1. rewrite vsize_app in H1. lia.
Qed.

Lemma printable_not_space c : printable c -> isspace c = false /\ c <> 0.
Proof. unfold printable, isspace. intros H. split; [ | lia]. destruct ((c =? 32) || _) eqn:E; [ | done]. zbool; lia. Qed.

Lemma Encode_printable hrp vs : hrp_ok hrp -> digits 32 vs -> Forall printable (Encode hrp vs) /\ vsize (Encode hrp vs) = vsize hrp + vsize vs + 7.
Proof.
  intros [_ Hh] Hv. assert (Hp : Forall printable hrp) by (eapply Forall_impl; [exact Hh | by intros c [? _]]).
  destruct (CreateChecksum_ok hrp vs Hp Hv) as [Cd Cl]. unfold Encode. cbv zeta. split.
  - apply Forall_app. split; [done | ]. apply Forall_app. split; [by repeat constructor | ]. apply Forall_fmap.
    eapply Forall_impl; [by apply Forall_app; split; [exact Hv | exact Cd] | ]. intros v Hvv. by apply (charset_entry v Hvv).
  - rewrite !vsize_app. change (vsize [char "1"]) with 1. unfold vsize. rewrite length_fmap, length_app, Cl. lia.
Qed.

Section Texts.
Context (C : Crypto) (params : Prefixes).
Context (HC : hash_returns_bytes C) (HP : prefixes_ok params).

Lemma no_spaces_around sp s sp' : Forall printable (sp ++ s ++ sp') -> spaces sp -> spaces sp' -> sp = [] /\ sp' = [].
Proof.
  intros Hp H1 H2. apply Forall_app in Hp as [P1 Hp]. apply Forall_app in Hp as [_ P2]. split.
  - destruct sp as [ | c sp]; [done | ]. apply Forall_cons in P1 as [P1 _]. apply Forall_cons in H1 as [H1 _]. apply printable_not_space in P1 as [P1 _]. congruence.
  - destruct sp' as [ | c sp']; [done | ]. apply Forall_cons in P2 as [P2 _]. apply Forall_cons in H2 as [H2 _]. apply printable_not_space in P2 as [P2 _]. congruence.
Qed.

(** A text of more than 35 printable characters is not the base 58 form of 21 bytes. *)
Lemma long_text_not_base58 s data : Forall printable s -> vsize s < 2 ^ 29 -> DecodeBase58Check C s = Some (Some data) ->
  vsize data = 21 -> vsize s <= 35.
Proof.
  intros Hp Hs E Hd. unfold DecodeBase58Check in E.
  rewrite c_str_id in E by (eapply Forall_impl; [exact Hp | ]; intros c Hc; by apply printable_not_space).
  apply EncodeBase58Check_Decode in E as (Hb & sp & t & sp' & Et & -> & H1 & H2); [ | done].
  destruct (no_spaces_around sp t sp' Hp H1 H2) as [-> ->]. rewrite app_nil_r. cbn [app].
  destruct (DecodeBase58Check_Encode C HC data Hb ltac:(lia)) as (t' & Et' & _ & _ & Hl). rewrite Et in Et'. injection Et' as <-.
  rewrite Hd in Hl. exact Hl.
Qed.

Definition witness_values (version : Z) (program : bytes) : list Z := [version] ++ fst (ConvertBits 8 5 true program).

Lemma witness_values_ok v p : 0 <= v < 32 -> are_bytes p -> vsize p <= 40 ->
  digits 32 (witness_values v p) /\ vsize (witness_values v p) = 1 + (8 * vsize p + 4) / 5 /\
  vsize (Bech32HRP params) + vsize (witness_values v p) <= 83.
Proof.
  intros Hv Hp Hs. destruct HP as (_ & _ & _ & _ & _ & _ & Hh & _). destruct (ConvertBits_size 5 p ltac:(lia) Hp) as [El Ed].
  unfold witness_values. rewrite vsize_app, El. change (vsize [v]) with 1. replace (8 * vsize p + 5 - 1) with (8 * vsize p + 4) by lia.
  split; [by constructor | ]. split; [done | ]. pose proof (vsize_nonneg p). Z.to_euclidean_division_equations. lia.
Qed.

Lemma DecodeWitness_text v p : 0 <= v < 32 -> are_bytes p -> vsize p <= 40 ->
  DecodeWitness params (Encode (Bech32HRP params) (witness_values v p)) =
    if v =? 0 then if vsize p =? 20 then WitnessV0KeyHash p else if vsize p =? 32 then WitnessV0ScriptHash p else CNoDestination
    else if (16 <? v) || (vsize p <? 2) || (40 <? vsize p) then CNoDestination else WitnessUnknown v p.
Proof.
  intros Hv Hp Hs. destruct (witness_values_ok v p Hv Hp Hs) as (Hd & _ & Hl). destruct HP as (_ & _ & _ & _ & _ & Hh & _).
  unfold DecodeWitness. rewrite Decode_Encode by done. cbn [fst snd witness_values app]. rewrite bool_decide_true by done.
  by rewrite ConvertBits_round by (done || lia).
Qed.

(** A witness program's text is read back, unless it happens to be a checked base 58 text too. *)
Lemma witness_text_read v p : 0 <= v < 32 -> are_bytes p -> vsize p <= 40 -> let s := Encode (Bech32HRP params) (witness_values v p) in
  DecodeDestination C params s = Some (DecodeWitness params s) \/
  vsize p <= 16 /\ exists data, DecodeBase58Check C s = Some (Some data) /\ vsize data = 21.
Proof.
  intros Hv Hp Hs s. destruct (witness_values_ok v p Hv Hp Hs) as (Hd & Hl & Hl2). destruct HP as (P1 & P2 & _ & _ & _ & Hh & Hh2 & _).
  destruct (Encode_printable (Bech32HRP params) _ Hh Hd) as [Hpr Hsz]. fold s in Hpr, Hsz.
  assert (Hss : vsize s < 2 ^ 29) by lia.
  assert (Hcs : c_str s = s) by (apply c_str_id; eapply Forall_impl; [exact Hpr | ]; intros c Hc; by apply printable_not_space).
  destruct (DecodeBase58Check_total C s ltac:(lia)) as (r & Er). rewrite <- Hcs in Er at 1. fold (DecodeBase58Check C s) in Er.
  unfold DecodeDestination. rewrite Er. cbn [mbind option_bind]. destruct r as [data | ]; [ | by left].
  assert (Hlong : vsize data = 21 -> vsize p <= 16).
  { intros H21. pose proof (long_text_not_base58 s data Hpr Hss Er H21) as H35. pose proof (vsize_pos (Bech32HRP params) (proj1 Hh)).
    rewrite Hl in Hsz. Z.to_euclidean_division_equations. lia. }
  destruct (has_prefix (PUBKEY_ADDRESS params) 20 data) eqn:E1; [ | destruct (has_prefix (SCRIPT_ADDRESS params) 20 data) eqn:E2; [ | by left]].
  all: right; assert (vsize data = 21) as H21
    by (match goal with H : has_prefix _ _ _ = true |- _ => apply andb_true_iff in H as [H _]; apply Z.eqb_eq in H end; unfold vsize in *; lia).
  all: split; [by apply Hlong | eauto].
Qed.

Lemma hash_text_read p id : are_bytes p -> length p = 1%nat -> are_bytes id -> vsize id = 20 ->
  exists s, EncodeBase58Check C (p ++ id) = Some s /\ DecodeBase58Check C s = Some (Some (p ++ id)).
Proof.
  intros Hp Hl Hi Hs. destruct (DecodeBase58Check_Encode C HC (p ++ id)) as (s & E & _ & D & _); [by apply Forall_app | | eauto].
  rewrite vsize_app. unfold vsize at 1. lia.
Qed.

Lemma destination_read d : destination_ok d -> exists s, EncodeDestination C params d = Some s /\
  (DecodeDestination C params s = Some d \/
   exists v p data, d = WitnessUnknown v p /\ vsize p <= 16 /\ DecodeBase58Check C s = Some (Some data) /\ vsize data = 21).
Proof.
  destruct HP as (P1 & P2 & Pd & B1 & B2 & _). destruct d as [ | id | id | id | id | v p]; cbn [destination_ok EncodeDestination]; intros Hd; [done | | | | | ].
  - destruct Hd as [Hl Hb]. destruct (hash_text_read _ id B1 P1 Hb Hl) as (s & E & D). exists s. split; [done | left].
    unfold DecodeDestination. rewrite D. cbn [mbind option_bind]. by destruct (has_prefix_app (PUBKEY_ADDRESS params) 20 id Hl) as [-> ->].
  - destruct Hd as [Hl Hb]. destruct (hash_text_read _ id B2 P2 Hb Hl) as (s & E & D). exists s. split; [done | left].
    unfold DecodeDestination. rewrite D. cbn [mbind option_bind]. destruct (has_prefix_app (SCRIPT_ADDRESS params) 20 id Hl) as [H1 H2].
    destruct (has_prefix (PUBKEY_ADDRESS params) 20 (SCRIPT_ADDRESS params ++ id)) eqn:E1; [ | by rewrite H1, H2].
    exfalso. apply Pd. apply has_prefix_inv in E1 as [E1 _]. apply app_inj_1 in E1 as [E1 _]; [done | congruence].
  - destruct Hd as [Hl Hb]. eexists. split; [reflexivity | left]. fold (witness_values 0 id).
    destruct (witness_text_read 0 id ltac:(lia) Hb ltac:(lia)) as [-> | [H16 _]]; [ | lia]. by rewrite DecodeWitness_text, Hl by (done || lia).
  - destruct Hd as [Hl Hb]. eexists. split; [reflexivity | left]. fold (witness_values 0 id).
    destruct (witness_text_read 0 id ltac:(lia) Hb ltac:(lia)) as [-> | [H16 _]]; [ | lia]. by rewrite DecodeWitness_text, Hl by (done || lia).
  - destruct Hd as (Hv & Hl & Hb). destruct ((v <? 1) || (16 <? v) || (vsize p <? 2) || (40 <? vsize p)) eqn:Eg; [zbool; lia | ].
    eexists. split; [reflexivity | ]. assert (u8 v = v) as -> by (apply Z.mod_small; lia). fold (witness_values v p).
    destruct (witness_text_read v p ltac:(lia) Hb ltac:(lia)) as [-> | (H16 & data & Hd & H21)]; [left | right; by exists v, p, data].
    rewrite DecodeWitness_text by (done || lia). rewrite (proj2 (Z.eqb_neq v 0)) by lia.
    destruct ((16 <? v) || (vsize p <? 2) || (40 <? vsize p)) eqn:E2; [zbool; lia | done].
Qed.

Lemma DecodeWitness_canonical str d : DecodeWitness params str = d -> d <> CNoDestination ->
  destination_ok d /\ EncodeDestination C params d = Some (LowerCase <$> str).
Proof.
  intros E Hn. unfold DecodeWitness in E. destruct (Decode str) as [hrp vs] eqn:Ed. cbn [fst snd] in E.
  destruct vs as [ | v syms]; [congruence | ]. destruct (bool_decide (hrp = Bech32HRP params)) eqn:Eh; [ | congruence].
  apply bool_decide_eq_true in Eh. destruct HP as (_ & _ & _ & _ & _ & [Hne _] & _).
  apply Encode_Decode in Ed as (_ & Hd & _ & _ & Et); [ | congruence]. apply Forall_cons in Hd as [Hv Hd].
  destruct (ConvertBits 5 8 false syms) as [data [ | ]] eqn:Ec; [ | congruence].
  apply ConvertBits_canonical in Ec as [Hb Ec]; [ | lia | done].
  assert (Er : Encode (Bech32HRP params) ([v] ++ fst (ConvertBits 8 5 true data)) = LowerCase <$> str) by (by rewrite Ec, <- Eh).
  destruct (Z.eqb_spec v 0) as [-> | Hv0].
  - destruct (Z.eqb_spec (vsize data) 20) as [E20 | _]; [subst d; split; [done | by cbn [EncodeDestination]; rewrite Er] | ].
    destruct (Z.eqb_spec (vsize data) 32) as [E32 | _]; [subst d; split; [done | by cbn [EncodeDestination]; rewrite Er] | congruence].
  - destruct ((16 <? v) || (vsize data <? 2) || (40 <? vsize data)) eqn:Eg; [congruence | ]. subst d. zbool.
    split; [split; [lia | split; [lia | done]] | ]. cbn [EncodeDestination].
    destruct ((v <? 1) || (16 <? v) || (vsize data <? 2) || (40 <? vsize data)) eqn:Eg; [zbool; lia | ].
    assert (u8 v = v) as -> by (apply Z.mod_small; lia). by rewrite Er.
Qed.

Lemma vsize_c_str s : vsize (c_str s) <= vsize s.
Proof. induction s as [ | c s IH]; [done | ]. cbn [c_str]. rewrite vsize_cons. destruct (c =? 0); [pose proof (vsize_nonneg s); change (vsize []) with 0; lia | rewrite vsize_cons; lia]. Qed.

Lemma destination_canonical str d : vsize str < 2 ^ 29 -> DecodeDestination C params str = Some d -> d <> CNoDestination ->
  destination_ok d /\ exists s, EncodeDestination C params d = Some s /\
  (LowerCase <$> str = s \/ exists sp sp', c_str str = sp ++ s ++ sp' /\ spaces sp /\ spaces sp').
Proof.
  intros Hs E Hn. unfold DecodeDestination in E. destruct (DecodeBase58Check C str) as [r | ] eqn:Eb; [ | done]. cbn [mbind option_bind] in E.
  assert (Hw : DecodeWitness params str = d -> destination_ok d /\ exists s, EncodeDestination C params d = Some s /\
    (LowerCase <$> str = s \/ exists sp sp', c_str str = sp ++ s ++ sp' /\ spaces sp /\ spaces sp')).
  { intros Ew. destruct (DecodeWitness_canonical str d Ew Hn) as [H1 H2]. split; [done | eauto]. }
  destruct r as [data | ]; [ | injection E as E; by apply Hw].
  assert (Hh : forall p, has_prefix p 20 data = true -> are_bytes (drop (length p) data) /\ vsize (drop (length p) data) = 20 /\
    exists s, EncodeBase58Check C (p ++ drop (length p) data) = Some s /\
      (LowerCase <$> str = s \/ exists sp sp', c_str str = sp ++ s ++ sp' /\ spaces sp /\ spaces sp')).
  { intros p Hp. apply has_prefix_inv in Hp as [Ep Hl]. unfold DecodeBase58Check in Eb.
    apply EncodeBase58Check_Decode in Eb as (Hbytes & sp & s & sp' & Es & Ec & H1 & H2); [ | pose proof (vsize_c_str str); lia].
    split; [by apply Forall_drop | ]. split; [done | ]. exists s. rewrite <- Ep. split; [done | right; eauto]. }
  destruct (has_prefix (PUBKEY_ADDRESS params) 20 data) eqn:E1.
  { injection E as <-. destruct (Hh _ E1) as (H1 & H2 & H3). split; [done | exact H3]. }
  destruct (has_prefix (SCRIPT_ADDRESS params) 20 data) eqn:E2; [ | injection E as E; by apply Hw].
  injection E as <-. destruct (Hh _ E2) as (H1 & H2 & H3). split; [done | exact H3].
Qed.
End Texts.

(** (C34) Addresses.  Reading a text as a destination always ends.  The address of a destination is
    read back as that destination; the one exception are programs of an unknown witness version of at
    most 16 bytes whose Bech32 text is, by accident, also a base 58 text of 21 bytes with a matching
    checksum.  And a text that is read as a destination is that destination's address: exactly, but
    for white space around a base 58 text (and whatever follows a zero byte), or for the case of a
    Bech32 text. *)
Theorem address_texts C params : hash_returns_bytes C -> prefixes_ok params ->
  (forall str, vsize str < 2 ^ 29 -> exists d, DecodeDestination C params str = Some d) /\
  (forall d, destination_ok d -> exists s, EncodeDestination C params d = Some s /\
    (DecodeDestination C params s = Some d \/
     exists v p data, d = WitnessUnknown v p /\ vsize p <= 16 /\ DecodeBase58Check C s = Some (Some data) /\ vsize data = 21)) /\
  (forall str d, vsize str < 2 ^ 29 -> DecodeDestination C params str = Some d -> d <> CNoDestination ->
    destination_ok d /\ exists s, EncodeDestination C params d = Some s /\
    (LowerCase <$> str = s \/ exists sp sp', c_str str = sp ++ s ++ sp' /\ spaces sp /\ spaces sp')).
Proof.
  intros HC HP. split; [ | split].
  - intros str Hs. unfold DecodeDestination, DecodeBase58Check. pose proof (vsize_c_str str).
    destruct (DecodeBase58Check_total C (c_str str) ltac:(lia)) as (r & ->). cbn [mbind option_bind].
    destruct r as [data | ]; [ | eauto]. destruct (has_prefix _ 20 data); [eauto | ]. destruct (has_prefix _ 20 data); eauto.
  - intros d Hd. by apply destination_read.
  - intros str d. by apply destination_canonical.
Qed.

Lemma sample_hash_ok : hash_returns_bytes sample_crypto.
Proof.
  assert (H : forall b, are_bytes b -> length (take 32 (b ++ replicate 32 0)) = 32%nat /\ are_bytes (take 32 (b ++ replicate 32 0))).
  { intros b Hb. split; [rewrite length_take, length_app, length_replicate; lia | ]. apply Forall_take, Forall_app. split; [done | by apply Forall_replicate]. }
  intros b Hb. unfold Hash256. cbn [SHA256 sample_crypto]. apply H. by apply H.
Qed.

Lemma address_texts_witness :
  (exists s, EncodeDestination sample_crypto main_prefixes (WitnessV0KeyHash (replicate 20 7)) = Some s /\
    (DecodeDestination sample_crypto main_prefixes s = Some (WitnessV0KeyHash (replicate 20 7)) \/
     exists v p data, WitnessV0KeyHash (replicate 20 7) = WitnessUnknown v p /\ vsize p <= 16 /\
       DecodeBase58Check sample_crypto s = Some (Some data) /\ vsize data = 21)) /\
  exists s, EncodeDestination sample_crypto main_prefixes (DestKeyID (replicate 20 5)) = Some s /\
    (DecodeDestination sample_crypto main_prefixes s = Some (DestKeyID (replicate 20 5)) \/
     exists v p data, DestKeyID (replicate 20 5) = WitnessUnknown v p /\ vsize p <= 16 /\
       DecodeBase58Check sample_crypto s = Some (Some data) /\ vsize data = 21).
Proof.
  destruct (address_texts sample_crypto main_prefixes sample_hash_ok (proj1 chain_prefixes_ok)) as (_ & H & _).
  split; apply H; (split; [reflexivity | ]); by apply Forall_replicate.
Defined.

(** *** Keys *)

Lemma child_number_value b5 b6 b7 b8 : is_byte b5 -> is_byte b6 -> is_byte b7 -> is_byte b8 ->
  child_number b5 b6 b7 b8 = ((b5 * 256 + b6) * 256 + b7) * 256 + b8.
Proof.
  unfold is_byte, child_number. intros H5 H6 H7 H8.
  assert (Hs : forall a k, 0 <= k -> Z.shiftl a k = a * 2 ^ k) by (intros; by apply Z.shiftl_mul_pow2).
  assert (E1 : Z.lor (Z.shiftl b5 24) (Z.shiftl b6 16) = Z.shiftl (b5 * 256 + b6) 16)
    by (rewrite Z.lor_comm, lor_shiftl_add by (rewrite ?Hs; lia); rewrite !Hs by lia; lia).
  assert (E2 : Z.lor (Z.shiftl (b5 * 256 + b6) 16) (Z.shiftl b7 8) = Z.shiftl ((b5 * 256 + b6) * 256 + b7) 8)
    by (rewrite Z.lor_comm, lor_shiftl_add by (rewrite ?Hs; lia); rewrite !Hs by lia; lia).
  rewrite E1, E2, Z.lor_comm, lor_shiftl_add by lia. rewrite u32_id; lia.
Qed.

Lemma child_bytes_ok n : in_u 32 n -> are_bytes (child_bytes n) /\
  child_number (Z.land (Z.shiftr n 24) 0xFF) (Z.land (Z.shiftr n 16) 0xFF) (Z.land (Z.shiftr n 8) 0xFF) (Z.land (Z.shiftr n 0) 0xFF) = n.
Proof.
  intros Hn. assert (E : forall k, Z.land (Z.shiftr n k) 255 = Z.shiftr n k mod 256) by (intros k; apply land_255).
  assert (Hb : forall k, is_byte (Z.land (Z.shiftr n k) 255)) by (intros k; rewrite E; apply Z.mod_pos_bound; lia).
  split; [by repeat constructor; apply Hb | ]. rewrite child_number_value by apply Hb. rewrite !E, !Z.shiftr_div_pow2 by lia.
  change (2 ^ 24) with 16777216; change (2 ^ 16) with 65536; change (2 ^ 8) with 256; change (2 ^ 0) with 1. rewrite Z.div_1_r.
  Z.to_euclidean_division_equations. lia.
Qed.

(** A valid private key, and the extended keys that are made of one *)
Definition key_ok (Check : bytes -> bool) (k : CKey) : Prop :=
  fValid k = true /\ length (keydata k) = 32%nat /\ are_bytes (keydata k) /\ Check (keydata k) = true.

Definition ext_fields_ok (depth : Z) (fingerprint : bytes) (child : Z) (chaincode : bytes) : Prop :=
  is_byte depth /\ length fingerprint = 4%nat /\ are_bytes fingerprint /\ in_u 32 child /\ length chaincode = 32%nat /\ are_bytes chaincode.

Section KeyTexts.
Context (Check : bytes -> bool) (C : Crypto) (params : Prefixes).
Context (HC : hash_returns_bytes C) (HP : prefixes_ok params).

Lemma secret_read k : key_ok Check k -> exists s, EncodeSecret C params k = Some s /\ DecodeSecret Check C params s = Some k.
Proof.
  intros (Hv & Hl & Hb & Hc). destruct HP as (_ & _ & _ & _ & _ & _ & _ & B & _ & _ & L & _). unfold EncodeSecret. rewrite Hv. cbn [negb].
  set (suffix := if fCompressed k then [1] else []). assert (Hs : are_bytes suffix) by (unfold suffix; destruct (fCompressed k); by repeat constructor).
  assert (Hsz : vsize (SECRET_KEY params ++ keydata k ++ suffix) = vsize (SECRET_KEY params) + 32 + (if fCompressed k then 1 else 0)).
  { assert (vsize (keydata k) = 32) as Hk by (unfold vsize; lia). rewrite !vsize_app, Hk. unfold suffix.
    destruct (fCompressed k); [change (vsize [1]) with 1 | change (vsize []) with 0]; lia. }
  destruct (DecodeBase58Check_Encode C HC (SECRET_KEY params ++ keydata k ++ suffix)) as (s & E & _ & D & _).
  { apply Forall_app. split; [done | ]. by apply Forall_app. }
  { rewrite Hsz. destruct (fCompressed k); lia. }
  exists s. split; [done | ]. unfold DecodeSecret. rewrite D. cbn [mbind option_bind]. rewrite Hsz, take_app_length, drop_app_length, (bool_decide_true (SECRET_KEY params = _)) by done.
  assert (Et : take 32 (keydata k ++ suffix) = keydata k) by (by apply take_app_length').
  assert (Ek : CKey_Set Check CKey_new (keydata k) (fCompressed k) = k).
  { unfold CKey_Set. unfold vsize. rewrite Hl, Hc. destruct k as [v c d]. cbn in *. by subst v. }
  rewrite Et. destruct (fCompressed k) eqn:Ec.
  - assert (El : last (SECRET_KEY params ++ keydata k ++ suffix) = Some 1) by (unfold suffix; rewrite app_assoc; apply last_snoc).
    rewrite El, bool_decide_true by done. rewrite (proj2 (Z.eqb_neq _ (32 + _))) by lia. rewrite (proj2 (Z.eqb_eq _ (33 + _))) by lia. cbn [andb orb]. by rewrite Ek.
  - rewrite (proj2 (Z.eqb_eq _ (32 + _))) by lia. rewrite (proj2 (Z.eqb_neq _ (33 + _))) by lia. cbn [andb orb]. by rewrite Ek.
Qed.

Lemma secret_canonical str k : vsize str < 2 ^ 29 -> DecodeSecret Check C params str = Some k -> fValid k = true ->
  exists s sp sp', EncodeSecret C params k = Some s /\ c_str str = sp ++ s ++ sp' /\ spaces sp /\ spaces sp'.
Proof.
  intros Hs E Hv. unfold DecodeSecret in E. destruct (DecodeBase58Check C str) as [[data | ] | ] eqn:Ed; [ | by injection E as <- | done].
  cbn [mbind option_bind] in E. pose proof (vsize_c_str str). unfold DecodeBase58Check in Ed.
  apply EncodeBase58Check_Decode in Ed as (Hb & sp & s & sp' & Es & Ec & H1 & H2); [ | lia]. cbv zeta in E.
  set (p := SECRET_KEY params) in *. destruct (((vsize data =? 32 + vsize p) || _) && _) eqn:Eg; [ | by injection E as <-].
  apply andb_true_iff in Eg as [Eg Ep]. apply bool_decide_eq_true in Ep.
  assert (Edata : data = p ++ drop (length p) data) by (rewrite <- Ep at 1; by rewrite take_drop).
  set (rest := drop (length p) data) in *. injection E as <-. unfold CKey_Set in *.
  destruct (negb (vsize (take 32 rest) =? vsize (keydata CKey_new))) eqn:El; [done | ]. destruct (Check (take 32 rest)); [ | done].
  exists s, sp, sp'. split; [ | done]. unfold EncodeSecret. cbn [fValid negb keydata fCompressed]. rewrite <- Es.
  assert (Hd : vsize data = vsize p + vsize rest) by (rewrite Edata at 1; apply vsize_app).
  assert (Er : rest = take 32 rest ++ (if vsize data =? 33 + vsize p then [1] else [])).
  { rewrite <- (take_drop 32 rest) at 1. f_equal. apply orb_true_iff in Eg as [Eg | Eg].
    - apply Z.eqb_eq in Eg. rewrite (proj2 (Z.eqb_neq _ (33 + _))) by lia. apply drop_ge. unfold vsize in *. lia.
    - apply andb_true_iff in Eg as [Eg Elast]. rewrite Eg. apply Z.eqb_eq in Eg. apply bool_decide_eq_true in Elast.
      assert (length (drop 32 rest) = 1%nat) as Hone by (rewrite length_drop; unfold vsize in *; lia).
      rewrite Edata, <- (take_drop 32 rest), app_assoc in Elast. destruct (drop 32 rest) as [ | x [ | y r]]; try done. rewrite last_snoc in Elast. congruence. }
  fold p. by rewrite <- Er, <- Edata.
Qed.

(** The code of an extended key is taken apart as it was put together. *)
Lemma ext_code_fields depth fp child cc tail : ext_fields_ok depth fp child cc ->
  let code := [depth] ++ fp ++ child_bytes child ++ cc ++ tail in
  at_ code 0 = depth /\ take 4 (drop 1 code) = fp /\ child_number (at_ code 5) (at_ code 6) (at_ code 7) (at_ code 8) = child /\
  take 32 (drop 9 code) = cc /\ drop 41 code = tail /\ (are_bytes tail -> are_bytes code).
Proof.
  intros (Hd & Fl & Fb & Hc & Cl & Cb). destruct (child_bytes_ok child Hc) as [Bb Be].
  destruct fp as [ | f0 [ | f1 [ | f2 [ | f3 [ | ]]]]]; try done. cbv zeta. split; [done | ]. split; [done | ]. split; [exact Be | ].
  split; [transitivity (take 32 (cc ++ tail)); [reflexivity | by apply take_app_length'] | ].
  split; [transitivity (drop 32 (cc ++ tail)); [reflexivity | by apply drop_app_length'] | ].
  intros Ht. apply Forall_app. split; [by constructor | ]. apply Forall_app. split; [done | ]. apply Forall_app. split; [done | ]. by apply Forall_app.
Qed.

(** An extended key text, given how the code of the key is read *)
Lemma ext_text_read prefix code : are_bytes prefix -> vsize prefix <= 4 -> are_bytes code -> vsize code = BIP32_EXTKEY_SIZE ->
  exists s, EncodeBase58Check C (prefix ++ code) = Some s /\ DecodeBase58Check C s = Some (Some (prefix ++ code)) /\
    has_prefix prefix BIP32_EXTKEY_SIZE (prefix ++ code) = true /\ drop (length prefix) (prefix ++ code) = code.
Proof.
  intros Hp Hl Hc Hs. destruct (DecodeBase58Check_Encode C HC (prefix ++ code)) as (s & E & _ & D & _); [by apply Forall_app | | ].
  { rewrite vsize_app, Hs. unfold BIP32_EXTKEY_SIZE. lia. }
  exists s. split; [done | ]. split; [done | ]. by apply has_prefix_app.
Qed.

Lemma ext_code_size depth fp child cc tail n : ext_fields_ok depth fp child cc -> vsize tail = n ->
  vsize ([depth] ++ fp ++ child_bytes child ++ cc ++ tail) = 41 + n.
Proof. intros (_ & Fl & _ & _ & Cl & _) Ht. rewrite !vsize_app, Ht. unfold vsize. rewrite Fl, Cl. cbn [length child_bytes]. lia. Qed.

Lemma ext_pubkey_read k : ext_fields_ok (xp_nDepth k) (xp_vchFingerprint k) (xp_nChild k) (xp_chaincode k) ->
  vsize (xp_pubkey k) = 33 -> are_bytes (xp_pubkey k) -> CPubKey_Set (xp_pubkey k) = xp_pubkey k ->
  exists s, EncodeExtPubKey C params k = Some s /\ DecodeExtPubKey C params s = Some (Some k).
Proof.
  intros Hf Hl Hb Hk. destruct HP as (_ & _ & _ & _ & _ & _ & _ & _ & B & _ & _ & L & _). unfold EncodeExtPubKey, CExtPubKey_Encode. rewrite Hl.
  cbn [Z.eqb Pos.eqb negb mbind option_bind]. destruct (ext_code_fields _ _ _ _ (xp_pubkey k) Hf) as (E0 & E1 & E2 & E3 & E4 & B1).
  set (code := [xp_nDepth k] ++ _) in *.
  destruct (ext_text_read (EXT_PUBLIC_KEY params) code B L) as (s & Es & Ed & Eh & Edr).
  { by apply B1. }
  { unfold code. by rewrite (ext_code_size _ _ _ _ _ 33 Hf). }
  exists s. split; [done | ]. unfold DecodeExtPubKey. rewrite Ed. cbn [mbind option_bind]. rewrite Eh, Edr.
  unfold CExtPubKey_Decode. rewrite E0, E1, E2, E3, E4, Hk. by destruct k.
Qed.

Lemma ext_key_read k : ext_fields_ok (xk_nDepth k) (xk_vchFingerprint k) (xk_nChild k) (xk_chaincode k) ->
  key_ok Check (xk_key k) -> fCompressed (xk_key k) = true ->
  exists s, EncodeExtKey C params k = Some s /\ DecodeExtKey Check C params s = Some (Some k).
Proof.
  intros Hf (Kv & Kl & Kb & Kc) Hcomp. destruct HP as (_ & _ & _ & _ & _ & _ & _ & _ & _ & B & _ & _ & L).
  unfold EncodeExtKey, CExtKey_Encode, CKey_size. rewrite Kv. assert (Hl : vsize (keydata (xk_key k)) = 32) by (unfold vsize; lia). rewrite Hl.
  cbn [Z.eqb Pos.eqb negb mbind option_bind]. destruct (ext_code_fields _ _ _ _ ([0] ++ keydata (xk_key k)) Hf) as (E0 & E1 & E2 & E3 & E4 & B1).
  set (code := [xk_nDepth k] ++ _) in *.
  destruct (ext_text_read (EXT_SECRET_KEY params) code B L) as (s & Es & Ed & Eh & Edr).
  { apply B1. apply Forall_app. split; [by repeat constructor | done]. }
  { unfold code. rewrite (ext_code_size _ _ _ _ _ 33 Hf); [done | ]. rewrite vsize_app, Hl. reflexivity. }
  exists s. split; [done | ]. unfold DecodeExtKey. rewrite Ed. cbn [mbind option_bind]. rewrite Eh, Edr.
  unfold CExtKey_Decode. replace (drop 42 code) with (drop 1 (drop 41 code)) by (rewrite drop_drop; done). rewrite E0, E1, E2, E3, E4.
  cbn [app drop]. rewrite ?drop_0. unfold CKey_Set. rewrite Hl, Kc. change (vsize (keydata CKey_new)) with 32. cbn [Z.eqb Pos.eqb negb].
  destruct k as [d f c cc [v co kd]]. cbn in *. by subst v co.
Qed.
End KeyTexts.

(** Keys.  The text of a private key is read back as the key, and a text that is read as a valid
    key is the text of that key, up to the white space around it.  The texts of extended public keys,
    and of extended private keys, which are always read as keys with a compressed public key, are
    read back as the keys. *)
Theorem key_texts Check C params : hash_returns_bytes C -> prefixes_ok params ->
  (forall k, key_ok Check k -> exists s, EncodeSecret C params k = Some s /\ DecodeSecret Check C params s = Some k) /\
  (forall str k, vsize str < 2 ^ 29 -> DecodeSecret Check C params str = Some k -> fValid k = true ->
    exists s sp sp', EncodeSecret C params k = Some s /\ c_str str = sp ++ s ++ sp' /\ spaces sp /\ spaces sp') /\
  (forall k, ext_fields_ok (xp_nDepth k) (xp_vchFingerprint k) (xp_nChild k) (xp_chaincode k) ->
    vsize (xp_pubkey k) = 33 -> are_bytes (xp_pubkey k) -> CPubKey_Set (xp_pubkey k) = xp_pubkey k ->
    exists s, EncodeExtPubKey C params k = Some s /\ DecodeExtPubKey C params s = Some (Some k)) /\
  (forall k, ext_fields_ok (xk_nDepth k) (xk_vchFingerprint k) (xk_nChild k) (xk_chaincode k) ->
    key_ok Check (xk_key k) -> fCompressed (xk_key k) = true ->
    exists s, EncodeExtKey C params k = Some s /\ DecodeExtKey Check C params s = Some (Some k)).
Proof.
  intros HC HP. split; [ | split; [ | split]].
  - intros k. by apply secret_read.
  - intros str k. by apply secret_canonical.
  - intros k. by apply ext_pubkey_read.
  - intros k. by apply ext_key_read.
Qed.

Lemma key_texts_witness :
  exists s, EncodeSecret sample_crypto main_prefixes (mk_CKey true true (replicate 32 9)) = Some s /\
    DecodeSecret (fun _ => true) sample_crypto main_prefixes s = Some (mk_CKey true true (replicate 32 9)).
Proof.
  destruct (key_texts (fun _ => true) sample_crypto main_prefixes sample_hash_ok (proj1 chain_prefixes_ok)) as (H & _).
  apply H. split; [reflexivity | ]. split; [reflexivity | ]. split; [by apply Forall_replicate | reflexivity].
Defined.
