(* ===== verification/RollingBloom.v ===== *)
(** * The rolling Bloom filter ([CRollingBloomFilter] of [src/bloom.h] and [src/bloom.cpp])

    A filter that remembers what was inserted lately.  Every place of the filter has two bits, at the
    same position of two neighbouring words: zero when the place is not set, and otherwise the number,
    one to three, of the generation in which it was last set.  When a generation is full its number
    goes round, and the places set two generations before the last are wiped, for all bits of a word at a time.

    The abstract view of a filter says for every place in which generation, counted from the
    beginning, it was last set.  Theorems: insertion refines the update of that view, and the filter
    contains whatever was inserted within the last two generations, so at least the number of
    elements it was made for. *)

From stdpp Require Import list.
From S2P Require Import Prelude Bloom.
Open Scope Z_scope.
Abbreviation length := Datatypes.length (only parsing).

(** ** Definitions *)

Record CRollingBloomFilter : Type := mk_rolling {
  nEntriesPerGeneration : Z;
  nEntriesThisGeneration : Z;
  nGeneration : Z;
  r_data : list Z;
  r_nTweak : Z;
  r_nHashFuncs : Z }.

(** [nTweak] is what [GetRand] returns. *)
Definition Rolling_reset (f : CRollingBloomFilter) (tweak : Z) : CRollingBloomFilter :=
  mk_rolling (nEntriesPerGeneration f) 0 1 (replicate (length (r_data f)) 0) tweak (r_nHashFuncs f).

(** The constructor: [funcs] is the rounded quotient of logarithms, [nFilterBits] the number of bits computed with them *)
Definition CRollingBloomFilter_new (nElements funcs nFilterBits tweak : Z) : CRollingBloomFilter :=
  Rolling_reset (mk_rolling (u32 (nElements + 1) / 2) 0 0
    (replicate (Z.to_nat (Z.shiftl (u32 (nFilterBits + 63) / 64) 1)) 0) 0 (Z.max 1 (Z.min funcs 50))) tweak.

Definition RollingBloomHash (nHashNum tweak : Z) (vDataToHash : bytes) : Z :=
  MurmurHash3 (u32 (nHashNum * 0xFBA4C795 + tweak)) vDataToHash.

Definition FastMod (x n : Z) : Z := u32 (Z.shiftr (u64 (x * n)) 32).

(** The loop that wipes the entries of a generation, two words at a time *)
Fixpoint wipe (mask1 mask2 : Z) (data : list Z) : list Z :=
  match data with
  | p1 :: p2 :: data =>
      let mask := Z.lor (Z.lxor p1 mask1) (Z.lxor p2 mask2) in
      Z.land p1 mask :: Z.land p2 mask :: wipe mask1 mask2 data
  | _ => data
  end.

Definition put_bit (d bit v : Z) : Z := Z.lor (Z.land d (u64 (Z.lnot (Z.shiftl 1 bit)))) (u64 (Z.shiftl v bit)).

(** One turn of the loop over the hash functions in [insert] *)
Definition place (data : list Z) (gen h : Z) : list Z :=
  let bit := Z.land h 0x3F in
  let pos := FastMod h (vsize data) in
  let lo := Z.to_nat (Z.land pos (u32 (Z.lnot 1))) in
  let hi := Z.to_nat (Z.lor pos 1) in
  let data := <[lo := put_bit (nth lo data 0) bit (Z.land gen 1)]> data in
  <[hi := put_bit (nth hi data 0) bit (Z.shiftr gen 1)]> data.

Fixpoint place_all (n : nat) (i tweak : Z) (data : list Z) (gen : Z) (vKey : bytes) : list Z :=
  match n with
  | O => data
  | S n => place_all n (i + 1) tweak (place data gen (RollingBloomHash i tweak vKey)) gen vKey
  end.

Definition Rolling_insert (f : CRollingBloomFilter) (vKey : bytes) : CRollingBloomFilter :=
  let '(this, gen, data) :=
    if nEntriesThisGeneration f =? nEntriesPerGeneration f then
      let gen := nGeneration f + 1 in
      let gen := if gen =? 4 then 1 else gen in
      let nGenerationMask1 := u64 (0 - Z.land gen 1) in
      let nGenerationMask2 := u64 (0 - Z.shiftr gen 1) in
      (0, gen, wipe nGenerationMask1 nGenerationMask2 (r_data f))
    else (nEntriesThisGeneration f, nGeneration f, r_data f) in
  mk_rolling (nEntriesPerGeneration f) (this + 1) gen
    (place_all (Z.to_nat (r_nHashFuncs f)) 0 (r_nTweak f) data gen vKey) (r_nTweak f) (r_nHashFuncs f).

Definition place_set (data : list Z) (h : Z) : bool :=
  let bit := Z.land h 0x3F in
  let pos := FastMod h (vsize data) in
  negb (Z.land (Z.shiftr (Z.lor (nth (Z.to_nat (Z.land pos (u32 (Z.lnot 1)))) data 0) (nth (Z.to_nat (Z.lor pos 1)) data 0)) bit) 1 =? 0).

Fixpoint all_set (n : nat) (i tweak : Z) (data : list Z) (vKey : bytes) : bool :=
  match n with
  | O => true
  | S n => if negb (place_set data (RollingBloomHash i tweak vKey)) then false else all_set n (i + 1) tweak data vKey
  end.

Definition Rolling_contains (f : CRollingBloomFilter) (vKey : bytes) : bool :=
  all_set (Z.to_nat (r_nHashFuncs f)) 0 (r_nTweak f) (r_data f) vKey.

(** ** Theorems *)

(** *** Places *)

(** The place of a hash: the pair of words, and the bit *)
Definition spot (size h : Z) : nat * Z := (Z.to_nat (FastMod h size / 2), Z.land h 0x3F).

(** What the two bits of a place say *)
Definition tag (data : list Z) (s : nat * Z) : Z :=
  (if Z.testbit (nth (2 * fst s) data 0) (snd s) then 1 else 0) + (if Z.testbit (nth (2 * fst s + 1) data 0) (snd s) then 2 else 0).

(** The vector has pairs of words. *)
Definition paired (data : list Z) (pairs : nat) : Prop := length data = (2 * pairs)%nat /\ 0 < Z.of_nat pairs < 2 ^ 31.

Definition spot_ok (pairs : nat) (s : nat * Z) : Prop := (fst s < pairs)%nat /\ 0 <= snd s < 64.

Lemma FastMod_range x n : 0 <= x < 2 ^ 32 -> 0 < n < 2 ^ 32 -> 0 <= FastMod x n < n.
Proof.
  intros Hx Hn. unfold FastMod. rewrite u64_id by nia. rewrite Z.shiftr_div_pow2 by lia.
  assert (H : 0 <= x * n / 2 ^ 32 < n) by (split; [apply Z.div_pos; nia | apply Z.div_lt_upper_bound; nia]). rewrite u32_id; lia.
Qed.

Lemma pos_parts pos : 0 <= pos < 2 ^ 32 ->
  Z.to_nat (Z.land pos (u32 (Z.lnot 1))) = (2 * Z.to_nat (pos / 2))%nat /\ Z.to_nat (Z.lor pos 1) = (2 * Z.to_nat (pos / 2) + 1)%nat.
Proof.
  intros Hp. assert (0 <= pos / 2) by (apply Z.div_pos; lia).
  assert (E1 : Z.land pos (u32 (Z.lnot 1)) = 2 * (pos / 2)).
  { apply Z.bits_inj'. intros n Hn. rewrite Z.land_spec. unfold u32. destruct (decide (n < 32)).
    - rewrite Z.mod_pow2_bits_low, Z.lnot_spec by lia. destruct (Z.eqb_spec n 0) as [-> | Hn0].
      + rewrite Z.testbit_even_0. apply andb_false_r.
      + change 1 with (2 ^ 0) at 1. rewrite Z.pow2_bits_false by lia. rewrite andb_true_r.
        replace n with (Z.succ (n - 1)) by lia. rewrite Z.testbit_even_succ by lia.
        rewrite <- Z.div2_div, Z.div2_spec, Z.shiftr_spec by lia; f_equal; lia.
    - rewrite <- (Z.mod_small pos (2 ^ 32)) at 1 by lia. rewrite Z.mod_pow2_bits_high, andb_false_l by lia.
      symmetry. rewrite <- (Z.mod_small (2 * (pos / 2)) (2 ^ 32)) by (pose proof (Z.mul_div_le pos 2 ltac:(lia)); lia).
      by rewrite Z.mod_pow2_bits_high by lia. }
  assert (E2 : Z.lor pos 1 = 2 * (pos / 2) + 1).
  { apply Z.bits_inj'. intros n Hn. rewrite Z.lor_spec. destruct (Z.eqb_spec n 0) as [-> | Hn0].
    - rewrite Z.testbit_odd_0. apply orb_true_r.
    - change 1 with (2 ^ 0) at 1. rewrite Z.pow2_bits_false by lia. rewrite orb_false_r.
      replace n with (Z.succ (n - 1)) by lia. rewrite Z.testbit_odd_succ by lia.
      rewrite <- Z.div2_div, Z.div2_spec, Z.shiftr_spec by lia; f_equal; lia. }
  rewrite E1, E2. lia.
Qed.

Lemma spot_range data pairs h : paired data pairs -> 0 <= h < 2 ^ 32 -> spot_ok pairs (spot (vsize data) h) /\
  0 <= FastMod h (vsize data) < 2 ^ 32.
Proof.
  intros [Hl Hp] Hh. assert (Hs : vsize data = 2 * Z.of_nat pairs) by (unfold vsize; lia).
  pose proof (FastMod_range h (vsize data) Hh ltac:(lia)) as Hf. unfold spot_ok, spot. cbn [fst snd]. split; [split | lia].
  - assert (FastMod h (vsize data) / 2 < Z.of_nat pairs) by (apply Z.div_lt_upper_bound; lia).
    assert (0 <= FastMod h (vsize data) / 2) by (apply Z.div_pos; lia). lia.
  - assert (E : Z.land h 63 = h mod 64) by (apply (Z.land_ones h 6); lia). rewrite E. apply Z.mod_pos_bound. lia.
Qed.

Lemma MurmurHash3_range seed data : 0 <= MurmurHash3 seed data < 2 ^ 32.
Proof.
  unfold MurmurHash3. cbv zeta. match goal with |- context [Z.lxor (u32 ?x) _] => pose proof (u32_range x) as H; set (h := u32 x) in * end.
  apply lxor_bound; [done | done | ]. rewrite Z.shiftr_div_pow2 by lia. split; [apply Z.div_pos; lia | ].
  apply Z.div_lt_upper_bound; lia.
Qed.

(** *** The bits *)

Lemma put_bit_spec d bit v i : 0 <= bit < 64 -> 0 <= i < 64 -> 0 <= v <= 1 ->
  Z.testbit (put_bit d bit v) i = if i =? bit then v =? 1 else Z.testbit d i.
Proof.
  intros Hb Hi Hv. unfold put_bit, u64. rewrite Z.lor_spec, Z.land_spec, !Z.mod_pow2_bits_low, Z.lnot_spec, Z.shiftl_1_l, Z.pow2_bits_eqb by lia.
  rewrite (Z.eqb_sym bit i). rewrite Z.shiftl_spec by lia. destruct (Z.eqb_spec i bit) as [-> | Hn].
  - rewrite andb_false_r, Z.sub_diag, orb_false_l. assert (v = 0 \/ v = 1) as [-> | ->] by lia; done.
  - rewrite andb_true_r. assert (Z.testbit v (i - bit) = false) as ->; [ | apply orb_false_r].
    destruct (decide (i < bit)); [apply Z.testbit_neg_r; lia | ]. assert (v = 0 \/ v = 1) as [-> | ->] by lia; [apply Z.bits_0 | ].
    change 1 with (2 ^ 0). apply Z.pow2_bits_false. lia.
Qed.

Lemma tag_range data s : 0 <= tag data s <= 3.
Proof. unfold tag. destruct (Z.testbit _ _), (Z.testbit _ _); lia. Qed.

Lemma paired_place data pairs gen h : paired data pairs -> paired (place data gen h) pairs /\ vsize (place data gen h) = vsize data.
Proof. intros [Hl Hp]. unfold place, vsize, paired. cbv zeta. by rewrite !length_insert. Qed.

Lemma tag_place data pairs gen h s : paired data pairs -> 0 <= h < 2 ^ 32 -> 1 <= gen <= 3 -> spot_ok pairs s ->
  tag (place data gen h) s = if decide (s = spot (vsize data) h) then gen else tag data s.
Proof.
  intros Hpd Hh Hg [Hs1 Hs2]. destruct (spot_range data pairs h Hpd Hh) as [[Hr1 Hr2] Hf]. destruct Hpd as [Hl Hp].
  destruct s as [q i]. unfold spot in *. cbn [fst snd] in *. unfold tag, place. cbv zeta. cbn [fst snd].
  destruct (pos_parts _ Hf) as [-> ->]. set (p := Z.to_nat (FastMod h (vsize data) / 2)) in *. set (bit := Z.land h 63) in *.
  rewrite !nth_insert by (rewrite ?length_insert; lia).
  rewrite !(decide_False (P := (2 * p + 1 = 2 * q)%nat)), !(decide_False (P := (2 * p = 2 * q + 1)%nat)), (decide_False (P := (2 * p = 2 * p + 1)%nat)) by lia.
  assert (Hg1 : 0 <= Z.land gen 1 <= 1 /\ 0 <= Z.shiftr gen 1 <= 1) by (assert (gen = 1 \/ gen = 2 \/ gen = 3) as [-> | [-> | ->]] by lia; vm_compute; intuition discriminate).
  destruct (decide (p = q)) as [<- | Hn].
  - rewrite !decide_True by done. rewrite !put_bit_spec by lia. destruct (Z.eqb_spec i bit) as [-> | Hi].
    + rewrite decide_True by done. assert (gen = 1 \/ gen = 2 \/ gen = 3) as [-> | [-> | ->]] by lia; reflexivity.
    + rewrite decide_False by congruence. done.
  - rewrite !(decide_False (P := (2 * p = 2 * q)%nat)), !(decide_False (P := (2 * p + 1 = 2 * q + 1)%nat)) by lia.
    rewrite decide_False by congruence. done.
Qed.

Lemma tag_set data pairs h : paired data pairs -> 0 <= h < 2 ^ 32 ->
  place_set data h = negb (tag data (spot (vsize data) h) =? 0).
Proof.
  intros Hpd Hh. destruct (spot_range data pairs h Hpd Hh) as [[_ Hr2] Hf]. unfold place_set, tag, spot. cbv zeta. cbn [fst snd] in *.
  destruct (pos_parts _ Hf) as [-> ->]. etransitivity; [apply (land_power_bit _ 0); lia | ]. rewrite Z.shiftr_spec, Z.lor_spec, Z.add_0_l by lia.
  by destruct (Z.testbit _ _), (Z.testbit _ _).
Qed.

Lemma wipe_spec m1 m2 data n : length data = (2 * n)%nat -> length (wipe m1 m2 data) = length data /\
  forall q, (q < n)%nat -> let p1 := nth (2 * q) data 0 in let p2 := nth (2 * q + 1) data 0 in let mask := Z.lor (Z.lxor p1 m1) (Z.lxor p2 m2) in
    nth (2 * q) (wipe m1 m2 data) 0 = Z.land p1 mask /\ nth (2 * q + 1) (wipe m1 m2 data) 0 = Z.land p2 mask.
Proof.
  revert data. induction n as [ | n IH]; intros data Hl; [destruct data; [split; [done | intros q Hq; lia] | done] | ].
  destruct data as [ | p1 [ | p2 data]]; [done | simpl in Hl; lia | ]. cbn [length] in Hl. destruct (IH data ltac:(lia)) as [E H]. cbn [wipe length].
  split; [lia | ]. intros [ | q] Hq; [done | ]. cbv zeta. replace (2 * S q)%nat with (S (S (2 * q))) by lia. cbn [nth Nat.add]. apply (H q). lia.
Qed.

Lemma tag_wipe data pairs gen s : paired data pairs -> 1 <= gen <= 3 -> spot_ok pairs s ->
  paired (wipe (u64 (0 - Z.land gen 1)) (u64 (0 - Z.shiftr gen 1)) data) pairs /\
  tag (wipe (u64 (0 - Z.land gen 1)) (u64 (0 - Z.shiftr gen 1)) data) s = if tag data s =? gen then 0 else tag data s.
Proof.
  intros [Hl Hp] Hg [Hs1 Hs2]. destruct (wipe_spec (u64 (0 - Z.land gen 1)) (u64 (0 - Z.shiftr gen 1)) data pairs Hl) as [El H].
  split; [split; lia | ]. unfold tag. destruct (H (fst s) Hs1) as [-> ->]. cbv zeta.
  rewrite !Z.land_spec, !Z.lor_spec, !Z.lxor_spec.
  assert (Hm : Z.testbit (u64 (0 - Z.land gen 1)) (snd s) = Z.testbit gen 0 /\ Z.testbit (u64 (0 - Z.shiftr gen 1)) (snd s) = Z.testbit gen 1).
  { unfold u64. rewrite !Z.mod_pow2_bits_low by lia. assert (gen = 1 \/ gen = 2 \/ gen = 3) as [-> | [-> | ->]] by lia.
    all: cbn [Z.land Z.shiftr Z.sub Z.opp Z.add Pos.land Z.shiftl Z.of_N Z.div2 Pos.div2 Pos.iter Z.pos_sub].
    all: rewrite ?Z.bits_m1, ?Z.bits_0 by lia; done. }
  destruct Hm as [-> ->]. assert (gen = 1 \/ gen = 2 \/ gen = 3) as [-> | [-> | ->]] by lia.
  all: by destruct (Z.testbit (nth (2 * fst s) data 0) (snd s)), (Z.testbit (nth (2 * fst s + 1) data 0) (snd s)).
Qed.

(** *** Keys *)

(** The places of a key *)
Fixpoint spots (n : nat) (i tweak size : Z) (vKey : bytes) : list (nat * Z) :=
  match n with
  | O => []
  | S n => spot size (RollingBloomHash i tweak vKey) :: spots n (i + 1) tweak size vKey
  end.

Lemma spots_ok data pairs n i tweak k : paired data pairs -> Forall (spot_ok pairs) (spots n i tweak (vsize data) k).
Proof.
  intros Hp. revert i. induction n as [ | n IH]; intros i; [constructor | ]. cbn [spots]. constructor; [ | apply IH].
  apply (spot_range data pairs); [done | apply MurmurHash3_range].
Qed.

Lemma place_all_spec n i tweak data pairs gen k : paired data pairs -> 1 <= gen <= 3 ->
  paired (place_all n i tweak data gen k) pairs /\ vsize (place_all n i tweak data gen k) = vsize data /\
  forall s, spot_ok pairs s -> tag (place_all n i tweak data gen k) s =
    if decide (s ∈ spots n i tweak (vsize data) k) then gen else tag data s.
Proof.
  intros Hp Hg. revert i data Hp. induction n as [ | n IH]; intros i data Hp.
  { split; [done | ]. split; [done | ]. intros s _. cbn [place_all spots]. by rewrite decide_False by apply not_elem_of_nil. }
  cbn [place_all spots]. set (h := RollingBloomHash i tweak k). destruct (paired_place data pairs gen h Hp) as [Hp1 Hv1].
  destruct (IH (i + 1) _ Hp1) as (Hp2 & Hv2 & Ht). split; [done | ]. split; [lia | ]. intros s Hs. rewrite Ht by done. rewrite Hv1.
  rewrite (tag_place data pairs) by (done || apply MurmurHash3_range).
  destruct (decide (s ∈ spots n (i + 1) tweak (vsize data) k)) as [Hin | Hnin].
  - rewrite decide_True; [done | ]. apply elem_of_cons. by right.
  - destruct (decide (s = spot (vsize data) h)) as [-> | Hne]; [rewrite decide_True; [done | apply elem_of_cons; by left] | ].
    rewrite decide_False; [done | ]. rewrite elem_of_cons. tauto.
Qed.

Lemma all_set_spec n i tweak data pairs k : paired data pairs ->
  (all_set n i tweak data k = true <-> forall s, s ∈ spots n i tweak (vsize data) k -> tag data s <> 0).
Proof.
  intros Hp. revert i. induction n as [ | n IH]; intros i; cbn [all_set spots].
  { split; [ | done]. intros _ s Hs. by apply elem_of_nil in Hs. }
  rewrite (tag_set data pairs) by (done || apply MurmurHash3_range). rewrite negb_involutive.
  destruct (Z.eqb_spec (tag data (spot (vsize data) (RollingBloomHash i tweak k))) 0) as [E | E].
  - split; [done | ]. intros H. exfalso. apply (H _ ltac:(apply elem_of_cons; by left)). done.
  - rewrite IH. split; intros H s Hs; [apply elem_of_cons in Hs as [-> | Hs]; auto | apply H, elem_of_cons; by right].
Qed.

(** *** Generations *)

(** The generation, counted from zero, that is current after [n] insertions *)
Definition generation (n E : Z) : Z := if n =? 0 then 0 else (n - 1) / E.

Lemma generation_range n E : 0 < E -> 0 <= n -> 0 <= generation n E /\ generation n E * E <= n <= generation n E * E + E.
Proof.
  intros HE Hn. unfold generation. destruct (Z.eqb_spec n 0) as [-> | Hn0]; [lia | ].
  pose proof (Z.div_pos (n - 1) E ltac:(lia) HE). pose proof (Z.mul_div_le (n - 1) E HE). pose proof (Z.mul_succ_div_gt (n - 1) E HE). lia.
Qed.

Lemma generation_next n E : 0 < E -> 0 <= n ->
  generation (n + 1) E = if n - generation n E * E =? E then generation n E + 1 else generation n E.
Proof.
  intros HE Hn. pose proof (generation_range n E HE Hn). unfold generation at 1. rewrite (proj2 (Z.eqb_neq _ 0)) by lia.
  replace (n + 1 - 1) with n by lia. symmetry. destruct (Z.eqb_spec (n - generation n E * E) E).
  - apply Z.div_unique with 0; lia.
  - apply Z.div_unique with (n - generation n E * E); lia.
Qed.

(** What the bits of a place that was last set in generation [g] say when [cur] is the current one *)
Definition shown (cur : Z) (last : option Z) : Z :=
  match last with
  | Some g => if cur - 2 <=? g then g mod 3 + 1 else 0
  | None => 0
  end.

(** The abstract view: [n] insertions were made, and [last] says in which generation each place was last set. *)
Record view (f : CRollingBloomFilter) (pairs : nat) (n : Z) (last : nat * Z -> option Z) : Prop := {
  v_pairs : paired (r_data f) pairs;
  v_per : 0 < nEntriesPerGeneration f;
  v_n : 0 <= n;
  v_this : nEntriesThisGeneration f = n - generation n (nEntriesPerGeneration f) * nEntriesPerGeneration f;
  v_gen : nGeneration f = generation n (nEntriesPerGeneration f) mod 3 + 1;
  v_last : forall s g, last s = Some g -> 0 <= g <= generation n (nEntriesPerGeneration f);
  v_tags : forall s, spot_ok pairs s -> tag (r_data f) s = shown (generation n (nEntriesPerGeneration f)) (last s) }.

(** The places of a key in a filter *)
Definition key_spots (f : CRollingBloomFilter) (k : bytes) : list (nat * Z) :=
  spots (Z.to_nat (r_nHashFuncs f)) 0 (r_nTweak f) (vsize (r_data f)) k.

Lemma shown_wiped cur g : 0 <= g <= cur ->
  (if shown cur (Some g) =? (cur + 1) mod 3 + 1 then 0 else shown cur (Some g)) = shown (cur + 1) (Some g).
Proof.
  intros Hg. unfold shown. destruct (Z.leb_spec (cur - 2) g), (Z.leb_spec (cur + 1 - 2) g); try lia.
  - destruct (Z.eqb_spec (g mod 3 + 1) ((cur + 1) mod 3 + 1)) as [E | E]; [ | done]. exfalso.
    pose proof (Z.div_mod g 3). pose proof (Z.div_mod (cur + 1) 3). lia.
  - assert (g = cur - 2) as -> by lia. replace (cur + 1) with (cur - 2 + 1 * 3) by lia. rewrite Z.mod_add by lia. by rewrite Z.eqb_refl.
  - destruct (Z.eqb_spec 0 ((cur + 1) mod 3 + 1)); done.
Qed.

Lemma mod3 a : a mod 3 = 0 \/ a mod 3 = 1 \/ a mod 3 = 2.
Proof. pose proof (Z.mod_pos_bound a 3). lia. Qed.

Lemma next_generation g : (if g mod 3 + 1 + 1 =? 4 then 1 else g mod 3 + 1 + 1) = (g + 1) mod 3 + 1.
Proof.
  rewrite (Z.add_mod g 1 3) by lia. destruct (mod3 g) as [-> | [-> | ->]]; reflexivity.
Qed.

(** Insertion, as an update of the abstract view *)
Lemma insert_view f pairs n last k : view f pairs n last ->
  view (Rolling_insert f k) pairs (n + 1) (fun s => if decide (s ∈ key_spots f k) then Some (generation (n + 1) (nEntriesPerGeneration f)) else last s) /\
  nEntriesPerGeneration (Rolling_insert f k) = nEntriesPerGeneration f /\ forall k', key_spots (Rolling_insert f k) k' = key_spots f k'.
Proof.
  intros [Vp VE Vn Vt Vg Vl Vs]. set (E := nEntriesPerGeneration f) in *. set (cur := generation n E) in *.
  pose proof (generation_next n E VE Vn) as Hnext. fold cur in Hnext. pose proof (generation_range n E VE Vn) as Hcur. fold cur in Hcur.
  set (cur' := generation (n + 1) E) in *.
  assert (Hdata : exists this data, Rolling_insert f k = mk_rolling E (this + 1) (cur' mod 3 + 1)
      (place_all (Z.to_nat (r_nHashFuncs f)) 0 (r_nTweak f) data (cur' mod 3 + 1) k) (r_nTweak f) (r_nHashFuncs f) /\
    this + 1 = n + 1 - cur' * E /\ paired data pairs /\ vsize data = vsize (r_data f) /\
    forall s, spot_ok pairs s -> tag data s = shown cur' (last s)).
  { unfold Rolling_insert. fold E. rewrite Vt, Vg, next_generation. destruct (Z.eqb_spec (n - cur * E) E) as [Ef | Ef].
    - rewrite Hnext. do 2 eexists. split; [reflexivity | ]. split; [lia | ].
      assert (Hg : 1 <= (cur + 1) mod 3 + 1 <= 3) by (destruct (mod3 (cur + 1)) as [-> | [-> | ->]]; lia).
      assert (Hw : forall s, spot_ok pairs s -> _) by (intros s Hs; exact (tag_wipe (r_data f) pairs _ s Vp Hg Hs)).
      assert (H0 : spot_ok pairs (O, 0)) by (split; cbn; [destruct Vp; lia | lia]). destruct (Hw _ H0) as [Hp' _].
      split; [done | ]. split; [destruct Hp' as [Hp' _], Vp as [Vp _]; unfold vsize; lia | ].
      intros s Hs. destruct (Hw s Hs) as [_ ->]. rewrite Vs by done. destruct (last s) as [g | ] eqn:El; [by apply shown_wiped, (Vl s) | ].
      cbn [shown]. destruct (Z.eqb_spec 0 ((cur + 1) mod 3 + 1)); done.
    - rewrite Hnext. do 2 eexists. split; [reflexivity | ]. split; [lia | ]. split; [done | ]. split; [done | exact Vs]. }
  destruct Hdata as (this & data & Ei & Ethis & Hp & Hv & Ht).
  assert (Hg : 1 <= cur' mod 3 + 1 <= 3) by (destruct (mod3 cur') as [-> | [-> | ->]]; lia).
  destruct (place_all_spec (Z.to_nat (r_nHashFuncs f)) 0 (r_nTweak f) data pairs (cur' mod 3 + 1) k Hp Hg) as (Hp2 & Hv2 & Ht2).
  rewrite Ei. split; [split | split]; cbn [nEntriesPerGeneration nEntriesThisGeneration nGeneration r_data]; try done; [lia | | | ].
  - intros s g. destruct (decide (s ∈ key_spots f k)) as [ | _]; [intros [= <-] | intros El; apply Vl in El; fold cur in El].
    + fold cur'. pose proof (generation_range (n + 1) E VE ltac:(lia)) as Hr. fold cur' in Hr. lia.
    + fold cur'. rewrite Hnext. destruct (n - cur * E =? E); lia.
  - intros s Hs. rewrite Ht2 by done. rewrite Hv. fold (key_spots f k). fold cur'. destruct (decide (s ∈ key_spots f k)) as [ | _]; [ | by apply Ht].
    cbn [shown]. rewrite (proj2 (Z.leb_le (cur' - 2) cur')) by lia. done.
  - intros k'. unfold key_spots. cbn [r_nHashFuncs r_nTweak r_data]. by rewrite Hv2, Hv.
Qed.

Lemma contains_view f pairs n last k : view f pairs n last ->
  (Rolling_contains f k = true <-> forall s, s ∈ key_spots f k -> exists g, last s = Some g /\ generation n (nEntriesPerGeneration f) - 2 <= g).
Proof.
  intros V. unfold Rolling_contains. rewrite (all_set_spec _ _ _ _ pairs k (v_pairs _ _ _ _ V)). fold (key_spots f k).
  assert (Hs : forall s, s ∈ key_spots f k -> spot_ok pairs s).
  { intros s Hs. pose proof (spots_ok (r_data f) pairs (Z.to_nat (r_nHashFuncs f)) 0 (r_nTweak f) k (v_pairs _ _ _ _ V)) as HF.
    rewrite Forall_forall in HF. by apply HF. }
  split; intros H s Hin; specialize (H s Hin); rewrite (v_tags _ _ _ _ V s (Hs s Hin)) in *; unfold shown in *.
  - destruct (last s) as [g | ]; [ | done]. exists g. split; [done | ]. destruct (Z.leb_spec (generation n (nEntriesPerGeneration f) - 2) g); [lia | done].
  - destruct H as (g & -> & Hg). rewrite (proj2 (Z.leb_le _ _)) by lia. pose proof (Z.mod_pos_bound g 3). lia.
Qed.

(** After a reset nothing is set. *)
Lemma reset_view f pairs tweak : paired (r_data f) pairs -> 0 < nEntriesPerGeneration f -> view (Rolling_reset f tweak) pairs 0 (fun _ => None).
Proof.
  intros [Hl Hp] HE. split; cbn [Rolling_reset r_data nEntriesPerGeneration nEntriesThisGeneration nGeneration]; try done; [split; [rewrite length_replicate; lia | done] | ].
  intros s [Hs _]. unfold tag. cbn [shown]. assert (Hn : forall i, nth i (replicate (length (r_data f)) 0) 0 = 0).
  { intros i. rewrite nth_lookup. destruct (replicate (length (r_data f)) 0 !! i) as [x | ] eqn:Ex; [ | done]. by apply lookup_replicate in Ex as [-> _]. }
  rewrite !Hn, !Z.bits_0. done.
Qed.

(** *** Sequences of insertions *)

Lemma run_view keys : forall f pairs n last, view f pairs n last ->
  exists last', view (fold_left Rolling_insert keys f) pairs (n + vsize keys) last' /\
    nEntriesPerGeneration (fold_left Rolling_insert keys f) = nEntriesPerGeneration f /\
    (forall k, key_spots (fold_left Rolling_insert keys f) k = key_spots f k) /\
    (forall s g, last s = Some g -> exists g', last' s = Some g' /\ g <= g') /\
    (forall i k s, keys !! i = Some k -> s ∈ key_spots f k ->
       exists g, last' s = Some g /\ generation (n + Z.of_nat i + 1) (nEntriesPerGeneration f) <= g) /\
    (forall s g, last' s = Some g -> last s = Some g \/
       exists i k, keys !! i = Some k /\ s ∈ key_spots f k /\ g = generation (n + Z.of_nat i + 1) (nEntriesPerGeneration f)).
Proof.
  induction keys as [ | k keys IH]; intros f pairs n last V.
  { exists last. change (vsize []) with 0. rewrite Z.add_0_r. split; [done | ]. split; [done | ]. split; [done | ]. split; [eauto with lia | ]. split; [done | by left]. }
  cbn [fold_left]. destruct (insert_view f pairs n last k V) as (V1 & E1 & K1).
  destruct (IH _ pairs (n + 1) _ V1) as (last' & V2 & E2 & K2 & M2 & H2 & O2). rewrite vsize_cons. exists last'.
  split; [by replace (n + (1 + vsize keys)) with (n + 1 + vsize keys) by lia | ]. split; [congruence | ]. split; [intros k'; by rewrite K2 | ].
  assert (Hg : forall s g, last s = Some g -> g <= generation (n + 1) (nEntriesPerGeneration f)).
  { intros s g El. pose proof (v_last _ _ _ _ V s g El). rewrite generation_next by apply V. destruct (_ =? _); lia. }
  split; [ | split].
  - intros s g El. destruct (decide (s ∈ key_spots f k)) as [Hin | Hnin].
    + destruct (M2 s (generation (n + 1) (nEntriesPerGeneration f))) as (g' & Eg & Hle); [by rewrite decide_True | ]. exists g'. split; [done | ]. pose proof (Hg s g El). lia.
    + apply M2. by rewrite decide_False.
  - intros [ | i] k' s Hk Hs; cbn [lookup list_lookup] in Hk.
    + injection Hk as <-. replace (n + Z.of_nat 0 + 1) with (n + 1) by lia. apply M2. by rewrite decide_True.
    + rewrite <- K1 in Hs. destruct (H2 i k' s Hk Hs) as (g & Eg & Hle). exists g. split; [done | ]. rewrite E1 in Hle.
      by replace (n + Z.of_nat (S i) + 1) with (n + 1 + Z.of_nat i + 1) by lia.
  - intros s g El. destruct (O2 s g El) as [Eg | (i & k' & Hk & Hs & ->)].
    + destruct (decide (s ∈ key_spots f k)) as [Hin | _]; [ | by left]. injection Eg as <-. right. exists O, k.
      split; [done | ]. split; [done | ]. f_equal. lia.
    + right. exists (S i), k'. split; [done | ]. rewrite K1 in Hs. split; [done | ]. rewrite E1. f_equal. lia.
Qed.

(** (C36) The rolling filter.  After any number of insertions into a new filter, each of the last
    [nElements] keys, the number it was made for, is contained.  And the filter forgets: when it
    contains a key, each of the key's places was set by one of the last insertions, at most one and a
    half times that number (rounded up to three generations). *)
Theorem rolling_filter_remembers nElements funcs nFilterBits tweak keys :
  0 < nElements < 2 ^ 32 - 1 -> 0 < nFilterBits <= 2 ^ 32 - 64 ->
  let f := fold_left Rolling_insert keys (CRollingBloomFilter_new nElements funcs nFilterBits tweak) in
  (forall i k, keys !! i = Some k -> vsize keys - nElements <= Z.of_nat i -> Rolling_contains f k = true) /\
  (forall k, Rolling_contains f k = true -> forall s, s ∈ key_spots f k ->
    exists i k', keys !! i = Some k' /\ vsize keys - 3 * ((nElements + 1) / 2) <= Z.of_nat i /\ s ∈ key_spots f k').
Proof.
  intros Hn Hb f. set (E := (nElements + 1) / 2). set (pairs := Z.to_nat ((nFilterBits + 63) / 64)).
  assert (HE : 0 < E /\ nElements <= 2 * E) by (subst E; Z.to_euclidean_division_equations; lia).
  assert (Hq : 0 < (nFilterBits + 63) / 64 < 2 ^ 31) by (Z.to_euclidean_division_equations; lia).
  assert (V0 : view (CRollingBloomFilter_new nElements funcs nFilterBits tweak) pairs 0 (fun _ => None)).
  { apply reset_view; cbn [r_data nEntriesPerGeneration].
    - split; [ | subst pairs; lia]. rewrite length_replicate, u32_id, Z.shiftl_mul_pow2 by lia. subst pairs. lia.
    - rewrite u32_id by lia. fold E. lia. }
  assert (EE : nEntriesPerGeneration (CRollingBloomFilter_new nElements funcs nFilterBits tweak) = E) by (cbn; by rewrite u32_id by lia).
  destruct (run_view keys _ pairs 0 _ V0) as (last' & V & E2 & K2 & _ & H2 & O2). fold f in V, E2, K2. rewrite EE in *. rewrite Z.add_0_l in V.
  pose proof (vsize_nonneg keys) as Hk. pose proof (generation_range (vsize keys) E ltac:(lia) Hk) as Hcur.
  assert (Hgen : forall i, 0 <= i -> generation (0 + i + 1) E = i / E).
  { intros i Hi. unfold generation. rewrite (proj2 (Z.eqb_neq _ 0)) by lia. f_equal. lia. }
  split.
  - intros i k Hi Hlast. apply (contains_view f pairs (vsize keys) last' k V). intros s Hs. rewrite K2 in Hs. destruct (H2 i k s Hi Hs) as (g & Eg & Hg).
    exists g. split; [done | ]. rewrite E2. rewrite Hgen in Hg by lia. apply lookup_lt_Some in Hi. unfold vsize in Hk, Hlast, Hcur |- *.
    pose proof (Z.mul_succ_div_gt (Z.of_nat i) E ltac:(lia)). set (c := generation (Z.of_nat (length keys)) E) in *.
    assert (c <= Z.of_nat i / E + 2); [ | lia]. unfold c, generation. rewrite (proj2 (Z.eqb_neq _ 0)) by lia.
    apply Z.le_trans with ((Z.of_nat i + 2 * E) / E); [apply Z.div_le_mono; lia | ]. rewrite Z.div_add by lia. lia.
  - intros k Hc s Hs. destruct (proj1 (contains_view f pairs (vsize keys) last' k V) Hc s Hs) as (g & Eg & Hg). rewrite E2 in Hg.
    destruct (O2 s g Eg) as [ | (i & k' & Hi & Hs' & ->)]; [done | ]. exists i, k'. split; [done | ]. split; [ | by rewrite K2].
    rewrite Hgen in Hg by lia. pose proof (Z.mul_div_le (Z.of_nat i) E ltac:(lia)). fold E. nia.
Qed.

Lemma rolling_filter_remembers_witness :
  let f := fold_left Rolling_insert [[1]; [2; 3]; [4]; [5]; [6; 6]; [7]] (CRollingBloomFilter_new 2 5 100 12345) in
  Rolling_contains f [7] = true.
Proof.
  destruct (rolling_filter_remembers 2 5 100 12345 [[1]; [2; 3]; [4]; [5]; [6; 6]; [7]]) as [H _]; [lia | lia | ].
  apply (H 5%nat [7]); [reflexivity | vm_compute; discriminate].
Defined.
